(* ===== verification/_CoqProject ===== *)
-Q . S2P
Prelude.v
Identity.v
Limits.v
Records.v
Gossip.v
Vocabulary.v
Model.v
Replay.v
Merge.v
Admission.v
Antientropy.v
Update.v
Steps.v
Refinement.v
Invariants.v
Convergence.v
Safety.v
Bootstrap.v
Encoding.v
Digest.v
Paging.v
VarLimits.v
Action.v
Binary64.v
Quantity.v
Expression.v
Grammar.v
Namespace.v
Rewrite.v
Evaluation.v
System.v
Resolution.v
Variables.v
Locality.v
PluginIds.v
Lock.v
LockGraph.v
Schema.v
Geometry.v
Document.v
Experiment.v
Validate.v
Edit.v
History.v
Hydrate.v
Follow.v
Compile.v
Structure.v
Settled.v
Reached.v
Lasting.v
Labels.v
Saved.v
Reopened.v
Resaved.v
Store.v
Storage.v
Governed.v
Compose.v
Equality.v
Session.v
Authority.v
Submitted.v
Served.v
Authored.v
Walkthrough.v
Workload.v
Cbor.v
Canonical.v
Closure.v
Codec.v
Recovered.v
Committed.v
Digested.v
Sound.v
Accepted.v
Packet.v
Reduction.v
Run.v
Stepping.v
