(* ===== verification/Prelude.v ===== *)
(** * Orishu and Kagami: a verification development

    Orishu is a simulation runtime whose workers form ephemeral clusters; Kagami
    is its authoring client. This development models six parts of the repository.

    The first decides who is a member of a cluster: the crates [orishu-identity]
    (the identity, label, version and fingerprint types) and [orishu-membership]
    (a pure transition function over SWIM failure detection, gossip, admission
    and anti-entropy). The asynchronous worker around it feeds that function
    messages and executes the effects it returns.

    The second gives authored numbers their meaning: the crate
    [orishu-variables], a language of expressions over named variables with
    physical units, evaluated within declared bounds. Documents, catalogs and
    workloads all evaluate through it.

    The third is what Kagami edits and keeps: the crates [kagami-document] (an
    experiment of objects with priced properties, edited by batches of commands,
    with undo), the parts of [orishu-plugin] and [kagami-catalog] it is checked
    against (the provider lock, the component schemas), and the file of
    [kagami-session] with its durable save.

    The fourth is how clients share one document: the authority of
    [kagami-session], which decides the requests of every adapter, keeps the undo
    history and tells its clients what changed.

    The fifth is what a computation is: the crate [orishu-workload], the manifest
    with its canonical bytes and digest, and the verified closure of everything
    it refers to.

    The sixth is how it is computed: [orishu-runtime] with the packets of
    [orishu-plugin]. A run asks third-party field kernels for forces, reduces
    them, lets one integrator move the objects, and commits whole steps only.

    ** The membership files

    [update(model, message) -> Transition] is the whole core: it takes the model
    by value, a peer input, a timer expiry, an operator command or the outcome of
    an earlier effect, and returns the new model, the effects to execute, the
    deltas of other subsystems and the diagnostics. Each file models one source
    file of [src/crates/].

    - [Prelude]: Rust's [Result] and [?], saturating, checked and wrapping machine
      arithmetic, [Ord] with its laws, [BTreeMap] as a finite map read in key
      order. Unsigned integers are [N]; the width is written where the code
      saturates, checks, shifts or truncates. [usize] is 64 bits.
    - [Identity] (orishu-identity/src): validated strings, protocol ranges, version
      tuples, incarnations, fingerprints with their hex text, tombstones.
    - [Limits] (limits.rs), [Records] (model.rs, effect.rs; the
      fixtures of testing.rs), [Gossip] (gossip.rs), [Vocabulary] (message.rs, effect.rs),
      [Model] (model.rs: the [Membership] record and its sequence windows),
      [Replay] (the reference semantics of those windows), [Merge] (merge.rs,
      baseline.rs), [Admission] (admission.rs), [Antientropy] (antientropy.rs).
    - [Update] (update.rs): [Module Context] is the code's [Context] with the
      mutations made explicit, every handler is a function from context to
      context, and [update] is the composition of [handle] and [Context.finish].
      [handle_leave] can panic in the code ([expect]); it returns an option and
      [None] is the panic.

    ** The membership theorems

    - [Steps] is the abstract specification: [istep msg m m'] lists the guarded
      changes a message may make to the model within one formation, [reset] the
      two ways to leave a formation. [Refinement] proves handler by handler that
      the detailed definitions are sequences of such steps; the refinement theorem
      for whole runs is in [Invariants].
    - [Invariants]: the invariant [wf] of reachable models (records keyed and
      valid, barred nodes out, this node in, probes and suspicions anchored, every
      collection within its limit), its preservation, totality of [update] on
      well-formed models within the effect and diagnostic budgets.
    - [Convergence]: merging as a join. Descriptions and liveness claims are
      merged independently, merging is idempotent, conflict-free claims commute,
      tombstones converge in any order, and the one pair of claims whose result
      depends on arrival order.
    - [Safety]: refused peers change nothing, stale timers are ignored, replicated
      state never regresses, no member is admitted without verified evidence, join
      attempts run out, and the suspicion that outlives its deadline.
    - [Bootstrap]: the admission baseline is all or nothing, and what it installs.
    - [Encoding], [Digest], [Paging]: the canonical encoding is uniquely
      decodable; without collisions equal digests are equal state and divergent
      buckets are exactly the differing ones; following the cursors of an ascending
      request delivers every record once; an unordered one can lose records.
    - [Identity], [Limits], [Gossip], [Replay], [Admission] hold the properties of
      their own operations.

    ** The files of the variable language

    - [VarLimits] (limits.rs): the bounds, their refusals and the evaluation
      budget. [Quantity] (quantity.rs): dimensions as vectors of seven [i8]
      exponents, the unit table, finite quantities. [Binary64] is Rust's [f64] on
      the Standard Library's [SpecFloat].
    - [Expression] (expression.rs): the lexer over UTF-8 bytes, the Pratt parser
      that counts nodes, depth and nesting as it goes, the evaluator that charges
      the budget node by node. Parser and evaluator are written in [Action], a
      state and error monad whose [None] is fuel running out or an index out of
      range.
    - [Namespace] (namespace.rs): names and qualified names. [Rewrite]
      (rewrite.rs): renaming symbols in a source text, its slices included, which
      may panic. [System] (system.rs, variable.rs): definition, lookup and the
      evaluation of a variable by an explicit stack, an arena of dependencies and
      a memo, all part of the state.

    ** The theorems of the variable language

    - [Grammar] states the language as a relation [derives] between token
      sequences and trees, stratified by binding power, and proves that the
      parser accepts exactly the sources it derives within the bounds, with the
      tree it derives, and that it always answers.
    - [Rewrite] also holds the agreement with the lexer: renaming a source that
      parses renames the symbols of its tree, and the two cases where it fails.
    - [Evaluation] and [Resolution] define what a variable means, [denotes], by
      recursion over the dependency graph with its height, and prove the invariant
      of the stack machine. [Variables] holds the invariant of built systems, the
      contract of [define], the exactness of [value] (it returns [q] exactly when
      the variable denotes [q] within the depth and work bounds, whatever the order
      of the symbols), that it answers for every graph, cyclic ones included, and
      the exactness of [eval]. [Locality]: a value depends only on the definitions
      it reaches.

    ** The files of the document

    - [PluginIds] (orishu-plugin: ids.rs, lib.rs, selected.rs) and [Lock]
      (authoring_lock.rs): identifiers, selections, and the validation of a
      provider lock, a closed acyclic graph in canonical order, by its counting
      of edges and its queue. [Schema] (kagami-catalog: name.rs, schema.rs,
      source.rs): component types, property schemas with their constraints, the
      registry.
    - [Geometry] and [Document] (kagami-document: geometry.rs, id.rs, name.rs,
      object.rs, variable.rs): placement, identities and their counters, labels,
      authored and stored values, objects, definitions. [Experiment] (setup.rs,
      scientific.rs, limits.rs, model.rs, command.rs): the setup, the contents of
      one revision, the experiment with its counters, the commands.
    - [Validate] (validate.rs, capability.rs, dependencies.rs): resolution of a
      value against its declaration, structural bounds, gaps and reports.
      [Edit] (update.rs): every command as a step on the edit in progress, the
      evaluation of what a batch disturbed, [update] and [restore]. [History]
      (history.rs): the bounded undo and redo stacks. [Hydrate] (hydrate.rs):
      building an experiment from a record.
    - [Compose] (authoring_lock/composition.rs): the union of two provider locks
      and the closure of chosen roots.
    - [Saved] (kagami-session: document.rs): what a save writes, how bytes are
      recognised, how an experiment is built again. [Store] (store.rs,
      persist.rs): save and load as programs of the free monad [io] over the
      operations of [FileStore].

    ** The theorems of the document

    - [LockGraph]: the validation accepts exactly the locks that satisfy the
      declared graph conditions. [Compose] also holds the theorems of its two
      operations: the merge is the union of two locks that agree on every common
      consumer, with every refusal, and the closure is the least one.
    - [Compile], [Follow], [Structure]: the affected names are the
      least closed set; what a document's variable system is; what a rename does
      to a stored source; what a batch leaves of the contents it started from.
    - [Settled] and [Reached]: a document any sequence of load, edit and restore
      reaches holds what evaluating everything again would give, by the invariant
      [settled]; the batches are those whose renames do not make a name read as an
      exponent, and what happens otherwise is [exponent_rename_breaks].
    - [Lasting]: what a load checks, kept by every operation ([loadable]).
      [Labels]: an accepted label is accepted again as it is. [Reopened]: a saved
      experiment opens again with the same contents, and the one way it does not.
      [Resaved]: opening a file in canonical order and saving it writes the same.
    - [Governed]: an accepted edit opens no capability gap; a report narrowed to
      what is present keeps one an edit repaired.
    - [History] also holds the refinement of the two stacks to a bounded timeline.
    - [Storage]: what a file system may answer ([performs]), the points a run
      passes through ([steps]), what an interruption leaves ([crashed]), and that
      at every point of a save a load finds the old document or the new one; what
      a save does when nothing fails; that leftovers block saving; and a save run
      on a concrete codec.

    ** The files of the document authority

    - [Equality]: the derived [PartialEq] of everything a request carries, numbers
      by IEEE equality; by it the authority tells a resent request from another one.
    - [Session] (kagami-session: identity.rs, command.rs, outcome.rs, view.rs,
      workspace.rs, instantiation.rs): bounded identities, commands with their
      guards, changes, events and refusals, the mode of a window, and the batch a
      catalog template becomes.
    - [Authority] (authority.rs): the [DocumentAuthority] with every operation on
      it. A method is a function to the state after it and its answer, so that
      what a refusal leaves behind is part of the model.

    ** The theorems of the document authority

    - [Submitted]: what an accepted command did, what a submission records, and
      that a refusal leaves everything as it was, the implicit close of a gesture
      apart.
    - [Served]: sessions as sequences of requests. The log of events and when a
      client can catch up from it, what a revision names, what a receipt replays,
      which receipts are kept, and the late acknowledgement that retargets the
      next document. The counters of events and revisions are assumed not to have
      run out of 64 bits ([room]).
    - [Authored]: the authority over the document's own theorems: what a session
      holds is evaluated, and its capability report hides no gap. [Walkthrough]:
      undo reverts an edit, and when it is accepted; and a session, run.

    ** The files of the workload

    - [Workload] (orishu-workload: ids.rs, digest.rs, value.rs, limits.rs,
      artifact.rs, domain.rs, graph.rs, manifest.rs, v3.rs; orishu-resource): the
      validated names, digests and their text, finite numbers, bounds, and the
      manifest of a computation in both versions, with its envelope.
    - [Cbor] and [Canonical] (canonical.rs, canonical/v3.rs): the deterministic
      encoding with its byte budget, the decoder with the profile it enforces, what
      every type of the manifest writes and reads, the digest of a workload.
    - [Closure] (closure.rs): the bounded report, the structural checks, the
      collapse of the declared artifacts, the streaming check of one blob, and
      both validations. A check is a function on the problems found so far.

    ** The theorems of the workload

    - [Codec] states the encoding as a function of the value and the canonical
      values as a predicate, and proves that the decoder reads exactly the
      encodings of canonical values.
    - [Recovered] holds the laws a field ([FieldCodec]), a value ([ValueCodec]) and
      a record of fields ([StructCodec]) keep between the two directions, and their
      closure under options, lists, maps and records; [Committed] discharges them for every type of the manifest. [Digested]: the
      bytes of a manifest are read back to it and to nothing else, except where a
      list that is written empty may not be read; a digest names one manifest.
    - [Sound]: retiring what is ready finds a cycle exactly when there is no order;
      what each check enforces ([enforces]), and what they enforce together of a
      graph, of scalars and of the domain, read off the manifest.
      [Accepted]: the declared artifacts and their budgets, the bytes of one
      artifact however they are cut, and which manifests with which bytes are
      admitted, in both versions.

    ** The files of a run

    - [Packet] (orishu-plugin: execution.rs): the records of the five packet
      schemas with their byte layouts ([Class BulkRecord] is the trait), the reader
      of a packet and its writer. [io] is the monad of a computation in a world
      that may refuse or panic; storage is asked of [Class Allocator].
    - [Reduction] (orishu-runtime: forces.rs): the sum of what the fields answer.
    - [Run] (run.rs, run/observation.rs, control.rs, grants.rs, sandbox/, and
      context.rs of orishu-plugin): buffers and their identities, the validation
      envelope, interruption, the operations a kernel is asked for, the checks of
      sandbox/bound_execution.rs ([Module Bound], [call_field_bound],
      [call_dynamics_bound]), and the owner of a run ([FixedRun]): capture, step,
      checkpoint, restore, and the leases of observers. The owner is written
      against [Class Host], and [sandboxed] is the host the checks make of a
      [Class Sandbox]. The owner and its reducer are one value, so a method is a
      function to the owner after it and its answer.

    ** The theorems of a run

    - [Packet]: the reader accepts exactly what the writer writes, for every
      schema that keeps [RecordLaws]. [Reduction]: what a reduction answers and
      when, by contributions summed in the order of the fields' names, and that
      the order in which they finished does not show.
    - [Stepping]: the invariant [sound] of a run, kept by every operation of
      [run_step], the steps of a run and of its observers in any order; what a step
      is ([whole_step]) and that a refused one changes nothing but the invocation
      number; what no sequence of steps changes of the objects ([conserved]); that
      leases stay within their budget; that a restored run goes on where the
      checkpoint was taken; that an envelope is read exactly as it is written; and
      what a component in the sandbox is really called with. A run of two bodies
      is evaluated for all of them.

    ** Parameters, fuel and bounds

    SHA-256 is a parameter ([Class Sha256]) whose documented output size is a
    law. Collision freedom is assumed only of the strings the two compared nodes
    hash ([Digest.collision_free]) and is evaluated on a concrete instance. The
    unstable partition of the gossip queue ([select_nth_unstable_by]) is a
    parameter with its documented contract. [Antientropy.fold_while] uses the
    length of the level as fuel, and every round shortens the level.
    [Paging.follow] uses one more than the number of records, and every page but
    the last carries at least one.

    [f64::powf] is a parameter ([Class Libm]), of which nothing is assumed. The
    Unicode classes of [char] are a parameter ([Class Unicode]) whose law is
    that they agree with the ASCII classes on ASCII; the Latin-1 instance, which is
    what a byte cast to [char] uses, is defined. The parser's fuel is the length of
    the source plus two: every nested call but the first follows a token.
    [System.resolve_fuel] counts, for every variable, one push, one pop and one
    turn for each symbol reference; that it is enough is part of [value_answers].

    Sine and cosine are a parameter ([Class Trigonometry], of which nothing is
    assumed). A captured scientific setup and its verification run plugin code:
    [Scientific] and [ScientificValidation]. Only [saved_document_reopens] and
    [undo_reverts_edit] assume anything of them, that the verification does not read the revision number
    ([Lasting.revision_free]). The stored view is one uninterpreted section
    ([DefaultView]), [serde_json] and the archive of container.rs are [Json] and
    [ContainerCodec], without laws: a save decodes what it is about to write, and
    the theorems start from that. [Paths] is [Path::parent]. A rename of a file is
    atomic and its effect is not lost by an interruption, which is what store.rs
    says it relies on.

    The length of a lock's canonical encoding is a parameter ([LockCodec]), so is
    the resolution of a template ([Catalog]), the equality of captured setups and
    of registries ([ScientificEq], [SchemaEq]) and the tally of retained bytes
    ([Retention]), which charges a shared allocation once. Nothing is assumed of
    them but, where an instantiation is submitted, that the batch it becomes is
    well formed ([Authored.admissible_command]).

    The decoder's fuel is one more than the depth the limits allow, and the cycle
    check makes as many rounds as there are invocations. The theorems on the
    canonical form take limits a machine can hold ([machine_limits]) and a budget
    of values that covers the bytes read; those on admission take limits that
    report at least one problem and a source whose blobs a [u64] counts
    ([countable_source]). A source of blobs is a function of the digest: what it
    fails at other than absence is not distinguished.

    What a kernel answers, whether storage is found, what a clock says and when a
    caller cancels are the world's ([Class Sandbox], [Class Host], [Class Clock],
    [Class Allocator]); nothing is assumed of them. The kernels with their
    contracts and digests are [Class Components]. Metadata of an instance is
    written and read through [Class ContextCodec], and the observables in it are
    [Class Observables]; the reading of a domain, a configuration and a query are
    fields of [Class Sandbox]. Nothing is assumed of these either. The bisection
    among the objects has one more than their number as fuel, and a round shortens
    the interval.

    ** Not modelled

    Serialization (serde), [Display] texts beyond those that reach the state or a
    hash or an error, logging, the mutex of the scratch pool, the worker's sockets,
    timers and storage. Of [kagami-document], the preparation of numerical resets
    (the [prepare_] functions of update.rs), which compares shared allocations by
    address. Of [orishu-plugin], the codecs and the inventory
    resolver. Of [kagami-catalog], loading and the resolution of templates. Of
    [kagami-session], the wire forms of commands, the report of plugin references,
    the archive codec, the interpretation of the stored view. Of [orishu-workload],
    the authored forms of a manifest. Of [orishu-runtime], the guests themselves
    (wasmtime, its stores and the grants it hands out), sampling of a leased field,
    the epoch ticker, the tie between a verified closure and compiled components
    (admission.rs); scratch vectors, which are cleared before use. The other crates
    and the applications are not modelled. *)

From Stdlib Require Import Ascii.
From stdpp Require Import base gmap strings list sorting fin_maps pretty.

(** ** Results

    Rust's [Result<A, E>], with the [?] operator as monadic bind. *)
Inductive result (E A : Type) : Type :=
  | Ok (a : A)
  | Err (e : E).
Arguments Ok {E A} a.
Arguments Err {E A} e.

#[export] Instance result_ret E : MRet (result E) := λ A, Ok.
#[export] Instance result_bind E : MBind (result E) := λ A B f r,
  match r with Ok a => f a | Err e => Err e end.
#[export] Instance result_eq_dec `{EqDecision E, EqDecision A} : EqDecision (result E A).
Proof. solve_decision. Defined.

Definition is_ok {E A} (r : result E A) : bool :=
  match r with Ok _ => true | Err _ => false end.

Definition result_map_err {E F A} (f : E → F) (r : result E A) : result F A :=
  match r with Ok a => Ok a | Err e => Err (f e) end.

(** A computation that may also fail to answer: [None] is a panic, or the fuel of
    a bounded loop running out. *)
Definition outcome (E A : Type) : Type := option (result E A).
#[export] Instance outcome_ret E : MRet (outcome E) := λ A a, Some (Ok a).
#[export] Instance outcome_bind E : MBind (outcome E) := λ A B f m,
  match m with Some (Ok a) => f a | Some (Err e) => Some (Err e) | None => None end.
Definition answer {E A} (r : result E A) : outcome E A := Some r.
Definition refuse {E A} (e : E) : outcome E A := Some (Err e).
Definition outcome_map_err {E F A} (f : E → F) (m : outcome E A) : outcome F A :=
  match m with Some r => Some (result_map_err f r) | None => None end.

Lemma outcome_bind_ok {E A B} (m : outcome E A) (f : A → outcome E B) b :
  m ≫= f = Some (Ok b) ↔ ∃ a, m = Some (Ok a) ∧ f a = Some (Ok b).
Proof. unfold mbind, outcome_bind. destruct m as [[a|e]|]; naive_solver. Qed.
Lemma result_bind_ok {E A B} (m : result E A) (f : A → result E B) b :
  m ≫= f = Ok b ↔ ∃ a, m = Ok a ∧ f a = Ok b.
Proof. unfold mbind, result_bind. destruct m as [a|e]; naive_solver. Qed.

(** A [?]-style loop over a list: the first error stops it. *)
Fixpoint try_for_each {E A} (f : A → result E unit) (l : list A) : result E unit :=
  match l with
  | [] => Ok ()
  | x :: l => _ ← f x; try_for_each f l
  end.

(** ** Machine integers

    Unsigned machine integers are [N]; the width shows up where the code
    saturates, checks or shifts. [usize] is 64 bits wide. *)
Definition u16_max : N := 65535.
Definition u32_max : N := 4294967295.
Definition u64_max : N := 18446744073709551615.
Definition usize_max : N := u64_max.

Definition saturating_add (width_max a b : N) : N := N.min (a + b) width_max.
Definition saturating_mul (width_max a b : N) : N := N.min (a * b) width_max.

Definition checked_add (width_max a b : N) : option N :=
  if (a + b <=? width_max)%N then Some (a + b)%N else None.

(** [x << d] on a [w]-bit unsigned integer: the bits shifted out are lost. *)
Definition wrapping_shl (w x d : N) : N := (N.shiftl x d mod 2 ^ w)%N.

(** [usize] addition in a build without overflow checks. *)
Definition wrapping_add_usize (a b : N) : N := ((a + b) mod 2 ^ 64)%N.

Definition lenN {A} (l : list A) : N := N.of_nat (length l).

(** [Iterator::take] with a machine-width count. *)
Fixpoint takeN {A} (n : N) (l : list A) : list A :=
  match l with
  | [] => []
  | x :: l => if (n =? 0)%N then [] else x :: takeN (N.pred n) l
  end.

(** ** Total orders ([Ord])

    [BTreeMap] iterates in key order, and derived [Ord] is lexicographic. *)
Class Ord (A : Type) := cmp : A → A → comparison.
#[export] Hint Mode Ord ! : typeclass_instances.

Arguments cmp : simpl never.

Class OrdLaws (A : Type) `{Ord A} : Prop := {
  cmp_eq : ∀ x y : A, cmp x y = Eq ↔ x = y;
  cmp_antisym : ∀ x y : A, cmp y x = CompOpp (cmp x y);
  cmp_lt_trans : ∀ x y z : A, cmp x y = Lt → cmp y z = Lt → cmp x z = Lt
}.

Definition cmp_ltb `{Ord A} (x y : A) : bool := match cmp x y with Lt => true | _ => false end.
Definition cmp_gtb `{Ord A} (x y : A) : bool := match cmp x y with Gt => true | _ => false end.
Definition cmp_leb `{Ord A} (x y : A) : bool := negb (cmp_gtb x y).
Definition cmp_geb `{Ord A} (x y : A) : bool := negb (cmp_ltb x y).

Declare Scope ord_scope.
Delimit Scope ord_scope with ord.
Notation "x ≺ y" := (cmp x y = Lt) (at level 70, no associativity) : ord_scope.
Notation "x ⪯ y" := (cmp x y ≠ Gt) (at level 70, no associativity) : ord_scope.
Open Scope ord_scope.

(** [Ordering::then]: the derived lexicographic combination. *)
Definition then_cmp (a b : comparison) : comparison :=
  match a with Eq => b | c => c end.

#[export] Instance N_ord : Ord N := N.compare.
#[export] Instance ascii_ord : Ord ascii := λ a b, N.compare (N_of_ascii a) (N_of_ascii b).

Fixpoint list_cmp `{Ord A} (l k : list A) : comparison :=
  match l, k with
  | [], [] => Eq
  | [], _ :: _ => Lt
  | _ :: _, [] => Gt
  | x :: l, y :: k => then_cmp (cmp x y) (list_cmp l k)
  end.
#[export] Instance list_ord `{Ord A} : Ord (list A) := list_cmp.

#[export] Instance prod_ord `{Ord A, Ord B} : Ord (A * B) := λ a b,
  then_cmp (cmp a.1 b.1) (cmp a.2 b.2).

(** [std::cmp::Reverse]. *)
Record Reverse (A : Type) : Type := reverse_of { unreverse : A }.
Arguments reverse_of {A} _.
Arguments unreverse {A} _.
#[export] Instance Reverse_ord `{Ord A} : Ord (Reverse A) := λ a b, cmp (unreverse b) (unreverse a).

(** Text is its UTF-8 bytes, and [str] compares bytewise. *)
Abbreviation bytes := (list ascii).
Definition bytes_of (s : string) : bytes := String.list_ascii_of_string s.
Definition str_len (s : string) : N := lenN (bytes_of s).
#[export] Instance string_ord : Ord string := λ s t, cmp (bytes_of s) (bytes_of t).

(** ** BTreeMap as a finite map read in key order *)
Definition entry_le `{Ord K} {V} (a b : K * V) : Prop := a.1 ⪯ b.1.
#[export] Instance entry_le_dec `{Ord K} {V} (a b : K * V) : Decision (entry_le a b).
Proof. unfold entry_le. solve_decision. Defined.

Definition btree_entries `{Countable K, Ord K} {V} (m : gmap K V) : list (K * V) :=
  merge_sort entry_le (map_to_list m).
Definition btree_keys `{Countable K, Ord K} {V} (m : gmap K V) : list K :=
  (btree_entries m).*1.
Definition btree_values `{Countable K, Ord K} {V} (m : gmap K V) : list V :=
  (btree_entries m).*2.
Definition map_len `{Countable K} {V} (m : gmap K V) : N := N.of_nat (size m).
Definition contains_key `{Countable K} {V} (k : K) (m : gmap K V) : bool :=
  bool_decide (is_Some (m !! k)).

(** ** Laws of the orders *)
Section ord_laws.
Context `{Ord A, !OrdLaws A}.

Lemma cmp_refl (x : A) : cmp x x = Eq.
Proof. by apply cmp_eq. Qed.

Lemma cmp_gt_lt (x y : A) : cmp x y = Gt ↔ y ≺ x.
Proof. rewrite (cmp_antisym y x). by destruct (cmp y x). Qed.

Lemma cmp_lt_irrefl (x : A) : ¬ x ≺ x.
Proof. by rewrite cmp_refl. Qed.

Lemma cmp_le_lt_or_eq (x y : A) : x ⪯ y ↔ x ≺ y ∨ x = y.
Proof.
  destruct (cmp x y) eqn:E.
  - apply cmp_eq in E. naive_solver.
  - naive_solver.
  - split; [done|]. intros [?|<-]; [done|]. by rewrite cmp_refl in E.
Qed.

Lemma cmp_le_trans (x y z : A) : x ⪯ y → y ⪯ z → x ⪯ z.
Proof.
  rewrite !cmp_le_lt_or_eq. intros [?| ->] [?| <-]; eauto using cmp_lt_trans.
Qed.

Lemma cmp_le_antisym (x y : A) : x ⪯ y → y ⪯ x → x = y.
Proof.
  rewrite !cmp_le_lt_or_eq. intros [Hxy|?] [Hyx|?]; [|done..].
  destruct (cmp_lt_irrefl x). by eapply cmp_lt_trans.
Qed.

Lemma cmp_le_total (x y : A) : x ⪯ y ∨ y ⪯ x.
Proof. rewrite (cmp_antisym x y). destruct (cmp x y); naive_solver. Qed.

#[export] Instance entry_le_trans {V} : Transitive (entry_le (K:=A) (V:=V)).
Proof. intros a b c. unfold entry_le. apply cmp_le_trans. Qed.

#[export] Instance entry_le_total {V} : Total (entry_le (K:=A) (V:=V)).
Proof. intros a b. apply cmp_le_total. Qed.

Lemma cmp_geb_spec (x y : A) : cmp_geb x y = true ↔ y ⪯ x.
Proof.
  unfold cmp_geb, cmp_ltb. rewrite (cmp_antisym x y).
  destruct (cmp x y); naive_solver.
Qed.

Lemma cmp_gtb_spec (x y : A) : cmp_gtb x y = true ↔ y ≺ x.
Proof. unfold cmp_gtb. rewrite <- cmp_gt_lt. destruct (cmp x y); naive_solver. Qed.
End ord_laws.

#[export] Instance N_ord_laws : OrdLaws N.
Proof.
  split; unfold cmp, N_ord.
  - apply N.compare_eq_iff.
  - intros. apply N.compare_antisym.
  - intros x y z. rewrite !N.compare_lt_iff. lia.
Qed.

(** An order transported along an injection keeps its laws. *)
Lemma ord_laws_inj {A B} `{Ord B, !OrdLaws B} (f : A → B) (HA : Ord A) :
  Inj (=) (=) f → (∀ x y, cmp x y = cmp (f x) (f y)) → OrdLaws A.
Proof.
  intros Hinj Hf. split.
  - intros x y. rewrite Hf, cmp_eq. naive_solver.
  - intros x y. rewrite !Hf. apply cmp_antisym.
  - intros x y z. rewrite !Hf. apply cmp_lt_trans.
Qed.

#[export] Instance ascii_ord_laws : OrdLaws ascii.
Proof.
  eapply (ord_laws_inj N_of_ascii); [|done].
  intros x y Hxy. rewrite <- (ascii_N_embedding x), <- (ascii_N_embedding y). by f_equal.
Qed.

#[export] Instance list_ord_laws `{Ord A, !OrdLaws A} : OrdLaws (list A).
Proof.
  split; unfold cmp, list_ord.
  - intros l. induction l as [|x l IH]; intros [|y k]; simpl; try done.
    destruct (cmp x y) eqn:E; simpl; try (split; [done|]; intros [= -> ->]).
    + apply cmp_eq in E as ->. rewrite IH. split; [by intros ->|by intros [= ->]].
    + by rewrite cmp_refl in E.
    + by rewrite cmp_refl in E.
  - intros l. induction l as [|x l IH]; intros [|y k]; simpl; try done.
    rewrite (cmp_antisym x y). destruct (cmp x y); simpl; eauto.
  - intros l. induction l as [|x l IH]; intros [|y k] [|z m]; simpl; try done.
    destruct (cmp x y) eqn:E1, (cmp y z) eqn:E2; simpl; try done; intros H1 H2.
    + apply cmp_eq in E1 as ->. rewrite E2. simpl. eauto.
    + apply cmp_eq in E1 as ->. by rewrite E2.
    + apply cmp_eq in E2 as ->. by rewrite E1.
    + by rewrite (cmp_lt_trans _ _ _ E1 E2).
Qed.

#[export] Instance prod_ord_laws `{Ord A, !OrdLaws A, Ord B, !OrdLaws B} : OrdLaws (A * B).
Proof.
  split; unfold cmp, prod_ord.
  - intros [a b] [a' b']; simpl. destruct (cmp a a') eqn:E; simpl.
    + apply cmp_eq in E as ->. rewrite cmp_eq. naive_solver.
    + split; [done|]. intros [= -> ->]. by rewrite cmp_refl in E.
    + split; [done|]. intros [= -> ->]. by rewrite cmp_refl in E.
  - intros [a b] [a' b']; simpl. rewrite (cmp_antisym a a'), (cmp_antisym b b').
    by destruct (cmp a a').
  - intros [a b] [a' b'] [a'' b'']; simpl.
    destruct (cmp a a') eqn:E1, (cmp a' a'') eqn:E2; simpl; try done; intros H1' H2'.
    + apply cmp_eq in E1 as ->. rewrite E2. simpl. by eapply cmp_lt_trans.
    + apply cmp_eq in E1 as ->. by rewrite E2.
    + apply cmp_eq in E2 as ->. by rewrite E1.
    + by rewrite (cmp_lt_trans _ _ _ E1 E2).
Qed.

#[export] Instance Reverse_ord_laws `{Ord A, !OrdLaws A} : OrdLaws (Reverse A).
Proof.
  split; unfold cmp, Reverse_ord.
  - intros [x] [y]; simpl. rewrite cmp_eq. naive_solver.
  - intros [x] [y]; simpl. apply cmp_antisym.
  - intros [x] [y] [z]; simpl. intros Hxy Hyz. by eapply cmp_lt_trans.
Qed.

#[export] Instance bytes_of_inj : Inj (=) (=) bytes_of.
Proof.
  intros s t Hst. rewrite <- (String.string_of_list_ascii_of_string s).
  rewrite <- (String.string_of_list_ascii_of_string t). unfold bytes_of in Hst. by f_equal.
Qed.

Lemma bytes_of_app s t : bytes_of (String.append s t) = bytes_of s ++ bytes_of t.
Proof. unfold bytes_of. induction s as [|c s IH]; simpl; [done|]. by rewrite IH. Qed.

#[export] Instance string_ord_laws : OrdLaws string.
Proof. eapply (ord_laws_inj bytes_of); [apply _|done]. Qed.

(** ** Lists and counts *)
Lemma takeN_take {A} (n : N) (l : list A) : takeN n l = take (N.to_nat n) l.
Proof.
  revert n. induction l as [|x l IH]; intros n; simpl; [by rewrite take_nil|].
  case_match eqn:E.
  - apply N.eqb_eq in E as ->. done.
  - apply N.eqb_neq in E. rewrite IH.
    replace (N.to_nat n) with (S (N.to_nat (N.pred n))) by lia. done.
Qed.

Lemma lenN_app {A} (l k : list A) : lenN (l ++ k) = (lenN l + lenN k)%N.
Proof. unfold lenN. rewrite length_app. lia. Qed.
Lemma lenN_cons {A} (x : A) l : lenN (x :: l) = (lenN l + 1)%N.
Proof. unfold lenN. cbn [length]. lia. Qed.
Lemma lenN_takeN_le {A} (n : N) (l : list A) : (lenN (takeN n l) ≤ n)%N.
Proof. unfold lenN. rewrite takeN_take, length_take. lia. Qed.

Lemma elem_of_takeN {A} (x : A) n l : x ∈ takeN n l → x ∈ l.
Proof. rewrite takeN_take. apply subseteq_take. Qed.

Lemma NoDup_firstn {A} n (l : list A) : NoDup l → NoDup (take n l).
Proof. rewrite <- (take_drop n l) at 1. by intros [? _]%NoDup_app. Qed.

Lemma takeN_ge {A} (n : N) (l : list A) : (lenN l ≤ n)%N → takeN n l = l.
Proof. unfold lenN. intros. rewrite takeN_take, take_ge; [done|lia]. Qed.

Lemma try_for_each_ok {E A} (f : A → result E unit) l :
  try_for_each f l = Ok () ↔ Forall (λ x, f x = Ok ()) l.
Proof.
  induction l as [|x l IH]; simpl; [naive_solver|].
  rewrite Forall_cons, <- IH. destruct (f x) as [[]|e]; simpl.
  - split; [done|by intros [_ ?]].
  - split; [done|by intros [[=] _]].
Qed.

(** ** Iteration over a [BTreeMap] *)
Section btree.
Context `{Countable K, Ord K, !OrdLaws K} {V : Type}.
Implicit Types m : gmap K V.

Lemma btree_entries_perm m : btree_entries m ≡ₚ map_to_list m.
Proof. apply merge_sort_Permutation. Qed.

Lemma btree_entries_sorted m : StronglySorted entry_le (btree_entries m).
Proof. apply StronglySorted_merge_sort; apply _. Qed.

Lemma elem_of_btree_entries m k v : (k, v) ∈ btree_entries m ↔ m !! k = Some v.
Proof. rewrite btree_entries_perm. apply elem_of_map_to_list. Qed.

Lemma elem_of_btree_values m v : v ∈ btree_values m ↔ ∃ k, m !! k = Some v.
Proof.
  unfold btree_values. rewrite list_elem_of_fmap. split.
  - intros ([k v'] & -> & Hin). exists k. by apply elem_of_btree_entries.
  - intros [k Hk]. exists (k, v). split; [done|]. by apply elem_of_btree_entries.
Qed.

Lemma elem_of_btree_keys m k : k ∈ btree_keys m ↔ is_Some (m !! k).
Proof.
  unfold btree_keys. rewrite list_elem_of_fmap. split.
  - intros ([k' v] & -> & Hin). exists v. by apply elem_of_btree_entries.
  - intros [v Hv]. exists (k, v). split; [done|]. by apply elem_of_btree_entries.
Qed.

Lemma length_btree_entries m : length (btree_entries m) = size m.
Proof. by rewrite btree_entries_perm, length_map_to_list. Qed.

Lemma NoDup_btree_keys m : NoDup (btree_keys m).
Proof. unfold btree_keys. rewrite btree_entries_perm. apply NoDup_fst_map_to_list. Qed.

Lemma map_len_insert_le m k v : (map_len (<[k:=v]> m) ≤ map_len m + 1)%N.
Proof.
  unfold map_len. destruct (m !! k) eqn:E.
  - rewrite map_size_insert_Some by (by eexists). lia.
  - rewrite map_size_insert_None by done. lia.
Qed.

Lemma map_len_insert_present m k v : is_Some (m !! k) → map_len (<[k:=v]> m) = map_len m.
Proof. intros ?. unfold map_len. by rewrite map_size_insert_Some. Qed.

Lemma map_len_insert_absent m k v : m !! k = None → map_len (<[k:=v]> m) = (map_len m + 1)%N.
Proof. intros ?. unfold map_len. rewrite map_size_insert_None by done. lia. Qed.

Lemma map_len_delete_le m k : (map_len (delete k m) ≤ map_len m)%N.
Proof. unfold map_len. rewrite map_size_delete. case_match; simpl; lia. Qed.

Lemma contains_key_spec m k : contains_key k m = true ↔ is_Some (m !! k).
Proof. unfold contains_key. apply bool_decide_eq_true. Qed.
End btree.

(** *** Entries and the maps they make *)
Section entries.
Context `{Countable K, Ord K, !OrdLaws K}.

(** Entries in key order are determined by what they are. *)
Lemma sorted_entries_eq {V} (l1 l2 : list (K * V)) :
  StronglySorted entry_le l1 → StronglySorted entry_le l2 → NoDup l1.*1 → l1 ≡ₚ l2 → l1 = l2.
Proof.
  intros Hs1. revert l2. induction Hs1 as [|x l1 Hs1 IH Hall]; intros l2 Hs2 Hnd Hp; [by apply symmetry, Permutation_nil_r in Hp|].
  destruct Hs2 as [|y l2 Hs2 Hall2]; [by apply Permutation_nil_r in Hp|].
  assert (x = y) as ->.
  { assert (x ∈ y :: l2) as Hx by (rewrite <- Hp; left). assert (y ∈ x :: l1) as Hy by (rewrite Hp; left).
    apply elem_of_cons in Hx as [?|Hx], Hy as [?|Hy]; try done. rewrite Forall_forall in Hall, Hall2.
    pose proof (Hall _ Hy) as Hxy. pose proof (Hall2 _ Hx) as Hyx. unfold entry_le in *.
    apply cmp_le_lt_or_eq in Hxy as [Hxy|Hk]; [by apply cmp_gt_lt in Hxy|].
    apply NoDup_cons in Hnd as [Hn _]. destruct Hn. rewrite Hk. by apply list_elem_of_fmap_2. }
  f_equal. apply IH; [done| |by apply Permutation_cons_inv in Hp]. by apply NoDup_cons in Hnd as [_ ?].
Qed.

Lemma list_to_map_entries {V} (m : gmap K V) : list_to_map (btree_entries m) = m.
Proof.
  rewrite <- (list_to_map_to_list m) at 2. apply list_to_map_proper; [apply NoDup_btree_keys|apply btree_entries_perm].
Qed.
Lemma btree_entries_list_to_map {V} (l : list (K * V)) :
  StronglySorted entry_le l → NoDup l.*1 → btree_entries (list_to_map (M := gmap K V) l) = l.
Proof.
  intros Hs Hnd. apply sorted_entries_eq; [apply btree_entries_sorted|done|apply NoDup_btree_keys|].
  rewrite btree_entries_perm. by apply map_to_list_to_map.
Qed.
Lemma btree_entries_fmap {V W} (f : V → W) (m : gmap K V) :
  btree_entries (f <$> m) = (λ e, (e.1, f e.2)) <$> btree_entries m.
Proof.
  apply sorted_entries_eq; [apply btree_entries_sorted| |apply NoDup_btree_keys|].
  - pose proof (btree_entries_sorted m) as Hs. induction Hs as [|e l Hs IH Hall]; [constructor|]. cbn. constructor; [done|].
    apply Forall_fmap. eapply Forall_impl; [exact Hall|]. done.
  - rewrite !btree_entries_perm, map_to_list_fmap. apply Permutation_refl', list_fmap_ext. by intros ? [] ?.
Qed.

(** [collect] into a map: a later entry of a key takes the place of the earlier. *)
Definition collect_map {V} (l : list (K * V)) : gmap K V := foldl (λ m e, <[e.1 := e.2]> m) ∅ l.
Lemma foldl_insert_distinct {V} (l : list (K * V)) : ∀ m : gmap K V,
  NoDup l.*1 → foldl (λ m e, <[e.1 := e.2]> m) m l = list_to_map l ∪ m.
Proof.
  induction l as [|[k v] l IH]; intros m Hnd; cbn; [by rewrite map_empty_union|].
  apply NoDup_cons in Hnd as [Hn Hnd]. rewrite IH by done.
  rewrite <- insert_union_r; [by rewrite insert_union_l|by apply not_elem_of_list_to_map_1].
Qed.
Lemma collect_map_distinct {V} (l : list (K * V)) : NoDup l.*1 → collect_map l = list_to_map l.
Proof. intros Hnd. unfold collect_map. by rewrite foldl_insert_distinct, map_union_empty. Qed.
Lemma collect_entries {V} (m : gmap K V) : collect_map (btree_entries m) = m.
Proof. rewrite collect_map_distinct by apply NoDup_btree_keys. apply list_to_map_entries. Qed.
End entries.

Lemma NoDup_fst_inj `{Countable A} {B} (l : list (A * B)) a b1 b2 :
  NoDup l.*1 → (a, b1) ∈ l → (a, b2) ∈ l → b1 = b2.
Proof.
  intros Hnd H1%(elem_of_list_to_map_1 (M:=gmap A)) H2%(elem_of_list_to_map_1 (M:=gmap A)); [|done..].
  by simplify_eq.
Qed.
