(* ===== verification/Identity.v ===== *)
(** * Identities, labels, versions and fingerprints (crate [orishu-identity])

    The validated string types, the peer-protocol version range, the total
    version order, the SWIM incarnation, certificate fingerprints and
    membership tombstones. *)

From Stdlib Require Import Ascii.
From stdpp Require Import base gmap strings list sorting fin_maps pretty.
From S2P Require Import Prelude.

(** ** Errors *)
Module IdentityError.
Inductive t : Type :=
  | Empty (kind : string)
  | TooLong (kind : string) (len max : N)
  | ForbiddenCharacter (kind : string) (offset : N)
  | UntrimmedLabel (kind : string)
  | FingerprintLength (len : N)
  | FingerprintEncoding.
#[global] Instance IdentityError_eq_dec : EqDecision t.
Proof. solve_decision. Defined.
End IdentityError.

(** ** Validation of identities and labels *)
Definition MAX_IDENTITY_LEN : N := 128.
Definition MAX_LABEL_LEN : N := 253.

(** [Iterator::position]. *)
Fixpoint position {A} (f : A → bool) (l : list A) : option N :=
  match l with
  | [] => None
  | x :: l => if f x then Some 0%N else N.succ <$> position f l
  end.

(** [u8::is_ascii_graphic]: [0x21..=0x7e]. *)
Definition is_ascii_graphic (b : ascii) : bool :=
  let c := N_of_ascii b in (33 <=? c)%N && (c <=? 126)%N.

Definition validate_identity (kind : string) (value : string) : result IdentityError.t unit :=
  if decide (value = "") then Err (IdentityError.Empty kind)
  else if (MAX_IDENTITY_LEN <? str_len value)%N then
    Err (IdentityError.TooLong kind (str_len value) MAX_IDENTITY_LEN)
  else
    match position (λ b, negb (is_ascii_graphic b)) (bytes_of value) with
    | Some offset => Err (IdentityError.ForbiddenCharacter kind offset)
    | None => Ok ()
    end.

(** [str::char_indices]: the scalar values of UTF-8 text with their byte
    offsets. [need] and [acc] carry the sequence being decoded. *)
Fixpoint decode_chars (start off need acc : N) (l : bytes) : list (N * N) :=
  match l with
  | [] => []
  | b :: l =>
    let c := N_of_ascii b in
    if (need =? 0)%N then
      if (c <? 128)%N then (off, c) :: decode_chars (off + 1) (off + 1) 0 0 l
      else if (c <? 224)%N then decode_chars off (off + 1) 1 (N.land c 31) l
      else if (c <? 240)%N then decode_chars off (off + 1) 2 (N.land c 15) l
      else decode_chars off (off + 1) 3 (N.land c 7) l
    else
      let acc := (acc * 64 + N.land c 63)%N in
      if (need =? 1)%N then (start, acc) :: decode_chars (off + 1) (off + 1) 0 0 l
      else decode_chars start (off + 1) (N.pred need) acc l
  end.
Definition char_indices (value : string) : list (N * N) :=
  decode_chars 0 0 0 0 (bytes_of value).

(** [char::is_control]: general category Cc. *)
Definition is_control (c : N) : bool :=
  (c <=? 31)%N || ((127 <=? c)%N && (c <=? 159)%N).

(** [char::is_whitespace]: the Unicode White_Space property. *)
Definition is_whitespace (c : N) : bool :=
  ((9 <=? c)%N && (c <=? 13)%N) || (c =? 32)%N || (c =? 133)%N || (c =? 160)%N
  || (c =? 5760)%N || ((8192 <=? c)%N && (c <=? 8202)%N) || (c =? 8232)%N
  || (c =? 8233)%N || (c =? 8239)%N || (c =? 8287)%N || (c =? 12288)%N.

Fixpoint drop_while {A} (f : A → bool) (l : list A) : list A :=
  match l with
  | [] => []
  | x :: l' => if f x then drop_while f l' else l
  end.
(** [str::trim] on the scalar values of the text. *)
Definition trim (chars : list N) : list N :=
  reverse (drop_while is_whitespace (reverse (drop_while is_whitespace chars))).

Definition validate_label (kind : string) (value : string) : result IdentityError.t unit :=
  if decide (value = "") then Err (IdentityError.Empty kind)
  else if (MAX_LABEL_LEN <? str_len value)%N then
    Err (IdentityError.TooLong kind (str_len value) MAX_LABEL_LEN)
  else
    match List.find (λ ic, is_control ic.2) (char_indices value) with
    | Some (offset, _) => Err (IdentityError.ForbiddenCharacter kind offset)
    | None =>
      let chars := (char_indices value).*2 in
      if decide (trim chars = chars) then Ok () else Err (IdentityError.UntrimmedLabel kind)
    end.

(** ** The validated string types (macro [validated_string!]) *)
(** Identity of one cluster formation. *)
Module FormationId.
Record t : Type := mk { as_str : string }.
Definition new (value : string) : result IdentityError.t t :=
  _ ← validate_identity "FormationId" value; Ok (mk value).
#[global] Instance FormationId_eq_dec : EqDecision t.
Proof. solve_decision. Defined.
#[global] Instance FormationId_countable : Countable t.
Proof. refine (inj_countable' as_str mk _); by intros []. Defined.
#[global] Instance FormationId_ord : Ord t := λ a b, cmp (as_str a) (as_str b).
#[global] Instance FormationId_ord_laws : OrdLaws t.
Proof. eapply (ord_laws_inj as_str); [by intros [] []; simpl; intros ->|done]. Qed.
End FormationId.

(** Formation-assigned identity of one member. *)
Module NodeId.
Record t : Type := mk { as_str : string }.
Definition new (value : string) : result IdentityError.t t :=
  _ ← validate_identity "NodeId" value; Ok (mk value).
#[global] Instance NodeId_eq_dec : EqDecision t.
Proof. solve_decision. Defined.
#[global] Instance NodeId_countable : Countable t.
Proof. refine (inj_countable' as_str mk _); by intros []. Defined.
#[global] Instance NodeId_ord : Ord t := λ a b, cmp (as_str a) (as_str b).
#[global] Instance NodeId_ord_laws : OrdLaws t.
Proof. eapply (ord_laws_inj as_str); [by intros [] []; simpl; intros ->|done]. Qed.
End NodeId.

(** Operator label of a formation. *)
Module ClusterName.
Record t : Type := mk { as_str : string }.
Definition new (value : string) : result IdentityError.t t :=
  _ ← validate_label "ClusterName" value; Ok (mk value).
#[global] Instance ClusterName_eq_dec : EqDecision t.
Proof. solve_decision. Defined.
#[global] Instance ClusterName_countable : Countable t.
Proof. refine (inj_countable' as_str mk _); by intros []. Defined.
#[global] Instance ClusterName_ord : Ord t := λ a b, cmp (as_str a) (as_str b).
#[global] Instance ClusterName_ord_laws : OrdLaws t.
Proof. eapply (ord_laws_inj as_str); [by intros [] []; simpl; intros ->|done]. Qed.
End ClusterName.

(** Operator label of a worker. *)
Module WorkerName.
Record t : Type := mk { as_str : string }.
Definition new (value : string) : result IdentityError.t t :=
  _ ← validate_label "WorkerName" value; Ok (mk value).
#[global] Instance WorkerName_eq_dec : EqDecision t.
Proof. solve_decision. Defined.
#[global] Instance WorkerName_countable : Countable t.
Proof. refine (inj_countable' as_str mk _); by intros []. Defined.
#[global] Instance WorkerName_ord : Ord t := λ a b, cmp (as_str a) (as_str b).
#[global] Instance WorkerName_ord_laws : OrdLaws t.
Proof. eapply (ord_laws_inj as_str); [by intros [] []; simpl; intros ->|done]. Qed.
End WorkerName.

(** ** Protocol versions *)
Module ProtocolVersion.
Record t : Type := mk { raw : N }.
Definition CURRENT : t := mk 1.
#[global] Instance ProtocolVersion_eq_dec : EqDecision t.
Proof. solve_decision. Defined.
End ProtocolVersion.

Module ProtocolRange.
Record t : Type := mk { min : ProtocolVersion.t; max : ProtocolVersion.t }.
#[global] Instance ProtocolRange_eq_dec : EqDecision t.
Proof. solve_decision. Defined.

Definition new (lo hi : ProtocolVersion.t)
    : result (ProtocolVersion.t * ProtocolVersion.t) t :=
  if (ProtocolVersion.raw hi <? ProtocolVersion.raw lo)%N then Err (lo, hi) else Ok (mk lo hi).

Definition exact (version : ProtocolVersion.t) : t := mk version version.

Definition accepts (r : t) (version : ProtocolVersion.t) : bool :=
  (ProtocolVersion.raw (min r) <=? ProtocolVersion.raw version)%N
  && (ProtocolVersion.raw version <=? ProtocolVersion.raw (max r))%N.

Definition default : t := exact ProtocolVersion.CURRENT.
End ProtocolRange.

(** ** SWIM incarnations *)
Module Incarnation.
Record t : Type := mk { raw : N }.
Definition INITIAL : t := mk 0.
Definition checked_next (i : t) : option t := mk <$> checked_add u64_max (raw i) 1.
(** The derived [Ord], as the code's [>=], [>] and [max]. *)
Definition geb (a b : t) : bool := (raw b <=? raw a)%N.
Definition gtb (a b : t) : bool := (raw b <? raw a)%N.
Definition max (a b : t) : t := if gtb a b then a else b.
#[global] Instance Incarnation_eq_dec : EqDecision t.
Proof. solve_decision. Defined.
End Incarnation.

(** ** Version tuples *)
Module VersionTuple.
Record t : Type := mk { epoch : N; counter : N; actor : NodeId.t }.
#[global] Instance VersionTuple_eq_dec : EqDecision t.
Proof. solve_decision. Defined.

(** The derived order: lexicographic over [(epoch, counter, actor)]. *)
#[global] Instance VersionTuple_ord : Ord t := λ a b,
  then_cmp (cmp (epoch a) (epoch b))
    (then_cmp (cmp (counter a) (counter b)) (cmp (actor a) (actor b))).

Definition initial (epoch : N) (actor : NodeId.t) : t := mk epoch 0 actor.

Definition checked_successor (v : t) (actor : NodeId.t) : option t :=
  c ← checked_add u64_max (counter v) 1; Some (mk (epoch v) c actor).

Definition checked_next_epoch (v : t) (actor : NodeId.t) : option t :=
  e ← checked_add u64_max (epoch v) 1; Some (mk e 0 actor).
End VersionTuple.

(** ** Certificate fingerprints *)
Definition FINGERPRINT_LEN : nat := 32.

(** [{byte:02x}]. *)
Definition hex_digit (d : N) : ascii := ascii_of_N (if (d <? 10)%N then 48 + d else 87 + d).
Definition hex_byte (b : ascii) : bytes :=
  [hex_digit (N_of_ascii b / 16); hex_digit (N_of_ascii b mod 16)].

(** [char::to_digit(16)]. *)
Definition to_digit16 (c : ascii) : option N :=
  let n := N_of_ascii c in
  if (48 <=? n)%N && (n <=? 57)%N then Some (n - 48)%N
  else if (97 <=? n)%N && (n <=? 102)%N then Some (n - 87)%N
  else if (65 <=? n)%N && (n <=? 70)%N then Some (n - 55)%N
  else None.

(** [u8::from_str_radix(pair, 16)]: an optional [+] sign, then hex digits; two
    bytes of input cannot overflow. *)
Definition from_str_radix16_u8 (pair : bytes) : option ascii :=
  let digits := match pair with
                | c :: ((_ :: _) as rest) => if (N_of_ascii c =? 43)%N then rest else pair
                | _ => pair
                end in
  match digits with
  | [] => None
  | _ => ds ← mapM to_digit16 digits;
         Some (ascii_of_N (foldl (λ acc d, acc * 16 + d)%N 0%N ds))
  end.

Module CertFingerprint.
(** [[u8; 32]]; [wf] is what the array type guarantees. *)
Record t : Type := from_bytes { as_bytes : bytes }.
Definition wf (f : t) : Prop := length (as_bytes f) = FINGERPRINT_LEN.

#[global] Instance CertFingerprint_eq_dec : EqDecision t.
Proof. solve_decision. Defined.
#[global] Instance CertFingerprint_countable : Countable t.
Proof. refine (inj_countable' as_bytes from_bytes _); by intros []. Defined.
#[global] Instance CertFingerprint_ord : Ord t := λ a b, cmp (as_bytes a) (as_bytes b).
#[global] Instance CertFingerprint_ord_laws : OrdLaws t.
Proof. eapply (ord_laws_inj as_bytes); [by intros [] []; simpl; intros ->|done]. Qed.

Definition from_slice (l : bytes) : result IdentityError.t t :=
  if decide (length l = FINGERPRINT_LEN) then Ok (from_bytes l)
  else Err (IdentityError.FingerprintLength (lenN l)).

Definition to_hex_bytes (f : t) : bytes := as_bytes f ≫= hex_byte.
Definition to_hex (f : t) : string := String.string_of_list_ascii (to_hex_bytes f).

(** [value.get(index * 2..index * 2 + 2)], then the radix parse. *)
Definition parse_pair (value : bytes) (index : nat) : result IdentityError.t ascii :=
  match from_str_radix16_u8 (take 2 (drop (index * 2) value)) with
  | Some b => Ok b
  | None => Err IdentityError.FingerprintEncoding
  end.

Definition from_str (value : string) : result IdentityError.t t :=
  let value := bytes_of value in
  if decide (length value = FINGERPRINT_LEN * 2) then
    bs ← mapM (parse_pair value) (seq 0 FINGERPRINT_LEN); Ok (from_bytes bs)
  else Err (IdentityError.FingerprintLength ((lenN value + 1) / 2)).
End CertFingerprint.

(** ** Membership tombstones *)
Module RemovalMode.
Inductive t : Type := Graceful | Force | Dead | Blocklist.
#[global] Instance RemovalMode_eq_dec : EqDecision t.
Proof. solve_decision. Defined.
End RemovalMode.

Module MembershipTombstone.
Record t : Type := mk {
  node_id : NodeId.t;
  name : WorkerName.t;
  cert_fingerprint : CertFingerprint.t;
  removal_mode : RemovalMode.t;
  version : VersionTuple.t;
  cleared : bool;
  reason : option string
}.
#[global] Instance MembershipTombstone_eq_dec : EqDecision t.
Proof. solve_decision. Defined.
End MembershipTombstone.

(** ** The version order *)
#[global] Instance VersionTuple_ord_laws : OrdLaws VersionTuple.t.
Proof.
  eapply (ord_laws_inj (λ v, (VersionTuple.epoch v, (VersionTuple.counter v, VersionTuple.actor v)))).
  - intros [] []; simpl. naive_solver.
  - done.
Qed.

(** Versions are totally ordered by [(epoch, counter, actor)]: exactly one of
    older, identical and newer holds, and only identical tuples compare equal, so
    a merge by version never needs arrival order to break a tie. *)
Theorem version_order_total (a b : VersionTuple.t) :
  (cmp a b = Lt ∧ a ≠ b ∧ cmp b a = Gt) ∨ (a = b ∧ cmp a b = Eq)
  ∨ (cmp a b = Gt ∧ a ≠ b ∧ cmp b a = Lt).
Proof.
  rewrite (cmp_antisym a b). destruct (cmp a b) eqn:E; simpl.
  - right; left. by apply cmp_eq in E.
  - left. split_and!; [done| |done]. intros ->. by rewrite cmp_refl in E.
  - do 2 right. split_and!; [done| |done]. intros ->. by rewrite cmp_refl in E.
Qed.

Lemma checked_add_Some w a b c : checked_add w a b = Some c ↔ c = (a + b)%N ∧ (a + b ≤ w)%N.
Proof.
  unfold checked_add. destruct (N.leb_spec (a + b) w).
  - split; [by intros [= <-]|by intros [-> _]].
  - split; [done|]. intros [_ ?]. lia.
Qed.

Lemma checked_successor_lt (v : VersionTuple.t) (actor : NodeId.t) (v' : VersionTuple.t) :
  VersionTuple.checked_successor v actor = Some v' → v ≺ v'.
Proof.
  unfold VersionTuple.checked_successor.
  destruct (checked_add u64_max (VersionTuple.counter v) 1) as [c|] eqn:E; simpl; [|done].
  apply checked_add_Some in E as [-> _]. intros [= <-].
  unfold cmp, VersionTuple.VersionTuple_ord; simpl. rewrite cmp_refl; simpl.
  assert (cmp (VersionTuple.counter v) (VersionTuple.counter v + 1)%N = Lt) as ->; [|done].
  apply N.compare_lt_iff. lia.
Qed.

(** A version's successor is strictly newer and belongs to the actor; the
    counter never wraps, since the successor exists exactly while the counter is
    below [u64::MAX]. *)
Theorem checked_successor_newer (v : VersionTuple.t) (actor : NodeId.t) :
  match VersionTuple.checked_successor v actor with
  | Some v' => cmp v v' = Lt ∧ VersionTuple.actor v' = actor
               ∧ (VersionTuple.counter v' ≤ u64_max)%N
  | None => (u64_max ≤ VersionTuple.counter v)%N
  end.
Proof.
  destruct (VersionTuple.checked_successor v actor) as [v'|] eqn:Hv.
  - split; [by apply checked_successor_lt in Hv|]. revert Hv.
    unfold VersionTuple.checked_successor.
    destruct (checked_add _ _ _) as [c|] eqn:E; simpl; [|done].
    apply checked_add_Some in E as [-> Hle]. by intros [= <-].
  - revert Hv. unfold VersionTuple.checked_successor, checked_add.
    destruct (N.leb_spec (VersionTuple.counter v + 1) u64_max); simpl; [done|lia].
Qed.

(** ** Fingerprint text *)
Lemma from_str_radix16_hex_byte b : from_str_radix16_u8 (hex_byte b) = Some b.
Proof. destruct b as [[] [] [] [] [] [] [] []]; vm_compute; reflexivity. Qed.

Lemma parse_pair_hex (pre rest : bytes) b k :
  length pre = k * 2 → CertFingerprint.parse_pair (pre ++ hex_byte b ++ rest) k = Ok b.
Proof.
  intros Hk. unfold CertFingerprint.parse_pair. rewrite drop_app_length' by done.
  rewrite take_app_length' by done. by rewrite from_str_radix16_hex_byte.
Qed.

Lemma parse_pairs_hex (l pre : bytes) k :
  length pre = k * 2 →
  mapM (CertFingerprint.parse_pair (pre ++ (l ≫= hex_byte))) (seq k (length l)) = Ok l.
Proof.
  revert pre k. induction l as [|b l IH]; intros pre k Hk; [done|].
  replace ((b :: l) ≫= hex_byte) with (hex_byte b ++ (l ≫= hex_byte)) by done.
  cbn [length seq mapM]. rewrite parse_pair_hex by done. cbn [mbind result_bind].
  rewrite (assoc_L (++)), (IH (pre ++ hex_byte b) (S k)); [done|].
  rewrite length_app, Hk. simpl. lia.
Qed.

Lemma length_bind_hex (l : bytes) : length (l ≫= hex_byte) = length l * 2.
Proof. induction l as [|b l IH]; [done|]. cbn. rewrite IH. lia. Qed.

(** rendering a fingerprint as hex and parsing it back gives the fingerprint. *)
Theorem fingerprint_hex_roundtrip (f : CertFingerprint.t) :
  CertFingerprint.wf f → CertFingerprint.from_str (CertFingerprint.to_hex f) = Ok f.
Proof.
  intros Hf. unfold CertFingerprint.from_str, CertFingerprint.to_hex, CertFingerprint.to_hex_bytes.
  unfold bytes_of. rewrite String.list_ascii_of_string_of_list_ascii.
  destruct f as [l]; unfold CertFingerprint.wf in Hf; cbn [CertFingerprint.as_bytes] in *.
  rewrite decide_True by (rewrite length_bind_hex, Hf; done).
  replace (seq 0 FINGERPRINT_LEN) with (seq 0 (length l)) by (by rewrite Hf).
  pose proof (parse_pairs_hex l [] 0 eq_refl) as Hp. cbn [app] in Hp. by rewrite Hp.
Qed.

Definition sample_fingerprint : CertFingerprint.t :=
  CertFingerprint.from_bytes (replicate 32 (ascii_of_N 161)).

Lemma fingerprint_hex_roundtrip_witness :
  CertFingerprint.wf sample_fingerprint ∧
  CertFingerprint.from_str (CertFingerprint.to_hex sample_fingerprint) = Ok sample_fingerprint.
Proof. split; [reflexivity|]. by apply fingerprint_hex_roundtrip. Defined.

(** The parser also accepts text that rendering never produces: every pair
    of digits may be written as a plus sign and one digit. Here [+1] stands for
    [01], so two different texts name one fingerprint. *)
Theorem fingerprint_accepts_sign :
  ∃ s f, CertFingerprint.from_str s = Ok f ∧ CertFingerprint.to_hex f ≠ s.
Proof.
  exists (String.concat "" (replicate 32 "+1")),
    (CertFingerprint.from_bytes (replicate 32 (ascii_of_N 1))).
  split; [reflexivity|]. vm_compute. discriminate.
Qed.

(** ** Validated identities *)
Lemma position_None {A} (f : A → bool) l : position f l = None ↔ Forall (λ x, f x = false) l.
Proof.
  induction l as [|x l IH]; simpl; [by split|]. rewrite Forall_cons.
  destruct (f x); [split; [done|by intros [? _]]|].
  rewrite <- IH. destruct (position f l); simpl; split; naive_solver.
Qed.

(** A string is accepted as an identity exactly when it is non-empty, at
    most 128 bytes and all printable non-blank ASCII; the parsed value is the
    string itself. *)
Theorem node_id_new_spec (s : string) (id : NodeId.t) :
  NodeId.new s = Ok id ↔
  NodeId.as_str id = s ∧ s ≠ "" ∧ (str_len s ≤ MAX_IDENTITY_LEN)%N
  ∧ Forall (λ b, is_ascii_graphic b = true) (bytes_of s).
Proof.
  unfold NodeId.new, validate_identity.
  destruct (decide (s = "")) as [->|Hne]; simpl; [naive_solver|].
  destruct (N.ltb_spec MAX_IDENTITY_LEN (str_len s)) as [Hl|Hl]; simpl.
  { split; [done|]. intros (_ & _ & ? & _). lia. }
  assert (position (λ b, negb (is_ascii_graphic b)) (bytes_of s) = None
    ↔ Forall (λ b, is_ascii_graphic b = true) (bytes_of s)) as Hpos.
  { rewrite position_None. apply Forall_iff. intros b. destruct (is_ascii_graphic b); naive_solver. }
  destruct (position _ _) as [off|] eqn:E; simpl.
  - split; [done|]. intros (_ & _ & _ & Hf). by apply Hpos in Hf.
  - apply proj1 in Hpos. specialize (Hpos eq_refl). split.
    + intros [= <-]. done.
    + intros (<- & _). by destruct id.
Qed.
