(* ===== verification/Limits.v ===== *)
(** * Validated limits (limits.rs)

    The bounds every other file reads: the unvalidated specification, its
    validation, and the size-scaled timeouts. *)

From Stdlib Require Import Ascii.
From stdpp Require Import base gmap strings list sorting fin_maps pretty.
From S2P Require Import Prelude Identity.

Module DurationMillis.
Record t : Type := mk { millis : N }.
#[global] Instance DurationMillis_eq_dec : EqDecision t.
Proof. solve_decision. Defined.
End DurationMillis.

(** ** The specification (macro [limits!]) *)
Module LimitsSpec.
Record t : Type := mk {
  max_members : N;
  max_snapshot_members : N;
  max_snapshot_bytes : N;
  max_gossip_per_message : N;
  max_gossip_per_inbound_message : N;
  max_gossip_queue : N;
  max_gossip_hops : N;
  max_anti_entropy_entries : N;
  anti_entropy_depth : N;
  max_anti_entropy_rounds : N;
  max_addresses_per_node : N;
  max_address_len : N;
  max_text_len : N;
  max_accelerators : N;
  max_engines : N;
  max_redirects : N;
  max_pending_probes : N;
  max_pending_joins : N;
  max_blocklist_entries : N;
  max_tombstones : N;
  max_effects_per_update : N;
  max_diagnostics_per_update : N;
  indirect_probe_count : N;
  probe_timeout : DurationMillis.t;
  indirect_probe_timeout : DurationMillis.t;
  suspicion_timeout : DurationMillis.t;
  suspicion_multiplier : N;
  anti_entropy_timeout : DurationMillis.t;
  join_backoff : DurationMillis.t;
  max_join_backoff : DurationMillis.t;
  max_join_attempts : N
}.
#[global] Instance LimitsSpec_eq_dec : EqDecision t.
Proof. solve_decision. Defined.

Definition default : t := {|
  max_members := 4096;
  max_snapshot_members := 4096;
  max_snapshot_bytes := 1048576;
  max_gossip_per_message := 10;
  max_gossip_per_inbound_message := 10;
  max_gossip_queue := 512;
  max_gossip_hops := 0;
  max_anti_entropy_entries := 1000;
  anti_entropy_depth := 4;
  max_anti_entropy_rounds := 16;
  max_addresses_per_node := 8;
  max_address_len := 255;
  max_text_len := 253;
  max_accelerators := 32;
  max_engines := 16;
  max_redirects := 8;
  max_pending_probes := 64;
  max_pending_joins := 64;
  max_blocklist_entries := 1024;
  max_tombstones := 4096;
  max_effects_per_update := 64;
  max_diagnostics_per_update := 32;
  indirect_probe_count := 3;
  probe_timeout := DurationMillis.mk 500;
  indirect_probe_timeout := DurationMillis.mk 1000;
  suspicion_timeout := DurationMillis.mk 5000;
  suspicion_multiplier := 3;
  anti_entropy_timeout := DurationMillis.mk 10000;
  join_backoff := DurationMillis.mk 1000;
  max_join_backoff := DurationMillis.mk 60000;
  max_join_attempts := 8
|}.
End LimitsSpec.

Module LimitsError.
Inductive t : Type :=
  | Zero (limit : string)
  | OutOfRange (limit : string) (value min max : N)
  | Inconsistent (limit : string) (value : N) (bound : string) (bound_value : N).
#[global] Instance LimitsError_eq_dec : EqDecision t.
Proof. solve_decision. Defined.
End LimitsError.

Definition MIN_EFFECT_HEADROOM : N := 4.

(** [ceil(log2(value))] for [value >= 1]: [usize::BITS - (value-1).leading_zeros()]. *)
Definition leading_zeros (w v : N) : N := w - N.size v.
Definition ceil_log2 (value : N) : N :=
  if (value <=? 1)%N then 0 else (64 - leading_zeros 64 (value - 1))%N.

Module Limits.
(** The fields of a [Limits] are read through its accessors, that is, through
    the specification it wraps. *)
Record t : Type := mk { spec : LimitsSpec.t }.
#[global] Instance Limits_eq_dec : EqDecision t.
Proof. solve_decision. Defined.
Coercion spec : t >-> LimitsSpec.t.

Definition non_zero (limit : string) (value : N) : result LimitsError.t unit :=
  if (value =? 0)%N then Err (LimitsError.Zero limit) else Ok ().

Definition at_most (limit : string) (value : N) (bound : string) (bound_value : N)
    : result LimitsError.t unit :=
  if (bound_value <? value)%N then Err (LimitsError.Inconsistent limit value bound bound_value)
  else Ok ().

(** The [non_zero] checks, in order. *)
Definition non_zero_checks (s : LimitsSpec.t) : list (string * N) :=
  [ ("maxMembers", s.(LimitsSpec.max_members));
    ("maxSnapshotMembers", s.(LimitsSpec.max_snapshot_members));
    ("maxSnapshotBytes", s.(LimitsSpec.max_snapshot_bytes));
    ("maxGossipPerMessage", s.(LimitsSpec.max_gossip_per_message));
    ("maxGossipPerInboundMessage", s.(LimitsSpec.max_gossip_per_inbound_message));
    ("maxGossipQueue", s.(LimitsSpec.max_gossip_queue));
    ("maxAntiEntropyEntries", s.(LimitsSpec.max_anti_entropy_entries));
    ("maxAddressesPerNode", s.(LimitsSpec.max_addresses_per_node));
    ("maxAddressLen", s.(LimitsSpec.max_address_len));
    ("maxTextLen", s.(LimitsSpec.max_text_len));
    ("maxPendingProbes", s.(LimitsSpec.max_pending_probes));
    ("maxPendingJoins", s.(LimitsSpec.max_pending_joins));
    ("maxTombstones", s.(LimitsSpec.max_tombstones));
    ("maxBlocklistEntries", s.(LimitsSpec.max_blocklist_entries));
    ("maxEffectsPerUpdate", s.(LimitsSpec.max_effects_per_update));
    ("maxDiagnosticsPerUpdate", s.(LimitsSpec.max_diagnostics_per_update));
    ("indirectProbeCount", s.(LimitsSpec.indirect_probe_count));
    ("maxAntiEntropyRounds", s.(LimitsSpec.max_anti_entropy_rounds));
    ("maxJoinAttempts", s.(LimitsSpec.max_join_attempts));
    ("suspicionMultiplier", s.(LimitsSpec.suspicion_multiplier)) ].

(** [TryFrom<LimitsSpec>]. The headroom addition is an unchecked [usize]
    addition, which wraps in a release build. *)
Definition try_from (s : LimitsSpec.t) : result LimitsError.t t :=
  _ ← try_for_each (λ lv, non_zero lv.1 lv.2) (non_zero_checks s);
  if negb ((1 <=? s.(LimitsSpec.anti_entropy_depth))%N
           && (s.(LimitsSpec.anti_entropy_depth) <=? 8)%N) then
    Err (LimitsError.OutOfRange "antiEntropyDepth" s.(LimitsSpec.anti_entropy_depth) 1 8)
  else
    _ ← at_most "maxGossipPerMessage" s.(LimitsSpec.max_gossip_per_message)
          "maxGossipQueue" s.(LimitsSpec.max_gossip_queue);
    _ ← at_most "maxSnapshotMembers" s.(LimitsSpec.max_snapshot_members)
          "maxMembers" s.(LimitsSpec.max_members);
    _ ← at_most "indirectProbeCount"
          (wrapping_add_usize s.(LimitsSpec.indirect_probe_count) MIN_EFFECT_HEADROOM)
          "maxEffectsPerUpdate" s.(LimitsSpec.max_effects_per_update);
    Ok (mk s).

(** [Default]: the default specification is valid, see [default_limits_valid]. *)
Definition default : t := mk LimitsSpec.default.

Definition effective_suspicion_timeout (l : t) (alive : N) : DurationMillis.t :=
  let scale := ceil_log2 (saturating_add usize_max alive 1) in
  DurationMillis.mk
    (saturating_mul u64_max
       (saturating_mul u64_max (DurationMillis.millis l.(LimitsSpec.suspicion_timeout))
          (N.max scale 1))
       l.(LimitsSpec.suspicion_multiplier)).

Definition effective_gossip_hops (l : t) (alive : N) : N :=
  if (0 <? l.(LimitsSpec.max_gossip_hops))%N then l.(LimitsSpec.max_gossip_hops)
  else N.max (saturating_mul u32_max (ceil_log2 (N.max alive 1)) 3) 1.

Definition join_backoff_for (l : t) (attempt : N) : DurationMillis.t :=
  let doublings := N.min (attempt - 1) 31 in
  let scaled := saturating_mul u64_max (DurationMillis.millis l.(LimitsSpec.join_backoff))
                  (wrapping_shl 64 1 (N.min doublings 63)) in
  DurationMillis.mk (N.min scaled (DurationMillis.millis l.(LimitsSpec.max_join_backoff))).

Definition anti_entropy_buckets (l : t) : N :=
  wrapping_shl 64 1 l.(LimitsSpec.anti_entropy_depth).
End Limits.
Coercion Limits.spec : Limits.t >-> LimitsSpec.t.

(** ** Validation *)

(** What a validated [Limits] promises the code that reads it. *)
Definition limits_consistent (s : LimitsSpec.t) : Prop :=
  Forall (λ lv, lv.2 ≠ 0%N) (Limits.non_zero_checks s)
  ∧ (1 ≤ s.(LimitsSpec.anti_entropy_depth) ≤ 8)%N
  ∧ (s.(LimitsSpec.max_gossip_per_message) ≤ s.(LimitsSpec.max_gossip_queue))%N
  ∧ (s.(LimitsSpec.max_snapshot_members) ≤ s.(LimitsSpec.max_members))%N
  ∧ (s.(LimitsSpec.indirect_probe_count) + MIN_EFFECT_HEADROOM
     ≤ s.(LimitsSpec.max_effects_per_update))%N.

Lemma at_most_ok n v b bv : Limits.at_most n v b bv = Ok () ↔ (v ≤ bv)%N.
Proof. unfold Limits.at_most. destruct (N.ltb_spec bv v); split; [done|lia|done|done]. Qed.

Lemma non_zero_ok n v : Limits.non_zero n v = Ok () ↔ v ≠ 0%N.
Proof. unfold Limits.non_zero. destruct (N.eqb_spec v 0); naive_solver. Qed.


(** What validation ensures whatever the headroom sum did. *)
Lemma limits_valid_facts (s : LimitsSpec.t) (l : Limits.t) :
  Limits.try_from s = Ok l →
  Limits.spec l = s
  ∧ Forall (λ lv, lv.2 ≠ 0%N) (Limits.non_zero_checks s)
  ∧ (1 ≤ s.(LimitsSpec.anti_entropy_depth) ≤ 8)%N
  ∧ (s.(LimitsSpec.max_gossip_per_message) ≤ s.(LimitsSpec.max_gossip_queue))%N
  ∧ (s.(LimitsSpec.max_snapshot_members) ≤ s.(LimitsSpec.max_members))%N.
Proof.
  unfold Limits.try_from. rewrite result_bind_ok. intros ([] & H0%try_for_each_ok & H).
  case_match eqn:Hd; [done|].
  apply negb_false_iff, andb_true_iff in Hd as [?%N.leb_le ?%N.leb_le].
  apply result_bind_ok in H as ([] & ?%at_most_ok & H).
  apply result_bind_ok in H as ([] & ?%at_most_ok & H).
  apply result_bind_ok in H as ([] & _ & H). injection H as <-. split_and!; try done.
  eapply Forall_impl; [exact H0|]. intros lv. apply non_zero_ok.
Qed.

(** Validation accepts exactly the consistent specifications, and returns
    the specification unchanged, as long as the probe count is far enough below
    [usize::MAX] for the headroom sum not to wrap. *)
Theorem limits_try_from_spec (s : LimitsSpec.t) (l : Limits.t) :
  (s.(LimitsSpec.indirect_probe_count) + MIN_EFFECT_HEADROOM ≤ usize_max)%N →
  Limits.try_from s = Ok l ↔ Limits.spec l = s ∧ limits_consistent s.
Proof.
  intros Hw. unfold Limits.try_from, limits_consistent.
  assert (wrapping_add_usize s.(LimitsSpec.indirect_probe_count) MIN_EFFECT_HEADROOM
          = (s.(LimitsSpec.indirect_probe_count) + MIN_EFFECT_HEADROOM)%N) as ->.
  { unfold wrapping_add_usize. apply N.mod_small. unfold usize_max, u64_max in Hw. lia. }
  assert (try_for_each (λ lv, Limits.non_zero lv.1 lv.2) (Limits.non_zero_checks s) = Ok ()
    ↔ Forall (λ lv, lv.2 ≠ 0%N) (Limits.non_zero_checks s)) as Hz.
  { rewrite try_for_each_ok. apply Forall_iff. intros lv. apply non_zero_ok. }
  rewrite result_bind_ok.
  split.
  - intros ([] & H0 & H). apply Hz in H0. case_match eqn:Hd; [done|].
    apply negb_false_iff, andb_true_iff in Hd as [?%N.leb_le ?%N.leb_le].
    apply result_bind_ok in H as ([] & ?%at_most_ok & H).
    apply result_bind_ok in H as ([] & ?%at_most_ok & H).
    apply result_bind_ok in H as ([] & ?%at_most_ok & H).
    by simplify_eq/=.
  - intros (<- & H0 & Hd & H1 & H2 & H3). exists (). split; [by apply Hz|].
    rewrite (proj2 (N.leb_le 1 _)), (proj2 (N.leb_le _ 8)) by lia. simpl.
    rewrite !(proj2 (at_most_ok _ _ _ _)) by done. by destruct l.
Qed.

Lemma limits_try_from_spec_witness :
  (LimitsSpec.default.(LimitsSpec.indirect_probe_count) + MIN_EFFECT_HEADROOM ≤ usize_max)%N
  ∧ (Limits.try_from LimitsSpec.default = Ok Limits.default ↔
     Limits.spec Limits.default = LimitsSpec.default ∧ limits_consistent LimitsSpec.default).
Proof.
  assert (LimitsSpec.default.(LimitsSpec.indirect_probe_count) + MIN_EFFECT_HEADROOM ≤ usize_max)%N
    as Hle by (vm_compute; discriminate).
  split; [exact Hle|]. exact (limits_try_from_spec LimitsSpec.default Limits.default Hle).
Defined.

Lemma default_limits_valid : Limits.try_from LimitsSpec.default = Ok Limits.default.
Proof. reflexivity. Qed.

(** Without overflow checks the headroom sum wraps, so a probe count of
    [usize::MAX] passes the check it was written to fail. *)
Theorem limits_headroom_wraps :
  ∃ s l, Limits.try_from s = Ok l
    ∧ s.(LimitsSpec.indirect_probe_count) = usize_max
    ∧ (s.(LimitsSpec.max_effects_per_update) < s.(LimitsSpec.indirect_probe_count))%N.
Proof.
  set (d := LimitsSpec.default).
  exists (LimitsSpec.mk
    d.(LimitsSpec.max_members) d.(LimitsSpec.max_snapshot_members)
    d.(LimitsSpec.max_snapshot_bytes) d.(LimitsSpec.max_gossip_per_message)
    d.(LimitsSpec.max_gossip_per_inbound_message) d.(LimitsSpec.max_gossip_queue)
    d.(LimitsSpec.max_gossip_hops) d.(LimitsSpec.max_anti_entropy_entries)
    d.(LimitsSpec.anti_entropy_depth) d.(LimitsSpec.max_anti_entropy_rounds)
    d.(LimitsSpec.max_addresses_per_node) d.(LimitsSpec.max_address_len)
    d.(LimitsSpec.max_text_len) d.(LimitsSpec.max_accelerators) d.(LimitsSpec.max_engines)
    d.(LimitsSpec.max_redirects) d.(LimitsSpec.max_pending_probes)
    d.(LimitsSpec.max_pending_joins) d.(LimitsSpec.max_blocklist_entries)
    d.(LimitsSpec.max_tombstones) d.(LimitsSpec.max_effects_per_update)
    d.(LimitsSpec.max_diagnostics_per_update) usize_max
    d.(LimitsSpec.probe_timeout) d.(LimitsSpec.indirect_probe_timeout)
    d.(LimitsSpec.suspicion_timeout) d.(LimitsSpec.suspicion_multiplier)
    d.(LimitsSpec.anti_entropy_timeout) d.(LimitsSpec.join_backoff)
    d.(LimitsSpec.max_join_backoff) d.(LimitsSpec.max_join_attempts)).
  eexists. split; [reflexivity|]. split; vm_compute; reflexivity.
Qed.

(** ** Logarithmic scaling *)
Lemma ceil_log2_le (v j : N) : (1 ≤ v ≤ usize_max)%N → (ceil_log2 v ≤ j)%N ↔ (v ≤ 2 ^ j)%N.
Proof.
  intros [H1 H2]. unfold ceil_log2. destruct (N.leb_spec v 1).
  - assert (v = 1)%N as -> by lia. pose proof (N.pow_nonzero 2 j). lia.
  - assert (v - 1 ≠ 0)%N as Hv by lia.
    assert (N.log2 (v - 1) < 64)%N as Hlog.
    { apply N.log2_lt_pow2; [lia|]. unfold usize_max, u64_max in H2. change (2 ^ 64)%N
        with 18446744073709551616%N. lia. }
    unfold leading_zeros. rewrite N.size_log2 by done.
    replace (64 - (64 - N.succ (N.log2 (v - 1))))%N with (N.succ (N.log2 (v - 1))) by lia.
    rewrite N.le_succ_l, <- N.log2_lt_pow2 by lia. lia.
Qed.

(** [ceil_log2] is the exact integer ceiling of the base-two logarithm: for
    every machine-width [value >= 1] it is the least exponent whose power of two
    reaches the value. *)
Theorem ceil_log2_least (value : N) :
  (1 ≤ value ≤ usize_max)%N →
  (value ≤ 2 ^ ceil_log2 value)%N ∧ ∀ j, (value ≤ 2 ^ j)%N → (ceil_log2 value ≤ j)%N.
Proof.
  intros Hv. split; [by apply ceil_log2_le|]. intros j. by apply ceil_log2_le.
Qed.

Lemma ceil_log2_least_witness :
  (1 ≤ 1000 ≤ usize_max)%N ∧
  ((1000 ≤ 2 ^ ceil_log2 1000)%N ∧ ∀ j, (1000 ≤ 2 ^ j)%N → (ceil_log2 1000 ≤ j)%N).
Proof.
  assert (1 ≤ 1000 ≤ usize_max)%N as H by (vm_compute; split; discriminate).
  split; [exact H|]. exact (ceil_log2_least 1000 H).
Defined.

Lemma ceil_log2_mono a b : (1 ≤ a ≤ b)%N → (b ≤ usize_max)%N → (ceil_log2 a ≤ ceil_log2 b)%N.
Proof.
  intros [Ha Hab] Hb. apply ceil_log2_le; [lia|]. etrans; [exact Hab|].
  apply ceil_log2_le; lia.
Qed.

Lemma saturating_mul_mono w a b c : (a ≤ b)%N → (saturating_mul w a c ≤ saturating_mul w b c)%N.
Proof. intros. unfold saturating_mul. apply N.min_le_compat_r, N.mul_le_mono_r. done. Qed.

Lemma saturating_mul_mono_r w a b c : (a ≤ b)%N → (saturating_mul w c a ≤ saturating_mul w c b)%N.
Proof. intros. unfold saturating_mul. apply N.min_le_compat_r, N.mul_le_mono_l. done. Qed.

Lemma saturating_mul_ge w a c : (a ≤ w)%N → c ≠ 0%N → (a ≤ saturating_mul w a c)%N.
Proof. intros. unfold saturating_mul. apply N.min_glb; nia. Qed.

(** The suspicion timeout grows with the formation, never falls below the
    configured base, and saturates at [u64::MAX] instead of wrapping to a short
    deadline. *)
Theorem suspicion_timeout_bounds (l : Limits.t) (n m : N) :
  limits_consistent l →
  (DurationMillis.millis l.(LimitsSpec.suspicion_timeout) ≤ u64_max)%N →
  (n ≤ m)%N →
  let t k := DurationMillis.millis (Limits.effective_suspicion_timeout l k) in
  (DurationMillis.millis l.(LimitsSpec.suspicion_timeout) ≤ t n)%N
  ∧ (t n ≤ t m)%N ∧ (t m ≤ u64_max)%N.
Proof.
  intros (Hnz & _) Hb Hnm t. subst t. simpl.
  assert (l.(LimitsSpec.suspicion_multiplier) ≠ 0%N) as Hmul.
  { rewrite Forall_forall in Hnz. by apply (Hnz ("suspicionMultiplier", _)); repeat constructor. }
  split_and!.
  - etrans; [|apply saturating_mul_ge; [|done]].
    + apply saturating_mul_ge; [done|lia].
    + unfold saturating_mul. lia.
  - apply saturating_mul_mono, saturating_mul_mono_r.
    apply N.max_le_compat_r, ceil_log2_mono; unfold saturating_add, usize_max, u64_max; lia.
  - unfold saturating_mul. lia.
Qed.

Lemma suspicion_timeout_bounds_witness :
  limits_consistent Limits.default ∧
  let t k := DurationMillis.millis (Limits.effective_suspicion_timeout Limits.default k) in
  (5000 ≤ t 1)%N ∧ (t 1 ≤ t 1000)%N ∧ (t 1000 ≤ u64_max)%N.
Proof.
  assert (limits_consistent Limits.default) as H.
  { apply (limits_try_from_spec LimitsSpec.default Limits.default); [vm_compute; discriminate|reflexivity]. }
  split; [exact H|].
  apply (suspicion_timeout_bounds Limits.default 1 1000 H); vm_compute; discriminate.
Defined.

(** The join backoff doubles with each of the first 32 attempts until it
    reaches the configured ceiling, and no attempt waits longer than the ceiling. *)
Theorem join_backoff_doubles (l : Limits.t) (attempt : N) :
  (DurationMillis.millis l.(LimitsSpec.max_join_backoff) ≤ u64_max)%N →
  (1 ≤ attempt)%N →
  (DurationMillis.millis (Limits.join_backoff_for l attempt)
   = N.min (DurationMillis.millis l.(LimitsSpec.join_backoff) * 2 ^ N.min (attempt - 1) 31)
       (DurationMillis.millis l.(LimitsSpec.max_join_backoff)))%N.
Proof.
  intros Hcap Ha. unfold Limits.join_backoff_for. simpl.
  set (d := N.min (attempt - 1) 31). assert (d ≤ 31)%N as Hd by (unfold d; lia).
  rewrite (N.min_l d 63) by lia.
  assert (wrapping_shl 64 1 d = 2 ^ d)%N as ->.
  { unfold wrapping_shl. rewrite N.shiftl_1_l, N.mod_small; [done|].
    apply N.pow_lt_mono_r; lia. }
  unfold saturating_mul. lia.
Qed.

Lemma join_backoff_doubles_witness :
  (1 ≤ 3)%N ∧ (DurationMillis.millis (Limits.join_backoff_for Limits.default 3)
   = N.min (1000 * 2 ^ N.min (3 - 1) 31) 60000)%N.
Proof.
  split; [discriminate|].
  apply (join_backoff_doubles Limits.default 3); vm_compute; discriminate.
Defined.
