(* ===== verification/Records.v ===== *)
(** * Membership records (model.rs, and the identifiers of effect.rs)

    The replicated records, their bounds checks, the local protocol records
    (probes, suspicions, admissions, joins, anti-entropy rounds) and the
    correlation identifiers they carry. *)

From Stdlib Require Import Ascii.
From stdpp Require Import base gmap strings list sorting fin_maps pretty.
From S2P Require Import Prelude Identity Limits.

(** ** Correlation identifiers and timers (effect.rs) *)
(** Handle of an authenticated transport session. *)
Module SessionId.
Record t : Type := mk { raw : N }.
#[global] Instance SessionId_eq_dec : EqDecision t.
Proof. solve_decision. Defined.
#[global] Instance SessionId_countable : Countable t.
Proof. refine (inj_countable' raw mk _); by intros []. Defined.
#[global] Instance SessionId_ord : Ord t := λ a b, cmp (raw a) (raw b).
#[global] Instance SessionId_ord_laws : OrdLaws t.
Proof. eapply (ord_laws_inj raw); [by intros [] []; simpl; intros ->|done]. Qed.
End SessionId.

(** Correlation ID of one probe. *)
Module ProbeId.
Record t : Type := mk { raw : N }.
#[global] Instance ProbeId_eq_dec : EqDecision t.
Proof. solve_decision. Defined.
#[global] Instance ProbeId_countable : Countable t.
Proof. refine (inj_countable' raw mk _); by intros []. Defined.
#[global] Instance ProbeId_ord : Ord t := λ a b, cmp (raw a) (raw b).
#[global] Instance ProbeId_ord_laws : OrdLaws t.
Proof. eapply (ord_laws_inj raw); [by intros [] []; simpl; intros ->|done]. Qed.
End ProbeId.

(** Correlation ID of a peer-selection request. *)
Module SelectionId.
Record t : Type := mk { raw : N }.
#[global] Instance SelectionId_eq_dec : EqDecision t.
Proof. solve_decision. Defined.
#[global] Instance SelectionId_countable : Countable t.
Proof. refine (inj_countable' raw mk _); by intros []. Defined.
#[global] Instance SelectionId_ord : Ord t := λ a b, cmp (raw a) (raw b).
#[global] Instance SelectionId_ord_laws : OrdLaws t.
Proof. eapply (ord_laws_inj raw); [by intros [] []; simpl; intros ->|done]. Qed.
End SelectionId.

(** Correlation ID of a node-ID generation request. *)
Module AllocationId.
Record t : Type := mk { raw : N }.
#[global] Instance AllocationId_eq_dec : EqDecision t.
Proof. solve_decision. Defined.
#[global] Instance AllocationId_countable : Countable t.
Proof. refine (inj_countable' raw mk _); by intros []. Defined.
#[global] Instance AllocationId_ord : Ord t := λ a b, cmp (raw a) (raw b).
#[global] Instance AllocationId_ord_laws : OrdLaws t.
Proof. eapply (ord_laws_inj raw); [by intros [] []; simpl; intros ->|done]. Qed.
End AllocationId.

(** Correlation ID of a credential verification. *)
Module VerificationId.
Record t : Type := mk { raw : N }.
#[global] Instance VerificationId_eq_dec : EqDecision t.
Proof. solve_decision. Defined.
#[global] Instance VerificationId_countable : Countable t.
Proof. refine (inj_countable' raw mk _); by intros []. Defined.
#[global] Instance VerificationId_ord : Ord t := λ a b, cmp (raw a) (raw b).
#[global] Instance VerificationId_ord_laws : OrdLaws t.
Proof. eapply (ord_laws_inj raw); [by intros [] []; simpl; intros ->|done]. Qed.
End VerificationId.

Module TimerKind.
Inductive t : Type := DirectProbe | IndirectProbe | Suspicion | AntiEntropy | JoinRetry.
#[global] Instance TimerKind_eq_dec : EqDecision t.
Proof. solve_decision. Defined.
End TimerKind.

Module TimerToken.
Record t : Type := mk { kind : TimerKind.t; generation : N }.
#[global] Instance TimerToken_eq_dec : EqDecision t.
Proof. solve_decision. Defined.
End TimerToken.

(** ** Validation errors *)
Module ValidationError.
Inductive t : Type :=
  | TooLong (field : string) (len max : N)
  | TooMany (field : string) (count max : N)
  | Empty (field : string)
  | Duplicate (field : string) (key : string)
  | Inconsistent (field : string) (reason : string).
#[global] Instance ValidationError_eq_dec : EqDecision t.
Proof. solve_decision. Defined.

(** [Display], the text of the [#[error]] attributes. *)
Definition to_string (e : t) : string :=
  match e with
  | TooLong field len max =>
    "field `" +:+ field +:+ "` is " +:+ pretty len +:+ " bytes, exceeding the "
      +:+ pretty max +:+ "-byte limit"
  | TooMany field count max =>
    "field `" +:+ field +:+ "` has " +:+ pretty count +:+ " items, exceeding the limit of "
      +:+ pretty max
  | Empty field => "field `" +:+ field +:+ "` must not be empty"
  | Duplicate field key =>
    "field `" +:+ field +:+ "` contains duplicate entry `" +:+ key +:+ "`"
  | Inconsistent field reason =>
    "field `" +:+ field +:+ "` is inconsistent: " +:+ reason
  end.
End ValidationError.

Definition check_text (field : string) (value : string) (max : N)
    : result ValidationError.t unit :=
  if (max <? str_len value)%N then Err (ValidationError.TooLong field (str_len value) max)
  else Ok ().

Definition check_count (field : string) (count max : N) : result ValidationError.t unit :=
  if (max <? count)%N then Err (ValidationError.TooMany field count max) else Ok ().

(** ** Advertised descriptions *)
(** An advertised network address, kept opaque. *)
Module Address.
Record t : Type := mk { text : string }.
#[global] Instance Address_eq_dec : EqDecision t.
Proof. solve_decision. Defined.
#[global] Instance Address_countable : Countable t.
Proof. refine (inj_countable' text mk _); by intros []. Defined.
#[global] Instance Address_ord : Ord t := λ a b, cmp (text a) (text b).
#[global] Instance Address_ord_laws : OrdLaws t.
Proof. eapply (ord_laws_inj text); [by intros [] []; simpl; intros ->|done]. Qed.
End Address.

(** A blocklist network pattern, kept opaque. *)
Module NetworkPattern.
Record t : Type := mk { text : string }.
#[global] Instance NetworkPattern_eq_dec : EqDecision t.
Proof. solve_decision. Defined.
#[global] Instance NetworkPattern_countable : Countable t.
Proof. refine (inj_countable' text mk _); by intros []. Defined.
#[global] Instance NetworkPattern_ord : Ord t := λ a b, cmp (text a) (text b).
#[global] Instance NetworkPattern_ord_laws : OrdLaws t.
Proof. eapply (ord_laws_inj text); [by intros [] []; simpl; intros ->|done]. Qed.
End NetworkPattern.

Module Endpoints.
Record t : Type := mk { peers : list Address.t; clients : list Address.t }.
#[global] Instance Endpoints_eq_dec : EqDecision t.
Proof. solve_decision. Defined.

Definition validate (e : t) (limits : Limits.t) : result ValidationError.t unit :=
  _ ← check_count "endpoints.peers" (lenN (peers e)) limits.(LimitsSpec.max_addresses_per_node);
  _ ← check_count "endpoints.clients" (lenN (clients e)) limits.(LimitsSpec.max_addresses_per_node);
  try_for_each (λ address, check_text "endpoints.address" (Address.text address)
                             limits.(LimitsSpec.max_address_len))
    (peers e ++ clients e).
End Endpoints.

Module Accepts.
Record t : Type := mk { clients : bool; peers : bool; work : bool }.
Definition default : t := mk false true true.
#[global] Instance Accepts_eq_dec : EqDecision t.
Proof. solve_decision. Defined.
End Accepts.

Module NodeCapacity.
Record t : Type := mk { peers : N; clients : N }.
#[global] Instance NodeCapacity_eq_dec : EqDecision t.
Proof. solve_decision. Defined.
End NodeCapacity.

Module EngineCapability.
Record t : Type := mk { engine : string; runtime_lifecycle : string }.
#[global] Instance EngineCapability_eq_dec : EqDecision t.
Proof. solve_decision. Defined.
End EngineCapability.

Module Capabilities.
Record t : Type := mk {
  cpu_cores : N;
  memory_bytes : N;
  architecture : string;
  storage_backend : string;
  storage_replicas : option N;
  accelerators : list string;
  engines : list EngineCapability.t
}.
#[global] Instance Capabilities_eq_dec : EqDecision t.
Proof. solve_decision. Defined.

Definition validate (c : t) (limits : Limits.t) : result ValidationError.t unit :=
  _ ← check_text "capabilities.architecture" (architecture c) limits.(LimitsSpec.max_text_len);
  _ ← check_text "capabilities.storageBackend" (storage_backend c) limits.(LimitsSpec.max_text_len);
  _ ← check_count "capabilities.accelerators" (lenN (accelerators c))
        limits.(LimitsSpec.max_accelerators);
  _ ← try_for_each (λ accelerator, check_text "capabilities.accelerator" accelerator
                                     limits.(LimitsSpec.max_text_len)) (accelerators c);
  _ ← check_count "capabilities.engines" (lenN (engines c)) limits.(LimitsSpec.max_engines);
  try_for_each (λ e,
      _ ← check_text "capabilities.engine" (EngineCapability.engine e)
            limits.(LimitsSpec.max_text_len);
      check_text "capabilities.runtimeLifecycle" (EngineCapability.runtime_lifecycle e)
        limits.(LimitsSpec.max_text_len))
    (engines c).
End Capabilities.

(** ** Members *)
Module Liveness.
Inductive t : Type := Alive | Suspected | Dead.
#[global] Instance Liveness_eq_dec : EqDecision t.
Proof. solve_decision. Defined.
End Liveness.

Module Member.
Record t : Type := mk {
  id : NodeId.t;
  name : WorkerName.t;
  cert_fingerprint : CertFingerprint.t;
  protocol : ProtocolVersion.t;
  liveness : Liveness.t;
  incarnation : Incarnation.t;
  version : VersionTuple.t;
  endpoints : Endpoints.t;
  accepts : Accepts.t;
  capacity : NodeCapacity.t;
  capabilities : Capabilities.t
}.
#[global] Instance Member_eq_dec : EqDecision t.
Proof. solve_decision. Defined.

Definition validate (m : t) (limits : Limits.t) : result ValidationError.t unit :=
  _ ← Endpoints.validate (endpoints m) limits;
  Capabilities.validate (capabilities m) limits.

(** Assignments to the fields the failure detector and a refutation write. *)
Definition set_liveness (m : t) (l : Liveness.t) (i : Incarnation.t) : t :=
  mk (id m) (name m) (cert_fingerprint m) (protocol m) l i (version m)
    (endpoints m) (accepts m) (capacity m) (capabilities m).
Definition set_version (m : t) (v : VersionTuple.t) : t :=
  mk (id m) (name m) (cert_fingerprint m) (protocol m) (liveness m) (incarnation m) v
    (endpoints m) (accepts m) (capacity m) (capabilities m).
End Member.

(** ** Blocklist *)
Module BlocklistKey.
Inductive t : Type :=
  | Node (id : NodeId.t)
  | Name (name : WorkerName.t)
  | Fingerprint (fingerprint : CertFingerprint.t)
  | Network (pattern : NetworkPattern.t).
#[global] Instance BlocklistKey_eq_dec : EqDecision t.
Proof. solve_decision. Defined.
#[global] Instance BlocklistKey_countable : Countable t.
Proof.
  refine (inj_countable'
    (λ k, match k with Node a => inl (inl a) | Name a => inl (inr a)
                  | Fingerprint a => inr (inl a) | Network a => inr (inr a) end)
    (λ x, match x with inl (inl a) => Node a | inl (inr a) => Name a
                  | inr (inl a) => Fingerprint a | inr (inr a) => Network a end) _).
  by intros [].
Defined.

(** The derived order: by variant, then by content. *)
Definition rank (k : t) : N :=
  match k with Node _ => 0 | Name _ => 1 | Fingerprint _ => 2 | Network _ => 3 end.
#[global] Instance BlocklistKey_ord : Ord t := λ a b,
  match a, b with
  | Node x, Node y => cmp x y
  | Name x, Name y => cmp x y
  | Fingerprint x, Fingerprint y => cmp x y
  | Network x, Network y => cmp x y
  | _, _ => cmp (rank a) (rank b)
  end.

(** [Display]. *)
Definition to_string (k : t) : string :=
  match k with
  | Node id => "node:" +:+ NodeId.as_str id
  | Name name => "name:" +:+ WorkerName.as_str name
  | Fingerprint fingerprint => "cert:" +:+ CertFingerprint.to_hex fingerprint
  | Network pattern => "net:" +:+ NetworkPattern.text pattern
  end.
End BlocklistKey.

Module BlocklistAction.
Inductive t : Type := Block | Allow.
#[global] Instance BlocklistAction_eq_dec : EqDecision t.
Proof. solve_decision. Defined.
End BlocklistAction.

Module BlocklistEntry.
Record t : Type := mk {
  key : BlocklistKey.t;
  action : BlocklistAction.t;
  version : VersionTuple.t;
  added_by : string
}.
#[global] Instance BlocklistEntry_eq_dec : EqDecision t.
Proof. solve_decision. Defined.

Definition validate (e : t) (limits : Limits.t) : result ValidationError.t unit :=
  _ ← check_text "blocklist.addedBy" (added_by e) limits.(LimitsSpec.max_text_len);
  match key e with
  | BlocklistKey.Network pattern =>
    check_text "blocklist.network" (NetworkPattern.text pattern) limits.(LimitsSpec.max_text_len)
  | _ => Ok ()
  end.
End BlocklistEntry.

(** ** Policies and the local identity *)
Module AdmissionPolicy.
Record t : Type := mk { accepts_peers : bool; capacity : N; protocol_range : ProtocolRange.t }.
Definition default : t := mk true 4096 ProtocolRange.default.
#[global] Instance AdmissionPolicy_eq_dec : EqDecision t.
Proof. solve_decision. Defined.
End AdmissionPolicy.

Module MembershipPolicy.
Record t : Type := mk { locked : bool; version : VersionTuple.t }.
#[global] Instance MembershipPolicy_eq_dec : EqDecision t.
Proof. solve_decision. Defined.
End MembershipPolicy.

Module LocalIdentity.
Record t : Type := mk {
  node_id : NodeId.t;
  worker_name : WorkerName.t;
  cert_fingerprint : CertFingerprint.t;
  protocol : ProtocolVersion.t;
  endpoints : Endpoints.t;
  accepts : Accepts.t;
  capacity : NodeCapacity.t;
  capabilities : Capabilities.t
}.
#[global] Instance LocalIdentity_eq_dec : EqDecision t.
Proof. solve_decision. Defined.
Definition set_node_id (l : t) (id : NodeId.t) : t :=
  mk id (worker_name l) (cert_fingerprint l) (protocol l) (endpoints l) (accepts l)
    (capacity l) (capabilities l).
End LocalIdentity.

(** ** Probes and suspicions *)
Module ProbePhase.
Inductive t : Type :=
  | Direct
  | Indirect (helpers : list NodeId.t) (answered : gset NodeId.t)
  | Relay (requester : NodeId.t) (requester_probe : ProbeId.t).
#[global] Instance ProbePhase_eq_dec : EqDecision t.
Proof. solve_decision. Defined.
End ProbePhase.

Module PendingProbe.
Record t : Type := mk {
  id : ProbeId.t;
  target : NodeId.t;
  target_incarnation : Incarnation.t;
  phase : ProbePhase.t;
  timer : TimerToken.t
}.
#[global] Instance PendingProbe_eq_dec : EqDecision t.
Proof. solve_decision. Defined.
Definition set_phase (p : t) (ph : ProbePhase.t) : t :=
  mk (id p) (target p) (target_incarnation p) ph (timer p).
Definition set_timer (p : t) (tok : TimerToken.t) : t :=
  mk (id p) (target p) (target_incarnation p) (phase p) tok.
End PendingProbe.

Module Suspicion.
Record t : Type := mk { incarnation : Incarnation.t; timer : TimerToken.t }.
#[global] Instance Suspicion_eq_dec : EqDecision t.
Proof. solve_decision. Defined.
End Suspicion.

(** ** Admission and join bookkeeping *)
Module AdmissionStage.
Inductive t : Type :=
  | AwaitingEvidence (request : VerificationId.t)
  | AwaitingNodeId (request : AllocationId.t).
#[global] Instance AdmissionStage_eq_dec : EqDecision t.
Proof. solve_decision. Defined.
End AdmissionStage.

Module PendingAdmission.
Record t : Type := mk {
  session : SessionId.t;
  name : WorkerName.t;
  cert_fingerprint : CertFingerprint.t;
  protocol : ProtocolVersion.t;
  endpoints : Endpoints.t;
  accepts : Accepts.t;
  capacity : NodeCapacity.t;
  capabilities : Capabilities.t;
  stage : AdmissionStage.t
}.
#[global] Instance PendingAdmission_eq_dec : EqDecision t.
Proof. solve_decision. Defined.
Definition set_stage (p : t) (st : AdmissionStage.t) : t :=
  mk (session p) (name p) (cert_fingerprint p) (protocol p) (endpoints p) (accepts p)
    (capacity p) (capabilities p) st.
End PendingAdmission.

Module JoinAttempt.
Record t : Type := mk {
  session : SessionId.t;
  target_formation : FormationId.t;
  attempt : N;
  redirects : list Address.t;
  timer : TimerToken.t
}.
#[global] Instance JoinAttempt_eq_dec : EqDecision t.
Proof. solve_decision. Defined.
Definition set_session (a : t) (s : SessionId.t) : t :=
  mk s (target_formation a) (attempt a) (redirects a) (timer a).
Definition set_redirects (a : t) (r : list Address.t) : t :=
  mk (session a) (target_formation a) (attempt a) r (timer a).
Definition retry (a : t) (n : N) (tok : TimerToken.t) : t :=
  mk (session a) (target_formation a) n (redirects a) tok.
End JoinAttempt.

(** ** Anti-entropy rounds *)
Module AntiEntropyCursor.
Record t : Type := mk { bucket : N; after_key : bytes }.
#[global] Instance AntiEntropyCursor_eq_dec : EqDecision t.
Proof. solve_decision. Defined.
End AntiEntropyCursor.

Module AntiEntropyRound.
Record t : Type := mk {
  peer : NodeId.t;
  round : N;
  cursor : option AntiEntropyCursor.t;
  exchanges : N;
  timer : TimerToken.t
}.
#[global] Instance AntiEntropyRound_eq_dec : EqDecision t.
Proof. solve_decision. Defined.
End AntiEntropyRound.

(** ** Deterministic fixtures (testing.rs)

    The record fixtures of the crate, on which the concrete instances of the
    theorems are evaluated. *)
Module Testing.
Definition node (id : string) : NodeId.t := NodeId.mk id.

Definition formation : FormationId.t := FormationId.mk "formation-0000-test".

Definition version (counter : N) : VersionTuple.t :=
  VersionTuple.mk 0 counter (NodeId.mk "node-actor").

(** [seed.wrapping_add(index as u8)] for each of the 32 bytes. *)
Definition fingerprint (seed : N) : CertFingerprint.t :=
  CertFingerprint.from_bytes
    ((λ index, ascii_of_N ((seed + N.of_nat index) mod 256)) <$> seq 0 32).

Definition capabilities : Capabilities.t :=
  Capabilities.mk 8 (16 * 1024 * 1024 * 1024) "x86_64" "local" (Some 3%N) ["cuda"]
    [EngineCapability.mk "wasm-component" "orishu.workload/v1"].

Definition local_identity (id : string) : LocalIdentity.t :=
  LocalIdentity.mk (NodeId.mk id) (WorkerName.mk "worker-local") (fingerprint 16)
    ProtocolVersion.CURRENT (Endpoints.mk [Address.mk "10.0.0.1:6655"] []) Accepts.default
    (NodeCapacity.mk 32768 1024) capabilities.

Definition member (id : string) (counter : N) : Member.t :=
  let node := NodeId.mk id in
  Member.mk node (WorkerName.mk ("worker-" +:+ id)) (fingerprint (str_len id mod 256))
    ProtocolVersion.CURRENT Liveness.Alive Incarnation.INITIAL
    (VersionTuple.mk 0 counter node)
    (Endpoints.mk [Address.mk ("10.0.0." +:+ pretty (str_len id) +:+ ":6655")] [])
    Accepts.default (NodeCapacity.mk 32768 1024) capabilities.

Definition tombstone (id : string) (mode : RemovalMode.t) : MembershipTombstone.t :=
  MembershipTombstone.mk (NodeId.mk id) (WorkerName.mk ("worker-" +:+ id))
    (fingerprint (str_len id mod 256)) mode (version 1) false None.

Definition blocklist_entry (name : string) : BlocklistEntry.t :=
  BlocklistEntry.mk (BlocklistKey.Name (WorkerName.mk name)) BlocklistAction.Block (version 1)
    "operator-1".
End Testing.

(** ** Facts about the records *)
#[global] Instance BlocklistKey_ord_laws : OrdLaws BlocklistKey.t.
Proof.
  split; unfold cmp, BlocklistKey.BlocklistKey_ord.
  - intros [] []; simpl; rewrite ?cmp_eq; try (split; [by intros ->|by intros [= ->]]);
      by vm_compute.
  - intros [] []; simpl; first [apply cmp_antisym|reflexivity].
  - intros [a|a|a|a] [b|b|b|b] [c|c|c|c]; try done; apply cmp_lt_trans.
Qed.

Lemma string_app_bytes s t : bytes_of (s +:+ t) = bytes_of s ++ bytes_of t.
Proof. induction s as [|c s IH]; [done|]. unfold bytes_of in *. simpl. by rewrite IH. Qed.

Lemma check_text_ok f v m : check_text f v m = Ok () ↔ (str_len v ≤ m)%N.
Proof. unfold check_text. destruct (N.ltb_spec m (str_len v)); split; try done; lia. Qed.

Lemma check_count_ok f c m : check_count f c m = Ok () ↔ (c ≤ m)%N.
Proof. unfold check_count. destruct (N.ltb_spec m c); split; try done; lia. Qed.
