(* ===== verification/Gossip.v ===== *)
(** * Gossip deltas and the retirement queue (gossip.rs) *)

From Stdlib Require Import Ascii.
From stdpp Require Import base gmap strings list sorting fin_maps pretty.
From S2P Require Import Prelude Identity Limits Records.

(** ** Deltas *)
Module ForeignDelta.
(** [payload] is the undecoded [OpaquePayload]. *)
Record t : Type := mk {
  delta_type : string;
  key : string;
  version : VersionTuple.t;
  payload : bytes
}.
#[global] Instance ForeignDelta_eq_dec : EqDecision t.
Proof. solve_decision. Defined.
End ForeignDelta.

Module GossipKey.
Inductive t : Type :=
  | MembershipPolicy
  | Member (id : NodeId.t)
  | Tombstone (id : NodeId.t)
  | Blocklist (key : BlocklistKey.t).
#[global] Instance GossipKey_eq_dec : EqDecision t.
Proof. solve_decision. Defined.
#[global] Instance GossipKey_countable : Countable t.
Proof.
  refine (inj_countable'
    (λ k, match k with MembershipPolicy => inl () | Member a => inr (inl a)
                  | Tombstone a => inr (inr (inl a)) | Blocklist a => inr (inr (inr a)) end)
    (λ x, match x with inl () => MembershipPolicy | inr (inl a) => Member a
                  | inr (inr (inl a)) => Tombstone a | inr (inr (inr a)) => Blocklist a end) _).
  by intros [].
Defined.

Definition rank (k : t) : N :=
  match k with MembershipPolicy => 0 | Member _ => 1 | Tombstone _ => 2 | Blocklist _ => 3 end.
#[global] Instance GossipKey_ord : Ord t := λ a b,
  match a, b with
  | Member x, Member y => cmp x y
  | Tombstone x, Tombstone y => cmp x y
  | Blocklist x, Blocklist y => cmp x y
  | _, _ => cmp (rank a) (rank b)
  end.
#[global] Instance GossipKey_ord_laws : OrdLaws t.
Proof.
  split; unfold cmp, GossipKey_ord.
  - intros [|a|a|a] [|b|b|b]; simpl; rewrite ?cmp_eq;
      try (split; [by intros ->|by intros [= ->]]); by split.
  - intros [|a|a|a] [|b|b|b]; simpl; first [apply cmp_antisym|reflexivity].
  - intros [|a|a|a] [|b|b|b] [|c|c|c]; try done; apply cmp_lt_trans.
Qed.
End GossipKey.

Module DeltaBody.
Inductive t : Type :=
  | MembershipUpdate (member : Member.t)
  | TombstoneUpdate (tombstone : MembershipTombstone.t)
  | BlocklistUpdate (entry : BlocklistEntry.t)
  | MembershipPolicyUpdate (policy : MembershipPolicy.t)
  | Foreign (delta : ForeignDelta.t).
#[global] Instance DeltaBody_eq_dec : EqDecision t.
Proof. solve_decision. Defined.

Definition version (b : t) : VersionTuple.t :=
  match b with
  | MembershipUpdate member => Member.version member
  | TombstoneUpdate tombstone => MembershipTombstone.version tombstone
  | BlocklistUpdate entry => BlocklistEntry.version entry
  | MembershipPolicyUpdate policy => MembershipPolicy.version policy
  | Foreign delta => ForeignDelta.version delta
  end.

Definition key (b : t) : option GossipKey.t :=
  match b with
  | MembershipUpdate member => Some (GossipKey.Member (Member.id member))
  | TombstoneUpdate tombstone =>
    Some (GossipKey.Tombstone (MembershipTombstone.node_id tombstone))
  | BlocklistUpdate entry => Some (GossipKey.Blocklist (BlocklistEntry.key entry))
  | MembershipPolicyUpdate _ => Some GossipKey.MembershipPolicy
  | Foreign _ => None
  end.

Definition entity (b : t) : string :=
  match b with
  | MembershipUpdate member => "member:" +:+ NodeId.as_str (Member.id member)
  | TombstoneUpdate tombstone =>
    "tombstone:" +:+ NodeId.as_str (MembershipTombstone.node_id tombstone)
  | BlocklistUpdate entry => "blocklist:" +:+ BlocklistKey.to_string (BlocklistEntry.key entry)
  | MembershipPolicyUpdate _ => "policy:membership"
  | Foreign delta => ForeignDelta.delta_type delta +:+ ":" +:+ ForeignDelta.key delta
  end.
End DeltaBody.

Module GossipDelta.
Record t : Type := mk { hops : N; body : DeltaBody.t }.
#[global] Instance GossipDelta_eq_dec : EqDecision t.
Proof. solve_decision. Defined.
End GossipDelta.

Module QueuedDelta.
Record t : Type := mk { hops : N; body : DeltaBody.t }.
#[global] Instance QueuedDelta_eq_dec : EqDecision t.
Proof. solve_decision. Defined.
End QueuedDelta.

(** ** The queue *)

(** [Iterator::max_by]: the last of the greatest elements. *)
Fixpoint max_by {A} (f : A → A → comparison) (l : list A) : option A :=
  match l with
  | [] => None
  | x :: l =>
    match max_by f l with
    | None => Some x
    | Some y => match f x y with Gt => Some x | _ => Some y end
    end
  end.

(** [slice::is_sorted_by]. *)
Fixpoint is_sorted_by {A} (le : A → A → bool) (l : list A) : bool :=
  match l with
  | x :: ((y :: _) as l') => le x y && is_sorted_by le l'
  | _ => true
  end.

Module GossipQueue.
Abbreviation entry := (GossipKey.t * QueuedDelta.t)%type.
Record t : Type := mk { entries : gmap GossipKey.t QueuedDelta.t }.
#[global] Instance GossipQueue_eq_dec : EqDecision t.
Proof. solve_decision. Defined.

Definition default : t := mk ∅.
Definition len (q : t) : N := map_len (entries q).
Definition is_empty (q : t) : bool := bool_decide (entries q = ∅).
Definition iter (q : t) : list (GossipKey.t * N * DeltaBody.t) :=
  (λ e : entry, (e.1, QueuedDelta.hops e.2, QueuedDelta.body e.2)) <$> btree_entries (entries q).

(** Eviction order: by hops, then by key. *)
Definition travel (a b : entry) : comparison :=
  then_cmp (cmp (QueuedDelta.hops a.2) (QueuedDelta.hops b.2)) (cmp a.1 b.1).

Definition evict_one (q : t) : t :=
  match max_by travel (btree_entries (entries q)) with
  | Some (key, _) => mk (delete key (entries q))
  | None => q
  end.

Definition enqueue (q : t) (body : DeltaBody.t) (limits : Limits.t) : t :=
  match DeltaBody.key body with
  | None => q
  | Some key =>
    let existing := entries q !! key in
    let replay := match existing with
                  | Some e => cmp_geb (DeltaBody.version (QueuedDelta.body e))
                                (DeltaBody.version body)
                              && bool_decide (QueuedDelta.body e = body)
                  | None => false
                  end in
    let older := match existing with
                 | Some e => cmp_gtb (DeltaBody.version (QueuedDelta.body e))
                               (DeltaBody.version body)
                 | None => false
                 end in
    if replay then q
    else if older then q
    else
      let q := if negb (contains_key key (entries q))
                  && (limits.(LimitsSpec.max_gossip_queue) <=? len q)%N
               then evict_one q else q in
      mk (<[key := QueuedDelta.mk 0 body]> (entries q))
  end.

Definition defer (q : t) (delta : GossipDelta.t) (max_hops : N) (limits : Limits.t) : t :=
  let key := DeltaBody.key (GossipDelta.body delta) in
  let held := key ← key; e ← entries q !! key;
              if decide (QueuedDelta.body e = GossipDelta.body delta) then Some e else None in
  let previous_hops := (match held with Some e => QueuedDelta.hops e | None => max_hops end - 1)%N in
  let q := enqueue q (GossipDelta.body delta) limits in
  match key with
  | None => q
  | Some key => mk (alter (λ e, QueuedDelta.mk previous_hops (QueuedDelta.body e)) key (entries q))
  end.

(** Selection order: least travelled, then newest, then by key. *)
Definition priority (a b : entry) : comparison :=
  then_cmp (cmp (QueuedDelta.hops a.2) (QueuedDelta.hops b.2))
    (then_cmp (cmp (DeltaBody.version (QueuedDelta.body b.2))
                 (DeltaBody.version (QueuedDelta.body a.2)))
       (cmp a.1 b.1)).
Definition priority_le (a b : entry) : Prop := priority a b ≠ Gt.
#[global] Instance priority_le_dec a b : Decision (priority_le a b).
Proof. unfold priority_le. solve_decision. Defined.

(** The candidates in order. [select] is [select_nth_unstable_by], which only
    promises a partition around position [count]; [sort_unstable_by] of what is
    left is a sort, since the keys make the order total. *)
Definition ordered_candidates (select : N → list entry → list entry) (count : N)
    (candidates : list entry) : list entry :=
  if is_sorted_by (λ a b, bool_decide (priority_le a b)) candidates then candidates
  else
    let candidates := if (count <? lenN candidates)%N
                      then takeN count (select count candidates) else candidates in
    merge_sort priority_le candidates.

(** One iteration of the charging loop: [(entries, taken, retired)]. *)
Definition charge (max_hops : N)
    (st : gmap GossipKey.t QueuedDelta.t * list GossipDelta.t * list GossipKey.t)
    (key : GossipKey.t)
    : gmap GossipKey.t QueuedDelta.t * list GossipDelta.t * list GossipKey.t :=
  let '(entries, taken, retired) := st in
  match entries !! key with
  | None => st
  | Some queued =>
    let hops := saturating_add u32_max (QueuedDelta.hops queued) 1 in
    (<[key := QueuedDelta.mk hops (QueuedDelta.body queued)]> entries,
     taken ++ [GossipDelta.mk hops (QueuedDelta.body queued)],
     if (max_hops <=? hops)%N then retired ++ [key] else retired)
  end.

Definition take_with (select : N → list entry → list entry) (q : t) (count max_hops : N)
    : list GossipDelta.t * t :=
  if (count =? 0)%N || is_empty q then ([], q)
  else
    let candidates := ordered_candidates select count (btree_entries (entries q)) in
    let chosen := (takeN count candidates).*1 in
    let '(es, taken, retired) := foldl (charge max_hops) (entries q, [], []) chosen in
    (taken, mk (foldl (λ es key, delete key es) es retired)).

(** Any selection meeting the library's contract gives the same result, see
    [take_select_independent]; sorting everything is one. *)
Definition take (q : t) (count max_hops : N) : list GossipDelta.t * t :=
  take_with (λ _ l, merge_sort priority_le l) q count max_hops.
End GossipQueue.

(** ** The selection order is total on a queue *)
Module GossipOrder.
Import GossipQueue.

Definition priority_key (e : entry) : N * (Reverse VersionTuple.t * GossipKey.t) :=
  (QueuedDelta.hops e.2, (reverse_of (DeltaBody.version (QueuedDelta.body e.2)), e.1)).

Lemma priority_as_key a b : priority a b = cmp (priority_key a) (priority_key b).
Proof. done. Qed.

#[export] Instance priority_le_total : Total priority_le.
Proof. intros a b. unfold priority_le. rewrite !priority_as_key. apply cmp_le_total. Qed.

#[export] Instance priority_le_trans : Transitive priority_le.
Proof. intros a b c. unfold priority_le. rewrite !priority_as_key. apply cmp_le_trans. Qed.

(** Two entries of one queue that rank equally are the same entry. *)
Lemma priority_le_antisym (l : list entry) x y :
  NoDup l.*1 → x ∈ l → y ∈ l → priority_le x y → priority_le y x → x = y.
Proof.
  intros Hnd Hx Hy Hxy Hyx. unfold priority_le in *. rewrite priority_as_key in Hxy, Hyx.
  pose proof (cmp_le_antisym _ _ Hxy Hyx) as [= _ _ Hk].
  destruct x as [k1 v1], y as [k2 v2]; simpl in Hk; subst k2.
  f_equal. exact (NoDup_fst_inj l k1 v1 v2 Hnd Hx Hy).
Qed.

(** What [select_nth_unstable_by(count, ..)] promises: the elements stay the
    same, and those before position [count] rank no later than the others. *)
Definition select_contract (select : N → list entry → list entry) : Prop :=
  ∀ n l, (n < lenN l)%N →
    select n l ≡ₚ l ∧
    ∀ x y, x ∈ firstn (N.to_nat n) (select n l) → y ∈ drop (N.to_nat n) (select n l) →
           priority_le x y.

Lemma merge_sort_select select n l :
  select_contract select → NoDup l.*1 → (n < lenN l)%N →
  merge_sort priority_le (takeN n (select n l)) = takeN n (merge_sort priority_le l).
Proof.
  intros Hsel Hnd Hn. destruct (Hsel n l Hn) as [Hperm Hpart].
  rewrite !takeN_take. set (m := N.to_nat n). set (s := select n l) in *.
  assert (merge_sort priority_le (firstn m s) ++ merge_sort priority_le (drop m s)
          = merge_sort priority_le l) as Heq.
  { eapply StronglySorted_unique_strong; [| |apply StronglySorted_merge_sort; apply _|].
    - intros x y Hx Hy. apply (priority_le_antisym l); [done| |].
      + rewrite !merge_sort_Permutation, take_drop, Hperm in Hx. done.
      + by rewrite merge_sort_Permutation in Hy.
    - apply StronglySorted_app. split_and!; try (apply StronglySorted_merge_sort; apply _).
      intros x y. rewrite !merge_sort_Permutation. apply Hpart.
    - by rewrite !merge_sort_Permutation, take_drop. }
  rewrite <- Heq. rewrite take_app_length'; [done|].
  rewrite merge_sort_Permutation, length_take, Hperm. unfold lenN in Hn. lia.
Qed.

Lemma is_sorted_by_sorted (l : list entry) :
  is_sorted_by (λ a b, bool_decide (priority_le a b)) l = true → Sorted priority_le l.
Proof.
  induction l as [|x [|y l] IH]; intros H; [by constructor|by repeat constructor|].
  simpl in H. apply andb_true_iff in H as [H1 H2].
  constructor; [by apply IH|]. constructor. by apply bool_decide_eq_true in H1.
Qed.

Lemma ordered_candidates_spec select count l :
  select_contract select → NoDup l.*1 →
  takeN count (ordered_candidates select count l) = takeN count (merge_sort priority_le l).
Proof.
  intros Hsel Hnd. unfold ordered_candidates. case_match eqn:Hs.
  - f_equal. eapply StronglySorted_unique_strong.
    + intros x y Hx Hy. apply (priority_le_antisym l); [done..|].
      by rewrite merge_sort_Permutation in Hy.
    + apply Sorted_StronglySorted; [apply _|]. by apply is_sorted_by_sorted.
    + apply StronglySorted_merge_sort; apply _.
    + by rewrite merge_sort_Permutation.
  - destruct (N.ltb_spec count (lenN l)); [|done].
    rewrite merge_sort_select by done. apply takeN_ge. apply lenN_takeN_le.
Qed.

Lemma merge_sort_contract : select_contract (λ _ l, merge_sort priority_le l).
Proof.
  intros n l _. split; [apply merge_sort_Permutation|]. intros x y Hx Hy.
  pose proof (StronglySorted_merge_sort priority_le l) as HS.
  rewrite <- (take_drop (N.to_nat n) (merge_sort _ l)) in HS.
  apply StronglySorted_app in HS as (Hc & _ & _). by apply Hc.
Qed.
End GossipOrder.

(** ** What [take] does *)

(** One transmission of a queued delta. *)
Definition bump (q : QueuedDelta.t) : QueuedDelta.t :=
  QueuedDelta.mk (saturating_add u32_max (QueuedDelta.hops q) 1) (QueuedDelta.body q).
Definition transmitted (e : GossipQueue.entry) : GossipDelta.t :=
  GossipDelta.mk (QueuedDelta.hops (bump e.2)) (QueuedDelta.body e.2).
Definition retires (max_hops : N) (q : QueuedDelta.t) : bool :=
  (max_hops <=? QueuedDelta.hops (bump q))%N.

(** The reference: sort the whole queue, take the prefix, charge each entry one
    hop, and drop the entries that reach [max_hops]. *)
Definition chosen_reference (q : GossipQueue.t) (count : N) : list GossipQueue.entry :=
  takeN count (merge_sort GossipQueue.priority_le (btree_entries (GossipQueue.entries q))).
Definition charged_reference (q : GossipQueue.t) (count max_hops : N) (k : GossipKey.t)
    : option QueuedDelta.t :=
  e ← GossipQueue.entries q !! k;
  if decide (k ∈ (chosen_reference q count).*1) then
    if retires max_hops e then None else Some (bump e)
  else Some e.

Lemma charge_fold max_hops (l : list GossipQueue.entry) es tk rt :
  NoDup l.*1 → (∀ k e, (k, e) ∈ l → es !! k = Some e) →
  foldl (GossipQueue.charge max_hops) (es, tk, rt) l.*1
  = (foldl (λ es e, <[e.1 := bump e.2]> es) es l, tk ++ (transmitted <$> l),
     rt ++ (filter (λ e, retires max_hops e.2 = true) l).*1).
Proof.
  revert es tk rt. induction l as [|[k e] l IH]; intros es tk rt Hnd Hin.
  { simpl. by rewrite !app_nil_r. }
  apply NoDup_cons in Hnd as [Hk Hnd]. cbn [fmap list_fmap foldl fst].
  unfold GossipQueue.charge at 2. rewrite (Hin k e) by apply list_elem_of_here.
  change (QueuedDelta.mk (saturating_add u32_max (QueuedDelta.hops e) 1) (QueuedDelta.body e))
    with (bump e).
  change (max_hops <=? saturating_add u32_max (QueuedDelta.hops e) 1)%N with (retires max_hops e).
  rewrite IH; [|done|].
  - rewrite filter_cons. cbn [snd]. rewrite <- !(assoc_L (++)).
    case_decide as Hr; [rewrite Hr|apply not_true_is_false in Hr; rewrite Hr]; [|done].
    by rewrite <- (assoc_L (++)).
  - intros k' e' Hin'. rewrite lookup_insert_ne; [apply Hin; by right|].
    intros ->. apply Hk. apply list_elem_of_fmap. by exists (k', e').
Qed.

Lemma foldl_insert_lookup (l : list GossipQueue.entry) (es : gmap GossipKey.t QueuedDelta.t) k :
  NoDup l.*1 → (∀ k e, (k, e) ∈ l → es !! k = Some e) →
  foldl (λ es e, <[e.1 := bump e.2]> es) es l !! k
  = if decide (k ∈ l.*1) then bump <$> es !! k else es !! k.
Proof.
  revert es. induction l as [|[k' e'] l IH]; intros es Hnd Hin; [done|].
  apply NoDup_cons in Hnd as [Hk Hnd]. cbn [foldl fst snd fmap list_fmap].
  assert (es !! k' = Some e') as Hes by (apply Hin; left).
  rewrite IH; [|done|].
  - destruct (decide (k = k')) as [->|Hne].
    + rewrite decide_False by done. rewrite decide_True by left.
      by rewrite lookup_insert_eq, Hes.
    + rewrite lookup_insert_ne by done. destruct (decide (k ∈ l.*1)).
      * by rewrite decide_True by (by right).
      * rewrite decide_False; [done|]. by intros [?|?]%elem_of_cons.
  - intros k'' e'' Hin'. rewrite lookup_insert_ne; [apply Hin; by right|].
    intros <-. apply Hk. apply list_elem_of_fmap. by exists (k', e'').
Qed.

Lemma foldl_delete_lookup (l : list GossipKey.t) (es : gmap GossipKey.t QueuedDelta.t) k :
  foldl (λ es key, delete key es) es l !! k = if decide (k ∈ l) then None else es !! k.
Proof.
  revert es. induction l as [|k' l IH]; intros es; [done|]. cbn [foldl]. rewrite IH.
  destruct (decide (k ∈ l)); [by rewrite decide_True by (by right)|].
  destruct (decide (k = k')) as [->|]; [by rewrite lookup_delete_eq, decide_True by left|].
  rewrite lookup_delete_ne by done. rewrite decide_False; [done|]. by intros [?|?]%elem_of_cons.
Qed.

Section take_spec.
Variable select : N → list GossipQueue.entry → list GossipQueue.entry.
Hypothesis select_ok : GossipOrder.select_contract select.

Lemma chosen_reference_props q count :
  NoDup (chosen_reference q count).*1
  ∧ ∀ k e, (k, e) ∈ chosen_reference q count → GossipQueue.entries q !! k = Some e.
Proof.
  unfold chosen_reference. split.
  - rewrite takeN_take, fmap_take. apply NoDup_firstn.
    rewrite merge_sort_Permutation. apply NoDup_btree_keys.
  - intros k e Hin%elem_of_takeN. rewrite merge_sort_Permutation in Hin.
    by apply elem_of_btree_entries.
Qed.

(** [take] implements its reference for every library selection routine
    that keeps its contract: it transmits the least travelled, then newest, then
    lowest-keyed deltas, charges each exactly one hop, retires those that reach
    [max_hops], and leaves every other entry alone. The partial selection it
    uses is not observable. *)
Theorem gossip_take_spec (q : GossipQueue.t) (count max_hops : N) :
  let r := GossipQueue.take_with select q count max_hops in
  r.1 = transmitted <$> chosen_reference q count
  ∧ ∀ k, GossipQueue.entries r.2 !! k = charged_reference q count max_hops k.
Proof.
  destruct (chosen_reference_props q count) as [Hnd Hin].
  unfold GossipQueue.take_with. cbv zeta.
  destruct (N.eqb_spec count 0) as [->|Hc]; simpl.
  { assert (chosen_reference q 0 = []) as Hnil.
    { unfold chosen_reference. rewrite takeN_take. done. }
    rewrite Hnil. split; [done|]. intros k. unfold charged_reference. rewrite Hnil.
    by destruct (_ !! k). }
  unfold GossipQueue.is_empty. case_bool_decide as He.
  { assert (chosen_reference q count = []) as Hnil.
    { unfold chosen_reference. rewrite He. unfold btree_entries. rewrite map_to_list_empty. reflexivity. }
    rewrite Hnil. split; [done|]. intros k. unfold charged_reference. simpl. rewrite He. by rewrite lookup_empty. }
  rewrite (GossipOrder.ordered_candidates_spec select count) by (exact select_ok || apply NoDup_btree_keys).
  fold (chosen_reference q count).
  pose proof (charge_fold max_hops (chosen_reference q count) (GossipQueue.entries q) [] []
    Hnd Hin) as ->.
  simpl. split; [done|]. intros k.
  rewrite foldl_delete_lookup, foldl_insert_lookup by done. unfold charged_reference.
  destruct (GossipQueue.entries q !! k) as [e|] eqn:Hk; simpl; [|by repeat case_decide].
  destruct (decide (k ∈ (chosen_reference q count).*1)) as [Hch|Hch].
  - assert ((k, e) ∈ chosen_reference q count) as Hke.
    { apply list_elem_of_fmap in Hch as ([k' e'] & -> & Hke). cbn [fst] in *.
      pose proof (Hin _ _ Hke). by simplify_eq. }
    destruct (retires max_hops e) eqn:Hr.
    + rewrite decide_True; [done|]. apply list_elem_of_fmap. exists (k, e).
      split; [done|]. by apply list_elem_of_filter.
    + rewrite decide_False; [done|]. intros ([k' e'] & -> & [Hr' Hke']%list_elem_of_filter)%list_elem_of_fmap.
      cbn [fst snd] in *. pose proof (Hin _ _ Hke'). simplify_eq. congruence.
  - rewrite decide_False; [done|]. intros ([k' e'] & -> & [Hr' Hke']%list_elem_of_filter)%list_elem_of_fmap.
    apply Hch, list_elem_of_fmap. by exists (k', e').
Qed.
End take_spec.

Definition sample_queue : GossipQueue.t :=
  foldl (λ q m, GossipQueue.enqueue q (DeltaBody.MembershipUpdate m) Limits.default)
    GossipQueue.default
    [Testing.member "node-a" 1; Testing.member "node-b" 3; Testing.member "node-c" 2].

Lemma gossip_take_spec_witness :
  GossipOrder.select_contract (λ _ l, merge_sort GossipQueue.priority_le l) ∧
  ((GossipQueue.take_with (λ _ l, merge_sort GossipQueue.priority_le l) sample_queue 2 4).1
   = transmitted <$> chosen_reference sample_queue 2).
Proof.
  split; [exact GossipOrder.merge_sort_contract|].
  exact (proj1 (gossip_take_spec _ GossipOrder.merge_sort_contract sample_queue 2 4)).
Defined.

Example sample_take_order :
  DeltaBody.entity ∘ GossipDelta.body <$> (GossipQueue.take sample_queue 2 4).1
  = ["member:node-b"; "member:node-c"].
Proof. reflexivity. Qed.

(** ** Bounds *)
Lemma gossip_take_spec_default q count max_hops :
  let r := GossipQueue.take q count max_hops in
  r.1 = transmitted <$> chosen_reference q count
  ∧ ∀ k, GossipQueue.entries r.2 !! k = charged_reference q count max_hops k.
Proof. apply gossip_take_spec, GossipOrder.merge_sort_contract. Qed.

Lemma max_by_spec {A K} `{Ord K, !OrdLaws K} (f : A → A → comparison) (key : A → K) (l : list A) :
  (∀ a b, f a b = cmp (key a) (key b)) →
  match max_by f l with
  | Some x => x ∈ l ∧ ∀ y, y ∈ l → f y x ≠ Gt
  | None => l = []
  end.
Proof.
  intros Hf. induction l as [|x l IH]; [done|]. cbn [max_by].
  destruct (max_by f l) as [y|].
  - destruct IH as [Hy Hmax]. destruct (f x y) eqn:E.
    + split; [by right|]. intros z [->|Hz]%elem_of_cons; [by rewrite E|eauto].
    + split; [by right|]. intros z [->|Hz]%elem_of_cons; [by rewrite E|eauto].
    + split; [by left|]. intros z [->|Hz]%elem_of_cons; [by rewrite Hf, cmp_refl|].
      specialize (Hmax _ Hz). rewrite Hf in Hmax, E |- *.
      eapply cmp_le_trans; [exact Hmax|]. apply cmp_gt_lt in E. by rewrite E.
  - subst l. split; [by left|]. intros z [->|?%elem_of_nil]%elem_of_cons; [|done].
    by rewrite Hf, cmp_refl.
Qed.

(** Eviction removes one most travelled delta, and only from a non-empty queue. *)
Lemma evict_one_spec (q : GossipQueue.t) :
  match max_by GossipQueue.travel (btree_entries (GossipQueue.entries q)) with
  | Some (k, e) =>
    GossipQueue.entries q !! k = Some e
    ∧ GossipQueue.evict_one q = GossipQueue.mk (delete k (GossipQueue.entries q))
    ∧ ∀ k' e', GossipQueue.entries q !! k' = Some e' →
        (QueuedDelta.hops e' ≤ QueuedDelta.hops e)%N
  | None => GossipQueue.entries q = ∅ ∧ GossipQueue.evict_one q = q
  end.
Proof.
  pose proof (max_by_spec GossipQueue.travel (λ e, (QueuedDelta.hops e.2, e.1))
    (btree_entries (GossipQueue.entries q)) (λ _ _, eq_refl)) as Hmax.
  unfold GossipQueue.evict_one. destruct (max_by _ _) as [[k e]|].
  - destruct Hmax as [Hin Hmax]. split_and!; [by apply elem_of_btree_entries|done|].
    intros k' e' He'. specialize (Hmax (k', e')). rewrite elem_of_btree_entries in Hmax.
    specialize (Hmax He'). unfold GossipQueue.travel in Hmax. simpl in Hmax.
    unfold cmp, N_ord in Hmax. destruct (N.compare_spec (QueuedDelta.hops e') (QueuedDelta.hops e));
      simpl in Hmax; [lia..|done].
  - split; [|done]. apply map_to_list_empty_iff. apply Permutation_nil_r.
    by rewrite <- btree_entries_perm, Hmax.
Qed.

Lemma evict_one_len q :
  (0 < GossipQueue.len q)%N → (GossipQueue.len (GossipQueue.evict_one q) + 1 = GossipQueue.len q)%N.
Proof.
  intros Hpos. pose proof (evict_one_spec q) as He. unfold GossipQueue.len, map_len in *.
  destruct (max_by _ _) as [[k e]|].
  - destruct He as (Hk & -> & _). simpl. rewrite map_size_delete, Hk.
    assert (size (GossipQueue.entries q) ≠ 0); [|lia].
    intros Hs%map_size_empty_iff. by rewrite Hs, lookup_empty in Hk.
  - destruct He as [Hemp _]. by rewrite Hemp, map_size_empty in Hpos.
Qed.

(** The three cases of [enqueue], as relations between the queues. *)
Definition enqueue_ignored (q : GossipQueue.t) (k : GossipKey.t) (body : DeltaBody.t) : Prop :=
  ∃ e, GossipQueue.entries q !! k = Some e
    ∧ (QueuedDelta.body e = body ∨ DeltaBody.version body ≺ DeltaBody.version (QueuedDelta.body e)).
Definition enqueue_room (q : GossipQueue.t) (k : GossipKey.t) (limits : Limits.t) : GossipQueue.t :=
  if negb (contains_key k (GossipQueue.entries q))
     && (limits.(LimitsSpec.max_gossip_queue) <=? GossipQueue.len q)%N
  then GossipQueue.evict_one q else q.

Lemma enqueue_cases q body limits k :
  DeltaBody.key body = Some k →
  (enqueue_ignored q k body ∧ GossipQueue.enqueue q body limits = q)
  ∨ (¬ enqueue_ignored q k body
     ∧ GossipQueue.entries (GossipQueue.enqueue q body limits)
       = <[k := QueuedDelta.mk 0 body]> (GossipQueue.entries (enqueue_room q k limits))).
Proof.
  intros Hk. unfold GossipQueue.enqueue, enqueue_ignored. rewrite Hk.
  fold (enqueue_room q k limits).
  destruct (GossipQueue.entries q !! k) as [e|] eqn:He; cbn zeta; [|right; naive_solver].
  case_bool_decide as Hb.
  - left. split; [by eauto|]. subst body. rewrite (proj2 (cmp_geb_spec _ _)); [done|].
    by rewrite cmp_refl.
  - rewrite andb_false_r.
    destruct (cmp_gtb _ _) eqn:Hg.
    + apply cmp_gtb_spec in Hg. left; eauto.
    + right. split; [|done]. intros (e' & [= <-] & [?|Hlt]); [done|].
      apply cmp_gtb_spec in Hlt. congruence.
Qed.

(** queueing never regresses an entity and never forgets news: afterwards
    the queue holds the entity at a version at least as new as both the delta
    and what was queued, with a fresh hop count unless the delta was an exact
    replay or outdated (then nothing changes at all); another entity is dropped
    only to make room in a full queue, and then it is a most travelled one. *)
Theorem gossip_enqueue_spec (q : GossipQueue.t) (body : DeltaBody.t) (limits : Limits.t)
    (k : GossipKey.t) :
  DeltaBody.key body = Some k →
  let q' := GossipQueue.enqueue q body limits in
  (∃ e', GossipQueue.entries q' !! k = Some e'
     ∧ DeltaBody.version body ⪯ DeltaBody.version (QueuedDelta.body e')
     ∧ (∀ e, GossipQueue.entries q !! k = Some e →
          DeltaBody.version (QueuedDelta.body e) ⪯ DeltaBody.version (QueuedDelta.body e'))
     ∧ (q' = q ∨ e' = QueuedDelta.mk 0 body))
  ∧ ∀ k' e, k' ≠ k → GossipQueue.entries q !! k' = Some e →
      GossipQueue.entries q' !! k' = Some e
      ∨ (GossipQueue.entries q !! k = None
         ∧ (limits.(LimitsSpec.max_gossip_queue) ≤ GossipQueue.len q)%N
         ∧ ∀ k'' e'', GossipQueue.entries q !! k'' = Some e'' →
             (QueuedDelta.hops e'' ≤ QueuedDelta.hops e)%N).
Proof.
  intros Hk q'. subst q'.
  destruct (enqueue_cases q body limits k Hk) as [[(e & He & Hver) ->]|[Hni Heq]].
  - split; [|by left]. exists e. split_and!; [done| | |by left].
    + destruct Hver as [->|Hlt]; [by rewrite cmp_refl|by rewrite Hlt].
    + intros e' ?. simplify_eq. by rewrite cmp_refl.
  - rewrite Heq. split.
    + exists (QueuedDelta.mk 0 body). rewrite lookup_insert_eq. simpl.
      split_and!; [done|by rewrite cmp_refl| |by right].
      intros e He Hgt. apply Hni. exists e. split; [done|]. right. by apply cmp_gt_lt.
    + intros k' e Hne He. rewrite lookup_insert_ne by done. unfold enqueue_room.
      destruct (negb _ && _) eqn:Hfull; [|by left].
      apply andb_true_iff in Hfull as [Habs Hfull%N.leb_le].
      pose proof (evict_one_spec q) as Hev. destruct (max_by _ _) as [[kv ev]|].
      * destruct Hev as (Hkv & -> & Hmax). simpl. destruct (decide (kv = k')) as [->|Hne'].
        -- right. assert (ev = e) as -> by congruence. split_and!; [|done|done].
           apply eq_None_not_Some. intros Hs%contains_key_spec. by rewrite Hs in Habs.
        -- left. by rewrite lookup_delete_ne.
      * destruct Hev as [Hemp _]. by rewrite Hemp, lookup_empty in He.
Qed.

Lemma gossip_enqueue_spec_witness :
  DeltaBody.key (DeltaBody.MembershipUpdate (Testing.member "node-a" 5))
    = Some (GossipKey.Member (NodeId.mk "node-a")) ∧
  ∃ e', GossipQueue.entries (GossipQueue.enqueue sample_queue
          (DeltaBody.MembershipUpdate (Testing.member "node-a" 5)) Limits.default)
        !! GossipKey.Member (NodeId.mk "node-a") = Some e'.
Proof.
  split; [reflexivity|].
  destruct (gossip_enqueue_spec sample_queue (DeltaBody.MembershipUpdate (Testing.member "node-a" 5))
    Limits.default (GossipKey.Member (NodeId.mk "node-a")) eq_refl) as [(e' & He' & _) _].
  by exists e'.
Defined.

(** The queue never outgrows its bound. *)
Definition queue_bounded (limits : Limits.t) (q : GossipQueue.t) : Prop :=
  (GossipQueue.len q ≤ limits.(LimitsSpec.max_gossip_queue))%N.

Lemma enqueue_bounded (limits : Limits.t) q body :
  limits.(LimitsSpec.max_gossip_queue) ≠ 0%N →
  queue_bounded limits q → queue_bounded limits (GossipQueue.enqueue q body limits).
Proof.
  unfold queue_bounded. intros Hnz Hq. destruct (DeltaBody.key body) as [k|] eqn:Hk.
  2: { unfold GossipQueue.enqueue. by rewrite Hk. }
  destruct (enqueue_cases q body limits k Hk) as [[_ ->]|[_ Heq]]; [done|].
  unfold GossipQueue.len at 1. rewrite Heq. unfold enqueue_room.
  destruct (contains_key k (GossipQueue.entries q)) eqn:Hc; simpl.
  { rewrite map_len_insert_present by (by apply contains_key_spec). done. }
  destruct (N.leb_spec limits.(LimitsSpec.max_gossip_queue) (GossipQueue.len q)).
  - pose proof (map_len_insert_le (GossipQueue.entries (GossipQueue.evict_one q)) k (QueuedDelta.mk 0 body)).
    pose proof (evict_one_len q). unfold GossipQueue.len in *. lia.
  - pose proof (map_len_insert_le (GossipQueue.entries q) k (QueuedDelta.mk 0 body)).
    unfold GossipQueue.len in *. lia.
Qed.

Lemma map_len_alter `{Countable K} {V} (f : V → V) k (m : gmap K V) :
  map_len (alter f k m) = map_len m.
Proof. unfold map_len. by rewrite <- !size_dom, dom_alter_L. Qed.

Lemma defer_bounded (limits : Limits.t) q delta max_hops :
  limits.(LimitsSpec.max_gossip_queue) ≠ 0%N →
  queue_bounded limits q → queue_bounded limits (GossipQueue.defer q delta max_hops limits).
Proof.
  intros Hnz Hq. pose proof (enqueue_bounded limits q (GossipDelta.body delta) Hnz Hq) as He.
  unfold GossipQueue.defer. cbn zeta. destruct (DeltaBody.key _); [|done].
  unfold queue_bounded, GossipQueue.len in *. simpl. by rewrite map_len_alter.
Qed.

Lemma take_bounded (limits : Limits.t) q count max_hops :
  queue_bounded limits q → queue_bounded limits (GossipQueue.take q count max_hops).2.
Proof.
  unfold queue_bounded, GossipQueue.len, map_len. intros Hq.
  destruct (gossip_take_spec_default q count max_hops) as [_ Hl].
  etrans; [|exact Hq]. rewrite <- !size_dom.
  assert (dom (GossipQueue.entries (GossipQueue.take q count max_hops).2)
    ⊆ dom (GossipQueue.entries q)) as Hsub%subseteq_size; [|lia].
  intros k. rewrite !elem_of_dom, Hl. unfold charged_reference. intros [e He].
  destruct (GossipQueue.entries q !! k); [by eexists|done].
Qed.
