(* ===== verification/Vocabulary.v ===== *)
(** * Messages, effects and diagnostics (message.rs, effect.rs, baseline.rs)

    Everything that can change the model, everything the core can ask for, and
    every reason it can give for refusing to act. *)

From Stdlib Require Import Ascii.
From stdpp Require Import base gmap strings list sorting fin_maps pretty.
From S2P Require Import Prelude Identity Limits Records Gossip.

(** ** Digests (antientropy.rs) *)
Module Hash256.
(** [[u8; 32]]. *)
Record t : Type := from_bytes { as_bytes : bytes }.
Definition default : t := from_bytes (replicate 32 (ascii_of_N 0)).
#[global] Instance Hash256_eq_dec : EqDecision t.
Proof. solve_decision. Defined.
End Hash256.

Module MerkleDigest.
Record t : Type := mk { depth : N; root : Hash256.t; buckets : list Hash256.t }.
#[global] Instance MerkleDigest_eq_dec : EqDecision t.
Proof. solve_decision. Defined.
End MerkleDigest.

(** ** Announcements and probe results *)
Module Announcement.
Inductive t : Type := Suspect | Alive | Dead | Leave.
#[global] Instance Announcement_eq_dec : EqDecision t.
Proof. solve_decision. Defined.
End Announcement.

Module IndirectResult.
Inductive t : Type := Ack (incarnation : Incarnation.t) | NoSuchPeer | Timeout.
#[global] Instance IndirectResult_eq_dec : EqDecision t.
Proof. solve_decision. Defined.
End IndirectResult.

Module SelectionPurpose.
Inductive t : Type :=
  | DirectProbe
  | IndirectProbe (probe : ProbeId.t)
  | AntiEntropy
  | Announce (announcement : Announcement.t) (target : NodeId.t) (incarnation : Incarnation.t).
#[global] Instance SelectionPurpose_eq_dec : EqDecision t.
Proof. solve_decision. Defined.
End SelectionPurpose.

(** ** Rejections, changes and diagnostics *)
Module RejectReason.
Inductive t : Type :=
  | Unauthenticated
  | FormationMismatch
  | NotAnIntroducer
  | MembershipLocked
  | CapacityExhausted
  | Blocklisted (key : BlocklistKey.t)
  | BlocklistedNetwork
  | Tombstoned
  | InvalidToken
  | IncompatibleProtocol (offered : ProtocolVersion.t)
  | MalformedRequest (field : string)
  | IdentityCollision
  | AlreadyAdmitted
  | Overloaded.
#[global] Instance RejectReason_eq_dec : EqDecision t.
Proof. solve_decision. Defined.
End RejectReason.

Module ChangeRecord.
Inductive t : Type :=
  | AdmissionBaselineApplied (snapshot : N) (self_removed : bool)
  | AdmissionBaselineRejected (snapshot : N)
  | MembershipPolicyChanged (locked : bool)
  | MemberAdmitted (node : NodeId.t) (name : WorkerName.t)
  | LivenessChanged (node : NodeId.t) (from to : Liveness.t) (incarnation : Incarnation.t)
  | MemberRemoved (node : NodeId.t) (mode : RemovalMode.t)
  | MemberLeft (node : NodeId.t)
  | AdmissionRejected (name : WorkerName.t) (reason : RejectReason.t)
  | FormationAdopted (from to : FormationId.t) (assigned : NodeId.t)
  | FormationLeft (formation : FormationId.t) (previous : NodeId.t).
#[global] Instance ChangeRecord_eq_dec : EqDecision t.
Proof. solve_decision. Defined.
End ChangeRecord.

Module Diagnostic.
Inductive t : Type :=
  | Unauthenticated
  | FormationMismatch (expected received : FormationId.t)
  | UnknownSender (claimed : NodeId.t)
  | CertificateMismatch (node : NodeId.t)
  | ReplayedSequence (node : NodeId.t) (seq : N)
  | StaleTimer (token : TimerToken.t)
  | UnknownProbe (probe : ProbeId.t)
  | ProbeMismatch (probe : ProbeId.t) (reason : string)
  | UnknownCorrelation (kind : string)
  | SpoofedLeave (sender subject : NodeId.t)
  | SelfAnnouncementIgnored (announcement : Announcement.t)
  | TombstoneFenced (node : NodeId.t)
  | VersionConflict (entity : string) (version : VersionTuple.t)
  | StaleDelta (entity : string)
  | MalformedRecord (entity : string) (error : ValidationError.t)
  | LimitExceeded (limit : string) (value max : N)
  | IncarnationExhausted
  | JoinRejected (reason : RejectReason.t)
  | JoinReplyInvalid (reason : string)
  | JoinAbandoned (attempts : N)
  | AntiEntropyAbandoned (peer : NodeId.t) (exchanges : N)
  | Unexpected (what : string)
  | EffectBudgetExceeded (produced cap : N)
  | DiagnosticBudgetExceeded (cap : N).
#[global] Instance Diagnostic_eq_dec : EqDecision t.
Proof. solve_decision. Defined.
End Diagnostic.

(** ** Outbound messages and effects *)
Module OutboundBody.
Inductive t : Type :=
  | JoinRequest (name : WorkerName.t) (cert_fingerprint : CertFingerprint.t)
      (protocol : ProtocolVersion.t) (endpoints : Endpoints.t) (accepts : Accepts.t)
      (capacity : NodeCapacity.t) (capabilities : Capabilities.t)
  | JoinAccepted (formation : FormationId.t) (cluster_name : ClusterName.t)
      (assigned : NodeId.t) (snapshot : list Member.t)
  | JoinRejected (reason : RejectReason.t)
  | JoinRedirect (candidates : list Address.t)
  | Ping (probe : ProbeId.t) (incarnation : Incarnation.t)
  | Ack (probe : ProbeId.t) (incarnation : Incarnation.t)
  | PingReq (probe : ProbeId.t) (target : NodeId.t)
  | PingReply (probe : ProbeId.t) (target : NodeId.t) (result : IndirectResult.t)
  | Announce (announcement : Announcement.t) (target : NodeId.t) (incarnation : Incarnation.t)
  | PullRequest (round : N) (digest : MerkleDigest.t) (buckets : list N)
      (cursor : option AntiEntropyCursor.t)
  | PullReply (round : N) (digest : MerkleDigest.t) (deltas : list GossipDelta.t)
      (complete : bool) (cursor : option AntiEntropyCursor.t).
#[global] Instance OutboundBody_eq_dec : EqDecision t.
Proof. solve_decision. Defined.
End OutboundBody.

Module OutboundMessage.
Record t : Type := mk { body : OutboundBody.t; seq : N; gossip : list GossipDelta.t }.
#[global] Instance OutboundMessage_eq_dec : EqDecision t.
Proof. solve_decision. Defined.
End OutboundMessage.

Module Destination.
Inductive t : Type := Member (id : NodeId.t) | Session (id : SessionId.t).
#[global] Instance Destination_eq_dec : EqDecision t.
Proof. solve_decision. Defined.
End Destination.

Module CredentialKind.
Inductive t : Type :=
  | JoinToken (name : WorkerName.t) (cert_fingerprint : CertFingerprint.t)
      (blocked_networks : list NetworkPattern.t).
#[global] Instance CredentialKind_eq_dec : EqDecision t.
Proof. solve_decision. Defined.
End CredentialKind.

Module Effect.
Inductive t : Type :=
  | Send (destination : Destination.t) (message : OutboundMessage.t)
  | ArmTimer (token : TimerToken.t) (delay : DurationMillis.t)
  | CancelTimer (token : TimerToken.t)
  | SelectPeers (request : SelectionId.t) (purpose : SelectionPurpose.t) (count : N)
      (exclude : list NodeId.t)
  | AllocateNodeId (request : AllocationId.t) (session : SessionId.t)
  | VerifyCredential (request : VerificationId.t) (session : SessionId.t)
      (kind : CredentialKind.t)
  | Publish (record : ChangeRecord.t).
#[global] Instance Effect_eq_dec : EqDecision t.
Proof. solve_decision. Defined.
End Effect.

Module ForeignHandoff.
Record t : Type := mk { from : option NodeId.t; delta : ForeignDelta.t }.
#[global] Instance ForeignHandoff_eq_dec : EqDecision t.
Proof. solve_decision. Defined.
End ForeignHandoff.

(** ** Inbound peer messages *)
Module SenderIdentity.
(** [Admitted_] is the [Admitted] variant of the code. *)
Inductive t : Type := Admitted_ (id : NodeId.t) | Applicant (name : WorkerName.t).
#[global] Instance SenderIdentity_eq_dec : EqDecision t.
Proof. solve_decision. Defined.
End SenderIdentity.

Module PeerContext.
Record t : Type := mk {
  session : SessionId.t;
  authenticated : bool;
  cert_fingerprint : CertFingerprint.t;
  sender : SenderIdentity.t;
  formation : FormationId.t;
  protocol : ProtocolVersion.t;
  seq : N;
  gossip : list GossipDelta.t
}.
#[global] Instance PeerContext_eq_dec : EqDecision t.
Proof. solve_decision. Defined.
End PeerContext.

Module JoinReply.
Inductive t : Type :=
  | Accepted (formation : FormationId.t) (cluster_name : ClusterName.t) (assigned : NodeId.t)
      (snapshot : list Member.t) (snapshot_bytes : N)
  | Rejected (reason : RejectReason.t)
  | Redirect (candidates : list Address.t).
#[global] Instance JoinReply_eq_dec : EqDecision t.
Proof. solve_decision. Defined.
End JoinReply.

Module PeerBody.
Inductive t : Type :=
  | JoinRequest (endpoints : Endpoints.t) (accepts : Accepts.t) (capacity : NodeCapacity.t)
      (capabilities : Capabilities.t)
  | JoinReply (reply : JoinReply.t)
  | Ping (probe : ProbeId.t) (incarnation : Incarnation.t)
  | Ack (probe : ProbeId.t) (incarnation : Incarnation.t)
  | PingReq (probe : ProbeId.t) (target : NodeId.t)
  | PingReply (probe : ProbeId.t) (target : NodeId.t) (result : IndirectResult.t)
  | Announce (announcement : Announcement.t) (target : NodeId.t) (incarnation : Incarnation.t)
  | PullRequest (round : N) (digest : MerkleDigest.t) (buckets : list N)
      (cursor : option AntiEntropyCursor.t)
  | PullReply (round : N) (digest : MerkleDigest.t) (deltas : list GossipDelta.t)
      (complete : bool) (cursor : option AntiEntropyCursor.t).
#[global] Instance PeerBody_eq_dec : EqDecision t.
Proof. solve_decision. Defined.
End PeerBody.

Module PeerInput.
Record t : Type := mk { context : PeerContext.t; body : PeerBody.t }.
#[global] Instance PeerInput_eq_dec : EqDecision t.
Proof. solve_decision. Defined.
End PeerInput.

(** ** Commands, outcomes and the closed message type *)
Module AdmissionBaseline.
Record t : Type := mk {
  schema_version : N;
  formation_id : FormationId.t;
  snapshot : N;
  policy : option MembershipPolicy.t;
  blocklist : list BlocklistEntry.t;
  tombstones : list MembershipTombstone.t
}.
#[global] Instance AdmissionBaseline_eq_dec : EqDecision t.
Proof. solve_decision. Defined.
End AdmissionBaseline.

Module Command.
Inductive t : Type :=
  | BeginJoin (session : SessionId.t) (target_formation : FormationId.t)
  | RebindJoin (previous_session session : SessionId.t) (target_formation : FormationId.t)
  | Leave (replacement_formation : FormationId.t) (replacement_node_id : NodeId.t)
      (replacement_cluster_name : ClusterName.t)
  | RemoveMember (node : NodeId.t) (mode : RemovalMode.t) (reason : option string)
  | ClearTombstone (node : NodeId.t)
  | SetMembershipLock (locked : bool)
  | SetPolicy (policy : AdmissionPolicy.t)
  | InstallAdmissionBaseline (baseline : AdmissionBaseline.t)
  | UpdateBlocklist (entry : BlocklistEntry.t)
  | StartProbeRound
  | StartAntiEntropyRound.
#[global] Instance Command_eq_dec : EqDecision t.
Proof. solve_decision. Defined.
End Command.

Module AdmissionEvidence.
Record t : Type := mk {
  transport_authenticated : bool;
  token_valid : bool;
  source_network_blocked : bool
}.
#[global] Instance AdmissionEvidence_eq_dec : EqDecision t.
Proof. solve_decision. Defined.
End AdmissionEvidence.

Module EffectOutcome.
Inductive t : Type :=
  | GossipDeferred (deltas : list GossipDelta.t)
  | PeersSelected (request : SelectionId.t) (peers : list NodeId.t)
  | NodeIdAllocated (request : AllocationId.t) (session : SessionId.t) (node_id : NodeId.t)
  | NodeIdUnavailable (request : AllocationId.t) (session : SessionId.t)
  | CredentialVerified (request : VerificationId.t) (session : SessionId.t)
      (evidence : AdmissionEvidence.t).
#[global] Instance EffectOutcome_eq_dec : EqDecision t.
Proof. solve_decision. Defined.
End EffectOutcome.

Module Message.
Inductive t : Type :=
  | Peer (input : PeerInput.t)
  | Local (command : Command.t)
  | Timer (token : TimerToken.t)
  | Outcome (outcome : EffectOutcome.t).
#[global] Instance Message_eq_dec : EqDecision t.
Proof. solve_decision. Defined.
End Message.
