(* ===== verification/Model.v ===== *)
(** * The membership model (model.rs)

    One worker's replicated view of its formation: the state record, its
    constructors, and the small mutators [update] is built from. *)

From Stdlib Require Import Ascii.
From stdpp Require Import base gmap strings list sorting fin_maps pretty.
From S2P Require Import Prelude Identity Limits Records Gossip Vocabulary.

(** ** Replay windows *)
Module SequenceWindow.
Record t : Type := mk { highest : N; seen : N }.
#[global] Instance SequenceWindow_eq_dec : EqDecision t.
Proof. solve_decision. Defined.
Definition default : t := mk 0 0.

(** [seen] is a [u128] bitmap: bit [d] stands for [highest - d]. *)
Definition observe (w : t) (seq : N) : bool * t :=
  if (seen w =? 0)%N then (false, mk seq 1)
  else if (highest w <? seq)%N then
    let distance := (seq - highest w)%N in
    let shifted := if (128 <=? distance)%N then 0%N else wrapping_shl 128 (seen w) distance in
    (false, mk seq (N.lor shifted 1))
  else
    let distance := (highest w - seq)%N in
    if (128 <=? distance)%N then (true, w)
    else
      let bit := wrapping_shl 128 1 distance in
      (negb (N.land (seen w) bit =? 0)%N, mk (highest w) (N.lor (seen w) bit)).
End SequenceWindow.

(** ** The model *)
Module Membership.
Record t : Type := mk {
  membership_policy : option MembershipPolicy.t;
  formation : FormationId.t;
  cluster_name : ClusterName.t;
  local : LocalIdentity.t;
  incarnation : Incarnation.t;
  next_seq : N;
  next_correlation : N;
  members : gmap NodeId.t Member.t;
  tombstones : gmap NodeId.t MembershipTombstone.t;
  blocklist : gmap BlocklistKey.t BlocklistEntry.t;
  last_seq : gmap NodeId.t SequenceWindow.t;
  probes : gmap ProbeId.t PendingProbe.t;
  suspicions : gmap NodeId.t Suspicion.t;
  admissions : gmap SessionId.t PendingAdmission.t;
  selections : gmap SelectionId.t SelectionPurpose.t;
  join_attempt : option JoinAttempt.t;
  anti_entropy : option AntiEntropyRound.t;
  gossip : GossipQueue.t;
  policy : AdmissionPolicy.t;
  limits : Limits.t
}.
#[global] Instance Membership_eq_dec : EqDecision t.
Proof. solve_decision. Defined.

(** Assignments to one field, the [_mut] accessors and [set_] functions. *)
Definition set_membership_policy (m : t) (v : option MembershipPolicy.t) : t :=
  mk v m.(formation) m.(cluster_name) m.(local) m.(incarnation) m.(next_seq)
    m.(next_correlation) m.(members) m.(tombstones) m.(blocklist) m.(last_seq) m.(probes)
    m.(suspicions) m.(admissions) m.(selections) m.(join_attempt) m.(anti_entropy)
    m.(gossip) m.(policy) m.(limits).
Definition set_formation (m : t) (v : FormationId.t) : t :=
  mk m.(membership_policy) v m.(cluster_name) m.(local) m.(incarnation) m.(next_seq)
    m.(next_correlation) m.(members) m.(tombstones) m.(blocklist) m.(last_seq) m.(probes)
    m.(suspicions) m.(admissions) m.(selections) m.(join_attempt) m.(anti_entropy)
    m.(gossip) m.(policy) m.(limits).
Definition set_cluster_name (m : t) (v : ClusterName.t) : t :=
  mk m.(membership_policy) m.(formation) v m.(local) m.(incarnation) m.(next_seq)
    m.(next_correlation) m.(members) m.(tombstones) m.(blocklist) m.(last_seq) m.(probes)
    m.(suspicions) m.(admissions) m.(selections) m.(join_attempt) m.(anti_entropy)
    m.(gossip) m.(policy) m.(limits).
Definition set_local (m : t) (v : LocalIdentity.t) : t :=
  mk m.(membership_policy) m.(formation) m.(cluster_name) v m.(incarnation) m.(next_seq)
    m.(next_correlation) m.(members) m.(tombstones) m.(blocklist) m.(last_seq) m.(probes)
    m.(suspicions) m.(admissions) m.(selections) m.(join_attempt) m.(anti_entropy)
    m.(gossip) m.(policy) m.(limits).
Definition set_incarnation (m : t) (v : Incarnation.t) : t :=
  mk m.(membership_policy) m.(formation) m.(cluster_name) m.(local) v m.(next_seq)
    m.(next_correlation) m.(members) m.(tombstones) m.(blocklist) m.(last_seq) m.(probes)
    m.(suspicions) m.(admissions) m.(selections) m.(join_attempt) m.(anti_entropy)
    m.(gossip) m.(policy) m.(limits).
Definition set_next_seq (m : t) (v : N) : t :=
  mk m.(membership_policy) m.(formation) m.(cluster_name) m.(local) m.(incarnation) v
    m.(next_correlation) m.(members) m.(tombstones) m.(blocklist) m.(last_seq) m.(probes)
    m.(suspicions) m.(admissions) m.(selections) m.(join_attempt) m.(anti_entropy)
    m.(gossip) m.(policy) m.(limits).
Definition set_next_correlation (m : t) (v : N) : t :=
  mk m.(membership_policy) m.(formation) m.(cluster_name) m.(local) m.(incarnation)
    m.(next_seq) v m.(members) m.(tombstones) m.(blocklist) m.(last_seq) m.(probes)
    m.(suspicions) m.(admissions) m.(selections) m.(join_attempt) m.(anti_entropy)
    m.(gossip) m.(policy) m.(limits).
Definition set_members (m : t) (v : gmap NodeId.t Member.t) : t :=
  mk m.(membership_policy) m.(formation) m.(cluster_name) m.(local) m.(incarnation)
    m.(next_seq) m.(next_correlation) v m.(tombstones) m.(blocklist) m.(last_seq)
    m.(probes) m.(suspicions) m.(admissions) m.(selections) m.(join_attempt)
    m.(anti_entropy) m.(gossip) m.(policy) m.(limits).
Definition set_tombstones (m : t) (v : gmap NodeId.t MembershipTombstone.t) : t :=
  mk m.(membership_policy) m.(formation) m.(cluster_name) m.(local) m.(incarnation)
    m.(next_seq) m.(next_correlation) m.(members) v m.(blocklist) m.(last_seq) m.(probes)
    m.(suspicions) m.(admissions) m.(selections) m.(join_attempt) m.(anti_entropy)
    m.(gossip) m.(policy) m.(limits).
Definition set_blocklist (m : t) (v : gmap BlocklistKey.t BlocklistEntry.t) : t :=
  mk m.(membership_policy) m.(formation) m.(cluster_name) m.(local) m.(incarnation)
    m.(next_seq) m.(next_correlation) m.(members) m.(tombstones) v m.(last_seq)
    m.(probes) m.(suspicions) m.(admissions) m.(selections) m.(join_attempt)
    m.(anti_entropy) m.(gossip) m.(policy) m.(limits).
Definition set_last_seq (m : t) (v : gmap NodeId.t SequenceWindow.t) : t :=
  mk m.(membership_policy) m.(formation) m.(cluster_name) m.(local) m.(incarnation)
    m.(next_seq) m.(next_correlation) m.(members) m.(tombstones) m.(blocklist) v
    m.(probes) m.(suspicions) m.(admissions) m.(selections) m.(join_attempt)
    m.(anti_entropy) m.(gossip) m.(policy) m.(limits).
Definition set_probes (m : t) (v : gmap ProbeId.t PendingProbe.t) : t :=
  mk m.(membership_policy) m.(formation) m.(cluster_name) m.(local) m.(incarnation)
    m.(next_seq) m.(next_correlation) m.(members) m.(tombstones) m.(blocklist)
    m.(last_seq) v m.(suspicions) m.(admissions) m.(selections) m.(join_attempt)
    m.(anti_entropy) m.(gossip) m.(policy) m.(limits).
Definition set_suspicions (m : t) (v : gmap NodeId.t Suspicion.t) : t :=
  mk m.(membership_policy) m.(formation) m.(cluster_name) m.(local) m.(incarnation)
    m.(next_seq) m.(next_correlation) m.(members) m.(tombstones) m.(blocklist)
    m.(last_seq) m.(probes) v m.(admissions) m.(selections) m.(join_attempt)
    m.(anti_entropy) m.(gossip) m.(policy) m.(limits).
Definition set_admissions (m : t) (v : gmap SessionId.t PendingAdmission.t) : t :=
  mk m.(membership_policy) m.(formation) m.(cluster_name) m.(local) m.(incarnation)
    m.(next_seq) m.(next_correlation) m.(members) m.(tombstones) m.(blocklist)
    m.(last_seq) m.(probes) m.(suspicions) v m.(selections) m.(join_attempt)
    m.(anti_entropy) m.(gossip) m.(policy) m.(limits).
Definition set_selections (m : t) (v : gmap SelectionId.t SelectionPurpose.t) : t :=
  mk m.(membership_policy) m.(formation) m.(cluster_name) m.(local) m.(incarnation)
    m.(next_seq) m.(next_correlation) m.(members) m.(tombstones) m.(blocklist)
    m.(last_seq) m.(probes) m.(suspicions) m.(admissions) v m.(join_attempt)
    m.(anti_entropy) m.(gossip) m.(policy) m.(limits).
Definition set_join_attempt (m : t) (v : option JoinAttempt.t) : t :=
  mk m.(membership_policy) m.(formation) m.(cluster_name) m.(local) m.(incarnation)
    m.(next_seq) m.(next_correlation) m.(members) m.(tombstones) m.(blocklist)
    m.(last_seq) m.(probes) m.(suspicions) m.(admissions) m.(selections) v
    m.(anti_entropy) m.(gossip) m.(policy) m.(limits).
Definition set_anti_entropy (m : t) (v : option AntiEntropyRound.t) : t :=
  mk m.(membership_policy) m.(formation) m.(cluster_name) m.(local) m.(incarnation)
    m.(next_seq) m.(next_correlation) m.(members) m.(tombstones) m.(blocklist)
    m.(last_seq) m.(probes) m.(suspicions) m.(admissions) m.(selections) m.(join_attempt)
    v m.(gossip) m.(policy) m.(limits).
Definition set_gossip (m : t) (v : GossipQueue.t) : t :=
  mk m.(membership_policy) m.(formation) m.(cluster_name) m.(local) m.(incarnation)
    m.(next_seq) m.(next_correlation) m.(members) m.(tombstones) m.(blocklist)
    m.(last_seq) m.(probes) m.(suspicions) m.(admissions) m.(selections) m.(join_attempt)
    m.(anti_entropy) v m.(policy) m.(limits).
Definition set_policy (m : t) (v : AdmissionPolicy.t) : t :=
  mk m.(membership_policy) m.(formation) m.(cluster_name) m.(local) m.(incarnation)
    m.(next_seq) m.(next_correlation) m.(members) m.(tombstones) m.(blocklist)
    m.(last_seq) m.(probes) m.(suspicions) m.(admissions) m.(selections) m.(join_attempt)
    m.(anti_entropy) m.(gossip) v m.(limits).
Definition set_limits (m : t) (v : Limits.t) : t :=
  mk m.(membership_policy) m.(formation) m.(cluster_name) m.(local) m.(incarnation)
    m.(next_seq) m.(next_correlation) m.(members) m.(tombstones) m.(blocklist)
    m.(last_seq) m.(probes) m.(suspicions) m.(admissions) m.(selections) m.(join_attempt)
    m.(anti_entropy) m.(gossip) m.(policy) v.

(** *** Views *)
Definition local_id (m : t) : NodeId.t := LocalIdentity.node_id m.(local).
Definition member (m : t) (id : NodeId.t) : option Member.t := m.(members) !! id.
Definition alive_count (m : t) : N :=
  lenN (filter (λ mem, Member.liveness mem = Liveness.Alive) (btree_values m.(members))).
Definition scale_size (m : t) : N := map_len m.(members).
Definition membership_locked (m : t) : bool :=
  match m.(membership_policy) with Some policy => MembershipPolicy.locked policy | None => false end.
Definition is_tombstoned (m : t) (id : NodeId.t) : bool :=
  match m.(tombstones) !! id with
  | Some tombstone => negb (MembershipTombstone.cleared tombstone)
  | None => false
  end.
Definition has_tombstone (m : t) (id : NodeId.t) : bool := contains_key id m.(tombstones).
Definition is_blocked (m : t) (key : BlocklistKey.t) : bool :=
  match m.(blocklist) !! key with
  | Some entry => bool_decide (BlocklistEntry.action entry = BlocklistAction.Block)
  | None => false
  end.
Definition suspicion_timeout (m : t) : DurationMillis.t :=
  Limits.effective_suspicion_timeout m.(limits) (scale_size m).

(** *** Constructors *)
Definition self_member (local : LocalIdentity.t) : Member.t :=
  Member.mk (LocalIdentity.node_id local) (LocalIdentity.worker_name local)
    (LocalIdentity.cert_fingerprint local) (LocalIdentity.protocol local)
    Liveness.Alive Incarnation.INITIAL (VersionTuple.initial 0 (LocalIdentity.node_id local))
    (LocalIdentity.endpoints local) (LocalIdentity.accepts local)
    (LocalIdentity.capacity local) (LocalIdentity.capabilities local).

Definition standalone (formation : FormationId.t) (cluster_name : ClusterName.t)
    (local : LocalIdentity.t) (policy : AdmissionPolicy.t) (limits : Limits.t)
    : result ValidationError.t t :=
  _ ← Endpoints.validate (LocalIdentity.endpoints local) limits;
  _ ← Capabilities.validate (LocalIdentity.capabilities local) limits;
  Ok {|
    membership_policy := None;
    formation := formation;
    cluster_name := cluster_name;
    local := local;
    incarnation := Incarnation.INITIAL;
    next_seq := 0;
    next_correlation := 0;
    members := {[ LocalIdentity.node_id local := self_member local ]};
    tombstones := ∅;
    blocklist := ∅;
    last_seq := ∅;
    probes := ∅;
    suspicions := ∅;
    admissions := ∅;
    selections := ∅;
    join_attempt := None;
    anti_entropy := None;
    gossip := GossipQueue.default;
    policy := policy;
    limits := limits
  |}.

Definition adopt_formation (m : t) (formation : FormationId.t) (cluster_name : ClusterName.t)
    (assigned : NodeId.t) (members : gmap NodeId.t Member.t) : t := {|
  membership_policy := None;
  formation := formation;
  cluster_name := cluster_name;
  local := LocalIdentity.set_node_id m.(local) assigned;
  incarnation := Incarnation.INITIAL;
  next_seq := 0;
  next_correlation := 0;
  members := members;
  tombstones := ∅;
  blocklist := ∅;
  last_seq := ∅;
  probes := ∅;
  suspicions := ∅;
  admissions := ∅;
  selections := ∅;
  join_attempt := None;
  anti_entropy := None;
  gossip := GossipQueue.default;
  policy := m.(policy);
  limits := m.(limits)
|}.

(** *** Counters and replay tracking *)
Definition take_seq (m : t) : N * t :=
  (m.(next_seq), set_next_seq m (saturating_add u64_max m.(next_seq) 1)).
Definition take_correlation (m : t) : N * t :=
  (m.(next_correlation), set_next_correlation m (saturating_add u64_max m.(next_correlation) 1)).
Definition observe_seq (m : t) (sender : NodeId.t) (seq : N) : bool * t :=
  let w := default SequenceWindow.default (m.(last_seq) !! sender) in
  let '(replayed, w) := SequenceWindow.observe w seq in
  (replayed, set_last_seq m (<[sender := w]> m.(last_seq))).
Definition forget_sender (m : t) (sender : NodeId.t) : t :=
  set_last_seq m (delete sender m.(last_seq)).
End Membership.

(** ** Model fixtures (testing.rs) *)
Module ModelFixtures.
Definition empty_model (local : LocalIdentity.t) (policy : AdmissionPolicy.t) (limits : Limits.t)
    : Membership.t :=
  match Membership.standalone Testing.formation (ClusterName.mk "test-cluster") local policy limits with
  | Ok m => m
  | Err _ => Membership.adopt_formation
      (Membership.mk None Testing.formation (ClusterName.mk "test-cluster") local
         Incarnation.INITIAL 0 0 ∅ ∅ ∅ ∅ ∅ ∅ ∅ ∅ None None GossipQueue.default policy limits)
      Testing.formation (ClusterName.mk "test-cluster") (LocalIdentity.node_id local) ∅
  end.

Definition standalone (id : string) : Membership.t :=
  empty_model (Testing.local_identity id) AdmissionPolicy.default Limits.default.

Definition insert_member (model : Membership.t) (member : Member.t) : Membership.t :=
  Membership.set_members model (<[Member.id member := member]> model.(Membership.members)).
Definition insert_tombstone (model : Membership.t) (tombstone : MembershipTombstone.t)
    : Membership.t :=
  Membership.set_tombstones model
    (<[MembershipTombstone.node_id tombstone := tombstone]> model.(Membership.tombstones)).
Definition insert_blocklist (model : Membership.t) (entry : BlocklistEntry.t) : Membership.t :=
  Membership.set_blocklist model
    (<[BlocklistEntry.key entry := entry]> model.(Membership.blocklist)).

Definition with_members (ids : list string) : Membership.t :=
  foldl (λ m id, insert_member m (Testing.member id 1))
    (empty_model (Testing.local_identity "node-self")
       (AdmissionPolicy.mk true usize_max ProtocolRange.default) Limits.default)
    ids.
End ModelFixtures.
