(* ===== verification/Replay.v ===== *)
(** * Replay windows remember exactly what they should (model.rs)

    The [u128] bitmap of [SequenceWindow] against the set of sequence numbers
    observed. *)

From Stdlib Require Import Ascii.
From stdpp Require Import base gmap strings list sorting fin_maps pretty.
From S2P Require Import Prelude Identity Limits Records Gossip Vocabulary Model.

(** Observing numbers one after another, from an empty window. *)
Definition observe_all (seqs : list N) : SequenceWindow.t :=
  foldl (λ w s, (SequenceWindow.observe w s).2) SequenceWindow.default seqs.

(** The abstract answer, from the numbers seen and the highest of them. *)
Definition replayed (seen : list N) (highest seq : N) : bool :=
  if (highest <? seq)%N then false
  else if (128 <=? highest - seq)%N then true
  else bool_decide (seq ∈ seen).

(** The window represents the numbers seen. *)
Record represents (w : SequenceWindow.t) (seen : list N) : Prop := {
  rep_highest : SequenceWindow.highest w ∈ seen;
  rep_max : ∀ s, s ∈ seen → (s ≤ SequenceWindow.highest w)%N;
  rep_bits : ∀ d, (d < 128)%N →
    N.testbit (SequenceWindow.seen w) d
    = bool_decide ((d ≤ SequenceWindow.highest w)%N ∧ (SequenceWindow.highest w - d)%N ∈ seen)
}.

Lemma wrapping_shl_bits (x d k : N) :
  (k < 128)%N → N.testbit (wrapping_shl 128 x d) k = (d <=? k)%N && N.testbit x (k - d).
Proof.
  intros Hk. unfold wrapping_shl. rewrite N.mod_pow2_bits_low by done.
  destruct (N.leb_spec d k); simpl.
  - by apply N.shiftl_spec_high'.
  - by apply N.shiftl_spec_low.
Qed.

Lemma shl_one_bits (d k : N) :
  (d < 128)%N → N.testbit (wrapping_shl 128 1 d) k = (d =? k)%N.
Proof.
  intros Hd. unfold wrapping_shl. rewrite N.shiftl_1_l, N.mod_small.
  - apply N.pow2_bits_eqb.
  - by apply N.pow_lt_mono_r.
Qed.

Lemma land_shl_one (x d : N) :
  (d < 128)%N → negb (N.land x (wrapping_shl 128 1 d) =? 0)%N = N.testbit x d.
Proof.
  intros Hd. destruct (N.testbit x d) eqn:Hb.
  - apply negb_true_iff, N.eqb_neq. intros Hz.
    apply (f_equal (λ n, N.testbit n d)) in Hz.
    rewrite N.land_spec, Hb, shl_one_bits, N.eqb_refl, N.bits_0 in Hz by done. done.
  - apply negb_false_iff, N.eqb_eq. apply N.bits_inj. intros k.
    rewrite N.land_spec, shl_one_bits, N.bits_0 by done.
    destruct (N.eqb_spec d k) as [<-|]; [by rewrite Hb|by rewrite andb_false_r].
Qed.

Lemma represents_nonzero w l : represents w l → SequenceWindow.seen w ≠ 0%N.
Proof.
  intros [Hh _ Hb] Hz. specialize (Hb 0%N ltac:(lia)).
  rewrite Hz, N.bits_0, bool_decide_true in Hb; [done|]. split; [lia|].
  by rewrite N.sub_0_r.
Qed.

Lemma represents_first s : represents (SequenceWindow.observe SequenceWindow.default s).2 [s].
Proof.
  simpl. split; simpl; [set_solver| |].
  - intros t ->%list_elem_of_singleton. lia.
  - intros d Hd. destruct (decide (d = 0%N)) as [->|Hne].
    + rewrite bool_decide_true; [done|]. rewrite N.sub_0_r, list_elem_of_singleton. lia.
    + rewrite bool_decide_false; [|rewrite list_elem_of_singleton; lia].
      apply (N.bits_above_log2 1). simpl. lia.
Qed.

(** Observing one more number: the answer, and the window it leaves. *)
Lemma represents_observe w l s :
  represents w l →
  (SequenceWindow.observe w s).1 = replayed l (SequenceWindow.highest w) s
  ∧ represents (SequenceWindow.observe w s).2
      (if (SequenceWindow.highest w <? s)%N then s :: l
       else if (128 <=? SequenceWindow.highest w - s)%N then l else s :: l).
Proof.
  intros Hrep. pose proof (represents_nonzero _ _ Hrep) as Hnz. destruct Hrep as [Hh Hmax Hb].
  unfold SequenceWindow.observe, replayed. apply N.eqb_neq in Hnz as ->.
  destruct (N.ltb_spec (SequenceWindow.highest w) s) as [Hlt|Hge]; simpl.
  { split; [done|]. split; simpl.
    - by left.
    - intros t [->|Ht%Hmax]%elem_of_cons; lia.
    - intros d Hd. rewrite N.lor_spec.
      assert (N.testbit 1 d = (d =? 0)%N) as ->.
      { change 1%N with (2 ^ 0)%N. rewrite N.pow2_bits_eqb. apply N.eqb_sym. }
      set (dist := (s - SequenceWindow.highest w)%N).
      assert (N.testbit (if (128 <=? dist)%N then 0%N
                         else wrapping_shl 128 (SequenceWindow.seen w) dist) d
              = bool_decide ((dist ≤ d)%N ∧ (d - dist ≤ SequenceWindow.highest w)%N
                             ∧ (SequenceWindow.highest w - (d - dist))%N ∈ l)) as ->.
      { destruct (N.leb_spec 128 dist).
        - rewrite N.bits_0, bool_decide_false; [done|]. lia.
        - rewrite wrapping_shl_bits by done. destruct (N.leb_spec dist d); simpl.
          + rewrite Hb by lia. apply bool_decide_ext. naive_solver.
          + rewrite bool_decide_false; [done|]. lia. }
      destruct (N.eqb_spec d 0) as [->|Hd0].
      + rewrite orb_true_r, bool_decide_true; [done|]. split; [lia|]. rewrite N.sub_0_r. by left.
      + rewrite orb_false_r. apply bool_decide_ext. rewrite elem_of_cons. unfold dist. split.
        * intros (H1 & H2 & H3). split; [lia|]. right.
          by replace (s - d)%N with (SequenceWindow.highest w - (d - (s - SequenceWindow.highest w)))%N
            by lia.
        * intros (H1 & [H2|H2]); [lia|]. pose proof (Hmax _ H2). split_and!; [lia|lia|].
          by replace (SequenceWindow.highest w - (d - (s - SequenceWindow.highest w)))%N
            with (s - d)%N by lia. }
  destruct (N.leb_spec 128 (SequenceWindow.highest w - s)) as [Hfar|Hnear]; simpl; [by split|].
  split.
  - rewrite land_shl_one by done. rewrite Hb by done. apply bool_decide_ext.
    replace (SequenceWindow.highest w - (SequenceWindow.highest w - s))%N with s by lia.
    split; [by intros [_ ?]|]. intros. split; [lia|done].
  - split; simpl.
    + by right.
    + intros t [->|Ht]%elem_of_cons; [done|by apply Hmax].
    + intros d Hd. rewrite N.lor_spec, Hb, shl_one_bits by done.
      destruct (N.eqb_spec (SequenceWindow.highest w - s) d) as [<-|Hne].
      * rewrite orb_true_r, bool_decide_true; [done|]. split; [lia|].
        rewrite elem_of_cons. left. lia.
      * rewrite orb_false_r. apply bool_decide_ext. rewrite elem_of_cons. split.
        -- intros [? ?]. split; [done|by right].
        -- intros [H1 [H2|H2]]; [lia|done].
Qed.

(** A number already reported as too old does not count as seen; otherwise the
    answers are those of the set. *)
Lemma observe_all_represents s l :
  ∃ seen, represents (observe_all (s :: l)) seen
    ∧ (∀ x, x ∈ seen → x ∈ s :: l)
    ∧ (∀ x, x ∈ s :: l → (x ≤ SequenceWindow.highest (observe_all (s :: l)))%N
        ∧ ((SequenceWindow.highest (observe_all (s :: l)) - x < 128)%N → x ∈ seen)).
Proof.
  induction l as [|t l IH] using rev_ind.
  - exists [s]. pose proof (represents_first s) as Hr. split; [exact Hr|]. split; [done|].
    intros x Hx. split; [by apply (rep_max _ _ Hr)|done].
  - destruct IH as (seen & Hrep & Hsub & Hall).
    assert (observe_all (s :: l ++ [t])
            = (SequenceWindow.observe (observe_all (s :: l)) t).2) as ->.
    { unfold observe_all. rewrite app_comm_cons, foldl_app. done. }
    set (w := observe_all (s :: l)) in *.
    destruct (represents_observe w seen t Hrep) as [_ Hr].
    assert (SequenceWindow.highest (SequenceWindow.observe w t).2
            = N.max (SequenceWindow.highest w) t) as Hmax.
    { pose proof (represents_nonzero _ _ Hrep) as Hnz. unfold SequenceWindow.observe.
      apply N.eqb_neq in Hnz as ->. destruct (N.ltb_spec (SequenceWindow.highest w) t); simpl; [lia|].
      destruct (N.leb_spec 128 (SequenceWindow.highest w - t)); simpl; lia. }
    eexists. split; [exact Hr|]. rewrite Hmax. split.
    + intros x Hx. rewrite app_comm_cons, elem_of_app, list_elem_of_singleton.
      repeat case_match; rewrite ?elem_of_cons in Hx; naive_solver.
    + intros x. rewrite app_comm_cons, elem_of_app, list_elem_of_singleton. intros Hx.
      assert (x ≤ N.max (SequenceWindow.highest w) t)%N.
      { destruct Hx as [Hx| ->]; [|lia]. destruct (Hall x Hx). lia. }
      split; [done|]. intros Hd.
      destruct (N.ltb_spec (SequenceWindow.highest w) t);
        [|destruct (N.leb_spec 128 (SequenceWindow.highest w - t))].
      * rewrite elem_of_cons. destruct Hx as [Hx| ->]; [|by left]. right.
        destruct (Hall x Hx) as [? Hin]. apply Hin. lia.
      * destruct Hx as [Hx| ->]; [|lia]. destruct (Hall x Hx) as [? Hin]. apply Hin. lia.
      * rewrite elem_of_cons. destruct Hx as [Hx| ->]; [|by left]. right.
        destruct (Hall x Hx) as [? Hin]. apply Hin. lia.
Qed.

(** The window decides replays as the set of the numbers received would:
    above the highest is fresh, within 128 below it is a replay exactly when it
    was received, and anything older is refused as a replay. *)
Theorem sequence_window_exact (s : N) (l : list N) (seq : N) :
  let w := observe_all (s :: l) in
  SequenceWindow.highest w ∈ s :: l
  ∧ (∀ x, x ∈ s :: l → (x ≤ SequenceWindow.highest w)%N)
  ∧ (SequenceWindow.observe w seq).1 = replayed (s :: l) (SequenceWindow.highest w) seq.
Proof.
  cbv zeta. destruct (observe_all_represents s l) as (seen & Hrep & Hsub & Hall).
  split_and!.
  - apply Hsub, Hrep.
  - intros x Hx. by apply Hall.
  - destruct (represents_observe _ _ seq Hrep) as [-> _]. unfold replayed.
    destruct (N.ltb_spec (SequenceWindow.highest (observe_all (s :: l))) seq); [done|].
    destruct (N.leb_spec 128 (SequenceWindow.highest (observe_all (s :: l)) - seq)); [done|].
    apply bool_decide_ext. split; [apply Hsub|]. intros Hx. by apply Hall.
Qed.
