(* ===== verification/Merge.v ===== *)
(** * The merge path (merge.rs)

    Every replicated fact converges here: member records under two orderings
    (version for the description, SWIM overrides for liveness), tombstones,
    blocklist entries and the membership policy by version. Each function
    returns the next model and what it did. *)

From Stdlib Require Import Ascii.
From stdpp Require Import base gmap strings list sorting fin_maps pretty.
From S2P Require Import Prelude Identity Limits Records Gossip Vocabulary Model.

Module MergeOutcome.
Inductive t : Type :=
  | Adopted (body : DeltaBody.t) (change : option ChangeRecord.t) (diagnostic : option Diagnostic.t)
  | Idempotent
  | Rejected (diagnostic : Diagnostic.t)
  | SelfChallenged (incarnation : Incarnation.t)
  | SelfRemoved (tombstone : MembershipTombstone.t).
#[global] Instance MergeOutcome_eq_dec : EqDecision t.
Proof. solve_decision. Defined.
End MergeOutcome.

(** ** The SWIM override table *)
Definition swim_supersedes (incoming_state : Liveness.t) (incoming_incarnation : Incarnation.t)
    (current_state : Liveness.t) (current_incarnation : Incarnation.t) : bool :=
  match current_state, incoming_state with
  | Liveness.Dead, _ => false
  | _, Liveness.Dead => Incarnation.geb incoming_incarnation current_incarnation
  | Liveness.Alive, Liveness.Suspected =>
    Incarnation.geb incoming_incarnation current_incarnation
  | Liveness.Suspected, Liveness.Suspected
  | Liveness.Alive, Liveness.Alive
  | Liveness.Suspected, Liveness.Alive =>
    Incarnation.gtb incoming_incarnation current_incarnation
  end.

(** ** Descriptions *)
Module Description.
(** Everything but the liveness pair and the version. *)
Record t : Type := mk {
  id : NodeId.t;
  name : WorkerName.t;
  cert_fingerprint : CertFingerprint.t;
  protocol : ProtocolVersion.t;
  endpoints : Endpoints.t;
  accepts : Accepts.t;
  capacity : NodeCapacity.t;
  capabilities : Capabilities.t
}.
#[global] Instance Description_eq_dec : EqDecision t.
Proof. solve_decision. Defined.

Definition of_member (member : Member.t) : t :=
  mk (Member.id member) (Member.name member) (Member.cert_fingerprint member)
    (Member.protocol member) (Member.endpoints member) (Member.accepts member)
    (Member.capacity member) (Member.capabilities member).
End Description.

Module DescriptionOrder.
Inductive t : Type := Newer | Older | Settled | Conflict.
#[global] Instance DescriptionOrder_eq_dec : EqDecision t.
Proof. solve_decision. Defined.
End DescriptionOrder.

Definition compare_descriptions (incoming current : Member.t) : DescriptionOrder.t :=
  match cmp (Member.version incoming) (Member.version current) with
  | Gt => DescriptionOrder.Newer
  | Lt => DescriptionOrder.Older
  | Eq => if decide (Description.of_member incoming = Description.of_member current)
          then DescriptionOrder.Settled else DescriptionOrder.Conflict
  end.

(** ** Member records *)
Definition member_entity (id : NodeId.t) : string := "member:" +:+ NodeId.as_str id.

Definition merge_member (model : Membership.t) (incoming : Member.t)
    : Membership.t * MergeOutcome.t :=
  let limits := model.(Membership.limits) in
  match Member.validate incoming limits with
  | Err error =>
    (model, MergeOutcome.Rejected
              (Diagnostic.MalformedRecord (member_entity (Member.id incoming)) error))
  | Ok _ =>
  if Membership.is_tombstoned model (Member.id incoming) then
    (model, MergeOutcome.Rejected (Diagnostic.TombstoneFenced (Member.id incoming)))
  else if decide (Member.id incoming = Membership.local_id model) then
    (model,
     match Member.liveness incoming with
     | Liveness.Suspected | Liveness.Dead =>
       if Incarnation.geb (Member.incarnation incoming) model.(Membership.incarnation)
       then MergeOutcome.SelfChallenged (Member.incarnation incoming)
       else MergeOutcome.Rejected (Diagnostic.SelfAnnouncementIgnored Announcement.Alive)
     | Liveness.Alive =>
       MergeOutcome.Rejected (Diagnostic.SelfAnnouncementIgnored Announcement.Alive)
     end)
  else
    match model.(Membership.members) !! Member.id incoming with
    | None =>
      let limit := limits.(LimitsSpec.max_members) in
      if (limit <=? map_len model.(Membership.members))%N then
        (model, MergeOutcome.Rejected
                  (Diagnostic.LimitExceeded "maxMembers"
                     (map_len model.(Membership.members) + 1) limit))
      else
        let change := ChangeRecord.LivenessChanged (Member.id incoming) Liveness.Alive
                        (Member.liveness incoming) (Member.incarnation incoming) in
        (Membership.set_members model
           (<[Member.id incoming := incoming]> model.(Membership.members)),
         MergeOutcome.Adopted (DeltaBody.MembershipUpdate incoming) (Some change) None)
    | Some current =>
      if decide (Member.cert_fingerprint incoming ≠ Member.cert_fingerprint current) then
        (model, MergeOutcome.Rejected (Diagnostic.CertificateMismatch (Member.id incoming)))
      else if decide (incoming = current) then (model, MergeOutcome.Idempotent)
      else
        let order := compare_descriptions incoming current in
        let liveness_wins :=
          swim_supersedes (Member.liveness incoming) (Member.incarnation incoming)
            (Member.liveness current) (Member.incarnation current) in
        let conflict :=
          if decide (order = DescriptionOrder.Conflict)
          then Some (Diagnostic.VersionConflict (member_entity (Member.id incoming))
                       (Member.version incoming))
          else None in
        let adopt_description := bool_decide (order = DescriptionOrder.Newer) in
        if negb adopt_description && negb liveness_wins then
          (model, MergeOutcome.Rejected
                    (default (Diagnostic.StaleDelta (member_entity (Member.id incoming))) conflict))
        else
          let held := if adopt_description
                      then Member.set_liveness incoming (Member.liveness current)
                             (Member.incarnation current)
                      else current in
          let change := if liveness_wins
                        then Some (ChangeRecord.LivenessChanged (Member.id held)
                                     (Member.liveness held) (Member.liveness incoming)
                                     (Member.incarnation incoming))
                        else None in
          let merged := if liveness_wins
                        then Member.set_liveness held (Member.liveness incoming)
                               (Member.incarnation incoming)
                        else held in
          let model := Membership.set_members model
                         (<[Member.id incoming := merged]> model.(Membership.members)) in
          let model :=
            if liveness_wins && bool_decide (Member.liveness merged ≠ Liveness.Suspected)
            then Membership.set_suspicions model
                   (delete (Member.id merged) model.(Membership.suspicions))
            else model in
          (model, MergeOutcome.Adopted (DeltaBody.MembershipUpdate merged) change conflict)
    end
  end.

(** ** Tombstones *)
Definition tombstone_entity (id : NodeId.t) : string := "tombstone:" +:+ NodeId.as_str id.

(** Barring [node]: everything the model holds about it goes. *)
Definition install_tombstone (model : Membership.t) (incoming : MembershipTombstone.t)
    : Membership.t :=
  let node := MembershipTombstone.node_id incoming in
  let model := Membership.set_tombstones model
                 (<[node := incoming]> model.(Membership.tombstones)) in
  let model := Membership.set_members model (delete node model.(Membership.members)) in
  let model := Membership.set_suspicions model (delete node model.(Membership.suspicions)) in
  let model := Membership.forget_sender model node in
  Membership.set_probes model
    (filter (λ kp, PendingProbe.target kp.2 ≠ node) model.(Membership.probes)).

Definition merge_tombstone (model : Membership.t) (incoming : MembershipTombstone.t)
    : Membership.t * MergeOutcome.t :=
  let node := MembershipTombstone.node_id incoming in
  let max_text_len := model.(Membership.limits).(LimitsSpec.max_text_len) in
  let reason_len := match MembershipTombstone.reason incoming with
                    | Some reason => str_len reason
                    | None => 0%N
                    end in
  let install :=
    (install_tombstone model incoming,
     if decide (node = Membership.local_id model)
     then MergeOutcome.SelfRemoved incoming
     else MergeOutcome.Adopted (DeltaBody.TombstoneUpdate incoming)
            (Some (ChangeRecord.MemberRemoved node (MembershipTombstone.removal_mode incoming)))
            None) in
  if bool_decide (is_Some (MembershipTombstone.reason incoming)) && (max_text_len <? reason_len)%N
  then
    (model, MergeOutcome.Rejected
              (Diagnostic.MalformedRecord (tombstone_entity node)
                 (ValidationError.TooLong "tombstone.reason" reason_len max_text_len)))
  else
    match model.(Membership.tombstones) !! node with
    | Some current =>
      if decide (current = incoming) then (model, MergeOutcome.Idempotent)
      else if decide (MembershipTombstone.version current = MembershipTombstone.version incoming)
      then
        (model, MergeOutcome.Rejected
                  (Diagnostic.VersionConflict (tombstone_entity node)
                     (MembershipTombstone.version incoming)))
      else if cmp_gtb (MembershipTombstone.version current) (MembershipTombstone.version incoming)
      then (model, MergeOutcome.Rejected (Diagnostic.StaleDelta (tombstone_entity node)))
      else install
    | None =>
      let limit := model.(Membership.limits).(LimitsSpec.max_tombstones) in
      if (limit <=? map_len model.(Membership.tombstones))%N then
        (model, MergeOutcome.Rejected
                  (Diagnostic.LimitExceeded "maxTombstones"
                     (map_len model.(Membership.tombstones) + 1) limit))
      else install
    end.

(** ** The membership policy and the blocklist *)
Definition merge_policy (model : Membership.t) (incoming : MembershipPolicy.t)
    : Membership.t * MergeOutcome.t :=
  let adopt :=
    (Membership.set_membership_policy model (Some incoming),
     MergeOutcome.Adopted (DeltaBody.MembershipPolicyUpdate incoming)
       (Some (ChangeRecord.MembershipPolicyChanged (MembershipPolicy.locked incoming))) None) in
  match model.(Membership.membership_policy) with
  | Some current =>
    if decide (current = incoming) then (model, MergeOutcome.Idempotent)
    else if decide (MembershipPolicy.version current = MembershipPolicy.version incoming) then
      (model, MergeOutcome.Rejected
                (Diagnostic.VersionConflict "policy:membership" (MembershipPolicy.version incoming)))
    else if cmp_gtb (MembershipPolicy.version current) (MembershipPolicy.version incoming) then
      (model, MergeOutcome.Rejected (Diagnostic.StaleDelta "policy:membership"))
    else adopt
  | None => adopt
  end.

Definition blocklist_entity (key : BlocklistKey.t) : string :=
  "blocklist:" +:+ BlocklistKey.to_string key.

Definition merge_blocklist (model : Membership.t) (incoming : BlocklistEntry.t)
    : Membership.t * MergeOutcome.t :=
  let key := BlocklistEntry.key incoming in
  let limits := model.(Membership.limits) in
  let adopt :=
    (Membership.set_blocklist model (<[key := incoming]> model.(Membership.blocklist)),
     MergeOutcome.Adopted (DeltaBody.BlocklistUpdate incoming) None None) in
  match BlocklistEntry.validate incoming limits with
  | Err error =>
    (model, MergeOutcome.Rejected (Diagnostic.MalformedRecord (blocklist_entity key) error))
  | Ok _ =>
    match model.(Membership.blocklist) !! key with
    | Some current =>
      if decide (current = incoming) then (model, MergeOutcome.Idempotent)
      else if decide (BlocklistEntry.version current = BlocklistEntry.version incoming) then
        (model, MergeOutcome.Rejected
                  (Diagnostic.VersionConflict (blocklist_entity key)
                     (BlocklistEntry.version incoming)))
      else if cmp_gtb (BlocklistEntry.version current) (BlocklistEntry.version incoming) then
        (model, MergeOutcome.Rejected (Diagnostic.StaleDelta (blocklist_entity key)))
      else adopt
    | None =>
      let limit := limits.(LimitsSpec.max_blocklist_entries) in
      if (limit <=? map_len model.(Membership.blocklist))%N then
        (model, MergeOutcome.Rejected
                  (Diagnostic.LimitExceeded "maxBlocklistEntries"
                     (map_len model.(Membership.blocklist) + 1) limit))
      else adopt
    end
  end.

(** ** One delta, and one announcement *)
Definition merge_delta (model : Membership.t) (body : DeltaBody.t)
    : Membership.t * MergeOutcome.t :=
  match body with
  | DeltaBody.MembershipUpdate member => merge_member model member
  | DeltaBody.TombstoneUpdate tombstone => merge_tombstone model tombstone
  | DeltaBody.BlocklistUpdate entry => merge_blocklist model entry
  | DeltaBody.MembershipPolicyUpdate policy => merge_policy model policy
  | DeltaBody.Foreign _ =>
    (model, MergeOutcome.Rejected
              (Diagnostic.Unexpected "foreign delta reached the membership merge path"))
  end.

(** The liveness an announcement claims, and the incarnation it lands at. *)
Definition announced_state (announcement : Announcement.t) (incarnation : Incarnation.t)
    : Liveness.t * Incarnation.t :=
  match announcement with
  | Announcement.Alive => (Liveness.Alive, incarnation)
  | Announcement.Suspect => (Liveness.Suspected, incarnation)
  | Announcement.Dead => (Liveness.Dead, incarnation)
  | Announcement.Leave =>
    (Liveness.Dead, default incarnation (Incarnation.checked_next incarnation))
  end.

Definition apply_announcement (model : Membership.t) (sender : NodeId.t)
    (announcement : Announcement.t) (target : NodeId.t) (incarnation : Incarnation.t)
    : Membership.t * MergeOutcome.t :=
  if decide (announcement = Announcement.Leave ∧ sender ≠ target) then
    (model, MergeOutcome.Rejected (Diagnostic.SpoofedLeave sender target))
  else if Membership.is_tombstoned model target then
    (model, MergeOutcome.Rejected (Diagnostic.TombstoneFenced target))
  else if decide (target = Membership.local_id model) then
    (model,
     match announcement with
     | Announcement.Suspect | Announcement.Dead =>
       if Incarnation.geb incarnation model.(Membership.incarnation)
       then MergeOutcome.SelfChallenged incarnation
       else MergeOutcome.Rejected (Diagnostic.SelfAnnouncementIgnored announcement)
     | _ => MergeOutcome.Rejected (Diagnostic.SelfAnnouncementIgnored announcement)
     end)
  else
    match model.(Membership.members) !! target with
    | None => (model, MergeOutcome.Rejected (Diagnostic.UnknownSender target))
    | Some current =>
      let '(state, effective) := announced_state announcement incarnation in
      if negb (swim_supersedes state effective (Member.liveness current)
                 (Member.incarnation current))
      then (model, MergeOutcome.Rejected (Diagnostic.StaleDelta (member_entity target)))
      else
        let merged := Member.set_liveness current state effective in
        let model := Membership.set_members model
                       (<[target := merged]> model.(Membership.members)) in
        let model := if decide (state ≠ Liveness.Suspected)
                     then Membership.set_suspicions model
                            (delete target model.(Membership.suspicions))
                     else model in
        let change := if decide (announcement = Announcement.Leave)
                      then ChangeRecord.MemberLeft target
                      else ChangeRecord.LivenessChanged target (Member.liveness current)
                             state effective in
        (model, MergeOutcome.Adopted (DeltaBody.MembershipUpdate merged) (Some change) None)
    end.

Definition local_successor (model : Membership.t) (current : VersionTuple.t)
    : option VersionTuple.t :=
  VersionTuple.checked_successor current (Membership.local_id model).

(** ** The admission baseline (baseline.rs)

    A complete source view of policy, blocklist and tombstones is staged on a
    copy of the model and installed only when every record is accepted or
    superseded by a newer local one. *)

(** [slice::windows(2)]. *)
Definition windows2 {A} (l : list A) : list (A * A) := zip l (tail l).

(** A [?]-style fold: the first error stops it. *)
Fixpoint try_fold {E S A} (f : S → A → result E S) (s : S) (l : list A) : result E S :=
  match l with
  | [] => Ok s
  | x :: l => s ← f s x; try_fold f s l
  end.

Module Baseline.
Definition deltas (baseline : AdmissionBaseline.t) : list DeltaBody.t :=
  (match AdmissionBaseline.policy baseline with
   | Some policy => [DeltaBody.MembershipPolicyUpdate policy]
   | None => []
   end)
  ++ (DeltaBody.BlocklistUpdate <$> AdmissionBaseline.blocklist baseline)
  ++ (DeltaBody.TombstoneUpdate <$> AdmissionBaseline.tombstones baseline).

(** One iteration of the staging loop. *)
Definition stage (limits : Limits.t) (staged : Membership.t) (delta : DeltaBody.t)
    : result Diagnostic.t Membership.t :=
  let enqueue staged body :=
    Membership.set_gossip staged
      (GossipQueue.enqueue staged.(Membership.gossip) body limits) in
  let '(staged, outcome) := merge_delta staged delta in
  match outcome with
  | MergeOutcome.Adopted body _ None => Ok (enqueue staged body)
  | MergeOutcome.Idempotent | MergeOutcome.Rejected (Diagnostic.StaleDelta _) => Ok staged
  | MergeOutcome.SelfRemoved tombstone =>
    Ok (enqueue staged (DeltaBody.TombstoneUpdate tombstone))
  | MergeOutcome.Rejected reason | MergeOutcome.Adopted _ _ (Some reason) => Err reason
  | MergeOutcome.SelfChallenged _ =>
    Err (Diagnostic.Unexpected "liveness challenge in admission-only baseline")
  end.

Definition check_limit (limit_value_max : string * N * N) : result Diagnostic.t unit :=
  let '(limit, value, max) := limit_value_max in
  if (max <? value)%N then Err (Diagnostic.LimitExceeded limit value max) else Ok ().

Definition merge (model : Membership.t) (baseline : AdmissionBaseline.t)
    : result Diagnostic.t Membership.t :=
  if negb (AdmissionBaseline.schema_version baseline =? 1)%N then
    Err (Diagnostic.Unexpected "unsupported admission baseline schema")
  else if decide (AdmissionBaseline.formation_id baseline ≠ model.(Membership.formation)) then
    Err (Diagnostic.FormationMismatch model.(Membership.formation)
           (AdmissionBaseline.formation_id baseline))
  else
    _ ← try_for_each check_limit
          [("maxBlocklistEntries", lenN (AdmissionBaseline.blocklist baseline),
            model.(Membership.limits).(LimitsSpec.max_blocklist_entries));
           ("maxTombstones", lenN (AdmissionBaseline.tombstones baseline),
            model.(Membership.limits).(LimitsSpec.max_tombstones))];
    if existsb (λ pair, cmp_geb (BlocklistEntry.key pair.1) (BlocklistEntry.key pair.2))
         (windows2 (AdmissionBaseline.blocklist baseline))
       || existsb (λ pair, cmp_geb (MembershipTombstone.node_id pair.1)
                             (MembershipTombstone.node_id pair.2))
            (windows2 (AdmissionBaseline.tombstones baseline))
    then Err (Diagnostic.Unexpected "unordered or duplicate admission baseline key")
    else try_fold (stage model.(Membership.limits)) model (deltas baseline).
End Baseline.
