(* ===== verification/Admission.v ===== *)
(** * Admission gates (admission.rs)

    The gates decided from the model alone, those decided from the shell's
    evidence, and the hints sent with a refusal. *)

From Stdlib Require Import Ascii.
From stdpp Require Import base gmap strings list sorting fin_maps pretty.
From S2P Require Import Prelude Identity Limits Records Gossip Vocabulary Model.

Definition admission_capacity (model : Membership.t) : N :=
  N.min (AdmissionPolicy.capacity model.(Membership.policy))
    model.(Membership.limits).(LimitsSpec.max_members).

(** [.values().any(..)]. *)
Definition any_value `{Countable K, Ord K} {V} (f : V → bool) (m : gmap K V) : bool :=
  existsb f (btree_values m).

Definition bars_fingerprint (fingerprint : CertFingerprint.t) (tombstone : MembershipTombstone.t)
    : bool :=
  negb (MembershipTombstone.cleared tombstone)
  && bool_decide (MembershipTombstone.cert_fingerprint tombstone = fingerprint).

Definition holds_fingerprint (fingerprint : CertFingerprint.t) (member : Member.t) : bool :=
  bool_decide (Member.cert_fingerprint member = fingerprint)
  && match Member.liveness member with
     | Liveness.Alive | Liveness.Suspected => true
     | Liveness.Dead => false
     end.

Definition evaluate_local_gates (model : Membership.t) (authenticated formation_matches : bool)
    (protocol : ProtocolVersion.t) (name : WorkerName.t) (fingerprint : CertFingerprint.t)
    : result RejectReason.t unit :=
  let policy := model.(Membership.policy) in
  if negb authenticated then Err RejectReason.Unauthenticated
  else if negb formation_matches then Err RejectReason.FormationMismatch
  else if negb (ProtocolRange.accepts (AdmissionPolicy.protocol_range policy) protocol) then
    Err (RejectReason.IncompatibleProtocol protocol)
  else if negb (AdmissionPolicy.accepts_peers policy) then Err RejectReason.NotAnIntroducer
  else if Membership.membership_locked model then Err RejectReason.MembershipLocked
  else
    _ ← try_for_each
          (λ key, if Membership.is_blocked model key then Err (RejectReason.Blocklisted key)
                  else Ok ())
          [BlocklistKey.Name name; BlocklistKey.Fingerprint fingerprint];
    if any_value (bars_fingerprint fingerprint) model.(Membership.tombstones) then
      Err RejectReason.Tombstoned
    else if any_value (holds_fingerprint fingerprint) model.(Membership.members) then
      Err RejectReason.AlreadyAdmitted
    else if (admission_capacity model <=? map_len model.(Membership.members))%N then
      Err RejectReason.CapacityExhausted
    else Ok ().

Definition evaluate_evidence (evidence : AdmissionEvidence.t) : result RejectReason.t unit :=
  if negb (AdmissionEvidence.transport_authenticated evidence) then
    Err RejectReason.Unauthenticated
  else if AdmissionEvidence.source_network_blocked evidence then
    Err RejectReason.BlocklistedNetwork
  else if negb (AdmissionEvidence.token_valid evidence) then Err RejectReason.InvalidToken
  else Ok ().

Definition blocked_networks (model : Membership.t) : list NetworkPattern.t :=
  takeN model.(Membership.limits).(LimitsSpec.max_blocklist_entries)
    (omap (λ entry, match BlocklistEntry.key entry with
                    | BlocklistKey.Network pattern => Some pattern
                    | _ => None
                    end)
       (filter (λ entry, BlocklistEntry.action entry = BlocklistAction.Block)
          (btree_values model.(Membership.blocklist)))).

Definition redirect_candidates (model : Membership.t) : list Address.t :=
  takeN model.(Membership.limits).(LimitsSpec.max_redirects)
    (filter (λ member, Member.liveness member = Liveness.Alive
                       ∧ Accepts.peers (Member.accepts member) = true)
       (filter (λ member, Member.id member ≠ Membership.local_id model)
          (btree_values model.(Membership.members)))
     ≫= λ member, Endpoints.peers (Member.endpoints member)).

(** ** The gates as one condition *)
Lemma any_value_spec `{Countable K, Ord K, !OrdLaws K} {V} (f : V → bool) (m : gmap K V) :
  any_value f m = true ↔ ∃ k v, m !! k = Some v ∧ f v = true.
Proof.
  unfold any_value. rewrite existsb_exists. split.
  - intros (v & Hv & Hf). rewrite <- list_elem_of_In in Hv.
    apply elem_of_btree_values in Hv as [k Hk]. eauto.
  - intros (k & v & Hk & Hf). exists v. split; [|done].
    rewrite <- list_elem_of_In. apply elem_of_btree_values. eauto.
Qed.

Lemma any_value_false `{Countable K, Ord K, !OrdLaws K} {V} (f : V → bool) (m : gmap K V) :
  any_value f m = false ↔ ∀ k v, m !! k = Some v → f v = false.
Proof.
  rewrite <- not_true_iff_false, any_value_spec. split.
  - intros Hn k v Hk. apply not_true_is_false. intros Hf. apply Hn. by exists k, v.
  - intros Ha (k & v & Hk & Hf). by rewrite (Ha k v Hk) in Hf.
Qed.

(** What a model must allow for an applicant to pass. *)
Record gates_open (model : Membership.t) (protocol : ProtocolVersion.t) (name : WorkerName.t)
    (fingerprint : CertFingerprint.t) : Prop := {
  gate_protocol : ProtocolRange.accepts
                    (AdmissionPolicy.protocol_range model.(Membership.policy)) protocol = true;
  gate_introducer : AdmissionPolicy.accepts_peers model.(Membership.policy) = true;
  gate_unlocked : Membership.membership_locked model = false;
  gate_name : Membership.is_blocked model (BlocklistKey.Name name) = false;
  gate_fingerprint : Membership.is_blocked model (BlocklistKey.Fingerprint fingerprint) = false;
  gate_tombstones : ∀ id t, model.(Membership.tombstones) !! id = Some t →
    MembershipTombstone.cert_fingerprint t = fingerprint → MembershipTombstone.cleared t = true;
  gate_members : ∀ id m, model.(Membership.members) !! id = Some m →
    Member.cert_fingerprint m = fingerprint → Member.liveness m = Liveness.Dead;
  gate_capacity : (map_len model.(Membership.members) < admission_capacity model)%N
}.

Lemma local_gates_spec (model : Membership.t) (authenticated formation_matches : bool)
    (protocol : ProtocolVersion.t) (name : WorkerName.t) (fingerprint : CertFingerprint.t) :
  evaluate_local_gates model authenticated formation_matches protocol name fingerprint = Ok ()
  ↔ authenticated = true ∧ formation_matches = true ∧ gates_open model protocol name fingerprint.
Proof.
  unfold evaluate_local_gates. split.
  - destruct authenticated, formation_matches; try done. cbn [negb].
    destruct (ProtocolRange.accepts _ _) eqn:H1; [|done].
    destruct (AdmissionPolicy.accepts_peers _) eqn:H2; [|done].
    destruct (Membership.membership_locked _) eqn:H3; [done|]. cbn [negb try_for_each mbind result_bind].
    destruct (Membership.is_blocked model (BlocklistKey.Name name)) eqn:H4; [done|].
    destruct (Membership.is_blocked model (BlocklistKey.Fingerprint fingerprint)) eqn:H5; [done|].
    destruct (any_value (bars_fingerprint _) _) eqn:H6; [done|].
    destruct (any_value (holds_fingerprint _) _) eqn:H7; [done|].
    destruct (N.leb_spec (admission_capacity model) (map_len model.(Membership.members))) as [|H8];
      [done|]. intros _. rewrite any_value_false in H6. rewrite any_value_false in H7. split_and!; [done..|]. split; try done.
    + intros id t Ht Hf. specialize (H6 id t Ht). unfold bars_fingerprint in H6.
      rewrite bool_decide_true in H6 by done. by destruct (MembershipTombstone.cleared t).
    + intros id m Hm Hf. specialize (H7 id m Hm). unfold holds_fingerprint in H7.
      rewrite bool_decide_true in H7 by done. by destruct (Member.liveness m).
  - intros (-> & -> & []); simpl. rewrite gate_protocol0, gate_introducer0, gate_unlocked0. simpl.
    rewrite gate_name0, gate_fingerprint0. simpl.
    replace (any_value (bars_fingerprint fingerprint) _) with false; cycle 1.
    { symmetry. apply any_value_false. intros id t Ht. unfold bars_fingerprint.
      case_bool_decide; [|by rewrite andb_false_r]. by rewrite (gate_tombstones0 id t). }
    replace (any_value (holds_fingerprint fingerprint) _) with false; cycle 1.
    { symmetry. apply any_value_false. intros id m Hm. unfold holds_fingerprint.
      case_bool_decide; [|done]. by rewrite (gate_members0 id m). }
    by apply N.leb_gt in gate_capacity0 as ->.
Qed.

Lemma local_gates_accept model protocol name fingerprint :
  evaluate_local_gates model true true protocol name fingerprint = Ok () →
  gates_open model protocol name fingerprint.
Proof. by intros (_ & _ & ?)%local_gates_spec. Qed.

(** The local gates pass exactly when the transport authenticated, the
    formations match, and the model allows the applicant: protocol in range,
    node introducing and unlocked, label and certificate unblocked, certificate
    neither barred by an uncleared tombstone nor held by a live or suspected
    member, and room below both the policy capacity and [max_members]. *)
Theorem local_gates_iff (model : Membership.t) (authenticated formation_matches : bool)
    (protocol : ProtocolVersion.t) (name : WorkerName.t) (fingerprint : CertFingerprint.t) :
  evaluate_local_gates model authenticated formation_matches protocol name fingerprint = Ok ()
  ↔ authenticated = true ∧ formation_matches = true ∧ gates_open model protocol name fingerprint.
Proof. apply local_gates_spec. Qed.

(** The gates in the order they are meant to be tried: the cheap facts about
    the transport first, then the policy, the exclusions and the room. *)
Definition gate_list (model : Membership.t) (authenticated formation_matches : bool)
    (protocol : ProtocolVersion.t) (name : WorkerName.t) (fingerprint : CertFingerprint.t)
    : list (bool * RejectReason.t) :=
  let policy := model.(Membership.policy) in
  [ (authenticated, RejectReason.Unauthenticated);
    (formation_matches, RejectReason.FormationMismatch);
    (ProtocolRange.accepts (AdmissionPolicy.protocol_range policy) protocol,
     RejectReason.IncompatibleProtocol protocol);
    (AdmissionPolicy.accepts_peers policy, RejectReason.NotAnIntroducer);
    (negb (Membership.membership_locked model), RejectReason.MembershipLocked);
    (negb (Membership.is_blocked model (BlocklistKey.Name name)),
     RejectReason.Blocklisted (BlocklistKey.Name name));
    (negb (Membership.is_blocked model (BlocklistKey.Fingerprint fingerprint)),
     RejectReason.Blocklisted (BlocklistKey.Fingerprint fingerprint));
    (negb (any_value (bars_fingerprint fingerprint) model.(Membership.tombstones)),
     RejectReason.Tombstoned);
    (negb (any_value (holds_fingerprint fingerprint) model.(Membership.members)),
     RejectReason.AlreadyAdmitted);
    (map_len model.(Membership.members) <? admission_capacity model,
     RejectReason.CapacityExhausted) ]%N.

(** A refusal names the first failing gate in that order, so the answer
    to an unauthenticated or foreign applicant reveals nothing about the
    blocklist, the tombstones, the members or the remaining capacity. *)
Theorem local_gates_first_refusal (model : Membership.t) (authenticated formation_matches : bool)
    (protocol : ProtocolVersion.t) (name : WorkerName.t) (fingerprint : CertFingerprint.t) :
  evaluate_local_gates model authenticated formation_matches protocol name fingerprint =
  match List.find (λ g, negb g.1)
          (gate_list model authenticated formation_matches protocol name fingerprint) with
  | Some (_, reason) => Err reason
  | None => Ok ()
  end.
Proof.
  unfold evaluate_local_gates, gate_list. cbn [List.find fst snd].
  destruct authenticated, formation_matches; try done. cbn [negb].
  destruct (ProtocolRange.accepts _ _); [|done].
  destruct (AdmissionPolicy.accepts_peers _); [|done].
  destruct (Membership.membership_locked _); [done|]. cbn [negb try_for_each mbind result_bind].
  destruct (Membership.is_blocked model (BlocklistKey.Name name)); [done|].
  destruct (Membership.is_blocked model (BlocklistKey.Fingerprint fingerprint)); [done|].
  destruct (any_value (bars_fingerprint _) _); [done|].
  destruct (any_value (holds_fingerprint _) _); [done|].
  rewrite N.ltb_antisym. by destruct (_ <=? _)%N.
Qed.

(** Evidence passes exactly when every fact holds. *)
Lemma evidence_ok_iff (e : AdmissionEvidence.t) :
  evaluate_evidence e = Ok () ↔
  AdmissionEvidence.transport_authenticated e = true
  ∧ AdmissionEvidence.source_network_blocked e = false
  ∧ AdmissionEvidence.token_valid e = true.
Proof. destruct e as [[] [] []]; vm_compute; naive_solver. Qed.

(** Redirects are addresses of other, live introducers, and few. *)
Lemma redirect_candidates_spec (model : Membership.t) (a : Address.t) :
  a ∈ redirect_candidates model →
  ∃ k m, model.(Membership.members) !! k = Some m ∧ Member.id m ≠ Membership.local_id model ∧
    Member.liveness m = Liveness.Alive ∧ Accepts.peers (Member.accepts m) = true ∧
    a ∈ Endpoints.peers (Member.endpoints m).
Proof.
  intros Ha%elem_of_takeN. apply list_elem_of_bind in Ha as (m & Ha & Hm).
  apply list_elem_of_filter in Hm as [[Hl Hp] Hm].
  apply list_elem_of_filter in Hm as [Hid Hm].
  apply elem_of_btree_values in Hm as [k Hk]. exists k, m. done.
Qed.
