(* ===== verification/Antientropy.v ===== *)
(** * Canonical hashing and paged anti-entropy (antientropy.rs)

    The canonical encoding of every record, the fixed-shape hash tree over
    them, the comparison of digests and the paged collection of a divergent
    range. SHA-256 (crate [sha2]) is a parameter. *)

From Stdlib Require Import Ascii.
From stdpp Require Import base gmap strings list sorting fin_maps pretty.
From S2P Require Import Prelude Identity Limits Records Gossip Vocabulary Model.

(** ** The hash *)

(** [Sha256::digest]: feeding a hasher in pieces hashes the concatenation. *)
Class Sha256 : Type := sha256 : bytes → bytes.
(** The documented output size. *)
Class Sha256Laws `{Sha256} : Prop := sha256_length (b : bytes) : length (sha256 b) = 32.

Definition byte (v : N) : ascii := ascii_of_N v.
Definition LEAF_DOMAIN : bytes := bytes_of "orishu.membership.leaf/2".
Definition BUCKET_DOMAIN : bytes := bytes_of "orishu.membership.bucket/2".
Definition NODE_DOMAIN : bytes := bytes_of "orishu.membership.node/2".
Definition TAG_MEMBER : ascii := byte 1.
Definition TAG_TOMBSTONE : ascii := byte 2.
Definition TAG_BLOCKLIST : ascii := byte 3.
Definition TAG_POLICY : ascii := byte 4.

(** ** The canonical encoder: what each method feeds the hasher *)

(** [to_be_bytes] of an [n]-byte integer. *)
Fixpoint to_be_bytes (n : nat) (v : N) : bytes :=
  match n with
  | O => []
  | S n => to_be_bytes n (v / 256) ++ [byte (v mod 256)]
  end.

Module Encoder.
Definition u8 (v : N) : bytes := [byte v].
Definition u32 (v : N) : bytes := to_be_bytes 4 v.
Definition u64 (v : N) : bytes := to_be_bytes 8 v.
Definition bytes (v : Prelude.bytes) : Prelude.bytes := u32 (N.min (lenN v) u32_max) ++ v.
Definition text (v : string) : Prelude.bytes := bytes (bytes_of v).
Definition version (v : VersionTuple.t) : Prelude.bytes :=
  u64 (VersionTuple.epoch v) ++ u64 (VersionTuple.counter v)
  ++ text (NodeId.as_str (VersionTuple.actor v)).
(** [u8::from(bool)] and [len() as u32]. *)
Definition bool (b : Datatypes.bool) : Prelude.bytes := u8 (if b then 1 else 0).
Definition count {A} (l : list A) : Prelude.bytes := u32 (lenN l mod 2 ^ 32).
(** A counted loop over a list. *)
Definition items {A} (f : A → Prelude.bytes) (l : list A) : Prelude.bytes := count l ++ (l ≫= f).
(** A presence byte, then the value or its placeholder. *)
Definition option {A} (f : A → Prelude.bytes) (placeholder : A) (o : Datatypes.option A)
    : Prelude.bytes :=
  match o with
  | Some v => u8 1 ++ f v
  | None => u8 0 ++ f placeholder
  end.
End Encoder.

(** ** Leaf keys *)
Definition member_key (id : NodeId.t) : bytes := TAG_MEMBER :: bytes_of (NodeId.as_str id).
Definition tombstone_key (id : NodeId.t) : bytes := TAG_TOMBSTONE :: bytes_of (NodeId.as_str id).
Definition blocklist_key (key : BlocklistKey.t) : bytes :=
  TAG_BLOCKLIST :: bytes_of (BlocklistKey.to_string key).
Definition policy_key : bytes := TAG_POLICY :: bytes_of "membership".

(** ** Leaf values *)
Definition liveness_code (l : Liveness.t) : N :=
  match l with Liveness.Alive => 0 | Liveness.Suspected => 1 | Liveness.Dead => 2 end.
Definition removal_mode_code (m : RemovalMode.t) : N :=
  match m with
  | RemovalMode.Graceful => 0 | RemovalMode.Force => 1
  | RemovalMode.Dead => 2 | RemovalMode.Blocklist => 3
  end.
Definition action_code (a : BlocklistAction.t) : N :=
  match a with BlocklistAction.Block => 0 | BlocklistAction.Allow => 1 end.

Definition address_bytes (a : Address.t) : bytes := Encoder.text (Address.text a).
Definition engine_bytes (e : EngineCapability.t) : bytes :=
  Encoder.text (EngineCapability.engine e) ++ Encoder.text (EngineCapability.runtime_lifecycle e).

Definition member_bytes (key : bytes) (member : Member.t) : bytes :=
  let endpoints := Member.endpoints member in
  let accepts := Member.accepts member in
  let capabilities := Member.capabilities member in
  Encoder.bytes key ++ [TAG_MEMBER]
  ++ Encoder.version (Member.version member)
  ++ Encoder.text (WorkerName.as_str (Member.name member))
  ++ Encoder.bytes (CertFingerprint.as_bytes (Member.cert_fingerprint member))
  ++ Encoder.u32 (ProtocolVersion.raw (Member.protocol member))
  ++ Encoder.u8 (liveness_code (Member.liveness member))
  ++ Encoder.u64 (Incarnation.raw (Member.incarnation member))
  ++ Encoder.items address_bytes (Endpoints.peers endpoints)
  ++ Encoder.items address_bytes (Endpoints.clients endpoints)
  ++ Encoder.bool (Accepts.clients accepts)
  ++ Encoder.bool (Accepts.peers accepts)
  ++ Encoder.bool (Accepts.work accepts)
  ++ Encoder.u32 (NodeCapacity.peers (Member.capacity member))
  ++ Encoder.u32 (NodeCapacity.clients (Member.capacity member))
  ++ Encoder.u32 (Capabilities.cpu_cores capabilities)
  ++ Encoder.u64 (Capabilities.memory_bytes capabilities)
  ++ Encoder.text (Capabilities.architecture capabilities)
  ++ Encoder.text (Capabilities.storage_backend capabilities)
  ++ Encoder.option Encoder.u32 0%N (Capabilities.storage_replicas capabilities)
  ++ Encoder.items Encoder.text (Capabilities.accelerators capabilities)
  ++ Encoder.items engine_bytes (Capabilities.engines capabilities).

Definition tombstone_bytes (key : bytes) (tombstone : MembershipTombstone.t) : bytes :=
  Encoder.bytes key ++ [TAG_TOMBSTONE]
  ++ Encoder.version (MembershipTombstone.version tombstone)
  ++ Encoder.text (WorkerName.as_str (MembershipTombstone.name tombstone))
  ++ Encoder.bytes (CertFingerprint.as_bytes (MembershipTombstone.cert_fingerprint tombstone))
  ++ Encoder.u8 (removal_mode_code (MembershipTombstone.removal_mode tombstone))
  ++ Encoder.option Encoder.text "" (MembershipTombstone.reason tombstone).

Definition blocklist_bytes (key : bytes) (entry : BlocklistEntry.t) : bytes :=
  Encoder.bytes key ++ [TAG_BLOCKLIST]
  ++ Encoder.version (BlocklistEntry.version entry)
  ++ Encoder.u8 (action_code (BlocklistEntry.action entry))
  ++ Encoder.text (BlocklistEntry.added_by entry).

Definition policy_bytes (policy : MembershipPolicy.t) : bytes :=
  Encoder.bytes policy_key ++ [TAG_POLICY]
  ++ Encoder.version (MembershipPolicy.version policy)
  ++ Encoder.bool (MembershipPolicy.locked policy).

(** ** Errors, cursors and batches *)
Module DigestError.
Inductive t : Type := Malformed | DepthMismatch (ours theirs : N).
#[global] Instance DigestError_eq_dec : EqDecision t.
Proof. solve_decision. Defined.
End DigestError.

Module AntiEntropyBatch.
Record t : Type := mk {
  deltas : list GossipDelta.t;
  complete : bool;
  cursor : option AntiEntropyCursor.t
}.
#[global] Instance AntiEntropyBatch_eq_dec : EqDecision t.
Proof. solve_decision. Defined.
End AntiEntropyBatch.

Module Leaf.
Record t : Type := mk { bucket : N; key : bytes; hash : Hash256.t; body : DeltaBody.t }.
#[global] Instance Leaf_eq_dec : EqDecision t.
Proof. solve_decision. Defined.
Definition key_le (a b : t) : Prop := key a ⪯ key b.
#[global] Instance key_le_dec a b : Decision (key_le a b).
Proof. unfold key_le. solve_decision. Defined.
End Leaf.

Section hashing.
Context `{Sha256}.

Definition hash256 (preimage : bytes) : Hash256.t := Hash256.from_bytes (sha256 preimage).

Definition member_hash (key : bytes) (member : Member.t) : Hash256.t :=
  hash256 (LEAF_DOMAIN ++ member_bytes key member).
Definition tombstone_hash (key : bytes) (tombstone : MembershipTombstone.t) : Hash256.t :=
  hash256 (LEAF_DOMAIN ++ tombstone_bytes key tombstone).
Definition blocklist_hash (key : bytes) (entry : BlocklistEntry.t) : Hash256.t :=
  hash256 (LEAF_DOMAIN ++ blocklist_bytes key entry).
Definition policy_hash (policy : MembershipPolicy.t) : Hash256.t :=
  hash256 (LEAF_DOMAIN ++ policy_bytes policy).

(** The top [depth] bits of the hash of the key. *)
Definition bucket_of (key : bytes) (depth : N) : N :=
  let digest := sha256 (BUCKET_DOMAIN ++ key) in
  let leading := (N_of_ascii (nth 0 digest (byte 0)) * 256
                  + N_of_ascii (nth 1 digest (byte 0)))%N in
  N.shiftr leading (16 - depth).

(** One round of pairwise folding; an odd last hash pairs with itself. *)
Definition node_hash (l r : Hash256.t) : Hash256.t :=
  hash256 (NODE_DOMAIN ++ Hash256.as_bytes l ++ Hash256.as_bytes r).
Fixpoint fold_level (level : list Hash256.t) : list Hash256.t :=
  match level with
  | [] => []
  | [l] => [node_hash l l]
  | l :: r :: level => node_hash l r :: fold_level level
  end.
(** [while level.len() > 1]; every round shortens the level. *)
Fixpoint fold_while (fuel : nat) (level : list Hash256.t) : list Hash256.t :=
  match fuel with
  | O => level
  | S fuel => if decide (length level ≤ 1) then level else fold_while fuel (fold_level level)
  end.
Definition fold_root (buckets : list Hash256.t) : Hash256.t :=
  match buckets with
  | [] => Hash256.default
  | _ => nth 0 (fold_while (length buckets) buckets) Hash256.default
  end.

(** [MerkleDigest::is_well_formed]. *)
Definition is_well_formed (d : MerkleDigest.t) : bool :=
  if (MerkleDigest.depth d =? 0)%N || (8 <? MerkleDigest.depth d)%N then false
  else if negb (lenN (MerkleDigest.buckets d) =? N.shiftl 1 (MerkleDigest.depth d))%N then false
  else bool_decide (fold_root (MerkleDigest.buckets d) = MerkleDigest.root d).
End hashing.

(** ** The tree *)
Module MembershipTree.
Record t : Type := mk { depth : N; buckets : gmap N (list Leaf.t) }.

Section tree.
Context `{Sha256}.

(** [buckets.entry(bucket).or_default().push(leaf)]. *)
Definition push (depth : N) (buckets : gmap N (list Leaf.t))
    (item : bytes * Hash256.t * DeltaBody.t) : gmap N (list Leaf.t) :=
  let '(key, hash, body) := item in
  let bucket := bucket_of key depth in
  let leaves := default [] (buckets !! bucket) in
  <[bucket := leaves ++ [Leaf.mk bucket key hash body]]> buckets.

(** The leaves pushed, in the order of the loops of [build]. *)
Definition member_item (member : Member.t) : bytes * Hash256.t * DeltaBody.t :=
  let key := member_key (Member.id member) in
  (key, member_hash key member, DeltaBody.MembershipUpdate member).
Definition tombstone_item (tombstone : MembershipTombstone.t) : bytes * Hash256.t * DeltaBody.t :=
  let key := tombstone_key (MembershipTombstone.node_id tombstone) in
  (key, tombstone_hash key tombstone, DeltaBody.TombstoneUpdate tombstone).
Definition blocklist_item (entry : BlocklistEntry.t) : bytes * Hash256.t * DeltaBody.t :=
  let key := blocklist_key (BlocklistEntry.key entry) in
  (key, blocklist_hash key entry, DeltaBody.BlocklistUpdate entry).
Definition policy_item (policy : MembershipPolicy.t) : bytes * Hash256.t * DeltaBody.t :=
  (policy_key, policy_hash policy, DeltaBody.MembershipPolicyUpdate policy).

Definition items (model : Membership.t) : list (bytes * Hash256.t * DeltaBody.t) :=
  (member_item <$> btree_values model.(Membership.members))
  ++ (tombstone_item <$> btree_values model.(Membership.tombstones))
  ++ (blocklist_item <$> btree_values model.(Membership.blocklist))
  ++ match model.(Membership.membership_policy) with
     | Some policy => [policy_item policy]
     | None => []
     end.

Definition build (model : Membership.t) : t :=
  let depth := model.(Membership.limits).(LimitsSpec.anti_entropy_depth) in
  mk depth (merge_sort Leaf.key_le <$> foldl (push depth) ∅ (items model)).

Definition bucket_hash (tree : t) (index : N) : Hash256.t :=
  let leaves := default [] (buckets tree !! index) in
  hash256 (BUCKET_DOMAIN ++ Encoder.count leaves
           ++ (leaves ≫= λ leaf, Hash256.as_bytes (Leaf.hash leaf))).

Definition bucket_count (tree : t) : nat := N.to_nat (N.shiftl 1 (depth tree)).

Definition digest (tree : t) : MerkleDigest.t :=
  let buckets := (λ index, bucket_hash tree (N.of_nat index)) <$> seq 0 (bucket_count tree) in
  MerkleDigest.mk (depth tree) (fold_root buckets) buckets.

Definition divergent_buckets (tree : t) (theirs : MerkleDigest.t)
    : result DigestError.t (list N) :=
  if negb (MerkleDigest.depth theirs =? depth tree)%N then
    Err (DigestError.DepthMismatch (depth tree) (MerkleDigest.depth theirs))
  else if negb (is_well_formed theirs) then Err DigestError.Malformed
  else
    let ours := digest tree in
    if decide (MerkleDigest.root ours = MerkleDigest.root theirs) then Ok []
    else
      Ok ((λ e, N.of_nat e.1) <$>
          filter (λ e : nat * (Hash256.t * Hash256.t), e.2.1 ≠ e.2.2)
            (imap pair (zip (MerkleDigest.buckets ours) (MerkleDigest.buckets theirs)))).

(** [&leaves[partition_point(..)..]]: the leaves strictly after the cursor,
    when the cursor is in this bucket. *)
Definition resume (cursor : option AntiEntropyCursor.t) (bucket : N) (leaves : list Leaf.t)
    : list Leaf.t :=
  match cursor with
  | Some c =>
    if (bucket =? AntiEntropyCursor.bucket c)%N
    then drop_while (λ leaf, cmp_leb (Leaf.key leaf) (AntiEntropyCursor.after_key c)) leaves
    else leaves
  | None => leaves
  end.

(** The inner loop: [inl] is the early return of a truncated batch. *)
Fixpoint collect_leaves (max bucket : N) (leaves : list Leaf.t) (deltas : list GossipDelta.t)
    (last : option (N * bytes))
    : AntiEntropyBatch.t + (list GossipDelta.t * option (N * bytes)) :=
  match leaves with
  | [] => inr (deltas, last)
  | leaf :: leaves =>
    if (lenN deltas =? max)%N then
      inl (AntiEntropyBatch.mk deltas false
             ((λ l, AntiEntropyCursor.mk l.1 l.2) <$> last))
    else
      collect_leaves max bucket leaves (deltas ++ [GossipDelta.mk 0 (Leaf.body leaf)])
        (Some (bucket, Leaf.key leaf))
  end.

(** The outer loop over the requested buckets. *)
Fixpoint collect_buckets (tree : t) (cursor : option AntiEntropyCursor.t) (max : N)
    (requested : list N) (deltas : list GossipDelta.t) (last : option (N * bytes))
    : AntiEntropyBatch.t :=
  match requested with
  | [] => AntiEntropyBatch.mk deltas true None
  | bucket :: requested =>
    let skip := match cursor with
                | Some c => (bucket <? AntiEntropyCursor.bucket c)%N
                | None => false
                end in
    if skip then collect_buckets tree cursor max requested deltas last
    else
      match buckets tree !! bucket with
      | None => collect_buckets tree cursor max requested deltas last
      | Some leaves =>
        match collect_leaves max bucket (resume cursor bucket leaves) deltas last with
        | inl batch => batch
        | inr (deltas, last) => collect_buckets tree cursor max requested deltas last
        end
      end
  end.

Definition collect (tree : t) (requested : list N) (cursor : option AntiEntropyCursor.t) (max : N)
    : AntiEntropyBatch.t :=
  collect_buckets tree cursor max requested [] None.
End tree.
End MembershipTree.

(** A 32-byte stand-in for the hash, on which concrete instances are evaluated. *)
Definition toy_sha256 : Sha256 := λ b, firstn 32 (reverse b ++ replicate 32 (byte 0)).
Lemma toy_sha256_laws : @Sha256Laws toy_sha256.
Proof.
  intros b. unfold sha256, toy_sha256. rewrite length_take, length_app, length_replicate. lia.
Qed.
