(* ===== verification/Update.v ===== *)
(** * The pure transition (update.rs)

    [update] folds one message into the model and returns the next model, the
    effects asked of the shell, the diagnostics and the foreign gossip. The
    accumulated transition [Context] is passed explicitly from handler to
    handler, in the order the code mutates it. *)

From Stdlib Require Import Ascii.
From stdpp Require Import base gmap strings list sorting fin_maps pretty.
From S2P Require Import Prelude Identity Limits Records Gossip Vocabulary Model Merge Admission Antientropy.

Module Transition.
Record t : Type := mk {
  model : Membership.t;
  effects : list Effect.t;
  diagnostics : list Diagnostic.t;
  foreign_gossip : list ForeignHandoff.t
}.
#[global] Instance Transition_eq_dec : EqDecision t.
Proof. solve_decision. Defined.
End Transition.

(** ** The transition under construction *)
Module Context.
Record t : Type := mk {
  model : Membership.t;
  effects : list Effect.t;
  diagnostics : list Diagnostic.t;
  foreign : list ForeignHandoff.t
}.
Definition new (model : Membership.t) : t := mk model [] [] [].
Definition set_model (ctx : t) (m : Membership.t) : t :=
  mk m (effects ctx) (diagnostics ctx) (foreign ctx).
Definition emit (ctx : t) (effect : Effect.t) : t :=
  mk (model ctx) (effects ctx ++ [effect]) (diagnostics ctx) (foreign ctx).
Definition note (ctx : t) (diagnostic : Diagnostic.t) : t :=
  mk (model ctx) (effects ctx) (diagnostics ctx ++ [diagnostic]) (foreign ctx).
(** [ctx.foreign.push(..)]. *)
Definition hand_off (ctx : t) (handoff : ForeignHandoff.t) : t :=
  mk (model ctx) (effects ctx) (diagnostics ctx) (foreign ctx ++ [handoff]).

(** The per-update budgets. *)
Definition finish (ctx : t) : Transition.t :=
  let limits := (model ctx).(Membership.limits) in
  let effect_cap := limits.(LimitsSpec.max_effects_per_update) in
  let produced := lenN (effects ctx) in
  let '(effects, diagnostics) :=
    if (effect_cap <? produced)%N
    then (takeN effect_cap (effects ctx),
          diagnostics ctx ++ [Diagnostic.EffectBudgetExceeded produced effect_cap])
    else (effects ctx, diagnostics ctx) in
  let diagnostic_cap := limits.(LimitsSpec.max_diagnostics_per_update) in
  let diagnostics :=
    if (diagnostic_cap <? lenN diagnostics)%N
    then takeN (diagnostic_cap - 1) diagnostics
         ++ [Diagnostic.DiagnosticBudgetExceeded diagnostic_cap]
    else diagnostics in
  Transition.mk (model ctx) effects diagnostics (foreign ctx).

Definition outbound (ctx : t) (body : OutboundBody.t) : OutboundMessage.t * t :=
  let '(seq, m) := Membership.take_seq (model ctx) in
  let count := m.(Membership.limits).(LimitsSpec.max_gossip_per_message) in
  let hops := Limits.effective_gossip_hops m.(Membership.limits) (Membership.scale_size m) in
  let '(gossip, queue) := GossipQueue.take m.(Membership.gossip) count hops in
  (OutboundMessage.mk body seq gossip, set_model ctx (Membership.set_gossip m queue)).

Definition outbound_bare (ctx : t) (body : OutboundBody.t) : OutboundMessage.t * t :=
  let '(seq, m) := Membership.take_seq (model ctx) in
  (OutboundMessage.mk body seq [], set_model ctx m).

Definition send_to (ctx : t) (target : NodeId.t) (body : OutboundBody.t) : t :=
  let '(message, ctx) := outbound ctx body in
  emit ctx (Effect.Send (Destination.Member target) message).

Definition reply_to (ctx : t) (session : SessionId.t) (body : OutboundBody.t) : t :=
  let '(message, ctx) := outbound_bare ctx body in
  emit ctx (Effect.Send (Destination.Session session) message).

(** [ctx.model.next_correlation()]. *)
Definition correlation (ctx : t) : N * t :=
  let '(n, m) := Membership.take_correlation (model ctx) in (n, set_model ctx m).

Definition timer (ctx : t) (kind : TimerKind.t) : TimerToken.t * t :=
  let '(generation, ctx) := correlation ctx in (TimerToken.mk kind generation, ctx).

Definition arm (ctx : t) (token : TimerToken.t) (delay : DurationMillis.t) : t :=
  emit ctx (Effect.ArmTimer token delay).
Definition cancel (ctx : t) (token : TimerToken.t) : t := emit ctx (Effect.CancelTimer token).

Definition request_peers (ctx : t) (purpose : SelectionPurpose.t) (count : N) : t :=
  let limit := (model ctx).(Membership.limits).(LimitsSpec.max_pending_probes) in
  let held := map_len (model ctx).(Membership.selections) in
  if (limit <=? held)%N then
    note ctx (Diagnostic.LimitExceeded "maxPendingProbes" (held + 1) limit)
  else
    let '(n, ctx) := correlation ctx in
    let request := SelectionId.mk n in
    let ctx := set_model ctx
                 (Membership.set_selections (model ctx)
                    (<[request := purpose]> (model ctx).(Membership.selections))) in
    emit ctx (Effect.SelectPeers request purpose count [Membership.local_id (model ctx)]).

(** [gossip_mut().enqueue(..)]. *)
Definition enqueue (ctx : t) (body : DeltaBody.t) : t :=
  let m := model ctx in
  set_model ctx
    (Membership.set_gossip m (GossipQueue.enqueue m.(Membership.gossip) body m.(Membership.limits))).
End Context.
Import Context (set_model, emit, note, hand_off, send_to, reply_to, correlation, arm, cancel,
  request_peers, enqueue).

(** The map accessors the handlers mutate through. *)
Definition update_members (ctx : Context.t)
    (f : gmap NodeId.t Member.t → gmap NodeId.t Member.t) : Context.t :=
  set_model ctx (Membership.set_members (Context.model ctx)
                   (f (Context.model ctx).(Membership.members))).
Definition update_probes (ctx : Context.t)
    (f : gmap ProbeId.t PendingProbe.t → gmap ProbeId.t PendingProbe.t) : Context.t :=
  set_model ctx (Membership.set_probes (Context.model ctx)
                   (f (Context.model ctx).(Membership.probes))).
Definition update_suspicions (ctx : Context.t)
    (f : gmap NodeId.t Suspicion.t → gmap NodeId.t Suspicion.t) : Context.t :=
  set_model ctx (Membership.set_suspicions (Context.model ctx)
                   (f (Context.model ctx).(Membership.suspicions))).
Definition update_admissions (ctx : Context.t)
    (f : gmap SessionId.t PendingAdmission.t → gmap SessionId.t PendingAdmission.t) : Context.t :=
  set_model ctx (Membership.set_admissions (Context.model ctx)
                   (f (Context.model ctx).(Membership.admissions))).

(** ** Absorbing merge results *)

(** Refuting a suspicion of this node: only the subject raises its own
    incarnation. *)
Definition refute (ctx : Context.t) (challenged : Incarnation.t) : Context.t :=
  let current := Incarnation.max (Context.model ctx).(Membership.incarnation) challenged in
  match Incarnation.checked_next current with
  | None => note ctx Diagnostic.IncarnationExhausted
  | Some next =>
    let ctx := set_model ctx (Membership.set_incarnation (Context.model ctx) next) in
    let local := Membership.local_id (Context.model ctx) in
    match (Context.model ctx).(Membership.members) !! local with
    | None => ctx
    | Some member =>
      let from := Member.liveness member in
      let member := Member.set_liveness member Liveness.Alive next in
      let member := match VersionTuple.checked_successor (Member.version member) local with
                    | Some version => Member.set_version member version
                    | None => member
                    end in
      let ctx := update_members ctx (<[local := member]>) in
      let ctx := enqueue ctx (DeltaBody.MembershipUpdate member) in
      let ctx := emit ctx (Effect.Publish
                             (ChangeRecord.LivenessChanged local from Liveness.Alive next)) in
      request_peers ctx (SelectionPurpose.Announce Announcement.Alive local next)
        (Context.model ctx).(Membership.limits).(LimitsSpec.indirect_probe_count)
    end
  end.

Definition absorb_outcome (ctx : Context.t) (outcome : MergeOutcome.t) : Context.t :=
  match outcome with
  | MergeOutcome.Adopted body change diagnostic =>
    let ctx := enqueue ctx body in
    let ctx := match change with
               | Some change => emit ctx (Effect.Publish change)
               | None => ctx
               end in
    match diagnostic with Some diagnostic => note ctx diagnostic | None => ctx end
  | MergeOutcome.Idempotent => ctx
  | MergeOutcome.Rejected diagnostic => note ctx diagnostic
  | MergeOutcome.SelfChallenged incarnation => refute ctx incarnation
  | MergeOutcome.SelfRemoved tombstone =>
    emit ctx (Effect.Publish
                (ChangeRecord.MemberRemoved (MembershipTombstone.node_id tombstone)
                   (MembershipTombstone.removal_mode tombstone)))
  end.

(** [merge_delta] and [apply_announcement] on the model being built. *)
Definition merge_into (ctx : Context.t) (body : DeltaBody.t) : Context.t :=
  let '(m, outcome) := merge_delta (Context.model ctx) body in
  absorb_outcome (set_model ctx m) outcome.

(** The body of the loops over received deltas. *)
Definition absorb_body (ctx : Context.t) (from : option NodeId.t) (body : DeltaBody.t)
    : Context.t :=
  match body with
  | DeltaBody.Foreign foreign => hand_off ctx (ForeignHandoff.mk from foreign)
  | body => merge_into ctx body
  end.

Definition absorb_gossip (ctx : Context.t) (from : option NodeId.t) (deltas : list GossipDelta.t)
    : Context.t :=
  let m := Context.model ctx in
  let limit := m.(Membership.limits).(LimitsSpec.max_gossip_per_inbound_message) in
  let ctx := if (limit <? lenN deltas)%N
             then note ctx (Diagnostic.LimitExceeded "maxGossipPerInboundMessage"
                              (lenN deltas) limit)
             else ctx in
  let max_hops := Limits.effective_gossip_hops m.(Membership.limits) (Membership.scale_size m) in
  foldl (λ ctx delta,
      if (saturating_mul u32_max max_hops 2 <? GossipDelta.hops delta)%N
      then note ctx (Diagnostic.StaleDelta (DeltaBody.entity (GossipDelta.body delta)))
      else absorb_body ctx from (GossipDelta.body delta))
    ctx (takeN limit deltas).

Definition observe_alive (ctx : Context.t) (sender : NodeId.t) (incarnation : Incarnation.t)
    : Context.t :=
  let '(m, outcome) :=
    apply_announcement (Context.model ctx) sender Announcement.Alive sender incarnation in
  let ctx := set_model ctx m in
  match outcome with
  | MergeOutcome.Rejected (Diagnostic.StaleDelta _) => ctx
  | other => absorb_outcome ctx other
  end.

(** ** SWIM probing *)

Definition remind_suspected_subject (ctx : Context.t) (subject : NodeId.t) : Context.t :=
  match Membership.member (Context.model ctx) subject with
  | Some member =>
    if decide (Member.liveness member = Liveness.Suspected) then
      send_to ctx subject
        (OutboundBody.Announce Announcement.Suspect subject (Member.incarnation member))
    else ctx
  | None => ctx
  end.

(** [suspect] and [declare_dead] announce on this node's own behalf; the
    second component is [matches!(outcome, Adopted { .. })]. *)
Definition announce_locally (ctx : Context.t) (announcement : Announcement.t) (target : NodeId.t)
    (incarnation : Incarnation.t) : bool * Context.t :=
  let local := Membership.local_id (Context.model ctx) in
  let '(m, outcome) :=
    apply_announcement (Context.model ctx) local announcement target incarnation in
  let adopted := match outcome with MergeOutcome.Adopted _ _ _ => true | _ => false end in
  (adopted, absorb_outcome (set_model ctx m) outcome).

Definition suspect (ctx : Context.t) (target : NodeId.t) (incarnation : Incarnation.t)
    : Context.t :=
  let '(adopted, ctx) := announce_locally ctx Announcement.Suspect target incarnation in
  if negb adopted then ctx
  else
    let '(timer, ctx) := Context.timer ctx TimerKind.Suspicion in
    let ctx := update_suspicions ctx (<[target := Suspicion.mk incarnation timer]>) in
    let ctx := arm ctx timer (Membership.suspicion_timeout (Context.model ctx)) in
    request_peers ctx (SelectionPurpose.Announce Announcement.Suspect target incarnation)
      (Context.model ctx).(Membership.limits).(LimitsSpec.indirect_probe_count).

Definition declare_dead (ctx : Context.t) (target : NodeId.t) (incarnation : Incarnation.t)
    : Context.t :=
  let '(adopted, ctx) := announce_locally ctx Announcement.Dead target incarnation in
  if negb adopted then ctx
  else
    request_peers ctx (SelectionPurpose.Announce Announcement.Dead target incarnation)
      (Context.model ctx).(Membership.limits).(LimitsSpec.indirect_probe_count).

Definition handle_ack (ctx : Context.t) (sender : NodeId.t) (probe : ProbeId.t)
    (incarnation : Incarnation.t) : Context.t :=
  match (Context.model ctx).(Membership.probes) !! probe with
  | None => note ctx (Diagnostic.UnknownProbe probe)
  | Some pending =>
    if decide (PendingProbe.target pending ≠ sender) then
      note ctx (Diagnostic.ProbeMismatch probe
                  "acknowledgement came from a node other than the probe target")
    else
      let ctx := update_probes ctx (delete probe) in
      let ctx := cancel ctx (PendingProbe.timer pending) in
      let ctx := observe_alive ctx sender incarnation in
      let ctx := remind_suspected_subject ctx sender in
      match PendingProbe.phase pending with
      | ProbePhase.Relay requester requester_probe =>
        send_to ctx requester
          (OutboundBody.PingReply requester_probe sender (IndirectResult.Ack incarnation))
      | _ => ctx
      end
  end.

(** A probe of [target] entering the pending set, and the ping it sends. *)
Definition open_probe (ctx : Context.t) (target : NodeId.t) (phase : ProbePhase.t) : Context.t :=
  let '(n, ctx) := correlation ctx in
  let probe := ProbeId.mk n in
  let '(timer, ctx) := Context.timer ctx TimerKind.DirectProbe in
  let target_incarnation := match Membership.member (Context.model ctx) target with
                            | Some member => Member.incarnation member
                            | None => Incarnation.INITIAL
                            end in
  let ctx := update_probes ctx
               (<[probe := PendingProbe.mk probe target target_incarnation phase timer]>) in
  let ctx := send_to ctx target
               (OutboundBody.Ping probe (Context.model ctx).(Membership.incarnation)) in
  arm ctx timer (Context.model ctx).(Membership.limits).(LimitsSpec.probe_timeout).

Definition handle_ping_req (ctx : Context.t) (requester : NodeId.t) (probe : ProbeId.t)
    (target : NodeId.t) : Context.t :=
  let m := Context.model ctx in
  let reply ctx result :=
    send_to ctx requester (OutboundBody.PingReply probe target result) in
  if decide (target = Membership.local_id m) then
    reply ctx (IndirectResult.Ack m.(Membership.incarnation))
  else if bool_decide (Membership.member m target = None) || Membership.is_tombstoned m target then
    reply ctx IndirectResult.NoSuchPeer
  else
    let limit := m.(Membership.limits).(LimitsSpec.max_pending_probes) in
    if (limit <=? map_len m.(Membership.probes))%N then
      let ctx := note ctx (Diagnostic.LimitExceeded "maxPendingProbes"
                             (map_len m.(Membership.probes) + 1) limit) in
      reply ctx IndirectResult.NoSuchPeer
    else open_probe ctx target (ProbePhase.Relay requester probe).

Definition handle_ping_reply (ctx : Context.t) (sender : NodeId.t) (probe : ProbeId.t)
    (target : NodeId.t) (result : IndirectResult.t) : Context.t :=
  match (Context.model ctx).(Membership.probes) !! probe with
  | None => note ctx (Diagnostic.UnknownProbe probe)
  | Some pending =>
    if decide (PendingProbe.target pending ≠ target) then
      note ctx (Diagnostic.ProbeMismatch probe "reply names a different target than the probe")
    else
      match PendingProbe.phase pending with
      | ProbePhase.Indirect helpers answered =>
        if decide (sender ∉ helpers) then
          note ctx (Diagnostic.ProbeMismatch probe
                      "reply came from a node that was not asked to probe")
        else
          match result with
          | IndirectResult.Ack incarnation =>
            let ctx := update_probes ctx (delete probe) in
            let ctx := cancel ctx (PendingProbe.timer pending) in
            observe_alive ctx target incarnation
          | _ =>
            if decide (sender ∈ answered) then ctx
            else
              let answered := {[ sender ]} ∪ answered in
              let everyone_failed := (lenN helpers <=? N.of_nat (size answered))%N in
              let ctx := update_probes ctx
                           (alter (λ entry, PendingProbe.set_phase entry
                                              (ProbePhase.Indirect helpers answered)) probe) in
              if everyone_failed then
                let ctx := update_probes ctx (delete probe) in
                let ctx := cancel ctx (PendingProbe.timer pending) in
                suspect ctx target (PendingProbe.target_incarnation pending)
              else ctx
          end
      | _ =>
        note ctx (Diagnostic.ProbeMismatch probe
                    "reply arrived for a probe that is not in its indirect phase")
      end
  end.

Definition start_direct_probe (ctx : Context.t) (target : NodeId.t) : Context.t :=
  let m := Context.model ctx in
  let limit := m.(Membership.limits).(LimitsSpec.max_pending_probes) in
  if (limit <=? map_len m.(Membership.probes))%N then
    note ctx (Diagnostic.LimitExceeded "maxPendingProbes"
                (map_len m.(Membership.probes) + 1) limit)
  else open_probe ctx target ProbePhase.Direct.

(** ** Timers *)

Definition handle_probe_timer (ctx : Context.t) (token : TimerToken.t) : Context.t :=
  match List.find (λ probe, bool_decide (PendingProbe.timer probe = token))
          (btree_values (Context.model ctx).(Membership.probes)) with
  | None => note ctx (Diagnostic.StaleTimer token)
  | Some pending =>
    let id := PendingProbe.id pending in
    match PendingProbe.phase pending with
    | ProbePhase.Direct =>
      let '(timer, ctx) := Context.timer ctx TimerKind.IndirectProbe in
      let ctx := update_probes ctx
                   (alter (λ entry, PendingProbe.set_phase (PendingProbe.set_timer entry timer)
                                      (ProbePhase.Indirect [] ∅)) id) in
      let limits := (Context.model ctx).(Membership.limits) in
      let ctx := arm ctx timer limits.(LimitsSpec.indirect_probe_timeout) in
      request_peers ctx (SelectionPurpose.IndirectProbe id)
        limits.(LimitsSpec.indirect_probe_count)
    | ProbePhase.Indirect _ _ =>
      let ctx := update_probes ctx (delete id) in
      suspect ctx (PendingProbe.target pending) (PendingProbe.target_incarnation pending)
    | ProbePhase.Relay requester requester_probe =>
      let ctx := update_probes ctx (delete id) in
      send_to ctx requester
        (OutboundBody.PingReply requester_probe (PendingProbe.target pending)
           IndirectResult.Timeout)
    end
  end.

Definition handle_suspicion_timer (ctx : Context.t) (token : TimerToken.t) : Context.t :=
  match List.find (λ ts : NodeId.t * Suspicion.t, bool_decide (Suspicion.timer ts.2 = token))
          (btree_entries (Context.model ctx).(Membership.suspicions)) with
  | None => note ctx (Diagnostic.StaleTimer token)
  | Some (target, suspicion) =>
    let ctx := update_suspicions ctx (delete target) in
    declare_dead ctx target (Suspicion.incarnation suspicion)
  end.

Definition set_anti_entropy (ctx : Context.t) (round : option AntiEntropyRound.t) : Context.t :=
  set_model ctx (Membership.set_anti_entropy (Context.model ctx) round).
Definition set_join_attempt (ctx : Context.t) (attempt : option JoinAttempt.t) : Context.t :=
  set_model ctx (Membership.set_join_attempt (Context.model ctx) attempt).

Definition handle_anti_entropy_timer (ctx : Context.t) (token : TimerToken.t) : Context.t :=
  match (Context.model ctx).(Membership.anti_entropy) with
  | Some round =>
    if decide (AntiEntropyRound.timer round = token) then
      let ctx := set_anti_entropy ctx None in
      note ctx (Diagnostic.AntiEntropyAbandoned (AntiEntropyRound.peer round)
                  (AntiEntropyRound.exchanges round))
    else note ctx (Diagnostic.StaleTimer token)
  | None => note ctx (Diagnostic.StaleTimer token)
  end.

Definition join_request_body (model : Membership.t) : OutboundBody.t :=
  let local := model.(Membership.local) in
  OutboundBody.JoinRequest (LocalIdentity.worker_name local) (LocalIdentity.cert_fingerprint local)
    (LocalIdentity.protocol local) (LocalIdentity.endpoints local) (LocalIdentity.accepts local)
    (LocalIdentity.capacity local) (LocalIdentity.capabilities local).

Definition retry_join (ctx : Context.t) (attempt : JoinAttempt.t) : Context.t :=
  let ctx := cancel ctx (JoinAttempt.timer attempt) in
  let next := saturating_add u32_max (JoinAttempt.attempt attempt) 1 in
  if ((Context.model ctx).(Membership.limits).(LimitsSpec.max_join_attempts) <? next)%N then
    let ctx := set_join_attempt ctx None in
    note ctx (Diagnostic.JoinAbandoned (JoinAttempt.attempt attempt))
  else
    let '(timer, ctx) := Context.timer ctx TimerKind.JoinRetry in
    let body := join_request_body (Context.model ctx) in
    let ctx := set_join_attempt ctx (Some (JoinAttempt.retry attempt next timer)) in
    let ctx := reply_to ctx (JoinAttempt.session attempt) body in
    arm ctx timer (Limits.join_backoff_for (Context.model ctx).(Membership.limits) next).

Definition handle_join_timer (ctx : Context.t) (token : TimerToken.t) : Context.t :=
  match (Context.model ctx).(Membership.join_attempt) with
  | Some attempt =>
    if decide (JoinAttempt.timer attempt = token) then retry_join ctx attempt
    else note ctx (Diagnostic.StaleTimer token)
  | None => note ctx (Diagnostic.StaleTimer token)
  end.

Definition handle_timer (ctx : Context.t) (token : TimerToken.t) : Context.t :=
  match TimerToken.kind token with
  | TimerKind.DirectProbe | TimerKind.IndirectProbe => handle_probe_timer ctx token
  | TimerKind.Suspicion => handle_suspicion_timer ctx token
  | TimerKind.AntiEntropy => handle_anti_entropy_timer ctx token
  | TimerKind.JoinRetry => handle_join_timer ctx token
  end.

(** ** Admission, introducer side *)

Definition refuse_admission (ctx : Context.t) (session : SessionId.t) (name : WorkerName.t)
    (reason : RejectReason.t) : Context.t :=
  let ctx := update_admissions ctx (delete session) in
  let publish ctx := emit ctx (Effect.Publish (ChangeRecord.AdmissionRejected name reason)) in
  let candidates := redirect_candidates (Context.model ctx) in
  if decide (reason = RejectReason.CapacityExhausted ∧ candidates ≠ []) then
    publish (reply_to ctx session (OutboundBody.JoinRedirect candidates))
  else publish (reply_to ctx session (OutboundBody.JoinRejected reason)).

Definition handle_join_request (ctx : Context.t) (context : PeerContext.t)
    (endpoints : Endpoints.t) (accepts : Accepts.t) (capacity : NodeCapacity.t)
    (capabilities : Capabilities.t) : Context.t :=
  match PeerContext.sender context with
  | SenderIdentity.Admitted_ _ =>
    note ctx (Diagnostic.Unexpected "join request claiming an already-assigned node ID")
  | SenderIdentity.Applicant name =>
    let m := Context.model ctx in
    let session := PeerContext.session context in
    let fingerprint := PeerContext.cert_fingerprint context in
    let protocol := PeerContext.protocol context in
    let formation_matches :=
      bool_decide (PeerContext.formation context = m.(Membership.formation)) in
    match evaluate_local_gates m (PeerContext.authenticated context) formation_matches
            protocol name fingerprint with
    | Err reason => refuse_admission ctx session name reason
    | Ok _ =>
      let local := Membership.local_id m in
      let candidate := Member.mk local name fingerprint protocol Liveness.Alive
                         Incarnation.INITIAL (VersionTuple.initial 0 local)
                         endpoints accepts capacity capabilities in
      match Member.validate candidate m.(Membership.limits) with
      | Err error =>
        refuse_admission ctx session name
          (RejectReason.MalformedRequest (ValidationError.to_string error))
      | Ok _ =>
        let limit := m.(Membership.limits).(LimitsSpec.max_pending_joins) in
        if (limit <=? map_len m.(Membership.admissions))%N then
          refuse_admission ctx session name RejectReason.Overloaded
        else
          let '(n, ctx) := correlation ctx in
          let request := VerificationId.mk n in
          let ctx := update_admissions ctx
                       (<[session := PendingAdmission.mk session name fingerprint protocol
                                       endpoints accepts capacity capabilities
                                       (AdmissionStage.AwaitingEvidence request)]>) in
          emit ctx (Effect.VerifyCredential request session
                      (CredentialKind.JoinToken name fingerprint
                         (blocked_networks (Context.model ctx))))
      end
    end
  end.

Definition handle_credential_verified (ctx : Context.t) (request : VerificationId.t)
    (session : SessionId.t) (evidence : AdmissionEvidence.t) : Context.t :=
  match (Context.model ctx).(Membership.admissions) !! session with
  | None => note ctx (Diagnostic.UnknownCorrelation "credential verification")
  | Some pending =>
    if decide (PendingAdmission.stage pending ≠ AdmissionStage.AwaitingEvidence request) then
      note ctx (Diagnostic.UnknownCorrelation "superseded credential verification")
    else
      match evaluate_evidence evidence with
      | Err reason => refuse_admission ctx session (PendingAdmission.name pending) reason
      | Ok _ =>
        match evaluate_local_gates (Context.model ctx) true true
                (PendingAdmission.protocol pending) (PendingAdmission.name pending)
                (PendingAdmission.cert_fingerprint pending) with
        | Err reason => refuse_admission ctx session (PendingAdmission.name pending) reason
        | Ok _ =>
          let '(n, ctx) := correlation ctx in
          let allocation := AllocationId.mk n in
          let ctx := update_admissions ctx
                       (alter (λ entry, PendingAdmission.set_stage entry
                                          (AdmissionStage.AwaitingNodeId allocation)) session) in
          emit ctx (Effect.AllocateNodeId allocation session)
        end
      end
  end.

Definition handle_node_id_allocated (ctx : Context.t) (request : AllocationId.t)
    (session : SessionId.t) (node_id : NodeId.t) : Context.t :=
  let m := Context.model ctx in
  match m.(Membership.admissions) !! session with
  | None => note ctx (Diagnostic.UnknownCorrelation "node ID allocation")
  | Some pending =>
    if decide (PendingAdmission.stage pending ≠ AdmissionStage.AwaitingNodeId request) then
      note ctx (Diagnostic.UnknownCorrelation "superseded node ID allocation")
    else if bool_decide (is_Some (Membership.member m node_id))
            || Membership.has_tombstone m node_id then
      refuse_admission ctx session (PendingAdmission.name pending) RejectReason.IdentityCollision
    else
      match evaluate_local_gates m true true (PendingAdmission.protocol pending)
              (PendingAdmission.name pending) (PendingAdmission.cert_fingerprint pending) with
      | Err reason => refuse_admission ctx session (PendingAdmission.name pending) reason
      | Ok _ =>
        let member :=
          Member.mk node_id (PendingAdmission.name pending)
            (PendingAdmission.cert_fingerprint pending) (PendingAdmission.protocol pending)
            Liveness.Alive Incarnation.INITIAL (VersionTuple.initial 0 (Membership.local_id m))
            (PendingAdmission.endpoints pending) (PendingAdmission.accepts pending)
            (PendingAdmission.capacity pending) (PendingAdmission.capabilities pending) in
        let ctx := update_members ctx (<[node_id := member]>) in
        let ctx := update_admissions ctx (delete session) in
        let m := Context.model ctx in
        let snapshot := takeN m.(Membership.limits).(LimitsSpec.max_snapshot_members)
                          (btree_values m.(Membership.members)) in
        let ctx := reply_to ctx session
                     (OutboundBody.JoinAccepted m.(Membership.formation)
                        m.(Membership.cluster_name) node_id snapshot) in
        let ctx := enqueue ctx (DeltaBody.MembershipUpdate member) in
        emit ctx (Effect.Publish
                    (ChangeRecord.MemberAdmitted node_id (PendingAdmission.name pending)))
      end
  end.

(** ** Admission, joiner side *)

(** The refusal is the diagnostic the code notes before it returns [false]. *)
Definition limits_protocol_ok (model : Membership.t) (member : Member.t)
    : result Diagnostic.t unit :=
  if ProtocolRange.accepts (AdmissionPolicy.protocol_range model.(Membership.policy))
       (Member.protocol member)
  then Ok ()
  else Err (Diagnostic.JoinReplyInvalid
              "snapshot contains a member speaking an incompatible protocol version").

(** One member of the snapshot. *)
Definition collect_snapshot_member (model : Membership.t) (members : gmap NodeId.t Member.t)
    (member : Member.t) : result Diagnostic.t (gmap NodeId.t Member.t) :=
  _ ← result_map_err
        (λ error, Diagnostic.MalformedRecord ("snapshot:" +:+ NodeId.as_str (Member.id member))
                    error)
        (Member.validate member model.(Membership.limits));
  _ ← limits_protocol_ok model member;
  if contains_key (Member.id member) members then
    Err (Diagnostic.JoinReplyInvalid "snapshot contains duplicate node identities")
  else Ok (<[Member.id member := member]> members).

(** The checks of an accepted reply: the members to adopt, or the reason not to. *)
Definition check_accepted_reply (model : Membership.t) (attempt : JoinAttempt.t)
    (context : PeerContext.t) (formation : FormationId.t) (assigned : NodeId.t)
    (snapshot : list Member.t) (snapshot_bytes : N)
    : result Diagnostic.t (gmap NodeId.t Member.t) :=
  let limits := model.(Membership.limits) in
  if decide (formation ≠ JoinAttempt.target_formation attempt) then
    Err (Diagnostic.JoinReplyInvalid
           "reply assigns a formation other than the one being joined")
  else if (limits.(LimitsSpec.max_snapshot_bytes) <? snapshot_bytes)%N then
    Err (Diagnostic.LimitExceeded "maxSnapshotBytes" snapshot_bytes
           limits.(LimitsSpec.max_snapshot_bytes))
  else if (limits.(LimitsSpec.max_snapshot_members) <? lenN snapshot)%N then
    Err (Diagnostic.LimitExceeded "maxSnapshotMembers" (lenN snapshot)
           limits.(LimitsSpec.max_snapshot_members))
  else
    members ← try_fold (collect_snapshot_member model) ∅ snapshot;
    match members !! assigned with
    | None =>
      Err (Diagnostic.JoinReplyInvalid
             "snapshot omits the entry for the newly assigned identity")
    | Some self_entry =>
      if decide (Member.cert_fingerprint self_entry
                 ≠ LocalIdentity.cert_fingerprint model.(Membership.local)) then
        Err (Diagnostic.JoinReplyInvalid
               "snapshot entry for this node pins a different certificate")
      else if decide (Member.name self_entry
                      ≠ LocalIdentity.worker_name model.(Membership.local)) then
        Err (Diagnostic.JoinReplyInvalid
               "snapshot entry for this node carries a different label")
      else if negb (ProtocolRange.accepts
                      (AdmissionPolicy.protocol_range model.(Membership.policy))
                      (PeerContext.protocol context)) then
        Err (Diagnostic.JoinReplyInvalid
               "introducer speaks an incompatible protocol version")
      else Ok members
    end.

Definition adopt_formation (ctx : Context.t) (attempt : JoinAttempt.t) (context : PeerContext.t)
    (formation : FormationId.t) (cluster_name : ClusterName.t) (assigned : NodeId.t)
    (snapshot : list Member.t) (snapshot_bytes : N) : Context.t :=
  match check_accepted_reply (Context.model ctx) attempt context formation assigned snapshot
          snapshot_bytes with
  | Err diagnostic => note ctx diagnostic
  | Ok members =>
    let previous := (Context.model ctx).(Membership.formation) in
    let ctx := set_model ctx
                 (Membership.adopt_formation (Context.model ctx) formation cluster_name assigned
                    members) in
    emit ctx (Effect.Publish (ChangeRecord.FormationAdopted previous formation assigned))
  end.

Definition handle_join_reply (ctx : Context.t) (context : PeerContext.t) (reply : JoinReply.t)
    : Context.t :=
  match (Context.model ctx).(Membership.join_attempt) with
  | None => note ctx (Diagnostic.Unexpected "join reply with no join attempt in progress")
  | Some attempt =>
    if decide (PeerContext.session context ≠ JoinAttempt.session attempt) then
      note ctx (Diagnostic.Unexpected
                  "join reply on a session other than the one the request went out on")
    else if decide (PeerContext.formation context ≠ JoinAttempt.target_formation attempt) then
      note ctx (Diagnostic.FormationMismatch (JoinAttempt.target_formation attempt)
                  (PeerContext.formation context))
    else
      match reply with
      | JoinReply.Rejected reason =>
        retry_join (note ctx (Diagnostic.JoinRejected reason)) attempt
      | JoinReply.Redirect candidates =>
        let max := (Context.model ctx).(Membership.limits).(LimitsSpec.max_redirects) in
        let ctx := if (max <? lenN candidates)%N
                   then note ctx (Diagnostic.LimitExceeded "maxRedirects" (lenN candidates) max)
                   else ctx in
        let attempt := JoinAttempt.set_redirects attempt (takeN max candidates) in
        retry_join (set_join_attempt ctx (Some attempt)) attempt
      | JoinReply.Accepted formation cluster_name assigned snapshot snapshot_bytes =>
        adopt_formation ctx attempt context formation cluster_name assigned snapshot
          snapshot_bytes
      end
  end.

(** ** Local commands *)

Definition begin_join (ctx : Context.t) (session : SessionId.t)
    (target_formation : FormationId.t) : Context.t :=
  match (Context.model ctx).(Membership.join_attempt) with
  | Some _ => note ctx (Diagnostic.Unexpected "begin join while another attempt is pending")
  | None =>
    let '(timer, ctx) := Context.timer ctx TimerKind.JoinRetry in
    let ctx := set_join_attempt ctx (Some (JoinAttempt.mk session target_formation 1 [] timer)) in
    let ctx := reply_to ctx session (join_request_body (Context.model ctx)) in
    arm ctx timer (Limits.join_backoff_for (Context.model ctx).(Membership.limits) 1)
  end.

Definition rebind_join (ctx : Context.t) (previous_session session : SessionId.t)
    (target_formation : FormationId.t) : Context.t :=
  let refused := note ctx (Diagnostic.Unexpected
                             "join replacement does not match the pending attempt") in
  match (Context.model ctx).(Membership.join_attempt) with
  | Some attempt =>
    if decide (JoinAttempt.session attempt = previous_session ∧ session ≠ previous_session
               ∧ JoinAttempt.target_formation attempt = target_formation)
    then retry_join ctx (JoinAttempt.set_session attempt session)
    else refused
  | None => refused
  end.

(** [None] is the panic of [expect]. *)
Definition handle_leave (ctx : Context.t) (formation : FormationId.t) (node_id : NodeId.t)
    (cluster_name : ClusterName.t) : option Context.t :=
  let m := Context.model ctx in
  let local := Membership.local_id m in
  let incarnation := m.(Membership.incarnation) in
  let previous := m.(Membership.formation) in
  let notify :=
    takeN (saturating_mul usize_max m.(Membership.limits).(LimitsSpec.indirect_probe_count) 2)
      (Member.id <$> filter (λ member, Member.id member ≠ local
                                       ∧ Member.liveness member = Liveness.Alive)
                       (btree_values m.(Membership.members))) in
  let ctx := foldl (λ ctx peer,
                 send_to ctx peer (OutboundBody.Announce Announcement.Leave local incarnation))
               ctx notify in
  let m := Context.model ctx in
  match Membership.standalone formation cluster_name
          (LocalIdentity.set_node_id m.(Membership.local) node_id)
          m.(Membership.policy) m.(Membership.limits) with
  | Ok fresh =>
    Some (emit (set_model ctx fresh)
            (Effect.Publish (ChangeRecord.FormationLeft previous local)))
  | Err _ => None
  end.

Definition version_counter_exhausted : Diagnostic.t :=
  Diagnostic.LimitExceeded "versionCounter" 0 0.

Definition handle_remove (ctx : Context.t) (node : NodeId.t) (mode : RemovalMode.t)
    (reason : option string) : Context.t :=
  let m := Context.model ctx in
  if Membership.membership_locked m then
    note ctx (Diagnostic.Unexpected "membership is locked")
  else if decide (node = Membership.local_id m) then
    note ctx (Diagnostic.Unexpected "operator asked this node to remove itself; use Leave")
  else
    match Membership.member m node with
    | None => note ctx (Diagnostic.UnknownSender node)
    | Some member =>
      match local_successor m (Member.version member) with
      | None => note ctx version_counter_exhausted
      | Some version =>
        merge_into ctx
          (DeltaBody.TombstoneUpdate
             (MembershipTombstone.mk node (Member.name member) (Member.cert_fingerprint member)
                mode version false reason))
      end
    end.

Definition handle_clear_tombstone (ctx : Context.t) (node : NodeId.t) : Context.t :=
  let m := Context.model ctx in
  match m.(Membership.tombstones) !! node with
  | None => note ctx (Diagnostic.Unexpected "no tombstone to clear for that identity")
  | Some current =>
    if MembershipTombstone.cleared current then ctx
    else
      match local_successor m (MembershipTombstone.version current) with
      | None => note ctx version_counter_exhausted
      | Some version =>
        let cleared :=
          MembershipTombstone.mk (MembershipTombstone.node_id current)
            (MembershipTombstone.name current) (MembershipTombstone.cert_fingerprint current)
            (MembershipTombstone.removal_mode current) version true
            (MembershipTombstone.reason current) in
        let ctx := set_model ctx (Membership.set_tombstones m
                                    (<[node := cleared]> m.(Membership.tombstones))) in
        enqueue ctx (DeltaBody.TombstoneUpdate cleared)
      end
  end.

Definition set_membership_lock (ctx : Context.t) (locked : bool) : Context.t :=
  let m := Context.model ctx in
  if bool_decide (Membership.membership_locked m = locked) then ctx
  else
    let previous := match m.(Membership.membership_policy) with
                    | Some policy => MembershipPolicy.version policy
                    | None => VersionTuple.initial 0 (Membership.local_id m)
                    end in
    match VersionTuple.checked_successor previous (Membership.local_id m) with
    | None => note ctx version_counter_exhausted
    | Some version =>
      merge_into ctx (DeltaBody.MembershipPolicyUpdate (MembershipPolicy.mk locked version))
    end.

Definition install_admission_baseline (ctx : Context.t) (baseline : AdmissionBaseline.t)
    : Context.t :=
  let snapshot := AdmissionBaseline.snapshot baseline in
  match Baseline.merge (Context.model ctx) baseline with
  | Ok staged =>
    let self_removed :=
      negb (contains_key (Membership.local_id staged) staged.(Membership.members)) in
    emit (set_model ctx staged)
      (Effect.Publish (ChangeRecord.AdmissionBaselineApplied snapshot self_removed))
  | Err reason =>
    emit (note ctx reason) (Effect.Publish (ChangeRecord.AdmissionBaselineRejected snapshot))
  end.

Definition start_probe_round (ctx : Context.t) : Context.t :=
  if (Membership.scale_size (Context.model ctx) <=? 1)%N then ctx
  else request_peers ctx SelectionPurpose.DirectProbe 1.

Definition start_anti_entropy_round (ctx : Context.t) : Context.t :=
  match (Context.model ctx).(Membership.anti_entropy) with
  | Some _ =>
    note ctx (Diagnostic.Unexpected
                "anti-entropy round requested while one is already in progress")
  | None =>
    if (Membership.scale_size (Context.model ctx) <=? 1)%N then ctx
    else request_peers ctx SelectionPurpose.AntiEntropy 1
  end.

Definition handle_command (ctx : Context.t) (command : Command.t) : option Context.t :=
  match command with
  | Command.InstallAdmissionBaseline baseline => Some (install_admission_baseline ctx baseline)
  | Command.BeginJoin session target_formation => Some (begin_join ctx session target_formation)
  | Command.RebindJoin previous_session session target_formation =>
    Some (rebind_join ctx previous_session session target_formation)
  | Command.Leave formation node_id cluster_name =>
    handle_leave ctx formation node_id cluster_name
  | Command.RemoveMember node mode reason => Some (handle_remove ctx node mode reason)
  | Command.ClearTombstone node => Some (handle_clear_tombstone ctx node)
  | Command.SetPolicy policy =>
    Some (set_model ctx (Membership.set_policy (Context.model ctx) policy))
  | Command.SetMembershipLock locked => Some (set_membership_lock ctx locked)
  | Command.UpdateBlocklist entry => Some (merge_into ctx (DeltaBody.BlocklistUpdate entry))
  | Command.StartProbeRound => Some (start_probe_round ctx)
  | Command.StartAntiEntropyRound => Some (start_anti_entropy_round ctx)
  end.

(** ** Anti-entropy *)

(** Requested buckets: in range, the first occurrence of each. *)
Fixpoint filter_seen (bucket_count : N) (seen : gset N) (buckets : list N) : list N :=
  match buckets with
  | [] => []
  | bucket :: buckets =>
    if (bucket <? bucket_count)%N && negb (bool_decide (bucket ∈ seen))
    then bucket :: filter_seen bucket_count ({[ bucket ]} ∪ seen) buckets
    else filter_seen bucket_count seen buckets
  end.

Definition digest_error_reason (error : DigestError.t) : string :=
  match error with
  | DigestError.Malformed => "digest is malformed"
  | DigestError.DepthMismatch _ _ => "digest depth differs"
  end.

Section update.
Context `{Sha256}.

Definition requested_buckets (tree : MembershipTree.t) (bucket_count : N)
    (digest : MerkleDigest.t) (buckets : list N) : result DigestError.t (list N) :=
  match buckets with
  | [] => MembershipTree.divergent_buckets tree digest
  | _ => Ok (takeN bucket_count (filter_seen bucket_count ∅ buckets))
  end.

Definition handle_pull_request (ctx : Context.t) (sender : NodeId.t) (round : N)
    (digest : MerkleDigest.t) (buckets : list N) (cursor : option AntiEntropyCursor.t)
    : Context.t :=
  let m := Context.model ctx in
  let tree := MembershipTree.build m in
  let bucket_count := Limits.anti_entropy_buckets m.(Membership.limits) in
  match requested_buckets tree bucket_count digest buckets with
  | Err error =>
    note ctx (Diagnostic.MalformedRecord ("digest:" +:+ NodeId.as_str sender)
                (ValidationError.Inconsistent "digest" (digest_error_reason error)))
  | Ok requested =>
    let batch := MembershipTree.collect tree requested cursor
                   m.(Membership.limits).(LimitsSpec.max_anti_entropy_entries) in
    send_to ctx sender
      (OutboundBody.PullReply round (MembershipTree.digest tree) (AntiEntropyBatch.deltas batch)
         (AntiEntropyBatch.complete batch) (AntiEntropyBatch.cursor batch))
  end.

(** A pull request to [peer], its deadline armed with [timer]. *)
Definition send_pull_request (ctx : Context.t) (peer : NodeId.t) (round : N)
    (cursor : option AntiEntropyCursor.t) (timer : TimerToken.t) : Context.t :=
  let digest := MembershipTree.digest (MembershipTree.build (Context.model ctx)) in
  let ctx := send_to ctx peer (OutboundBody.PullRequest round digest [] cursor) in
  arm ctx timer (Context.model ctx).(Membership.limits).(LimitsSpec.anti_entropy_timeout).

Definition handle_pull_reply (ctx : Context.t) (sender : NodeId.t) (round : N)
    (deltas : list GossipDelta.t) (complete : bool) (cursor : option AntiEntropyCursor.t)
    : Context.t :=
  match (Context.model ctx).(Membership.anti_entropy) with
  | None => note ctx (Diagnostic.Unexpected "anti-entropy reply with no round in progress")
  | Some current =>
    if decide (AntiEntropyRound.round current ≠ round ∨ AntiEntropyRound.peer current ≠ sender)
    then note ctx (Diagnostic.UnknownCorrelation "anti-entropy round")
    else
      let max := (Context.model ctx).(Membership.limits).(LimitsSpec.max_anti_entropy_entries) in
      let ctx := if (max <? lenN deltas)%N
                 then note ctx (Diagnostic.LimitExceeded "maxAntiEntropyEntries"
                                  (lenN deltas) max)
                 else ctx in
      let ctx := foldl (λ ctx delta, absorb_body ctx (Some sender) (GossipDelta.body delta))
                   ctx (takeN max deltas) in
      let ctx := cancel ctx (AntiEntropyRound.timer current) in
      if complete || bool_decide (cursor = None) then set_anti_entropy ctx None
      else
        let exchanges := saturating_add u32_max (AntiEntropyRound.exchanges current) 1 in
        if ((Context.model ctx).(Membership.limits).(LimitsSpec.max_anti_entropy_rounds)
            <=? exchanges)%N
        then note (set_anti_entropy ctx None) (Diagnostic.AntiEntropyAbandoned sender exchanges)
        else
          let '(timer, ctx) := Context.timer ctx TimerKind.AntiEntropy in
          let ctx := set_anti_entropy ctx
                       (Some (AntiEntropyRound.mk sender round cursor exchanges timer)) in
          send_pull_request ctx sender round cursor timer
  end.

(** ** Effect outcomes *)

(** A deferred delta goes back in the queue only while it is what is held. *)
Definition is_current (m : Membership.t) (body : DeltaBody.t) : bool :=
  match body with
  | DeltaBody.MembershipUpdate member =>
    bool_decide (Membership.member m (Member.id member) = Some member)
  | DeltaBody.TombstoneUpdate tombstone =>
    bool_decide (m.(Membership.tombstones) !! MembershipTombstone.node_id tombstone
                 = Some tombstone)
  | DeltaBody.BlocklistUpdate entry =>
    bool_decide (m.(Membership.blocklist) !! BlocklistEntry.key entry = Some entry)
  | DeltaBody.MembershipPolicyUpdate policy =>
    bool_decide (m.(Membership.membership_policy) = Some policy)
  | DeltaBody.Foreign _ => false
  end.

Definition handle_gossip_deferred (ctx : Context.t) (deltas : list GossipDelta.t) : Context.t :=
  let m := Context.model ctx in
  let limits := m.(Membership.limits) in
  if (limits.(LimitsSpec.max_gossip_per_message) <? lenN deltas)%N then
    note ctx (Diagnostic.LimitExceeded "maxGossipPerMessage" (lenN deltas)
                limits.(LimitsSpec.max_gossip_per_message))
  else
    let max_hops := Limits.effective_gossip_hops limits (Membership.scale_size m) in
    foldl (λ ctx delta,
        if (GossipDelta.hops delta =? 0)%N || (max_hops <? GossipDelta.hops delta)%N then ctx
        else if is_current (Context.model ctx) (GossipDelta.body delta) then
          let m := Context.model ctx in
          set_model ctx (Membership.set_gossip m
                           (GossipQueue.defer m.(Membership.gossip) delta max_hops limits))
        else ctx)
      ctx deltas.

Definition known_peer (m : Membership.t) (id : NodeId.t) : bool :=
  bool_decide (is_Some (Membership.member m id)).

(** The continuation of a selection, by what it was for. *)
Definition continue_selection (ctx : Context.t) (purpose : SelectionPurpose.t)
    (peers : list NodeId.t) : Context.t :=
  match purpose with
  | SelectionPurpose.DirectProbe =>
    match List.find (known_peer (Context.model ctx)) peers with
    | None => ctx
    | Some target => start_direct_probe ctx target
    end
  | SelectionPurpose.IndirectProbe probe =>
    match (Context.model ctx).(Membership.probes) !! probe with
    | None => ctx
    | Some pending =>
      let helpers :=
        takeN (Context.model ctx).(Membership.limits).(LimitsSpec.indirect_probe_count)
          (filter (λ id, id ≠ PendingProbe.target pending
                         ∧ known_peer (Context.model ctx) id = true) peers) in
      if decide (helpers = []) then
        let ctx := update_probes ctx (delete probe) in
        let ctx := cancel ctx (PendingProbe.timer pending) in
        suspect ctx (PendingProbe.target pending) (PendingProbe.target_incarnation pending)
      else
        let ctx := update_probes ctx
                     (alter (λ entry, PendingProbe.set_phase entry
                                        (ProbePhase.Indirect helpers ∅)) probe) in
        foldl (λ ctx helper,
            send_to ctx helper (OutboundBody.PingReq probe (PendingProbe.target pending)))
          ctx helpers
    end
  | SelectionPurpose.AntiEntropy =>
    match List.find (known_peer (Context.model ctx)) peers with
    | None => ctx
    | Some peer =>
      let '(round, ctx) := correlation ctx in
      let '(timer, ctx) := Context.timer ctx TimerKind.AntiEntropy in
      let ctx := set_anti_entropy ctx (Some (AntiEntropyRound.mk peer round None 0 timer)) in
      send_pull_request ctx peer round None timer
    end
  | SelectionPurpose.Announce announcement target incarnation =>
    let fan_out := (Context.model ctx).(Membership.limits).(LimitsSpec.indirect_probe_count) in
    foldl (λ ctx peer,
        if known_peer (Context.model ctx) peer
        then send_to ctx peer (OutboundBody.Announce announcement target incarnation)
        else ctx)
      ctx (takeN fan_out peers)
  end.

Definition handle_peers_selected (ctx : Context.t) (request : SelectionId.t)
    (peers : list NodeId.t) : Context.t :=
  let m := Context.model ctx in
  match m.(Membership.selections) !! request with
  | None => note ctx (Diagnostic.UnknownCorrelation "peer selection")
  | Some purpose =>
    continue_selection
      (set_model ctx (Membership.set_selections m (delete request m.(Membership.selections))))
      purpose peers
  end.

Definition handle_node_id_unavailable (ctx : Context.t) (request : AllocationId.t)
    (session : SessionId.t) : Context.t :=
  match (Context.model ctx).(Membership.admissions) !! session with
  | None => note ctx (Diagnostic.UnknownCorrelation "node ID allocation")
  | Some pending =>
    if decide (PendingAdmission.stage pending ≠ AdmissionStage.AwaitingNodeId request) then
      note ctx (Diagnostic.UnknownCorrelation "superseded node ID allocation")
    else refuse_admission ctx session (PendingAdmission.name pending) RejectReason.Overloaded
  end.

Definition handle_outcome (ctx : Context.t) (outcome : EffectOutcome.t) : Context.t :=
  match outcome with
  | EffectOutcome.GossipDeferred deltas => handle_gossip_deferred ctx deltas
  | EffectOutcome.PeersSelected request peers => handle_peers_selected ctx request peers
  | EffectOutcome.NodeIdAllocated request session node_id =>
    handle_node_id_allocated ctx request session node_id
  | EffectOutcome.NodeIdUnavailable request session =>
    handle_node_id_unavailable ctx request session
  | EffectOutcome.CredentialVerified request session evidence =>
    handle_credential_verified ctx request session evidence
  end.

(** ** Peer input *)

Definition is_stream_carried (body : PeerBody.t) : bool :=
  match body with
  | PeerBody.JoinRequest _ _ _ _ | PeerBody.JoinReply _
  | PeerBody.PullRequest _ _ _ _ | PeerBody.PullReply _ _ _ _ _ => true
  | _ => false
  end.

Definition handle_announce (ctx : Context.t) (sender : NodeId.t)
    (announcement : Announcement.t) (target : NodeId.t) (incarnation : Incarnation.t)
    : Context.t :=
  let '(m, outcome) :=
    apply_announcement (Context.model ctx) sender announcement target incarnation in
  absorb_outcome (set_model ctx m) outcome.

(** The dispatch on a post-admission body from a known sender. The two join
    bodies were dispatched before ([unreachable!]). *)
Definition handle_member_body (ctx : Context.t) (sender : NodeId.t) (body : PeerBody.t)
    : Context.t :=
  match body with
  | PeerBody.Ping probe incarnation =>
    let ctx := observe_alive ctx sender incarnation in
    let ctx := remind_suspected_subject ctx sender in
    send_to ctx sender (OutboundBody.Ack probe (Context.model ctx).(Membership.incarnation))
  | PeerBody.Ack probe incarnation => handle_ack ctx sender probe incarnation
  | PeerBody.PingReq probe target => handle_ping_req ctx sender probe target
  | PeerBody.PingReply probe target result => handle_ping_reply ctx sender probe target result
  | PeerBody.Announce announcement target incarnation =>
    handle_announce ctx sender announcement target incarnation
  | PeerBody.PullRequest round digest buckets cursor =>
    handle_pull_request ctx sender round digest buckets cursor
  | PeerBody.PullReply round _ deltas complete cursor =>
    handle_pull_reply ctx sender round deltas complete cursor
  | PeerBody.JoinRequest _ _ _ _ | PeerBody.JoinReply _ => ctx
  end.

(** The checks of a post-admission message: its sender, or why it is refused. *)
Definition check_sender (m : Membership.t) (context : PeerContext.t)
    : result Diagnostic.t NodeId.t :=
  if decide (PeerContext.formation context ≠ m.(Membership.formation)) then
    Err (Diagnostic.FormationMismatch m.(Membership.formation) (PeerContext.formation context))
  else
    match PeerContext.sender context with
    | SenderIdentity.Applicant _ =>
      Err (Diagnostic.Unexpected "post-admission message from an unadmitted sender")
    | SenderIdentity.Admitted_ sender =>
      match Membership.member m sender with
      | None => Err (Diagnostic.UnknownSender sender)
      | Some member =>
        if decide (Member.cert_fingerprint member ≠ PeerContext.cert_fingerprint context)
        then Err (Diagnostic.CertificateMismatch sender)
        else Ok sender
      end
    end.

Definition handle_member_message (ctx : Context.t) (context : PeerContext.t) (body : PeerBody.t)
    : Context.t :=
  match check_sender (Context.model ctx) context with
  | Err diagnostic => note ctx diagnostic
  | Ok sender =>
    let ctx := absorb_gossip ctx (Some sender) (PeerContext.gossip context) in
    let '(replayed, m) := Membership.observe_seq (Context.model ctx) sender
                            (PeerContext.seq context) in
    let ctx := set_model ctx m in
    if replayed && is_stream_carried body then
      note ctx (Diagnostic.ReplayedSequence sender (PeerContext.seq context))
    else handle_member_body ctx sender body
  end.

Definition handle_peer (ctx : Context.t) (input : PeerInput.t) : Context.t :=
  let context := PeerInput.context input in
  if negb (PeerContext.authenticated context) then note ctx Diagnostic.Unauthenticated
  else
    match PeerInput.body input with
    | PeerBody.JoinRequest endpoints accepts capacity capabilities =>
      handle_join_request ctx context endpoints accepts capacity capabilities
    | PeerBody.JoinReply reply => handle_join_reply ctx context reply
    | body => handle_member_message ctx context body
    end.

(** ** The transition *)
Definition handle (ctx : Context.t) (message : Message.t) : option Context.t :=
  match message with
  | Message.Peer input => Some (handle_peer ctx input)
  | Message.Local command => handle_command ctx command
  | Message.Timer token => Some (handle_timer ctx token)
  | Message.Outcome outcome => Some (handle_outcome ctx outcome)
  end.

(** [None] is a panic; [update_total] rules it out for valid models. *)
Definition update (model : Membership.t) (message : Message.t) : option Transition.t :=
  Context.finish <$> handle (Context.new model) message.
End update.
