(* ===== verification/Steps.v ===== *)
(** * Guarded model steps, and the transition as a sequence of them

    [mstep msg] is the specification of what a message may do to the model: each
    constructor is one atomic change with the guard it must meet, and names the
    message it is reserved to where it is. [update_refines_steps] shows that
    every transition is a finite sequence of such steps; the invariants are
    proved on the steps alone. *)

From Stdlib Require Import Ascii.
From stdpp Require Import base gmap strings list sorting fin_maps pretty relations.
From S2P Require Import Prelude Identity Limits Records Gossip Vocabulary Model Merge Admission Antientropy Update.

(** ** When a record is news *)

(** A register adopts a record that is strictly newer than the one it holds,
    and an absent entry only while there is room. *)
Definition register_news {V} (version : V → VersionTuple.t) (held : option V) (incoming : V)
    (room : Prop) : Prop :=
  match held with
  | Some current => version current ≺ version incoming
  | None => room
  end.

(** How a held member record may change: same certificate, a description that
    is the held one or strictly newer, a liveness that is the held one or
    supersedes it. *)
Record member_advances (limits : Limits.t) (current merged : Member.t) : Prop := {
  advance_id : Member.id merged = Member.id current;
  advance_cert : Member.cert_fingerprint merged = Member.cert_fingerprint current;
  advance_description :
    (Description.of_member merged = Description.of_member current
     ∧ Member.version merged = Member.version current)
    ∨ (Member.version current ≺ Member.version merged ∧ Member.validate merged limits = Ok ());
  advance_liveness :
    (Member.liveness merged = Member.liveness current
     ∧ Member.incarnation merged = Member.incarnation current)
    ∨ swim_supersedes (Member.liveness merged) (Member.incarnation merged)
        (Member.liveness current) (Member.incarnation current) = true
}.

(** What becomes of the suspicion deadline of an advancing member. *)
Definition suspicion_after (id : NodeId.t) (current merged : Member.t)
    (held after : gmap NodeId.t Suspicion.t) : Prop :=
  (after = held
   ∧ (Member.liveness merged = Liveness.Suspected ∨ Member.liveness merged = Member.liveness current))
  ∨ ((after = delete id held ∨ after = delete (Member.id merged) held) ∧ Member.liveness merged ≠ Liveness.Suspected).

(** The record a refutation gives this node. *)
Definition refuted (local : NodeId.t) (next : Incarnation.t) (member : Member.t) : Member.t :=
  let member := Member.set_liveness member Liveness.Alive next in
  match VersionTuple.checked_successor (Member.version member) local with
  | Some version => Member.set_version member version
  | None => member
  end.

(** The record an admission inserts. *)
Definition admitted_member (m : Membership.t) (id : NodeId.t) (p : PendingAdmission.t) : Member.t :=
  Member.mk id (PendingAdmission.name p) (PendingAdmission.cert_fingerprint p)
    (PendingAdmission.protocol p) Liveness.Alive Incarnation.INITIAL
    (VersionTuple.initial 0 (Membership.local_id m)) (PendingAdmission.endpoints p)
    (PendingAdmission.accepts p) (PendingAdmission.capacity p) (PendingAdmission.capabilities p).

Definition clear_tombstone (t : MembershipTombstone.t) (version : VersionTuple.t)
    : MembershipTombstone.t :=
  MembershipTombstone.mk (MembershipTombstone.node_id t) (MembershipTombstone.name t)
    (MembershipTombstone.cert_fingerprint t) (MembershipTombstone.removal_mode t) version true
    (MembershipTombstone.reason t).

Definition reason_fits (limits : Limits.t) (t : MembershipTombstone.t) : Prop :=
  match MembershipTombstone.reason t with
  | Some reason => (str_len reason ≤ limits.(LimitsSpec.max_text_len))%N
  | None => True
  end.

Definition admission_validates (limits : Limits.t) (p : PendingAdmission.t) : Prop :=
  Endpoints.validate (PendingAdmission.endpoints p) limits = Ok ()
  ∧ Capabilities.validate (PendingAdmission.capabilities p) limits = Ok ().

(** A snapshot fit to be adopted: keyed, valid, within bounds, and naming this
    node under the assigned identity. *)
Record snapshot_fits (m : Membership.t) (assigned : NodeId.t) (members : gmap NodeId.t Member.t)
    : Prop := {
  snapshot_member : ∀ id mem, members !! id = Some mem →
    Member.id mem = id ∧ Member.validate mem m.(Membership.limits) = Ok ()
    ∧ ProtocolRange.accepts (AdmissionPolicy.protocol_range m.(Membership.policy))
        (Member.protocol mem) = true;
  snapshot_bound :
    (map_len members ≤ m.(Membership.limits).(LimitsSpec.max_snapshot_members))%N;
  snapshot_self : ∃ self, members !! assigned = Some self
    ∧ Member.cert_fingerprint self = LocalIdentity.cert_fingerprint m.(Membership.local)
    ∧ Member.name self = LocalIdentity.worker_name m.(Membership.local)
}.

(** ** The steps *)
Section steps.
Import Membership.

(** The changes a node makes within one formation. *)
Inductive istep (msg : Message.t) (m : t) : t → Prop :=
  (* merging *)
  | step_member_new inc :
      Member.validate inc m.(limits) = Ok () →
      is_tombstoned m (Member.id inc) = false →
      Member.id inc ≠ local_id m →
      m.(members) !! Member.id inc = None →
      (map_len m.(members) < m.(limits).(LimitsSpec.max_members))%N →
      istep msg m (set_members m (<[Member.id inc := inc]> m.(members)))
  | step_member_advance id current merged after :
      is_tombstoned m id = false →
      id ≠ local_id m →
      m.(members) !! id = Some current →
      (Member.id current = id → member_advances m.(limits) current merged) →
      suspicion_after id current merged m.(suspicions) after →
      istep msg m (set_suspicions (set_members m (<[id := merged]> m.(members))) after)
  | step_tombstone t :
      reason_fits m.(limits) t →
      register_news MembershipTombstone.version
        (m.(tombstones) !! MembershipTombstone.node_id t) t
        (map_len m.(tombstones) < m.(limits).(LimitsSpec.max_tombstones))%N →
      istep msg m (install_tombstone m t)
  | step_blocklist e :
      BlocklistEntry.validate e m.(limits) = Ok () →
      register_news BlocklistEntry.version (m.(blocklist) !! BlocklistEntry.key e) e
        (map_len m.(blocklist) < m.(limits).(LimitsSpec.max_blocklist_entries))%N →
      istep msg m (set_blocklist m (<[BlocklistEntry.key e := e]> m.(blocklist)))
  | step_policy_update p :
      register_news MembershipPolicy.version m.(membership_policy) p True →
      istep msg m (set_membership_policy m (Some p))
  (* gossip, sequence numbers and correlations *)
  | step_enqueue body :
      istep msg m (set_gossip m (GossipQueue.enqueue m.(gossip) body m.(limits)))
  | step_take count hops :
      istep msg m (set_gossip m (GossipQueue.take m.(gossip) count hops).2)
  | step_defer delta hops :
      is_current m (GossipDelta.body delta) = true →
      istep msg m (set_gossip m (GossipQueue.defer m.(gossip) delta hops m.(limits)))
  | step_seq : istep msg m (take_seq m).2
  | step_correlation : istep msg m (take_correlation m).2
  | step_observe sender seq :
      is_Some (m.(members) !! sender) ∨ is_Some (m.(tombstones) !! sender) →
      istep msg m (set_last_seq m
        (<[sender := (SequenceWindow.observe
                        (default SequenceWindow.default (m.(last_seq) !! sender)) seq).2]>
           m.(last_seq)))
  (* this node's own incarnation *)
  | step_incarnation next :
      Incarnation.gtb next m.(incarnation) = true →
      m.(members) !! local_id m = None →
      istep msg m (set_incarnation m next)
  | step_refute next self :
      Incarnation.gtb next m.(incarnation) = true →
      m.(members) !! local_id m = Some self →
      istep msg m (set_members (set_incarnation m next)
                     (<[local_id m := refuted (local_id m) next self]> m.(members)))
  (* probes and suspicions *)
  | step_probe_open id p :
      PendingProbe.id p = id →
      is_Some (m.(members) !! PendingProbe.target p) →
      (map_len m.(probes) < m.(limits).(LimitsSpec.max_pending_probes))%N →
      istep msg m (set_probes m (<[id := p]> m.(probes)))
  | step_probe_change id f :
      (∀ p, PendingProbe.id (f p) = PendingProbe.id p
            ∧ PendingProbe.target (f p) = PendingProbe.target p) →
      istep msg m (set_probes m (alter f id m.(probes)))
  | step_probe_close id : istep msg m (set_probes m (delete id m.(probes)))
  | step_suspect id s mem :
      id ≠ local_id m →
      m.(members) !! id = Some mem →
      Member.liveness mem = Liveness.Suspected →
      Member.incarnation mem = Suspicion.incarnation s →
      istep msg m (set_suspicions m (<[id := s]> m.(suspicions)))
  | step_unsuspect id : istep msg m (set_suspicions m (delete id m.(suspicions)))
  (* peer selections *)
  | step_select id purpose :
      (map_len m.(selections) < m.(limits).(LimitsSpec.max_pending_probes))%N →
      istep msg m (set_selections m (<[id := purpose]> m.(selections)))
  | step_selected id : istep msg m (set_selections m (delete id m.(selections)))
  (* admissions *)
  | step_admission_open session p request :
      PendingAdmission.session p = session →
      PendingAdmission.stage p = AdmissionStage.AwaitingEvidence request →
      admission_validates m.(limits) p →
      (map_len m.(admissions) < m.(limits).(LimitsSpec.max_pending_joins))%N →
      istep msg m (set_admissions m (<[session := p]> m.(admissions)))
  | step_admission_verified session p request evidence allocation :
      msg = Message.Outcome (EffectOutcome.CredentialVerified request session evidence) →
      m.(admissions) !! session = Some p →
      PendingAdmission.stage p = AdmissionStage.AwaitingEvidence request →
      evaluate_evidence evidence = Ok () →
      gates_open m (PendingAdmission.protocol p) (PendingAdmission.name p)
        (PendingAdmission.cert_fingerprint p) →
      istep msg (m)
        (set_admissions m
           (<[session := PendingAdmission.set_stage p (AdmissionStage.AwaitingNodeId allocation)]>
              m.(admissions)))
  | step_admission_close session :
      istep msg m (set_admissions m (delete session m.(admissions)))
  | step_admit session p request id :
      msg = Message.Outcome (EffectOutcome.NodeIdAllocated request session id) →
      m.(admissions) !! session = Some p →
      PendingAdmission.stage p = AdmissionStage.AwaitingNodeId request →
      m.(members) !! id = None →
      m.(tombstones) !! id = None →
      gates_open m (PendingAdmission.protocol p) (PendingAdmission.name p)
        (PendingAdmission.cert_fingerprint p) →
      istep msg m (set_members m (<[id := admitted_member m id p]> m.(members)))
  (* rounds, attempts and operator decisions *)
  | step_join_attempt attempt : istep msg m (set_join_attempt m attempt)
  | step_anti_entropy round : istep msg m (set_anti_entropy m round)
  | step_set_policy p :
      msg = Message.Local (Command.SetPolicy p) →
      istep msg m (set_policy m p)
  | step_clear_tombstone id t version :
      msg = Message.Local (Command.ClearTombstone id) →
      m.(tombstones) !! id = Some t →
      MembershipTombstone.cleared t = false →
      MembershipTombstone.version t ≺ version →
      istep msg m (set_tombstones m (<[id := clear_tombstone t version]> m.(tombstones))).

(** Leaving a formation, by the operator's command or an accepted join. *)
Inductive reset (msg : Message.t) (m : t) : t → Prop :=
  | step_leave formation node_id cluster_name fresh :
      msg = Message.Local (Command.Leave formation node_id cluster_name) →
      standalone formation cluster_name (LocalIdentity.set_node_id m.(local) node_id)
        m.(policy) m.(limits) = Ok fresh →
      reset msg m fresh
  | step_adopt attempt context formation cluster_name assigned snapshot size members :
      msg = Message.Peer (PeerInput.mk context (PeerBody.JoinReply
              (JoinReply.Accepted formation cluster_name assigned snapshot size))) →
      PeerContext.authenticated context = true →
      m.(join_attempt) = Some attempt →
      PeerContext.session context = JoinAttempt.session attempt →
      formation = JoinAttempt.target_formation attempt →
      snapshot_fits m assigned members →
      reset msg m (adopt_formation m formation cluster_name assigned members).

Definition mstep (msg : Message.t) (m m' : t) : Prop := istep msg m m' ∨ reset msg m m'.
End steps.

(** ** Merging is at most one step *)
Lemma register_news_cases {V} `{EqDecision V} (version : V → VersionTuple.t) (current incoming : V) :
  current ≠ incoming → version current ≠ version incoming →
  cmp_gtb (version current) (version incoming) = false → version current ≺ version incoming.
Proof.
  intros _ Hne Hgt. unfold cmp_gtb in Hgt. destruct (cmp _ _) eqn:E; [|done|done].
  by apply cmp_eq in E.
Qed.

(** Outcomes that change nothing: neither an adoption nor this node's removal. *)
Definition no_news (o : MergeOutcome.t) : Prop :=
  match o with MergeOutcome.Adopted _ _ _ | MergeOutcome.SelfRemoved _ => False | _ => True end.

Lemma merge_tombstone_cases m inc :
  let r := merge_tombstone m inc in
  r.1 = m ∧ no_news r.2
  ∨ r.1 = install_tombstone m inc ∧ reason_fits m.(Membership.limits) inc
    ∧ register_news MembershipTombstone.version
        (m.(Membership.tombstones) !! MembershipTombstone.node_id inc) inc
        (map_len m.(Membership.tombstones)
         < m.(Membership.limits).(LimitsSpec.max_tombstones))%N.
Proof.
  unfold merge_tombstone, reason_fits. case_match eqn:Hr; [by left|].
  assert (match MembershipTombstone.reason inc with
          | Some reason =>
            (str_len reason ≤ (Membership.limits m).(LimitsSpec.max_text_len))%N
          | None => True end).
  { destruct (MembershipTombstone.reason inc); [|done]. simpl in Hr.
    by apply N.ltb_ge in Hr. }
  destruct (Membership.tombstones m !! _) as [current|] eqn:Ht.
  - destruct (decide (current = inc)); [by left|].
    destruct (decide (MembershipTombstone.version current = MembershipTombstone.version inc));
      [by left|].
    destruct (cmp_gtb _ _) eqn:Hgt; [by left|]. right. split_and!; [done..|].
    by apply (register_news_cases MembershipTombstone.version).
  - destruct (N.leb_spec (Membership.limits m).(LimitsSpec.max_tombstones)
                (map_len (Membership.tombstones m))); [by left|by right].
Qed.

Lemma merge_policy_cases m inc :
  (merge_policy m inc).1 = m ∧ no_news (merge_policy m inc).2
  ∨ (merge_policy m inc).1 = Membership.set_membership_policy m (Some inc)
    ∧ register_news MembershipPolicy.version m.(Membership.membership_policy) inc True.
Proof.
  unfold merge_policy. case_match eqn:Ht; [|by right].
  repeat (case_decide; [by left|]). case_match; [by left|]. right. split; [done|].
  simpl. by apply (register_news_cases MembershipPolicy.version).
Qed.

Lemma merge_blocklist_cases m inc :
  (merge_blocklist m inc).1 = m ∧ no_news (merge_blocklist m inc).2
  ∨ (merge_blocklist m inc).1
      = Membership.set_blocklist m (<[BlocklistEntry.key inc := inc]> m.(Membership.blocklist))
    ∧ BlocklistEntry.validate inc m.(Membership.limits) = Ok ()
    ∧ register_news BlocklistEntry.version
        (m.(Membership.blocklist) !! BlocklistEntry.key inc) inc
        (map_len m.(Membership.blocklist)
         < m.(Membership.limits).(LimitsSpec.max_blocklist_entries))%N.
Proof.
  unfold merge_blocklist. case_match eqn:Hv; [|by left]. destruct a. case_match eqn:Ht.
  - repeat (case_decide; [by left|]). case_match; [by left|]. right. split_and!; [done..|].
    simpl. by apply (register_news_cases BlocklistEntry.version).
  - case_match eqn:Hlen; [by left|]. right. split_and!; [done..|]. by apply N.leb_gt.
Qed.

Lemma compare_descriptions_newer incoming current :
  compare_descriptions incoming current = DescriptionOrder.Newer
  ↔ Member.version current ≺ Member.version incoming.
Proof.
  unfold compare_descriptions. rewrite (cmp_antisym (Member.version incoming)).
  destruct (cmp (Member.version incoming) _); simpl; [by case_decide|done|done].
Qed.

Lemma set_suspicions_members m ms :
  Membership.set_members m ms
  = Membership.set_suspicions (Membership.set_members m ms) m.(Membership.suspicions).
Proof. done. Qed.

(** What an adopted known member becomes. *)
Definition merged_member (current incoming : Member.t) : Member.t :=
  let held := if decide (compare_descriptions incoming current = DescriptionOrder.Newer)
              then Member.set_liveness incoming (Member.liveness current) (Member.incarnation current)
              else current in
  if swim_supersedes (Member.liveness incoming) (Member.incarnation incoming)
       (Member.liveness current) (Member.incarnation current)
  then Member.set_liveness held (Member.liveness incoming) (Member.incarnation incoming)
  else held.

Lemma merged_member_advances limits current incoming :
  Member.id incoming = Member.id current →
  Member.cert_fingerprint incoming = Member.cert_fingerprint current →
  Member.validate incoming limits = Ok () →
  member_advances limits current (merged_member current incoming).
Proof.
  intros Hid Hcert Hval. unfold merged_member.
  destruct (decide _) as [Hnew%compare_descriptions_newer|_];
    destruct (swim_supersedes _ _ _ _) eqn:Hswim; split; simpl; auto.
Qed.

Lemma merge_member_cases m inc :
  let r := merge_member m inc in
  r.1 = m ∧ no_news r.2
  ∨ (Member.validate inc m.(Membership.limits) = Ok ()
     ∧ Membership.is_tombstoned m (Member.id inc) = false
     ∧ Member.id inc ≠ Membership.local_id m
     ∧ match m.(Membership.members) !! Member.id inc with
       | None =>
         (map_len m.(Membership.members)
          < m.(Membership.limits).(LimitsSpec.max_members))%N
         ∧ r.1 = Membership.set_members m (<[Member.id inc := inc]> m.(Membership.members))
       | Some current =>
         Member.cert_fingerprint inc = Member.cert_fingerprint current
         ∧ ∃ after, suspicion_after (Member.id inc) current (merged_member current inc)
                      m.(Membership.suspicions) after
           ∧ r.1 = Membership.set_suspicions
                     (Membership.set_members m
                        (<[Member.id inc := merged_member current inc]> m.(Membership.members)))
                     after
       end).
Proof.
  unfold merge_member. destruct (Member.validate inc _) as [[]|] eqn:Hval; [|by left].
  destruct (Membership.is_tombstoned m _) eqn:Hts; [by left|].
  destruct (decide (Member.id inc = Membership.local_id m)) as [|Hloc].
  { left. split; [done|]. simpl. by repeat case_match. }
  destruct (Membership.members m !! Member.id inc) as [current|] eqn:Hcur; cycle 1.
  { destruct (N.leb_spec (Membership.limits m).(LimitsSpec.max_members)
                (map_len (Membership.members m))); [by left|]. right. by split_and!. }
  destruct (decide _) as [|Hcert%dec_stable]; [by left|].
  destruct (decide (inc = current)); [by left|]. cbv zeta.
  unfold merged_member. set (order := compare_descriptions inc current).
  destruct (swim_supersedes _ _ _ _) eqn:Hswim; destruct (decide (order = DescriptionOrder.Newer)) as [Hn|Hn];
    rewrite ?(bool_decide_true _ Hn), ?(bool_decide_false _ Hn); simpl; try (by left); right;
    (split_and!; [done..|]); unfold suspicion_after; simpl.
  - case_bool_decide; eexists; (split; [|reflexivity]); auto.
    all: try (left; split; [done|left; by apply dec_stable]).
  - case_bool_decide; eexists; (split; [|reflexivity]); auto.
    all: try (left; split; [done|left; by apply dec_stable]).
  - eexists. split; [left; split; [done|by right]|done].
Qed.

Section merge_steps.
Context (msg : Message.t).

(** A merge changes the model by at most one step. *)
Lemma merge_delta_step m body :
  (merge_delta m body).1 = m ∨ istep msg m (merge_delta m body).1.
Proof.
  destruct body as [inc|inc|inc|inc|f]; simpl; [| | | |by left].
  - destruct (merge_member_cases m inc) as [[? _]|(Hval & Hts & Hloc & Hcases)]; [by left|]. right.
    destruct (Membership.members m !! Member.id inc) as [current|] eqn:Hcur.
    + destruct Hcases as (Hcert & after & Hafter & ->).
      eapply step_member_advance; [done..| |done]. intros Hid.
      by apply merged_member_advances.
    + destruct Hcases as [Hlen ->]. by apply step_member_new.
  - destruct (merge_tombstone_cases m inc) as [[? _]|(-> & ? & ?)]; [by left|].
    right. by apply step_tombstone.
  - destruct (merge_blocklist_cases m inc) as [[? _]|(-> & ? & ?)]; [by left|].
    right. by apply step_blocklist.
  - destruct (merge_policy_cases m inc) as [[? _]|(-> & ?)]; [by left|].
    right. by apply step_policy_update.
Qed.

(** The state and incarnation an announcement lands at, when it is adopted. *)
Lemma apply_announcement_cases m sender a target i :
  let r := apply_announcement m sender a target i in
  let si := announced_state a i in
  (r.1 = m ∧ no_news r.2)
  ∨ (∃ current after, Membership.is_tombstoned m target = false
     ∧ target ≠ Membership.local_id m
     ∧ m.(Membership.members) !! target = Some current
     ∧ swim_supersedes si.1 si.2 (Member.liveness current) (Member.incarnation current) = true
     ∧ after = (if decide (si.1 ≠ Liveness.Suspected)
                then delete target m.(Membership.suspicions) else m.(Membership.suspicions))
     ∧ r.1 = Membership.set_suspicions
               (Membership.set_members m
                  (<[target := Member.set_liveness current si.1 si.2]> m.(Membership.members)))
               after
     ∧ ∃ change, r.2 = MergeOutcome.Adopted
                  (DeltaBody.MembershipUpdate (Member.set_liveness current si.1 si.2))
                  (Some change) None).
Proof.
  unfold apply_announcement. cbv zeta. destruct (decide (_ ∧ _)); [by left|].
  destruct (Membership.is_tombstoned m target) eqn:Hts; [by left|].
  destruct (decide (target = Membership.local_id m)).
  { left. split; [done|]. simpl. by repeat case_match. }
  destruct (Membership.members m !! target) as [current|] eqn:Hcur; [|by left].
  destruct (announced_state a i) as [state effective]; simpl.
  destruct (swim_supersedes _ _ _ _) eqn:Hswim; simpl; [|by left].
  right. exists current; destruct (decide (state ≠ Liveness.Suspected)); eexists;
    (split_and!; [done..|by eexists]).
Qed.

Lemma apply_announcement_step m sender a target i :
  (apply_announcement m sender a target i).1 = m
  ∨ istep msg m (apply_announcement m sender a target i).1.
Proof.
  destruct (apply_announcement_cases m sender a target i)
    as [[? _]|(current & after & Hts & Hloc & Hcur & Hswim & Hafter & -> & _)]; [by left|].
  right. eapply step_member_advance; [done..| |].
  - intros _. split; simpl; auto.
  - unfold suspicion_after. subst after. destruct (decide _) as [Hs|Hs].
    + right. auto.
    + left. split; [done|]. left. by apply dec_stable.
Qed.
End merge_steps.

(** A node's configuration never changes within a formation. *)
Lemma istep_limits msg m m' :
  istep msg m m' → m'.(Membership.limits) = m.(Membership.limits).
Proof. by destruct 1. Qed.

Lemma istep_formation msg m m' :
  istep msg m m' → m'.(Membership.formation) = m.(Membership.formation)
                   ∧ m'.(Membership.local) = m.(Membership.local).
Proof. by destruct 1. Qed.
