(* ===== verification/Refinement.v ===== *)
(** * Every transition refines the step relation

    Handler by handler: the model a handler leaves is reached from the model it
    was given by guarded steps. *)

From Stdlib Require Import Ascii.
From stdpp Require Import base gmap strings list sorting fin_maps pretty relations.
From S2P Require Import Prelude Identity Limits Records Gossip Vocabulary Model Merge Admission Antientropy Update Steps.
Import Context (set_model, emit, note, hand_off, send_to, reply_to, correlation, arm, cancel,
  request_peers, enqueue).

Create HintDb steps discriminated.

(** [correlation] as the value it returns and the context it leaves. *)
Definition bump (ctx : Context.t) : Context.t :=
  set_model ctx (Membership.take_correlation (Context.model ctx)).2.

Lemma correlation_eq ctx :
  correlation ctx = ((Context.model ctx).(Membership.next_correlation), bump ctx).
Proof. done. Qed.

Lemma timer_eq ctx kind :
  Context.timer ctx kind
  = (TimerToken.mk kind (Context.model ctx).(Membership.next_correlation), bump ctx).
Proof. done. Qed.

Section refine.
(** [R] is [istep msg] where a handler stays in the formation, [mstep msg] in
    general. *)
Context (msg : Message.t) (R : relation Membership.t).
Context (istep_R : ∀ m m', istep msg m m' → R m m').
Implicit Types (c : Context.t).

(** The model of the second context is reached from that of the first. *)
Definition csteps (c c' : Context.t) : Prop :=
  rtc R (Context.model c) (Context.model c').

#[local] Instance csteps_preorder : PreOrder csteps.
Proof. split; [intros c|intros c1 c2 c3 H1 H2]; [apply rtc_refl|by unfold csteps in *; etrans]. Qed.

Lemma csteps_istep c0 c m : istep msg (Context.model c) m → csteps c0 c → csteps c0 (set_model c m).
Proof. intros Hs Hc. eapply rtc_r; [exact Hc|by apply istep_R]. Qed.

Lemma csteps_reset c0 c m : R (Context.model c) m → csteps c0 c → csteps c0 (set_model c m).
Proof. intros Hs Hc. eapply rtc_r; [exact Hc|done]. Qed.

Lemma csteps_maybe c0 c m :
  m = Context.model c ∨ istep msg (Context.model c) m → csteps c0 c → csteps c0 (set_model c m).
Proof. intros [->|?] ?; [done|by apply csteps_istep]. Qed.

(** *** The context operations *)
Lemma emit_steps c0 c e : csteps c0 c → csteps c0 (emit c e).
Proof. done. Qed.
Lemma note_steps c0 c d : csteps c0 c → csteps c0 (note c d).
Proof. done. Qed.
Lemma hand_off_steps c0 c h : csteps c0 c → csteps c0 (hand_off c h).
Proof. done. Qed.
Lemma arm_steps c0 c t d : csteps c0 c → csteps c0 (arm c t d).
Proof. done. Qed.
Lemma cancel_steps c0 c t : csteps c0 c → csteps c0 (cancel c t).
Proof. done. Qed.
Lemma bump_steps c0 c : csteps c0 c → csteps c0 (bump c).
Proof. apply csteps_istep, step_correlation. Qed.
Lemma enqueue_steps c0 c b : csteps c0 c → csteps c0 (enqueue c b).
Proof. apply csteps_istep, step_enqueue. Qed.
Lemma reply_to_steps c0 c s b : csteps c0 c → csteps c0 (reply_to c s b).
Proof. apply csteps_istep, step_seq. Qed.
Lemma send_to_steps c0 c t b : csteps c0 c → csteps c0 (send_to c t b).
Proof.
  intros Hc. unfold send_to, Context.outbound. cbn [Membership.take_seq].
  rewrite (surjective_pairing (GossipQueue.take _ _ _)). apply emit_steps.
  apply (csteps_istep c0 (set_model c (Membership.take_seq (Context.model c)).2));
    [apply step_take|].
  by apply csteps_istep; [apply step_seq|].
Qed.
Lemma request_peers_steps c0 c p n : csteps c0 c → csteps c0 (request_peers c p n).
Proof.
  intros Hc. unfold request_peers.
  destruct (N.leb_spec (Context.model c).(Membership.limits).(LimitsSpec.max_pending_probes)
              (map_len (Context.model c).(Membership.selections))); [done|].
  rewrite correlation_eq. apply emit_steps, csteps_istep; [by apply step_select|].
  by apply bump_steps.
Qed.

#[local] Hint Resolve emit_steps note_steps hand_off_steps arm_steps cancel_steps bump_steps
  enqueue_steps reply_to_steps send_to_steps request_peers_steps : steps.

Lemma foldl_steps {A} (f : Context.t → A → Context.t) l c0 c :
  (∀ c0 c x, csteps c0 c → csteps c0 (f c x)) → csteps c0 c → csteps c0 (foldl f c l).
Proof. intros Hf. revert c. induction l as [|x l IH]; simpl; eauto. Qed.

(** *** Merge results *)
Lemma incarnation_next_gt (i challenged next : Incarnation.t) :
  Incarnation.checked_next (Incarnation.max i challenged) = Some next →
  Incarnation.gtb next i = true.
Proof.
  unfold Incarnation.checked_next, Incarnation.max, Incarnation.gtb, checked_add.
  destruct i as [i], challenged as [k]; simpl.
  destruct (N.ltb_spec k i); simpl; destruct (_ <=? u64_max)%N; try done;
    intros [= <-]; apply N.ltb_lt; simpl; lia.
Qed.

Lemma refute_steps c0 c i : csteps c0 c → csteps c0 (refute c i).
Proof.
  intros Hc. unfold refute. destruct (Incarnation.checked_next _) as [next|] eqn:Hn; [|by auto with steps].
  apply incarnation_next_gt in Hn. simpl.
  destruct (Membership.members (Context.model c) !! _) as [self|] eqn:Hself.
  - apply request_peers_steps, emit_steps, enqueue_steps.
    exact (csteps_istep c0 c _ (step_refute msg (Context.model c) next self Hn Hself) Hc).
  - by apply csteps_istep; [by apply step_incarnation|].
Qed.
#[local] Hint Resolve refute_steps : steps.

Lemma absorb_outcome_steps c0 c o : csteps c0 c → csteps c0 (absorb_outcome c o).
Proof.
  intros Hc. destruct o as [body change diag| |d|i|t]; simpl; try by auto with steps.
  destruct change, diag; auto with steps.
Qed.
#[local] Hint Resolve absorb_outcome_steps : steps.

Lemma merge_into_steps c0 c b : csteps c0 c → csteps c0 (merge_into c b).
Proof.
  intros Hc. unfold merge_into. pose proof (merge_delta_step msg (Context.model c) b) as Hm.
  destruct (merge_delta _ b) as [m o]. apply absorb_outcome_steps.
  by apply csteps_maybe.
Qed.

Lemma absorb_body_steps c0 c from b : csteps c0 c → csteps c0 (absorb_body c from b).
Proof. intros. destruct b; simpl; auto using merge_into_steps with steps. Qed.
#[local] Hint Resolve merge_into_steps absorb_body_steps : steps.

Lemma absorb_gossip_steps c0 c from l : csteps c0 c → csteps c0 (absorb_gossip c from l).
Proof.
  intros Hc. unfold absorb_gossip. apply foldl_steps.
  - intros ??? ?. case_match; auto with steps.
  - case_match; auto with steps.
Qed.

Lemma observe_alive_steps c0 c s i : csteps c0 c → csteps c0 (observe_alive c s i).
Proof.
  intros Hc. unfold observe_alive.
  pose proof (apply_announcement_step msg (Context.model c) s Announcement.Alive s i) as Hm.
  destruct (apply_announcement _ _ _ _ _) as [m o].
  assert (csteps c0 (set_model c m)) by (by apply csteps_maybe).
  destruct o as [| |[]| |]; auto with steps.
Qed.

Lemma remind_steps c0 c s : csteps c0 c → csteps c0 (remind_suspected_subject c s).
Proof. intros. unfold remind_suspected_subject. repeat case_match; auto with steps. Qed.
#[local] Hint Resolve absorb_gossip_steps observe_alive_steps remind_steps : steps.

(** An adopted local announcement: the target is another node, now in the
    announced state. *)
Lemma announce_locally_spec c a target i :
  (∀ c0, csteps c0 c → csteps c0 (announce_locally c a target i).2)
  ∧ ((announce_locally c a target i).1 = true →
     let m := Context.model (announce_locally c a target i).2 in
     target ≠ Membership.local_id m
     ∧ ∃ mem, m.(Membership.members) !! target = Some mem
       ∧ Member.liveness mem = (announced_state a i).1
       ∧ Member.incarnation mem = (announced_state a i).2).
Proof.
  unfold announce_locally.
  pose proof (apply_announcement_step msg (Context.model c)
                (Membership.local_id (Context.model c)) a target i) as Hm.
  pose proof (apply_announcement_cases (Context.model c)
                (Membership.local_id (Context.model c)) a target i) as Hcases.
  destruct (apply_announcement _ _ _ _ _) as [m o]. simpl in *. split.
  - intros c0 Hc. apply absorb_outcome_steps. by apply csteps_maybe.
  - intros Ho. destruct Hcases as [[_ Hno]|(cur & after & _ & Hloc & _ & _ & _ & -> & change & ->)].
    + by destruct o.
    + simpl. split; [done|]. eexists. by rewrite lookup_insert_eq.
Qed.

Lemma suspect_steps c0 c t i : csteps c0 c → csteps c0 (suspect c t i).
Proof.
  intros Hc. unfold suspect.
  destruct (announce_locally_spec c Announcement.Suspect t i) as [Hsteps Had].
  destruct (announce_locally c Announcement.Suspect t i) as [adopted c1]. cbn [fst snd] in *.
  destruct adopted; cbn [negb]; [|by auto]. destruct (Had eq_refl) as (Hloc & mem & Hmem & Hl & Hi).
  rewrite timer_eq. apply request_peers_steps, arm_steps.
  apply csteps_istep; [by eapply step_suspect|]. by apply bump_steps, Hsteps.
Qed.

Lemma declare_dead_steps c0 c t i : csteps c0 c → csteps c0 (declare_dead c t i).
Proof.
  intros Hc. unfold declare_dead.
  destruct (announce_locally_spec c Announcement.Dead t i) as [Hsteps _].
  destruct (announce_locally c Announcement.Dead t i) as [adopted c1]. cbn [fst snd] in *.
  destruct adopted; cbn [negb]; auto with steps.
Qed.

(** *** Probes *)
Lemma probe_close_steps c0 c id : csteps c0 c → csteps c0 (update_probes c (delete id)).
Proof. by apply csteps_istep, step_probe_close. Qed.

Lemma probe_change_steps c0 c id f :
  (∀ p, PendingProbe.id (f p) = PendingProbe.id p ∧ PendingProbe.target (f p) = PendingProbe.target p) →
  csteps c0 c → csteps c0 (update_probes c (alter f id)).
Proof. intros. by apply csteps_istep; [apply step_probe_change|]. Qed.
#[local] Hint Resolve suspect_steps declare_dead_steps probe_close_steps : steps.

Lemma open_probe_steps c0 c t ph :
  is_Some ((Context.model c).(Membership.members) !! t) →
  (map_len (Context.model c).(Membership.probes)
   < (Context.model c).(Membership.limits).(LimitsSpec.max_pending_probes))%N →
  csteps c0 c → csteps c0 (open_probe c t ph).
Proof.
  intros Ht Hlen Hc. unfold open_probe. rewrite correlation_eq, timer_eq. cbv zeta.
  apply arm_steps, send_to_steps, csteps_istep; [by apply step_probe_open|].
  by apply bump_steps, bump_steps.
Qed.

Lemma start_direct_probe_steps c0 c t :
  known_peer (Context.model c) t = true → csteps c0 c → csteps c0 (start_direct_probe c t).
Proof.
  intros Hk%bool_decide_eq_true Hc. unfold start_direct_probe.
  destruct (N.leb_spec (Context.model c).(Membership.limits).(LimitsSpec.max_pending_probes)
              (map_len (Context.model c).(Membership.probes))); [by auto with steps|].
  by apply open_probe_steps.
Qed.

Lemma handle_ack_steps c0 c s p i : csteps c0 c → csteps c0 (handle_ack c s p i).
Proof.
  intros. unfold handle_ack. repeat case_match; auto 10 with steps.
Qed.

Lemma handle_ping_req_steps c0 c r p t : csteps c0 c → csteps c0 (handle_ping_req c r p t).
Proof.
  intros Hc. unfold handle_ping_req. case_decide; [by auto with steps|].
  destruct (bool_decide (Membership.member _ t = None)) eqn:Hk; cbn [orb]; [by auto with steps|].
  destruct (Membership.is_tombstoned _ t); [by auto with steps|].
  destruct (N.leb_spec (Context.model c).(Membership.limits).(LimitsSpec.max_pending_probes)
              (map_len (Context.model c).(Membership.probes))); [by auto with steps|].
  apply open_probe_steps; [|done..]. apply bool_decide_eq_false in Hk.
  by apply not_eq_None_Some.
Qed.

Lemma handle_ping_reply_steps c0 c s p t r : csteps c0 c → csteps c0 (handle_ping_reply c s p t r).
Proof.
  intros. unfold handle_ping_reply.
  repeat (case_match; auto 10 using probe_change_steps with steps).
Qed.
#[local] Hint Resolve handle_ack_steps handle_ping_req_steps handle_ping_reply_steps : steps.

(** *** Timers *)
Lemma set_anti_entropy_steps c0 c r : csteps c0 c → csteps c0 (set_anti_entropy c r).
Proof. apply csteps_istep, step_anti_entropy. Qed.
Lemma set_join_attempt_steps c0 c a : csteps c0 c → csteps c0 (set_join_attempt c a).
Proof. apply csteps_istep, step_join_attempt. Qed.
#[local] Hint Resolve set_anti_entropy_steps set_join_attempt_steps : steps.

Lemma handle_probe_timer_steps c0 c tok : csteps c0 c → csteps c0 (handle_probe_timer c tok).
Proof.
  intros Hc. unfold handle_probe_timer. case_match; [|by auto with steps].
  case_match; [|by auto with steps..]. rewrite timer_eq. cbv zeta.
  apply request_peers_steps, arm_steps, probe_change_steps; [done|by auto with steps].
Qed.

Lemma handle_suspicion_timer_steps c0 c tok : csteps c0 c → csteps c0 (handle_suspicion_timer c tok).
Proof.
  intros Hc. unfold handle_suspicion_timer. case_match; [|by auto with steps].
  case_match. apply declare_dead_steps. by apply csteps_istep; [apply step_unsuspect|].
Qed.

Lemma retry_join_steps c0 c a : csteps c0 c → csteps c0 (retry_join c a).
Proof.
  intros. unfold retry_join. case_match; [by auto with steps|]. rewrite timer_eq. cbv zeta.
  auto 10 with steps.
Qed.
#[local] Hint Resolve retry_join_steps handle_probe_timer_steps handle_suspicion_timer_steps : steps.

Lemma handle_timer_steps c0 c tok : csteps c0 c → csteps c0 (handle_timer c tok).
Proof.
  intros. unfold handle_timer, handle_anti_entropy_timer, handle_join_timer.
  repeat case_match; auto with steps.
Qed.

(** *** Admission *)
Lemma refuse_admission_steps c0 c s n r : csteps c0 c → csteps c0 (refuse_admission c s n r).
Proof.
  intros Hc. unfold refuse_admission. cbv zeta.
  assert (csteps c0 (update_admissions c (delete s)))
    by (by apply csteps_istep; [apply step_admission_close|]).
  case_decide; auto with steps.
Qed.
#[local] Hint Resolve refuse_admission_steps : steps.

Lemma handle_join_request_steps c0 c ctx e a cap caps :
  csteps c0 c → csteps c0 (handle_join_request c ctx e a cap caps).
Proof.
  intros Hc. unfold handle_join_request. case_match; [by auto with steps|].
  case_match; [|by auto with steps].
  destruct (Member.validate _ _) as [[]|] eqn:Hval; [|by auto with steps].
  destruct (N.leb_spec (Context.model c).(Membership.limits).(LimitsSpec.max_pending_joins)
              (map_len (Context.model c).(Membership.admissions))); [by auto with steps|].
  rewrite correlation_eq. cbv zeta. apply emit_steps.
  apply csteps_istep; [|by auto with steps].
  eapply step_admission_open; [done|done| |done]. unfold Member.validate in Hval. simpl in Hval.
  apply result_bind_ok in Hval as ([] & He & Hcaps). done.
Qed.

Lemma handle_credential_verified_steps c0 c request session evidence :
  msg = Message.Outcome (EffectOutcome.CredentialVerified request session evidence) →
  csteps c0 c → csteps c0 (handle_credential_verified c request session evidence).
Proof.
  intros Hmsg Hc. unfold handle_credential_verified.
  destruct (_ !! session) as [p|] eqn:Hp; [|by auto with steps].
  destruct (decide _) as [|Hst%dec_stable]; [by auto with steps|].
  destruct (evaluate_evidence _) as [[]|] eqn:Hev; [|by auto with steps].
  destruct (evaluate_local_gates _ _ _ _ _ _) as [[]|] eqn:Hg; [|by auto with steps].
  apply local_gates_accept in Hg.
  rewrite correlation_eq. cbv zeta. apply emit_steps. unfold update_admissions.
  replace (alter _ session _) with
    (<[session := PendingAdmission.set_stage p (AdmissionStage.AwaitingNodeId
         (AllocationId.mk (Membership.next_correlation (Context.model c))))]>
       (Membership.admissions (Context.model c))).
  - apply (csteps_istep c0 (bump c)); [|by auto with steps].
    apply (step_admission_verified msg (Context.model (bump c)) session p request evidence);
      [done..|].
    by destruct Hg; split.
  - apply map_eq. intros s. destruct (decide (s = session)) as [->|].
    + rewrite lookup_insert_eq, lookup_alter_eq. simpl. by rewrite Hp.
    + by rewrite lookup_insert_ne, lookup_alter_ne.
Qed.

Lemma handle_node_id_allocated_steps c0 c request session id :
  msg = Message.Outcome (EffectOutcome.NodeIdAllocated request session id) →
  csteps c0 c → csteps c0 (handle_node_id_allocated c request session id).
Proof.
  intros Hmsg Hc. unfold handle_node_id_allocated.
  destruct (_ !! session) as [p|] eqn:Hp; [|by auto with steps].
  destruct (decide _) as [|Hst%dec_stable]; [by auto with steps|].
  destruct (bool_decide _ || _) eqn:Hfresh; [by auto with steps|].
  apply orb_false_iff in Hfresh as [Hm%bool_decide_eq_false Ht%bool_decide_eq_false].
  apply eq_None_not_Some in Hm. apply eq_None_not_Some in Ht.
  destruct (evaluate_local_gates _ _ _ _ _ _) as [[]|] eqn:Hg; [|by auto with steps].
  apply local_gates_accept in Hg. cbv zeta.
  apply emit_steps, enqueue_steps, reply_to_steps, csteps_istep; [apply step_admission_close|].
  apply (csteps_istep c0 c); [|done]. by eapply step_admit.
Qed.

(** *** Joining *)
Lemma contains_key_false `{Countable K} {V} (k : K) (m : gmap K V) :
  contains_key k m = false ↔ m !! k = None.
Proof. unfold contains_key. rewrite bool_decide_eq_false. symmetry. apply eq_None_not_Some. Qed.

(** The snapshot loop: what it collects, and how many. *)
Lemma collect_snapshot_spec m l ms0 ms :
  try_fold (collect_snapshot_member m) ms0 l = Ok ms →
  (∀ id mem, ms0 !! id = Some mem →
    Member.id mem = id ∧ Member.validate mem m.(Membership.limits) = Ok ()
    ∧ ProtocolRange.accepts (AdmissionPolicy.protocol_range m.(Membership.policy))
        (Member.protocol mem) = true) →
  (∀ id mem, ms !! id = Some mem →
    Member.id mem = id ∧ Member.validate mem m.(Membership.limits) = Ok ()
    ∧ ProtocolRange.accepts (AdmissionPolicy.protocol_range m.(Membership.policy))
        (Member.protocol mem) = true)
  ∧ map_len ms = (map_len ms0 + lenN l)%N.
Proof.
  revert ms0. induction l as [|x l IH]; simpl; intros ms0 Hf H0.
  { injection Hf as <-. split; [done|]. unfold lenN. simpl. lia. }
  apply result_bind_ok in Hf as (ms1 & Hx & Hf). unfold collect_snapshot_member in Hx.
  apply result_bind_ok in Hx as ([] & Hval & Hx). apply result_bind_ok in Hx as ([] & Hpr & Hx).
  destruct (contains_key _ ms0) eqn:Hk; [done|]. injection Hx as <-.
  apply contains_key_false in Hk. apply IH in Hf as [Hf Hlen].
  - split; [done|]. rewrite Hlen, map_len_insert_absent by done. unfold lenN. simpl. lia.
  - intros id mem. destruct (decide (id = Member.id x)) as [->|].
    + rewrite lookup_insert_eq. intros [= <-]. split_and!; [done| |].
      * unfold result_map_err in Hval. by case_match; simplify_eq.
      * unfold limits_protocol_ok in Hpr. by case_match.
    + rewrite lookup_insert_ne by done. apply H0.
Qed.

Lemma check_accepted_reply_fits m attempt context formation assigned snapshot size ms :
  check_accepted_reply m attempt context formation assigned snapshot size = Ok ms →
  formation = JoinAttempt.target_formation attempt ∧ snapshot_fits m assigned ms.
Proof.
  unfold check_accepted_reply. destruct (decide _) as [|Hf%dec_stable]; [done|].
  destruct (_ <? size)%N; [done|].
  destruct (N.ltb_spec (Membership.limits m).(LimitsSpec.max_snapshot_members) (lenN snapshot));
    [done|]. intros Hr. apply result_bind_ok in Hr as (ms' & Hfold & Hr).
  apply collect_snapshot_spec in Hfold as [Hms Hlen]; [|by intros ??].
  destruct (ms' !! assigned) as [self|] eqn:Hself; [|done].
  destruct (decide _) as [|Hcert%dec_stable]; [done|].
  destruct (decide _) as [|Hname%dec_stable]; [done|].
  destruct (negb _); [done|]. injection Hr as <-. split; [done|]. split; [done| |by exists self].
  unfold map_len in Hlen at 2. rewrite map_size_empty in Hlen. lia.
Qed.

Lemma handle_join_reply_steps c0 c context reply :
  (∀ m m', reset msg m m' → R m m') →
  msg = Message.Peer (PeerInput.mk context (PeerBody.JoinReply reply)) →
  PeerContext.authenticated context = true →
  csteps c0 c → csteps c0 (handle_join_reply c context reply).
Proof.
  intros reset_R Hmsg Hauth Hc. unfold handle_join_reply.
  destruct (Membership.join_attempt _) as [attempt|] eqn:Hat; [|by auto with steps].
  destruct (decide _) as [|Hsession%dec_stable]; [by auto with steps|].
  destruct (decide _); [by auto with steps|].
  destruct reply as [f cn assigned snapshot size|reason|candidates].
  - unfold adopt_formation. destruct (check_accepted_reply _ _ _ _ _ _ _) as [ms|] eqn:Hchk;
      [|by auto with steps].
    apply check_accepted_reply_fits in Hchk as [Hf Hfits].
    apply emit_steps, csteps_reset; [by eapply reset_R, step_adopt|done].
  - auto with steps.
  - case_match; auto with steps.
Qed.

(** *** Commands *)
Lemma begin_join_steps c0 c s f : csteps c0 c → csteps c0 (begin_join c s f).
Proof.
  intros. unfold begin_join. case_match; [by auto with steps|].
  rewrite timer_eq. cbv zeta. auto 10 with steps.
Qed.

Lemma handle_leave_steps c0 c c' f id cn :
  (∀ m m', reset msg m m' → R m m') →
  msg = Message.Local (Command.Leave f id cn) →
  handle_leave c f id cn = Some c' → csteps c0 c → csteps c0 c'.
Proof.
  intros reset_R Hmsg Hl Hc. unfold handle_leave in Hl. cbv zeta in Hl.
  destruct (Membership.standalone _ _ _ _ _) as [fresh|] eqn:Hst; [|done].
  injection Hl as <-. apply emit_steps, csteps_reset; [by eapply reset_R, step_leave|].
  apply foldl_steps; auto with steps.
Qed.

Lemma handle_clear_tombstone_steps c0 c id :
  msg = Message.Local (Command.ClearTombstone id) →
  csteps c0 c → csteps c0 (handle_clear_tombstone c id).
Proof.
  intros Hmsg Hc. unfold handle_clear_tombstone.
  destruct (_ !! id) as [t|] eqn:Ht; [|by auto with steps].
  destruct (MembershipTombstone.cleared t) eqn:Hcl; [done|].
  destruct (local_successor _ _) as [v|] eqn:Hv; [|by auto with steps].
  apply enqueue_steps. apply csteps_istep; [|done].
  eapply (step_clear_tombstone _ _ id t v); [done..|]. by apply checked_successor_lt in Hv.
Qed.

(** A staged baseline is a sequence of merges and enqueues. *)
Lemma baseline_stage_steps m0 limits m d m' :
  limits = m.(Membership.limits) →
  Baseline.stage limits m d = Ok m' →
  rtc R m0 m → rtc R m0 m' ∧ limits = m'.(Membership.limits).
Proof.
  intros Hl Hs Hm. unfold Baseline.stage in Hs.
  pose proof (merge_delta_step msg m d) as Hd.
  assert (Hlim : (merge_delta m d).1.(Membership.limits) = m.(Membership.limits)).
  { destruct Hd as [->|Hd]; [done|]. by eapply istep_limits. }
  destruct (merge_delta m d) as [m1 o]. simpl in *.
  assert (rtc R m0 m1) as H1.
  { destruct Hd as [->|Hd]; [done|]. eapply rtc_r; [done|]. by apply istep_R. }
  assert (∀ b, rtc R m0
            (Membership.set_gossip m1 (GossipQueue.enqueue m1.(Membership.gossip) b limits))) as H2.
  { intros b. rewrite Hl, <- Hlim. eapply rtc_r; [exact H1|]. apply istep_R, step_enqueue. }
  subst limits. destruct o as [b ch [d'|]| |[]| |t]; simplify_eq; auto.
Qed.

Lemma baseline_merge_steps m b m' :
  Baseline.merge m b = Ok m' → rtc R m m'.
Proof.
  unfold Baseline.merge. case_match; [done|]. case_decide; [done|]. intros Hr.
  apply result_bind_ok in Hr as ([] & _ & Hr). case_match; [done|].
  assert (∀ l m1, m.(Membership.limits) = m1.(Membership.limits) →
            try_fold (Baseline.stage m.(Membership.limits)) m1 l = Ok m' →
            rtc R m m1 → rtc R m m') as Hfold.
  { induction l as [|d l IH]; simpl; intros m1 Hl Hf Hm1; [by injection Hf as <-|].
    apply result_bind_ok in Hf as (m2 & Hd & Hf).
    eapply baseline_stage_steps in Hd as [Hd Hl2]; [|done|exact Hm1]. by eapply IH. }
  by eapply Hfold.
Qed.

Lemma handle_command_steps c0 c c' cmd :
  (∀ m m', reset msg m m' → R m m') →
  msg = Message.Local cmd → handle_command c cmd = Some c' → csteps c0 c → csteps c0 c'.
Proof.
  intros reset_R Hmsg Hh Hc. destruct cmd; simpl in Hh; try injection Hh as <-.
  - by apply begin_join_steps.
  - unfold rebind_join. repeat case_match; auto with steps.
  - by eapply handle_leave_steps.
  - unfold handle_remove. repeat case_match; auto with steps.
  - by apply handle_clear_tombstone_steps.
  - unfold set_membership_lock. repeat case_match; auto with steps.
  - by apply csteps_istep; [apply step_set_policy|].
  - unfold install_admission_baseline. destruct (Baseline.merge _ _) eqn:Hb; [|by auto with steps].
    apply emit_steps. etrans; [exact Hc|]. by eapply baseline_merge_steps.
  - auto with steps.
  - unfold start_probe_round. case_match; auto with steps.
  - unfold start_anti_entropy_round. repeat case_match; auto with steps.
Qed.
#[local] Hint Resolve handle_timer_steps handle_join_request_steps : steps.

(** *** Anti-entropy and outcomes *)
Section hashed.
Context `{Sha256}.

Lemma handle_pull_request_steps c0 c s r d b cur :
  csteps c0 c → csteps c0 (handle_pull_request c s r d b cur).
Proof. intros. unfold handle_pull_request. case_match; auto with steps. Qed.

Lemma send_pull_request_steps c0 c p r cur t :
  csteps c0 c → csteps c0 (send_pull_request c p r cur t).
Proof. intros. unfold send_pull_request. auto with steps. Qed.
#[local] Hint Resolve handle_pull_request_steps send_pull_request_steps : steps.

Lemma handle_pull_reply_steps c0 c s r l cpl cur :
  csteps c0 c → csteps c0 (handle_pull_reply c s r l cpl cur).
Proof.
  intros Hc. unfold handle_pull_reply. case_match; [|by auto with steps].
  case_decide; [by auto with steps|]. cbv zeta.
  match goal with |- context [foldl ?f ?c1 ?l1] =>
    assert (csteps c0 (foldl f c1 l1)) as Hfold end.
  { apply foldl_steps; [intros; by auto with steps|]. case_match; auto with steps. }
  set (c1 := foldl _ _ _) in *. clearbody c1.
  case_match; [by auto with steps|]. case_match; [by auto with steps|].
  rewrite timer_eq. cbv zeta. auto with steps.
Qed.

Lemma handle_gossip_deferred_steps c0 c l : csteps c0 c → csteps c0 (handle_gossip_deferred c l).
Proof.
  intros Hc. unfold handle_gossip_deferred.
  destruct (_ <? lenN l)%N; [by auto with steps|].
  cbv zeta. set (limits := (Context.model c).(Membership.limits)).
  generalize (Limits.effective_gossip_hops limits (Membership.scale_size (Context.model c))).
  intros max_hops. assert (Hl : limits = (Context.model c).(Membership.limits)) by done.
  clearbody limits. revert c Hc Hl.
  induction l as [|d l IH]; simpl; intros c Hc Hl; [done|].
  case_match; [by apply IH|]. case_match eqn:Hcur; [|by apply IH].
  apply IH; [|done]. rewrite Hl. by apply csteps_istep; [apply step_defer|].
Qed.

Lemma continue_selection_steps c0 c purpose peers :
  csteps c0 c → csteps c0 (continue_selection c purpose peers).
Proof.
  intros Hc. destruct purpose as [|probe| |a t i]; cbn [continue_selection].
  - destruct (List.find _ peers) as [t|] eqn:Hf; [|done].
    apply find_some in Hf as [_ Hk]. by apply start_direct_probe_steps.
  - case_match; [|done]. case_decide; [by auto with steps|].
    apply foldl_steps; [auto with steps|]. by apply probe_change_steps.
  - case_match; [|done]. rewrite correlation_eq, timer_eq. cbv zeta. auto with steps.
  - apply foldl_steps; [|done]. intros. case_match; auto with steps.
Qed.

Lemma handle_outcome_steps c0 c o :
  msg = Message.Outcome o → csteps c0 c → csteps c0 (handle_outcome c o).
Proof.
  intros Hmsg Hc. destruct o; simpl.
  - by apply handle_gossip_deferred_steps.
  - unfold handle_peers_selected. case_match; [|by auto with steps].
    apply continue_selection_steps. by apply csteps_istep; [apply step_selected|].
  - by apply handle_node_id_allocated_steps.
  - unfold handle_node_id_unavailable. repeat case_match; auto with steps.
  - by apply handle_credential_verified_steps.
Qed.

(** *** Peer input *)
Lemma handle_member_body_steps c0 c s b : csteps c0 c → csteps c0 (handle_member_body c s b).
Proof.
  intros Hc. destruct b; simpl; auto using handle_pull_reply_steps with steps.
  unfold handle_announce.
  pose proof (apply_announcement_step msg (Context.model c) s announcement target incarnation) as Hm.
  destruct (apply_announcement _ _ _ _ _) as [m o]. apply absorb_outcome_steps.
  by apply csteps_maybe.
Qed.

Lemma check_sender_ok m context sender :
  check_sender m context = Ok sender →
  PeerContext.sender context = SenderIdentity.Admitted_ sender
  ∧ PeerContext.formation context = m.(Membership.formation)
  ∧ ∃ mem, m.(Membership.members) !! sender = Some mem
      ∧ Member.cert_fingerprint mem = PeerContext.cert_fingerprint context.
Proof.
  unfold check_sender. destruct (decide _) as [|Hf%dec_stable]; [done|].
  destruct (PeerContext.sender context) as [s|]; [|done].
  destruct (Membership.member m s) as [mem|] eqn:Hm; [|done].
  destruct (decide _) as [|Hcert%dec_stable]; [done|]. intros [= <-].
  split_and!; [done..|]. by exists mem.
Qed.

End hashed.
End refine.

(** *** Known senders *)

(** A member known before a merge is still a member, or barred, afterwards. *)
Definition known (m : Membership.t) (id : NodeId.t) : Prop :=
  is_Some (m.(Membership.members) !! id) ∨ is_Some (m.(Membership.tombstones) !! id).

Lemma istep_known msg m m' id : istep msg m m' → known m id → known m' id.
Proof.
  unfold known. destruct 1; simpl; try done; intros [Hk|Hk];
    rewrite ?lookup_insert_is_Some'; auto.
  destruct (decide (MembershipTombstone.node_id t = id)); [by auto|].
  left. by rewrite lookup_delete_ne.
Qed.

Lemma rtc_known msg m m' id : rtc (istep msg) m m' → known m id → known m' id.
Proof. induction 1; eauto using istep_known. Qed.

Section update_refines.
Context `{Sha256}.

Lemma observe_seq_eq m sender seq :
  Membership.observe_seq m sender seq
  = let r := SequenceWindow.observe
               (default SequenceWindow.default (m.(Membership.last_seq) !! sender)) seq in
    (r.1, Membership.set_last_seq m (<[sender := r.2]> m.(Membership.last_seq))).
Proof. unfold Membership.observe_seq. by destruct (SequenceWindow.observe _ _). Qed.

Lemma handle_member_message_steps msg c context body :
  rtc (istep msg) (Context.model c) (Context.model (handle_member_message c context body)).
Proof.
  unfold handle_member_message.
  destruct (check_sender _ _) as [sender|] eqn:Hs; [|apply rtc_refl].
  apply check_sender_ok in Hs as (_ & _ & mem & Hmem & _).
  assert (csteps (istep msg) c (absorb_gossip c (Some sender) (PeerContext.gossip context))) as Hg.
  { by eapply absorb_gossip_steps; [|apply rtc_refl]. }
  set (c1 := absorb_gossip _ _ _) in *.
  assert (known (Context.model c1) sender) as Hk.
  { eapply rtc_known; [exact Hg|]. left. by exists mem. }
  clearbody c1. rewrite observe_seq_eq. cbv zeta beta iota.
  assert (csteps (istep msg) c
    (set_model c1 (Membership.set_last_seq (Context.model c1)
       (<[sender := (SequenceWindow.observe (default SequenceWindow.default
            ((Context.model c1).(Membership.last_seq) !! sender)) (PeerContext.seq context)).2]>
          (Context.model c1).(Membership.last_seq))))) as Ho.
  { eapply csteps_istep; [by intros; eauto|by apply step_observe|exact Hg]. }
  match goal with |- context [if ?b then _ else _] => destruct b end; [exact Ho|].
  by eapply handle_member_body_steps.
Qed.

(** The refinement theorem: whatever the message, the model a transition returns
    is reached from the model it was given by guarded steps that message
    allows. *)
Lemma update_steps (m : Membership.t) (msg : Message.t) (t : Transition.t) :
  update m msg = Some t → rtc (mstep msg) m (Transition.model t).
Proof.
  unfold update. destruct (handle _ msg) as [c|] eqn:Hh; [|done]. intros [= <-].
  replace (Transition.model (Context.finish c)) with (Context.model c)
    by (unfold Context.finish; by destruct (_ <? _)%N).
  assert (Hi : ∀ m m', istep msg m m' → mstep msg m m') by (by left).
  assert (Hr : ∀ m m', reset msg m m' → mstep msg m m') by (by right).
  change (csteps (mstep msg) (Context.new m) c).
  destruct msg as [input|cmd|token|o]; simpl in Hh.
  - injection Hh as <-. unfold handle_peer. destruct input as [context body]. cbn [PeerInput.context PeerInput.body].
    destruct (PeerContext.authenticated context) eqn:Hauth; cbn [negb]; [|by apply rtc_refl].
    assert (∀ b, csteps (mstep (Message.Peer (PeerInput.mk context body))) (Context.new m)
              (handle_member_message (Context.new m) context b)) as Hmm.
    { intros b. eapply rtc_subrel; [|apply handle_member_message_steps]. apply Hi. }
    destruct body; auto.
    + by eapply handle_join_request_steps; [|apply rtc_refl].
    + by eapply handle_join_reply_steps; [..|apply rtc_refl].
  - by eapply handle_command_steps; [..|apply rtc_refl].
  - injection Hh as <-. by eapply handle_timer_steps; [|apply rtc_refl].
  - injection Hh as <-. by eapply handle_outcome_steps; [..|apply rtc_refl].
Qed.
End update_refines.
