(* ===== verification/Invariants.v ===== *)
(** * Invariants of the reachable models

    [wf] is what every reachable model satisfies; each clause is preserved by
    every step, and so by every transition. *)

From Stdlib Require Import Ascii.
From stdpp Require Import base gmap strings list sorting fin_maps pretty relations.
From S2P Require Import Prelude Identity Limits Records Gossip Vocabulary Model Merge Admission Antientropy Update Steps Refinement.

(** ** The invariant *)
Section wf.
Import Membership.

(** Records are stored under their own key and pass validation. *)
Definition members_ok (m : t) : Prop := ∀ id mem, m.(members) !! id = Some mem →
  Member.id mem = id ∧ Member.validate mem m.(limits) = Ok ().
Definition tombstones_ok (m : t) : Prop := ∀ id ts, m.(tombstones) !! id = Some ts →
  MembershipTombstone.node_id ts = id ∧ reason_fits m.(limits) ts.
Definition blocklist_ok (m : t) : Prop := ∀ key e, m.(blocklist) !! key = Some e →
  BlocklistEntry.key e = key ∧ BlocklistEntry.validate e m.(limits) = Ok ().

(** An uncleared tombstone bars its node. *)
Definition fenced (m : t) : Prop := ∀ id, is_tombstoned m id = true → m.(members) !! id = None.

(** This node is a member under its own certificate and label, or was barred. *)
Definition self_ok (m : t) : Prop :=
  match m.(members) !! local_id m with
  | Some self => Member.cert_fingerprint self = LocalIdentity.cert_fingerprint m.(local)
                 ∧ Member.name self = LocalIdentity.worker_name m.(local)
  | None => is_Some (m.(tombstones) !! local_id m)
  end.
Definition local_ok (m : t) : Prop :=
  Endpoints.validate (LocalIdentity.endpoints m.(local)) m.(limits) = Ok ()
  ∧ Capabilities.validate (LocalIdentity.capabilities m.(local)) m.(limits) = Ok ().

(** Probes watch members; suspicions watch suspected members other than this
    node, at an incarnation the member still has or has passed. *)
Definition probes_ok (m : t) : Prop := ∀ id p, m.(probes) !! id = Some p →
  PendingProbe.id p = id ∧ is_Some (m.(members) !! PendingProbe.target p).
Definition suspicions_ok (m : t) : Prop := ∀ id s, m.(suspicions) !! id = Some s →
  id ≠ local_id m
  ∧ ∃ mem, m.(members) !! id = Some mem ∧ Member.liveness mem = Liveness.Suspected
      ∧ Incarnation.geb (Member.incarnation mem) (Suspicion.incarnation s) = true.
Definition admissions_ok (m : t) : Prop := ∀ session p, m.(admissions) !! session = Some p →
  PendingAdmission.session p = session ∧ admission_validates m.(limits) p.

(** Replay windows are kept only for members and barred identities. *)
Definition last_seq_ok (m : t) : Prop := ∀ id, is_Some (m.(last_seq) !! id) → known m id.

(** Every collection is within its configured bound. *)
Record bounded (m : t) : Prop := {
  bounded_members : (map_len m.(members) ≤ m.(limits).(LimitsSpec.max_members))%N;
  bounded_tombstones : (map_len m.(tombstones) ≤ m.(limits).(LimitsSpec.max_tombstones))%N;
  bounded_blocklist : (map_len m.(blocklist) ≤ m.(limits).(LimitsSpec.max_blocklist_entries))%N;
  bounded_probes : (map_len m.(probes) ≤ m.(limits).(LimitsSpec.max_pending_probes))%N;
  bounded_selections : (map_len m.(selections) ≤ m.(limits).(LimitsSpec.max_pending_probes))%N;
  bounded_admissions : (map_len m.(admissions) ≤ m.(limits).(LimitsSpec.max_pending_joins))%N;
  bounded_gossip : queue_bounded m.(limits) m.(gossip)
}.

Record wf (m : t) : Prop := {
  wf_limits : Limits.try_from m.(limits).(Limits.spec) = Ok m.(limits);
  wf_local : local_ok m;
  wf_members : members_ok m;
  wf_tombstones : tombstones_ok m;
  wf_blocklist : blocklist_ok m;
  wf_fenced : fenced m;
  wf_self : self_ok m;
  wf_probes : probes_ok m;
  wf_suspicions : suspicions_ok m;
  wf_admissions : admissions_ok m;
  wf_last_seq : last_seq_ok m;
  wf_bounded : bounded m
}.
End wf.

(** ** Preservation by the steps of one formation *)
Section istep_preserves.
Context (msg : Message.t) (m m' : Membership.t).
Implicit Types (id : NodeId.t).

Lemma install_tombstone_members t :
  (install_tombstone m t).(Membership.members)
  = delete (MembershipTombstone.node_id t) m.(Membership.members).
Proof. done. Qed.

Lemma validate_description (limits : Limits.t) (a b : Member.t) :
  Description.of_member a = Description.of_member b →
  Member.validate a limits = Member.validate b limits.
Proof.
  intros Hd. pose proof (f_equal Description.endpoints Hd) as He.
  pose proof (f_equal Description.capabilities Hd) as Hc. simpl in *.
  unfold Member.validate. by rewrite He, Hc.
Qed.

Lemma advanced_ok (limits : Limits.t) (current merged : Member.t) :
  member_advances limits current merged →
  Member.validate current limits = Ok () → Member.validate merged limits = Ok ().
Proof.
  intros [_ _ [[Hd _]|[_ Hv]] _] Hc; [|done].
  by rewrite (validate_description limits _ _ Hd).
Qed.

Lemma refuted_description local next self :
  Description.of_member (refuted local next self) = Description.of_member self.
Proof. unfold refuted. by case_match. Qed.

Lemma istep_members_ok : istep msg m m' → admissions_ok m → members_ok m → members_ok m'.
Proof.
  unfold members_ok. intros Hs Ha Hm. destruct Hs; simpl; try exact Hm; intros k mem.
  - rewrite lookup_insert_Some. intros [[<- <-]|[_ ?]]; auto.
  - rewrite lookup_insert_Some. intros [[<- <-]|[_ ?]]; [|by auto].
    destruct (Hm _ _ H1) as [Hid Hv]. specialize (H2 Hid).
    split; [by rewrite (advance_id _ _ _ H2)|by eapply advanced_ok].
  - rewrite lookup_delete_Some. intros [_ ?]; auto.
  - rewrite lookup_insert_Some. intros [[<- <-]|[_ ?]]; [|by auto].
    destruct (Hm _ _ H0) as [Hid Hv].
    pose proof (refuted_description (Membership.local_id m) next self) as Hd.
    rewrite (validate_description _ _ _ Hd). split; [|done].
    pose proof (f_equal Description.id Hd) as Heq. simpl in Heq. congruence.
  - rewrite lookup_insert_Some. intros [[<- <-]|[_ ?]]; [|by auto].
    split; [done|]. destruct (Ha _ _ H0) as (_ & He & Hc). unfold Member.validate. simpl.
    by rewrite He, Hc.
Qed.

Lemma istep_tombstones_ok : istep msg m m' → tombstones_ok m → tombstones_ok m'.
Proof.
  unfold tombstones_ok. intros Hs Hm. destruct Hs; simpl; try exact Hm; intros k ts.
  - rewrite lookup_insert_Some. intros [[<- <-]|[_ ?]]; auto.
  - rewrite lookup_insert_Some. intros [[<- <-]|[_ ?]]; [|by auto].
    by destruct (Hm _ _ H0) as [??].
Qed.

Lemma istep_blocklist_ok : istep msg m m' → blocklist_ok m → blocklist_ok m'.
Proof.
  unfold blocklist_ok. intros Hs Hm. destruct Hs; simpl; try exact Hm; intros k e'.
  rewrite lookup_insert_Some. intros [[<- <-]|[_ ?]]; auto.
Qed.

Lemma istep_fenced : istep msg m m' → fenced m → fenced m'.
Proof.
  unfold fenced, Membership.is_tombstoned. intros Hs Hm.
  destruct Hs; simpl; try exact Hm; intros k Hk.
  - rewrite lookup_insert_None. split; [by auto|]. intros <-. unfold Membership.is_tombstoned in H0.
    congruence.
  - rewrite lookup_insert_None. split; [by auto|]. intros <-. unfold Membership.is_tombstoned in H.
    congruence.
  - apply lookup_delete_None. destruct (decide (MembershipTombstone.node_id t = k)); [by left|].
    right. apply Hm. by rewrite lookup_insert_ne in Hk.
  - rewrite lookup_insert_None. split; [by auto|]. intros Heq. rewrite Heq in H0.
    specialize (Hm _ Hk). congruence.
  - rewrite lookup_insert_None. split; [by auto|]. intros <-. by rewrite H3 in Hk.
  - destruct (decide (id = k)) as [->|].
    + by rewrite lookup_insert_eq in Hk.
    + rewrite lookup_insert_ne in Hk by done. auto.
Qed.

Lemma istep_self_ok : istep msg m m' → self_ok m → self_ok m'.
Proof.
  unfold self_ok. intros Hs Hm. destruct Hs; simpl; try exact Hm;
    change (Membership.local_id _) with (Membership.local_id m) in *.
  - by rewrite lookup_insert_ne.
  - by rewrite lookup_insert_ne.
  - destruct (decide (MembershipTombstone.node_id t = Membership.local_id m)) as [->|].
    + by rewrite lookup_delete_eq, lookup_insert_eq.
    + by rewrite lookup_delete_ne, lookup_insert_ne.
  - rewrite lookup_insert_eq. rewrite H0 in Hm.
    pose proof (refuted_description (Membership.local_id m) next self) as Hd.
    pose proof (f_equal Description.cert_fingerprint Hd) as Hcert.
    pose proof (f_equal Description.name Hd) as Hname. simpl in *. destruct Hm; split; congruence.
  - destruct (decide (id = Membership.local_id m)) as [->|].
    + rewrite H2, H3 in Hm. by destruct Hm.
    + by rewrite lookup_insert_ne.
  - case_match; [done|]. apply lookup_insert_is_Some'. by right.
Qed.

Lemma istep_probes_ok : istep msg m m' → probes_ok m → probes_ok m'.
Proof.
  unfold probes_ok. intros Hs Hm. destruct Hs; simpl; try exact Hm; intros k q Hk;
    try (apply Hm in Hk as [? ?]; rewrite ?lookup_insert_is_Some'; by auto).
  - apply map_lookup_filter_Some in Hk as [Hk Hne]. simpl in Hne.
    apply Hm in Hk as [? ?]. by rewrite lookup_delete_ne.
  - apply lookup_insert_Some in Hk as [[<- <-]|[_ Hk]]; auto.
  - apply lookup_alter_Some in Hk as [(<- & q' & Hq & ->)|[_ Hk]]; [|by auto].
    destruct (H q') as [-> ->]. by apply Hm.
  - apply lookup_delete_Some in Hk as [_ Hk]. auto.
Qed.

Lemma incarnation_geb_trans a b c :
  Incarnation.geb a b = true → Incarnation.geb b c = true → Incarnation.geb a c = true.
Proof. unfold Incarnation.geb. rewrite !N.leb_le. lia. Qed.

(** An advancing suspected member keeps its suspicion only while suspected, at
    an incarnation that does not go back. *)
Lemma advance_suspected limits current merged :
  member_advances limits current merged →
  Member.liveness current = Liveness.Suspected →
  Member.liveness merged = Liveness.Suspected ∨ Member.liveness merged = Member.liveness current →
  Member.liveness merged = Liveness.Suspected
  ∧ Incarnation.geb (Member.incarnation merged) (Member.incarnation current) = true.
Proof.
  intros [_ _ _ Hl] Hc Hm. rewrite Hc in *.
  assert (Member.liveness merged = Liveness.Suspected) as Hs by naive_solver.
  split; [done|]. unfold Incarnation.geb. apply N.leb_le.
  destruct Hl as [[_ ->]|Hl]; [done|]. rewrite Hs in Hl. simpl in Hl.
  unfold Incarnation.gtb in Hl. apply N.ltb_lt in Hl. lia.
Qed.

Lemma istep_suspicions_ok :
  istep msg m m' → members_ok m → suspicions_ok m → suspicions_ok m'.
Proof.
  unfold suspicions_ok. intros Hs Hmem Hm.
  destruct Hs; simpl; try exact Hm; intros k s' Hk.
  - destruct (Hm _ _ Hk) as (? & mem & ? & ?). split; [done|]. exists mem.
    rewrite lookup_insert_ne; [done|]. intros Heq. rewrite Heq in *. congruence.
  - rename H1 into Hcur, H2 into Hadv, H3 into Hafter.
    destruct (Hmem _ _ Hcur) as [Hid _]. specialize (Hadv Hid).
    assert (m.(Membership.suspicions) !! k = Some s'
            ∧ (k = id → Member.liveness merged = Liveness.Suspected
                        ∨ Member.liveness merged = Member.liveness current)) as [Hk' Hsame].
    { destruct Hafter as [[-> ?]|[Hdel _]]; [done|].
      rewrite (advance_id _ _ _ Hadv), Hid in Hdel.
      assert (after = delete id m.(Membership.suspicions)) as -> by (by destruct Hdel).
      apply lookup_delete_Some in Hk as [? ?]. by split. }
    destruct (Hm _ _ Hk') as (? & mem & Hmk & Hml & Hmi). split; [done|].
    destruct (decide (id = k)) as [<-|]; [|exists mem; by rewrite lookup_insert_ne].
    exists merged. rewrite lookup_insert_eq. assert (mem = current) as -> by congruence.
    destruct (advance_suspected _ _ _ Hadv Hml (Hsame eq_refl)) as [? Hi].
    split_and!; [done..|]. by eapply incarnation_geb_trans.
  - apply lookup_delete_Some in Hk as [Hne Hk]. destruct (Hm _ _ Hk) as (? & mem & ? & ?).
    split; [done|]. exists mem. by rewrite lookup_delete_ne.
  - destruct (Hm _ _ Hk) as (? & mem & ? & ?). split; [done|]. exists mem.
    by rewrite lookup_insert_ne.
  - apply lookup_insert_Some in Hk as [[<- <-]|[_ Hk]]; [|by auto]. split; [done|].
    exists mem. split_and!; [done..|]. rewrite H2. apply N.leb_le. lia.
  - apply lookup_delete_Some in Hk as [_ Hk]. by auto.
  - destruct (Hm _ _ Hk) as (? & mem & ? & ?). split; [done|]. exists mem.
    rewrite lookup_insert_ne; [done|]. congruence.
Qed.

Lemma istep_admissions_ok : istep msg m m' → admissions_ok m → admissions_ok m'.
Proof.
  unfold admissions_ok. intros Hs Hm. destruct Hs; simpl; try exact Hm; intros k q Hk.
  - apply lookup_insert_Some in Hk as [[<- <-]|[_ Hk]]; auto.
  - apply lookup_insert_Some in Hk as [[<- <-]|[_ Hk]]; [|by auto]. by apply (Hm _ p).
  - apply lookup_delete_Some in Hk as [_ Hk]. by auto.
Qed.

Lemma istep_last_seq_ok : istep msg m m' → last_seq_ok m → last_seq_ok m'.
Proof.
  intros Hs Hm id Hid. destruct (decide (is_Some (m.(Membership.last_seq) !! id))) as [Hold|Hnew].
  - eapply istep_known; [exact Hs|]. by apply Hm.
  - destruct Hs; simpl in *; try done.
    + destruct Hid as [w [_ Hid]%lookup_delete_Some]. by destruct Hnew.
    + rewrite lookup_insert_is_Some' in Hid. by destruct Hid as [<-|?].
Qed.

Lemma istep_bounded :
  istep msg m m' → m.(Membership.limits).(LimitsSpec.max_gossip_queue) ≠ 0%N →
  bounded m → bounded m'.
Proof.
  intros Hs Hnz [Hmem Hts Hbl Hpr Hse Had Hgo].
  destruct Hs; split; simpl; try assumption;
    try (rewrite map_len_alter; assumption);
    try (etrans; [apply map_len_delete_le|assumption]);
    try (etrans; [apply map_len_insert_le|lia]).
  all: try (rewrite map_len_insert_present by (by eexists); assumption).
  all: try (by apply enqueue_bounded); try (by apply take_bounded); try (by apply defer_bounded).
  - unfold register_news in H0. case_match.
    + by rewrite map_len_insert_present.
    + rewrite map_len_insert_absent by done. lia.
  - etrans; [|exact Hpr]. unfold map_len. rewrite <- !size_dom.
    pose proof (subseteq_size _ _ (dom_filter_subseteq
      (λ kp, PendingProbe.target kp.2 ≠ MembershipTombstone.node_id t) m.(Membership.probes))). lia.
  - unfold register_news in H0. case_match.
    + by rewrite map_len_insert_present.
    + rewrite map_len_insert_absent by done. lia.
  - etrans; [apply map_len_insert_le|]. pose proof (gate_capacity _ _ _ _ H4) as Hcap.
    unfold admission_capacity in Hcap. lia.
Qed.
End istep_preserves.

(** ** Fresh models *)
Lemma limits_positive (l : Limits.t) :
  Limits.try_from l.(Limits.spec) = Ok l →
  l.(LimitsSpec.max_gossip_queue) ≠ 0%N ∧ l.(LimitsSpec.max_members) ≠ 0%N
  ∧ l.(LimitsSpec.max_diagnostics_per_update) ≠ 0%N
  ∧ (l.(LimitsSpec.max_snapshot_members) ≤ l.(LimitsSpec.max_members))%N.
Proof.
  intros (_ & Hall & _ & _ & Hsnap)%limits_valid_facts.
  rewrite Forall_forall in Hall.
  split_and!; [..|exact Hsnap].
  - apply (Hall ("maxGossipQueue", l.(LimitsSpec.max_gossip_queue))). unfold Limits.non_zero_checks. set_solver.
  - apply (Hall ("maxMembers", l.(LimitsSpec.max_members))). unfold Limits.non_zero_checks. set_solver.
  - apply (Hall ("maxDiagnosticsPerUpdate", l.(LimitsSpec.max_diagnostics_per_update))).
    unfold Limits.non_zero_checks. set_solver.
Qed.

Lemma effects_positive (l : Limits.t) :
  Limits.try_from l.(Limits.spec) = Ok l → l.(LimitsSpec.max_effects_per_update) ≠ 0%N.
Proof.
  intros (_ & Hall & _)%limits_valid_facts. rewrite Forall_forall in Hall.
  apply (Hall ("maxEffectsPerUpdate", l.(LimitsSpec.max_effects_per_update))).
  unfold Limits.non_zero_checks. set_solver.
Qed.

Lemma map_len_empty `{Countable K} {V} : map_len (∅ : gmap K V) = 0%N.
Proof. unfold map_len. by rewrite map_size_empty. Qed.

(** A model holding nothing but a valid membership. *)
Lemma fresh_wf (m : Membership.t) :
  Limits.try_from m.(Membership.limits).(Limits.spec) = Ok m.(Membership.limits) →
  local_ok m → members_ok m →
  (∃ self, m.(Membership.members) !! Membership.local_id m = Some self
     ∧ Member.cert_fingerprint self = LocalIdentity.cert_fingerprint m.(Membership.local)
     ∧ Member.name self = LocalIdentity.worker_name m.(Membership.local)) →
  (map_len m.(Membership.members) ≤ m.(Membership.limits).(LimitsSpec.max_members))%N →
  m.(Membership.tombstones) = ∅ → m.(Membership.blocklist) = ∅ → m.(Membership.last_seq) = ∅ →
  m.(Membership.probes) = ∅ → m.(Membership.suspicions) = ∅ → m.(Membership.admissions) = ∅ →
  m.(Membership.selections) = ∅ → m.(Membership.gossip) = GossipQueue.default → wf m.
Proof.
  intros Hl Hloc Hm (self & Hself & Hc & Hn) Hlen Ht Hb Hls Hp Hs Ha Hse Hg.
  split; try done.
  - intros ??. by rewrite Ht, lookup_empty.
  - intros ??. by rewrite Hb, lookup_empty.
  - intros ?. unfold Membership.is_tombstoned. by rewrite Ht, lookup_empty.
  - unfold self_ok. by rewrite Hself.
  - intros ??. by rewrite Hp, lookup_empty.
  - intros ??. by rewrite Hs, lookup_empty.
  - intros ??. by rewrite Ha, lookup_empty.
  - intros ?. rewrite Hls, lookup_empty. by intros [].
  - split; rewrite ?Ht, ?Hb, ?Hp, ?Hse, ?Ha, ?Hg, ?map_len_empty; try done; try lia.
    unfold queue_bounded, GossipQueue.len. simpl. rewrite map_len_empty. lia.
Qed.

Lemma standalone_wf formation cluster_name local policy (limits : Limits.t) m :
  Limits.try_from limits.(Limits.spec) = Ok limits →
  Membership.standalone formation cluster_name local policy limits = Ok m → wf m.
Proof.
  intros Hl Hs. unfold Membership.standalone in Hs.
  apply result_bind_ok in Hs as ([] & He & Hs). apply result_bind_ok in Hs as ([] & Hc & Hs).
  injection Hs as <-. apply fresh_wf; try done; simpl.
  - intros id mem Hid. simpl in Hid. apply lookup_singleton_Some in Hid as [<- <-].
    split; [done|].
    unfold Member.validate. simpl. by rewrite He.
  - eexists. by rewrite lookup_singleton_eq.
  - unfold map_len. rewrite map_size_singleton. apply limits_positive in Hl. lia.
Qed.

Lemma standalone_total m formation cluster_name id policy :
  local_ok m →
  ∃ fresh, Membership.standalone formation cluster_name
             (LocalIdentity.set_node_id m.(Membership.local) id) policy m.(Membership.limits)
           = Ok fresh.
Proof.
  intros [He Hc]. unfold Membership.standalone. simpl. rewrite He, Hc. by eexists.
Qed.

(** ** Preservation by every step *)
Lemma istep_wf msg m m' : istep msg m m' → wf m → wf m'.
Proof.
  intros Hs []. pose proof (istep_limits _ _ _ Hs) as Hl.
  pose proof (istep_formation _ _ _ Hs) as [_ Hloc]. split.
  - by rewrite Hl.
  - unfold local_ok in *. by rewrite Hl, Hloc.
  - by eapply istep_members_ok.
  - by eapply istep_tombstones_ok.
  - by eapply istep_blocklist_ok.
  - by eapply istep_fenced.
  - by eapply istep_self_ok.
  - by eapply istep_probes_ok.
  - by eapply istep_suspicions_ok.
  - by eapply istep_admissions_ok.
  - by eapply istep_last_seq_ok.
  - eapply istep_bounded; [done| |done]. by destruct (limits_positive _ wf_limits0).
Qed.

Lemma reset_wf msg m m' : reset msg m m' → wf m → wf m'.
Proof.
  intros [formation id cn fresh Hmsg Hst|attempt context formation cn assigned snapshot size members
    Hmsg Hauth Hat Hsess Hf [Hm Hb Hself]] [].
  - by eapply standalone_wf.
  - apply fresh_wf; simpl; try done.
    + intros id mem Hid. by destruct (Hm _ _ Hid) as (? & ? & _).
    + etrans; [exact Hb|]. by destruct (limits_positive _ wf_limits0) as (_ & _ & _ & ?).
Qed.

Lemma mstep_wf msg m m' : mstep msg m m' → wf m → wf m'.
Proof. intros [?|?]; eauto using istep_wf, reset_wf. Qed.

Lemma rtc_wf msg m m' : rtc (mstep msg) m m' → wf m → wf m'.
Proof. induction 1; eauto using mstep_wf. Qed.

(** ** Transitions and runs *)
Section runs.
Context `{Sha256}.

Lemma update_wf m msg t : update m msg = Some t → wf m → wf (Transition.model t).
Proof. intros Hu. eapply rtc_wf. by apply update_steps. Qed.

(** The models a worker can be in: a standalone start, then messages. *)
Inductive reachable : Membership.t → Prop :=
  | reachable_start formation cluster_name local policy limits m :
      Limits.try_from limits.(Limits.spec) = Ok limits →
      Membership.standalone formation cluster_name local policy limits = Ok m →
      reachable m
  | reachable_update m msg t :
      reachable m → update m msg = Some t → reachable (Transition.model t).

Lemma reachable_wf m : reachable m → wf m.
Proof. induction 1; eauto using standalone_wf, update_wf. Qed.

(** Folding messages; a panic stops the run. *)
Fixpoint run (m : Membership.t) (msgs : list Message.t) : option Membership.t :=
  match msgs with
  | [] => Some m
  | msg :: msgs => t ← update m msg; run (Transition.model t) msgs
  end.

(** C1: every run of the transition function is a sequence of guarded steps,
    each allowed by one of the messages of the run: whatever the peers send, the
    model changes only in the ways [mstep] lists. *)
Theorem update_refines_steps (msgs : list Message.t) (m m' : Membership.t) :
  run m msgs = Some m' → rtc (λ a b, ∃ msg, msg ∈ msgs ∧ mstep msg a b) m m'.
Proof.
  revert m. induction msgs as [|msg msgs IH]; simpl; intros m Hr; [injection Hr as <-; apply rtc_refl|].
  destruct (update m msg) as [t|] eqn:Hu; [|done]. simpl in Hr.
  etrans.
  - eapply rtc_subrel; [|by apply update_steps]. intros a b Hab. exists msg. by split; [left|].
  - eapply rtc_subrel; [|by apply IH]. intros a b (msg' & ? & ?). exists msg'. by split; [right|].
Qed.

(** C2: the invariant is preserved by every transition: records stay keyed,
    valid and within bounds, barred nodes stay out, this node stays a member
    under its own certificate unless barred, probes watch members, suspicions
    watch suspected members, pending admissions stay valid. *)
Theorem update_preserves_wf (m : Membership.t) (msg : Message.t) (t : Transition.t) :
  wf m → update m msg = Some t → wf (Transition.model t).
Proof. intros Hwf Hu. by eapply update_wf. Qed.

Lemma finish_budgets c :
  let l := (Context.model c).(Membership.limits) in
  l.(LimitsSpec.max_diagnostics_per_update) ≠ 0%N →
  (lenN (Transition.effects (Context.finish c)) ≤ l.(LimitsSpec.max_effects_per_update))%N
  ∧ (lenN (Transition.diagnostics (Context.finish c)) ≤ l.(LimitsSpec.max_diagnostics_per_update))%N.
Proof.
  intros l Hnz. unfold Context.finish. fold l.
  destruct (N.ltb_spec l.(LimitsSpec.max_effects_per_update) (lenN (Context.effects c)));
    cbv zeta beta iota; cbn [Transition.effects Transition.diagnostics];
    (split; [first [apply lenN_takeN_le|done]|]);
    match goal with |- context [(?x <? lenN ?ds)%N] => destruct (N.ltb_spec x (lenN ds)) end;
    try done; rewrite lenN_app;
    match goal with |- context [takeN ?n ?ds] => pose proof (lenN_takeN_le n ds) end;
    unfold lenN in *; simpl; lia.
Qed.

Lemma rtc_istep_frame msg m m' :
  rtc (istep msg) m m' → m'.(Membership.limits) = m.(Membership.limits)
                         ∧ m'.(Membership.local) = m.(Membership.local).
Proof.
  induction 1 as [|a b d Hab _ [IH1 IH2]]; [done|].
  rewrite IH1, IH2, (istep_limits _ _ _ Hab). by destruct (istep_formation _ _ _ Hab) as [_ ->].
Qed.

Lemma handle_leave_total c formation id cn :
  local_ok (Context.model c) → is_Some (handle_leave c formation id cn).
Proof.
  intros Hloc. unfold handle_leave. cbv zeta.
  match goal with |- context [foldl ?f c ?l] => set (c1 := foldl f c l) end.
  set (msg := Message.Timer (TimerToken.mk TimerKind.JoinRetry 0)).
  assert (rtc (istep msg) (Context.model c) (Context.model c1)) as Hst.
  { eapply (foldl_steps (istep msg)); [|apply rtc_refl]. intros. by eapply send_to_steps. }
  assert ((Context.model c1).(Membership.limits) = (Context.model c).(Membership.limits)
          ∧ (Context.model c1).(Membership.local) = (Context.model c).(Membership.local)) as [Hl Hlo].
  { by apply (rtc_istep_frame msg). }
  rewrite Hl, Hlo.
  edestruct (standalone_total (Context.model c)) as [fresh ->]; [done|]. by eexists.
Qed.

Lemma update_some m msg : local_ok m → is_Some (update m msg).
Proof.
  intros Hloc. unfold update. destruct msg as [|cmd| |]; simpl; try by eexists.
  destruct cmd; simpl; try by eexists.
  edestruct (handle_leave_total (Context.new m)) as [c ->]; [exact Hloc|]. by eexists.
Qed.

(** C3: on a valid model the transition never panics (the [expect] of [Leave]
    included), and returns at most the configured numbers of effects and
    diagnostics. *)
Theorem update_total_within_budget (m : Membership.t) (msg : Message.t) :
  wf m →
  ∃ t, update m msg = Some t
    ∧ (lenN (Transition.effects t)
       ≤ (Transition.model t).(Membership.limits).(LimitsSpec.max_effects_per_update))%N
    ∧ (lenN (Transition.diagnostics t)
       ≤ (Transition.model t).(Membership.limits).(LimitsSpec.max_diagnostics_per_update))%N.
Proof.
  intros Hwf. destruct (update_some m msg (wf_local _ Hwf)) as [t Ht]. exists t. split; [done|].
  pose proof (update_wf _ _ _ Ht Hwf) as [Hl _ _ _ _ _ _ _ _ _ _ _].
  destruct (limits_positive _ Hl) as (_ & _ & Hnz & _).
  unfold update in Ht. destruct (handle _ msg) as [c|]; [|done]. injection Ht as <-.
  assert (Transition.model (Context.finish c) = Context.model c) as Hm
    by (unfold Context.finish; by destruct (_ <? _)%N).
  rewrite Hm in *. by apply finish_budgets.
Qed.

(** C4: in a reachable model an uncleared tombstone keeps its node out of the
    members, the pending probes and the suspicions. *)
Theorem reachable_fenced (m : Membership.t) (id : NodeId.t) :
  reachable m → Membership.is_tombstoned m id = true →
  m.(Membership.members) !! id = None
  ∧ m.(Membership.suspicions) !! id = None
  ∧ ∀ probe p, m.(Membership.probes) !! probe = Some p → PendingProbe.target p ≠ id.
Proof.
  intros Hr%reachable_wf Ht. destruct Hr. pose proof (wf_fenced0 _ Ht) as Hm. split_and!; [done| |].
  - destruct (m.(Membership.suspicions) !! id) as [s|] eqn:Hs; [|done].
    destruct (wf_suspicions0 _ _ Hs) as (_ & mem & ? & _). congruence.
  - intros probe p Hp <-. destruct (wf_probes0 _ _ Hp) as [_ [? ?]]. congruence.
Qed.

(** C5: in a reachable model every collection is bounded by the configured
    limits, the replay windows by the bounds on members and tombstones together. *)
Theorem reachable_bounded (m : Membership.t) :
  reachable m →
  bounded m
  ∧ (map_len m.(Membership.last_seq)
     ≤ m.(Membership.limits).(LimitsSpec.max_members)
       + m.(Membership.limits).(LimitsSpec.max_tombstones))%N
  ∧ (map_len m.(Membership.suspicions) ≤ m.(Membership.limits).(LimitsSpec.max_members))%N.
Proof.
  intros Hr%reachable_wf. destruct Hr. split; [done|]. destruct wf_bounded0.
  unfold map_len in *. rewrite <- !size_dom in *. split.
  - assert (dom m.(Membership.last_seq)
            ⊆ dom m.(Membership.members) ∪ dom m.(Membership.tombstones)) as Hsub%subseteq_size.
    { intros id Hid%elem_of_dom%wf_last_seq0. rewrite elem_of_union, !elem_of_dom. exact Hid. }
    pose proof (size_union_alt (dom m.(Membership.members)) (dom m.(Membership.tombstones))).
    pose proof (subseteq_size (dom m.(Membership.tombstones) ∖ dom m.(Membership.members))
                  (dom m.(Membership.tombstones)) ltac:(set_solver)). lia.
  - assert (dom m.(Membership.suspicions) ⊆ dom m.(Membership.members)) as Hsub%subseteq_size; [|lia].
    intros id [s Hs]%elem_of_dom. apply elem_of_dom.
    destruct (wf_suspicions0 _ _ Hs) as (_ & mem & ? & _). by exists mem.
Qed.
End runs.

(** ** Concrete instances *)
Definition self_model : Membership.t := ModelFixtures.standalone "node-self".
Lemma self_model_standalone :
  Membership.standalone Testing.formation (ClusterName.mk "test-cluster")
    (Testing.local_identity "node-self") AdmissionPolicy.default Limits.default = Ok self_model.
Proof. vm_compute. reflexivity. Qed.

Lemma self_model_reachable : reachable (H := toy_sha256) self_model.
Proof. eapply reachable_start; [|apply self_model_standalone]. reflexivity. Qed.

Lemma self_model_wf : wf self_model.
Proof. apply (reachable_wf (H := toy_sha256)), self_model_reachable. Qed.

Definition lock_message : Message.t := Message.Local (Command.SetMembershipLock true).
Definition block_message : Message.t :=
  Message.Local (Command.UpdateBlocklist (Testing.blocklist_entry "worker-x")).
Definition after (m : Membership.t) (msg : Message.t) : Membership.t :=
  match update (H := toy_sha256) m msg with
  | Some t => Transition.model t
  | None => m
  end.

Lemma update_refines_steps_witness :
  run (H := toy_sha256) self_model [lock_message; block_message]
  = Some (after (after self_model lock_message) block_message)
  ∧ rtc (λ a b, ∃ msg, msg ∈ [lock_message; block_message] ∧ mstep msg a b)
      self_model (after (after self_model lock_message) block_message).
Proof.
  assert (run (H := toy_sha256) self_model [lock_message; block_message]
          = Some (after (after self_model lock_message) block_message)) as Hr
    by (vm_compute; reflexivity).
  split; [exact Hr|]. exact (update_refines_steps (H := toy_sha256) _ _ _ Hr).
Defined.

Lemma update_preserves_wf_witness :
  ∃ t, wf self_model ∧ update (H := toy_sha256) self_model lock_message = Some t
       ∧ wf (Transition.model t).
Proof.
  destruct (update_some (H := toy_sha256) self_model lock_message (wf_local _ self_model_wf))
    as [t Ht].
  exists t. split; [exact self_model_wf|]. split; [exact Ht|].
  exact (update_preserves_wf (H := toy_sha256) _ _ _ self_model_wf Ht).
Defined.

Lemma update_total_within_budget_witness :
  wf self_model ∧ ∃ t, update (H := toy_sha256) self_model lock_message = Some t
  ∧ (lenN (Transition.effects t)
     ≤ (Transition.model t).(Membership.limits).(LimitsSpec.max_effects_per_update))%N
  ∧ (lenN (Transition.diagnostics t)
     ≤ (Transition.model t).(Membership.limits).(LimitsSpec.max_diagnostics_per_update))%N.
Proof.
  split; [exact self_model_wf|].
  exact (update_total_within_budget (H := toy_sha256) self_model lock_message self_model_wf).
Defined.

(** A baseline barring [node-gone]. *)
Definition barring_message : Message.t :=
  Message.Local (Command.InstallAdmissionBaseline
    (AdmissionBaseline.mk 1 Testing.formation 7 None []
       [Testing.tombstone "node-gone" RemovalMode.Force])).

Lemma barred_model_reachable : reachable (H := toy_sha256) (after self_model barring_message).
Proof.
  unfold after. destruct (update_some (H := toy_sha256) self_model barring_message
    (wf_local _ self_model_wf)) as [t Ht]. rewrite Ht.
  eapply reachable_update; [apply self_model_reachable|exact Ht].
Qed.

Lemma reachable_fenced_witness :
  let m := after self_model barring_message in
  Membership.is_tombstoned m (NodeId.mk "node-gone") = true
  ∧ m.(Membership.members) !! NodeId.mk "node-gone" = None
  ∧ m.(Membership.suspicions) !! NodeId.mk "node-gone" = None
  ∧ ∀ probe p, m.(Membership.probes) !! probe = Some p
      → PendingProbe.target p ≠ NodeId.mk "node-gone".
Proof.
  assert (Membership.is_tombstoned (after self_model barring_message) (NodeId.mk "node-gone")
          = true) as Ht by (vm_compute; reflexivity).
  split; [exact Ht|].
  exact (reachable_fenced (H := toy_sha256) _ _ barred_model_reachable Ht).
Defined.

Lemma reachable_bounded_witness :
  let m := self_model in
  bounded m
  ∧ (map_len m.(Membership.last_seq)
     ≤ m.(Membership.limits).(LimitsSpec.max_members)
       + m.(Membership.limits).(LimitsSpec.max_tombstones))%N
  ∧ (map_len m.(Membership.suspicions) ≤ m.(Membership.limits).(LimitsSpec.max_members))%N.
Proof. exact (reachable_bounded (H := toy_sha256) _ self_model_reachable). Defined.
