(* ===== verification/Convergence.v ===== *)
(** * What merging guarantees, and where it stops (merge.rs)

    The SWIM override relation as an order, replay idempotence, the
    independence of description and liveness, convergence of tombstones and of
    member records in any order of arrival, and the one case where the order of
    arrival decides. *)

From Stdlib Require Import Ascii.
From stdpp Require Import base gmap strings list sorting fin_maps pretty relations.
From S2P Require Import Prelude Identity Limits Records Gossip Vocabulary Model Merge Admission Antientropy Update Steps Refinement Invariants.

(** ** The override relation *)

(** A liveness claim. *)
Definition claim : Type := Liveness.t * Incarnation.t.
Definition supersedes (a b : claim) : bool := swim_supersedes a.1 a.2 b.1 b.2.
Definition claim_of (m : Member.t) : claim := (Member.liveness m, Member.incarnation m).
(** What is held after a claim. *)
Definition claim_join (held incoming : claim) : claim :=
  if supersedes incoming held then incoming else held.

Definition claim_rank (l : Liveness.t) : N :=
  match l with Liveness.Alive => 0 | Liveness.Suspected => 1 | Liveness.Dead => 2 end.

Ltac swim :=
  unfold supersedes, swim_supersedes, Incarnation.geb, Incarnation.gtb in *; simpl in *;
  rewrite ?N.leb_le, ?N.ltb_lt, ?N.leb_gt, ?N.ltb_ge in *; try done; try lia.

Lemma supersedes_irrefl a : supersedes a a = false.
Proof. destruct a as [[] [i]]; swim. Qed.

Lemma supersedes_trans a b c :
  supersedes a b = true → supersedes b c = true → supersedes a c = true.
Proof. destruct a as [[] [i]], b as [[] [j]], c as [[] [k]]; swim. Qed.

(** The override table is a strict partial order in which death is final:
    irreflexive, transitive, nothing supersedes [Dead], and between claims that
    are not [Dead] it is the lexicographic order on incarnation, then
    [Alive < Suspected]. *)
Theorem swim_override_order :
  (∀ a, supersedes a a = false)
  ∧ (∀ a b c, supersedes a b = true → supersedes b c = true → supersedes a c = true)
  ∧ (∀ a i, supersedes a (Liveness.Dead, i) = false)
  ∧ (∀ s i t j, s ≠ Liveness.Dead → t ≠ Liveness.Dead →
       supersedes (s, i) (t, j) = true ↔
       cmp (Incarnation.raw j, claim_rank t) (Incarnation.raw i, claim_rank s) = Lt).
Proof.
  split_and!; [apply supersedes_irrefl|apply supersedes_trans|by intros [[] ?]|].
  intros s [i] t [j] Hs Ht. unfold cmp, prod_ord; simpl. unfold cmp, N_ord.
  destruct (N.compare_spec j i); destruct s, t; simpl; swim; split; try done; swim.
Qed.

(** ** Replay *)
Lemma merge_member_stale m inc current :
  m.(Membership.members) !! Member.id inc = Some current →
  ¬ Member.version current ≺ Member.version inc →
  supersedes (claim_of inc) (claim_of current) = false →
  (merge_member m inc).1 = m ∧ no_news (merge_member m inc).2.
Proof.
  intros Hcur Hold Hsw. unfold merge_member. destruct (Member.validate inc _); [|done].
  destruct (Membership.is_tombstoned _ _); [done|].
  destruct (decide _); [split; [done|]; simpl; by repeat case_match|].
  rewrite Hcur. destruct (decide _); [done|]. destruct (decide _); [done|].
  rewrite bool_decide_false by (by rewrite compare_descriptions_newer).
  unfold supersedes in Hsw. simpl in Hsw. by rewrite Hsw.
Qed.

(** What an adopted record is: the newer description, the superseding claim. *)
Lemma merged_member_spec current inc :
  Member.version (merged_member current inc)
    = (if decide (compare_descriptions inc current = DescriptionOrder.Newer)
       then Member.version inc else Member.version current)
  ∧ Description.of_member (merged_member current inc)
    = (if decide (compare_descriptions inc current = DescriptionOrder.Newer)
       then Description.of_member inc else Description.of_member current)
  ∧ claim_of (merged_member current inc) = claim_join (claim_of current) (claim_of inc).
Proof.
  unfold merged_member, claim_join, supersedes, claim_of. simpl.
  by destruct (decide _), (swim_supersedes _ _ _ _).
Qed.

Lemma claim_join_stale a b : supersedes b (claim_join a b) = false.
Proof. unfold claim_join. destruct (supersedes b a) eqn:Hs; [apply supersedes_irrefl|done]. Qed.

Lemma merged_member_replay m inc current :
  m.(Membership.members) !! Member.id inc = Some (merged_member current inc) →
  (merge_member m inc).1 = m ∧ no_news (merge_member m inc).2.
Proof.
  intros Hm. destruct (merged_member_spec current inc) as (Hv & _ & Hc).
  eapply merge_member_stale; [exact Hm| |].
  - rewrite Hv. destruct (decide _) as [|Hn]; [by rewrite cmp_refl|].
    by rewrite compare_descriptions_newer in Hn.
  - rewrite Hc. apply claim_join_stale.
Qed.

(** Merging a delta twice is merging it once: the replay leaves the model as
    it is and is never adopted, so it is neither re-gossiped nor published. *)
Theorem merge_delta_idempotent (m : Membership.t) (body : DeltaBody.t) :
  let m' := (merge_delta m body).1 in
  (merge_delta m' body).1 = m' ∧ no_news (merge_delta m' body).2.
Proof.
  destruct body as [inc|inc|inc|inc|f]; cbv zeta; simpl; [| | | |done].
  - destruct (merge_member_cases m inc) as [[Hsame ?]|(Hval & Hts & Hloc & Hcases)];
      [by rewrite Hsame|].
    destruct (Membership.members m !! Member.id inc) as [current|] eqn:Hcur.
    + destruct Hcases as (_ & after & _ & ->). eapply (merged_member_replay _ inc current).
      simpl. by rewrite lookup_insert_eq.
    + destruct Hcases as [_ ->]. eapply (merge_member_stale _ inc inc); simpl.
      * by rewrite lookup_insert_eq.
      * by rewrite cmp_refl.
      * apply supersedes_irrefl.
  - destruct (merge_tombstone_cases m inc) as [[Hsame ?]|(-> & Hreason & Hnews)];
      [by rewrite Hsame|].
    unfold merge_tombstone. simpl. rewrite lookup_insert_eq, decide_True by done.
    by destruct (_ && _).
  - destruct (merge_blocklist_cases m inc) as [[Hsame ?]|(-> & Hval & Hnews)];
      [by rewrite Hsame|].
    unfold merge_blocklist. simpl. rewrite Hval, lookup_insert_eq, decide_True by done. done.
  - destruct (merge_policy_cases m inc) as [[Hsame ?]|(-> & Hnews)]; [by rewrite Hsame|].
    unfold merge_policy. simpl. by rewrite decide_True.
Qed.

(** ** Description and liveness are merged independently *)

(** A delta about a known member that passes the fences. *)
Record about_member (m : Membership.t) (current inc : Member.t) : Prop := {
  about_held : m.(Membership.members) !! Member.id inc = Some current;
  about_id : Member.id current = Member.id inc;
  about_cert : Member.cert_fingerprint inc = Member.cert_fingerprint current;
  about_valid : Member.validate inc m.(Membership.limits) = Ok ();
  about_unbarred : Membership.is_tombstoned m (Member.id inc) = false;
  about_other : Member.id inc ≠ Membership.local_id m
}.

Lemma member_ext (a b : Member.t) :
  Description.of_member a = Description.of_member b → Member.version a = Member.version b →
  claim_of a = claim_of b → a = b.
Proof.
  destruct a, b. unfold Description.of_member, claim_of, claim. simpl. intros Hd Hv Hc.
  injection Hd. injection Hc. intros. by subst.
Qed.

Lemma merge_member_known m current inc :
  about_member m current inc →
  (merge_member m inc).1.(Membership.members)
    = <[Member.id inc := merged_member current inc]> m.(Membership.members)
  ∧ (merge_member m inc).1.(Membership.tombstones) = m.(Membership.tombstones)
  ∧ (merge_member m inc).1.(Membership.local) = m.(Membership.local)
  ∧ (merge_member m inc).1.(Membership.limits) = m.(Membership.limits).
Proof.
  intros []. destruct (merge_member_cases m inc) as [[Hsame Hno]|(_ & _ & _ & Hcases)].
  - rewrite Hsame. split; [|done]. symmetry. apply insert_id. rewrite about_held0. f_equal.
    assert (¬ Member.version current ≺ Member.version inc
            ∧ supersedes (claim_of inc) (claim_of current) = false ∨ inc = current)
      as [[Hv Hs]|Heq].
    { unfold merge_member in Hno. rewrite about_valid0, about_unbarred0 in Hno.
      rewrite decide_False in Hno by done. rewrite about_held0 in Hno.
      rewrite decide_False in Hno by (by intros []).
      destruct (decide (inc = current)); [by right|]. left.
      rewrite <- compare_descriptions_newer. unfold supersedes. simpl.
      destruct (decide (compare_descriptions inc current = DescriptionOrder.Newer)) as [Hn|Hn].
      - by rewrite (bool_decide_true _ Hn) in Hno.
      - split; [done|]. rewrite (bool_decide_false _ Hn) in Hno.
        by destruct (swim_supersedes _ _ _ _). }
    + destruct (merged_member_spec current inc) as (H1 & H2 & H3).
      rewrite decide_False in H1 by (by rewrite compare_descriptions_newer).
      rewrite decide_False in H2 by (by rewrite compare_descriptions_newer).
      unfold claim_join in H3. rewrite Hs in H3. symmetry. by apply member_ext.
    + subst inc. destruct (merged_member_spec current current) as (H1 & H2 & H3).
      assert (compare_descriptions current current ≠ DescriptionOrder.Newer) as Hn.
      { by rewrite compare_descriptions_newer, cmp_refl. }
      rewrite decide_False in H1 by done. rewrite decide_False in H2 by done.
      unfold claim_join in H3. rewrite supersedes_irrefl in H3. symmetry. by apply member_ext.
  - rewrite about_held0 in Hcases. destruct Hcases as (_ & after & _ & ->). done.
Qed.

(** what is held of a known member after a delta: the description of
    whichever record has the newer version, the liveness of whichever claim
    prevails, decided separately; everybody else's record is untouched. *)
Theorem merge_member_projections (m : Membership.t) (current inc : Member.t) :
  about_member m current inc →
  ∃ merged,
    (merge_member m inc).1.(Membership.members) = <[Member.id inc := merged]> m.(Membership.members)
    ∧ (Member.version current ≺ Member.version inc →
       Member.version merged = Member.version inc
       ∧ Description.of_member merged = Description.of_member inc)
    ∧ (¬ Member.version current ≺ Member.version inc →
       Member.version merged = Member.version current
       ∧ Description.of_member merged = Description.of_member current)
    ∧ claim_of merged = (if supersedes (claim_of inc) (claim_of current)
                         then claim_of inc else claim_of current).
Proof.
  intros Ha. exists (merged_member current inc).
  destruct (merge_member_known _ _ _ Ha) as [-> _].
  destruct (merged_member_spec current inc) as (Hv & Hd & Hc).
  split; [done|]. rewrite <- compare_descriptions_newer, Hv, Hd, Hc.
  by destruct (decide _).
Qed.

(** ** Member records converge, short of a death that is outrun *)

(** Two claims whose order of arrival cannot matter: a [Dead] claim is at least
    as recent as the other. *)
Definition settled (a b : claim) : Prop :=
  (a.1 = Liveness.Dead → Incarnation.geb a.2 b.2 = true)
  ∧ (b.1 = Liveness.Dead → Incarnation.geb b.2 a.2 = true).

Lemma claim_join_comm h a b :
  settled a b → claim_join (claim_join h a) b = claim_join (claim_join h b) a.
Proof.
  destruct h as [hs [h]], a as [sa [a]], b as [sb [b]]. intros [Ha Hb].
  unfold claim_join, supersedes, swim_supersedes, Incarnation.geb, Incarnation.gtb in *; simpl in *.
  destruct hs, sa, sb; simpl in *; try specialize (Ha eq_refl); try specialize (Hb eq_refl);
    rewrite ?N.leb_le in *;
    repeat (match goal with
      | |- context [(?x <? ?y)%N] => destruct (N.ltb_spec x y)
      | |- context [(?x <=? ?y)%N] => destruct (N.leb_spec x y) end; simpl in *);
    try done; try lia; f_equal; f_equal; lia.
Qed.

(** The description held after a record. *)
Definition described (m : Member.t) : VersionTuple.t * Description.t :=
  (Member.version m, Description.of_member m).
Definition describe_join (held incoming : VersionTuple.t * Description.t)
    : VersionTuple.t * Description.t :=
  if decide (held.1 ≺ incoming.1) then incoming else held.

Lemma describe_join_comm h a b :
  (a.1 = b.1 → a = b) → describe_join (describe_join h a) b = describe_join (describe_join h b) a.
Proof.
  intros Hab. unfold describe_join.
  destruct (decide (h.1 ≺ a.1)) as [Ha|Ha], (decide (h.1 ≺ b.1)) as [Hb|Hb]; simpl.
  - destruct (decide (a.1 ≺ b.1)) as [H1|H1], (decide (b.1 ≺ a.1)) as [H2|H2]; try done.
    + destruct (cmp_lt_irrefl a.1). by eapply cmp_lt_trans.
    + apply Hab. apply cmp_le_antisym; rewrite cmp_gt_lt; [done|done].
  - destruct (decide (a.1 ≺ b.1)) as [H1|]; [|first [done|by rewrite decide_True]].
    destruct Hb. by eapply cmp_lt_trans.
  - destruct (decide (b.1 ≺ a.1)); [|first [done|by rewrite decide_True]].
    destruct Ha. by eapply cmp_lt_trans.
  - by rewrite !decide_False.
Qed.

Lemma merged_member_joins current inc :
  claim_of (merged_member current inc) = claim_join (claim_of current) (claim_of inc)
  ∧ described (merged_member current inc) = describe_join (described current) (described inc).
Proof.
  destruct (merged_member_spec current inc) as (Hv & Hd & Hc). split; [done|].
  unfold described, describe_join. rewrite Hv, Hd. simpl.
  destruct (decide (compare_descriptions inc current = _)) as [Hn|Hn];
    rewrite compare_descriptions_newer in Hn.
  - by rewrite decide_True.
  - by rewrite decide_False.
Qed.

Lemma merged_member_comm h a b :
  settled (claim_of a) (claim_of b) →
  (Member.version a = Member.version b → Description.of_member a = Description.of_member b) →
  merged_member (merged_member h a) b = merged_member (merged_member h b) a.
Proof.
  intros Hs Hd.
  destruct (merged_member_joins (merged_member h a) b) as [Hc1 Hd1].
  destruct (merged_member_joins (merged_member h b) a) as [Hc2 Hd2].
  destruct (merged_member_joins h a) as [Hca Hda], (merged_member_joins h b) as [Hcb Hdb].
  rewrite Hca, claim_join_comm, <- Hcb, <- Hc2 in Hc1 by done.
  rewrite Hda, describe_join_comm, <- Hdb, <- Hd2 in Hd1
    by (unfold described; simpl; intros Hv; rewrite Hv; f_equal; by apply Hd).
  unfold described in Hd1. apply member_ext; congruence.
Qed.

Lemma about_member_after m current a b :
  about_member m current a → about_member m current b → Member.id a = Member.id b →
  about_member (merge_member m a).1 (merged_member current a) b.
Proof.
  intros Ha [] Hid. destruct (merge_member_known _ _ _ Ha) as (Hm & Ht & Hl & Hlim).
  destruct Ha. split.
  - by rewrite Hm, Hid, lookup_insert_eq.
  - destruct (merged_member_spec current a) as (_ & Hd & _).
    apply (f_equal Description.id) in Hd. simpl in Hd. rewrite Hd. destruct (decide _); simpl; congruence.
  - destruct (merged_member_spec current a) as (_ & Hd & _).
    apply (f_equal Description.cert_fingerprint) in Hd. simpl in Hd. rewrite Hd.
    destruct (decide _); simpl; congruence.
  - by rewrite Hlim.
  - unfold Membership.is_tombstoned in *. by rewrite Ht.
  - unfold Membership.local_id in *. by rewrite Hl.
Qed.


(** ** The order of arrival decides when a death is outrun *)

(** A peer's view: [node-b] alive at incarnation 0, version 1. *)
Definition view : Membership.t := ModelFixtures.with_members ["node-b"].
Definition node_b : NodeId.t := NodeId.mk "node-b".
Definition b_claims (l : Liveness.t) (i : N) : Member.t :=
  Member.set_liveness (Testing.member "node-b" 1) l (Incarnation.mk i).
Definition held_b (m : Membership.t) : option claim :=
  claim_of <$> m.(Membership.members) !! node_b.

(** a [Dead] claim outrun by the subject's own newer [Alive] leaves two
    nodes that saw the same two records in different orders with different
    liveness, and exchanging what they hold repairs neither: each refuses the
    other's record. *)
Theorem dead_alive_race_diverges :
  let dead := b_claims Liveness.Dead 1 in
  let alive := b_claims Liveness.Alive 5 in
  let first := (merge_member (merge_member view dead).1 alive).1 in
  let second := (merge_member (merge_member view alive).1 dead).1 in
  held_b first = Some (Liveness.Dead, Incarnation.mk 1)
  ∧ held_b second = Some (Liveness.Alive, Incarnation.mk 5)
  ∧ (∀ r, second.(Membership.members) !! node_b = Some r → (merge_member first r).1 = first)
  ∧ (∀ r, first.(Membership.members) !! node_b = Some r → (merge_member second r).1 = second).
Proof.
  cbv zeta. split_and!; [vm_compute; reflexivity|vm_compute; reflexivity| |].
  - intros r Hr. vm_compute in Hr. injection Hr as <-. vm_compute. reflexivity.
  - intros r Hr. vm_compute in Hr. injection Hr as <-. vm_compute. reflexivity.
Qed.

(** ** Tombstones converge in any order *)
Definition tombstone_newer (m : Membership.t) (t : MembershipTombstone.t) : Prop :=
  register_news MembershipTombstone.version
    (m.(Membership.tombstones) !! MembershipTombstone.node_id t) t True.
#[global] Instance tombstone_newer_dec m t : Decision (tombstone_newer m t).
Proof. unfold tombstone_newer, register_news. case_match; apply _. Defined.

(** Merging a tombstone there is room for: installed when newer, else ignored. *)
Definition bar (m : Membership.t) (t : MembershipTombstone.t) : Membership.t :=
  if decide (tombstone_newer m t) then install_tombstone m t else m.

(** Room for [n] more tombstones. *)
Definition room (m : Membership.t) (n : nat) : Prop :=
  (map_len m.(Membership.tombstones) + N.of_nat n
   ≤ m.(Membership.limits).(LimitsSpec.max_tombstones))%N.

Lemma merge_tombstone_bar m t :
  reason_fits m.(Membership.limits) t → room m 1 → (merge_tombstone m t).1 = bar m t.
Proof.
  intros Hr Hroom. unfold room in Hroom. unfold bar.
  unfold merge_tombstone, reason_fits in *.
  replace (bool_decide (is_Some (MembershipTombstone.reason t)) && _) with false; cycle 1.
  { symmetry. destruct (MembershipTombstone.reason t); [|done]. simpl. by apply N.ltb_ge. }
  destruct (decide (tombstone_newer m t)) as [Hn|Hn]; unfold tombstone_newer in Hn;
    destruct (Membership.tombstones m !! MembershipTombstone.node_id t) as [c|] eqn:Hc;
    simpl in Hn.
  - rewrite decide_False by (intros ->; by rewrite cmp_refl in Hn).
    rewrite decide_False by (intros Heq; by rewrite Heq, cmp_refl in Hn).
    unfold cmp_gtb. by rewrite Hn.
  - destruct (N.leb_spec (Membership.limits m).(LimitsSpec.max_tombstones)
                (map_len (Membership.tombstones m))); [lia|done].
  - destruct (decide (c = t)); [done|]. destruct (decide _) as [|Hv]; [done|].
    unfold cmp_gtb. destruct (cmp (MembershipTombstone.version c) _) eqn:Hcmp; [|done|done].
    by apply cmp_eq in Hcmp.
  - by destruct Hn.
Qed.

Lemma bar_frame m t :
  (bar m t).(Membership.limits) = m.(Membership.limits)
  ∧ (map_len (bar m t).(Membership.tombstones) ≤ map_len m.(Membership.tombstones) + 1)%N.
Proof.
  unfold bar. destruct (decide _); simpl; [|split; [done|lia]].
  split; [done|]. apply map_len_insert_le.
Qed.

Lemma install_tombstone_eq m t :
  let node := MembershipTombstone.node_id t in
  install_tombstone m t = Membership.mk
    m.(Membership.membership_policy) m.(Membership.formation) m.(Membership.cluster_name)
    m.(Membership.local) m.(Membership.incarnation) m.(Membership.next_seq)
    m.(Membership.next_correlation)
    (delete node m.(Membership.members)) (<[node := t]> m.(Membership.tombstones))
    m.(Membership.blocklist) (delete node m.(Membership.last_seq))
    (filter (λ kp, PendingProbe.target kp.2 ≠ node) m.(Membership.probes))
    (delete node m.(Membership.suspicions)) m.(Membership.admissions) m.(Membership.selections)
    m.(Membership.join_attempt) m.(Membership.anti_entropy) m.(Membership.gossip)
    m.(Membership.policy) m.(Membership.limits).
Proof. reflexivity. Qed.

Lemma install_install_same m a b :
  MembershipTombstone.node_id a = MembershipTombstone.node_id b →
  install_tombstone (install_tombstone m a) b = install_tombstone m b.
Proof.
  intros Hid. rewrite !install_tombstone_eq. cbv zeta. simpl. rewrite Hid.
  rewrite !delete_delete_eq, insert_insert_eq, map_filter_filter_l; [done|naive_solver].
Qed.

Lemma install_comm m a b :
  MembershipTombstone.node_id a ≠ MembershipTombstone.node_id b →
  install_tombstone (install_tombstone m a) b = install_tombstone (install_tombstone m b) a.
Proof.
  intros Hid. rewrite !install_tombstone_eq. cbv zeta. simpl.
  rewrite (insert_insert_ne _ (MembershipTombstone.node_id a)) by done.
  f_equal; try apply delete_delete.
  rewrite !map_filter_filter. apply map_filter_ext. intros i x _. simpl. tauto.
Qed.

Lemma bar_yes m t : tombstone_newer m t → bar m t = install_tombstone m t.
Proof. intros. unfold bar. by rewrite decide_True. Qed.
Lemma bar_no m t : ¬ tombstone_newer m t → bar m t = m.
Proof. intros. unfold bar. by rewrite decide_False. Qed.

(** Two tombstones that do not dispute one version. *)
Definition undisputed (a b : MembershipTombstone.t) : Prop :=
  MembershipTombstone.node_id a = MembershipTombstone.node_id b →
  MembershipTombstone.version a = MembershipTombstone.version b → a = b.

Lemma newer_other m a b :
  MembershipTombstone.node_id a ≠ MembershipTombstone.node_id b →
  tombstone_newer (bar m a) b ↔ tombstone_newer m b.
Proof.
  intros Hid. unfold bar. destruct (decide _); [|done].
  unfold tombstone_newer. simpl. by rewrite lookup_insert_ne.
Qed.

Lemma newer_same m a b :
  MembershipTombstone.node_id a = MembershipTombstone.node_id b → tombstone_newer m a →
  tombstone_newer (bar m a) b ↔ MembershipTombstone.version a ≺ MembershipTombstone.version b.
Proof.
  intros Hid Ha. rewrite (bar_yes m a Ha). unfold tombstone_newer. simpl.
  by rewrite <- Hid, lookup_insert_eq.
Qed.

Lemma newer_trans m a b :
  MembershipTombstone.node_id a = MembershipTombstone.node_id b → tombstone_newer m a →
  MembershipTombstone.version a ≺ MembershipTombstone.version b → tombstone_newer m b.
Proof.
  unfold tombstone_newer. intros Hid. rewrite <- Hid. unfold register_news.
  case_match; [|done]. intros. by eapply cmp_lt_trans.
Qed.

Lemma bar_comm m a b : undisputed a b → bar (bar m a) b = bar (bar m b) a.
Proof.
  intros Hu.
  destruct (decide (MembershipTombstone.node_id a = MembershipTombstone.node_id b)) as [Hid|Hid].
  - destruct (decide (tombstone_newer m a)) as [Ha|Ha], (decide (tombstone_newer m b)) as [Hb|Hb].
    + destruct (cmp (MembershipTombstone.version a) (MembershipTombstone.version b)) eqn:Hv.
      * apply cmp_eq in Hv. by rewrite (Hu Hid Hv).
      * rewrite (bar_yes (bar m a) b) by (by apply newer_same).
        rewrite (bar_no (bar m b) a); cycle 1.
        { rewrite newer_same by done. rewrite cmp_antisym, Hv. done. }
        rewrite (bar_yes m a), (bar_yes m b) by done. by apply install_install_same.
      * apply cmp_gt_lt in Hv. rewrite (bar_yes (bar m b) a) by (by apply newer_same).
        rewrite (bar_no (bar m a) b); cycle 1.
        { rewrite newer_same by done. rewrite cmp_antisym, Hv. done. }
        rewrite (bar_yes m a), (bar_yes m b) by done. symmetry. by apply install_install_same.
    + rewrite (bar_no m b) by done. apply bar_no. rewrite newer_same by done.
      intros Hlt. apply Hb. by eapply newer_trans.
    + rewrite (bar_no m a) by done. symmetry. apply bar_no. rewrite newer_same by done.
      intros Hlt. apply Ha. by eapply newer_trans.
    + by rewrite (bar_no m a), (bar_no m b), bar_no.
  - destruct (decide (tombstone_newer m a)) as [Ha|Ha], (decide (tombstone_newer m b)) as [Hb|Hb].
    + rewrite (bar_yes (bar m a) b), (bar_yes (bar m b) a) by (by rewrite newer_other).
      rewrite !bar_yes by done. by apply install_comm.
    + by rewrite (bar_no (bar m a) b), (bar_no m b) by (by rewrite ?newer_other).
    + by rewrite (bar_no (bar m b) a), (bar_no m a) by (by rewrite ?newer_other).
    + by rewrite (bar_no m a), (bar_no m b), bar_no.
Qed.

Definition merge_tombstones (m : Membership.t) (l : list MembershipTombstone.t) : Membership.t :=
  foldl (λ m t, (merge_delta m (DeltaBody.TombstoneUpdate t)).1) m l.

Lemma room_bar m t n : room m (S n) → room (bar m t) n.
Proof. unfold room. destruct (bar_frame m t) as [-> ?]. lia. Qed.

Lemma merge_tombstones_bar m l :
  Forall (reason_fits m.(Membership.limits)) l → room m (length l) →
  merge_tombstones m l = foldl bar m l.
Proof.
  revert m. induction l as [|t l IH]; intros m Hf Hroom; [done|].
  change (merge_tombstones m (t :: l))
    with (merge_tombstones (merge_delta m (DeltaBody.TombstoneUpdate t)).1 l).
  cbn [foldl]. apply Forall_cons in Hf as [Ht Hf].
  assert ((merge_delta m (DeltaBody.TombstoneUpdate t)).1 = bar m t) as ->.
  { apply merge_tombstone_bar; [done|]. unfold room in *. simpl in Hroom. lia. }
  apply IH; [|by apply room_bar]. by destruct (bar_frame m t) as [-> _].
Qed.

(** removal barriers converge: any two orders of arrival of the same
    tombstones, none disputing another's version, leave exactly the same model,
    when there is room for them. *)
Theorem tombstones_converge (m : Membership.t) (l k : list MembershipTombstone.t) :
  l ≡ₚ k →
  (∀ a b, a ∈ l → b ∈ l → undisputed a b) →
  Forall (reason_fits m.(Membership.limits)) l →
  room m (length l) →
  merge_tombstones m l = merge_tombstones m k.
Proof.
  intros Hp Hu Hf Hroom.
  rewrite (merge_tombstones_bar m l), (merge_tombstones_bar m k);
    [|by rewrite <- Hp|by rewrite <- Hp|done..].
  clear Hf Hroom. revert m Hu. induction Hp as [|t l k Hp IH|a b l|l k j Hp1 IH1 Hp2 IH2];
    intros m Hu; simpl; [done| | |].
  - apply IH. intros. apply Hu; by right.
  - rewrite bar_comm; [done|]. apply Hu; set_solver.
  - rewrite IH1 by done. apply IH2. intros x y Hx Hy. apply Hu; by rewrite Hp1.
Qed.

(** ** Concrete instances *)
Definition newer_b : Member.t :=
  Member.set_liveness (Testing.member "node-b" 4) Liveness.Suspected (Incarnation.mk 2).
Definition held_member_b : Member.t := Testing.member "node-b" 1.

Lemma about_b (inc : Member.t) :
  view.(Membership.members) !! Member.id inc = Some held_member_b →
  Member.cert_fingerprint inc = Member.cert_fingerprint held_member_b →
  Member.id inc = node_b →
  Member.validate inc Limits.default = Ok () → about_member view held_member_b inc.
Proof.
  intros Hm Hc Hid Hv. split; try done; rewrite Hid; by vm_compute.
Qed.

Lemma merge_member_projections_witness :
  about_member view held_member_b newer_b
  ∧ ∃ merged,
      (merge_member view newer_b).1.(Membership.members)
      = <[Member.id newer_b := merged]> view.(Membership.members)
      ∧ (Member.version held_member_b ≺ Member.version newer_b →
         Member.version merged = Member.version newer_b
         ∧ Description.of_member merged = Description.of_member newer_b)
      ∧ (¬ Member.version held_member_b ≺ Member.version newer_b →
         Member.version merged = Member.version held_member_b
         ∧ Description.of_member merged = Description.of_member held_member_b)
      ∧ claim_of merged = (if supersedes (claim_of newer_b) (claim_of held_member_b)
                           then claim_of newer_b else claim_of held_member_b).
Proof.
  assert (about_member view held_member_b newer_b) as Ha by (apply about_b; vm_compute; reflexivity).
  split; [exact Ha|]. exact (merge_member_projections view held_member_b newer_b Ha).
Defined.


Definition two_tombstones : list MembershipTombstone.t :=
  [Testing.tombstone "node-b" RemovalMode.Force; Testing.tombstone "node-c" RemovalMode.Dead].

Lemma tombstones_converge_witness :
  room view 2
  ∧ merge_tombstones view two_tombstones = merge_tombstones view (reverse two_tombstones).
Proof.
  assert (room view (length two_tombstones)) as Hr by (vm_compute; discriminate).
  split; [exact Hr|].
  apply (tombstones_converge view two_tombstones (reverse two_tombstones));
    [by rewrite reverse_Permutation| |by repeat constructor|exact Hr].
  intros a b Ha Hb.
  apply elem_of_cons in Ha as [->|Ha%list_elem_of_singleton]; [|subst a];
    (apply elem_of_cons in Hb as [->|Hb%list_elem_of_singleton]; [|subst b]);
    unfold undisputed; simpl; done.
Defined.
