(* ===== verification/Safety.v ===== *)
(** * What transitions may and may not do (update.rs)

    Refused input, stale timers, the growth of the replicated state, the
    evidence behind an admission, the end of a join, and the lost suspicion
    deadline. *)

From Stdlib Require Import Ascii.
From stdpp Require Import base gmap strings list sorting fin_maps pretty relations.
From S2P Require Import Prelude Identity Limits Records Gossip Vocabulary Model Merge Admission Antientropy Update Steps Refinement Invariants Convergence.

(** A transition that does nothing but report. *)
Definition only_reports (m : Membership.t) (t : Transition.t) : Prop :=
  Transition.model t = m ∧ Transition.effects t = [] ∧ Transition.foreign_gossip t = [].

Lemma finish_quiet m d :
  only_reports m (Context.finish (Context.note (Context.new m) d)).
Proof.
  unfold only_reports, Context.finish. simpl.
  destruct (N.ltb_spec (Membership.limits m).(LimitsSpec.max_effects_per_update) (lenN (@nil Effect.t)))
    as [Hlt|_]; [unfold lenN in Hlt; simpl in Hlt; lia|done].
Qed.

Lemma finish_diagnostics m d :
  m.(Membership.limits).(LimitsSpec.max_diagnostics_per_update) ≠ 0%N →
  Transition.diagnostics (Context.finish (Context.note (Context.new m) d)) = [d].
Proof.
  intros Hnz. unfold Context.finish. simpl.
  destruct (N.ltb_spec (Membership.limits m).(LimitsSpec.max_effects_per_update) (lenN (@nil Effect.t)))
    as [Hlt|_]; [unfold lenN in Hlt; simpl in Hlt; lia|]. simpl.
  destruct (N.ltb_spec (Membership.limits m).(LimitsSpec.max_diagnostics_per_update) (lenN [d]))
    as [Hlt|_]; [unfold lenN in Hlt; simpl in Hlt; lia|done].
Qed.

Section safety.
Context `{Sha256}.

(** ** Refused peers *)

(** Input the transition must not act on: an unauthenticated session, or a
    post-admission body from anyone but a member of this formation presenting
    its pinned certificate. *)
Definition refused (m : Membership.t) (context : PeerContext.t) (body : PeerBody.t) : Prop :=
  PeerContext.authenticated context = false
  ∨ (match body with PeerBody.JoinRequest _ _ _ _ | PeerBody.JoinReply _ => False | _ => True end
     ∧ ∀ sender mem, PeerContext.formation context = m.(Membership.formation) →
         PeerContext.sender context = SenderIdentity.Admitted_ sender →
         m.(Membership.members) !! sender = Some mem →
         Member.cert_fingerprint mem ≠ PeerContext.cert_fingerprint context).

Lemma check_sender_refused m context :
  (∀ sender mem, PeerContext.formation context = m.(Membership.formation) →
     PeerContext.sender context = SenderIdentity.Admitted_ sender →
     m.(Membership.members) !! sender = Some mem →
     Member.cert_fingerprint mem ≠ PeerContext.cert_fingerprint context) →
  ∃ d, check_sender m context = Err d.
Proof.
  intros Hno. destruct (check_sender m context) as [sender|d] eqn:Hc; [|by exists d].
  apply check_sender_ok in Hc as (Hs & Hf & mem & Hm & Hcert). by destruct (Hno _ _ Hf Hs Hm).
Qed.

(** refused input changes nothing: the model is returned as it was, no
    effect is asked of the shell, no foreign gossip is handed on. *)
Theorem refused_peer_changes_nothing (m : Membership.t) (context : PeerContext.t)
    (body : PeerBody.t) :
  refused m context body →
  ∃ t, update m (Message.Peer (PeerInput.mk context body)) = Some t ∧ only_reports m t.
Proof.
  intros Hr. unfold update. simpl. eexists. split; [done|]. unfold handle_peer. simpl.
  destruct Hr as [->|[Hb Hno]]; [apply finish_quiet|].
  destruct (PeerContext.authenticated context); simpl; [|apply finish_quiet].
  destruct (check_sender_refused _ _ Hno) as [d Hd].
  destruct body; try done; unfold handle_member_message; simpl; rewrite Hd; apply finish_quiet.
Qed.

(** ** Stale timers *)
Definition timer_held (m : Membership.t) (token : TimerToken.t) : Prop :=
  (∃ id p, m.(Membership.probes) !! id = Some p ∧ PendingProbe.timer p = token)
  ∨ (∃ id s, m.(Membership.suspicions) !! id = Some s ∧ Suspicion.timer s = token)
  ∨ (∃ r, m.(Membership.anti_entropy) = Some r ∧ AntiEntropyRound.timer r = token)
  ∨ (∃ a, m.(Membership.join_attempt) = Some a ∧ JoinAttempt.timer a = token).

Lemma find_none_list {A} (f : A → bool) (l : list A) :
  (∀ x, x ∈ l → f x = false) → List.find f l = None.
Proof.
  induction l as [|x l IH]; simpl; intros Hf; [done|].
  rewrite Hf by (by left). apply IH. intros. apply Hf. by right.
Qed.

Lemma stale_timer_noted m token :
  ¬ timer_held m token →
  handle_timer (Context.new m) token = Context.note (Context.new m) (Diagnostic.StaleTimer token).
Proof.
  intros Hno. unfold timer_held in Hno.
  assert (handle_probe_timer (Context.new m) token
          = Context.note (Context.new m) (Diagnostic.StaleTimer token)) as Hprobe.
  { unfold handle_probe_timer. simpl. rewrite find_none_list; [done|].
    intros p [id Hp]%elem_of_btree_values. apply bool_decide_eq_false. naive_solver. }
  unfold handle_timer. destruct (TimerToken.kind token); [done|done| | |].
  - unfold handle_suspicion_timer. simpl. rewrite find_none_list; [done|].
    intros [id s] Hs%elem_of_btree_entries. apply bool_decide_eq_false. simpl. naive_solver.
  - unfold handle_anti_entropy_timer. simpl. destruct (Membership.anti_entropy m) as [r|]; [|done].
    rewrite decide_False; [done|]. naive_solver.
  - unfold handle_join_timer. simpl. destruct (Membership.join_attempt m) as [a|]; [|done].
    rewrite decide_False; [done|]. naive_solver.
Qed.

(** the expiry of a timer nothing waits for any more is reported and
    otherwise ignored. *)
Theorem stale_timer_ignored (m : Membership.t) (token : TimerToken.t) :
  wf m → ¬ timer_held m token →
  ∃ t, update m (Message.Timer token) = Some t ∧ only_reports m t
       ∧ Transition.diagnostics t = [Diagnostic.StaleTimer token].
Proof.
  intros Hwf Hno. unfold update. simpl. rewrite stale_timer_noted by done.
  eexists. split; [done|]. split; [apply finish_quiet|]. apply finish_diagnostics.
  by destruct (limits_positive _ (wf_limits _ Hwf)) as (_ & _ & ? & _).
Qed.

(** ** The end of a join *)

(** The expiry of the pending attempt's timer. *)
Definition expire (m : Membership.t) : Membership.t :=
  match m.(Membership.join_attempt) with
  | Some attempt =>
    match update m (Message.Timer (JoinAttempt.timer attempt)) with
    | Some t => Transition.model t
    | None => m
    end
  | None => m
  end.

Lemma finish_model c : Transition.model (Context.finish c) = Context.model c.
Proof. unfold Context.finish. by destruct (_ <? _)%N. Qed.

Lemma expire_attempt m a :
  m.(Membership.join_attempt) = Some a →
  TimerToken.kind (JoinAttempt.timer a) = TimerKind.JoinRetry →
  let next := saturating_add u32_max (JoinAttempt.attempt a) 1 in
  (expire m).(Membership.limits) = m.(Membership.limits)
  ∧ (expire m).(Membership.join_attempt)
    = if (m.(Membership.limits).(LimitsSpec.max_join_attempts) <? next)%N then None
      else Some (JoinAttempt.retry a next
                   (TimerToken.mk TimerKind.JoinRetry m.(Membership.next_correlation))).
Proof.
  intros Ha Hk. unfold expire, update. rewrite Ha. simpl.
  unfold handle_timer. rewrite Hk. unfold handle_join_timer. simpl. rewrite Ha.
  rewrite decide_True by done. rewrite finish_model. unfold retry_join. simpl.
  destruct (_ <? _)%N; done.
Qed.

(** a join ends: after as many expiries as attempts are left, and one more,
    no attempt is pending. *)
Theorem join_attempts_run_out (m : Membership.t) (a : JoinAttempt.t) (left : nat) :
  m.(Membership.join_attempt) = Some a →
  TimerToken.kind (JoinAttempt.timer a) = TimerKind.JoinRetry →
  (m.(Membership.limits).(LimitsSpec.max_join_attempts) < u32_max)%N →
  (m.(Membership.limits).(LimitsSpec.max_join_attempts)
   ≤ JoinAttempt.attempt a + N.of_nat left)%N →
  ∃ n, n ≤ S left ∧ (Nat.iter n expire m).(Membership.join_attempt) = None.
Proof.
  revert m a. induction left as [|left IH]; intros m a Ha Hk Hmax Hle;
    destruct (expire_attempt m a Ha Hk) as [Hlim Hat]; cbv zeta in Hat;
    unfold saturating_add in Hat.
  - exists 1. split; [lia|]. simpl. rewrite Hat.
    destruct (N.ltb_spec m.(Membership.limits).(LimitsSpec.max_join_attempts)
                (N.min (JoinAttempt.attempt a + 1) u32_max)); [done|lia].
  - destruct (N.ltb_spec m.(Membership.limits).(LimitsSpec.max_join_attempts)
                (N.min (JoinAttempt.attempt a + 1) u32_max)) as [|Hge].
    { exists 1. split; [lia|]. done. }
    edestruct (IH (expire m)) as (n & Hn & Hnone); [exact Hat|done|by rewrite Hlim| |].
    { rewrite Hlim. simpl. lia. }
    exists (S n). split; [lia|]. by rewrite Nat.iter_succ_r.
Qed.

(** ** The replicated state only grows *)

(** A register that never goes back: an equal version is the same record. *)
Definition register_le {V} (version : V → VersionTuple.t) (a b : option V) : Prop :=
  match a with
  | None => True
  | Some x => ∃ y, b = Some y ∧ (version x ≺ version y ∨ x = y)
  end.

Lemma register_le_refl {V} (version : V → VersionTuple.t) a : register_le version a a.
Proof. destruct a as [x|]; [|done]. exists x. auto. Qed.

Lemma register_le_trans {V} (version : V → VersionTuple.t) a b c :
  register_le version a b → register_le version b c → register_le version a c.
Proof.
  unfold register_le. destruct a as [x|]; [|done]. intros (y & -> & Hxy) (z & -> & Hyz).
  exists z. split; [done|]. destruct Hxy as [Hxy|<-], Hyz as [Hyz|<-]; auto.
  left. by eapply cmp_lt_trans.
Qed.

Lemma register_news_le {V} (version : V → VersionTuple.t) a x room :
  register_news version a x room → register_le version a (Some x).
Proof. unfold register_news, register_le. destruct a; [|done]. intros. exists x. auto. Qed.

(** A member record that never goes back. *)
Record member_le (a b : Member.t) : Prop := {
  le_cert : Member.cert_fingerprint b = Member.cert_fingerprint a;
  le_version : Member.version a ≺ Member.version b ∨ described a = described b;
  le_claim : supersedes (claim_of b) (claim_of a) = true ∨ claim_of a = claim_of b
}.

Lemma member_le_refl a : member_le a a.
Proof. split; auto. Qed.

Lemma member_le_trans a b c : member_le a b → member_le b c → member_le a c.
Proof.
  intros [Hc1 Hv1 Hl1] [Hc2 Hv2 Hl2]. split; [congruence| |].
  - destruct Hv1 as [Hv1|Hv1], Hv2 as [Hv2|Hv2].
    + left. by eapply cmp_lt_trans.
    + left. pose proof (f_equal fst Hv2) as Hv. simpl in Hv. by rewrite <- Hv.
    + left. pose proof (f_equal fst Hv1) as Hv. simpl in Hv. by rewrite Hv.
    + right. congruence.
  - destruct Hl1 as [Hl1|Hl1], Hl2 as [Hl2|Hl2].
    + left. by eapply supersedes_trans.
    + left. by rewrite <- Hl2.
    + left. by rewrite Hl1.
    + right. congruence.
Qed.

Lemma member_advances_le limits a b : member_advances limits a b → member_le a b.
Proof.
  intros [Hid Hcert Hd Hl]. split; [done| |].
  - unfold described. destruct Hd as [[-> ->]|[? _]]; auto.
  - unfold claim_of, supersedes. simpl. destruct Hl as [[-> ->]|?]; auto.
Qed.

(** One model is at or past another: registers and incarnation have not gone
    back; a member other than this node has not gone back unless it was barred. *)
Record state_le (m m' : Membership.t) : Prop := {
  le_policy : register_le MembershipPolicy.version
                m.(Membership.membership_policy) m'.(Membership.membership_policy);
  le_tombstones id : register_le MembershipTombstone.version
                       (m.(Membership.tombstones) !! id) (m'.(Membership.tombstones) !! id);
  le_blocklist key : register_le BlocklistEntry.version
                       (m.(Membership.blocklist) !! key) (m'.(Membership.blocklist) !! key);
  le_members id a : m.(Membership.members) !! id = Some a → id ≠ Membership.local_id m →
    m'.(Membership.tombstones) !! id = None →
    ∃ b, m'.(Membership.members) !! id = Some b ∧ member_le a b;
  le_incarnation : Incarnation.geb m'.(Membership.incarnation) m.(Membership.incarnation) = true;
  le_local : m'.(Membership.local) = m.(Membership.local)
}.

Lemma state_le_refl m : state_le m m.
Proof.
  split; auto using register_le_refl.
  - intros id a Ha _ _. exists a. auto using member_le_refl.
  - apply N.leb_le. lia.
Qed.

Lemma state_le_trans m1 m2 m3 : state_le m1 m2 → state_le m2 m3 → state_le m1 m3.
Proof.
  intros [Hp1 Ht1 Hb1 Hm1 Hi1 Hl1] [Hp2 Ht2 Hb2 Hm2 Hi2 Hl2]. split.
  - by eapply register_le_trans.
  - intros id. by eapply register_le_trans.
  - intros key. by eapply register_le_trans.
  - intros id a Ha Hloc Hno.
    assert (m2.(Membership.tombstones) !! id = None) as Hno2.
    { specialize (Ht2 id). destruct (m2.(Membership.tombstones) !! id) as [t|]; [|done].
      destruct Ht2 as (t' & Ht' & _). by rewrite Hno in Ht'. }
    destruct (Hm1 id a Ha Hloc Hno2) as (b & Hb & Hab).
    destruct (Hm2 id b Hb) as (c & Hc & Hbc); [|done|].
    { unfold Membership.local_id in *. by rewrite Hl1. }
    exists c. split; [done|]. by eapply member_le_trans.
  - unfold Incarnation.geb in *. rewrite !N.leb_le in *. lia.
  - congruence.
Qed.

(** A map updated at one key by a register step. *)
Lemma register_le_insert `{Countable K} {V} (version : V → VersionTuple.t) (m : gmap K V) k v k' :
  register_le version (m !! k) (Some v) → register_le version (m !! k') (<[k:=v]> m !! k').
Proof.
  intros. destruct (decide (k = k')) as [<-|].
  - by rewrite lookup_insert_eq.
  - rewrite lookup_insert_ne by done. apply register_le_refl.
Qed.

(** Changes to this node's members only. *)
Lemma state_le_members m ms after :
  (∀ id a, m.(Membership.members) !! id = Some a → id ≠ Membership.local_id m →
     ∃ b, ms !! id = Some b ∧ member_le a b) →
  state_le m (Membership.set_suspicions (Membership.set_members m ms) after).
Proof.
  intros Hm. split; simpl; auto using register_le_refl. apply N.leb_le. lia.
Qed.

Lemma istep_state_le msg m m' : istep msg m m' → wf m → state_le m m'.
Proof.
  intros Hs Hwf. destruct Hs; try (by apply state_le_refl);
    try (by split; simpl; auto using register_le_refl, member_le_refl;
         try (intros id' a' Ha' _ _; exists a'; auto using member_le_refl; fail);
         try (apply N.leb_le; lia)).
  - rewrite set_suspicions_members. apply state_le_members. intros id a Ha _. exists a.
    split; [|apply member_le_refl]. rewrite lookup_insert_ne; [done|]. congruence.
  - apply state_le_members. intros id' a Ha _.
    destruct (decide (id = id')) as [<-|]; [|exists a; rewrite lookup_insert_ne by done;
      auto using member_le_refl].
    exists merged. rewrite lookup_insert_eq. split; [done|]. assert (a = current) as -> by congruence.
    eapply member_advances_le, H3. by destruct (wf_members _ Hwf _ _ H2).
  - split; simpl; auto using register_le_refl.
    + intros id. apply register_le_insert. by eapply register_news_le.
    + intros id a Ha _ Hno. destruct (decide (MembershipTombstone.node_id t = id)) as [<-|Hne].
      * by rewrite lookup_insert_eq in Hno.
      * exists a. rewrite lookup_delete_ne by done. auto using member_le_refl.
    + apply N.leb_le. lia.
  - split; simpl; auto using register_le_refl.
    + intros key. apply register_le_insert. by eapply register_news_le.
    + intros id a Ha _ _. exists a. auto using member_le_refl.
    + apply N.leb_le. lia.
  - split; simpl; auto using register_le_refl.
    + by eapply register_news_le.
    + intros id a Ha _ _. exists a. auto using member_le_refl.
    + apply N.leb_le. lia.
  - split; simpl; auto using register_le_refl.
    + intros id a Ha _ _. exists a. auto using member_le_refl.
    + unfold Incarnation.geb, Incarnation.gtb in *. rewrite N.ltb_lt in *. apply N.leb_le. lia.
  - split; simpl; auto using register_le_refl.
    + intros id a Ha Hloc _. exists a. rewrite lookup_insert_ne by done. auto using member_le_refl.
    + unfold Incarnation.geb, Incarnation.gtb in *. rewrite N.ltb_lt in *. apply N.leb_le. lia.
  - rewrite set_suspicions_members. apply state_le_members. intros id' a Ha _. exists a.
    split; [|apply member_le_refl]. rewrite lookup_insert_ne; [done|]. congruence.
  - split; simpl; auto using register_le_refl.
    + intros id'. apply register_le_insert. rewrite H1. simpl. eexists. split; [done|]. by left.
    + intros id' a Ha _ _. exists a. auto using member_le_refl.
    + apply N.leb_le. lia.
Qed.

(** Every message but the two that leave the formation. *)
Definition stays (msg : Message.t) : bool :=
  match msg with
  | Message.Local (Command.Leave _ _ _) => false
  | Message.Peer (PeerInput.mk _ (PeerBody.JoinReply (JoinReply.Accepted _ _ _ _ _))) => false
  | _ => true
  end.

Lemma stays_istep msg m m' : stays msg = true → mstep msg m m' → istep msg m m'.
Proof. intros Hst [?|[]]; [done| |]; by subst msg. Qed.

(** C34: within a formation the replicated state only grows, whatever arrives:
    policy, tombstones and blocklist entries are only replaced by newer ones,
    tombstones are never forgotten, this node's incarnation never falls, and a
    member that was not barred keeps its certificate while its version and its
    liveness claim only advance, so a death is never undone. *)
Theorem state_never_regresses (m : Membership.t) (msg : Message.t) (t : Transition.t) :
  wf m → stays msg = true → update m msg = Some t → state_le m (Transition.model t).
Proof.
  intros Hwf Hst Hu%update_steps. revert Hwf.
  induction Hu as [m|m m1 m2 H1 _ IH]; intros Hwf; [apply state_le_refl|].
  pose proof (stays_istep _ _ _ Hst H1) as Hi.
  eapply state_le_trans; [by eapply istep_state_le|]. apply IH. by eapply istep_wf.
Qed.

(** ** The evidence behind an admission *)

(** Every admission waiting for an identity passed verification in the run. *)
Definition verified_in (msgs : list Message.t) (m : Membership.t) : Prop :=
  ∀ session p allocation, m.(Membership.admissions) !! session = Some p →
    PendingAdmission.stage p = AdmissionStage.AwaitingNodeId allocation →
    ∃ request evidence,
      Message.Outcome (EffectOutcome.CredentialVerified request session evidence) ∈ msgs
      ∧ evaluate_evidence evidence = Ok ().

Lemma mstep_verified msgs msg m m' :
  msg ∈ msgs → mstep msg m m' → verified_in msgs m → verified_in msgs m'.
Proof.
  intros Hin [Hs|Hs] Hv session q allocation Hq Hst.
  - destruct Hs; simpl in *; try (by eapply Hv).
    + apply lookup_insert_Some in Hq as [[<- <-]|[_ Hq]]; [congruence|by eapply Hv].
    + apply lookup_insert_Some in Hq as [[<- <-]|[_ Hq]]; [|by eapply Hv].
      subst msg. exists request, evidence. auto.
    + apply lookup_delete_Some in Hq as [_ Hq]. by eapply Hv.
  - exfalso. destruct Hs as [f id cn fresh _ Hf|]; [|by simpl in Hq].
    unfold Membership.standalone in Hf. apply result_bind_ok in Hf as ([] & _ & Hf).
    apply result_bind_ok in Hf as ([] & _ & Hf). injection Hf as <-. by simpl in Hq.
Qed.

Lemma run_verified msgs m m' :
  m.(Membership.admissions) = ∅ → run m msgs = Some m' → verified_in msgs m'.
Proof.
  intros H0 Hr.
  assert (∀ l m1, l ⊆ msgs → verified_in msgs m1 → run m1 l = Some m' → verified_in msgs m') as Hrun.
  { induction l as [|msg l IH]; simpl; intros m1 Hsub Hv Hl; [by injection Hl as <-|].
    destruct (update m1 msg) as [t|] eqn:Hu; [|done]. simpl in Hl.
    eapply (IH (Transition.model t)); [set_solver| |done]. apply update_steps in Hu.
    clear Hl. induction Hu as [|a b c Hab _ IHu]; [done|].
    apply IHu. eapply mstep_verified; [|done|done]. apply Hsub. by left. }
  eapply Hrun; [done| |done]. intros session p a Hp. by rewrite H0, lookup_empty in Hp.
Qed.

Lemma refuse_admission_members c session name reason :
  (Context.model (refuse_admission c session name reason)).(Membership.members)
  = (Context.model c).(Membership.members).
Proof. unfold refuse_admission. simpl. by case_decide. Qed.

(** C33: a node joins the members through the introducer only as the applicant
    it verified: its record is the pending application's, an earlier message of
    the run brought passing evidence for that session, the identity was never
    used, and the gates still hold at insertion. *)
Theorem admission_needs_evidence (start m : Membership.t) (msgs : list Message.t)
    (request : AllocationId.t) (session : SessionId.t) (id : NodeId.t) (t : Transition.t)
    (mem : Member.t) :
  start.(Membership.admissions) = ∅ → run start msgs = Some m →
  update m (Message.Outcome (EffectOutcome.NodeIdAllocated request session id)) = Some t →
  m.(Membership.members) !! id = None →
  (Transition.model t).(Membership.members) !! id = Some mem →
  ∃ p, m.(Membership.admissions) !! session = Some p
    ∧ mem = admitted_member m id p
    ∧ m.(Membership.tombstones) !! id = None
    ∧ gates_open m (PendingAdmission.protocol p) (PendingAdmission.name p)
        (PendingAdmission.cert_fingerprint p)
    ∧ ∃ verification evidence,
        Message.Outcome (EffectOutcome.CredentialVerified verification session evidence) ∈ msgs
        ∧ evaluate_evidence evidence = Ok ().
Proof.
  intros H0 Hrun Hu Hnew Hmem. pose proof (run_verified _ _ _ H0 Hrun) as Hver.
  unfold update in Hu. simpl in Hu. injection Hu as <-. rewrite finish_model in Hmem.
  unfold handle_node_id_allocated in Hmem. simpl in Hmem.
  destruct (m.(Membership.admissions) !! session) as [p|] eqn:Hp; [|by simpl in Hmem; congruence].
  destruct (decide _) as [|Hst%dec_stable]; [by simpl in Hmem; congruence|].
  destruct (bool_decide _ || _) eqn:Hfresh.
  { rewrite refuse_admission_members in Hmem. simpl in Hmem. congruence. }
  destruct (evaluate_local_gates _ _ _ _ _ _) as [[]|] eqn:Hg; cycle 1.
  { rewrite refuse_admission_members in Hmem. simpl in Hmem. congruence. }
  apply local_gates_accept in Hg. simpl in Hmem. rewrite lookup_insert_eq in Hmem.
  injection Hmem as <-. apply orb_false_iff in Hfresh as [_ Ht%contains_key_false].
  exists p. split_and!; [done|done|done|done|]. by eapply Hver.
Qed.

(** ** A suspicion can lose its deadline *)

(** An announcement the held claim is not superseded by. *)
Lemma announcement_stale m sender a id mem i :
  a ≠ Announcement.Leave →
  m.(Membership.members) !! id = Some mem →
  Membership.is_tombstoned m id = false → id ≠ Membership.local_id m →
  supersedes (announced_state a i) (claim_of mem) = false →
  apply_announcement m sender a id i
  = (m, MergeOutcome.Rejected (Diagnostic.StaleDelta (member_entity id))).
Proof.
  intros Ha Hm Ht Hloc Hs. unfold apply_announcement.
  rewrite decide_False by (by intros []). rewrite Ht, decide_False, Hm by done.
  unfold supersedes, claim_of in Hs. destruct (announced_state a i). simpl in *. by rewrite Hs.
Qed.

Lemma suspect_already_suspected m id mem i :
  m.(Membership.members) !! id = Some mem → Member.liveness mem = Liveness.Suspected →
  Membership.is_tombstoned m id = false → id ≠ Membership.local_id m →
  Incarnation.geb (Member.incarnation mem) i = true →
  suspect (Context.new m) id i
  = Context.note (Context.new m) (Diagnostic.StaleDelta (member_entity id)).
Proof.
  intros Hm Hl Ht Hloc Hi. unfold suspect, announce_locally. simpl.
  rewrite (announcement_stale m _ _ _ mem); [done..|].
  unfold supersedes, claim_of. simpl. rewrite Hl. unfold Incarnation.gtb, Incarnation.geb in *.
  apply N.leb_le in Hi. apply N.ltb_ge. lia.
Qed.

(** C40: when gossip raises the incarnation of a suspected member after its
    deadline was armed, the deadline expires without effect and is gone: the
    member stays suspected, and neither the expiry nor a later failed probe of it
    asks for a timer or an announcement, so this node alone never declares it
    dead. *)
Theorem overtaken_suspicion_is_lost (m : Membership.t) (id : NodeId.t) (mem : Member.t)
    (s : Suspicion.t) :
  wf m →
  m.(Membership.suspicions) !! id = Some s →
  m.(Membership.members) !! id = Some mem →
  Incarnation.gtb (Member.incarnation mem) (Suspicion.incarnation s) = true →
  TimerToken.kind (Suspicion.timer s) = TimerKind.Suspicion →
  (∀ id' s', m.(Membership.suspicions) !! id' = Some s' → Suspicion.timer s' = Suspicion.timer s →
             id' = id) →
  ∃ t, update m (Message.Timer (Suspicion.timer s)) = Some t
    ∧ Transition.effects t = []
    ∧ (Transition.model t).(Membership.members) !! id = Some mem
    ∧ Member.liveness mem = Liveness.Suspected
    ∧ (Transition.model t).(Membership.suspicions) !! id = None
    ∧ ∀ i, Incarnation.geb (Member.incarnation mem) i = true →
        suspect (Context.new (Transition.model t)) id i
        = Context.note (Context.new (Transition.model t)) (Diagnostic.StaleDelta (member_entity id)).
Proof.
  intros Hwf Hs Hm Hgt Hk Huniq. destruct (wf_suspicions _ Hwf _ _ Hs) as (Hloc & mem' & Hm' & Hl & _).
  assert (mem' = mem) as -> by congruence.
  assert (Membership.is_tombstoned m id = false) as Ht.
  { apply not_true_is_false. intros Ht. apply (wf_fenced _ Hwf) in Ht. congruence. }
  assert (List.find (λ ts : NodeId.t * Suspicion.t, bool_decide (Suspicion.timer ts.2 = Suspicion.timer s))
            (btree_entries m.(Membership.suspicions)) = Some (id, s)) as Hfind.
  { destruct (List.find _ _) as [[id' s']|] eqn:Hf.
    - apply find_some in Hf as [Hin Heq%bool_decide_eq_true]. simpl in Heq.
      rewrite <- list_elem_of_In in Hin. apply elem_of_btree_entries in Hin.
      assert (id' = id) as -> by eauto. congruence.
    - eapply find_none in Hf; [|rewrite <- list_elem_of_In; by apply elem_of_btree_entries].
      simpl in Hf. by rewrite bool_decide_true in Hf. }
  set (m1 := Membership.set_suspicions m (delete id m.(Membership.suspicions))).
  assert (handle_timer (Context.new m) (Suspicion.timer s)
          = Context.note (Context.new m1) (Diagnostic.StaleDelta (member_entity id))) as Hh.
  { unfold handle_timer. rewrite Hk. unfold handle_suspicion_timer. simpl. rewrite Hfind.
    unfold declare_dead, announce_locally. simpl. fold m1.
    rewrite (announcement_stale m1 _ _ _ mem); [done..|].
    unfold supersedes, claim_of. simpl. rewrite Hl.
    unfold Incarnation.geb, Incarnation.gtb in *. rewrite N.ltb_lt in Hgt. apply N.leb_gt. lia. }
  unfold update. simpl. rewrite Hh. eexists. split; [done|].
  destruct (finish_quiet m1 (Diagnostic.StaleDelta (member_entity id))) as (-> & -> & _).
  split_and!; [done|done|done|simpl; by rewrite lookup_delete_eq|].
  intros i Hi. by apply (suspect_already_suspected m1 id mem).
Qed.
End safety.

(** ** A concrete run *)
Definition applicant_context : PeerContext.t :=
  PeerContext.mk (SessionId.mk 9) true (Testing.fingerprint 77)
    (SenderIdentity.Applicant (WorkerName.mk "worker-b")) Testing.formation
    ProtocolVersion.CURRENT 0 [].
Definition member_context (seq : N) : PeerContext.t :=
  PeerContext.mk (SessionId.mk 9) true (Testing.fingerprint 77)
    (SenderIdentity.Admitted_ node_b) Testing.formation ProtocolVersion.CURRENT seq [].

(** [node-b] asks to join and its token is verified. *)
Definition joining : list Message.t :=
  [ Message.Peer (PeerInput.mk applicant_context
      (PeerBody.JoinRequest (Endpoints.mk [] []) Accepts.default (NodeCapacity.mk 8 8)
         Testing.capabilities));
    Message.Outcome (EffectOutcome.CredentialVerified (VerificationId.mk 0) (SessionId.mk 9)
      (AdmissionEvidence.mk true true false)) ].
Definition allocated : Message.t :=
  Message.Outcome (EffectOutcome.NodeIdAllocated (AllocationId.mk 1) (SessionId.mk 9) node_b).

(** It is admitted, then probed without an answer and suspected; then its
    suspicion is overtaken by one at a later incarnation. *)
Definition suspecting : list Message.t :=
  joining ++
  [ allocated;
    Message.Local Command.StartProbeRound;
    Message.Outcome (EffectOutcome.PeersSelected (SelectionId.mk 2) [node_b]);
    Message.Timer (TimerToken.mk TimerKind.DirectProbe 4);
    Message.Outcome (EffectOutcome.PeersSelected (SelectionId.mk 6) []);
    Message.Peer (PeerInput.mk (member_context 1)
      (PeerBody.Announce Announcement.Suspect node_b (Incarnation.mk 1))) ].

Definition final (msgs : list Message.t) : Membership.t :=
  default self_model (run (H := toy_sha256) self_model msgs).

Lemma run_reachable `{Sha256} m msgs m' : reachable m → run m msgs = Some m' → reachable m'.
Proof.
  revert m. induction msgs as [|msg msgs IH]; simpl; intros m Hm Hr; [by simplify_eq|].
  destruct (update m msg) as [t|] eqn:Hu; [|done]. simpl in Hr.
  eapply IH; [|done]. by eapply reachable_update.
Qed.

Lemma final_wf msgs : wf (final msgs).
Proof.
  unfold final. destruct (run self_model msgs) as [m|] eqn:Hr; simpl; [|apply self_model_wf].
  apply (reachable_wf (H := toy_sha256)). eapply run_reachable; [apply self_model_reachable|done].
Qed.

Lemma refused_peer_changes_nothing_witness :
  let context := PeerContext.mk (SessionId.mk 9) true (Testing.fingerprint 77)
                   (SenderIdentity.Admitted_ node_b) Testing.formation ProtocolVersion.CURRENT 0 [] in
  refused self_model context (PeerBody.Ping (ProbeId.mk 1) (Incarnation.mk 3))
  ∧ ∃ t, update (H := toy_sha256) self_model
           (Message.Peer (PeerInput.mk context (PeerBody.Ping (ProbeId.mk 1) (Incarnation.mk 3))))
         = Some t ∧ only_reports self_model t.
Proof.
  cbv zeta.
  assert (refused self_model
    (PeerContext.mk (SessionId.mk 9) true (Testing.fingerprint 77)
       (SenderIdentity.Admitted_ node_b) Testing.formation ProtocolVersion.CURRENT 0 [])
    (PeerBody.Ping (ProbeId.mk 1) (Incarnation.mk 3))) as Hr.
  { right. split; [exact I|]. intros sender mem _ Hs Hm. injection Hs as <-.
    vm_compute in Hm. discriminate. }
  split; [exact Hr|]. exact (refused_peer_changes_nothing (H := toy_sha256) _ _ _ Hr).
Defined.

Lemma stale_timer_ignored_witness :
  let token := TimerToken.mk TimerKind.Suspicion 41 in
  ¬ timer_held self_model token
  ∧ ∃ t, update (H := toy_sha256) self_model (Message.Timer token) = Some t
         ∧ only_reports self_model t
         ∧ Transition.diagnostics t = [Diagnostic.StaleTimer token].
Proof.
  cbv zeta.
  assert (¬ timer_held self_model (TimerToken.mk TimerKind.Suspicion 41)) as Hno.
  { intros [(id & p & Hp & _)|[(id & s & Hs & _)|[(r & Hr & _)|(a & Ha & _)]]];
      [vm_compute in Hp|vm_compute in Hs|vm_compute in Hr|vm_compute in Ha]; discriminate. }
  split; [exact Hno|].
  exact (stale_timer_ignored (H := toy_sha256) _ _ self_model_wf Hno).
Defined.

Definition joiner : Membership.t :=
  final [Message.Local (Command.BeginJoin (SessionId.mk 5) (FormationId.mk "elsewhere"))].

Lemma join_attempts_run_out_witness :
  ∃ n, n ≤ 8 ∧ (Nat.iter n (expire (H := toy_sha256)) joiner).(Membership.join_attempt) = None.
Proof.
  destruct (joiner.(Membership.join_attempt)) as [a|] eqn:Ha; [|vm_compute in Ha; discriminate].
  vm_compute in Ha. injection Ha as <-.
  apply (join_attempts_run_out (H := toy_sha256) joiner
    (JoinAttempt.mk (SessionId.mk 5) (FormationId.mk "elsewhere") 1 []
       (TimerToken.mk TimerKind.JoinRetry 0)) 7);
    [vm_compute; reflexivity|reflexivity|vm_compute; reflexivity|vm_compute; discriminate].
Defined.

Lemma state_never_regresses_witness :
  ∃ t, update (H := toy_sha256) self_model lock_message = Some t
       ∧ stays lock_message = true ∧ state_le self_model (Transition.model t).
Proof.
  destruct (update_some (H := toy_sha256) self_model lock_message (wf_local _ self_model_wf))
    as [t Ht].
  exists t. split; [exact Ht|]. split; [reflexivity|].
  exact (state_never_regresses (H := toy_sha256) self_model lock_message t
    self_model_wf eq_refl Ht).
Defined.

Lemma admission_needs_evidence_witness :
  ∃ t mem, update (H := toy_sha256) (final joining) allocated = Some t
    ∧ (Transition.model t).(Membership.members) !! node_b = Some mem
    ∧ ∃ p, (final joining).(Membership.admissions) !! SessionId.mk 9 = Some p
      ∧ mem = admitted_member (final joining) node_b p
      ∧ (final joining).(Membership.tombstones) !! node_b = None
      ∧ gates_open (final joining) (PendingAdmission.protocol p) (PendingAdmission.name p)
          (PendingAdmission.cert_fingerprint p)
      ∧ ∃ verification evidence,
          Message.Outcome (EffectOutcome.CredentialVerified verification (SessionId.mk 9) evidence)
            ∈ joining
          ∧ evaluate_evidence evidence = Ok ().
Proof.
  destruct (update (H := toy_sha256) (final joining) allocated) as [t|] eqn:Ht;
    [|vm_compute in Ht; discriminate].
  destruct ((Transition.model t).(Membership.members) !! node_b) as [mem|] eqn:Hm; cycle 1.
  { exfalso. vm_compute in Ht. injection Ht as <-. vm_compute in Hm. discriminate. }
  exists t, mem. split; [reflexivity|]. split; [exact Hm|].
  apply (admission_needs_evidence (H := toy_sha256) self_model (final joining) joining
    (AllocationId.mk 1) (SessionId.mk 9) node_b t mem);
    [vm_compute; reflexivity|vm_compute; reflexivity|exact Ht|vm_compute; reflexivity|exact Hm].
Defined.

Lemma overtaken_suspicion_is_lost_witness :
  let m := final suspecting in
  let s := Suspicion.mk (Incarnation.mk 0) (TimerToken.mk TimerKind.Suspicion 7) in
  ∃ mem, m.(Membership.suspicions) !! node_b = Some s
    ∧ m.(Membership.members) !! node_b = Some mem
    ∧ ∃ t, update (H := toy_sha256) m (Message.Timer (Suspicion.timer s)) = Some t
      ∧ Transition.effects t = []
      ∧ (Transition.model t).(Membership.members) !! node_b = Some mem
      ∧ Member.liveness mem = Liveness.Suspected
      ∧ (Transition.model t).(Membership.suspicions) !! node_b = None
      ∧ ∀ i, Incarnation.geb (Member.incarnation mem) i = true →
          suspect (Context.new (Transition.model t)) node_b i
          = Context.note (Context.new (Transition.model t))
              (Diagnostic.StaleDelta (member_entity node_b)).
Proof.
  cbv zeta.
  assert ((final suspecting).(Membership.suspicions)
          = {[ node_b := Suspicion.mk (Incarnation.mk 0) (TimerToken.mk TimerKind.Suspicion 7) ]})
    as Hs by (vm_compute; reflexivity).
  destruct ((final suspecting).(Membership.members) !! node_b) as [mem|] eqn:Hm;
    [|vm_compute in Hm; discriminate].
  exists mem. rewrite Hs, lookup_singleton_eq. split; [reflexivity|]. split; [reflexivity|].
  apply (overtaken_suspicion_is_lost (H := toy_sha256) (final suspecting) node_b mem
    (Suspicion.mk (Incarnation.mk 0) (TimerToken.mk TimerKind.Suspicion 7)));
    [apply final_wf|by rewrite Hs, lookup_singleton_eq|exact Hm| |reflexivity|].
  - vm_compute in Hm. injection Hm as <-. reflexivity.
  - intros id' s' Hid _. rewrite Hs in Hid. by apply lookup_singleton_Some in Hid as [<- _].
Defined.
