(* ===== verification/Bootstrap.v ===== *)
(** * Installing an admission baseline (baseline.rs)

    The contract of the atomic bootstrap merge: all or nothing, every record of
    the baseline held or superseded, nothing invented, nothing lost, and a
    replay that changes nothing. *)

From Stdlib Require Import Ascii.
From stdpp Require Import base gmap strings list sorting fin_maps pretty relations.
From S2P Require Import Prelude Identity Limits Records Gossip Vocabulary Model Merge Admission Antientropy Update Steps Refinement Invariants Convergence Safety.

#[local] Arguments register_le : simpl never.

(** The model holds [d], or something newer in its place. *)
Definition holds (m : Membership.t) (d : DeltaBody.t) : Prop :=
  match d with
  | DeltaBody.MembershipPolicyUpdate p =>
    register_le MembershipPolicy.version (Some p) m.(Membership.membership_policy)
  | DeltaBody.BlocklistUpdate e =>
    register_le BlocklistEntry.version (Some e) (m.(Membership.blocklist) !! BlocklistEntry.key e)
  | DeltaBody.TombstoneUpdate t =>
    register_le MembershipTombstone.version (Some t)
      (m.(Membership.tombstones) !! MembershipTombstone.node_id t)
  | _ => False
  end.

Definition fits (limits : Limits.t) (d : DeltaBody.t) : Prop :=
  match d with
  | DeltaBody.BlocklistUpdate e => BlocklistEntry.validate e limits = Ok ()
  | DeltaBody.TombstoneUpdate t => reason_fits limits t
  | _ => True
  end.

Definition admission_delta (d : DeltaBody.t) : Prop :=
  match d with
  | DeltaBody.MembershipPolicyUpdate _ | DeltaBody.BlocklistUpdate _
  | DeltaBody.TombstoneUpdate _ => True
  | _ => False
  end.

(** How staging may change the model: the three registers by records of [ds]. *)
Record staged_by (ds : list DeltaBody.t) (m m' : Membership.t) : Prop := {
  staged_policy : m'.(Membership.membership_policy) = m.(Membership.membership_policy)
    ∨ ∃ p, DeltaBody.MembershipPolicyUpdate p ∈ ds ∧ m'.(Membership.membership_policy) = Some p;
  staged_blocklist key : m'.(Membership.blocklist) !! key = m.(Membership.blocklist) !! key
    ∨ ∃ e, DeltaBody.BlocklistUpdate e ∈ ds ∧ m'.(Membership.blocklist) !! key = Some e;
  staged_tombstones id :
    (m'.(Membership.tombstones) !! id = m.(Membership.tombstones) !! id
     ∧ m'.(Membership.members) !! id = m.(Membership.members) !! id)
    ∨ ∃ t, DeltaBody.TombstoneUpdate t ∈ ds ∧ m'.(Membership.tombstones) !! id = Some t
           ∧ m'.(Membership.members) !! id = None;
  staged_formation : m'.(Membership.formation) = m.(Membership.formation);
  staged_local : m'.(Membership.local) = m.(Membership.local);
  staged_incarnation : m'.(Membership.incarnation) = m.(Membership.incarnation);
  staged_admissions : m'.(Membership.admissions) = m.(Membership.admissions);
  staged_limits : m'.(Membership.limits) = m.(Membership.limits);
  staged_holds d : holds m d → holds m' d
}.

Lemma staged_refl ds m : staged_by ds m m.
Proof. split; auto. Qed.

Lemma staged_trans ds m1 m2 m3 : staged_by ds m1 m2 → staged_by ds m2 m3 → staged_by ds m1 m3.
Proof.
  intros [] []. split; try congruence; auto.
  - destruct staged_policy1 as [->|?]; auto.
  - intros key. destruct (staged_blocklist1 key) as [->|?]; auto.
  - intros id. destruct (staged_tombstones1 id) as [[-> ->]|?]; auto.
Qed.

Lemma staged_mono ds ds' m m' : ds ⊆ ds' → staged_by ds m m' → staged_by ds' m m'.
Proof.
  intros Hsub []. split; auto.
  - destruct staged_policy0 as [?|(p & ? & ?)]; [by left|right; exists p; auto].
  - intros key. destruct (staged_blocklist0 key) as [?|(e & ? & ?)]; [by left|right; exists e; auto].
  - intros id. destruct (staged_tombstones0 id) as [?|(t & ? & ?)]; [by left|right; exists t; auto].
Qed.

Lemma staged_gossip ds m m' g : staged_by ds m m' → staged_by ds m (Membership.set_gossip m' g).
Proof. by intros []; split. Qed.

Lemma holds_gossip m d g : holds m d → holds (Membership.set_gossip m g) d.
Proof. by destruct d. Qed.

(** A merged record is held afterwards, and nothing else went back. *)
Lemma merge_adopts m d :
  admission_delta d → ¬ no_news (merge_delta m d).2 →
  staged_by [d] m (merge_delta m d).1 ∧ holds (merge_delta m d).1 d
  ∧ fits m.(Membership.limits) d.
Proof.
  intros Hd Hne. destruct d as [inc|t|e|p|f]; try done; simpl in *.
  - destruct (merge_tombstone_cases m t) as [[_ ?]|(-> & Hf & Hn)]; [done|].
    split_and!; [|simpl; rewrite lookup_insert_eq; apply register_le_refl|done].
    split; simpl; auto.
    + intros id. destruct (decide (MembershipTombstone.node_id t = id)) as [<-|].
      * right. exists t. rewrite lookup_insert_eq, lookup_delete_eq. set_solver.
      * left. by rewrite lookup_insert_ne, lookup_delete_ne.
    + intros [] Hh; simpl in *; try done.
      eapply register_le_trans; [exact Hh|]. apply register_le_insert. by eapply register_news_le.
  - destruct (merge_blocklist_cases m e) as [[_ ?]|(-> & Hf & Hn)]; [done|].
    split_and!; [|simpl; rewrite lookup_insert_eq; apply register_le_refl|done].
    split; simpl; auto.
    + intros key. destruct (decide (BlocklistEntry.key e = key)) as [<-|].
      * right. exists e. rewrite lookup_insert_eq. set_solver.
      * left. by rewrite lookup_insert_ne.
    + intros [] Hh; simpl in *; try done.
      eapply register_le_trans; [exact Hh|]. apply register_le_insert. by eapply register_news_le.
  - destruct (merge_policy_cases m p) as [[_ ?]|(-> & Hn)]; [done|].
    split_and!; [|apply register_le_refl|done]. split; simpl; auto.
    + right. exists p. set_solver.
    + intros [] Hh; simpl in *; try done.
      eapply register_le_trans; [exact Hh|]. by eapply register_news_le.
Qed.

(** A record already held, or superseded, is no error and no change. *)
Lemma merge_held m d :
  fits m.(Membership.limits) d → holds m d →
  (merge_delta m d).1 = m
  ∧ ((merge_delta m d).2 = MergeOutcome.Idempotent
     ∨ ∃ entity, (merge_delta m d).2 = MergeOutcome.Rejected (Diagnostic.StaleDelta entity)).
Proof.
  intros Hf Hh. destruct d as [inc|t|e|p|f]; try done; simpl in *; destruct Hh as (c & Hc & Hv).
  - unfold merge_tombstone.
    replace (bool_decide (is_Some (MembershipTombstone.reason t)) && _) with false; cycle 1.
    { symmetry. unfold reason_fits in Hf. destruct (MembershipTombstone.reason t); [|done].
      simpl. by apply N.ltb_ge. }
    rewrite Hc. destruct Hv as [Hv|<-]; [|by rewrite decide_True; auto].
    rewrite decide_False by (intros ->; by rewrite cmp_refl in Hv).
    rewrite decide_False by (intros Heq; by rewrite Heq, cmp_refl in Hv).
    rewrite (proj2 (cmp_gtb_spec _ _)) by done. split; [done|]. right. by eexists.
  - unfold merge_blocklist. rewrite Hf, Hc. destruct Hv as [Hv|<-]; [|by rewrite decide_True; auto].
    rewrite decide_False by (intros ->; by rewrite cmp_refl in Hv).
    rewrite decide_False by (intros Heq; by rewrite Heq, cmp_refl in Hv).
    rewrite (proj2 (cmp_gtb_spec _ _)) by done. split; [done|]. right. by eexists.
  - unfold merge_policy. rewrite Hc. destruct Hv as [Hv|<-]; [|by rewrite decide_True; auto].
    rewrite decide_False by (intros ->; by rewrite cmp_refl in Hv).
    rewrite decide_False by (intros Heq; by rewrite Heq, cmp_refl in Hv).
    rewrite (proj2 (cmp_gtb_spec _ _)) by done. split; [done|]. right. by eexists.
Qed.

Lemma reason_fits_check (limits : Limits.t) t :
  bool_decide (is_Some (MembershipTombstone.reason t))
  && (limits.(LimitsSpec.max_text_len)
      <? match MembershipTombstone.reason t with Some r => str_len r | None => 0 end)%N = false →
  reason_fits limits t.
Proof.
  unfold reason_fits. destruct (MembershipTombstone.reason t); [|done]. simpl.
  by rewrite N.ltb_ge.
Qed.

(** The outcomes a baseline tolerates: what the record stands for is held. *)
Definition tolerated (o : MergeOutcome.t) : Prop :=
  match o with
  | MergeOutcome.Idempotent | MergeOutcome.Rejected (Diagnostic.StaleDelta _) => True
  | _ => False
  end.

Lemma merge_tolerated m d :
  admission_delta d → tolerated (merge_delta m d).2 →
  (merge_delta m d).1 = m ∧ holds m d ∧ fits m.(Membership.limits) d.
Proof.
  assert (∀ V (version : V → VersionTuple.t) (c x : V),
    c = x ∨ cmp_gtb (version c) (version x) = true → register_le version (Some x) (Some c)) as Hle.
  { intros V version c x [->|Hgt]; [apply register_le_refl|]. exists c. split; [done|].
    left. by apply cmp_gtb_spec. }
  intros Hd Ho. destruct d as [inc|t|e|p|f]; try done; simpl in *.
  - unfold merge_tombstone in *. destruct (_ && _) eqn:Hlen; [done|]. apply reason_fits_check in Hlen.
    destruct (_ !! _) as [c|]; [|destruct (_ <=? _)%N; [done|]; simpl in Ho; by case_decide].
    destruct (decide (c = t)) as [->|]; [by auto|].
    destruct (decide _); [done|]. destruct (cmp_gtb _ _) eqn:Hgt; [by auto|].
    simpl in Ho. by case_decide.
  - unfold merge_blocklist in *. destruct (BlocklistEntry.validate e _) as [[]|] eqn:Hv; [|done].
    destruct (_ !! _) as [c|]; [|by destruct (_ <=? _)%N].
    destruct (decide (c = e)) as [->|]; [by auto|].
    destruct (decide _); [done|]. destruct (cmp_gtb _ _) eqn:Hgt; [by auto|done].
  - unfold merge_policy in *. destruct (Membership.membership_policy m) as [c|]; [|done].
    destruct (decide (c = p)) as [->|]; [by auto|].
    destruct (decide _); [done|]. destruct (cmp_gtb _ _) eqn:Hgt; [by auto|done].
Qed.

(** One staged record. *)
Lemma stage_spec limits m d m' :
  limits = m.(Membership.limits) → admission_delta d →
  Baseline.stage limits m d = Ok m' →
  staged_by [d] m m' ∧ holds m' d ∧ fits limits d.
Proof.
  intros -> Hd Hs. unfold Baseline.stage in Hs.
  pose proof (merge_tolerated m d Hd) as Ht. pose proof (merge_adopts m d Hd) as Ha.
  destruct (merge_delta m d) as [m1 o]. simpl in *.
  destruct o as [b ch [d'|]| |[]| |t]; simplify_eq; simpl in *;
    try (destruct (Ht I) as (-> & ? & ?); split; [apply staged_refl|done]);
    (destruct Ha as (Hst & Hh & Hf); [by intros []|];
     split_and!; [by apply staged_gossip|by apply holds_gossip|done]).
Qed.

(** A record already held is staged without a change. *)
Lemma stage_held limits m d :
  limits = m.(Membership.limits) → fits limits d → holds m d →
  Baseline.stage limits m d = Ok m.
Proof.
  intros -> Hf Hh. unfold Baseline.stage. destruct (merge_held m d Hf Hh) as [Hm Ho].
  destruct (merge_delta m d) as [m1 o]. simpl in *. subst m1.
  by destruct Ho as [->|[entity ->]].
Qed.

Lemma stage_all limits l m m' :
  limits = m.(Membership.limits) → Forall admission_delta l →
  try_fold (Baseline.stage limits) m l = Ok m' →
  staged_by l m m' ∧ (∀ d, d ∈ l → holds m' d ∧ fits limits d).
Proof.
  revert m. induction l as [|d l IH]; simpl; intros m Hl Hall Hf.
  { injection Hf as <-. split; [apply staged_refl|by intros ? ?%elem_of_nil]. }
  apply Forall_cons in Hall as [Hd Hall].
  apply result_bind_ok in Hf as (m1 & H1 & Hf).
  destruct (stage_spec limits m d m1 Hl Hd H1) as (Hst & Hh & Hfit).
  destruct (IH m1) as [Hst2 Hall2]; [|done|done|].
  { by rewrite (staged_limits _ _ _ Hst). }
  split.
  - eapply staged_trans; [eapply staged_mono; [|exact Hst]|eapply staged_mono; [|exact Hst2]]; set_solver.
  - intros d' [->|Hin]%elem_of_cons; [|by apply Hall2]. split; [|done].
    by apply (staged_holds _ _ _ Hst2).
Qed.

Lemma baseline_admission_deltas b : Forall admission_delta (Baseline.deltas b).
Proof.
  unfold Baseline.deltas. apply Forall_app. split; [by case_match; repeat constructor|].
  apply Forall_app. split; apply Forall_fmap, Forall_true; done.
Qed.

Lemma baseline_merge_staged m b m' :
  Baseline.merge m b = Ok m' →
  try_fold (Baseline.stage m.(Membership.limits)) m (Baseline.deltas b) = Ok m'
  ∧ (∀ m2, m2.(Membership.formation) = m.(Membership.formation) →
       m2.(Membership.limits) = m.(Membership.limits) →
       Baseline.merge m2 b = try_fold (Baseline.stage m.(Membership.limits)) m2 (Baseline.deltas b)).
Proof.
  intros Hm. unfold Baseline.merge in *. destruct (negb _); [done|].
  destruct (decide _) as [|Hf]; [done|].
  apply result_bind_ok in Hm as ([] & Hlim & Hm).
  destruct (_ || _) eqn:Hord; [done|]. split; [done|]. intros m2 -> ->.
  rewrite decide_False by done. by rewrite Hlim.
Qed.

(** an accepted baseline is merged whole: each of its records is held
    afterwards or superseded by a newer local one; policy, blocklist and
    tombstones change only by records of the baseline, members only by its
    tombstones; the identity, the incarnation and the pending admissions stay;
    and merging it again changes nothing at all. *)
Theorem baseline_merge_contract (m : Membership.t) (b : AdmissionBaseline.t) (m' : Membership.t) :
  Baseline.merge m b = Ok m' →
  (∀ d, d ∈ Baseline.deltas b → holds m' d)
  ∧ staged_by (Baseline.deltas b) m m'
  ∧ Baseline.merge m' b = Ok m'.
Proof.
  intros [Hfold Hsame]%baseline_merge_staged.
  destruct (stage_all _ _ _ _ eq_refl (baseline_admission_deltas b) Hfold) as [Hst Hall].
  split_and!; [by intros; apply Hall|done|].
  rewrite Hsame by apply Hst.
  assert (∀ l, l ⊆ Baseline.deltas b →
    try_fold (Baseline.stage m.(Membership.limits)) m' l = Ok m') as Hr; [|by apply Hr].
  induction l as [|d l IH]; simpl; intros Hsub; [done|].
  destruct (Hall d) as [Hh Hf]; [set_solver|].
  rewrite stage_held by (done || by rewrite (staged_limits _ _ _ Hst)). simpl. apply IH. set_solver.
Qed.

(** a baseline that is refused anywhere leaves the model exactly as it was:
    nothing of it is kept, and the refusal is published under its snapshot. *)
Theorem baseline_refusal_is_atomic `{Sha256} (m : Membership.t) (b : AdmissionBaseline.t)
    (reason : Diagnostic.t) :
  wf m → Baseline.merge m b = Err reason →
  ∃ t, update m (Message.Local (Command.InstallAdmissionBaseline b)) = Some t
    ∧ Transition.model t = m
    ∧ Transition.effects t
      = [Effect.Publish (ChangeRecord.AdmissionBaselineRejected (AdmissionBaseline.snapshot b))].
Proof.
  intros Hwf Hm. unfold update. simpl. unfold install_admission_baseline. simpl. rewrite Hm.
  eexists. split; [done|]. rewrite finish_model. split; [done|].
  pose proof (effects_positive _ (wf_limits _ Hwf)) as Hnz.
  unfold Context.finish. simpl.
  destruct (N.ltb_spec m.(Membership.limits).(LimitsSpec.max_effects_per_update)
    (lenN [Effect.Publish (ChangeRecord.AdmissionBaselineRejected (AdmissionBaseline.snapshot b))]))
    as [Hlt|]; [unfold lenN in Hlt; simpl in Hlt; lia|done].
Qed.

(** ** Concrete instances *)
Definition sample_baseline : AdmissionBaseline.t :=
  AdmissionBaseline.mk 1 Testing.formation 7
    (Some (MembershipPolicy.mk true (Testing.version 3)))
    [Testing.blocklist_entry "worker-a"; Testing.blocklist_entry "worker-z"]
    [Testing.tombstone "node-b" RemovalMode.Force].

(** Its second tombstone is out of order. *)
Definition unordered_baseline : AdmissionBaseline.t :=
  AdmissionBaseline.mk 1 Testing.formation 8 None []
    [Testing.tombstone "node-z" RemovalMode.Force; Testing.tombstone "node-b" RemovalMode.Force].

Definition sample_staged : Membership.t :=
  match Baseline.merge view sample_baseline with Ok m => m | Err _ => view end.

Lemma baseline_merge_contract_witness :
  Baseline.merge view sample_baseline = Ok sample_staged
  ∧ (∀ d, d ∈ Baseline.deltas sample_baseline → holds sample_staged d)
  ∧ staged_by (Baseline.deltas sample_baseline) view sample_staged
  ∧ Baseline.merge sample_staged sample_baseline = Ok sample_staged.
Proof.
  assert (Baseline.merge view sample_baseline = Ok sample_staged) as Hm
    by (vm_compute; reflexivity).
  split; [exact Hm|]. exact (baseline_merge_contract view sample_baseline sample_staged Hm).
Defined.

Lemma baseline_refusal_is_atomic_witness :
  ∃ reason, Baseline.merge self_model unordered_baseline = Err reason
  ∧ ∃ t, update (H := toy_sha256) self_model
           (Message.Local (Command.InstallAdmissionBaseline unordered_baseline)) = Some t
    ∧ Transition.model t = self_model
    ∧ Transition.effects t
      = [Effect.Publish (ChangeRecord.AdmissionBaselineRejected
           (AdmissionBaseline.snapshot unordered_baseline))].
Proof.
  destruct (Baseline.merge self_model unordered_baseline) as [m|reason] eqn:Hm;
    [vm_compute in Hm; discriminate|].
  exists reason. split; [reflexivity|].
  exact (baseline_refusal_is_atomic (H := toy_sha256) self_model unordered_baseline reason
           self_model_wf Hm).
Defined.
