(* ===== verification/Encoding.v ===== *)
(** * The canonical record encoding is uniquely decodable (antientropy.rs)

    Each encoder of [Antientropy.Encoder] is a prefix code on the values of its
    width, so the byte string a leaf hash is taken over determines the key, the
    kind and every encoded field of the record: everything but a tombstone's
    [cleared] flag, which no encoder writes. *)

From Stdlib Require Import Ascii.
From stdpp Require Import base gmap strings list sorting fin_maps pretty.
From S2P Require Import Prelude Identity Limits Records Gossip Vocabulary Model Antientropy.


(** ** Uniquely decodable encoders *)
Definition decodable {A} (P : A → Prop) (enc : A → bytes) : Prop :=
  ∀ x y r s, P x → P y → enc x ++ r = enc y ++ s → x = y ∧ r = s.

Lemma to_be_bytes_length n v : length (to_be_bytes n v) = n.
Proof. revert v. induction n; intros v; simpl; [done|]. rewrite length_app, IHn. simpl. lia. Qed.

Lemma byte_inj a b : (a < 256)%N → (b < 256)%N → byte a = byte b → a = b.
Proof.
  intros Ha Hb Hab. unfold byte in Hab.
  rewrite <- (N_ascii_embedding a), <- (N_ascii_embedding b) by done. by rewrite Hab.
Qed.

Lemma to_be_bytes_inj n v w :
  (v < 256 ^ N.of_nat n)%N → (w < 256 ^ N.of_nat n)%N → to_be_bytes n v = to_be_bytes n w → v = w.
Proof.
  revert v w. induction n as [|n IH]; intros v w Hv Hw; [simpl in *; lia|].
  rewrite Nat2N.inj_succ, N.pow_succ_r' in Hv, Hw. simpl. intros Heq.
  apply app_inj_2 in Heq as [Hhi Hlo]; [|done]. injection Hlo as Hlo.
  apply byte_inj in Hlo; [|by apply N.mod_lt|by apply N.mod_lt].
  apply IH in Hhi; [|apply N.Div0.div_lt_upper_bound; lia|apply N.Div0.div_lt_upper_bound; lia].
  rewrite (N.div_mod v 256), (N.div_mod w 256) by done. congruence.
Qed.

Lemma fixed_decodable {A} (P : A → Prop) (enc : A → bytes) n :
  (∀ x, length (enc x) = n) → (∀ x y, P x → P y → enc x = enc y → x = y) → decodable P enc.
Proof.
  intros Hlen Hinj x y r s Hx Hy Heq. apply app_inj_1 in Heq as [He ->]; [|by rewrite !Hlen].
  split; [by apply Hinj|done].
Qed.

(** A value fits its machine width. *)
Record width (bits v : N) : Prop := { width_lt : (v < 2 ^ bits)%N }.

Lemma u8_decodable : decodable (width 8) Encoder.u8.
Proof.
  apply (fixed_decodable _ _ 1); [done|]. intros x y [Hx] [Hy] [= Heq]. by apply byte_inj in Heq.
Qed.
Lemma u32_decodable : decodable (width 32) Encoder.u32.
Proof.
  apply (fixed_decodable _ _ 4); [apply (to_be_bytes_length 4)|]. intros x y [Hx] [Hy].
  exact (to_be_bytes_inj 4 x y Hx Hy).
Qed.
Lemma u64_decodable : decodable (width 64) Encoder.u64.
Proof.
  apply (fixed_decodable _ _ 8); [apply (to_be_bytes_length 8)|]. intros x y [Hx] [Hy].
  exact (to_be_bytes_inj 8 x y Hx Hy).
Qed.
#[local] Opaque Encoder.u8 Encoder.u32 Encoder.u64.
Lemma bool_decodable : decodable (λ _, True) Encoder.bool.
Proof.
  intros [] [] r s _ _ Heq; apply u8_decodable in Heq as [? ->]; by try split.
Qed.

(** Lengths fit the prefix. *)
Definition short {A} (l : list A) : Prop := width 32 (lenN l).

Lemma short_min {A} (l : list A) : short l → N.min (lenN l) u32_max = lenN l.
Proof.
  intros [Hl]. apply N.min_l. apply N.lt_succ_r. exact Hl.
Qed.

Lemma bytes_decodable : decodable short Encoder.bytes.
Proof.
  intros x y r s Hx Hy Heq. unfold Encoder.bytes in Heq.
  rewrite !short_min, <- !app_assoc in Heq by done.
  apply u32_decodable in Heq as [Hlen Heq]; [|done..].
  apply app_inj_1 in Heq; [done|]. unfold lenN in Hlen. lia.
Qed.

#[local] Opaque Encoder.bytes.

Definition short_text (s : string) : Prop := short (bytes_of s).
Lemma text_decodable : decodable short_text Encoder.text.
Proof.
  intros x y r s Hx Hy Heq. unfold Encoder.text in Heq.
  apply (bytes_decodable _ _ _ _ Hx Hy) in Heq as [Hb ->].
  by apply (inj bytes_of) in Hb.
Qed.

Lemma bind_decodable {A} (P : A → Prop) (f : A → bytes) (l k : list A) r s :
  decodable P f → Forall P l → Forall P k → length l = length k →
  (l ≫= f) ++ r = (k ≫= f) ++ s → l = k ∧ r = s.
Proof.
  intros Hf Hl. revert k. induction Hl as [|x l Hx Hl IH]; intros [|y k] Hk Hlen Heq; try done.
  apply Forall_cons in Hk as [Hy Hk]. simpl in Heq. rewrite <- !app_assoc in Heq.
  apply Hf in Heq as [-> Heq]; [|done..]. injection Hlen as Hlen.
  apply IH in Heq as [-> ->]; done.
Qed.

Definition short_list {A} (P : A → Prop) (l : list A) : Prop := short l ∧ Forall P l.

Lemma items_decodable {A} (P : A → Prop) (f : A → bytes) :
  decodable P f → decodable (short_list P) (Encoder.items f).
Proof.
  intros Hf x y r s [Hx Hxs] [Hy Hys] Heq. unfold Encoder.items, Encoder.count in Heq.
  rewrite !N.mod_small, <- !app_assoc in Heq by apply width_lt, Hx || apply width_lt, Hy.
  apply (u32_decodable _ _ _ _ Hx Hy) in Heq as [Hlen Heq].
  eapply bind_decodable in Heq; [done..|]. unfold lenN in Hlen. lia.
Qed.

Definition opt {A} (P : A → Prop) (o : option A) : Prop :=
  match o with Some v => P v | None => True end.

Lemma option_decodable {A} (P : A → Prop) (f : A → bytes) placeholder :
  P placeholder → decodable P f → decodable (opt P) (Encoder.option f placeholder).
Proof.
  intros Hp Hf [x|] [y|] r s Hx Hy Heq; simpl in *; injection Heq as Heq; try done.
  - apply Hf in Heq as [-> ->]; done.
  - apply Hf in Heq as [_ ->]; done.
Qed.

#[local] Opaque Encoder.text Encoder.bool Encoder.items Encoder.option.

(** Peels the first encoded field off both sides. *)
Ltac peel H lemma := apply lemma in H as [? H]; [|done..].

(** ** The records, at their machine widths *)
Record version_width (v : VersionTuple.t) : Prop := {
  version_epoch : width 64 (VersionTuple.epoch v);
  version_counter : width 64 (VersionTuple.counter v);
  version_actor : short_text (NodeId.as_str (VersionTuple.actor v))
}.

Lemma version_decodable : decodable version_width Encoder.version.
Proof.
  intros v w r s [] [] Heq. unfold Encoder.version in Heq. rewrite <- !app_assoc in Heq.
  peel Heq u64_decodable. peel Heq u64_decodable. peel Heq text_decodable.
  split; [|done]. destruct v as [? ? []], w as [? ? []]. simpl in *. by subst.
Qed.
#[local] Opaque Encoder.version.

Definition engine_width (e : EngineCapability.t) : Prop :=
  short_text (EngineCapability.engine e) ∧ short_text (EngineCapability.runtime_lifecycle e).

Lemma engine_decodable : decodable engine_width engine_bytes.
Proof.
  intros e e' r s [] [] Heq. unfold engine_bytes in Heq. rewrite <- !app_assoc in Heq.
  peel Heq text_decodable. peel Heq text_decodable.
  split; [|done]. destruct e, e'. simpl in *. by subst.
Qed.

Lemma address_decodable : decodable (λ a, short_text (Address.text a)) address_bytes.
Proof.
  intros [a] [b] r s Ha Hb Heq. apply text_decodable in Heq as [Heq ->]; [|done..].
  simpl in Heq. by subst.
Qed.

Record member_width (m : Member.t) : Prop := {
  mw_version : version_width (Member.version m);
  mw_name : short_text (WorkerName.as_str (Member.name m));
  mw_cert : short (CertFingerprint.as_bytes (Member.cert_fingerprint m));
  mw_protocol : width 32 (ProtocolVersion.raw (Member.protocol m));
  mw_incarnation : width 64 (Incarnation.raw (Member.incarnation m));
  mw_peers : short_list (λ a, short_text (Address.text a)) (Endpoints.peers (Member.endpoints m));
  mw_clients : short_list (λ a, short_text (Address.text a)) (Endpoints.clients (Member.endpoints m));
  mw_cap_peers : width 32 (NodeCapacity.peers (Member.capacity m));
  mw_cap_clients : width 32 (NodeCapacity.clients (Member.capacity m));
  mw_cores : width 32 (Capabilities.cpu_cores (Member.capabilities m));
  mw_memory : width 64 (Capabilities.memory_bytes (Member.capabilities m));
  mw_arch : short_text (Capabilities.architecture (Member.capabilities m));
  mw_storage : short_text (Capabilities.storage_backend (Member.capabilities m));
  mw_replicas : opt (width 32) (Capabilities.storage_replicas (Member.capabilities m));
  mw_accelerators : short_list short_text (Capabilities.accelerators (Member.capabilities m));
  mw_engines : short_list engine_width (Capabilities.engines (Member.capabilities m))
}.

Lemma liveness_code_inj a b : liveness_code a = liveness_code b → a = b.
Proof. by destruct a, b. Qed.
Lemma removal_mode_code_inj a b : removal_mode_code a = removal_mode_code b → a = b.
Proof. by destruct a, b. Qed.
Lemma action_code_inj a b : action_code a = action_code b → a = b.
Proof. by destruct a, b. Qed.

Lemma code_width_liveness l : width 8 (liveness_code l).
Proof. split. by destruct l. Qed.
Lemma code_width_mode m : width 8 (removal_mode_code m).
Proof. split. by destruct m. Qed.
Lemma code_width_action a : width 8 (action_code a).
Proof. split. by destruct a. Qed.
#[local] Hint Resolve code_width_liveness code_width_mode code_width_action : core.

Lemma width_zero : width 32 0.
Proof. by split. Qed.

(** [peel], with the width of the field on either side. *)
Ltac field Heq lemma proj Hm Hm' :=
  apply (lemma _ _ _ _ (proj _ Hm) (proj _ Hm')) in Heq as [? Heq].

(** The members' encoding determines everything but the identity, which is in
    the key. *)
Lemma member_bytes_inj k k' m m' :
  short k → short k' → member_width m → member_width m' →
  member_bytes k m = member_bytes k' m' →
  k = k' ∧ (Member.id m = Member.id m' → m = m').
Proof.
  intros Hk Hk' Hm Hm' Heq. unfold member_bytes in Heq.
  rewrite <- (app_nil_r (Encoder.items engine_bytes (Capabilities.engines (Member.capabilities m)))) in Heq.
  rewrite <- (app_nil_r (Encoder.items engine_bytes (Capabilities.engines (Member.capabilities m')))) in Heq.
  apply (bytes_decodable _ _ _ _ Hk Hk') in Heq as [-> Heq]. apply app_inv_head in Heq.
  field Heq version_decodable mw_version Hm Hm'. field Heq text_decodable mw_name Hm Hm'.
  field Heq bytes_decodable mw_cert Hm Hm'. field Heq u32_decodable mw_protocol Hm Hm'.
  apply (u8_decodable _ _ _ _ (code_width_liveness _) (code_width_liveness _)) in Heq as [Hlv Heq].
  field Heq u64_decodable mw_incarnation Hm Hm'.
  field Heq (items_decodable _ _ address_decodable) mw_peers Hm Hm'.
  field Heq (items_decodable _ _ address_decodable) mw_clients Hm Hm'.
  do 3 apply (bool_decodable _ _ _ _ I I) in Heq as [? Heq].
  field Heq u32_decodable mw_cap_peers Hm Hm'. field Heq u32_decodable mw_cap_clients Hm Hm'.
  field Heq u32_decodable mw_cores Hm Hm'. field Heq u64_decodable mw_memory Hm Hm'.
  field Heq text_decodable mw_arch Hm Hm'. field Heq text_decodable mw_storage Hm Hm'.
  field Heq (option_decodable _ _ _ width_zero u32_decodable) mw_replicas Hm Hm'.
  field Heq (items_decodable _ _ text_decodable) mw_accelerators Hm Hm'.
  field Heq (items_decodable _ _ engine_decodable) mw_engines Hm Hm'.
  split; [done|]. intros Hid. clear Hm Hm'. apply liveness_code_inj in Hlv.
  destruct m as [? [] [] [] ? [] ? [] [] [] []], m' as [? [] [] [] ? [] ? [] [] [] []].
  simpl in *. by subst.
Qed.

(** ** Keys *)
Lemma hex_bytes_inj (a b : CertFingerprint.t) :
  CertFingerprint.to_hex a = CertFingerprint.to_hex b → a = b.
Proof.
  intros Heq. apply (f_equal bytes_of) in Heq. unfold CertFingerprint.to_hex, bytes_of in Heq.
  rewrite !String.list_ascii_of_string_of_list_ascii in Heq.
  unfold CertFingerprint.to_hex_bytes in Heq. destruct a as [a], b as [b]. simpl in Heq.
  pose proof (f_equal length Heq) as Hlen. rewrite !length_bind_hex in Hlen.
  pose proof (parse_pairs_hex a [] 0 eq_refl) as Ha.
  pose proof (parse_pairs_hex b [] 0 eq_refl) as Hb. cbn [app] in *.
  rewrite Heq in Ha. replace (length a) with (length b) in Ha by lia. congruence.
Qed.

Lemma blocklist_to_string_inj (a b : BlocklistKey.t) :
  BlocklistKey.to_string a = BlocklistKey.to_string b → a = b.
Proof.
  destruct a, b; simpl; intros Heq; try done; simplify_eq.
  - by destruct id, id0; simpl in *; subst.
  - by destruct name, name0; simpl in *; subst.
  - by apply hex_bytes_inj in Heq as ->.
  - by destruct pattern, pattern0; simpl in *; subst.
Qed.

(** ** The other records *)
Record tombstone_width (t : MembershipTombstone.t) : Prop := {
  tw_version : version_width (MembershipTombstone.version t);
  tw_name : short_text (WorkerName.as_str (MembershipTombstone.name t));
  tw_cert : short (CertFingerprint.as_bytes (MembershipTombstone.cert_fingerprint t));
  tw_reason : opt short_text (MembershipTombstone.reason t)
}.

Record blocklist_width (e : BlocklistEntry.t) : Prop := {
  bw_version : version_width (BlocklistEntry.version e);
  bw_added_by : short_text (BlocklistEntry.added_by e)
}.

Lemma short_text_empty : short_text "".
Proof. by split. Qed.

(** A tombstone as it is hashed: without its [cleared] flag. *)
Definition uncleared (t : MembershipTombstone.t) : MembershipTombstone.t :=
  MembershipTombstone.mk (MembershipTombstone.node_id t) (MembershipTombstone.name t)
    (MembershipTombstone.cert_fingerprint t) (MembershipTombstone.removal_mode t)
    (MembershipTombstone.version t) false (MembershipTombstone.reason t).

Lemma tombstone_bytes_inj k k' t t' :
  short k → short k' → tombstone_width t → tombstone_width t' →
  tombstone_bytes k t = tombstone_bytes k' t' →
  k = k' ∧ (MembershipTombstone.node_id t = MembershipTombstone.node_id t' →
            uncleared t = uncleared t').
Proof.
  intros Hk Hk' Ht Ht' Heq. unfold tombstone_bytes in Heq.
  rewrite <- (app_nil_r (Encoder.option Encoder.text "" (MembershipTombstone.reason t))),
    <- (app_nil_r (Encoder.option Encoder.text "" (MembershipTombstone.reason t'))) in Heq.
  apply (bytes_decodable _ _ _ _ Hk Hk') in Heq as [-> Heq]. apply app_inv_head in Heq.
  field Heq version_decodable tw_version Ht Ht'. field Heq text_decodable tw_name Ht Ht'.
  field Heq bytes_decodable tw_cert Ht Ht'.
  apply (u8_decodable _ _ _ _ (code_width_mode _) (code_width_mode _)) in Heq as [Hm Heq].
  field Heq (option_decodable _ _ _ short_text_empty text_decodable) tw_reason Ht Ht'.
  split; [done|]. intros Hid. clear Ht Ht'. apply removal_mode_code_inj in Hm.
  destruct t as [? [] [] ? ? ? ?], t' as [? [] [] ? ? ? ?].
  unfold uncleared. cbn in *. by subst.
Qed.

Lemma blocklist_bytes_inj k k' e e' :
  short k → short k' → blocklist_width e → blocklist_width e' →
  blocklist_bytes k e = blocklist_bytes k' e' →
  k = k' ∧ (BlocklistEntry.key e = BlocklistEntry.key e' → e = e').
Proof.
  intros Hk Hk' He He' Heq. unfold blocklist_bytes in Heq.
  rewrite <- (app_nil_r (Encoder.text (BlocklistEntry.added_by e))),
    <- (app_nil_r (Encoder.text (BlocklistEntry.added_by e'))) in Heq.
  apply (bytes_decodable _ _ _ _ Hk Hk') in Heq as [-> Heq]. apply app_inv_head in Heq.
  field Heq version_decodable bw_version He He'.
  apply (u8_decodable _ _ _ _ (code_width_action _) (code_width_action _)) in Heq as [Ha Heq].
  field Heq text_decodable bw_added_by He He'.
  split; [done|]. intros Hid. clear He He'. apply action_code_inj in Ha.
  destruct e, e'. cbn in *. by subst.
Qed.

Lemma policy_bytes_inj p p' :
  version_width (MembershipPolicy.version p) → version_width (MembershipPolicy.version p') →
  policy_bytes p = policy_bytes p' → p = p'.
Proof.
  intros Hp Hp' Heq. unfold policy_bytes in Heq. do 2 apply app_inv_head in Heq.
  rewrite <- (app_nil_r (Encoder.bool (MembershipPolicy.locked p))),
    <- (app_nil_r (Encoder.bool (MembershipPolicy.locked p'))) in Heq.
  apply (version_decodable _ _ _ _ Hp Hp') in Heq as [Hv Heq].
  apply (bool_decodable _ _ _ _ I I) in Heq as [Hl _].
  destruct p, p'. cbn in *. by subst.
Qed.

(** ** Records of every kind *)

(** The bytes a leaf's key and a leaf's hash are taken from; a record of another
    subsystem is never a leaf. *)
Definition body_key (b : DeltaBody.t) : bytes :=
  match b with
  | DeltaBody.MembershipUpdate member => member_key (Member.id member)
  | DeltaBody.TombstoneUpdate tombstone => tombstone_key (MembershipTombstone.node_id tombstone)
  | DeltaBody.BlocklistUpdate entry => blocklist_key (BlocklistEntry.key entry)
  | DeltaBody.MembershipPolicyUpdate _ => policy_key
  | DeltaBody.Foreign _ => []
  end.
Definition body_bytes (b : DeltaBody.t) : bytes :=
  match b with
  | DeltaBody.MembershipUpdate member => member_bytes (body_key b) member
  | DeltaBody.TombstoneUpdate tombstone => tombstone_bytes (body_key b) tombstone
  | DeltaBody.BlocklistUpdate entry => blocklist_bytes (body_key b) entry
  | DeltaBody.MembershipPolicyUpdate policy => policy_bytes policy
  | DeltaBody.Foreign _ => []
  end.

(** The record as it is hashed. *)
Definition hashed_part (b : DeltaBody.t) : DeltaBody.t :=
  match b with
  | DeltaBody.TombstoneUpdate tombstone => DeltaBody.TombstoneUpdate (uncleared tombstone)
  | _ => b
  end.

(** Every integer fits its width and every text its 32-bit length prefix. *)
Definition encodable (b : DeltaBody.t) : Prop :=
  short (body_key b) ∧
  match b with
  | DeltaBody.MembershipUpdate member => member_width member
  | DeltaBody.TombstoneUpdate tombstone => tombstone_width tombstone
  | DeltaBody.BlocklistUpdate entry => blocklist_width entry
  | DeltaBody.MembershipPolicyUpdate policy => version_width (MembershipPolicy.version policy)
  | DeltaBody.Foreign _ => False
  end.

Lemma member_key_inj a b : member_key a = member_key b → a = b.
Proof. intros [= Heq%(inj bytes_of)]. destruct a, b. simpl in *. by subst. Qed.
Lemma tombstone_key_inj a b : tombstone_key a = tombstone_key b → a = b.
Proof. intros [= Heq%(inj bytes_of)]. destruct a, b. simpl in *. by subst. Qed.
Lemma blocklist_key_inj a b : blocklist_key a = blocklist_key b → a = b.
Proof. intros [= Heq%(inj bytes_of)]. by apply blocklist_to_string_inj. Qed.

Lemma body_key_first b b' :
  encodable b → encodable b' → body_bytes b = body_bytes b' → body_key b = body_key b'.
Proof.
  assert (∀ b, encodable b → ∃ r, body_bytes b = Encoder.bytes (body_key b) ++ r) as Hform.
  { intros []; [by eexists..|]. intros [_ []]. }
  intros Hb Hb' Heq. destruct (Hform b Hb) as [r Hr], (Hform b' Hb') as [s Hs].
  rewrite Hr, Hs in Heq. apply (bytes_decodable _ _ _ _ (proj1 Hb) (proj1 Hb')) in Heq as [? _].
  done.
Qed.

Lemma body_bytes_inj b b' :
  encodable b → encodable b' → body_bytes b = body_bytes b' ↔ hashed_part b = hashed_part b'.
Proof.
  intros Hb Hb'. split.
  - intros Heq. pose proof (body_key_first _ _ Hb Hb' Heq) as Hk.
    destruct Hb as [Hkb Hb], Hb' as [Hkb' Hb'].
    destruct b, b'; try done; cbn [hashed_part body_bytes] in *; try (injection Hk as ?; done).
    + apply member_bytes_inj in Heq as [_ Heq]; try done. f_equal. by apply Heq, member_key_inj.
    + apply tombstone_bytes_inj in Heq as [_ Heq]; try done. f_equal.
      by apply Heq, tombstone_key_inj.
    + apply blocklist_bytes_inj in Heq as [_ Heq]; try done. f_equal.
      by apply Heq, blocklist_key_inj.
    + apply policy_bytes_inj in Heq; try done. by f_equal.
  - destruct b, b'; simpl; intros [=]; simplify_eq; try done.
    destruct tombstone, tombstone0. unfold tombstone_bytes. cbn in *. by simplify_eq.
Qed.
