(* ===== verification/Digest.v ===== *)
(** * Equal digests mean equal state (antientropy.rs)

    The tree of two models compared: a bucket hash covers exactly the records
    that fall in the bucket, the root covers every bucket, so without a
    collision among the strings the two nodes hash, equal roots are equal state
    and the divergent buckets are those holding a record that differs. *)

From Stdlib Require Import Ascii.
From stdpp Require Import base gmap strings list sorting fin_maps pretty.
From S2P Require Import Prelude Identity Limits Records Gossip Vocabulary Model Merge Admission Antientropy Update Steps Refinement Invariants Encoding.

(** ** The records of a model *)

(** The records [build] makes leaves of, in its order. *)
Definition bodies (m : Membership.t) : list DeltaBody.t :=
  (DeltaBody.MembershipUpdate <$> btree_values m.(Membership.members))
  ++ (DeltaBody.TombstoneUpdate <$> btree_values m.(Membership.tombstones))
  ++ (DeltaBody.BlocklistUpdate <$> btree_values m.(Membership.blocklist))
  ++ (DeltaBody.MembershipPolicyUpdate <$> option_list m.(Membership.membership_policy)).

(** The model holds this record, a tombstone up to its [cleared] flag. *)
Definition recorded (m : Membership.t) (b : DeltaBody.t) : Prop :=
  match b with
  | DeltaBody.MembershipUpdate member =>
    m.(Membership.members) !! Member.id member = Some member
  | DeltaBody.TombstoneUpdate tombstone =>
    uncleared <$> m.(Membership.tombstones) !! MembershipTombstone.node_id tombstone
    = Some (uncleared tombstone)
  | DeltaBody.BlocklistUpdate entry =>
    m.(Membership.blocklist) !! BlocklistEntry.key entry = Some entry
  | DeltaBody.MembershipPolicyUpdate policy => m.(Membership.membership_policy) = Some policy
  | DeltaBody.Foreign _ => False
  end.
#[export] Instance recorded_dec m b : Decision (recorded m b).
Proof. destruct b; simpl; apply _. Defined.

(** Every record is stored under its own key. *)
Record keyed (m : Membership.t) : Prop := {
  keyed_members id mem : m.(Membership.members) !! id = Some mem → Member.id mem = id;
  keyed_tombstones id t :
    m.(Membership.tombstones) !! id = Some t → MembershipTombstone.node_id t = id;
  keyed_blocklist k e : m.(Membership.blocklist) !! k = Some e → BlocklistEntry.key e = k
}.

Lemma wf_keyed m : wf m → keyed m.
Proof.
  intros Hw. split.
  - intros id mem Hm. by apply (wf_members _ Hw) in Hm as [? _].
  - intros id t Ht. by apply (wf_tombstones _ Hw) in Ht as [? _].
  - intros k e He. by apply (wf_blocklist _ Hw) in He as [? _].
Qed.

Lemma recorded_hashed_part m b : recorded m (hashed_part b) ↔ recorded m b.
Proof. by destruct b. Qed.

Lemma recorded_bodies m b :
  keyed m → recorded m b ↔ ∃ b', b' ∈ bodies m ∧ hashed_part b' = hashed_part b.
Proof.
  intros Hk. unfold bodies. setoid_rewrite elem_of_app. setoid_rewrite elem_of_app.
  setoid_rewrite elem_of_app. setoid_rewrite list_elem_of_fmap.
  setoid_rewrite elem_of_btree_values. split.
  - destruct b as [mem|t|e|p|f]; simpl; intros Hr; [| | | |done].
    + exists (DeltaBody.MembershipUpdate mem). naive_solver.
    + apply fmap_Some in Hr as (t' & Ht' & ->). exists (DeltaBody.TombstoneUpdate t').
      naive_solver.
    + exists (DeltaBody.BlocklistUpdate e). naive_solver.
    + exists (DeltaBody.MembershipPolicyUpdate p). rewrite Hr. split; [|done].
      do 3 right. exists p. split; [done|]. by apply elem_of_cons; left.
  - intros (b' & [(x & -> & k & Hx)|[(x & -> & k & Hx)|[(x & -> & k & Hx)|(x & -> & Hx)]]] & Heq);
      destruct b; try done; cbn [hashed_part recorded] in *.
    + injection Heq as <-. by rewrite (keyed_members _ Hk _ _ Hx).
    + apply (f_equal (λ b, match b with DeltaBody.TombstoneUpdate t => t | _ => x end)) in Heq.
      pose proof (f_equal MembershipTombstone.node_id Heq) as Hid. simpl in Hid.
      rewrite <- Hid, (keyed_tombstones _ Hk _ _ Hx), Hx. simpl. by f_equal.
    + injection Heq as <-. by rewrite (keyed_blocklist _ Hk _ _ Hx).
    + injection Heq as <-. destruct (Membership.membership_policy m).
      * by apply list_elem_of_singleton in Hx as ->.
      * by apply elem_of_nil in Hx.
Qed.

(** ** No two records share a leaf key *)
Lemma btree_values_keys `{Countable K, Ord K, !OrdLaws K} {V} (f : V → K) (m : gmap K V) :
  (∀ k v, m !! k = Some v → f v = k) → f <$> btree_values m = btree_keys m.
Proof.
  intros Hf. unfold btree_values, btree_keys. rewrite <- list_fmap_compose.
  apply list_fmap_ext. intros i [k v] Hi. simpl. apply Hf.
  apply elem_of_btree_entries, list_elem_of_lookup. eauto.
Qed.

Lemma NoDup_leaf_keys `{Countable K, Ord K, !OrdLaws K} {V} (f : V → K) (key : K → bytes)
    (body : V → DeltaBody.t) (m : gmap K V) :
  Inj (=) (=) key → (∀ v, body_key (body v) = key (f v)) →
  (∀ k v, m !! k = Some v → f v = k) → NoDup (body_key <$> (body <$> btree_values m)).
Proof.
  intros Hinj Hb Hf. rewrite <- list_fmap_compose.
  rewrite (list_fmap_ext _ (key ∘ f)) by (intros ? v _; apply Hb).
  rewrite list_fmap_compose, (btree_values_keys f m Hf).
  apply NoDup_fmap; [done|]. apply NoDup_btree_keys.
Qed.

#[export] Instance member_key_Inj : Inj (=) (=) member_key := member_key_inj.
#[export] Instance tombstone_key_Inj : Inj (=) (=) tombstone_key := tombstone_key_inj.
#[export] Instance blocklist_key_Inj : Inj (=) (=) blocklist_key := blocklist_key_inj.

(** The first byte of a key is the tag of its kind. *)
Lemma keys_disjoint {A B} (f : A → DeltaBody.t) (g : B → DeltaBody.t) (l : list A) (k : list B) x :
  (∀ a b, body_key (f a) ≠ body_key (g b)) →
  x ∈ body_key <$> (f <$> l) → x ∉ body_key <$> (g <$> k).
Proof.
  intros Hd. rewrite !list_elem_of_fmap.
  intros (? & -> & (a & -> & _)%list_elem_of_fmap) (? & Heq & (b & -> & _)%list_elem_of_fmap).
  by apply (Hd a b).
Qed.

Lemma NoDup_body_keys m : keyed m → NoDup (body_key <$> bodies m).
Proof.
  intros Hk. unfold bodies. rewrite !fmap_app, !NoDup_app. setoid_rewrite not_elem_of_app.
  split_and!.
  - apply (NoDup_leaf_keys Member.id member_key); [apply _|done|apply Hk].
  - intros x Hx. rewrite not_elem_of_app.
    split_and!; (eapply keys_disjoint; [|exact Hx]); by intros.
  - apply (NoDup_leaf_keys MembershipTombstone.node_id tombstone_key); [apply _|done|apply Hk].
  - intros x Hx. split; (eapply keys_disjoint; [|exact Hx]); by intros.
  - apply (NoDup_leaf_keys BlocklistEntry.key blocklist_key); [apply _|done|apply Hk].
  - intros x Hx. (eapply keys_disjoint; [|exact Hx]); by intros.
  - destruct (Membership.membership_policy m); simpl; [apply NoDup_singleton|apply NoDup_nil_2].
Qed.

(** ** What a bucket holds *)
#[export] Instance leaf_key_le_trans : Transitive Leaf.key_le.
Proof. intros a b c. unfold Leaf.key_le. apply cmp_le_trans. Qed.
#[export] Instance leaf_key_le_total : Total Leaf.key_le.
Proof. intros a b. unfold Leaf.key_le. apply cmp_le_total. Qed.

Section hashing.
Context `{!Sha256}.
Implicit Types (m : Membership.t) (b : DeltaBody.t) (i : N).

Definition body_item b : bytes * Hash256.t * DeltaBody.t :=
  (body_key b, hash256 (LEAF_DOMAIN ++ body_bytes b), b).

Lemma items_bodies m : MembershipTree.items m = body_item <$> bodies m.
Proof.
  unfold MembershipTree.items, bodies. rewrite !fmap_app, <- !list_fmap_compose.
  by destruct (Membership.membership_policy m).
Qed.

(** The leaves of a bucket of the built tree. *)
Definition bucket_leaves (tree : MembershipTree.t) i : list Leaf.t :=
  default [] (MembershipTree.buckets tree !! i).
Definition leaf_of (depth : N) b : Leaf.t :=
  Leaf.mk (bucket_of (body_key b) depth) (body_key b) (hash256 (LEAF_DOMAIN ++ body_bytes b)) b.
Definition bucket_bodies m i : list DeltaBody.t :=
  filter (λ b, bucket_of (body_key b) m.(Membership.limits).(LimitsSpec.anti_entropy_depth) = i)
    (bodies m).

Lemma foldl_push depth l (acc : gmap N (list Leaf.t)) i :
  default [] (foldl (MembershipTree.push depth) acc (body_item <$> l) !! i)
  = default [] (acc !! i)
    ++ (leaf_of depth <$> filter (λ b, bucket_of (body_key b) depth = i) l).
Proof.
  revert acc. induction l as [|b l IH]; intros acc; [by rewrite app_nil_r|].
  rewrite fmap_cons. cbn [foldl]. rewrite IH, filter_cons. unfold MembershipTree.push. cbn [body_item].
  destruct (decide (bucket_of (body_key b) depth = i)) as [<-|Hne].
  - rewrite lookup_insert_eq. cbn [default from_option id]. by rewrite <- app_assoc.
  - by rewrite lookup_insert_ne.
Qed.

Lemma bucket_leaves_build m i :
  bucket_leaves (MembershipTree.build m) i
  = merge_sort Leaf.key_le
      (leaf_of m.(Membership.limits).(LimitsSpec.anti_entropy_depth) <$> bucket_bodies m i).
Proof.
  unfold bucket_leaves, MembershipTree.build. simpl. rewrite items_bodies, lookup_fmap.
  set (d := LimitsSpec.anti_entropy_depth _). pose proof (foldl_push d (bodies m) ∅ i) as Hp.
  rewrite lookup_empty in Hp. simpl in Hp. unfold bucket_bodies. fold d. rewrite <- Hp.
  by destruct (foldl _ _ _ !! i).
Qed.

Lemma bucket_leaves_perm m i :
  bucket_leaves (MembershipTree.build m) i
  ≡ₚ leaf_of m.(Membership.limits).(LimitsSpec.anti_entropy_depth) <$> bucket_bodies m i.
Proof. rewrite bucket_leaves_build. apply merge_sort_Permutation. Qed.

Lemma bucket_leaves_sorted m i :
  StronglySorted Leaf.key_le (bucket_leaves (MembershipTree.build m) i).
Proof. rewrite bucket_leaves_build. apply StronglySorted_merge_sort; apply _. Qed.

(** ** The same records in a bucket, the same leaf hashes *)
Definition same_bucket m1 m2 i : Prop :=
  ∀ b, bucket_of (body_key b) m1.(Membership.limits).(LimitsSpec.anti_entropy_depth) = i →
       recorded m1 b ↔ recorded m2 b.

Definition pairing (l : Leaf.t) : bytes * Hash256.t := (Leaf.key l, Leaf.hash l).

Lemma hashed_part_key b b' : hashed_part b = hashed_part b' → body_key b = body_key b'.
Proof.
  destruct b, b'; simpl; intros Heq; try done; try (by injection Heq as <-).
Qed.
Lemma hashed_part_bytes b b' : hashed_part b = hashed_part b' → body_bytes b = body_bytes b'.
Proof.
  destruct b, b'; simpl; intros Heq; try done; try (by injection Heq as <-).
  apply (f_equal body_bytes) in Heq. exact Heq.
Qed.

Lemma elem_of_pairing m i p :
  p ∈ pairing <$> bucket_leaves (MembershipTree.build m) i ↔
  ∃ b, b ∈ bodies m
       ∧ bucket_of (body_key b) m.(Membership.limits).(LimitsSpec.anti_entropy_depth) = i
       ∧ p = (body_key b, hash256 (LEAF_DOMAIN ++ body_bytes b)).
Proof.
  rewrite (bucket_leaves_perm m i), <- list_fmap_compose, list_elem_of_fmap. unfold bucket_bodies.
  setoid_rewrite list_elem_of_filter. naive_solver.
Qed.

Lemma NoDup_pairing m i :
  keyed m → NoDup (pairing <$> bucket_leaves (MembershipTree.build m) i).*1.
Proof.
  intros Hk. rewrite (bucket_leaves_perm m i), <- !list_fmap_compose.
  apply (sublist_NoDup _ (body_key <$> bodies m)); [by apply NoDup_body_keys|].
  apply fmap_sublist, sublist_filter.
Qed.

Lemma pairing_included m1 m2 i p :
  keyed m1 → keyed m2 →
  m1.(Membership.limits).(LimitsSpec.anti_entropy_depth)
  = m2.(Membership.limits).(LimitsSpec.anti_entropy_depth) →
  same_bucket m1 m2 i →
  p ∈ pairing <$> bucket_leaves (MembershipTree.build m1) i →
  p ∈ pairing <$> bucket_leaves (MembershipTree.build m2) i.
Proof.
  intros Hk1 Hk2 Hd Hs. rewrite !elem_of_pairing. intros (b & Hb & Hi & ->).
  assert (recorded m1 b) as Hr by (apply recorded_bodies; eauto).
  apply (Hs b Hi), recorded_bodies in Hr as (b' & Hb' & Heq); [|done].
  exists b'. rewrite <- Hd, (hashed_part_key _ _ Heq), (hashed_part_bytes _ _ Heq). done.
Qed.

Lemma same_bucket_sym m1 m2 i :
  m1.(Membership.limits).(LimitsSpec.anti_entropy_depth)
  = m2.(Membership.limits).(LimitsSpec.anti_entropy_depth) →
  same_bucket m1 m2 i → same_bucket m2 m1 i.
Proof. intros Hd Hs b Hi. symmetry. apply Hs. by rewrite Hd. Qed.

Lemma same_bucket_hashes m1 m2 i :
  keyed m1 → keyed m2 →
  m1.(Membership.limits).(LimitsSpec.anti_entropy_depth)
  = m2.(Membership.limits).(LimitsSpec.anti_entropy_depth) →
  same_bucket m1 m2 i →
  Leaf.hash <$> bucket_leaves (MembershipTree.build m1) i
  = Leaf.hash <$> bucket_leaves (MembershipTree.build m2) i.
Proof.
  intros Hk1 Hk2 Hd Hs.
  assert (pairing <$> bucket_leaves (MembershipTree.build m1) i
          = pairing <$> bucket_leaves (MembershipTree.build m2) i) as Hp.
  { apply (StronglySorted_unique_strong entry_le).
    - intros [k1 h1] [k2 h2] H1 H2 Hle Hge.
      assert (k1 = k2) as -> by (by apply cmp_le_antisym).
      apply (pairing_included _ m2) in H1; [|done..].
      f_equal. exact (NoDup_fst_inj _ _ _ _ (NoDup_pairing m2 i Hk2) H1 H2).
    - by apply (StronglySorted_fmap _ Leaf.key_le), bucket_leaves_sorted.
    - by apply (StronglySorted_fmap _ Leaf.key_le), bucket_leaves_sorted.
    - apply NoDup_Permutation.
      + by apply (NoDup_fmap_1 fst), NoDup_pairing.
      + by apply (NoDup_fmap_1 fst), NoDup_pairing.
      + intros p. split; apply pairing_included; try done. by apply same_bucket_sym. }
  apply (f_equal (fmap snd)) in Hp. by rewrite <- !list_fmap_compose in Hp.
Qed.

(** ** The strings a node hashes *)
Definition bucket_input (leaves : list Leaf.t) : bytes :=
  BUCKET_DOMAIN ++ Encoder.count leaves ++ (leaves ≫= λ leaf, Hash256.as_bytes (Leaf.hash leaf)).
Definition node_input (l r : Hash256.t) : bytes :=
  NODE_DOMAIN ++ Hash256.as_bytes l ++ Hash256.as_bytes r.

Fixpoint level_inputs (level : list Hash256.t) : list bytes :=
  match level with
  | [] => []
  | [l] => [node_input l l]
  | l :: r :: level => node_input l r :: level_inputs level
  end.
Fixpoint fold_inputs (fuel : nat) (level : list Hash256.t) : list bytes :=
  match fuel with
  | O => []
  | S fuel =>
    if decide (length level ≤ 1) then []
    else level_inputs level ++ fold_inputs fuel (fold_level level)
  end.

(** Everything hashed to make the digest of the model. *)
Definition hashed m : list bytes :=
  let tree := MembershipTree.build m in
  let level := MerkleDigest.buckets (MembershipTree.digest tree) in
  ((λ b, LEAF_DOMAIN ++ body_bytes b) <$> bodies m)
  ++ ((λ index, bucket_input (bucket_leaves tree (N.of_nat index)))
        <$> seq 0 (MembershipTree.bucket_count tree))
  ++ fold_inputs (length level) level.

(** No two different strings among these have one hash. *)
Definition collision_free (inputs : list bytes) : Prop :=
  ∀ a b : bytes, a ∈ inputs → b ∈ inputs → sha256 a = sha256 b → a = b.

Lemma collision_free_mono inputs inputs' :
  inputs' ⊆ inputs → collision_free inputs → collision_free inputs'.
Proof. intros Hs Hc x y Hx Hy. apply Hc; by apply Hs. Qed.

Lemma hash256_inj inputs (a b : bytes) :
  collision_free inputs → a ∈ inputs → b ∈ inputs → hash256 a = hash256 b → a = b.
Proof. intros Hc Ha Hb [= Heq]. by apply Hc. Qed.

Lemma cons_inj {A} (x y : A) l k : x :: l = y :: k → x = y ∧ l = k.
Proof. by intros [= -> ->]. Qed.

(** ** Folding the buckets into the root *)
Context `{!Sha256Laws}.
Definition full (h : Hash256.t) : Prop := length (Hash256.as_bytes h) = 32.

Lemma hash256_full a : full (hash256 a).
Proof. apply sha256_length. Qed.

Lemma node_input_inj l r l' r' :
  full l → full l' → node_input l r = node_input l' r' → l = l' ∧ r = r'.
Proof.
  unfold node_input, full. intros Hl Hl' Heq%app_inv_head.
  apply app_inj_1 in Heq as [Hlr Hr]; [|by rewrite Hl, Hl'].
  destruct l, l', r, r'. simpl in *. by subst.
Qed.

Lemma fold_level_full level : Forall full (fold_level level).
Proof.
  induction level as [level IH] using (induction_ltof1 _ length).
  destruct level as [|l [|r level]]; simpl; [done| |].
  - constructor; [apply hash256_full|done].
  - constructor; [apply hash256_full|]. apply IH. unfold ltof. simpl. lia.
Qed.

Lemma fold_level_length level : length (fold_level level) = (length level + 1) / 2.
Proof.
  induction level as [level IH] using (induction_ltof1 _ length).
  destruct level as [|l [|r level]]; [done..|]. cbn [fold_level length].
  rewrite IH by (unfold ltof; simpl; lia).
  replace (S (S (length level)) + 1) with (length level + 1 + 1 * 2) by lia.
  rewrite Nat.div_add by done. lia.
Qed.

Lemma fold_level_inj level : ∀ level',
  length level = length level' → Forall full level → Forall full level' →
  collision_free (level_inputs level ++ level_inputs level') →
  fold_level level = fold_level level' → level = level'.
Proof.
  induction level as [level IH] using (induction_ltof1 _ length).
  destruct level as [|l [|r level]]; intros [|l' [|r' level']] Hlen Hf Hf' Hc Heq; try done.
  - apply cons_inj in Heq as [Heq _]. apply (hash256_inj _ _ _ Hc) in Heq; [|set_solver..].
    apply Forall_cons in Hf as [Hl _], Hf' as [Hl' _].
    by apply node_input_inj in Heq as [-> _].
  - apply cons_inj in Heq as [Hh Heq]. injection Hlen as Hlen.
    apply Forall_cons in Hf as [Hl [_ Hf]%Forall_cons], Hf' as [Hl' [_ Hf']%Forall_cons].
    apply (hash256_inj _ _ _ Hc) in Hh; [|set_solver..].
    apply node_input_inj in Hh as [-> ->]; [|done..]. do 2 f_equal.
    apply IH; try done; [unfold ltof; simpl; lia|].
    eapply collision_free_mono; [|exact Hc]. simpl. set_solver.
Qed.

Lemma fold_while_inj fuel : ∀ level level',
  length level = length level' → Forall full level → Forall full level' →
  collision_free (fold_inputs fuel level ++ fold_inputs fuel level') →
  fold_while fuel level = fold_while fuel level' → level = level'.
Proof.
  induction fuel as [|fuel IH]; intros level level' Hlen Hf Hf' Hc; [done|]. simpl in *.
  rewrite <- Hlen in *. destruct (decide (length level ≤ 1)); [done|]. intros Heq.
  apply fold_level_inj; try done; [eapply collision_free_mono; [|exact Hc]; set_solver|].
  apply IH; try done; [by rewrite !fold_level_length, Hlen|apply fold_level_full..|].
  eapply collision_free_mono; [|exact Hc]. set_solver.
Qed.

Lemma fold_while_length fuel level :
  length level ≤ fuel → length (fold_while fuel level) ≤ 1.
Proof.
  revert level. induction fuel as [|fuel IH]; intros level Hl; simpl; [lia|].
  destruct (decide (length level ≤ 1)); [done|]. apply IH. rewrite fold_level_length.
  assert ((length level + 1) / 2 < length level); [|lia]. apply Nat.div_lt_upper_bound; lia.
Qed.

Lemma fold_while_nonempty fuel level :
  level ≠ [] → fold_while fuel level ≠ [].
Proof.
  revert level. induction fuel as [|fuel IH]; intros level Hl; simpl; [done|].
  destruct (decide (length level ≤ 1)); [done|]. apply IH. by destruct level as [|? [|]].
Qed.

Lemma fold_root_inj level level' :
  length level = length level' → Forall full level → Forall full level' →
  collision_free (fold_inputs (length level) level ++ fold_inputs (length level') level') →
  fold_root level = fold_root level' → level = level'.
Proof.
  intros Hlen Hf Hf' Hc Heq. unfold fold_root in Heq.
  destruct level as [|h level], level' as [|h' level']; try done.
  rewrite <- Hlen in *. revert Heq Hc. set (l := h :: level) in *. set (l' := h' :: level') in *.
  intros Heq Hc. apply (fold_while_inj (length l)); try done.
  pose proof (fold_while_length (length l) l ltac:(done)).
  pose proof (fold_while_length (length l) l' ltac:(by rewrite Hlen)).
  pose proof (fold_while_nonempty (length l) l ltac:(done)).
  pose proof (fold_while_nonempty (length l) l' ltac:(done)).
  destruct (fold_while _ l) as [|x [|]], (fold_while _ l') as [|y [|]]; simpl in *; try done; try lia.
  by subst.
Qed.

(** ** The same leaf hashes, the same records in a bucket *)
Lemma bucket_leaves_full m i : Forall (λ l, full (Leaf.hash l)) (bucket_leaves (MembershipTree.build m) i).
Proof.
  rewrite (bucket_leaves_perm m i). apply Forall_fmap, Forall_true. intros b. apply hash256_full.
Qed.

Lemma bind_full_length (l : list Leaf.t) :
  Forall (λ l, full (Leaf.hash l)) l →
  length (l ≫= λ leaf, Hash256.as_bytes (Leaf.hash leaf)) = length l * 32.
Proof.
  induction 1 as [|x l Hx _ IH]; [done|]. rewrite bind_cons, length_app, IH.
  unfold full in Hx. rewrite Hx. simpl. lia.
Qed.

Lemma bucket_input_inj (l l' : list Leaf.t) :
  Forall (λ l, full (Leaf.hash l)) l → Forall (λ l, full (Leaf.hash l)) l' →
  bucket_input l = bucket_input l' → Leaf.hash <$> l = Leaf.hash <$> l'.
Proof.
  intros Hl Hl' Heq%app_inv_head. apply app_inj_1 in Heq as [_ Heq];
    [|unfold Encoder.count, Encoder.u32; by rewrite !to_be_bytes_length].
  pose proof (f_equal length Heq) as Hlen. rewrite !bind_full_length in Hlen by done.
  revert l' Hl' Hlen Heq. induction Hl as [|x l Hx Hl IH]; intros [|y l'] Hl' Hlen Heq;
    try done; [simpl in Hlen; lia..|].
  apply Forall_cons in Hl' as [Hy Hl']. rewrite !bind_cons in Heq.
  unfold full in Hx, Hy. apply app_inj_1 in Heq as [Hh Heq]; [|by rewrite Hx, Hy].
  rewrite !fmap_cons. f_equal.
  - destruct (Leaf.hash x), (Leaf.hash y). simpl in Hh. by subst.
  - apply IH; [done| |exact Heq]. simpl in Hlen. lia.
Qed.

Section comparing.
Context (m1 m2 : Membership.t).
Let depth := m1.(Membership.limits).(LimitsSpec.anti_entropy_depth).
Hypothesis keyed1 : keyed m1.
Hypothesis keyed2 : keyed m2.
Hypothesis same_depth : depth = m2.(Membership.limits).(LimitsSpec.anti_entropy_depth).
Hypothesis depth_ok : (1 ≤ depth ≤ 8)%N.
Hypothesis encodable1 : Forall encodable (bodies m1).
Hypothesis encodable2 : Forall encodable (bodies m2).
Hypothesis no_collision : collision_free (hashed m1 ++ hashed m2).

Lemma leaf_input_hashed m b : b ∈ bodies m → LEAF_DOMAIN ++ body_bytes b ∈ hashed m.
Proof.
  intros Hb. unfold hashed. apply elem_of_app; left. apply list_elem_of_fmap. eauto.
Qed.

Lemma hashes_recorded i b :
  Leaf.hash <$> bucket_leaves (MembershipTree.build m1) i
  = Leaf.hash <$> bucket_leaves (MembershipTree.build m2) i →
  bucket_of (body_key b) depth = i → recorded m1 b → recorded m2 b.
Proof.
  intros Heq Hi Hr. apply recorded_bodies in Hr as (b1 & Hb1 & Hp1); [|done].
  assert (hash256 (LEAF_DOMAIN ++ body_bytes b1)
          ∈ Leaf.hash <$> bucket_leaves (MembershipTree.build m2) i) as Hin.
  { rewrite <- Heq, (bucket_leaves_perm m1 i), <- list_fmap_compose, list_elem_of_fmap.
    exists b1. split; [done|]. apply list_elem_of_filter. split; [|done].
    by rewrite (hashed_part_key _ _ Hp1). }
  rewrite (bucket_leaves_perm m2 i), <- list_fmap_compose, list_elem_of_fmap in Hin.
  destruct Hin as (b2 & Hh & [_ Hb2]%list_elem_of_filter).
  apply (hash256_inj _ _ _ no_collision) in Hh;
    [|apply elem_of_app; left; by apply leaf_input_hashed
     |apply elem_of_app; right; by apply leaf_input_hashed].
  apply app_inv_head, body_bytes_inj in Hh;
    [|by eapply Forall_forall in encodable1|by eapply Forall_forall in encodable2].
  apply recorded_bodies; [done|]. exists b2. by rewrite <- Hh.
Qed.
End comparing.

Lemma bucket_of_lt key d : (d ≤ 16)%N → (bucket_of key d < 2 ^ d)%N.
Proof.
  intros Hd. unfold bucket_of. rewrite N.shiftr_div_pow2.
  apply N.Div0.div_lt_upper_bound. rewrite <- N.pow_add_r.
  replace (16 - d + d)%N with 16%N by lia.
  pose proof (N_ascii_bounded (nth 0 (sha256 (BUCKET_DOMAIN ++ key)) (byte 0))).
  pose proof (N_ascii_bounded (nth 1 (sha256 (BUCKET_DOMAIN ++ key)) (byte 0))).
  change (2 ^ 16)%N with 65536%N. lia.
Qed.

Lemma length_digest_buckets m :
  length (MerkleDigest.buckets (MembershipTree.digest (MembershipTree.build m)))
  = N.to_nat (2 ^ m.(Membership.limits).(LimitsSpec.anti_entropy_depth)).
Proof.
  simpl. rewrite length_fmap, length_seq. unfold MembershipTree.bucket_count. simpl.
  by rewrite N.shiftl_1_l.
Qed.

Lemma digest_buckets_lookup m i :
  (i < 2 ^ m.(Membership.limits).(LimitsSpec.anti_entropy_depth))%N →
  MerkleDigest.buckets (MembershipTree.digest (MembershipTree.build m)) !! N.to_nat i
  = Some (hash256 (bucket_input (bucket_leaves (MembershipTree.build m) i))).
Proof.
  intros Hi. simpl. rewrite list_lookup_fmap, lookup_seq_lt; simpl.
  - by rewrite N2Nat.id.
  - unfold MembershipTree.bucket_count. simpl. rewrite N.shiftl_1_l. lia.
Qed.

(** The digest a node makes passes [is_well_formed]. *)
Lemma digest_well_formed m :
  (1 ≤ m.(Membership.limits).(LimitsSpec.anti_entropy_depth) ≤ 8)%N →
  is_well_formed (MembershipTree.digest (MembershipTree.build m)) = true.
Proof.
  intros Hd. unfold is_well_formed. unfold lenN. rewrite length_digest_buckets, N2Nat.id.
  cbn [MerkleDigest.depth MembershipTree.digest]. cbn [MembershipTree.depth MembershipTree.build].
  rewrite (proj2 (N.eqb_neq _ _)), (proj2 (N.ltb_ge _ _)) by lia. simpl.
  rewrite N.shiftl_1_l, N.eqb_refl. simpl. by apply bool_decide_eq_true.
Qed.

(** ** Comparing two nodes *)

(** Two well-formed models under one depth, made of encodable records, with no
    collision among the strings hashed for their digests. *)
Record comparable m1 m2 : Prop := {
  comparable_wf1 : wf m1;
  comparable_wf2 : wf m2;
  comparable_depth : m1.(Membership.limits).(LimitsSpec.anti_entropy_depth)
                     = m2.(Membership.limits).(LimitsSpec.anti_entropy_depth);
  comparable_encodable1 : Forall encodable (bodies m1);
  comparable_encodable2 : Forall encodable (bodies m2);
  comparable_hashes : collision_free (hashed m1 ++ hashed m2)
}.

Lemma wf_depth m : wf m → (1 ≤ m.(Membership.limits).(LimitsSpec.anti_entropy_depth) ≤ 8)%N.
Proof. intros Hw%wf_limits. by apply limits_valid_facts in Hw as (_ & _ & ? & _). Qed.

Lemma comparable_sym m1 m2 : comparable m1 m2 → comparable m2 m1.
Proof.
  intros []. split; try done. eapply collision_free_mono; [|done].
  intros x. rewrite !elem_of_app. tauto.
Qed.

Section comparable.
Context (m1 m2 : Membership.t) (Hc : comparable m1 m2).
Let depth := m1.(Membership.limits).(LimitsSpec.anti_entropy_depth).
Let tree1 := MembershipTree.build m1.
Let tree2 := MembershipTree.build m2.

Lemma bucket_input_hashed m i :
  (i < 2 ^ m.(Membership.limits).(LimitsSpec.anti_entropy_depth))%N →
  bucket_input (bucket_leaves (MembershipTree.build m) i) ∈ hashed m.
Proof.
  intros Hi. unfold hashed. apply elem_of_app; right. apply elem_of_app; left.
  apply list_elem_of_fmap. exists (N.to_nat i). rewrite N2Nat.id. split; [done|].
  apply elem_of_seq. unfold MembershipTree.bucket_count. simpl. rewrite N.shiftl_1_l. lia.
Qed.

Lemma leaf_hashes_iff i :
  Leaf.hash <$> bucket_leaves tree1 i = Leaf.hash <$> bucket_leaves tree2 i ↔ same_bucket m1 m2 i.
Proof.
  pose proof (wf_keyed _ (comparable_wf1 _ _ Hc)) as Hk1.
  pose proof (wf_keyed _ (comparable_wf2 _ _ Hc)) as Hk2.
  pose proof (comparable_sym _ _ Hc) as Hc'. split.
  - intros Heq b Hi. split; intros Hr.
    + by eapply (hashes_recorded m1 m2 Hk1 Hk2); [..|exact Heq|exact Hi|exact Hr]; apply Hc.
    + eapply (hashes_recorded m2 m1 Hk2 Hk1); [apply Hc'..|symmetry; exact Heq| |exact Hr].
      by rewrite <- (comparable_depth _ _ Hc).
  - apply same_bucket_hashes; [done..|apply Hc].
Qed.

Lemma bucket_input_ext (l l' : list Leaf.t) :
  Leaf.hash <$> l = Leaf.hash <$> l' → bucket_input l = bucket_input l'.
Proof.
  intros Heq. unfold bucket_input, Encoder.count, lenN. pose proof (f_equal length Heq) as Hlen.
  rewrite !length_fmap in Hlen. rewrite Hlen. do 2 f_equal. clear Hlen. revert l' Heq.
  induction l as [|x l IH]; intros [|y l'] Heq; try done. rewrite !fmap_cons in Heq.
  apply cons_inj in Heq as [Hh Heq]. by rewrite !bind_cons, Hh, (IH _ Heq).
Qed.

Lemma bucket_hash_iff i :
  (i < 2 ^ depth)%N →
  MembershipTree.bucket_hash tree1 i = MembershipTree.bucket_hash tree2 i ↔ same_bucket m1 m2 i.
Proof.
  intros Hi. rewrite <- leaf_hashes_iff. split.
  - intros Heq. apply (hash256_inj _ _ _ (comparable_hashes _ _ Hc)) in Heq.
    + apply bucket_input_inj in Heq; [done|apply bucket_leaves_full..].
    + apply elem_of_app; left. by apply bucket_input_hashed.
    + apply elem_of_app; right. apply bucket_input_hashed. by rewrite <- (comparable_depth _ _ Hc).
  - intros Heq. unfold MembershipTree.bucket_hash. f_equal. by apply bucket_input_ext in Heq.
Qed.

Lemma digest_buckets_full m :
  Forall full (MerkleDigest.buckets (MembershipTree.digest (MembershipTree.build m))).
Proof. simpl. apply Forall_fmap, Forall_true. intros i. apply hash256_full. Qed.

Lemma roots_buckets :
  MerkleDigest.root (MembershipTree.digest tree1) = MerkleDigest.root (MembershipTree.digest tree2) ↔
  MerkleDigest.buckets (MembershipTree.digest tree1)
  = MerkleDigest.buckets (MembershipTree.digest tree2).
Proof.
  split; [|cbn [MerkleDigest.root MerkleDigest.buckets MembershipTree.digest]; by intros ->].
  intros Heq. apply fold_root_inj; [|apply digest_buckets_full..| |exact Heq].
  - unfold tree1, tree2. by rewrite !length_digest_buckets, (comparable_depth _ _ Hc).
  - eapply collision_free_mono; [|apply (comparable_hashes _ _ Hc)].
    intros x. unfold hashed. fold tree1 tree2. cbv zeta. rewrite !elem_of_app. tauto.
Qed.

Lemma buckets_iff :
  MerkleDigest.buckets (MembershipTree.digest tree1)
  = MerkleDigest.buckets (MembershipTree.digest tree2) ↔
  ∀ i, (i < 2 ^ depth)%N → same_bucket m1 m2 i.
Proof.
  pose proof (comparable_depth _ _ Hc) as Hd. fold depth in Hd. split.
  - intros Heq i Hi. apply bucket_hash_iff; [done|].
    apply (f_equal (.!! N.to_nat i)) in Heq. unfold tree1, tree2 in Heq.
    rewrite !digest_buckets_lookup in Heq by (fold depth; by rewrite <- ?Hd).
    apply (inj Some) in Heq. exact Heq.
  - intros Hs. apply list_eq_same_length with (n := N.to_nat (2 ^ depth)).
    + unfold tree2. by rewrite length_digest_buckets, <- Hd.
    + apply length_digest_buckets.
    + intros i x y Hi. replace i with (N.to_nat (N.of_nat i)) by apply Nat2N.id.
      unfold tree1, tree2. rewrite !digest_buckets_lookup by (fold depth; rewrite <- ?Hd; lia).
      intros [= <-] [= <-]. apply bucket_hash_iff; [lia|]. apply Hs. lia.
Qed.
End comparable.


(** ** The divergent buckets *)
Lemma StronglySorted_filter {A} (R : relation A) (P : A → Prop) `{!∀ x, Decision (P x)} l :
  StronglySorted R l → StronglySorted R (filter P l).
Proof.
  induction 1 as [|x l _ IH Hx]; [constructor|]. rewrite filter_cons.
  destruct (decide (P x)); [|done]. constructor; [done|].
  rewrite Forall_forall in *. intros y [_ Hy]%list_elem_of_filter. by apply Hx.
Qed.

Lemma StronglySorted_imap {A} (l : list A) (k : nat) :
  StronglySorted (λ a b : nat * A, a.1 < b.1) (imap (λ j x, (k + j, x)) l).
Proof.
  revert k. induction l as [|x l IH]; intros k; [constructor|]. rewrite imap_cons. constructor.
  - rewrite (imap_ext _ (λ j x, (S k + j, x))) by (intros; simpl; f_equal; lia). apply IH.
  - apply Forall_forall. intros [n y] (i & z & -> & _)%elem_of_lookup_imap. simpl. lia.
Qed.

(** The indices at which two lists differ, as the code enumerates them. *)
Lemma differing_indices (l k : list Hash256.t) (i : N) :
  i ∈ (λ e : nat * (Hash256.t * Hash256.t), N.of_nat e.1) <$>
        filter (λ e : nat * (Hash256.t * Hash256.t), e.2.1 ≠ e.2.2) (imap pair (zip l k)) ↔
  ∃ x y, l !! N.to_nat i = Some x ∧ k !! N.to_nat i = Some y ∧ x ≠ y.
Proof.
  rewrite list_elem_of_fmap. setoid_rewrite list_elem_of_filter.
  setoid_rewrite elem_of_lookup_imap. split.
  - intros ([n [x y]] & -> & Hne & (j & [x' y'] & [= -> -> ->] & Hl)).
    apply lookup_zip_Some in Hl as [Hx Hy]. exists x', y'. by rewrite Nat2N.id.
  - intros (x & y & Hx & Hy & Hne). exists (N.to_nat i, (x, y)).
    split; [simpl; by rewrite N2Nat.id|]. split; [done|]. exists (N.to_nat i), (x, y).
    by rewrite lookup_zip_Some.
Qed.

Lemma differing_record m1 m2 i :
  keyed m1 → keyed m2 → ¬ same_bucket m1 m2 i ↔
  ∃ b, bucket_of (body_key b) m1.(Membership.limits).(LimitsSpec.anti_entropy_depth) = i
       ∧ ¬ (recorded m1 b ↔ recorded m2 b).
Proof.
  intros Hk1 Hk2. split.
  - intros Hn. set (d := LimitsSpec.anti_entropy_depth _).
    set (P := λ b, bucket_of (body_key b) d = i → recorded m1 b ↔ recorded m2 b).
    assert (∀ b, Decision (P b)) as Hdec by (intros b; unfold P; apply _).
    destruct (decide (Forall P (bodies m1 ++ bodies m2))) as [Hall|Hex].
    + destruct Hn. intros b Hi. rewrite Forall_app, !Forall_forall in Hall.
      assert (∀ m b', b' ∈ bodies m → hashed_part b' = hashed_part b → P b' →
                      recorded m1 b ↔ recorded m2 b) as Hp.
      { intros m b' _ Heq HP. rewrite <- (recorded_hashed_part m1), <- (recorded_hashed_part m2).
        rewrite <- Heq, !recorded_hashed_part. apply HP. by rewrite (hashed_part_key _ _ Heq). }
      destruct Hall as [Hall1 Hall2].
      split; intros Hr; pose proof Hr as (b' & Hb' & Heq)%recorded_bodies; try done.
      * by apply (Hp m1 b' Hb' Heq (Hall1 _ Hb')).
      * by apply (Hp m2 b' Hb' Heq (Hall2 _ Hb')).
    + apply not_Forall_Exists in Hex; [|done]. apply Exists_exists in Hex as (b & _ & Hb).
      exists b. unfold P in Hb. destruct (decide (bucket_of (body_key b) d = i)); [|by destruct Hb].
      split; [done|]. intros Hiff. apply Hb. intros _. exact Hiff.
  - intros (b & Hi & Hb) Hs. apply Hb, Hs, Hi.
Qed.

(** Between comparable models [divergent_buckets] succeeds and names, in
    ascending order, exactly the buckets in which some record is held by one
    node and not by the other: none is missed and none is sent for nothing. *)
Theorem divergent_buckets_exact (m1 m2 : Membership.t) :
  comparable m1 m2 →
  ∃ found,
    MembershipTree.divergent_buckets (MembershipTree.build m1)
      (MembershipTree.digest (MembershipTree.build m2)) = Ok found
    ∧ StronglySorted N.lt found
    ∧ ∀ i, i ∈ found ↔
        ∃ b, bucket_of (body_key b) m1.(Membership.limits).(LimitsSpec.anti_entropy_depth) = i
             ∧ ¬ (recorded m1 b ↔ recorded m2 b).
Proof.
  intros Hc. pose proof (comparable_depth _ _ Hc) as Hd.
  pose proof (wf_keyed _ (comparable_wf1 _ _ Hc)) as Hk1.
  pose proof (wf_keyed _ (comparable_wf2 _ _ Hc)) as Hk2.
  pose proof (wf_depth _ (comparable_wf1 _ _ Hc)) as Hd1.
  pose proof (wf_depth _ (comparable_wf2 _ _ Hc)) as Hd2.
  setoid_rewrite <- (differing_record m1 m2 _ Hk1 Hk2).
  unfold MembershipTree.divergent_buckets.
  replace (MerkleDigest.depth _) with (MembershipTree.depth (MembershipTree.build m1)) by exact Hd.
  rewrite N.eqb_refl, digest_well_formed by done. cbn [negb]. cbv zeta.
  set (t1 := MembershipTree.digest (MembershipTree.build m1)).
  set (t2 := MembershipTree.digest (MembershipTree.build m2)).
  assert (∀ i, ¬ same_bucket m1 m2 i →
    (i < 2 ^ m1.(Membership.limits).(LimitsSpec.anti_entropy_depth))%N) as Hlt.
  { intros i (b & <- & _)%differing_record; [|done..]. apply bucket_of_lt. lia. }
  destruct (decide (MerkleDigest.root t1 = MerkleDigest.root t2)) as [Heq|Hne].
  - exists []. split; [done|]. split; [constructor|]. intros i. split; [by intros ?%elem_of_nil|].
    intros Hs. pose proof (Hlt i Hs) as Hi. destruct Hs. revert i Hi.
    apply buckets_iff; [done|]. by apply roots_buckets.
  - eexists. split; [done|]. split.
    { apply (StronglySorted_fmap _ (λ u v : nat * (Hash256.t * Hash256.t), u.1 < v.1)); [lia|].
      apply StronglySorted_filter, (StronglySorted_imap _ 0). }
    intros i. rewrite differing_indices. split.
    + intros (x & y & Hx & Hy & Hxy).
      assert (i < 2 ^ m1.(Membership.limits).(LimitsSpec.anti_entropy_depth))%N as Hi.
      { pose proof (length_digest_buckets m1). apply lookup_lt_Some in Hx. unfold t1 in Hx. lia. }
      rewrite <- (bucket_hash_iff m1 m2) by done. intros Hs. apply Hxy.
      unfold t1, t2 in Hx, Hy. rewrite digest_buckets_lookup in Hx by done.
      rewrite digest_buckets_lookup in Hy by (by rewrite <- Hd).
      apply (inj Some) in Hx as <-, Hy as <-. exact Hs.
    + intros Hs. pose proof (Hlt i Hs) as Hi. rewrite <- (bucket_hash_iff m1 m2) in Hs by done.
      unfold t1, t2. rewrite !digest_buckets_lookup by (by rewrite <- ?Hd).
      eexists _, _. split; [done|]. split; [done|]. exact Hs.
Qed.
End hashing.

(** ** Concrete instances *)

(** A rolling 256-bit checksum, under which the instances below are free of
    collisions. *)
Definition rolling_sha256 : Sha256 := λ b,
  to_be_bytes 32 (foldl (λ acc c, (acc * 257 + N_of_ascii c + 1) mod 2 ^ 256)%N 1%N b).
Lemma rolling_sha256_laws : @Sha256Laws rolling_sha256.
Proof. intros b. apply to_be_bytes_length. Qed.

Lemma collision_free_check `{!Sha256} (inputs : list bytes) :
  (let table := (λ a, (sha256 a, a)) <$> inputs in
   forallb (λ p, forallb (λ q, bool_decide (p.1 = q.1 → p.2 = q.2)) table) table) = true →
  collision_free inputs.
Proof.
  cbv zeta. rewrite forallb_forall. intros Hall a b Ha Hb Heq.
  specialize (Hall (sha256 a, a)). rewrite forallb_forall in Hall.
  setoid_rewrite <- list_elem_of_In in Hall. setoid_rewrite list_elem_of_fmap in Hall.
  specialize (Hall (ex_intro _ a (conj eq_refl Ha)) (sha256 b, b) (ex_intro _ b (conj eq_refl Hb))).
  apply bool_decide_eq_true in Hall. by apply Hall.
Qed.

Definition locked_model : Membership.t := after self_model lock_message.
Lemma locked_model_wf : wf locked_model.
Proof.
  unfold locked_model, after.
  destruct (update_some (H := toy_sha256) self_model lock_message (wf_local _ self_model_wf))
    as [t Ht].
  rewrite Ht. exact (update_wf (H := toy_sha256) _ _ _ Ht self_model_wf).
Qed.

(** Discharges the widths of concrete records. *)
Ltac widths := repeat (vm_compute; reflexivity) || constructor.

Lemma self_bodies_encodable : Forall encodable (bodies self_model).
Proof.
  match goal with |- Forall _ ?l => let v := eval vm_compute in l in change l with v end.
  widths.
Qed.
Lemma locked_bodies_encodable : Forall encodable (bodies locked_model).
Proof.
  match goal with |- Forall _ ?l => let v := eval vm_compute in l in change l with v end.
  widths.
Qed.

Lemma self_locked_comparable : comparable (H := rolling_sha256) self_model locked_model.
Proof.
  split; [apply self_model_wf|apply locked_model_wf|vm_compute; reflexivity
         |apply self_bodies_encodable|apply locked_bodies_encodable|].
  apply collision_free_check. vm_compute. reflexivity.
Qed.


Lemma divergent_buckets_exact_witness :
  comparable (H := rolling_sha256) self_model locked_model
  ∧ ∃ found,
      MembershipTree.divergent_buckets (H := rolling_sha256)
        (MembershipTree.build (H := rolling_sha256) self_model)
        (MembershipTree.digest (H := rolling_sha256)
           (MembershipTree.build (H := rolling_sha256) locked_model)) = Ok found
      ∧ StronglySorted N.lt found
      ∧ ∀ i, i ∈ found ↔
          ∃ b, bucket_of (H := rolling_sha256) (body_key b)
                 self_model.(Membership.limits).(LimitsSpec.anti_entropy_depth) = i
               ∧ ¬ (recorded self_model b ↔ recorded locked_model b).
Proof.
  split; [exact self_locked_comparable|].
  exact (divergent_buckets_exact (H := rolling_sha256) (H0 := rolling_sha256_laws) _ _ self_locked_comparable).
Defined.
