(* ===== verification/Paging.v ===== *)
(** * Following a paged reply (antientropy.rs)

    A truncated batch carries a cursor; asking again from the cursor until a
    batch is complete delivers the requested range, each record once, when the
    buckets are requested in ascending order, and loses records when not. *)

From Stdlib Require Import Ascii.
From stdpp Require Import base gmap strings list sorting fin_maps pretty.
From S2P Require Import Prelude Identity Limits Records Gossip Vocabulary Model Merge Admission Antientropy Update Steps Refinement Invariants Encoding Digest.

Implicit Types (tree : MembershipTree.t) (cursor : option AntiEntropyCursor.t).

(** ** One batch *)

(** The leaves still to send, with the bucket each is sent from. *)
Definition placed : Type := N * Leaf.t.
Definition place (bucket : N) (leaves : list Leaf.t) : list placed := pair bucket <$> leaves.
Definition still_in tree cursor (bucket : N) : list placed :=
  let skip := match cursor with
              | Some c => (bucket <? AntiEntropyCursor.bucket c)%N
              | None => false
              end in
  if skip then [] else place bucket (MembershipTree.resume cursor bucket (bucket_leaves tree bucket)).
Definition remaining tree (requested : list N) cursor : list placed :=
  requested ≫= still_in tree cursor.
(** The whole requested range. *)
Definition range tree (requested : list N) : list placed :=
  requested ≫= λ bucket, place bucket (bucket_leaves tree bucket).

Definition sent (p : placed) : GossipDelta.t := GossipDelta.mk 0 (Leaf.body p.2).
Definition mark (p : placed) : N * bytes := (p.1, Leaf.key p.2).
Definition after_mark (l : N * bytes) : AntiEntropyCursor.t := AntiEntropyCursor.mk l.1 l.2.
(** The last leaf sent, or what was recorded before. *)
Definition last_mark (ps : list placed) (recorded : option (N * bytes)) : option (N * bytes) :=
  match last ps with Some p => Some (mark p) | None => recorded end.

Definition truncated (room : nat) (ps : list placed) (deltas : list GossipDelta.t)
    (recorded : option (N * bytes)) : AntiEntropyBatch.t :=
  AntiEntropyBatch.mk (deltas ++ (sent <$> take room ps)) false
    (after_mark <$> last_mark (take room ps) recorded).

Lemma last_mark_app ps qs recorded :
  last_mark (ps ++ qs) recorded = last_mark qs (last_mark ps recorded).
Proof.
  unfold last_mark. rewrite last_app. by destruct (last qs).
Qed.

Lemma last_mark_cons p ps recorded : last_mark (p :: ps) recorded = last_mark ps (Some (mark p)).
Proof. exact (last_mark_app [p] ps recorded). Qed.

Lemma place_cons bucket leaf leaves :
  place bucket (leaf :: leaves) = (bucket, leaf) :: place bucket leaves.
Proof. done. Qed.

Lemma truncated_app room ps qs deltas recorded :
  length ps ≤ room →
  truncated room (ps ++ qs) deltas recorded
  = truncated (room - length ps) qs (deltas ++ (sent <$> ps)) (last_mark ps recorded).
Proof.
  intros Hr. unfold truncated. rewrite take_app, take_ge by done.
  by rewrite last_mark_app, fmap_app, app_assoc.
Qed.

Lemma lenN_eqb (deltas : list GossipDelta.t) (max : nat) :
  (lenN deltas =? N.of_nat max)%N = bool_decide (length deltas = max).
Proof.
  unfold lenN. case_bool_decide; [apply N.eqb_eq|apply N.eqb_neq]; lia.
Qed.

Lemma collect_leaves_spec (max : nat) bucket leaves : ∀ deltas recorded,
  length deltas ≤ max →
  MembershipTree.collect_leaves (N.of_nat max) bucket leaves deltas recorded
  = if decide (length deltas + length leaves ≤ max)
    then inr (deltas ++ (sent <$> place bucket leaves), last_mark (place bucket leaves) recorded)
    else inl (truncated (max - length deltas) (place bucket leaves) deltas recorded).
Proof.
  induction leaves as [|leaf leaves IH]; intros deltas recorded Hd;
    cbn [MembershipTree.collect_leaves].
  - rewrite decide_True by (simpl; lia). simpl. by rewrite app_nil_r.
  - rewrite lenN_eqb, place_cons, last_mark_cons. cbn [length]. case_bool_decide as He.
    + rewrite decide_False by lia. unfold truncated.
      replace (max - length deltas) with 0 by lia. simpl. by rewrite app_nil_r.
    + rewrite IH by (rewrite length_app; simpl; lia). rewrite length_app. cbn [length].
      change ((bucket, leaf) :: place bucket leaves) with ([(bucket, leaf)] ++ place bucket leaves).
      rewrite truncated_app by (simpl; lia). cbn [length app].
      rewrite fmap_cons, <- app_assoc, <- Nat.sub_add_distr, <- Nat.add_assoc. done.
Qed.

Lemma length_place bucket leaves : length (place bucket leaves) = length leaves.
Proof. apply length_fmap. Qed.

Lemma truncated_app_l room ps qs deltas recorded :
  room ≤ length ps →
  truncated room (ps ++ qs) deltas recorded = truncated room ps deltas recorded.
Proof. intros Hr. unfold truncated. by rewrite take_app_le. Qed.

Lemma collect_buckets_spec tree cursor (max : nat) requested : ∀ deltas recorded,
  length deltas ≤ max →
  MembershipTree.collect_buckets tree cursor (N.of_nat max) requested deltas recorded
  = let rest := remaining tree requested cursor in
    if decide (length deltas + length rest ≤ max)
    then AntiEntropyBatch.mk (deltas ++ (sent <$> rest)) true None
    else truncated (max - length deltas) rest deltas recorded.
Proof.
  induction requested as [|bucket requested IH]; intros deltas recorded Hd; cbv zeta.
  { simpl. rewrite decide_True by lia. by rewrite app_nil_r. }
  unfold remaining. rewrite bind_cons. fold (remaining tree requested cursor).
  cbn [MembershipTree.collect_buckets].
  set (skip := match cursor with Some c => _ | None => false end).
  assert (still_in tree cursor bucket = if skip then [] else
    place bucket (MembershipTree.resume cursor bucket (bucket_leaves tree bucket))) as -> by done.
  destruct skip; [by rewrite IH|].
  unfold bucket_leaves. destruct (MembershipTree.buckets tree !! bucket) as [leaves|] eqn:Hb.
  2:{ replace (MembershipTree.resume cursor bucket (default [] None)) with (@nil Leaf.t); [by rewrite IH|].
      unfold MembershipTree.resume. simpl. destruct cursor; [by case_match|done]. }
  cbn [default from_option id]. set (left := MembershipTree.resume cursor bucket leaves).
  rewrite collect_leaves_spec by done. rewrite length_app, length_place.
  destruct (decide (length deltas + length left ≤ max)).
  - rewrite IH by (rewrite length_app, length_fmap, length_place; lia). cbv zeta.
    rewrite length_app, length_fmap, length_place, fmap_app, app_assoc.
    rewrite <- Nat.add_assoc. destruct (decide _); [done|].
    rewrite truncated_app by (rewrite length_place; lia). rewrite length_place. f_equal; lia.
  - rewrite decide_False by lia. by rewrite truncated_app_l by (rewrite length_place; lia).
Qed.

(** ** Resuming after a leaf *)

(** Leaves are kept in strictly ascending key order. *)
Definition key_lt (a b : Leaf.t) : Prop := Leaf.key a ≺ Leaf.key b.
Definition ordered tree : Prop := ∀ i, StronglySorted key_lt (bucket_leaves tree i).

Lemma place_inv bucket leaves pre p post :
  place bucket leaves = pre ++ p :: post →
  p.1 = bucket ∧ ∃ l1 l2, leaves = l1 ++ p.2 :: l2 ∧ post = place bucket l2.
Proof.
  unfold place. intros Heq. apply fmap_app_inv in Heq as (l1 & l & -> & Heq & ->).
  symmetry in Heq. apply fmap_cons_inv in Heq as (x & l2 & -> & -> & ->).
  split; [done|]. exists l1, l2. done.
Qed.

Lemma drop_while_split {A} (f : A → bool) l1 x l2 :
  Forall (λ y, f y = true) l1 → f x = true → Forall (λ y, f y = false) l2 →
  drop_while f (l1 ++ x :: l2) = l2.
Proof.
  intros Hl1 Hx Hl2. induction Hl1 as [|y l1 Hy _ IH]; simpl.
  - rewrite Hx. destruct Hl2 as [|z l2 Hz]; simpl; [done|by rewrite Hz].
  - by rewrite Hy.
Qed.

Lemma resume_after tree bucket l1 leaf l2 :
  ordered tree → bucket_leaves tree bucket = l1 ++ leaf :: l2 →
  MembershipTree.resume (Some (after_mark (bucket, Leaf.key leaf))) bucket (bucket_leaves tree bucket)
  = l2.
Proof.
  intros Ho Heq. pose proof (Ho bucket) as Hs. rewrite Heq in *. simpl. rewrite N.eqb_refl.
  apply StronglySorted_app in Hs as (Hlt & _ & [Hgt _]%StronglySorted_cons).
  apply drop_while_split.
  - apply Forall_forall. intros y Hy. specialize (Hlt y leaf Hy ltac:(by apply elem_of_cons; left)).
    unfold cmp_leb, cmp_gtb. unfold key_lt in Hlt. by rewrite Hlt.
  - unfold cmp_leb, cmp_gtb. by rewrite cmp_refl.
  - eapply Forall_impl; [exact Hgt|]. intros y Hy. unfold cmp_leb, cmp_gtb.
    by rewrite (proj2 (cmp_gt_lt _ _) Hy).
Qed.

Lemma remaining_fresh tree requested c :
  Forall (N.lt (AntiEntropyCursor.bucket c)) requested →
  remaining tree requested (Some c) = range tree requested.
Proof.
  unfold remaining, range. induction 1 as [|b requested Hb _ IH]; [done|].
  rewrite !bind_cons, IH. f_equal. unfold still_in, MembershipTree.resume.
  rewrite (proj2 (N.ltb_ge _ _)), (proj2 (N.eqb_neq _ _)) by lia. done.
Qed.

Lemma remaining_none tree requested : remaining tree requested None = range tree requested.
Proof. done. Qed.

Lemma elem_of_range tree requested p : p ∈ range tree requested → p.1 ∈ requested.
Proof.
  unfold range. rewrite list_elem_of_bind.
  by intros (b & (l & -> & _)%list_elem_of_fmap & Hb).
Qed.

Lemma remaining_after tree requested pre p post :
  ordered tree → StronglySorted N.lt requested →
  range tree requested = pre ++ p :: post →
  remaining tree requested (Some (after_mark (mark p))) = post.
Proof.
  intros Ho Hs. revert pre. induction Hs as [|b requested _ IH Hb]; intros pre Heq.
  { by destruct pre. }
  unfold range in Heq. rewrite bind_cons in Heq. fold (range tree requested) in Heq.
  unfold remaining. rewrite bind_cons. fold (remaining tree requested (Some (after_mark (mark p)))).
  assert (∀ k, range tree requested = k ++ p :: post →
    still_in tree (Some (after_mark (mark p))) b
    ++ remaining tree requested (Some (after_mark (mark p))) = post) as Hlater.
  { intros k Hk. rewrite (IH k Hk). unfold still_in. simpl.
    assert (p.1 ∈ requested) as Hin.
    { apply (elem_of_range tree). rewrite Hk, elem_of_app, elem_of_cons. auto. }
    rewrite Forall_forall in Hb. by rewrite (proj2 (N.ltb_lt _ _) (Hb _ Hin)). }
  apply app_eq_inv in Heq as [(k & Hk & Heq)|(k & -> & Heq)].
  - destruct k as [|q k]; [by apply (Hlater [])|]. injection Heq as <- ->.
    apply place_inv in Hk as (Hp1 & l1 & l2 & Hl & ->).
    pose proof (resume_after tree b l1 p.2 l2 Ho Hl) as Hr.
    unfold still_in, mark. rewrite Hp1, Hr. cbn [after_mark AntiEntropyCursor.bucket fst].
    rewrite N.ltb_irrefl. f_equal. by apply remaining_fresh.
  - by apply (Hlater k).
Qed.

(** ** Following the cursors *)

(** The requester's side: ask until a batch is complete or has no cursor. *)
Fixpoint follow (fuel : nat) tree (requested : list N) cursor (max : N)
    : option (list AntiEntropyBatch.t) :=
  match fuel with
  | O => None
  | S fuel =>
    let batch := MembershipTree.collect tree requested cursor max in
    if AntiEntropyBatch.complete batch || bool_decide (AntiEntropyBatch.cursor batch = None)
    then Some [batch]
    else cons batch <$> follow fuel tree requested (AntiEntropyBatch.cursor batch) max
  end.

Lemma collect_spec tree requested cursor (max : nat) :
  MembershipTree.collect tree requested cursor (N.of_nat max)
  = if decide (length (remaining tree requested cursor) ≤ max)
    then AntiEntropyBatch.mk (sent <$> remaining tree requested cursor) true None
    else truncated max (remaining tree requested cursor) [] None.
Proof.
  unfold MembershipTree.collect. rewrite collect_buckets_spec by (simpl; lia).
  cbn [length Nat.add app]. by rewrite Nat.sub_0_r.
Qed.

(** The position of a cursor in the range: everything before it has been sent. *)
Definition resumes tree requested cursor (rest : list placed) : Prop :=
  remaining tree requested cursor = rest ∧ ∃ pre, range tree requested = pre ++ rest.

Lemma resumes_truncated tree requested cursor (max : nat) rest :
  ordered tree → StronglySorted N.lt requested → 0 < max → max < length rest →
  resumes tree requested cursor rest →
  ∃ c, AntiEntropyBatch.cursor (truncated max rest [] None) = Some c
    ∧ resumes tree requested (Some c) (drop max rest).
Proof.
  intros Ho Hs Hmax Hlen [_ [pre Hpre]].
  destruct (last (take max rest)) as [p|] eqn:Hp.
  2:{ apply last_None in Hp. pose proof (length_take_le rest max). rewrite Hp in *. simpl in *. lia. }
  exists (after_mark (mark p)). split; [simpl; unfold last_mark; by rewrite Hp|].
  apply last_Some in Hp as [l' Hl'].
  assert (range tree requested = (pre ++ l') ++ p :: drop max rest) as Hr.
  { rewrite Hpre, <- (take_drop max rest) at 1. rewrite Hl', <- !app_assoc. done. }
  split; [by eapply remaining_after|]. exists (pre ++ l' ++ [p]). by rewrite Hr, <- !app_assoc.
Qed.

Lemma follow_spec tree requested (max : nat) :
  ordered tree → StronglySorted N.lt requested → 0 < max →
  ∀ fuel cursor rest, length rest < fuel → resumes tree requested cursor rest →
  ∃ pages, follow fuel tree requested cursor (N.of_nat max) = Some pages
    ∧ (pages ≫= AntiEntropyBatch.deltas) = sent <$> rest
    ∧ Forall (λ b, length (AntiEntropyBatch.deltas b) ≤ max) pages
    ∧ (AntiEntropyBatch.complete <$> last pages) = Some true.
Proof.
  intros Ho Hs Hmax fuel. induction fuel as [|fuel IH]; intros cursor rest Hf Hr; [lia|].
  cbn [follow]. rewrite collect_spec, (proj1 Hr).
  destruct (decide (length rest ≤ max)) as [Hle|Hgt]; cbv zeta.
  - eexists. split; [done|]. split; [simpl; by rewrite app_nil_r|]. split; [|done].
    constructor; [|constructor]. simpl. by rewrite length_fmap.
  - destruct (resumes_truncated tree requested cursor max rest) as (c & Hc & Hr'); try done; [lia|].
    rewrite Hc. cbn [AntiEntropyBatch.complete truncated]. rewrite bool_decide_false by done.
    destruct (IH (Some c) (drop max rest)) as (pages & -> & Hd & Hb & Hcomp);
      [rewrite length_drop; lia|done|].
    eexists. split; [done|]. rewrite bind_cons, Hd. split_and!.
    + simpl. by rewrite <- fmap_app, take_drop.
    + constructor; [|done]. simpl. rewrite length_fmap. apply firstn_le_length.
    + by destruct pages as [|? pages].
Qed.

(** ** The built tree *)
Section build.
Context `{!Sha256}.

Lemma build_ordered m : keyed m → ordered (MembershipTree.build m).
Proof.
  intros Hk i. pose proof (bucket_leaves_sorted m i) as Hs. pose proof (NoDup_pairing m i Hk) as Hnd.
  revert Hnd. induction Hs as [|l leaves Hs IH Hl]; [constructor|].
  rewrite !fmap_cons, NoDup_cons. intros [Hnin Hnd]. constructor; [by apply IH|].
  rewrite Forall_forall in *. intros k Hin. pose proof (Hl k Hin) as Hle.
  apply cmp_le_lt_or_eq in Hle as [?|Heq]; [done|]. destruct Hnin. simpl. rewrite Heq.
  rewrite <- list_fmap_compose. apply list_elem_of_fmap. by exists k.
Qed.

Lemma filter_partition {A} (f : A → N) i (sel : list N) l :
  i ∉ sel →
  filter (λ x, f x ∈ i :: sel) l ≡ₚ filter (λ x, f x = i) l ++ filter (λ x, f x ∈ sel) l.
Proof.
  intros Hi. induction l as [|x l IH]; [done|]. rewrite !filter_cons.
  destruct (decide (f x = i)) as [Hx|Hx].
  - rewrite decide_True by (rewrite Hx; apply elem_of_cons; auto).
    rewrite decide_False by (by rewrite Hx). simpl. by rewrite IH.
  - destruct (decide (f x ∈ sel)) as [Hin|Hin].
    + rewrite decide_True by (apply elem_of_cons; auto). rewrite IH. apply Permutation_middle.
    + rewrite decide_False by (rewrite elem_of_cons; naive_solver). done.
Qed.

Lemma filter_buckets {A} (f : A → N) (sel : list N) l :
  NoDup sel → (sel ≫= λ i, filter (λ x, f x = i) l) ≡ₚ filter (λ x, f x ∈ sel) l.
Proof.
  induction 1 as [|i sel Hi _ IH].
  - simpl. induction l as [|x l IH]; [done|]. rewrite filter_cons, decide_False; [done|].
    by intros ?%elem_of_nil.
  - rewrite bind_cons, IH. symmetry. by apply filter_partition.
Qed.

Lemma StronglySorted_NoDup (sel : list N) : StronglySorted N.lt sel → NoDup sel.
Proof.
  induction 1 as [|i sel _ IH Hi]; [constructor|]. constructor; [|done].
  rewrite Forall_forall in Hi. intros Hin%Hi. lia.
Qed.

(** The records of the model in the requested buckets. *)
Definition requested_bodies m (requested : list N) : list DeltaBody.t :=
  filter (λ b, bucket_of (body_key b) m.(Membership.limits).(LimitsSpec.anti_entropy_depth)
               ∈ requested) (bodies m).

Lemma range_bodies m requested :
  NoDup requested →
  (GossipDelta.body ∘ sent <$> range (MembershipTree.build m) requested)
  ≡ₚ requested_bodies m requested.
Proof.
  intros Hnd. unfold requested_bodies. rewrite <- filter_buckets by done. unfold range.
  clear Hnd. induction requested as [|i requested IH]; [done|].
  rewrite !bind_cons, fmap_app, IH. f_equiv. unfold place. rewrite <- list_fmap_compose.
  rewrite (bucket_leaves_perm m i), <- list_fmap_compose. unfold bucket_bodies.
  by rewrite list_fmap_id.
Qed.

Lemma entries_positive m :
  wf m → (0 < m.(Membership.limits).(LimitsSpec.max_anti_entropy_entries))%N.
Proof.
  intros Hw%wf_limits. apply limits_valid_facts in Hw as (_ & Hall & _).
  rewrite Forall_forall in Hall. apply N.neq_0_lt_0.
  apply (Hall ("maxAntiEntropyEntries", m.(Membership.limits).(LimitsSpec.max_anti_entropy_entries))).
  unfold Limits.non_zero_checks. set_solver.
Qed.

(** C37: paging is exact. On a well-formed model, for buckets requested in
    ascending order, following the cursors from the start ends with a batch
    marked complete, no batch exceeds [max_anti_entropy_entries], and the
    batches together carry every record of the requested buckets exactly once. *)
Theorem paging_exact (m : Membership.t) (requested : list N) :
  wf m → StronglySorted N.lt requested →
  ∃ pages,
    follow (S (length (bodies m))) (MembershipTree.build m) requested None
      m.(Membership.limits).(LimitsSpec.max_anti_entropy_entries) = Some pages
    ∧ GossipDelta.body <$> (pages ≫= AntiEntropyBatch.deltas) ≡ₚ requested_bodies m requested
    ∧ Forall (λ b, (lenN (AntiEntropyBatch.deltas b)
                    ≤ m.(Membership.limits).(LimitsSpec.max_anti_entropy_entries))%N) pages
    ∧ (AntiEntropyBatch.complete <$> last pages) = Some true.
Proof.
  intros Hw Hs. pose proof (entries_positive m Hw) as Hmax.
  set (max := LimitsSpec.max_anti_entropy_entries _) in *.
  pose proof (range_bodies m requested (StronglySorted_NoDup _ Hs)) as Hrange.
  destruct (follow_spec (MembershipTree.build m) requested (N.to_nat max)
              (build_ordered m (wf_keyed m Hw)) Hs ltac:(lia) (S (length (bodies m))) None
              (range (MembershipTree.build m) requested)) as (pages & Hf & Hd & Hb & Hc).
  - pose proof (Permutation_length Hrange) as Hlen. rewrite length_fmap in Hlen. rewrite Hlen.
    unfold requested_bodies. apply Nat.lt_succ_r, length_filter.
  - split; [done|]. by exists [].
  - rewrite N2Nat.id in Hf. exists pages. split; [done|]. rewrite Hd.
    split; [by rewrite <- list_fmap_compose|]. split; [|done].
    eapply Forall_impl; [exact Hb|]. intros b. simpl. unfold lenN. lia.
Qed.
End build.

(** ** Buckets out of order *)

(** The default limits, with one record per batch. *)
Definition single_entry : Limits.t :=
  let d := LimitsSpec.default in
  default Limits.default (match Limits.try_from (LimitsSpec.mk
    d.(LimitsSpec.max_members) d.(LimitsSpec.max_snapshot_members)
    d.(LimitsSpec.max_snapshot_bytes) d.(LimitsSpec.max_gossip_per_message)
    d.(LimitsSpec.max_gossip_per_inbound_message) d.(LimitsSpec.max_gossip_queue)
    d.(LimitsSpec.max_gossip_hops) 1
    d.(LimitsSpec.anti_entropy_depth) d.(LimitsSpec.max_anti_entropy_rounds)
    d.(LimitsSpec.max_addresses_per_node) d.(LimitsSpec.max_address_len)
    d.(LimitsSpec.max_text_len) d.(LimitsSpec.max_accelerators) d.(LimitsSpec.max_engines)
    d.(LimitsSpec.max_redirects) d.(LimitsSpec.max_pending_probes)
    d.(LimitsSpec.max_pending_joins) d.(LimitsSpec.max_blocklist_entries)
    d.(LimitsSpec.max_tombstones) d.(LimitsSpec.max_effects_per_update)
    d.(LimitsSpec.max_diagnostics_per_update) d.(LimitsSpec.indirect_probe_count)
    d.(LimitsSpec.probe_timeout) d.(LimitsSpec.indirect_probe_timeout)
    d.(LimitsSpec.suspicion_timeout) d.(LimitsSpec.suspicion_multiplier)
    d.(LimitsSpec.anti_entropy_timeout) d.(LimitsSpec.join_backoff)
    d.(LimitsSpec.max_join_backoff) d.(LimitsSpec.max_join_attempts))
  with Ok l => Some l | Err _ => None end).

(** A node under these limits that has locked membership: two records. *)
Definition paged_model : Membership.t :=
  after (ModelFixtures.empty_model (Testing.local_identity "node-self") AdmissionPolicy.default
           single_entry) lock_message.
Lemma paged_model_wf : wf paged_model.
Proof.
  unfold paged_model, after.
  set (start := ModelFixtures.empty_model _ _ _).
  assert (wf start) as Hstart.
  { apply (reachable_wf (H := toy_sha256)).
    eapply (reachable_start Testing.formation (ClusterName.mk "test-cluster")
              (Testing.local_identity "node-self") AdmissionPolicy.default single_entry);
      vm_compute; reflexivity. }
  destruct (update_some (H := toy_sha256) start lock_message (wf_local _ Hstart)) as [t Ht].
  rewrite Ht. exact (update_wf (H := toy_sha256) _ _ _ Ht Hstart).
Qed.

Lemma paging_exact_witness :
  wf paged_model ∧ StronglySorted N.lt [2; 3]%N
  ∧ ∃ pages,
    follow (S (length (bodies paged_model)))
      (MembershipTree.build (H := rolling_sha256) paged_model) [2; 3]%N None
      paged_model.(Membership.limits).(LimitsSpec.max_anti_entropy_entries) = Some pages
    ∧ GossipDelta.body <$> (pages ≫= AntiEntropyBatch.deltas)
      ≡ₚ requested_bodies (H := rolling_sha256) paged_model [2; 3]%N
    ∧ Forall (λ b, (lenN (AntiEntropyBatch.deltas b)
        ≤ paged_model.(Membership.limits).(LimitsSpec.max_anti_entropy_entries))%N) pages
    ∧ (AntiEntropyBatch.complete <$> last pages) = Some true.
Proof.
  assert (StronglySorted N.lt [2; 3]%N) as Hs by (repeat constructor).
  split; [exact paged_model_wf|]. split; [exact Hs|].
  exact (paging_exact (H := rolling_sha256) paged_model [2; 3]%N paged_model_wf Hs).
Defined.

(** the ascending order is not enforced on a request. There is a well-formed
    model and an explicit request, accepted as it stands, whose pages end with a
    batch marked complete although a record of a requested bucket was sent in
    none of them: a cursor in a high bucket skips every lower one. *)
Theorem unordered_request_loses_records :
  ∃ (hash : Sha256) (m : Membership.t) (digest : MerkleDigest.t) (requested : list N)
    (pages : list AntiEntropyBatch.t) (b : DeltaBody.t),
    wf m
    ∧ requested_buckets (MembershipTree.build m) (Limits.anti_entropy_buckets m.(Membership.limits))
        digest requested = Ok requested
    ∧ follow (S (length (bodies m))) (MembershipTree.build m) requested None
        m.(Membership.limits).(LimitsSpec.max_anti_entropy_entries) = Some pages
    ∧ (AntiEntropyBatch.complete <$> last pages) = Some true
    ∧ b ∈ requested_bodies m requested
    ∧ b ∉ GossipDelta.body <$> (pages ≫= AntiEntropyBatch.deltas).
Proof.
  set (tree := MembershipTree.build (H := rolling_sha256) paged_model).
  destruct (follow 3 tree [3; 2]%N None 1) as [pages|] eqn:Hp; [|by vm_compute in Hp].
  assert (last (bodies paged_model) = Some (DeltaBody.MembershipPolicyUpdate
    (MembershipPolicy.mk true (VersionTuple.mk 0 1 (NodeId.mk "node-self"))))) as Hlast
    by (vm_compute; reflexivity).
  exists rolling_sha256, paged_model, (MerkleDigest.mk 4 Hash256.default []), [3; 2]%N, pages,
    (DeltaBody.MembershipPolicyUpdate
       (MembershipPolicy.mk true (VersionTuple.mk 0 1 (NodeId.mk "node-self")))).
  split; [exact paged_model_wf|]. split; [vm_compute; reflexivity|]. split; [exact Hp|].
  vm_compute in Hp. injection Hp as <-. split; [reflexivity|]. split.
  - apply list_elem_of_filter. split; [apply (bool_decide_unpack _); vm_compute; exact I|].
    apply last_Some in Hlast as [l ->]. apply elem_of_app; right. by apply elem_of_cons; left.
  - apply (bool_decide_unpack (_ ∉ _)). vm_compute. exact I.
Qed.
