(* ===== verification/VarLimits.v ===== *)
(** * Bounds on expressions (crate [orishu-variables], limits.rs)

    The declared bounds of the expression engine, the refusals that name them
    and the budget an evaluation spends. *)

From Stdlib Require Import Ascii.
From stdpp Require Import base gmap strings list pretty.
From S2P Require Import Prelude.

Module LimitKind.
Inductive t : Type :=
  | ExpressionBytes | ParseDepth | ExpressionNodes | Variables | DependencyDepth | EvaluationWork.
#[global] Instance LimitKind_eq_dec : EqDecision t.
Proof. solve_decision. Defined.

Definition subject (k : t) : string :=
  match k with
  | ExpressionBytes => "expression source is"
  | ParseDepth => "expression depth is"
  | ExpressionNodes => "expression node count is"
  | Variables => "variable count is"
  | DependencyDepth => "dependency depth is"
  | EvaluationWork => "evaluation work is"
  end.
End LimitKind.

Module LimitError.
Record t : Type := mk { limit : LimitKind.t; found : N; allowed : N }.
#[global] Instance LimitError_eq_dec : EqDecision t.
Proof. solve_decision. Defined.

(** [Display]. *)
Definition to_string (e : t) : string :=
  LimitKind.subject (limit e) +:+ " " +:+ pretty (found e) +:+ ", over the limit of "
  +:+ pretty (allowed e).
End LimitError.

Definition ensure (limit : LimitKind.t) (found allowed : N) : result LimitError.t unit :=
  if (allowed <? found)%N then Err (LimitError.mk limit found allowed) else Ok ().

Definition admit_one (limit : LimitKind.t) (current allowed : N) : result LimitError.t N :=
  match checked_add usize_max current 1 with
  | None => Err (LimitError.mk limit u64_max allowed)
  | Some next => if (allowed <? next)%N then Err (LimitError.mk limit next allowed) else Ok next
  end.

(** The budget of one evaluation; the [Cell] is passed along. *)
Module Budget.
Record t : Type := mk { spent : N; allowed : N }.
#[global] Instance Budget_eq_dec : EqDecision t.
Proof. solve_decision. Defined.

Definition new (allowed : N) : t := mk 0 allowed.

Definition exhausted (b : t) (found : N) : LimitError.t :=
  LimitError.mk LimitKind.EvaluationWork found (allowed b).

Definition spend (b : t) (units : N) : result LimitError.t t :=
  match checked_add u64_max (spent b) units with
  | None => Err (exhausted b u64_max)
  | Some total =>
    if (allowed b <? total)%N then Err (exhausted b total) else Ok (mk total (allowed b))
  end.
End Budget.

Module Limits.
Record t : Type := mk {
  max_expression_bytes : N;
  max_parse_depth : N;
  max_expression_nodes : N;
  max_variables : N;
  max_dependency_depth : N;
  max_evaluation_work : N
}.
#[global] Instance Limits_eq_dec : EqDecision t.
Proof. solve_decision. Defined.

Definition DEFAULT : t := {|
  max_expression_bytes := 4096;
  max_parse_depth := 128;
  max_expression_nodes := 4096;
  max_variables := 262144;
  max_dependency_depth := 4096;
  max_evaluation_work := 1000000
|}.

(** [usize] and [u64] values. *)
Record widths (l : t) : Prop := {
  widths_depth : (max_parse_depth l ≤ usize_max)%N;
  widths_nodes : (max_expression_nodes l ≤ usize_max)%N;
  widths_variables : (max_variables l ≤ usize_max)%N;
  widths_dependency : (max_dependency_depth l ≤ usize_max)%N;
  widths_work : (max_evaluation_work l ≤ u64_max)%N
}.
End Limits.

(** ** Accounting *)
Lemma ensure_ok limit found allowed : ensure limit found allowed = Ok () ↔ (found ≤ allowed)%N.
Proof. unfold ensure. destruct (N.ltb_spec allowed found); split; [done|lia|done|done]. Qed.

Lemma checked_add_cases w a b :
  checked_add w a b = (if (a + b <=? w)%N then Some (a + b)%N else None).
Proof. done. Qed.

Lemma admit_one_ok limit current allowed next :
  admit_one limit current allowed = Ok next → next = (current + 1)%N ∧ (next ≤ allowed)%N.
Proof.
  unfold admit_one. rewrite checked_add_cases.
  destruct (current + 1 <=? usize_max)%N; [|done].
  destruct (N.ltb_spec allowed (current + 1)); [done|]. by intros [= <-].
Qed.

Lemma admit_one_fits limit current allowed :
  (current + 1 ≤ allowed)%N → (allowed ≤ usize_max)%N →
  admit_one limit current allowed = Ok (current + 1)%N.
Proof.
  intros Hle Hw. unfold admit_one. rewrite checked_add_cases.
  rewrite (proj2 (N.leb_le _ _)) by (etrans; [exact Hle|exact Hw]).
  by rewrite (proj2 (N.ltb_ge _ _)).
Qed.

Lemma spend_ok b units b' :
  Budget.spend b units = Ok b' →
  b' = Budget.mk (Budget.spent b + units) (Budget.allowed b)
  ∧ (Budget.spent b + units ≤ Budget.allowed b)%N.
Proof.
  unfold Budget.spend. rewrite checked_add_cases.
  destruct (Budget.spent b + units <=? u64_max)%N; [|done].
  destruct (N.ltb_spec (Budget.allowed b) (Budget.spent b + units)); [done|]. by intros [= <-].
Qed.

Lemma spend_fits b units :
  (Budget.spent b + units ≤ Budget.allowed b)%N → (Budget.allowed b ≤ u64_max)%N →
  Budget.spend b units = Ok (Budget.mk (Budget.spent b + units) (Budget.allowed b)).
Proof.
  intros Hle Hw. unfold Budget.spend. rewrite checked_add_cases.
  rewrite (proj2 (N.leb_le _ _)) by (etrans; [exact Hle|exact Hw]).
  by rewrite (proj2 (N.ltb_ge _ _)).
Qed.
