(* ===== verification/Action.v ===== *)
(** * Actions: state, error and fuel

    The monad of the parser and of the evaluator: a state is threaded, an error
    stops the run, and [None] is the fuel of a bounded loop running out. *)

From stdpp Require Import base list.
From S2P Require Import Prelude.

Definition action (S E A : Type) : Type := S → option (result E (A * S)).
#[export] Instance action_ret S E : MRet (action S E) := λ A a s, Some (Ok (a, s)).
#[export] Instance action_bind S E : MBind (action S E) := λ A B f m s,
  match m s with
  | Some (Ok (a, s)) => f a s
  | Some (Err e) => Some (Err e)
  | None => None
  end.
Definition abort {S E A} (e : E) : action S E A := λ _, Some (Err e).
Definition out_of_fuel {S E A} : action S E A := λ _, None.
(** A computation that only answers, or only updates the state. *)
Definition lift {S E A} (r : result E A) : action S E A := λ s,
  Some match r with Ok a => Ok (a, s) | Err e => Err e end.
Definition update_state {S E} (f : S → result E S) : action S E unit := λ s,
  Some match f s with Ok s => Ok ((), s) | Err e => Err e end.

Section action.
Context {S E : Type}.
Implicit Types s : S.

(** ** Runs *)
Lemma bind_ok {A B} (m : action S E A) (f : A → action S E B) s r :
  (m ≫= f) s = Some (Ok r) → ∃ a s1, m s = Some (Ok (a, s1)) ∧ f a s1 = Some (Ok r).
Proof.
  unfold mbind, action_bind. destruct (m s) as [[[a s1]|e]|]; [|done|done]. eauto.
Qed.

Lemma bind_some {A B} (m : action S E A) (f : A → action S E B) s a s1 :
  m s = Some (Ok (a, s1)) → (m ≫= f) s = f a s1.
Proof. intros Hm. unfold mbind, action_bind. by rewrite Hm. Qed.

Lemma bind_err {A B} (m : action S E A) (f : A → action S E B) s e :
  (m ≫= f) s = Some (Err e) →
  m s = Some (Err e) ∨ ∃ a s1, m s = Some (Ok (a, s1)) ∧ f a s1 = Some (Err e).
Proof.
  unfold mbind, action_bind. destruct (m s) as [[[a s1]|e']|]; [|by intros [= <-]; left|done]. eauto.
Qed.

(** ** Answering *)

(** [m] answers from [s], and what it returns, if it does, meets [Q]. *)
Definition yields {A} (m : action S E A) s (Q : A → S → Prop) : Prop :=
  ∃ r, m s = Some r ∧ ∀ a s', r = Ok (a, s') → Q a s'.

Lemma yields_impl {A} (m : action S E A) s (P Q : A → S → Prop) :
  yields m s P → (∀ a s', P a s' → Q a s') → yields m s Q.
Proof. intros (r & Hm & Hr) HPQ. exists r. split; [done|]. eauto. Qed.

Lemma yields_bind {A B} (m : action S E A) (f : A → action S E B) s P Q :
  yields m s P → (∀ a s', P a s' → yields (f a) s' Q) → yields (m ≫= f) s Q.
Proof.
  intros (r & Hm & Hr) Hf. unfold yields, mbind, action_bind. rewrite Hm.
  destruct r as [[a s']|e]; [|by eexists]. apply Hf. by apply Hr.
Qed.

Lemma yields_ret {A} (a : A) s (Q : A → S → Prop) : Q a s → yields (mret a) s Q.
Proof. intros HQ. eexists. split; [done|]. by intros ?? [= <- <-]. Qed.
Lemma yields_abort {A} e s (Q : A → S → Prop) : yields (abort e) s Q.
Proof. by eexists. Qed.
Lemma yields_lift {A} (r : result E A) s (Q : A → S → Prop) :
  (∀ a, r = Ok a → Q a s) → yields (lift r) s Q.
Proof.
  intros HQ. eexists. split; [done|]. destruct r as [a|e]; [|done].
  intros ?? [= <- <-]. by apply HQ.
Qed.

(** [m] answers from [s]: what it returns meets [Q], an error meets [R]. *)
Definition runs {A} (m : action S E A) s (Q : A → S → Prop) (R : E → Prop) : Prop :=
  match m s with
  | Some (Ok (a, s')) => Q a s'
  | Some (Err e) => R e
  | None => False
  end.

Lemma runs_bind {A B} (m : action S E A) (f : A → action S E B) s Q R :
  runs m s (λ a s', runs (f a) s' Q R) R → runs (m ≫= f) s Q R.
Proof.
  unfold runs, mbind, action_bind. by destruct (m s) as [[[a s']|e]|].
Qed.
Lemma runs_impl {A} (m : action S E A) s (P Q : A → S → Prop) R :
  runs m s P R → (∀ a s', P a s' → Q a s') → runs m s Q R.
Proof. unfold runs. destruct (m s) as [[[a s']|e]|]; eauto. Qed.
Lemma runs_ret {A} (a : A) s (Q : A → S → Prop) (R : E → Prop) : Q a s → runs (mret a) s Q R.
Proof. done. Qed.
Lemma runs_lift {A} (r : result E A) s (Q : A → S → Prop) (R : E → Prop) :
  match r with Ok a => Q a s | Err e => R e end → runs (lift r) s Q R.
Proof. unfold runs, lift. by destruct r. Qed.

(** ** More fuel gives the same answer *)
Definition approx {A} (m1 m2 : action S E A) : Prop := ∀ s r, m1 s = Some r → m2 s = Some r.

Lemma approx_refl {A} (m : action S E A) : approx m m.
Proof. by intros ??. Qed.

Lemma approx_bind {A B} (m1 m2 : action S E A) (f1 f2 : A → action S E B) :
  approx m1 m2 → (∀ a, approx (f1 a) (f2 a)) → approx (m1 ≫= f1) (m2 ≫= f2).
Proof.
  intros Hm Hf s r. unfold mbind, action_bind. destruct (m1 s) as [[[a s1]|e]|] eqn:H1; [| |done].
  - rewrite (Hm _ _ H1). apply Hf.
  - by rewrite (Hm _ _ H1).
Qed.
End action.

Ltac approx := repeat first
  [ apply approx_refl | assumption
  | apply approx_bind; [|intros ?]
  | match goal with
    | |- approx (match ?x with _ => _ end) _ => destruct x
    end ].
