(* ===== verification/Binary64.v ===== *)
(** * [f64], the IEEE 754 binary64 format

    Rust's [f64] through the Standard Library's executable specification of
    binary64 ([Floats.SpecFloat]): rounding to nearest even, signed zeros,
    infinities and one NaN. [powf] is a function of the platform's mathematics
    library, whose precision Rust leaves open: a parameter. *)

From Stdlib Require Import Ascii ZArith.
From Stdlib Require Import Floats.SpecFloat.
From stdpp Require Import base gmap strings list.
From S2P Require Import Prelude.

Abbreviation f64 := spec_float.
#[export] Instance f64_eq_dec : EqDecision f64.
Proof. solve_decision. Defined.

Module F64.
Definition prec : Z := 53.
Definition emax : Z := 1024.

Definition add : f64 → f64 → f64 := SFadd prec emax.
Definition sub : f64 → f64 → f64 := SFsub prec emax.
Definition mul : f64 → f64 → f64 := SFmul prec emax.
Definition div : f64 → f64 → f64 := SFdiv prec emax.
Definition neg : f64 → f64 := SFopp.
(** [==]: NaN differs from itself, the zeros are equal. *)
Definition eqb : f64 → f64 → bool := SFeqb.

(** [<=] and [<]: false when an operand is NaN. *)
Definition leb : f64 → f64 → bool := SFleb.
Definition ltb : f64 → f64 → bool := SFltb.
Definition sqrt : f64 → f64 := SFsqrt prec emax.

Definition is_finite (x : f64) : bool :=
  match x with S754_zero _ | S754_finite _ _ _ => true | _ => false end.

(** The nearest binary64 of [m * 10^e]: the literals of the source and
    [str::parse::<f64>], which rounds correctly. *)
Definition of_decimal (m : N) (e : Z) : f64 :=
  match m with
  | N0 => S754_zero false
  | Npos p =>
    if (0 <=? e)%Z then binary_normalize prec emax (Zpos p * 10 ^ e) 0 false
    else SFdiv prec emax (S754_finite false p 0) (S754_finite false (10 ^ Z.to_pos (- e)) 0)
  end.
Definition of_Z (z : Z) : f64 := binary_normalize prec emax z 0 (z <? 0)%Z.
Definition zero : f64 := S754_zero false.
Definition one : f64 := of_decimal 1 0.

(** [|x|] rounded towards zero. *)
Definition magnitude_toward_zero (m : positive) (e : Z) : Z :=
  if (0 <=? e)%Z then Z.shiftl (Zpos m) e else Z.shiftr (Zpos m) (- e).
Definition trunc (x : f64) : f64 :=
  match x with
  | S754_finite s m e =>
    let z := magnitude_toward_zero m e in
    binary_normalize prec emax (if s then - z else z) 0 s
  | _ => x
  end.
(** [self - self.trunc()]. *)
Definition fract (x : f64) : f64 := sub x (trunc x).

Definition i64_min : Z := - 2 ^ 63.
Definition i64_max : Z := 2 ^ 63 - 1.
(** [x as i64]: towards zero, saturating, NaN to zero. *)
Definition as_i64 (x : f64) : Z :=
  match x with
  | S754_nan | S754_zero _ => 0
  | S754_infinity s => if s then i64_min else i64_max
  | S754_finite s m e =>
    let z := magnitude_toward_zero m e in
    Z.max i64_min (Z.min i64_max (if s then - z else z))
  end.
End F64.

(** The platform's [powf]. *)
Class Libm : Type := powf : f64 → f64 → f64.

(** [i8] arithmetic with a check. *)
Definition i8_checked (z : Z) : option Z :=
  if ((-128 <=? z) && (z <=? 127))%Z then Some z else None.

Lemma i8_checked_Some z r : i8_checked z = Some r ↔ r = z ∧ (-128 ≤ z ≤ 127)%Z.
Proof.
  unfold i8_checked. destruct (Z.leb_spec (-128) z), (Z.leb_spec z 127); simpl; split;
    try done; try (intros [= <-]; split; [done|lia]); intros [-> ?]; try done; lia.
Qed.
