(* ===== verification/Quantity.v ===== *)
(** * Dimensions, quantities and units (orishu-variables, quantity.rs)

    A dimension is a vector of SI exponents with checked arithmetic, a quantity
    a finite magnitude with a dimension, and the units a closed table. *)

From Stdlib Require Import Ascii ZArith Floats.SpecFloat.
From stdpp Require Import base gmap strings list.
From S2P Require Import Prelude Binary64.

Definition BASE_COUNT : nat := 7.

Module Dimension.
(** [[i8; BASE_COUNT]]; [wf] is what the array type guarantees. *)
Record t : Type := new { exponents : list Z }.
#[global] Instance Dimension_eq_dec : EqDecision t.
Proof. solve_decision. Defined.
Definition wf (d : t) : Prop :=
  length (exponents d) = BASE_COUNT ∧ Forall (λ z, (-128 ≤ z ≤ 127)%Z) (exponents d).

Definition DIMENSIONLESS : t := new [0; 0; 0; 0; 0; 0; 0]%Z.
Definition LENGTH : t := new [1; 0; 0; 0; 0; 0; 0]%Z.
Definition MASS : t := new [0; 1; 0; 0; 0; 0; 0]%Z.
Definition TIME : t := new [0; 0; 1; 0; 0; 0; 0]%Z.
Definition CURRENT : t := new [0; 0; 0; 1; 0; 0; 0]%Z.
Definition TEMPERATURE : t := new [0; 0; 0; 0; 1; 0; 0]%Z.
Definition AMOUNT : t := new [0; 0; 0; 0; 0; 1; 0]%Z.
Definition LUMINOUS : t := new [0; 0; 0; 0; 0; 0; 1]%Z.
Definition CHARGE : t := new [0; 0; 1; 1; 0; 0; 0]%Z.
Definition FREQUENCY : t := new [0; 0; -1; 0; 0; 0; 0]%Z.
Definition VELOCITY : t := new [1; 0; -1; 0; 0; 0; 0]%Z.
Definition ACCELERATION : t := new [1; 0; -2; 0; 0; 0; 0]%Z.
Definition FORCE : t := new [1; 1; -2; 0; 0; 0; 0]%Z.
Definition ENERGY : t := new [2; 1; -2; 0; 0; 0; 0]%Z.
Definition POWER : t := new [2; 1; -3; 0; 0; 0; 0]%Z.
Definition DENSITY : t := new [-3; 1; 0; 0; 0; 0; 0]%Z.

Definition is_dimensionless (d : t) : bool := bool_decide (d = DIMENSIONLESS).

(** The first exponent out of range makes the operation fail. *)
Definition multiply (a b : t) : option t :=
  new <$> mapM (λ p, i8_checked (p.1 + p.2)) (zip (exponents a) (exponents b)).
Definition divide (a b : t) : option t :=
  new <$> mapM (λ p, i8_checked (p.1 - p.2)) (zip (exponents a) (exponents b)).
Definition power (a : t) (exponent : Z) : option t :=
  new <$> mapM (λ z, i8_checked (z * exponent)) (exponents a).
End Dimension.

Module QuantityError.
Inductive t : Type :=
  | NonFinite
  | DimensionMismatch (expected found : Dimension.t)
  | DimensionOverflow.
#[global] Instance QuantityError_eq_dec : EqDecision t.
Proof. solve_decision. Defined.
End QuantityError.

(** ** Units *)
Module Unit.
Record t : Type := unit { symbol : string; dimension : Dimension.t; si_factor : f64 }.
#[global] Instance Unit_eq_dec : EqDecision t.
Proof. solve_decision. Defined.
Definition is_canonical (u : t) : bool := F64.eqb (si_factor u) F64.one.
End Unit.

Definition UNITS : list Unit.t :=
  let unit symbol dimension m e := Unit.unit symbol dimension (F64.of_decimal m e) in
  [ unit "1" Dimension.DIMENSIONLESS 1%N 0%Z;
    unit "m" Dimension.LENGTH 1%N 0%Z;
    unit "km" Dimension.LENGTH 1%N 3%Z;
    unit "cm" Dimension.LENGTH 1%N (-2)%Z;
    unit "mm" Dimension.LENGTH 1%N (-3)%Z;
    unit "um" Dimension.LENGTH 1%N (-6)%Z;
    unit "nm" Dimension.LENGTH 1%N (-9)%Z;
    unit "pm" Dimension.LENGTH 1%N (-12)%Z;
    unit "fm" Dimension.LENGTH 1%N (-15)%Z;
    unit "AU" Dimension.LENGTH 1495978707%N 2%Z;
    unit "kg" Dimension.MASS 1%N 0%Z;
    unit "g" Dimension.MASS 1%N (-3)%Z;
    unit "mg" Dimension.MASS 1%N (-6)%Z;
    unit "t" Dimension.MASS 1%N 3%Z;
    unit "u" Dimension.MASS 166053906892%N (-38)%Z;
    unit "s" Dimension.TIME 1%N 0%Z;
    unit "ms" Dimension.TIME 1%N (-3)%Z;
    unit "us" Dimension.TIME 1%N (-6)%Z;
    unit "ns" Dimension.TIME 1%N (-9)%Z;
    unit "min" Dimension.TIME 60%N 0%Z;
    unit "h" Dimension.TIME 3600%N 0%Z;
    unit "d" Dimension.TIME 86400%N 0%Z;
    unit "yr" Dimension.TIME 31557600%N 0%Z;
    unit "A" Dimension.CURRENT 1%N 0%Z;
    unit "K" Dimension.TEMPERATURE 1%N 0%Z;
    unit "mol" Dimension.AMOUNT 1%N 0%Z;
    unit "cd" Dimension.LUMINOUS 1%N 0%Z;
    unit "C" Dimension.CHARGE 1%N 0%Z;
    unit "Hz" Dimension.FREQUENCY 1%N 0%Z;
    unit "N" Dimension.FORCE 1%N 0%Z;
    unit "J" Dimension.ENERGY 1%N 0%Z;
    unit "eV" Dimension.ENERGY 1602176634%N (-28)%Z;
    unit "MeV" Dimension.ENERGY 1602176634%N (-22)%Z;
    unit "W" Dimension.POWER 1%N 0%Z ].

(** [UnitError::Unknown]. *)
Definition lookup (symbol : string) : result string Unit.t :=
  match List.find (λ candidate, bool_decide (Unit.symbol candidate = symbol)) UNITS with
  | Some unit => Ok unit
  | None => Err symbol
  end.

Definition canonical_for (dimension : Dimension.t) : option Unit.t :=
  List.find (λ candidate, bool_decide (Unit.dimension candidate = dimension)
                          && Unit.is_canonical candidate) UNITS.

(** ** Quantities *)
Module Quantity.
Record t : Type := mk { magnitude : f64; dimension : Dimension.t }.
#[global] Instance Quantity_eq_dec : EqDecision t.
Proof. solve_decision. Defined.

Definition new (magnitude : f64) (dimension : Dimension.t) : result QuantityError.t t :=
  if negb (F64.is_finite magnitude) then Err QuantityError.NonFinite
  else Ok (mk magnitude dimension).
Definition dimensionless (magnitude : f64) : result QuantityError.t t :=
  new magnitude Dimension.DIMENSIONLESS.
Definition is_dimensionless (q : t) : bool := Dimension.is_dimensionless (dimension q).
Definition magnitude_in (q : t) (unit : Unit.t) : result QuantityError.t f64 :=
  if decide (Unit.dimension unit ≠ dimension q) then
    Err (QuantityError.DimensionMismatch (Unit.dimension unit) (dimension q))
  else Ok (F64.div (magnitude q) (Unit.si_factor unit)).

(** What the private fields guarantee: a finite magnitude, exponents in range. *)
Record wf (q : t) : Prop := {
  wf_finite : F64.is_finite (magnitude q) = true;
  wf_dimension : Dimension.wf (dimension q)
}.
End Quantity.

(** ** Laws *)
Lemma dimensionless_wf : Dimension.wf Dimension.DIMENSIONLESS.
Proof. split; [done|]. repeat constructor; lia. Qed.

Lemma mapM_checked_wf {A} (f : A → Z) (l : list A) ds :
  length l = BASE_COUNT → Dimension.new <$> mapM (λ x, i8_checked (f x)) l = Some ds →
  Dimension.wf ds ∧ Dimension.exponents ds = f <$> l.
Proof.
  intros Hlen Hm. apply fmap_Some in Hm as (zs & Hzs & ->). apply mapM_Some in Hzs.
  assert (zs = f <$> l ∧ Forall (λ z, (-128 ≤ z ≤ 127)%Z) zs) as [-> Hr].
  { clear Hlen. induction Hzs as [|x z l zs Hx _ [-> IH]]; [done|].
    apply i8_checked_Some in Hx as [-> ?]. split; [done|]. by constructor. }
  split; [|done]. split; [simpl; by rewrite length_fmap|done].
Qed.

Lemma zip_length {A B} (l : list A) (k : list B) :
  length l = BASE_COUNT → length k = BASE_COUNT → length (zip l k) = BASE_COUNT.
Proof. intros Hl Hk. rewrite length_zip_with. lia. Qed.

Lemma multiply_wf a b d :
  Dimension.wf a → Dimension.wf b → Dimension.multiply a b = Some d → Dimension.wf d.
Proof.
  intros [Ha _] [Hb _] Hm.
  by apply (mapM_checked_wf (λ p, p.1 + p.2)%Z) in Hm as [? _]; [|apply zip_length].
Qed.
Lemma divide_wf a b d :
  Dimension.wf a → Dimension.wf b → Dimension.divide a b = Some d → Dimension.wf d.
Proof.
  intros [Ha _] [Hb _] Hm.
  by apply (mapM_checked_wf (λ p, p.1 - p.2)%Z) in Hm as [? _]; [|apply zip_length].
Qed.
Lemma power_wf a e d : Dimension.wf a → Dimension.power a e = Some d → Dimension.wf d.
Proof. intros [Ha _] Hm. by apply (mapM_checked_wf (λ z, z * e)%Z) in Hm as [? _]. Qed.

Lemma quantity_new_ok m d q :
  Quantity.new m d = Ok q ↔ q = Quantity.mk m d ∧ F64.is_finite m = true.
Proof. unfold Quantity.new. destruct (F64.is_finite m); simpl; naive_solver. Qed.

(** Every entry of the table is a finite factor in a proper dimension. *)
Lemma units_wf u : u ∈ UNITS → F64.is_finite (Unit.si_factor u) = true ∧ Dimension.wf (Unit.dimension u).
Proof.
  assert (Forall (λ u, F64.is_finite (Unit.si_factor u) = true
    ∧ length (Dimension.exponents (Unit.dimension u)) = BASE_COUNT
    ∧ Forall (λ z, (-128 ≤ z ≤ 127)%Z) (Dimension.exponents (Unit.dimension u))) UNITS) as Hall.
  { apply (bool_decide_unpack _). vm_compute. exact I. }
  rewrite Forall_forall in Hall. intros Hu. destruct (Hall u Hu) as (? & ? & ?). done.
Qed.

Lemma lookup_in symbol u : lookup symbol = Ok u → u ∈ UNITS ∧ Unit.symbol u = symbol.
Proof.
  unfold lookup. destruct (List.find _ UNITS) as [v|] eqn:Hf; [|done]. intros [= ->].
  apply List.find_some in Hf as [Hin Hs]. apply bool_decide_eq_true in Hs.
  split; [by apply list_elem_of_In|done].
Qed.
