(* ===== verification/Expression.v ===== *)
(** * Expressions (orishu-variables, expression.rs)

    The lexer, the Pratt parser with its node and depth accounting, and the
    dimensioned evaluator. Source text is its UTF-8 bytes; the lexer classifies
    single bytes. *)

From Stdlib Require Import Ascii ZArith Floats.SpecFloat.
From stdpp Require Import base gmap strings list pretty.
From S2P Require Import Prelude Identity VarLimits Action Binary64 Quantity.

(** ** Spans and errors *)
Module SourceSpan.
(** [start..end]. *)
Record t : Type := new { start : N; finish : N }.
#[global] Instance SourceSpan_eq_dec : EqDecision t.
Proof. solve_decision. Defined.
End SourceSpan.

Module ExprParsingErrorKind.
Inductive t : Type := Syntax | UnexpectedEnd | LimitExceeded (error : LimitError.t).
#[global] Instance ExprParsingErrorKind_eq_dec : EqDecision t.
Proof. solve_decision. Defined.
End ExprParsingErrorKind.

Module ExprParsingError.
Record t : Type := mk { kind : ExprParsingErrorKind.t; message : string; span : SourceSpan.t }.
#[global] Instance ExprParsingError_eq_dec : EqDecision t.
Proof. solve_decision. Defined.

Definition limit (error : LimitError.t) (span : SourceSpan.t) : t :=
  mk (ExprParsingErrorKind.LimitExceeded error) (LimitError.to_string error) span.
Definition limit_error (e : t) : option LimitError.t :=
  match kind e with ExprParsingErrorKind.LimitExceeded error => Some error | _ => None end.
End ExprParsingError.

(** ** Tokens *)
Module TokenKind.
Inductive t : Type :=
  | Number (value : f64) | Symbol (name : string)
  | Plus | Minus | Star | Slash | Caret | LParen | RParen | Eof.
#[global] Instance TokenKind_eq_dec : EqDecision t.
Proof. solve_decision. Defined.
End TokenKind.

Module Token.
Record t : Type := mk { kind : TokenKind.t; span : SourceSpan.t }.
#[global] Instance Token_eq_dec : EqDecision t.
Proof. solve_decision. Defined.
End Token.

(** Byte classes; [c as char] is the Latin-1 character of the byte. *)
Definition is_ascii_digit (c : ascii) : bool :=
  let n := N_of_ascii c in (48 <=? n)%N && (n <=? 57)%N.
Definition is_ascii_alphabetic (c : ascii) : bool :=
  let n := N_of_ascii c in
  ((65 <=? n)%N && (n <=? 90)%N) || ((97 <=? n)%N && (n <=? 122)%N).
Definition is_ascii_alphanumeric (c : ascii) : bool := is_ascii_alphabetic c || is_ascii_digit c.
Definition is_byte (n : N) (c : ascii) : bool := (N_of_ascii c =? n)%N.
Definition is_exponent_mark (c : ascii) : bool := is_byte 101 c || is_byte 69 c.
Definition is_sign (c : ascii) : bool := is_byte 43 c || is_byte 45 c.

(** [while pos < len && f(bytes[pos]) { pos += 1 }]: how far it gets. *)
Fixpoint count_while (f : ascii → bool) (bs : bytes) : nat :=
  match bs with
  | [] => 0
  | c :: bs => if f c then S (count_while f bs) else 0
  end.
Definition head_is (f : ascii → bool) (bs : bytes) : bool :=
  match bs with c :: _ => f c | [] => false end.

(** ** Decimal text *)
Definition digit_value (c : ascii) : N := (N_of_ascii c - 48)%N.
Definition digits_value (bs : bytes) : N := foldl (λ acc c, (acc * 10 + digit_value c)%N) 0%N bs.

(** [str::parse::<f64>] of a text that starts with a digit: digits, a fraction,
    an exponent, and nothing else. *)
Definition parse_f64 (text : bytes) : option f64 :=
  let whole := take (count_while is_ascii_digit text) text in
  let rest := drop (length whole) text in
  let '(fraction, rest) :=
    if head_is (is_byte 46) rest then
      let rest := drop 1 rest in
      let fraction := take (count_while is_ascii_digit rest) rest in
      (fraction, drop (length fraction) rest)
    else ([], rest) in
  let mantissa := digits_value (whole ++ fraction) in
  let scale := (- Z.of_nat (length fraction))%Z in
  if bool_decide (whole ++ fraction = []) then None
  else
    match rest with
    | [] => Some (F64.of_decimal mantissa scale)
    | c :: rest =>
      if is_exponent_mark c then
        let negative := head_is (is_byte 45) rest in
        let rest := if head_is is_sign rest then drop 1 rest else rest in
        if bool_decide (rest = []) || negb (forallb is_ascii_digit rest) then None
        else
          let e := Z.of_N (digits_value rest) in
          Some (F64.of_decimal mantissa (scale + (if negative then - e else e)))
      else None
    end.

(** ** The lexer *)
Module Lexer.
Record t : Type := mk { source : bytes; pos : nat }.
#[global] Instance Lexer_eq_dec : EqDecision t.
Proof. solve_decision. Defined.

Definition new (source : bytes) : t := mk source 0.
Definition rest (l : t) : bytes := drop (pos l) (source l).
Definition advance_by (l : t) (n : nat) : t := mk (source l) (pos l + n).
Definition span (l : t) (n : nat) : SourceSpan.t :=
  SourceSpan.new (N.of_nat (pos l)) (N.of_nat (pos l + n)).
Definition text (l : t) (n : nat) : string := String.string_of_list_ascii (take n (rest l)).

(** How many bytes the number at the start of [bs] takes. *)
Definition number_len (bs : bytes) : nat :=
  let n := count_while is_ascii_digit bs in
  let n := if head_is (is_byte 46) (drop n bs)
           then n + 1 + count_while is_ascii_digit (drop (n + 1) bs) else n in
  if head_is is_exponent_mark (drop n bs) then
    let sign := if head_is is_sign (drop (n + 1) bs) then 1 else 0 in
    match count_while is_ascii_digit (drop (n + 1 + sign) bs) with
    | O => n
    | digits => n + 1 + sign + digits
    end
  else n.

Definition lex_number (l : t) : result ExprParsingError.t Token.t * t :=
  let n := number_len (rest l) in
  (match parse_f64 (take n (rest l)) with
   | Some value => Ok (Token.mk (TokenKind.Number value) (span l n))
   | None => Err (ExprParsingError.mk ExprParsingErrorKind.Syntax
                    ("`" +:+ text l n +:+ "` is not a valid number") (span l n))
   end, advance_by l n).

(** Continues on letters, digits, underscores, and a dot before one of them. *)
Definition continues (c : ascii) : bool := is_ascii_alphanumeric c || is_byte 95 c.
Fixpoint symbol_tail (bs : bytes) : nat :=
  match bs with
  | [] => 0
  | c :: bs =>
    if continues c || (is_byte 46 c && head_is continues bs) then S (symbol_tail bs) else 0
  end.
Definition lex_symbol (l : t) : Token.t * t :=
  let n := S (symbol_tail (drop 1 (rest l))) in
  (Token.mk (TokenKind.Symbol (text l n)) (span l n), advance_by l n).

Definition operator_kind (c : ascii) : option TokenKind.t :=
  if is_byte 43 c then Some TokenKind.Plus
  else if is_byte 45 c then Some TokenKind.Minus
  else if is_byte 42 c then Some TokenKind.Star
  else if is_byte 47 c then Some TokenKind.Slash
  else if is_byte 94 c then Some TokenKind.Caret
  else if is_byte 40 c then Some TokenKind.LParen
  else if is_byte 41 c then Some TokenKind.RParen
  else None.
(** The Latin-1 character of a byte, in UTF-8. *)
Definition latin1_text (c : ascii) : string :=
  let n := N_of_ascii c in
  String.string_of_list_ascii
    (if (n <? 128)%N then [c] else [ascii_of_N (192 + n / 64); ascii_of_N (128 + n mod 64)]).
Definition lex_operator (l : t) (c : ascii) : result ExprParsingError.t Token.t * t :=
  match operator_kind c with
  | Some kind => (Ok (Token.mk kind (span l 1)), advance_by l 1)
  | None => (Err (ExprParsingError.mk ExprParsingErrorKind.Syntax
                    ("unexpected character `" +:+ latin1_text c +:+ "`") (span l 1)), l)
  end.

(** [Iterator::next]. *)
Definition next (l : t) : option (result ExprParsingError.t Token.t) * t :=
  let l := advance_by l (count_while (λ c, is_whitespace (N_of_ascii c)) (rest l)) in
  match rest l with
  | [] => (None, l)
  | c :: _ =>
    if is_ascii_digit c then let '(r, l) := lex_number l in (Some r, l)
    else if is_ascii_alphabetic c || is_byte 95 c
    then let '(token, l) := lex_symbol l in (Some (Ok token), l)
    else let '(r, l) := lex_operator l c in (Some r, l)
  end.
End Lexer.

(** ** Syntax trees *)
Module BinaryOp.
Inductive t : Type := Add | Sub | Mul | Div | Pow.
#[global] Instance BinaryOp_eq_dec : EqDecision t.
Proof. solve_decision. Defined.
End BinaryOp.

Module Expr.
(** [UnaryOp] has the one operator [Neg]. *)
Inductive t : Type :=
  | Literal (value : f64)
  | Symbol (name : string)
  | Neg (expr : t)
  | Binary (op : BinaryOp.t) (lhs rhs : t).
#[global] Instance Expr_eq_dec : EqDecision t.
Proof. solve_decision. Defined.

Fixpoint collect_symbols (e : t) (out : list string) : list string :=
  match e with
  | Literal _ => out
  | Symbol name => if bool_decide (name ∈ out) then out else out ++ [name]
  | Neg e => collect_symbols e out
  | Binary _ lhs rhs => collect_symbols rhs (collect_symbols lhs out)
  end.
Fixpoint collect_symbol_refs (e : t) (out : list string) : list string :=
  match e with
  | Literal _ => out
  | Symbol name => out ++ [name]
  | Neg e => collect_symbol_refs e out
  | Binary _ lhs rhs => collect_symbol_refs rhs (collect_symbol_refs lhs out)
  end.
Fixpoint is_const (e : t) : bool :=
  match e with
  | Literal _ => true
  | Symbol name => is_ok (lookup name)
  | Neg e => is_const e
  | Binary _ lhs rhs => is_const lhs && is_const rhs
  end.
End Expr.

Module CompiledExpression.
Record t : Type := mk { source : string; ast : Expr.t; nodes : N; depth : N }.
#[global] Instance CompiledExpression_eq_dec : EqDecision t.
Proof. solve_decision. Defined.
Definition is_const (c : t) : bool := Expr.is_const (ast c).
Definition variables (c : t) : list string := Expr.collect_symbols (ast c) [].
End CompiledExpression.

(** ** The parser *)
Module Parser.
Record t : Type := mk { lexer : Lexer.t; current : Token.t; nodes : N; recursion : N }.
#[global] Instance Parser_eq_dec : EqDecision t.
Proof. solve_decision. Defined.
End Parser.

(** A parsing step threads the parser. *)
Abbreviation parsing := (action Parser.t ExprParsingError.t).
Definition peek : parsing Token.t := λ p, Some (Ok (Parser.current p, p)).

(** A sub-expression and the depth of its tree. *)
Abbreviation Parsed := (Expr.t * N)%type.

Section parser.
Context (source : bytes) (limits : Limits.t).

Definition pull (lexer : Lexer.t) : result ExprParsingError.t (Token.t * Lexer.t) :=
  match Lexer.next lexer with
  | (Some (Ok token), lexer) => Ok (token, lexer)
  | (Some (Err e), _) => Err e
  | (None, lexer) =>
    Ok (Token.mk TokenKind.Eof (SourceSpan.new (lenN source) (lenN source)), lexer)
  end.

Definition new_parser : result ExprParsingError.t Parser.t :=
  '(current, lexer) ← pull (Lexer.new source); Ok (Parser.mk lexer current 0 0).

Definition admit_node (child_depth : N) (span : SourceSpan.t) : parsing N := λ p,
  Some match admit_one LimitKind.ExpressionNodes (Parser.nodes p)
               (Limits.max_expression_nodes limits) with
       | Err e => Err (ExprParsingError.limit e span)
       | Ok nodes =>
         match admit_one LimitKind.ParseDepth child_depth (Limits.max_parse_depth limits) with
         | Err e => Err (ExprParsingError.limit e span)
         | Ok depth =>
           Ok (depth, Parser.mk (Parser.lexer p) (Parser.current p) nodes (Parser.recursion p))
         end
       end.

Definition enter : parsing unit := λ p,
  Some match admit_one LimitKind.ParseDepth (Parser.recursion p) (Limits.max_parse_depth limits) with
       | Err e => Err (ExprParsingError.limit e (Token.span (Parser.current p)))
       | Ok recursion =>
         Ok ((), Parser.mk (Parser.lexer p) (Parser.current p) (Parser.nodes p) recursion)
       end.
Definition leave : parsing unit := λ p,
  Some (Ok ((), Parser.mk (Parser.lexer p) (Parser.current p) (Parser.nodes p)
                  (Parser.recursion p - 1))).

(** Returns the token that was current. *)
Definition advance : parsing Token.t := λ p,
  Some match pull (Parser.lexer p) with
       | Err e => Err e
       | Ok (next, lexer) =>
         Ok (Parser.current p, Parser.mk lexer next (Parser.nodes p) (Parser.recursion p))
       end.

Definition unexpected_end {A} : parsing A := λ p,
  Some (Err (ExprParsingError.mk ExprParsingErrorKind.UnexpectedEnd "unexpected end of expression"
               (Token.span (Parser.current p)))).

(** [&source[start..end]]. *)
Definition source_text (span : SourceSpan.t) : string :=
  let start := N.to_nat (SourceSpan.start span) in
  String.string_of_list_ascii
    (take (N.to_nat (SourceSpan.finish span) - start) (drop start source)).
Definition unexpected_token (span : SourceSpan.t) : ExprParsingError.t :=
  ExprParsingError.mk ExprParsingErrorKind.Syntax
    ("unexpected token at `" +:+ source_text span +:+ "`") span.

(** The operators of the Pratt loop: binding power, and right association. *)
Definition binary_operator (k : TokenKind.t) : option (BinaryOp.t * N * bool) :=
  match k with
  | TokenKind.Plus => Some (BinaryOp.Add, 1%N, false)
  | TokenKind.Minus => Some (BinaryOp.Sub, 1%N, false)
  | TokenKind.Star => Some (BinaryOp.Mul, 2%N, false)
  | TokenKind.Slash => Some (BinaryOp.Div, 2%N, false)
  | TokenKind.Caret => Some (BinaryOp.Pow, 4%N, true)
  | _ => None
  end.

(** The parts of the descent that call [parse_expr] back through [rec]. *)
Section descent.
Context (rec : N → parsing Parsed).

Definition parse_unit_annotation (magnitude : f64) (magnitude_depth : N) : parsing Parsed :=
  token ← peek;
  match Token.kind token with
  | TokenKind.Symbol _ =>
    '(unit, unit_depth) ← rec 4%N;
    depth ← admit_node (N.max magnitude_depth unit_depth) (Token.span token);
    mret (Expr.Binary BinaryOp.Mul (Expr.Literal magnitude) unit, depth)
  | _ => mret (Expr.Literal magnitude, magnitude_depth)
  end.

Definition parse_primary : parsing Parsed :=
  token ← advance;
  match Token.kind token with
  | TokenKind.Number value =>
    depth ← admit_node 0%N (Token.span token);
    parse_unit_annotation value depth
  | TokenKind.Symbol name =>
    depth ← admit_node 0%N (Token.span token);
    mret (Expr.Symbol name, depth)
  | TokenKind.LParen =>
    inner ← rec 0%N;
    next ← peek;
    match Token.kind next with
    | TokenKind.RParen => _ ← advance; mret inner
    | _ => unexpected_end
    end
  | TokenKind.Eof => unexpected_end
  | _ => abort (unexpected_token (Token.span token))
  end.

Definition parse_prefix : parsing Parsed :=
  token ← peek;
  match Token.kind token with
  | TokenKind.Minus =>
    _ ← advance;
    '(expr, expr_depth) ← rec 3%N;
    depth ← admit_node expr_depth (Token.span token);
    mret (Expr.Neg expr, depth)
  | _ => parse_primary
  end.
End descent.

(** [parse_expr] with [parse_expr_inner] in place, and the loop of the latter. *)
Fixpoint parse_expr (fuel : nat) (min_bp : N) : parsing Parsed :=
  match fuel with
  | O => out_of_fuel
  | S fuel =>
    _ ← enter;
    lhs ← parse_prefix (parse_expr fuel);
    parsed ← parse_loop fuel min_bp lhs;
    _ ← leave;
    mret parsed
  end
with parse_loop (fuel : nat) (min_bp : N) (lhs : Parsed) : parsing Parsed :=
  match fuel with
  | O => out_of_fuel
  | S fuel =>
    token ← peek;
    match binary_operator (Token.kind token) with
    | None => mret lhs
    | Some (op, bp, right_assoc) =>
      if (bp <? min_bp)%N then mret lhs
      else
        _ ← advance;
        '(rhs, rhs_depth) ← parse_expr fuel (if right_assoc then bp else bp + 1)%N;
        depth ← admit_node (N.max lhs.2 rhs_depth) (Token.span token);
        parse_loop fuel min_bp (Expr.Binary op lhs.1 rhs, depth)
    end
  end.
End parser.

(** Every call but the first follows a token, so the length of the source bounds
    the recursion. *)
Definition parse_fuel (source : bytes) : nat := length source + 2.

Definition parse_bounded (source : string) (limits : Limits.t)
    : option (result ExprParsingError.t CompiledExpression.t) :=
  let bs := bytes_of source in
  match ensure LimitKind.ExpressionBytes (lenN bs) (Limits.max_expression_bytes limits) with
  | Err e =>
    Some (Err (ExprParsingError.limit e
                 (SourceSpan.new (Limits.max_expression_bytes limits) (lenN bs))))
  | Ok _ =>
    match new_parser bs with
    | Err e => Some (Err e)
    | Ok parser =>
      match parse_expr bs limits (parse_fuel bs) 0 parser with
      | None => None
      | Some (Err e) => Some (Err e)
      | Some (Ok ((ast, depth), parser)) =>
        Some (match Token.kind (Parser.current parser) with
              | TokenKind.Eof =>
                Ok (CompiledExpression.mk source ast (Parser.nodes parser) depth)
              | _ => Err (ExprParsingError.mk ExprParsingErrorKind.Syntax
                            "trailing input after expression"
                            (Token.span (Parser.current parser)))
              end)
      end
    end
  end.
Definition parse (source : string) : option (result ExprParsingError.t CompiledExpression.t) :=
  parse_bounded source Limits.DEFAULT.

(** ** Evaluation *)
Module ExprEvalError.
Inductive t : Type :=
  | UnknownVariable (name : string)
  | Cycle
  | DivisionByZero
  | NonFinite
  | DimensionMismatch (left_ right_ : Dimension.t)
  | FractionalExponent (power : f64)
  | DimensionedExponent (dimension : Dimension.t)
  | DimensionOverflow
  | Limit (error : LimitError.t).
#[global] Instance ExprEvalError_eq_dec : EqDecision t.
Proof. solve_decision. Defined.

Definition of_quantity (e : QuantityError.t) : t :=
  match e with
  | QuantityError.NonFinite => NonFinite
  | QuantityError.DimensionMismatch expected found => DimensionMismatch expected found
  | QuantityError.DimensionOverflow => DimensionOverflow
  end.
End ExprEvalError.

Definition quantity (magnitude : f64) (dimension : Dimension.t)
    : result ExprEvalError.t Quantity.t :=
  result_map_err ExprEvalError.of_quantity (Quantity.new magnitude dimension).

(** An evaluation threads the budget, and the state [S] of the caller that
    [resolve] reads and updates. *)
Abbreviation evaluating S := (action (Budget.t * S) ExprEvalError.t).
Definition spend {S} (units : N) : evaluating S unit := update_state (λ st,
  match Budget.spend st.1 units with
  | Ok budget => Ok (budget, st.2)
  | Err e => Err (ExprEvalError.Limit e)
  end).

Section eval.
Context `{Libm}.

Definition eval_pow (base exponent : Quantity.t) : result ExprEvalError.t Quantity.t :=
  if negb (Quantity.is_dimensionless exponent) then
    Err (ExprEvalError.DimensionedExponent (Quantity.dimension exponent))
  else
    let power := Quantity.magnitude exponent in
    let magnitude := powf (Quantity.magnitude base) power in
    if Quantity.is_dimensionless base then quantity magnitude Dimension.DIMENSIONLESS
    else if negb (F64.eqb (F64.fract power) F64.zero) then
      Err (ExprEvalError.FractionalExponent power)
    else
      match i8_checked (F64.as_i64 power) with
      | None => Err ExprEvalError.DimensionOverflow
      | Some whole =>
        match Dimension.power (Quantity.dimension base) whole with
        | None => Err ExprEvalError.DimensionOverflow
        | Some dimension => quantity magnitude dimension
        end
      end.

Definition eval_binary (op : BinaryOp.t) (lhs rhs : Quantity.t)
    : result ExprEvalError.t Quantity.t :=
  let l := Quantity.magnitude lhs in
  let r := Quantity.magnitude rhs in
  let ld := Quantity.dimension lhs in
  let rd := Quantity.dimension rhs in
  match op with
  | BinaryOp.Add | BinaryOp.Sub =>
    if decide (ld ≠ rd) then Err (ExprEvalError.DimensionMismatch ld rd)
    else quantity (match op with BinaryOp.Add => F64.add l r | _ => F64.sub l r end) ld
  | BinaryOp.Mul =>
    match Dimension.multiply ld rd with
    | None => Err ExprEvalError.DimensionOverflow
    | Some dimension => quantity (F64.mul l r) dimension
    end
  | BinaryOp.Div =>
    if F64.eqb r F64.zero then Err ExprEvalError.DivisionByZero
    else
      match Dimension.divide ld rd with
      | None => Err ExprEvalError.DimensionOverflow
      | Some dimension => quantity (F64.div l r) dimension
      end
  | BinaryOp.Pow => eval_pow lhs rhs
  end.

Fixpoint eval_ast {S} (ast : Expr.t) (resolve : string → evaluating S Quantity.t)
    : evaluating S Quantity.t :=
  _ ← spend 1;
  match ast with
  | Expr.Literal value => lift (quantity value Dimension.DIMENSIONLESS)
  | Expr.Symbol name => resolve name
  | Expr.Neg expr =>
    value ← eval_ast expr resolve;
    lift (quantity (F64.neg (Quantity.magnitude value)) (Quantity.dimension value))
  | Expr.Binary op lhs rhs =>
    lhs ← eval_ast lhs resolve;
    rhs ← eval_ast rhs resolve;
    lift (eval_binary op lhs rhs)
  end.
End eval.

(** The quantity a bare unit symbol denotes (system.rs). *)
Definition unit_quantity (symbol : string) : result ExprEvalError.t Quantity.t :=
  match lookup symbol with
  | Err _ => Err (ExprEvalError.UnknownVariable symbol)
  | Ok unit => quantity (Unit.si_factor unit) (Unit.dimension unit)
  end.

(** [2.7 g / cm^3] is [(2.7 * g) / (cm^3)]. *)
Example density_groups :
  (λ r, match r with Ok c => Some (CompiledExpression.ast c) | Err _ => None end)
    <$> parse "2.7 g / cm^3"
  = Some (Some (Expr.Binary BinaryOp.Div
      (Expr.Binary BinaryOp.Mul (Expr.Literal (F64.of_decimal 27 (-1))) (Expr.Symbol "g"))
      (Expr.Binary BinaryOp.Pow (Expr.Symbol "cm") (Expr.Literal (F64.of_decimal 3 0))))).
Proof. vm_compute. reflexivity. Qed.
