(* ===== verification/Grammar.v ===== *)
(** * The expression grammar (orishu-variables, expression.rs)

    The grammar the Pratt parser of [Expression] is documented to read, stated
    as derivation trees over token lists, and the proof that the parser decides
    it: [parse_total] (it always answers) and [parse_exact] (it accepts exactly
    the derivable sources that fit the limits, with the derived tree). *)

From Stdlib Require Import Ascii ZArith.
From stdpp Require Import base gmap strings list pretty.
From S2P Require Import Prelude Identity VarLimits Action Binary64 Quantity Expression.

(** ** Size and height of a tree *)
Fixpoint expr_size (e : Expr.t) : N :=
  match e with
  | Expr.Literal _ | Expr.Symbol _ => 1
  | Expr.Neg e => 1 + expr_size e
  | Expr.Binary _ l r => 1 + expr_size l + expr_size r
  end.
Fixpoint expr_height (e : Expr.t) : N :=
  match e with
  | Expr.Literal _ | Expr.Symbol _ => 1
  | Expr.Neg e => 1 + expr_height e
  | Expr.Binary _ l r => 1 + N.max (expr_height l) (expr_height r)
  end.

(** ** Derivations *)

(** The level of an operator's node and of its operands: a higher level binds
    tighter; an operand at the operator's own level is what makes it
    associate. *)
Definition op_token (op : BinaryOp.t) : TokenKind.t :=
  match op with
  | BinaryOp.Add => TokenKind.Plus | BinaryOp.Sub => TokenKind.Minus
  | BinaryOp.Mul => TokenKind.Star | BinaryOp.Div => TokenKind.Slash
  | BinaryOp.Pow => TokenKind.Caret
  end.
Definition op_level (op : BinaryOp.t) : N :=
  match op with
  | BinaryOp.Add | BinaryOp.Sub => 1 | BinaryOp.Mul | BinaryOp.Div => 2 | BinaryOp.Pow => 4
  end.
Definition left_level (op : BinaryOp.t) : N :=
  match op with BinaryOp.Pow => 5 | op => op_level op end.
Definition right_level (op : BinaryOp.t) : N :=
  match op with BinaryOp.Pow => 4 | op => op_level op + 1 end.

(** [derives level nesting tokens tree]: the tokens are an expression of the
    level with that tree; [nesting] is how many groups, operators' right operands,
    units and negations enclose one another at the deepest point. *)
Inductive derives : N → N → list TokenKind.t → Expr.t → Prop :=
  | derives_number v : derives 5 0 [TokenKind.Number v] (Expr.Literal v)
  | derives_symbol s : derives 5 0 [TokenKind.Symbol s] (Expr.Symbol s)
  | derives_group f ks e :
      derives 0 f ks e →
      derives 5 (f + 1) (TokenKind.LParen :: ks ++ [TokenKind.RParen]) e
  | derives_annotation f v s ks e :
      derives 4 f (TokenKind.Symbol s :: ks) e →
      derives 4 (f + 1) (TokenKind.Number v :: TokenKind.Symbol s :: ks)
        (Expr.Binary BinaryOp.Mul (Expr.Literal v) e)
  | derives_neg f ks e :
      derives 3 f ks e → derives 4 (f + 1) (TokenKind.Minus :: ks) (Expr.Neg e)
  | derives_binary op f1 f2 ks1 ks2 e1 e2 :
      derives (left_level op) f1 ks1 e1 → derives (right_level op) f2 ks2 e2 →
      derives (op_level op) (N.max f1 (f2 + 1)) (ks1 ++ op_token op :: ks2)
        (Expr.Binary op e1 e2)
  | derives_weaken l l' f ks e : (l ≤ l')%N → derives l' f ks e → derives l f ks e.
#[export] Hint Constructors derives : grammar.

(** ** The tokens of a source *)
Inductive lexes : Lexer.t → list TokenKind.t → Prop :=
  | lexes_end l l' : Lexer.next l = (None, l') → lexes l []
  | lexes_token l l' token ks :
      Lexer.next l = (Some (Ok token), l') → lexes l' ks → lexes l (Token.kind token :: ks).

(** What a parser has yet to read, its current token included. *)
Definition remaining (p : Parser.t) (ks : list TokenKind.t) : Prop :=
  match ks with
  | [] => Token.kind (Parser.current p) = TokenKind.Eof
  | k :: ks => Token.kind (Parser.current p) = k ∧ k ≠ TokenKind.Eof ∧ lexes (Parser.lexer p) ks
  end.

(** ** Lexer lemmas *)
Lemma lex_operator_kind l c token l' :
  Lexer.lex_operator l c = (Ok token, l') → Token.kind token ≠ TokenKind.Eof.
Proof.
  unfold Lexer.lex_operator. destruct (Lexer.operator_kind c) as [k|] eqn:Hk; [|done].
  intros [= <- _]. revert Hk. unfold Lexer.operator_kind. cbn.
  repeat (case_match; [by intros [= <-]|]). done.
Qed.

Lemma next_not_eof l token l' :
  Lexer.next l = (Some (Ok token), l') → Token.kind token ≠ TokenKind.Eof.
Proof.
  unfold Lexer.next. destruct (Lexer.rest _) as [|c bs]; [done|].
  destruct (is_ascii_digit c).
  { unfold Lexer.lex_number. destruct (parse_f64 _); [by intros [= <- _]|done]. }
  destruct (_ || _); [by intros [= <- _]|].
  destruct (Lexer.lex_operator _ c) as [r l''] eqn:Ho. intros [= -> ->].
  eapply lex_operator_kind, Ho.
Qed.

Lemma count_while_head f bs : head_is f bs = true → 0 < count_while f bs.
Proof. destruct bs as [|c bs]; cbn; [done|]. intros ->. lia. Qed.

Lemma number_len_pos bs : head_is is_ascii_digit bs = true → 0 < Lexer.number_len bs.
Proof.
  intros H. apply count_while_head in H. unfold Lexer.number_len.
  repeat case_match; lia.
Qed.

(** A token takes at least one byte. *)
Lemma next_progress l token l' :
  Lexer.next l = (Some (Ok token), l') →
  Lexer.source l' = Lexer.source l ∧ Lexer.pos l < Lexer.pos l'
  ∧ Lexer.pos l < length (Lexer.source l).
Proof.
  unfold Lexer.next. set (l0 := Lexer.advance_by l _).
  assert (Lexer.source l0 = Lexer.source l ∧ Lexer.pos l ≤ Lexer.pos l0) as [Hs Hp]
    by (split; [done|cbn; lia]). clearbody l0.
  destruct (Lexer.rest l0) as [|c bs] eqn:Hr; [done|].
  assert (Lexer.pos l0 < length (Lexer.source l)) as Hlt.
  { destruct (decide (Lexer.pos l0 < length (Lexer.source l))); [done|].
    unfold Lexer.rest in Hr. rewrite Hs, drop_ge in Hr by lia. done. }
  destruct (is_ascii_digit c) eqn:Hd.
  { unfold Lexer.lex_number. intros [= _ <-]. cbn. rewrite Hr.
    pose proof (number_len_pos (c :: bs) Hd). rewrite Hs. split_and!; [done|lia|lia]. }
  destruct (_ || _).
  { intros [= _ <-]. cbn. rewrite Hs. split_and!; [done|lia|lia]. }
  unfold Lexer.lex_operator. destruct (Lexer.operator_kind c); [|done].
  intros [= _ <-]. cbn. rewrite Hs. split_and!; [done|lia|lia].
Qed.

(** ** The operator table *)
Lemma binary_operator_some k op bp ra :
  binary_operator k = Some (op, bp, ra) →
  k = op_token op ∧ bp = op_level op ∧ (if ra then bp else bp + 1)%N = right_level op.
Proof. destruct k; cbn; try done; by intros [= <- <- <-]. Qed.

Lemma binary_operator_token op :
  ∃ ra, binary_operator (op_token op) = Some (op, op_level op, ra)
    ∧ (if ra then op_level op else op_level op + 1)%N = right_level op.
Proof. destruct op; cbn; eauto. Qed.

Lemma op_token_not_eof op : op_token op ≠ TokenKind.Eof.
Proof. by destruct op. Qed.
Lemma op_level_left op : (op_level op ≤ left_level op)%N.
Proof. destruct op; cbn; lia. Qed.

(** An operator that may stand to the right of a node of [op]'s level binds
    looser than [op]'s right operand. *)
Lemma left_below_right op op' :
  (left_level op' ≤ op_level op)%N → (op_level op' < right_level op)%N.
Proof. destruct op, op'; cbn; lia. Qed.
Lemma below_right_left op op' :
  (op_level op' < right_level op)%N → (left_level op' ≤ op_level op)%N.
Proof. destruct op, op'; cbn; lia. Qed.

(** The operator a token list starts with meets [P]. *)
Definition next_operator (P : BinaryOp.t → Prop) (k : TokenKind.t) : Prop :=
  ∀ op, k = op_token op → P op.

Lemma next_operator_impl (P Q : BinaryOp.t → Prop) k :
  (∀ op, P op → Q op) → next_operator P k → next_operator Q k.
Proof. intros HPQ HP op ->. by apply HPQ, HP. Qed.

Section parser_lemmas.
Context (source : bytes) (limits : Limits.t).
Implicit Types p : Parser.t.

(** ** Inverting successful steps *)
Lemma pull_ok l token l' :
  pull source l = Ok (token, l') →
  ∀ rest, remaining (Parser.mk l' token 0 0) rest → lexes l rest.
Proof.
  unfold pull. destruct (Lexer.next l) as [[[tok|e]|] l1] eqn:Hn; [|done|].
  - intros [= -> ->] [|k rest]; cbn.
    + intros He. by apply next_not_eof in Hn.
    + intros (<- & _ & Hr). by econstructor.
  - intros [= <- ->] [|k rest]; cbn.
    + intros _. by econstructor.
    + by intros (<- & ? & _).
Qed.

Lemma remaining_eq p q rest :
  Parser.lexer p = Parser.lexer q → Parser.current p = Parser.current q →
  remaining p rest → remaining q rest.
Proof. intros Hl Hc. destruct rest; cbn; by rewrite ?Hl, ?Hc. Qed.

Lemma advance_ok p token p' :
  advance source p = Some (Ok (token, p')) →
  token = Parser.current p ∧ Parser.nodes p' = Parser.nodes p
  ∧ Parser.recursion p' = Parser.recursion p
  ∧ (Token.kind token ≠ TokenKind.Eof →
     ∀ rest, remaining p' rest → remaining p (Token.kind token :: rest)).
Proof.
  unfold advance. destruct (pull source (Parser.lexer p)) as [[next l]|e] eqn:Hp; [|done].
  intros [= <- <-]. split_and!; try done. intros Hk rest Hr. split_and!; [done|done|].
  eapply pull_ok; [exact Hp|]. by eapply remaining_eq; [..|exact Hr].
Qed.

Lemma admit_node_ok d span p depth p' :
  admit_node limits d span p = Some (Ok (depth, p')) →
  depth = (d + 1)%N ∧ (depth ≤ Limits.max_parse_depth limits)%N
  ∧ (Parser.nodes p + 1 ≤ Limits.max_expression_nodes limits)%N
  ∧ p' = Parser.mk (Parser.lexer p) (Parser.current p) (Parser.nodes p + 1) (Parser.recursion p).
Proof.
  unfold admit_node. destruct (admit_one _ (Parser.nodes p) _) eqn:Hn; [|done].
  destruct (admit_one _ d _) eqn:Hd; [|done]. intros [= <- <-].
  apply admit_one_ok in Hn as [-> ?], Hd as [-> ?]. done.
Qed.

Lemma enter_ok u p p' :
  enter limits p = Some (Ok (u, p')) →
  (Parser.recursion p + 1 ≤ Limits.max_parse_depth limits)%N
  ∧ p' = Parser.mk (Parser.lexer p) (Parser.current p) (Parser.nodes p) (Parser.recursion p + 1).
Proof.
  unfold enter. destruct (admit_one _ _ _) eqn:Hd; [|done]. intros [= <- <-].
  by apply admit_one_ok in Hd as [-> ?].
Qed.

(** What a successful sub-parse from [p] to [p'] did: it read a derivation of the
    level, [extra] frames below those of [p], charged its nodes, and stayed within
    the bounds. *)
Record parsed (level extra : N) (p : Parser.t) (r : Parsed) (p' : Parser.t) : Prop := {
  parsed_derives : ∃ f ks, derives level f ks r.1
    ∧ (∃ ks', ks = Token.kind (Parser.current p) :: ks')
    ∧ (∀ rest, remaining p' rest → remaining p (ks ++ rest))
    ∧ (Parser.recursion p + extra + f ≤ Limits.max_parse_depth limits)%N;
  parsed_depth : r.2 = expr_height r.1;
  parsed_nodes : Parser.nodes p' = (Parser.nodes p + expr_size r.1)%N;
  parsed_recursion : Parser.recursion p' = Parser.recursion p;
  parsed_nodes_bound : (Parser.nodes p' ≤ Limits.max_expression_nodes limits)%N;
  parsed_depth_bound : (r.2 ≤ Limits.max_parse_depth limits)%N
}.

Lemma parsed_weaken l l' x p r p' : (l ≤ l')%N → parsed l' x p r p' → parsed l x p r p'.
Proof.
  intros Hl [(f & ks & Hd & ?) ?]. split; [|done..]. exists f, ks. split; [|done].
  by eapply derives_weaken.
Qed.

(** The state a sub-parse ends in: the next operator binds looser than [min_bp]. *)
Definition stops_at (min_bp : N) (p : Parser.t) : Prop :=
  next_operator (λ op, (op_level op < min_bp)%N) (Token.kind (Parser.current p)).
(** The next operator accepts a left operand of the level. *)
Definition accepts (level : N) (p : Parser.t) : Prop :=
  next_operator (λ op, (left_level op ≤ level)%N) (Token.kind (Parser.current p)).

Definition expr_sound (rec : N → parsing Parsed) : Prop := ∀ min_bp p r p',
  (min_bp ≤ 4)%N → rec min_bp p = Some (Ok (r, p')) →
  parsed min_bp 1 p r p' ∧ stops_at min_bp p'.

Definition prefix_sound (m : parsing Parsed) : Prop := ∀ p r p',
  (Parser.recursion p ≤ Limits.max_parse_depth limits)%N →
  m p = Some (Ok (r, p')) → ∃ level, (4 ≤ level)%N ∧ parsed level 0 p r p' ∧ accepts level p'.

Ltac step := match goal with
  | H : (_ ≫= _) _ = Some (Ok _) |- _ =>
    let a := fresh "a" in let p := fresh "p" in let H1 := fresh "Hm" in
    apply bind_ok in H as (a & p & H1 & H);
    try match type of a with prod _ _ => destruct a as [??] end; cbn beta iota in H
  | H : peek _ = Some (Ok (_, _)) |- _ => injection H as <- <-
  | H : mret _ _ = Some (Ok (_, _)) |- _ => injection H as <- <-
  | H : advance _ _ = Some (Ok (_, _)) |- _ =>
    let Hr := fresh "Hread" in apply advance_ok in H as (-> & ? & ? & Hr)
  | H : admit_node _ _ _ _ = Some (Ok (_, _)) |- _ =>
    apply admit_node_ok in H as (-> & ? & ? & ->)
  end.

Lemma accepts_any p : accepts 5 p.
Proof. intros op _. destruct op; cbn; lia. Qed.
Lemma stops_accepts p : stops_at 4 p → accepts 4 p.
Proof. apply next_operator_impl. intros op. destruct op; cbn; lia. Qed.

Lemma annotation_sound rec v p0 p r p' :
  expr_sound rec → Token.kind (Parser.current p0) = TokenKind.Number v →
  (∀ rest, remaining p rest → remaining p0 (TokenKind.Number v :: rest)) →
  Parser.nodes p = (Parser.nodes p0 + 1)%N → Parser.recursion p = Parser.recursion p0 →
  (Parser.nodes p ≤ Limits.max_expression_nodes limits)%N →
  (1 ≤ Limits.max_parse_depth limits)%N →
  (Parser.recursion p ≤ Limits.max_parse_depth limits)%N →
  parse_unit_annotation limits rec v 1 p = Some (Ok (r, p')) →
  ∃ level, (4 ≤ level)%N ∧ parsed level 0 p0 r p' ∧ accepts level p'.
Proof.
  intros Hrec Hk0 Hread Hn Hr Hnmax Hd Hrmax H. unfold parse_unit_annotation in H. repeat step.
  destruct (Token.kind (Parser.current p)) as [| s | | | | | | | |] eqn:Hk.
  2: { repeat step. rename t into u.
    destruct (Hrec _ _ _ _ (N.le_refl _) Hm)
      as [[(f & ks & Hder & [ks' ->] & Hrd & Hf) Hu Hun Hur _ _] Hst].
    exists 4%N. split_and!; [lia| |by apply stops_accepts]. rewrite Hk in *. cbn in *.
    split; cbn; [|lia..]. exists (f + 1)%N, (TokenKind.Number v :: TokenKind.Symbol s :: ks').
    rewrite Hk0. split_and!; [by constructor|by eexists| |lia].
    intros rest Hrest. by apply Hread, Hrd. }
  all: injection H as <- <-; exists 5%N; split_and!; [lia| |apply accepts_any];
    split; cbn; [|lia..]; exists 0%N, [TokenKind.Number v];
    rewrite Hk0; split_and!; [constructor|by eexists|done|lia].
Qed.

Lemma primary_sound rec : expr_sound rec → prefix_sound (parse_primary source limits rec).
Proof.
  intros Hrec p r p' Hmax H. unfold parse_primary in H. step. step.
  destruct (Token.kind (Parser.current p)) as [v | s | | | | | | | |] eqn:Hk; try done.
  - repeat step. eapply annotation_sound; [exact Hrec|exact Hk| |..|exact H]; cbn; try lia.
    intros rest Hrest. apply Hread; [done|by eapply remaining_eq; [..|exact Hrest]].
  - repeat step. exists 5%N. split_and!; [lia| |apply accepts_any].
    split; cbn; [|lia..]. exists 0%N, [TokenKind.Symbol s].
    split_and!; [constructor|rewrite Hk; by eexists| |lia].
    intros rest Hrest. apply Hread; [done|by eapply remaining_eq; [..|exact Hrest]].
  - step. rename p1 into q. step. step.
    destruct (Token.kind (Parser.current q)) eqn:Hq; try done. repeat step.
    destruct (Hrec _ _ _ _ (N.le_0_l _) Hm)
      as [[(f & ks & Hder & _ & Hrd & Hf) Hu Hun Hur ??] _].
    exists 5%N. split_and!; [lia| |apply accepts_any].
    split; [|try congruence; try lia..].
    exists (f + 1)%N, (TokenKind.LParen :: ks ++ [TokenKind.RParen]).
    split_and!; [by constructor|rewrite Hk; by eexists| |lia].
    intros rest Hrest. cbn [app]. rewrite <- app_assoc. apply Hread; [done|].
    apply Hrd. cbn [app]. rewrite Hq in *. eauto.
Qed.

Lemma prefix_sound_of rec : expr_sound rec → prefix_sound (parse_prefix source limits rec).
Proof.
  intros Hrec p r p' Hmax H. unfold parse_prefix in H. step. step.
  destruct (Token.kind (Parser.current p)) as [| | | | | | | | |] eqn:Hk;
    try (by apply (primary_sound rec Hrec p r p' Hmax H)).
  repeat step.
  destruct (Hrec _ _ _ _ (N.lt_le_incl 3 4 eq_refl) Hm0)
    as [[(f & ks & Hder & _ & Hrd & Hf) Hu Hun Hur ??] Hst].
  exists 4%N. split_and!; [lia| |].
  - split; cbn -[remaining] in *; [|lia..]. exists (f + 1)%N, (TokenKind.Minus :: ks). rewrite Hk.
    split_and!; [by constructor|by eexists| |lia].
    intros rest Hrest. rewrite Hk in Hread. apply Hread; [done|]. apply Hrd. by eapply remaining_eq; [..|exact Hrest].
  - apply stops_accepts. revert Hst. apply next_operator_impl. lia.
Qed.

Lemma parse_expr_S fuel min_bp :
  parse_expr source limits (S fuel) min_bp =
    (_ ← enter limits;
     lhs ← parse_prefix source limits (parse_expr source limits fuel);
     parsed ← parse_loop source limits fuel min_bp lhs;
     _ ← leave;
     mret parsed).
Proof. done. Qed.

Lemma parse_loop_S fuel min_bp lhs :
  parse_loop source limits (S fuel) min_bp lhs =
    (token ← peek;
     match binary_operator (Token.kind token) with
     | None => mret lhs
     | Some (op, bp, right_assoc) =>
       if (bp <? min_bp)%N then mret lhs
       else
         _ ← advance source;
         '(rhs, rhs_depth) ← parse_expr source limits fuel (if right_assoc then bp else bp + 1)%N;
         depth ← admit_node limits (N.max lhs.2 rhs_depth) (Token.span token);
         parse_loop source limits fuel min_bp (Expr.Binary op lhs.1 rhs, depth)
     end).
Proof. done. Qed.

Lemma binary_parsed op p0 lhs p q rhs q' :
  parsed (left_level op) 0 p0 lhs p →
  Token.kind (Parser.current p) = op_token op →
  Parser.nodes q = Parser.nodes p → Parser.recursion q = Parser.recursion p →
  (∀ rest, remaining q rest → remaining p (op_token op :: rest)) →
  parsed (right_level op) 1 q rhs q' →
  (Parser.nodes q' + 1 ≤ Limits.max_expression_nodes limits)%N →
  (N.max lhs.2 rhs.2 + 1 ≤ Limits.max_parse_depth limits)%N →
  parsed (op_level op) 0 p0 (Expr.Binary op lhs.1 rhs.1, (N.max lhs.2 rhs.2 + 1)%N)
    (Parser.mk (Parser.lexer q') (Parser.current q') (Parser.nodes q' + 1) (Parser.recursion q')).
Proof.
  intros [(f1 & ks1 & Hd1 & [ks' ->] & Hr1 & Hf1) Hu1 Hn1 Hc1 _ _] Hk Hn Hc Hread
    [(f2 & ks2 & Hd2 & _ & Hr2 & Hf2) Hu2 Hn2 Hc2 _ _] Hnm Hdm.
  split; cbn -[remaining]; [|lia..].
  exists (N.max f1 (f2 + 1)), ((Token.kind (Parser.current p0) :: ks') ++ op_token op :: ks2).
  split_and!; [by constructor|by eexists| |lia].
  intros rest Hrest. rewrite <- app_assoc. apply Hr1. cbn [app]. apply Hread, Hr2.
  by eapply remaining_eq; [..|exact Hrest].
Qed.

Lemma loop_and_expr_sound fuel :
  expr_sound (parse_expr source limits fuel)
  ∧ ∀ min_bp lhs p r p', (min_bp ≤ 4)%N →
    parse_loop source limits fuel min_bp lhs p = Some (Ok (r, p')) →
    stops_at min_bp p'
    ∧ ∀ level p0, (min_bp ≤ level)%N → parsed level 0 p0 lhs p → accepts level p →
      parsed min_bp 0 p0 r p'.
Proof.
  induction fuel as [|fuel [IHe IHl]]; [done|]. split.
  - intros min_bp p r p' Hmin H. rewrite parse_expr_S in H. repeat step.
    apply enter_ok in Hm as [Hen ->]. injection Hm2 as _ <-.
    edestruct prefix_sound_of as (level & Hl & Hp & Hacc); [exact IHe| |exact Hm0|]; [exact Hen|].
    destruct (IHl _ _ _ _ _ Hmin Hm1) as [Hst Hloop]. split; [|exact Hst].
    destruct (Hloop level _ (N.le_trans _ _ _ Hmin Hl) Hp Hacc)
      as [(f & ks & Hder & Hks & Hrd & Hf) Hu Hun Hur Hnb Hdb].
    cbn -[remaining] in *. split; cbn -[remaining]; [|done|lia..].
    exists f, ks. split_and!; [done|done| |lia].
    intros rest Hrest. eapply remaining_eq; [..|apply Hrd]; [done..|].
    by eapply remaining_eq; [..|exact Hrest].
  - intros min_bp lhs p r p' Hmin H. rewrite parse_loop_S in H. step. step.
    destruct (binary_operator (Token.kind (Parser.current p))) as [[[op bp] ra]|] eqn:Hb.
    2: { injection H as <- <-. split.
      - intros op Hop. destruct (binary_operator_token op) as (ra & Hop' & _). congruence.
      - intros level p0 Hle Hp _. by eapply parsed_weaken. }
    apply binary_operator_some in Hb as (Hk & -> & Hra).
    destruct (N.ltb_spec (op_level op) min_bp) as [Hlt|Hge].
    { injection H as <- <-. split.
      - intros op' Hop. rewrite Hk in Hop. destruct op, op'; cbn in *; congruence || lia.
      - intros level p0 Hle Hp _. by eapply parsed_weaken. }
    rewrite Hra in H. repeat step. rename p0 into q.
    apply IHe in Hm0 as [Hrhs Hst]; [|destruct op; cbn; lia].
    rewrite Hk in *.
    apply IHl in H as [Hst' Hloop]; [|exact Hmin]. split; [exact Hst'|].
    intros level p0 Hle Hp Hacc. apply (Hloop (op_level op)); [exact Hge| |].
    + eapply (binary_parsed op p0 lhs p _ (_, _)); try done.
      * eapply parsed_weaken; [|exact Hp]. by apply Hacc.
      * by apply Hread, op_token_not_eof.
    + revert Hst. apply next_operator_impl. intros op'. apply below_right_left.
Qed.

(** ** The parser always answers *)

(** The bytes and the current token still to read. *)
Definition todo p : nat :=
  length source - Lexer.pos (Parser.lexer p)
  + (if decide (Token.kind (Parser.current p) = TokenKind.Eof) then 0 else 1).
Definition over_source p : Prop := Lexer.source (Parser.lexer p) = source.

Lemma yields_unexpected_end {A} p (Q : A → Parser.t → Prop) : yields unexpected_end p Q.
Proof. by eexists. Qed.
Lemma yields_peek p (Q : Token.t → Parser.t → Prop) : Q (Parser.current p) p → yields peek p Q.
Proof. intros HQ. eexists. split; [done|]. by intros ?? [= <- <-]. Qed.

(** The steps that only count keep the text to read. *)
Definition keeps_reading p p' : Prop :=
  Parser.lexer p' = Parser.lexer p ∧ Parser.current p' = Parser.current p.

Lemma yields_admit_node d span p :
  yields (admit_node limits d span) p (λ _ p', keeps_reading p p').
Proof.
  unfold admit_node. eexists. split; [done|]. intros depth p'.
  destruct (admit_one _ _ _); [|done]. destruct (admit_one _ _ _); [|done]. by intros [= _ <-].
Qed.
Lemma yields_enter p : yields (enter limits) p (λ _ p', keeps_reading p p').
Proof.
  unfold enter. eexists. split; [done|]. intros u p'. destruct (admit_one _ _ _); [|done].
  by intros [= _ <-].
Qed.
Lemma yields_leave p : yields leave p (λ _ p', keeps_reading p p').
Proof. eexists. split; [done|]. by intros u p' [= _ <-]. Qed.

Lemma keeps_reading_todo p p' : keeps_reading p p' → todo p' = todo p.
Proof. unfold todo. by intros [-> ->]. Qed.
Lemma keeps_reading_over p p' : keeps_reading p p' → over_source p → over_source p'.
Proof. unfold over_source. by intros [-> _]. Qed.

Lemma next_end l l' :
  Lexer.next l = (None, l') → Lexer.source l' = Lexer.source l ∧ Lexer.pos l ≤ Lexer.pos l'.
Proof.
  unfold Lexer.next. destruct (Lexer.rest _) as [|c bs].
  - intros [= <-]. cbn. split; [done|lia].
  - destruct (is_ascii_digit c).
    { by destruct (Lexer.lex_number _). }
    destruct (_ || _); [done|]. by destruct (Lexer.lex_operator _ _).
Qed.

Lemma yields_advance p :
  over_source p →
  yields (advance source) p (λ token p', token = Parser.current p ∧ over_source p'
    ∧ todo p' ≤ todo p ∧ (Token.kind (Parser.current p) ≠ TokenKind.Eof → todo p' < todo p)).
Proof.
  intros Hs. unfold advance. eexists. split; [done|]. intros token p'.
  unfold pull. destruct (Lexer.next (Parser.lexer p)) as [[[tok|e]|] l'] eqn:Hn; [|done|].
  - apply next_progress in Hn as (Hs' & Hpos & Hlen). intros [= <- <-].
    unfold over_source, todo in *; cbn. rewrite Hs in *. split_and!; [done|done|..];
      repeat case_decide; lia || done.
  - apply next_end in Hn as (Hs' & Hpos). intros [= <- <-].
    unfold over_source, todo in *; cbn. rewrite Hs in *. split_and!; [done|done|..];
      repeat case_decide; lia || done.
Qed.

Definition expr_total (n : nat) (rec : N → parsing Parsed) : Prop := ∀ min_bp p,
  over_source p → todo p < n →
  yields (rec min_bp) p (λ _ p', over_source p' ∧ todo p' < todo p).

Lemma annotation_total n rec v d p :
  expr_total n rec → over_source p → todo p < n →
  yields (parse_unit_annotation limits rec v d) p (λ _ p', over_source p' ∧ todo p' ≤ todo p).
Proof.
  intros Hrec Hs Hn. unfold parse_unit_annotation.
  eapply yields_bind; [by apply (yields_peek p (λ t p', p' = p))|]. intros token ? ->.
  destruct (Token.kind token); try (apply yields_ret; split; [done|lia]).
  eapply yields_bind; [by apply Hrec|]. intros [u du] p1 [Hs1 Ht1].
  eapply yields_bind; [apply yields_admit_node|]. intros depth p2 Hk. cbn beta in Hk.
  apply yields_ret. split; [by eapply keeps_reading_over|].
  rewrite (keeps_reading_todo p1 p2 Hk). lia.
Qed.

Lemma primary_total n rec p :
  expr_total n rec → over_source p → todo p ≤ n →
  yields (parse_primary source limits rec) p (λ _ p', over_source p' ∧ todo p' < todo p).
Proof.
  intros Hrec Hs Hn. unfold parse_primary.
  eapply yields_bind; [by apply yields_advance|]. intros token q (-> & Hsq & _ & Hlt).
  destruct (Token.kind (Parser.current p)) as [v | s | | | | | | | |]; try apply yields_abort.
  - specialize (Hlt ltac:(done)).
    eapply yields_bind; [apply yields_admit_node|]. intros depth q' Hk. cbn beta in Hk.
    pose proof (keeps_reading_todo _ _ Hk).
    eapply yields_impl;
      [eapply annotation_total; [exact Hrec|by eapply keeps_reading_over|lia]|].
    intros ? p' [? ?]. split; [done|lia].
  - specialize (Hlt ltac:(done)).
    eapply yields_bind; [apply yields_admit_node|]. intros depth q' Hk. cbn beta in Hk.
    apply yields_ret. split; [by eapply keeps_reading_over|].
    rewrite (keeps_reading_todo _ _ Hk). done.
  - specialize (Hlt ltac:(done)).
    eapply yields_bind; [apply Hrec; [done|lia]|]. intros inner p1 [Hs1 Ht1].
    eapply yields_bind; [by apply (yields_peek p1 (λ t p', t = Parser.current p1 ∧ p' = p1))|].
    intros ? ? [-> ->].
    destruct (Token.kind (Parser.current p1)); try apply yields_unexpected_end.
    eapply yields_bind; [by apply yields_advance|]. intros ? p2 (_ & Hs2 & Ht2 & _).
    apply yields_ret. split; [done|lia].
  - apply yields_unexpected_end.
Qed.

Lemma prefix_total n rec p :
  expr_total n rec → over_source p → todo p ≤ n →
  yields (parse_prefix source limits rec) p (λ _ p', over_source p' ∧ todo p' < todo p).
Proof.
  intros Hrec Hs Hn. unfold parse_prefix.
  eapply yields_bind; [by apply (yields_peek p (λ t p', t = Parser.current p ∧ p' = p))|].
  intros ? ? [-> ->].
  destruct (Token.kind (Parser.current p)) eqn:Hk; try by apply (primary_total n).
  eapply yields_bind; [by apply yields_advance|]. intros ? q (_ & Hsq & _ & Hlt).
  rewrite Hk in Hlt. specialize (Hlt ltac:(done)).
  eapply yields_bind; [apply Hrec; [done|lia]|]. intros [e d] p1 [Hs1 Ht1].
  eapply yields_bind; [apply yields_admit_node|]. intros depth p2 Hk2. cbn beta in Hk2.
  apply yields_ret. split; [by eapply keeps_reading_over|].
  rewrite (keeps_reading_todo _ _ Hk2). lia.
Qed.

Lemma loop_and_expr_total n :
  expr_total n (parse_expr source limits n)
  ∧ ∀ min_bp lhs p, over_source p → todo p < n →
    yields (parse_loop source limits n min_bp lhs) p (λ _ p', over_source p' ∧ todo p' ≤ todo p).
Proof.
  induction n as [|n [IHe IHl]]; [split; [intros ?? _ Hlt|intros ??? _ Hlt]; by apply Nat.nlt_0_r in Hlt|]. split.
  - intros min_bp p Hs Hn. rewrite parse_expr_S.
    eapply yields_bind; [apply yields_enter|]. intros ? q Hk. cbn beta in Hk.
    pose proof (keeps_reading_todo _ _ Hk).
    eapply yields_bind;
      [apply (prefix_total n); [done|by eapply keeps_reading_over|lia]|].
    intros lhs p1 [Hs1 Ht1].
    eapply yields_bind; [apply IHl; [done|lia]|]. intros r p2 [Hs2 Ht2].
    eapply yields_bind; [apply yields_leave|]. intros ? p3 Hk3. cbn beta in Hk3.
    apply yields_ret. split; [by eapply keeps_reading_over|].
    rewrite (keeps_reading_todo _ _ Hk3). lia.
  - intros min_bp lhs p Hs Hn. rewrite parse_loop_S.
    eapply yields_bind; [by apply (yields_peek p (λ t p', t = Parser.current p ∧ p' = p))|].
    intros ? ? [-> ->].
    destruct (binary_operator (Token.kind (Parser.current p))) as [[[op bp] ra]|] eqn:Hb.
    2: { apply yields_ret. split; [done|lia]. }
    destruct (bp <? min_bp)%N; [apply yields_ret; split; [done|lia]|].
    apply binary_operator_some in Hb as (Hk & _ & _).
    eapply yields_bind; [by apply yields_advance|]. intros ? q (_ & Hsq & _ & Hlt).
    rewrite Hk in Hlt. specialize (Hlt (op_token_not_eof op)).
    eapply yields_bind; [apply IHe; [done|lia]|]. intros [rhs d] p1 [Hs1 Ht1].
    eapply yields_bind; [apply yields_admit_node|]. intros depth p2 Hk2. cbn beta in Hk2.
    pose proof (keeps_reading_todo _ _ Hk2).
    eapply yields_impl; [apply IHl; [by eapply keeps_reading_over|lia]|].
    intros ? ? [? ?]. split; [done|lia].
Qed.

(** ** More fuel gives the same answer *)
Lemma prefix_approx rec1 rec2 :
  (∀ min_bp, approx (rec1 min_bp) (rec2 min_bp)) →
  approx (parse_prefix source limits rec1) (parse_prefix source limits rec2).
Proof.
  intros Hrec. unfold parse_prefix, parse_primary, parse_unit_annotation.
  pose proof (Hrec 0%N). pose proof (Hrec 3%N). pose proof (Hrec 4%N). approx.
Qed.

Lemma fuel_approx_S n :
  (∀ min_bp, approx (parse_expr source limits n min_bp) (parse_expr source limits (S n) min_bp))
  ∧ (∀ min_bp lhs, approx (parse_loop source limits n min_bp lhs)
                     (parse_loop source limits (S n) min_bp lhs)).
Proof.
  induction n as [|n [IHe IHl]]; [by split|]. split.
  - intros min_bp. rewrite (parse_expr_S n), (parse_expr_S (S n)).
    pose proof (prefix_approx _ _ IHe). approx. apply IHl.
  - intros min_bp lhs. rewrite (parse_loop_S n), (parse_loop_S (S n)). approx; [apply IHe|apply IHl].
Qed.

Lemma expr_fuel n m min_bp p r :
  n ≤ m → parse_expr source limits n min_bp p = Some r → parse_expr source limits m min_bp p = Some r.
Proof. induction 1; [done|]. intros. by apply (proj1 (fuel_approx_S _)), IHle. Qed.
Lemma loop_fuel n m min_bp lhs p r :
  n ≤ m → parse_loop source limits n min_bp lhs p = Some r →
  parse_loop source limits m min_bp lhs p = Some r.
Proof. induction 1; [done|]. intros. by apply (proj2 (fuel_approx_S _)), IHle. Qed.
Lemma prefix_fuel n m p r :
  n ≤ m → parse_prefix source limits (parse_expr source limits n) p = Some r →
  parse_prefix source limits (parse_expr source limits m) p = Some r.
Proof. intros. eapply prefix_approx; [|done]. intros ???. by apply expr_fuel. Qed.

(** ** Everything derivable is parsed *)
Definition head_kind (ks : list TokenKind.t) : TokenKind.t :=
  match ks with [] => TokenKind.Eof | k :: _ => k end.
(** What may stand after an expression of the level. *)
Definition follows (level : N) (rest : list TokenKind.t) : Prop :=
  next_operator (λ op, (left_level op ≤ level)%N) (head_kind rest)
  ∧ ∀ s, head_kind rest ≠ TokenKind.Symbol s.

Lemma remaining_head p ks : remaining p ks → Token.kind (Parser.current p) = head_kind ks.
Proof. destruct ks; [done|]. by intros [? _]. Qed.

Lemma advance_remaining p k ks :
  remaining p (k :: ks) →
  ∃ p1, advance source p = Some (Ok (Parser.current p, p1)) ∧ remaining p1 ks
    ∧ Parser.nodes p1 = Parser.nodes p ∧ Parser.recursion p1 = Parser.recursion p.
Proof.
  intros (_ & _ & Hl). unfold advance, pull. inversion Hl as [l l' Hn|l l' token ks' Hn Hl']; subst.
  - rewrite Hn. eexists. split; [done|]. done.
  - rewrite Hn. eexists. split; [done|]. split_and!; [|done|done]. cbn.
    split_and!; [done|by eapply next_not_eof|done].
Qed.

Context (Hwidths : Limits.widths limits).

Lemma admit_node_fits d span p :
  (d + 1 ≤ Limits.max_parse_depth limits)%N →
  (Parser.nodes p + 1 ≤ Limits.max_expression_nodes limits)%N →
  admit_node limits d span p = Some (Ok ((d + 1)%N,
    Parser.mk (Parser.lexer p) (Parser.current p) (Parser.nodes p + 1) (Parser.recursion p))).
Proof.
  intros Hd Hn. unfold admit_node.
  rewrite admit_one_fits by (done || apply Hwidths). by rewrite admit_one_fits by (done || apply Hwidths).
Qed.

(** A sub-parse that starts with the tokens of [e] gets to the state after them
    with [e] in hand. *)
Definition reached (p : Parser.t) (rest : list TokenKind.t) (e : Expr.t) (p' : Parser.t) : Prop :=
  remaining p' rest ∧ Parser.nodes p' = (Parser.nodes p + expr_size e)%N
  ∧ Parser.recursion p' = Parser.recursion p.
Definition fits (p : Parser.t) (f : N) (e : Expr.t) : Prop :=
  (Parser.recursion p + f ≤ Limits.max_parse_depth limits)%N
  ∧ (Parser.nodes p + expr_size e ≤ Limits.max_expression_nodes limits)%N
  ∧ (expr_height e ≤ Limits.max_parse_depth limits)%N.

Definition leads (min_bp : N) (p : Parser.t) r : Prop := ∃ n,
  (lhs ← parse_prefix source limits (parse_expr source limits n);
   parse_loop source limits n min_bp lhs) p = Some r.

Definition complete_at (level f : N) (ks : list TokenKind.t) (e : Expr.t) : Prop :=
  ∀ p rest min_bp, remaining p (ks ++ rest) → follows level rest → (min_bp ≤ level)%N →
    fits p f e →
    ∃ p', reached p rest e p' ∧
      ∀ n r, parse_loop source limits n min_bp (e, expr_height e) p' = Some r → leads min_bp p r.

(** A complete operand, parsed by its own call. *)
Lemma complete_expr level f ks e :
  complete_at level f ks e → ∀ p rest min_bp, remaining p (ks ++ rest) → follows level rest →
    (min_bp ≤ level)%N → next_operator (λ op, (op_level op < min_bp)%N) (head_kind rest) →
    fits p (f + 1) e →
    ∃ n p', parse_expr source limits n min_bp p = Some (Ok ((e, expr_height e), p'))
      ∧ reached p rest e p'.
Proof.
  intros Hc p rest min_bp Hp Hfol Hmin Hstop (Hf & Hn & Hh).
  set (p0 := Parser.mk (Parser.lexer p) (Parser.current p) (Parser.nodes p) (Parser.recursion p + 1)).
  destruct (Hc p0 rest min_bp) as (p' & (Hr & Hn' & Hc') & Hlead); [|done|done| |].
  { by eapply remaining_eq; [..|exact Hp]. }
  { split_and!; cbn; lia || done. }
  destruct (Hlead 1 (Ok ((e, expr_height e), p'))) as [n Hlead'].
  { rewrite parse_loop_S. unfold mbind, action_bind; cbn.
    destruct (binary_operator _) as [[[op bp] ra]|] eqn:Hb; [|done].
    apply binary_operator_some in Hb as (Hk & -> & _). rewrite (remaining_head _ _ Hr) in Hk.
    apply Hstop, N.ltb_lt in Hk. by rewrite Hk. }
  exists (S n), (Parser.mk (Parser.lexer p') (Parser.current p') (Parser.nodes p') (Parser.recursion p)).
  split; [|split_and!; [by eapply remaining_eq; [..|exact Hr]|done|done]].
  apply bind_ok in Hlead' as (lhs & p1 & Hprefix & Hloop).
  rewrite parse_expr_S. unfold mbind at 1, action_bind at 1. unfold enter.
  rewrite admit_one_fits by (apply Hwidths || lia).
  rewrite (bind_some _ _ _ _ _ Hprefix), (bind_some _ _ _ _ _ Hloop).
  unfold mbind, action_bind, leave, mret, action_ret. rewrite Hc'. cbn.
  do 4 f_equal. lia.
Qed.

(** A prefix parsed alone is all [complete_at] asks for. *)
Lemma prefix_complete level f ks e :
  (∀ p rest, remaining p (ks ++ rest) → follows level rest → fits p f e →
   ∃ n p', parse_prefix source limits (parse_expr source limits n) p
             = Some (Ok ((e, expr_height e), p')) ∧ reached p rest e p') →
  complete_at level f ks e.
Proof.
  intros H p rest min_bp Hp Hfol _ Hfits. destruct (H p rest Hp Hfol Hfits) as (n & p' & Hn & Hr).
  exists p'. split; [done|]. intros m r Hloop. exists (n `max` m).
  rewrite (bind_some _ _ _ _ _ (prefix_fuel _ (n `max` m) _ _ (Nat.le_max_l _ _) Hn)).
  eapply loop_fuel; [|exact Hloop]. lia.
Qed.

Lemma complete_number v : complete_at 5 0 [TokenKind.Number v] (Expr.Literal v).
Proof.
  apply prefix_complete. intros p rest Hp [_ Hsym] (_ & Hn & Hh). cbn in Hn, Hh, Hp.
  destruct (advance_remaining _ _ _ Hp) as (p1 & Ha & Hr & Hn1 & Hc1).
  destruct Hp as [Hk _].
  eexists 0, _. split.
  - unfold parse_prefix. rewrite (bind_some peek _ p _ _ eq_refl), Hk.
    unfold parse_primary. rewrite (bind_some _ _ _ _ _ Ha), Hk.
    rewrite (bind_some _ _ _ _ _ (admit_node_fits 0 _ p1 ltac:(lia) ltac:(lia))).
    unfold parse_unit_annotation. rewrite (bind_some peek _ _ _ _ eq_refl). cbn [Parser.current].
    rewrite (remaining_head _ _ Hr). destruct (head_kind rest) eqn:Hh1; try done.
    by edestruct Hsym.
  - split_and!; cbn; [by eapply remaining_eq; [..|exact Hr]|lia|done].
Qed.

Lemma complete_symbol s : complete_at 5 0 [TokenKind.Symbol s] (Expr.Symbol s).
Proof.
  apply prefix_complete. intros p rest Hp _ (_ & Hn & Hh). cbn in Hn, Hh, Hp.
  destruct (advance_remaining _ _ _ Hp) as (p1 & Ha & Hr & Hn1 & Hc1).
  destruct Hp as [Hk _].
  eexists 0, _. split.
  - unfold parse_prefix. rewrite (bind_some peek _ p _ _ eq_refl), Hk.
    unfold parse_primary. rewrite (bind_some _ _ _ _ _ Ha), Hk.
    by rewrite (bind_some _ _ _ _ _ (admit_node_fits 0 _ p1 ltac:(lia) ltac:(lia))).
  - split_and!; cbn; [by eapply remaining_eq; [..|exact Hr]|lia|done].
Qed.

Lemma complete_group f ks e :
  complete_at 0 f ks e → complete_at 5 (f + 1) (TokenKind.LParen :: ks ++ [TokenKind.RParen]) e.
Proof.
  intros Hc. apply prefix_complete. intros p rest Hp _ (Hf & Hn & Hh).
  cbn [app] in Hp. rewrite <- app_assoc in Hp.
  destruct (advance_remaining _ _ _ Hp) as (p1 & Ha & Hr & Hn1 & Hc1).
  destruct (complete_expr _ _ _ _ Hc p1 (TokenKind.RParen :: rest) 0)
    as (n & p2 & He & Hr2 & Hn2 & Hc2); [done| |done| |split_and!; lia|].
  { split; [|done]. by intros []. }
  { by intros []. }
  destruct (advance_remaining _ _ _ Hr2) as (p3 & Ha3 & Hr3 & Hn3 & Hc3).
  exists n, p3. split; [|split_and!; [done|congruence|congruence]].
  destruct Hp as [Hk _]. destruct Hr2 as [Hk2 _].
  unfold parse_prefix. rewrite (bind_some peek _ p _ _ eq_refl), Hk.
  unfold parse_primary. rewrite (bind_some _ _ _ _ _ Ha), Hk, (bind_some _ _ _ _ _ He).
  rewrite (bind_some peek _ p2 _ _ eq_refl), Hk2. by rewrite (bind_some _ _ _ _ _ Ha3).
Qed.

Lemma complete_annotation f v s ks e :
  complete_at 4 f (TokenKind.Symbol s :: ks) e →
  complete_at 4 (f + 1) (TokenKind.Number v :: TokenKind.Symbol s :: ks)
    (Expr.Binary BinaryOp.Mul (Expr.Literal v) e).
Proof.
  intros Hc. apply prefix_complete. intros p rest Hp Hfol (Hf & Hn & Hh). cbn in Hn, Hh.
  destruct (advance_remaining _ _ _ Hp) as (p1 & Ha & Hr & Hn1 & Hc1).
  destruct Hp as [Hk _].
  set (p2 := Parser.mk (Parser.lexer p1) (Parser.current p1) (Parser.nodes p1 + 1) (Parser.recursion p1)).
  destruct (complete_expr _ _ _ _ Hc p2 rest 4)
    as (n & p3 & He & Hr3 & Hn3 & Hc3); [done|done|done| |split_and!; cbn; lia|].
  { eapply next_operator_impl, Hfol. intros []; cbn; lia. }
  cbn in Hn3, Hc3. eexists n, _. split.
  - unfold parse_prefix. rewrite (bind_some peek _ p _ _ eq_refl), Hk.
    unfold parse_primary. rewrite (bind_some _ _ _ _ _ Ha), Hk.
    rewrite (bind_some _ _ _ _ _ (admit_node_fits 0 _ p1 ltac:(lia) ltac:(lia))).
    unfold parse_unit_annotation. rewrite (bind_some peek _ _ _ _ eq_refl). cbn [Parser.current].
    rewrite (remaining_head _ _ Hr). cbn [head_kind app].
    fold p2. rewrite (bind_some _ _ _ _ _ He).
    rewrite (bind_some _ _ _ _ _ (admit_node_fits (N.max (0 + 1) (expr_height e)) _ p3 ltac:(lia) ltac:(lia))).
    unfold mret, action_ret. do 4 f_equal. cbn. lia.
  - split_and!; cbn; [by eapply remaining_eq; [..|exact Hr3]|lia|lia].
Qed.

Lemma complete_neg f ks e :
  complete_at 3 f ks e → complete_at 4 (f + 1) (TokenKind.Minus :: ks) (Expr.Neg e).
Proof.
  intros Hc. apply prefix_complete. intros p rest Hp Hfol (Hf & Hn & Hh). cbn in Hn, Hh.
  destruct (advance_remaining _ _ _ Hp) as (p1 & Ha & Hr & Hn1 & Hc1).
  destruct Hp as [Hk _].
  assert (next_operator (λ op, (left_level op ≤ 3)%N) (head_kind rest)) as Hop.
  { eapply next_operator_impl, Hfol. intros []; cbn; lia. }
  destruct (complete_expr _ _ _ _ Hc p1 rest 3)
    as (n & p3 & He & Hr3 & Hn3 & Hc3); [done|by split; [|apply Hfol]|done| |split_and!; lia|].
  { eapply next_operator_impl, Hop. intros []; cbn; lia. }
  eexists n, _. split.
  - unfold parse_prefix. rewrite (bind_some peek _ p _ _ eq_refl), Hk.
    rewrite (bind_some _ _ _ _ _ Ha), (bind_some _ _ _ _ _ He).
    rewrite (bind_some _ _ _ _ _ (admit_node_fits (expr_height e) _ p3 ltac:(lia) ltac:(lia))).
    unfold mret, action_ret. do 4 f_equal. cbn. lia.
  - split_and!; cbn; [by eapply remaining_eq; [..|exact Hr3]|lia|lia].
Qed.

Lemma complete_binary op f1 f2 ks1 ks2 e1 e2 :
  complete_at (left_level op) f1 ks1 e1 → complete_at (right_level op) f2 ks2 e2 →
  complete_at (op_level op) (N.max f1 (f2 + 1)) (ks1 ++ op_token op :: ks2) (Expr.Binary op e1 e2).
Proof.
  intros Hc1 Hc2 p rest min_bp Hp Hfol Hmin (Hf & Hn & Hh). cbn in Hn, Hh.
  rewrite <- app_assoc in Hp. cbn [app] in Hp.
  destruct (Hc1 p (op_token op :: ks2 ++ rest) min_bp)
    as (p1 & (Hr1 & Hn1 & Hcc1) & Hlead); [done| | |split_and!; lia|].
  { split; [|by destruct op]. intros op'. cbn. by destruct op, op'. }
  { pose proof (op_level_left op). lia. }
  destruct (advance_remaining _ _ _ Hr1) as (p2 & Ha & Hr2 & Hn2 & Hcc2).
  destruct (complete_expr _ _ _ _ Hc2 p2 rest (right_level op))
    as (n & p3 & He & Hr3 & Hn3 & Hcc3); [done| |done| |split_and!; lia|].
  { split; [|apply Hfol]. eapply next_operator_impl, Hfol. intros op'. destruct op, op'; cbn; lia. }
  { eapply next_operator_impl, Hfol. intros op'. apply left_below_right. }
  eexists. split.
  2: { intros m r Hloop. apply (Hlead (S (n `max` m))). rewrite parse_loop_S.
    rewrite (bind_some peek _ p1 _ _ eq_refl), (remaining_head _ _ Hr1). cbn [head_kind].
    destruct (binary_operator_token op) as (ra & -> & ->).
    rewrite (proj2 (N.ltb_ge _ _) Hmin), (bind_some _ _ _ _ _ Ha).
    rewrite (bind_some _ _ _ _ _ (expr_fuel _ (n `max` m) _ _ _ (Nat.le_max_l _ _) He)).
    rewrite (bind_some _ _ _ _ _ (admit_node_fits (N.max (expr_height e1) (expr_height e2)) _ p3 ltac:(lia) ltac:(lia))).
    eapply loop_fuel; [apply Nat.le_max_r|]. cbn [fst snd].
    rewrite N.add_comm. exact Hloop. }
  split_and!; cbn; [by eapply remaining_eq; [..|exact Hr3]|lia|lia].
Qed.

Lemma derives_complete level f ks e : derives level f ks e → complete_at level f ks e.
Proof.
  induction 1.
  - apply complete_number.
  - apply complete_symbol.
  - by apply complete_group.
  - by apply complete_annotation.
  - by apply complete_neg.
  - by apply complete_binary.
  - intros p rest min_bp Hp [Hop Hsym] Hmin. apply IHderives; [done| |lia].
    split; [|done]. eapply next_operator_impl, Hop. intros op. cbn beta. lia.
Qed.
End parser_lemmas.

(** ** Whole sources *)
Lemma next_rest_some l r l' :
  Lexer.next l = (r, l') → Lexer.source l' = Lexer.source l.
Proof.
  unfold Lexer.next. destruct (Lexer.rest _); [by intros [= _ <-]|].
  destruct (is_ascii_digit _); [by intros [= _ <-]|].
  destruct (_ || _); [by intros [= _ <-]|].
  unfold Lexer.lex_operator. destruct (Lexer.operator_kind _); by intros [= _ <-].
Qed.

Lemma new_parser_ok bs p :
  new_parser bs = Ok p →
  over_source bs p ∧ todo bs p ≤ length bs + 1 ∧ Parser.nodes p = 0%N
  ∧ Parser.recursion p = 0%N ∧ ∀ ks, remaining p ks → lexes (Lexer.new bs) ks.
Proof.
  unfold new_parser, mbind, result_bind. destruct (pull bs (Lexer.new bs)) as [[token l]|e] eqn:Hp; [|done].
  intros [= <-]. split_and!; try done.
  - unfold over_source. cbn. revert Hp. unfold pull.
    destruct (Lexer.next (Lexer.new bs)) as [[[tok|e]|] l'] eqn:Hn; [|done|];
      intros [= _ <-]; by apply next_rest_some in Hn.
  - unfold todo. case_decide; lia.
  - by apply pull_ok with (source := bs).
Qed.

Lemma new_parser_complete bs ks :
  lexes (Lexer.new bs) ks → ∃ p, new_parser bs = Ok p ∧ remaining p ks.
Proof.
  unfold new_parser, pull, mbind, result_bind.
  inversion 1 as [l l' Hn|l l' token ks' Hn Hl]; subst; rewrite Hn; eexists; (split; [done|]); [done|].
  cbn. split_and!; [done|by eapply next_not_eof|done].
Qed.

(** For every source and limits the parser returns a compiled expression or
    an error: the descent and the operator loop end on every input, within the
    fuel [length + 2]. *)
Theorem parse_total source limits : ∃ r, parse_bounded source limits = Some r.
Proof.
  unfold parse_bounded. destruct (ensure _ _ _) as [u|e]; [|by eexists].
  destruct (new_parser (bytes_of source)) as [p|e] eqn:Hp; [|by eexists].
  apply new_parser_ok in Hp as (Hs & Ht & _).
  destruct (proj1 (loop_and_expr_total (bytes_of source) limits (parse_fuel (bytes_of source))) 0%N p)
    as (r & Hr & _); [done|unfold parse_fuel; lia|].
  rewrite Hr. destruct r as [[[ast depth] p']|e]; by eexists.
Qed.

(** What [parse_exact] says a compiled expression is. *)
Definition compiled (source : string) (limits : Limits.t) (c : CompiledExpression.t) : Prop :=
  (lenN (bytes_of source) ≤ Limits.max_expression_bytes limits)%N
  ∧ CompiledExpression.source c = source
  ∧ CompiledExpression.nodes c = expr_size (CompiledExpression.ast c)
  ∧ CompiledExpression.depth c = expr_height (CompiledExpression.ast c)
  ∧ (CompiledExpression.nodes c ≤ Limits.max_expression_nodes limits)%N
  ∧ (CompiledExpression.depth c ≤ Limits.max_parse_depth limits)%N
  ∧ ∃ nesting ks, lexes (Lexer.new (bytes_of source)) ks
      ∧ derives 0 nesting ks (CompiledExpression.ast c)
      ∧ (nesting + 1 ≤ Limits.max_parse_depth limits)%N.

Lemma parse_compiled source limits c :
  parse_bounded source limits = Some (Ok c) → compiled source limits c.
Proof.
  unfold parse_bounded. destruct (ensure _ _ _) as [[]|e] eqn:He; [|done].
  apply ensure_ok in He.
  destruct (new_parser _) as [p|e] eqn:Hp; [|done].
  apply new_parser_ok in Hp as (_ & _ & Hn0 & Hc0 & Hl).
  destruct (parse_expr _ _ _ _ _) as [[[[ast depth] p']|e]|] eqn:Hx; [|done|done].
  destruct (Token.kind (Parser.current p')) eqn:Hk; try done. intros [= <-].
  apply loop_and_expr_sound in Hx
    as [[(f & ks & Hd & _ & Hr & Hf) Hu Hn Hc Hnb Hdb] _]; [|lia].
  cbn in *. split_and!; try done; [cbn; lia|]. exists f, ks.
  split_and!; [|done|lia]. apply Hl. rewrite <- (app_nil_r ks). by apply Hr.
Qed.

Lemma compiled_parse source limits c :
  Limits.widths limits → compiled source limits c → parse_bounded source limits = Some (Ok c).
Proof.
  intros Hwidths (Hlen & Hs & Hn & Hd & Hnb & Hdb & f & ks & Hl & Hder & Hf).
  unfold parse_bounded. rewrite (proj2 (ensure_ok _ _ _) Hlen).
  destruct (new_parser_complete _ _ Hl) as (p & Hp & Hr).
  pose proof (new_parser_ok _ _ Hp) as (Hso & Ht & Hn0 & Hc0 & _). rewrite Hp.
  edestruct (complete_expr (bytes_of source) limits Hwidths 0 f ks (CompiledExpression.ast c))
    as (n & p' & Hx & Hr' & Hn' & Hc'); [by apply derives_complete|by rewrite app_nil_r|..].
  { split; [|done]. by intros []. }
  { done. }
  { by intros []. }
  { split_and!; lia. }
  destruct (proj1 (loop_and_expr_total (bytes_of source) limits (parse_fuel (bytes_of source))) 0%N p)
    as (r & Hfuel & _); [done|unfold parse_fuel; lia|].
  assert (r = Ok (CompiledExpression.ast c, expr_height (CompiledExpression.ast c), p')) as ->.
  { pose proof (expr_fuel _ _ _ (n `max` parse_fuel (bytes_of source)) _ _ _ (Nat.le_max_l _ _) Hx).
    pose proof (expr_fuel _ _ _ (n `max` parse_fuel (bytes_of source)) _ _ _ (Nat.le_max_r _ _) Hfuel).
    congruence. }
  rewrite Hfuel, (remaining_head _ _ Hr'). cbn [head_kind]. rewrite Hn', Hn0, <- Hd, N.add_0_l, <- Hn.
  destruct c; cbn in *. by subst.
Qed.

(** C31: The parser accepts exactly the grammar. A source is parsed to [c]
    if and only if it is within the byte limit, its tokens derive [c]'s tree at
    the lowest level of the grammar, and the tree's size, its height and the
    nesting of the derivation are within the limits; the node count and depth
    [c] records are the tree's own. *)
Theorem parse_exact source limits c (Hwidths : Limits.widths limits) :
  parse_bounded source limits = Some (Ok c) ↔
  (lenN (bytes_of source) ≤ Limits.max_expression_bytes limits)%N
  ∧ CompiledExpression.source c = source
  ∧ CompiledExpression.nodes c = expr_size (CompiledExpression.ast c)
  ∧ CompiledExpression.depth c = expr_height (CompiledExpression.ast c)
  ∧ (CompiledExpression.nodes c ≤ Limits.max_expression_nodes limits)%N
  ∧ (CompiledExpression.depth c ≤ Limits.max_parse_depth limits)%N
  ∧ ∃ nesting ks, lexes (Lexer.new (bytes_of source)) ks
      ∧ derives 0 nesting ks (CompiledExpression.ast c)
      ∧ (nesting + 1 ≤ Limits.max_parse_depth limits)%N.
Proof. split; [apply parse_compiled|by apply compiled_parse]. Qed.

(** [2.7 g / cm^3], parsed. *)
Definition density : CompiledExpression.t :=
  CompiledExpression.mk "2.7 g / cm^3"
    (Expr.Binary BinaryOp.Div
      (Expr.Binary BinaryOp.Mul (Expr.Literal (F64.of_decimal 27 (-1))) (Expr.Symbol "g"))
      (Expr.Binary BinaryOp.Pow (Expr.Symbol "cm") (Expr.Literal (F64.of_decimal 3 0)))) 7 3.

Lemma default_widths : Limits.widths Limits.DEFAULT.
Proof. split; apply N.leb_le; reflexivity. Qed.

Lemma parse_exact_witness :
  parse "2.7 g / cm^3" = Some (Ok density)
  ∧ ∃ nesting ks, lexes (Lexer.new (bytes_of "2.7 g / cm^3")) ks
      ∧ derives 0 nesting ks (CompiledExpression.ast density).
Proof.
  assert (parse "2.7 g / cm^3" = Some (Ok density)) as Hp by (vm_compute; reflexivity).
  split; [exact Hp|].
  destruct (proj1 (parse_exact "2.7 g / cm^3" Limits.DEFAULT density default_widths) Hp)
    as (_ & _ & _ & _ & _ & _ & nesting & ks & Hl & Hd & _).
  exists nesting, ks. split; [exact Hl|exact Hd].
Defined.
