(* ===== verification/Namespace.v ===== *)
(** * Names and namespaces (orishu-variables, namespace.rs)

    Validated name segments, dotted namespace paths, and the qualified names the
    variable system keys its index by. The Unicode classes of [char] are the
    interface [Unicode], of which only the ASCII part is used. *)

From Stdlib Require Import Ascii.
From stdpp Require Import base gmap strings list.
From S2P Require Import Prelude Identity.

(** [char::is_alphabetic] and [char::is_alphanumeric], by scalar value. *)
Class Unicode : Type := {
  is_alphabetic : N → bool;
  is_alphanumeric : N → bool
}.

Definition ascii_alphabetic (c : N) : bool :=
  ((65 <=? c)%N && (c <=? 90)%N) || ((97 <=? c)%N && (c <=? 122)%N).
Definition ascii_digit (c : N) : bool := (48 <=? c)%N && (c <=? 57)%N.

(** What their documentation fixes: ASCII text is classified as ASCII. *)
Class UnicodeLaws `{Unicode} : Prop := {
  ascii_is_alphabetic c : (c < 128)%N → is_alphabetic c = ascii_alphabetic c;
  ascii_is_alphanumeric c :
    (c < 128)%N → is_alphanumeric c = ascii_alphabetic c || ascii_digit c
}.

Module InvalidName.
Inductive t : Type :=
  | Empty | StartsWithDigit (value : string) | InvalidCharacter (value : string) (c : N).
#[global] Instance InvalidName_eq_dec : EqDecision t.
Proof. solve_decision. Defined.
End InvalidName.

Definition chars (value : string) : list N := (char_indices value).*2.

Module Name.
Record t : Type := mk { as_str : string }.
#[global] Instance Name_eq_dec : EqDecision t.
Proof. solve_decision. Defined.
End Name.

Module Namespace.
Record t : Type := new { as_str : string }.
#[global] Instance Namespace_eq_dec : EqDecision t.
Proof. solve_decision. Defined.
#[global] Instance Namespace_countable : Countable t.
Proof. refine (inj_countable' as_str new _); by intros []. Defined.
#[global] Instance Namespace_ord : Ord t := λ a b, cmp (as_str a) (as_str b).
#[global] Instance Namespace_ord_laws : OrdLaws t.
Proof. eapply (ord_laws_inj as_str); [by intros [] []; simpl; intros ->|done]. Qed.
Definition default : t := new "".
Definition is_root (n : t) : bool := bool_decide (as_str n = "").
End Namespace.

Module FQName.
Record t : Type := new { namespace : Namespace.t; name : Name.t }.
#[global] Instance FQName_eq_dec : EqDecision t.
Proof. solve_decision. Defined.
(** [Display]. *)
Definition to_string (q : t) : string :=
  if Namespace.is_root (namespace q) then Name.as_str (name q)
  else Namespace.as_str (namespace q) +:+ "." +:+ Name.as_str (name q).
End FQName.
Definition qualified (namespace : Namespace.t) (name : Name.t) : FQName.t :=
  FQName.new namespace name.

Section names.
Context `{Unicode}.

Definition validate_name (value : string) : result InvalidName.t unit :=
  match chars value with
  | [] => Err InvalidName.Empty
  | first :: rest =>
    if ascii_digit first then Err (InvalidName.StartsWithDigit value)
    else if negb (is_alphabetic first || (first =? 95)%N) then
      Err (InvalidName.InvalidCharacter value first)
    else try_for_each (λ c,
      if negb (is_alphanumeric c || (c =? 95)%N) then Err (InvalidName.InvalidCharacter value c)
      else Ok ()) rest
  end.

Definition name_new (value : string) : result InvalidName.t Name.t :=
  _ ← validate_name value; Ok (Name.mk value).

(** [str::rsplit_once] at a byte: the text before and after its last
    occurrence. *)
Fixpoint rsplit_once (c : ascii) (bs : bytes) : option (bytes * bytes) :=
  match bs with
  | [] => None
  | b :: bs =>
    match rsplit_once c bs with
    | Some (before, after) => Some (b :: before, after)
    | None => if decide (b = c) then Some ([], bs) else None
    end
  end.

Definition fqname_parse (raw : string) : result InvalidName.t FQName.t :=
  match rsplit_once "."%char (bytes_of raw) with
  | Some (namespace, name) =>
    name ← name_new (String.string_of_list_ascii name);
    Ok (FQName.new (Namespace.new (String.string_of_list_ascii namespace)) name)
  | None => name ← name_new raw; Ok (FQName.new Namespace.default name)
  end.
End names.

(** [IntoName]: either a validated name or text to validate. *)
Class IntoName (A : Type) `{Unicode} : Type := into_name : A → result InvalidName.t Name.t.
#[export] Instance name_into_name `{Unicode} : IntoName Name.t := Ok.
#[export] Instance string_into_name `{Unicode} : IntoName string := name_new.

(** ** UTF-8 text *)

(** The byte sequences of [str]: lead bytes followed by their continuation
    bytes. *)
Fixpoint utf8_from (need : nat) (bs : bytes) : bool :=
  match bs with
  | [] => bool_decide (need = 0)
  | b :: bs =>
    let c := N_of_ascii b in
    match need with
    | O =>
      if (c <? 128)%N then utf8_from 0 bs
      else if (c <? 194)%N then false
      else if (c <? 224)%N then utf8_from 1 bs
      else if (c <? 240)%N then utf8_from 2 bs
      else if (c <? 245)%N then utf8_from 3 bs
      else false
    | S need => (128 <=? c)%N && (c <? 192)%N && utf8_from need bs
    end
  end.
Definition utf8 (value : string) : Prop := utf8_from 0 (bytes_of value) = true.

(** An ASCII byte of UTF-8 text is a character of it. *)
Lemma ascii_byte_decoded b bs : (N_of_ascii b < 128)%N → b ∈ bs →
  ∀ need start off acc, utf8_from need bs = true →
  N_of_ascii b ∈ (decode_chars start off (N.of_nat need) acc bs).*2.
Proof.
  intros Hb Hin. induction bs as [|b' bs IH]; [by apply elem_of_nil in Hin|].
  intros need start off acc Hu. cbn in Hu. set (c := N_of_ascii b') in *.
  assert (b = b' → c = N_of_ascii b) as Hc by (by intros ->).
  apply elem_of_cons in Hin. cbn [decode_chars]. fold c.
  destruct need as [|need].
  - cbn [N.of_nat N.eqb]. destruct (c <? 128)%N eqn:H128.
    + cbn. destruct Hin as [Heq|Hin]; [rewrite (Hc Heq); apply elem_of_cons; by left|].
      apply elem_of_cons; right. by apply (IH Hin 0).
    + destruct Hin as [Heq|Hin]; [apply N.ltb_ge in H128; rewrite (Hc Heq) in H128; lia|].
      destruct (c <? 194)%N; [done|].
      destruct (c <? 224)%N; [by apply (IH Hin 1)|].
      destruct (c <? 240)%N; [by apply (IH Hin 2)|].
      destruct (c <? 245)%N; [by apply (IH Hin 3)|done].
  - apply andb_true_iff in Hu as [Hc2 Hu]. apply andb_true_iff in Hc2 as [H128 _].
    apply N.leb_le in H128.
    destruct Hin as [Heq|Hin]; [rewrite (Hc Heq) in H128; lia|].
    rewrite (proj2 (N.eqb_neq _ _)) by lia.
    destruct need as [|need].
    + cbn. apply elem_of_cons; right. by apply (IH Hin 0).
    + rewrite (proj2 (N.eqb_neq _ _)) by lia.
      replace (N.pred (N.of_nat (S (S need)))) with (N.of_nat (S need)) by lia.
      by apply IH.
Qed.

(** ** Names *)
Section name_lemmas.
Context `{Hlaws : UnicodeLaws}.

Definition name_start (c : N) : bool := negb (ascii_digit c) && (is_alphabetic c || (c =? 95)%N).
Definition name_continue (c : N) : bool := is_alphanumeric c || (c =? 95)%N.

Lemma validate_name_ok value :
  validate_name value = Ok () ↔
  ∃ first rest, chars value = first :: rest ∧ name_start first = true
    ∧ Forall (λ c, name_continue c = true) rest.
Proof.
  unfold validate_name, name_start, name_continue.
  destruct (chars value) as [|first rest]; [split; [done|by intros (?&?&?&_)]|].
  destruct (ascii_digit first) eqn:Hd.
  { split; [done|]. intros (f & r & [= <- <-] & Hf & _). by rewrite Hd in Hf. }
  destruct (is_alphabetic first || (first =? 95)%N) eqn:Hf.
  2: { split; [done|]. intros (f & r & [= <- <-] & Hf' & _). by rewrite Hd, Hf in Hf'. }
  cbn [negb]. rewrite try_for_each_ok. split.
  - intros Hall. exists first, rest. rewrite Hd, Hf. split_and!; [done|done|].
    eapply Forall_impl; [exact Hall|]. intros c Hc. revert Hc. cbn. by destruct (is_alphanumeric c || _).
  - intros (f & r & [= <- <-] & _ & Hall).
    eapply Forall_impl; [exact Hall|]. intros c Hc. cbn in *. by rewrite Hc.
Qed.

Lemma name_new_ok value n :
  name_new value = Ok n ↔ n = Name.mk value ∧ validate_name value = Ok ().
Proof.
  unfold name_new, mbind, result_bind, mret.
  destruct (validate_name value) as [[]|e]; [|split; [done|by intros [_ ?]]].
  split; [by intros [= <-]|by intros [-> _]].
Qed.

(** A name of UTF-8 text has no separator in it. *)
Definition undotted (n : Name.t) : Prop := ("."%char : ascii) ∉ bytes_of (Name.as_str n).

Lemma name_undotted value n : utf8 value → name_new value = Ok n → undotted n.
Proof.
  intros Hu [-> Hv]%name_new_ok Hdot. apply validate_name_ok in Hv as (first & rest & Hc & Hf & Hr).
  assert (46%N ∈ chars value) as Hin.
  { apply (ascii_byte_decoded "."%char (bytes_of value) eq_refl Hdot 0 0 0 0 Hu). }
  rewrite Hc in Hin. apply elem_of_cons in Hin as [<-|Hin].
  - unfold name_start in Hf. by rewrite ascii_is_alphabetic in Hf by done.
  - rewrite Forall_forall in Hr. specialize (Hr _ Hin). unfold name_continue in Hr.
    by rewrite ascii_is_alphanumeric in Hr by done.
Qed.
End name_lemmas.

(** ** Qualified names and their text *)
Lemma rsplit_once_none c bs : c ∉ bs → rsplit_once c bs = None.
Proof.
  induction bs as [|b bs IH]; [done|]. rewrite not_elem_of_cons. intros [Hb Hbs]. cbn.
  rewrite IH by done. by rewrite decide_False by congruence.
Qed.
Lemma rsplit_once_app c before after :
  c ∉ after → rsplit_once c (before ++ c :: after) = Some (before, after).
Proof.
  intros Ha. induction before as [|b before IH]; cbn.
  - rewrite rsplit_once_none by done. by rewrite decide_True.
  - by rewrite IH.
Qed.
Lemma rsplit_once_some c bs before after :
  rsplit_once c bs = Some (before, after) → bs = before ++ c :: after ∧ c ∉ after.
Proof.
  revert before after. induction bs as [|b bs IH]; [done|]. intros before after. cbn.
  destruct (rsplit_once c bs) as [[be af]|] eqn:Hr.
  - intros [= <- <-]. destruct (IH _ _ eq_refl) as [-> ?]. done.
  - case_decide as Hb; [|done]. intros [= <- <-]. split; [by rewrite Hb|].
    intros Hin. clear IH Hb. induction bs as [|b' bs IH]; [by apply elem_of_nil in Hin|].
    cbn in Hr. destruct (rsplit_once c bs) as [[??]|]; [done|].
    case_decide; [done|]. apply elem_of_cons in Hin as [->|Hin]; [done|]. by apply IH.
Qed.

Lemma string_of_bytes_of s : String.string_of_list_ascii (bytes_of s) = s.
Proof. apply String.string_of_list_ascii_of_string. Qed.
Lemma bytes_of_string_of bs : bytes_of (String.string_of_list_ascii bs) = bs.
Proof. apply String.list_ascii_of_string_of_list_ascii. Qed.

Lemma to_string_bytes q :
  bytes_of (FQName.to_string q) =
    if Namespace.is_root (FQName.namespace q) then bytes_of (Name.as_str (FQName.name q))
    else bytes_of (Namespace.as_str (FQName.namespace q)) ++ "."%char
         :: bytes_of (Name.as_str (FQName.name q)).
Proof.
  unfold FQName.to_string. destruct (Namespace.is_root _); [done|]. by rewrite !bytes_of_app.
Qed.

Lemma dot_in (before after : bytes) : ¬ (("."%char : ascii) ∉ before ++ "."%char :: after).
Proof. intros Hn. apply Hn, elem_of_app. right. apply elem_of_cons. by left. Qed.

(** The text of a qualified name identifies it. *)
Lemma to_string_inj q1 q2 :
  undotted (FQName.name q1) → undotted (FQName.name q2) →
  FQName.to_string q1 = FQName.to_string q2 → q1 = q2.
Proof.
  destruct q1 as [[ns1] [n1]], q2 as [[ns2] [n2]]. unfold undotted; cbn. intros H1 H2 Heq.
  apply (f_equal bytes_of) in Heq. rewrite !to_string_bytes in Heq. cbn in Heq.
  unfold Namespace.is_root in Heq. cbn in Heq.
  repeat case_bool_decide; subst.
  - by apply (inj bytes_of) in Heq as ->.
  - rewrite Heq in H1. by destruct (dot_in _ _ H1).
  - rewrite <- Heq in H2. by destruct (dot_in _ _ H2).
  - apply (f_equal (rsplit_once "."%char)) in Heq. rewrite !rsplit_once_app in Heq by done.
    injection Heq as Hns Hn. by apply (inj bytes_of) in Hns as ->, Hn as ->.
Qed.

(** Qualified names and their text. Parsing the text of a name built from a
    validated segment gives the name back, for every namespace; a text that
    parses is the text of the result, or that text after a leading dot. The
    second case exists: a leading dot is dropped, so parsing and printing are
    inverse to each other only on texts that do not start with one. *)
Theorem fqname_roundtrip `{Hlaws : UnicodeLaws} :
  (∀ namespace value name, utf8 value → name_new value = Ok name →
     fqname_parse (FQName.to_string (qualified namespace name)) = Ok (qualified namespace name))
  ∧ (∀ raw q, fqname_parse raw = Ok q →
     raw = FQName.to_string q
     ∨ raw = "." +:+ FQName.to_string q ∧ Namespace.is_root (FQName.namespace q) = true)
  ∧ (∀ value name, utf8 value → name_new value = Ok name →
     fqname_parse ("." +:+ value) = Ok (qualified Namespace.default name)).
Proof.
  split_and!.
  - intros [ns] value name Hu Hn. pose proof (name_undotted value name Hu Hn) as Hdot.
    pose proof (proj1 (name_new_ok _ _) Hn) as [-> _].
    unfold fqname_parse. rewrite to_string_bytes. unfold qualified, Namespace.is_root; cbn.
    case_bool_decide as Hroot.
    + rewrite rsplit_once_none by done. unfold FQName.to_string, Namespace.is_root; cbn.
      rewrite bool_decide_true by done. rewrite Hn. cbn. by subst.
    + rewrite rsplit_once_app by done. by rewrite !string_of_bytes_of, Hn.
  - intros raw q. unfold fqname_parse. destruct (rsplit_once _ _) as [[ns n]|] eqn:Hr.
    + apply rsplit_once_some in Hr as [Hraw _].
      unfold mbind, result_bind. destruct (name_new _) as [m|e] eqn:Hn; [|done].
      apply name_new_ok in Hn as [-> _]. intros [= <-]. cbn.
      destruct (decide (ns = [])) as [->|Hns].
      * right. split; [|done]. apply (inj bytes_of). rewrite Hraw, bytes_of_app, to_string_bytes.
        cbn. by rewrite bytes_of_string_of.
      * left. apply (inj bytes_of). rewrite Hraw, to_string_bytes. unfold Namespace.is_root; cbn.
        rewrite !bytes_of_string_of. rewrite bool_decide_false; [done|].
        intros Hs. apply Hns. rewrite <- (bytes_of_string_of ns). by rewrite Hs.
    + unfold mbind, result_bind. destruct (name_new _) as [m|e] eqn:Hn; [|done].
      apply name_new_ok in Hn as [-> _]. intros [= <-]. by left.
  - intros value name Hu Hn. pose proof (name_undotted value name Hu Hn) as Hdot.
    pose proof (proj1 (name_new_ok _ _) Hn) as [-> _].
    unfold fqname_parse. rewrite bytes_of_app.
    rewrite (rsplit_once_app "."%char [] (bytes_of value) Hdot : rsplit_once _ (bytes_of "." ++ _) = _).
    by rewrite string_of_bytes_of, Hn.
Qed.

(** An instance: the Latin-1 part of the Unicode tables. *)
Definition latin1_alphabetic (c : N) : bool :=
  ascii_alphabetic c || (c =? 170)%N || (c =? 181)%N || (c =? 186)%N
  || ((192 <=? c)%N && (c <=? 255)%N && negb (c =? 215)%N && negb (c =? 247)%N).
Definition latin1_alphanumeric (c : N) : bool :=
  latin1_alphabetic c || ascii_digit c || (c =? 178)%N || (c =? 179)%N || (c =? 185)%N
  || (c =? 188)%N || (c =? 189)%N || (c =? 190)%N.
Definition latin1 : Unicode :=
  {| is_alphabetic := latin1_alphabetic; is_alphanumeric := latin1_alphanumeric |}.
Lemma latin1_above c : (c < 128)%N → latin1_alphabetic c = ascii_alphabetic c.
Proof.
  intros Hc. unfold latin1_alphabetic. rewrite !(proj2 (N.eqb_neq c _)) by lia.
  rewrite (proj2 (N.leb_gt 192 c)) by lia. cbn. by rewrite !orb_false_r.
Qed.
Lemma latin1_laws : UnicodeLaws (H := latin1).
Proof.
  split; intros c Hc; cbn.
  - by apply latin1_above.
  - unfold latin1_alphanumeric. rewrite latin1_above by done.
    rewrite !(proj2 (N.eqb_neq c _)) by lia. by rewrite !orb_false_r.
Qed.

Lemma fqname_roundtrip_witness :
  fqname_parse (H := latin1) (FQName.to_string (qualified (Namespace.new "globals.electricity") (Name.mk "K")))
    = Ok (qualified (Namespace.new "globals.electricity") (Name.mk "K"))
  ∧ fqname_parse (H := latin1) ".a" = Ok (qualified Namespace.default (Name.mk "a")).
Proof.
  split.
  - by apply (proj1 (fqname_roundtrip (H := latin1) (Hlaws := latin1_laws)) _ "K" _).
  - by apply (proj2 (proj2 (fqname_roundtrip (H := latin1) (Hlaws := latin1_laws))) "a" _).
Defined.

(** A name of other letters is accepted, though the error type's documentation
    asks for ASCII letters. *)
Example accented_name : is_ok (name_new (H := latin1)
  (String.string_of_list_ascii (ascii_of_N <$> [195; 169]%N))) = true.
Proof. reflexivity. Qed.
