(* ===== verification/Rewrite.v ===== *)
(** * Renaming symbols in a source (orishu-variables, rewrite.rs)

    The textual rewrite, byte by byte as the code does it, slicing included; its
    agreement with the lexer; and what a rename does to the parsed tree. *)

From Stdlib Require Import Ascii ZArith.
From stdpp Require Import base gmap strings list.
From S2P Require Import Prelude Identity VarLimits Action Binary64 Quantity Expression Grammar Namespace.

(** ** The rewrite *)

(** Why a rewrite stops: a declared bound, or a slice inside a character, which
    panics. *)
Module Stop.
Inductive t : Type := Refused (error : LimitError.t) | Panicked.
#[global] Instance Stop_eq_dec : EqDecision t.
Proof. solve_decision. Defined.
End Stop.

(** [u8 as char] and its classes: the Latin-1 character of the byte. *)
Definition byte_is_alphabetic (c : ascii) : bool := latin1_alphabetic (N_of_ascii c).
Definition byte_is_alphanumeric (c : ascii) : bool := latin1_alphanumeric (N_of_ascii c).
Definition len_utf8 (c : ascii) : nat := if (N_of_ascii c <? 128)%N then 1 else 2.

(** [str::is_char_boundary] of the text that is left. *)
Definition is_char_boundary (rest : bytes) : bool :=
  match rest with
  | [] => true
  | c :: _ => negb ((128 <=? N_of_ascii c)%N && (N_of_ascii c <? 192)%N)
  end.
(** [&source[position..position + n]]. *)
Definition slice (rest : bytes) (n : nat) : option bytes :=
  if (n <=? length rest) && is_char_boundary rest && is_char_boundary (drop n rest)
  then Some (take n rest) else None.

(** How many bytes [scan_number] takes from a position. *)
Definition scan_number (rest : bytes) : nat :=
  let position := count_while is_ascii_digit rest in
  let position :=
    if head_is (is_byte 46) (drop position rest)
    then position + 1 + count_while is_ascii_digit (drop (position + 1) rest) else position in
  if head_is is_exponent_mark (drop position rest) then
    let exponent := position in
    let position := position + 1 in
    let position := if head_is is_sign (drop position rest) then position + 1 else position in
    if head_is is_ascii_digit (drop position rest)
    then position + count_while is_ascii_digit (drop position rest) else exponent
  else position.

(** How many bytes [scan_symbol] takes after the first. *)
Fixpoint scan_symbol_tail (rest : bytes) : nat :=
  match rest with
  | [] => 0
  | current :: rest =>
    let dot_continues := is_byte 46 current
      && head_is (λ next, byte_is_alphanumeric next || is_byte 95 next) rest in
    if byte_is_alphanumeric current || is_byte 95 current || dot_continues
    then S (scan_symbol_tail rest) else 0
  end.
Definition scan_symbol (rest : bytes) : nat := S (scan_symbol_tail (drop 1 rest)).

Section rewrite.
Context (renames : gmap string string) (limits : Limits.t).

Definition push (out fragment : bytes) : result Stop.t bytes :=
  match checked_add usize_max (lenN out) (lenN fragment) with
  | None => Err (Stop.Refused (LimitError.mk LimitKind.ExpressionBytes u64_max
                                (Limits.max_expression_bytes limits)))
  | Some length =>
    match ensure LimitKind.ExpressionBytes length (Limits.max_expression_bytes limits) with
    | Err e => Err (Stop.Refused e)
    | Ok _ => Ok (out ++ fragment)
    end
  end.

Definition slice_or_panic (rest : bytes) (n : nat) : result Stop.t bytes :=
  match slice rest n with Some text => Ok text | None => Err Stop.Panicked end.

(** One turn of the loop: what is appended, and how far the position moves. *)
Definition rewrite_turn (current : ascii) (rest : bytes) : result Stop.t (bytes * nat) :=
  if is_ascii_digit current then
    let n := scan_number rest in
    text ← slice_or_panic rest n; Ok (text, n)
  else if byte_is_alphabetic current || is_byte 95 current then
    let n := scan_symbol rest in
    symbol ← slice_or_panic rest n;
    Ok (match renames !! String.string_of_list_ascii symbol with
        | Some replacement => bytes_of replacement
        | None => symbol
        end, n)
  else
    let n := len_utf8 current in
    text ← slice_or_panic rest n; Ok (text, n).

(** [None] is the fuel running out. *)
Fixpoint rewrite_loop (fuel : nat) (rest out : bytes) : option (result Stop.t bytes) :=
  match rest with
  | [] => Some (Ok out)
  | current :: _ =>
    match fuel with
    | O => None
    | S fuel =>
      match rewrite_turn current rest with
      | Err e => Some (Err e)
      | Ok (fragment, n) =>
        match push out fragment with
        | Err e => Some (Err e)
        | Ok out => rewrite_loop fuel (drop n rest) out
        end
      end
    end
  end.

Definition rewrite_symbols_bounded (source : string) : option (result Stop.t string) :=
  let bs := bytes_of source in
  match ensure LimitKind.ExpressionBytes (lenN bs) (Limits.max_expression_bytes limits) with
  | Err e => Some (Err (Stop.Refused e))
  | Ok _ =>
    if bool_decide (renames = ∅) then Some (Ok source)
    else match rewrite_loop (length bs) bs [] with
         | Some (Ok out) => Some (Ok (String.string_of_list_ascii out))
         | Some (Err e) => Some (Err e)
         | None => None
         end
  end.
End rewrite.

Definition rewrite_symbols (source : string) (renames : gmap string string)
    : option (result Stop.t string) :=
  rewrite_symbols_bounded renames Limits.DEFAULT source.

Definition rewritten (source : string) (renames : gmap string string) : option string :=
  match rewrite_symbols source renames with Some (Ok out) => Some out | _ => None end.
Example rename_whole_symbols :
  rewritten "mass_of_sun + 1.989e30 * mass" {["mass" := "m0"]}
  = Some "mass_of_sun + 1.989e30 * m0".
Proof. vm_compute. reflexivity. Qed.

(** ** The scanners are the lexer's *)
Lemma scan_number_len rest : scan_number rest = Lexer.number_len rest.
Proof.
  unfold scan_number, Lexer.number_len.
  set (n := if head_is (is_byte 46) _ then _ else _). clearbody n.
  destruct (head_is is_exponent_mark (drop n rest)); [|done].
  set (k := if head_is is_sign (drop (n + 1) rest) then 1 else 0).
  assert ((if head_is is_sign (drop (n + 1) rest) then n + 1 + 1 else n + 1) = n + 1 + k) as ->
    by (subst k; destruct (head_is is_sign _); lia).
  destruct (drop (n + 1 + k) rest) as [|c bs]; [done|]. cbn [head_is count_while].
  destruct (is_ascii_digit c); [lia|done].
Qed.

Definition ascii_byte (c : ascii) : Prop := (N_of_ascii c < 128)%N.

Lemma byte_alphanumeric_ascii c : ascii_byte c → byte_is_alphanumeric c = is_ascii_alphanumeric c.
Proof.
  intros Hc. unfold byte_is_alphanumeric.
  by rewrite (ascii_is_alphanumeric (H := latin1) (UnicodeLaws := latin1_laws)).
Qed.
Lemma byte_alphabetic_ascii c : ascii_byte c → byte_is_alphabetic c = is_ascii_alphabetic c.
Proof. intros Hc. unfold byte_is_alphabetic. by rewrite latin1_above. Qed.

Lemma scan_symbol_ascii rest : Forall ascii_byte rest → scan_symbol_tail rest = Lexer.symbol_tail rest.
Proof.
  induction 1 as [|c bs Hc Hbs IH]; [done|]. cbn. rewrite byte_alphanumeric_ascii by done.
  assert (head_is (λ next, byte_is_alphanumeric next || is_byte 95 next) bs
          = head_is Lexer.continues bs) as ->.
  { destruct Hbs as [|c' bs Hc']; [done|]. cbn. by rewrite byte_alphanumeric_ascii. }
  rewrite IH. unfold Lexer.continues. done.
Qed.

(** ** The shape of a number *)
Definition digits (bs : bytes) : Prop := Forall (λ c, is_ascii_digit c = true) bs.

(** An exponent mark with its digits, at the head of a text. *)
Definition real_exponent (rest : bytes) : bool :=
  head_is is_exponent_mark rest
  && head_is is_ascii_digit (drop (if head_is is_sign (drop 1 rest) then 2 else 1) rest).

Inductive exponent_shape : bytes → Prop :=
  | exponent_none : exponent_shape []
  | exponent_plain m ds : is_exponent_mark m = true → ds ≠ [] → digits ds → exponent_shape (m :: ds)
  | exponent_signed m s ds : is_exponent_mark m = true → is_sign s = true → ds ≠ [] → digits ds →
      exponent_shape (m :: s :: ds).
Inductive fraction_shape : bytes → Prop :=
  | fraction_none : fraction_shape []
  | fraction_some dot ds : is_byte 46 dot = true → digits ds → fraction_shape (dot :: ds).

Lemma count_while_split f bs :
  Forall (λ c, f c = true) (take (count_while f bs) bs)
  ∧ head_is f (drop (count_while f bs) bs) = false ∧ count_while f bs ≤ length bs.
Proof.
  induction bs as [|c bs (IH1 & IH2 & IH3)]; [split_and!; cbn; [constructor|done|lia]|]. cbn.
  destruct (f c) eqn:Hc; cbn; [|by rewrite Hc; split_and!; [constructor|done|lia]].
  split_and!; [by constructor|done|lia].
Qed.
Lemma count_while_app f ds bs :
  Forall (λ c, f c = true) ds → head_is f bs = false → count_while f (ds ++ bs) = length ds.
Proof.
  intros Hds Hbs. induction Hds as [|c ds Hc _ IH]; cbn; [|by rewrite Hc, IH].
  destruct bs; [done|]. cbn in *. by rewrite Hbs.
Qed.

Lemma drop_cons_head {f : ascii → bool} n bs :
  head_is f (drop n bs) = true → ∃ c, f c = true ∧ drop n bs = c :: drop (n + 1) bs.
Proof.
  destruct (drop n bs) as [|c bs'] eqn:Hd; [done|]. cbn. intros Hc. exists c. split; [done|].
  by rewrite <- (drop_drop bs 1 n), Hd.
Qed.

(** The fraction and the exponent at the head of a text, as the lexer measures
    them. *)
Definition fraction_len (rest : bytes) : nat :=
  if head_is (is_byte 46) rest then 1 + count_while is_ascii_digit (drop 1 rest) else 0.
Definition exponent_len (rest : bytes) : nat :=
  if head_is is_exponent_mark rest then
    let sign := if head_is is_sign (drop 1 rest) then 1 else 0 in
    match count_while is_ascii_digit (drop (1 + sign) rest) with
    | O => 0
    | k => 1 + sign + k
    end
  else 0.

Lemma number_len_stages bs :
  Lexer.number_len bs =
    let n := count_while is_ascii_digit bs in
    let m := n + fraction_len (drop n bs) in m + exponent_len (drop m bs).
Proof.
  unfold Lexer.number_len, fraction_len, exponent_len. cbn zeta.
  set (n := count_while is_ascii_digit bs). rewrite !drop_drop.
  set (m := if head_is (is_byte 46) (drop n bs) then _ else _).
  replace (n + (if head_is (is_byte 46) (drop n bs) then _ else 0)) with m
    by (subst m; destruct (head_is _ _); lia).
  destruct (head_is is_exponent_mark (drop m bs)); [|lia].
  rewrite Nat.add_assoc. clearbody m. destruct (count_while is_ascii_digit (drop (m + 1 + _) bs)); lia.
Qed.

Lemma fraction_stage rest :
  head_is is_ascii_digit rest = false →
  ∃ f, fraction_shape f ∧ rest = f ++ drop (fraction_len rest) rest
    ∧ fraction_len rest = length f
    ∧ head_is is_ascii_digit (drop (fraction_len rest) rest) = false.
Proof.
  intros Hnd. unfold fraction_len. destruct (head_is (is_byte 46) rest) eqn:Hdot.
  2: { exists []. by split_and!; [apply fraction_none|..]. }
  destruct rest as [|dot ds]; [done|]. cbn in Hdot. cbn [drop Nat.add]. rewrite !drop_0.
  destruct (count_while_split is_ascii_digit ds) as (Hk & Hk1 & Hkl).
  exists (dot :: take (count_while is_ascii_digit ds) ds). cbn. rewrite length_take, take_drop.
  split_and!; [by constructor|done|lia|done].
Qed.

Lemma exponent_stage rest :
  head_is is_ascii_digit rest = false →
  ∃ e, exponent_shape e ∧ rest = e ++ drop (exponent_len rest) rest
    ∧ exponent_len rest = length e
    ∧ head_is is_ascii_digit (drop (exponent_len rest) rest) = false
    ∧ (e = [] → real_exponent (drop (exponent_len rest) rest) = false).
Proof.
  intros Hnd. unfold exponent_len.
  destruct (head_is is_exponent_mark rest) eqn:Hm.
  2: { exists []. rewrite drop_0. split_and!; [apply exponent_none|done|done|done|].
    intros _. unfold real_exponent. by rewrite Hm. }
  destruct rest as [|m rest]; [done|]. cbn in Hm. cbn [drop]. rewrite drop_0.
  destruct (head_is is_sign rest) eqn:Hs.
  - destruct rest as [|s ds]; [done|]. cbn [drop Nat.add]. rewrite drop_0.
    destruct (count_while_split is_ascii_digit ds) as (Hk & Hk1 & Hkl).
    destruct (count_while is_ascii_digit ds) as [|k] eqn:Hck.
    + exists []. cbn. split_and!; [apply exponent_none|done|done|done|].
      intros _. unfold real_exponent. cbn. cbn in Hs. rewrite Hs. cbn. rewrite Hm.
      by rewrite drop_0 in Hk1.
    + exists (m :: s :: take (S k) ds). cbn [drop app length Nat.add]. rewrite take_drop, length_take.
      split_and!; [|done|lia|done|done]. constructor; [done|done| |done]. by destruct ds.
  - cbn [drop Nat.add]. rewrite drop_0.
    destruct (count_while_split is_ascii_digit rest) as (Hk & Hk1 & Hkl).
    destruct (count_while is_ascii_digit rest) as [|k] eqn:Hck.
    + exists []. cbn. split_and!; [apply exponent_none|done|done|done|].
      intros _. unfold real_exponent. cbn. rewrite Hm, drop_0, Hs. by rewrite drop_0 in Hk1.
    + exists (m :: take (S k) rest). cbn [drop app length Nat.add]. rewrite take_drop, length_take.
      split_and!; [|done|lia|done|done]. constructor; [done| |done]. by destruct rest.
Qed.

(** What the lexer takes as a number. *)
Lemma number_shape bs :
  ∃ d f e, digits d ∧ fraction_shape f ∧ exponent_shape e
    ∧ bs = d ++ f ++ e ++ drop (Lexer.number_len bs) bs
    ∧ Lexer.number_len bs = length d + length f + length e
    ∧ head_is is_ascii_digit (drop (Lexer.number_len bs) bs) = false
    ∧ (e = [] → real_exponent (drop (Lexer.number_len bs) bs) = false).
Proof.
  rewrite number_len_stages. cbn zeta.
  destruct (count_while_split is_ascii_digit bs) as (Hd & Hd1 & Hdl).
  set (n := count_while is_ascii_digit bs) in *.
  destruct (fraction_stage _ Hd1) as (f & Hf & Hfd & Hfl & Hf1). rewrite drop_drop in Hfd, Hf1.
  destruct (exponent_stage _ Hf1) as (e & He & Hed & Hel & He1 & He2). rewrite !drop_drop in Hed, He1, He2.
  exists (take n bs), f, e. split_and!; try done.
  - by rewrite <- Hed, <- Hfd, take_drop.
  - rewrite length_take, Hel, Hfl. lia.
Qed.

Lemma is_byte_eq n c : is_byte n c = true → c = ascii_of_N n.
Proof. unfold is_byte. intros <-%N.eqb_eq. by rewrite ascii_N_embedding. Qed.
Lemma exponent_mark_eq c : is_exponent_mark c = true → c = "e"%char ∨ c = "E"%char.
Proof. unfold is_exponent_mark. intros [H|H]%orb_true_iff; apply is_byte_eq in H as ->; auto. Qed.
Lemma sign_eq c : is_sign c = true → c = "+"%char ∨ c = "-"%char.
Proof. unfold is_sign. intros [H|H]%orb_true_iff; apply is_byte_eq in H as ->; auto. Qed.

Lemma digit_not_special c : is_ascii_digit c = true → is_byte 46 c = false ∧ is_sign c = false.
Proof.
  intros Hc. split.
  - destruct (is_byte 46 c) eqn:Hb; [|done]. by apply is_byte_eq in Hb as ->.
  - destruct (is_sign c) eqn:Hb; [|done]. by apply sign_eq in Hb as [-> | ->].
Qed.

Lemma fraction_len_app f rest :
  fraction_shape f → head_is is_ascii_digit rest = false → head_is (is_byte 46) rest = false →
  fraction_len (f ++ rest) = length f.
Proof.
  intros Hf Hnd Hdot. unfold fraction_len. destruct Hf as [|dot ds Hd Hds]; cbn.
  - by rewrite Hdot.
  - rewrite Hd, ?drop_0. by rewrite count_while_app.
Qed.

Lemma exponent_len_app e rest :
  exponent_shape e → head_is is_ascii_digit rest = false → (e = [] → real_exponent rest = false) →
  exponent_len (e ++ rest) = length e.
Proof.
  intros He Hnd Hre. unfold exponent_len. destruct He as [|m ds Hm Hne Hds|m s ds Hm Hs Hne Hds]; cbn.
  - specialize (Hre eq_refl). unfold real_exponent in Hre.
    destruct (head_is is_exponent_mark rest); [|done]. cbn in Hre.
    destruct (head_is is_sign (drop 1 rest)); cbn; by destruct (drop _ rest) as [|c bs];
      [|cbn in *; rewrite Hre].
  - rewrite Hm, ?drop_0. destruct Hds as [|c ds Hc Hds]; [done|]. cbn.
    destruct (digit_not_special _ Hc) as [_ ->]. cbn. rewrite Hc.
    by rewrite (count_while_app _ _ _ Hds Hnd).
  - rewrite Hm, ?drop_0. cbn. rewrite Hs. cbn. rewrite ?drop_0.
    destruct Hds as [|c ds Hc Hds]; [done|]. cbn. rewrite Hc.
    by rewrite (count_while_app _ _ _ Hds Hnd).
Qed.

Lemma fraction_head f rest :
  fraction_shape f → head_is is_ascii_digit rest = false → head_is is_ascii_digit (f ++ rest) = false.
Proof. intros [|dot ds Hd _] Hr; [done|]. cbn. by apply is_byte_eq in Hd as ->. Qed.
Lemma exponent_head e rest f :
  exponent_shape e → f "e"%char = false → f "E"%char = false → head_is f rest = false →
  head_is f (e ++ rest) = false.
Proof.
  intros [|m ds Hm _ _|m s ds Hm _ _ _] He HE Hr; [done|..]; cbn;
    by apply exponent_mark_eq in Hm as [-> | ->].
Qed.

(** ... and conversely, what it takes of a text of that shape. *)
Lemma number_of_shape d f e rest :
  digits d → fraction_shape f → exponent_shape e →
  head_is is_ascii_digit rest = false → head_is (is_byte 46) rest = false →
  (e = [] → real_exponent rest = false) →
  Lexer.number_len (d ++ f ++ e ++ rest) = length d + length f + length e.
Proof.
  intros Hd Hf He Hnd Hdot Hre. rewrite number_len_stages. cbn zeta.
  assert (head_is is_ascii_digit (e ++ rest) = false) as Hnd1 by by apply exponent_head.
  rewrite (count_while_app _ d) by (done || by apply fraction_head).
  rewrite drop_app_length, fraction_len_app by (done || by apply exponent_head).
  rewrite app_assoc, drop_app_length' by by rewrite length_app.
  by rewrite exponent_len_app.
Qed.

(** ** A source as segments *)

(** A number, a symbol, white space, or an operator: what the rewrite steps over
    in one turn, and what the lexer makes a token of. *)
Inductive segment : Type :=
  | Num (text : bytes) (value : f64) | Sym (text : bytes) | Space (c : ascii) | Op (c : ascii) (k : TokenKind.t).
Definition segment_text (s : segment) : bytes :=
  match s with Num text _ | Sym text => text | Space c | Op c _ => [c] end.
Definition render (segments : list segment) : bytes := segments ≫= segment_text.
Definition segment_kind (s : segment) : list TokenKind.t :=
  match s with
  | Num _ value => [TokenKind.Number value]
  | Sym text => [TokenKind.Symbol (String.string_of_list_ascii text)]
  | Space _ => []
  | Op _ k => [k]
  end.
Definition kinds (segments : list segment) : list TokenKind.t := segments ≫= segment_kind.

Definition symbol_start (c : ascii) : bool := is_ascii_alphabetic c || is_byte 95 c.
(** A text the lexer reads as one symbol, when [rest] follows it. *)
Definition symbol_before (text rest : bytes) : Prop :=
  head_is symbol_start text = true
  ∧ S (Lexer.symbol_tail (drop 1 (text ++ rest))) = length text.

Definition segment_ok (s : segment) (rest : bytes) : Prop :=
  match s with
  | Num text value => head_is is_ascii_digit text = true
      ∧ Lexer.number_len (text ++ rest) = length text ∧ parse_f64 text = Some value
  | Sym text => symbol_before text rest
  | Space c => is_whitespace (N_of_ascii c) = true ∧ ascii_byte c
  | Op c k => Lexer.operator_kind c = Some k
  end.
Fixpoint segmented (segments : list segment) : Prop :=
  match segments with
  | [] => True
  | s :: segments => segment_ok s (render segments) ∧ segmented segments
  end.

(** ** Byte classes *)
Lemma ascii_digit_byte c : is_ascii_digit c = true → ascii_byte c.
Proof. unfold is_ascii_digit, ascii_byte. intros [_ H]%andb_true_iff. apply N.leb_le in H. lia. Qed.
Lemma alphabetic_byte c : is_ascii_alphabetic c = true → ascii_byte c ∧ is_ascii_digit c = false.
Proof.
  unfold is_ascii_alphabetic, is_ascii_digit, ascii_byte. intros H. split.
  - apply orb_true_iff in H as [[_ H]%andb_true_iff|[_ H]%andb_true_iff]; apply N.leb_le in H; lia.
  - apply andb_false_iff. right. apply N.leb_gt.
    apply orb_true_iff in H as [[H _]%andb_true_iff|[H _]%andb_true_iff]; apply N.leb_le in H; lia.
Qed.
Lemma symbol_start_byte c :
  symbol_start c = true → ascii_byte c ∧ is_ascii_digit c = false ∧ is_sign c = false
    ∧ is_byte 46 c = false ∧ Lexer.continues c = true.
Proof.
  unfold symbol_start. intros H.
  assert (Lexer.continues c = true) as Hcont.
  { unfold Lexer.continues, is_ascii_alphanumeric.
    apply orb_true_iff in H as [-> | ->]; [done|by rewrite orb_true_r]. }
  apply orb_true_iff in H as [H|H]; [|by apply is_byte_eq in H as ->].
  destruct (alphabetic_byte _ H) as [Hb Hd]. split_and!; [done|done| | |done].
  - destruct (is_sign c) eqn:Hs; [|done]. by apply sign_eq in Hs as [-> | ->].
  - destruct (is_byte 46 c) eqn:Hs; [|done]. by apply is_byte_eq in Hs as ->.
Qed.
Lemma operator_byte c k :
  Lexer.operator_kind c = Some k →
  ascii_byte c ∧ is_ascii_digit c = false ∧ symbol_start c = false ∧ is_byte 46 c = false
  ∧ is_exponent_mark c = false ∧ Lexer.continues c = false ∧ is_whitespace (N_of_ascii c) = false.
Proof.
  unfold Lexer.operator_kind. intros H.
  assert (c ∈ ["+"; "-"; "*"; "/"; "^"; "("; ")"]%char) as Hin.
  { repeat (case_match; [match goal with Hb : is_byte _ c = true |- _ =>
      apply is_byte_eq in Hb as ->; apply (bool_decide_unpack _); vm_compute; exact I end|]). done. }
  clear H. repeat (apply elem_of_cons in Hin as [->|Hin]; [done|]). by apply elem_of_nil in Hin.
Qed.
Lemma space_byte c :
  is_whitespace (N_of_ascii c) = true → ascii_byte c →
  is_ascii_digit c = false ∧ symbol_start c = false ∧ is_byte 46 c = false
  ∧ is_exponent_mark c = false ∧ Lexer.continues c = false ∧ is_sign c = false
  ∧ Lexer.operator_kind c = None.
Proof.
  unfold ascii_byte. intros H Hc.
  assert (c ∈ ascii_of_N <$> [9; 10; 11; 12; 13; 32]%N) as Hin.
  { rewrite <- (ascii_N_embedding c). apply list_elem_of_fmap. exists (N_of_ascii c). split; [done|].
    unfold is_whitespace in H.
    repeat match type of H with
      | (_ || _ = true) => apply orb_true_iff in H as [H|H]
      | (_ && _ = true) => apply andb_true_iff in H as [H ?]
      end; rewrite ?N.leb_le, ?N.eqb_eq in *; set_unfold; lia. }
  clear H. repeat (apply elem_of_cons in Hin as [->|Hin]; [done|]). by apply elem_of_nil in Hin.
Qed.

(** ** What the lexer accepts is segmented *)
Lemma continues_byte c : Lexer.continues c = true → ascii_byte c.
Proof.
  unfold Lexer.continues, is_ascii_alphanumeric.
  intros [[H|H]%orb_true_iff|H]%orb_true_iff;
    [by apply alphabetic_byte|by apply ascii_digit_byte|by apply is_byte_eq in H as ->].
Qed.
Lemma symbol_tail_ascii bs : Forall ascii_byte (take (Lexer.symbol_tail bs) bs).
Proof.
  induction bs as [|c bs IH]; [constructor|]. cbn. destruct (_ || _) eqn:Hc; [|constructor].
  cbn. constructor; [|done]. apply orb_true_iff in Hc as [Hc|[Hc _]%andb_true_iff];
    [by apply continues_byte|by apply is_byte_eq in Hc as ->].
Qed.
Lemma symbol_tail_le bs : Lexer.symbol_tail bs ≤ length bs.
Proof. induction bs as [|c bs IH]; cbn; [lia|]. destruct (_ || _); lia. Qed.

Lemma shape_ascii d f e :
  digits d → fraction_shape f → exponent_shape e → Forall ascii_byte (d ++ f ++ e).
Proof.
  assert (∀ ds, digits ds → Forall ascii_byte ds) as Hds.
  { intros ds H. eapply Forall_impl; [exact H|]. apply ascii_digit_byte. }
  intros Hd Hf He. apply Forall_app. split; [by apply Hds|]. apply Forall_app. split.
  - destruct Hf as [|dot ds Hdot]; constructor; [by apply is_byte_eq in Hdot as ->|by apply Hds].
  - destruct He as [|m ds Hm|m s ds Hm Hs]; [constructor|..]; constructor;
      try (by apply exponent_mark_eq in Hm as [-> | ->]); [by apply Hds|].
    constructor; [by apply sign_eq in Hs as [-> | ->]|by apply Hds].
Qed.

Lemma number_len_ascii bs :
  Forall ascii_byte (take (Lexer.number_len bs) bs) ∧ Lexer.number_len bs ≤ length bs.
Proof.
  destruct (number_shape bs) as (d & f & e & Hd & Hf & He & Hbs & Hn & _).
  assert (Lexer.number_len bs = length (d ++ f ++ e)) as Hlen by (rewrite !length_app; lia).
  set (rest := drop _ bs) in Hbs. clearbody rest. clear Hn.
  assert (bs = (d ++ f ++ e) ++ rest) as Hbs' by (by rewrite <- !app_assoc).
  rewrite Hlen. clear Hlen. rewrite Hbs', take_app_length, !length_app.
  split; [by apply shape_ascii|lia].
Qed.

Lemma utf8_app text rest :
  Forall ascii_byte text → utf8_from 0 (text ++ rest) = utf8_from 0 rest.
Proof.
  induction 1 as [|c text Hc _ IH]; [done|]. cbn. by rewrite (proj2 (N.ltb_lt _ _) Hc).
Qed.
Lemma utf8_space c bs :
  utf8_from 0 (c :: bs) = true → is_whitespace (N_of_ascii c) = true → ascii_byte c.
Proof.
  intros Hu Hw. unfold ascii_byte. destruct (decide (N_of_ascii c < 128)%N) as [|Hge]; [done|].
  cbn in Hu. rewrite (proj2 (N.ltb_ge _ 128)) in Hu by lia.
  assert (N_of_ascii c < 194)%N as Hlt.
  { unfold is_whitespace in Hw. pose proof (N_ascii_bounded c).
    repeat match type of Hw with
      | (_ || _ = true) => apply orb_true_iff in Hw as [Hw|Hw]
      | (_ && _ = true) => apply andb_true_iff in Hw as [Hw ?]
      end; rewrite ?N.leb_le, ?N.eqb_eq in *; lia. }
  by rewrite (proj2 (N.ltb_lt _ 194) Hlt) in Hu.
Qed.

Definition space (c : ascii) : Prop := is_whitespace (N_of_ascii c) = true ∧ ascii_byte c.
Lemma spaces_ascii bs :
  utf8_from 0 bs = true →
  let n := count_while (λ c, is_whitespace (N_of_ascii c)) bs in
  Forall space (take n bs) ∧ utf8_from 0 (drop n bs) = true.
Proof.
  induction bs as [|c bs IH]; intros Hu; [by split|]. cbn [count_while].
  destruct (is_whitespace (N_of_ascii c)) eqn:Hw; [|by split].
  pose proof (utf8_space _ _ Hu Hw) as Hc.
  assert (utf8_from 0 bs = true) as Hu'.
  { rewrite <- Hu. symmetry. apply (utf8_app [c] bs). by constructor. }
  destruct (IH Hu') as [Hsp Hrest]. split; [|done]. cbn. by constructor.
Qed.

Lemma rest_advance l n : Lexer.rest (Lexer.advance_by l n) = drop n (Lexer.rest l).
Proof. unfold Lexer.rest, Lexer.advance_by; cbn. by rewrite drop_drop. Qed.

Lemma next_segment l r l' :
  Lexer.next l = (r, l') → utf8_from 0 (Lexer.rest l) = true →
  ∃ spaces, Forall space spaces ∧
    match r with
    | None => Lexer.rest l = spaces
    | Some (Ok token) => ∃ s, Lexer.rest l = spaces ++ segment_text s ++ Lexer.rest l'
        ∧ segment_ok s (Lexer.rest l') ∧ segment_kind s = [Token.kind token]
        ∧ Forall ascii_byte (segment_text s)
    | Some (Err _) => True
    end.
Proof.
  intros Hn Hu. destruct (spaces_ascii _ Hu) as [Hsp Hu0]. unfold Lexer.next in Hn.
  set (n := count_while _ _) in *. set (l0 := Lexer.advance_by l n) in *.
  assert (Lexer.rest l = take n (Lexer.rest l) ++ Lexer.rest l0) as Hl
    by (by unfold l0; rewrite rest_advance, take_drop).
  exists (take n (Lexer.rest l)). split; [done|].
  destruct (Lexer.rest l0) as [|c bs] eqn:Hr0.
  { injection Hn as <- _. by rewrite app_nil_r in Hl. }
  (* The token is the first [k] bytes of what is left. *)
  assert (∀ k s, segment_text s = take k (c :: bs) → ∀ l1, l1 = Lexer.advance_by l0 k →
    Lexer.rest l = take n (Lexer.rest l) ++ segment_text s ++ Lexer.rest l1) as Hcut.
  { intros k s -> l1 ->. by rewrite rest_advance, Hr0, take_drop. }
  destruct (is_ascii_digit c) eqn:Hd.
  { unfold Lexer.lex_number in Hn. rewrite Hr0 in Hn. destruct (number_len_ascii (c :: bs)) as [Ha Hle].
    pose proof (number_len_pos (c :: bs) Hd) as Hpos.
    destruct (parse_f64 _) as [value|] eqn:Hv; [|by injection Hn as <- _].
    injection Hn as <- <-. exists (Num (take (Lexer.number_len (c :: bs)) (c :: bs)) value).
    split_and!; [by eapply Hcut| |done|done]. cbn [segment_ok].
    rewrite rest_advance, Hr0, take_drop, length_take. split_and!; [|lia|done].
    destruct (Lexer.number_len (c :: bs)); [lia|done]. }
  destruct (is_ascii_alphabetic c || is_byte 95 c) eqn:Hs.
  { injection Hn as <- <-. unfold Lexer.text. rewrite Hr0. cbn [drop].
    set (k := S (Lexer.symbol_tail bs)).
    pose proof (symbol_tail_le bs).
    exists (Sym (take k (c :: bs))). split_and!; [by eapply Hcut| |done|].
    - cbn [segment_ok]. unfold symbol_before. rewrite rest_advance, Hr0, take_drop, length_take.
      split; [done|]. cbn. rewrite drop_0. lia.
    - cbn. constructor; [by apply symbol_start_byte|apply symbol_tail_ascii]. }
  unfold Lexer.lex_operator in Hn. destruct (Lexer.operator_kind c) as [k|] eqn:Hk; [|by injection Hn as <- _].
  injection Hn as <- <-. exists (Op c k). split_and!; [by eapply (Hcut 1)|done|done|].
  constructor; [by eapply operator_byte|constructor].
Qed.

Lemma render_app ss ts : render (ss ++ ts) = render ss ++ render ts.
Proof. unfold render. by rewrite bind_app. Qed.
Lemma render_cons s segments : render (s :: segments) = segment_text s ++ render segments.
Proof. done. Qed.
Lemma kinds_cons s segments : kinds (s :: segments) = segment_kind s ++ kinds segments.
Proof. done. Qed.
Lemma render_spaces cs : render (Space <$> cs) = cs.
Proof. induction cs as [|c cs IH]; [done|]. cbn. by rewrite <- IH at 2. Qed.
Lemma kinds_spaces cs segments : kinds ((Space <$> cs) ++ segments) = kinds segments.
Proof. unfold kinds. rewrite bind_app. by induction cs. Qed.
Lemma segmented_spaces cs segments :
  Forall space cs → segmented segments → segmented ((Space <$> cs) ++ segments).
Proof. induction 1 as [|c cs Hc _ IH]; [done|]. intros Hs. split; [exact Hc|by apply IH]. Qed.

Lemma lexes_segmented l ks :
  lexes l ks → utf8_from 0 (Lexer.rest l) = true →
  ∃ segments, render segments = Lexer.rest l ∧ segmented segments ∧ kinds segments = ks
    ∧ Forall ascii_byte (Lexer.rest l).
Proof.
  induction 1 as [l l' Hn|l l' token ks Hn _ IH]; intros Hu.
  - destruct (next_segment _ _ _ Hn Hu) as (sp & Hsp & Hr). exists (Space <$> sp).
    rewrite Hr, render_spaces. split_and!; [done| | |].
    + rewrite <- (app_nil_r (Space <$> sp)). by apply segmented_spaces.
    + rewrite <- (app_nil_r (Space <$> sp)). by rewrite kinds_spaces.
    + eapply Forall_impl; [exact Hsp|]. by intros c [_ Hc].
  - destruct (next_segment _ _ _ Hn Hu) as (sp & Hsp & s & Hr & Hok & Hk & Ha).
    assert (Forall ascii_byte sp) as Hspa by (eapply Forall_impl; [exact Hsp|]; by intros c [_ Hc]).
    rewrite Hr, !utf8_app in Hu by done. destruct (IH Hu) as (segments & Hrender & Hseg & Hks & Hall).
    exists ((Space <$> sp) ++ s :: segments). split_and!.
    + by rewrite render_app, render_spaces, render_cons, Hr, Hrender.
    + apply segmented_spaces; [done|]. split; [by rewrite Hrender|done].
    + by rewrite kinds_spaces, kinds_cons, Hk, Hks.
    + rewrite Hr. by rewrite !Forall_app.
Qed.

(** ** Renaming segments *)
Section rename.
Context (renames : gmap string string).

Definition rename (name : string) : string := default name (renames !! name).
Definition rename_segment (s : segment) : segment :=
  match s with
  | Sym text => Sym (bytes_of (rename (String.string_of_list_ascii text)))
  | s => s
  end.
Definition rename_kind (k : TokenKind.t) : TokenKind.t :=
  match k with TokenKind.Symbol name => TokenKind.Symbol (rename name) | k => k end.
Fixpoint rename_expr (e : Expr.t) : Expr.t :=
  match e with
  | Expr.Literal v => Expr.Literal v
  | Expr.Symbol name => Expr.Symbol (rename name)
  | Expr.Neg e => Expr.Neg (rename_expr e)
  | Expr.Binary op l r => Expr.Binary op (rename_expr l) (rename_expr r)
  end.

(** Every replacement reads as one symbol, and cannot be taken for the exponent
    of a number before it. *)
Definition safe_renames : Prop := map_Forall (λ _ name,
  symbol_before (bytes_of name) [] ∧ head_is is_exponent_mark (bytes_of name) = false) renames.

Lemma operator_kind_renamed c k : Lexer.operator_kind c = Some k → rename_kind k = k.
Proof. unfold Lexer.operator_kind. repeat (case_match; [by intros [= <-]|]). done. Qed.

Lemma kinds_rename segments :
  segmented segments → kinds (rename_segment <$> segments) = rename_kind <$> kinds segments.
Proof.
  induction segments as [|s segments IH]; [done|]. intros [Hok Hseg].
  rewrite fmap_cons, !kinds_cons, fmap_app, IH by done. f_equal.
  destruct s as [| | |c k]; cbn; [done|by rewrite string_of_bytes_of|done|].
  by rewrite (operator_kind_renamed c k Hok).
Qed.

(** ** Symbols and what follows them *)
Lemma symbol_tail_stop rest : Lexer.symbol_tail rest = 0 → head_is Lexer.continues rest = false.
Proof. destruct rest as [|c bs]; [done|]. cbn. by destruct (Lexer.continues c). Qed.

Lemma symbol_tail_app t rest rest' :
  Lexer.symbol_tail (t ++ rest) = length t →
  head_is Lexer.continues rest' = false → head_is (is_byte 46) rest' = false →
  Lexer.symbol_tail (t ++ rest') = length t.
Proof.
  intros Ht Hc Hdot. induction t as [|c t IH]; cbn [app length] in *.
  - destruct rest' as [|c bs]; [done|]. cbn in *. by rewrite Hc, Hdot.
  - cbn [Lexer.symbol_tail] in *.
    destruct (Lexer.continues c) eqn:Hcc; cbn [orb] in *; [by injection Ht as ->%IH|].
    destruct (is_byte 46 c); cbn [andb] in *; [|done].
    destruct (head_is Lexer.continues (t ++ rest)) eqn:Hh; [|done].
    injection Ht as Ht. rewrite (IH Ht). destruct t as [|c' t]; cbn in *; [|by rewrite Hh].
    apply symbol_tail_stop in Ht. congruence.
Qed.

Lemma symbol_before_ext text rest rest' :
  symbol_before text rest →
  head_is Lexer.continues rest' = false → head_is (is_byte 46) rest' = false →
  symbol_before text rest'.
Proof.
  intros [Hs Ht] Hc Hdot. split; [done|]. destruct text as [|c text]; [done|].
  cbn in *. rewrite drop_0 in *. injection Ht as Ht. f_equal. by eapply symbol_tail_app.
Qed.
Lemma symbol_before_stop text rest : symbol_before text rest → head_is Lexer.continues rest = false.
Proof.
  intros [Hs Ht]. destruct text as [|c text]; [done|]. cbn in Ht. rewrite drop_0 in Ht.
  injection Ht as Ht. clear Hs c. induction text as [|c text IH]; [by apply symbol_tail_stop|].
  cbn in Ht. destruct (_ || _); [|done]. injection Ht as Ht. by apply IH.
Qed.

(** ** Heads of segmented texts *)
Lemma segmented_no_dot segments : segmented segments → head_is (is_byte 46) (render segments) = false.
Proof.
  destruct segments as [|s segments]; [done|]. intros [Hok _]. rewrite render_cons.
  destruct s as [text v|text|c|c k]; cbn in Hok.
  - destruct text as [|c text]; [by destruct Hok|]. destruct Hok as [Hd _]. by apply digit_not_special.
  - destruct text as [|c text]; [by destruct Hok as [? _]|]. destruct Hok as [Hs _].
    by apply symbol_start_byte in Hs as (_ & _ & _ & ? & _).
  - destruct Hok as [Hw Hc]. by apply (space_byte c Hw Hc).
  - by apply (operator_byte c k Hok).
Qed.

Context (Hsafe : safe_renames).

Lemma rename_symbol text rest :
  symbol_before text rest →
  ∃ rest0, symbol_before (bytes_of (rename (String.string_of_list_ascii text))) rest0
    ∧ (bytes_of (rename (String.string_of_list_ascii text)) = text
       ∨ head_is is_exponent_mark (bytes_of (rename (String.string_of_list_ascii text))) = false).
Proof.
  intros Hs. unfold rename. destruct (renames !! _) as [name|] eqn:Hr; cbn.
  - destruct (Hsafe _ _ Hr) as [? ?]. exists []. auto.
  - rewrite bytes_of_string_of. exists rest. auto.
Qed.

(** A class no letter or underscore decides sees the same head. *)
Lemma rename_head f segments :
  segmented segments →
  (∀ c c', symbol_start c = true → symbol_start c' = true → f c = f c') →
  head_is f (render (rename_segment <$> segments)) = head_is f (render segments).
Proof.
  intros Hseg Hf. destruct segments as [|s segments]; [done|]. destruct Hseg as [Hok _].
  rewrite fmap_cons, !render_cons. destruct s as [text v|text|c|c k]; try done; cbn in *.
  - destruct text; [by destruct Hok|done].
  - destruct (rename_symbol _ _ Hok) as (rest0 & [Hs0 _] & _). destruct Hok as [Hs _].
    destruct text as [|c text]; [done|]. destruct (bytes_of _) as [|c' text']; [done|]. cbn in *.
    by apply Hf.
Qed.

Lemma start_class c c' :
  symbol_start c = true → symbol_start c' = true →
  is_ascii_digit c = is_ascii_digit c' ∧ is_sign c = is_sign c' ∧ is_byte 46 c = is_byte 46 c'
  ∧ Lexer.continues c = Lexer.continues c'.
Proof.
  intros (_ & -> & -> & -> & ->)%symbol_start_byte (_ & -> & -> & -> & ->)%symbol_start_byte. done.
Qed.

Lemma real_exponent_cons c rest :
  is_exponent_mark c = true →
  real_exponent (c :: rest) = head_is is_ascii_digit (if head_is is_sign rest then drop 1 rest else rest).
Proof.
  intros Hc. unfold real_exponent. cbn. rewrite Hc, drop_0. cbn.
  destruct (head_is is_sign rest); cbn; by rewrite ?drop_0.
Qed.

Lemma continues_not_sign c : Lexer.continues c = true ∨ is_byte 46 c = true → is_sign c = false.
Proof.
  intros Hc. destruct (is_sign c) eqn:Hs; [|done]. by apply sign_eq in Hs as [-> | ->]; destruct Hc.
Qed.

Lemma symbol_second c d text rest : symbol_before (c :: d :: text) rest → is_sign d = false.
Proof.
  intros [_ Ht]. cbn in Ht. apply continues_not_sign. destruct (Lexer.continues d); [by left|].
  destruct (is_byte 46 d); [by right|done].
Qed.

(** An exponent is not made by renaming what follows. *)
Lemma real_exponent_rename segments :
  segmented segments → real_exponent (render segments) = false →
  real_exponent (render (rename_segment <$> segments)) = false.
Proof.
  intros Hseg Hre. destruct segments as [|s segments]; [done|].
  rewrite fmap_cons, render_cons in *. destruct Hseg as [Hok Hseg].
  destruct s as [text v|text|c|c k]; cbn [rename_segment segment_text] in *.
  - destruct Hok as [Hd _]. destruct text as [|c text]; [done|]. cbn in Hd |- *.
    unfold real_exponent. cbn. replace (is_exponent_mark c) with false; [done|].
    destruct (is_exponent_mark c) eqn:Hm; [|done]. by apply exponent_mark_eq in Hm as [-> | ->].
  - destruct (rename_symbol _ _ Hok) as (rest0 & [Hs0 _] & [-> | Hnot]).
    2: { destruct (bytes_of _) as [|c' text']; [done|]. unfold real_exponent. cbn in *. by rewrite Hnot. }
    pose proof (symbol_before_stop _ _ Hok) as Hstop.
    destruct text as [|c text]; [by destruct Hok|]. cbn [app] in *.
    destruct (is_exponent_mark c) eqn:Hm; [|unfold real_exponent; cbn; by rewrite Hm].
    rewrite real_exponent_cons in * by done. destruct text as [|d text]; cbn [app] in *.
    + rewrite (rename_head is_sign) by (done || intros; by apply start_class).
      destruct (head_is is_sign (render segments)) eqn:Hsign.
      * destruct segments as [|s segments]; [done|]. destruct Hseg as [Hok' Hseg].
        rewrite fmap_cons, render_cons in *.
        destruct s as [text' v|text'|c'|c' k']; cbn [rename_segment segment_text] in *.
        -- destruct Hok' as [Hd _]. destruct text' as [|c' text']; [done|]. cbn in Hd, Hsign.
           destruct (digit_not_special _ Hd). congruence.
        -- destruct Hok' as [Hs' _]. destruct text' as [|c' text']; [done|]. cbn in Hs', Hsign.
           apply symbol_start_byte in Hs' as (_ & _ & ? & _). congruence.
        -- cbn in *. rewrite drop_0 in *.
           by rewrite (rename_head is_ascii_digit) by (done || intros; by apply start_class).
        -- cbn in *. rewrite drop_0 in *.
           by rewrite (rename_head is_ascii_digit) by (done || intros; by apply start_class).
      * by rewrite (rename_head is_ascii_digit) by (done || intros; by apply start_class).
    + cbn in *. by rewrite (symbol_second _ _ _ _ Hok) in *.
  - unfold real_exponent. cbn. by destruct (space_byte c) as (_ & _ & _ & -> & _); [apply Hok..|].
  - unfold real_exponent. cbn. by destruct (operator_byte c k Hok) as (_ & _ & _ & _ & -> & _).
Qed.

Lemma rename_segment_ok s segments :
  segment_ok s (render segments) → segmented segments →
  segmented (rename_segment <$> segments) →
  segment_ok (rename_segment s) (render (rename_segment <$> segments)).
Proof.
  intros Hok Hseg Hseg'. pose proof (segmented_no_dot _ Hseg') as Hdot.
  destruct s as [text v|text|c|c k]; cbn [rename_segment segment_ok] in *; [|..|done|done].
  - destruct Hok as (Hd & Hlen & Hv). split_and!; [done| |done].
    destruct (number_shape (text ++ render segments)) as (d & f & e & Hds & Hf & He & Hbs & Hn & Hnd & Hre).
    rewrite Hlen, drop_app_length in *.
    assert (text = d ++ f ++ e) as ->.
    { rewrite !app_assoc in Hbs. apply (app_inj_2 text _ _ _ eq_refl) in Hbs as [-> _].
      by rewrite <- app_assoc. }
    rewrite <- !app_assoc, Hn. apply number_of_shape; [done..| |done|].
    + by rewrite (rename_head is_ascii_digit) by (done || intros; by apply start_class).
    + intros ->. by apply real_exponent_rename, Hre.
  - destruct (rename_symbol _ _ Hok) as (rest0 & Hs0 & _). eapply symbol_before_ext; [exact Hs0| |done].
    rewrite (rename_head Lexer.continues) by (done || intros; by apply start_class).
    by eapply symbol_before_stop.
Qed.

Lemma segmented_rename segments : segmented segments → segmented (rename_segment <$> segments).
Proof.
  induction segments as [|s segments IH]; [done|]. intros [Hok Hseg]. split; [|by apply IH].
  apply rename_segment_ok; [done|done|by apply IH].
Qed.
End rename.

(** ** Segments are lexed as they are *)
Lemma advance_by_0 l : Lexer.advance_by l 0 = l.
Proof. destruct l. unfold Lexer.advance_by; cbn. by rewrite Nat.add_0_r. Qed.

Lemma next_space l c bs :
  Lexer.rest l = c :: bs → is_whitespace (N_of_ascii c) = true →
  Lexer.next l = Lexer.next (Lexer.advance_by l 1).
Proof.
  intros Hr Hw. unfold Lexer.next at 1. rewrite Hr. cbn [count_while]. rewrite Hw.
  unfold Lexer.next. rewrite (rest_advance l 1), Hr. cbn [drop]. rewrite ?drop_0.
  replace (Lexer.advance_by (Lexer.advance_by l 1) _)
    with (Lexer.advance_by l (S (count_while (λ c, is_whitespace (N_of_ascii c)) bs))); [done|].
  unfold Lexer.advance_by; cbn. f_equal. lia.
Qed.

Lemma lexes_space l c bs ks :
  Lexer.rest l = c :: bs → is_whitespace (N_of_ascii c) = true →
  lexes (Lexer.advance_by l 1) ks → lexes l ks.
Proof.
  intros Hr Hw Hl. inversion Hl as [l0 l' Hn|l0 l' token ks' Hn Hl']; subst.
  - eapply lexes_end. by rewrite (next_space _ _ _ Hr Hw).
  - eapply lexes_token; [|done]. by rewrite (next_space _ _ _ Hr Hw).
Qed.

Lemma not_space c : ascii_byte c → is_ascii_digit c = true ∨ symbol_start c = true →
  is_whitespace (N_of_ascii c) = false.
Proof.
  intros Hc Hor. destruct (is_whitespace (N_of_ascii c)) eqn:Hw; [|done].
  destruct (space_byte _ Hw Hc) as (? & ? & _). destruct Hor; congruence.
Qed.

Lemma next_segment_token l s rest k :
  segment_ok s rest → segment_kind s = [k] → Lexer.rest l = segment_text s ++ rest →
  ∃ token l', Lexer.next l = (Some (Ok token), l') ∧ Token.kind token = k ∧ Lexer.rest l' = rest.
Proof.
  intros Hok Hk Hr. unfold Lexer.next.
  assert (∀ c bs, Lexer.rest l = c :: bs → is_whitespace (N_of_ascii c) = false →
    Lexer.advance_by l (count_while (λ c, is_whitespace (N_of_ascii c)) (Lexer.rest l)) = l) as Hskip.
  { intros c bs -> Hw. cbn. by rewrite Hw, advance_by_0. }
  assert (∀ n, n = length (segment_text s) → Lexer.rest (Lexer.advance_by l n) = rest) as Hafter.
  { intros n ->. by rewrite rest_advance, Hr, drop_app_length. }
  destruct s as [text v|text|c|c k']; cbn [segment_ok segment_kind segment_text] in *.
  - injection Hk as <-. destruct Hok as (Hd & Hlen & Hv). destruct text as [|c text]; [done|].
    cbn in Hd. cbn [app] in Hr. rewrite (Hskip c _ Hr) by (apply not_space; [by apply ascii_digit_byte|by left]).
    rewrite Hr, Hd. unfold Lexer.lex_number. rewrite Hr. change (c :: text ++ rest) with ((c :: text) ++ rest).
    rewrite Hlen, take_app_length, Hv. eexists _, _. split_and!; [done|done|by apply Hafter].
  - injection Hk as <-. destruct Hok as [Hs Ht]. destruct text as [|c text]; [done|].
    cbn in Hs. pose proof (symbol_start_byte _ Hs) as (Hb & Hd & _).
    cbn [app] in Hr. rewrite (Hskip c _ Hr) by (apply not_space; [done|by right]).
    rewrite Hr, Hd. unfold symbol_start in Hs. rewrite Hs. unfold Lexer.lex_symbol.
    rewrite Hr. change (c :: text ++ rest) with ((c :: text) ++ rest). rewrite Ht.
    eexists _, _. split_and!; [done| |by apply Hafter]. cbn [Token.kind]. f_equal.
    unfold Lexer.text. rewrite Hr. change (c :: text ++ rest) with ((c :: text) ++ rest).
    by rewrite take_app_length.
  - done.
  - injection Hk as <-. destruct (operator_byte c k' Hok) as (_ & Hd & Hs & _ & _ & _ & Hw).
    cbn [app] in Hr. rewrite (Hskip c _ Hr Hw), Hr, Hd. unfold symbol_start in Hs. rewrite Hs.
    unfold Lexer.lex_operator. rewrite Hok. eexists _, _. split_and!; [done|done|by apply Hafter].
Qed.

Lemma lexes_of_segmented segments l :
  segmented segments → Lexer.rest l = render segments → lexes l (kinds segments).
Proof.
  revert l. induction segments as [|s segments IH]; intros l Hseg Hr.
  - eapply lexes_end. unfold Lexer.next. cbn in Hr. by rewrite Hr, advance_by_0, Hr.
  - destruct Hseg as [Hok Hseg]. rewrite render_cons in Hr. rewrite kinds_cons.
    destruct (segment_kind s) as [|k [|]] eqn:Hk; [|cbn|by destruct s].
    + destruct s as [| |c|]; try done. destruct Hok as [Hw Hc].
      eapply lexes_space; [exact Hr|done|]. apply IH; [done|]. by rewrite rest_advance, Hr.
    + destruct (next_segment_token l s _ k Hok Hk Hr) as (token & l' & Hn & <- & Hr').
      eapply lexes_token; [exact Hn|]. by apply IH.
Qed.

(** ** The loop steps over the segments *)
Section loop.
Context (renames : gmap string string) (limits : Limits.t).

Lemma slice_ascii bs n : Forall ascii_byte bs → n ≤ length bs → slice bs n = Some (take n bs).
Proof.
  intros Ha Hn. unfold slice. rewrite (proj2 (Nat.leb_le _ _) Hn).
  assert (∀ t, Forall ascii_byte t → is_char_boundary t = true) as Hb.
  { intros t [|c t' Hc _]; [done|]. cbn. by rewrite (proj2 (N.leb_gt 128 _) Hc). }
  by rewrite !Hb by (done || by apply Forall_drop).
Qed.

Lemma rewrite_turn_ascii c bs :
  Forall ascii_byte (c :: bs) →
  ∃ fragment n, rewrite_turn renames c (c :: bs) = Ok (fragment, n) ∧ 1 ≤ n ≤ length (c :: bs).
Proof.
  intros Ha. unfold rewrite_turn, slice_or_panic.
  destruct (is_ascii_digit c) eqn:Hd.
  { rewrite scan_number_len. destruct (number_len_ascii (c :: bs)) as [_ Hle].
    pose proof (number_len_pos (c :: bs) Hd). rewrite slice_ascii by done.
    eexists _, _. split; [done|lia]. }
  destruct (_ || _).
  - unfold scan_symbol. cbn [drop]. rewrite ?drop_0, scan_symbol_ascii by by inversion Ha.
    pose proof (symbol_tail_le bs). rewrite slice_ascii by (done || cbn; lia).
    eexists _, _. split; [done|cbn; lia].
  - inversion Ha as [|?? Hc _]; subst. unfold len_utf8. rewrite (proj2 (N.ltb_lt _ _) Hc).
    rewrite slice_ascii by (done || cbn; lia). eexists _, _. split; [done|cbn; lia].
Qed.

(** On ASCII text the loop answers, and never slices inside a character. *)
Lemma rewrite_loop_ascii fuel bs out :
  Forall ascii_byte bs → length bs ≤ fuel →
  ∃ r, rewrite_loop renames limits fuel bs out = Some r ∧ r ≠ Err Stop.Panicked.
Proof.
  revert bs out. induction fuel as [|fuel IH]; intros bs out Ha Hlen.
  { destruct bs; [|cbn in Hlen; lia]. by eexists. }
  destruct bs as [|c bs]; [by eexists|]. cbn [rewrite_loop].
  destruct (rewrite_turn_ascii c bs Ha) as (fragment & n & -> & Hn).
  destruct (push limits out fragment) as [out'|e] eqn:Hp.
  - apply IH; [by apply Forall_drop|]. rewrite length_drop. lia.
  - eexists. split; [done|]. intros [= ->]. revert Hp. unfold push.
    destruct (checked_add _ _ _); [|done]. by destruct (ensure _ _ _).
Qed.

Definition renamed_text (s : segment) : bytes := segment_text (rename_segment renames s).

Lemma rewrite_turn_segment s rest c bs :
  segment_ok s rest → Forall ascii_byte (segment_text s ++ rest) →
  segment_text s ++ rest = c :: bs →
  rewrite_turn renames c (c :: bs) = Ok (renamed_text s, length (segment_text s)).
Proof.
  intros Hok Ha Hcut. rewrite <- Hcut.
  assert (slice (segment_text s ++ rest) (length (segment_text s)) = Some (segment_text s)) as Hslice.
  { rewrite slice_ascii, take_app_length; [done|done|rewrite length_app; lia]. }
  unfold rewrite_turn, slice_or_panic.
  destruct s as [text v|text|c'|c' k]; cbn [segment_ok segment_text] in *.
  - destruct Hok as (Hd & Hlen & _). destruct text as [|c' text]; [done|].
    injection Hcut as <- <-. cbn in Hd. rewrite Hd, scan_number_len, Hlen, Hslice. done.
  - destruct Hok as [Hs Ht]. destruct text as [|c' text]; [done|]. injection Hcut as <- <-.
    cbn in Hs. destruct (symbol_start_byte _ Hs) as (Hb & Hd & _). rewrite Hd.
    rewrite byte_alphabetic_ascii by done. unfold symbol_start in Hs. rewrite Hs.
    unfold scan_symbol. rewrite scan_symbol_ascii by by apply Forall_drop.
    rewrite Ht, Hslice. unfold mbind, result_bind, renamed_text. cbn [rename_segment segment_text].
    unfold rename. destruct (renames !! _); [done|]. unfold default. by rewrite bytes_of_string_of.
  - destruct Hok as [Hw Hc]. injection Hcut as <- <-.
    destruct (space_byte _ Hw Hc) as (Hd & Hs & _). rewrite Hd, byte_alphabetic_ascii by done.
    unfold symbol_start in Hs. rewrite Hs. unfold len_utf8. rewrite (proj2 (N.ltb_lt _ _) Hc).
    cbn [length] in Hslice. by rewrite Hslice.
  - destruct (operator_byte _ _ Hok) as (Hc & Hd & Hs & _). injection Hcut as <- <-.
    rewrite Hd, byte_alphabetic_ascii by done.
    unfold symbol_start in Hs. rewrite Hs. unfold len_utf8. rewrite (proj2 (N.ltb_lt _ _) Hc).
    cbn [length] in Hslice. by rewrite Hslice.
Qed.

Lemma push_ok out fragment out' : push limits out fragment = Ok out' → out' = out ++ fragment.
Proof.
  unfold push. destruct (checked_add _ _ _); [|done]. destruct (ensure _ _ _); [|done]. by intros [= <-].
Qed.

Lemma rewrite_loop_segmented segments fuel out out' :
  segmented segments → Forall ascii_byte (render segments) →
  rewrite_loop renames limits fuel (render segments) out = Some (Ok out') →
  out' = out ++ render (rename_segment renames <$> segments).
Proof.
  revert fuel out. induction segments as [|s segments IH]; intros fuel out Hseg Ha Hl.
  { destruct fuel; injection Hl as <-; by rewrite app_nil_r. }
  destruct Hseg as [Hok Hseg]. rewrite render_cons in *.
  destruct (segment_text s ++ render segments) as [|c bs] eqn:Hcut.
  { destruct s as [[|]|[|]| |]; cbn in *; by destruct Hok. }
  destruct fuel as [|fuel]; [done|]. cbn [rewrite_loop] in Hl. rewrite <- Hcut in Ha.
  rewrite (rewrite_turn_segment s _ c bs Hok Ha Hcut) in Hl.
  destruct (push _ _ _) as [out1|e] eqn:Hp; [|done]. apply push_ok in Hp as ->.
  rewrite <- Hcut, drop_app_length in Hl. apply Forall_app in Ha as [_ Ha].
  rewrite (IH _ _ Hseg Ha Hl), fmap_cons, render_cons. by rewrite app_assoc.
Qed.
End loop.

(** ** What a rename does to the parse *)
Lemma derives_rename renames level f ks e :
  derives level f ks e → derives level f (rename_kind renames <$> ks) (rename_expr renames e).
Proof.
  induction 1; cbn [fmap list_fmap rename_expr rename_kind]; rewrite ?fmap_app.
  - constructor.
  - constructor.
  - by constructor.
  - by constructor.
  - by constructor.
  - rewrite fmap_cons. replace (rename_kind renames (op_token op)) with (op_token op) by by destruct op.
    by apply derives_binary.
  - eapply derives_weaken; [eassumption|done].
Qed.
Lemma rename_expr_size renames e : expr_size (rename_expr renames e) = expr_size e.
Proof. induction e; cbn; congruence. Qed.
Lemma rename_expr_height renames e : expr_height (rename_expr renames e) = expr_height e.
Proof. induction e; cbn; congruence. Qed.
Lemma rename_expr_empty e : rename_expr ∅ e = e.
Proof. induction e; cbn; unfold rename; rewrite ?lookup_empty; cbn; congruence. Qed.

Lemma push_bound limits out fragment out' :
  push limits out fragment = Ok out' → (lenN out' ≤ Limits.max_expression_bytes limits)%N.
Proof.
  unfold push. rewrite checked_add_cases. destruct (_ <=? _)%N; [|done].
  destruct (ensure _ _ _) eqn:He; [|done]. destruct a. apply ensure_ok in He. intros [= <-].
  unfold lenN in *. rewrite length_app. lia.
Qed.
Lemma rewrite_loop_bound renames limits fuel bs out out' :
  (lenN out ≤ Limits.max_expression_bytes limits)%N →
  rewrite_loop renames limits fuel bs out = Some (Ok out') →
  (lenN out' ≤ Limits.max_expression_bytes limits)%N.
Proof.
  revert bs out. induction fuel as [|fuel IH]; intros bs out Hout Hl.
  { destruct bs; [by injection Hl as <-|done]. }
  destruct bs as [|c bs]; [by injection Hl as <-|]. cbn [rewrite_loop] in Hl.
  destruct (rewrite_turn _ _ _) as [[fragment n]|e]; [|done].
  destruct (push _ _ _) eqn:Hp; [|done]. apply (IH _ _ (push_bound _ _ _ _ Hp) Hl).
Qed.

(** A parsed source as segments, and the text the rewrite makes of them. *)
Lemma parsed_segments source limits c :
  utf8 source → parse_bounded source limits = Some (Ok c) →
  ∃ segments f ks, render segments = bytes_of source ∧ segmented segments ∧ kinds segments = ks
    ∧ Forall ascii_byte (bytes_of source) ∧ derives 0 f ks (CompiledExpression.ast c).
Proof.
  intros Hutf8 Hparse. apply parse_compiled in Hparse as (_ & _ & _ & _ & _ & _ & f & ks & Hl & Hder & _).
  assert (Lexer.rest (Lexer.new (bytes_of source)) = bytes_of source) as Hrest by apply drop_0.
  destruct (lexes_segmented _ _ Hl) as (segments & Hr & Hseg & Hk & Ha); [by rewrite Hrest|].
  rewrite Hrest in *. by exists segments, f, ks.
Qed.

Lemma rewrite_tree source limits renames c :
  utf8 source → Limits.widths limits → safe_renames renames →
  parse_bounded source limits = Some (Ok c) →
  ∃ r, rewrite_symbols_bounded renames limits source = Some r ∧
    match r with
    | Ok out => ∃ c', parse_bounded out limits = Some (Ok c')
        ∧ CompiledExpression.ast c' = rename_expr renames (CompiledExpression.ast c)
    | Err (Stop.Refused _) => True
    | Err Stop.Panicked => False
    end.
Proof.
  intros Hutf8 Hwidths Hsafe Hparse.
  apply parse_compiled in Hparse as (Hlen & Hs & Hn & Hd & Hnb & Hdb & f & ks & Hl & Hder & Hf).
  unfold rewrite_symbols_bounded. rewrite (proj2 (ensure_ok _ _ _) Hlen).
  assert (Lexer.rest (Lexer.new (bytes_of source)) = bytes_of source) as Hrest by apply drop_0.
  destruct (lexes_segmented _ _ Hl) as (segments & Hr & Hseg & Hk & Ha); [by rewrite Hrest|].
  rewrite Hrest in *. clear Hrest. case_bool_decide as Hempty.
  { eexists. split; [done|]. exists c. subst renames. rewrite rename_expr_empty. split; [|done].
    apply compiled_parse; [done|]. split_and!; eauto. }
  destruct (rewrite_loop_ascii renames limits (length (bytes_of source)) (bytes_of source) [] Ha)
    as (r & Hloop & Hpanic); [done|]. rewrite Hloop. destruct r as [out|[e|]]; [|by eexists|done].
  eexists. split; [done|]. pose proof Hloop as Hbound.
  apply rewrite_loop_bound in Hbound; [|apply N.le_0_l].
  rewrite <- Hr in Hloop at 2. apply rewrite_loop_segmented in Hloop as ->; [|done|by rewrite Hr].
  cbn [app] in *. eexists (CompiledExpression.mk _ (rename_expr renames (CompiledExpression.ast c))
    (CompiledExpression.nodes c) (CompiledExpression.depth c)).
  split; [|done]. apply compiled_parse; [done|]. unfold compiled. rewrite bytes_of_string_of.
  cbn [CompiledExpression.source CompiledExpression.ast CompiledExpression.nodes CompiledExpression.depth].
  rewrite rename_expr_size, rename_expr_height.
  split_and!; try done. exists f, (rename_kind renames <$> ks). split_and!; [|by apply derives_rename|done].
  rewrite <- Hk, <- kinds_rename by done. apply lexes_of_segmented; [by apply segmented_rename|].
  apply drop_0.
Qed.



(** Two flaws of the rewrite. A symbol right after a number may be renamed to a
    name that starts with an exponent mark, and the number absorbs it: [2mass] with
    [mass] renamed to [e3], a valid name, becomes the literal [2e3]. And a letter
    outside ASCII panics: its first byte is taken for a one-byte letter, and the
    slice ends inside the character. *)
Theorem rename_flaws :
  rewritten "2mass" {["mass" := "e3"]} = Some "2e3"
  ∧ CompiledExpression.ast <$> (parse "2mass" ≫= λ r, match r with Ok c => Some c | Err _ => None end)
    = Some (Expr.Binary BinaryOp.Mul (Expr.Literal (F64.of_decimal 2 0)) (Expr.Symbol "mass"))
  ∧ CompiledExpression.ast <$> (parse "2e3" ≫= λ r, match r with Ok c => Some c | Err _ => None end)
    = Some (Expr.Literal (F64.of_decimal 2000 0))
  ∧ name_new (H := latin1) "e3" = Ok (Name.mk "e3")
  ∧ rewrite_symbols (String.string_of_list_ascii (ascii_of_N <$> [195; 169]%N)) {["a" := "b"]}
    = Some (Err Stop.Panicked).
Proof. split_and!; vm_compute; reflexivity. Qed.
