(* ===== verification/Evaluation.v ===== *)
(** * What an expression evaluates to

    The meaning of a tree over an environment, without budgets, and the proof that
    the budgeted evaluator of [Expression] computes it, charging one unit for
    each node. *)

From Stdlib Require Import ZArith.
From stdpp Require Import base gmap strings list.
From S2P Require Import Prelude VarLimits Action Binary64 Quantity Expression Grammar.

Section evaluation.
Context `{Libm}.

(** ** The meaning of a tree *)
Fixpoint eval_ref (env : string → result ExprEvalError.t Quantity.t) (e : Expr.t)
    : result ExprEvalError.t Quantity.t :=
  match e with
  | Expr.Literal v => quantity v Dimension.DIMENSIONLESS
  | Expr.Symbol name => env name
  | Expr.Neg e =>
    value ← eval_ref env e;
    quantity (F64.neg (Quantity.magnitude value)) (Quantity.dimension value)
  | Expr.Binary op l r => l ← eval_ref env l; r ← eval_ref env r; eval_binary op l r
  end.

Notation refs e := (Expr.collect_symbol_refs e []).

Lemma collect_symbol_refs_app e out : Expr.collect_symbol_refs e out = out ++ refs e.
Proof.
  revert out. induction e as [v|s|e IH|op l IHl r IHr]; intros out; cbn.
  - by rewrite app_nil_r.
  - done.
  - apply IH.
  - rewrite IHr, IHl, (IHr (refs l)). by rewrite app_assoc.
Qed.
Lemma refs_binary op l r : refs (Expr.Binary op l r) = refs l ++ refs r.
Proof. cbn. by rewrite collect_symbol_refs_app. Qed.

(** Only the symbols of the tree matter, and all of them do. *)
Lemma eval_ref_ext env env' e :
  (∀ s, s ∈ refs e → env s = env' s) → eval_ref env e = eval_ref env' e.
Proof.
  induction e as [v|s|e IH|op l IHl r IHr]; intros Hext; cbn; [done| | |].
  - apply Hext. by apply elem_of_cons; left.
  - by rewrite IH.
  - rewrite refs_binary in Hext. rewrite IHl, IHr; [done|..]; intros s Hs; apply Hext, elem_of_app; auto.
Qed.

Lemma bind_ok_result {E A B} (r : result E A) (f : A → result E B) b :
  r ≫= f = Ok b → ∃ a, r = Ok a ∧ f a = Ok b.
Proof. destruct r as [a|e]; [eauto|done]. Qed.

Lemma eval_ref_symbols env e q s :
  eval_ref env e = Ok q → s ∈ refs e → ∃ v, env s = Ok v.
Proof.
  revert q. induction e as [v|name|e IH|op l IHl r IHr]; intros q He Hs.
  - by apply elem_of_nil in Hs.
  - apply elem_of_cons in Hs as [->|Hs]; [eauto|by apply elem_of_nil in Hs].
  - cbn in He. apply bind_ok_result in He as (a & He & _). eauto.
  - rewrite refs_binary in Hs. cbn in He.
    apply bind_ok_result in He as (a & Hl & He). apply bind_ok_result in He as (b & Hr & _).
    apply elem_of_app in Hs as [Hs|Hs]; eauto.
Qed.

(** Evaluation makes no cycle of its own. *)
Lemma quantity_not_cycle m d : quantity m d ≠ Err ExprEvalError.Cycle.
Proof. unfold quantity, result_map_err, Quantity.new. by destruct (negb _). Qed.
Lemma eval_binary_not_cycle op l r : eval_binary op l r ≠ Err ExprEvalError.Cycle.
Proof.
  unfold eval_binary, eval_pow.
  repeat first [apply quantity_not_cycle | case_match | case_decide | done].
Qed.
Lemma unit_quantity_not_cycle s : unit_quantity s ≠ Err ExprEvalError.Cycle.
Proof. unfold unit_quantity. destruct (lookup s); [apply quantity_not_cycle|done]. Qed.
Lemma eval_ref_cycle env e :
  eval_ref env e = Err ExprEvalError.Cycle → ∃ s, s ∈ refs e ∧ env s = Err ExprEvalError.Cycle.
Proof.
  induction e as [v|s|e IH|op l IHl r IHr]; intros He.
  - by apply quantity_not_cycle in He.
  - exists s. split; [by apply elem_of_cons; left|done].
  - cbn in He. destruct (eval_ref env e) as [q|err]; [by apply quantity_not_cycle in He|]. by apply IH.
  - rewrite refs_binary. cbn in He.
    destruct (eval_ref env l) as [ql|err].
    + destruct (eval_ref env r) as [qr|err]; [by apply eval_binary_not_cycle in He|].
      destruct IHr as (s & Hs & ?); [done|]. exists s. split; [apply elem_of_app; auto|done].
    + destruct IHl as (s & Hs & ?); [done|]. exists s. split; [apply elem_of_app; auto|done].
Qed.

(** ** Values are finite and their dimensions in range *)
Lemma quantity_wf m d q : quantity m d = Ok q → Dimension.wf d → Quantity.wf q.
Proof.
  unfold quantity, result_map_err. destruct (Quantity.new m d) as [q'|e] eqn:Hq; [|done].
  intros [= <-] Hd. apply quantity_new_ok in Hq as [-> Hf]. by split.
Qed.

Lemma eval_pow_wf base exponent q :
  Quantity.wf base → eval_pow base exponent = Ok q → Quantity.wf q.
Proof.
  intros [_ Hb]. unfold eval_pow. destruct (negb _); [done|].
  destruct (Quantity.is_dimensionless base).
  { intros Hq. eapply quantity_wf; [exact Hq|]. apply dimensionless_wf. }
  destruct (negb _); [done|]. destruct (i8_checked _) as [whole|]; [|done].
  destruct (Dimension.power _ _) as [d|] eqn:Hd; [|done]. intros Hq.
  eapply quantity_wf; [exact Hq|]. by eapply power_wf.
Qed.

Lemma eval_binary_wf op l r q :
  Quantity.wf l → Quantity.wf r → eval_binary op l r = Ok q → Quantity.wf q.
Proof.
  intros Hl Hr. pose proof (Quantity.wf_dimension l Hl). pose proof (Quantity.wf_dimension r Hr).
  unfold eval_binary. destruct op.
  1,2: case_decide; [done|]; intros Hq; by eapply quantity_wf.
  - destruct (Dimension.multiply _ _) as [d|] eqn:Hd; [|done]. intros Hq.
    eapply quantity_wf; [exact Hq|]. by eapply multiply_wf; [| |exact Hd].
  - destruct (F64.eqb _ _); [done|].
    destruct (Dimension.divide _ _) as [d|] eqn:Hd; [|done]. intros Hq.
    eapply quantity_wf; [exact Hq|]. by eapply divide_wf; [| |exact Hd].
  - by apply eval_pow_wf.
Qed.

Lemma eval_ref_wf env e q :
  (∀ s v, s ∈ refs e → env s = Ok v → Quantity.wf v) → eval_ref env e = Ok q → Quantity.wf q.
Proof.
  revert q. induction e as [v|s|e IH|op l IHl r IHr]; intros q Henv He.
  - eapply quantity_wf; [exact He|]. apply dimensionless_wf.
  - eapply Henv; [|exact He]. by apply elem_of_cons; left.
  - cbn in He. apply bind_ok_result in He as (a & He & Hq).
    eapply quantity_wf; [exact Hq|]. apply (IH a Henv He).
  - rewrite refs_binary in Henv. cbn in He.
    apply bind_ok_result in He as (ql & Hl & He). apply bind_ok_result in He as (qr & Hr & He).
    eapply eval_binary_wf; [| |exact He].
    + eapply IHl; [|exact Hl]. intros. eapply Henv; [|done]. apply elem_of_app; auto.
    + eapply IHr; [|exact Hr]. intros. eapply Henv; [|done]. apply elem_of_app; auto.
Qed.

Lemma unit_quantity_wf s q : unit_quantity s = Ok q → Quantity.wf q.
Proof.
  unfold unit_quantity. destruct (lookup s) as [u|] eqn:Hu; [|done]. intros Hq.
  eapply quantity_wf; [exact Hq|]. apply units_wf. by eapply lookup_in.
Qed.

(** ** The evaluator charges the size of the tree *)
Section pure.
Context {S : Type} (env : string → result ExprEvalError.t Quantity.t).
Implicit Types st : Budget.t * S.

(** A lookup that reads the state without changing it. *)
Definition reads (resolve : string → evaluating S Quantity.t) st : Prop :=
  ∀ s b, resolve s (b, st.2) = Some match env s with Ok q => Ok (q, (b, st.2)) | Err e => Err e end.

Lemma spend_some units st b :
  Budget.spend st.1 units = Ok b → spend (S := S) units st = Some (Ok ((), (b, st.2))).
Proof. intros Hb. unfold spend, update_state. by rewrite Hb. Qed.

Lemma eval_ast_spends resolve e st :
  (Budget.allowed st.1 ≤ u64_max)%N → reads resolve st →
  (Budget.spent st.1 + expr_size e ≤ Budget.allowed st.1)%N →
  eval_ast e resolve st = Some match eval_ref env e with
    | Ok q => Ok (q, (Budget.mk (Budget.spent st.1 + expr_size e) (Budget.allowed st.1), st.2))
    | Err err => Err err
    end.
Proof.
  revert st. induction e as [v|s|e IH|op l IHl r IHr]; intros [b st] Hw Hreads Hfits; cbn in Hfits.
  all: cbn [eval_ast]; rewrite (bind_some (spend 1) _ (b, st) () _
      (spend_some 1 (b, st) _ (spend_fits b 1 ltac:(cbn in *; lia) Hw))); cbn [fst snd eval_ref expr_size] in *.
  - unfold lift. by destruct (quantity _ _).
  - by rewrite Hreads.
  - set (b1 := Budget.mk _ _). pose proof (IH (b1, st)) as IHe. cbn in IHe.
    unfold mbind, action_bind. rewrite IHe by first [exact Hw|exact Hreads|cbn; lia]. clear IHe.
    destruct (eval_ref env e) as [q|err]; [|done]. cbn. unfold lift.
    destruct (quantity _ _); [|done]. subst b1; cbn. by rewrite !N.add_assoc.
  - set (b1 := Budget.mk _ _). pose proof (IHl (b1, st)) as IHl'. cbn in IHl'.
    unfold mbind, action_bind. rewrite IHl' by first [exact Hw|exact Hreads|cbn; lia]. clear IHl'.
    destruct (eval_ref env l) as [ql|err]; [|done]. cbn [mbind result_bind].
    set (b2 := Budget.mk _ _). pose proof (IHr (b2, st)) as IHr'. cbn in IHr'.
    rewrite IHr' by first [exact Hw|exact Hreads|cbn; lia]. clear IHr'.
    destruct (eval_ref env r) as [qr|err]; [|done]. cbn. unfold lift.
    destruct (eval_binary _ _ _); [|done]. subst b2 b1; cbn. by rewrite !N.add_assoc.
Qed.

(** Over the budget, it refuses. *)
Lemma eval_ast_over resolve e st :
  (Budget.allowed st.1 ≤ u64_max)%N → reads resolve st →
  (Budget.allowed st.1 < Budget.spent st.1 + expr_size e)%N →
  ∃ err, eval_ast e resolve st = Some (Err err)
    ∧ ((∃ limit, err = ExprEvalError.Limit limit) ∨ eval_ref env e = Err err).
Proof.
  revert st. induction e as [v|s|e IH|op l IHl r IHr]; intros [b st] Hw Hreads Hover; cbn in Hw, Hover.
  all: cbn [eval_ast eval_ref expr_size] in *.
  all: destruct (N.le_gt_cases (Budget.spent b + 1) (Budget.allowed b)) as [Hle|Hgt];
    [rewrite (bind_some (spend 1) _ (b, st) () _ (spend_some 1 (b, st) _ (spend_fits b 1 Hle Hw)))
    |unfold mbind, action_bind, spend, update_state; cbn [fst snd];
     destruct (Budget.spend b 1) as [b'|err] eqn:Hb; [apply spend_ok in Hb as [_ Hb]; lia|];
     eexists; split; [done|]; left; by eexists].
  all: cbn [fst snd]; set (b1 := Budget.mk _ _).
  - lia.
  - lia.
  - destruct (IH (b1, st) Hw Hreads) as (err & He & Hor); [cbn; lia|]. exists err.
    unfold mbind at 1, action_bind at 1. rewrite He. split; [done|].
    destruct Hor as [?|Hor]; [by left|right]. by rewrite Hor.
  - destruct (N.le_gt_cases (Budget.spent b1 + expr_size l) (Budget.allowed b1)) as [Hlel|Hgtl].
    + pose proof (eval_ast_spends resolve l (b1, st) Hw Hreads Hlel) as Hl.
      unfold mbind at 1, action_bind at 1. rewrite Hl.
      destruct (eval_ref env l) as [ql|err]; [|eexists; split; [done|by right]].
      cbn [fst snd mbind result_bind]. set (b2 := Budget.mk _ _).
      destruct (IHr (b2, st) Hw Hreads) as (err & He & Hor); [cbn in *; lia|]. exists err.
      unfold mbind at 1, action_bind at 1. rewrite He. split; [done|].
      destruct Hor as [?|Hor]; [by left|right]. by rewrite Hor.
    + destruct (IHl (b1, st) Hw Hreads) as (err & He & Hor); [cbn in *; lia|]. exists err.
      unfold mbind at 1, action_bind at 1. rewrite He. split; [done|].
      destruct Hor as [?|Hor]; [by left|right]. by rewrite Hor.
Qed.
End pure.
End evaluation.
Notation refs e := (Expr.collect_symbol_refs e []).
