(* ===== verification/System.v ===== *)
(** * The variable system (orishu-variables, system.rs and variable.rs)

    Definition, redefinition and lookup of variables, and the resolution of a
    variable's value by an explicit stack. In an evaluation [None] stands for the
    two ways a run has no answer: the loop's fuel running out, and an index
    out of range, which panics. *)

From Stdlib Require Import ZArith.
From stdpp Require Import base gmap strings list.
From S2P Require Import Prelude Identity VarLimits Action Binary64 Quantity Expression Namespace.

(** ** Variables *)
Module VariableId.
Record t : Type := mk { raw : N }.
#[global] Instance VariableId_eq_dec : EqDecision t.
Proof. solve_decision. Defined.
#[global] Instance VariableId_countable : Countable t.
Proof. refine (inj_countable' raw mk _); by intros []. Defined.
(** [VariableId(n as u32)]. *)
Definition of_usize (n : N) : t := mk (n mod 2 ^ 32).
End VariableId.

Module Variable_.
Record t : Type := mk { name : FQName.t; comment : string; expression : CompiledExpression.t }.
#[global] Instance Variable_eq_dec : EqDecision t.
Proof. solve_decision. Defined.
End Variable_.

(** [VariableOptions] has the one field [comment]. *)
Module VariableOptions.
Record t : Type := mk { comment : string }.
Definition default : t := mk "".
End VariableOptions.

Module VariablesError.
Inductive t : Type :=
  | Parsing (error : ExprParsingError.t)
  | Eval (error : ExprEvalError.t)
  | Limit (error : LimitError.t)
  | InvalidName (error : InvalidName.t)
  | DuplicateName (namespace : Namespace.t) (name : Name.t)
  | UnknownHandle
  | ShadowsUnit (name : Name.t).
#[global] Instance VariablesError_eq_dec : EqDecision t.
Proof. solve_decision. Defined.

(** [From<ExprEvalError>]. *)
Definition of_eval (e : ExprEvalError.t) : t :=
  match e with ExprEvalError.Limit error => Limit error | other => Eval other end.
End VariablesError.

(** ** The scratch of an evaluation *)
Module Frame.
Record t : Type := mk { id : VariableId.t; deps_start : nat; next : nat; height : N }.
Definition visit_next (f : t) : t := mk (id f) (deps_start f) (S (next f)) (height f).
Definition raise (height' : N) (f : t) : t :=
  mk (id f) (deps_start f) (next f) (N.max (height f) height').
End Frame.

Module Resolved.
Record t : Type := mk { value : Quantity.t; height : N }.
End Resolved.

Module EvalScratch.
(** The top of [stack] is its head; [deps] grows at its end. A variable in
    [state] without a value is on the stack. *)
Record t : Type := mk {
  stack : list Frame.t;
  deps : list VariableId.t;
  state : gmap VariableId.t (option Resolved.t)
}.
Definition default : t := mk [] [] ∅.
Definition clear (s : t) : t := default.
Definition set_top (f : Frame.t → Frame.t) (s : t) : t :=
  mk (match stack s with top :: below => f top :: below | [] => [] end) (deps s) (state s).
End EvalScratch.

Module VariablesSystem.
Record t : Type := mk {
  limits : Limits.t;
  variables : list Variable_.t;
  index : gmap string VariableId.t;
  scratch_pool : EvalScratch.t
}.

Definition with_limits (limits : Limits.t) : t := mk limits [] ∅ EvalScratch.default.
Definition default : t := with_limits Limits.DEFAULT.

Definition get (sys : t) (id : VariableId.t) : option Variable_.t :=
  variables sys !! N.to_nat (VariableId.raw id).

Definition set_variables (variables : list Variable_.t) (sys : t) : t :=
  mk (limits sys) variables (index sys) (scratch_pool sys).

Definition admit_expression (sys : t) (expression : CompiledExpression.t)
    : result LimitError.t unit :=
  _ ← ensure LimitKind.ExpressionBytes (str_len (CompiledExpression.source expression))
        (Limits.max_expression_bytes (limits sys));
  _ ← ensure LimitKind.ExpressionNodes (CompiledExpression.nodes expression)
        (Limits.max_expression_nodes (limits sys));
  ensure LimitKind.ParseDepth (CompiledExpression.depth expression)
    (Limits.max_parse_depth (limits sys)).

(** What [define] checks before it writes: the name and its key. *)
Definition define_checks `{IntoName T} (sys : t) (namespace : Namespace.t) (name : T)
    (expression : CompiledExpression.t) : result VariablesError.t FQName.t :=
  name ← result_map_err VariablesError.InvalidName (into_name name);
  if Namespace.is_root namespace && is_ok (lookup (Name.as_str name)) then
    Err (VariablesError.ShadowsUnit name)
  else
    let key := qualified namespace name in
    if contains_key (FQName.to_string key) (index sys) then
      Err (VariablesError.DuplicateName namespace name)
    else
      _ ← result_map_err VariablesError.Limit
            (admit_one LimitKind.Variables (lenN (variables sys)) (Limits.max_variables (limits sys)));
      _ ← result_map_err VariablesError.Limit (admit_expression sys expression);
      Ok key.

Definition define `{IntoName T} (sys : t) (namespace : Namespace.t) (name : T)
    (expression : CompiledExpression.t) (options : VariableOptions.t)
    : result VariablesError.t VariableId.t * t :=
  match define_checks sys namespace name expression with
  | Err e => (Err e, sys)
  | Ok key =>
    let id := VariableId.of_usize (lenN (variables sys)) in
    (Ok id,
     mk (limits sys)
        (variables sys ++ [Variable_.mk key (VariableOptions.comment options) expression])
        (<[FQName.to_string key := id]> (index sys))
        (scratch_pool sys))
  end.

Definition set (sys : t) (id : VariableId.t) (expression : CompiledExpression.t)
    : result VariablesError.t unit * t :=
  match get sys id with
  | None => (Err VariablesError.UnknownHandle, sys)
  | Some variable =>
    match admit_expression sys expression with
    | Err e => (Err (VariablesError.Limit e), sys)
    | Ok _ =>
      (Ok (), set_variables (<[N.to_nat (VariableId.raw id) :=
         Variable_.mk (Variable_.name variable) (Variable_.comment variable) expression]> (variables sys)) sys)
    end
  end.

Definition set_comment (sys : t) (id : VariableId.t) (comment : string)
    : result VariablesError.t unit * t :=
  match get sys id with
  | None => (Err VariablesError.UnknownHandle, sys)
  | Some variable =>
    (Ok (), set_variables (<[N.to_nat (VariableId.raw id) :=
       Variable_.mk (Variable_.name variable) comment (Variable_.expression variable)]> (variables sys)) sys)
  end.

(** ** Lookups *)
Definition symbol_variable (sys : t) (raw : string) : option VariableId.t := index sys !! raw.
Definition resolve_symbol (sys : t) (raw : string) : result ExprEvalError.t VariableId.t :=
  match index sys !! raw with
  | Some id => Ok id
  | None => Err (ExprEvalError.UnknownVariable raw)
  end.
Definition lookup_name (sys : t) (name : FQName.t) : option VariableId.t :=
  index sys !! FQName.to_string name.
Definition lookup_in (sys : t) (namespace : Namespace.t) (name : Name.t) : option VariableId.t :=
  lookup_name sys (qualified namespace name).
Definition qualified_name (sys : t) (id : VariableId.t) : option FQName.t :=
  Variable_.name <$> get sys id.
Definition name (sys : t) (id : VariableId.t) : option Name.t :=
  FQName.name ∘ Variable_.name <$> get sys id.
Definition comment (sys : t) (id : VariableId.t) : option string := Variable_.comment <$> get sys id.
Definition namespaces (sys : t) : list Namespace.t :=
  btree_keys (list_to_map ((λ v, (FQName.namespace (Variable_.name v), ())) <$> variables sys)
              : gmap Namespace.t unit).
Definition variables_in (sys : t) (namespace : Namespace.t) : list VariableId.t :=
  (λ p, VariableId.of_usize (N.of_nat p.1))
    <$> filter (λ p, FQName.namespace (Variable_.name p.2) = namespace) (imap pair (variables sys)).
End VariablesSystem.
Import VariablesSystem.

(** ** Evaluation *)
Section resolve.
Context `{Libm} (sys : VariablesSystem.t).

Abbreviation resolving := (evaluating EvalScratch.t).

Definition get_scratch : resolving EvalScratch.t := λ st, Some (Ok (st.2, st)).
Definition put_scratch (f : EvalScratch.t → EvalScratch.t) : resolving unit := λ st,
  Some (Ok ((), (st.1, f st.2))).

Definition admit_reach (from height : N) : resolving unit := lift
  match checked_add usize_max from height with
  | None => Err (ExprEvalError.Limit (LimitError.mk LimitKind.DependencyDepth u64_max
                   (Limits.max_dependency_depth (limits sys))))
  | Some total =>
    result_map_err ExprEvalError.Limit
      (ensure LimitKind.DependencyDepth total (Limits.max_dependency_depth (limits sys)))
  end.

(** The handles of the symbols that name variables, in order. A symbol that
    names none has to be a unit. *)
Fixpoint push_deps (symbols : list string) : result ExprEvalError.t (list VariableId.t) :=
  match symbols with
  | [] => Ok []
  | raw :: symbols =>
    match symbol_variable sys raw with
    | Some dependency => deps ← push_deps symbols; Ok (dependency :: deps)
    | None => _ ← unit_quantity raw; push_deps symbols
    end
  end.

(** [&self.variables[id.0 as usize].expression]. *)
Definition expression_of (id : VariableId.t) : resolving CompiledExpression.t :=
  match get sys id with
  | Some variable => mret (Variable_.expression variable)
  | None => out_of_fuel
  end.

Definition push_frame (id : VariableId.t) : resolving unit :=
  scratch ← get_scratch;
  _ ← admit_reach (lenN (EvalScratch.stack scratch)) 1;
  expression ← expression_of id;
  _ ← spend (CompiledExpression.nodes expression);
  deps ← lift (push_deps (Expr.collect_symbol_refs (CompiledExpression.ast expression) []));
  put_scratch (λ s,
    let deps_start := length (EvalScratch.deps s) in
    EvalScratch.mk (Frame.mk id deps_start deps_start 1 :: EvalScratch.stack s)
      (EvalScratch.deps s ++ deps) (<[id := None]> (EvalScratch.state s))).

(** The turn of the loop that visits the top frame's next dependency. *)
Definition visit (dependency : VariableId.t) : resolving unit :=
  _ ← put_scratch (EvalScratch.set_top Frame.visit_next);
  scratch ← get_scratch;
  match EvalScratch.state scratch !! dependency with
  | Some (Some resolved) =>
    _ ← admit_reach (lenN (EvalScratch.stack scratch)) (Resolved.height resolved);
    put_scratch (EvalScratch.set_top (Frame.raise (Resolved.height resolved + 1)))
  | Some None => abort ExprEvalError.Cycle
  | None => push_frame dependency
  end.

(** The lookup [resolve] hands to the evaluator. *)
Definition settled_value (raw : string) : resolving Quantity.t :=
  match symbol_variable sys raw with
  | None => lift (unit_quantity raw)
  | Some target =>
    scratch ← get_scratch;
    match EvalScratch.state scratch !! target with
    | Some (Some resolved) => mret (Resolved.value resolved)
    | _ => abort ExprEvalError.Cycle
    end
  end.

(** The turn that evaluates the top frame and pops it. *)
Definition settle (frame : Frame.t) : resolving unit :=
  expression ← expression_of (Frame.id frame);
  value ← eval_ast (CompiledExpression.ast expression) settled_value;
  put_scratch (λ s, EvalScratch.set_top (Frame.raise (Frame.height frame + 1))
    (EvalScratch.mk (tail (EvalScratch.stack s)) (take (Frame.deps_start frame) (EvalScratch.deps s))
       (<[Frame.id frame := Some (Resolved.mk value (Frame.height frame))]> (EvalScratch.state s)))).

Fixpoint resolve_loop (fuel : nat) : resolving unit :=
  match fuel with
  | O => out_of_fuel
  | S fuel =>
    scratch ← get_scratch;
    match EvalScratch.stack scratch with
    | [] => mret ()
    | frame :: _ =>
      _ ← (if decide (Frame.next frame < length (EvalScratch.deps scratch)) then
             match EvalScratch.deps scratch !! Frame.next frame with
             | Some dependency => visit dependency
             | None => out_of_fuel
             end
           else settle frame);
      resolve_loop fuel
    end
  end.

(** Every variable is pushed once; its frame visits each symbol reference once
    and is popped once. *)
Definition resolve_fuel : nat :=
  S (sum_list_with (λ v, 2 + length (Expr.collect_symbol_refs
       (CompiledExpression.ast (Variable_.expression v)) [])) (variables sys)).

Definition resolve (root : VariableId.t) : resolving Quantity.t :=
  scratch ← get_scratch;
  match EvalScratch.state scratch !! root with
  | Some (Some resolved) => mret (Resolved.value resolved)
  | _ =>
    _ ← push_frame root;
    _ ← resolve_loop resolve_fuel;
    scratch ← get_scratch;
    match EvalScratch.state scratch !! root with
    | Some (Some resolved) => mret (Resolved.value resolved)
    | _ => abort ExprEvalError.Cycle
    end
  end.

(** [take_scratch] and [return_scratch]: the pool holds an empty scratch while an
    evaluation runs, and the cleared one after it. *)
Definition take_scratch : EvalScratch.t * VariablesSystem.t :=
  (scratch_pool sys, mk (limits sys) (variables sys) (index sys) EvalScratch.default).
Definition return_scratch (scratch : EvalScratch.t) : VariablesSystem.t :=
  mk (limits sys) (variables sys) (index sys) (EvalScratch.clear scratch).

(** Runs an evaluation with a fresh budget on the pooled scratch. *)
Definition with_scratch (evaluate : resolving Quantity.t)
    : option (result VariablesError.t Quantity.t * VariablesSystem.t) :=
  match evaluate (Budget.new (Limits.max_evaluation_work (limits sys)), fst take_scratch) with
  | None => None
  | Some (Ok (value, (_, scratch))) => Some (Ok value, return_scratch scratch)
  | Some (Err e) => Some (Err (VariablesError.of_eval e), return_scratch EvalScratch.default)
  end.

Definition value (id : VariableId.t) : option (result VariablesError.t Quantity.t * VariablesSystem.t) :=
  match get sys id with
  | None => Some (Err VariablesError.UnknownHandle, sys)
  | Some _ => with_scratch (resolve id)
  end.

(** The lookup [eval] hands to the evaluator, and [eval]. *)
Definition resolve_or_unit (raw : string) : resolving Quantity.t :=
  match symbol_variable sys raw with
  | Some target => resolve target
  | None => lift (unit_quantity raw)
  end.
Definition eval (expr_source : string)
    : option (result VariablesError.t Quantity.t * VariablesSystem.t) :=
  match parse_bounded expr_source (limits sys) with
  | None => None
  | Some (Err e) => Some (Err (VariablesError.Parsing e), sys)
  | Some (Ok compiled) => with_scratch (eval_ast (CompiledExpression.ast compiled) resolve_or_unit)
  end.
End resolve.
