(* ===== verification/Resolution.v ===== *)
(** * What a variable's value is (orishu-variables, system.rs)

    A relational meaning of variables ([denotes]: a value and the length of the
    longest chain of references), and the proof that the stack machine of
    [System] computes it: [resolve] answers for every graph, succeeds exactly on
    the variables that have a meaning within the declared bounds, evaluates
    every variable once, and reports a cycle only when there is one. *)

From Stdlib Require Import ZArith.
From stdpp Require Import base gmap strings list relations.
From S2P Require Import Prelude VarLimits Action Binary64 Quantity Expression Grammar Namespace Evaluation System.

Section resolution.
Context `{Libm} (sys : VariablesSystem.t).
Abbreviation lim := (VariablesSystem.limits sys).
Abbreviation max_depth := (Limits.max_dependency_depth lim).

(** ** The meaning of a variable *)
Definition expr_of (v : Variable_.t) : Expr.t := CompiledExpression.ast (Variable_.expression v).
Definition variables_of (names : list string) : list VariableId.t :=
  omap (VariablesSystem.symbol_variable sys) names.
Definition deps_of (id : VariableId.t) : list VariableId.t :=
  match VariablesSystem.get sys id with
  | Some v => variables_of (refs (expr_of v))
  | None => []
  end.
Definition depends (id dep : VariableId.t) : Prop := dep ∈ deps_of id.

(** The environment of a tree, given a value for each variable. *)
Definition env_of (values : VariableId.t → Quantity.t) (raw : string)
    : result ExprEvalError.t Quantity.t :=
  match VariablesSystem.symbol_variable sys raw with
  | Some target => Ok (values target)
  | None => unit_quantity raw
  end.

(** One more than the tallest of the dependencies. *)
Definition height_over (heights : VariableId.t → N) (deps : list VariableId.t) : N :=
  foldr (λ d h, N.max (heights d + 1) h) 1%N deps.

Inductive denotes : VariableId.t → Quantity.t → N → Prop :=
  | denotes_intro id v q (values : VariableId.t → Quantity.t) (heights : VariableId.t → N) :
      VariablesSystem.get sys id = Some v →
      (∀ d, d ∈ deps_of id → denotes d (values d) (heights d)) →
      eval_ref (env_of values) (expr_of v) = Ok q →
      denotes id q (height_over heights (deps_of id)).

Lemma height_over_ext h1 h2 deps :
  (∀ d, d ∈ deps → h1 d = h2 d) → height_over h1 deps = height_over h2 deps.
Proof.
  induction deps as [|d deps IH]; intros Hext; [done|]. cbn.
  rewrite (Hext d) by (apply elem_of_cons; by left). f_equal. apply IH.
  intros d' Hd'. apply Hext, elem_of_cons. by right.
Qed.
Lemma height_over_pos h deps : (1 ≤ height_over h deps)%N.
Proof. induction deps; cbn; lia. Qed.
Lemma height_over_elem h deps d : d ∈ deps → (h d + 1 ≤ height_over h deps)%N.
Proof.
  induction deps as [|d' deps IH]; intros Hin; [by apply elem_of_nil in Hin|].
  unfold height_over in *. cbn [foldr]. apply elem_of_cons in Hin as [->|Hin]; [lia|].
  specialize (IH Hin). lia.
Qed.
Lemma height_over_app h deps d :
  height_over h (deps ++ [d]) = N.max (height_over h deps) (h d + 1).
Proof. unfold height_over. induction deps as [|d' deps IH]; cbn [foldr app]; [lia|]. rewrite IH. lia. Qed.

Lemma variables_of_elem names raw id :
  raw ∈ names → VariablesSystem.symbol_variable sys raw = Some id → id ∈ variables_of names.
Proof. intros. apply list_elem_of_omap. eauto. Qed.

Lemma env_of_ext values1 values2 id v :
  VariablesSystem.get sys id = Some v →
  (∀ d, d ∈ deps_of id → values1 d = values2 d) →
  eval_ref (env_of values1) (expr_of v) = eval_ref (env_of values2) (expr_of v).
Proof.
  intros Hv Hext. apply eval_ref_ext. intros s Hs. unfold env_of.
  destruct (VariablesSystem.symbol_variable sys s) as [d|] eqn:Hd; [|done]. f_equal. apply Hext.
  unfold deps_of. rewrite Hv. by eapply variables_of_elem.
Qed.

Lemma denotes_fun id q1 h1 q2 h2 : denotes id q1 h1 → denotes id q2 h2 → q1 = q2 ∧ h1 = h2.
Proof.
  intros H1. revert q2 h2. induction H1 as [id v q values heights Hv Hd IH Hq]; intros q2 h2 H2.
  inversion H2 as [id' v' q' values' heights' Hv' Hd' Hq']; subst.
  rewrite Hv in Hv'. injection Hv' as <-. split.
  - assert (eval_ref (env_of values) (expr_of v) = eval_ref (env_of values') (expr_of v)) as Heq.
    { eapply env_of_ext; [exact Hv|]. intros d Hin. eapply IH; [done|]. by apply Hd'. }
    congruence.
  - apply height_over_ext. intros d Hin. eapply IH; [done|]. by apply Hd'.
Qed.

(** The dependencies of a variable that has a meaning have one, lower. *)
Lemma denotes_dep id q h d : denotes id q h → depends id d → ∃ q' h', denotes d q' h' ∧ (h' + 1 ≤ h)%N.
Proof.
  intros Hden Hd. inversion Hden as [id' v q' values heights Hv Hds Hq]; subst.
  exists (values d), (heights d). split; [by apply Hds|]. by apply height_over_elem.
Qed.
Lemma denotes_reach id q h d :
  denotes id q h → rtc depends id d → ∃ q' h', denotes d q' h' ∧ (h' ≤ h)%N.
Proof.
  intros Hden Hr. revert q h Hden. induction Hr as [id|id d d' Hd Hr IH]; intros q h Hden.
  - eauto using N.le_refl.
  - destruct (denotes_dep _ _ _ _ Hden Hd) as (q' & h' & Hden' & Hle).
    destruct (IH _ _ Hden') as (q'' & h'' & ? & ?). exists q'', h''. split; [done|lia].
Qed.
(** A variable on a cycle has no meaning. *)
Lemma denotes_acyclic id q h : denotes id q h → ¬ tc depends id id.
Proof.
  intros Hden Hc. inversion Hc as [? y Hy|? y ? Hy Hr]; subst.
  - destruct (denotes_dep _ _ _ _ Hden Hy) as (q' & h' & Hden' & Hle).
    destruct (denotes_fun _ _ _ _ _ Hden Hden') as [_ ->]. lia.
  - destruct (denotes_dep _ _ _ _ Hden Hy) as (q' & h' & Hden' & Hle).
    destruct (denotes_reach _ _ _ id Hden') as (q'' & h'' & Hden'' & Hle'); [by apply tc_rtc|].
    destruct (denotes_fun _ _ _ _ _ Hden Hden'') as [_ ->]. lia.
Qed.

(** ** The machine's invariant *)
Abbreviation States := (gmap VariableId.t (option Resolved.t)).
Implicit Types st : States.
Implicit Types stack : list Frame.t.

Definition settled st (d : VariableId.t) (r : Resolved.t) : Prop := st !! d = Some (Some r).
Definition height_in st (d : VariableId.t) : N :=
  match st !! d with Some (Some r) => Resolved.height r | _ => 0%N end.

(** The arena: each frame's dependencies, the bottom frame's first. *)
Fixpoint layout stack : list VariableId.t :=
  match stack with [] => [] | f :: below => layout below ++ deps_of (Frame.id f) end.

(** Each frame has visited a prefix of its dependencies, settled all of them but
    the one being resolved [above] it, and holds the height over the settled
    ones; no chain through the stack passes the bound. *)
Fixpoint stack_ok st (above : list VariableId.t) stack : Prop :=
  match stack with
  | [] => True
  | f :: below =>
    Frame.deps_start f = length (layout below)
    ∧ Frame.deps_start f ≤ Frame.next f
    ∧ (∃ seen, take (Frame.next f - Frame.deps_start f) (deps_of (Frame.id f)) = seen ++ above
         ∧ length (seen ++ above) = Frame.next f - Frame.deps_start f
         ∧ (∀ d, d ∈ seen → ∃ r, settled st d r)
         ∧ Frame.height f = height_over (height_in st) seen)
    ∧ (Frame.height f + lenN below ≤ max_depth)%N
    ∧ is_Some (VariablesSystem.get sys (Frame.id f))
    ∧ stack_ok st [Frame.id f] below
  end.

Definition nodes_of (id : VariableId.t) : N :=
  match VariablesSystem.get sys id with
  | Some v => CompiledExpression.nodes (Variable_.expression v)
  | None => 0
  end.
Definition sum_nodes (ids : list VariableId.t) : N := foldr (λ d n, (nodes_of d + n)%N) 0%N ids.

(** A scratch that starts from the settled variables [st0], with [spent0] of the
    budget gone, has settled [done] and is resolving its stack under [root]. *)
Record machine (root : VariableId.t) (st0 : States) (spent0 : N)
    (above done : list VariableId.t) (b : Budget.t) (s : EvalScratch.t) : Prop := {
  m_deps : EvalScratch.deps s = layout (EvalScratch.stack s);
  m_stack : stack_ok (EvalScratch.state s) above (EvalScratch.stack s);
  m_root : ∀ f, last (EvalScratch.stack s) = Some f → Frame.id f = root;
  m_ids : NoDup (done ++ (Frame.id <$> EvalScratch.stack s));
  m_on : ∀ d, d ∈ Frame.id <$> EvalScratch.stack s → EvalScratch.state s !! d = Some None;
  m_done : ∀ d, d ∈ done → ∃ r, settled (EvalScratch.state s) d r;
  m_rest : ∀ d, d ∉ done → d ∉ Frame.id <$> EvalScratch.stack s →
    EvalScratch.state s !! d = st0 !! d;
  m_new : ∀ d, d ∈ done ++ (Frame.id <$> EvalScratch.stack s) →
    st0 !! d = None ∧ rtc depends root d;
  m_meaning : ∀ d r, settled (EvalScratch.state s) d r →
    denotes d (Resolved.value r) (Resolved.height r)
    ∧ (Resolved.height r ≤ max_depth)%N
    ∧ ∀ d', d' ∈ deps_of d → ∃ r', settled (EvalScratch.state s) d' r';
  m_spent : Budget.spent b =
    (spent0 + 2 * sum_nodes done + sum_nodes (Frame.id <$> EvalScratch.stack s))%N;
  m_allowed : Budget.allowed b = Limits.max_evaluation_work lim;
  m_within : (Budget.spent b ≤ Limits.max_evaluation_work lim)%N;
  m_in : root ∈ done ++ (Frame.id <$> EvalScratch.stack s)
    ∨ done = [] ∧ EvalScratch.stack s = [] ∧ above = [root]
}.

Context (Hindex : ∀ raw id, VariablesSystem.symbol_variable sys raw = Some id →
  is_Some (VariablesSystem.get sys id)).
Context (Hnodes : ∀ id v, VariablesSystem.get sys id = Some v →
  CompiledExpression.nodes (Variable_.expression v) = expr_size (expr_of v)).
Context (Hwork : (Limits.max_evaluation_work lim ≤ u64_max)%N) (Hdepth : (max_depth ≤ usize_max)%N).

(** Why an evaluation may refuse: the root has no meaning within the bounds; and
    [Cycle] only when a variable it reaches depends on itself. *)
Definition work_fits (root : VariableId.t) (st0 : States) (spent0 : N) : Prop :=
  ∀ ids, NoDup ids → (∀ d, d ∈ ids → st0 !! d = None ∧ rtc depends root d) →
    (spent0 + 2 * sum_nodes ids ≤ Limits.max_evaluation_work lim)%N.
Definition refused (root : VariableId.t) (st0 : States) (spent0 : N) (e : ExprEvalError.t) : Prop :=
  (∀ q h, denotes root q h → (h ≤ max_depth)%N → work_fits root st0 spent0 → False)
  ∧ (e = ExprEvalError.Cycle → ∃ d, rtc depends root d ∧ tc depends d d).

Lemma sum_nodes_app ids1 ids2 : sum_nodes (ids1 ++ ids2) = (sum_nodes ids1 + sum_nodes ids2)%N.
Proof. unfold sum_nodes. induction ids1 as [|d ids IH]; cbn [app foldr]; [lia|]. rewrite IH. lia. Qed.

Lemma sum_nodes_cons d ids : sum_nodes (d :: ids) = (nodes_of d + sum_nodes ids)%N.
Proof. done. Qed.

(** ** Facts about the stack *)
Lemma stack_ok_mono st st' above stack :
  (∀ d r, settled st d r → settled st' d r) → stack_ok st above stack → stack_ok st' above stack.
Proof.
  intros Hmono. revert above. induction stack as [|f below IH]; intros above; [done|].
  intros (Hs & Hn & (seen & Htake & Hlen & Hseen & Hh) & Hb & Hget & Hbelow).
  split_and!; [done|done| |done|done|by apply IH]. exists seen. split_and!; [done|done| |].
  - intros d Hd. destruct (Hseen d Hd) as [r Hr]. eauto.
  - rewrite Hh. apply height_over_ext. intros d Hd. destruct (Hseen d Hd) as [r Hr].
    unfold height_in. by rewrite Hr, (Hmono _ _ Hr).
Qed.

Lemma above_depends st d f below : stack_ok st [d] (f :: below) → depends (Frame.id f) d.
Proof.
  intros (_ & _ & (seen & Htake & _) & _). unfold depends.
  rewrite <- (take_drop (Frame.next f - Frame.deps_start f) (deps_of (Frame.id f))), Htake.
  rewrite !elem_of_app, elem_of_cons. auto.
Qed.

(** Each frame of the stack reaches the top. *)
Lemma stack_chain st above f below g :
  stack_ok st above (f :: below) → g ∈ f :: below → rtc depends (Frame.id g) (Frame.id f).
Proof.
  revert above f. induction below as [|f' below IH]; intros above f Hok Hg.
  - apply elem_of_cons in Hg as [->|Hg]; [apply rtc_refl|by apply elem_of_nil in Hg].
  - apply elem_of_cons in Hg as [->|Hg]; [apply rtc_refl|].
    destruct Hok as (_ & _ & _ & _ & _ & Hbelow).
    eapply rtc_r; [by eapply IH|]. by eapply above_depends.
Qed.

(** The root is at least as high as the chain through the stack and what hangs
    below its top. *)
Lemma stack_height st above stack d root q h :
  stack_ok st above stack → above = [d] → (stack = [] → d = root) →
  (∀ f, last stack = Some f → Frame.id f = root) → denotes root q h →
  ∃ q' h', denotes d q' h' ∧ (h' + lenN stack ≤ h)%N.
Proof.
  intros Hok -> Hempty Hlast Hden. revert d Hok Hempty.
  induction stack as [|f below IH]; intros d Hok Hempty.
  - rewrite Hempty by done. exists q, h. split; [done|]. unfold lenN; cbn. lia.
  - pose proof (above_depends _ _ _ _ Hok) as Hd. destruct Hok as (_ & _ & _ & _ & _ & Hbelow).
    destruct (IH) with (d := Frame.id f) as (qf & hf & Hf & Hle); [|done| |].
    { intros g Hg. apply Hlast. destruct below; [done|by cbn]. }
    { intros ->. by apply Hlast. }
    destruct (denotes_dep _ _ _ _ Hf Hd) as (q' & h' & Hd' & Hle').
    exists q', h'. split; [done|]. unfold lenN in *; cbn [length]. lia.
Qed.

(** ** The small operations *)
Lemma admit_reach_runs from height w (Q : unit → Budget.t * EvalScratch.t → Prop) (R : ExprEvalError.t → Prop) :
  ((from + height ≤ max_depth)%N → Q () w) →
  (∀ e, (max_depth < from + height)%N → e ≠ ExprEvalError.Cycle → R e) →
  runs (admit_reach sys from height) w Q R.
Proof.
  intros HQ HR. apply runs_lift. rewrite checked_add_cases.
  destruct (N.leb_spec (from + height) usize_max); [|apply HR; [lia|done]].
  unfold ensure, result_map_err. destruct (N.ltb_spec max_depth (from + height)); [by apply HR|by apply HQ].
Qed.

Lemma spend_runs units b s (Q : unit → Budget.t * EvalScratch.t → Prop) (R : ExprEvalError.t → Prop) :
  Budget.allowed b = Limits.max_evaluation_work lim →
  ((Budget.spent b + units ≤ Limits.max_evaluation_work lim)%N →
     Q () (Budget.mk (Budget.spent b + units) (Budget.allowed b), s)) →
  (∀ e, (Limits.max_evaluation_work lim < Budget.spent b + units)%N → e ≠ ExprEvalError.Cycle → R e) →
  runs (spend units) (b, s) Q R.
Proof.
  intros Ha HQ HR. unfold runs, spend, update_state. cbn [fst snd].
  destruct (N.le_gt_cases (Budget.spent b + units) (Limits.max_evaluation_work lim)) as [Hle|Hgt].
  - rewrite spend_fits by (rewrite Ha; assumption). by apply HQ.
  - destruct (Budget.spend b units) as [b'|e] eqn:Hb; [|by apply HR].
    apply spend_ok in Hb as [_ Hle]. rewrite Ha in Hle. by apply N.lt_nge in Hgt.
Qed.

Lemma push_deps_spec names :
  match push_deps sys names with
  | Ok deps => deps = variables_of names
  | Err e => e ≠ ExprEvalError.Cycle
      ∧ ∃ raw, raw ∈ names ∧ VariablesSystem.symbol_variable sys raw = None ∧ unit_quantity raw = Err e
  end.
Proof.
  induction names as [|raw names IH]; [done|]. cbn [push_deps].
  unfold variables_of in *. cbn [omap list_omap].
  destruct (VariablesSystem.symbol_variable sys raw) as [d|] eqn:Hd.
  - unfold mbind, result_bind. destruct (push_deps sys names) as [deps|e]; [by rewrite IH|].
    destruct IH as (Hne & raw' & Hin & Hv & Hu). split; [done|]. exists raw'.
    split_and!; [apply elem_of_cons; by right|done|done].
  - unfold mbind, result_bind. destruct (unit_quantity raw) as [q|e] eqn:Hq.
    + destruct (push_deps sys names) as [deps|e]; [done|].
      destruct IH as (Hne & raw' & Hin & Hv & Hu). split; [done|]. exists raw'.
      split_and!; [apply elem_of_cons; by right|done|done].
    + split; [|exists raw; split_and!; [apply elem_of_cons; by left|done|done]].
      revert Hq. unfold unit_quantity, quantity, result_map_err, Quantity.new.
      destruct (lookup raw); [|by intros [= <-]]. destruct (negb _); by intros [= <-].
Qed.

(** ** The machine's steps *)
Section steps.
Context (root : VariableId.t) (st0 : States) (spent0 : N).
(** The scratch an evaluation starts from holds settled variables only. *)
Context (Hbase : ∀ d x, st0 !! d = Some x → ∃ r, x = Some r).
Abbreviation Refused := (refused root st0 spent0).
Abbreviation Machine := (machine root st0 spent0).

(** A bound crossed in the machine refutes the meaning of the root. *)
Lemma refused_height b s d done below_height e :
  Machine [d] done b s → (EvalScratch.stack s = [] → d = root) →
  (∀ q h, denotes d q h → (below_height ≤ h)%N) →
  (max_depth < lenN (EvalScratch.stack s) + below_height)%N → e ≠ ExprEvalError.Cycle → Refused e.
Proof.
  intros Hm Hempty Hbelow Hlt Hne. split; [|done]. intros q h Hden Hh _.
  destruct (stack_height _ _ _ d root q h (m_stack _ _ _ _ _ _ _ Hm) eq_refl Hempty
              (m_root _ _ _ _ _ _ _ Hm) Hden) as (q' & h' & Hd & Hle).
  specialize (Hbelow _ _ Hd). lia.
Qed.

Lemma refused_work b s above done extra e :
  Machine above done b s →
  (sum_nodes extra + sum_nodes extra + Budget.spent b + sum_nodes (Frame.id <$> EvalScratch.stack s)
     > Limits.max_evaluation_work lim)%N →
  NoDup (extra ++ done ++ (Frame.id <$> EvalScratch.stack s)) →
  (∀ d, d ∈ extra → st0 !! d = None ∧ rtc depends root d) →
  e ≠ ExprEvalError.Cycle → Refused e.
Proof.
  intros Hm Hgt Hnd Hextra Hne. split; [|done]. intros q h _ _ Hfits.
  specialize (Hfits (extra ++ done ++ (Frame.id <$> EvalScratch.stack s)) Hnd).
  rewrite !sum_nodes_app in Hfits. rewrite (m_spent _ _ _ _ _ _ _ Hm) in Hgt.
  assert (∀ d, d ∈ extra ++ done ++ (Frame.id <$> EvalScratch.stack s) →
    st0 !! d = None ∧ rtc depends root d) as Hall.
  { intros d [Hd|Hd]%elem_of_app; [by apply Hextra|]. by apply (m_new _ _ _ _ _ _ _ Hm). }
  specialize (Hfits Hall). lia.
Qed.

(** ... as a reachable variable without a meaning does. *)
Lemma refused_meaning d e :
  rtc depends root d → (∀ q h, ¬ denotes d q h) → e ≠ ExprEvalError.Cycle → Refused e.
Proof.
  intros Hr Hno Hne. split; [|done]. intros q h Hden _ _.
  destruct (denotes_reach _ _ _ _ Hden Hr) as (q' & h' & Hd & _). by apply (Hno q' h').
Qed.

Lemma unit_without_meaning id v raw e :
  VariablesSystem.get sys id = Some v → raw ∈ refs (expr_of v) →
  VariablesSystem.symbol_variable sys raw = None → unit_quantity raw = Err e →
  ∀ q h, ¬ denotes id q h.
Proof.
  intros Hv Hraw Hs Hu q h Hden. inversion Hden as [id' v' q' values heights Hv' Hds Hq]; subst.
  rewrite Hv in Hv'. injection Hv' as <-.
  destruct (eval_ref_symbols _ _ _ _ Hq Hraw) as [x Hx]. unfold env_of in Hx. by rewrite Hs, Hu in Hx.
Qed.

Definition pushed (id : VariableId.t) (s : EvalScratch.t) : EvalScratch.t :=
  EvalScratch.mk
    (Frame.mk id (length (EvalScratch.deps s)) (length (EvalScratch.deps s)) 1 :: EvalScratch.stack s)
    (EvalScratch.deps s ++ deps_of id) (<[id := None]> (EvalScratch.state s)).

Lemma pushed_machine id done b s :
  Machine [id] done b s → (EvalScratch.stack s = [] → id = root) →
  EvalScratch.state s !! id = None → is_Some (VariablesSystem.get sys id) →
  rtc depends root id → (lenN (EvalScratch.stack s) + 1 ≤ max_depth)%N →
  (Budget.spent b + nodes_of id ≤ Limits.max_evaluation_work lim)%N →
  Machine [] done (Budget.mk (Budget.spent b + nodes_of id) (Budget.allowed b)) (pushed id s).
Proof.
  intros [Hd Hs Hroot Hids Hon Hdone Hrest Hnew Hmean Hspent Hall Hwithin Hin] Hempty Hnone Hget Hreach Hle Hfits.
  assert (id ∉ done) as Hnd by (intros Hd'; destruct (Hdone _ Hd') as [r Hr]; congruence).
  assert (id ∉ Frame.id <$> EvalScratch.stack s) as Hns by (intros Hd'; specialize (Hon _ Hd'); congruence).
  assert (∀ d r, settled (EvalScratch.state s) d r → settled (<[id := None]> (EvalScratch.state s)) d r) as Hmono.
  { intros d r Hr. unfold settled. rewrite lookup_insert_ne by (intros ->; congruence). done. }
  split; cbn [pushed EvalScratch.deps EvalScratch.stack EvalScratch.state layout stack_ok Frame.id
    Frame.deps_start Frame.next Frame.height Budget.spent Budget.allowed].
  - by rewrite Hd.
  - split_and!; [by rewrite Hd|done| | |done|by eapply stack_ok_mono].
    + exists []. rewrite Nat.sub_diag. split_and!; [done|done|by intros d ?%elem_of_nil|done].
    + lia.
  - intros f. destruct (EvalScratch.stack s) as [|g below] eqn:Hst.
    + intros [= <-]. by apply Hempty.
    + intros Hf. apply Hroot. done.
  - rewrite fmap_cons. cbn [Frame.id]. rewrite NoDup_app in Hids |- *.
    destruct Hids as (H1 & H2 & H3). split_and!; [done| |by constructor].
    intros d Hdd. rewrite not_elem_of_cons. split; [congruence|by apply H2].
  - intros d. rewrite fmap_cons, elem_of_cons. cbn [Frame.id]. intros [->|Hd'].
    + by rewrite lookup_insert_eq.
    + rewrite lookup_insert_ne by congruence. by apply Hon.
  - intros d Hd'. destruct (Hdone _ Hd') as [r Hr]. eauto.
  - intros d Hnin. rewrite fmap_cons, not_elem_of_cons. cbn [Frame.id]. intros [Hne Hnst].
    rewrite lookup_insert_ne by done. by apply Hrest.
  - intros d. rewrite fmap_cons, elem_of_app, elem_of_cons. cbn [Frame.id]. intros [Hd'|[->|Hd']].
    + apply Hnew, elem_of_app. by left.
    + split; [|done]. by rewrite <- (Hrest id Hnd Hns).
    + apply Hnew, elem_of_app. by right.
  - intros d r Hr. assert (settled (EvalScratch.state s) d r) as Hr'.
    { unfold settled in Hr. destruct (decide (id = d)) as [->|Hne];
        [by rewrite lookup_insert_eq in Hr|by rewrite lookup_insert_ne in Hr]. }
    destruct (Hmean d r Hr') as (Hden & Hh & Hdeps). split_and!; [done|done|].
    intros d' Hd'. destruct (Hdeps d' Hd') as [r' ?]. eauto.
  - rewrite fmap_cons. cbn [Frame.id sum_nodes foldr]. rewrite Hspent. unfold sum_nodes. lia.
  - done.
  - done.
  - left. rewrite fmap_cons. cbn [Frame.id]. destruct Hin as [Hin|(-> & Hst & [= ->])].
    + rewrite elem_of_app, elem_of_cons in *. tauto.
    + apply elem_of_cons. by left.
Qed.

Lemma push_frame_runs id done b s :
  Machine [id] done b s → (EvalScratch.stack s = [] → id = root) →
  EvalScratch.state s !! id = None → is_Some (VariablesSystem.get sys id) → rtc depends root id →
  runs (push_frame sys id) (b, s)
    (λ _ w, ∃ b', w = (b', pushed id s) ∧ Machine [] done b' (pushed id s)) Refused.
Proof.
  intros Hm Hempty Hnone [v Hv] Hreach. unfold push_frame.
  apply runs_bind. apply (runs_ret s). cbn beta. apply runs_bind.
  apply admit_reach_runs.
  2: { intros e Hlt Hne. eapply refused_height; [exact Hm|exact Hempty| |exact Hlt|exact Hne].
    intros q h Hden. inversion Hden; subst. apply height_over_pos. }
  intros Hle. apply runs_bind. unfold expression_of. rewrite Hv. apply runs_ret.
  apply runs_bind. apply spend_runs; [by apply (m_allowed _ _ _ _ _ _ _ Hm)| |].
  2: { intros e Hlt Hne. assert (id ∉ done ++ (Frame.id <$> EvalScratch.stack s)) as Hnot.
    { intros [Hin|Hin]%elem_of_app.
      - destruct (m_done _ _ _ _ _ _ _ Hm _ Hin) as [r Hr]. unfold settled in Hr. congruence.
      - pose proof (m_on _ _ _ _ _ _ _ Hm _ Hin). congruence. }
    apply (refused_work b s [id] done [id] e Hm).
    - cbn [sum_nodes foldr]. unfold nodes_of. rewrite Hv. lia.
    - apply NoDup_cons. split; [done|apply (m_ids _ _ _ _ _ _ _ Hm)].
    - intros d ->%list_elem_of_singleton. split; [|done].
      rewrite not_elem_of_app in Hnot. rewrite <- (m_rest _ _ _ _ _ _ _ Hm id); tauto.
    - done. }
  intros Hfits. apply runs_bind, runs_lift.
  pose proof (push_deps_spec (refs (expr_of v))) as Hdeps. unfold expr_of in Hdeps.
  destruct (push_deps sys _) as [deps|e].
  2: { destruct Hdeps as (Hne & raw & Hin & Hs & Hu).
    eapply refused_meaning; [exact Hreach| |exact Hne]. by eapply unit_without_meaning. }
  assert (deps = deps_of id) as -> by (unfold deps_of, expr_of; by rewrite Hv).
  eexists. split; [done|].
  assert (CompiledExpression.nodes (Variable_.expression v) = nodes_of id) as Hn
    by (unfold nodes_of; by rewrite Hv). rewrite Hn in *.
  by apply pushed_machine.
Qed.

(** *** Visiting *)
Lemma machine_set_top g above' above done b s f below :
  Machine above done b s → EvalScratch.stack s = f :: below → Frame.id (g f) = Frame.id f →
  stack_ok (EvalScratch.state s) above' (g f :: below) →
  Machine above' done b (EvalScratch.set_top g s).
Proof.
  intros [Hd Hs Hroot Hids Hon Hdone Hrest Hnew Hmean Hspent Hall Hwithin Hin] Hst Hg Hok.
  assert (Frame.id <$> EvalScratch.stack (EvalScratch.set_top g s) = Frame.id <$> EvalScratch.stack s) as Hsame.
  { unfold EvalScratch.set_top. rewrite Hst. cbn. by rewrite Hg. }
  split; rewrite ?Hsame; try done.
  - unfold EvalScratch.set_top. cbn. rewrite Hd, Hst. cbn. by rewrite Hg.
  - unfold EvalScratch.set_top. cbn. by rewrite Hst.
  - unfold EvalScratch.set_top. cbn. rewrite Hst in *. intros h. destruct below as [|f' below]; [|apply Hroot].
    intros [= <-]. rewrite Hg. by apply Hroot.
  - left. destruct Hin as [Hin|(_ & Hnil & _)]; [done|]. by rewrite Hst in Hnil.
Qed.

Lemma visited_machine done b s f below d :
  Machine [] done b s → EvalScratch.stack s = f :: below →
  EvalScratch.deps s !! Frame.next f = Some d →
  Machine [d] done b (EvalScratch.set_top Frame.visit_next s) ∧ depends (Frame.id f) d.
Proof.
  intros Hm Hst Hlook. pose proof (m_stack _ _ _ _ _ _ _ Hm) as Hok. rewrite Hst in Hok.
  rewrite (m_deps _ _ _ _ _ _ _ Hm), Hst in Hlook. cbn [layout] in Hlook.
  pose proof Hok as (Hs & Hn & (seen & Htake & Hlen & Hseen & Hh) & Hb & Hget & Hbelow).
  rewrite lookup_app_r in Hlook by lia. rewrite <- Hs in Hlook.
  set (k := Frame.next f - Frame.deps_start f) in *.
  assert (take (S k) (deps_of (Frame.id f)) = seen ++ [d]) as Htake'.
  { rewrite (take_S_r _ _ _ Hlook), Htake. by rewrite app_nil_r. }
  assert (stack_ok (EvalScratch.state s) [d] (Frame.visit_next f :: below)) as Hok'.
  { cbn [stack_ok Frame.visit_next Frame.deps_start Frame.next Frame.id Frame.height].
    split_and!; [done|lia| |done|done|done]. exists seen.
    replace (S (Frame.next f) - Frame.deps_start f) with (S k) by lia.
    split_and!; [done| |done|done]. rewrite length_app in *. cbn in *. lia. }
  split; [by eapply machine_set_top; [exact Hm|exact Hst|..]|]. by apply (above_depends _ _ _ _ Hok').
Qed.

Lemma memo_machine done b s f below d r :
  Machine [d] done b s → EvalScratch.stack s = f :: below → settled (EvalScratch.state s) d r →
  (lenN (EvalScratch.stack s) + Resolved.height r ≤ max_depth)%N →
  Machine [] done b (EvalScratch.set_top (Frame.raise (Resolved.height r + 1)) s).
Proof.
  intros Hm Hst Hr Hle. pose proof (m_stack _ _ _ _ _ _ _ Hm) as Hok. rewrite Hst in Hok, Hle.
  destruct Hok as (Hs & Hn & (seen & Htake & Hlen & Hseen & Hh) & Hb & Hget & Hbelow).
  eapply machine_set_top; [exact Hm|exact Hst|done|].
  cbn [stack_ok Frame.raise Frame.deps_start Frame.next Frame.id Frame.height].
  split_and!; [done|done| |unfold lenN in *; cbn [length] in Hle; lia|done|done].
  exists (seen ++ [d]). rewrite app_nil_r. split_and!; [done|done| |].
  - intros d' [Hd'|Hd'%list_elem_of_singleton]%elem_of_app; [by apply Hseen|subst d'; eauto].
  - rewrite height_over_app, <- Hh. unfold height_in. by rewrite Hr.
Qed.

(** *** The measure of what is left *)
Definition all_ids : list VariableId.t :=
  (λ i, VariableId.mk (N.of_nat i)) <$> seq 0 (length (VariablesSystem.variables sys)).
Definition weight (d : VariableId.t) : nat := 2 + length (deps_of d).
Definition unseen st : nat := sum_list_with weight (filter (λ d, st !! d = None) all_ids).
Definition frame_left (f : Frame.t) : nat :=
  S (Frame.deps_start f + length (deps_of (Frame.id f)) - Frame.next f).
Definition left_to_do (s : EvalScratch.t) : nat :=
  unseen (EvalScratch.state s) + sum_list_with frame_left (EvalScratch.stack s).

Lemma all_ids_elem d : is_Some (VariablesSystem.get sys d) → d ∈ all_ids.
Proof.
  intros Hget. unfold all_ids. apply list_elem_of_fmap. exists (N.to_nat (VariableId.raw d)).
  destruct d as [d]. cbn. rewrite N2Nat.id. split; [done|]. apply elem_of_seq.
  apply lookup_lt_is_Some in Hget. cbn in Hget. lia.
Qed.

Lemma unseen_mono st st' l :
  (∀ d, st' !! d = None → st !! d = None) →
  sum_list_with weight (filter (λ d, st' !! d = None) l)
    ≤ sum_list_with weight (filter (λ d, st !! d = None) l).
Proof.
  intros Hmono. induction l as [|d l IH]; [done|]. rewrite !filter_cons.
  destruct (decide (st' !! d = None)) as [Hd|Hd].
  - rewrite decide_True by by apply Hmono. cbn [sum_list_with]. lia.
  - case_decide; cbn [sum_list_with]; lia.
Qed.
Lemma unseen_insert st d x :
  st !! d = None → is_Some (VariablesSystem.get sys d) → unseen (<[d := x]> st) + weight d ≤ unseen st.
Proof.
  intros Hnone Hget. unfold unseen. pose proof (all_ids_elem d Hget) as Hin.
  assert (∀ l, d ∈ l → sum_list_with weight (filter (λ d', <[d := x]> st !! d' = None) l) + weight d
    ≤ sum_list_with weight (filter (λ d', st !! d' = None) l)) as Hgen; [|by apply Hgen].
  assert (∀ d', <[d := x]> st !! d' = None → st !! d' = None) as Hmono.
  { intros d' [? ?]%lookup_insert_None. done. }
  induction l as [|d' l IH]; intros Hd; [by apply elem_of_nil in Hd|]. rewrite !filter_cons.
  apply elem_of_cons in Hd as [<-|Hd].
  - rewrite lookup_insert_eq, (decide_True _ _ Hnone), decide_False by done. cbn [sum_list_with].
    pose proof (unseen_mono st (<[d := x]> st) l Hmono). lia.
  - specialize (IH Hd). destruct (decide (<[d := x]> st !! d' = None)) as [Hd'|Hd'].
    + rewrite decide_True by by apply Hmono. cbn [sum_list_with]. lia.
    + case_decide; cbn [sum_list_with]; lia.
Qed.
Lemma unseen_le st : unseen st ≤ sum_list_with weight all_ids.
Proof.
  unfold unseen. generalize all_ids. intros l. induction l as [|d l IH]; [done|].
  rewrite filter_cons. case_decide; cbn [sum_list_with]; lia.
Qed.
Lemma unseen_settle st d x : st !! d ≠ None → unseen (<[d := x]> st) ≤ unseen st.
Proof. intros _. apply unseen_mono. by intros d' [? ?]%lookup_insert_None. Qed.

Lemma push_left id s :
  EvalScratch.state s !! id = None → is_Some (VariablesSystem.get sys id) →
  left_to_do (pushed id s) < left_to_do s.
Proof.
  intros Hnone Hget. pose proof (unseen_insert _ id None Hnone Hget).
  unfold left_to_do, pushed. cbn [EvalScratch.state EvalScratch.stack sum_list_with].
  unfold frame_left at 1. cbn [Frame.deps_start Frame.next Frame.id]. unfold weight in *. lia.
Qed.
Lemma visit_left s f below :
  EvalScratch.stack s = f :: below →
  Frame.next f < Frame.deps_start f + length (deps_of (Frame.id f)) →
  left_to_do (EvalScratch.set_top Frame.visit_next s) < left_to_do s.
Proof.
  intros Hst Hlt. unfold left_to_do, EvalScratch.set_top. rewrite Hst. cbn. unfold frame_left. cbn. lia.
Qed.
Lemma raise_left s h : left_to_do (EvalScratch.set_top (Frame.raise h) s) = left_to_do s.
Proof. unfold left_to_do, EvalScratch.set_top. cbn. by destruct (EvalScratch.stack s). Qed.

Definition progress s (w : Budget.t * EvalScratch.t) : Prop :=
  ∃ done, Machine [] done w.1 w.2 ∧ left_to_do w.2 < left_to_do s.

Lemma depends_known id d : depends id d → is_Some (VariablesSystem.get sys d).
Proof.
  unfold depends, deps_of. destruct (VariablesSystem.get sys id); [|by intros ?%elem_of_nil].
  intros (raw & _ & Hs)%list_elem_of_omap. by eapply Hindex.
Qed.

(** A reference to a variable on the stack closes a cycle. *)
Lemma visit_cycle done b s f below d :
  Machine [d] done b s → EvalScratch.stack s = f :: below → depends (Frame.id f) d →
  EvalScratch.state s !! d = Some None → Refused ExprEvalError.Cycle.
Proof.
  intros Hm Hst Hdep Hnone.
  assert (d ∈ Frame.id <$> EvalScratch.stack s) as Hin.
  { destruct (decide (d ∈ Frame.id <$> EvalScratch.stack s)) as [|Hns]; [done|].
    destruct (decide (d ∈ done)) as [Hd|Hd].
    - destruct (m_done _ _ _ _ _ _ _ Hm _ Hd) as [r Hr]. unfold settled in Hr. congruence.
    - rewrite (m_rest _ _ _ _ _ _ _ Hm _ Hd Hns) in Hnone. by destruct (Hbase _ _ Hnone). }
  assert (tc depends d d) as Hcycle.
  { apply list_elem_of_fmap in Hin as (g & -> & Hg). rewrite Hst in Hg.
    pose proof (m_stack _ _ _ _ _ _ _ Hm) as Hok. rewrite Hst in Hok.
    eapply tc_rtc_l; [by eapply stack_chain|]. by apply tc_once. }
  assert (rtc depends root d) as Hreach by (apply (m_new _ _ _ _ _ _ _ Hm), elem_of_app; by right).
  split; [|by eauto]. intros q h Hden _ _.
  destruct (denotes_reach _ _ _ _ Hden Hreach) as (q' & h' & Hd & _).
  by apply (denotes_acyclic _ _ _ Hd).
Qed.

Lemma visit_runs done b s f below d :
  Machine [] done b s → EvalScratch.stack s = f :: below →
  EvalScratch.deps s !! Frame.next f = Some d →
  runs (visit sys d) (b, s) (λ _ w, progress s w) Refused.
Proof.
  intros Hm Hst Hlook. destruct (visited_machine _ _ _ _ _ _ Hm Hst Hlook) as [Hm' Hdep].
  set (s' := EvalScratch.set_top Frame.visit_next s) in *.
  assert (EvalScratch.stack s' = Frame.visit_next f :: below) as Hst' by (subst s'; cbn; by rewrite Hst).
  assert (left_to_do s' < left_to_do s) as Hleft.
  { eapply visit_left; [exact Hst|]. apply lookup_lt_Some in Hlook.
    rewrite (m_deps _ _ _ _ _ _ _ Hm), Hst in Hlook. cbn in Hlook.
    pose proof (m_stack _ _ _ _ _ _ _ Hm) as Hok. rewrite Hst in Hok. destruct Hok as [-> _].
    by rewrite length_app in Hlook. }
  assert (rtc depends root (Frame.id f)) as Hreach.
  { apply (m_new _ _ _ _ _ _ _ Hm). rewrite Hst. apply elem_of_app. right. by apply elem_of_cons; left. }
  unfold visit. apply runs_bind. unfold runs at 1, put_scratch at 1. cbn [fst snd]. fold s'.
  apply runs_bind. apply (runs_ret s' (b, s')). cbn beta.
  destruct (EvalScratch.state s' !! d) as [[r|]|] eqn:Hstate.
  - apply runs_bind, admit_reach_runs.
    + intros Hle. exists done. cbn [fst snd]. split; [by eapply memo_machine|]. by rewrite raise_left.
    + intros e Hlt Hne. eapply (refused_height b s' d); [exact Hm'| | |exact Hlt|exact Hne].
      * by rewrite Hst'.
      * intros q h Hden. destruct (m_meaning _ _ _ _ _ _ _ Hm' _ _ Hstate) as [Hden' _].
        by destruct (denotes_fun _ _ _ _ _ Hden Hden') as [_ ->].
  - by eapply visit_cycle.
  - eapply runs_impl; [eapply push_frame_runs; [exact Hm'| |exact Hstate| |]|].
    + by rewrite Hst'.
    + by eapply depends_known.
    + by eapply rtc_r.
    + intros _ w (b' & -> & Hm''). exists done. cbn [fst snd]. split; [exact Hm''|].
      etrans; [|exact Hleft]. apply push_left; [done|by eapply depends_known].
Qed.

(** *** Settling *)

(** The values the machine has settled, as an environment. *)
Definition value_in st (d : VariableId.t) : Quantity.t :=
  match st !! d with Some (Some r) => Resolved.value r | _ => Quantity.mk F64.zero Dimension.DIMENSIONLESS end.
Definition env_in st (raw : string) : result ExprEvalError.t Quantity.t :=
  match VariablesSystem.symbol_variable sys raw with
  | None => unit_quantity raw
  | Some target =>
    match st !! target with Some (Some r) => Ok (Resolved.value r) | _ => Err ExprEvalError.Cycle end
  end.

Lemma settled_value_reads s b : reads (env_in (EvalScratch.state s)) (settled_value sys) (b, s).
Proof.
  intros raw b'. unfold settled_value, env_in. cbn [snd].
  destruct (VariablesSystem.symbol_variable sys raw) as [d|].
  - rewrite (bind_some get_scratch _ _ s (b', s)) by done.
    by destruct (EvalScratch.state s !! d) as [[r|]|].
  - unfold lift. by destruct (unit_quantity raw).
Qed.

Lemma env_in_settled st id v :
  VariablesSystem.get sys id = Some v → (∀ d, d ∈ deps_of id → ∃ r, settled st d r) →
  (∀ raw, raw ∈ refs (expr_of v) → env_in st raw = env_of (value_in st) raw).
Proof.
  intros Hv Hdeps raw Hraw. unfold env_in, env_of, value_in.
  destruct (VariablesSystem.symbol_variable sys raw) as [d|] eqn:Hd; [|done].
  destruct (Hdeps d) as [r Hr]; [|by rewrite Hr].
  unfold deps_of. rewrite Hv. by eapply variables_of_elem.
Qed.

(** When the arena is exhausted, everything the top frame depends on is settled. *)
Lemma top_settled st f below n :
  stack_ok st [] (f :: below) → n = length (layout (f :: below)) → ¬ Frame.next f < n →
  (∀ d, d ∈ deps_of (Frame.id f) → ∃ r, settled st d r)
  ∧ Frame.height f = height_over (height_in st) (deps_of (Frame.id f)).
Proof.
  intros (Hs & Hn & (seen & Htake & Hlen & Hseen & Hh) & _) -> Hge. cbn [layout] in Hge.
  rewrite length_app, <- Hs in Hge. rewrite app_nil_r in *.
  rewrite take_ge in Htake by lia. by subst seen.
Qed.

Definition popped (f : Frame.t) (q : Quantity.t) (s : EvalScratch.t) : EvalScratch.t :=
  EvalScratch.mk (tail (EvalScratch.stack s)) (take (Frame.deps_start f) (EvalScratch.deps s))
    (<[Frame.id f := Some (Resolved.mk q (Frame.height f))]> (EvalScratch.state s)).

Lemma popped_machine done b s f below q v :
  Machine [] done b s → EvalScratch.stack s = f :: below →
  ¬ Frame.next f < length (EvalScratch.deps s) →
  VariablesSystem.get sys (Frame.id f) = Some v →
  eval_ref (env_of (value_in (EvalScratch.state s))) (expr_of v) = Ok q →
  (Budget.spent b + nodes_of (Frame.id f) ≤ Limits.max_evaluation_work lim)%N →
  Machine [Frame.id f] (done ++ [Frame.id f])
    (Budget.mk (Budget.spent b + nodes_of (Frame.id f)) (Budget.allowed b)) (popped f q s).
Proof.
  intros [Hd Hs Hroot Hids Hon Hdone Hrest Hnew Hmean Hspent Hall Hwithin Hin] Hst Hge Hv Hq Hfits.
  rewrite Hst in *. rewrite Hd in Hge. rewrite fmap_cons in *.
  destruct (top_settled _ _ _ _ Hs eq_refl Hge) as [Hdeps Hheight].
  pose proof Hs as (Hstart & _ & _ & Hbound & _ & Hbelow).
  assert (EvalScratch.state s !! Frame.id f = Some None) as Hnone by (apply Hon, elem_of_cons; by left).
  assert (∀ d r, settled (EvalScratch.state s) d r → settled (EvalScratch.state (popped f q s)) d r) as Hmono.
  { intros d r Hr. unfold settled, popped. cbn. rewrite lookup_insert_ne; [done|].
    intros <-. unfold settled in Hr. congruence. }
  assert (done ++ Frame.id f :: (Frame.id <$> below) = (done ++ [Frame.id f]) ++ (Frame.id <$> below)) as Hassoc
    by by rewrite <- app_assoc.
  rewrite Hassoc in Hids, Hnew.
  split; unfold popped; cbn [EvalScratch.deps EvalScratch.stack EvalScratch.state Budget.spent Budget.allowed];
    rewrite ?Hst; cbn [tail].
  - rewrite Hd. cbn [layout]. by rewrite Hstart, take_app_length.
  - eapply stack_ok_mono; [exact Hmono|]. done.
  - intros g Hg. apply Hroot. destruct below; [done|by cbn].
  - done.
  - intros d Hd'. rewrite lookup_insert_ne; [apply Hon, elem_of_cons; by right|].
    intros <-. apply NoDup_app in Hids as (_ & Hdisj & _).
    apply (Hdisj (Frame.id f)); [apply elem_of_app; right; apply elem_of_cons; by left|done].
  - intros d [Hd'|Hd'%list_elem_of_singleton]%elem_of_app.
    + destruct (Hdone _ Hd') as [r Hr]. eauto.
    + subst d. eexists. unfold settled. by rewrite lookup_insert_eq.
  - intros d [Hnd Hnf]%not_elem_of_app Hnb. rewrite not_elem_of_cons in Hnf. destruct Hnf as [Hnf _].
    rewrite lookup_insert_ne by congruence. apply Hrest; [done|]. by apply not_elem_of_cons.
  - apply Hnew.
  - intros d r Hr. unfold settled in Hr. destruct (decide (Frame.id f = d)) as [<-|Hne].
    + rewrite lookup_insert_eq in Hr. injection Hr as <-. cbn [Resolved.value Resolved.height].
      split_and!; [| |intros d' Hd'; destruct (Hdeps d' Hd') as [r' ?]; eauto].
      * rewrite Hheight. eapply denotes_intro; [exact Hv| |exact Hq].
        intros d' Hd'. destruct (Hdeps d' Hd') as [r' Hr']. unfold value_in, height_in. rewrite Hr'.
        by apply Hmean.
      * lia.
    + rewrite lookup_insert_ne in Hr by done. destruct (Hmean d r Hr) as (Hden & Hh & Hds).
      split_and!; [done|done|]. intros d' Hd'. destruct (Hds d' Hd') as [r' ?]. eauto.
  - rewrite Hspent, sum_nodes_app, !sum_nodes_cons. change (sum_nodes []) with 0%N. lia.
  - done.
  - done.
  - left. rewrite <- Hassoc. by destruct Hin as [Hin|(_ & Hnil & _)].
Qed.

(** The frame below takes the settled height. *)
Lemma raised_machine done b s f q :
  Machine [Frame.id f] (done ++ [Frame.id f]) b (popped f q s) →
  (Frame.height f + lenN (EvalScratch.stack (popped f q s)) ≤ max_depth)%N →
  Machine [] (done ++ [Frame.id f]) b (EvalScratch.set_top (Frame.raise (Frame.height f + 1)) (popped f q s)).
Proof.
  intros Hm Hle. destruct (EvalScratch.stack (popped f q s)) as [|g below] eqn:Hst.
  - destruct Hm as [Hd Hs Hroot Hids Hon Hdone Hrest Hnew Hmean Hspent Hall Hwithin Hin].
    unfold EvalScratch.set_top. rewrite Hst in *. split; try done.
    left. destruct Hin as [Hin|(Hnil & _)]; [done|]. by apply app_nil in Hnil as [_ ?].
  - eapply (memo_machine (done ++ [Frame.id f]) b (popped f q s) g below (Frame.id f) (Resolved.mk q (Frame.height f)));
      [exact Hm|exact Hst| |].
    + unfold settled, popped. cbn. by rewrite lookup_insert_eq.
    + rewrite Hst. cbn [Resolved.height]. lia.
Qed.

(** An expression that fails on the settled values has no meaning. *)
Lemma refused_eval done b s f below v e :
  Machine [] done b s → EvalScratch.stack s = f :: below →
  VariablesSystem.get sys (Frame.id f) = Some v → rtc depends root (Frame.id f) →
  (∀ d, d ∈ deps_of (Frame.id f) → ∃ r, settled (EvalScratch.state s) d r) →
  eval_ref (env_of (value_in (EvalScratch.state s))) (expr_of v) = Err e → Refused e.
Proof.
  intros Hm Hst Hv Hreach Hdeps Herr. eapply refused_meaning; [exact Hreach| |].
  - intros q h Hden. inversion Hden as [id v' q' values heights Hv' Hds Hq]; subst.
    rewrite Hv in Hv'. injection Hv' as <-.
    assert (eval_ref (env_of (value_in (EvalScratch.state s))) (expr_of v)
            = eval_ref (env_of values) (expr_of v)) as Heq; [|congruence].
    eapply env_of_ext; [exact Hv|]. intros d Hd. destruct (Hdeps d Hd) as [r Hr].
    unfold value_in. rewrite Hr. destruct (m_meaning _ _ _ _ _ _ _ Hm _ _ Hr) as [Hden' _].
    by destruct (denotes_fun _ _ _ _ _ Hden' (Hds d Hd)) as [-> _].
  - intros ->. apply eval_ref_cycle in Herr as (raw & _ & Hraw). unfold env_of in Hraw.
    destruct (VariablesSystem.symbol_variable sys raw); [done|]. by apply unit_quantity_not_cycle in Hraw.
Qed.

Lemma settle_runs done b s f below :
  Machine [] done b s → EvalScratch.stack s = f :: below →
  ¬ Frame.next f < length (EvalScratch.deps s) →
  runs (settle sys f) (b, s) (λ _ w, progress s w) Refused.
Proof.
  intros Hm Hst Hge. pose proof (m_stack _ _ _ _ _ _ _ Hm) as Hok. rewrite Hst in Hok.
  pose proof Hge as Hge'. rewrite (m_deps _ _ _ _ _ _ _ Hm), Hst in Hge'.
  destruct (top_settled _ _ _ _ Hok eq_refl Hge') as [Hdeps Hheight].
  pose proof Hok as (Hstart & _ & _ & Hbound & [v Hv] & Hbelow).
  assert (rtc depends root (Frame.id f)) as Hreach.
  { apply (m_new _ _ _ _ _ _ _ Hm). rewrite Hst. apply elem_of_app. right. by apply elem_of_cons; left. }
  pose proof (env_in_settled _ _ _ Hv Hdeps) as Henv.
  pose proof (eval_ref_ext _ _ (expr_of v) Henv) as Hext.
  unfold settle. apply runs_bind. unfold expression_of. rewrite Hv. apply runs_ret. apply runs_bind.
  fold (expr_of v).
  assert (Budget.allowed b ≤ u64_max)%N as Hallowed by (rewrite (m_allowed _ _ _ _ _ _ _ Hm); exact Hwork).
  destruct (N.le_gt_cases (Budget.spent b + expr_size (expr_of v)) (Budget.allowed b)) as [Hfits|Hover].
  - unfold runs at 1. rewrite (eval_ast_spends _ _ _ (b, s) Hallowed (settled_value_reads s b) Hfits).
    rewrite Hext. destruct (eval_ref (env_of _) _) as [q|e] eqn:Hq; [|by eapply refused_eval].
    cbn [fst snd]. exists (done ++ [Frame.id f]). cbn [fst snd].
    change (EvalScratch.mk (tail (EvalScratch.stack s)) _ _) with (popped f q s). split.
    + apply raised_machine; [|unfold popped; cbn; by rewrite Hst].
      assert (expr_size (expr_of v) = nodes_of (Frame.id f)) as Hn
        by (unfold nodes_of; rewrite Hv; symmetry; by apply Hnodes with (id := Frame.id f)).
      cbn [fst] in Hfits. rewrite Hn, (m_allowed _ _ _ _ _ _ _ Hm) in Hfits. rewrite Hn.
      eapply popped_machine; [exact Hm|exact Hst|exact Hge|exact Hv|exact Hq|exact Hfits].
    + rewrite raise_left. unfold left_to_do, popped. cbn. rewrite Hst. cbn.
      assert (EvalScratch.state s !! Frame.id f ≠ None) as Hsome.
      { rewrite (m_on _ _ _ _ _ _ _ Hm); [done|]. rewrite Hst. apply elem_of_cons. by left. }
      pose proof (unseen_settle _ _ (Some (Resolved.mk q (Frame.height f))) Hsome).
      unfold frame_left. lia.
  - destruct (eval_ast_over _ _ _ (b, s) Hallowed (settled_value_reads s b) Hover) as (err & Hev & Hor).
    unfold runs at 1. rewrite Hev. destruct Hor as [[l ->]|Hor].
    + eapply (refused_work b s [] done []); [exact Hm| |exact (m_ids _ _ _ _ _ _ _ Hm)| |done].
      * rewrite Hst, fmap_cons, sum_nodes_cons. change (sum_nodes []) with 0%N.
        rewrite (m_allowed _ _ _ _ _ _ _ Hm) in Hover. cbn [fst] in Hover.
        unfold nodes_of at 1. rewrite Hv, (Hnodes _ _ Hv). lia.
      * by intros d ?%elem_of_nil.
    + rewrite Hext in Hor. by eapply refused_eval.
Qed.

(** *** The loop *)
Lemma resolve_loop_runs fuel done b s :
  Machine [] done b s → left_to_do s < fuel →
  runs (resolve_loop sys fuel) (b, s)
    (λ _ w, ∃ done', Machine [] done' w.1 w.2 ∧ EvalScratch.stack w.2 = []) Refused.
Proof.
  revert done b s. induction fuel as [|fuel IH]; intros done b s Hm Hleft; [lia|].
  cbn [resolve_loop]. apply runs_bind, (runs_ret s (b, s)). cbn beta.
  destruct (EvalScratch.stack s) as [|f below] eqn:Hst.
  { apply runs_ret. exists done. by split. }
  apply runs_bind.
  assert (runs (if decide (Frame.next f < length (EvalScratch.deps s)) then
      match EvalScratch.deps s !! Frame.next f with Some d => visit sys d | None => out_of_fuel end
    else settle sys f) (b, s) (λ _ w, progress s w) Refused) as Hturn.
  { case_decide as Hlt; [|by eapply settle_runs].
    destruct (lookup_lt_is_Some_2 _ _ Hlt) as [d Hd]. rewrite Hd. by eapply visit_runs. }
  eapply runs_impl; [exact Hturn|]. intros _ [b' s'] (done' & Hm' & Hleft'). cbn [fst snd] in *.
  eapply IH; [exact Hm'|lia].
Qed.
End steps.

(** ** Whole evaluations *)

(** A scratch between evaluations: settled variables, each with its meaning and
    its dependencies settled. *)
Record ready st : Prop := {
  ready_settled : ∀ d x, st !! d = Some x → ∃ r, x = Some r;
  ready_meaning : ∀ d r, settled st d r →
    denotes d (Resolved.value r) (Resolved.height r)
    ∧ (Resolved.height r ≤ max_depth)%N
    ∧ ∀ d', d' ∈ deps_of d → ∃ r', settled st d' r'
}.

Lemma ready_empty : ready ∅.
Proof. split; intros d x; [by rewrite lookup_empty|unfold settled; by rewrite lookup_empty]. Qed.

Lemma ready_reach st root r d :
  ready st → settled st root r → rtc depends root d → ∃ r', settled st d r'.
Proof.
  intros [_ Hm] Hr Hreach. revert r Hr. induction Hreach as [d|root d' d Hd _ IH]; intros r Hr; [eauto|].
  destruct (Hm _ _ Hr) as (_ & _ & Hdeps). destruct (Hdeps d' Hd) as [r' Hr']. eauto.
Qed.

Lemma weights_fuel : sum_list_with weight all_ids < resolve_fuel sys.
Proof.
  unfold resolve_fuel, all_ids. apply le_n_S.
  assert (∀ pre suf, VariablesSystem.variables sys = pre ++ suf →
    sum_list_with weight ((λ i, VariableId.mk (N.of_nat i)) <$> seq (length pre) (length suf))
    ≤ sum_list_with (λ v, 2 + length (refs (CompiledExpression.ast (Variable_.expression v)))) suf) as Hgen.
  2: { by apply (Hgen []). }
  intros pre suf. revert pre. induction suf as [|v suf IH]; intros pre Heq; [done|].
  cbn [length seq]. rewrite fmap_cons. cbn [sum_list_with].
  specialize (IH (pre ++ [v])). rewrite length_app, Nat.add_1_r, <- app_assoc in IH. specialize (IH Heq).
  assert (weight (VariableId.mk (N.of_nat (length pre)))
          ≤ 2 + length (refs (CompiledExpression.ast (Variable_.expression v)))) as Hw; [|lia].
  unfold weight, deps_of, VariablesSystem.get. cbn [VariableId.raw]. rewrite Nat2N.id, Heq, list_lookup_middle by done.
  unfold variables_of, expr_of. apply le_n_S, le_n_S.
  induction (refs _) as [|x l IHl]; cbn; [lia|]. case_match; cbn; lia.
Qed.

Definition resting st : EvalScratch.t := EvalScratch.mk [] [] st.

Lemma initial_machine root st0 b :
  ready st0 → Budget.allowed b = Limits.max_evaluation_work lim →
  (Budget.spent b ≤ Limits.max_evaluation_work lim)%N →
  machine root st0 (Budget.spent b) [root] [] b (resting st0).
Proof.
  intros [Hset Hmean] Hall Hwithin. split; cbn; try done.
  - constructor.
  - by intros d ?%elem_of_nil.
  - by intros d ?%elem_of_nil.
  - by intros d ?%elem_of_nil.
  - lia.
  - by right.
Qed.

(** What a completed resolution did. *)
Record resolved root st0 (spent0 : N) (q : Quantity.t) (w : Budget.t * EvalScratch.t) : Prop := {
  resolved_meaning : ∃ h, denotes root q h ∧ (h ≤ max_depth)%N;
  resolved_ready : ∃ st, w.2 = resting st ∧ ready st ∧ (∀ d r, settled st0 d r → settled st d r)
    ∧ (∃ r, settled st root r) ∧ ∀ d, st !! d ≠ None → st0 !! d ≠ None ∨ rtc depends root d;
  resolved_work : ∃ ids, NoDup ids ∧ (∀ d, d ∈ ids ↔ st0 !! d = None ∧ rtc depends root d)
    ∧ Budget.spent w.1 = (spent0 + 2 * sum_nodes ids)%N
    ∧ (Budget.spent w.1 ≤ Limits.max_evaluation_work lim)%N;
  resolved_allowed : Budget.allowed w.1 = Limits.max_evaluation_work lim
}.

(** When the stack is empty, the scratch is ready again. *)
Lemma finished_ready root st0 spent0 ids b s :
  ready st0 → machine root st0 spent0 [] ids b s → EvalScratch.stack s = [] →
  s = resting (EvalScratch.state s) ∧ ready (EvalScratch.state s)
  ∧ (∀ d r, settled st0 d r → settled (EvalScratch.state s) d r)
  ∧ (∀ d, d ∈ ids → ∃ r, settled (EvalScratch.state s) d r)
  ∧ NoDup ids ∧ root ∈ ids.
Proof.
  intros [Hset Hmean0] [Hd Hs Hroot Hids Hon Hdone Hrest Hnew Hmean Hspent Hall Hwithin Hin] Hst.
  rewrite Hst in *. cbn [fmap list_fmap] in *. rewrite app_nil_r in *.
  split_and!; [|split| |done|done|by destruct Hin as [?|(_ & _ & ?)]].
  - destruct s as [stack deps state]. cbn in *. by subst.
  - intros d x Hx. destruct (decide (d ∈ ids)) as [Hd'|Hnin].
    + destruct (Hdone d Hd') as [r Hr]. unfold settled in Hr. rewrite Hr in Hx. injection Hx as <-. eauto.
    + rewrite Hrest in Hx; [by eapply Hset|done|by apply not_elem_of_nil].
  - done.
  - intros d r Hr. unfold settled in *. rewrite Hrest; [done| |by apply not_elem_of_nil].
    intros Hd'. destruct (Hnew d Hd') as [Hnone _]. congruence.
Qed.

Lemma resolve_runs root st0 b :
  ready st0 → Budget.allowed b = Limits.max_evaluation_work lim →
  (Budget.spent b ≤ Limits.max_evaluation_work lim)%N → is_Some (VariablesSystem.get sys root) →
  runs (resolve sys root) (b, resting st0)
    (λ q w, resolved root st0 (Budget.spent b) q w) (refused root st0 (Budget.spent b)).
Proof.
  intros Hready Hall Hwithin Hget. unfold resolve.
  apply runs_bind, (runs_ret (resting st0) (b, resting st0)). cbn [resting EvalScratch.state].
  destruct (st0 !! root) as [x|] eqn:Hroot.
  { destruct (ready_settled _ Hready _ _ Hroot) as [r ->]. apply runs_ret.
    destruct (ready_meaning _ Hready _ _ Hroot) as (Hden & Hh & _). split; [eauto| | |done].
    - exists st0. split_and!; eauto.
    - exists []. split_and!; [constructor| |change (sum_nodes []) with 0%N; cbn [fst]; lia|done]. intros d. split; [by intros ?%elem_of_nil|].
      intros [Hnone Hreach]. destruct (ready_reach _ _ _ _ Hready Hroot Hreach) as [r' Hr'].
      unfold settled in Hr'. congruence. }
  apply runs_bind.
  eapply runs_impl; [eapply (push_frame_runs root st0 (Budget.spent b) root [] b (resting st0));
    [by apply initial_machine|done|exact Hroot|exact Hget|apply rtc_refl]|].
  intros _ w (b1 & -> & Hm1). apply runs_bind.
  eapply runs_impl; [eapply resolve_loop_runs; [apply Hready|exact Hm1|]|].
  { pose proof (push_left root (resting st0) Hroot Hget) as Hleft. pose proof weights_fuel.
    pose proof (unseen_le st0).
    unfold left_to_do at 2 in Hleft. cbn [resting EvalScratch.state EvalScratch.stack sum_list_with] in Hleft.
    lia. }
  intros _ [b2 s2] (ids & Hm & Hst). cbn [fst snd] in *. apply runs_bind.
  apply (runs_ret s2 (b2, s2)). cbn beta.
  destruct (finished_ready _ _ _ _ _ _ Hready Hm Hst) as (Hrest & Hready2 & Hkeep & Hdone & Hnd & Hroot_in).
  assert (∀ d, d ∈ ids → st0 !! d = None ∧ rtc depends root d) as Hnew.
  { intros d Hd. apply (m_new _ _ _ _ _ _ _ Hm), elem_of_app. by left. }
  destruct (Hdone _ Hroot_in) as [r Hr]. pose proof Hr as Hr'. unfold settled in Hr'. rewrite Hr'.
  apply runs_ret. destruct (ready_meaning _ Hready2 _ _ Hr) as (Hden & Hh & _). split.
  - eauto.
  - exists (EvalScratch.state s2). split_and!; [done|done|done|eauto|]. intros d Hd.
    destruct (decide (d ∈ ids)) as [Hin|Hnin]; [right; by apply Hnew|left].
    rewrite <- (m_rest _ _ _ _ _ _ _ Hm d Hnin); [done|]. rewrite Hst. by apply not_elem_of_nil.
  - exists ids. split_and!; [done| | |by apply (m_within _ _ _ _ _ _ _ Hm)].
    + intros d. split; [apply Hnew|]. intros [Hnone Hreach].
      destruct (decide (d ∈ ids)) as [|Hnin]; [done|].
      destruct (ready_reach _ _ _ _ Hready2 Hr Hreach) as [r' Hr2]. unfold settled in Hr2.
      rewrite (m_rest _ _ _ _ _ _ _ Hm) in Hr2; [congruence|done|].
      rewrite Hst. by apply not_elem_of_nil.
    + cbn [fst]. rewrite (m_spent _ _ _ _ _ _ _ Hm), Hst. cbn [fmap list_fmap].
      change (sum_nodes []) with 0%N. lia.
  - by apply (m_allowed _ _ _ _ _ _ _ Hm).
Qed.

(** Several resolutions share a scratch in [eval]. *)
Lemma env_in_mono st st' names :
  (∀ d, d ∈ variables_of names → ∃ r, settled st d r) →
  (∀ d r, settled st d r → settled st' d r) →
  ∀ raw, raw ∈ names → env_in st' raw = env_in st raw.
Proof.
  intros Hset Hmono raw Hraw. unfold env_in.
  destruct (VariablesSystem.symbol_variable sys raw) as [d|] eqn:Hd; [|done].
  destruct (Hset d) as [r Hr]; [by eapply variables_of_elem|]. by rewrite Hr, (Hmono _ _ Hr).
Qed.

(** What an ad-hoc expression needs: its variables mean something within the depth
    bound, its tree a value over them, and the nodes of the variables it adds to
    the settled ones, each counted once and twice, fit with its own. *)
Definition reached_by (e : Expr.t) (d : VariableId.t) : Prop :=
  ∃ d0, d0 ∈ variables_of (refs e) ∧ rtc depends d0 d.
Definition meaningful (e : Expr.t) (values : VariableId.t → Quantity.t) (heights : VariableId.t → N)
    (q : Quantity.t) : Prop :=
  (∀ d, d ∈ variables_of (refs e) → denotes d (values d) (heights d) ∧ (heights d ≤ max_depth)%N)
  ∧ eval_ref (env_of values) e = Ok q.
Definition affordable (e : Expr.t) (st : States) (spent : N) : Prop :=
  ∀ ids, NoDup ids → (∀ d, d ∈ ids → st !! d = None ∧ reached_by e d) →
    (spent + expr_size e + 2 * sum_nodes ids ≤ Limits.max_evaluation_work lim)%N.

(** What a completed evaluation did. *)
Record evaluated (e : Expr.t) (st : States) (spent : N) (q : Quantity.t) (w : Budget.t * EvalScratch.t) : Prop := {
  evaluated_allowed : Budget.allowed w.1 = Limits.max_evaluation_work lim;
  evaluated_within : (Budget.spent w.1 ≤ Limits.max_evaluation_work lim)%N;
  evaluated_ready : ∃ st', w.2 = resting st' ∧ ready st' ∧ (∀ d r, settled st d r → settled st' d r)
    ∧ (∀ d, d ∈ variables_of (refs e) → ∃ r, settled st' d r)
    ∧ eval_ref (env_in st') e = Ok q
    ∧ ∃ ids, NoDup ids ∧ (∀ d, d ∈ ids ↔ st !! d = None ∧ reached_by e d)
        ∧ (∀ d, st' !! d ≠ None ↔ st !! d ≠ None ∨ d ∈ ids)
        ∧ Budget.spent w.1 = (spent + expr_size e + 2 * sum_nodes ids)%N
}.
Definition eval_refused (e : Expr.t) (st : States) (spent : N) : Prop :=
  ∀ values heights q, meaningful e values heights q → affordable e st spent → False.

Lemma env_in_env_of st values heights e q :
  ready st → (∀ d, d ∈ variables_of (refs e) → ∃ r, settled st d r) → meaningful e values heights q →
  eval_ref (env_in st) e = Ok q.
Proof.
  intros Hready Hset [Hden <-]. apply eval_ref_ext. intros raw Hraw. unfold env_in, env_of.
  destruct (VariablesSystem.symbol_variable sys raw) as [d|] eqn:Hd; [|done].
  assert (d ∈ variables_of (refs e)) as Hin by (by eapply variables_of_elem).
  destruct (Hset d Hin) as [r Hr]. rewrite Hr. destruct (ready_meaning _ Hready _ _ Hr) as [Hr' _].
  destruct (Hden d Hin) as [Hd' _]. by destruct (denotes_fun _ _ _ _ _ Hr' Hd') as [-> _].
Qed.
Lemma affordable_spent e st spent : affordable e st spent → (spent + expr_size e ≤ Limits.max_evaluation_work lim)%N.
Proof.
  intros Ha. specialize (Ha [] (NoDup_nil_2)). change (sum_nodes []) with 0%N in Ha.
  assert (spent + expr_size e + 2 * 0 ≤ Limits.max_evaluation_work lim)%N; [|lia].
  apply Ha. by intros d ?%elem_of_nil.
Qed.
Lemma reached_binary op l r d : reached_by (Expr.Binary op l r) d ↔ reached_by l d ∨ reached_by r d.
Proof.
  unfold reached_by. rewrite refs_binary. unfold variables_of. rewrite omap_app. setoid_rewrite elem_of_app. naive_solver.
Qed.
Lemma meaningful_binary op l r values heights q :
  meaningful (Expr.Binary op l r) values heights q →
  ∃ ql qr, meaningful l values heights ql ∧ meaningful r values heights qr ∧ eval_binary op ql qr = Ok q.
Proof.
  unfold meaningful. rewrite refs_binary. unfold variables_of. rewrite omap_app. setoid_rewrite elem_of_app.
  intros [Hden Hq]. cbn in Hq. apply result_bind_ok in Hq as (ql & Hl & Hq). apply result_bind_ok in Hq as (qr & Hr & Hq).
  exists ql, qr. naive_solver.
Qed.

(** The cost of the right operand, once the left one is settled. *)
Lemma affordable_right op l r st spent ids st1 :
  affordable (Expr.Binary op l r) st spent → NoDup ids →
  (∀ d, d ∈ ids ↔ st !! d = None ∧ reached_by l d) → (∀ d, st1 !! d ≠ None ↔ st !! d ≠ None ∨ d ∈ ids) →
  affordable r st1 (spent + 1 + expr_size l + 2 * sum_nodes ids)%N.
Proof.
  intros Ha Hnd Hids Hset ids' Hnd' Hids'.
  specialize (Ha (ids ++ ids')). rewrite sum_nodes_app in Ha. cbn [expr_size] in Ha.
  assert (∀ d, d ∈ ids' → st !! d = None ∧ d ∉ ids ∧ reached_by r d) as Hnew.
  { intros d Hd. destruct (Hids' d Hd) as [Hnone Hr]. assert (¬ (st !! d ≠ None ∨ d ∈ ids)) as Hno
      by (intros Hor%Hset; congruence).
    split_and!; [|tauto|done]. by destruct (st !! d); [destruct Hno; left|]. }
  assert (NoDup (ids ++ ids')) as Hnd2.
  { apply NoDup_app. split_and!; [done| |done]. intros d Hd Hd'. by apply (Hnew d). }
  specialize (Ha Hnd2). etrans; [|apply Ha]; [lia|].
  intros d [Hd|Hd]%elem_of_app; rewrite reached_binary; [apply Hids in Hd as [? ?]; by split; [|left]|].
  destruct (Hnew d Hd) as (? & _ & ?). by split; [|right].
Qed.

Lemma eval_runs_symbol s st b d :
  ready st → Budget.allowed b = Limits.max_evaluation_work lim →
  (Budget.spent b + 1 ≤ Limits.max_evaluation_work lim)%N →
  VariablesSystem.symbol_variable sys s = Some d →
  runs (resolve sys d) (Budget.mk (Budget.spent b + 1) (Budget.allowed b), resting st)
    (evaluated (Expr.Symbol s) st (Budget.spent b)) (λ _, eval_refused (Expr.Symbol s) st (Budget.spent b)).
Proof.
  intros Hready Hall Hfits Hd. set (b1 := Budget.mk _ _).
  assert (∀ d', reached_by (Expr.Symbol s) d' ↔ rtc depends d d') as Hreach.
  { intros d'. unfold reached_by, variables_of. cbn. rewrite Hd. setoid_rewrite list_elem_of_singleton. naive_solver. }
  assert (∀ d', d' ∈ variables_of (refs (Expr.Symbol s)) ↔ d' = d) as Hvars.
  { intros d'. unfold variables_of. cbn. by rewrite Hd, list_elem_of_singleton. }
  pose proof (resolve_runs d st b1 Hready Hall Hfits (Hindex _ _ Hd)) as Hres. unfold runs in *.
  destruct (resolve sys d (b1, resting st)) as [[[q w]|e]|]; [| |done].
  - destruct Hres as [(h & Hden & Hh) (st' & Hw & Hready' & Hmono & (r & Hr) & Hdom) (ids & Hnd & Hids & Hspent & Hle) Hall'].
    split; [done|done|]. exists st'. split_and!; [done|done|done| | |].
    + intros d' ->%Hvars. eauto.
    + cbn [eval_ref]. unfold env_in. rewrite Hd, Hr. f_equal.
      destruct (ready_meaning _ Hready' _ _ Hr) as [Hden' _]. by destruct (denotes_fun _ _ _ _ _ Hden Hden') as [-> _].
    + exists ids. split_and!; [done| | |rewrite Hspent; cbn; lia].
      * intros d'. by rewrite Hids, Hreach.
      * intros d'. split.
        -- intros Hin. destruct (st !! d') eqn:Hst; [by left|right]. apply Hids. split; [done|].
          destruct (Hdom d' Hin) as [Hn|]; [by destruct Hn|done].
        -- intros [Hin|[_ Hreached]%Hids].
           ++ destruct (st !! d') as [x|] eqn:Hx; [|done]. destruct (ready_settled _ Hready _ _ Hx) as [y ->].
              specialize (Hmono d' y Hx). unfold settled in Hmono. by rewrite Hmono.
           ++ destruct (ready_reach _ _ _ _ Hready' Hr Hreached) as [r' Hr']. unfold settled in Hr'. by rewrite Hr'.
  - destruct Hres as [Hno _]. intros values heights q [Hden _] Ha.
    destruct (Hden d) as [Hd' Hh]; [by apply Hvars|]. apply (Hno _ _ Hd' Hh). intros ids Hnd Hids.
    specialize (Ha ids Hnd). cbn [expr_size] in Ha. apply Ha. intros d' Hin. rewrite Hreach. by apply Hids.
Qed.

(** Too little of the budget is left for the node itself. *)
Lemma over_budget e st b : (Limits.max_evaluation_work lim < Budget.spent b + 1)%N → eval_refused e st (Budget.spent b).
Proof.
  intros Hover values heights q _ Ha%affordable_spent. assert (1 ≤ expr_size e)%N by (destruct e; cbn; lia). lia.
Qed.

Lemma affordable_left op l r st spent :
  affordable (Expr.Binary op l r) st spent → affordable l st (spent + 1).
Proof.
  intros Ha ids Hnd Hids. specialize (Ha ids Hnd). cbn in *. etrans; [|apply Ha]; [lia|].
  intros d Hd. rewrite reached_binary. destruct (Hids d Hd). by split; [|left].
Qed.

(** Both operands evaluated, the right one over what the left one settled. *)
Lemma evaluated_binary op l r st spent ql wl st1 qr wr :
  evaluated l st (spent + 1) ql wl → wl.2 = resting st1 → evaluated r st1 (Budget.spent wl.1) qr wr →
  match eval_binary op ql qr with
  | Ok q => evaluated (Expr.Binary op l r) st spent q wr
  | Err _ => eval_refused (Expr.Binary op l r) st spent
  end.
Proof.
  intros [_ _ (st1' & Hw1 & Hready1 & Hmono1 & Hset1 & Hql & ids1 & Hnd1 & Hids1 & Hin1 & Hspent1)] Hwl
    [Hall2 Hle2 (st2 & Hw2 & Hready2 & Hmono2 & Hset2 & Hqr & ids2 & Hnd2 & Hids2 & Hin2 & Hspent2)].
  rewrite Hwl in Hw1. injection Hw1 as <-.
  destruct (eval_binary op ql qr) as [q|err] eqn:Hq.
  2: { intros values heights q Hm _. destruct (meaningful_binary _ _ _ _ _ _ Hm) as (q1 & q2 & Hl & Hr & Hq').
    rewrite (env_in_env_of st1 values heights l q1 Hready1 Hset1 Hl) in Hql.
    rewrite (env_in_env_of st2 values heights r q2 Hready2 Hset2 Hr) in Hqr. congruence. }
  assert (∀ d, st1 !! d = None ↔ st !! d = None ∧ d ∉ ids1) as Hout.
  { intros d. specialize (Hin1 d). destruct (st1 !! d), (st !! d), (decide (d ∈ ids1)); naive_solver. }
  split; [done|done|]. exists st2. split_and!; [done|done|by eauto| | |].
  - rewrite refs_binary. unfold variables_of. rewrite omap_app.
    intros d [Hd|Hd]%elem_of_app; [destruct (Hset1 d Hd); eauto|eauto].
  - cbn [eval_ref]. rewrite (eval_ref_ext (env_in st2) (env_in st1) l) by by eapply env_in_mono.
    rewrite Hql. cbn. by rewrite Hqr.
  - exists (ids1 ++ ids2). rewrite sum_nodes_app. split_and!.
    + apply NoDup_app. split_and!; [done| |done]. intros d Hd [Hnone _]%Hids2. by apply Hout in Hnone as [_ ?].
    + intros d. rewrite elem_of_app, reached_binary, Hids2, Hout. specialize (Hids1 d).
      destruct (decide (d ∈ ids1)); tauto.
    + intros d. rewrite Hin2, Hin1, elem_of_app. tauto.
    + rewrite Hspent2, Hspent1. cbn. lia.
Qed.

Lemma eval_runs e st b :
  ready st → Budget.allowed b = Limits.max_evaluation_work lim →
  (Budget.spent b ≤ Limits.max_evaluation_work lim)%N →
  runs (eval_ast e (resolve_or_unit sys)) (b, resting st)
    (evaluated e st (Budget.spent b)) (λ _, eval_refused e st (Budget.spent b)).
Proof.
  revert st b. induction e as [v|s|e IH|op l IHl r IHr]; intros st b Hready Hall Hwithin;
    cbn [eval_ast]; apply runs_bind; (apply spend_runs; [done| |intros ? Hover _; by apply over_budget]);
    intros Hfits; set (b1 := Budget.mk _ _).
  - apply runs_lift. destruct (quantity v _) as [q|err] eqn:Hq.
    2: { intros values heights q [_ Hq'] _. cbn in Hq'. congruence. }
    split; [done|done|]. exists st. split_and!; [done|done|done|by intros d ?%elem_of_nil|done|].
    exists []. split_and!; [constructor| |intros d; rewrite elem_of_nil; naive_solver|cbn; lia].
    intros d. split; [by intros ?%elem_of_nil|]. by intros (_ & d0 & ?%elem_of_nil & _).
  - unfold resolve_or_unit. destruct (VariablesSystem.symbol_variable sys s) as [d|] eqn:Hd;
      [by apply eval_runs_symbol|].
    apply runs_lift. assert (variables_of (refs (Expr.Symbol s)) = []) as Hnone by (unfold variables_of; cbn; by rewrite Hd).
    destruct (unit_quantity s) as [q|err] eqn:Hq.
    2: { intros values heights q [_ Hq'] _. cbn in Hq'. unfold env_of in Hq'. rewrite Hd in Hq'. congruence. }
    split; [done|done|]. exists st. split_and!; [done|done|done|by rewrite Hnone; intros d' ?%elem_of_nil| |].
    + cbn [eval_ref]. unfold env_in. by rewrite Hd.
    + exists []. split_and!; [constructor| |intros d'; rewrite elem_of_nil; naive_solver|cbn; lia].
      intros d'. split; [by intros ?%elem_of_nil|]. unfold reached_by. rewrite Hnone. by intros (_ & d0 & ?%elem_of_nil & _).
  - assert (∀ values heights q, meaningful (Expr.Neg e) values heights q →
      ∃ q', meaningful e values heights q' ∧ quantity (F64.neg (Quantity.magnitude q')) (Quantity.dimension q') = Ok q) as Hneg.
    { intros values heights q [Hden Hq]. cbn in Hq. apply result_bind_ok in Hq as (q' & He & Hq). by exists q'. }
    assert (affordable (Expr.Neg e) st (Budget.spent b) → affordable e st (Budget.spent b1)) as Hcost.
    { intros Ha ids Hnd Hids. specialize (Ha ids Hnd Hids). cbn in *. lia. }
    apply runs_bind. pose proof (IH st b1 Hready Hall Hfits) as IHe. unfold runs in IHe |- *.
    destruct (eval_ast e _ _) as [[[q w]|err]|]; [| |done].
    2: { intros values heights q Hm Ha. destruct (Hneg _ _ _ Hm) as (q' & Hm' & _). by eapply IHe, Hcost. }
    destruct IHe as [Hall' Hle (st' & Hw & Hready' & Hmono & Hset & Hq & ids & Hnd & Hids & Hin & Hspent)].
    unfold lift. destruct (quantity _ _) as [q'|err] eqn:Hq'.
    + split; [done|done|]. exists st'. split_and!; [done..| |].
      * cbn [eval_ref]. rewrite Hq. exact Hq'.
      * exists ids. split_and!; [done..|rewrite Hspent; cbn; lia].
    + intros values heights q2 Hm _. destruct (Hneg _ _ _ Hm) as (q1 & Hm' & Hq2).
      rewrite (env_in_env_of st' values heights e q1 Hready' Hset Hm') in Hq. congruence.
  - apply runs_bind. pose proof (IHl st b1 Hready Hall Hfits) as IHl'. unfold runs in IHl' |- *.
    destruct (eval_ast l _ _) as [[[ql [bl sl]]|err]|]; [| |done].
    2: { intros values heights q Hm Ha. destruct (meaningful_binary _ _ _ _ _ _ Hm) as (ql & qr & Hl & _).
      by eapply IHl', affordable_left. }
    pose proof IHl' as [Hall1 Hle1 (st1 & Hw1 & Hready1 & _ & _ & _ & ids1 & Hnd1 & Hids1 & Hin1 & Hspent1)].
    cbn [fst snd] in *. subst sl.
    pose proof (IHr st1 bl Hready1 Hall1 Hle1) as IHr'. unfold runs in IHr'. unfold mbind, action_bind.
    destruct (eval_ast r _ _) as [[[qr wr]|err]|]; [| |done].
    + pose proof (evaluated_binary op l r st (Budget.spent b) ql (bl, resting st1) st1 qr wr IHl' eq_refl IHr') as Hboth.
      unfold lift. by destruct (eval_binary op ql qr).
    + intros values heights q Hm Ha. destruct (meaningful_binary _ _ _ _ _ _ Hm) as (ql' & qr & _ & Hr & _).
      apply (IHr' _ _ _ Hr). rewrite Hspent1. by eapply affordable_right.
Qed.
End resolution.
