(* ===== verification/Variables.v ===== *)
(** * The variable system keeps its promises (orishu-variables, system.rs)

    The invariant of every system the operations can build, what definition does
    on each branch, and the value of a variable: [value] answers for every
    graph and succeeds exactly on the meanings of [Resolution]. *)

From Stdlib Require Import ZArith.
From stdpp Require Import base gmap strings list relations.
From S2P Require Import Prelude Identity VarLimits Action Binary64 Quantity Expression Grammar Namespace Evaluation System Resolution.

(** ** The invariant *)

(** What a compiled expression records is its own tree's. *)
Definition measured (c : CompiledExpression.t) : Prop :=
  CompiledExpression.nodes c = expr_size (CompiledExpression.ast c)
  ∧ CompiledExpression.depth c = expr_height (CompiledExpression.ast c).

Record admitted (limits : Limits.t) (c : CompiledExpression.t) : Prop := {
  admitted_measured : measured c;
  admitted_bytes : (str_len (CompiledExpression.source c) ≤ Limits.max_expression_bytes limits)%N;
  admitted_nodes : (CompiledExpression.nodes c ≤ Limits.max_expression_nodes limits)%N;
  admitted_depth : (CompiledExpression.depth c ≤ Limits.max_parse_depth limits)%N
}.

(** The system's bounds fit their types, and handles are not truncated. *)
Record proper_limits (limits : Limits.t) : Prop := {
  proper_widths : Limits.widths limits;
  proper_handles : (Limits.max_variables limits ≤ 2 ^ 32)%N
}.

Record wf (sys : VariablesSystem.t) : Prop := {
  wf_limits : proper_limits (VariablesSystem.limits sys);
  wf_count : (lenN (VariablesSystem.variables sys) ≤ Limits.max_variables (VariablesSystem.limits sys))%N;
  wf_index : ∀ raw id, VariablesSystem.index sys !! raw = Some id ↔
    ∃ v, VariablesSystem.get sys id = Some v ∧ FQName.to_string (Variable_.name v) = raw;
  wf_names : Forall (λ v, undotted (FQName.name (Variable_.name v))) (VariablesSystem.variables sys);
  wf_admitted : Forall (λ v, admitted (VariablesSystem.limits sys) (Variable_.expression v))
    (VariablesSystem.variables sys);
  wf_scratch : VariablesSystem.scratch_pool sys = EvalScratch.default
}.

Lemma get_lt sys id v :
  VariablesSystem.get sys id = Some v → (VariableId.raw id < lenN (VariablesSystem.variables sys))%N.
Proof. intros Hg. apply lookup_lt_Some in Hg. unfold lenN. lia. Qed.

Lemma of_usize_small n : (n < 2 ^ 32)%N → VariableId.raw (VariableId.of_usize n) = n.
Proof. intros. cbn [VariableId.of_usize VariableId.raw]. by apply N.mod_small. Qed.

Lemma admit_expression_ok sys c :
  VariablesSystem.admit_expression sys c = Ok () ↔
  (str_len (CompiledExpression.source c) ≤ Limits.max_expression_bytes (VariablesSystem.limits sys))%N
  ∧ (CompiledExpression.nodes c ≤ Limits.max_expression_nodes (VariablesSystem.limits sys))%N
  ∧ (CompiledExpression.depth c ≤ Limits.max_parse_depth (VariablesSystem.limits sys))%N.
Proof.
  unfold VariablesSystem.admit_expression, mbind, result_bind.
  rewrite <- (ensure_ok LimitKind.ExpressionBytes), <- (ensure_ok LimitKind.ExpressionNodes),
    <- (ensure_ok LimitKind.ParseDepth).
  destruct (ensure LimitKind.ExpressionBytes _ _) as [[]|]; [|naive_solver].
  destruct (ensure LimitKind.ExpressionNodes _ _) as [[]|]; naive_solver.
Qed.

Lemma with_limits_wf limits : proper_limits limits → wf (VariablesSystem.with_limits limits).
Proof.
  intros Hl. split; cbn; [done|apply N.le_0_l| |constructor|constructor|done].
  intros raw id. rewrite lookup_empty. split; [done|]. intros (v & Hv & _).
  unfold VariablesSystem.get in Hv. cbn in Hv. by rewrite lookup_nil in Hv.
Qed.

(** ** Definition *)
Section define.
Context `{Unicode} (sys : VariablesSystem.t) (Hwf : wf sys).

Lemma define_checks_ok `{IntoName T} namespace (name : T) c key :
  VariablesSystem.define_checks sys namespace name c = Ok key ↔
  ∃ n, into_name name = Ok n ∧ key = qualified namespace n
    ∧ ¬ (Namespace.is_root namespace = true ∧ is_ok (lookup (Name.as_str n)) = true)
    ∧ VariablesSystem.index sys !! FQName.to_string key = None
    ∧ (lenN (VariablesSystem.variables sys) < Limits.max_variables (VariablesSystem.limits sys))%N
    ∧ VariablesSystem.admit_expression sys c = Ok ().
Proof.
  unfold VariablesSystem.define_checks, mbind, result_bind, result_map_err, contains_key.
  destruct (into_name name) as [n|e]; [|naive_solver].
  destruct (Namespace.is_root namespace && is_ok (lookup (Name.as_str n))) eqn:Hu.
  { split; [done|]. intros (n' & [= <-] & _ & Hno & _). by apply andb_true_iff in Hu. }
  assert (¬ (Namespace.is_root namespace = true ∧ is_ok (lookup (Name.as_str n)) = true)) as Hno.
  { intros [Hr Hl]. by rewrite Hr, Hl in Hu. }
  assert (∀ k, k = (lenN (VariablesSystem.variables sys)) →
    admit_one LimitKind.Variables k (Limits.max_variables (VariablesSystem.limits sys)) = Ok (k + 1)%N
    ↔ (k < Limits.max_variables (VariablesSystem.limits sys))%N) as Hone.
  { intros k _. split; [intros [_ Hk]%admit_one_ok; lia|]. intros Hk. apply admit_one_fits; [lia|].
    apply (Limits.widths_variables _ (proper_widths _ (wf_limits _ Hwf))). }
  specialize (Hone _ eq_refl).
  split.
  - case_bool_decide as Hk; [done|].
    destruct (admit_one _ _ _) as [m|e] eqn:Hm; [|done].
    destruct (VariablesSystem.admit_expression sys c) as [[]|e]; [|done]. intros [= <-].
    exists n. split_and!; [done|done|done| |by apply admit_one_ok in Hm as [-> Hm]; apply Hone|done].
    destruct (VariablesSystem.index sys !! _); [|done]. by destruct Hk; eexists.
  - intros (n' & [= <-] & -> & _ & Hfree & Hroom & Hadm).
    rewrite Hfree. cbn. apply Hone in Hroom. by rewrite Hroom, Hadm.
Qed.

(** The state a successful definition leaves. *)
Definition defined (key : FQName.t) (comment : string) (c : CompiledExpression.t) : VariablesSystem.t :=
  VariablesSystem.mk (VariablesSystem.limits sys)
    (VariablesSystem.variables sys ++ [Variable_.mk key comment c])
    (<[FQName.to_string key := VariableId.of_usize (lenN (VariablesSystem.variables sys))]>
      (VariablesSystem.index sys))
    (VariablesSystem.scratch_pool sys).
Abbreviation fresh := (VariableId.of_usize (lenN (VariablesSystem.variables sys))).

Lemma get_defined key comment c id :
  (lenN (VariablesSystem.variables sys) < Limits.max_variables (VariablesSystem.limits sys))%N →
  VariablesSystem.get (defined key comment c) id =
    if decide (id = fresh) then Some (Variable_.mk key comment c) else VariablesSystem.get sys id.
Proof.
  intros Hroom. pose proof (proper_handles _ (wf_limits _ Hwf)) as Hh.
  assert (VariableId.raw fresh = lenN (VariablesSystem.variables sys)) as Hraw by (apply of_usize_small; lia).
  unfold VariablesSystem.get, defined. cbn [VariablesSystem.variables]. case_decide as Hid.
  - subst id. rewrite Hraw. unfold lenN. rewrite Nat2N.id. by apply list_lookup_middle.
  - assert (N.to_nat (VariableId.raw id) ≠ length (VariablesSystem.variables sys)) as Hne.
    { intros Heq. apply Hid. destruct id as [n], fresh as [m] eqn:Hf. cbn in *. f_equal.
      unfold lenN in Hraw. lia. }
    destruct (decide (N.to_nat (VariableId.raw id) < length (VariablesSystem.variables sys))) as [Hlt|Hge].
    + by rewrite lookup_app_l.
    + rewrite lookup_app_r by lia. rewrite (lookup_ge_None_2 (VariablesSystem.variables sys)) by lia.
      apply lookup_ge_None_2. cbn. lia.
Qed.

Lemma get_fresh : (lenN (VariablesSystem.variables sys) < Limits.max_variables (VariablesSystem.limits sys))%N →
  VariablesSystem.get sys fresh = None.
Proof.
  intros Hroom. pose proof (proper_handles _ (wf_limits _ Hwf)) as Hh.
  apply lookup_ge_None_2. rewrite of_usize_small by lia. unfold lenN. lia.
Qed.

Lemma defined_wf key comment c :
  undotted (FQName.name key) → measured c →
  VariablesSystem.index sys !! FQName.to_string key = None →
  (lenN (VariablesSystem.variables sys) < Limits.max_variables (VariablesSystem.limits sys))%N →
  VariablesSystem.admit_expression sys c = Ok () → wf (defined key comment c).
Proof.
  intros Hdot Hmeas Hfree Hroom Hadm. pose proof Hwf as [Hl Hc Hi Hn Ha Hs].
  apply admit_expression_ok in Hadm as (? & ? & ?).
  split; cbn [defined VariablesSystem.limits VariablesSystem.variables VariablesSystem.index
    VariablesSystem.scratch_pool].
  - done.
  - unfold lenN in *. rewrite length_app. cbn. lia.
  - intros raw id. rewrite (get_defined key comment c id Hroom).
    destruct (decide (raw = FQName.to_string key)) as [->|Hne].
    + rewrite lookup_insert_eq. split.
      * intros [= <-]. rewrite decide_True by done. eexists. by split.
      * intros (v & Hv & Heq). case_decide as Hid; [by rewrite Hid|].
        assert (VariablesSystem.index sys !! FQName.to_string key = Some id) as Hi'; [|congruence].
        apply Hi. eauto.
    + rewrite lookup_insert_ne by done. rewrite Hi. case_decide as Hid.
      * subst id. rewrite (get_fresh Hroom). split; [by intros (? & ? & _)|].
        intros (v & [= <-] & Heq). by destruct Hne.
      * done.
  - apply Forall_app. split; [done|]. by constructor.
  - apply Forall_app. split; [done|]. constructor; [|constructor]. by split.
  - done.
Qed.

Lemma defined_lookup key comment c q :
  undotted (FQName.name key) → undotted (FQName.name q) →
  VariablesSystem.lookup_name (defined key comment c) q =
    if decide (q = key) then Some fresh else VariablesSystem.lookup_name sys q.
Proof.
  intros Hk Hq. unfold VariablesSystem.lookup_name, defined. cbn [VariablesSystem.index].
  case_decide as Heq; [by rewrite Heq, lookup_insert_eq|].
  rewrite lookup_insert_ne; [done|]. intros Htext. apply Heq. symmetry. by apply to_string_inj.
Qed.
End define.

(** ** Replacement *)
Lemma replaced_wf sys id v v' :
  wf sys → VariablesSystem.get sys id = Some v → Variable_.name v' = Variable_.name v →
  admitted (VariablesSystem.limits sys) (Variable_.expression v') →
  wf (VariablesSystem.set_variables
        (<[N.to_nat (VariableId.raw id) := v']> (VariablesSystem.variables sys)) sys).
Proof.
  intros [Hl Hc Hi Hn Ha Hs] Hv Hname Hadm.
  split; unfold VariablesSystem.set_variables; cbn [VariablesSystem.limits VariablesSystem.variables
    VariablesSystem.index VariablesSystem.scratch_pool]; try done.
  - unfold lenN in *. by rewrite length_insert.
  - intros raw id'. rewrite Hi. unfold VariablesSystem.get in *. cbn [VariablesSystem.variables].
    destruct (decide (N.to_nat (VariableId.raw id') = N.to_nat (VariableId.raw id))) as [Heq|Hne].
    + rewrite Heq, list_lookup_insert_eq by by eapply lookup_lt_Some. rewrite Hv.
      split; intros (x & [= <-] & <-); eexists; split; try done; by rewrite Hname.
    + by rewrite list_lookup_insert_ne by done.
  - apply Forall_insert; [done|]. rewrite Hname. rewrite Forall_lookup in Hn. by eapply Hn.
  - by apply Forall_insert.
Qed.

Lemma set_wf sys id c : wf sys → measured c → wf (VariablesSystem.set sys id c).2.
Proof.
  intros Hwf Hm. unfold VariablesSystem.set. destruct (VariablesSystem.get sys id) as [v|] eqn:Hv; [|done].
  destruct (VariablesSystem.admit_expression sys c) as [[]|e] eqn:Ha; [|done].
  apply admit_expression_ok in Ha as (? & ? & ?). by eapply replaced_wf.
Qed.
Lemma set_comment_wf sys id comment : wf sys → wf (VariablesSystem.set_comment sys id comment).2.
Proof.
  intros Hwf. unfold VariablesSystem.set_comment. destruct (VariablesSystem.get sys id) as [v|] eqn:Hv; [|done].
  eapply replaced_wf; [done|exact Hv|done|]. cbn. pose proof (wf_admitted _ Hwf) as Ha.
  rewrite Forall_lookup in Ha. by eapply Ha.
Qed.

(** ** Every system that can be built *)

(** Parsed, under whatever limits. *)
Definition parsed_expression (c : CompiledExpression.t) : Prop :=
  ∃ source limits, parse_bounded source limits = Some (Ok c).

Lemma parsed_measured c : parsed_expression c → measured c.
Proof. intros (source & limits & Hp). apply parse_compiled in Hp. by destruct Hp as (_ & _ & ? & ? & _). Qed.

Inductive built `{Libm, Unicode} : VariablesSystem.t → Prop :=
  | built_new limits : proper_limits limits → built (VariablesSystem.with_limits limits)
  | built_define sys namespace (name : string) c options :
      built sys → utf8 name → parsed_expression c →
      built (VariablesSystem.define sys namespace name c options).2
  | built_set sys id c : built sys → parsed_expression c → built (VariablesSystem.set sys id c).2
  | built_set_comment sys id comment : built sys → built (VariablesSystem.set_comment sys id comment).2
  | built_value sys id r sys' : built sys → value sys id = Some (r, sys') → built sys'
  | built_eval sys source r sys' : built sys → eval sys source = Some (r, sys') → built sys'.

Section results.
Context `{Libm} `{Hlaws : UnicodeLaws}.

(** A run hands the pooled scratch back empty: evaluation changes nothing. *)
Lemma with_scratch_unchanged sys evaluate r sys' :
  wf sys → with_scratch sys evaluate = Some (r, sys') → sys' = sys.
Proof.
  intros Hwf. pose proof (wf_scratch _ Hwf) as Hs. unfold with_scratch.
  destruct (evaluate _) as [[[q [b s]]|e]|]; [| |done]; intros [= _ <-];
    destruct sys; cbn in *; unfold return_scratch; cbn; by rewrite Hs.
Qed.

Lemma value_unchanged sys id r sys' : wf sys → value sys id = Some (r, sys') → sys' = sys.
Proof.
  intros Hwf. unfold value. destruct (VariablesSystem.get sys id); [by apply with_scratch_unchanged|].
  by intros [= _ <-].
Qed.
Lemma eval_unchanged sys source r sys' : wf sys → eval sys source = Some (r, sys') → sys' = sys.
Proof.
  intros Hwf. unfold eval. destruct (parse_bounded _ _) as [[c|e]|]; [by apply with_scratch_unchanged| |done].
  by intros [= _ <-].
Qed.

Lemma string_name_undotted (name : string) n : utf8 name → into_name name = Ok n → undotted n.
Proof. apply name_undotted. Qed.

Lemma define_wf sys namespace (name : string) c options :
  wf sys → utf8 name → measured c → wf (VariablesSystem.define sys namespace name c options).2.
Proof.
  intros Hwf Hu Hm. unfold VariablesSystem.define.
  destruct (VariablesSystem.define_checks sys namespace name c) as [key|e] eqn:Hc; [|done].
  apply (define_checks_ok sys Hwf) in Hc as (n & Hn & -> & _ & Hfree & Hroom & Hadm).
  apply (defined_wf sys Hwf (qualified namespace n) (VariableOptions.comment options) c); try done.
  by apply string_name_undotted with name.
Qed.

Lemma built_is_wf sys : built sys → wf sys.
Proof.
  induction 1 as [limits Hl|sys ns name c o _ IH Hu Hp|sys id c _ IH Hp|sys id cm _ IH
    |sys id r sys' _ IH Hv|sys src r sys' _ IH Hv].
  - by apply with_limits_wf.
  - apply define_wf; [done|done|by apply parsed_measured].
  - apply set_wf; [done|by apply parsed_measured].
  - by apply set_comment_wf.
  - by rewrite (value_unchanged _ _ _ _ IH Hv).
  - by rewrite (eval_unchanged _ _ _ _ IH Hv).
Qed.

(** A value is finite, and its dimension in range. *)
Lemma denotes_wf sys id q h : denotes sys id q h → Quantity.wf q.
Proof.
  induction 1 as [id v q values heights Hv _ IH Hq]. eapply eval_ref_wf; [|exact Hq].
  intros raw x Hraw. unfold env_of.
  destruct (VariablesSystem.symbol_variable sys raw) as [d|] eqn:Hd; [|by apply unit_quantity_wf].
  intros [= <-]. apply IH. unfold deps_of. rewrite Hv. by eapply variables_of_elem.
Qed.

(** Counting some of the variables costs no more than counting all. *)
Lemma sum_nodes_incl sys ids ids' :
  NoDup ids' → (∀ d, d ∈ ids' → d ∈ ids) → (sum_nodes sys ids' ≤ sum_nodes sys ids)%N.
Proof.
  intros Hnd Hincl. apply NoDup_submseteq in Hincl; [|done]. clear Hnd.
  induction Hincl; rewrite ?sum_nodes_cons; lia.
Qed.

(** ** Facts the resolver needs of a well-formed system *)
Section facts.
Context (sys : VariablesSystem.t) (Hwf : wf sys).
Lemma wf_known raw id : VariablesSystem.symbol_variable sys raw = Some id →
  is_Some (VariablesSystem.get sys id).
Proof. intros Hi. apply (wf_index _ Hwf) in Hi as (v & Hv & _). eauto. Qed.
Lemma wf_nodes id v : VariablesSystem.get sys id = Some v →
  CompiledExpression.nodes (Variable_.expression v) = expr_size (expr_of v).
Proof.
  intros Hv. pose proof (wf_admitted _ Hwf) as Ha. rewrite Forall_lookup in Ha.
  by destruct (admitted_measured _ _ (Ha _ _ Hv)).
Qed.
Lemma wf_work : (Limits.max_evaluation_work (VariablesSystem.limits sys) ≤ u64_max)%N.
Proof. apply (Limits.widths_work _ (proper_widths _ (wf_limits _ Hwf))). Qed.
Lemma wf_reach : (Limits.max_dependency_depth (VariablesSystem.limits sys) ≤ usize_max)%N.
Proof. apply (Limits.widths_dependency _ (proper_widths _ (wf_limits _ Hwf))). Qed.

Abbreviation fresh_budget := (Budget.new (Limits.max_evaluation_work (VariablesSystem.limits sys))).

Lemma resolve_fresh id :
  is_Some (VariablesSystem.get sys id) →
  runs (resolve sys id) (fresh_budget, EvalScratch.default)
    (λ q w, resolved sys id ∅ 0 q w) (refused sys id ∅ 0).
Proof.
  intros Hget. apply (resolve_runs sys wf_known wf_nodes wf_work wf_reach id ∅ fresh_budget);
    [apply ready_empty|done|apply N.le_0_l|done].
Qed.

Lemma value_cases id :
  is_Some (VariablesSystem.get sys id) →
  ∃ r, value sys id = Some (r, sys) ∧
    match r with
    | Ok q => ∃ w, resolved sys id ∅ 0 q w
    | Err e => ∃ e', e = VariablesError.of_eval e' ∧ refused sys id ∅ 0 e'
    end.
Proof.
  intros Hget. pose proof (resolve_fresh id Hget) as Hres. destruct Hget as [v Hv].
  assert (∀ r sys', value sys id = Some (r, sys') → sys' = sys) as Hsame by eauto using value_unchanged.
  revert Hsame. unfold value. rewrite Hv. unfold with_scratch. cbn [take_scratch fst].
  rewrite (wf_scratch _ Hwf). unfold runs in Hres.
  destruct (resolve _ _ _) as [[[q [b s]]|e]|]; [| |done]; intros Hsame;
    rewrite (Hsame _ _ eq_refl).
  - exists (Ok q). split; [done|]. by eexists.
  - eexists (Err _). split; [done|]. by exists e.
Qed.
Lemma value_means id q :
  (∃ sys', value sys id = Some (Ok q, sys')) ↔
  ∃ h ids, denotes sys id q h
    ∧ (h ≤ Limits.max_dependency_depth (VariablesSystem.limits sys))%N
    ∧ NoDup ids ∧ (∀ d, d ∈ ids ↔ rtc (depends sys) id d)
    ∧ (2 * sum_nodes sys ids ≤ Limits.max_evaluation_work (VariablesSystem.limits sys))%N.
Proof.
  split.
  - intros [sys' Hv]. assert (is_Some (VariablesSystem.get sys id)) as Hget.
    { revert Hv. unfold value. by destruct (VariablesSystem.get sys id). }
    destruct (value_cases id Hget) as (r & Hr & Hcase). rewrite Hr in Hv.
    injection Hv as -> _. destruct Hcase as [w [(h & Hden & Hh) _ (ids & Hnd & Hids & Hspent & Hle) _]].
    exists h, ids. split_and!; [done|done|done| |by rewrite Hspent in Hle].
    intros d. rewrite Hids, lookup_empty. naive_solver.
  - intros (h & ids & Hden & Hh & Hnd & Hids & Hwork).
    assert (is_Some (VariablesSystem.get sys id)) as Hget by (inversion Hden; by eexists).
    destruct (value_cases id Hget) as ([q'|e] & Hr & Hcase).
    + destruct Hcase as [w [(h' & Hden' & _) _ _ _]].
      destruct (denotes_fun _ _ _ _ _ _ Hden Hden') as [-> _]. by exists sys.
    + destruct Hcase as (e' & _ & Hno & _). exfalso. apply (Hno q h Hden Hh).
      intros ids' Hnd' Hids'. etrans; [|exact Hwork]. rewrite N.add_0_l.
      apply N.mul_le_mono_l, sum_nodes_incl; [done|]. intros d Hd. apply Hids. by apply Hids'.
Qed.

Lemma eval_cases source c :
  parse_bounded source (VariablesSystem.limits sys) = Some (Ok c) →
  ∃ r, eval sys source = Some (r, sys) ∧
    match r with
    | Ok q => ∃ w, evaluated sys (CompiledExpression.ast c) ∅ 0 q w
    | Err _ => eval_refused sys (CompiledExpression.ast c) ∅ 0
    end.
Proof.
  intros Hp. assert (∀ r sys', eval sys source = Some (r, sys') → sys' = sys) as Hsame by eauto using eval_unchanged.
  revert Hsame. unfold eval. rewrite Hp. unfold with_scratch. cbn [take_scratch fst]. rewrite (wf_scratch _ Hwf).
  pose proof (eval_runs sys wf_known wf_nodes wf_work wf_reach (CompiledExpression.ast c) ∅ fresh_budget
    (ready_empty sys) eq_refl (N.le_0_l _)) as Hrun.
  unfold runs in Hrun. change (resting ∅) with EvalScratch.default in Hrun.
  destruct (eval_ast _ _ _) as [[[q [b s]]|e]|]; [| |done]; intros Hsame; rewrite (Hsame _ _ eq_refl).
  - exists (Ok q). split; [done|]. by eexists.
  - eexists (Err _). by split.
Qed.

Lemma eval_means source q :
  (∃ sys', eval sys source = Some (Ok q, sys')) ↔
  ∃ c values heights ids, parse_bounded source (VariablesSystem.limits sys) = Some (Ok c)
    ∧ meaningful sys (CompiledExpression.ast c) values heights q
    ∧ NoDup ids ∧ (∀ d, d ∈ ids ↔ reached_by sys (CompiledExpression.ast c) d)
    ∧ (expr_size (CompiledExpression.ast c) + 2 * sum_nodes sys ids
       ≤ Limits.max_evaluation_work (VariablesSystem.limits sys))%N.
Proof.
  split.
  - intros [sys' He]. destruct (parse_bounded source (VariablesSystem.limits sys)) as [[c|e]|] eqn:Hp;
      [|by unfold eval in He; rewrite Hp in He|by unfold eval in He; rewrite Hp in He].
    destruct (eval_cases source c Hp) as (r & Hr & Hcase). rewrite Hr in He. injection He as -> _.
    destruct Hcase as [w [_ Hle (st & _ & Hready & _ & Hset & Hq & ids & Hnd & Hids & _ & Hspent)]].
    exists c, (value_in st), (height_in st), ids. split_and!; [done| |done| |].
    + assert (∀ d, d ∈ variables_of sys (refs (CompiledExpression.ast c)) →
        denotes sys d (value_in st d) (height_in st d)
        ∧ (height_in st d ≤ Limits.max_dependency_depth (VariablesSystem.limits sys))%N) as Hden.
      { intros d Hd. destruct (Hset d Hd) as [r Hr']. destruct (ready_meaning _ _ Hready _ _ Hr') as (? & ? & _).
        unfold value_in, height_in. by rewrite Hr'. }
      split; [done|]. rewrite <- Hq. apply eval_ref_ext. intros raw Hraw. unfold env_of, env_in.
      destruct (VariablesSystem.symbol_variable sys raw) as [d|] eqn:Hd; [|done].
      destruct (Hset d) as [r Hr']; [by eapply variables_of_elem|]. unfold value_in. by rewrite Hr'.
    + intros d. rewrite Hids, lookup_empty. naive_solver.
    + rewrite Hspent in Hle. lia.
  - intros (c & values & heights & ids & Hp & Hm & Hnd & Hids & Hle).
    destruct (eval_cases source c Hp) as ([q'|e] & Hr & Hcase).
    + destruct Hcase as [w [_ _ (st & _ & Hready & _ & Hset & Hq & _)]].
      rewrite (env_in_env_of _ _ _ _ _ _ Hready Hset Hm) in Hq. injection Hq as <-. by exists sys.
    + exfalso. apply (Hcase _ _ _ Hm). intros ids' Hnd' Hids'. etrans; [|exact Hle]. rewrite N.add_0_l.
      apply N.add_le_mono_l, N.mul_le_mono_l, sum_nodes_incl; [done|]. intros d Hd. apply Hids. by apply Hids'.
Qed.

End facts.

(** ** The promises *)


(** Definition on every branch. A refused definition leaves the system as it
    was; it is accepted exactly when the name is valid, shadows no unit, is free,
    and the count and the expression fit; and then its handle is new and the only
    one, and its name the only text, whose meaning changes. *)
Theorem define_spec sys namespace (name : string) c options r sys'
    (Hwf : wf sys) (Hutf8 : utf8 name)
    (Hdef : VariablesSystem.define sys namespace name c options = (r, sys')) :
  (is_ok r = true ↔ ∃ n, name_new name = Ok n
     ∧ ¬ (Namespace.is_root namespace = true ∧ is_ok (lookup (Name.as_str n)) = true)
     ∧ VariablesSystem.lookup_in sys namespace n = None
     ∧ (lenN (VariablesSystem.variables sys) < Limits.max_variables (VariablesSystem.limits sys))%N
     ∧ VariablesSystem.admit_expression sys c = Ok ())
  ∧ match r with
    | Err _ => sys' = sys
    | Ok id => ∃ n, name_new name = Ok n
        ∧ VariablesSystem.get sys id = None
        ∧ (∀ id', VariablesSystem.get sys' id' =
             if decide (id' = id)
             then Some (Variable_.mk (qualified namespace n) (VariableOptions.comment options) c)
             else VariablesSystem.get sys id')
        ∧ (∀ q, undotted (FQName.name q) → VariablesSystem.lookup_name sys' q =
             if decide (q = qualified namespace n) then Some id else VariablesSystem.lookup_name sys q)
    end.
Proof.
  revert Hdef. unfold VariablesSystem.define.
  destruct (VariablesSystem.define_checks sys namespace name c) as [key|e] eqn:Hc; intros [= <- <-].
  - apply (define_checks_ok sys Hwf) in Hc as (n & Hn & -> & Hu & Hfree & Hroom & Hadm).
    split; [split; [|done]; intros _; by exists n|].
    exists n. split_and!; [done|by apply get_fresh|intros id'; by apply (get_defined sys Hwf)|].
    intros q Hq. apply (defined_lookup sys); [|done]. by eapply string_name_undotted.
  - split; [|done]. split; [done|]. intros (n & Hn & Hu & Hfree & Hroom & Hadm).
    assert (VariablesSystem.define_checks sys namespace name c = Ok (qualified namespace n)) as Hok;
      [|congruence].
    apply (define_checks_ok sys Hwf). by exists n.
Qed.


(** [value] answers for every handle of every well-formed system, and reports
    a cycle only when the variable reaches one that depends on itself. *)
Theorem value_answers sys id (Hwf : wf sys) :
  ∃ r, value sys id = Some (r, sys)
    ∧ (r = Err (VariablesError.Eval ExprEvalError.Cycle) →
       ∃ d, rtc (depends sys) id d ∧ tc (depends sys) d d).
Proof.
  destruct (VariablesSystem.get sys id) as [v|] eqn:Hv.
  - destruct (value_cases sys Hwf id) as (r & Hr & Hcase); [by eexists|].
    exists r. split; [done|]. intros ->. destruct Hcase as (e' & He & _ & Hcycle).
    apply Hcycle. destruct e'; cbn in He; congruence.
  - exists (Err VariablesError.UnknownHandle). unfold value. by rewrite Hv.
Qed.

(** [eval] is exact. An ad-hoc expression evaluates to [q] if and only if it
    parses, each variable it names means something within the depth bound, [q]
    is the value of its tree over those meanings, and its own nodes with twice
    the nodes of the variables it reaches, each counted once, are within the
    work bound. *)
Theorem eval_exact sys source q (Hwf : wf sys) :
  (∃ sys', eval sys source = Some (Ok q, sys')) ↔
  ∃ c values heights ids, parse_bounded source (VariablesSystem.limits sys) = Some (Ok c)
    ∧ meaningful sys (CompiledExpression.ast c) values heights q
    ∧ NoDup ids ∧ (∀ d, d ∈ ids ↔ reached_by sys (CompiledExpression.ast c) d)
    ∧ (expr_size (CompiledExpression.ast c) + 2 * sum_nodes sys ids
       ≤ Limits.max_evaluation_work (VariablesSystem.limits sys))%N.
Proof. by apply eval_means. Qed.
End results.

(** ** Concrete systems *)
Section concrete.

(** [powf] and the Unicode tables do not matter to the examples. *)
Definition first_argument : Libm := λ x _, x.
#[local] Existing Instance first_argument.
#[local] Existing Instance latin1.

Definition parsed (source : string) : CompiledExpression.t :=
  match parse source with
  | Some (Ok c) => c
  | _ => CompiledExpression.mk "" (Expr.Literal F64.zero) 1 1
  end.
Definition with_variable (name source : string) (sys : VariablesSystem.t) : VariablesSystem.t :=
  (VariablesSystem.define sys Namespace.default name (parsed source) VariableOptions.default).2.

(** A side, its square, and a pair that refer to each other. *)
Definition squares : VariablesSystem.t :=
  with_variable "y" "x + 1" (with_variable "x" "y + 1"
    (with_variable "area" "side * side" (with_variable "side" "2 km" VariablesSystem.default))).
Definition area : VariableId.t := VariableId.mk 1.
Definition looping : VariableId.t := VariableId.mk 2.
Definition area_value : Quantity.t :=
  Quantity.mk (F64.of_decimal 4 6) (Dimension.new [2; 0; 0; 0; 0; 0; 0]%Z).

Lemma default_proper : proper_limits Limits.DEFAULT.
Proof. split; [apply default_widths|by apply N.leb_le]. Qed.

Lemma squares_built : built squares.
Proof.
  assert (∀ source, is_ok (match parse source with Some r => r | None => Err
      (ExprParsingError.mk ExprParsingErrorKind.Syntax "" (SourceSpan.new 0 0)) end) = true →
    parsed_expression (parsed source)) as Hp.
  { intros source Hok. exists source, Limits.DEFAULT. unfold parsed, parse in *.
    by destruct (parse_bounded source Limits.DEFAULT) as [[c|e]|]. }
  repeat (apply built_define; [|reflexivity|apply Hp; vm_compute; reflexivity]).
  apply built_new, default_proper.
Qed.

Lemma squares_wf : wf squares.
Proof. apply (built_is_wf (H0 := latin1) (Hlaws := latin1_laws)), squares_built. Qed.


Lemma define_spec_witness :
  (VariablesSystem.define squares Namespace.default "side" (parsed "1") VariableOptions.default).2 = squares
  ∧ ∃ id, (VariablesSystem.define squares (Namespace.new "electricity") "K" (parsed "8.99e9")
             VariableOptions.default).1 = Ok id ∧ VariablesSystem.get squares id = None.
Proof.
  split.
  - exact (proj2 (define_spec (H0 := latin1) (Hlaws := latin1_laws) squares Namespace.default "side"
      (parsed "1") VariableOptions.default
      (Err (VariablesError.DuplicateName Namespace.default (Name.mk "side"))) squares
      squares_wf eq_refl ltac:(vm_compute; reflexivity))).
  - destruct (VariablesSystem.define squares (Namespace.new "electricity") "K" (parsed "8.99e9")
      VariableOptions.default) as [r sys'] eqn:Hdef.
    assert (r = Ok (VariableId.mk 4)) as ->
      by (apply (f_equal fst) in Hdef; vm_compute in Hdef; symmetry; exact Hdef).
    exists (VariableId.mk 4). split; [reflexivity|].
    destruct (define_spec (H0 := latin1) (Hlaws := latin1_laws) squares (Namespace.new "electricity") "K"
      (parsed "8.99e9") VariableOptions.default _ _ squares_wf eq_refl Hdef) as [_ (n & _ & Hnone & _)].
    exact Hnone.
Defined.


Lemma value_answers_witness :
  (fst <$> value squares looping) = Some (Err (VariablesError.Eval ExprEvalError.Cycle))
  ∧ ∃ d, rtc (depends squares) looping d ∧ tc (depends squares) d d.
Proof.
  assert ((fst <$> value squares looping) = Some (Err (VariablesError.Eval ExprEvalError.Cycle))) as Hv
    by (vm_compute; reflexivity).
  split; [exact Hv|].
  destruct (value_answers squares looping squares_wf) as (r & Hr & Hc).
  apply Hc. rewrite Hr in Hv. injection Hv as Hv. exact Hv.
Defined.

Lemma eval_exact_witness :
  (∃ sys', eval squares "area / side" = Some (Ok (Quantity.mk (F64.of_decimal 2 3) Dimension.LENGTH), sys'))
  ∧ ∃ c values heights, parse_bounded "area / side" (VariablesSystem.limits squares) = Some (Ok c)
    ∧ meaningful squares (CompiledExpression.ast c) values heights
        (Quantity.mk (F64.of_decimal 2 3) Dimension.LENGTH).
Proof.
  assert (∃ sys', eval squares "area / side"
          = Some (Ok (Quantity.mk (F64.of_decimal 2 3) Dimension.LENGTH), sys')) as Hv
    by (eexists; vm_compute; reflexivity).
  split; [exact Hv|].
  destruct (proj1 (eval_exact squares "area / side" _ squares_wf) Hv)
    as (c & values & heights & ids & Hp & Hm & _).
  exists c, values, heights. split; [exact Hp|exact Hm].
Defined.
End concrete.
