(* ===== verification/Locality.v ===== *)
(** * What an evaluation depends on (orishu-variables, system.rs)

    Two systems that give a set of names the same definitions, closed under what
    the definitions refer to, give them the same values, at the same depth and
    the same cost. *)

From stdpp Require Import base gmap strings list relations.
From S2P Require Import Prelude Identity VarLimits Action Binary64 Quantity Expression Namespace Evaluation System Resolution Variables.

Section locality.
Context `{Libm} (A B : VariablesSystem.t) (HA : wf A) (HB : wf B).
Context (agreed : string → Prop).

(** The handles of an agreed name in both systems. *)
Definition twin (a b : VariableId.t) : Prop :=
  ∃ raw, agreed raw ∧ VariablesSystem.symbol_variable A raw = Some a
    ∧ VariablesSystem.symbol_variable B raw = Some b.

(** The agreement: names are defined in both or in neither, by the same tree, and
    refer to agreed names only. *)
Record agree : Prop := {
  agree_limits : VariablesSystem.limits A = VariablesSystem.limits B;
  agree_defined : ∀ raw, agreed raw →
    is_Some (VariablesSystem.symbol_variable A raw) ↔ is_Some (VariablesSystem.symbol_variable B raw);
  agree_tree : ∀ a b va vb, twin a b → VariablesSystem.get A a = Some va → VariablesSystem.get B b = Some vb →
    expr_of va = expr_of vb;
  agree_closed : ∀ a b va raw, twin a b → VariablesSystem.get A a = Some va → raw ∈ refs (expr_of va) → agreed raw
}.
Context (Hagree : agree).

Lemma twin_known a b : twin a b →
  ∃ va vb, VariablesSystem.get A a = Some va ∧ VariablesSystem.get B b = Some vb ∧ expr_of va = expr_of vb.
Proof.
  intros Ht. pose proof Ht as (raw & _ & Ha & Hb).
  destruct (wf_known A HA raw a Ha) as [va Hva], (wf_known B HB raw b Hb) as [vb Hvb].
  exists va, vb. split_and!; [done..|]. by eapply agree_tree.
Qed.
Lemma symbol_text sys raw d v : wf sys → VariablesSystem.symbol_variable sys raw = Some d →
  VariablesSystem.get sys d = Some v → raw = FQName.to_string (Variable_.name v).
Proof. intros Hwf Hd Hv. apply (wf_index _ Hwf) in Hd as (v' & Hv' & <-). congruence. Qed.
Lemma twin_fun a b b' : twin a b → twin a b' → b = b'.
Proof.
  intros Ht (raw' & _ & Ha' & Hb'). pose proof Ht as (raw & _ & Ha & Hb).
  destruct (twin_known _ _ Ht) as (va & _ & Hva & _ & _).
  assert (raw = raw') as -> by (rewrite (symbol_text A raw a va HA Ha Hva); by rewrite (symbol_text A raw' a va HA Ha' Hva)).
  congruence.
Qed.
Lemma twin_inj a a' b : twin a b → twin a' b → a = a'.
Proof.
  intros Ht (raw' & _ & Ha' & Hb'). pose proof Ht as (raw & _ & Ha & Hb).
  destruct (twin_known _ _ Ht) as (_ & vb & _ & Hvb & _).
  assert (raw = raw') as -> by (rewrite (symbol_text B raw b vb HB Hb Hvb); by rewrite (symbol_text B raw' b vb HB Hb' Hvb)).
  congruence.
Qed.

(** The lists of variables that agreed names denote are twins, one by one. *)
Lemma variables_twin names : Forall agreed names →
  Forall2 twin (variables_of A names) (variables_of B names).
Proof.
  unfold variables_of. induction 1 as [|raw names Hraw _ IH]; [constructor|]. cbn.
  pose proof (agree_defined Hagree raw Hraw) as Hdef.
  destruct (VariablesSystem.symbol_variable A raw) as [a|] eqn:Ha, (VariablesSystem.symbol_variable B raw) as [b|] eqn:Hb.
  - constructor; [|done]. by exists raw.
  - exfalso. destruct (proj1 Hdef) as [x Hx]; [by eexists|done].
  - exfalso. destruct (proj2 Hdef) as [x Hx]; [by eexists|done].
  - done.
Qed.
Lemma deps_twin a b : twin a b → Forall2 twin (deps_of A a) (deps_of B b).
Proof.
  intros Ht. destruct (twin_known _ _ Ht) as (va & vb & Hva & Hvb & Heq).
  unfold deps_of. rewrite Hva, Hvb, <- Heq. apply variables_twin, Forall_forall. intros raw Hraw. by eapply agree_closed.
Qed.

(** The twin of a handle of [B], by the text of its name. *)
Definition twin_of (b : VariableId.t) : VariableId.t :=
  match VariablesSystem.get B b with
  | Some vb => default b (VariablesSystem.symbol_variable A (FQName.to_string (Variable_.name vb)))
  | None => b
  end.
Lemma twin_of_twin a b : twin a b → twin_of b = a.
Proof.
  intros Ht. pose proof Ht as (raw & _ & Ha & Hb). destruct (twin_known _ _ Ht) as (_ & vb & _ & Hvb & _).
  unfold twin_of. by rewrite Hvb, <- (symbol_text B raw b vb HB Hb Hvb), Ha.
Qed.

Lemma env_twin names values raw : Forall agreed names → raw ∈ names →
  env_of B (values ∘ twin_of) raw = env_of A values raw.
Proof.
  intros Hall Hraw. rewrite Forall_forall in Hall. specialize (Hall raw Hraw).
  pose proof (agree_defined Hagree raw Hall) as Hdef. unfold env_of.
  destruct (VariablesSystem.symbol_variable A raw) as [a|] eqn:Ha, (VariablesSystem.symbol_variable B raw) as [b|] eqn:Hb.
  - assert (twin a b) as Ht by (by exists raw). cbn. by rewrite (twin_of_twin a b Ht).
  - exfalso. destruct (proj1 Hdef) as [x Hx]; [by eexists|done].
  - exfalso. destruct (proj2 Hdef) as [x Hx]; [by eexists|done].
  - done.
Qed.
Lemma height_over_twin heights la lb : Forall2 twin la lb →
  height_over (heights ∘ twin_of) lb = height_over heights la.
Proof.
  induction 1 as [|a b la lb Ht _ IH]; [done|]. unfold height_over in *. cbn [foldr].
  rewrite IH. cbn. by rewrite (twin_of_twin a b Ht).
Qed.

(** ** The meaning *)
Lemma denotes_twin a q h : denotes A a q h → ∀ b, twin a b → denotes B b q h.
Proof.
  induction 1 as [a va q values heights Hva _ IH Hq]. intros b Ht.
  destruct (twin_known _ _ Ht) as (va' & vb & Hva' & Hvb & Heq). assert (va' = va) as -> by congruence.
  pose proof (deps_twin a b Ht) as Hdeps. rewrite <- (height_over_twin heights _ _ Hdeps).
  apply denotes_intro with vb (values ∘ twin_of); [done| |].
  - intros d [k Hk]%list_elem_of_lookup. destruct (Forall2_lookup_r _ _ _ _ _ Hdeps Hk) as (da & Hda & Htd).
    cbn. rewrite (twin_of_twin da d Htd). apply IH; [by eapply list_elem_of_lookup_2|done].
  - rewrite <- Heq, <- Hq. apply eval_ref_ext. intros raw Hraw. eapply env_twin; [|exact Hraw].
    apply Forall_forall. intros raw' Hraw'. by eapply agree_closed.
Qed.

Lemma reach_twin a b d : twin a b → rtc (depends A) a d → ∃ d', twin d d' ∧ rtc (depends B) b d'.
Proof.
  intros Ht Hr. revert b Ht. induction Hr as [a|a k d Hak _ IH]; intros b Ht; [by exists b|].
  apply list_elem_of_lookup in Hak as [n Hn]. pose proof (deps_twin a b Ht) as Hdeps.
  destruct (Forall2_lookup_l _ _ _ _ _ Hdeps Hn) as (k' & Hk' & Htk).
  destruct (IH k' Htk) as (d' & Htd & Hd'). exists d'. split; [done|]. eapply rtc_l; [|exact Hd'].
  by eapply list_elem_of_lookup_2.
Qed.

Lemma nodes_twin a b : twin a b → nodes_of A a = nodes_of B b.
Proof.
  intros Ht. destruct (twin_known _ _ Ht) as (va & vb & Hva & Hvb & Heq). unfold nodes_of. rewrite Hva, Hvb.
  by rewrite (wf_nodes A HA a va Hva), (wf_nodes B HB b vb Hvb), Heq.
Qed.
Lemma ids_twin ids : (∀ a, a ∈ ids → ∃ b, twin a b) → NoDup ids →
  ∃ ids', NoDup ids' ∧ sum_nodes B ids' = sum_nodes A ids ∧ ∀ b, b ∈ ids' ↔ ∃ a, a ∈ ids ∧ twin a b.
Proof.
  intros Hall Hnd. induction Hnd as [|a ids Hnin Hnd IH].
  - exists []. split_and!; [constructor|done|]. intros b. rewrite elem_of_nil. split; [done|]. by intros (a & ?%elem_of_nil & _).
  - destruct IH as (ids' & Hnd' & Hsum & Hids'); [intros x Hx; apply Hall; by constructor|].
    destruct (Hall a) as [b Ht]; [constructor|]. exists (b :: ids'). split_and!.
    + constructor; [|done]. intros Hb. apply Hids' in Hb as (a' & Ha' & Ht'). by rewrite (twin_inj _ _ _ Ht Ht') in Hnin.
    + by rewrite !sum_nodes_cons, Hsum, (nodes_twin a b Ht).
    + intros b'. rewrite elem_of_cons, Hids'. split.
      * intros [->|(a' & ? & ?)]; [exists a|exists a']; (split; [by constructor|done]).
      * intros (a' & [->|Ha']%elem_of_cons & Ht'); [left; by eapply twin_fun|right; by exists a'].
Qed.
End locality.

Lemma agree_sym `{Libm} A B agreed : wf A → wf B → agree A B agreed → agree B A agreed.
Proof.
  intros HA HB Hag. assert (∀ a b, twin B A agreed b a → twin A B agreed a b) as Hsym
    by (intros a b (raw & ? & ? & ?); by exists raw).
  split.
  - symmetry. by eapply agree_limits.
  - intros raw Hraw. symmetry. by eapply agree_defined.
  - intros b a vb va Ht Hvb Hva. symmetry. by eapply (agree_tree A B agreed Hag a b); [apply Hsym|..].
  - intros b a vb raw Ht Hvb Hraw. destruct (twin_known A B HA HB agreed Hag a b (Hsym _ _ Ht)) as (va & vb' & Hva & Hvb' & Heq).
    assert (vb' = vb) as -> by congruence. rewrite <- Heq in Hraw. by eapply (agree_closed A B agreed Hag a b); [apply Hsym|..].
Qed.

(** ** The values *)
Section values.
Context `{Libm} (A B : VariablesSystem.t) (HA : wf A) (HB : wf B) (agreed : string → Prop).
Context (Hagree : agree A B agreed).

Lemma reached_twin (P : VariableId.t → Prop) ids (Q : VariableId.t → Prop) :
  NoDup ids → (∀ d, d ∈ ids ↔ ∃ a, P a ∧ rtc (depends A) a d) →
  (∀ a, P a → ∃ b, twin A B agreed a b ∧ Q b) → (∀ b, Q b → ∃ a, twin A B agreed a b ∧ P a) →
  ∃ ids', NoDup ids' ∧ sum_nodes B ids' = sum_nodes A ids ∧ ∀ d, d ∈ ids' ↔ ∃ b, Q b ∧ rtc (depends B) b d.
Proof.
  intros Hnd Hids HPQ HQP.
  destruct (ids_twin A B HA HB agreed Hagree ids) as (ids' & Hnd' & Hsum & Hids'); [|done|].
  { intros d (a & Ha & Hr)%Hids. destruct (HPQ a Ha) as (b & Ht & _).
    destruct (reach_twin A B HA HB agreed Hagree a b d Ht Hr) as (d' & ? & _). by exists d'. }
  exists ids'. split_and!; [done..|]. intros d'. rewrite Hids'. split.
  - intros (d & (a & Ha & Hr)%Hids & Ht). destruct (HPQ a Ha) as (b & Htb & Hb). exists b. split; [done|].
    destruct (reach_twin A B HA HB agreed Hagree a b d Htb Hr) as (d'' & Ht' & Hr').
    assert (d' = d'') as -> by (by eapply (twin_fun A B HA HB agreed Hagree d)). exact Hr'.
  - intros (b & Hb & Hr). destruct (HQP b Hb) as (a & Ht & Ha).
    assert (twin B A agreed b a) as Ht' by (destruct Ht as (raw & ? & ? & ?); by exists raw).
    destruct (reach_twin B A HB HA agreed (agree_sym A B agreed HA HB Hagree) b a d' Ht' Hr) as (d & Htd & Hrd).
    exists d. split; [apply Hids; by exists a|]. destruct Htd as (raw & ? & ? & ?). by exists raw.
Qed.

(** A variable that has a value keeps it. *)
Lemma value_agrees a b q :
  twin A B agreed a b → (∃ sys', value A a = Some (Ok q, sys')) → ∃ sys', value B b = Some (Ok q, sys').
Proof.
  intros Ht Hv. apply (value_means A HA) in Hv as (h & ids & Hden & Hh & Hnd & Hids & Hwork).
  destruct (reached_twin (λ x, x = a) ids (λ y, y = b)) as (ids' & Hnd' & Hsum & Hids'); try done.
  { intros d. rewrite Hids. naive_solver. }
  { intros ? ->. by exists b. } { intros ? ->. by exists a. }
  apply (value_means B HB). exists h, ids'. rewrite <- (agree_limits _ _ _ Hagree), Hsum.
  split_and!; [by apply (denotes_twin A B HA HB agreed Hagree a q h Hden)|done|done| |done]. intros d. rewrite Hids'. naive_solver.
Qed.

(** An expression over agreed names keeps its value. *)
Lemma eval_agrees source c q :
  parse_bounded source (VariablesSystem.limits A) = Some (Ok c) →
  (∀ raw, raw ∈ refs (CompiledExpression.ast c) → agreed raw) →
  (∃ sys', eval A source = Some (Ok q, sys')) → ∃ sys', eval B source = Some (Ok q, sys').
Proof.
  intros Hp Hall Hv. apply (eval_means A HA) in Hv as (c' & values & heights & ids & Hp' & [Hden Hq] & Hnd & Hids & Hwork).
  rewrite Hp in Hp'. injection Hp' as <-. set (e := CompiledExpression.ast c) in *.
  pose proof (variables_twin A B agreed Hagree (refs e) (proj2 (Forall_forall _ _) Hall)) as Hvars.
  assert (∀ b, b ∈ variables_of B (refs e) → ∃ a, twin A B agreed a b ∧ a ∈ variables_of A (refs e)) as Hback.
  { intros b [k Hk]%list_elem_of_lookup. destruct (Forall2_lookup_r _ _ _ _ _ Hvars Hk) as (a & Ha & Ht).
    exists a. split; [done|]. by eapply list_elem_of_lookup_2. }
  destruct (reached_twin (λ x, x ∈ variables_of A (refs e)) ids (λ y, y ∈ variables_of B (refs e)))
    as (ids' & Hnd' & Hsum & Hids'); [done|done| |exact Hback|].
  { intros a [k Hk]%list_elem_of_lookup. destruct (Forall2_lookup_l _ _ _ _ _ Hvars Hk) as (b & Hb & Ht).
    exists b. split; [done|]. by eapply list_elem_of_lookup_2. }
  apply (eval_means B HB). exists c, (values ∘ twin_of A B), (heights ∘ twin_of A B), ids'.
  rewrite <- (agree_limits _ _ _ Hagree), Hsum. split_and!; [done| |done|done|done]. split.
  - intros b Hb. destruct (Hback b Hb) as (a & Ht & Ha). cbn.
    rewrite (twin_of_twin A B HA HB agreed Hagree a b Ht). destruct (Hden a Ha). split; [by eapply (denotes_twin A B HA HB agreed Hagree a)|by rewrite <- (agree_limits _ _ _ Hagree)].
  - rewrite <- Hq. apply eval_ref_ext. intros raw Hraw.
    apply (env_twin A B HA HB agreed Hagree (refs e)); [by apply Forall_forall|done].
Qed.
End values.
