(* ===== verification/PluginIds.v ===== *)
(** * Plugin identities (orishu-plugin, ids.rs and lib.rs)

    Validated spellings of the plugin vocabulary, provider-qualified
    contributions with their derived order, and the bounded diagnostic of the
    crate. *)

From Stdlib Require Import Ascii.
From stdpp Require Import base gmap strings list.
From S2P Require Import Prelude Identity Expression.

(** [str::split] at an ASCII character: always at least one piece. *)
Fixpoint split_on (c : ascii) (bs : bytes) : list bytes :=
  match bs with
  | [] => [[]]
  | b :: bs =>
    if decide (b = c) then [] :: split_on c bs
    else match split_on c bs with
         | piece :: pieces => (b :: piece) :: pieces
         | [] => [[b]]
         end
  end.

(** [str::split_once] at an ASCII character. *)
Fixpoint split_once (c : ascii) (bs : bytes) : option (bytes * bytes) :=
  match bs with
  | [] => None
  | b :: bs =>
    if decide (b = c) then Some ([], bs)
    else match split_once c bs with
         | Some (before, after) => Some (b :: before, after)
         | None => None
         end
  end.

(** ** Diagnostics *)
Module ErrorCode.
Inductive t : Type :=
  | Malformed | LimitExceeded | IntegrityMismatch | UnsupportedVersion | InvalidSelection.
#[global] Instance ErrorCode_eq_dec : EqDecision t.
Proof. solve_decision. Defined.
End ErrorCode.

Module Error.
Record t : Type := mk { code : ErrorCode.t; path : string; message : string }.
#[global] Instance Error_eq_dec : EqDecision t.
Proof. solve_decision. Defined.

(** The longest prefix of at most [n] bytes that ends between characters. *)
Fixpoint bounded_len (bs : bytes) (n : nat) : nat :=
  match drop n bs with
  | [] => n
  | b :: _ =>
    if (128 <=? N_of_ascii b)%N && (N_of_ascii b <? 192)%N
    then match n with S n => bounded_len bs n | O => 0 end
    else n
  end.
Definition bounded (value : string) (max : nat) : string :=
  let bs := bytes_of value in
  String.string_of_list_ascii (take (bounded_len bs (Nat.min (length bs) max)) bs).
Definition new (code : ErrorCode.t) (path message : string) : t :=
  mk code (bounded path 256) (bounded message 512).
Definition malformed (path message : string) : t := new ErrorCode.Malformed path message.
End Error.

(** ** Spellings *)
Definition is_ascii_lowercase (c : ascii) : bool :=
  let n := N_of_ascii c in (97 <=? n)%N && (n <=? 122)%N.
Definition segment (s : bytes) : bool :=
  head_is is_ascii_lowercase s
  && forallb (λ c, is_ascii_lowercase c || is_ascii_digit c || is_byte 45 c) s.

(** [str::parse::<u32>] of digits that do not start with a zero. *)
Definition is_u32 (digits : bytes) : bool := (digits_value digits <=? u32_max)%N.

Definition plugin_id_ok (s : bytes) : bool :=
  (lenN s <=? 128)%N && (lenN (split_on "."%char s) <=? 8)%N && forallb segment (split_on "."%char s).
Definition local_contribution_id_ok (s : bytes) : bool := (lenN s <=? 64)%N && segment s.
Definition extension_point_id_ok (s : bytes) : bool :=
  (lenN s <=? 160)%N
  && match split_once "/"%char s with
     | None => false
     | Some (name, version) =>
       plugin_id_ok name
       && match version with
          | c :: v =>
            is_byte 118 c && negb (bool_decide (v = [])) && negb (head_is (is_byte 48) v)
            && forallb is_ascii_digit v && is_u32 v
          | [] => false
          end
     end.

Definition checked_name (kind : string) (ok : bytes → bool) (value : string) : result Error.t string :=
  if ok (bytes_of value) then Ok value else Err (Error.malformed kind "invalid identifier").

Module LocalContributionId.
Record t : Type := mk { as_str : string }.
#[global] Instance LocalContributionId_eq_dec : EqDecision t.
Proof. solve_decision. Defined.
#[global] Instance LocalContributionId_countable : Countable t.
Proof. refine (inj_countable' as_str mk _); by intros []. Defined.
#[global] Instance LocalContributionId_ord : Ord t := λ a b, cmp (as_str a) (as_str b).
#[global] Instance LocalContributionId_ord_laws : OrdLaws t.
Proof. eapply (ord_laws_inj as_str); [by intros [] []; simpl; intros ->|done]. Qed.
Definition new (value : string) : result Error.t t :=
  value ← checked_name "LocalContributionId" local_contribution_id_ok value; Ok (mk value).
End LocalContributionId.

Module ExtensionPointId.
Record t : Type := mk { as_str : string }.
#[global] Instance ExtensionPointId_eq_dec : EqDecision t.
Proof. solve_decision. Defined.
#[global] Instance ExtensionPointId_countable : Countable t.
Proof. refine (inj_countable' as_str mk _); by intros []. Defined.
#[global] Instance ExtensionPointId_ord : Ord t := λ a b, cmp (as_str a) (as_str b).
#[global] Instance ExtensionPointId_ord_laws : OrdLaws t.
Proof. eapply (ord_laws_inj as_str); [by intros [] []; simpl; intros ->|done]. Qed.
Definition new (value : string) : result Error.t t :=
  value ← checked_name "ExtensionPointId" extension_point_id_ok value; Ok (mk value).
End ExtensionPointId.

(** The digest of a canonical release root: its bytes. *)
Module PluginReleaseId.
Record t : Type := mk { as_bytes : bytes }.
#[global] Instance PluginReleaseId_eq_dec : EqDecision t.
Proof. solve_decision. Defined.
#[global] Instance PluginReleaseId_countable : Countable t.
Proof. refine (inj_countable' as_bytes mk _); by intros []. Defined.
#[global] Instance PluginReleaseId_ord : Ord t := λ a b, cmp (as_bytes a) (as_bytes b).
#[global] Instance PluginReleaseId_ord_laws : OrdLaws t.
Proof. eapply (ord_laws_inj as_bytes); [by intros [] []; simpl; intros ->|done]. Qed.
End PluginReleaseId.

Module ContributionRef.
Record t : Type := mk {
  release : PluginReleaseId.t;
  extension_point : ExtensionPointId.t;
  local_id : LocalContributionId.t
}.
#[global] Instance ContributionRef_eq_dec : EqDecision t.
Proof. solve_decision. Defined.
Definition key (c : t) : (PluginReleaseId.t * ExtensionPointId.t) * LocalContributionId.t :=
  (release c, extension_point c, local_id c).
Definition of_key (k : (PluginReleaseId.t * ExtensionPointId.t) * LocalContributionId.t) : t :=
  mk k.1.1 k.1.2 k.2.
#[global] Instance ContributionRef_countable : Countable t.
Proof. refine (inj_countable' key of_key _); by intros []. Defined.
#[global] Instance ContributionRef_ord : Ord t := λ a b, cmp (key a) (key b).
#[global] Instance ContributionRef_ord_laws : OrdLaws t.
Proof. eapply (ord_laws_inj key); [by intros [] [] [= -> -> ->]|done]. Qed.
End ContributionRef.
