(* ===== verification/Lock.v ===== *)
(** * Provider intent (orishu-plugin, authoring_lock.rs, resolution.rs and selected.rs)

    The closed graph of contributions an author selected, and the validation
    that bounds it: canonical order, references inside the set, no cycle, every
    member reachable, every chain within the depth bound. *)

From stdpp Require Import base gmap strings list.
From S2P Require Import Prelude Identity PluginIds.

Module RequirementKey.
Record t : Type := mk { consumer : ContributionRef.t; slot : LocalContributionId.t }.
#[global] Instance RequirementKey_eq_dec : EqDecision t.
Proof. solve_decision. Defined.
#[global] Instance RequirementKey_ord : Ord t := λ a b, cmp (consumer a, slot a) (consumer b, slot b).
#[global] Instance RequirementKey_ord_laws : OrdLaws t.
Proof. eapply (ord_laws_inj (λ k, (consumer k, slot k))); [by intros [] [] [= -> ->]|done]. Qed.
End RequirementKey.

Module ProviderBinding.
Record t : Type := mk { requirement : RequirementKey.t; provider : ContributionRef.t }.
#[global] Instance ProviderBinding_eq_dec : EqDecision t.
Proof. solve_decision. Defined.
Definition consumer (b : t) : ContributionRef.t := RequirementKey.consumer (requirement b).
End ProviderBinding.

Module Selection.
Record t : Type := mk {
  roots : list ContributionRef.t;
  contributions : list ContributionRef.t;
  bindings : list ProviderBinding.t
}.
#[global] Instance Selection_eq_dec : EqDecision t.
Proof. solve_decision. Defined.
End Selection.

(** The part of a selected binding and of a selection descriptor the document
    compares a lock with. *)
Module SelectedBinding.
Record t : Type := mk {
  consumer : ContributionRef.t;
  requirement_slot : LocalContributionId.t;
  provider : ContributionRef.t
}.
End SelectedBinding.
Module SelectionDescriptor.
Record t : Type := mk {
  contributions : list ContributionRef.t;
  bindings : list SelectedBinding.t
}.
End SelectionDescriptor.

Module LockLimits.
Record t : Type := mk { bytes : N; items : N; work : N; dependency_depth : N }.
#[global] Instance LockLimits_eq_dec : EqDecision t.
Proof. solve_decision. Defined.
Definition DEFAULT : t := mk (1024 * 1024) 4096 1000000 32.
End LockLimits.

Module SelectionLock.
(** [canonical_bytes] is the length of the canonical encoding, cached when the
    lock is built. *)
Record t : Type := mk { selection : Selection.t; canonical_bytes : N }.
#[global] Instance SelectionLock_eq_dec : EqDecision t.
Proof. solve_decision. Defined.
End SelectionLock.

(** Why two locks do not compose (authoring_lock/composition.rs). *)
Module BindingConflict.
Record t : Type := mk {
  requirement : RequirementKey.t;
  existing : option ContributionRef.t;
  incoming : option ContributionRef.t
}.
#[global] Instance BindingConflict_eq_dec : EqDecision t.
Proof. solve_decision. Defined.
End BindingConflict.
Module CompositionError.
Inductive t : Type := Invalid (error : Error.t) | Conflict (conflict : BindingConflict.t).
#[global] Instance CompositionError_eq_dec : EqDecision t.
Proof. solve_decision. Defined.
End CompositionError.

(** [slice::binary_search]: the index of an equal element, if there is one. The
    slices searched are sorted without duplicates, so it is the only one. *)
Definition binary_search {A} `{EqDecision A} (l : list A) (x : A) : option nat :=
  fst <$> list_find (λ y, y = x) l.

Definition invalid (path message : string) : Error.t := Error.new ErrorCode.InvalidSelection path message.
Definition limit_error (path : string) : Error.t :=
  Error.new ErrorCode.LimitExceeded path "authoring lock budget exceeded".

(** Strictly increasing. *)
Fixpoint sorted_from {A} `{Ord A} (prev : A) (l : list A) : bool :=
  match l with [] => true | x :: l => cmp_ltb prev x && sorted_from x l end.
Definition sorted {A} `{Ord A} (l : list A) : bool :=
  match l with [] => true | x :: l => sorted_from x l end.

Section validate.
Context (limits : LockLimits.t) (members : list ContributionRef.t).

Definition index (c : ContributionRef.t) : result Error.t nat :=
  match binary_search members c with
  | Some i => Ok i
  | None => Err (invalid "selection" "reference outside contribution set")
  end.

(** [for root in roots { depth[index(root)?] = 1 }]. *)
Fixpoint mark_roots (roots : list ContributionRef.t) (depth : list N) : result Error.t (list N) :=
  match roots with
  | [] => Ok depth
  | root :: roots => i ← index root; mark_roots roots (<[i := 1%N]> depth)
  end.

(** The targets of the bindings in order, how many bindings leave each member
    (stored one place up in the code) and how many arrive. *)
Fixpoint count_edges (bindings : list ProviderBinding.t) (offsets incoming : list nat) (targets : list nat)
    : result Error.t (list nat * list nat * list nat) :=
  match bindings with
  | [] => Ok (offsets, incoming, targets)
  | b :: bindings =>
    from ← index (ProviderBinding.consumer b);
    to ← index (ProviderBinding.provider b);
    count_edges bindings (alter S (from + 1) offsets) (alter S to incoming) (targets ++ [to])
  end.

(** [for i in 1..offsets.len() { offsets[i] += offsets[i - 1] }]. *)
Fixpoint prefix_sums (acc : nat) (l : list nat) : list nat :=
  match l with [] => [] | n :: l => (acc + n) :: prefix_sums (acc + n) l end.

(** [&targets[offsets[from]..offsets[from + 1]]]. *)
Definition targets_of (offsets targets : list nat) (from : nat) : list nat :=
  let start := default 0 (offsets !! from) in
  take (default 0 (offsets !! (from + 1)) - start) (drop start targets).

(** One edge of the queue's turn. *)
Definition relax (from : nat) (s : list N * list nat * list nat) (to : nat)
    : list N * list nat * list nat :=
  let '(depth, incoming, ready) := s in
  let from_depth := default 0%N (depth !! from) in
  let depth := if (0 <? from_depth)%N then alter (λ d, N.max d (from_depth + 1)) to depth else depth in
  let incoming := alter pred to incoming in
  (depth, incoming, if decide (incoming !! to = Some 0) then ready ++ [to] else ready).

(** The queue: a member is visited when every binding that arrives at it has
    been. *)
Fixpoint visit_ready (fuel : nat) (offsets targets : list nat)
    (s : list N * list nat * list nat) (cursor : nat) : outcome Error.t (list N * list nat) :=
  let '(depth, incoming, ready) := s in
  match ready !! cursor with
  | None => Some (Ok (depth, ready))
  | Some from =>
    match fuel with
    | O => None
    | S fuel =>
      if (N.min (LockLimits.dependency_depth limits) 64 <? default 0%N (depth !! from))%N
      then Some (Err (limit_error "dependencyDepth"))
      else visit_ready fuel offsets targets
             (foldl (relax from) s (targets_of offsets targets from)) (S cursor)
    end
  end.
End validate.

(** [3 * (members + bindings) + roots], checked. *)
Definition lock_work (s : Selection.t) : option N :=
  checked_add usize_max (lenN (Selection.contributions s)) (lenN (Selection.bindings s)) ≫= λ n,
  (if (n * 3 <=? usize_max)%N then Some (n * 3)%N else None) ≫= λ n,
  checked_add usize_max n (lenN (Selection.roots s)).

(** The part of [SelectionLock::validate] after the bounds and the order: a member
    enters the queue once. *)
Definition validate_graph (limits : LockLimits.t) (s : Selection.t) : outcome Error.t unit :=
  let members := Selection.contributions s in
  let n := length members in
  match mark_roots members (Selection.roots s) (replicate n 0%N) with
  | Err e => Some (Err e)
  | Ok depth =>
    match count_edges members (Selection.bindings s) (replicate (n + 1) 0) (replicate n 0) [] with
    | Err e => Some (Err e)
    | Ok (counts, incoming, targets) =>
      match visit_ready limits n (prefix_sums 0 counts) targets
              (depth, incoming, filter (λ i, incoming !! i = Some 0) (seq 0 n)) 0 with
      | None => None
      | Some (Err e) => Some (Err e)
      | Some (Ok (depth, ready)) =>
        if negb (length ready =? n) then Some (Err (invalid "bindings" "dependency cycle"))
        else if bool_decide (0%N ∈ depth)
        then Some (Err (invalid "contributions" "unreachable contribution"))
        else Some (Ok ())
      end
    end
  end.

(** [SelectionLock::validate]. *)
Definition lock_validate (lock : SelectionLock.t) (limits : LockLimits.t) : outcome Error.t unit :=
  let s := SelectionLock.selection lock in
  let members := Selection.contributions s in
  if (LockLimits.bytes limits <? SelectionLock.canonical_bytes lock)%N then Some (Err (limit_error "bytes"))
  else if (LockLimits.items limits <? lenN (Selection.roots s))%N
          || (LockLimits.items limits <? lenN members)%N
          || (LockLimits.items limits <? lenN (Selection.bindings s))%N
  then Some (Err (limit_error "entries"))
  else if match lock_work s with Some w => (LockLimits.work limits <? w)%N | None => true end
  then Some (Err (limit_error "work"))
  else if negb (sorted (Selection.roots s)) || negb (sorted members)
          || negb (sorted (ProviderBinding.requirement <$> Selection.bindings s))
  then Some (Err (invalid "selection" "duplicate or noncanonical set order"))
  else validate_graph limits s.
