(* ===== verification/LockGraph.v ===== *)
(** * The validation of a lock decides its graph (orishu-plugin, authoring_lock.rs)

    The queue of [SelectionLock::validate] visits a member once every binding
    that arrives at it has been followed; a member left out of the queue lies on
    or behind a cycle, and the depth a member is visited with is its longest
    chain from a root. *)

From stdpp Require Import base gmap strings list relations sorting.
From S2P Require Import Prelude Identity PluginIds Lock.

(** ** The queue *)
Section queue.
Context (limits : LockLimits.t) (n : nat) (offsets targets : list nat) (root : nat → Prop).
Abbreviation adj := (targets_of offsets targets).
Abbreviation bound := (N.min (LockLimits.dependency_depth limits) 64).
Context (Hadj : ∀ i j, j ∈ adj i → j < n).

(** How often [j] occurs, and how many edges leave [todo] for [j]. *)
Definition occurrences (j : nat) (l : list nat) : nat := length (filter (λ k, k = j) l).
Definition edges_from (todo : list nat) (j : nat) : nat := sum_list_with (λ i, occurrences j (adj i)) todo.

(** A chain of [k] members from a root to [j]. *)
Inductive chain : N → nat → Prop :=
  | chain_root r : root r → chain 1 r
  | chain_step k i j : chain k i → j ∈ adj i → chain (k + 1) j.

Lemma occurrences_zero j l : occurrences j l = 0 ↔ j ∉ l.
Proof.
  unfold occurrences. rewrite length_zero_iff_nil. split.
  - intros Hn Hin. assert (j ∈ filter (λ k, k = j) l) as Hj by (by apply list_elem_of_filter).
    rewrite Hn in Hj. by apply not_elem_of_nil in Hj.
  - intros Hin. destruct (filter _ l) as [|k l'] eqn:Hf; [done|].
    assert (k ∈ filter (λ k, k = j) l) as Hk by (rewrite Hf; constructor).
    apply list_elem_of_filter in Hk as [-> Hk]. done.
Qed.
Lemma occurrences_cons j k l : occurrences j (k :: l) = (if decide (k = j) then 1 else 0) + occurrences j l.
Proof. unfold occurrences. rewrite filter_cons. by case_decide. Qed.
Lemma edges_from_perm l l' j : l ≡ₚ l' → edges_from l j = edges_from l' j.
Proof. intros Hp. unfold edges_from. induction Hp; cbn; lia. Qed.
Lemma edges_from_zero l j : edges_from l j = 0 ↔ ∀ i, i ∈ l → j ∉ adj i.
Proof.
  unfold edges_from. induction l as [|i l IH]; cbn [sum_list_with].
  - split; [intros _ i Hi; by apply not_elem_of_nil in Hi|done].
  - rewrite Nat.eq_add_0, occurrences_zero, IH. setoid_rewrite elem_of_cons. naive_solver.
Qed.

(** The state of the queue: [visited] members, the rest [todo], the edges [rem] of
    the member being visited that are still to be followed, and those that have
    been. *)
Record queue_ok (visited todo rem : list nat) (followed : nat → nat → Prop)
    (s : list N * list nat * list nat) : Prop := {
  queue_distinct : NoDup s.2;
  queue_range : ∀ j, j ∈ s.2 → j < n;
  queue_prefix : ∃ waiting, s.2 = visited ++ waiting;
  queue_split : visited ++ todo ≡ₚ seq 0 n;
  queue_depths : length s.1.1 = n;
  queue_count : ∀ j, j < n → s.1.2 !! j = Some (edges_from todo j + occurrences j rem);
  queue_ready : ∀ j, j < n → j ∈ s.2 ↔ edges_from todo j + occurrences j rem = 0;
  queue_order : ∀ p j i, s.2 !! p = Some j → i < n → j ∈ adj i → ∃ p', p' < p ∧ s.2 !! p' = Some i;
  queue_sound : ∀ j d, s.1.1 !! j = Some d → (0 < d)%N → chain d j;
  queue_roots : ∀ r, root r → ∃ d, s.1.1 !! r = Some d ∧ (1 ≤ d)%N;
  queue_follow : ∀ i j d, i ∈ visited → j ∈ adj i → followed i j →
    s.1.1 !! i = Some d → (0 < d)%N → ∃ d', s.1.1 !! j = Some d' ∧ (d + 1 ≤ d')%N;
  queue_bounded : ∀ i d, i ∈ visited → s.1.1 !! i = Some d → (d ≤ bound)%N
}.

Lemma queue_visited visited todo rem followed s i :
  queue_ok visited todo rem followed s → i ∈ visited → i ∈ s.2.
Proof. intros Hq Hi. destruct (queue_prefix _ _ _ _ _ Hq) as [w ->]. apply elem_of_app. by left. Qed.
Lemma queue_parts visited todo rem followed s i :
  queue_ok visited todo rem followed s → i < n → i ∉ todo → i ∈ visited.
Proof.
  intros Hq Hi Hno. assert (i ∈ visited ++ todo) as [|]%elem_of_app; [|done|done].
  rewrite (queue_split _ _ _ _ _ Hq). apply elem_of_seq. lia.
Qed.

Lemma relax_depth from s to j :
  to ≠ from →
  (relax from s to).1.1 !! j =
    match s.1.1 !! j with
    | Some d => Some (if decide (j = to) then
        let f := default 0%N (s.1.1 !! from) in if (0 <? f)%N then N.max d (f + 1) else d else d)
    | None => None
    end.
Proof.
  intros Hne. destruct s as [[depth incoming] ready]. unfold relax. cbn [fst snd].
  destruct (0 <? default 0%N (depth !! from))%N eqn:Hf.
  - case_decide as Hj; [subst j; rewrite list_lookup_alter_eq; by destruct (depth !! to)|].
    rewrite list_lookup_alter_ne by done. by destruct (depth !! j).
  - case_decide; by destruct (depth !! j).
Qed.

(** One edge of a turn. *)
Section turn.
Context (visited todo handled rem : list nat) (from to : nat) (s : list N * list nat * list nat).
Context (Hq : queue_ok (visited ++ [from]) todo (to :: rem) (λ i j, i = from → j ∈ handled) s).
Context (Hto : to ∈ adj from).

Lemma turn_out : to ∉ s.2.
Proof.
  rewrite (queue_ready _ _ _ _ _ Hq) by (by eapply Hadj). rewrite occurrences_cons, decide_True by done. lia.
Qed.
Lemma turn_distinct : to ≠ from.
Proof.
  intros Heq. apply turn_out. rewrite Heq. eapply queue_visited; [exact Hq|]. apply elem_of_app. right. constructor.
Qed.
Lemma turn_mono j d : s.1.1 !! j = Some d → ∃ d', (relax from s to).1.1 !! j = Some d' ∧ (d ≤ d')%N.
Proof.
  intros Hj. rewrite (relax_depth from s to j turn_distinct), Hj. eexists. split; [done|].
  case_decide; [|lia]. cbn zeta. destruct (0 <? _)%N; lia.
Qed.
Lemma turn_keep j : j ∈ s.2 → (relax from s to).1.1 !! j = s.1.1 !! j.
Proof.
  intros Hj. rewrite (relax_depth from s to j turn_distinct). destruct (s.1.1 !! j); [|done].
  rewrite decide_False; [done|]. intros ->. by apply turn_out.
Qed.
Lemma turn_count : alter pred to s.1.2 !! to = Some (edges_from todo to + occurrences to rem).
Proof.
  rewrite list_lookup_alter_eq, (queue_count _ _ _ _ _ Hq) by (by eapply Hadj).
  cbn [fmap option_fmap option_map]. f_equal. rewrite occurrences_cons, decide_True by done. lia.
Qed.
Lemma turn_ready : (relax from s to).2 =
  if decide (edges_from todo to + occurrences to rem = 0) then s.2 ++ [to] else s.2.
Proof.
  transitivity (if decide (alter pred to s.1.2 !! to = Some 0) then s.2 ++ [to] else s.2);
    [by destruct s as [[depth incoming] ready]|].
  rewrite turn_count. destruct (decide (edges_from todo to + occurrences to rem = 0)) as [Hz|Hz].
  - by rewrite decide_True by congruence.
  - by rewrite decide_False by congruence.
Qed.
Lemma turn_in j : j ∈ (relax from s to).2 ↔ j ∈ s.2 ∨ (j = to ∧ edges_from todo to + occurrences to rem = 0).
Proof. rewrite turn_ready. case_decide; rewrite ?elem_of_app, ?list_elem_of_singleton; naive_solver. Qed.
Lemma turn_lookup p j : (relax from s to).2 !! p = Some j ↔
  s.2 !! p = Some j ∨ (p = length s.2 ∧ j = to ∧ edges_from todo to + occurrences to rem = 0).
Proof.
  rewrite turn_ready. case_decide as Hz; [|naive_solver].
  rewrite lookup_app_Some, list_lookup_singleton_Some. split.
  - intros [?|(? & ? & <-)]; [by left|]. right. split_and!; [lia|done|done].
  - intros [?|(-> & -> & _)]; [by left|]. right. split_and!; [done|lia|done].
Qed.

Lemma turn_order p j i : (relax from s to).2 !! p = Some j → i < n → j ∈ adj i →
  ∃ p', p' < p ∧ (relax from s to).2 !! p' = Some i.
Proof.
  setoid_rewrite turn_lookup. intros [Hold|(-> & -> & Hz)] Hi Hji.
  - destruct (queue_order _ _ _ _ _ Hq _ _ _ Hold Hi Hji) as (p' & Hp' & Hs). exists p'. split; [done|by left].
  - assert (i ∈ s.2) as [p' Hs]%list_elem_of_lookup.
    { eapply queue_visited; [exact Hq|]. apply (queue_parts _ _ _ _ _ _ Hq Hi).
      intros Hit. assert (edges_from todo to = 0) as Hz' by lia. rewrite edges_from_zero in Hz'. by apply (Hz' i Hit). }
    exists p'. split; [by apply lookup_lt_Some in Hs|by left].
Qed.
Lemma turn_sound j d : (relax from s to).1.1 !! j = Some d → (0 < d)%N → chain d j.
Proof.
  rewrite (relax_depth from s to j turn_distinct). intros Hj Hd. destruct (s.1.1 !! j) as [d0|] eqn:Hd0; [|done].
  destruct (decide (j = to)) as [->|_]; [|injection Hj as <-; by apply (queue_sound _ _ _ _ _ Hq)].
  destruct (s.1.1 !! from) as [f|] eqn:Hf; cbn in Hj; [|injection Hj as <-; by apply (queue_sound _ _ _ _ _ Hq)].
  destruct (N.ltb_spec 0 f) as [Hfp|_]; injection Hj as <-; [|by apply (queue_sound _ _ _ _ _ Hq)].
  destruct (N.max_spec d0 (f + 1)) as [[_ ->]|[Hle ->]].
  - apply chain_step with from; [|done]. by apply (queue_sound _ _ _ _ _ Hq).
  - apply (queue_sound _ _ _ _ _ Hq); [done|lia].
Qed.
Lemma turn_follow i j d : i ∈ visited ++ [from] → j ∈ adj i → (i = from → j ∈ handled ++ [to]) →
  (relax from s to).1.1 !! i = Some d → (0 < d)%N → ∃ d', (relax from s to).1.1 !! j = Some d' ∧ (d + 1 ≤ d')%N.
Proof.
  intros Hi Hji Hfol Hd Hpos. rewrite turn_keep in Hd by (by eapply queue_visited).
  destruct (decide (i = from ∧ j = to)) as [[-> ->]|Hno].
  - assert (to < length s.1.1) as [d0 Hd0]%lookup_lt_is_Some.
    { rewrite (queue_depths _ _ _ _ _ Hq). by eapply Hadj. }
    rewrite (relax_depth from s to to turn_distinct), Hd0, decide_True, Hd by done. cbn.
    rewrite (proj2 (N.ltb_lt 0 d)) by done. eexists. split; [done|lia].
  - destruct (queue_follow _ _ _ _ _ Hq i j d Hi Hji) as (d' & Hd' & Hle); [|done|done|].
    { intros ->. specialize (Hfol eq_refl) as [Hh| ->%list_elem_of_singleton]%elem_of_app; [done|naive_solver]. }
    destruct (turn_mono _ _ Hd') as (d'' & ? & ?). exists d''. split; [done|lia].
Qed.

Lemma relax_ok : queue_ok (visited ++ [from]) todo rem (λ i j, i = from → j ∈ handled ++ [to]) (relax from s to).
Proof.
  split; [..|exact turn_order|exact turn_sound| |exact turn_follow|].
  - rewrite turn_ready. case_decide; [|by apply Hq]. apply NoDup_app. split_and!; [by apply Hq| |apply NoDup_singleton].
    intros j Hj ->%list_elem_of_singleton. by apply turn_out.
  - intros j [Hj|[-> _]]%turn_in; [by apply Hq|by eapply Hadj].
  - rewrite turn_ready. destruct (queue_prefix _ _ _ _ _ Hq) as [w ->]. case_decide; [|by eexists].
    exists (w ++ [to]). by rewrite app_assoc.
  - apply Hq.
  - rewrite <- (queue_depths _ _ _ _ _ Hq). destruct s as [[depth incoming] ready]. unfold relax.
    cbn [fst]. by destruct (0 <? _)%N; rewrite ?length_alter.
  - intros j Hj. assert ((relax from s to).1.2 = alter pred to s.1.2) as ->
      by (by destruct s as [[depth incoming] ready]).
    destruct (decide (j = to)) as [->|Hjt]; [apply turn_count|].
    rewrite list_lookup_alter_ne, (queue_count _ _ _ _ _ Hq) by done.
    by rewrite occurrences_cons, decide_False by done.
  - intros j Hj. rewrite turn_in, (queue_ready _ _ _ _ _ Hq) by done. rewrite occurrences_cons.
    destruct (decide (to = j)) as [<-|Hjt]; [naive_solver lia|]. rewrite Nat.add_0_l. naive_solver.
  - intros r Hr. destruct (queue_roots _ _ _ _ _ Hq r Hr) as (d & Hd & Hle).
    destruct (turn_mono _ _ Hd) as (d' & ? & ?). exists d'. split; [done|lia].
  - intros i d Hi Hd. rewrite turn_keep in Hd by (by eapply queue_visited). by apply (queue_bounded _ _ _ _ _ Hq i).
Qed.
End turn.

Lemma relax_all visited from todo rem : ∀ handled s,
  queue_ok (visited ++ [from]) todo rem (λ i j, i = from → j ∈ handled) s →
  from ∉ visited → (∀ j, j ∈ rem → j ∈ adj from) →
  queue_ok (visited ++ [from]) todo [] (λ i j, i = from → j ∈ handled ++ rem) (foldl (relax from) s rem).
Proof.
  induction rem as [|to rem IH]; intros handled s Hq Hf Hrem; cbn; [by rewrite app_nil_r|].
  rewrite (cons_middle to handled rem), app_assoc. apply IH; [|done|].
  - apply relax_ok; [done|]. apply Hrem. constructor.
  - intros j Hj. apply Hrem. by constructor.
Qed.

Lemma queue_weaken visited todo rem (f g : nat → nat → Prop) s :
  (∀ i j, i ∈ visited → j ∈ adj i → g i j → f i j) → queue_ok visited todo rem f s → queue_ok visited todo rem g s.
Proof. intros Hfg [H1 H2 H3 H4 H5 H6 H7 H8 H9 H10 H11 H12]. split; eauto. Qed.

(** Taking the next member off the queue. *)
Lemma queue_visit visited todo s from d :
  queue_ok visited todo [] (λ _ _, True) s → s.2 !! length visited = Some from →
  s.1.1 !! from = Some d → (d ≤ bound)%N →
  from ∉ visited ∧ ∃ todo', queue_ok (visited ++ [from]) todo' (adj from) (λ i j, i = from → j ∈ []) s.
Proof.
  intros Hq Hfrom Hd Hle. destruct (queue_prefix _ _ _ _ _ Hq) as [w Hw].
  assert (∃ w', w = from :: w') as [w' ->].
  { rewrite Hw, lookup_app_r, Nat.sub_diag in Hfrom by done. destruct w; [done|]. cbn in Hfrom. naive_solver. }
  pose proof (queue_distinct _ _ _ _ _ Hq) as Hnd. rewrite Hw in Hnd.
  assert (from ∉ visited) as Hfresh.
  { apply NoDup_app in Hnd as (_ & Hnd & _). intros Hin. apply (Hnd from Hin). constructor. }
  split; [done|].
  assert (from ∈ todo) as Hin.
  { assert (from ∈ visited ++ todo) as [|]%elem_of_app; [|done|done].
    rewrite (queue_split _ _ _ _ _ Hq). apply elem_of_seq. split; [lia|]. apply (queue_range _ _ _ _ _ Hq).
    rewrite Hw. apply elem_of_app. right. constructor. }
  apply elem_of_Permutation in Hin as [todo' Htodo]. exists todo'.
  assert (∀ j, edges_from todo j = edges_from todo' j + occurrences j (adj from)) as Hcount.
  { intros j. rewrite (edges_from_perm _ _ _ Htodo). unfold edges_from. cbn. lia. }
  split; try apply Hq.
  - exists w'. by rewrite Hw, <- app_assoc.
  - rewrite <- app_assoc. cbn. rewrite <- Htodo. apply Hq.
  - intros j Hj. rewrite (queue_count _ _ _ _ _ Hq), Hcount by done. f_equal. cbn. lia.
  - intros j Hj. rewrite (queue_ready _ _ _ _ _ Hq), Hcount by done. cbn. lia.
  - intros i j e [Hi| ->%list_elem_of_singleton]%elem_of_app Hji Hfol.
    + by apply (queue_follow _ _ _ _ _ Hq).
    + specialize (Hfol eq_refl). by apply not_elem_of_nil in Hfol.
  - intros i e [Hi| ->%list_elem_of_singleton]%elem_of_app He; [by apply (queue_bounded _ _ _ _ _ Hq i)|]. congruence.
Qed.

Context (Hroots : ∀ r, root r → r < n).

Lemma chain_range k j : chain k j → j < n ∧ (1 ≤ k)%N.
Proof. induction 1 as [r Hr|k i j _ [_ IH] Hji]; split; eauto; lia. Qed.

(** A member that was visited, or comes next, has its longest chain as depth. *)
Lemma queue_longest visited todo s k j :
  queue_ok visited todo [] (λ _ _, True) s → chain k j →
  ∀ p, s.2 !! p = Some j → p ≤ length visited → ∃ d, s.1.1 !! j = Some d ∧ (k ≤ d)%N.
Proof.
  intros Hq. induction 1 as [r Hr|k i j Hc IH Hji]; intros p Hp Hle; [by apply (queue_roots _ _ _ _ _ Hq)|].
  destruct (chain_range _ _ Hc) as [Hi Hk].
  destruct (queue_order _ _ _ _ _ Hq p j i Hp Hi Hji) as (p' & Hp' & Hs).
  destruct (IH p' Hs) as (d & Hd & Hkd); [lia|].
  assert (i ∈ visited) as Hvis.
  { destruct (queue_prefix _ _ _ _ _ Hq) as [w Hw]. rewrite Hw, lookup_app_l in Hs by lia.
    by apply list_elem_of_lookup_2 in Hs. }
  destruct (queue_follow _ _ _ _ _ Hq i j d Hvis Hji I Hd) as (d' & ? & ?); [lia|]. exists d'. split; [done|lia].
Qed.

Lemma queue_length visited todo rem followed s : queue_ok visited todo rem followed s → length s.2 ≤ n.
Proof.
  intros Hq. rewrite <- (length_seq n 0). apply submseteq_length, NoDup_submseteq; [by apply Hq|].
  intros j Hj. apply elem_of_seq. split; [lia|]. by apply (queue_range _ _ _ _ _ Hq).
Qed.

(** The queue answers: every member in it was visited, or a chain is too long. *)
Lemma visit_ready_answers fuel : ∀ visited todo s,
  queue_ok visited todo [] (λ _ _, True) s → n ≤ fuel + length visited →
  ∃ r, visit_ready limits fuel offsets targets s (length visited) = Some r
    ∧ match r with
      | Ok (depth, ready) => ∃ incoming todo',
          queue_ok ready todo' [] (λ _ _, True) (depth, incoming, ready)
      | Err _ => ∃ k j, chain k j ∧ (bound < k)%N
      end.
Proof.
  induction fuel as [|fuel IH]; intros visited todo s Hq Hfuel;
    destruct s as [[depth incoming] ready] eqn:Hs; pose proof (queue_length _ _ _ _ _ Hq) as Hlen;
    destruct (queue_prefix _ _ _ _ _ Hq) as [w Hw]; cbn [fst snd] in *; cbn [visit_ready].
  - destruct (ready !! length visited) as [from|] eqn:Hfrom; [apply lookup_lt_Some in Hfrom; lia|].
    eexists. split; [done|]. exists incoming, todo. apply lookup_ge_None in Hfrom.
    rewrite Hw, length_app in Hfrom. assert (w = []) as -> by (destruct w; [done|cbn in Hfrom; lia]).
    rewrite app_nil_r in Hw. by subst ready.
  - destruct (ready !! length visited) as [from|] eqn:Hfrom.
    2: { eexists. split; [done|]. exists incoming, todo. apply lookup_ge_None in Hfrom.
      rewrite Hw, length_app in Hfrom. assert (w = []) as -> by (destruct w; [done|cbn in Hfrom; lia]).
      rewrite app_nil_r in Hw. by subst ready. }
    assert (from < n) as Hfn by (apply (queue_range _ _ _ _ _ Hq); by apply list_elem_of_lookup_2 in Hfrom).
    assert (from < length depth) as [d Hd]%lookup_lt_is_Some.
    { pose proof (queue_depths _ _ _ _ _ Hq) as Hdl. cbn in Hdl. by rewrite Hdl. }
    rewrite Hd. change (default 0%N (Some d)) with d. destruct (N.ltb_spec bound d) as [Hover|Hd'].
    { eexists. split; [done|]. exists d, from. split; [|done]. apply (queue_sound _ _ _ _ _ Hq); [done|lia]. }
    destruct (queue_visit visited todo _ from d Hq Hfrom Hd Hd') as (Hfresh & todo' & Hq').
    apply (relax_all visited from todo' (adj from) []) in Hq'; [|done|done].
    specialize (IH (visited ++ [from]) todo' (foldl (relax from) (depth, incoming, ready) (adj from))).
    rewrite length_app in IH. cbn [length] in IH. rewrite Nat.add_1_r in IH. apply IH; [|lia].
    eapply queue_weaken; [|exact Hq']. intros i j _ Hji _ ->. done.
Qed.

(** A queue as long as the set holds every member. *)
Lemma queue_full ready todo rem followed s i :
  queue_ok ready todo rem followed s → length ready = n → i < n → i ∈ ready.
Proof.
  intros Hq Hn Hi. apply (queue_parts _ _ _ _ _ _ Hq Hi). intros Hin.
  pose proof (Permutation_length (queue_split _ _ _ _ _ Hq)) as Hl. rewrite length_app, length_seq, Hn in Hl.
  destruct todo; [by apply not_elem_of_nil in Hin|cbn in Hl; lia].
Qed.

(** ** What the answer says *)
Definition edge (i j : nat) : Prop := i < n ∧ j ∈ adj i.

Lemma edge_rank ready todo s i j :
  queue_ok ready todo [] (λ _ _, True) s → tc edge i j → ∀ p, s.2 !! p = Some j → ∃ p', p' < p ∧ s.2 !! p' = Some i.
Proof.
  intros Hq. induction 1 as [i j [Hi Hji]|i k j [Hi Hki] _ IH]; intros p Hp; [by eapply queue_order|].
  destruct (IH p Hp) as (p' & Hp' & Hs). destruct (queue_order _ _ _ _ _ Hq p' k i Hs Hi Hki) as (p'' & ? & ?).
  exists p''. split; [lia|done].
Qed.

Lemma queue_acyclic ready todo s :
  queue_ok ready todo [] (λ _ _, True) s → s.2 = ready →
  length ready = n ↔ ∀ i, ¬ tc edge i i.
Proof.
  intros Hq Hall. split.
  - intros Hn i Hcycle. assert (i < n) as Hi by (by inversion Hcycle as [? ? []|? ? ? []]).
    assert (i ∈ s.2) as [p Hp]%list_elem_of_lookup.
    { rewrite Hall. by eapply queue_full. }
    destruct (edge_rank _ _ _ _ _ Hq Hcycle p Hp) as (p' & Hlt & Hp').
    pose proof (NoDup_lookup _ _ _ _ (queue_distinct _ _ _ _ _ Hq) Hp Hp'). lia.
  - intros Hacyclic.
    assert (∀ j, j < n → ¬ j ∈ ready → False) as Hin.
    { intros j Hj. assert (sn (flip edge) j) as Hsn.
      { apply tc_finite_sn.
        - intros i Hi. apply (Hacyclic i). clear -Hi.
          assert (∀ a b, tc (flip edge) a b → tc edge b a) as Hflip; [|by apply Hflip].
          induction 1 as [a b Hab|a b c Hab _ IH]; [by apply tc_once|]. by eapply tc_r.
        - exists (seq 0 n). intros i Hi. apply elem_of_seq. split; [lia|].
          assert (∀ a b, tc (flip edge) a b → b < n) as Hlt; [|by eapply Hlt].
          induction 1 as [a b [? ?]|]; done. }
      induction Hsn as [j _ IH]. intros Hout.
      assert (edges_from todo j + occurrences j [] ≠ 0) as Hne.
      { rewrite <- (queue_ready _ _ _ _ _ Hq) by done. by rewrite Hall. }
      assert (¬ ∀ i, i ∈ todo → j ∉ adj i) as Hex.
      { rewrite <- edges_from_zero. unfold occurrences in Hne. cbn in Hne. lia. }
      apply Hex. intros i Hi Hji. apply Hex. exfalso.
      assert (i < n) as Hin.
      { assert (i ∈ ready ++ todo) as Hi' by (apply elem_of_app; by right).
        rewrite (queue_split _ _ _ _ _ Hq), elem_of_seq in Hi'. lia. }
      apply (IH i); [by split|done|]. intros Hir.
      assert (NoDup (ready ++ todo)) as (_ & Hd & _)%NoDup_app
        by (rewrite (queue_split _ _ _ _ _ Hq); apply NoDup_seq).
      by apply (Hd i). }
    pose proof (queue_length _ _ _ _ _ Hq) as Hle. rewrite Hall in Hle.
    apply Nat.le_antisymm; [done|]. rewrite <- (length_seq n 0) at 1.
    apply submseteq_length, NoDup_submseteq; [apply NoDup_seq|]. intros j Hj%elem_of_seq.
    destruct (decide (j ∈ ready)); [done|]. exfalso. apply (Hin j); [lia|done].
Qed.
End queue.

(** ** Sorted slices *)
Lemma sorted_from_sorted {A} `{OrdLaws A} (x : A) l :
  sorted_from x l = true → StronglySorted (λ a b, a ≺ b) (x :: l).
Proof.
  revert x. induction l as [|y l IH]; intros x; cbn [sorted_from]; [by repeat constructor|].
  intros [Hxy Hl]%andb_true_iff. unfold cmp_ltb in Hxy. destruct (cmp x y) eqn:Hc; try done.
  specialize (IH y Hl). constructor; [done|]. inversion IH as [|? ? _ Hall]; subst.
  constructor; [done|]. eapply Forall_impl; [exact Hall|]. intros z Hz. by eapply cmp_lt_trans.
Qed.
Lemma sorted_strongly {A} `{OrdLaws A} (l : list A) : sorted l = true ↔ StronglySorted (λ a b, a ≺ b) l.
Proof.
  split; [destruct l; [constructor|apply sorted_from_sorted]|].
  destruct l as [|x l]; [done|]. cbn. revert x. induction l as [|y l IH]; intros x Hs; [done|].
  inversion Hs as [|? ? Hs' Hall]; subst. cbn. inversion Hall as [|? ? Hxy _]; subst.
  unfold cmp_ltb. rewrite Hxy. by apply IH.
Qed.
Lemma strongly_lookup {A} (R : A → A → Prop) l i j a b :
  StronglySorted R l → l !! i = Some a → l !! j = Some b → i < j → R a b.
Proof.
  intros Hs. revert i j. induction Hs as [|x l Hs IH Hall]; intros i j Ha Hb Hij; [done|].
  destruct j as [|j]; [lia|]. cbn in Hb. destruct i as [|i]; cbn in Ha.
  - injection Ha as ->. rewrite Forall_forall in Hall. apply Hall. by apply list_elem_of_lookup_2 in Hb.
  - apply (IH i j); [done|done|lia].
Qed.
Lemma sorted_lookup_le {A} `{OrdLaws A} (l : list A) i j a b :
  sorted l = true → l !! i = Some a → l !! j = Some b → a ⪯ b → i ≤ j.
Proof.
  intros Hs%sorted_strongly Ha Hb Hab. destruct (decide (i ≤ j)); [done|]. exfalso. apply Hab.
  rewrite (cmp_antisym b a), (strongly_lookup _ _ j i b a Hs Hb Ha) by lia. done.
Qed.
Lemma sorted_NoDup {A} `{OrdLaws A} (l : list A) : sorted l = true → NoDup l.
Proof.
  intros Hs. apply NoDup_alt. intros i j x Hi Hj.
  assert (x ⪯ x) as Hx by (rewrite (proj2 (cmp_eq x x)) by done; done).
  pose proof (sorted_lookup_le l i j x x Hs Hi Hj Hx). pose proof (sorted_lookup_le l j i x x Hs Hj Hi Hx). lia.
Qed.
Lemma binary_search_some {A} `{EqDecision A} (l : list A) x i :
  NoDup l → binary_search l x = Some i ↔ l !! i = Some x.
Proof.
  intros Hnd. unfold binary_search. split.
  - destruct (list_find _ l) as [[j y]|] eqn:Hf; [|done]. cbn. intros [= <-].
    by apply list_find_Some in Hf as (Hj & -> & _).
  - intros Hi. destruct (list_find (λ y, y = x) l) as [[j y]|] eqn:Hf.
    + apply list_find_Some in Hf as (Hj & -> & _). cbn. f_equal. by eapply NoDup_lookup.
    + exfalso. apply list_find_None in Hf. rewrite Forall_lookup in Hf. by apply (Hf i x).
Qed.
Lemma binary_search_none {A} `{EqDecision A} (l : list A) x : binary_search l x = None ↔ x ∉ l.
Proof.
  unfold binary_search. rewrite fmap_None, list_find_None, Forall_forall. naive_solver.
Qed.
Lemma binary_search_elem {A} `{EqDecision A} (l : list A) x : is_Some (binary_search l x) ↔ x ∈ l.
Proof.
  rewrite <- not_eq_None_Some, binary_search_none. split; [|tauto]. intros. by destruct (decide (x ∈ l)).
Qed.

(** ** Adjacency lists *)
Definition below (k : nat) (fs : list nat) : nat := length (filter (λ f, f < k) fs).

Lemma split_sorted (i : nat) (l : list (nat * nat)) :
  StronglySorted le l.*1 →
  l = filter (λ p, p.1 < i) l ++ filter (λ p, p.1 = i) l ++ filter (λ p, i < p.1) l.
Proof.
  induction l as [|[f t] l IH]; [done|]. intros Hs. rewrite fmap_cons in Hs.
  inversion Hs as [|? ? Hs' Hall]; subst. cbn [fst] in Hall. specialize (IH Hs'). rewrite !filter_cons. cbn [fst].
  assert (∀ (P : nat * nat → Prop) `{∀ p, Decision (P p)}, (∀ p, f ≤ p.1 → ¬ P p) → filter P l = []) as Hnone.
  { intros P ? HP. destruct (filter P l) as [|p l'] eqn:Hf; [done|].
    assert (p ∈ filter P l) as [Hp Hin]%list_elem_of_filter by (rewrite Hf; constructor).
    exfalso. apply (HP p); [|done]. rewrite Forall_forall in Hall. apply Hall. by apply list_elem_of_fmap_2. }
  destruct (decide (f < i)) as [Hlt|Hge].
  - rewrite (decide_False (P := f = i)), (decide_False (P := i < f)) by lia. cbn. by f_equal.
  - destruct (decide (f = i)) as [->|Hne].
    + rewrite decide_False by lia. rewrite (Hnone (λ p, p.1 < i)) in * by lia. cbn in *. by f_equal.
    + rewrite decide_True by lia. rewrite (Hnone (λ p, p.1 < i)), (Hnone (λ p, p.1 = i)) in * by lia.
      cbn in *. by f_equal.
Qed.

Lemma below_split (i : nat) (fs : list nat) : below (S i) fs = below i fs + length (filter (λ f, f = i) fs).
Proof.
  unfold below. induction fs as [|f fs IH]; [done|]. rewrite !filter_cons.
  destruct (decide (f < S i)), (decide (f < i)), (decide (f = i)); cbn; lia.
Qed.
Lemma filter_fst_length (P : nat → Prop) `{∀ n, Decision (P n)} (l : list (nat * nat)) :
  length (filter (λ p, P p.1) l) = length (filter P l.*1).
Proof.
  induction l as [|p l IH]; [done|]. rewrite fmap_cons, !filter_cons.
  destruct (decide (P p.1)); cbn [length]; by rewrite IH.
Qed.

Lemma slice_sorted (i : nat) (l : list (nat * nat)) :
  StronglySorted le l.*1 →
  take (below (S i) l.*1 - below i l.*1) (drop (below i l.*1) l.*2) = (filter (λ p, p.1 = i) l).*2.
Proof.
  intros Hs. rewrite below_split, Nat.add_comm, Nat.add_sub. unfold below.
  rewrite <- (filter_fst_length (λ f, f < i) l), <- (filter_fst_length (λ f, f = i) l).
  rewrite (split_sorted i l Hs) at 3. rewrite !fmap_app, drop_app_length', take_app_length';
    [done|by rewrite length_fmap|by rewrite length_fmap].
Qed.

Lemma prefix_sums_lookup l : ∀ acc k, k < length l →
  prefix_sums acc l !! k = Some (acc + sum_list_with id (take (S k) l)).
Proof.
  induction l as [|c l IH]; intros acc k Hk; [cbn in Hk; lia|]. cbn [prefix_sums].
  destruct k as [|k]; cbn [lookup list_lookup]; [cbn; by rewrite Nat.add_0_r|].
  rewrite IH by (cbn in Hk; lia). change (take (S (S k)) (c :: l)) with (c :: take (S k) l).
  cbn [sum_list_with]. by rewrite Nat.add_assoc.
Qed.

(** What the counting pass records: the targets in order, a count per consumer one
    place up, a count per provider. *)
Section counting.
Context (members : list ContributionRef.t).
Abbreviation found := (binary_search members).

Lemma index_ok c i : index members c = Ok i ↔ found c = Some i.
Proof. unfold index. destruct (found c); naive_solver. Qed.

Lemma count_edges_spec bindings : ∀ offsets incoming targets o i t,
  count_edges members bindings offsets incoming targets = Ok (o, i, t) ↔
  ∃ pairs, Forall2 (λ b p, found (ProviderBinding.consumer b) = Some p.1
                           ∧ found (ProviderBinding.provider b) = Some p.2) bindings pairs
    ∧ t = targets ++ pairs.*2
    ∧ o = foldl (λ l f, alter S (f + 1) l) offsets pairs.*1
    ∧ i = foldl (λ l t, alter S t l) incoming pairs.*2.
Proof.
  induction bindings as [|b bindings IH]; intros offsets incoming targets o i t; cbn [count_edges].
  - split.
    + intros [= <- <- <-]. exists []. by rewrite app_nil_r.
    + intros (pairs & Hp%Forall2_nil_inv_l & -> & -> & ->). subst. by rewrite app_nil_r.
  - rewrite result_bind_ok. setoid_rewrite result_bind_ok. setoid_rewrite IH. setoid_rewrite index_ok. split.
    + intros (f & Hf & g & Hg & pairs & Hp & -> & -> & ->). exists ((f, g) :: pairs).
      cbn. rewrite <- app_assoc. by split_and!; [constructor|..].
    + intros (pairs & Hp & -> & -> & ->). inversion Hp as [|? [f g] ? pairs' [Hf Hg] Hp']; subst.
      exists f. split; [done|]. exists g. split; [done|]. exists pairs'. cbn. by rewrite <- app_assoc.
Qed.

Lemma foldl_alter_lookup (g : nat → nat) l : ∀ (counts : list nat) k,
  foldl (λ c f, alter S (g f) c) counts l !! k
  = (λ n, n + length (filter (λ f, g f = k) l)) <$> counts !! k.
Proof.
  induction l as [|f l IH]; intros counts k; cbn [foldl].
  - destruct (counts !! k); [|done]. cbn. by rewrite Nat.add_0_r.
  - rewrite IH, filter_cons. destruct (decide (g f = k)) as [<-|Hne].
    + rewrite list_lookup_alter_eq. destruct (counts !! g f); [|done]. cbn. f_equal. lia.
    + by rewrite list_lookup_alter_ne.
Qed.
Lemma foldl_alter_length (g : nat → nat) l : ∀ counts : list nat,
  length (foldl (λ c f, alter S (g f) c) counts l) = length counts.
Proof. induction l as [|f l IH]; intros counts; [done|]. cbn. by rewrite IH, length_alter. Qed.

Lemma filter_none {A} (P : A → Prop) `{∀ x, Decision (P x)} (l : list A) : (∀ x, x ∈ l → ¬ P x) → filter P l = [].
Proof.
  intros Hno. destruct (filter P l) as [|x l'] eqn:Hf; [done|].
  assert (x ∈ filter P l) as [Hp Hin]%list_elem_of_filter by (rewrite Hf; constructor). by destruct (Hno x).
Qed.
Lemma sum_below fs o k :
  (∀ i, i ≤ k → o !! i = Some (length (filter (λ f, f + 1 = i) fs))) →
  sum_list_with id (take (S k) o) = below k fs.
Proof.
  induction k as [|k IH]; intros Ho.
  - rewrite (take_S_r _ _ _ (Ho 0 (Nat.le_refl _))), take_0. unfold below.
    rewrite !filter_none by (intros; lia). done.
  - rewrite (take_S_r _ _ _ (Ho (S k) (Nat.le_refl _))), sum_list_with_app, IH, below_split by (intros; apply Ho; lia).
    cbn. rewrite Nat.add_0_r. f_equal. unfold id. f_equal. apply list_filter_iff. intros f. lia.
Qed.

(** The adjacency list the offsets select. *)
Lemma targets_of_pairs n (pairs : list (nat * nat)) i :
  StronglySorted le pairs.*1 → Forall (λ p, p.1 < n) pairs →
  targets_of (prefix_sums 0 (foldl (λ l f, alter S (f + 1) l) (replicate (n + 1) 0) pairs.*1)) pairs.*2 i
  = (filter (λ p, p.1 = i) pairs).*2.
Proof.
  intros Hs Hn. set (o := foldl _ _ _). unfold targets_of.
  assert (length o = n + 1) as Hlen.
  { subst o. by rewrite (foldl_alter_length (λ f, f + 1)), length_replicate. }
  assert (∀ k, k < n + 1 → prefix_sums 0 o !! k = Some (below k pairs.*1)) as Hoff.
  { intros k Hk. rewrite prefix_sums_lookup by lia. rewrite Nat.add_0_l. f_equal. apply sum_below.
    intros j Hj. subst o. rewrite (foldl_alter_lookup (λ f, f + 1)), lookup_replicate_2 by lia. done. }
  assert (∀ k, n + 1 ≤ k → prefix_sums 0 o !! k = None) as Hout.
  { intros k Hk. apply lookup_ge_None. rewrite <- Hlen in Hk. clearbody o. clear -Hk.
    assert (∀ acc, length (prefix_sums acc o) = length o) as ->; [|done].
    clear Hk. induction o as [|x o IH]; intros acc; [done|]. cbn. by rewrite IH. }
  destruct (decide (i < n)) as [Hi|Hi].
  - rewrite !Hoff by lia. rewrite Nat.add_1_r. by apply slice_sorted.
  - rewrite (Hout (i + 1)) by lia. rewrite filter_none; [by rewrite take_0|].
    rewrite Forall_forall in Hn. intros p Hp. specialize (Hn p Hp). lia.
Qed.

Lemma sum_indicator f c n : f < n → sum_list_with (λ i, if decide (f = i) then c else 0) (seq 0 n) = c.
Proof.
  assert (∀ a, sum_list_with (λ i, if decide (f = i) then c else 0) (seq a n)
    = if decide (a ≤ f < a + n) then c else 0) as Hsum; [|intros; rewrite Hsum, decide_True by lia; done].
  induction n as [|n IH]; intros a; [by rewrite decide_False by lia|]. cbn [seq sum_list_with]. rewrite IH.
  repeat case_decide; lia.
Qed.
Lemma sum_ext {A} (f g : A → nat) l : (∀ x, f x = g x) → sum_list_with f l = sum_list_with g l.
Proof. intros Hfg. induction l as [|x l IH]; [done|]. cbn. by rewrite Hfg, IH. Qed.
Lemma sum_plus {A} (f g : A → nat) l :
  sum_list_with (λ x, f x + g x) l = sum_list_with f l + sum_list_with g l.
Proof. induction l as [|x l IH]; [done|]. cbn. rewrite IH. lia. Qed.

Lemma edges_all n (pairs : list (nat * nat)) j offsets targets :
  (∀ i, targets_of offsets targets i = (filter (λ p, p.1 = i) pairs).*2) → Forall (λ p, p.1 < n) pairs →
  edges_from offsets targets (seq 0 n) j = occurrences j pairs.*2.
Proof.
  intros Hadj Hn. unfold edges_from.
  rewrite (sum_ext _ (λ i, occurrences j (filter (λ p, p.1 = i) pairs).*2)) by (intros i; by rewrite Hadj).
  clear Hadj. induction Hn as [|[f t] pairs Hf Hn IH].
  - rewrite (sum_ext _ (λ _, 0)) by done. by induction (seq 0 n).
  - rewrite (sum_ext _ (λ i, (if decide (f = i) then (if decide (t = j) then 1 else 0) else 0)
      + occurrences j (filter (λ p, p.1 = i) pairs).*2)).
    + rewrite sum_plus, sum_indicator, IH, fmap_cons, occurrences_cons by done. done.
    + intros i. rewrite filter_cons. cbn [fst]. destruct (decide (f = i)); [|done].
      by rewrite fmap_cons, occurrences_cons.
Qed.

Lemma mark_roots_spec roots : ∀ depth depth',
  mark_roots members roots depth = Ok depth' ↔
  ∃ ixs, Forall2 (λ r i, found r = Some i) roots ixs
    ∧ depth' = foldl (λ d i, <[i := 1%N]> d) depth ixs.
Proof.
  induction roots as [|r roots IH]; intros depth depth'; cbn [mark_roots].
  - split; [intros [= <-]; exists []; by split|]. intros (ixs & Hi%Forall2_nil_inv_l & ->). by subst.
  - rewrite result_bind_ok. setoid_rewrite IH. setoid_rewrite index_ok. split.
    + intros (i & Hi & ixs & Hix & ->). exists (i :: ixs). split; [by constructor|done].
    + intros (ixs & Hix & ->). inversion Hix as [|? i ? ixs' Hi Hix']; subst. exists i. split; [done|]. by exists ixs'.
Qed.
Lemma marked_lookup ixs : ∀ (depth : list N) i, Forall (λ j, j < length depth) ixs →
  foldl (λ d i, <[i := 1%N]> d) depth ixs !! i = if decide (i ∈ ixs) then Some 1%N else depth !! i.
Proof.
  induction ixs as [|j ixs IH]; intros depth i Hl; [by rewrite decide_False by apply not_elem_of_nil|].
  inversion Hl as [|? ? Hj Hl']; subst. cbn [foldl].
  rewrite IH by (eapply Forall_impl; [exact Hl'|]; intros; by rewrite length_insert).
  destruct (decide (i ∈ ixs)) as [Hi|Hi]; [by rewrite decide_True by (by constructor)|].
  destruct (decide (i = j)) as [->|Hne].
  - by rewrite list_lookup_insert_eq, decide_True by (done || constructor).
  - rewrite list_lookup_insert_ne by done. rewrite decide_False; [done|]. by intros [|]%elem_of_cons.
Qed.
End counting.

(** ** The graph of contributions *)
Definition binds (s : Selection.t) (c d : ContributionRef.t) : Prop :=
  ∃ b, b ∈ Selection.bindings s ∧ ProviderBinding.consumer b = c ∧ ProviderBinding.provider b = d.

(** A chain of [k] contributions from a root to [c]. *)
Inductive provider_chain (s : Selection.t) : N → ContributionRef.t → Prop :=
  | provider_chain_root r : r ∈ Selection.roots s → provider_chain s 1 r
  | provider_chain_step k c d : provider_chain s k c → binds s c d → provider_chain s (k + 1) d.

(** What a lock promises: sets in canonical order, every reference inside the set,
    no contribution that needs itself, none that no root needs, and no chain
    beyond the bound. *)
Record well_locked (s : Selection.t) (max_chain : N) : Prop := {
  locked_roots : sorted (Selection.roots s) = true;
  locked_members : sorted (Selection.contributions s) = true;
  locked_bindings : sorted (ProviderBinding.requirement <$> Selection.bindings s) = true;
  locked_inside : (∀ r, r ∈ Selection.roots s → r ∈ Selection.contributions s)
    ∧ ∀ c d, binds s c d → c ∈ Selection.contributions s ∧ d ∈ Selection.contributions s;
  locked_acyclic : ∀ c, ¬ tc (binds s) c c;
  locked_reached : ∀ c, c ∈ Selection.contributions s → ∃ k, provider_chain s k c;
  locked_depth : ∀ k c, provider_chain s k c → (k ≤ max_chain)%N
}.

Section graph.
Context (s : Selection.t) (pairs : list (nat * nat)) (roots : list nat).
Abbreviation members := (Selection.contributions s).
Abbreviation n := (length (Selection.contributions s)).
Abbreviation found := (binary_search members).
Context (Hmembers : sorted members = true).
Context (Hkeys : sorted (ProviderBinding.requirement <$> Selection.bindings s) = true).
Context (Hpairs : Forall2 (λ b p, found (ProviderBinding.consumer b) = Some p.1
                                  ∧ found (ProviderBinding.provider b) = Some p.2) (Selection.bindings s) pairs).
Context (Hroots : Forall2 (λ r i, found r = Some i) (Selection.roots s) roots).

Abbreviation counts := (foldl (λ l f, alter S (f + 1) l) (replicate (n + 1) 0) pairs.*1).
Abbreviation incoming := (foldl (λ l t, alter S t l) (replicate n 0) pairs.*2).
Abbreviation depth := (foldl (λ d i, <[i := 1%N]> d) (replicate n 0%N) roots).
Abbreviation ready := (filter (λ i, incoming !! i = Some 0) (seq 0 n)).
Abbreviation adjacent := (targets_of (prefix_sums 0 counts) pairs.*2).
Abbreviation rooted := (λ i, i ∈ roots).

Lemma found_lookup c i : found c = Some i ↔ members !! i = Some c.
Proof. apply binary_search_some, sorted_NoDup, Hmembers. Qed.
Lemma found_lt c i : found c = Some i → i < n.
Proof. rewrite found_lookup. by apply lookup_lt_Some. Qed.

Lemma pairs_range : Forall (λ p, p.1 < n ∧ p.2 < n) pairs.
Proof.
  eapply Forall2_Forall_r; [exact Hpairs|]. apply Forall_forall. intros b _ p [Hf Hg].
  split; [apply (found_lt _ _ Hf)|apply (found_lt _ _ Hg)].
Qed.
Lemma pairs_sorted : StronglySorted le pairs.*1.
Proof.
  revert Hkeys Hpairs. generalize (Selection.bindings s) as bs. intros bs Hs%sorted_strongly Hp. revert Hs.
  induction Hp as [|b p bs ps [Hf _] Hps IH]; intros Hs; [constructor|]. cbn in Hs. inversion Hs as [|? ? Hs' Hall]; subst.
  cbn. constructor; [by apply IH|]. apply Forall_fmap, Forall_forall. intros p' Hp'. cbn.
  apply list_elem_of_lookup in Hp' as [k Hk]. destruct (Forall2_lookup_r _ _ _ _ _ Hps Hk) as (b' & Hb' & Hf' & _).
  apply found_lookup in Hf, Hf'. apply (sorted_lookup_le members _ _ _ _ Hmembers Hf Hf').
  rewrite Forall_fmap, Forall_lookup in Hall. specialize (Hall _ _ Hb'). cbn in Hall.
  intros Hgt. unfold cmp, RequirementKey.RequirementKey_ord, cmp, prod_ord in Hall. cbn in Hall.
  unfold ProviderBinding.consumer in Hgt. by rewrite Hgt in Hall.
Qed.
Lemma adjacent_pairs i : adjacent i = (filter (λ p, p.1 = i) pairs).*2.
Proof.
  apply targets_of_pairs; [apply pairs_sorted|]. eapply Forall_impl; [apply pairs_range|]. by intros p [? _].
Qed.
Lemma adjacent_elem i j : j ∈ adjacent i ↔ (i, j) ∈ pairs.
Proof.
  rewrite adjacent_pairs, list_elem_of_fmap. setoid_rewrite list_elem_of_filter. split.
  - by intros ([i' j'] & -> & <- & Hin).
  - intros Hin. exists (i, j). done.
Qed.
Lemma adjacent_lt i j : j ∈ adjacent i → i < n ∧ j < n.
Proof.
  rewrite adjacent_elem. intros Hin. pose proof pairs_range as Hr. rewrite Forall_forall in Hr. by apply (Hr (i, j)).
Qed.

(** Indices and contributions describe the same graph. *)
Lemma pair_binds i j : (i, j) ∈ pairs ↔ ∃ c d, members !! i = Some c ∧ members !! j = Some d ∧ binds s c d.
Proof.
  split.
  - intros [k Hk]%list_elem_of_lookup. destruct (Forall2_lookup_r _ _ _ _ _ Hpairs Hk) as (b & Hb & Hf & Hg).
    cbn in *. apply found_lookup in Hf, Hg. exists (ProviderBinding.consumer b), (ProviderBinding.provider b).
    split_and!; [done|done|]. exists b. apply list_elem_of_lookup_2 in Hb. done.
  - intros (c & d & Hc & Hd & b & Hb & <- & <-). apply list_elem_of_lookup in Hb as [k Hb].
    destruct (Forall2_lookup_l _ _ _ _ _ Hpairs Hb) as ([f g] & Hk & Hf & Hg). cbn in *.
    apply found_lookup in Hc, Hd. assert (f = i) as -> by congruence. assert (g = j) as -> by congruence.
    by apply list_elem_of_lookup_2 in Hk.
Qed.
Lemma root_member i : i ∈ roots ↔ ∃ r, members !! i = Some r ∧ r ∈ Selection.roots s.
Proof.
  split.
  - intros [k Hk]%list_elem_of_lookup. destruct (Forall2_lookup_r _ _ _ _ _ Hroots Hk) as (r & Hr & Hf).
    exists r. apply found_lookup in Hf. apply list_elem_of_lookup_2 in Hr. done.
  - intros (r & Hr & Hin). apply list_elem_of_lookup in Hin as [k Hk].
    destruct (Forall2_lookup_l _ _ _ _ _ Hroots Hk) as (i' & Hi' & Hf). apply found_lookup in Hr.
    assert (i' = i) as -> by congruence. by apply list_elem_of_lookup_2 in Hi'.
Qed.

Abbreviation index_edge := (edge n (prefix_sums 0 counts) pairs.*2).
Abbreviation index_chain := (chain (prefix_sums 0 counts) pairs.*2 rooted).

Lemma edge_pair i j : index_edge i j ↔ (i, j) ∈ pairs.
Proof. unfold edge. rewrite <- adjacent_elem. split; [by intros []|]. intros Hin. split; [|done]. apply (adjacent_lt _ _ Hin). Qed.
Lemma tc_edge i j : tc index_edge i j → ∃ c d, members !! i = Some c ∧ members !! j = Some d ∧ tc (binds s) c d.
Proof.
  induction 1 as [i j Hij|i k j Hik _ (c' & d & Hc' & Hd & IH)].
  - apply edge_pair, pair_binds in Hij as (c & d & ? & ? & ?). exists c, d. split_and!; [done..|by apply tc_once].
  - apply edge_pair, pair_binds in Hik as (c & c'' & ? & ? & ?). assert (c'' = c') as -> by congruence.
    exists c, d. split_and!; [done..|eapply tc_l; eassumption].
Qed.
Lemma binds_found c d : binds s c d → ∃ i j, members !! i = Some c ∧ members !! j = Some d ∧ index_edge i j.
Proof.
  intros Hb. pose proof Hb as (b & Hin & Hc & Hd). apply list_elem_of_lookup in Hin as [k Hk].
  destruct (Forall2_lookup_l _ _ _ _ _ Hpairs Hk) as ([f g] & _ & Hf & Hg). cbn in *. subst c d.
  apply found_lookup in Hf, Hg. exists f, g. split_and!; [done..|]. apply edge_pair, pair_binds. eauto 10.
Qed.
Lemma tc_binds c d : tc (binds s) c d → ∃ i j, members !! i = Some c ∧ members !! j = Some d ∧ tc index_edge i j.
Proof.
  induction 1 as [c d Hcd|c e d Hce _ (i' & j & Hi' & Hj & IH)].
  - destruct (binds_found _ _ Hcd) as (i & j & ? & ? & ?). exists i, j. split_and!; [done..|by apply tc_once].
  - destruct (binds_found _ _ Hce) as (i & i'' & ? & Hi'' & ?).
    assert (i'' = i') as -> by (apply found_lookup in Hi', Hi''; congruence).
    exists i, j. split_and!; [done..|eapply tc_l; eassumption].
Qed.
Lemma acyclic_indices : (∀ i, ¬ tc index_edge i i) ↔ ∀ c, ¬ tc (binds s) c c.
Proof.
  split.
  - intros Hi c Hc. destruct (tc_binds _ _ Hc) as (i & j & Hic & Hjc & Ht).
    assert (i = j) as -> by (apply found_lookup in Hic, Hjc; congruence). by apply (Hi j).
  - intros Hc i Hi. destruct (tc_edge _ _ Hi) as (c & d & Hic & Hid & Ht).
    assert (c = d) as -> by congruence. by apply (Hc d).
Qed.
Lemma chain_indices k i c : members !! i = Some c → index_chain k i ↔ provider_chain s k c.
Proof.
  intros Hc. split.
  - intros Hch. revert c Hc. induction Hch as [r Hr|k i j _ IH Hji]; intros c Hc.
    + apply root_member in Hr as (r' & Hr' & Hin). assert (r' = c) as -> by congruence. by constructor.
    + apply adjacent_elem, pair_binds in Hji as (c' & d & Hc' & Hd & Hb). assert (d = c) as -> by congruence.
      apply provider_chain_step with c'; [by apply IH|done].
  - intros Hch. revert i Hc. induction Hch as [r Hr|k c d Hch IH Hb]; intros i Hi.
    + apply chain_root. apply root_member. eauto.
    + destruct (binds_found _ _ Hb) as (i' & j & Hi' & Hj & Hedge).
      assert (j = i) as -> by (apply found_lookup in Hj, Hi; congruence).
      apply edge_pair, adjacent_elem in Hedge. apply chain_step with i'; [by apply IH|done].
Qed.
Lemma chain_member k c : provider_chain s k c → ∃ i, members !! i = Some c.
Proof.
  destruct 1 as [r Hr|k c d _ Hb].
  - apply list_elem_of_lookup in Hr as [k Hk]. destruct (Forall2_lookup_l _ _ _ _ _ Hroots Hk) as (i & _ & Hi).
    exists i. by apply found_lookup.
  - destruct (binds_found _ _ Hb) as (i & j & _ & Hj & _). by exists j.
Qed.

Lemma initial_queue limits :
  queue_ok limits n (prefix_sums 0 counts) pairs.*2 rooted [] (seq 0 n) [] (λ _ _, True) (depth, incoming, ready).
Proof.
  assert (∀ j, j < n → incoming !! j = Some (occurrences j pairs.*2)) as Hinc.
  { intros j Hj. rewrite (foldl_alter_lookup id), lookup_replicate_2 by done. done. }
  assert (∀ j, edges_from (prefix_sums 0 counts) pairs.*2 (seq 0 n) j = occurrences j pairs.*2) as Hedges.
  { intros j. apply edges_all; [apply adjacent_pairs|]. eapply Forall_impl; [apply pairs_range|]. by intros p [? _]. }
  assert (Forall (λ j, j < length (replicate n 0%N)) roots) as Hr.
  { rewrite length_replicate. apply Forall_forall. intros i (r & Hr & _)%root_member. by apply lookup_lt_Some in Hr. }
  assert (∀ j, j ∈ ready ↔ j < n ∧ occurrences j pairs.*2 = 0) as Hready.
  { intros j. rewrite list_elem_of_filter, elem_of_seq. split.
    - intros [Hj [_ Hn]]. rewrite Hinc in Hj by done. split; [done|]. by injection Hj.
    - intros [Hj Hz]. rewrite Hinc, Hz by done. split; [done|lia]. }
  split; cbn [fst snd].
  - apply NoDup_filter, NoDup_seq.
  - intros j [Hj _]%Hready. done.
  - by eexists.
  - done.
  - clear. assert (∀ l : list N, length (foldl (λ d i, <[i := 1%N]> d) l roots) = length l) as Hl;
      [|by rewrite Hl, length_replicate].
    induction roots as [|r rs IH]; intros l; [done|]. cbn. by rewrite IH, length_insert.
  - intros j Hj. rewrite Hinc, Hedges by done. cbn. by rewrite Nat.add_0_r.
  - intros j Hj. rewrite Hready, Hedges. cbn. rewrite Nat.add_0_r. naive_solver.
  - intros p j i Hp _ Hji%adjacent_elem. exfalso. apply list_elem_of_lookup_2, Hready in Hp as [_ Hz].
    apply occurrences_zero in Hz. apply Hz. apply list_elem_of_fmap. by exists (i, j).
  - intros j d Hj Hd. rewrite marked_lookup in Hj by done. case_decide as Hroot.
    + injection Hj as <-. by apply chain_root.
    + apply lookup_replicate in Hj as [-> _]. lia.
  - intros r Hroot. exists 1%N. rewrite marked_lookup, decide_True by done. done.
  - intros i j d Hi. by apply not_elem_of_nil in Hi.
  - intros i d Hi. by apply not_elem_of_nil in Hi.
Qed.

Section answer.
Context (limits : LockLimits.t) (depth' : list N) (incoming' ready' todo : list nat).
Abbreviation max_chain := (N.min (LockLimits.dependency_depth limits) 64).
Context (Hq : queue_ok limits n (prefix_sums 0 counts) pairs.*2 rooted ready' todo [] (λ _ _, True)
                (depth', incoming', ready')).

Lemma adjacent_range i j : j ∈ adjacent i → j < n.
Proof. intros Hji. apply (adjacent_lt _ _ Hji). Qed.
Lemma rooted_range r : rooted r → r < n.
Proof. intros (c & Hc & _)%root_member. by apply lookup_lt_Some in Hc. Qed.
Lemma depth_some i : i < n → ∃ d, depth' !! i = Some d.
Proof. intros Hi. apply lookup_lt_is_Some. pose proof (queue_depths _ _ _ _ _ _ _ _ _ _ Hq) as Hl. cbn in Hl. by rewrite Hl. Qed.

Lemma full_acyclic : length ready' = n ↔ ∀ c, ¬ tc (binds s) c c.
Proof. rewrite <- acyclic_indices. exact (queue_acyclic limits n _ _ rooted _ _ _ Hq eq_refl). Qed.

Lemma full_longest k i : length ready' = n → index_chain k i → ∃ d, depth' !! i = Some d ∧ (1 ≤ k ≤ d)%N ∧ (d ≤ max_chain)%N.
Proof.
  intros Hlen Hk. destruct (chain_range n _ _ rooted adjacent_range rooted_range _ _ Hk) as [Hi H1].
  assert (i ∈ ready') as Hin by (exact (queue_full limits n _ _ rooted _ _ _ _ _ _ Hq Hlen Hi)).
  apply list_elem_of_lookup in Hin as Hp. destruct Hp as [p Hp].
  destruct (queue_longest limits n _ _ rooted adjacent_range rooted_range _ _ _ _ _ Hq Hk p Hp) as (d & Hd & Hkd).
  { apply lookup_lt_Some in Hp. lia. }
  exists d. split_and!; [done..|]. by apply (queue_bounded _ _ _ _ _ _ _ _ _ _ Hq i).
Qed.

Lemma full_reached : length ready' = n →
  0%N ∉ depth' ↔ ∀ c, c ∈ members → ∃ k, provider_chain s k c.
Proof.
  intros Hlen. split.
  - intros Hzero c [i Hi]%list_elem_of_lookup. destruct (depth_some i) as [d Hd]; [by apply lookup_lt_Some in Hi|].
    exists d. apply (chain_indices d i c Hi), (queue_sound _ _ _ _ _ _ _ _ _ _ Hq); [done|].
    apply N.neq_0_lt_0. intros ->. apply Hzero. by eapply list_elem_of_lookup_2.
  - intros Hreach [i Hi]%list_elem_of_lookup. assert (i < n) as Hin.
    { apply lookup_lt_Some in Hi. pose proof (queue_depths _ _ _ _ _ _ _ _ _ _ Hq) as Hl. cbn in Hl. lia. }
    destruct (lookup_lt_is_Some_2 members i Hin) as [c Hc].
    destruct (Hreach c) as [k Hk]; [by eapply list_elem_of_lookup_2|]. apply (chain_indices k i c Hc) in Hk.
    destruct (full_longest k i Hlen Hk) as (d & Hd & ? & _). assert (d = 0%N) as -> by congruence. lia.
Qed.
End answer.

(** The queue over a closed graph, and what its answer says of it. *)
Lemma queue_answer limits :
  ∃ r, visit_ready limits n (prefix_sums 0 counts) pairs.*2 (depth, incoming, ready) 0 = Some r
    ∧ ((∃ depth' ready', r = Ok (depth', ready') ∧ length ready' = n ∧ 0%N ∉ depth')
       ↔ (∀ c, ¬ tc (binds s) c c) ∧ (∀ c, c ∈ members → ∃ k, provider_chain s k c)
         ∧ ∀ k c, provider_chain s k c → (k ≤ N.min (LockLimits.dependency_depth limits) 64)%N).
Proof.
  destruct (visit_ready_answers limits n _ _ rooted adjacent_range n [] (seq 0 n) _ (initial_queue limits))
    as (r & Hr & Hcase); [cbn; lia|]. exists r. split; [exact Hr|].
  destruct r as [[depth' ready']|e].
  - destruct Hcase as (incoming' & todo & Hq). split.
    + intros (? & ? & [= <- <-] & Hlen & Hzero). split_and!; [by eapply full_acyclic|by eapply full_reached|].
      intros k c Hc. destruct (chain_member _ _ Hc) as [i Hi]. apply (chain_indices k i c Hi) in Hc.
      destruct (full_longest _ _ _ _ _ Hq k i Hlen Hc) as (d & _ & ? & ?). lia.
    + intros (Hac & Hreach & _). exists depth', ready'. split; [done|].
      assert (length ready' = n) as Hlen by (by eapply full_acyclic). split; [done|]. by eapply full_reached.
  - split; [by intros (? & ? & ? & _)|]. intros (_ & _ & Hdepth). exfalso.
    destruct Hcase as (k & i & Hk & Hover).
    destruct (chain_range n _ _ rooted adjacent_range rooted_range _ _ Hk) as [Hi _].
    destruct (lookup_lt_is_Some_2 members i Hi) as [c Hc].
    apply (chain_indices k i c Hc) in Hk. apply Hdepth in Hk. lia.
Qed.
End graph.

(** ** The theorem *)
Lemma lock_work_spec s w : lock_work s = Some w ↔
  w = (3 * (lenN (Selection.contributions s) + lenN (Selection.bindings s)) + lenN (Selection.roots s))%N
  ∧ (w ≤ usize_max)%N.
Proof.
  unfold lock_work, checked_add. generalize (lenN (Selection.contributions s)), (lenN (Selection.bindings s)),
    (lenN (Selection.roots s)), usize_max. intros m b r u.
  destruct (N.leb_spec (m + b) u); cbn [mbind option_bind]; [|split; [done|lia]].
  destruct (N.leb_spec ((m + b) * 3) u); cbn [mbind option_bind]; [|split; [done|lia]].
  destruct (N.leb_spec ((m + b) * 3 + r) u); split; try done; try lia; [intros [= <-]; lia|].
  intros [-> _]. f_equal. lia.
Qed.

Lemma Forall2_choose {A B} (R : A → B → Prop) l : (∀ x, x ∈ l → ∃ y, R x y) → ∃ k, Forall2 R l k.
Proof.
  induction l as [|x l IH]; intros Hx; [by exists []|]. destruct (Hx x) as [y Hy]; [constructor|].
  destruct IH as [k Hk]; [intros z Hz; apply Hx; by constructor|]. exists (y :: k). by constructor.
Qed.

Lemma validate_graph_exact limits s :
  sorted (Selection.roots s) = true → sorted (Selection.contributions s) = true →
  sorted (ProviderBinding.requirement <$> Selection.bindings s) = true →
  ∃ r, validate_graph limits s = Some r
    ∧ (r = Ok () ↔ well_locked s (N.min (LockLimits.dependency_depth limits) 64)).
Proof.
  intros Hr Hm Hk. unfold validate_graph. cbn zeta.
  destruct (mark_roots _ _ _) as [depth|e] eqn:Hroots.
  2: { eexists. split; [done|]. split; [done|]. intros Hl. exfalso. revert Hroots.
    destruct (Forall2_choose (λ r i, binary_search (Selection.contributions s) r = Some i) (Selection.roots s))
      as [ixs Hix].
    { intros r Hin. apply binary_search_elem. by apply (locked_inside _ _ Hl). }
    rewrite (proj2 (mark_roots_spec _ _ _ _) (ex_intro _ ixs (conj Hix eq_refl))). done. }
  apply mark_roots_spec in Hroots as (roots & Hroots & ->).
  destruct (count_edges _ _ _ _ _) as [[[o i] t]|e] eqn:Hcount.
  2: { eexists. split; [done|]. split; [done|]. intros Hl. exfalso. revert Hcount.
    destruct (Forall2_choose (λ b p, binary_search (Selection.contributions s) (ProviderBinding.consumer b) = Some p.1
      ∧ binary_search (Selection.contributions s) (ProviderBinding.provider b) = Some p.2) (Selection.bindings s))
      as [pairs Hp].
    { intros b Hb. destruct (locked_inside _ _ Hl) as [_ Hin]. destruct (Hin _ _ (ex_intro _ b (conj Hb (conj eq_refl eq_refl)))) as
        [[f Hf]%binary_search_elem [g Hg]%binary_search_elem]. by exists (f, g). }
    rewrite (proj2 (count_edges_spec _ _ _ _ _ _ _ _)
      (ex_intro _ pairs (conj Hp (conj eq_refl (conj eq_refl eq_refl))))). done. }
  apply count_edges_spec in Hcount as (pairs & Hpairs & -> & -> & ->). rewrite app_nil_l.
  destruct (queue_answer s pairs roots Hm Hk Hpairs Hroots limits) as (r & -> & Hans).
  exists (match r with Err e => Err e | Ok (depth, ready) =>
    if negb (length ready =? length (Selection.contributions s)) then Err (invalid "bindings" "dependency cycle")
    else if bool_decide (0%N ∈ depth) then Err (invalid "contributions" "unreachable contribution") else Ok () end).
  split; [destruct r as [[depth ready]|e]; [|done]; by repeat case_match|].
  transitivity (∃ depth' ready', r = Ok (depth', ready') ∧ length ready' = length (Selection.contributions s) ∧ 0%N ∉ depth').
  - destruct r as [[depth ready]|e]; [|split; [done|by intros (? & ? & ? & _)]].
    destruct (Nat.eqb_spec (length ready) (length (Selection.contributions s))) as [Hlen|Hlen]; cbn [negb].
    + case_bool_decide; split; try done; [intros (? & ? & [= <- <-] & _ & ?); done|]. intros _. by exists depth, ready.
    + split; [done|]. by intros (? & ? & [= <- <-] & ? & _).
  - rewrite Hans. split.
    + intros (Hac & Hreach & Hdepth). split; try done. split.
      * intros c Hc. apply list_elem_of_lookup in Hc as [k Hk']. destruct (Forall2_lookup_l _ _ _ _ _ Hroots Hk') as (i & _ & Hi).
        apply binary_search_elem. by exists i.
      * intros c d Hcd. destruct (binds_found s pairs Hm Hk Hpairs _ _ Hcd) as (i & j & Hi & Hj & _).
        split; by eapply list_elem_of_lookup_2.
    + intros [_ _ _ _ Hac Hreach Hdepth]. done.
Qed.

(** A lock within the bounds whose graph keeps its promises. *)
Record lock_ok (limits : LockLimits.t) (lock : SelectionLock.t) : Prop := {
  ok_bytes : (SelectionLock.canonical_bytes lock ≤ LockLimits.bytes limits)%N;
  ok_entries : (N.max (lenN (Selection.roots (SelectionLock.selection lock)))
    (N.max (lenN (Selection.contributions (SelectionLock.selection lock))) (lenN (Selection.bindings (SelectionLock.selection lock))))
    ≤ LockLimits.items limits)%N;
  ok_work : (3 * (lenN (Selection.contributions (SelectionLock.selection lock)) + lenN (Selection.bindings (SelectionLock.selection lock)))
    + lenN (Selection.roots (SelectionLock.selection lock)) ≤ N.min (LockLimits.work limits) usize_max)%N;
  ok_graph : well_locked (SelectionLock.selection lock) (N.min (LockLimits.dependency_depth limits) 64)
}.

Lemma lock_validated limits lock :
  ∃ r, lock_validate lock limits = Some r ∧ (r = Ok () ↔ lock_ok limits lock).
Proof.
  set (s := SelectionLock.selection lock).
  assert (lock_validate lock limits =
    if (LockLimits.bytes limits <? SelectionLock.canonical_bytes lock)%N then Some (Err (limit_error "bytes"))
    else if (LockLimits.items limits <? lenN (Selection.roots s))%N
      || (LockLimits.items limits <? lenN (Selection.contributions s))%N
      || (LockLimits.items limits <? lenN (Selection.bindings s))%N then Some (Err (limit_error "entries"))
    else if match lock_work s with Some w => (LockLimits.work limits <? w)%N | None => true end
    then Some (Err (limit_error "work"))
    else if negb (sorted (Selection.roots s)) || negb (sorted (Selection.contributions s))
      || negb (sorted (ProviderBinding.requirement <$> Selection.bindings s))
    then Some (Err (invalid "selection" "duplicate or noncanonical set order"))
    else validate_graph limits s) as -> by done.
  destruct (N.ltb_spec (LockLimits.bytes limits) (SelectionLock.canonical_bytes lock)) as [|Hbytes].
  { eexists. split; [done|]. split; [done|]. intros [? _ _ _]. subst s. lia. }
  destruct (_ || _ || _) eqn:Hitems.
  { eexists. split; [done|]. split; [done|]. rewrite !orb_true_iff, !N.ltb_lt in Hitems. intros [_ Hle _ _]. fold s in Hle. lia. }
  rewrite !orb_false_iff, !N.ltb_ge in Hitems.
  destruct (match lock_work s with Some w => _ | None => _ end) eqn:Hwork.
  { eexists. split; [done|]. split; [done|]. intros [_ _ Hle _]. fold s in Hle. exfalso.
    destruct (lock_work s) as [w|] eqn:Hw.
    - apply lock_work_spec in Hw as [-> _]. apply N.ltb_lt in Hwork. lia.
    - assert (lock_work s = Some (3 * (lenN (Selection.contributions s) + lenN (Selection.bindings s))
        + lenN (Selection.roots s))%N) as Hw'; [|congruence].
      apply lock_work_spec. split; [done|]. etrans; [exact Hle|]. apply N.le_min_r. }
  destruct (_ || _ || _) eqn:Hsorted.
  { eexists. split; [done|]. split; [done|]. intros [_ _ _ [H1 H2 H3 _ _ _ _]]. subst s. by rewrite H1, H2, H3 in Hsorted. }
  rewrite !orb_false_iff, !negb_false_iff in Hsorted. destruct Hsorted as [[H1 H2] H3].
  destruct (validate_graph_exact limits s H1 H2 H3) as (r & -> & Hr). exists r. split; [done|]. rewrite Hr.
  split; [|by intros [_ _ _ ?]]. intros Hl. split; fold s; [done|lia| |done].
  destruct (lock_work s) as [w|] eqn:Hw; [|done]. apply lock_work_spec in Hw as [-> Hw].
  apply N.ltb_ge in Hwork. by apply N.min_glb.
Qed.

(** C29: A lock validates exactly when it is what it promises. [validate] answers for
    every selection, and accepts it if and only if the encoding, the entries and
    the work are within the caller's bounds, every set is in canonical order
    without duplicates, every reference is inside the set, no contribution
    depends on itself through any chain of bindings, every contribution is
    reached from a root, and the longest chain from a root has at most
    [dependency_depth], and at most 64, members. *)
Theorem lock_validate_exact lock limits :
  let s := SelectionLock.selection lock in
  ∃ r, lock_validate lock limits = Some r
    ∧ (r = Ok () ↔
       (SelectionLock.canonical_bytes lock ≤ LockLimits.bytes limits)%N
       ∧ (N.max (lenN (Selection.roots s)) (N.max (lenN (Selection.contributions s)) (lenN (Selection.bindings s)))
          ≤ LockLimits.items limits)%N
       ∧ (3 * (lenN (Selection.contributions s) + lenN (Selection.bindings s)) + lenN (Selection.roots s)
          ≤ N.min (LockLimits.work limits) usize_max)%N
       ∧ well_locked s (N.min (LockLimits.dependency_depth limits) 64)).
Proof.
  cbn zeta. destruct (lock_validated limits lock) as (r & Hr & Hok). exists r. split; [done|]. rewrite Hok.
  split; [by intros []|]. by intros (? & ? & ? & ?).
Qed.
