(* ===== verification/Schema.v ===== *)
(** * Component schemas (kagami-catalog, name.rs and schema.rs)

    Catalog identifiers, component type identities and the registry of component
    declarations the document is validated against; and the property constraints
    of orishu-plugin (model.rs, execution/configuration.rs). *)

From Stdlib Require Import Ascii.
From stdpp Require Import base gmap strings list.
From S2P Require Import Prelude Identity Binary64 Quantity Expression Namespace PluginIds.

Module NameError.
Inductive t : Type :=
  | NotComponentContribution
  | Segment (error : InvalidName.t)
  | EmptyPluginId
  | TooManyPluginSegments (found limit : N).
#[global] Instance NameError_eq_dec : EqDecision t.
Proof. solve_decision. Defined.
End NameError.

Definition MAX_PLUGIN_ID_SEGMENTS : N := 8.

(** ** Identifiers *)
Module PropertyName.
Record t : Type := mk { as_name : Name.t }.
#[global] Instance PropertyName_eq_dec : EqDecision t.
Proof. solve_decision. Defined.
Definition as_str (p : t) : string := Name.as_str (as_name p).
Definition of_str (s : string) : t := mk (Name.mk s).
#[global] Instance PropertyName_countable : Countable t.
Proof. refine (inj_countable' as_str of_str _); by intros [[]]. Defined.
#[global] Instance PropertyName_ord : Ord t := λ a b, cmp (as_str a) (as_str b).
#[global] Instance PropertyName_ord_laws : OrdLaws t.
Proof. eapply (ord_laws_inj as_str); [intros [[a]] [[b]]; cbn; by intros ->|done]. Qed.
Definition new `{Unicode} (value : string) : result NameError.t t :=
  name ← result_map_err NameError.Segment (name_new value); Ok (mk name).
End PropertyName.

Module ComponentName.
Record t : Type := mk { as_name : Name.t }.
#[global] Instance ComponentName_eq_dec : EqDecision t.
Proof. solve_decision. Defined.
Definition as_str (p : t) : string := Name.as_str (as_name p).
Definition new `{Unicode} (value : string) : result NameError.t t :=
  name ← result_map_err NameError.Segment (name_new value); Ok (mk name).
End ComponentName.

(** The dotted segments of a plugin identifier, outermost first. *)
Module PluginId.
Record t : Type := mk { segments : list Name.t }.
#[global] Instance PluginId_eq_dec : EqDecision t.
Proof. solve_decision. Defined.
Definition texts (p : t) : list string := Name.as_str <$> segments p.
Definition of_texts (l : list string) : t := mk (Name.mk <$> l).
Lemma of_texts_texts p : of_texts (texts p) = p.
Proof.
  destruct p as [l]. unfold of_texts, texts. cbn. f_equal.
  induction l as [|[n] l IH]; [done|]. cbn. by f_equal.
Qed.
#[global] Instance texts_inj : Inj (=) (=) texts.
Proof. intros p q Heq. by rewrite <- (of_texts_texts p), <- (of_texts_texts q), Heq. Qed.
#[global] Instance PluginId_countable : Countable t.
Proof. refine (inj_countable' texts of_texts of_texts_texts). Defined.
#[global] Instance PluginId_ord : Ord t := λ a b, cmp (texts a) (texts b).
#[global] Instance PluginId_ord_laws : OrdLaws t.
Proof. eapply (ord_laws_inj texts); [apply _|done]. Qed.

Fixpoint parse_segments `{Unicode} (pieces : list bytes) : result NameError.t (list Name.t) :=
  match pieces with
  | [] => Ok []
  | piece :: pieces =>
    name ← result_map_err NameError.Segment (name_new (String.string_of_list_ascii piece));
    names ← parse_segments pieces;
    Ok (name :: names)
  end.
Definition new `{Unicode} (value : string) : result NameError.t t :=
  let pieces := split_on "."%char (bytes_of value) in
  if (MAX_PLUGIN_ID_SEGMENTS <? lenN pieces)%N then
    Err (NameError.TooManyPluginSegments (lenN pieces) MAX_PLUGIN_ID_SEGMENTS)
  else
    segments ← parse_segments pieces;
    if bool_decide (segments = []) then Err NameError.EmptyPluginId else Ok (mk segments).
End PluginId.

(** A component type: a logical name, or the exact contribution that declares
    it. Derived [Ord] puts the logical names first. *)
Module ComponentTypeId.
Inductive t : Type :=
  | Legacy (plugin : PluginId.t) (name : ComponentName.t)
  | Exact (contribution : ContributionRef.t).
#[global] Instance ComponentTypeId_eq_dec : EqDecision t.
Proof. solve_decision. Defined.
Definition blank : ContributionRef.t :=
  ContributionRef.mk (PluginReleaseId.mk []) (ExtensionPointId.mk "") (LocalContributionId.mk "").
Definition key (c : t) : (N * (PluginId.t * string)) * ContributionRef.t :=
  match c with
  | Legacy plugin name => (0%N, (plugin, ComponentName.as_str name), blank)
  | Exact contribution => (1%N, (PluginId.mk [], ""), contribution)
  end.
Definition of_key (k : (N * (PluginId.t * string)) * ContributionRef.t) : t :=
  if (k.1.1 =? 0)%N then Legacy k.1.2.1 (ComponentName.mk (Name.mk k.1.2.2)) else Exact k.2.
Lemma of_key_key c : of_key (key c) = c.
Proof. by destruct c as [p [[n]]|c]. Qed.
#[global] Instance key_inj : Inj (=) (=) key.
Proof. intros a b Heq. by rewrite <- (of_key_key a), <- (of_key_key b), Heq. Qed.
#[global] Instance ComponentTypeId_countable : Countable t.
Proof. refine (inj_countable' key of_key of_key_key). Defined.
#[global] Instance ComponentTypeId_ord : Ord t := λ a b, cmp (key a) (key b).
#[global] Instance ComponentTypeId_ord_laws : OrdLaws t.
Proof. eapply (ord_laws_inj key); [apply _|done]. Qed.

Definition new (plugin : PluginId.t) (name : ComponentName.t) : t := Legacy plugin name.
Definition exact (contribution : ContributionRef.t) : result NameError.t t :=
  if decide (ExtensionPointId.as_str (ContributionRef.extension_point contribution)
             = "orishu.model.components/v1")
  then Ok (Exact contribution) else Err NameError.NotComponentContribution.
Definition contribution (c : t) : option ContributionRef.t :=
  match c with Exact contribution => Some contribution | Legacy _ _ => None end.
End ComponentTypeId.

(** ** Property constraints (orishu-plugin) *)
Module PropertyValueRef.
Inductive t : Type :=
  | Quantity (value_si : f64) (dimension : Dimension.t)
  | Boolean (value : bool)
  | Text (value : string).
End PropertyValueRef.

Module PropertyType.
Inductive t : Type :=
  | Quantity (dimension : Dimension.t) (default_expression : option string)
             (minimum_si maximum_si : option f64)
  | Boolean (default : option bool)
  | Text (max_bytes : N) (default : option string).
#[global] Instance PropertyType_eq_dec : EqDecision t.
Proof. solve_decision. Defined.

Definition is_none_or {A} (o : option A) (f : A → bool) : bool :=
  match o with Some a => f a | None => true end.
Definition accepts (p : t) (value : PropertyValueRef.t) : bool :=
  match p, value with
  | Quantity dimension _ minimum_si maximum_si, PropertyValueRef.Quantity value_si actual =>
    bool_decide (dimension = actual) && F64.is_finite value_si
    && is_none_or minimum_si (λ min, F64.leb min value_si)
    && is_none_or maximum_si (λ max, F64.leb value_si max)
  | Boolean _, PropertyValueRef.Boolean _ => true
  | Text max_bytes _, PropertyValueRef.Text value => (str_len value <=? max_bytes)%N
  | _, _ => false
  end.
End PropertyType.

(** ** Schemas *)
Module PropertyKind.
Inductive t : Type := Quantity (dimension : Dimension.t) | Boolean | Text.
#[global] Instance PropertyKind_eq_dec : EqDecision t.
Proof. solve_decision. Defined.
Definition label (k : t) : string :=
  match k with Quantity _ => "quantity" | Boolean => "boolean" | Text => "text" end.
End PropertyKind.

Module PropertySchema.
Record t : Type := mk { kind : PropertyKind.t; required : bool; plugin : option PropertyType.t }.
#[global] Instance PropertySchema_eq_dec : EqDecision t.
Proof. solve_decision. Defined.
Definition optional (kind : PropertyKind.t) : t := mk kind false None.
Definition required_ (kind : PropertyKind.t) : t := mk kind true None.

Definition accepts (s : t) (value : PropertyValueRef.t) : bool :=
  let kind_matches :=
    match kind s, value with
    | PropertyKind.Quantity dimension, PropertyValueRef.Quantity value_si actual =>
      F64.is_finite value_si && bool_decide (dimension = actual)
    | PropertyKind.Boolean, PropertyValueRef.Boolean _
    | PropertyKind.Text, PropertyValueRef.Text _ => true
    | _, _ => false
    end in
  kind_matches && PropertyType.is_none_or (plugin s) (λ p, PropertyType.accepts p value).
End PropertySchema.

(** [SchemaVersion] is a [u32]. The retained plugin declaration of a component is
    read by exports only and is left out. *)
Module ComponentSchema.
Record t : Type := mk {
  type_id : ComponentTypeId.t;
  version : N;
  properties : gmap PropertyName.t PropertySchema.t
}.
#[global] Instance ComponentSchema_eq_dec : EqDecision t.
Proof. solve_decision. Defined.
Definition new (type_id : ComponentTypeId.t) (version : N) : t := mk type_id version ∅.
Definition with_property (name : PropertyName.t) (schema : PropertySchema.t) (s : t) : t :=
  mk (type_id s) (version s) (<[name := schema]> (properties s)).
Definition required_properties (s : t) : list PropertyName.t :=
  (filter (λ e, PropertySchema.required e.2 = true) (btree_entries (properties s))).*1.
End ComponentSchema.

Module SchemaRegistry.
Record t : Type := mk { components : gmap ComponentTypeId.t ComponentSchema.t }.
#[global] Instance SchemaRegistry_eq_dec : EqDecision t.
Proof. solve_decision. Defined.
Definition new : t := mk ∅.
Definition insert (schema : ComponentSchema.t) (r : t) : t :=
  mk (<[ComponentSchema.type_id schema := schema]> (components r)).
Definition get (r : t) (type_id : ComponentTypeId.t) : option ComponentSchema.t :=
  components r !! type_id.
End SchemaRegistry.
