(* ===== verification/Geometry.v ===== *)
(** * Placement values (kagami-document, geometry.rs)

    Vectors, rotations, transforms and shapes with the checks of their
    constructors, over binary64. [hypot] and [sin_cos] belong to the platform's
    mathematics library: parameters. *)

From Stdlib Require Import ZArith.
From stdpp Require Import base gmap strings list.
From S2P Require Import Prelude Binary64.

Class Trigonometry : Type := {
  hypot : f64 → f64 → f64;
  sin_cos : f64 → f64 * f64
}.

Module GeometryError.
Inductive t : Type :=
  | NotFinite (what : string)
  | DegenerateRotation
  | OutOfRange (what expected : string)
  | EmptyBounds.
#[global] Instance GeometryError_eq_dec : EqDecision t.
Proof. solve_decision. Defined.
End GeometryError.

(** [f64::EPSILON], 2^-52. *)
Definition EPSILON : f64 := F64.div F64.one (F64.of_Z (2 ^ 52)).
Definition two : f64 := F64.of_decimal 2 0.

Module Vector3.
Record t : Type := mk { x : f64; y : f64; z : f64 }.
#[global] Instance Vector3_eq_dec : EqDecision t.
Proof. solve_decision. Defined.
Definition ZERO : t := mk F64.zero F64.zero F64.zero.
Definition new (x y z : f64) : result GeometryError.t t :=
  if negb (F64.is_finite x && F64.is_finite y && F64.is_finite z)
  then Err (GeometryError.NotFinite "vector") else Ok (mk x y z).
Definition is_non_negative (v : t) : bool :=
  F64.leb F64.zero (x v) && F64.leb F64.zero (y v) && F64.leb F64.zero (z v).
Definition checked_add (a b : t) : result GeometryError.t t :=
  new (F64.add (x a) (x b)) (F64.add (y a) (y b)) (F64.add (z a) (z b)).
Definition length `{Trigonometry} (v : t) : f64 := hypot (hypot (x v) (y v)) (z v).
Definition finite (v : t) : Prop :=
  F64.is_finite (x v) = true ∧ F64.is_finite (y v) = true ∧ F64.is_finite (z v) = true.
End Vector3.

(** The cross product on raw components. *)
Definition cross (a b : Vector3.t) : f64 * f64 * f64 :=
  (F64.sub (F64.mul (Vector3.y a) (Vector3.z b)) (F64.mul (Vector3.z a) (Vector3.y b)),
   F64.sub (F64.mul (Vector3.z a) (Vector3.x b)) (F64.mul (Vector3.x a) (Vector3.z b)),
   F64.sub (F64.mul (Vector3.x a) (Vector3.y b)) (F64.mul (Vector3.y a) (Vector3.x b))).

Module Rotation.
Record t : Type := mk { x : f64; y : f64; z : f64; w : f64 }.
#[global] Instance Rotation_eq_dec : EqDecision t.
Proof. solve_decision. Defined.
Definition IDENTITY : t := mk F64.zero F64.zero F64.zero F64.one.

Definition from_quaternion (x y z w : f64) : result GeometryError.t t :=
  if negb (F64.is_finite x && F64.is_finite y && F64.is_finite z && F64.is_finite w)
  then Err (GeometryError.NotFinite "rotation")
  else
    let norm := F64.sqrt (F64.add (F64.add (F64.add (F64.mul x x) (F64.mul y y)) (F64.mul z z)) (F64.mul w w)) in
    if negb (F64.is_finite norm) || F64.leb norm EPSILON then Err GeometryError.DegenerateRotation
    else Ok (mk (F64.div x norm) (F64.div y norm) (F64.div z norm) (F64.div w norm)).

Definition from_axis_angle `{Trigonometry} (axis : Vector3.t) (radians : f64) : result GeometryError.t t :=
  if negb (F64.is_finite radians) then Err (GeometryError.NotFinite "angle")
  else
    let length := Vector3.length axis in
    if negb (F64.is_finite length) || F64.leb length EPSILON then Err GeometryError.DegenerateRotation
    else
      let '(sin, cos) := sin_cos (F64.div radians two) in
      let scale := F64.div sin length in
      from_quaternion (F64.mul (Vector3.x axis) scale) (F64.mul (Vector3.y axis) scale)
        (F64.mul (Vector3.z axis) scale) cos.

Definition apply (r : t) (vector : Vector3.t) : result GeometryError.t Vector3.t :=
  q ← Vector3.new (x r) (y r) (z r);
  let '(tx, ty, tz) := cross q vector in
  inner ← Vector3.new (F64.add tx (F64.mul (w r) (Vector3.x vector)))
            (F64.add ty (F64.mul (w r) (Vector3.y vector)))
            (F64.add tz (F64.mul (w r) (Vector3.z vector)));
  let '(ox, oy, oz) := cross q inner in
  Vector3.new (F64.add (Vector3.x vector) (F64.mul two ox))
    (F64.add (Vector3.y vector) (F64.mul two oy)) (F64.add (Vector3.z vector) (F64.mul two oz)).
End Rotation.

Module Transform.
Record t : Type := mk { translation : Vector3.t; rotation : Rotation.t }.
#[global] Instance Transform_eq_dec : EqDecision t.
Proof. solve_decision. Defined.
Definition IDENTITY : t := mk Vector3.ZERO Rotation.IDENTITY.
Definition at_ (translation : Vector3.t) : t := mk translation Rotation.IDENTITY.
Definition apply (t : t) (point : Vector3.t) : result GeometryError.t Vector3.t :=
  rotated ← Rotation.apply (rotation t) point; Vector3.checked_add rotated (translation t).
End Transform.

Module Velocity.
Record t : Type := mk { linear : Vector3.t; angular : Vector3.t }.
#[global] Instance Velocity_eq_dec : EqDecision t.
Proof. solve_decision. Defined.
Definition ZERO : t := mk Vector3.ZERO Vector3.ZERO.
End Velocity.

Module ObjectShape.
Inductive t : Type := Sphere (radius : f64) | Box (half_extent : Vector3.t).
#[global] Instance ObjectShape_eq_dec : EqDecision t.
Proof. solve_decision. Defined.
Definition sphere (radius : f64) : result GeometryError.t t :=
  if negb (F64.is_finite radius) then Err (GeometryError.NotFinite "radius")
  else if F64.leb radius F64.zero then Err (GeometryError.OutOfRange "radius" "strictly positive")
  else Ok (Sphere radius).
Definition boxed (half_extent : Vector3.t) : result GeometryError.t t :=
  if negb (Vector3.is_non_negative half_extent)
  then Err (GeometryError.OutOfRange "half-extent" "non-negative on every axis")
  else Ok (Box half_extent).
Definition bounding_radius `{Trigonometry} (s : t) : f64 :=
  match s with Sphere radius => radius | Box half_extent => Vector3.length half_extent end.
End ObjectShape.

(** ** What the constructors establish *)
Lemma vector_new_ok x y z v :
  Vector3.new x y z = Ok v ↔ v = Vector3.mk x y z ∧ Vector3.finite v.
Proof.
  unfold Vector3.new, Vector3.finite.
  destruct (F64.is_finite x) eqn:Hx, (F64.is_finite y) eqn:Hy, (F64.is_finite z) eqn:Hz; cbn;
    (split; [try done; intros [= <-]; done|intros [-> (? & ? & ?)]; cbn in *; congruence]).
Qed.

(** The transform of a point is a finite point or an error. *)
Lemma transform_apply_finite t p v : Transform.apply t p = Ok v → Vector3.finite v.
Proof.
  unfold Transform.apply. destruct (Rotation.apply _ _) as [r|e]; [|done].
  cbn. intros Hv. by apply vector_new_ok in Hv as [_ ?].
Qed.
