(* ===== verification/Document.v ===== *)
(** * The experiment (kagami-document: id.rs, name.rs, object.rs, variable.rs,
    setup.rs, limits.rs, model.rs, command.rs)

    Identities and the counters that mint them, labels, objects composed of
    components, variable definitions, the setup, the experiment at a revision,
    and the closed set of authoring commands. What a captured scientific setup
    holds is the interface [Scientific]. *)

From Stdlib Require Import Ascii.
From stdpp Require Import base gmap strings list pretty.
From S2P Require Import Prelude Identity VarLimits Binary64 Quantity Expression Namespace PluginIds Lock Schema Geometry.

(** [x + 1] on a [u64], in a build without overflow checks. *)
Definition next_u64 (n : N) : N := ((n + 1) mod 2 ^ 64)%N.

(** ** Identities (id.rs) *)
Module ObjectId.
Record t : Type := from_raw { get : N }.
#[global] Instance ObjectId_eq_dec : EqDecision t.
Proof. solve_decision. Defined.
#[global] Instance ObjectId_countable : Countable t.
Proof. refine (inj_countable' get from_raw _); by intros []. Defined.
#[global] Instance ObjectId_ord : Ord t := λ a b, cmp (get a) (get b).
#[global] Instance ObjectId_ord_laws : OrdLaws t.
Proof. eapply (ord_laws_inj get); [by intros [] []; simpl; intros ->|done]. Qed.
End ObjectId.

(** The identity of a definition; [System.VariableId] is a handle of the engine. *)
Module VariableId.
Record t : Type := from_raw { get : N }.
#[global] Instance VariableId_eq_dec : EqDecision t.
Proof. solve_decision. Defined.
#[global] Instance VariableId_countable : Countable t.
Proof. refine (inj_countable' get from_raw _); by intros []. Defined.
#[global] Instance VariableId_ord : Ord t := λ a b, cmp (get a) (get b).
#[global] Instance VariableId_ord_laws : OrdLaws t.
Proof. eapply (ord_laws_inj get); [by intros [] []; simpl; intros ->|done]. Qed.
End VariableId.

Module ExperimentRevision.
Record t : Type := mk { get : N }.
#[global] Instance ExperimentRevision_eq_dec : EqDecision t.
Proof. solve_decision. Defined.
Definition INITIAL : t := mk 0.
Definition next (r : t) : t := mk (next_u64 (get r)).
End ExperimentRevision.

Module Counters.
Record t : Type := mk { object : N; variable : N }.
#[global] Instance Counters_eq_dec : EqDecision t.
Proof. solve_decision. Defined.
Definition default : t := mk 0 0.
Definition next_object (c : t) : ObjectId.t * t :=
  (ObjectId.from_raw (object c), mk (next_u64 (object c)) (variable c)).
Definition next_variable (c : t) : VariableId.t * t :=
  (VariableId.from_raw (variable c), mk (object c) (next_u64 (variable c))).
Definition restored (objects variables : N) : t := mk objects variables.
Definition restored_object (c : t) (raw : N) : option ObjectId.t :=
  if (raw <? object c)%N then Some (ObjectId.from_raw raw) else None.
Definition restored_variable (c : t) (raw : N) : option VariableId.t :=
  if (raw <? variable c)%N then Some (VariableId.from_raw raw) else None.
End Counters.

(** ** Labels (name.rs) *)
Definition MAX_DISPLAY_NAME_BYTES : N := 256.

Module DisplayNameError.
Inductive t : Type := Empty | TooLong (found limit : N) | ControlCharacter.
#[global] Instance DisplayNameError_eq_dec : EqDecision t.
Proof. solve_decision. Defined.
End DisplayNameError.

(** [str::trim]: the text from its first character that is not white space to
    its last. *)
Definition trim_text (value : string) : string :=
  let indexed := char_indices value in
  match drop_while (λ ic, is_whitespace ic.2) indexed with
  | [] => ""
  | (start, _) :: _ =>
    let trailing := take (length indexed - length (drop_while (λ ic, is_whitespace ic.2) (reverse indexed)))
                      (reverse indexed) in
    let finish := match last trailing with Some (offset, _) => offset | None => str_len value end in
    String.string_of_list_ascii
      (take (N.to_nat (finish - start)) (drop (N.to_nat start) (bytes_of value)))
  end.
Example trims_both_ends : trim_text "  Earth core " = "Earth core".
Proof. reflexivity. Qed.

Module DisplayName.
Record t : Type := mk { as_str : string }.
#[global] Instance DisplayName_eq_dec : EqDecision t.
Proof. solve_decision. Defined.
Definition new (value : string) : result DisplayNameError.t t :=
  let trimmed := trim_text value in
  if decide (trimmed = "") then Err DisplayNameError.Empty
  else if (MAX_DISPLAY_NAME_BYTES <? str_len trimmed)%N
  then Err (DisplayNameError.TooLong (str_len trimmed) MAX_DISPLAY_NAME_BYTES)
  else if existsb is_control (chars trimmed) then Err DisplayNameError.ControlCharacter
  else Ok (mk trimmed).
End DisplayName.

(** ** Values and objects (object.rs) *)
Module AuthoredValue.
Inductive t : Type :=
  | Quantity (expression : string) (unit : option Unit.t)
  | Boolean (value : bool)
  | Text (value : string).
#[global] Instance AuthoredValue_eq_dec : EqDecision t.
Proof. solve_decision. Defined.
Definition si (expression : string) : t := Quantity expression None.
Definition in_unit (expression : string) (unit : Unit.t) : t := Quantity expression (Some unit).
Definition kind_label (v : t) : string :=
  match v with Quantity _ _ => "quantity" | Boolean _ => "boolean" | Text _ => "text" end.
End AuthoredValue.

Module PropertyValue.
Inductive t : Type :=
  | Quantity (source : string) (display_unit : option string) (si_value : f64) (dimension : Dimension.t)
  | Boolean (value : bool)
  | Text (value : string)
  | Unresolved (source : string) (display_unit : option string).
#[global] Instance PropertyValue_eq_dec : EqDecision t.
Proof. solve_decision. Defined.

Definition schema_value (v : t) : option PropertyValueRef.t :=
  match v with
  | Quantity _ _ si_value dimension => Some (PropertyValueRef.Quantity si_value dimension)
  | Boolean value => Some (PropertyValueRef.Boolean value)
  | Text value => Some (PropertyValueRef.Text value)
  | Unresolved _ _ => None
  end.
Definition kind_label (v : t) : string :=
  match v with
  | Quantity _ _ _ _ | Unresolved _ _ => "quantity"
  | Boolean _ => "boolean"
  | Text _ => "text"
  end.
Definition si_value (v : t) : option f64 :=
  match v with Quantity _ _ si_value _ => Some si_value | _ => None end.
Definition source (v : t) : option string :=
  match v with Quantity source _ _ _ | Unresolved source _ => Some source | _ => None end.
Definition display_unit (v : t) : option string :=
  match v with Quantity _ unit _ _ | Unresolved _ unit => unit | _ => None end.
Definition is_priced (v : t) : bool := match v with Unresolved _ _ => false | _ => true end.

(** The unit of the shared table the value was authored in. *)
Definition authored_quantity (source : string) (display_unit : option string) : AuthoredValue.t :=
  match lookup <$> display_unit with
  | Some (Ok unit) => AuthoredValue.in_unit source unit
  | _ => AuthoredValue.si source
  end.
Definition authored (v : t) : AuthoredValue.t :=
  match v with
  | Quantity source display_unit _ _ | Unresolved source display_unit =>
    authored_quantity source display_unit
  | Boolean value => AuthoredValue.Boolean value
  | Text value => AuthoredValue.Text value
  end.
End PropertyValue.

Module ObjectComponent.
Record t : Type := mk { schema_version : N; properties : gmap PropertyName.t PropertyValue.t }.
#[global] Instance ObjectComponent_eq_dec : EqDecision t.
Proof. solve_decision. Defined.
End ObjectComponent.

(** The template an object was materialised from (kagami-catalog, source.rs). *)
Module TemplateProvenance.
Record t : Type := mk {
  api_version : string;
  catalog : Name.t;
  template : Name.t;
  source_file : string;
  source_document : N;
  fingerprint : bytes
}.
#[global] Instance TemplateProvenance_eq_dec : EqDecision t.
Proof. solve_decision. Defined.
End TemplateProvenance.

Module Object_.
Record t : Type := mk {
  name : DisplayName.t;
  transform : Transform.t;
  velocity : Velocity.t;
  shape : option ObjectShape.t;
  components : gmap ComponentTypeId.t ObjectComponent.t;
  provenance : option TemplateProvenance.t
}.
#[global] Instance Object_eq_dec : EqDecision t.
Proof. solve_decision. Defined.
Definition set_name (name : DisplayName.t) (o : t) : t :=
  mk name (transform o) (velocity o) (shape o) (components o) (provenance o).
Definition set_transform (transform : Transform.t) (o : t) : t :=
  mk (name o) transform (velocity o) (shape o) (components o) (provenance o).
Definition set_velocity (velocity : Velocity.t) (o : t) : t :=
  mk (name o) (transform o) velocity (shape o) (components o) (provenance o).
Definition set_shape (shape : option ObjectShape.t) (o : t) : t :=
  mk (name o) (transform o) (velocity o) shape (components o) (provenance o).
Definition set_components (components : gmap ComponentTypeId.t ObjectComponent.t) (o : t) : t :=
  mk (name o) (transform o) (velocity o) (shape o) components (provenance o).
End Object_.

Abbreviation ComponentProperties := (gmap PropertyName.t AuthoredValue.t).

Module ObjectSpec.
Record t : Type := mk {
  name : DisplayName.t;
  transform : Transform.t;
  velocity : Velocity.t;
  shape : option ObjectShape.t;
  components : gmap ComponentTypeId.t ComponentProperties;
  provenance : option TemplateProvenance.t
}.
#[global] Instance ObjectSpec_eq_dec : EqDecision t.
Proof. solve_decision. Defined.
Definition new (name : DisplayName.t) : t := mk name Transform.IDENTITY Velocity.ZERO None ∅ None.
Definition with_component (component : ComponentTypeId.t) (properties : ComponentProperties) (s : t) : t :=
  mk (name s) (transform s) (velocity s) (shape s) (<[component := properties]> (components s)) (provenance s).
End ObjectSpec.

(** ** Definitions (variable.rs) *)
Module Variable_.
Record t : Type := mk {
  namespace : Namespace.t;
  name : Name.t;
  expression : string;
  description : option string
}.
#[global] Instance Variable_eq_dec : EqDecision t.
Proof. solve_decision. Defined.
Definition qualified_name (v : t) : string := FQName.to_string (qualified (namespace v) (name v)).
Definition set_name (name : Name.t) (v : t) : t := mk (namespace v) name (expression v) (description v).
Definition set_expression (expression : string) (v : t) : t :=
  mk (namespace v) (name v) expression (description v).
Definition set_description (description : option string) (v : t) : t :=
  mk (namespace v) (name v) (expression v) description.
End Variable_.

Module VariableSpec.
Record t : Type := mk {
  namespace : Namespace.t;
  name : Name.t;
  expression : string;
  description : option string
}.
#[global] Instance VariableSpec_eq_dec : EqDecision t.
Proof. solve_decision. Defined.
Definition new (name : Name.t) (expression : string) : t := mk (Namespace.new "") name expression None.
Definition in_namespace (namespace : Namespace.t) (s : t) : t :=
  mk namespace (name s) (expression s) (description s).
Definition qualified_name (s : t) : string := FQName.to_string (qualified (namespace s) (name s)).
End VariableSpec.
