(* ===== verification/Experiment.v ===== *)
(** * The experiment and its commands (kagami-document: setup.rs, scientific.rs,
    limits.rs, model.rs, command.rs)

    The numerical setup, the declared bounds, the contents of an experiment at a
    revision with the counters that span its history, and the closed set of
    authoring commands. A captured scientific setup is reached through the
    interface [Scientific]. *)

From Stdlib Require Import ZArith.
From stdpp Require Import base gmap strings list pretty.
From S2P Require Import Prelude Identity Binary64 Quantity Expression Namespace PluginIds Lock Schema Geometry Document.

(** ** The setup (setup.rs) *)
Module SetupError.
Inductive t : Type := Geometry (error : GeometryError.t) | EmptyGrid | InvalidTimeStep.
#[global] Instance SetupError_eq_dec : EqDecision t.
Proof. solve_decision. Defined.
End SetupError.

Module BoundaryCondition.
Inductive t : Type := Periodic | Dirichlet | Neumann | Absorbing.
#[global] Instance BoundaryCondition_eq_dec : EqDecision t.
Proof. solve_decision. Defined.
End BoundaryCondition.

(** Cells and boundaries are arrays of three; cells are [u32]. *)
Module Domain.
Record t : Type := mk {
  lower : Vector3.t;
  upper : Vector3.t;
  cells : N * N * N;
  boundary : BoundaryCondition.t * BoundaryCondition.t * BoundaryCondition.t
}.
#[global] Instance Domain_eq_dec : EqDecision t.
Proof. solve_decision. Defined.

Definition new (lower upper : Vector3.t) (cells : N * N * N)
    (boundary : BoundaryCondition.t * BoundaryCondition.t * BoundaryCondition.t) : result SetupError.t t :=
  if F64.leb (Vector3.x upper) (Vector3.x lower) || F64.leb (Vector3.y upper) (Vector3.y lower)
     || F64.leb (Vector3.z upper) (Vector3.z lower)
  then Err (SetupError.Geometry GeometryError.EmptyBounds)
  else
    let '(cx, cy, cz) := cells in
    if (cx =? 0)%N || (cy =? 0)%N || (cz =? 0)%N then Err SetupError.EmptyGrid
    else Ok (mk lower upper cells boundary).

Definition half : f64 := F64.of_decimal 5 (-1).
Definition default : t :=
  mk (Vector3.mk (F64.neg half) (F64.neg half) (F64.neg half)) (Vector3.mk half half half)
    (32, 32, 32)%N (BoundaryCondition.Periodic, BoundaryCondition.Periodic, BoundaryCondition.Periodic).
End Domain.

Module TimeStep.
Record t : Type := mk { seconds : f64 }.
#[global] Instance TimeStep_eq_dec : EqDecision t.
Proof. solve_decision. Defined.
Definition new (seconds : f64) : result SetupError.t t :=
  if negb (F64.is_finite seconds) || F64.leb seconds F64.zero then Err SetupError.InvalidTimeStep
  else Ok (mk seconds).
Definition default : t := mk (F64.of_decimal 1 (-3)).
End TimeStep.

Module PluginComposition.
Record t : Type := mk { enabled : gset PluginId.t }.
#[global] Instance PluginComposition_eq_dec : EqDecision t.
Proof. solve_decision. Defined.
Definition default : t := mk ∅.
Definition set_enabled (plugin : PluginId.t) (enabled' : bool) (p : t) : bool * t :=
  if enabled'
  then (negb (bool_decide (plugin ∈ enabled p)), mk ({[plugin]} ∪ enabled p))
  else (bool_decide (plugin ∈ enabled p), mk (enabled p ∖ {[plugin]})).
Definition is_enabled (plugin : PluginId.t) (p : t) : bool := bool_decide (plugin ∈ enabled p).
Definition len (p : t) : N := N.of_nat (size (enabled p)).
End PluginComposition.

Module LegacySetup.
Record t : Type := mk { domain : Domain.t; time_step : TimeStep.t; plugins : PluginComposition.t }.
#[global] Instance LegacySetup_eq_dec : EqDecision t.
Proof. solve_decision. Defined.
Definition default : t := mk Domain.default TimeStep.default PluginComposition.default.
Definition set_domain (domain : Domain.t) (s : t) : t := mk domain (time_step s) (plugins s).
Definition set_time_step (time_step : TimeStep.t) (s : t) : t := mk (domain s) time_step (plugins s).
Definition set_plugins (plugins : PluginComposition.t) (s : t) : t := mk (domain s) (time_step s) plugins.
End LegacySetup.

(** ** What a captured setup offers the document (scientific.rs) *)
Module ScientificLimits.
Record t : Type := mk { kernels : N; blob_bytes : N; total_bytes : N; retained_bytes : N }.
#[global] Instance ScientificLimits_eq_dec : EqDecision t.
Proof. solve_decision. Defined.
Definition DEFAULT : t := mk 65 (128 * 1024 * 1024) (512 * 1024 * 1024) (512 * 1024 * 1024).
End ScientificLimits.

Module ScientificError.
Inductive t : Type :=
  | Retention | Limit | Mismatch | Declaration (error : Error.t) | Reinitialize | History.
#[global] Instance ScientificError_eq_dec : EqDecision t.
Proof. solve_decision. Defined.
Definition code (e : t) : string :=
  match e with
  | Retention => "scientific_retention_limit"
  | Limit => "scientific_setup_limit"
  | Mismatch => "scientific_capture_mismatch"
  | Declaration _ => "scientific_declaration_invalid"
  | Reinitialize => "scientific_reinitialization_required"
  | History => "scientific_history_changed"
  end.
End ScientificError.

(** The operations on a [ScientificSetup] the document's transitions call:
    [time_step], [set_time_step], [declarations().descriptor()] and
    [check_limits]. *)
Class Scientific : Type := {
  ScientificSetup : Type;
  scientific_time_step : ScientificSetup → TimeStep.t;
  scientific_set_time_step : TimeStep.t → ScientificSetup → ScientificSetup;
  scientific_descriptor : ScientificSetup → SelectionDescriptor.t;
  scientific_check_limits : ScientificSetup → ScientificLimits.t → result ScientificError.t unit
}.

Module Setup.
Section setup.
Context `{Scientific}.
Inductive t : Type := Legacy (value : LegacySetup.t) | Captured (value : ScientificSetup).
Definition default : t := Legacy LegacySetup.default.
Definition legacy (s : t) : option LegacySetup.t :=
  match s with Legacy value => Some value | Captured _ => None end.
Definition scientific (s : t) : option ScientificSetup :=
  match s with Captured value => Some value | Legacy _ => None end.
Definition time_step (s : t) : TimeStep.t :=
  match s with Legacy v => LegacySetup.time_step v | Captured v => scientific_time_step v end.
Definition set_time_step (value : TimeStep.t) (s : t) : t :=
  match s with
  | Legacy v => Legacy (LegacySetup.set_time_step value v)
  | Captured v => Captured (scientific_set_time_step value v)
  end.
End setup.
End Setup.

(** ** Bounds (limits.rs) *)
Module Limits.
Record t : Type := mk {
  dependencies : LockLimits.t;
  scientific : ScientificLimits.t;
  max_objects : N;
  max_components_per_object : N;
  max_properties_per_component : N;
  max_commands_per_batch : N;
  max_expression_bytes : N;
  max_expression_references : N;
  max_text_bytes : N;
  max_variables : N;
  max_description_bytes : N;
  max_enabled_plugins : N;
  max_undo_depth : N
}.
#[global] Instance Limits_eq_dec : EqDecision t.
Proof. solve_decision. Defined.
Definition DEFAULT : t :=
  mk LockLimits.DEFAULT ScientificLimits.DEFAULT 65536 64 64 4096 1024 64 4096 4096 4096 64 128.
End Limits.

(** ** The experiment (model.rs)

    A checkpoint and a snapshot are the shared contents themselves. *)
Module ExperimentState.
Section state.
Context `{Scientific}.
Record t : Type := mk {
  revision : ExperimentRevision.t;
  objects : gmap ObjectId.t Object_.t;
  variables : gmap VariableId.t Variable_.t;
  setup : Setup.t;
  dependencies : option SelectionLock.t
}.
Definition empty : t := mk ExperimentRevision.INITIAL ∅ ∅ Setup.default None.
Definition set_revision (revision : ExperimentRevision.t) (s : t) : t :=
  mk revision (objects s) (variables s) (setup s) (dependencies s).
Definition set_objects (objects : gmap ObjectId.t Object_.t) (s : t) : t :=
  mk (revision s) objects (variables s) (setup s) (dependencies s).
Definition set_variables (variables : gmap VariableId.t Variable_.t) (s : t) : t :=
  mk (revision s) (objects s) variables (setup s) (dependencies s).
Definition set_setup (setup : Setup.t) (s : t) : t :=
  mk (revision s) (objects s) (variables s) setup (dependencies s).
Definition set_dependencies (dependencies : option SelectionLock.t) (s : t) : t :=
  mk (revision s) (objects s) (variables s) (setup s) dependencies.

Definition resolve_object (s : t) (raw : N) : option ObjectId.t :=
  let candidate := ObjectId.from_raw raw in
  if contains_key candidate (objects s) then Some candidate else None.
Definition resolve_variable (s : t) (raw : N) : option VariableId.t :=
  let candidate := VariableId.from_raw raw in
  if contains_key candidate (variables s) then Some candidate else None.
Definition objects_with (component : ComponentTypeId.t) (s : t)
    : list (ObjectId.t * Object_.t * ObjectComponent.t) :=
  omap (λ '(id, object), pair (id, object) <$> Object_.components object !! component)
    (btree_entries (objects s)).
End state.
End ExperimentState.

Module Experiment.
Section experiment.
Context `{Scientific}.
Record t : Type := mk { state : ExperimentState.t; counters : Counters.t }.
Definition new : t := mk ExperimentState.empty Counters.default.
Definition revision (e : t) : ExperimentRevision.t := ExperimentState.revision (state e).
Definition checkpoint (e : t) : ExperimentState.t := state e.
Definition snapshot (e : t) : ExperimentState.t := state e.
Definition adopted_after (e : t) (previous : ExperimentRevision.t) : t :=
  mk (ExperimentState.set_revision (ExperimentRevision.next previous) (state e)) (counters e).
End experiment.
End Experiment.

(** ** Commands (command.rs) *)
Module ExperimentCommand.
Section command.
Context `{Scientific}.
Inductive t : Type :=
  | AdoptDependencies (lock : SelectionLock.t)
  | AdoptScientificSetup (setup : ScientificSetup)
  | CreateObject (spec : ObjectSpec.t)
  | RemoveObject (object : ObjectId.t)
  | RenameObject (object : ObjectId.t) (name : DisplayName.t)
  | SetTransform (object : ObjectId.t) (transform : Transform.t)
  | SetVelocity (object : ObjectId.t) (velocity : Velocity.t)
  | SetShape (object : ObjectId.t) (shape : option ObjectShape.t)
  | AttachComponent (object : ObjectId.t) (component : ComponentTypeId.t)
      (properties : gmap PropertyName.t AuthoredValue.t)
  | DetachComponent (object : ObjectId.t) (component : ComponentTypeId.t)
  | SetComponentProperty (object : ObjectId.t) (component : ComponentTypeId.t)
      (property : PropertyName.t) (value : AuthoredValue.t)
  | DefineVariable (spec : VariableSpec.t)
  | SetVariableExpression (variable : VariableId.t) (expression : string)
  | RenameVariable (variable : VariableId.t) (name : Name.t)
  | RemoveVariable (variable : VariableId.t)
  | SetVariableDescription (variable : VariableId.t) (description : option string)
  | SetDomain (domain : Domain.t)
  | SetTimeStep (time_step : TimeStep.t)
  | SetPluginEnabled (plugin : PluginId.t) (enabled : bool).

Definition label (c : t) : string :=
  match c with
  | AdoptDependencies _ => "Choose component providers"
  | AdoptScientificSetup _ => "Configure scientific setup"
  | CreateObject _ => "Add object"
  | RemoveObject _ => "Remove object"
  | RenameObject _ _ => "Rename object"
  | SetTransform _ _ => "Move object"
  | SetVelocity _ _ => "Set velocity"
  | SetShape _ _ => "Change shape"
  | AttachComponent _ _ _ => "Attach component"
  | DetachComponent _ _ => "Remove component"
  | SetComponentProperty _ _ _ _ => "Edit property"
  | DefineVariable _ => "Define variable"
  | SetVariableExpression _ _ => "Edit variable"
  | RenameVariable _ _ => "Rename variable"
  | RemoveVariable _ => "Remove variable"
  | SetVariableDescription _ _ => "Describe variable"
  | SetDomain _ => "Reconfigure domain"
  | SetTimeStep _ => "Set time step"
  | SetPluginEnabled _ _ => "Change active physics"
  end.

Definition batch_label (commands : list t) : string :=
  match commands with
  | [] => "Edit experiment"
  | [only] => label only
  | first :: rest => (label first +:+ " and " +:+ pretty (length rest) +:+ " more")%string
  end.
End command.
End ExperimentCommand.

(** ** A concrete setup, for evaluating the definitions: it holds a time step. *)
Definition plain : Scientific := {|
  ScientificSetup := TimeStep.t;
  scientific_time_step := λ setup, setup;
  scientific_set_time_step := λ time_step _, time_step;
  scientific_descriptor := λ _, SelectionDescriptor.mk [] [];
  scientific_check_limits := λ _ _, Ok ()
|}.
