(* ===== verification/Validate.v ===== *)
(** * Deciding a candidate (kagami-document: validate.rs, capability.rs,
    dependencies.rs)

    The reasons a proposal is refused, the resolution of an authored value
    against its schema, the structural bounds, and what the installed schemas
    govern. *)

From stdpp Require Import base gmap strings list.
From S2P Require Import Prelude Identity Action Binary64 Quantity Expression Namespace System PluginIds Lock Schema Geometry Document Experiment.

(** ** Paths *)
Module ComponentPath.
Record t : Type := mk { object : ObjectId.t; component : ComponentTypeId.t }.
#[global] Instance ComponentPath_eq_dec : EqDecision t.
Proof. solve_decision. Defined.
#[global] Instance ComponentPath_countable : Countable t.
Proof. refine (inj_countable' (λ p, (object p, component p)) (λ k, mk k.1 k.2) _); by intros []. Defined.
#[global] Instance ComponentPath_ord : Ord t := λ a b, cmp (object a, component a) (object b, component b).
#[global] Instance ComponentPath_ord_laws : OrdLaws t.
Proof. eapply (ord_laws_inj (λ p, (object p, component p))); [by intros [] [] [= -> ->]|done]. Qed.
End ComponentPath.

Module PropertyPath.
Record t : Type := mk { component : ComponentPath.t; property : PropertyName.t }.
#[global] Instance PropertyPath_eq_dec : EqDecision t.
Proof. solve_decision. Defined.
#[global] Instance PropertyPath_countable : Countable t.
Proof. refine (inj_countable' (λ p, (component p, property p)) (λ k, mk k.1 k.2) _); by intros []. Defined.
Definition new (object : ObjectId.t) (component : ComponentTypeId.t) (property : PropertyName.t) : t :=
  mk (ComponentPath.mk object component) property.
Definition object (p : t) : ObjectId.t := ComponentPath.object (component p).
End PropertyPath.

(** ** Gaps (capability.rs) *)
Module CapabilityGap.
Inductive t : Type :=
  | SchemaNotInstalled
  | PropertyNotDeclared (property : PropertyName.t)
  | PropertyKindChanged (property : PropertyName.t) (expected stored : string)
  | PropertyDimensionChanged (property : PropertyName.t) (expected stored : Dimension.t)
  | RequiredPropertyMissing (property : PropertyName.t)
  | ValueNotPriced (property : PropertyName.t)
  | PropertyConstraint (property : PropertyName.t).
#[global] Instance CapabilityGap_eq_dec : EqDecision t.
Proof. solve_decision. Defined.
Definition code (g : t) : string :=
  match g with
  | SchemaNotInstalled => "schema_not_installed"
  | PropertyNotDeclared _ => "property_not_declared"
  | PropertyKindChanged _ _ _ => "property_kind_changed"
  | PropertyDimensionChanged _ _ _ => "property_dimension_changed"
  | RequiredPropertyMissing _ => "required_property_missing"
  | ValueNotPriced _ => "value_not_priced"
  | PropertyConstraint _ => "property_constraint"
  end.
Definition is_absent (g : t) : bool := match g with SchemaNotInstalled => true | _ => false end.
End CapabilityGap.

(** [property_gap]: the body of [gap_of]'s loop over the stored properties. *)
Definition property_gap (schema : ComponentSchema.t) (entry : PropertyName.t * PropertyValue.t)
    : option CapabilityGap.t :=
  let '(name, value) := entry in
  match ComponentSchema.properties schema !! name with
  | None => Some (CapabilityGap.PropertyNotDeclared name)
  | Some declared =>
    if negb (PropertyValue.is_priced value) then Some (CapabilityGap.ValueNotPriced name)
    else
      let mismatch :=
        match PropertySchema.kind declared, value with
        | PropertyKind.Quantity dimension, PropertyValue.Quantity _ _ _ held =>
          if bool_decide (dimension = held) then None
          else Some (CapabilityGap.PropertyDimensionChanged name dimension held)
        | PropertyKind.Boolean, PropertyValue.Boolean _ | PropertyKind.Text, PropertyValue.Text _ => None
        | expected, stored =>
          Some (CapabilityGap.PropertyKindChanged name (PropertyKind.label expected)
                  (PropertyValue.kind_label stored))
        end in
      match mismatch with
      | Some gap => Some gap
      | None =>
        if match PropertyValue.schema_value value with
           | Some value => PropertySchema.accepts declared value
           | None => false
           end
        then None else Some (CapabilityGap.PropertyConstraint name)
      end
  end.

(** The first [Some] of a loop that returns early. *)
Fixpoint first_some {A B} (f : A → option B) (l : list A) : option B :=
  match l with [] => None | x :: l => match f x with Some b => Some b | None => first_some f l end end.

Definition gap_of (type_id : ComponentTypeId.t) (component : ObjectComponent.t)
    (schemas : SchemaRegistry.t) : option CapabilityGap.t :=
  match SchemaRegistry.get schemas type_id with
  | None => Some CapabilityGap.SchemaNotInstalled
  | Some schema =>
    match first_some (property_gap schema) (btree_entries (ObjectComponent.properties component)) with
    | Some gap => Some gap
    | None =>
      first_some (λ required,
        if contains_key required (ObjectComponent.properties component) then None
        else Some (CapabilityGap.RequiredPropertyMissing required))
        (ComponentSchema.required_properties schema)
    end
  end.

Module CapabilityDiagnostic.
Record t : Type := mk { path : ComponentPath.t; gap : CapabilityGap.t }.
#[global] Instance CapabilityDiagnostic_eq_dec : EqDecision t.
Proof. solve_decision. Defined.
End CapabilityDiagnostic.

Module CapabilitySummary.
Record t : Type := mk { objects : N; absent : N; incompatible : N }.
#[global] Instance CapabilitySummary_eq_dec : EqDecision t.
Proof. solve_decision. Defined.
End CapabilitySummary.

(** Every attached component, in object and component order. *)
Definition attached (objects : gmap ObjectId.t Object_.t)
    : list (ComponentPath.t * ObjectComponent.t) :=
  btree_entries objects ≫= λ '(id, object),
    (λ '(type_id, component), (ComponentPath.mk id type_id, component))
      <$> btree_entries (Object_.components object).

Module CapabilityReport.
Section report.
Context `{Scientific}.
Record t : Type := mk { diagnostics : list CapabilityDiagnostic.t }.

Definition of_ (snapshot : ExperimentState.t) (schemas : SchemaRegistry.t) : t :=
  mk (omap (λ '(path, component),
       CapabilityDiagnostic.mk path <$> gap_of (ComponentPath.component path) component schemas)
     (attached (ExperimentState.objects snapshot))).
(** The diagnostics are sorted by path; the search finds the one at the path. *)
Definition gap (r : t) (object : ObjectId.t) (component : ComponentTypeId.t) : option CapabilityGap.t :=
  CapabilityDiagnostic.gap ∘ snd <$>
    list_find (λ d, CapabilityDiagnostic.path d = ComponentPath.mk object component) (diagnostics r).
Definition object (r : t) (object : ObjectId.t) : list CapabilityDiagnostic.t :=
  filter (λ d, ComponentPath.object (CapabilityDiagnostic.path d) = object) (diagnostics r).
Definition is_complete (r : t) : bool := bool_decide (diagnostics r = []).
Definition count (s : CapabilitySummary.t * option ObjectId.t) (d : CapabilityDiagnostic.t)
    : CapabilitySummary.t * option ObjectId.t :=
  let '(CapabilitySummary.mk objects absent incompatible, last_object) := s in
  let object := ComponentPath.object (CapabilityDiagnostic.path d) in
  let objects := if bool_decide (last_object = Some object) then objects else (objects + 1)%N in
  if CapabilityGap.is_absent (CapabilityDiagnostic.gap d)
  then (CapabilitySummary.mk objects (absent + 1) incompatible, Some object)
  else (CapabilitySummary.mk objects absent (incompatible + 1), Some object).
Definition summary (r : t) : CapabilitySummary.t :=
  fst (foldl count (CapabilitySummary.mk 0 0 0, None) (diagnostics r)).

(** The component a path names, if the experiment holds it. *)
Definition component_at (snapshot : ExperimentState.t) (path : ComponentPath.t) : option ObjectComponent.t :=
  ExperimentState.objects snapshot !! ComponentPath.object path ≫= λ object,
  Object_.components object !! ComponentPath.component path.
Definition retain_present (snapshot : ExperimentState.t) (r : t) : t :=
  mk (filter (λ d, is_Some (component_at snapshot (CapabilityDiagnostic.path d))) (diagnostics r)).
End report.
End CapabilityReport.
Abbreviation component_at := CapabilityReport.component_at.

Module Participation.
Inductive t : Type := Inert | Participating | Unavailable.
#[global] Instance Participation_eq_dec : EqDecision t.
Proof. solve_decision. Defined.
Definition participation (object : Object_.t) (schemas : SchemaRegistry.t) : t :=
  if bool_decide (Object_.components object = ∅) then Inert
  else if existsb (λ '(type_id, component), negb (bool_decide (is_Some (gap_of type_id component schemas))))
            (btree_entries (Object_.components object))
  then Participating else Unavailable.
End Participation.

(** ** Refusals (validate.rs, dependencies.rs) *)
Module DependencyError.
Inductive t : Type :=
  | Lock (error : Error.t) | Composition (error : CompositionError.t) | Roots | ScientificSelection.
#[global] Instance DependencyError_eq_dec : EqDecision t.
Proof. solve_decision. Defined.
Definition code (e : t) : string :=
  match e with
  | Lock _ => "invalid_dependency_lock"
  | Composition _ => "dependency_composition_refused"
  | Roots => "dependency_lock_roots_mismatch"
  | ScientificSelection => "dependency_lock_scientific_mismatch"
  end.
End DependencyError.

Module Rejection.
Inductive t : Type :=
  | Dependencies (reason : DependencyError.t)
  | Scientific (reason : ScientificError.t)
  | BatchTooLarge (found limit : N)
  | TooManyObjects (found limit : N)
  | UnknownObject (object : ObjectId.t)
  | ComponentNotAttached (path : ComponentPath.t)
  | ComponentTypeNotInstalled (component : ComponentTypeId.t)
  | ComponentIncompatible (path : ComponentPath.t) (gap : CapabilityGap.t)
  | TooManyComponents (object : ObjectId.t) (found limit : N)
  | TooManyProperties (path : ComponentPath.t) (found limit : N)
  | PropertyNotDeclared (path : PropertyPath.t)
  | RequiredPropertyMissing (path : PropertyPath.t)
  | PropertyKindMismatch (path : PropertyPath.t) (expected found : string)
  | PropertyConstraint (path : PropertyPath.t)
  | ExpressionDimensionMismatch (path : PropertyPath.t) (expected found : Dimension.t)
  | UnitDeclaredTwice (path : PropertyPath.t) (unit : string) (found : Dimension.t)
  | UnitDimensionMismatch (path : PropertyPath.t) (unit : string) (expected found : Dimension.t)
  | ExpressionTooLong (path : PropertyPath.t) (found limit : N)
  | TooManyExpressionReferences (path : PropertyPath.t) (found limit : N)
  | ExpressionInvalid (path : PropertyPath.t) (source : ExprParsingError.t)
  | ExpressionUnresolved (path : PropertyPath.t) (source : ExprEvalError.t)
  | NonFiniteValue (path : PropertyPath.t)
  | TextTooLong (path : PropertyPath.t) (found limit : N)
  | UnknownVariable (variable : VariableId.t)
  | VariableNameTaken (name : string)
  | TooManyVariables (found limit : N)
  | VariableExpressionTooLong (name : string) (found limit : N)
  | DescriptionTooLong (name : string) (found limit : N)
  | VariableInvalid (name : string) (source : ExprParsingError.t)
  | VariableUnresolved (name : string) (source : ExprEvalError.t)
  | VariableShadowsUnit (name : string)
  | UnallocatedIdentity (kind : string) (identity : N)
  | DuplicateIdentity (kind : string) (identity : N)
  | TooManyEnabledPlugins (found limit : N).
#[global] Instance Rejection_eq_dec : EqDecision t.
Proof. solve_decision. Defined.
Definition code (r : t) : string :=
  match r with
  | Dependencies reason => DependencyError.code reason
  | Scientific reason => ScientificError.code reason
  | BatchTooLarge _ _ => "batch_too_large"
  | TooManyObjects _ _ => "too_many_objects"
  | UnknownObject _ => "unknown_object"
  | ComponentNotAttached _ => "component_not_attached"
  | ComponentTypeNotInstalled _ => "component_type_not_installed"
  | ComponentIncompatible _ _ => "component_incompatible"
  | TooManyComponents _ _ _ => "too_many_components"
  | TooManyProperties _ _ _ => "too_many_properties"
  | PropertyNotDeclared _ => "property_not_declared"
  | RequiredPropertyMissing _ => "required_property_missing"
  | PropertyKindMismatch _ _ _ => "property_kind_mismatch"
  | PropertyConstraint _ => "property_constraint"
  | ExpressionDimensionMismatch _ _ _ => "expression_dimension_mismatch"
  | UnitDeclaredTwice _ _ _ => "unit_declared_twice"
  | UnitDimensionMismatch _ _ _ _ => "unit_dimension_mismatch"
  | ExpressionTooLong _ _ _ => "expression_too_long"
  | TooManyExpressionReferences _ _ _ => "too_many_expression_references"
  | ExpressionInvalid _ _ => "expression_invalid"
  | ExpressionUnresolved _ _ => "expression_unresolved"
  | NonFiniteValue _ => "non_finite_value"
  | TextTooLong _ _ _ => "text_too_long"
  | TooManyEnabledPlugins _ _ => "too_many_enabled_plugins"
  | UnknownVariable _ => "unknown_variable"
  | VariableNameTaken _ => "variable_name_taken"
  | TooManyVariables _ _ => "too_many_variables"
  | VariableExpressionTooLong _ _ _ => "variable_expression_too_long"
  | DescriptionTooLong _ _ _ => "description_too_long"
  | VariableInvalid _ _ => "variable_invalid"
  | VariableUnresolved _ _ => "variable_unresolved"
  | VariableShadowsUnit _ => "variable_shadows_unit"
  | UnallocatedIdentity _ _ => "unallocated_identity"
  | DuplicateIdentity _ _ => "duplicate_identity"
  end.
End Rejection.

(** ** Resolving an authored value *)
Section resolve.
Context `{Libm}.

(** The factor and the unit a bare number is read in. *)
Definition declared_unit (path : PropertyPath.t) (dimension : Dimension.t) (unit : option Unit.t)
    : result Rejection.t (f64 * option string) :=
  match unit with
  | Some unit =>
    if bool_decide (Unit.dimension unit = dimension)
    then Ok (Unit.si_factor unit, Some (Unit.symbol unit))
    else Err (Rejection.UnitDimensionMismatch path (Unit.symbol unit) dimension (Unit.dimension unit))
  | None => Ok (F64.one, None)
  end.

(** What an evaluation of the expression leads to. *)
Definition priced (path : PropertyPath.t) (dimension : Dimension.t) (expression : string)
    (unit : option Unit.t) (factor : f64) (display_unit : option string) (resolved : Quantity.t)
    : result Rejection.t PropertyValue.t :=
  if negb (Quantity.is_dimensionless resolved) then
    if negb (bool_decide (Quantity.dimension resolved = dimension))
    then Err (Rejection.ExpressionDimensionMismatch path dimension (Quantity.dimension resolved))
    else match unit with
         | Some unit =>
           Err (Rejection.UnitDeclaredTwice path (Unit.symbol unit) (Quantity.dimension resolved))
         | None => Ok (PropertyValue.Quantity expression None (Quantity.magnitude resolved) dimension)
         end
  else
    let si_value := F64.mul (Quantity.magnitude resolved) factor in
    if negb (F64.is_finite si_value) then Err (Rejection.NonFiniteValue path)
    else Ok (PropertyValue.Quantity expression display_unit si_value dimension).

Definition resolve_quantity (path : PropertyPath.t) (dimension : Dimension.t) (expression : string)
    (unit : option Unit.t) (variables : VariablesSystem.t) (limits : Limits.t)
    : outcome Rejection.t PropertyValue.t :=
  if (Limits.max_expression_bytes limits <? str_len expression)%N
  then refuse (Rejection.ExpressionTooLong path (str_len expression) (Limits.max_expression_bytes limits))
  else
    match parse expression with
    | None => None
    | Some (Err source) => refuse (Rejection.ExpressionInvalid path source)
    | Some (Ok compiled) =>
      let references := lenN (CompiledExpression.variables compiled) in
      if (Limits.max_expression_references limits <? references)%N
      then refuse (Rejection.TooManyExpressionReferences path references
                     (Limits.max_expression_references limits))
      else
        '(factor, display_unit) ← answer (declared_unit path dimension unit);
        match eval variables expression with
        | None => None
        | Some (Ok resolved, _) =>
          answer (priced path dimension expression unit factor display_unit resolved)
        | Some (Err (VariablesError.Parsing source), _) => refuse (Rejection.ExpressionInvalid path source)
        | Some (Err (VariablesError.Eval source), _) => refuse (Rejection.ExpressionUnresolved path source)
        | Some (Err _, _) =>
          refuse (Rejection.ExpressionUnresolved path (ExprEvalError.UnknownVariable expression))
        end
    end.

Definition resolve_property (path : PropertyPath.t) (schema : PropertySchema.t)
    (authored : AuthoredValue.t) (variables : VariablesSystem.t) (limits : Limits.t)
    : outcome Rejection.t PropertyValue.t :=
  result ← (match PropertySchema.kind schema, authored with
    | PropertyKind.Quantity dimension, AuthoredValue.Quantity expression unit =>
      resolve_quantity path dimension expression unit variables limits
    | PropertyKind.Boolean, AuthoredValue.Boolean value => answer (Ok (PropertyValue.Boolean value))
    | PropertyKind.Text, AuthoredValue.Text value =>
      if (Limits.max_text_bytes limits <? str_len value)%N
      then refuse (Rejection.TextTooLong path (str_len value) (Limits.max_text_bytes limits))
      else answer (Ok (PropertyValue.Text value))
    | expected, found =>
      refuse (Rejection.PropertyKindMismatch path (PropertyKind.label expected)
                (AuthoredValue.kind_label found))
    end : outcome Rejection.t PropertyValue.t);
  if match PropertyValue.schema_value result with
     | Some v => PropertySchema.accepts schema v
     | None => false
     end
  then answer (Ok result) else refuse (Rejection.PropertyConstraint path).
End resolve.

(** ** Provider intent (dependencies.rs) *)
Section dependencies.
Context `{Scientific}.

(** Bindings are searched by consumer and slot. *)
Definition reconcile (lock : SelectionLock.t) (scientific : SelectionDescriptor.t)
    : result DependencyError.t unit :=
  let selection := SelectionLock.selection lock in
  if existsb (λ c, negb (bool_decide (is_Some (binary_search (SelectionDescriptor.contributions scientific) c))))
       (Selection.contributions selection)
  then Err DependencyError.ScientificSelection
  else
    let required := filter (λ b, is_Some (binary_search (Selection.contributions selection)
                                            (SelectedBinding.consumer b)))
                      (SelectionDescriptor.bindings scientific) in
    if negb (lenN required =? lenN (Selection.bindings selection))%N
    then Err DependencyError.ScientificSelection
    else try_for_each (λ binding,
      let requirement := ProviderBinding.requirement binding in
      let matching := snd <$> list_find (λ b,
        SelectedBinding.consumer b = RequirementKey.consumer requirement
        ∧ SelectedBinding.requirement_slot b = RequirementKey.slot requirement)
        (SelectionDescriptor.bindings scientific) in
      match matching with
      | Some b =>
        if bool_decide (SelectedBinding.provider b = ProviderBinding.provider binding) then Ok ()
        else Err DependencyError.ScientificSelection
      | None => Err DependencyError.ScientificSelection
      end) (Selection.bindings selection).

(** The exact contributions attached to the objects, in order. *)
Definition exact_roots (state : ExperimentState.t) : list ContributionRef.t :=
  omap (λ p, ComponentTypeId.contribution (ComponentPath.component p.1))
    (attached (ExperimentState.objects state)).

(** [for root in roots { seen[index(root)?] = true }]. *)
Fixpoint mark_seen (roots : list ContributionRef.t) (found : list ContributionRef.t) (seen : list bool)
    : result DependencyError.t (list bool) :=
  match found with
  | [] => Ok seen
  | root :: found =>
    match binary_search roots root with
    | None => Err DependencyError.Roots
    | Some i => mark_seen roots found (<[i := true]> seen)
    end
  end.

Definition validate_against (state : ExperimentState.t) (limits : Limits.t)
    (replacement : option SelectionDescriptor.t) : outcome DependencyError.t unit :=
  match ExperimentState.dependencies state with
  | None => answer (Ok ())
  | Some lock =>
    _ ← outcome_map_err DependencyError.Lock (lock_validate lock (Limits.dependencies limits));
    let roots := Selection.roots (SelectionLock.selection lock) in
    seen ← answer (mark_seen roots (exact_roots state) (replicate (length roots) false));
    if bool_decide (false ∈ seen) then refuse DependencyError.Roots
    else
      let selection :=
        match replacement with
        | Some selection => Some selection
        | None => scientific_descriptor <$> Setup.scientific (ExperimentState.setup state)
        end in
      match selection with
      | Some selection => answer (reconcile lock selection)
      | None => answer (Ok ())
      end
  end.

(** ** Structure and governance *)
Definition check_object (limits : Limits.t) (entry : ObjectId.t * Object_.t) : result Rejection.t unit :=
  let '(id, object) := entry in
  let components := Object_.components object in
  if (Limits.max_components_per_object limits <? N.of_nat (size components))%N
  then Err (Rejection.TooManyComponents id (N.of_nat (size components))
              (Limits.max_components_per_object limits))
  else try_for_each (λ '(type_id, component),
    let found := N.of_nat (size (ObjectComponent.properties component)) in
    if (Limits.max_properties_per_component limits <? found)%N
    then Err (Rejection.TooManyProperties (ComponentPath.mk id type_id) found
                (Limits.max_properties_per_component limits))
    else Ok ()) (btree_entries components).

Definition validate_structure_against (state : ExperimentState.t) (limits : Limits.t)
    (replacement : option SelectionDescriptor.t) : outcome Rejection.t unit :=
  let objects := ExperimentState.objects state in
  if (Limits.max_objects limits <? N.of_nat (size objects))%N
  then refuse (Rejection.TooManyObjects (N.of_nat (size objects)) (Limits.max_objects limits))
  else
    _ ← answer (match Setup.legacy (ExperimentState.setup state) with
      | Some legacy =>
        let found := PluginComposition.len (LegacySetup.plugins legacy) in
        if (Limits.max_enabled_plugins limits <? found)%N
        then Err (Rejection.TooManyEnabledPlugins found (Limits.max_enabled_plugins limits)) else Ok ()
      | None => Ok ()
      end);
    _ ← answer (match Setup.scientific (ExperimentState.setup state) with
      | Some scientific =>
        result_map_err Rejection.Scientific (scientific_check_limits scientific (Limits.scientific limits))
      | None => Ok ()
      end);
    _ ← answer (try_for_each (check_object limits) (btree_entries objects));
    outcome_map_err Rejection.Dependencies (validate_against state limits replacement).

Definition validate_structure (state : ExperimentState.t) (limits : Limits.t) : outcome Rejection.t unit :=
  validate_structure_against state limits None.

Definition rejection_for (path : ComponentPath.t) (gap : CapabilityGap.t) : Rejection.t :=
  match gap with
  | CapabilityGap.SchemaNotInstalled => Rejection.ComponentTypeNotInstalled (ComponentPath.component path)
  | CapabilityGap.RequiredPropertyMissing property =>
    Rejection.RequiredPropertyMissing (PropertyPath.mk path property)
  | CapabilityGap.PropertyNotDeclared property =>
    Rejection.PropertyNotDeclared (PropertyPath.mk path property)
  | gap => Rejection.ComponentIncompatible path gap
  end.

Definition validate_governed (state : ExperimentState.t) (touched : list ComponentPath.t)
    (schemas : SchemaRegistry.t) : result Rejection.t unit :=
  try_for_each (λ path,
    match component_at state path with
    | None => Ok ()
    | Some component =>
      if negb (bool_decide (is_Some (SchemaRegistry.get schemas (ComponentPath.component path))))
      then Err (Rejection.ComponentTypeNotInstalled (ComponentPath.component path))
      else match gap_of (ComponentPath.component path) component schemas with
           | Some gap => Err (rejection_for path gap)
           | None => Ok ()
           end
    end) touched.

Definition validate_restorable (state : ExperimentState.t) (schemas : SchemaRegistry.t)
    : result Rejection.t unit :=
  try_for_each (λ '(path, component),
    match gap_of (ComponentPath.component path) component schemas with
    | Some gap => if CapabilityGap.is_absent gap then Ok () else Err (rejection_for path gap)
    | None => Ok ()
    end) (attached (ExperimentState.objects state)).
End dependencies.
