(* ===== verification/Edit.v ===== *)
(** * The transition (kagami-document: update.rs)

    A command batch folded into a candidate experiment: the structural effect of
    every command, then the evaluation of what the batch authored or disturbed,
    then the validation of the finished candidate. In an outcome [None] is a
    panic of the textual rewrite, or fuel that never runs out. *)

From stdpp Require Import base gmap strings list.
From S2P Require Import Prelude Identity VarLimits Action Binary64 Quantity Expression Namespace Rewrite System PluginIds Lock Schema Geometry Document Experiment Validate.

Module EvaluationWork.
Record t : Type := mk { variables : N; properties : N }.
#[global] Instance EvaluationWork_eq_dec : EqDecision t.
Proof. solve_decision. Defined.
Definition default : t := mk 0 0.
End EvaluationWork.

Module CommitReport.
Record t : Type := mk {
  revision : ExperimentRevision.t;
  created_objects : list ObjectId.t;
  removed_objects : list ObjectId.t;
  created_variables : list VariableId.t;
  work : EvaluationWork.t;
  label : string
}.
#[global] Instance CommitReport_eq_dec : EqDecision t.
Proof. solve_decision. Defined.
Definition first_created (r : t) : option ObjectId.t := head (created_objects r).
Definition first_variable (r : t) : option VariableId.t := head (created_variables r).
End CommitReport.

(** A validated candidate; [FoldedEdit] has the same fields and has not been
    checked against the captured setup yet. *)
Module Candidate.
Section candidate.
Context `{Scientific}.
Record t : Type := mk { experiment : Experiment.t; report : CommitReport.t }.
End candidate.
End Candidate.

Module PendingValue.
Record t : Type := mk { path : PropertyPath.t; value : AuthoredValue.t }.
#[global] Instance PendingValue_eq_dec : EqDecision t.
Proof. solve_decision. Defined.
End PendingValue.

Module Batch.
Record t : Type := mk {
  created_objects : list ObjectId.t;
  removed_objects : list ObjectId.t;
  created_variables : list VariableId.t;
  touched : list ComponentPath.t;
  pending : list PendingValue.t;
  changed_names : gset string
}.
Definition default : t := mk [] [] [] [] [] ∅.
Definition create_object (id : ObjectId.t) (b : t) : t :=
  mk (created_objects b ++ [id]) (removed_objects b) (created_variables b) (touched b) (pending b)
    (changed_names b).
Definition remove_object (id : ObjectId.t) (b : t) : t :=
  mk (created_objects b) (removed_objects b ++ [id]) (created_variables b) (touched b) (pending b)
    (changed_names b).
Definition create_variable (id : VariableId.t) (b : t) : t :=
  mk (created_objects b) (removed_objects b) (created_variables b ++ [id]) (touched b) (pending b)
    (changed_names b).
Definition touch (path : ComponentPath.t) (values : list (PropertyName.t * AuthoredValue.t)) (b : t) : t :=
  mk (created_objects b) (removed_objects b) (created_variables b) (touched b ++ [path])
    (pending b ++ ((λ '(name, value), PendingValue.mk (PropertyPath.mk path name) value) <$> values))
    (changed_names b).
Definition change_name (name : string) (b : t) : t :=
  mk (created_objects b) (removed_objects b) (created_variables b) (touched b) (pending b)
    ({[name]} ∪ changed_names b).
End Batch.

(** What the fold threads. *)
Module Edit.
Section edit.
Context `{Scientific}.
Record t : Type := mk { state : ExperimentState.t; counters : Counters.t; batch : Batch.t }.
Definition map_state (f : ExperimentState.t → ExperimentState.t) (e : t) : t :=
  mk (f (state e)) (counters e) (batch e).
Definition map_batch (f : Batch.t → Batch.t) (e : t) : t := mk (state e) (counters e) (f (batch e)).
End edit.
End Edit.

(** [for (_, value) in map.iter_mut() { *value = f(value)?; }]. *)
Fixpoint try_entries {E K V W} (f : K → V → outcome E W) (l : list (K * V)) : outcome E (list (K * W)) :=
  match l with
  | [] => answer (Ok [])
  | (k, v) :: l => w ← f k v; l ← try_entries f l; answer (Ok ((k, w) :: l))
  end.
Definition try_values {E K V W} `{Countable K, Ord K} (f : K → V → outcome E W) (m : gmap K V)
    : outcome E (gmap K W) :=
  l ← try_entries f (btree_entries m); answer (Ok (list_to_map l)).

(** ** Phase 1: structure *)
Section structure.
Context `{Scientific}.

Abbreviation editing := (action Edit.t Rejection.t).
Definition get_edit : editing Edit.t := λ e, Some (Ok (e, e)).
Definition put_edit (f : Edit.t → Edit.t) : editing unit := λ e, Some (Ok ((), f e)).
Definition run_outcome {A} (m : outcome Rejection.t A) : editing A := λ e,
  match m with Some (Ok a) => Some (Ok (a, e)) | Some (Err r) => Some (Err r) | None => None end.

Definition rewritten (source : string) (renames : gmap string string) (name : string)
    : outcome Rejection.t string :=
  match rewrite_symbols source renames with
  | Some (Ok out) => answer (Ok out)
  | Some (Err (Stop.Refused e)) =>
    refuse (Rejection.VariableExpressionTooLong name (LimitError.found e) (LimitError.allowed e))
  | Some (Err Stop.Panicked) | None => None
  end.

Definition check_expression_length (name expression : string) (limits : Limits.t)
    : result Rejection.t unit :=
  if (Limits.max_expression_bytes limits <? str_len expression)%N
  then Err (Rejection.VariableExpressionTooLong name (str_len expression)
              (Limits.max_expression_bytes limits))
  else Ok ().

Definition find_variable (state : ExperimentState.t) (variable : VariableId.t)
    : result Rejection.t Variable_.t :=
  match ExperimentState.variables state !! variable with
  | Some definition => Ok definition
  | None => Err (Rejection.UnknownVariable variable)
  end.
Definition qualified_of (state : ExperimentState.t) (variable : VariableId.t) : result Rejection.t string :=
  definition ← find_variable state variable; Ok (Variable_.qualified_name definition).
Definition find_object (state : ExperimentState.t) (object : ObjectId.t) : result Rejection.t Object_.t :=
  match ExperimentState.objects state !! object with
  | Some contents => Ok contents
  | None => Err (Rejection.UnknownObject object)
  end.

(** [variable_mut] and [object_mut] with the write they are borrowed for. *)
Definition update_variable (variable : VariableId.t) (f : Variable_.t → Variable_.t) : editing unit :=
  e ← get_edit;
  definition ← run_outcome (answer (find_variable (Edit.state e) variable));
  put_edit (Edit.map_state (λ s, ExperimentState.set_variables
    (<[variable := f definition]> (ExperimentState.variables s)) s)).
Definition update_object (object : ObjectId.t) (f : Object_.t → result Rejection.t Object_.t)
    : editing unit :=
  e ← get_edit;
  contents ← run_outcome (answer (find_object (Edit.state e) object));
  contents ← run_outcome (answer (f contents));
  put_edit (Edit.map_state (λ s, ExperimentState.set_objects
    (<[object := contents]> (ExperimentState.objects s)) s)).

Definition name_is_taken (state : ExperimentState.t) (qualified_name : string)
    (except : option VariableId.t) : bool :=
  existsb (λ '(id, definition),
    negb (bool_decide (Some id = except)) && bool_decide (Variable_.qualified_name definition = qualified_name))
    (btree_entries (ExperimentState.variables state)).

Definition check_description (name : result Rejection.t string) (description : option string)
    (limits : Limits.t) : result Rejection.t unit :=
  match description with
  | Some text =>
    if (Limits.max_description_bytes limits <? str_len text)%N
    then name ← name; Err (Rejection.DescriptionTooLong name (str_len text) (Limits.max_description_bytes limits))
    else Ok ()
  | None => Ok ()
  end.

Definition define_variable (spec : VariableSpec.t) (limits : Limits.t) : editing unit :=
  e ← get_edit;
  let qualified_name := VariableSpec.qualified_name spec in
  let variables := ExperimentState.variables (Edit.state e) in
  _ ← run_outcome (answer (check_expression_length qualified_name (VariableSpec.expression spec) limits));
  _ ← run_outcome (answer (check_description (Ok qualified_name) (VariableSpec.description spec) limits));
  if (Limits.max_variables limits <=? N.of_nat (size variables))%N
  then abort (Rejection.TooManyVariables (N.of_nat (size variables) + 1) (Limits.max_variables limits))
  else if name_is_taken (Edit.state e) qualified_name None
  then abort (Rejection.VariableNameTaken qualified_name)
  else
    let '(id, counters) := Counters.next_variable (Edit.counters e) in
    put_edit (λ e, Edit.mk
      (ExperimentState.set_variables
        (<[id := Variable_.mk (VariableSpec.namespace spec) (VariableSpec.name spec)
                   (VariableSpec.expression spec) (VariableSpec.description spec)]> variables) (Edit.state e))
      counters
      (Batch.change_name qualified_name (Batch.create_variable id (Edit.batch e)))).

Definition rename_definition (variable : VariableId.t) (name : Name.t) (renames : gmap string string)
    (new : string) (id : VariableId.t) (definition : Variable_.t) : outcome Rejection.t Variable_.t :=
  if bool_decide (id = variable) then answer (Ok (Variable_.set_name name definition))
  else expression ← rewritten (Variable_.expression definition) renames new;
       answer (Ok (Variable_.set_expression expression definition)).
Definition rename_value (renames : gmap string string) (new : string) (_ : PropertyName.t)
    (value : PropertyValue.t) : outcome Rejection.t PropertyValue.t :=
  match value with
  | PropertyValue.Quantity source display_unit si_value dimension =>
    source ← rewritten source renames new;
    answer (Ok (PropertyValue.Quantity source display_unit si_value dimension))
  | value => answer (Ok value)
  end.
Definition rename_component (renames : gmap string string) (new : string) (_ : ComponentTypeId.t)
    (component : ObjectComponent.t) : outcome Rejection.t ObjectComponent.t :=
  properties ← try_values (rename_value renames new) (ObjectComponent.properties component);
  answer (Ok (ObjectComponent.mk (ObjectComponent.schema_version component) properties)).
Definition rename_object (renames : gmap string string) (new : string) (_ : ObjectId.t)
    (object : Object_.t) : outcome Rejection.t Object_.t :=
  components ← try_values (rename_component renames new) (Object_.components object);
  answer (Ok (Object_.set_components components object)).

Definition rename_variable (variable : VariableId.t) (name : Name.t) : editing unit :=
  e ← get_edit;
  let state := Edit.state e in
  existing ← run_outcome (answer (find_variable state variable));
  let old := Variable_.qualified_name existing in
  let new := FQName.to_string (qualified (Variable_.namespace existing) name) in
  if decide (old = new) then mret ()
  else if name_is_taken state new (Some variable) then abort (Rejection.VariableNameTaken new)
  else
    let renames := {[old := new]} in
    variables ← run_outcome (try_values (rename_definition variable name renames new)
                               (ExperimentState.variables state));
    objects ← run_outcome (try_values (rename_object renames new) (ExperimentState.objects state));
    put_edit (λ e, Edit.mk
      (ExperimentState.set_objects objects (ExperimentState.set_variables variables (Edit.state e)))
      (Edit.counters e)
      (Batch.change_name new (Batch.change_name old (Edit.batch e)))).

Definition installed (schemas : SchemaRegistry.t) (type_id : ComponentTypeId.t)
    : result Rejection.t ComponentSchema.t :=
  match SchemaRegistry.get schemas type_id with
  | Some schema => Ok schema
  | None => Err (Rejection.ComponentTypeNotInstalled type_id)
  end.
Definition empty_component (type_id : ComponentTypeId.t) (schemas : SchemaRegistry.t)
    : result Rejection.t ObjectComponent.t :=
  schema ← installed schemas type_id; Ok (ObjectComponent.mk (ComponentSchema.version schema) ∅).

(** The loop of [CreateObject] over the spec's components. *)
Fixpoint create_components (id : ObjectId.t) (schemas : SchemaRegistry.t)
    (specs : list (ComponentTypeId.t * ComponentProperties))
    (components : gmap ComponentTypeId.t ObjectComponent.t) : editing (gmap ComponentTypeId.t ObjectComponent.t) :=
  match specs with
  | [] => mret components
  | (type_id, properties) :: specs =>
    component ← run_outcome (answer (empty_component type_id schemas));
    _ ← put_edit (Edit.map_batch (Batch.touch (ComponentPath.mk id type_id) (btree_entries properties)));
    create_components id schemas specs (<[type_id := component]> components)
  end.

Definition next_object : editing ObjectId.t := λ e,
  let '(id, counters) := Counters.next_object (Edit.counters e) in
  Some (Ok (id, Edit.mk (Edit.state e) counters (Edit.batch e))).

Definition with_setup (f : Setup.t → result Rejection.t Setup.t) : editing unit :=
  e ← get_edit;
  setup ← run_outcome (answer (f (ExperimentState.setup (Edit.state e))));
  put_edit (Edit.map_state (ExperimentState.set_setup setup)).

Definition apply (command : ExperimentCommand.t) (schemas : SchemaRegistry.t) (limits : Limits.t)
    : editing unit :=
  match command with
  | ExperimentCommand.AdoptDependencies lock =>
    _ ← run_outcome (outcome_map_err (λ e, Rejection.Dependencies (DependencyError.Lock e))
                       (lock_validate lock (Limits.dependencies limits)));
    put_edit (Edit.map_state (ExperimentState.set_dependencies (Some lock)))
  | ExperimentCommand.CreateObject spec =>
    id ← next_object;
    components ← create_components id schemas (btree_entries (ObjectSpec.components spec)) ∅;
    put_edit (λ e, Edit.mk
      (ExperimentState.set_objects
        (<[id := Object_.mk (ObjectSpec.name spec) (ObjectSpec.transform spec) (ObjectSpec.velocity spec)
                   (ObjectSpec.shape spec) components (ObjectSpec.provenance spec)]>
          (ExperimentState.objects (Edit.state e))) (Edit.state e))
      (Edit.counters e) (Batch.create_object id (Edit.batch e)))
  | ExperimentCommand.RemoveObject object =>
    e ← get_edit;
    _ ← run_outcome (answer (find_object (Edit.state e) object));
    put_edit (λ e, Edit.mk
      (ExperimentState.set_objects (delete object (ExperimentState.objects (Edit.state e))) (Edit.state e))
      (Edit.counters e) (Batch.remove_object object (Edit.batch e)))
  | ExperimentCommand.RenameObject object name => update_object object (λ o, Ok (Object_.set_name name o))
  | ExperimentCommand.SetTransform object transform =>
    update_object object (λ o, Ok (Object_.set_transform transform o))
  | ExperimentCommand.SetVelocity object velocity =>
    update_object object (λ o, Ok (Object_.set_velocity velocity o))
  | ExperimentCommand.SetShape object shape => update_object object (λ o, Ok (Object_.set_shape shape o))
  | ExperimentCommand.AttachComponent object component properties =>
    fresh ← run_outcome (answer (empty_component component schemas));
    _ ← update_object object (λ o,
          Ok (Object_.set_components (<[component := fresh]> (Object_.components o)) o));
    put_edit (Edit.map_batch (Batch.touch (ComponentPath.mk object component) (btree_entries properties)))
  | ExperimentCommand.DetachComponent object component =>
    update_object object (λ o,
      match Object_.components o !! component with
      | Some _ => Ok (Object_.set_components (delete component (Object_.components o)) o)
      | None => Err (Rejection.ComponentNotAttached (ComponentPath.mk object component))
      end)
  | ExperimentCommand.SetComponentProperty object component property value =>
    schema ← run_outcome (answer (installed schemas component));
    _ ← update_object object (λ o,
          match Object_.components o !! component with
          | Some attached =>
            let attached := ObjectComponent.mk (ComponentSchema.version schema)
                              (ObjectComponent.properties attached) in
            Ok (Object_.set_components (<[component := attached]> (Object_.components o)) o)
          | None => Err (Rejection.ComponentNotAttached (ComponentPath.mk object component))
          end);
    put_edit (Edit.map_batch (Batch.touch (ComponentPath.mk object component) [(property, value)]))
  | ExperimentCommand.DefineVariable spec => define_variable spec limits
  | ExperimentCommand.SetVariableExpression variable expression =>
    e ← get_edit;
    name ← run_outcome (answer (qualified_of (Edit.state e) variable));
    _ ← run_outcome (answer (check_expression_length name expression limits));
    _ ← update_variable variable (Variable_.set_expression expression);
    put_edit (Edit.map_batch (Batch.change_name name))
  | ExperimentCommand.RenameVariable variable name => rename_variable variable name
  | ExperimentCommand.RemoveVariable variable =>
    e ← get_edit;
    name ← run_outcome (answer (qualified_of (Edit.state e) variable));
    put_edit (λ e, Edit.mk
      (ExperimentState.set_variables (delete variable (ExperimentState.variables (Edit.state e))) (Edit.state e))
      (Edit.counters e) (Batch.change_name name (Edit.batch e)))
  | ExperimentCommand.SetVariableDescription variable description =>
    e ← get_edit;
    _ ← run_outcome (answer (check_description (qualified_of (Edit.state e) variable) description limits));
    update_variable variable (Variable_.set_description description)
  | ExperimentCommand.SetDomain domain =>
    with_setup (λ s,
      match s with
      | Setup.Legacy setup => Ok (Setup.Legacy (LegacySetup.set_domain domain setup))
      | Setup.Captured _ => Err (Rejection.Scientific ScientificError.Reinitialize)
      end)
  | ExperimentCommand.SetTimeStep time_step => with_setup (λ s, Ok (Setup.set_time_step time_step s))
  | ExperimentCommand.SetPluginEnabled plugin enabled =>
    with_setup (λ s,
      match s with
      | Setup.Legacy setup =>
        Ok (Setup.Legacy (LegacySetup.set_plugins
              (snd (PluginComposition.set_enabled plugin enabled (LegacySetup.plugins setup))) setup))
      | Setup.Captured _ => Err (Rejection.Scientific ScientificError.Mismatch)
      end)
  | ExperimentCommand.AdoptScientificSetup setup =>
    put_edit (Edit.map_state (ExperimentState.set_setup (Setup.Captured setup)))
  end.

Fixpoint apply_all (commands : list ExperimentCommand.t) (schemas : SchemaRegistry.t) (limits : Limits.t)
    : editing unit :=
  match commands with
  | [] => mret ()
  | command :: commands => _ ← apply command schemas limits; apply_all commands schemas limits
  end.
End structure.

(** ** Phase 2: evaluation *)
Section evaluation.
Context `{Scientific} `{Unicode} `{Libm}.

(** A source that does not parse names nothing. *)
Definition references_any (source : string) (names : gset string) : bool :=
  match parse source with
  | Some (Ok compiled) => existsb (λ symbol, bool_decide (symbol ∈ names)) (CompiledExpression.variables compiled)
  | _ => false
  end.

(** One pass over the definitions: the set grows as it goes. *)
Definition affect (s : gset string * bool) (definition : Variable_.t) : gset string * bool :=
  let '(affected, grew) := s in
  let name := Variable_.qualified_name definition in
  if bool_decide (name ∈ affected) then s
  else if references_any (Variable_.expression definition) affected
  then ({[name]} ∪ affected, true) else s.
Fixpoint affect_passes (passes : nat) (definitions : list Variable_.t) (affected : gset string) : gset string :=
  match passes with
  | O => affected
  | S passes =>
    let '(affected, grew) := foldl affect (affected, false) definitions in
    if grew : bool then affect_passes passes definitions affected else affected
  end.
Definition affected_names (state : ExperimentState.t) (changed : gset string) (limits : Limits.t)
    : gset string :=
  if bool_decide (changed = ∅) then changed
  else affect_passes (N.to_nat (Limits.max_variables limits)) (btree_values (ExperimentState.variables state)) changed.

Definition variable_error (name : string) (error : VariablesError.t) : Rejection.t :=
  match error with
  | VariablesError.Parsing source => Rejection.VariableInvalid name source
  | VariablesError.Eval source => Rejection.VariableUnresolved name source
  | VariablesError.Limit error => Rejection.VariableUnresolved name (ExprEvalError.Limit error)
  | VariablesError.ShadowsUnit unit => Rejection.VariableShadowsUnit (Name.as_str unit)
  | VariablesError.DuplicateName _ _ => Rejection.VariableNameTaken name
  | VariablesError.InvalidName _ | VariablesError.UnknownHandle =>
    Rejection.VariableUnresolved name (ExprEvalError.UnknownVariable name)
  end.

(** One definition of the document, compiled into the system. *)
Definition define_one (definition : Variable_.t) (system : VariablesSystem.t)
    : outcome Rejection.t (System.VariableId.t * VariablesSystem.t) :=
  let name := Variable_.qualified_name definition in
  match parse (Variable_.expression definition) with
  | None => None
  | Some (Err source) => refuse (Rejection.VariableInvalid name source)
  | Some (Ok compiled) =>
    match VariablesSystem.define system (Variable_.namespace definition) (Variable_.name definition)
            compiled VariableOptions.default with
    | (Ok handle, system) => answer (Ok (handle, system))
    | (Err error, _) => refuse (variable_error name error)
    end
  end.

Fixpoint define_all (definitions : list Variable_.t) (affected : gset string) (system : VariablesSystem.t)
    (handles : list (string * System.VariableId.t))
    : outcome Rejection.t (VariablesSystem.t * list (string * System.VariableId.t)) :=
  match definitions with
  | [] => answer (Ok (system, handles))
  | definition :: definitions =>
    '(handle, system) ← define_one definition system;
    let name := Variable_.qualified_name definition in
    define_all definitions affected system
      (if bool_decide (name ∈ affected) then handles ++ [(name, handle)] else handles)
  end.

Definition value_of (name : string) (handle : System.VariableId.t) (system : VariablesSystem.t)
    : outcome Rejection.t (Quantity.t * VariablesSystem.t) :=
  match value system handle with
  | None => None
  | Some (Ok q, system) => answer (Ok (q, system))
  | Some (Err error, _) => refuse (variable_error name error)
  end.
Fixpoint prove_all (handles : list (string * System.VariableId.t)) (system : VariablesSystem.t)
    : outcome Rejection.t VariablesSystem.t :=
  match handles with
  | [] => answer (Ok system)
  | (name, handle) :: handles => '(_, system) ← value_of name handle system; prove_all handles system
  end.

Definition compile_variables (state : ExperimentState.t) (affected : gset string) (limits : Limits.t)
    : outcome Rejection.t (VariablesSystem.t * N) :=
  let variables := ExperimentState.variables state in
  if (Limits.max_variables limits <? N.of_nat (size variables))%N
  then refuse (Rejection.TooManyVariables (N.of_nat (size variables)) (Limits.max_variables limits))
  else
    '(system, handles) ← define_all (btree_values variables) affected VariablesSystem.default [];
    system ← prove_all handles system;
    answer (Ok (system, lenN handles)).

Definition all_names (state : ExperimentState.t) : gset string :=
  list_to_set (Variable_.qualified_name <$> btree_values (ExperimentState.variables state)).
Definition compile_document_variables (state : ExperimentState.t) (limits : Limits.t)
    : outcome Rejection.t VariablesSystem.t :=
  '(system, _) ← compile_variables state (all_names state) limits; answer (Ok system).

(** Every stored value, with its source and the authored value it came from. *)
Definition stored_values (state : ExperimentState.t)
    : list (PropertyPath.t * option string * AuthoredValue.t) :=
  attached (ExperimentState.objects state) ≫= λ '(path, component),
    (λ '(property, value),
       (PropertyPath.mk path property, PropertyValue.source value, PropertyValue.authored value))
      <$> btree_entries (ObjectComponent.properties component).

Definition property_schema (schemas : SchemaRegistry.t) (path : PropertyPath.t)
    : result Rejection.t PropertySchema.t :=
  let component := ComponentPath.component (PropertyPath.component path) in
  match SchemaRegistry.get schemas component with
  | None => Err (Rejection.ComponentTypeNotInstalled component)
  | Some schema =>
    match ComponentSchema.properties schema !! PropertyPath.property path with
    | None => Err (Rejection.PropertyNotDeclared path)
    | Some schema => Ok schema
    end
  end.
Definition resolve_authored (path : PropertyPath.t) (value : AuthoredValue.t) (schemas : SchemaRegistry.t)
    (variables : VariablesSystem.t) (limits : Limits.t) : outcome Rejection.t PropertyValue.t :=
  schema ← answer (property_schema schemas path);
  resolve_property path schema value variables limits.

Definition path_exists (state : ExperimentState.t) (path : PropertyPath.t) : bool :=
  bool_decide (is_Some (component_at state (PropertyPath.component path))).
Definition write_value (property : PropertyName.t) (value : PropertyValue.t) (c : ObjectComponent.t)
    : ObjectComponent.t :=
  ObjectComponent.mk (ObjectComponent.schema_version c) (<[property := value]> (ObjectComponent.properties c)).
Definition write_property (state : ExperimentState.t) (write : PropertyPath.t * PropertyValue.t)
    : ExperimentState.t :=
  let '(path, value) := write in
  let component := PropertyPath.component path in
  ExperimentState.set_objects
    (alter (λ object, Object_.set_components
       (alter (write_value (PropertyPath.property path) value) (ComponentPath.component component)
          (Object_.components object)) object)
       (ComponentPath.object component) (ExperimentState.objects state)) state.

(** What the batch authored, priced. *)
Fixpoint price_pending (state : ExperimentState.t) (pending : list PendingValue.t)
    (schemas : SchemaRegistry.t) (variables : VariablesSystem.t) (limits : Limits.t)
    : outcome Rejection.t (list (PropertyPath.t * PropertyValue.t)) :=
  match pending with
  | [] => answer (Ok [])
  | PendingValue.mk path value :: pending =>
    if negb (path_exists state path) then price_pending state pending schemas variables limits
    else
      value ← resolve_authored path value schemas variables limits;
      rest ← price_pending state pending schemas variables limits;
      answer (Ok ((path, value) :: rest))
  end.

(** What is stored and the batch disturbed, priced again. *)
Definition disturbed (touched : list ComponentPath.t) (affected : gset string)
    (stored : PropertyPath.t * option string * AuthoredValue.t) : bool :=
  let '(path, source, _) := stored in
  bool_decide (PropertyPath.component path ∈ touched)
  || match source with Some text => references_any text affected | None => false end.
Fixpoint price_stored (stored : list (PropertyPath.t * option string * AuthoredValue.t))
    (batch : Batch.t) (affected : gset string) (schemas : SchemaRegistry.t) (variables : VariablesSystem.t)
    (limits : Limits.t) : outcome Rejection.t (list (PropertyPath.t * PropertyValue.t)) :=
  match stored with
  | [] => answer (Ok [])
  | (path, source, value) as entry :: stored =>
    if bool_decide (path ∈ (PendingValue.path <$> Batch.pending batch))
       || negb (disturbed (Batch.touched batch) affected entry)
    then price_stored stored batch affected schemas variables limits
    else
      value ← resolve_authored path value schemas variables limits;
      rest ← price_stored stored batch affected schemas variables limits;
      answer (Ok ((path, value) :: rest))
  end.

Definition evaluate (state : ExperimentState.t) (batch : Batch.t) (schemas : SchemaRegistry.t)
    (limits : Limits.t) : outcome Rejection.t (ExperimentState.t * EvaluationWork.t) :=
  let affected := affected_names state (Batch.changed_names batch) limits in
  '(variables, evaluated) ← compile_variables state affected limits;
  authored ← price_pending state (Batch.pending batch) schemas variables limits;
  repriced ← (if bool_decide (affected = ∅) && bool_decide (Batch.touched batch = [])
              then answer (Ok [])
              else price_stored (stored_values state) batch affected schemas variables limits);
  let resolved := authored ++ repriced in
  answer (Ok (foldl write_property state resolved, EvaluationWork.mk evaluated (lenN resolved))).
End evaluation.

(** ** The candidate *)

(** [ScientificSetup::validate_candidate]: the captured configuration and history
    against the finished contents. *)
Class ScientificValidation `{Scientific} : Type :=
  validate_candidate : ScientificSetup → ExperimentState.t → VariablesSystem.t → Limits.t →
    result ScientificError.t unit.

Section update.
Context `{ScientificValidation} `{Unicode} `{Libm}.

Definition validate_scientific (state : ExperimentState.t) (limits : Limits.t) : outcome Rejection.t unit :=
  match Setup.scientific (ExperimentState.setup state) with
  | None => answer (Ok ())
  | Some setup =>
    variables ← compile_document_variables state limits;
    answer (result_map_err Rejection.Scientific (validate_candidate setup state variables limits))
  end.

Definition fold_against (experiment : Experiment.t) (commands : list ExperimentCommand.t)
    (schemas : SchemaRegistry.t) (limits : Limits.t) (replacement : option SelectionDescriptor.t)
    : outcome Rejection.t Candidate.t :=
  if (Limits.max_commands_per_batch limits <? lenN commands)%N
  then refuse (Rejection.BatchTooLarge (lenN commands) (Limits.max_commands_per_batch limits))
  else
    let start := Edit.mk (Experiment.state experiment) (Experiment.counters experiment) Batch.default in
    '(_, edit) ← (apply_all commands schemas limits start : outcome Rejection.t (unit * Edit.t));
    let batch := Edit.batch edit in
    '(state, work) ← evaluate (Edit.state edit) batch schemas limits;
    _ ← validate_structure_against state limits replacement;
    _ ← answer (validate_governed state (Batch.touched batch) schemas);
    let revision := ExperimentRevision.next (Experiment.revision experiment) in
    answer (Ok (Candidate.mk
      (Experiment.mk (ExperimentState.set_revision revision state) (Edit.counters edit))
      (CommitReport.mk revision (Batch.created_objects batch) (Batch.removed_objects batch)
         (Batch.created_variables batch) work (ExperimentCommand.batch_label commands)))).

Definition fold (experiment : Experiment.t) (commands : list ExperimentCommand.t)
    (schemas : SchemaRegistry.t) (limits : Limits.t) : outcome Rejection.t Candidate.t :=
  fold_against experiment commands schemas limits None.

Definition update (experiment : Experiment.t) (commands : list ExperimentCommand.t)
    (schemas : SchemaRegistry.t) (limits : Limits.t) : outcome Rejection.t Candidate.t :=
  candidate ← fold experiment commands schemas limits;
  _ ← validate_scientific (Experiment.state (Candidate.experiment candidate)) limits;
  answer (Ok candidate).

Definition restore (experiment : Experiment.t) (checkpoint : ExperimentState.t)
    (schemas : SchemaRegistry.t) (limits : Limits.t) : outcome Rejection.t Candidate.t :=
  _ ← validate_structure checkpoint limits;
  _ ← answer (validate_restorable checkpoint schemas);
  _ ← validate_scientific checkpoint limits;
  let revision := ExperimentRevision.next (Experiment.revision experiment) in
  answer (Ok (Candidate.mk
    (Experiment.mk (ExperimentState.set_revision revision checkpoint) (Experiment.counters experiment))
    (CommitReport.mk revision [] [] [] EvaluationWork.default "Restore experiment"))).

(** ** What other crates read *)
Fixpoint resolve_definitions (definitions : list Variable_.t) (system : VariablesSystem.t)
    (values : gmap string f64) : outcome Rejection.t (gmap string f64) :=
  match definitions with
  | [] => answer (Ok values)
  | definition :: definitions =>
    let name := Variable_.qualified_name definition in
    match VariablesSystem.lookup_name system
            (FQName.new (Variable_.namespace definition) (Variable_.name definition)) with
    | None => None
    | Some handle =>
      '(q, system) ← value_of name handle system;
      resolve_definitions definitions system (<[name := Quantity.magnitude q]> values)
    end
  end.
Definition resolve_variables (snapshot : ExperimentState.t) (limits : Limits.t)
    : outcome Rejection.t (gmap string f64) :=
  system ← compile_document_variables snapshot limits;
  resolve_definitions (btree_values (ExperimentState.variables snapshot)) system ∅.

Definition variable_context (snapshot : ExperimentState.t) (limits : Limits.t)
    : outcome Rejection.t VariablesSystem.t :=
  let variables := ExperimentState.variables snapshot in
  if (Limits.max_variables limits <? N.of_nat (size variables))%N
  then refuse (Rejection.TooManyVariables (N.of_nat (size variables)) (Limits.max_variables limits))
  else
    _ ← answer (try_for_each (λ definition,
          check_expression_length (Variable_.qualified_name definition) (Variable_.expression definition) limits)
          (btree_values variables));
    compile_document_variables snapshot limits.
End update.

(** ** Concrete instances, for evaluating the definitions *)
Definition plain_validation : ScientificValidation (H := plain) := λ _ _ _ _, Ok ().
