(* ===== verification/History.v ===== *)
(** * Undo and redo (kagami-document, history.rs)

    A bounded history of captured experiments on both sides of the present, the
    coalescing of the commits of one gesture, and the timeline it keeps. *)

From stdpp Require Import base gmap strings list.
From S2P Require Import Prelude Identity Namespace Document Experiment.

Module GestureId.
Record t : Type := new { get : N }.
#[global] Instance GestureId_eq_dec : EqDecision t.
Proof. solve_decision. Defined.
End GestureId.

Module Restoration.
Section restoration.
Context `{Scientific}.
Record t : Type := mk { checkpoint : ExperimentState.t; label : string }.
End restoration.
End Restoration.

Module Entry.
Section entry.
Context `{Scientific}.
Record t : Type := mk { checkpoint : ExperimentState.t; label : string; gesture : option GestureId.t }.
End entry.
End Entry.

(** The back of each deque is the head of its list, so dropping from the front
    until [depth] are left is [take depth]. *)
Module EditHistory.
Section history.
Context `{Scientific}.
Record t : Type := mk { undo_entries : list Entry.t; redo_entries : list Entry.t; depth : N }.

Definition new (depth : N) : t := mk [] [] (N.max depth 1).
Definition default : t := new (Limits.max_undo_depth Limits.DEFAULT).
Definition bounded (h : t) (entries : list Entry.t) : list Entry.t := takeN (depth h) entries.

Definition record (checkpoint : ExperimentState.t) (label : string) (gesture : option GestureId.t) (h : t) : t :=
  let joins :=
    match gesture, undo_entries h with
    | Some _, top :: _ => bool_decide (Entry.gesture top = gesture)
    | _, _ => false
    end in
  if joins then h
  else mk (bounded h (Entry.mk checkpoint label gesture :: undo_entries h)) [] (depth h).

Definition undo (current : ExperimentState.t) (h : t) : option (Restoration.t * t) :=
  match undo_entries h with
  | [] => None
  | entry :: undo_entries =>
    Some (Restoration.mk (Entry.checkpoint entry) (Entry.label entry),
          mk undo_entries
            (bounded h (Entry.mk current (Entry.label entry) (Entry.gesture entry) :: redo_entries h)) (depth h))
  end.
Definition redo (current : ExperimentState.t) (h : t) : option (Restoration.t * t) :=
  match redo_entries h with
  | [] => None
  | entry :: redo_entries =>
    Some (Restoration.mk (Entry.checkpoint entry) (Entry.label entry),
          mk (bounded h (Entry.mk current (Entry.label entry) (Entry.gesture entry) :: undo_entries h))
            redo_entries (depth h))
  end.

Definition can_undo (h : t) : bool := negb (bool_decide (undo_entries h = [])).
Definition can_redo (h : t) : bool := negb (bool_decide (redo_entries h = [])).
Definition undo_label (h : t) : option string := Entry.label <$> head (undo_entries h).
Definition redo_label (h : t) : option string := Entry.label <$> head (redo_entries h).
Definition len (h : t) : N := lenN (undo_entries h).
Definition is_empty (h : t) : bool := bool_decide (undo_entries h = []).
Definition clear (h : t) : t := mk [] [] (depth h).
(** Oldest first on the undo side, then the redo side. *)
Definition snapshots (h : t) : list ExperimentState.t :=
  Entry.checkpoint <$> reverse (undo_entries h) ++ reverse (redo_entries h).
Definition scientific_setups (h : t) : list ScientificSetup :=
  omap (λ s, Setup.scientific (ExperimentState.setup s)) (snapshots h).
End history.
End EditHistory.

(** ** The timeline

    What a history and the present describe: the contents before, oldest first,
    the present, and the contents after. Restoring gives contents a new revision,
    so the timeline forgets it. *)
Section timeline.
Context `{Scientific}.
Implicit Types h : EditHistory.t.
Import EditHistory.

Definition contents (s : ExperimentState.t) : ExperimentState.t :=
  ExperimentState.set_revision ExperimentRevision.INITIAL s.
Definition entry_contents (e : Entry.t) : ExperimentState.t := contents (Entry.checkpoint e).
Definition past h : list ExperimentState.t := entry_contents <$> reverse (undo_entries h).
Definition future h : list ExperimentState.t := entry_contents <$> redo_entries h.
Definition timeline h (current : ExperimentState.t) : list ExperimentState.t :=
  past h ++ contents current :: future h.
Definition position h : nat := length (undo_entries h).

(** Undo and redo trade one entry for another, so the trimming of the side they
    push to never drops one. *)
Definition within_depth h : Prop := (lenN (undo_entries h) + lenN (redo_entries h) ≤ depth h)%N.

Lemma bounded_all h l : (lenN l ≤ depth h)%N → bounded h l = l.
Proof. intros Hl. unfold bounded. rewrite takeN_take. apply take_ge. unfold lenN in Hl. lia. Qed.

Lemma record_within checkpoint label gesture h : within_depth h → within_depth (record checkpoint label gesture h).
Proof.
  unfold record, within_depth. intros Hh. set (joins := match gesture with Some _ => _ | None => _ end).
  destruct joins; [done|]. cbn [undo_entries redo_entries depth]. unfold bounded.
  etrans; [|apply (lenN_takeN_le (depth h) (Entry.mk checkpoint label gesture :: undo_entries h))].
  change (lenN []) with 0%N. by rewrite N.add_0_r.
Qed.
Lemma undo_within current h r h' : within_depth h → undo current h = Some (r, h') →
  within_depth h' ∧ ∃ e, undo_entries h = e :: undo_entries h' ∧ depth h' = depth h
    ∧ r = Restoration.mk (Entry.checkpoint e) (Entry.label e)
    ∧ redo_entries h' = Entry.mk current (Entry.label e) (Entry.gesture e) :: redo_entries h.
Proof.
  unfold undo, within_depth. intros Hh.
  destruct (undo_entries h) as [|e es] eqn:Hu; [done|].
  rewrite bounded_all by (rewrite lenN_cons in *; lia). intros [= <- <-].
  cbn [undo_entries redo_entries depth]. rewrite lenN_cons in *. split; [lia|]. exists e. done.
Qed.
Lemma redo_within current h r h' : within_depth h → redo current h = Some (r, h') →
  within_depth h' ∧ ∃ e, redo_entries h = e :: redo_entries h' ∧ depth h' = depth h
    ∧ r = Restoration.mk (Entry.checkpoint e) (Entry.label e)
    ∧ undo_entries h' = Entry.mk current (Entry.label e) (Entry.gesture e) :: undo_entries h.
Proof.
  unfold redo, within_depth. intros Hh.
  destruct (redo_entries h) as [|e es] eqn:Hu; [done|].
  rewrite bounded_all by (rewrite lenN_cons in *; lia). intros [= <- <-].
  cbn [undo_entries redo_entries depth]. rewrite lenN_cons in *. split; [lia|]. exists e. done.
Qed.

(** Every history the operations can make. *)
Inductive made : EditHistory.t → Prop :=
  | made_new depth : made (new depth)
  | made_record checkpoint label gesture h : made h → made (record checkpoint label gesture h)
  | made_undo current h r h' : made h → undo current h = Some (r, h') → made h'
  | made_redo current h r h' : made h → redo current h = Some (r, h') → made h'
  | made_clear h : made h → made (clear h).
Lemma made_within h : made h → within_depth h.
Proof.
  induction 1 as [d|c l g h _ IH|c h r h' _ IH Hu|c h r h' _ IH Hr|h _ IH].
  - apply N.le_0_l.
  - by apply record_within.
  - by apply (undo_within c h r h').
  - by apply (redo_within c h r h').
  - apply N.le_0_l.
Qed.
Lemma made_depth h : made h → (1 ≤ depth h)%N.
Proof.
  induction 1 as [d|c l g h _ IH|c h r h' Hm IH Hu|c h r h' Hm IH Hr|h _ IH].
  - cbn. lia.
  - unfold record. by destruct (match g with Some _ => _ | None => _ end).
  - apply undo_within in Hu as (_ & e & _ & -> & _); [done|by apply made_within].
  - apply redo_within in Hr as (_ & e & _ & -> & _); [done|by apply made_within].
  - done.
Qed.

Lemma timeline_cons_undo h e es current :
  undo_entries h = e :: es →
  timeline h current = (entry_contents <$> reverse es) ++ entry_contents e :: contents current :: future h.
Proof.
  intros Hu. unfold timeline, past. rewrite Hu, reverse_cons, fmap_app. cbn. by rewrite <- app_assoc.
Qed.

(** Undo and redo are moves along one timeline. In every history the
    operations can make, undoing hands back the contents just before the present
    and, whatever contents-equal present is then adopted, leaves the timeline as
    it was with the present one step earlier; redoing is the same one step
    later; redoing what was undone restores the history itself; and both sides
    together never hold more than [depth] entries, so neither loses one. *)
Theorem history_timeline h current (Hmade : made h) :
  (lenN (undo_entries h) + lenN (redo_entries h) ≤ depth h)%N
  ∧ (∀ r h', undo current h = Some (r, h') →
       position h = S (position h')
       ∧ timeline h current !! position h' = Some (contents (Restoration.checkpoint r))
       ∧ (∀ current', contents current' = contents (Restoration.checkpoint r) →
            timeline h' current' = timeline h current)
       ∧ redo (Restoration.checkpoint r) h' = Some (Restoration.mk current (Restoration.label r), h))
  ∧ (∀ r h', redo current h = Some (r, h') →
       position h' = S (position h)
       ∧ timeline h current !! position h' = Some (contents (Restoration.checkpoint r))
       ∧ (∀ current', contents current' = contents (Restoration.checkpoint r) →
            timeline h' current' = timeline h current)
       ∧ undo (Restoration.checkpoint r) h' = Some (Restoration.mk current (Restoration.label r), h))
  ∧ (undo current h = None ↔ position h = 0).
Proof.
  pose proof (made_within _ Hmade) as Hw. split; [done|]. split; [|split].
  - intros r h' Hu. destruct (undo_within _ _ _ _ Hw Hu) as (Hw' & e & Hes & Hd & -> & Hr).
    unfold position. rewrite Hes. split; [done|]. cbn [Restoration.checkpoint Restoration.label].
    rewrite (timeline_cons_undo h e _ current Hes). split_and!.
    + rewrite lookup_app_r; rewrite length_fmap, length_reverse; [|done]. by rewrite Nat.sub_diag.
    + intros current' Hc. unfold timeline, past, future. by rewrite Hr, Hc.
    + unfold redo. rewrite Hr. rewrite bounded_all by (unfold within_depth in Hw; rewrite Hes in Hw; rewrite lenN_cons in *; lia).
      destruct h, h'. cbn in *. subst. by destruct e.
  - intros r h' Hu. destruct (redo_within _ _ _ _ Hw Hu) as (Hw' & e & Hes & Hd & -> & Hr).
    unfold position. rewrite Hr. split; [done|]. cbn [Restoration.checkpoint Restoration.label].
    split_and!.
    + unfold timeline, past, future. rewrite Hes. cbn [length fmap list_fmap].
      rewrite lookup_app_r; rewrite length_fmap, length_reverse; [|lia].
      by replace (S _ - _) with 1 by lia.
    + intros current' Hc. rewrite (timeline_cons_undo h' _ _ current' Hr). unfold timeline, past, future.
      by rewrite Hes, Hc.
    + unfold undo. rewrite Hr. rewrite bounded_all by (unfold within_depth in Hw; rewrite Hes in Hw; rewrite lenN_cons in *; lia).
      destruct h, h'. cbn in *. subst. by destruct e.
  - unfold undo, position. by destruct (undo_entries h).
Qed.

(** An edit recorded outside a gesture, or as its first commit, puts the
    contents it replaced just before the present, discards what was undone, and
    keeps the newest [depth] entries; a later commit of the open gesture
    changes nothing. *)
Theorem record_branches h checkpoint label gesture :
  let h' := record checkpoint label gesture h in
  let open := Entry.gesture <$> head (undo_entries h) in
  (gesture ≠ None ∧ open = Some gesture → h' = h)
  ∧ (gesture = None ∨ open ≠ Some gesture →
       future h' = [] ∧ depth h' = depth h
       ∧ past h' = drop (S (position h) - N.to_nat (depth h)) (past h ++ [contents checkpoint])).
Proof.
  cbn zeta. unfold record. set (joins := match gesture with Some _ => _ | None => _ end).
  split.
  - intros [Hg Hopen]. assert (joins = true) as ->; [|done]. subst joins.
    destruct gesture, (undo_entries h) as [|top es]; try done. cbn in Hopen.
    apply bool_decide_eq_true_2. congruence.
  - intros Hno. assert (joins = false) as ->.
    { subst joins. destruct gesture as [g|]; [|done]. destruct (undo_entries h) as [|top es]; [done|].
      apply bool_decide_eq_false_2. intros Heq. destruct Hno as [|Hno]; [done|]. by rewrite <- Heq in Hno. }
    split_and!; [done..|]. unfold past, bounded. cbn [undo_entries].
    rewrite takeN_take, reverse_take, reverse_cons, fmap_drop, fmap_app. done.
Qed.
End timeline.

(** ** A sample history *)
Module HistorySample.
#[local] Existing Instance plain.
#[local] Open Scope N_scope.

(** Three states of an experiment, told apart by their variables. *)
Definition at_ (source : string) : ExperimentState.t :=
  ExperimentState.set_variables
    {[VariableId.from_raw 0 := Variable_.mk (Namespace.new "") (Name.mk "g") source None]} ExperimentState.empty.
Definition edited : EditHistory.t :=
  EditHistory.record (at_ "2") "Edit variable" (Some (GestureId.new 7))
    (EditHistory.record (at_ "1") "Define variable" None (EditHistory.new 2)).

Lemma history_timeline_witness :
  made edited
  ∧ timeline edited (at_ "3") = [contents (at_ "1"); contents (at_ "2"); contents (at_ "3")]
  ∧ ∃ r h', EditHistory.undo (at_ "3") edited = Some (r, h')
      ∧ timeline edited (at_ "3") !! position h' = Some (contents (Restoration.checkpoint r)).
Proof.
  assert (made edited) as Hmade by (apply made_record, made_record, made_new).
  split; [exact Hmade|]. split; [reflexivity|].
  destruct (history_timeline edited (at_ "3") Hmade) as (_ & Hundo & _).
  eexists _, _. split; [reflexivity|]. apply Hundo. reflexivity.
Defined.
End HistorySample.
