(* ===== verification/Hydrate.v ===== *)
(** * Loading a document (kagami-document, hydrate.rs)

    An experiment rebuilt from its persisted records: identities within the
    counters, every definition evaluated, every value priced where a schema
    declares it and kept unpriced where none does. *)

From stdpp Require Import base gmap strings list.
From S2P Require Import Prelude Identity Binary64 Quantity Expression Namespace System PluginIds Lock Schema Geometry Document Experiment Validate Edit.

Module ComponentRecord.
Record t : Type := mk { schema_version : N; properties : gmap PropertyName.t AuthoredValue.t }.
End ComponentRecord.
Module ObjectRecord.
Record t : Type := mk {
  id : N;
  name : DisplayName.t;
  transform : Transform.t;
  velocity : Velocity.t;
  shape : option ObjectShape.t;
  components : gmap ComponentTypeId.t ComponentRecord.t;
  provenance : option TemplateProvenance.t
}.
End ObjectRecord.
Module VariableRecord.
Record t : Type := mk {
  id : N;
  namespace : Namespace.t;
  name : Name.t;
  expression : string;
  description : option string
}.
End VariableRecord.
Module DocumentRecord.
Section document.
Context `{Scientific}.
Record t : Type := mk {
  objects_minted : N;
  variables_minted : N;
  objects : list ObjectRecord.t;
  variables : list VariableRecord.t;
  setup : Setup.t
}.
Definition counters (r : t) : Counters.t := Counters.restored (objects_minted r) (variables_minted r).
End document.
End DocumentRecord.

Section hydrate.
Context `{ScientificValidation} `{Unicode} `{Libm}.

Definition hydrate_variable (counters : Counters.t) (limits : Limits.t)
    (definition : VariableRecord.t) (variables : gmap VariableId.t Variable_.t)
    : result Rejection.t (gmap VariableId.t Variable_.t) :=
  match Counters.restored_variable counters (VariableRecord.id definition) with
  | None => Err (Rejection.UnallocatedIdentity "variable" (VariableRecord.id definition))
  | Some id =>
    if contains_key id variables
    then Err (Rejection.DuplicateIdentity "variable" (VariableRecord.id definition))
    else
      let value := Variable_.mk (VariableRecord.namespace definition) (VariableRecord.name definition)
                     (VariableRecord.expression definition) (VariableRecord.description definition) in
      _ ← check_expression_length (Variable_.qualified_name value) (Variable_.expression value) limits;
      _ ← check_description (Ok (Variable_.qualified_name value)) (Variable_.description value) limits;
      Ok (<[id := value]> variables)
  end.
Fixpoint hydrate_definitions (counters : Counters.t) (limits : Limits.t)
    (definitions : list VariableRecord.t) (variables : gmap VariableId.t Variable_.t)
    : result Rejection.t (gmap VariableId.t Variable_.t) :=
  match definitions with
  | [] => Ok variables
  | definition :: definitions =>
    variables ← hydrate_variable counters limits definition variables;
    hydrate_definitions counters limits definitions variables
  end.
Definition hydrate_variables (record : DocumentRecord.t) (limits : Limits.t)
    : result Rejection.t (gmap VariableId.t Variable_.t) :=
  let found := lenN (DocumentRecord.variables record) in
  if (Limits.max_variables limits <? found)%N
  then Err (Rejection.TooManyVariables found (Limits.max_variables limits))
  else hydrate_definitions (DocumentRecord.counters record) limits (DocumentRecord.variables record) ∅.

Definition declared (schemas : SchemaRegistry.t) (path : PropertyPath.t) : option PropertySchema.t :=
  SchemaRegistry.get schemas (ComponentPath.component (PropertyPath.component path)) ≫= λ schema,
  ComponentSchema.properties schema !! PropertyPath.property path.
Definition hydrate_value (path : PropertyPath.t) (authored : AuthoredValue.t) (schemas : SchemaRegistry.t)
    (variables : VariablesSystem.t) (limits : Limits.t) : outcome Rejection.t PropertyValue.t :=
  match declared schemas path with
  | Some schema => resolve_property path schema authored variables limits
  | None =>
    answer (Ok (match authored with
      | AuthoredValue.Quantity expression unit =>
        PropertyValue.Unresolved expression (Unit.symbol <$> unit)
      | AuthoredValue.Boolean value => PropertyValue.Boolean value
      | AuthoredValue.Text value => PropertyValue.Text value
      end))
  end.

Definition hydrate_component (id : ObjectId.t) (schemas : SchemaRegistry.t) (variables : VariablesSystem.t)
    (limits : Limits.t) (type_id : ComponentTypeId.t) (component : ComponentRecord.t)
    : outcome Rejection.t ObjectComponent.t :=
  properties ← try_values (λ property authored,
    hydrate_value (PropertyPath.new id type_id property) authored schemas variables limits)
    (ComponentRecord.properties component);
  answer (Ok (ObjectComponent.mk (ComponentRecord.schema_version component) properties)).

Fixpoint hydrate_objects (counters : Counters.t) (schemas : SchemaRegistry.t) (variables : VariablesSystem.t)
    (limits : Limits.t) (records : list ObjectRecord.t) (objects : gmap ObjectId.t Object_.t)
    : outcome Rejection.t (gmap ObjectId.t Object_.t) :=
  match records with
  | [] => answer (Ok objects)
  | object :: records =>
    match Counters.restored_object counters (ObjectRecord.id object) with
    | None => refuse (Rejection.UnallocatedIdentity "object" (ObjectRecord.id object))
    | Some id =>
      if contains_key id objects
      then refuse (Rejection.DuplicateIdentity "object" (ObjectRecord.id object))
      else
        components ← try_values (hydrate_component id schemas variables limits) (ObjectRecord.components object);
        hydrate_objects counters schemas variables limits records
          (<[id := Object_.mk (ObjectRecord.name object) (ObjectRecord.transform object)
                     (ObjectRecord.velocity object) (ObjectRecord.shape object) components
                     (ObjectRecord.provenance object)]> objects)
    end
  end.

Definition hydrate_with_dependencies (record : DocumentRecord.t) (dependencies : option SelectionLock.t)
    (schemas : SchemaRegistry.t) (limits : Limits.t) : outcome Rejection.t Experiment.t :=
  _ ← (match dependencies with
       | Some lock => outcome_map_err (λ e, Rejection.Dependencies (DependencyError.Lock e))
                        (lock_validate lock (Limits.dependencies limits))
       | None => answer (Ok ())
       end);
  let counters := DocumentRecord.counters record in
  variables ← answer (hydrate_variables record limits);
  let state := ExperimentState.mk ExperimentRevision.INITIAL ∅ variables (DocumentRecord.setup record)
                 dependencies in
  system ← compile_document_variables state limits;
  objects ← hydrate_objects counters schemas system limits (DocumentRecord.objects record) ∅;
  let state := ExperimentState.set_objects objects state in
  _ ← validate_structure state limits;
  _ ← validate_scientific state limits;
  answer (Ok (Experiment.mk state counters)).

Definition hydrate (record : DocumentRecord.t) (schemas : SchemaRegistry.t) (limits : Limits.t)
    : outcome Rejection.t Experiment.t :=
  hydrate_with_dependencies record None schemas limits.
End hydrate.
