(* ===== verification/Follow.v ===== *)
(** * What a rename does to a stored source (kagami-document, update.rs)

    A rewrite keeps the text well encoded, leaves a source that does not use the
    old name as it was, and makes one that does refer to the new name. *)

From Stdlib Require Import Ascii.
From stdpp Require Import base gmap strings list.
From S2P Require Import Prelude Identity VarLimits Action Binary64 Quantity Expression Grammar Namespace Rewrite Evaluation Validate Edit.

(** ** Encoding *)
Lemma utf8_concat need a b :
  utf8_from need a = true → utf8_from 0 b = true → utf8_from need (a ++ b) = true.
Proof.
  intros Ha Hb. revert need Ha. induction a as [|c a IH]; intros need Ha.
  { cbn in Ha. apply bool_decide_eq_true in Ha as ->. done. }
  cbn in Ha |- *. destruct need as [|need].
  - repeat (destruct (_ <? _)%N; [by try apply IH|]). done.
  - apply andb_true_iff in Ha as [-> Ha]. by apply IH.
Qed.
Lemma utf8_cut n : ∀ need bs, utf8_from need bs = true → is_char_boundary (drop n bs) = true →
  utf8_from need (take n bs) = true ∧ utf8_from 0 (drop n bs) = true.
Proof.
  induction n as [|n IH]; intros need bs Hu Hb.
  - destruct need as [|need]; [done|]. destruct bs as [|c bs]; [done|]. cbn in Hu, Hb.
    apply andb_true_iff in Hu as [Hu _]. by rewrite Hu in Hb.
  - destruct bs as [|c bs]; [done|]. cbn in Hu, Hb |- *. destruct need as [|need].
    + repeat (destruct (_ <? _)%N; [by try apply IH|]). done.
    + apply andb_true_iff in Hu as [-> Hu]. by apply IH.
Qed.

Definition utf8_renames (renames : gmap string string) : Prop := map_Forall (λ _ name, utf8 name) renames.

Lemma slice_or_panic_ok rest n text : slice_or_panic rest n = Ok text →
  text = take n rest ∧ is_char_boundary (drop n rest) = true.
Proof.
  unfold slice_or_panic, slice. destruct (_ && is_char_boundary rest && is_char_boundary (drop n rest)) eqn:Hb; [|done].
  intros [= <-]. by apply andb_true_iff in Hb as [_ Hb].
Qed.
Lemma rewrite_turn_utf8 renames current rest fragment n :
  utf8_renames renames → utf8_from 0 rest = true →
  rewrite_turn renames current rest = Ok (fragment, n) →
  utf8_from 0 fragment = true ∧ utf8_from 0 (drop n rest) = true.
Proof.
  intros Hr Hu. unfold rewrite_turn.
  destruct (is_ascii_digit current); [|destruct (_ || _)]; intros (text & Ht & Heq)%result_bind_ok;
    apply slice_or_panic_ok in Ht as [-> Hb]; destruct (utf8_cut _ 0 rest Hu Hb) as [Htake Hdrop];
    injection Heq as <- <-; (split; [|done]); [done| |done].
  destruct (renames !! _) as [replacement|] eqn:Hl; [|done]. by apply (Hr _ _ Hl).
Qed.
Lemma rewrite_loop_utf8 renames limits fuel : ∀ bs out out',
  utf8_renames renames → utf8_from 0 bs = true → utf8_from 0 out = true →
  rewrite_loop renames limits fuel bs out = Some (Ok out') → utf8_from 0 out' = true.
Proof.
  induction fuel as [|fuel IH]; intros bs out out' Hr Hbs Hout Hl.
  { destruct bs; [by injection Hl as <-|done]. }
  destruct bs as [|c bs]; [by injection Hl as <-|]. cbn [rewrite_loop] in Hl.
  destruct (rewrite_turn _ _ _) as [[fragment n]|e] eqn:Ht; [|done].
  destruct (rewrite_turn_utf8 _ _ _ _ _ Hr Hbs Ht) as [Hf Hd].
  destruct (push _ _ _) eqn:Hp; [|done]. apply push_ok in Hp as ->.
  eapply IH; [done|exact Hd| |exact Hl]. by apply utf8_concat.
Qed.

(** ** References *)
Lemma derives_symbols level f ks e : derives level f ks e →
  ∀ s, TokenKind.Symbol s ∈ ks ↔ s ∈ refs e.
Proof.
  induction 1 as [v|s'|f ks e _ IH|f v s' ks e _ IH|f ks e _ IH|op f1 f2 ks1 ks2 e1 e2 _ IH1 _ IH2|l l' f ks e _ _ IH];
    intros s; rewrite ?refs_binary, ?elem_of_app; cbn [Expr.collect_symbol_refs app].
  - rewrite list_elem_of_singleton, elem_of_nil. naive_solver.
  - rewrite !list_elem_of_singleton. naive_solver.
  - rewrite elem_of_cons, elem_of_app, list_elem_of_singleton, IH. naive_solver.
  - rewrite elem_of_cons, IH, elem_of_nil. naive_solver.
  - rewrite elem_of_cons, IH. naive_solver.
  - rewrite elem_of_cons, IH1, IH2. split; [intros [|[|]]|]; try naive_solver. by destruct op.
  - done.
Qed.
Lemma rename_expr_refs renames e : refs (rename_expr renames e) = rename renames <$> refs e.
Proof.
  induction e as [v|s|e IH|op l IHl r IHr]; [done|done|done|].
  cbn [rename_expr]. by rewrite !refs_binary, IHl, IHr, fmap_app.
Qed.
Lemma collect_symbols_refs e : ∀ out s, s ∈ Expr.collect_symbols e out ↔ s ∈ out ∨ s ∈ refs e.
Proof.
  induction e as [v|name|e IH|op l IHl r IHr]; intros out s; rewrite ?refs_binary, ?elem_of_app;
    cbn [Expr.collect_symbols Expr.collect_symbol_refs app].
  - rewrite elem_of_nil. naive_solver.
  - rewrite list_elem_of_singleton. case_bool_decide; [naive_solver|].
    rewrite elem_of_app, list_elem_of_singleton. done.
  - apply IH.
  - rewrite IHr, IHl. naive_solver.
Qed.

Lemma references_any_spec source names :
  references_any source names = true ↔
  ∃ c, parse source = Some (Ok c) ∧ ∃ raw, raw ∈ refs (CompiledExpression.ast c) ∧ raw ∈ names.
Proof.
  unfold references_any. destruct (parse source) as [[c|e]|].
  - rewrite existsb_exists. unfold CompiledExpression.variables. setoid_rewrite <- list_elem_of_In.
    setoid_rewrite collect_symbols_refs. setoid_rewrite elem_of_nil. setoid_rewrite bool_decide_eq_true.
    naive_solver.
  - naive_solver.
  - naive_solver.
Qed.
Lemma references_any_mono source names names' :
  names ⊆ names' → references_any source names = true → references_any source names' = true.
Proof. rewrite !references_any_spec. set_solver. Qed.

(** ** The rewrite of a stored source *)
Definition parses (source : string) : Prop := ∃ c, parse source = Some (Ok c).

Section one.
Context (old new name : string).
Abbreviation renames := {[old := new]}.

(** The replacement reads as one symbol. *)
Definition safe_name (new : string) : Prop :=
  symbol_before (bytes_of new) [] ∧ head_is is_exponent_mark (bytes_of new) = false.
#[global] Instance safe_name_dec n : Decision (safe_name n) := _.
Context (Hsafe : safe_name new).

Lemma safe_utf8 : utf8 new.
Proof.
  destruct Hsafe as [[Hs Ht] _]. unfold utf8. rewrite <- (app_nil_r (bytes_of new)). rewrite utf8_app; [done|].
  rewrite app_nil_r in Ht. destruct (bytes_of new) as [|c bs]; [done|]. cbn in Hs, Ht. rewrite drop_0 in Ht.
  constructor; [by apply symbol_start_byte|]. injection Ht as Ht. rewrite <- (take_ge bs (Lexer.symbol_tail bs)) by lia.
  apply symbol_tail_ascii.
Qed.

Lemma rewritten_some source out :
  rewritten source renames name = Some (Ok out) → rewrite_symbols source renames = Some (Ok out).
Proof. unfold rewritten. destruct (rewrite_symbols _ _) as [[o|[e|]]|]; [by intros [= <-]|done..]. Qed.

Lemma rewritten_utf8 source out :
  utf8 source → rewritten source renames name = Some (Ok out) → utf8 out.
Proof.
  intros Hu Hr. apply rewritten_some in Hr. unfold rewrite_symbols, rewrite_symbols_bounded in Hr.
  destruct (ensure _ _ _); [|done]. case_bool_decide; [by injection Hr as <-|].
  destruct (rewrite_loop _ _ _ _ _) as [[o|e]|] eqn:Hl; [|done|done]. injection Hr as <-.
  unfold utf8. rewrite bytes_of_string_of. eapply (rewrite_loop_utf8 _ _ _ _ []); [|exact Hu|done|exact Hl].
  apply map_Forall_singleton, safe_utf8.
Qed.

(** A source without the old name is left as it was; one with it refers to the
    new name. *)
Lemma rewritten_refers source c out :
  utf8 source → parse source = Some (Ok c) → rewritten source renames name = Some (Ok out) →
  parses out ∧ if decide (old ∈ refs (CompiledExpression.ast c))
    then references_any out {[new]} = true else out = source.
Proof.
  intros Hu Hp Hr. apply rewritten_some in Hr.
  destruct (rewrite_tree source VarLimits.Limits.DEFAULT renames c) as (r & Hr' & Hok);
    [done|exact default_widths|by apply map_Forall_singleton|done|].
  unfold rewrite_symbols in Hr. rewrite Hr in Hr'. injection Hr' as <-.
  destruct Hok as (c' & Hp' & Hast). split; [by exists c'|]. case_decide as Hin.
  - apply references_any_spec. exists c'. split; [done|]. exists new. rewrite Hast, rename_expr_refs.
    split; [|set_solver]. apply list_elem_of_fmap. exists old. split; [|done]. unfold rename. by rewrite lookup_singleton_eq.
  - destruct (parsed_segments source _ c Hu Hp) as (segments & f & ks & Hrender & Hseg & Hk & Ha & Hder).
    unfold rewrite_symbols_bounded in Hr. destruct (ensure _ _ _); [|done].
    rewrite bool_decide_false in Hr by apply map_non_empty_singleton.
    destruct (rewrite_loop _ _ _ _ _) as [[o|e]|] eqn:Hl; [|done|done]. injection Hr as <-.
    rewrite <- Hrender in Hl. apply rewrite_loop_segmented in Hl; [|done|by rewrite Hrender].
    rewrite Hl. cbn [app]. rewrite <- (string_of_bytes_of source), <- Hrender. do 2 f_equal.
    rewrite <- (list_fmap_id segments) at 2. apply list_fmap_ext. intros i s Hs.
    destruct s as [| text| |]; cbn [rename_segment id]; try done. unfold rename.
    rewrite lookup_singleton_ne; [by cbn; rewrite bytes_of_string_of|]. intros Heq. apply Hin. rewrite Heq.
    apply (derives_symbols _ _ _ _ Hder). rewrite <- Hk. unfold kinds. apply list_elem_of_bind.
    eexists. split; [|by eapply list_elem_of_lookup_2]. cbn. constructor.
Qed.
End one.

(** ** Following *)

(** What a source becomes over a batch that changes these names: itself, or a
    source that refers to one of them. *)
Definition follows (changed : gset string) (before after : string) : Prop :=
  after = before ∨ references_any after changed = true.

Lemma follows_mono changed changed' before after :
  changed ⊆ changed' → follows changed before after → follows changed' before after.
Proof. intros Hsub [->|Hr]; [by left|right; by eapply references_any_mono]. Qed.
Lemma follows_parses changed before after : parses before → follows changed before after → parses after.
Proof. intros Hp [->|(c & Hc & _)%references_any_spec]; [done|by exists c]. Qed.
Lemma follows_rename changed old new name before after out :
  safe_name new → utf8 after → parses before → follows changed before after →
  rewritten after {[old := new]} name = Some (Ok out) →
  follows ({[new]} ∪ ({[old]} ∪ changed)) before out.
Proof.
  intros Hs Hu Hp Hf Hr. destruct (follows_parses _ _ _ Hp Hf) as [c Hc].
  destruct (rewritten_refers old new name Hs after c out Hu Hc Hr) as [_ Hout]. case_decide.
  - right. eapply references_any_mono; [|exact Hout]. set_solver.
  - subst out. eapply follows_mono; [|exact Hf]. set_solver.
Qed.
