(* ===== verification/Compile.v ===== *)
(** * The document's variable system (kagami-document, update.rs)

    What [compile_variables] builds from the definitions, that it does not depend
    on which of them are evaluated, and what the affected closure is. *)

From stdpp Require Import base gmap strings list relations.
From S2P Require Import Prelude Identity VarLimits Action Binary64 Quantity Expression Grammar Namespace Evaluation System Resolution Variables Locality PluginIds Lock Schema Geometry Document Experiment Validate Edit Follow.

(** * The affected names (kagami-document, update.rs)

    The passes of [affected_names] reach the least set that holds the changed
    names and is closed under reference, within the bound on how many there
    are. *)

Implicit Types defs : list Variable_.t.
Implicit Types names affected : gset string.

(** Closed under reference: a definition that refers into the set is in it. *)
Definition closed_under defs names : Prop :=
  ∀ d, d ∈ defs → references_any (Variable_.expression d) names = true → Variable_.qualified_name d ∈ names.

(** ** One pass *)
Lemma affect_le s d : s.1 ⊆ (affect s d).1.
Proof. destruct s as [affected grew]. cbn. case_bool_decide; [done|]. destruct (references_any _ _); set_solver. Qed.
Lemma pass_le defs s : s.1 ⊆ (foldl affect s defs).1.
Proof. revert s. induction defs as [|d defs IH]; intros s; [done|]. etrans; [apply affect_le|apply IH]. Qed.
Lemma affect_grew s d : s.2 = true → (affect s d).2 = true.
Proof. destruct s as [affected grew]. cbn. intros ->. case_bool_decide; [done|]. by destruct (references_any _ _). Qed.
Lemma pass_grew defs s : s.2 = true → (foldl affect s defs).2 = true.
Proof. revert s. induction defs as [|d defs IH]; intros s Hs; [done|]. by apply IH, affect_grew. Qed.

(** A pass that does not grow the set finds it closed; one that does adds the
    name of a definition. *)
Lemma pass_still defs affected :
  (foldl affect (affected, false) defs).2 = false →
  (foldl affect (affected, false) defs).1 = affected ∧ closed_under defs affected.
Proof.
  induction defs as [|d defs IH]; [by intros _; split; [|intros ? ?%elem_of_nil]|]. cbn [foldl affect].
  case_bool_decide as Hd; [|destruct (references_any _ _) eqn:Hr].
  - intros Hs. destruct (IH Hs) as [Heq Hc]. split; [done|]. intros d' [->|Hd']%elem_of_cons; [done|by apply Hc].
  - by rewrite pass_grew.
  - intros Hs. destruct (IH Hs) as [Heq Hc]. split; [done|]. intros d' [->|Hd']%elem_of_cons; [by rewrite Hr|by apply Hc].
Qed.
Lemma pass_adds defs affected :
  (foldl affect (affected, false) defs).2 = true →
  ∃ d, d ∈ defs ∧ Variable_.qualified_name d ∉ affected
    ∧ Variable_.qualified_name d ∈ (foldl affect (affected, false) defs).1.
Proof.
  induction defs as [|d defs IH]; [done|]. cbn [foldl affect].
  case_bool_decide as Hd; [|destruct (references_any _ _)].
  - intros Hs. destruct (IH Hs) as (d' & Hd' & ?). exists d'. split; [by constructor|done].
  - intros _. exists d. split_and!; [constructor|done|]. apply (pass_le defs (_, true)). set_solver.
  - intros Hs. destruct (IH Hs) as (d' & Hd' & ?). exists d'. split; [by constructor|done].
Qed.
Lemma pass_least defs names s : s.1 ⊆ names → closed_under defs names → (foldl affect s defs).1 ⊆ names.
Proof.
  intros Hs Hc. assert (∀ d, d ∈ defs → d ∈ defs) as Hin by done. revert s Hs Hin. generalize defs at 1 3 as todo.
  induction todo as [|d todo IH]; intros [affected grew] Hs Hin; [done|]. cbn [foldl].
  apply IH; [|intros; apply Hin; by constructor]. cbn in *. case_bool_decide; [done|].
  destruct (references_any _ _) eqn:Hr; [|done]. apply union_subseteq. split; [|done].
  apply singleton_subseteq_l, Hc; [apply Hin; constructor|]. by eapply references_any_mono.
Qed.

(** ** The passes *)
Definition missing defs affected : nat :=
  length (filter (λ d, Variable_.qualified_name d ∉ affected) defs).
Lemma missing_le defs affected affected' :
  affected ⊆ affected' → missing defs affected' ≤ missing defs affected.
Proof.
  intros Hsub. unfold missing. induction defs as [|d defs IH]; [done|]. rewrite !filter_cons.
  repeat case_decide; cbn [length]; try lia. set_solver.
Qed.
Lemma missing_lt defs affected affected' d :
  affected ⊆ affected' → d ∈ defs → Variable_.qualified_name d ∉ affected → Variable_.qualified_name d ∈ affected' →
  missing defs affected' < missing defs affected.
Proof.
  intros Hsub Hd Hnot Hin. induction defs as [|d' defs IH]; [by apply elem_of_nil in Hd|].
  unfold missing in *. rewrite !filter_cons. pose proof (missing_le defs _ _ Hsub) as Hle. unfold missing in Hle.
  apply elem_of_cons in Hd as [->|Hd].
  - rewrite decide_False by tauto. rewrite decide_True by done. cbn [length]. lia.
  - specialize (IH Hd). repeat case_decide; cbn [length]; try lia. set_solver.
Qed.

Lemma passes_closed defs passes : ∀ affected, missing defs affected ≤ passes →
  affected ⊆ affect_passes passes defs affected ∧ closed_under defs (affect_passes passes defs affected).
Proof.
  induction passes as [|passes IH]; intros affected Hm; cbn [affect_passes].
  - split; [done|]. intros d Hd _. destruct (decide (Variable_.qualified_name d ∈ affected)) as [|Hn]; [done|].
    pose proof (missing_lt defs affected ({[Variable_.qualified_name d]} ∪ affected) d). set_solver by lia.
  - destruct (foldl affect (affected, false) defs) as [affected' grew] eqn:Hp.
    pose proof (pass_le defs (affected, false)) as Hle. pose proof (pass_adds defs affected) as Hadd.
    pose proof (pass_still defs affected) as Hstill. rewrite Hp in *. cbn in *. destruct grew.
    + destruct Hadd as (d & Hd & Hn & Hi); [done|]. pose proof (missing_lt defs affected affected' d Hle Hd Hn Hi).
      destruct (IH affected') as [Hsub Hc]; [lia|]. split; [by etrans|done].
    + by destruct Hstill as [-> Hc].
Qed.
Lemma passes_least defs names passes : ∀ affected, affected ⊆ names → closed_under defs names →
  affect_passes passes defs affected ⊆ names.
Proof.
  induction passes as [|passes IH]; intros affected Hs Hc; cbn [affect_passes]; [done|].
  pose proof (pass_least defs names (affected, false) Hs Hc) as Hp.
  destruct (foldl affect (affected, false) defs) as [affected' grew]. destruct grew; [by apply IH|done].
Qed.

Section affected.
Context `{Scientific}.
Implicit Types state : ExperimentState.t.
Abbreviation definitions state := (btree_values (ExperimentState.variables state)).

Lemma length_definitions state : length (definitions state) = size (ExperimentState.variables state).
Proof. unfold btree_values. by rewrite length_fmap, length_btree_entries. Qed.

Lemma affected_closed state changed limits :
  (N.of_nat (size (ExperimentState.variables state)) ≤ Limits.max_variables limits)%N →
  changed ⊆ affected_names state changed limits
  ∧ closed_under (definitions state) (affected_names state changed limits).
Proof.
  intros Hsize. unfold affected_names. case_bool_decide as He.
  - split; [done|]. intros d _ (c & _ & raw & _ & Hin)%references_any_spec. set_solver.
  - apply passes_closed. unfold missing. etrans; [apply length_filter|]. rewrite length_definitions. lia.
Qed.

(** Nothing a change reaches is left out, and nothing else is taken in: when the
    variables fit their bound, the affected names are the least set that holds the
    changed names and, for every definition that refers to a member, its name. *)
Theorem affected_names_least state changed limits
    (Hsize : (N.of_nat (size (ExperimentState.variables state)) ≤ Limits.max_variables limits)%N) :
  let affected := affected_names state changed limits in
  changed ⊆ affected ∧ closed_under (definitions state) affected
  ∧ ∀ names, changed ⊆ names → closed_under (definitions state) names → affected ⊆ names.
Proof.
  cbn zeta. destruct (affected_closed state changed limits Hsize) as [Hsub Hc]. split_and!; [done..|].
  intros names Hn Hcn. unfold affected_names. case_bool_decide; [done|]. by apply passes_least.
Qed.
End affected.

(** ** A sample graph *)
Module AffectedSample.
#[local] Existing Instance plain.
Definition definition (name source : string) : Variable_.t := Variable_.mk (Namespace.new "") (Name.mk name) source None.
Definition graph : ExperimentState.t :=
  ExperimentState.set_variables
    (list_to_map [(VariableId.from_raw 0, definition "total" "area * 2"); (VariableId.from_raw 1, definition "area" "side ^ 2");
                  (VariableId.from_raw 2, definition "side" "3 m"); (VariableId.from_raw 3, definition "mass" "1 kg")])
    ExperimentState.empty.

(** Two passes are needed: [total] is met before [area] is known to change. *)
Lemma affected_names_least_witness :
  affected_names graph {["side"]} Limits.DEFAULT = {["side"; "area"; "total"]}
  ∧ closed_under (btree_values (ExperimentState.variables graph)) (affected_names graph {["side"]} Limits.DEFAULT).
Proof.
  split.
  { apply (bool_decide_unpack (affected_names graph {["side"]} Limits.DEFAULT = {["side"; "area"; "total"]})).
    vm_compute. exact I. }
  assert (N.of_nat (size (ExperimentState.variables graph)) ≤ Limits.max_variables Limits.DEFAULT)%N as Hsize
    by (vm_compute; discriminate).
  exact (proj1 (proj2 (affected_names_least graph {["side"]} Limits.DEFAULT Hsize))).
Defined.
End AffectedSample.

(** * The variable system of a document *)

Section compile.
Context `{Scientific} `{Unicode} `{Libm}.

Abbreviation text := Variable_.qualified_name.

(** A system that holds exactly these definitions, under the engine's own bounds. *)
Record compiled_from defs (sys : VariablesSystem.t) : Prop := {
  from_wf : wf sys;
  from_limits : VariablesSystem.limits sys = VarLimits.Limits.DEFAULT;
  from_definition : ∀ d, d ∈ defs → ∃ id v, VariablesSystem.symbol_variable sys (text d) = Some id
    ∧ VariablesSystem.get sys id = Some v ∧ parse (Variable_.expression d) = Some (Ok (System.Variable_.expression v));
  from_symbol : ∀ raw id, VariablesSystem.symbol_variable sys raw = Some id → raw ∈ text <$> defs;
  from_distinct : NoDup (text <$> defs)
}.

Lemma compiled_empty : compiled_from [] VariablesSystem.default.
Proof.
  split; try done; [apply with_limits_wf, default_proper|by intros d ?%elem_of_nil|constructor].
Qed.

(** Names are validated where they enter; none holds the separator. *)
Definition named (d : Variable_.t) : Prop := undotted (Variable_.name d).

Lemma define_one_ok d defs sys handle sys' :
  compiled_from defs sys → named d → define_one d sys = Some (Ok (handle, sys')) →
  compiled_from (defs ++ [d]) sys' ∧ VariablesSystem.symbol_variable sys' (text d) = Some handle
  ∧ ∀ raw id, VariablesSystem.symbol_variable sys raw = Some id → VariablesSystem.symbol_variable sys' raw = Some id.
Proof.
  intros [Hwf Hl Hdef Hsym Hnd] Hname. unfold define_one.
  destruct (parse (Variable_.expression d)) as [[c|e]|] eqn:Hp; [|done|done].
  unfold VariablesSystem.define. 
  destruct (VariablesSystem.define_checks _ _ _ _) as [key|e] eqn:Hk; [|done].
  intros [= <- <-]. apply (define_checks_ok sys Hwf) in Hk as (n & [= <-] & -> & _ & Hfree & Hroom & Hadm).
  change (VariablesSystem.mk _ _ _ _) with (defined sys (qualified (Variable_.namespace d) (Variable_.name d))
    (VariableOptions.comment VariableOptions.default) c).
  change (FQName.to_string _) with (text d) in Hfree.
  assert (measured c) as Hmeas by (by apply parsed_measured; exists (Variable_.expression d), VarLimits.Limits.DEFAULT).
  assert (∀ raw id, VariablesSystem.symbol_variable sys raw = Some id →
    VariablesSystem.symbol_variable (defined sys (qualified (Variable_.namespace d) (Variable_.name d))
      (VariableOptions.comment VariableOptions.default) c) raw = Some id) as Hkeep.
  { intros raw id Hid. unfold VariablesSystem.symbol_variable, defined in *. cbn [VariablesSystem.index].
    rewrite lookup_insert_ne; [done|]. change (text d ≠ raw). intros <-. congruence. }
  split; [split|].
  - by apply defined_wf.
  - done.
  - intros d' [Hd'| ->%list_elem_of_singleton]%elem_of_app.
    + destruct (Hdef d' Hd') as (id & v & Hid & Hv & Hpd). exists id, v. split_and!; [| |done].
      * by apply Hkeep.
      * rewrite (get_defined sys Hwf) by done. rewrite decide_False; [done|]. intros ->.
        by rewrite (get_fresh sys Hwf Hroom) in Hv.
    + eexists _, _. split_and!; [apply lookup_insert_eq| |].
      * rewrite (get_defined sys Hwf) by done. by rewrite decide_True.
      * done.
  - intros raw id. unfold VariablesSystem.symbol_variable, defined. cbn [VariablesSystem.index].
    rewrite fmap_app, elem_of_app. destruct (decide (raw = text d)) as [->|Hne].
    + intros _. right. constructor.
    + rewrite lookup_insert_ne by done. intros Hid. left. by eapply Hsym.
  - rewrite fmap_app. apply NoDup_app. split_and!; [done| |apply NoDup_singleton].
    intros raw (d' & -> & Hd')%list_elem_of_fmap Heq%list_elem_of_singleton.
    destruct (Hdef d' Hd') as (id & v & Hid & _). rewrite Heq in Hid.
    unfold VariablesSystem.symbol_variable in Hid. congruence.
  - split; [apply lookup_insert_eq|exact Hkeep].
Qed.

(** The definitions in order; the handles are those of the affected names. *)
Lemma define_all_ok todo : ∀ defs affected sys handles sys' handles',
  compiled_from defs sys → Forall named todo →
  define_all todo affected sys handles = Some (Ok (sys', handles')) →
  compiled_from (defs ++ todo) sys'
  ∧ (∀ raw id, VariablesSystem.symbol_variable sys raw = Some id → VariablesSystem.symbol_variable sys' raw = Some id)
  ∧ ∀ name handle, (name, handle) ∈ handles' ↔ (name, handle) ∈ handles
      ∨ (name ∈ affected ∧ name ∈ text <$> todo ∧ VariablesSystem.symbol_variable sys' name = Some handle).
Proof.
  induction todo as [|d todo IH]; intros defs affected sys handles sys' handles' Hc Hn; cbn [define_all].
  { intros [= <- <-]. rewrite app_nil_r. split_and!; [done|done|]. intros name handle. cbn. rewrite elem_of_nil. naive_solver. }
  inversion Hn as [|? ? Hd Hn']; subst. intros Hrun. apply outcome_bind_ok in Hrun as ([handle sys1] & Hrun1 & Hrun).
  destruct (define_one_ok d defs sys handle sys1 Hc Hd Hrun1) as (Hc1 & Hhandle & Hkeep1).
  destruct (IH (defs ++ [d]) affected sys1 _ _ _ Hc1 Hn' Hrun) as (Hc2 & Hkeep2 & Hhandles). rewrite <- app_assoc in Hc2.
  split_and!; [done|by eauto|]. intros name h. rewrite Hhandles, fmap_cons, elem_of_cons.
  apply Hkeep2 in Hhandle. case_bool_decide as Ha; [rewrite elem_of_app, list_elem_of_singleton|]; naive_solver.
Qed.

(** The system is the same whatever is affected. *)
Lemma define_all_system todo : ∀ affected affected' sys handles handles2 sys' handles',
  define_all todo affected sys handles = Some (Ok (sys', handles')) →
  ∃ handles2', define_all todo affected' sys handles2 = Some (Ok (sys', handles2')).
Proof.
  induction todo as [|d todo IH]; intros affected affected' sys handles handles2 sys' handles'; cbn [define_all].
  - intros [= <- _]. by eexists.
  - intros Hrun. apply outcome_bind_ok in Hrun as ([handle sys1] & Hrun1 & Hrun). rewrite Hrun1.
    eapply IH. exact Hrun.
Qed.

Lemma prove_all_ok handles : ∀ sys sys', wf sys →
  prove_all handles sys = Some (Ok sys') ↔
  sys' = sys ∧ ∀ name handle, (name, handle) ∈ handles → ∃ q s, value sys handle = Some (Ok q, s).
Proof.
  induction handles as [|[name handle] handles IH]; intros sys sys' Hwf; cbn [prove_all].
  { split; [intros [= <-]|intros [-> _]; done]. split; [done|]. by intros ? ? ?%elem_of_nil. }
  unfold value_of. destruct (value sys handle) as [[[q|e] s]|] eqn:Hv.
  - assert (s = sys) as -> by (by eapply value_unchanged). cbn. rewrite (IH sys sys' Hwf). setoid_rewrite elem_of_cons.
    split; [intros [-> Hall]|intros [-> Hall]]; (split; [done|]); [|naive_solver].
    intros n h [[= -> ->]|Hin]; [by eauto|by eapply Hall].
  - split; [done|]. intros [_ Hall]. destruct (Hall name handle) as (q & s' & Hq); [by constructor|congruence].
  - split; [done|]. intros [_ Hall]. destruct (Hall name handle) as (q & s' & Hq); [by constructor|congruence].
Qed.

(** ** The whole compilation *)
Abbreviation definitions state := (btree_values (ExperimentState.variables state)).

(** A name has a value in the system. *)
Definition resolves (sys : VariablesSystem.t) (name : string) : Prop :=
  ∃ handle q s, VariablesSystem.symbol_variable sys name = Some handle ∧ value sys handle = Some (Ok q, s).

Lemma compile_variables_ok state affected limits sys n :
  Forall named (definitions state) →
  compile_variables state affected limits = Some (Ok (sys, n)) →
  (N.of_nat (size (ExperimentState.variables state)) ≤ Limits.max_variables limits)%N
  ∧ compiled_from (definitions state) sys
  ∧ ∀ d, d ∈ definitions state → text d ∈ affected → resolves sys (text d).
Proof.
  intros Hn. unfold compile_variables. cbn zeta. destruct (N.ltb_spec (Limits.max_variables limits)
    (N.of_nat (size (ExperimentState.variables state)))) as [|Hsize]; [done|].
  intros Hrun. apply outcome_bind_ok in Hrun as ([s1 handles] & Hrun1 & Hrun).
  apply outcome_bind_ok in Hrun as (s2 & Hrun2 & [= -> _]).
  destruct (define_all_ok _ [] _ _ _ _ _ compiled_empty Hn Hrun1) as (Hc & _ & Hhandles).
  pose proof (from_wf _ _ Hc) as Hwf. apply (prove_all_ok handles s1 sys Hwf) in Hrun2 as [-> Hall].
  split_and!; [done|done|]. intros d Hd Ha. destruct (from_definition _ _ Hc d Hd) as (id & v & Hid & _).
  destruct (Hall (text d) id) as (q & s & Hq); [|by exists id, q, s].
  apply Hhandles. right. split_and!; [done| |done]. by apply list_elem_of_fmap_2.
Qed.

(** Every definition compiled and every one with a value. *)
Lemma compile_document_ok state limits sys :
  Forall named (definitions state) →
  compile_document_variables state limits = Some (Ok sys) →
  (N.of_nat (size (ExperimentState.variables state)) ≤ Limits.max_variables limits)%N
  ∧ compiled_from (definitions state) sys ∧ ∀ d, d ∈ definitions state → resolves sys (text d).
Proof.
  intros Hn Hrun. apply outcome_bind_ok in Hrun as ([s n] & Hrun & [= ->]).
  destruct (compile_variables_ok _ _ _ _ _ Hn Hrun) as (Hs & Hc & Hr). split_and!; [done|done|].
  intros d Hd. apply Hr; [done|]. unfold all_names. apply elem_of_list_to_set. by apply list_elem_of_fmap_2.
Qed.
Lemma compile_document_intro state limits affected sys n :
  Forall named (definitions state) →
  compile_variables state affected limits = Some (Ok (sys, n)) →
  (∀ d, d ∈ definitions state → resolves sys (text d)) →
  compile_document_variables state limits = Some (Ok sys).
Proof.
  intros Hn Hrun Hall. unfold compile_document_variables, compile_variables in *. cbn zeta in *.
  destruct (N.ltb_spec (Limits.max_variables limits) (N.of_nat (size (ExperimentState.variables state)))); [done|].
  apply outcome_bind_ok in Hrun as ([s1 handles] & Hrun1 & Hrun).
  apply outcome_bind_ok in Hrun as (s2 & Hrun2 & [= -> _]).
  destruct (define_all_ok _ [] _ _ _ _ _ compiled_empty Hn Hrun1) as (Hc & _ & _).
  pose proof (from_wf _ _ Hc) as Hwf. apply (prove_all_ok handles s1 sys Hwf) in Hrun2 as [-> _].
  destruct (define_all_system _ _ (all_names state) _ _ [] _ _ Hrun1) as [handles2 Hrun1p]. rewrite Hrun1p. cbn.
  destruct (define_all_ok _ [] _ _ _ _ _ compiled_empty Hn Hrun1p) as (_ & _ & Hhandles).
  assert (prove_all handles2 s1 = Some (Ok s1)) as ->; [|done].
  apply prove_all_ok; [done|]. split; [done|]. intros name handle Hin.
  apply Hhandles in Hin as [?%elem_of_nil|(_ & Hname & Hid)]; [done|].
  apply list_elem_of_fmap in Hname as (d & -> & Hd). destruct (Hall d Hd) as (h & q & s & Hh & Hq).
  assert (h = handle) as -> by congruence. eauto.
Qed.
End compile.
