(* ===== verification/Structure.v ===== *)
(** * What a batch does to the contents (kagami-document, update.rs)

    How the structural effects of the commands relate the edited contents to the
    ones the batch started from: definitions and components the batch did not
    name are the same, up to the renames. *)

From stdpp Require Import base gmap strings list.
From S2P Require Import Prelude Identity VarLimits Action Binary64 Quantity Expression Namespace Rewrite PluginIds Lock Schema Geometry Document Experiment Validate Edit Follow.

#[local] Arguments next_u64 : simpl never.

(** ** Maps rewritten value by value *)
Lemma try_entries_ok {E K V W} (f : K → V → outcome E W) l : ∀ l',
  try_entries f l = Some (Ok l') → Forall2 (λ x y, y.1 = x.1 ∧ f x.1 x.2 = Some (Ok y.2)) l l'.
Proof.
  induction l as [|[k v] l IH]; intros l'; cbn [try_entries]; [by intros [= <-]|].
  intros (w & Hw & (l1 & Hl1 & [= <-])%outcome_bind_ok)%outcome_bind_ok. constructor; [done|by apply IH].
Qed.
Lemma try_values_ok {E K V W} `{Countable K, Ord K, !OrdLaws K} (f : K → V → outcome E W) (m : gmap K V) m' k :
  try_values f m = Some (Ok m') →
  match m !! k, m' !! k with
  | Some v, Some w => f k v = Some (Ok w)
  | None, None => True
  | _, _ => False
  end.
Proof.
  intros (l & Hl & [= <-])%outcome_bind_ok. apply try_entries_ok in Hl.
  assert (l.*1 = btree_keys m) as Hkeys.
  { unfold btree_keys. clear -Hl. induction Hl as [|x y l1 l2 [Hk _] _ IH]; [done|]. cbn. by rewrite Hk, IH. }
  assert (NoDup l.*1) as Hnd by (rewrite Hkeys; apply NoDup_btree_keys).
  destruct (m !! k) as [v|] eqn:Hv.
  - apply elem_of_btree_entries, list_elem_of_lookup in Hv as [i Hi].
    destruct (Forall2_lookup_l _ _ _ _ _ Hl Hi) as ([k' w] & Hj & Hk & Hf). cbn in *. subst k'.
    erewrite elem_of_list_to_map_1; [exact Hf|done|by eapply list_elem_of_lookup_2].
  - assert (list_to_map (M := gmap K W) l !! k = None) as ->; [|done]. apply not_elem_of_list_to_map_1. rewrite Hkeys.
    rewrite elem_of_btree_keys, Hv. by intros [? ?].
Qed.

(** ** Following, for values and components *)
Definition value_utf8 (v : PropertyValue.t) : Prop :=
  match PropertyValue.source v with Some source => utf8 source | None => True end.
(** Every [Unit] is a row of the shared table. *)
Definition authored_typed (v : AuthoredValue.t) : Prop :=
  match v with
  | AuthoredValue.Quantity expression unit =>
    utf8 expression ∧ from_option (λ u, lookup (Unit.symbol u) = Ok u) True unit
  | _ => True
  end.
Definition value_follows (changed : gset string) (before after : PropertyValue.t) : Prop :=
  match before, after with
  | PropertyValue.Quantity source unit si dimension, PropertyValue.Quantity source' unit' si' dimension' =>
    follows changed source source' ∧ unit' = unit ∧ si' = si ∧ dimension' = dimension
  | _, _ => after = before
  end.
Definition component_follows (changed : gset string) (before after : ObjectComponent.t) : Prop :=
  ObjectComponent.schema_version after = ObjectComponent.schema_version before
  ∧ ∀ property, option_relation (value_follows changed) (λ _, False) (λ _, False)
      (ObjectComponent.properties before !! property) (ObjectComponent.properties after !! property).

Lemma value_follows_refl changed v : value_follows changed v v.
Proof. destruct v; cbn; try done. split_and!; try done. by left. Qed.
Lemma component_follows_refl changed c : component_follows changed c c.
Proof.
  split; [done|]. intros property. destruct (_ !! property); cbn; [apply value_follows_refl|done].
Qed.
Lemma value_follows_mono changed changed' v v' :
  changed ⊆ changed' → value_follows changed v v' → value_follows changed' v v'.
Proof. intros Hsub. destruct v, v'; cbn; try done. intros (? & ? & ? & ?). split_and!; try done. by eapply follows_mono. Qed.
Lemma component_follows_mono changed changed' c c' :
  changed ⊆ changed' → component_follows changed c c' → component_follows changed' c c'.
Proof.
  intros Hsub [Hv Hp]. split; [done|]. intros property. specialize (Hp property).
  destruct (_ !! property), (_ !! property); cbn in *; try done. by eapply value_follows_mono.
Qed.

(** ** Steps of an edit *)
Section steps.
Context `{Scientific}.
Implicit Types e : Edit.t.
Lemma run_outcome_ok {A} (m : outcome Rejection.t A) e a e' :
  run_outcome m e = Some (Ok (a, e')) → m = Some (Ok a) ∧ e' = e.
Proof. unfold run_outcome. destruct m as [[x|r]|]; [by intros [= <- <-]|done..]. Qed.

Lemma put_edit_ok f e u e' : put_edit f e = Some (Ok (u, e')) → e' = f e.
Proof. by intros [=]. Qed.
Lemma mret_edit_ok {A} (a a' : A) e e' : (mret a : action Edit.t Rejection.t A) e = Some (Ok (a', e')) → a' = a ∧ e' = e.
Proof. by intros [= -> ->]. Qed.

End steps.

(** Every step of an edit that answered. *)
Ltac edits := repeat match goal with
  | H : (_ ≫= _) _ = Some (Ok _) |- _ => apply bind_ok in H as (? & ? & ? & ?)
  | H : (_ ≫= _) = Ok _ |- _ => apply result_bind_ok in H as (? & ? & ?)
  | H : get_edit _ = Some (Ok _) |- _ => injection H as <- <-
  | H : put_edit _ _ = Some (Ok _) |- _ => apply put_edit_ok in H; subst
  | H : mret _ _ = Some (Ok _) |- _ => apply mret_edit_ok in H as [? ?]; subst
  | H : Some (Ok _) = Some (Ok _) |- _ => injection H as <- <-
  | H : run_outcome _ _ = Some (Ok _) |- _ => apply run_outcome_ok in H as [H ->]
  | H : answer _ = Some (Ok _) |- _ => injection H as H
  | H : Ok _ = Ok _ |- _ => injection H as H
  | H : abort _ _ = Some (Ok _) |- _ => discriminate H
  | H : Err _ = Ok _ |- _ => discriminate H
  end.

(** ** Edits *)
Section structure.
Context `{Scientific}.
Implicit Types (s : ExperimentState.t) (e : Edit.t) (b : Batch.t).
Abbreviation definitions s := (btree_values (ExperimentState.variables s)).
Abbreviation text := Variable_.qualified_name.
Abbreviation variables_of e := (ExperimentState.variables (Edit.state e)).
Abbreviation changed e := (Batch.changed_names (Edit.batch e)).
Abbreviation touched e := (Batch.touched (Edit.batch e)).

Lemma find_object_ok s object o : find_object s object = Ok o → ExperimentState.objects s !! object = Some o.
Proof. unfold find_object. case_match; by intros [= <-]. Qed.
Lemma find_variable_ok s variable d : find_variable s variable = Ok d → ExperimentState.variables s !! variable = Some d.
Proof. unfold find_variable. case_match; by intros [= <-]. Qed.

Definition definition_in (d : Variable_.t) s : Prop := ∃ id, ExperimentState.variables s !! id = Some d.
Definition name_in (raw : string) s : Prop := ∃ d, definition_in d s ∧ text d = raw.
Lemma definition_in_values d s : definition_in d s ↔ d ∈ definitions s.
Proof. symmetry. apply elem_of_btree_values. Qed.

(** What the types of the commands hold, and the renames that are safe in the
    namespaces the document uses. *)
Definition admissible (known : Namespace.t → Prop) (c : ExperimentCommand.t) : Prop :=
  match c with
  | ExperimentCommand.CreateObject spec =>
    map_Forall (λ _ properties, map_Forall (λ _ v, authored_typed v) properties) (ObjectSpec.components spec)
  | ExperimentCommand.AttachComponent _ _ properties => map_Forall (λ _ v, authored_typed v) properties
  | ExperimentCommand.SetComponentProperty _ _ _ value => authored_typed value
  | ExperimentCommand.DefineVariable spec =>
    undotted (VariableSpec.name spec) ∧ utf8 (VariableSpec.expression spec) ∧ known (VariableSpec.namespace spec)
  | ExperimentCommand.SetVariableExpression _ expression => utf8 expression
  | ExperimentCommand.RenameVariable _ name =>
    undotted name ∧ ∀ namespace, known namespace → safe_name (FQName.to_string (qualified namespace name))
  | _ => True
  end.

Section kept.
Context (known : Namespace.t → Prop) (s0 : ExperimentState.t) (minted0 : N).
Context (Hparses : ∀ d, definition_in d s0 → parses (Variable_.expression d)).
Context (Hpriced : ∀ path c property source unit si dimension, component_at s0 path = Some c →
  ObjectComponent.properties c !! property = Some (PropertyValue.Quantity source unit si dimension) → parses source).

(** The edited contents against [s0], with [n] identities left to mint. *)
Record kept (n : N) e : Prop := {
  kept_counter : (minted0 ≤ Counters.variable (Edit.counters e))%N;
  kept_room : (Counters.variable (Edit.counters e) + n < 2 ^ 64)%N;
  kept_minted : ∀ id d, variables_of e !! id = Some d → (VariableId.get id < Counters.variable (Edit.counters e))%N;
  kept_typed : ∀ d, definition_in d (Edit.state e) →
    undotted (Variable_.name d) ∧ utf8 (Variable_.expression d) ∧ known (Variable_.namespace d);
  kept_names : ∀ raw, raw ∉ changed e → name_in raw (Edit.state e) ↔ name_in raw s0;
  kept_definitions : ∀ d, definition_in d (Edit.state e) → text d ∈ changed e
    ∨ ∃ d0, definition_in d0 s0 ∧ text d0 = text d
        ∧ follows (changed e) (Variable_.expression d0) (Variable_.expression d);
  kept_components : ∀ path c, component_at (Edit.state e) path = Some c →
    map_Forall (λ _ v, value_utf8 v) (ObjectComponent.properties c)
    ∧ (path ∈ touched e ∨ ∃ c0, component_at s0 path = Some c0 ∧ component_follows (changed e) c0 c);
  kept_pending : Forall (λ p, authored_typed (PendingValue.value p)) (Batch.pending (Edit.batch e))
}.

(** ** Commands on objects *)

(** Definitions as they were; a component is as it was, or touched. *)
Lemma kept_by_objects n e e' :
  kept n e →
  variables_of e' = variables_of e → Counters.variable (Edit.counters e') = Counters.variable (Edit.counters e) →
  changed e' = changed e → touched e ⊆ touched e' →
  Forall (λ p, authored_typed (PendingValue.value p)) (Batch.pending (Edit.batch e')) →
  (∀ path c, component_at (Edit.state e') path = Some c →
    component_at (Edit.state e) path = Some c
    ∨ path ∈ touched e' ∧ map_Forall (λ _ v, value_utf8 v) (ObjectComponent.properties c)) →
  kept n e'.
Proof.
  intros [Hctr Hr Hm Ht Hn Hd Hc Hp] Hv Hcv Hch Htou Hpend Hcomp.
  assert (∀ d, definition_in d (Edit.state e') ↔ definition_in d (Edit.state e)) as Hdef
    by (intros d; unfold definition_in; by rewrite Hv).
  assert (∀ raw, name_in raw (Edit.state e') ↔ name_in raw (Edit.state e)) as Hname
    by (intros raw; unfold name_in; by setoid_rewrite Hdef).
  split.
  - by rewrite Hcv.
  - by rewrite Hcv.
  - rewrite Hv, Hcv. exact Hm.
  - intros d Hd'. by apply Ht, Hdef.
  - intros raw. rewrite Hch, Hname. apply Hn.
  - intros d Hd'. rewrite Hch. by apply Hd, Hdef.
  - intros path c Hcc. rewrite Hch. destruct (Hcomp path c Hcc) as [Hold|[Hin Hu]].
    + destruct (Hc path c Hold) as [Hu [Hin|?]]; split; try done; [|by right]. left. by apply Htou.
    + split; [done|by left].
  - done.
Qed.

Lemma update_object_ok object f e e' : update_object object f e = Some (Ok ((), e')) →
  ∃ o o', ExperimentState.objects (Edit.state e) !! object = Some o ∧ f o = Ok o'
    ∧ e' = Edit.map_state (λ s, ExperimentState.set_objects (<[object := o']> (ExperimentState.objects s)) s) e.
Proof.
  unfold update_object. intros Hrun. edits. eexists _, _. split_and!; [by apply find_object_ok|done|done].
Qed.

Lemma component_at_insert s object o path :
  component_at (ExperimentState.set_objects (<[object := o]> (ExperimentState.objects s)) s) path
  = if decide (ComponentPath.object path = object) then Object_.components o !! ComponentPath.component path
    else component_at s path.
Proof.
  unfold component_at, CapabilityReport.component_at. cbn [ExperimentState.objects ExperimentState.set_objects].
  destruct (decide _) as [->|Hne]; [by rewrite lookup_insert_eq|by rewrite lookup_insert_ne].
Qed.
Lemma component_at_object s object o type_id :
  ExperimentState.objects s !! object = Some o →
  component_at s (ComponentPath.mk object type_id) = Object_.components o !! type_id.
Proof. intros Ho. unfold component_at, CapabilityReport.component_at. cbn. by rewrite Ho. Qed.

(** An object edited in place, its path possibly touched. *)
Lemma kept_update n e object o o' b :
  kept n e → ExperimentState.objects (Edit.state e) !! object = Some o →
  Batch.changed_names b = changed e → touched e ⊆ Batch.touched b →
  Forall (λ p, authored_typed (PendingValue.value p)) (Batch.pending b) →
  (∀ type_id c, Object_.components o' !! type_id = Some c →
    Object_.components o !! type_id = Some c
    ∨ ComponentPath.mk object type_id ∈ Batch.touched b
      ∧ map_Forall (λ _ v, value_utf8 v) (ObjectComponent.properties c)) →
  kept n (Edit.mk (ExperimentState.set_objects (<[object := o']> (ExperimentState.objects (Edit.state e))) (Edit.state e))
    (Edit.counters e) b).
Proof.
  intros Hk Ho Hch Ht Hp Hcomp. apply (kept_by_objects n e); try done. intros [object' type_id] c.
  cbn [Edit.state]. rewrite component_at_insert. cbn. case_decide as Heq; [subst object'|by left].
  rewrite (component_at_object _ _ _ _ Ho). apply Hcomp.
Qed.

Lemma touch_typed path properties b :
  Forall (λ p, authored_typed (PendingValue.value p)) (Batch.pending b) →
  map_Forall (λ _ v, authored_typed v) properties →
  Forall (λ p, authored_typed (PendingValue.value p)) (Batch.pending (Batch.touch path (btree_entries properties) b)).
Proof.
  intros Hb Hp. cbn. apply Forall_app. split; [done|]. apply Forall_fmap, Forall_forall. intros [name v] Hin.
  cbn. apply elem_of_btree_entries in Hin. exact (Hp _ _ Hin).
Qed.

Lemma create_components_ok id schemas specs : ∀ components e components' e',
  create_components id schemas specs components e = Some (Ok (components', e')) →
  Forall (λ p, map_Forall (λ _ v, authored_typed v) p.2) specs →
  Forall (λ p, authored_typed (PendingValue.value p)) (Batch.pending (Edit.batch e)) →
  Edit.state e' = Edit.state e ∧ Edit.counters e' = Edit.counters e ∧ changed e' = changed e
  ∧ touched e ⊆ touched e'
  ∧ Forall (λ p, authored_typed (PendingValue.value p)) (Batch.pending (Edit.batch e'))
  ∧ ∀ type_id c, components' !! type_id = Some c → components !! type_id = Some c
      ∨ ComponentPath.mk id type_id ∈ touched e' ∧ ObjectComponent.properties c = ∅.
Proof.
  induction specs as [|[type_id properties] specs IH]; intros components e components' e'; cbn [create_components].
  - intros Hrun _ Hp. edits. split_and!; try done. by left.
  - intros Hrun Hall Hp. inversion Hall as [|? ? Hhd Htl]; subst. edits. destruct x1.
    match goal with Hc : create_components _ _ _ _ _ = _, He : empty_component _ _ = _ |- _ =>
      destruct (IH _ _ _ _ Hc Htl) as (Hs & Hcnt & Hch & Ht & Hpend & Hcomp); [by apply touch_typed|];
      unfold empty_component in He end. edits. subst x.
    cbn [Edit.map_batch Edit.state Edit.counters Edit.batch Batch.touch Batch.changed_names Batch.touched] in *.
    split_and!; try done; [by etrans; [|exact Ht]; set_solver|]. intros type_id' c Hc.
    destruct (Hcomp type_id' c Hc) as [Hl|?]; [|by right]. destruct (decide (type_id = type_id')) as [<-|Hne].
    + rewrite lookup_insert_eq in Hl. injection Hl as <-. right. split; [apply Ht; set_solver|done].
    + rewrite lookup_insert_ne in Hl by done. by left.
Qed.

(** An object edited in place: what is left is its pending values and components. *)
Ltac in_place :=
  match goal with H : update_object _ _ _ = Some (Ok (?u, _)) |- _ =>
    destruct u; apply update_object_ok in H as (?o & ?o & ? & Hf & ->) end;
  unfold Edit.map_batch, Edit.map_state; cbn [Edit.state Edit.counters Edit.batch];
  eapply kept_update; [eassumption|eassumption|done|set_solver| |].

(** An object command keeps the relation. *)
Definition on_objects (c : ExperimentCommand.t) : bool :=
  match c with
  | ExperimentCommand.DefineVariable _ | ExperimentCommand.SetVariableExpression _ _
  | ExperimentCommand.RenameVariable _ _ | ExperimentCommand.RemoveVariable _
  | ExperimentCommand.SetVariableDescription _ _ => false
  | _ => true
  end.
Lemma objects_kept n command schemas limits e e' :
  on_objects command = true → admissible known command →
  apply command schemas limits e = Some (Ok ((), e')) → kept n e → kept n e'.
Proof.
  intros Hon Hadm Hrun Hk. pose proof (kept_pending n e Hk) as Hpend.
  destruct command; try done; cbn [apply] in Hrun; cbn [admissible] in Hadm.
  - edits. apply (kept_by_objects n e); try done. by left.
  - edits. apply (kept_by_objects n e); try done. by left.
  - edits. match goal with Hc : create_components _ _ _ _ _ = _ |- _ => apply create_components_ok in Hc as (Hs & Hcnt & Hch & Ht & Hp & Hcomp) end.
    + unfold next_object in *. cbn in *. simplify_eq/=. rewrite Hs in *. eapply (kept_by_objects n e); try done; cbn.
      * by rewrite Hcnt.
      * intros [object type_id] c. rewrite component_at_insert. cbn. case_decide as Heq; [|by left]. subst object.
        intros Hl. right. destruct (Hcomp type_id c Hl) as [He|[Hin Hp']]; [by rewrite lookup_empty in He|].
        split; [done|]. rewrite Hp'. apply map_Forall_empty.
    + apply Forall_forall. intros [type_id properties] Hin. apply elem_of_btree_entries in Hin. exact (Hadm _ _ Hin).
    + unfold next_object in *. cbn in *. by simplify_eq/=.
  - edits. apply (kept_by_objects n e); try done. intros path c. cbn.
    unfold component_at, CapabilityReport.component_at. cbn [ExperimentState.set_objects ExperimentState.objects].
    destruct (decide (ComponentPath.object path = object)) as [->|Hne]; [by rewrite lookup_delete_eq|].
    rewrite lookup_delete_ne by done. by left.
  - edits. in_place; [done|]. injection Hf as <-. by left.
  - edits. in_place; [done|]. injection Hf as <-. by left.
  - edits. in_place; [done|]. injection Hf as <-. by left.
  - edits. in_place; [done|]. injection Hf as <-. by left.
  - edits. in_place; [by apply touch_typed|]. injection Hf as <-. intros type_id c. cbn.
    destruct (decide (component = type_id)) as [<-|Hne]; [|rewrite lookup_insert_ne by done; by left].
    rewrite lookup_insert_eq. intros [= <-]. right. split; [set_solver|].
    match goal with He : empty_component _ _ = _ |- _ => unfold empty_component in He end. edits.
    subst. apply map_Forall_empty.
  - edits. in_place; [done|]. destruct (Object_.components _ !! component); [|done]. injection Hf as <-.
    intros type_id c. cbn. destruct (decide (component = type_id)) as [<-|Hne].
    + by rewrite lookup_delete_eq.
    + rewrite lookup_delete_ne by done. by left.
  - edits. in_place.
    + cbn. apply Forall_app. split; [done|]. by repeat constructor.
    + destruct (Object_.components _ !! component) as [attached|] eqn:Hatt; [|done]. injection Hf as <-.
      intros type_id c. cbn. destruct (decide (component = type_id)) as [<-|Hne]; [|rewrite lookup_insert_ne by done; by left].
      rewrite lookup_insert_eq. intros [= <-]. right. split; [set_solver|]. cbn.
      eapply (kept_components n e Hk (ComponentPath.mk object component)). by rewrite (component_at_object _ _ _ _ ltac:(eassumption)).
  - unfold with_setup in Hrun. edits. apply (kept_by_objects n e); try done. by left.
  - unfold with_setup in Hrun. edits. apply (kept_by_objects n e); try done. by left.
  - unfold with_setup in Hrun. edits. apply (kept_by_objects n e); try done. by left.
Qed.

(** ** Commands on definitions *)
Definition typed (d : Variable_.t) : Prop :=
  undotted (Variable_.name d) ∧ utf8 (Variable_.expression d) ∧ known (Variable_.namespace d).
Definition component_parses (c : ObjectComponent.t) : Prop := ∀ property source unit si dimension,
  ObjectComponent.properties c !! property = Some (PropertyValue.Quantity source unit si dimension) → parses source.

(** Definitions and components that carry over, or whose name the batch changed. *)
Lemma kept_by_names n n' e e' :
  kept n e →
  (Counters.variable (Edit.counters e) ≤ Counters.variable (Edit.counters e'))%N →
  (Counters.variable (Edit.counters e') + n' < 2 ^ 64)%N →
  (∀ id d, variables_of e' !! id = Some d → (VariableId.get id < Counters.variable (Edit.counters e'))%N) →
  changed e ⊆ changed e' → touched e' = touched e → Batch.pending (Edit.batch e') = Batch.pending (Edit.batch e) →
  (∀ d, definition_in d (Edit.state e') → typed d ∧ (text d ∈ changed e'
    ∨ ∃ d1, definition_in d1 (Edit.state e) ∧ text d1 = text d ∧ ∀ before, parses before →
        follows (changed e) before (Variable_.expression d1) → follows (changed e') before (Variable_.expression d))) →
  (∀ raw, raw ∉ changed e' → name_in raw (Edit.state e') ↔ name_in raw (Edit.state e)) →
  (∀ path c, component_at (Edit.state e') path = Some c → ∃ c1, component_at (Edit.state e) path = Some c1
    ∧ (map_Forall (λ _ v, value_utf8 v) (ObjectComponent.properties c1) →
       map_Forall (λ _ v, value_utf8 v) (ObjectComponent.properties c)
       ∧ ∀ before, component_parses before →
           component_follows (changed e) before c1 → component_follows (changed e') before c)) →
  kept n' e'.
Proof.
  intros [Hctr Hr Hm Ht Hn Hd Hc Hp] Hle Hroom Hminted Hch Htou Hpend Hdef Hname Hcomp. split; try done.
  - by etrans.
  - intros d Hd'. by apply Hdef.
  - intros raw Hraw. rewrite (Hname raw Hraw). apply Hn. set_solver.
  - intros d Hd'. destruct (Hdef d Hd') as [_ [?|(d1 & Hd1 & Htext & Hf)]]; [by left|].
    destruct (Hd d1 Hd1) as [?|(d0 & Hd0 & Ht0 & Hf0)]; [left; rewrite <- Htext; by apply Hch|].
    right. exists d0. split_and!; [done|congruence|]. apply Hf; [by apply Hparses|done].
  - intros path c Hcc. destruct (Hcomp path c Hcc) as (c1 & Hc1 & Hu). destruct (Hc path c1 Hc1) as [Hu1 Hor].
    destruct (Hu Hu1) as [Hu' Hf]. split; [done|]. destruct Hor as [?|(c0 & Hc0 & Hf0)]; [left; by rewrite Htou|].
    right. exists c0. split; [done|]. apply Hf; [|done]. by intros ?????; apply Hpriced with path.
  - by rewrite Hpend.
Qed.

(** The components are the same. *)
Lemma same_components s s' names names' : ExperimentState.objects s' = ExperimentState.objects s → names ⊆ names' →
  ∀ path c, component_at s' path = Some c → ∃ c1, component_at s path = Some c1
    ∧ (map_Forall (λ _ v, value_utf8 v) (ObjectComponent.properties c1) →
       map_Forall (λ _ v, value_utf8 v) (ObjectComponent.properties c)
       ∧ ∀ before, component_parses before → component_follows names before c1 → component_follows names' before c).
Proof.
  intros Hobj Hch path c Hc. exists c. split; [|intros Hu; split; [done|]; intros before _; by apply component_follows_mono].
  revert Hc. unfold component_at, CapabilityReport.component_at. by rewrite Hobj.
Qed.

Lemma define_kept n spec limits e e' :
  undotted (VariableSpec.name spec) → utf8 (VariableSpec.expression spec) → known (VariableSpec.namespace spec) →
  define_variable spec limits e = Some (Ok ((), e')) → kept (n + 1) e → kept n e'.
Proof.
  intros Hu He Hns Hrun Hk. pose proof Hk as [Hctr Hr Hm Ht Hn Hd Hc Hp]. unfold define_variable in Hrun. edits.
  destruct (_ <=? _)%N; [edits|]. destruct (name_is_taken _ _ _); edits.
  cbn [Counters.next_variable] in *. edits.
  set (id := VariableId.from_raw (Counters.variable (Edit.counters e))) in *.
  set (new := Variable_.mk _ _ _ _) in *.
  assert (variables_of e !! id = None) as Hfresh.
  { destruct (variables_of e !! id) as [d|] eqn:Hl; [|done]. apply Hm in Hl. unfold id in Hl. cbn in Hl. lia. }
  assert (next_u64 (Counters.variable (Edit.counters e)) = Counters.variable (Edit.counters e) + 1)%N as Hnext
    by (apply N.mod_small; lia).
  eapply kept_by_names; [done|..]; cbn; try done.
  - rewrite Hnext. lia.
  - rewrite Hnext. lia.
  - intros id' d. destruct (decide (id = id')) as [<-|Hne].
    + rewrite lookup_insert_eq. intros _. rewrite Hnext. unfold id. cbn. lia.
    + rewrite lookup_insert_ne by done. intros Hl%Hm. rewrite Hnext. lia.
  - set_solver.
  - intros d [id' Hid']. cbn in Hid'. destruct (decide (id = id')) as [<-|Hne].
    + rewrite lookup_insert_eq in Hid'. injection Hid' as <-. split; [done|]. left.
      change (text new) with (VariableSpec.qualified_name spec). set_solver.
    + rewrite lookup_insert_ne in Hid' by done. split; [apply Ht; by exists id'|]. right. exists d.
      split_and!; [by exists id'|done|]. intros before _. apply follows_mono. set_solver.
  - intros raw Hraw. assert (raw ≠ text new) as Hne
      by (change (text new) with (VariableSpec.qualified_name spec); set_solver).
    unfold name_in, definition_in. cbn. split; intros (d & (id' & Hid') & Hd').
    + exists d. split; [|done]. exists id'. destruct (decide (id = id')) as [<-|?].
      * rewrite lookup_insert_eq in Hid'. injection Hid' as <-. congruence.
      * by rewrite lookup_insert_ne in Hid'.
    + exists d. split; [|done]. exists id'. rewrite lookup_insert_ne; [done|]. congruence.
  - apply same_components; [done|]. set_solver.
Qed.

Lemma update_variable_ok variable f e e' : update_variable variable f e = Some (Ok ((), e')) →
  ∃ d, variables_of e !! variable = Some d
    ∧ e' = Edit.map_state (λ s, ExperimentState.set_variables (<[variable := f d]> (ExperimentState.variables s)) s) e.
Proof. unfold update_variable. intros Hrun. edits. eexists. split; [by apply find_variable_ok|done]. Qed.

(** One definition rewritten, its name the same or changed. *)
Lemma rewrite_one_kept n e variable d d' b :
  kept n e → variables_of e !! variable = Some d → typed d' → text d' = text d →
  (Variable_.expression d' = Variable_.expression d ∨ text d ∈ Batch.changed_names b) →
  changed e ⊆ Batch.changed_names b → Batch.touched b = touched e → Batch.pending b = Batch.pending (Edit.batch e) →
  kept n (Edit.mk (ExperimentState.set_variables (<[variable := d']> (variables_of e)) (Edit.state e))
    (Edit.counters e) b).
Proof.
  intros Hk Hd Ht' Htext Hor Hch Htou Hpend. pose proof Hk as [Hctr Hr Hm Ht Hn _ _ _].
  eapply kept_by_names; [done|..]; cbn; try done.
  - intros id x. destruct (decide (variable = id)) as [<-|Hne].
    + intros _. by eapply Hm.
    + rewrite lookup_insert_ne by done. apply Hm.
  - intros x [id Hid]. cbn in Hid. destruct (decide (variable = id)) as [<-|Hne].
    + rewrite lookup_insert_eq in Hid. injection Hid as <-. split; [done|].
      destruct Hor as [Heq|Hin]; [|left; congruence]. right. exists d. split_and!; [by exists variable|done|].
      intros before _. rewrite Heq. by apply follows_mono.
    + rewrite lookup_insert_ne in Hid by done. split; [apply Ht; by exists id|]. right. exists x.
      split_and!; [by exists id|done|]. intros before _. by apply follows_mono.
  - intros raw _. unfold name_in, definition_in. cbn. split; intros (x & (id & Hid) & Hx).
    + destruct (decide (variable = id)) as [<-|?].
      * rewrite lookup_insert_eq in Hid. injection Hid as <-. exists d. split; [by exists variable|congruence].
      * rewrite lookup_insert_ne in Hid by done. exists x. split; [by exists id|done].
    + destruct (decide (variable = id)) as [<-|?].
      * exists d'. split; [exists variable; by rewrite lookup_insert_eq|congruence].
      * exists x. split; [exists id; by rewrite lookup_insert_ne|done].
  - by apply same_components.
Qed.

(** ** Renames *)
Lemma qualified_rename d name : text (Variable_.set_name name d) = FQName.to_string (qualified (Variable_.namespace d) name).
Proof. done. Qed.

Section renaming.
Context (variable : VariableId.t) (name : Name.t) (old new : string) (Hsafe : safe_name new).
Abbreviation renames := ({[old := new]} : gmap string string).
Abbreviation renamed_names names := ({[new]} ∪ ({[old]} ∪ names)).

Lemma renamed_value names property v v' :
  value_utf8 v → rename_value renames new property v = Some (Ok v') →
  value_utf8 v' ∧ ∀ before, (∀ source unit si dimension, before = PropertyValue.Quantity source unit si dimension → parses source) →
    value_follows names before v → value_follows (renamed_names names) before v'.
Proof.
  intros Hu. destruct v as [source unit si dimension|b|t|source unit]; cbn [rename_value].
  - intros (out & Hout & [= <-])%outcome_bind_ok. split; [by apply (rewritten_utf8 old new new Hsafe source)|].
    intros before Hp. destruct before as [source0| | |]; cbn; try done. intros (Hf & -> & -> & ->). split_and!; try done.
    eapply follows_rename; [done|exact Hu| |exact Hf|exact Hout]. by eapply Hp.
  - intros [= <-]. split; [done|]. intros before _. by destruct before.
  - intros [= <-]. split; [done|]. intros before _. by destruct before.
  - intros [= <-]. split; [done|]. intros before _. by destruct before.
Qed.
Lemma renamed_component names type_id c c' :
  rename_component renames new type_id c = Some (Ok c') →
  map_Forall (λ _ v, value_utf8 v) (ObjectComponent.properties c) →
  map_Forall (λ _ v, value_utf8 v) (ObjectComponent.properties c')
  ∧ ∀ before, component_parses before → component_follows names before c →
      component_follows (renamed_names names) before c'.
Proof.
  unfold rename_component. intros (properties & Hprops & [= <-])%outcome_bind_ok Hu.
  pose proof (λ k, try_values_ok _ _ _ k Hprops) as Hat. cbn [ObjectComponent.properties ObjectComponent.schema_version].
  split.
  - intros property v' Hv'. specialize (Hat property). rewrite Hv' in Hat.
    destruct (ObjectComponent.properties c !! property) as [v|] eqn:Hv; [|done].
    by eapply (renamed_value ∅); [exact (Hu _ _ Hv)|exact Hat].
  - intros before Hp [Hver Hf]. split; [done|]. intros property. specialize (Hat property). specialize (Hf property).
    cbn [ObjectComponent.properties]. destruct (ObjectComponent.properties c !! property) as [v|] eqn:Hv,
      (properties !! property) as [v'|] eqn:Hv'; try done.
    destruct (ObjectComponent.properties before !! property) as [v0|] eqn:Hv0; [|done]. cbn in *.
    eapply renamed_value; [exact (Hu _ _ Hv)|exact Hat| |exact Hf]. intros source unit si dimension ->. by eapply Hp.
Qed.
Lemma renamed_at s s' names path c :
  try_values (rename_object renames new) (ExperimentState.objects s) = Some (Ok (ExperimentState.objects s')) →
  component_at s' path = Some c → ∃ c1, component_at s path = Some c1
    ∧ (map_Forall (λ _ v, value_utf8 v) (ObjectComponent.properties c1) →
       map_Forall (λ _ v, value_utf8 v) (ObjectComponent.properties c)
       ∧ ∀ before, component_parses before →
           component_follows names before c1 → component_follows (renamed_names names) before c).
Proof.
  intros Hobjs. unfold component_at, CapabilityReport.component_at.
  pose proof (try_values_ok _ _ _ (ComponentPath.object path) Hobjs) as Hat.
  destruct (ExperimentState.objects s !! ComponentPath.object path) as [o|],
    (ExperimentState.objects s' !! ComponentPath.object path) as [o'|]; try done. cbn.
  unfold rename_object in Hat. apply outcome_bind_ok in Hat as (components & Hcomps & [= <-]).
  cbn [Object_.components Object_.set_components].
  pose proof (try_values_ok _ _ _ (ComponentPath.component path) Hcomps) as Hatc. intros Hc. rewrite Hc in Hatc.
  destruct (Object_.components o !! ComponentPath.component path) as [c1|]; [|done].
  exists c1. split; [done|]. by apply (renamed_component names (ComponentPath.component path)).
Qed.
End renaming.

Lemma renamed_definition variable name renames new id d d' :
  rename_definition variable name renames new id d = Some (Ok d') →
  (id = variable ∧ d' = Variable_.set_name name d)
  ∨ (id ≠ variable ∧ ∃ out, rewritten (Variable_.expression d) renames new = Some (Ok out)
      ∧ d' = Variable_.set_expression out d).
Proof.
  unfold rename_definition. case_bool_decide as Hid; [by intros [= <-]; left|].
  intros (out & Hout & [= <-])%outcome_bind_ok. right. by eauto.
Qed.

Lemma rename_kept n variable name e e' :
  undotted name → (∀ namespace, known namespace → safe_name (FQName.to_string (qualified namespace name))) →
  rename_variable variable name e = Some (Ok ((), e')) → kept n e → kept n e'.
Proof.
  intros Hu Hsafe Hrun Hk. pose proof Hk as [Hctr Hr Hm Ht Hn _ _ _]. unfold rename_variable in Hrun. edits.
  match goal with Hx : find_variable _ _ = Ok ?x |- _ => rename x into d0; apply find_variable_ok in Hx as Hd0 end.
  assert (typed d0) as (_ & _ & Hns) by (apply Ht; by exists variable).
  destruct (decide _) as [|Hne]; [by edits|]. destruct (name_is_taken _ _ _); edits.
  set (old := text d0) in *. set (new := FQName.to_string _) in *.
  match goal with Hx : try_values _ (ExperimentState.variables _) = Some (Ok ?x), Hy : try_values _ (ExperimentState.objects _) = _ |- _ =>
    rename x into variables, Hx into Hvars, Hy into Hobjs end.
  pose proof (λ id, try_values_ok _ _ _ id Hvars) as Hat.
  eapply kept_by_names; [done|..]; cbn; try done.
  - intros id d Hd. specialize (Hat id). rewrite Hd in Hat.
    destruct (variables_of e !! id) as [d1|] eqn:Hd1; [|done]. by eapply Hm.
  - set_solver.
  - intros d [id Hid]. cbn in Hid. specialize (Hat id). rewrite Hid in Hat.
    destruct (variables_of e !! id) as [d1|] eqn:Hd1; [|done]. assert (typed d1) as (Hu1 & He1 & Hns1) by (apply Ht; by exists id).
    apply renamed_definition in Hat as [[-> ->]|(Hid' & out & Hout & ->)].
    + assert (d1 = d0) as -> by congruence. split; [done|]. left. change (text _) with new. set_solver.
    + split; [split_and!; [done|by eapply (rewritten_utf8 old new new (Hsafe _ Hns))|done]|].
      right. exists d1. split_and!; [by exists id|done|]. intros before Hp Hf.
      by eapply (follows_rename _ old new new); [exact (Hsafe _ Hns)|..].
  - intros raw Hraw. unfold name_in, definition_in. cbn. split.
    + intros (d & (id & Hid) & Hd). specialize (Hat id). rewrite Hid in Hat.
      destruct (variables_of e !! id) as [d1|] eqn:Hd1; [|done].
      apply renamed_definition in Hat as [[-> ->]|(Hid' & out & Hout & ->)].
      * assert (d1 = d0) as -> by congruence. change (text _) with new in Hd. set_solver.
      * exists d1. split; [by exists id|done].
    + intros (d1 & (id & Hd1) & Hd). specialize (Hat id). rewrite Hd1 in Hat.
      destruct (variables !! id) as [d|] eqn:Hid; [|done].
      apply renamed_definition in Hat as [[-> ->]|(Hid' & out & Hout & ->)].
      * assert (d1 = d0) as -> by congruence. change (text d0) with old in Hd. set_solver.
      * eexists. split; [by exists id|done].
  - intros path c. by apply (renamed_at old new (Hsafe _ Hns)).
Qed.

Lemma remove_kept n e variable d b :
  kept n e → variables_of e !! variable = Some d →
  Batch.changed_names b = {[text d]} ∪ changed e → Batch.touched b = touched e →
  Batch.pending b = Batch.pending (Edit.batch e) →
  kept n (Edit.mk (ExperimentState.set_variables (delete variable (variables_of e)) (Edit.state e)) (Edit.counters e) b).
Proof.
  intros Hk Hd Hch Htou Hpend. pose proof Hk as [Hctr Hr Hm Ht Hn _ _ _].
  assert (∀ id x, delete variable (variables_of e) !! id = Some x ↔ id ≠ variable ∧ variables_of e !! id = Some x) as Hdel.
  { intros id x. rewrite lookup_delete_Some. naive_solver. }
  eapply kept_by_names; [done|..]; cbn; try done.
  - intros id x [_ Hl]%Hdel. by eapply Hm.
  - set_solver.
  - intros x [id Hid]. cbn in Hid. apply Hdel in Hid as [_ Hid]. split; [apply Ht; by exists id|]. right. exists x.
    split_and!; [by exists id|done|]. intros before _. apply follows_mono. set_solver.
  - intros raw Hraw. unfold name_in, definition_in. cbn. setoid_rewrite Hdel. split; intros (x & (id & Hid) & Hx).
    + exists x. split; [by exists id; apply Hid|done].
    + exists x. split; [|done]. exists id. split; [|done]. intros ->. set_solver.
  - apply same_components; [done|]. set_solver.
Qed.

(** ** Any command *)
Lemma kept_weaken n n' e : (n' ≤ n)%N → kept n e → kept n' e.
Proof. intros Hle [Hr Hm Ht Hn Hd Hc Hp]. split; try done. lia. Qed.

Lemma apply_kept n command schemas limits e e' :
  admissible known command → apply command schemas limits e = Some (Ok ((), e')) → kept (n + 1) e → kept n e'.
Proof.
  intros Hadm Hrun Hk. assert (kept n e) as Hkn by (eapply kept_weaken; [|exact Hk]; lia).
  destruct (on_objects command) eqn:Hon; [by eapply objects_kept|].
  destruct command as [| | | | | | | | | | |spec|variable expression|variable name|variable|variable description| | |];
    try done; cbn [apply admissible] in *.
  - destruct Hadm as (? & ? & ?). by eapply define_kept.
  - edits. match goal with Hx : update_variable _ _ _ = Some (Ok (?u, _)) |- _ =>
      destruct u; apply update_variable_ok in Hx as (d & Hd & ->) end.
    match goal with Hx : qualified_of _ _ = Ok _ |- _ => unfold qualified_of in Hx end. edits.
    match goal with Hx : find_variable _ _ = Ok ?y |- _ => apply find_variable_ok in Hx; assert (y = d) as -> by congruence end.
    subst. pose proof (kept_typed n e Hkn d (ex_intro _ _ Hd)) as (? & ? & ?).
    eapply (rewrite_one_kept n e); [done|exact Hd|done|done|right; cbn; set_solver|cbn; set_solver|done|done].
  - by destruct Hadm; eapply rename_kept.
  - edits. match goal with Hx : qualified_of _ _ = Ok _ |- _ => unfold qualified_of in Hx end. edits.
    match goal with Hx : find_variable _ _ = Ok ?y |- _ => apply find_variable_ok in Hx end.
    subst. by eapply remove_kept.
  - edits. match goal with Hx : update_variable _ _ _ = Some (Ok (?u, _)) |- _ => apply update_variable_ok in Hx as (d & Hd & ->) end.
    pose proof (kept_typed n e Hkn d (ex_intro _ _ Hd)) as (? & ? & ?).
    eapply (rewrite_one_kept n e); [done|exact Hd|done|done|by left|done|done|done].
Qed.

Lemma apply_all_kept commands schemas limits : ∀ e e',
  Forall (admissible known) commands → apply_all commands schemas limits e = Some (Ok ((), e')) →
  kept (lenN commands) e → kept 0 e'.
Proof.
  induction commands as [|command commands IH]; intros e e' Hadm Hrun Hk; cbn [apply_all] in Hrun; [by edits|].
  inversion Hadm as [|? ? Hc Hcs]; subst. apply bind_ok in Hrun as ([] & e1 & H1 & Hrun).
  apply (IH e1 e' Hcs Hrun). eapply apply_kept; [exact Hc|exact H1|].
  replace (lenN commands + 1)%N with (lenN (command :: commands)) by (unfold lenN; cbn [length]; lia). exact Hk.
Qed.
End kept.
End structure.
