(* ===== verification/Settled.v ===== *)
(** * The contents are what a full evaluation gives (kagami-document, update.rs)

    A transition prices only what a batch authored or disturbed. What it leaves
    is what evaluating everything again would give. *)

From stdpp Require Import base gmap strings list relations.
From S2P Require Import Prelude Identity VarLimits Action Binary64 Quantity Expression Grammar Namespace Evaluation System Resolution Variables Locality PluginIds Lock Schema Geometry Document Experiment Validate Edit Compile Follow Structure Hydrate.

Section settled.
Context `{ScientificValidation} `{Unicode} `{Libm}.
Implicit Types (s state : ExperimentState.t).
Abbreviation definitions s := (btree_values (ExperimentState.variables s)).
Abbreviation text := Variable_.qualified_name.

(** ** Stored values *)
Definition stored s (path : PropertyPath.t) : option PropertyValue.t :=
  component_at s (PropertyPath.component path) ≫= λ c, ObjectComponent.properties c !! PropertyPath.property path.

Lemma elem_of_attached (objects : gmap ObjectId.t Object_.t) path c :
  (path, c) ∈ attached objects ↔
  ∃ o, objects !! ComponentPath.object path = Some o ∧ Object_.components o !! ComponentPath.component path = Some c.
Proof.
  unfold attached. rewrite list_elem_of_bind. split.
  - intros ([id o] & Hin & Hid). apply elem_of_btree_entries in Hid. cbn in Hin.
    apply list_elem_of_fmap in Hin as ([type_id c'] & [= -> ->] & Hc). apply elem_of_btree_entries in Hc. by exists o.
  - intros (o & Ho & Hc). exists (ComponentPath.object path, o). split; [|by apply elem_of_btree_entries].
    cbn. apply list_elem_of_fmap. exists (ComponentPath.component path, c). split; [by destruct path|by apply elem_of_btree_entries].
Qed.
Lemma attached_component_at s path c : (path, c) ∈ attached (ExperimentState.objects s) ↔ component_at s path = Some c.
Proof.
  rewrite elem_of_attached. unfold component_at, CapabilityReport.component_at.
  destruct (ExperimentState.objects s !! _) as [o|]; cbn; naive_solver.
Qed.
Lemma elem_of_stored_values s path source authored :
  (path, source, authored) ∈ stored_values s ↔
  ∃ v, stored s path = Some v ∧ source = PropertyValue.source v ∧ authored = PropertyValue.authored v.
Proof.
  unfold stored_values, stored. rewrite list_elem_of_bind. split.
  - intros ([cpath c] & Hin & Hc). apply attached_component_at in Hc. cbn in Hin.
    apply list_elem_of_fmap in Hin as ([property v] & [= -> -> ->] & Hv). apply elem_of_btree_entries in Hv.
    exists v. cbn. rewrite Hc. done.
  - intros (v & Hv & -> & ->). destruct (component_at s (PropertyPath.component path)) as [c|] eqn:Hc; [|done]. cbn in Hv.
    exists (PropertyPath.component path, c). split; [|by apply attached_component_at]. cbn.
    apply list_elem_of_fmap. exists (PropertyPath.property path, v). split; [by destruct path|by apply elem_of_btree_entries].
Qed.

(** ** Writes *)
Lemma component_write s path v cpath :
  component_at (write_property s (path, v)) cpath =
  (if decide (cpath = PropertyPath.component path) then write_value (PropertyPath.property path) v else id)
    <$> component_at s cpath.
Proof.
  destruct path as [[object type_id] property], cpath as [object' type_id'].
  unfold component_at, CapabilityReport.component_at, write_property.
  cbn [ExperimentState.objects ExperimentState.set_objects PropertyPath.component PropertyPath.property
    ComponentPath.object ComponentPath.component].
  destruct (decide (object = object')) as [<-|Hne].
  - rewrite lookup_alter_eq. destruct (ExperimentState.objects s !! object) as [o|]; [|done]. cbn.
    destruct (decide (type_id = type_id')) as [<-|Hne].
    + rewrite decide_True, lookup_alter_eq by done. done.
    + rewrite decide_False, lookup_alter_ne by congruence. by destruct (_ !! type_id').
  - rewrite lookup_alter_ne, decide_False by congruence. by destruct (_ ≫= _).
Qed.
Lemma stored_write s path v path' :
  path_exists s path = true →
  stored (write_property s (path, v)) path' = if decide (path' = path) then Some v else stored s path'.
Proof.
  intros Hex. apply bool_decide_eq_true in Hex as [c Hc]. unfold stored. rewrite component_write.
  destruct path as [cpath property], path' as [cpath' property']. cbn in *.
  destruct (decide (cpath' = cpath)) as [->|Hne].
  - rewrite Hc. cbn. destruct (decide (property' = property)) as [->|Hne].
    + rewrite decide_True by done. by rewrite lookup_insert_eq.
    + rewrite decide_False by congruence. by rewrite lookup_insert_ne.
  - rewrite decide_False by congruence. by destruct (component_at s cpath').
Qed.
Lemma path_exists_write s write path : path_exists (write_property s write) path = path_exists s path.
Proof.
  destruct write as [path' v]. unfold path_exists. rewrite component_write.
  apply bool_decide_ext. by rewrite fmap_is_Some.
Qed.
Lemma variables_write s write : ExperimentState.variables (write_property s write) = ExperimentState.variables s.
Proof. by destruct write. Qed.

Lemma variables_writes writes s : ExperimentState.variables (foldl write_property s writes) = ExperimentState.variables s.
Proof. revert s. induction writes as [|w writes IH]; intros s; [done|]. cbn. by rewrite IH, variables_write. Qed.
Lemma stored_writes writes : ∀ s path v,
  Forall (λ w, path_exists s w.1 = true) writes →
  stored (foldl write_property s writes) path = Some v →
  (path, v) ∈ writes ∨ path ∉ writes.*1 ∧ stored s path = Some v.
Proof.
  induction writes as [|[path1 v1] writes IH]; intros s path v Hall; cbn [foldl].
  { intros Hv. right. split; [apply not_elem_of_nil|done]. }
  inversion Hall as [|? ? Hhd Htl]; subst. intros Hv. apply IH in Hv.
  - cbn in Hhd. rewrite elem_of_cons, fmap_cons, elem_of_cons. cbn. rewrite stored_write in Hv by done.
    destruct Hv as [?|[Hn Hv]]; [by left; right|]. case_decide; [left; left; congruence|]. right. naive_solver.
  - eapply Forall_impl; [exact Htl|]. intros w. by rewrite path_exists_write.
Qed.

(** ** Values and what they were authored as *)

(** The value is what authoring it again would store. *)
Definition value_current (path : PropertyPath.t) (v : PropertyValue.t) (sys : VariablesSystem.t) (limits : Limits.t) : Prop :=
  match v with
  | PropertyValue.Quantity source unit _ dimension =>
    match PropertyValue.authored_quantity source unit with
    | AuthoredValue.Quantity expression unit => resolve_quantity path dimension expression unit sys limits = Some (Ok v)
    | _ => False
    end
  | _ => True
  end.

Lemma resolve_quantity_ok path dimension source unit sys limits v :
  resolve_quantity path dimension source unit sys limits = Some (Ok v) →
  ∃ c factor display_unit q, (str_len source ≤ Limits.max_expression_bytes limits)%N
    ∧ parse source = Some (Ok c)
    ∧ (lenN (CompiledExpression.variables c) ≤ Limits.max_expression_references limits)%N
    ∧ declared_unit path dimension unit = Ok (factor, display_unit)
    ∧ (∃ sys', eval sys source = Some (Ok q, sys'))
    ∧ priced path dimension source unit factor display_unit q = Ok v.
Proof.
  unfold resolve_quantity. destruct (N.ltb_spec (Limits.max_expression_bytes limits) (str_len source)) as [|Hlen]; [done|].
  destruct (parse source) as [[c|e]|] eqn:Hp; [|done|done].
  destruct (N.ltb_spec (Limits.max_expression_references limits) (lenN (CompiledExpression.variables c))) as [|Href]; [done|].
  intros ([factor display_unit] & [= Hdu] & Hrun)%outcome_bind_ok.
  destruct (eval sys source) as [[[q|[]] sys']|] eqn:Hev; try done. injection Hrun as Hv.
  exists c, factor, display_unit, q. split_and!; try done. by exists sys'.
Qed.
Lemma resolve_quantity_intro path dimension source unit sys limits c factor display_unit q v :
  (str_len source ≤ Limits.max_expression_bytes limits)%N → parse source = Some (Ok c) →
  (lenN (CompiledExpression.variables c) ≤ Limits.max_expression_references limits)%N →
  declared_unit path dimension unit = Ok (factor, display_unit) → (∃ sys', eval sys source = Some (Ok q, sys')) →
  priced path dimension source unit factor display_unit q = Ok v →
  resolve_quantity path dimension source unit sys limits = Some (Ok v).
Proof.
  intros Hlen Hp Href Hdu [sys' Hev] Hv. unfold resolve_quantity.
  rewrite (proj2 (N.ltb_ge _ _) Hlen), Hp, (proj2 (N.ltb_ge _ _) Href), Hdu. cbn. by rewrite Hev, Hv.
Qed.

Lemma declared_unit_ok path dimension unit factor display_unit :
  declared_unit path dimension unit = Ok (factor, display_unit) → display_unit = Unit.symbol <$> unit.
Proof. unfold declared_unit. destruct unit; [case_bool_decide; [|done]|]; by intros [= _ <-]. Qed.

(** What pricing stores is current, and keeps the source. *)
Lemma resolve_quantity_current path dimension source unit sys limits v :
  resolve_quantity path dimension source unit sys limits = Some (Ok v) →
  authored_typed (AuthoredValue.Quantity source unit) →
  value_utf8 v ∧ value_current path v sys limits.
Proof.
  intros Hr [Hu Ht]. pose proof Hr as Hrun.
  apply resolve_quantity_ok in Hr as (c & factor & display_unit & q & _ & _ & _ & Hdu & _ & Hv).
  apply declared_unit_ok in Hdu as ->. unfold priced in Hv.
  destruct (negb (Quantity.is_dimensionless q)).
  - case_bool_decide; [|done]. cbn in Hv. destruct unit; [done|]. injection Hv as <-. done.
  - destruct (negb _); [done|]. injection Hv as <-. split; [done|]. unfold value_current, PropertyValue.authored_quantity.
    destruct unit as [u|]; [|done]. cbn in Ht |- *. by rewrite Ht.
Qed.
Lemma resolve_property_current path schema authored sys limits v :
  resolve_property path schema authored sys limits = Some (Ok v) → authored_typed authored →
  value_utf8 v ∧ value_current path v sys limits.
Proof.
  intros (v' & Hv & Hcheck)%outcome_bind_ok Ht.
  assert (v' = v) as -> by (revert Hcheck; destruct (PropertyValue.schema_value v'); [destruct (PropertySchema.accepts _ _)|]; by intros [= ->]).
  clear Hcheck.
  destruct (PropertySchema.kind schema) as [dimension| |], authored as [source unit|b|t]; try done.
  - by eapply resolve_quantity_current.
  - by injection Hv as <-.
  - destruct (_ <? _)%N; [done|]. by injection Hv as <-.
Qed.

(** The value is one its declaration admits; an unpriced one has none. *)
Definition fits_declaration (limits : Limits.t) (schema : PropertySchema.t) (v : PropertyValue.t) : Prop :=
  match PropertySchema.kind schema, v with
  | PropertyKind.Quantity dimension, PropertyValue.Quantity _ _ _ held => held = dimension
  | PropertyKind.Boolean, PropertyValue.Boolean _ => True
  | PropertyKind.Text, PropertyValue.Text value => (str_len value ≤ Limits.max_text_bytes limits)%N
  | _, _ => False
  end
  ∧ ∃ value, PropertyValue.schema_value v = Some value ∧ PropertySchema.accepts schema value = true.
Definition value_fits (schemas : SchemaRegistry.t) (limits : Limits.t) (path : PropertyPath.t) (v : PropertyValue.t) : Prop :=
  match declared schemas path with
  | Some schema => fits_declaration limits schema v
  | None =>
    match v with
    | PropertyValue.Quantity _ _ _ _ => False
    | PropertyValue.Unresolved _ unit => ∀ symbol, unit = Some symbol → ∃ u, lookup symbol = Ok u
    | _ => True
    end
  end.

Lemma resolve_property_fits path schema authored sys limits v :
  resolve_property path schema authored sys limits = Some (Ok v) → fits_declaration limits schema v.
Proof.
  intros (v' & Hv & Hcheck)%outcome_bind_ok. unfold fits_declaration.
  destruct (PropertyValue.schema_value v') as [r|] eqn:Hr; [|done].
  destruct (PropertySchema.accepts schema r) eqn:Ha; [|done]. injection Hcheck as <-. split; [|by exists r]. clear Ha.
  destruct (PropertySchema.kind schema) as [dimension| |], authored as [source unit|b|t]; try done.
  - apply resolve_quantity_ok in Hv as (c & factor & display_unit & q & _ & _ & _ & _ & _ & Hv).
    unfold priced in Hv. destruct (negb (Quantity.is_dimensionless q)).
    + case_bool_decide; [|done]. cbn in Hv. destruct unit; [done|]. by injection Hv as <-.
    + destruct (negb _); [done|]. by injection Hv as <-.
  - by injection Hv as <-.
  - destruct (N.ltb_spec (Limits.max_text_bytes limits) (str_len t)); [done|]. by injection Hv as <-.
Qed.
Lemma property_schema_declared schemas path schema :
  property_schema schemas path = Ok schema ↔ declared schemas path = Some schema.
Proof.
  unfold property_schema, declared. destruct (SchemaRegistry.get schemas _) as [c|]; [|done]. cbn.
  destruct (ComponentSchema.properties c !! _); split; by intros [= ->].
Qed.
(** The value is one of a declared property. *)
Definition value_admitted (schemas : SchemaRegistry.t) (limits : Limits.t) (path : PropertyPath.t) (v : PropertyValue.t) : Prop :=
  ∃ schema, declared schemas path = Some schema ∧ fits_declaration limits schema v.
Lemma admitted_fits schemas limits path v : value_admitted schemas limits path v → value_fits schemas limits path v.
Proof. intros (schema & Hd & Hf). unfold value_fits. by rewrite Hd. Qed.
Lemma resolve_authored_admitted path authored schemas sys limits v :
  resolve_authored path authored schemas sys limits = Some (Ok v) → value_admitted schemas limits path v.
Proof.
  intros (schema & [= Hs] & Hv)%outcome_bind_ok. exists schema.
  split; [by apply property_schema_declared|by eapply resolve_property_fits].
Qed.

(** ** What the evaluation writes *)
Definition written s schemas path v variables limits : Prop :=
  path_exists s path = true ∧ value_utf8 v ∧ value_current path v variables limits ∧ value_admitted schemas limits path v.

Lemma price_pending_ok s schemas variables limits pending : ∀ writes,
  Forall (λ p, authored_typed (PendingValue.value p)) pending →
  price_pending s pending schemas variables limits = Some (Ok writes) →
  (∀ path v, (path, v) ∈ writes → written s schemas path v variables limits)
  ∧ ∀ path, path ∈ (PendingValue.path <$> pending) → path_exists s path = true → path ∈ writes.*1.
Proof.
  induction pending as [|[path value] pending IH]; intros writes Hall; cbn [price_pending].
  { intros [= <-]. split; [by intros ?? ?%elem_of_nil|by intros ? ?%elem_of_nil]. }
  inversion Hall as [|? ? Hhd Htl]; subst. destruct (path_exists s path) eqn:Hex; cbn [negb].
  - intros (v & Hv & (rest & Hrest & [= <-])%outcome_bind_ok)%outcome_bind_ok.
    destruct (IH rest Htl Hrest) as [Hw Hp]. pose proof (resolve_authored_admitted _ _ _ _ _ _ Hv) as Hfits.
    apply outcome_bind_ok in Hv as (schema & _ & Hv). apply resolve_property_current in Hv as [Hu Hcur]; [|done]. split.
    + intros path' v' [[= -> ->]|Hin]%elem_of_cons; [by split_and!|by apply Hw].
    + intros path'. rewrite !fmap_cons, !elem_of_cons. cbn. intros [->|Hin] Hex'; [by left|right; by apply Hp].
  - intros Hrest. destruct (IH writes Htl Hrest) as [Hw Hp]. split; [done|].
    intros path'. rewrite fmap_cons, elem_of_cons. cbn. intros [->|Hin] Hex'; [congruence|by apply Hp].
Qed.

Lemma price_stored_ok s batch affected schemas variables limits entries : ∀ writes,
  (∀ path source value, (path, source, value) ∈ entries → path_exists s path = true ∧ authored_typed value) →
  price_stored entries batch affected schemas variables limits = Some (Ok writes) →
  (∀ path v, (path, v) ∈ writes → written s schemas path v variables limits)
  ∧ ∀ path source value, (path, source, value) ∈ entries →
      path ∉ (PendingValue.path <$> Batch.pending batch) →
      disturbed (Batch.touched batch) affected (path, source, value) = true → path ∈ writes.*1.
Proof.
  induction entries as [|[[path source] value] entries IH]; intros writes Hall; cbn [price_stored].
  { intros [= <-]. split; [by intros ?? ?%elem_of_nil|by intros ??? ?%elem_of_nil]. }
  destruct (Hall path source value) as [Hex Ht]; [constructor|].
  assert (∀ path source value, (path, source, value) ∈ entries → path_exists s path = true ∧ authored_typed value) as Htl
    by (intros; eapply Hall; by constructor).
  destruct (bool_decide _ || _) eqn:Hskip.
  - intros Hrest. destruct (IH writes Htl Hrest) as [Hw Hp]. split; [done|].
    intros path' source' value' [[= -> -> ->]|Hin]%elem_of_cons Hn Hd; [|by eapply Hp].
    rewrite Hd, orb_false_r in Hskip. apply bool_decide_eq_true in Hskip. done.
  - intros (v & Hv & (rest & Hrest & [= <-])%outcome_bind_ok)%outcome_bind_ok.
    destruct (IH rest Htl Hrest) as [Hw Hp]. pose proof (resolve_authored_admitted _ _ _ _ _ _ Hv) as Hfits.
    apply outcome_bind_ok in Hv as (schema & _ & Hv). apply resolve_property_current in Hv as [Hu Hcur]; [|done]. split.
    + intros path' v' [[= -> ->]|Hin]%elem_of_cons; [by split_and!|by apply Hw].
    + intros path' source' value' [[= -> -> ->]|Hin]%elem_of_cons Hn Hd; rewrite fmap_cons, elem_of_cons; [by left|].
      right. by eapply Hp.
Qed.

Lemma authored_stored v : value_utf8 v → authored_typed (PropertyValue.authored v).
Proof.
  destruct v as [source unit si dimension|b|t|source unit]; cbn; try done; unfold PropertyValue.authored_quantity;
    (destruct unit as [symbol|]; cbn; [|done]); (destruct (lookup symbol) as [u|] eqn:Hl; cbn; [|done]);
    intros Hu; (split; [done|]); destruct (lookup_in _ _ Hl) as [_ ->]; done.
Qed.

(** The evaluated contents: the definitions, the system, and each value either
    priced in it or undisturbed. *)
Lemma evaluate_ok s batch schemas limits s' work :
  (∀ path v, stored s path = Some v → value_utf8 v) →
  Forall (λ p, authored_typed (PendingValue.value p)) (Batch.pending batch) →
  evaluate s batch schemas limits = Some (Ok (s', work)) →
  let affected := affected_names s (Batch.changed_names batch) limits in
  ∃ variables n, compile_variables s affected limits = Some (Ok (variables, n))
    ∧ ExperimentState.variables s' = ExperimentState.variables s
    ∧ ∀ path v, stored s' path = Some v → value_utf8 v ∧ (value_current path v variables limits ∧ value_admitted schemas limits path v
        ∨ stored s path = Some v ∧ PropertyPath.component path ∉ Batch.touched batch
          ∧ ∀ source, PropertyValue.source v = Some source → references_any source affected = false).
Proof.
  intros Hutf8 Hpend Hrun. cbn zeta. unfold evaluate in Hrun. cbn zeta in Hrun.
  set (affected := affected_names s (Batch.changed_names batch) limits) in *.
  apply outcome_bind_ok in Hrun as ([variables n] & Hc & Hrun). cbn in Hrun.
  apply outcome_bind_ok in Hrun as (authored & Ha & Hrun). apply outcome_bind_ok in Hrun as (repriced & Hr & [= <- _]).
  apply price_pending_ok in Ha as [Hwa Hpa]; [|done].
  assert (∀ path source value, (path, source, value) ∈ stored_values s → path_exists s path = true ∧ authored_typed value) as Hentries.
  { intros path source value (v & Hv & _ & ->)%elem_of_stored_values. split; [|by eapply authored_stored, Hutf8].
    apply bool_decide_eq_true. unfold stored in Hv. destruct (component_at s _); [by eexists|done]. }
  assert ((∀ path v, (path, v) ∈ repriced → written s schemas path v variables limits)
    ∧ ∀ path source value, (path, source, value) ∈ stored_values s →
      path ∉ (PendingValue.path <$> Batch.pending batch) →
      disturbed (Batch.touched batch) affected (path, source, value) = true → path ∈ repriced.*1) as [Hwr Hpr].
  { destruct (bool_decide _ && _) eqn:Hnone; [|by eapply price_stored_ok].
    apply andb_true_iff in Hnone as [He%bool_decide_eq_true Ht%bool_decide_eq_true]. injection Hr as <-.
    split; [by intros ?? ?%elem_of_nil|]. intros path source value _ _. unfold disturbed. rewrite He, Ht.
    rewrite bool_decide_false by apply not_elem_of_nil. destruct source as [source|]; [|done].
    intros (c & _ & raw & _ & Hin)%references_any_spec. set_solver. }
  exists variables, n. split_and!; [done|apply variables_writes|]. intros path v Hv.
  apply stored_writes in Hv.
  - destruct Hv as [[Hin|Hin]%elem_of_app|[Hn Hs]]; [apply Hwa in Hin as (_ & ? & ? & ?); by auto|apply Hwr in Hin as (_ & ? & ? & ?); by auto|].
    rewrite fmap_app, not_elem_of_app in Hn. destruct Hn as [Hna Hnr]. split; [by eapply Hutf8|]. right.
    assert ((path, PropertyValue.source v, PropertyValue.authored v) ∈ stored_values s) as Hin
      by (apply elem_of_stored_values; by exists v).
    destruct (Hentries _ _ _ Hin) as [Hex _].
    assert (path ∉ PendingValue.path <$> Batch.pending batch) as Hnp by (intros Hp; by apply Hna, Hpa).
    pose proof (Hpr _ _ _ Hin Hnp) as Hd. destruct (disturbed _ _ _) eqn:Hdd; [by destruct (Hnr (Hd eq_refl))|].
    unfold disturbed in Hdd. apply orb_false_iff in Hdd as [Ht%bool_decide_eq_false Hsrc].
    split_and!; [done|done|]. intros source Heq. by rewrite Heq in Hsrc.
  - apply Forall_forall. intros [path' v'] [Hin|Hin]%elem_of_app; [by apply Hwa in Hin as []|by apply Hwr in Hin as []].
Qed.

(** ** The invariant *)

(** Every definition has a value, and every stored quantity is the one that
    authoring it again in these definitions would store. *)
Record settled (limits : Limits.t) s : Prop := {
  settled_typed : ∀ d, definition_in d s → undotted (Variable_.name d) ∧ utf8 (Variable_.expression d);
  settled_graph : ∃ sys, compile_document_variables s limits = Some (Ok sys)
    ∧ ∀ path v, stored s path = Some v → value_utf8 v ∧ value_current path v sys limits
}.

Lemma compile_same s s' limits :
  ExperimentState.variables s' = ExperimentState.variables s →
  compile_document_variables s' limits = compile_document_variables s limits.
Proof. intros Heq. unfold compile_document_variables, compile_variables, all_names. by rewrite Heq. Qed.
Lemma settled_same limits s s' :
  ExperimentState.variables s' = ExperimentState.variables s → ExperimentState.objects s' = ExperimentState.objects s →
  settled limits s → settled limits s'.
Proof.
  intros Hv Ho [Ht (sys & Hc & Hval)]. split.
  - intros d [id Hid]. apply Ht. exists id. by rewrite <- Hv.
  - exists sys. rewrite (compile_same s s' limits Hv). split; [done|]. intros path v Hp. apply Hval.
    revert Hp. unfold stored, component_at, CapabilityReport.component_at. by rewrite Ho.
Qed.

Lemma named_all limits s : settled limits s → Forall named (definitions s).
Proof. intros [Ht _]. apply Forall_forall. intros d Hd. by apply Ht, definition_in_values. Qed.

Lemma compiled_name s sys raw :
  compiled_from (definitions s) sys → is_Some (VariablesSystem.symbol_variable sys raw) ↔ name_in raw s.
Proof.
  intros Hc. split.
  - intros [id Hid]. apply (from_symbol _ _ Hc) in Hid. apply list_elem_of_fmap in Hid as (d & -> & Hd).
    exists d. split; [by apply definition_in_values|done].
  - intros (d & Hd & <-). apply definition_in_values in Hd.
    destruct (from_definition _ _ Hc d Hd) as (id & v & Hid & _). by exists id.
Qed.
Lemma compiled_tree s sys d id v :
  compiled_from (definitions s) sys → definition_in d s →
  VariablesSystem.symbol_variable sys (text d) = Some id → VariablesSystem.get sys id = Some v →
  parse (Variable_.expression d) = Some (Ok (System.Variable_.expression v)).
Proof.
  intros Hc Hd Hid Hv. apply definition_in_values in Hd.
  destruct (from_definition _ _ Hc d Hd) as (id' & v' & Hid' & Hv' & Hp). congruence.
Qed.

Section preserved.
Context (known : Namespace.t → Prop) (limits : Limits.t) (s0 : ExperimentState.t) (minted0 : N) (e : Edit.t).
Context (Hkept : kept known s0 minted0 0 e).
Abbreviation s1 := (Edit.state e).
Abbreviation affected := (affected_names s1 (Batch.changed_names (Edit.batch e)) limits).
Context (Hsize : (N.of_nat (size (ExperimentState.variables s1)) ≤ Limits.max_variables limits)%N).
Context (sys0 sys1 : VariablesSystem.t).
Context (Hc0 : compiled_from (definitions s0) sys0) (Hc1 : compiled_from (definitions s1) sys1).

(** A definition outside the affected names is one the batch started from. *)
Lemma undisturbed_definition d :
  definition_in d s1 → text d ∉ affected →
  ∃ d0, definition_in d0 s0 ∧ text d0 = text d ∧ Variable_.expression d0 = Variable_.expression d.
Proof.
  destruct (affected_closed s1 (Batch.changed_names (Edit.batch e)) limits Hsize) as [Hsub Hcl].
  intros Hd Hn. destruct (kept_definitions _ _ _ _ _ Hkept d Hd) as [Hin|(d0 & Hd0 & Ht & Hf)]; [by apply Hsub in Hin|].
  exists d0. split_and!; [done|done|]. destruct Hf as [->|Hr]; [done|]. destruct Hn.
  apply Hcl; [by apply definition_in_values|]. by eapply references_any_mono.
Qed.

Lemma systems_agree : agree sys0 sys1 (λ raw, raw ∉ affected).
Proof.
  destruct (affected_closed s1 (Batch.changed_names (Edit.batch e)) limits Hsize) as [Hsub Hcl].
  assert (∀ a b va vb, twin sys0 sys1 (λ raw, raw ∉ affected) a b → VariablesSystem.get sys0 a = Some va →
    VariablesSystem.get sys1 b = Some vb → expr_of va = expr_of vb ∧ ∃ d, definition_in d s1 ∧ text d ∉ affected
      ∧ parse (Variable_.expression d) = Some (Ok (System.Variable_.expression vb))) as Htree.
  { intros a b va vb (raw & Hraw & Ha & Hb) Hva Hvb.
    destruct (proj1 (compiled_name s1 sys1 raw Hc1) (ex_intro _ _ Hb)) as (d & Hd & <-).
    destruct (undisturbed_definition d Hd Hraw) as (d0 & Hd0 & Ht & He). rewrite <- Ht in Ha.
    pose proof (compiled_tree s0 sys0 d0 a va Hc0 Hd0 Ha Hva) as Hp0.
    pose proof (compiled_tree s1 sys1 d b vb Hc1 Hd Hb Hvb) as Hp1. split; [|by exists d].
    rewrite He in Hp0. unfold expr_of. congruence. }
  split.
  - by rewrite (from_limits _ _ Hc0), (from_limits _ _ Hc1).
  - intros raw Hraw. rewrite (compiled_name s0 sys0 raw Hc0), (compiled_name s1 sys1 raw Hc1).
    symmetry. apply (kept_names _ _ _ _ _ Hkept). set_solver.
  - intros a b va vb Ht Hva Hvb. by destruct (Htree a b va vb Ht Hva Hvb).
  - intros a b va raw Ht Hva Hraw Hin. destruct Ht as (raw' & Hraw' & Ha & Hb).
    destruct (wf_known sys1 (from_wf _ _ Hc1) raw' b Hb) as [vb Hvb].
    destruct (Htree a b va vb) as (Heq & d & Hd & Hnot & Hp); [by exists raw'|done|done|].
    apply Hnot, Hcl; [by apply definition_in_values|]. apply references_any_spec. eexists. split; [exact Hp|].
    exists raw. split; [|done]. unfold expr_of in Heq. by rewrite <- Heq.
Qed.

Lemma resolves_kept raw : raw ∉ affected → name_in raw s1 → resolves sys0 raw → resolves sys1 raw.
Proof.
  intros Hraw Hname (a & q & st & Ha & Hq).
  destruct (proj2 (compiled_name s1 sys1 raw Hc1) Hname) as [b Hb].
  destruct (value_agrees sys0 sys1 (from_wf _ _ Hc0) (from_wf _ _ Hc1) _ systems_agree a b q) as [st' Hq'];
    [by exists raw|by exists st|]. by exists b, q, st'.
Qed.

Lemma current_kept path v :
  (∀ source, PropertyValue.source v = Some source → references_any source affected = false) →
  value_current path v sys0 limits → value_current path v sys1 limits.
Proof.
  destruct v as [source unit si dimension|b|t|source unit]; try done. intros Hn. specialize (Hn source eq_refl).
  unfold value_current. assert (∃ u, PropertyValue.authored_quantity source unit = AuthoredValue.Quantity source u) as [u ->].
  { unfold PropertyValue.authored_quantity. destruct (lookup <$> unit) as [[]|]; by eexists. }
  intros (c & factor & du & q & Hlen & Hp & Href & Hdu & Hev & Hv)%resolve_quantity_ok.
  eapply resolve_quantity_intro; [done..| |exact Hv].
  eapply (eval_agrees sys0 sys1 (from_wf _ _ Hc0) (from_wf _ _ Hc1) _ systems_agree); [by rewrite (from_limits _ _ Hc0)| |done].
  intros raw Hraw Hin. assert (references_any source affected = true); [|congruence].
  apply references_any_spec. by exists c; eauto.
Qed.
End preserved.

Lemma kept_utf8 known s0 minted0 n e : kept known s0 minted0 n e → ∀ path v, stored (Edit.state e) path = Some v → value_utf8 v.
Proof.
  intros Hk path v Hv. unfold stored in Hv. destruct (component_at (Edit.state e) _) as [c|] eqn:Hca; [|done].
  destruct (kept_components _ _ _ _ _ Hk _ _ Hca) as [Hu _]. by eapply Hu.
Qed.

Lemma evaluated_settled known limits s0 minted0 e schemas s' work :
  settled limits s0 → kept known s0 minted0 0 e →
  evaluate (Edit.state e) (Edit.batch e) schemas limits = Some (Ok (s', work)) → settled limits s'.
Proof.
  intros Hs Hkept Hrun. pose proof (named_all limits s0 Hs) as Hn0. destruct Hs as [_ (sys0 & Hcomp0 & Hval0)].
  assert (∀ d, definition_in d (Edit.state e) → undotted (Variable_.name d) ∧ utf8 (Variable_.expression d)) as Htyped
    by (intros d Hd; by destruct (kept_typed _ _ _ _ _ Hkept d Hd) as (? & ? & _)).
  assert (Forall named (definitions (Edit.state e))) as Hn1
    by (apply Forall_forall; intros d Hd; by apply Htyped, definition_in_values).
  apply evaluate_ok in Hrun as (sys1 & n & Hcv & Hvars & Hvals).
  - destruct (compile_document_ok _ _ _ Hn0 Hcomp0) as (_ & Hc0 & Hr0).
    destruct (compile_variables_ok _ _ _ _ _ Hn1 Hcv) as (Hsize & Hc1 & Hr1). split.
    + intros d [id Hid]. apply Htyped. exists id. by rewrite <- Hvars.
    + exists sys1. rewrite (compile_same _ _ _ Hvars). split.
      * eapply compile_document_intro; [done|exact Hcv|]. intros d Hd.
        destruct (decide (text d ∈ affected_names (Edit.state e) (Batch.changed_names (Edit.batch e)) limits)) as [|Hna]; [by apply Hr1|].
        apply (resolves_kept known limits s0 minted0 e Hkept Hsize sys0 sys1 Hc0 Hc1); [done|exists d; split; [by apply definition_in_values|done]|].
        destruct (undisturbed_definition known limits s0 minted0 e Hkept Hsize d) as (d0 & Hd0 & <- & _); [by apply definition_in_values|done|].
        by apply Hr0, definition_in_values.
      * intros path v Hv. destruct (Hvals path v Hv) as [Hu Hor]. split; [done|].
        destruct Hor as [[? _]|(Hst & Ht & Hsrc)]; [done|].
        apply (current_kept known limits s0 minted0 e Hkept Hsize sys0 sys1 Hc0 Hc1); [done|].
        destruct v as [source unit si dimension|b|t|source unit]; try done.
        unfold stored in Hst. destruct (component_at (Edit.state e) _) as [c|] eqn:Hca; [|done]. cbn in Hst.
        destruct (kept_components _ _ _ _ _ Hkept _ _ Hca) as [_ [|(c0 & Hc0a & _ & Hf)]]; [done|].
        specialize (Hf (PropertyPath.property path)). rewrite Hst in Hf.
        destruct (ObjectComponent.properties c0 !! _) as [v0|] eqn:Hv0; [|done].
        destruct v0 as [source0 unit0 si0 dimension0| | |]; try done. cbn in Hf. destruct Hf as (Hfs & -> & -> & ->).
        assert (source = source0) as ->.
        { destruct Hfs as [|Hr]; [done|]. assert (references_any source
            (affected_names (Edit.state e) (Batch.changed_names (Edit.batch e)) limits) = true) as Hx.
          - eapply references_any_mono; [|exact Hr]. by apply affected_closed.
          - by rewrite (Hsrc source eq_refl) in Hx. }
        eapply Hval0. unfold stored. by rewrite Hc0a.
  - by eapply kept_utf8.
  - apply (kept_pending _ _ _ _ _ Hkept).
Qed.

(** ** Transitions *)
Definition start (experiment : Experiment.t) : Edit.t :=
  Edit.mk (Experiment.state experiment) (Experiment.counters experiment) Batch.default.

(** What an accepted batch went through. *)
Lemma update_ok experiment commands schemas limits candidate :
  update experiment commands schemas limits = Some (Ok candidate) ↔
  ∃ e s work, (lenN commands ≤ Limits.max_commands_per_batch limits)%N
    ∧ apply_all commands schemas limits (start experiment) = Some (Ok ((), e))
    ∧ evaluate (Edit.state e) (Edit.batch e) schemas limits = Some (Ok (s, work))
    ∧ validate_structure s limits = Some (Ok ())
    ∧ validate_governed s (Batch.touched (Edit.batch e)) schemas = Ok ()
    ∧ (let revision := ExperimentRevision.next (Experiment.revision experiment) in
       candidate = Candidate.mk (Experiment.mk (ExperimentState.set_revision revision s) (Edit.counters e))
         (CommitReport.mk revision (Batch.created_objects (Edit.batch e)) (Batch.removed_objects (Edit.batch e))
            (Batch.created_variables (Edit.batch e)) work (ExperimentCommand.batch_label commands))
       ∧ validate_scientific (ExperimentState.set_revision revision s) limits = Some (Ok ())).
Proof.
  unfold update, fold, fold_against. cbn zeta. rewrite outcome_bind_ok. split.
  - intros (c & Hfold & Hrun). destruct (N.ltb_spec (Limits.max_commands_per_batch limits) (lenN commands)); [done|].
    apply outcome_bind_ok in Hfold as ([[] e] & Happ & Hfold). apply outcome_bind_ok in Hfold as ([s work] & Hev & Hfold).
    apply outcome_bind_ok in Hfold as ([] & Hst & Hfold). apply outcome_bind_ok in Hfold as ([] & [= Hg] & [= <-]).
    apply outcome_bind_ok in Hrun as ([] & Hsc & [= <-]). exists e, s, work. by split_and!.
  - intros (e & s & work & Hlen & Happ & Hev & Hst & Hg & -> & Hsc).
    match goal with |- ∃ a, _ ∧ _ = Some (Ok ?c) => exists c end.
    split; [|apply outcome_bind_ok; exists (); split; [exact Hsc|done]].
    rewrite (proj2 (N.ltb_ge _ _) Hlen). apply outcome_bind_ok. exists ((), e). split; [exact Happ|].
    apply outcome_bind_ok. exists (s, work). split; [exact Hev|].
    apply outcome_bind_ok. exists (). split; [exact Hst|]. unfold answer. by rewrite Hg.
Qed.

(** Every identity of a definition has been minted. *)
Definition all_minted s (counters : Counters.t) : Prop :=
  ∀ id d, ExperimentState.variables s !! id = Some d → (VariableId.get id < Counters.variable counters)%N.

(** The namespaces a batch meets. *)
Definition namespaces s (commands : list ExperimentCommand.t) (namespace : Namespace.t) : Prop :=
  (∃ d, definition_in d s ∧ Variable_.namespace d = namespace)
  ∨ ∃ spec, ExperimentCommand.DefineVariable spec ∈ commands ∧ VariableSpec.namespace spec = namespace.

(** What the types of a batch hold, room for the identities it may mint, and
    renames to names that read as one symbol wherever they are written. *)
Definition well_formed_batch (experiment : Experiment.t) (commands : list ExperimentCommand.t) : Prop :=
  (Counters.variable (Experiment.counters experiment) + lenN commands < 2 ^ 64)%N
  ∧ (Counters.object (Experiment.counters experiment) + lenN commands < 2 ^ 64)%N
  ∧ ∀ command, command ∈ commands →
      admissible (namespaces (Experiment.state experiment) commands) command.

Lemma start_kept limits experiment commands :
  settled limits (Experiment.state experiment) → all_minted (Experiment.state experiment) (Experiment.counters experiment) →
  (Counters.variable (Experiment.counters experiment) + lenN commands < 2 ^ 64)%N →
  kept (namespaces (Experiment.state experiment) commands) (Experiment.state experiment)
    (Counters.variable (Experiment.counters experiment)) (lenN commands) (start experiment).
Proof.
  intros [Ht (sys & _ & Hval)] Hm Hroom. split; cbn; try done.
  - intros d Hd. destruct (Ht d Hd). split_and!; [done|done|]. left. by exists d.
  - intros d Hd. right. exists d. split_and!; [done|done|by left].
  - intros path c Hc. split.
    + intros property v Hv. apply (Hval (PropertyPath.mk path property) v). unfold stored. cbn. by rewrite Hc.
    + right. exists c. split; [done|apply component_follows_refl].
Qed.

Lemma settled_parses limits s : settled limits s →
  (∀ d, definition_in d s → parses (Variable_.expression d))
  ∧ ∀ path c property source unit si dimension, component_at s path = Some c →
      ObjectComponent.properties c !! property = Some (PropertyValue.Quantity source unit si dimension) → parses source.
Proof.
  intros Hs. pose proof (named_all limits s Hs) as Hn. destruct Hs as [_ (sys & Hc & Hval)].
  destruct (compile_document_ok _ _ _ Hn Hc) as (_ & Hfrom & _). split.
  - intros d Hd%definition_in_values. destruct (from_definition _ _ Hfrom d Hd) as (_ & v & _ & _ & Hp). by eexists.
  - intros path c property source unit si dimension Hca Hv.
    destruct (Hval (PropertyPath.mk path property) (PropertyValue.Quantity source unit si dimension)) as [_ Hcur].
    + unfold stored. cbn. by rewrite Hca.
    + unfold value_current in Hcur.
      assert (∃ u, PropertyValue.authored_quantity source unit = AuthoredValue.Quantity source u) as [u Hu].
      { unfold PropertyValue.authored_quantity. destruct (lookup <$> unit) as [[]|]; by eexists. }
      rewrite Hu in Hcur. apply resolve_quantity_ok in Hcur as (c' & _ & _ & _ & _ & Hp & _). by exists c'.
Qed.

Lemma updated_settled limits experiment commands schemas candidate :
  settled limits (Experiment.state experiment) → all_minted (Experiment.state experiment) (Experiment.counters experiment) →
  well_formed_batch experiment commands → update experiment commands schemas limits = Some (Ok candidate) →
  settled limits (Experiment.state (Candidate.experiment candidate))
  ∧ all_minted (Experiment.state (Candidate.experiment candidate)) (Experiment.counters (Candidate.experiment candidate))
  ∧ (Counters.variable (Experiment.counters experiment)
      ≤ Counters.variable (Experiment.counters (Candidate.experiment candidate)))%N.
Proof.
  intros Hs Hm (Hroom & _ & Hadm) Hrun. apply update_ok in Hrun as (e & s & work & _ & Happ & Hev & _ & _ & -> & _).
  destruct (settled_parses limits _ Hs) as [Hp1 Hp2].
  pose proof (apply_all_kept _ _ _ Hp1 Hp2 commands schemas limits (start experiment) e
    (proj2 (Forall_forall _ _) Hadm) Happ (start_kept limits experiment commands Hs Hm Hroom)) as Hk.
  cbn [Candidate.experiment Experiment.state Experiment.counters]. split_and!.
  - apply (settled_same limits s); [done|done|]. by eapply evaluated_settled.
  - intros id d Hid. cbn in Hid. apply (kept_minted _ _ _ _ _ Hk id d).
    assert (ExperimentState.variables s = ExperimentState.variables (Edit.state e)) as <-; [|done].
    unfold evaluate in Hev. cbn zeta in Hev. apply outcome_bind_ok in Hev as ([variables n] & _ & Hev).
    apply outcome_bind_ok in Hev as (authored & _ & Hev). apply outcome_bind_ok in Hev as (repriced & _ & [= <- _]).
    apply variables_writes.
  - exact (kept_counter _ _ _ _ _ Hk).
Qed.
End settled.
