(* ===== verification/Reached.v ===== *)
(** * Every document the operations can make (kagami-document: update.rs,
    hydrate.rs)

    A loaded document, one edited and one restored hold what a full evaluation
    gives; a rename to a name that reads as an exponent does not. *)

From Stdlib Require Import Ascii.
From stdpp Require Import base gmap strings list.
From S2P Require Import Prelude Identity VarLimits Action Binary64 Quantity Expression Grammar Namespace Evaluation System Resolution Variables Rewrite PluginIds Lock Schema Geometry Document Experiment Validate Edit Compile Follow Structure Hydrate Settled.

Section reached.
Context `{ScientificValidation} `{Unicode} `{Libm}.
Implicit Types (s : ExperimentState.t) (experiment : Experiment.t).

(** ** Loading *)

(** What the types of a record hold. *)
Definition typed_record (r : DocumentRecord.t) : Prop :=
  (∀ d, d ∈ DocumentRecord.variables r → undotted (VariableRecord.name d) ∧ utf8 (VariableRecord.expression d))
  ∧ ∀ o type_id c property v, o ∈ DocumentRecord.objects r → ObjectRecord.components o !! type_id = Some c →
      ComponentRecord.properties c !! property = Some v → authored_typed v.

Lemma hydrate_definitions_ok counters limits definitions : ∀ variables variables',
  hydrate_definitions counters limits definitions variables = Ok variables' →
  ∀ id d, variables' !! id = Some d → variables !! id = Some d
    ∨ (VariableId.get id < Counters.variable counters)%N
      ∧ ∃ r, r ∈ definitions ∧ Variable_.name d = VariableRecord.name r ∧ Variable_.expression d = VariableRecord.expression r.
Proof.
  induction definitions as [|r definitions IH]; intros variables variables'; cbn [hydrate_definitions].
  { intros [= <-]. by left. }
  intros (variables1 & Hone & Hrest)%result_bind_ok id d Hd. destruct (IH _ _ Hrest id d Hd) as [Hl|(Hid & r' & Hr' & ?)].
  - unfold hydrate_variable, Counters.restored_variable in Hone. destruct (N.ltb_spec (VariableRecord.id r) (Counters.variable counters)) as [Hlt|]; [|done].
    destruct (contains_key _ variables); [done|]. cbn zeta in Hone. apply result_bind_ok in Hone as (? & _ & Hone).
    apply result_bind_ok in Hone as (? & _ & Hone). injection Hone as <-.
    apply lookup_insert_Some in Hl as [[<- <-]|[_ ?]]; [|by left]. right. split; [done|]. exists r. by split_and!; [constructor|..].
  - right. split; [done|]. exists r'. split; [by constructor|done].
Qed.

Lemma hydrate_value_current path authored schemas sys limits v :
  authored_typed authored → hydrate_value path authored schemas sys limits = Some (Ok v) →
  value_utf8 v ∧ value_current path v sys limits.
Proof.
  intros Ht. unfold hydrate_value. destruct (declared schemas path) as [schema|].
  - intros Hr. by eapply resolve_property_current.
  - intros [= <-]. destruct authored as [source unit|b|t]; cbn; [|done..]. by destruct Ht.
Qed.

Lemma hydrate_objects_ok counters schemas sys limits records : ∀ objects objects',
  (∀ o type_id c property v, o ∈ records → ObjectRecord.components o !! type_id = Some c →
      ComponentRecord.properties c !! property = Some v → authored_typed v) →
  hydrate_objects counters schemas sys limits records objects = Some (Ok objects') →
  ∀ id o type_id c property v, objects' !! id = Some o → Object_.components o !! type_id = Some c →
    ObjectComponent.properties c !! property = Some v →
    objects !! id = Some o
    ∨ ∃ authored, authored_typed authored
        ∧ hydrate_value (PropertyPath.new id type_id property) authored schemas sys limits = Some (Ok v).
Proof.
  induction records as [|r records IH]; intros objects objects' Ht; cbn [hydrate_objects].
  { intros [= <-] id o **. by left. }
  unfold Counters.restored_object. destruct (_ <? _)%N; [|done]. destruct (contains_key _ objects); [done|].
  intros (components & Hcomps & Hrest)%outcome_bind_ok id o type_id c property v Ho Hc Hv.
  edestruct (IH _ _ ltac:(intros; eapply Ht; [by constructor|done..]) Hrest id o type_id c property v Ho Hc Hv) as [Hl|?]; [|by right].
  apply lookup_insert_Some in Hl as [[<- <-]|[_ ?]]; [|by left]. right. cbn in Hc.
  pose proof (try_values_ok _ _ _ type_id Hcomps) as Hat. rewrite Hc in Hat.
  destruct (ObjectRecord.components r !! type_id) as [rc|] eqn:Hrc; [|done].
  unfold hydrate_component in Hat. apply outcome_bind_ok in Hat as (properties & Hprops & [= <-]).
  pose proof (try_values_ok _ _ _ property Hprops) as Hatp. cbn in Hv. rewrite Hv in Hatp.
  destruct (ComponentRecord.properties rc !! property) as [authored|] eqn:Hauth; [|done].
  exists authored. split; [|exact Hatp]. eapply Ht; [constructor|done..].
Qed.

Lemma hydrated_value counters schemas sys limits records objects s :
  (∀ o type_id c property v, o ∈ records → ObjectRecord.components o !! type_id = Some c →
      ComponentRecord.properties c !! property = Some v → authored_typed v) →
  hydrate_objects counters schemas sys limits records ∅ = Some (Ok objects) →
  ∀ path v, stored (ExperimentState.set_objects objects s) path = Some v →
    ∃ authored, authored_typed authored ∧ hydrate_value path authored schemas sys limits = Some (Ok v).
Proof.
  intros Ht Hobjs [[object type_id] property] v. unfold stored, component_at, CapabilityReport.component_at. cbn.
  destruct (objects !! object) as [o|] eqn:Ho; [|done]. cbn.
  destruct (Object_.components o !! type_id) as [c|] eqn:Hc; [|done]. cbn. intros Hv.
  destruct (hydrate_objects_ok _ _ _ _ _ _ _ Ht Hobjs object o type_id c property v Ho Hc Hv) as [Hl|?]; [by rewrite lookup_empty in Hl|done].
Qed.

Lemma hydrated_settled record dependencies schemas limits experiment :
  typed_record record → hydrate_with_dependencies record dependencies schemas limits = Some (Ok experiment) →
  settled limits (Experiment.state experiment)
  ∧ all_minted (Experiment.state experiment) (Experiment.counters experiment).
Proof.
  intros [Htv Hto] Hrun. unfold hydrate_with_dependencies in Hrun. apply outcome_bind_ok in Hrun as (? & _ & Hrun).
  cbn zeta in Hrun. apply outcome_bind_ok in Hrun as (variables & [= Hvars] & Hrun).
  apply outcome_bind_ok in Hrun as (sys & Hsys & Hrun). apply outcome_bind_ok in Hrun as (objects & Hobjs & Hrun).
  apply outcome_bind_ok in Hrun as (? & _ & Hrun). apply outcome_bind_ok in Hrun as (? & _ & [= <-]).
  cbn [Experiment.state Experiment.counters].
  assert (∀ id d, variables !! id = Some d → (VariableId.get id < Counters.variable (DocumentRecord.counters record))%N
    ∧ undotted (Variable_.name d) ∧ utf8 (Variable_.expression d)) as Hdefs.
  { intros id d Hd. unfold hydrate_variables in Hvars. destruct (_ <? _)%N; [done|].
    destruct (hydrate_definitions_ok _ _ _ _ _ Hvars id d Hd) as [Hl|(? & r & Hr & -> & ->)]; [by rewrite lookup_empty in Hl|].
    split; [done|]. by apply Htv. }
  split; [split|].
  - intros d [id Hid]. by apply (Hdefs id d).
  - exists sys. split; [by rewrite <- Hsys; apply compile_same|]. intros path v Hv.
    destruct (hydrated_value _ _ _ _ _ _ _ Hto Hobjs path v Hv) as (authored & Ht & Hh). by eapply hydrate_value_current.
  - intros id d Hd. by apply (Hdefs id d).
Qed.

(** ** Histories of operations *)

(** The experiments the operations reach under these limits and the registries
    that may be installed, each with the contents it had before, which a restore
    may bring back. *)
Inductive reached (available : SchemaRegistry.t → Prop) (limits : Limits.t) : list ExperimentState.t → Experiment.t → Prop :=
  | reached_new : reached available limits [] Experiment.new
  | reached_load record dependencies schemas experiment :
      available schemas → typed_record record → hydrate_with_dependencies record dependencies schemas limits = Some (Ok experiment) →
      reached available limits [] experiment
  | reached_update past experiment commands schemas candidate :
      reached available limits past experiment → available schemas → well_formed_batch experiment commands →
      update experiment commands schemas limits = Some (Ok candidate) →
      reached available limits (Experiment.checkpoint experiment :: past) (Candidate.experiment candidate)
  | reached_restore past experiment checkpoint schemas candidate :
      reached available limits past experiment → available schemas → checkpoint ∈ past →
      restore experiment checkpoint schemas limits = Some (Ok candidate) →
      reached available limits (Experiment.checkpoint experiment :: past) (Candidate.experiment candidate)
  | reached_adopted past experiment revision :
      reached available limits past experiment → reached available limits past (Experiment.adopted_after experiment revision).

Lemma new_settled limits : settled limits ExperimentState.empty.
Proof.
  split.
  - intros d [id Hid]. by destruct (lookup_empty_Some id d).
  - exists VariablesSystem.default. split; [|done].
    unfold compile_document_variables, compile_variables, all_names. cbn zeta.
    change (ExperimentState.variables ExperimentState.empty) with (∅ : gmap VariableId.t Variable_.t).
    rewrite map_size_empty. by rewrite (proj2 (N.ltb_ge _ _) (N.le_0_l _)).
Qed.

Lemma restore_ok experiment checkpoint schemas limits candidate :
  restore experiment checkpoint schemas limits = Some (Ok candidate) →
  Candidate.experiment candidate = Experiment.mk
    (ExperimentState.set_revision (ExperimentRevision.next (Experiment.revision experiment)) checkpoint)
    (Experiment.counters experiment)
  ∧ validate_structure checkpoint limits = Some (Ok ()) ∧ validate_restorable checkpoint schemas = Ok ()
  ∧ validate_scientific checkpoint limits = Some (Ok ()).
Proof.
  unfold restore. intros ([] & Hs & Hrun)%outcome_bind_ok. apply outcome_bind_ok in Hrun as ([] & [= Hr] & Hrun).
  apply outcome_bind_ok in Hrun as ([] & Hv & [= <-]). done.
Qed.

Lemma reached_settled available limits past experiment :
  reached available limits past experiment →
  Forall (λ s, settled limits s ∧ all_minted s (Experiment.counters experiment))
    (Experiment.state experiment :: past).
Proof.
  induction 1 as [|record dependencies schemas experiment _ Ht Hrun|past experiment commands schemas candidate _ IH _ Hwf Hrun
    |past experiment checkpoint schemas candidate _ IH _ Hin Hrun|past experiment revision _ IH].
  - constructor; [|constructor]. split; [apply new_settled|]. intros id d Hd. by destruct (lookup_empty_Some id d).
  - constructor; [|constructor]. by eapply hydrated_settled.
  - inversion IH as [|? ? [Hs Hm] Hpast]; subst.
    destruct (updated_settled limits experiment commands schemas candidate Hs Hm Hwf Hrun) as (Hs' & Hm' & Hle).
    constructor; [done|]. eapply Forall_impl; [exact IH|]. intros s [? Hms]. split; [done|].
    intros id d Hd. eapply N.lt_le_trans; [by eapply Hms|done].
  - destruct (restore_ok _ _ _ _ _ Hrun) as [-> _]. inversion IH as [|? ? _ Hpast]; subst.
    rewrite Forall_forall in Hpast. destruct (Hpast _ Hin) as [Hs Hm].
    constructor; [|exact IH]. split; [by apply (settled_same limits checkpoint)|done].
  - inversion IH as [|? ? [Hs Hm] Hpast]; subst. constructor; [|exact Hpast].
    split; [by apply (settled_same limits (Experiment.state experiment))|done].
Qed.

(** C9: A document never drifts from its definitions. In every experiment that
    loading, opening, accepted batches and restores can produce, with renames to names
    that read as one symbol, evaluating all the definitions succeeds, and every
    stored quantity is the one that authoring its source again, in its unit,
    would store, although a batch prices only what it authored or disturbed. *)
Theorem document_is_evaluated available limits past experiment (Hreached : reached available limits past experiment) :
  ∃ sys, compile_document_variables (Experiment.state experiment) limits = Some (Ok sys)
    ∧ ∀ path v, stored (Experiment.state experiment) path = Some v → value_current path v sys limits.
Proof.
  apply reached_settled in Hreached. inversion Hreached as [|? ? [[_ (sys & Hc & Hv)] _] _]; subst.
  exists sys. split; [done|]. intros path v Hp. by apply Hv.
Qed.
End reached.

(** ** A sample document *)
Module Sample.
#[local] Existing Instance plain.
#[local] Existing Instance plain_validation.
#[local] Existing Instance latin1.
#[local] Existing Instance first_argument.

Definition inertial_mass : ComponentTypeId.t :=
  ComponentTypeId.Legacy (PluginId.mk [Name.mk "kagami"]) (ComponentName.mk (Name.mk "inertial_mass")).
Definition mass : PropertyName.t := PropertyName.mk (Name.mk "mass").
Definition schemas : SchemaRegistry.t :=
  SchemaRegistry.insert
    (ComponentSchema.with_property mass (PropertySchema.required_ (PropertyKind.Quantity Dimension.MASS))
      (ComponentSchema.new inertial_mass 1)) SchemaRegistry.new.

Definition accepted (m : outcome Rejection.t Candidate.t) : Experiment.t :=
  match m with Some (Ok candidate) => Candidate.experiment candidate | _ => Experiment.new end.
Definition commit (experiment : Experiment.t) (commands : list ExperimentCommand.t) : outcome Rejection.t Candidate.t :=
  update experiment commands schemas Limits.DEFAULT.

(** A body whose mass is written in terms of variables; then one of them is
    renamed and another redefined. *)
Definition bodies : list ExperimentCommand.t := [
  ExperimentCommand.DefineVariable (VariableSpec.new (Name.mk "sun") "2e30 kg");
  ExperimentCommand.DefineVariable (VariableSpec.new (Name.mk "earth") "sun / 333000");
  ExperimentCommand.CreateObject (ObjectSpec.with_component inertial_mass {[mass := AuthoredValue.si "earth * 2"]}
    (ObjectSpec.new (DisplayName.mk "Earth")))].
Definition revised : list ExperimentCommand.t := [
  ExperimentCommand.RenameVariable (VariableId.from_raw 1) (Name.mk "planet");
  ExperimentCommand.SetVariableExpression (VariableId.from_raw 0) "4e30 kg"].
Definition first : Experiment.t := accepted (commit Experiment.new bodies).
Definition second : Experiment.t := accepted (commit first revised).

Definition planet_mass : option PropertyValue.t :=
  stored (Experiment.state second) (PropertyPath.new (ObjectId.from_raw 0) inertial_mass mass).
Example mass_follows :
  planet_mass = Some (PropertyValue.Quantity "planet * 2" None
    (SpecFloat.S754_finite false 5593528976669541 32) Dimension.MASS).
Proof. vm_compute. reflexivity. Qed.

Lemma undotted_check n : bool_decide (("."%char : ascii) ∉ bytes_of (Name.as_str n)) = true → undotted n.
Proof. apply bool_decide_eq_true. Qed.

Lemma bodies_well_formed : well_formed_batch Experiment.new bodies.
Proof.
  split; [vm_compute; reflexivity|]. split; [vm_compute; reflexivity|]. intros command Hin.
  repeat (apply elem_of_cons in Hin as [->|Hin]); [| | |by apply elem_of_nil in Hin].
  - split_and!; [apply undotted_check; vm_compute; reflexivity|vm_compute; reflexivity|].
    right. eexists. split; [constructor|done].
  - split_and!; [apply undotted_check; vm_compute; reflexivity|vm_compute; reflexivity|].
    right. eexists. split; [constructor; constructor|done].
  - do 2 (cbn; apply map_Forall_insert_2; [|apply map_Forall_empty]). split; [vm_compute; reflexivity|done].
Qed.
Lemma first_namespaces : map_Forall (λ _ d, Variable_.namespace d = Namespace.new "") (ExperimentState.variables (Experiment.state first)).
Proof.
  apply (bool_decide_unpack (map_Forall (λ _ d, Variable_.namespace d = Namespace.new "")
    (ExperimentState.variables (Experiment.state first)))). vm_compute. exact I.
Qed.
Lemma revised_well_formed : well_formed_batch first revised.
Proof.
  split; [vm_compute; reflexivity|]. split; [vm_compute; reflexivity|]. intros command Hin.
  repeat (apply elem_of_cons in Hin as [->|Hin]); [| |by apply elem_of_nil in Hin].
  - split; [apply undotted_check; vm_compute; reflexivity|]. intros namespace Hns.
    assert (namespace = Namespace.new "") as ->; [|split; [split|]; reflexivity].
    destruct Hns as [(d & [id Hid] & <-)|(spec & Hin & <-)]; [by apply (first_namespaces id)|].
    repeat (apply elem_of_cons in Hin as [[=]|Hin]). by apply elem_of_nil in Hin.
  - vm_compute. reflexivity.
Qed.

Lemma commit_accepted experiment commands :
  match commit experiment commands with Some (Ok _) => true | _ => false end = true →
  ∃ candidate, commit experiment commands = Some (Ok candidate)
    ∧ accepted (commit experiment commands) = Candidate.experiment candidate.
Proof. destruct (commit experiment commands) as [[candidate|]|]; [|done..]. by exists candidate. Qed.
Lemma commit_reached past experiment commands :
  reached (eq schemas) Limits.DEFAULT past experiment → well_formed_batch experiment commands →
  match commit experiment commands with Some (Ok _) => true | _ => false end = true →
  reached (eq schemas) Limits.DEFAULT (Experiment.checkpoint experiment :: past) (accepted (commit experiment commands)).
Proof. intros Hr Hwf (candidate & Hc & ->)%commit_accepted. by eapply reached_update. Qed.

Lemma second_reached :
  reached (eq schemas) Limits.DEFAULT [Experiment.checkpoint first; Experiment.checkpoint Experiment.new] second.
Proof.
  apply commit_reached; [apply commit_reached; [constructor|exact bodies_well_formed|vm_compute; reflexivity]
    |exact revised_well_formed|vm_compute; reflexivity].
Qed.
Lemma document_is_evaluated_witness :
  reached (eq schemas) Limits.DEFAULT [Experiment.checkpoint first; Experiment.checkpoint Experiment.new] second
  ∧ ∃ sys, compile_document_variables (Experiment.state second) Limits.DEFAULT = Some (Ok sys)
    ∧ ∀ v, planet_mass = Some v →
        value_current (PropertyPath.new (ObjectId.from_raw 0) inertial_mass mass) v sys Limits.DEFAULT.
Proof.
  pose proof second_reached as Hr. split; [exact Hr|]. destruct (document_is_evaluated (eq schemas) Limits.DEFAULT _ second Hr) as (sys & Hsys & Hv).
  exists sys. split; [exact Hsys|]. intros v. apply Hv.
Defined.

(** A definition that writes a number next to a name. *)
Definition scaled : list ExperimentCommand.t := [
  ExperimentCommand.DefineVariable (VariableSpec.new (Name.mk "mass") "1 kg");
  ExperimentCommand.DefineVariable (VariableSpec.new (Name.mk "double") "2mass");
  ExperimentCommand.DefineVariable (VariableSpec.new (Name.mk "total") "double + 1 kg")].
Definition renamed : list ExperimentCommand.t := [
  ExperimentCommand.RenameVariable (VariableId.from_raw 0) (Name.mk "e3")].
Definition third : Experiment.t := accepted (commit Experiment.new scaled).
Definition fourth : Experiment.t := accepted (commit third renamed).

(** The condition on renames is needed. Renaming [mass] to the valid name [e3]
    where another definition reads [2mass] is accepted, turns that definition
    into the number [2e3], and leaves a third one that no longer evaluates,
    which the batch did not look at: the document it commits does not compile. *)
Theorem exponent_rename_breaks :
  name_new "e3" = Ok (Name.mk "e3")
  ∧ (∃ candidate, commit Experiment.new scaled = Some (Ok candidate) ∧ Candidate.experiment candidate = third)
  ∧ (∃ candidate, commit third renamed = Some (Ok candidate) ∧ Candidate.experiment candidate = fourth)
  ∧ Variable_.expression <$> ExperimentState.variables (Experiment.state fourth) !! VariableId.from_raw 1 = Some "2e3"
  ∧ compile_document_variables (Experiment.state fourth) Limits.DEFAULT
    = Some (Err (Rejection.VariableUnresolved "total" (ExprEvalError.DimensionMismatch Dimension.DIMENSIONLESS Dimension.MASS))).
Proof.
  split; [vm_compute; reflexivity|]. split; [|split; [|split; vm_compute; reflexivity]].
  - destruct (commit_accepted Experiment.new scaled) as (candidate & Hc & Ha); [vm_compute; reflexivity|].
    exists candidate. split; [exact Hc|symmetry; exact Ha].
  - destruct (commit_accepted third renamed) as (candidate & Hc & Ha); [vm_compute; reflexivity|].
    exists candidate. split; [exact Hc|symmetry; exact Ha].
Qed.
End Sample.
