(* ===== verification/Lasting.v ===== *)
(** * What the transitions keep for a load (kagami-document: update.rs, hydrate.rs)

    With one registry installed throughout, every stored value stays one its
    declaration admits, every identity stays below its counter, and the contents
    stay within the bounds a load checks. *)

From stdpp Require Import base gmap strings list.
From S2P Require Import Prelude Identity VarLimits Action Binary64 Quantity Expression Namespace System PluginIds Lock Schema Geometry Document Experiment Validate Edit Compile Follow Structure Hydrate Settled Reached.

#[local] Arguments next_u64 : simpl never.

Section lasting.
Context `{ScientificValidation} `{Unicode} `{Libm}.
Implicit Types (s : ExperimentState.t) (e : Edit.t).
Abbreviation objects_of e := (ExperimentState.objects (Edit.state e)).

Definition described (limits : Limits.t) (d : Variable_.t) : Prop :=
  ∀ text, Variable_.description d = Some text → (str_len text ≤ Limits.max_description_bytes limits)%N.

Record loadable (schemas : SchemaRegistry.t) (limits : Limits.t) (counters : Counters.t) s : Prop := {
  loadable_fits : ∀ path v, stored s path = Some v → value_fits schemas limits path v;
  loadable_minted : ∀ id o, ExperimentState.objects s !! id = Some o → (ObjectId.get id < Counters.object counters)%N;
  loadable_described : ∀ d, definition_in d s → described limits d;
  loadable_structure : validate_structure s limits = Some (Ok ());
  loadable_scientific : ∀ revision, validate_scientific (ExperimentState.set_revision revision s) limits = Some (Ok ())
}.

(** ** Identities and descriptions through a batch *)
Record bounded (limits : Limits.t) (minted0 n : N) e : Prop := {
  bounded_grown : (minted0 ≤ Counters.object (Edit.counters e))%N;
  bounded_room : (Counters.object (Edit.counters e) + n < 2 ^ 64)%N;
  bounded_minted : ∀ id, is_Some (objects_of e !! id) → (ObjectId.get id < Counters.object (Edit.counters e))%N;
  bounded_described : ∀ d, definition_in d (Edit.state e) → described limits d
}.

Lemma bounded_same limits minted0 n n' e e' :
  bounded limits minted0 n e → (n' ≤ n)%N →
  Counters.object (Edit.counters e') = Counters.object (Edit.counters e) →
  (∀ id, is_Some (objects_of e' !! id) → is_Some (objects_of e !! id)) →
  (∀ d, definition_in d (Edit.state e') → described limits d) → bounded limits minted0 n' e'.
Proof. intros [Hg Hr Hm Hd] Hn Hc Ho Hd'. split; rewrite ?Hc; [done|lia| |done]. intros id Hid. by apply Hm, Ho. Qed.

Lemma create_components_same id schemas specs : ∀ components e components' e',
  create_components id schemas specs components e = Some (Ok (components', e')) →
  Edit.state e' = Edit.state e ∧ Edit.counters e' = Edit.counters e.
Proof.
  induction specs as [|[type_id properties] specs IH]; intros components e components' e'; cbn [create_components]; intros Hrun; edits; [done|].
  match goal with Hc : create_components _ _ _ _ _ = _ |- _ => by destruct (IH _ _ _ _ Hc) as [-> ->] end.
Qed.

Lemma checked_description name description limits u :
  check_description name description limits = Ok u →
  ∀ text, description = Some text → (str_len text ≤ Limits.max_description_bytes limits)%N.
Proof.
  unfold check_description. intros Hrun text ->. destruct (N.ltb_spec (Limits.max_description_bytes limits) (str_len text)) as [|?]; [|done].
  by destruct name.
Qed.

(** A definition put in place of another. *)
Lemma described_insert limits s id d :
  (∀ x, definition_in x s → described limits x) → described limits d →
  ∀ x, definition_in x (ExperimentState.set_variables (<[id := d]> (ExperimentState.variables s)) s) → described limits x.
Proof.
  intros Hall Hd x [id' Hx]. cbn in Hx. apply lookup_insert_Some in Hx as [[_ <-]|[_ Hx]]; [done|]. apply Hall. by exists id'.
Qed.

(** An object put in place of itself. *)
Lemma objects_in_place s object o o' : ExperimentState.objects s !! object = Some o →
  ∀ id, is_Some (<[object := o']> (ExperimentState.objects s) !! id) → is_Some (ExperimentState.objects s !! id).
Proof.
  intros Ho id [x Hx]. apply lookup_insert_Some in Hx as [[<- _]|[_ Hx]]; by eexists.
Qed.

Lemma apply_bounded limits minted0 n command schemas e e' :
  apply command schemas limits e = Some (Ok ((), e')) → bounded limits minted0 (n + 1) e → bounded limits minted0 n e'.
Proof.
  intros Hrun Hb. pose proof Hb as [Hg Hr Hm Hd].
  destruct command; cbn [apply] in Hrun; unfold with_setup in Hrun; edits;
    repeat match goal with
    | Hx : update_object _ _ _ = Some (Ok (?u, _)) |- _ => destruct u; apply update_object_ok in Hx as (? & ? & ? & Hf & ->)
    | Hx : update_variable _ _ _ = Some (Ok (?u, _)) |- _ => destruct u; apply update_variable_ok in Hx as (d & Hdef & ->)
    end;
    try (apply (bounded_same limits minted0 (n + 1) n e); [done|lia|done|first [done|by eapply objects_in_place]|exact Hd]).
  - match goal with Hc : create_components _ _ _ _ _ = _ |- _ => apply create_components_same in Hc as Hsame end.
    destruct Hsame as [Hst Hcnt]. unfold next_object in *. cbn in *. simplify_eq/=.
    assert (next_u64 (Counters.object (Edit.counters e)) = Counters.object (Edit.counters e) + 1)%N as Hnext by (apply N.mod_small; lia).
    split; cbn; rewrite ?Hcnt; cbn; rewrite ?Hnext; [lia|lia| |].
    2: { intros d. rewrite Hst. apply Hd. }
    intros id [o Ho]. rewrite Hst in Ho.
    apply lookup_insert_Some in Ho as [[<- _]|[_ Ho]]; [cbn; lia|]. assert (is_Some (objects_of e !! id)) as Hid by (by eexists).
    apply Hm in Hid. lia.
  - apply (bounded_same limits minted0 (n + 1) n e); [done|lia|done| |exact Hd]. intros id. cbn. intros [o Ho]. apply lookup_delete_Some in Ho as [_ Ho]. by eexists.
  - unfold define_variable in Hrun. edits. destruct (_ <=? _)%N; [edits|]. destruct (name_is_taken _ _ _); edits.
    cbn [Counters.next_variable] in *. edits. apply (bounded_same limits minted0 (n + 1) n e); [done|lia|done|done|].
    apply described_insert; [done|]. intros text. cbn. by eapply checked_description.
  - apply (bounded_same limits minted0 (n + 1) n e); [done|lia|done|done|]. apply described_insert; [done|].
    change (described limits d). apply Hd. by exists variable.
  - unfold rename_variable in Hrun. edits. destruct (decide _); [by edits; apply (bounded_same limits minted0 (n + 1) n e); [done|lia|..]|].
    destruct (name_is_taken _ _ _); edits.
    match goal with Hx : try_values _ (ExperimentState.variables _) = Some (Ok ?x), Hy : try_values _ (ExperimentState.objects _) = _ |- _ =>
      rename x into variables, Hx into Hvars, Hy into Hobjs end.
    apply (bounded_same limits minted0 (n + 1) n e); [done|lia|done|..]; cbn.
    + intros id [o Ho]. pose proof (try_values_ok _ _ _ id Hobjs) as Hat. rewrite Ho in Hat.
      destruct (objects_of e !! id); [by eexists|done].
    + intros d [id Hid]. cbn in Hid. pose proof (try_values_ok _ _ _ id Hvars) as Hat. rewrite Hid in Hat.
      destruct (ExperimentState.variables (Edit.state e) !! id) as [d1|] eqn:Hd1; [|done].
      assert (described limits d1) as Hdesc by (apply Hd; by exists id).
      apply renamed_definition in Hat as [[_ ->]|(_ & out & _ & ->)]; exact Hdesc.
  - apply (bounded_same limits minted0 (n + 1) n e); [done|lia|done|done|]. intros x [id Hx]. cbn in Hx.
    apply lookup_delete_Some in Hx as [_ Hx]. apply Hd. by exists id.
  - apply (bounded_same limits minted0 (n + 1) n e); [done|lia|done|done|]. apply described_insert; [done|].
    intros text. cbn. by eapply checked_description.
Qed.

Lemma apply_all_bounded limits minted0 commands schemas : ∀ e e',
  apply_all commands schemas limits e = Some (Ok ((), e')) → bounded limits minted0 (lenN commands) e → bounded limits minted0 0 e'.
Proof.
  induction commands as [|command commands IH]; intros e e' Hrun Hb; cbn [apply_all] in Hrun; [by edits|].
  apply bind_ok in Hrun as ([] & e1 & Hone & Hrun). apply (IH e1 e' Hrun). eapply apply_bounded; [exact Hone|].
  replace (lenN commands + 1)%N with (lenN (command :: commands)) by (unfold lenN; cbn [length]; lia). exact Hb.
Qed.

(** ** The evaluation keeps them *)
Lemma objects_writes writes : ∀ s id, is_Some (ExperimentState.objects (foldl write_property s writes) !! id) ↔ is_Some (ExperimentState.objects s !! id).
Proof.
  induction writes as [|[path v] writes IH]; intros s id; [done|]. cbn [foldl]. rewrite IH. cbn. by rewrite lookup_alter_is_Some.
Qed.
Lemma evaluate_keeps s batch schemas limits s' work :
  evaluate s batch schemas limits = Some (Ok (s', work)) →
  ExperimentState.variables s' = ExperimentState.variables s
  ∧ ∀ id, is_Some (ExperimentState.objects s' !! id) → is_Some (ExperimentState.objects s !! id).
Proof.
  unfold evaluate. cbn zeta. intros ([variables n] & _ & Hev)%outcome_bind_ok. apply outcome_bind_ok in Hev as (authored & _ & Hev).
  apply outcome_bind_ok in Hev as (repriced & _ & [= <- _]). split; [apply variables_writes|]. intros id. by rewrite objects_writes.
Qed.

(** ** Values *)
Lemma value_fits_follows schemas limits path changed before after :
  value_follows changed before after → value_fits schemas limits path before → value_fits schemas limits path after.
Proof.
  unfold value_fits. intros Hf. destruct before as [source unit si dimension| | |], after as [source' unit' si' dimension'| | |]; cbn in Hf; simplify_eq; try done.
  destruct Hf as (_ & -> & -> & ->). destruct (declared schemas path); [|done]. unfold fits_declaration. cbn. done.
Qed.

Lemma evaluated_fits known limits s0 minted0 e schemas s' work :
  (∀ path v, stored s0 path = Some v → value_fits schemas limits path v) → kept known s0 minted0 0 e →
  evaluate (Edit.state e) (Edit.batch e) schemas limits = Some (Ok (s', work)) →
  ∀ path v, stored s' path = Some v → value_fits schemas limits path v.
Proof.
  intros Hs Hkept Hrun. apply evaluate_ok in Hrun as (sys & n & _ & _ & Hvals).
  - intros path v Hv. destruct (Hvals path v Hv) as [_ [[_ Hadm]|(Hst & Ht & _)]]; [by apply admitted_fits|].
    unfold stored in Hst. destruct (component_at (Edit.state e) _) as [c|] eqn:Hca; [|done]. cbn in Hst.
    destruct (kept_components _ _ _ _ _ Hkept _ _ Hca) as [_ [|(c0 & Hc0a & _ & Hf)]]; [done|].
    specialize (Hf (PropertyPath.property path)). rewrite Hst in Hf.
    destruct (ObjectComponent.properties c0 !! _) as [v0|] eqn:Hv0; [|done]. cbn in Hf.
    eapply value_fits_follows; [exact Hf|]. apply Hs. unfold stored. by rewrite Hc0a.
  - by eapply kept_utf8.
  - apply (kept_pending _ _ _ _ _ Hkept).
Qed.

(** ** Transitions *)

(** [validate_candidate] reads the contents and not the revision they are at. *)
Definition revision_free : Prop :=
  ∀ setup revision s sys limits,
    validate_candidate setup (ExperimentState.set_revision revision s) sys limits = validate_candidate setup s sys limits.

Section transitions.
Context (Hfree : revision_free) (schemas : SchemaRegistry.t) (limits : Limits.t).

Lemma scientific_revised revision s :
  validate_scientific (ExperimentState.set_revision revision s) limits = validate_scientific s limits.
Proof.
  unfold validate_scientific. cbn [ExperimentState.setup ExperimentState.set_revision].
  destruct (Setup.scientific _) as [setup|]; [|done]. rewrite (compile_same s) by done.
  destruct (compile_document_variables s limits) as [[sys|]|]; [|done..]. cbn. by rewrite Hfree.
Qed.

Lemma loadable_revised counters revision s :
  loadable schemas limits counters s → loadable schemas limits counters (ExperimentState.set_revision revision s).
Proof. by intros [? ? ? ? Hs]; split. Qed.
Lemma loadable_grown counters counters' s :
  (Counters.object counters ≤ Counters.object counters')%N → loadable schemas limits counters s → loadable schemas limits counters' s.
Proof. intros Hle [? Hm ? ? ?]. split; try done. intros id o Ho%Hm. lia. Qed.

Lemma updated_loadable experiment commands candidate :
  settled limits (Experiment.state experiment) → all_minted (Experiment.state experiment) (Experiment.counters experiment) →
  loadable schemas limits (Experiment.counters experiment) (Experiment.state experiment) →
  well_formed_batch experiment commands → update experiment commands schemas limits = Some (Ok candidate) →
  loadable schemas limits (Experiment.counters (Candidate.experiment candidate)) (Experiment.state (Candidate.experiment candidate))
  ∧ (Counters.object (Experiment.counters experiment) ≤ Counters.object (Experiment.counters (Candidate.experiment candidate)))%N.
Proof.
  intros Hs Hm [Hfits Hom Hdesc Hst Hsc] (Hroom & Hroom' & Hadm) Hrun.
  apply update_ok in Hrun as (e & s & work & _ & Happ & Hev & Hvs & _ & -> & Hvsc).
  destruct (settled_parses limits _ Hs) as [Hp1 Hp2].
  pose proof (apply_all_kept _ _ _ Hp1 Hp2 commands schemas limits (start experiment) e
    (proj2 (Forall_forall _ _) Hadm) Happ (start_kept limits experiment commands Hs Hm Hroom)) as Hk.
  assert (bounded limits (Counters.object (Experiment.counters experiment)) 0 e) as [Hg _ Hmint Hd].
  { eapply apply_all_bounded; [exact Happ|]. split; [done|done| |exact Hdesc]. intros id [o Ho]. by eapply Hom. }
  destruct (evaluate_keeps _ _ _ _ _ _ Hev) as [Hvars Hobjs].
  cbn [Candidate.experiment Experiment.state Experiment.counters]. split; [split|exact Hg].
  - exact (evaluated_fits _ _ _ _ _ _ _ _ Hfits Hk Hev).
  - intros id o Ho. apply Hmint, Hobjs. by exists o.
  - intros d [id Hid]. apply Hd. exists id. rewrite <- Hvars. exact Hid.
  - exact Hvs.
  - intros r. change (validate_scientific (ExperimentState.set_revision r s) limits = Some (Ok ())).
    by rewrite scientific_revised in Hvsc |- *.
Qed.

(** ** Loading *)
Lemma hydrate_value_fits path authored sys v :
  authored_typed authored → hydrate_value path authored schemas sys limits = Some (Ok v) → value_fits schemas limits path v.
Proof.
  intros Ht. unfold hydrate_value, value_fits. destruct (declared schemas path) as [schema|]; [apply resolve_property_fits|].
  intros [= <-]. destruct authored as [source [u|]|b|t]; cbn; try done. intros symbol [= <-]. destruct Ht as [_ Ht]. by exists u.
Qed.
Lemma hydrate_definitions_described counters definitions : ∀ variables variables',
  hydrate_definitions counters limits definitions variables = Ok variables' →
  (∀ id d, variables !! id = Some d → described limits d) → ∀ id d, variables' !! id = Some d → described limits d.
Proof.
  induction definitions as [|r definitions IH]; intros variables variables'; cbn [hydrate_definitions]; [by intros [= <-]|].
  intros (variables1 & Hone & Hrest)%result_bind_ok Hall. eapply IH; [exact Hrest|].
  unfold hydrate_variable in Hone. destruct (Counters.restored_variable _ _); [|done]. destruct (contains_key _ variables); [done|].
  cbn zeta in Hone. apply result_bind_ok in Hone as (? & _ & Hone). apply result_bind_ok in Hone as (? & Hd & [= <-]).
  intros id d Hid. apply lookup_insert_Some in Hid as [[_ <-]|[_ Hid]]; [|by eapply Hall]. intros text. by eapply checked_description.
Qed.
Lemma hydrate_objects_minted counters sys records : ∀ objects objects',
  hydrate_objects counters schemas sys limits records objects = Some (Ok objects') →
  (∀ id o, objects !! id = Some o → (ObjectId.get id < Counters.object counters)%N) →
  ∀ id o, objects' !! id = Some o → (ObjectId.get id < Counters.object counters)%N.
Proof.
  induction records as [|r records IH]; intros objects objects'; cbn [hydrate_objects]; [by intros [= <-]|].
  unfold Counters.restored_object. destruct (N.ltb_spec (ObjectRecord.id r) (Counters.object counters)) as [Hlt|]; [|done].
  destruct (contains_key _ objects); [done|]. intros (components & _ & Hrest)%outcome_bind_ok Hall. eapply IH; [exact Hrest|].
  intros id o Hid. apply lookup_insert_Some in Hid as [[<- _]|[_ Hid]]; [done|by eapply Hall].
Qed.

Lemma hydrated_loadable record dependencies experiment :
  typed_record record → hydrate_with_dependencies record dependencies schemas limits = Some (Ok experiment) →
  loadable schemas limits (Experiment.counters experiment) (Experiment.state experiment).
Proof.
  intros [_ Hto] Hrun. unfold hydrate_with_dependencies in Hrun. apply outcome_bind_ok in Hrun as (? & _ & Hrun).
  cbn zeta in Hrun. apply outcome_bind_ok in Hrun as (variables & [= Hvars] & Hrun).
  apply outcome_bind_ok in Hrun as (sys & Hsys & Hrun). apply outcome_bind_ok in Hrun as (objects & Hobjs & Hrun).
  apply outcome_bind_ok in Hrun as ([] & Hst & Hrun). apply outcome_bind_ok in Hrun as ([] & Hsc & [= <-]).
  cbn [Experiment.state Experiment.counters]. split; [|..|exact Hst|].
  - intros path v Hv. destruct (hydrated_value _ _ _ _ _ _ _ Hto Hobjs path v Hv) as (authored & Ht & Hh).
    by eapply hydrate_value_fits.
  - cbn. eapply (hydrate_objects_minted _ _ _ _ _ Hobjs). intros id o Ho. by destruct (lookup_empty_Some id o).
  - intros d [id Hid]. unfold hydrate_variables in Hvars. destruct (_ <? _)%N; [done|].
    eapply (hydrate_definitions_described _ _ _ _ Hvars); [|exact Hid]. intros id' d' Hd'. by destruct (lookup_empty_Some id' d').
  - intros r. by rewrite scientific_revised.
Qed.

Lemma new_loadable : loadable schemas limits Counters.default ExperimentState.empty.
Proof.
  split; try done.
  - intros d [id Hid]. by destruct (lookup_empty_Some id d).
  - unfold validate_structure, validate_structure_against. cbn zeta.
    change (ExperimentState.objects ExperimentState.empty) with (∅ : gmap ObjectId.t Object_.t). rewrite map_size_empty.
    rewrite (proj2 (N.ltb_ge _ _) (N.le_0_l _)). cbn [ExperimentState.empty ExperimentState.setup Setup.default Setup.legacy
      LegacySetup.default LegacySetup.plugins Setup.scientific]. unfold PluginComposition.len. cbn [PluginComposition.default PluginComposition.enabled].
    rewrite size_empty, (proj2 (N.ltb_ge _ _) (N.le_0_l _)). done.
Qed.

Lemma reached_loadable past experiment :
  reached (eq schemas) limits past experiment →
  Forall (loadable schemas limits (Experiment.counters experiment)) (Experiment.state experiment :: past).
Proof.
  induction 1 as [|record dependencies schemas' experiment <- Ht Hrun|past experiment commands schemas' candidate Hreach IH <- Hwf Hrun
    |past experiment checkpoint schemas' candidate Hreach IH <- Hin Hrun|past experiment revision Hreach IH].
  - constructor; [apply new_loadable|constructor].
  - constructor; [by eapply hydrated_loadable|constructor].
  - apply reached_settled in Hreach. inversion Hreach as [|? ? [Hs Hm] _]; subst. inversion IH as [|? ? Hl _]; subst.
    destruct (updated_loadable experiment commands candidate Hs Hm Hl Hwf Hrun) as [Hl' Hle]. constructor; [done|].
    eapply Forall_impl; [exact IH|]. intros s. by apply loadable_grown.
  - destruct (restore_ok _ _ _ _ _ Hrun) as [-> _]. cbn [Experiment.counters Experiment.state]. constructor; [|exact IH].
    apply loadable_revised. inversion IH as [|? ? _ Hpast]; subst. by eapply (proj1 (Forall_forall _ _) Hpast).
  - inversion IH as [|? ? Hl Hpast]; subst. constructor; [by apply loadable_revised|done].
Qed.
End transitions.
End lasting.
