(* ===== verification/Labels.v ===== *)
(** * Labels are their own spelling (kagami-document, name.rs)

    A label that was accepted is accepted again as it is: trimming text that was
    trimmed gives it back. *)

From Stdlib Require Import Ascii.
From stdpp Require Import base gmap strings list.
From S2P Require Import Prelude Identity Namespace Document.

(** ** Text as its characters *)

(** The bytes read as one character. *)
Definition decodes (p : bytes * N) : Prop :=
  p.1 ≠ [] ∧ ∀ rest off, decode_chars off off 0 0 (p.1 ++ rest)
    = (off, p.2) :: decode_chars (off + lenN p.1) (off + lenN p.1) 0 0 rest.

(** The characters with the offsets they start at. *)
Fixpoint placed (off : N) (ps : list (bytes * N)) : list (N * N) :=
  match ps with [] => [] | p :: ps => (off, p.2) :: placed (off + lenN p.1) ps end.

Lemma lenN_cons_bytes (b : ascii) (bs : bytes) : lenN (b :: bs) = (1 + lenN bs)%N.
Proof. unfold lenN. cbn [length]. lia. Qed.

Lemma continued need : ∀ bs acc, utf8_from (S need) bs = true →
  ∃ front rest c, bs = front ++ rest ∧ utf8_from 0 rest = true ∧ ∀ rest' start off,
    decode_chars start off (N.of_nat (S need)) acc (front ++ rest')
    = (start, c) :: decode_chars (off + lenN front) (off + lenN front) 0 0 rest'.
Proof.
  induction need as [|need IH]; intros [|b bs] acc Hu; try done; cbn [utf8_from] in Hu;
    apply andb_true_iff in Hu as [_ Hu].
  - exists [b], bs, (acc * 64 + N.land (N_of_ascii b) 63)%N. split_and!; done.
  - destruct (IH bs (acc * 64 + N.land (N_of_ascii b) 63)%N Hu) as (front & rest & c & -> & Hr & Hd).
    exists (b :: front), rest, c. split_and!; [done|done|]. intros rest' start off. cbn [app decode_chars].
    rewrite (proj2 (N.eqb_neq (N.of_nat (S (S need))) 0)), (proj2 (N.eqb_neq (N.of_nat (S (S need))) 1)) by lia.
    replace (N.pred (N.of_nat (S (S need)))) with (N.of_nat (S need)) by lia.
    rewrite Hd, lenN_cons_bytes. by rewrite N.add_assoc.
Qed.

(** UTF-8 text is a sequence of characters. *)
Lemma one_character bs : utf8_from 0 bs = true → bs ≠ [] →
  ∃ front rest c, bs = front ++ rest ∧ utf8_from 0 rest = true ∧ decodes (front, c).
Proof.
  destruct bs as [|b bs]; [done|]. intros Hu _. cbn [utf8_from] in Hu. set (c := N_of_ascii b) in *.
  assert (∀ need acc, utf8_from (S need) bs = true →
    (∀ off l, decode_chars off off 0 0 (b :: l) = decode_chars off (off + 1) (N.of_nat (S need)) acc l) →
    ∃ front rest c, b :: bs = front ++ rest ∧ utf8_from 0 rest = true ∧ decodes (front, c)) as Hmany.
  { intros need acc Hneed Hb. destruct (continued need bs acc Hneed) as (front & rest & c0 & -> & Hr & Hd).
    exists (b :: front), rest, c0. split_and!; [done|done|]. split; [done|]. intros rest' off. cbn [fst snd app].
    rewrite Hb, Hd, lenN_cons_bytes. by rewrite N.add_assoc. }
  destruct (c <? 128)%N eqn:H128.
  { exists [b], bs, c. split_and!; [done|done|]. split; [done|]. intros rest off. cbn [fst snd app decode_chars].
    change (N_of_ascii b) with c. by rewrite H128. }
  destruct (c <? 194)%N; [done|]. destruct (c <? 224)%N eqn:H224; [|destruct (c <? 240)%N eqn:H240; [|destruct (c <? 245)%N; [|done]]].
  - apply (Hmany 0%nat (N.land c 31) Hu). intros off l. cbn [decode_chars]. change (N_of_ascii b) with c. by rewrite H128, H224.
  - apply (Hmany 1%nat (N.land c 15) Hu). intros off l. cbn [decode_chars]. change (N_of_ascii b) with c. by rewrite H128, H224, H240.
  - apply (Hmany 2%nat (N.land c 7) Hu). intros off l. cbn [decode_chars]. change (N_of_ascii b) with c. by rewrite H128, H224, H240.
Qed.

Abbreviation text_of ps := (String.string_of_list_ascii (concat ps.*1)).

Lemma characters value : utf8 value → ∃ ps, value = text_of ps ∧ Forall decodes ps.
Proof.
  unfold utf8. intros Hu. assert (∃ ps, bytes_of value = concat ps.*1 ∧ Forall decodes ps) as (ps & Heq & Hd).
  2: { exists ps. split; [|done]. rewrite <- Heq. symmetry. apply String.string_of_list_ascii_of_string. }
  remember (length (bytes_of value)) as n eqn:Hn. revert Hu Hn. generalize (bytes_of value). intros bs. revert bs.
  induction (lt_wf n) as [n _ IH]. intros bs Hu ->. destruct (decide (bs = [])) as [->|Hne]; [by exists []|].
  destruct (one_character bs Hu Hne) as (front & rest & c & -> & Hr & Hd).
  destruct (IH (length rest)) with (bs := rest) as (ps & -> & Hps); [|done|done|].
  - rewrite length_app. destruct Hd as [Hf _]. cbn in Hf. destruct front; [done|]. cbn. lia.
  - exists ((front, c) :: ps). split; [done|by constructor].
Qed.
Lemma placed_indices off ps : Forall decodes ps → decode_chars off off 0 0 (concat ps.*1) = placed off ps.
Proof.
  intros Hall. revert off. induction Hall as [|[b c] ps [_ Hd] Hall IH]; intros off; [done|]. cbn [fmap list_fmap concat placed fst snd].
  rewrite Hd. by rewrite IH.
Qed.

(** ** Trimming *)
Abbreviation width ps := (lenN (concat ps.*1)).
Abbreviation blank := (λ p : bytes * N, is_whitespace p.2 = true).

Lemma placed_app off ps qs : placed off (ps ++ qs) = placed off ps ++ placed (off + width ps) qs.
Proof.
  revert off. induction ps as [|p ps IH]; intros off; cbn; [by rewrite N.add_0_r|].
  rewrite IH. do 3 f_equal. unfold lenN. rewrite length_app. lia.
Qed.
Lemma placed_length off ps : length (placed off ps) = length ps.
Proof. revert off. induction ps as [|p ps IH]; intros off; [done|]. cbn. by rewrite IH. Qed.
Lemma placed_blank off ps : Forall blank ps → Forall (λ ic, is_whitespace ic.2 = true) (placed off ps).
Proof. intros Hall. revert off. induction Hall; intros off; cbn; by constructor. Qed.

Lemma drop_while_app {A} (f : A → bool) l1 x l2 :
  Forall (λ a, f a = true) l1 → f x = false → drop_while f (l1 ++ x :: l2) = x :: l2.
Proof. intros Hall Hx. induction Hall as [|a l1 Ha _ IH]; cbn; [by rewrite Hx|by rewrite Ha]. Qed.
Lemma drop_while_all {A} (f : A → bool) l : Forall (λ a, f a = true) l → drop_while f l = [].
Proof. induction 1 as [|a l Ha _ IH]; [done|]. cbn. by rewrite Ha. Qed.

(** Text between blanks. *)
Definition framed (m : list (bytes * N)) : Prop :=
  ∃ first rest final front, m = first :: rest ∧ m = front ++ [final]
    ∧ is_whitespace first.2 = false ∧ is_whitespace final.2 = false.

Lemma trim_framed before m after :
  Forall decodes (before ++ m ++ after) → Forall blank before → Forall blank after → framed m →
  trim_text (text_of (before ++ m ++ after)) = text_of m.
Proof.
  intros Hd Hb Ha (x & rest & y & front & Hx & Hy & Hwx & Hwy). unfold trim_text, char_indices, str_len, bytes_of.
  rewrite !String.list_ascii_of_string_of_list_ascii, placed_indices by done. rewrite !placed_app, !N.add_0_l.
  rewrite Hx at 1. cbn [placed app]. rewrite drop_while_app; [|by apply placed_blank|done]. cbn zeta.
  set (w := placed (width before + width m) after).
  assert (reverse (placed 0 before ++ placed (width before) m ++ w)
    = reverse w ++ (width before + width front, y.2)%N :: reverse (placed 0 before ++ placed (width before) front)) as Hrev.
  { rewrite Hy, placed_app. cbn [placed]. rewrite app_assoc, reverse_app. f_equal. rewrite app_assoc. apply reverse_snoc. }
  assert (Forall (λ ic, is_whitespace ic.2 = true) (reverse w)) as Hw
    by (rewrite Forall_reverse; by apply placed_blank).
  rewrite Hrev, drop_while_app by done. rewrite <- Hrev.
  replace (length (placed 0 before ++ placed (width before) m ++ w) - _)%nat with (length (reverse w)).
  2: { rewrite <- (length_reverse (placed 0 before ++ _)), Hrev, length_app. cbn [length]. lia. }
  rewrite Hrev, take_app_length.
  assert (match last (reverse w) with Some (offset, _) => offset | None => lenN (concat (before ++ m ++ after).*1) end
    = width before + width m)%N as ->.
  { rewrite last_reverse. unfold w. destruct after as [|p after]; cbn; [|done].
    rewrite app_nil_r, fmap_app, concat_app. unfold lenN. rewrite length_app. lia. }
  f_equal. rewrite !fmap_app, !concat_app. replace (N.to_nat (width before)) with (length (concat before.*1)) by (unfold lenN; lia).
  rewrite drop_app_length. replace (N.to_nat _) with (length (concat m.*1)) by (unfold lenN; lia). by rewrite take_app_length.
Qed.

(** Characters are blank, or blank but for a framed middle. *)
Lemma blanks_around (ps : list (bytes * N)) :
  Forall blank ps ∨ ∃ before m after, ps = before ++ m ++ after ∧ Forall blank before ∧ Forall blank after ∧ framed m.
Proof.
  assert (∀ l : list (bytes * N), Forall blank l ∨ ∃ before x rest, l = before ++ x :: rest ∧ Forall blank before
    ∧ is_whitespace x.2 = false) as Hleft.
  { induction l as [|p l IH]; [by left; constructor|]. destruct (is_whitespace p.2) eqn:Hp; [|right; by exists [], p, l].
    destruct IH as [Hall|(before & x & rest & -> & Hb & Hx)]; [left; by constructor|].
    right. exists (p :: before), x, rest. split_and!; [done|by constructor|done]. }
  destruct (Hleft ps) as [|(before & x & rest & -> & Hb & Hx)]; [by left|]. right.
  destruct (Hleft (reverse (x :: rest))) as [Hall|(after & y & front & Hr & Ha & Hy)].
  { exfalso. rewrite Forall_reverse in Hall. inversion Hall; subst. congruence. }
  exists before, (reverse (y :: front)), (reverse after). split_and!; [|done|by rewrite Forall_reverse|].
  - f_equal. rewrite <- reverse_app, <- Hr. by rewrite reverse_involutive.
  - assert (∃ l, reverse (y :: front) = x :: l) as [l Hl].
    { assert (x :: rest = reverse (y :: front) ++ reverse after) as Heq by (rewrite <- reverse_app, <- Hr; by rewrite reverse_involutive).
      rewrite reverse_cons in Heq |- *. destruct (reverse front) as [|z l]; cbn in Heq |- *; injection Heq as -> _; by eexists. }
    exists x, l, y, (reverse front). split_and!; [done|by rewrite reverse_cons|done|done].
Qed.

Lemma trim_again value : utf8 value → trim_text (trim_text value) = trim_text value.
Proof.
  intros (ps & -> & Hd)%characters. destruct (blanks_around ps) as [Hall|(before & m & after & -> & Hb & Ha & Hm)].
  - unfold trim_text at 2 3. unfold char_indices, bytes_of. rewrite String.list_ascii_of_string_of_list_ascii, placed_indices by done.
    by rewrite drop_while_all by (by apply placed_blank).
  - rewrite trim_framed by done. apply Forall_app in Hd as [_ [Hd _]%Forall_app].
    pose proof (trim_framed [] m [] ) as Htrim. cbn [app] in Htrim. rewrite app_nil_r in Htrim. by apply Htrim.
Qed.

(** A label that was accepted is accepted as it is. *)
Lemma label_again value name : utf8 value → DisplayName.new value = Ok name → DisplayName.new (DisplayName.as_str name) = Ok name.
Proof.
  intros Hu. unfold DisplayName.new. destruct (decide (trim_text value = "")) as [|Hne]; [done|].
  destruct (_ <? _)%N eqn:Hlen; [done|]. destruct (existsb _ _) eqn:Hc; [done|]. intros [= <-]. cbn [DisplayName.as_str].
  rewrite (trim_again value Hu). by rewrite decide_False, Hlen, Hc.
Qed.
