(* ===== verification/Saved.v ===== *)
(** * The experiment file (kagami-session, document.rs)

    What a save writes down of an experiment, how a file is recognised before it
    is interpreted, and how an experiment is built again from what it says. The
    JSON text and the container archive are reached through the interfaces
    [Json] and [ContainerCodec]. *)

From Stdlib Require Import Ascii.
From stdpp Require Import base gmap strings list pretty.
From S2P Require Import Prelude Identity Binary64 Quantity Expression Namespace PluginIds Lock Schema Geometry Document Experiment Validate Edit Hydrate.

Definition FORMAT : string := "kagami.experiment".
Definition FORMAT_VERSION : N := 3.
Definition MIN_FORMAT_VERSION : N := 1.
(** store.rs *)
Definition MAX_JSON_DOCUMENT_BYTES : N := 64 * 1024 * 1024.

(** ** Refusals *)
Module DocumentError.
Inductive t : Type :=
  | Container (source : Error.t)
  | Malformed (message : string)
  | WrongFormat (found expected : string)
  | UnsupportedVersion (found supported : N)
  | Invalid (source : Rejection.t).
#[global] Instance DocumentError_eq_dec : EqDecision t.
Proof. solve_decision. Defined.
Definition code (e : t) : string :=
  match e with
  | Container _ => "invalid_document_container"
  | Malformed _ => "malformed_document"
  | WrongFormat _ _ => "wrong_format"
  | UnsupportedVersion _ _ => "unsupported_format_version"
  | Invalid source => Rejection.code source
  end.
(** Damaged bytes, as opposed to a file that is merely declined. *)
Definition is_damage (e : t) : bool :=
  match e with
  | Container source => bool_decide (Error.code source = ErrorCode.IntegrityMismatch)
  | Malformed _ => true
  | WrongFormat _ _ | UnsupportedVersion _ _ | Invalid _ => false
  end.
End DocumentError.

(** *** The texts of the refusals a stored record is refused with *)

(** [char] written in UTF-8. *)
Definition encode_char (c : N) : string :=
  String.string_of_list_ascii (ascii_of_N <$>
    (if (c <? 128)%N then [c]
     else if (c <? 2048)%N then [192 + c / 64; 128 + c mod 64]
     else if (c <? 65536)%N then [224 + c / 4096; 128 + (c / 64) mod 64; 128 + c mod 64]
     else [240 + c / 262144; 128 + (c / 4096) mod 64; 128 + (c / 64) mod 64; 128 + c mod 64])%N).
Definition display_name_error (e : DisplayNameError.t) : string :=
  match e with
  | DisplayNameError.Empty => "a name must not be empty"
  | DisplayNameError.TooLong found limit =>
    "name is " +:+ pretty found +:+ " bytes, over the limit of " +:+ pretty limit
  | DisplayNameError.ControlCharacter => "a name must not contain control characters"
  end.
Definition invalid_name_text (e : InvalidName.t) : string :=
  match e with
  | InvalidName.Empty => "name must not be empty"
  | InvalidName.StartsWithDigit value => "name must not start with a digit: `" +:+ value +:+ "`"
  | InvalidName.InvalidCharacter value c =>
    "name `" +:+ value +:+ "` contains invalid character `" +:+ encode_char c +:+ "`"
  end.
Definition unit_error (symbol : string) : string := "unknown unit `" +:+ symbol +:+ "`".
Definition invalid_name (e : InvalidName.t) : DocumentError.t := DocumentError.Malformed (invalid_name_text e).

(** ** What the file holds *)
Module DocumentMetadata.
Record t : Type := mk { generator : string; created : string; saved : string; saved_revision : N }.
#[global] Instance DocumentMetadata_eq_dec : EqDecision t.
Proof. solve_decision. Defined.
End DocumentMetadata.

(** A value as it was authored; the unit is its symbol. *)
Module StoredValue.
Inductive t : Type :=
  | Quantity (expression : string) (unit : option string)
  | Boolean (value : bool)
  | Text (value : string).
#[global] Instance StoredValue_eq_dec : EqDecision t.
Proof. solve_decision. Defined.
Definition into_authored (v : t) : result DocumentError.t AuthoredValue.t :=
  match v with
  | Quantity expression None => Ok (AuthoredValue.si expression)
  | Quantity expression (Some symbol) =>
    unit ← result_map_err (λ e, DocumentError.Malformed (unit_error e)) (lookup symbol);
    Ok (AuthoredValue.in_unit expression unit)
  | Boolean value => Ok (AuthoredValue.Boolean value)
  | Text value => Ok (AuthoredValue.Text value)
  end.
End StoredValue.

Definition stored_value (value : PropertyValue.t) : StoredValue.t :=
  match PropertyValue.authored value with
  | AuthoredValue.Quantity expression unit => StoredValue.Quantity expression (Unit.symbol <$> unit)
  | AuthoredValue.Boolean value => StoredValue.Boolean value
  | AuthoredValue.Text value => StoredValue.Text value
  end.

Module StoredComponent.
Record t : Type := mk {
  component : ComponentTypeId.t;
  schema_version : N;
  properties : gmap PropertyName.t StoredValue.t
}.
#[global] Instance StoredComponent_eq_dec : EqDecision t.
Proof. solve_decision. Defined.
End StoredComponent.

Module StoredObject.
Record t : Type := mk {
  id : N;
  name : string;
  transform : Transform.t;
  velocity : Velocity.t;
  shape : option ObjectShape.t;
  components : list StoredComponent.t;
  provenance : option TemplateProvenance.t
}.
#[global] Instance StoredObject_eq_dec : EqDecision t.
Proof. solve_decision. Defined.
End StoredObject.

Module StoredVariable.
Record t : Type := mk {
  id : N;
  namespace : string;
  name : string;
  expression : string;
  description : option string
}.
#[global] Instance StoredVariable_eq_dec : EqDecision t.
Proof. solve_decision. Defined.
End StoredVariable.

Module StoredCounters.
Record t : Type := mk { objects : N; variables : N }.
#[global] Instance StoredCounters_eq_dec : EqDecision t.
Proof. solve_decision. Defined.
End StoredCounters.

Module StoredExperiment.
Section experiment.
Context `{Scientific}.
Record t : Type := mk {
  counters : StoredCounters.t;
  setup : Setup.t;
  variables : list StoredVariable.t;
  objects : list StoredObject.t
}.
End experiment.
End StoredExperiment.

(** How the experiment was looked at (default_view.rs): carried by the file as
    one uninterpreted section, which loading an experiment does not read. *)
Class DefaultView : Type := {
  AuthoringView : Type;
  StoredDefaultView : Type;
  stored_view : AuthoringView → StoredDefaultView
}.

Module ExperimentDocument.
Section document.
Context `{Scientific} `{DefaultView}.
Record t : Type := mk {
  dependencies : option SelectionLock.t;
  format : string;
  format_version : N;
  metadata : DocumentMetadata.t;
  experiment : StoredExperiment.t;
  default_view : option StoredDefaultView
}.
Definition set_format_version (format_version : N) (d : t) : t :=
  mk (dependencies d) (format d) format_version (metadata d) (experiment d) (default_view d).

(** *** Saving *)
Definition stored_variable (entry : VariableId.t * Variable_.t) : StoredVariable.t :=
  let '(id, definition) := entry in
  StoredVariable.mk (VariableId.get id) (Namespace.as_str (Variable_.namespace definition))
    (Name.as_str (Variable_.name definition)) (Variable_.expression definition) (Variable_.description definition).
Definition stored_component (entry : ComponentTypeId.t * ObjectComponent.t) : StoredComponent.t :=
  let '(type_id, component) := entry in
  StoredComponent.mk type_id (ObjectComponent.schema_version component)
    (stored_value <$> ObjectComponent.properties component).
Definition stored_object (entry : ObjectId.t * Object_.t) : StoredObject.t :=
  let '(id, object) := entry in
  StoredObject.mk (ObjectId.get id) (DisplayName.as_str (Object_.name object)) (Object_.transform object)
    (Object_.velocity object) (Object_.shape object)
    (stored_component <$> btree_entries (Object_.components object)) (Object_.provenance object).

Definition of_ (experiment : Experiment.t) (snapshot : ExperimentState.t) (view : AuthoringView)
    (metadata : DocumentMetadata.t) : t :=
  let counters := Experiment.counters experiment in
  mk (ExperimentState.dependencies snapshot) FORMAT FORMAT_VERSION metadata
    (StoredExperiment.mk
       (StoredCounters.mk (Counters.object counters) (Counters.variable counters))
       (ExperimentState.setup snapshot)
       (stored_variable <$> btree_entries (ExperimentState.variables snapshot))
       (stored_object <$> btree_entries (ExperimentState.objects snapshot)))
    (Some (stored_view view)).

(** *** Loading *)
Section loading.
Context `{!ScientificValidation} `{Unicode} `{Libm}.


Definition variable_record (definition : StoredVariable.t) : result DocumentError.t VariableRecord.t :=
  name ← result_map_err invalid_name (name_new (StoredVariable.name definition));
  Ok (VariableRecord.mk (StoredVariable.id definition) (Namespace.new (StoredVariable.namespace definition)) name
        (StoredVariable.expression definition) (StoredVariable.description definition)).
Definition component_record (component : StoredComponent.t)
    : result DocumentError.t (ComponentTypeId.t * ComponentRecord.t) :=
  properties ← mapM (λ '(property, value), authored ← StoredValue.into_authored value; Ok (property, authored))
                 (btree_entries (StoredComponent.properties component));
  Ok (StoredComponent.component component,
      ComponentRecord.mk (StoredComponent.schema_version component) (collect_map properties)).
Definition object_record (object : StoredObject.t) : result DocumentError.t ObjectRecord.t :=
  name ← result_map_err (λ e, DocumentError.Malformed (display_name_error e)) (DisplayName.new (StoredObject.name object));
  components ← mapM component_record (StoredObject.components object);
  Ok (ObjectRecord.mk (StoredObject.id object) name (StoredObject.transform object) (StoredObject.velocity object)
        (StoredObject.shape object) (collect_map components) (StoredObject.provenance object)).
Definition document_record (stored : StoredExperiment.t) : result DocumentError.t DocumentRecord.t :=
  variables ← mapM variable_record (StoredExperiment.variables stored);
  objects ← mapM object_record (StoredExperiment.objects stored);
  Ok (DocumentRecord.mk (StoredCounters.objects (StoredExperiment.counters stored))
        (StoredCounters.variables (StoredExperiment.counters stored)) objects variables
        (StoredExperiment.setup stored)).

Definition into_experiment (document : t) (schemas : SchemaRegistry.t) (limits : Limits.t)
    : outcome DocumentError.t Experiment.t :=
  if negb (bool_decide (format document = FORMAT))
  then refuse (DocumentError.WrongFormat (format document) FORMAT)
  else if negb (format_version document =? FORMAT_VERSION)%N
  then refuse (DocumentError.UnsupportedVersion (format_version document) FORMAT_VERSION)
  else
    record ← answer (document_record (experiment document));
    outcome_map_err DocumentError.Invalid
      (hydrate_with_dependencies record (dependencies document) schemas limits).
End loading.
End document.
End ExperimentDocument.

(** ** Reading bytes *)
Module DocumentHeader.
Record t : Type := mk { format : string; format_version : N }.
End DocumentHeader.
(** A version 1 document had no view and no other fields. *)
Module DocumentV1.
Section document.
Context `{Scientific} `{DefaultView}.
Record t : Type := mk {
  format : string;
  metadata : DocumentMetadata.t;
  experiment : StoredExperiment.t;
  format_version : N
}.
Definition into_document (d : t) : ExperimentDocument.t :=
  ExperimentDocument.mk None (format d) FORMAT_VERSION (metadata d) (experiment d) None.
End document.
End DocumentV1.

(** [serde_json] at the types the derived decoders and encoders are made for;
    an error is its text. *)
Class Json `{Scientific} `{DefaultView} : Type := {
  header_from_slice : bytes → result string DocumentHeader.t;
  v1_from_slice : bytes → result string DocumentV1.t;
  document_from_slice : bytes → result string ExperimentDocument.t;
  to_vec_pretty : ExperimentDocument.t → result string bytes
}.
(** container.rs, at its default bounds. *)
Class ContainerCodec `{Scientific} `{DefaultView} : Type := {
  container_decode : bytes → result DocumentError.t ExperimentDocument.t;
  container_encode : ExperimentDocument.t → result DocumentError.t bytes
}.

Section decode.
Context `{Json} `{!ContainerCodec}.

Definition malformed {A} (r : result string A) : result DocumentError.t A := result_map_err DocumentError.Malformed r.

Definition legacy_document (document : ExperimentDocument.t) : result DocumentError.t ExperimentDocument.t :=
  if existsb (λ c, bool_decide (is_Some (ComponentTypeId.contribution (StoredComponent.component c))))
       (StoredExperiment.objects (ExperimentDocument.experiment document) ≫= StoredObject.components)
  then Err (DocumentError.Malformed "exact component pins require document format 3")
  else Ok (ExperimentDocument.set_format_version FORMAT_VERSION document).

Definition decode_document (bs : bytes) : result DocumentError.t ExperimentDocument.t :=
  if bool_decide (take 2 bs = bytes_of "PK") then container_decode bs
  else if (MAX_JSON_DOCUMENT_BYTES <? lenN bs)%N
  then Err (DocumentError.Invalid (Rejection.Scientific ScientificError.Limit))
  else
    header ← malformed (header_from_slice bs);
    if negb (bool_decide (DocumentHeader.format header = FORMAT))
    then Err (DocumentError.WrongFormat (DocumentHeader.format header) FORMAT)
    else if (DocumentHeader.format_version header =? 1)%N
    then v1 ← malformed (v1_from_slice bs); legacy_document (DocumentV1.into_document v1)
    else if (DocumentHeader.format_version header =? 2)%N
    then document ← malformed (document_from_slice bs); legacy_document document
    else if (DocumentHeader.format_version header =? FORMAT_VERSION)%N
    then malformed (document_from_slice bs)
    else Err (DocumentError.UnsupportedVersion (DocumentHeader.format_version header) FORMAT_VERSION).
End decode.
