(* ===== verification/Reopened.v ===== *)
(** * A saved experiment opens again (kagami-session, document.rs; kagami-document,
    hydrate.rs and update.rs)

    What the transitions keep that a load needs, and that loading what was saved
    gives the same contents back. *)

From Stdlib Require Import Ascii.
From stdpp Require Import base gmap strings list pretty.
From S2P Require Import Prelude Identity VarLimits Action Binary64 Quantity Expression Grammar Namespace Evaluation System Resolution Variables Rewrite PluginIds Lock Schema Geometry Document Experiment Validate Edit Compile Follow Structure Hydrate Settled Reached Lasting Labels Saved.

#[local] Arguments next_u64 : simpl never.

Lemma mapM_fmap_ok {E A B C} (f : B → result E C) (g : A → B) (h : A → C) l :
  (∀ x, x ∈ l → f (g x) = Ok (h x)) → mapM f (g <$> l) = Ok (h <$> l).
Proof.
  induction l as [|x l IH]; intros Hall; [done|]. cbn. rewrite Hall by left. cbn.
  change (list_fmap A B g l) with (g <$> l). rewrite IH; [done|]. intros y Hy. apply Hall. by right.
Qed.

(** Each value of a map brought back from what it was turned into. *)
Lemma try_values_again {E K V W} `{Countable K, Ord K, !OrdLaws K} (f : K → V → outcome E W) (h : W → V) (m : gmap K W) :
  map_Forall (λ k w, f k (h w) = Some (Ok w)) m → try_values f (h <$> m) = Some (Ok m).
Proof.
  intros Hall. unfold try_values. rewrite btree_entries_fmap.
  assert (try_entries f ((λ e, (e.1, h e.2)) <$> btree_entries m) = Some (Ok (btree_entries m))) as ->.
  2: { cbn. by rewrite list_to_map_entries. }
  assert (∀ k w, (k, w) ∈ btree_entries m → f k (h w) = Some (Ok w)) as Hin by (intros k w Hin; by apply Hall, elem_of_btree_entries).
  clear Hall. induction (btree_entries m) as [|[k w] l IH]; [done|]. cbn. rewrite Hin by left.
  change (list_fmap _ _ ?g l) with (g <$> l). rewrite IH; [done|]. intros k' w' Hin'. apply Hin. by right.
Qed.

Section saved.
Context `{ScientificValidation} `{DefaultView} `{Unicode} `{Libm}.
Implicit Types (s : ExperimentState.t) (experiment : Experiment.t).

(** ** The record a saved experiment is read as *)
Definition variable_entry (entry : VariableId.t * Variable_.t) : VariableRecord.t :=
  let '(id, d) := entry in
  VariableRecord.mk (VariableId.get id) (Variable_.namespace d) (Variable_.name d) (Variable_.expression d)
    (Variable_.description d).
Definition component_entry (c : ObjectComponent.t) : ComponentRecord.t :=
  ComponentRecord.mk (ObjectComponent.schema_version c) (PropertyValue.authored <$> ObjectComponent.properties c).
Definition object_entry (entry : ObjectId.t * Object_.t) : ObjectRecord.t :=
  let '(id, o) := entry in
  ObjectRecord.mk (ObjectId.get id) (Object_.name o) (Object_.transform o) (Object_.velocity o) (Object_.shape o)
    (component_entry <$> Object_.components o) (Object_.provenance o).
Definition record_of (s : ExperimentState.t) (counters : Counters.t) : DocumentRecord.t :=
  DocumentRecord.mk (Counters.object counters) (Counters.variable counters)
    (object_entry <$> btree_entries (ExperimentState.objects s))
    (variable_entry <$> btree_entries (ExperimentState.variables s)) (ExperimentState.setup s).

(** Names and labels are what their constructors return. *)
Definition spelled s : Prop :=
  (∀ id d, ExperimentState.variables s !! id = Some d → ∃ value, name_new value = Ok (Variable_.name d))
  ∧ ∀ id o, ExperimentState.objects s !! id = Some o → ∃ value, utf8 value ∧ DisplayName.new value = Ok (Object_.name o).

Lemma authored_again v : StoredValue.into_authored (stored_value v) = Ok (PropertyValue.authored v).
Proof.
  unfold stored_value. destruct v as [source unit si dimension|b|t|source unit]; cbn; try done;
    unfold PropertyValue.authored_quantity; (destruct unit as [symbol|]; cbn; [|done]);
    (destruct (lookup symbol) as [u|] eqn:Hl; cbn; [|done]); destruct (lookup_in _ _ Hl) as [_ ->]; by rewrite Hl.
Qed.
Lemma stored_variable_record id d value :
  name_new value = Ok (Variable_.name d) →
  ExperimentDocument.variable_record (ExperimentDocument.stored_variable (id, d)) = Ok (variable_entry (id, d)).
Proof.
  intros Hn. unfold ExperimentDocument.variable_record. cbn.
  apply name_new_ok in Hn as [Hn Hv]. assert (name_new (Name.as_str (Variable_.name d)) = Ok (Variable_.name d)) as ->
    by (apply name_new_ok; rewrite Hn; by split).
  cbn. by destruct (Variable_.namespace d).
Qed.
Lemma stored_component_record type_id c :
  ExperimentDocument.component_record (ExperimentDocument.stored_component (type_id, c)) = Ok (type_id, component_entry c).
Proof.
  unfold ExperimentDocument.component_record. cbn [ExperimentDocument.stored_component StoredComponent.properties
    StoredComponent.component StoredComponent.schema_version]. rewrite btree_entries_fmap.
  rewrite (mapM_fmap_ok _ _ (λ e, (e.1, PropertyValue.authored e.2))).
  - cbn. by rewrite <- btree_entries_fmap, collect_entries.
  - intros [k v] _. cbn. by rewrite authored_again.
Qed.
Lemma stored_object_record id o value :
  utf8 value → DisplayName.new value = Ok (Object_.name o) →
  ExperimentDocument.object_record (ExperimentDocument.stored_object (id, o)) = Ok (object_entry (id, o)).
Proof.
  intros Hu Hn. unfold ExperimentDocument.object_record. cbn [ExperimentDocument.stored_object StoredObject.name
    StoredObject.components]. rewrite (label_again _ _ Hu Hn). cbn [result_map_err mbind result_bind].
  rewrite (mapM_fmap_ok _ _ (λ e, (e.1, component_entry e.2))).
  - cbn. by rewrite <- btree_entries_fmap, collect_entries.
  - intros [k v] _. apply stored_component_record.
Qed.
Lemma saved_record s counters snapshot_view metadata :
  spelled s →
  ExperimentDocument.document_record (ExperimentDocument.experiment
    (ExperimentDocument.of_ (Experiment.mk s counters) s snapshot_view metadata)) = Ok (record_of s counters).
Proof.
  intros [Hv Ho]. unfold ExperimentDocument.document_record. cbn [ExperimentDocument.of_ ExperimentDocument.experiment
    StoredExperiment.variables StoredExperiment.objects].
  rewrite (mapM_fmap_ok _ _ variable_entry).
  2: { intros [id d] Hin%elem_of_btree_entries. destruct (Hv _ _ Hin) as [value Hn]. by eapply stored_variable_record. }
  cbn [mbind result_bind]. rewrite (mapM_fmap_ok _ _ object_entry).
  2: { intros [id o] Hin%elem_of_btree_entries. destruct (Ho _ _ Hin) as (value & Hu & Hn). by eapply stored_object_record. }
  done.
Qed.

(** ** Loading a record of contents that fit *)
Lemma hydrate_value_again schemas limits path v sys :
  value_current path v sys limits → value_fits schemas limits path v →
  hydrate_value path (PropertyValue.authored v) schemas sys limits = Some (Ok v).
Proof.
  intros Hcur Hfit. unfold hydrate_value, value_fits in *. destruct (declared schemas path) as [schema|].
  - destruct Hfit as [Hkind (r & Hr & Hacc)]. unfold resolve_property.
    destruct v as [source unit si dimension|b|t|source unit]; cbn [PropertyValue.authored].
    + destruct (PropertySchema.kind schema) as [expected| |]; try done. subst. unfold value_current in Hcur.
      destruct (PropertyValue.authored_quantity source unit); try done. rewrite Hcur. cbn in Hr |- *.
      injection Hr as <-. by rewrite Hacc.
    + destruct (PropertySchema.kind schema); try done. cbn in Hr |- *. injection Hr as <-. by rewrite Hacc.
    + destruct (PropertySchema.kind schema); try done. rewrite (proj2 (N.ltb_ge _ _) Hkind). cbn in Hr |- *.
      injection Hr as <-. by rewrite Hacc.
    + by destruct (PropertySchema.kind schema).
  - destruct v as [source unit si dimension|b|t|source unit]; cbn; try done. unfold PropertyValue.authored_quantity.
    destruct unit as [symbol|]; cbn; [|done]. destruct (Hfit symbol eq_refl) as [u Hu]. rewrite Hu. cbn.
    by destruct (lookup_in _ _ Hu) as [_ ->].
Qed.

Definition short (limits : Limits.t) (d : Variable_.t) : Prop :=
  (str_len (Variable_.expression d) ≤ Limits.max_expression_bytes limits)%N.

Lemma described_checked name limits d : described limits d → check_description name (Variable_.description d) limits = Ok ().
Proof.
  intros Hd. unfold check_description. destruct (Variable_.description d) as [text|] eqn:Ht; [|done].
  by rewrite (proj2 (N.ltb_ge _ _) (Hd text Ht)).
Qed.

Lemma hydrate_definitions_again counters limits entries : ∀ variables,
  Forall (λ e, (VariableId.get e.1 < Counters.variable counters)%N ∧ short limits e.2 ∧ described limits e.2) entries →
  NoDup entries.*1 → Forall (λ e, variables !! e.1 = None) entries →
  hydrate_definitions counters limits (variable_entry <$> entries) variables
  = Ok (foldl (λ m e, <[e.1 := e.2]> m) variables entries).
Proof.
  induction entries as [|[id d] entries IH]; intros variables Hall Hnd Hfree; [done|].
  inversion Hall as [|? ? (Hid & Hs & Hd) Hall']; subst. inversion Hfree as [|? ? Hf Hfree']; subst.
  rewrite fmap_cons, NoDup_cons in Hnd. destruct Hnd as [Hn Hnd]. cbn [fmap list_fmap hydrate_definitions foldl fst snd].
  assert (hydrate_variable counters limits (variable_entry (id, d)) variables = Ok (<[id := d]> variables)) as ->.
  { unfold hydrate_variable, Counters.restored_variable. unfold short in Hs. cbn in Hid, Hf, Hs, Hd |- *. rewrite (proj2 (N.ltb_lt _ _) Hid).
    assert (VariableId.from_raw (VariableId.get id) = id) as -> by (by destruct id).
    assert (contains_key id variables = false) as -> by (apply bool_decide_eq_false; intros [? Hx]; congruence).
    unfold check_expression_length. cbn. rewrite (proj2 (N.ltb_ge _ _) Hs). cbn.
    rewrite (described_checked _ limits d Hd). cbn. by destruct d. }
  cbn [mbind result_bind]. apply IH; [done|done|]. apply Forall_forall. intros e He. rewrite lookup_insert_ne.
  - by eapply (proj1 (Forall_forall _ _) Hfree').
  - intros ->. apply Hn. cbn [fst]. by apply list_elem_of_fmap_2.
Qed.

(** The components of an object, from what they were authored as. *)
Lemma hydrate_components_again schemas limits sys id o :
  (∀ type_id c property v, Object_.components o !! type_id = Some c → ObjectComponent.properties c !! property = Some v →
    value_current (PropertyPath.new id type_id property) v sys limits
    ∧ value_fits schemas limits (PropertyPath.new id type_id property) v) →
  try_values (hydrate_component id schemas sys limits) (component_entry <$> Object_.components o)
  = Some (Ok (Object_.components o)).
Proof.
  intros Hall. apply try_values_again. intros type_id c Hc. unfold hydrate_component. cbn [component_entry ComponentRecord.properties].
  rewrite try_values_again; [by destruct c|]. intros property v Hv. destruct (Hall _ _ _ _ Hc Hv). by apply hydrate_value_again.
Qed.

Lemma hydrate_objects_again counters schemas sys limits entries : ∀ objects,
  Forall (λ e, (ObjectId.get e.1 < Counters.object counters)%N
    ∧ try_values (hydrate_component e.1 schemas sys limits) (component_entry <$> Object_.components e.2)
      = Some (Ok (Object_.components e.2))) entries →
  NoDup entries.*1 → Forall (λ e, objects !! e.1 = None) entries →
  hydrate_objects counters schemas sys limits (object_entry <$> entries) objects
  = Some (Ok (foldl (λ m e, <[e.1 := e.2]> m) objects entries)).
Proof.
  induction entries as [|[id o] entries IH]; intros objects Hall Hnd Hfree; [done|].
  inversion Hall as [|? ? (Hid & Hc) Hall']; subst. inversion Hfree as [|? ? Hf Hfree']; subst.
  rewrite fmap_cons, NoDup_cons in Hnd. destruct Hnd as [Hn Hnd]. cbn [fmap list_fmap hydrate_objects foldl fst snd].
  unfold Counters.restored_object. cbn [object_entry ObjectRecord.id ObjectRecord.components]. cbn in Hid, Hf, Hc.
  rewrite (proj2 (N.ltb_lt _ _) Hid). assert (ObjectId.from_raw (ObjectId.get id) = id) as -> by (by destruct id).
  assert (contains_key id objects = false) as -> by (apply bool_decide_eq_false; intros [? Hx]; congruence).
  rewrite Hc. cbn [mbind outcome_bind]. replace (Object_.mk _ _ _ _ _ _) with o by (by destruct o). apply IH; [done|done|].
  apply Forall_forall. intros e He. rewrite lookup_insert_ne.
  - by eapply (proj1 (Forall_forall _ _) Hfree').
  - intros ->. apply Hn. cbn [fst]. by apply list_elem_of_fmap_2.
Qed.

Lemma locked_dependencies s limits lock :
  validate_structure s limits = Some (Ok ()) → ExperimentState.dependencies s = Some lock →
  lock_validate lock (Limits.dependencies limits) = Some (Ok ()).
Proof.
  intros Hs Hl. unfold validate_structure, validate_structure_against in Hs. cbn zeta in Hs. destruct (_ <? _)%N; [done|].
  do 3 (apply outcome_bind_ok in Hs as (? & _ & Hs)). unfold validate_against in Hs. rewrite Hl in Hs.
  match type of Hs with outcome_map_err _ ?m = _ => destruct m as [[[]|]|] eqn:Hm; try done end.
  apply outcome_bind_ok in Hm as ([] & Hv & _). destruct (lock_validate _ _) as [[[]|]|]; done.
Qed.

Lemma record_hydrates schemas limits counters s :
  settled limits s → all_minted s counters → loadable schemas limits counters s →
  (∀ d, definition_in d s → short limits d) →
  hydrate_with_dependencies (record_of s counters) (ExperimentState.dependencies s) schemas limits
  = Some (Ok (Experiment.mk (ExperimentState.set_revision ExperimentRevision.INITIAL s) counters)).
Proof.
  intros Hs Hm [Hfits Hom Hdesc Hst Hsc] Hshort. pose proof (named_all limits s Hs) as Hn. destruct Hs as [_ (sys & Hsys & Hcur)].
  destruct (compile_document_ok _ _ _ Hn Hsys) as (Hsize & _ & _). unfold hydrate_with_dependencies.
  assert (∀ B (k : unit → outcome Rejection.t B), (match ExperimentState.dependencies s with
    | Some lock => outcome_map_err (λ e, Rejection.Dependencies (DependencyError.Lock e)) (lock_validate lock (Limits.dependencies limits))
    | None => answer (Ok ()) end ≫= k) = k ()) as ->.
  { intros B k. destruct (ExperimentState.dependencies s) as [lock|] eqn:Hl; [|done]. by rewrite (locked_dependencies s limits lock Hst Hl). }
  cbn zeta. assert (hydrate_variables (record_of s counters) limits = Ok (ExperimentState.variables s)) as ->.
  { unfold hydrate_variables. cbn [record_of DocumentRecord.variables].
    assert (lenN (variable_entry <$> btree_entries (ExperimentState.variables s)) = N.of_nat (size (ExperimentState.variables s))) as ->
      by (unfold lenN; by rewrite length_fmap, length_btree_entries).
    rewrite (proj2 (N.ltb_ge _ _) Hsize), hydrate_definitions_again.
    - f_equal. apply collect_entries.
    - apply Forall_forall. intros [id d] Hin%elem_of_btree_entries. cbn. split_and!; [by eapply Hm|..]; [apply Hshort|apply Hdesc]; by exists id.
    - apply NoDup_btree_keys.
    - apply Forall_forall. intros e _. apply lookup_empty. }
  cbn [answer mbind outcome_bind].
  rewrite (compile_same s) by done. rewrite Hsys. cbn [mbind outcome_bind].
  assert (DocumentRecord.counters (record_of s counters) = counters) as -> by (by destruct counters).
  cbn [record_of DocumentRecord.objects DocumentRecord.setup]. rewrite hydrate_objects_again.
  - cbn [mbind outcome_bind]. change (foldl _ ∅ (btree_entries (ExperimentState.objects s))) with (collect_map (btree_entries (ExperimentState.objects s))).
    rewrite collect_entries. set (s' := ExperimentState.set_objects _ _).
    assert (s' = ExperimentState.set_revision ExperimentRevision.INITIAL s) as -> by (unfold s'; by destruct s).
    change (validate_structure (ExperimentState.set_revision _ s) limits) with (validate_structure s limits). rewrite Hst.
    cbn [mbind outcome_bind]. by rewrite Hsc.
  - apply Forall_forall. intros [id o] Hin%elem_of_btree_entries. cbn [fst snd]. split; [by eapply Hom|].
    apply hydrate_components_again. intros type_id c property v Hc Hv.
    assert (stored s (PropertyPath.new id type_id property) = Some v) as Hstored
      by (unfold stored, component_at, CapabilityReport.component_at; cbn; by rewrite Hin; cbn; rewrite Hc).
    split; [by apply Hcur|by apply Hfits].
  - apply NoDup_btree_keys.
  - apply Forall_forall. intros e _. apply lookup_empty.
Qed.
End saved.

Section reopened.
Context `{ScientificValidation} `{DefaultView} `{Unicode} `{Libm}.

End reopened.

(** ** A document that saves and does not open *)
Module Grown.
Import Sample.
#[local] Existing Instance plain.
#[local] Existing Instance plain_validation.
#[local] Existing Instance latin1.
#[local] Existing Instance first_argument.
Definition plain_view : DefaultView := {| AuthoringView := unit; StoredDefaultView := unit; stored_view := λ v, v |}.
#[local] Existing Instance plain_view.

Definition view : @AuthoringView plain_view := tt.
Definition stamp : DocumentMetadata.t := DocumentMetadata.mk "kagami" "2026-01-01" "2026-01-02" 2.
Definition saved (experiment : Experiment.t) : ExperimentDocument.t :=
  ExperimentDocument.of_ experiment (Experiment.snapshot experiment) view stamp.
Definition opened (experiment : Experiment.t) : outcome DocumentError.t Experiment.t :=
  ExperimentDocument.into_experiment (saved experiment) schemas Limits.DEFAULT.

Lemma spelled_check s :
  bool_decide (map_Forall (λ _ d, validate_name (Name.as_str (Variable_.name d)) = Ok ()) (ExperimentState.variables s)
    ∧ map_Forall (λ _ o, utf8_from 0 (bytes_of (DisplayName.as_str (Object_.name o))) = true
        ∧ DisplayName.new (DisplayName.as_str (Object_.name o)) = Ok (Object_.name o)) (ExperimentState.objects s)) = true →
  spelled s.
Proof.
  intros [Hv Ho]%bool_decide_eq_true. split.
  - intros id d Hd. exists (Name.as_str (Variable_.name d)). apply name_new_ok. split; [by destruct (Variable_.name d)|by eapply Hv].
  - intros id o Hid. destruct (Ho id o Hid) as [Hu Hn]. by eexists.
Qed.


(** A hundred uses of a name of nine letters are within the bound; of a name of
    thirty they are not. *)
Fixpoint uses (n : nat) (name : string) : string :=
  match n with O | S O => name | S n => name +:+ "+" +:+ uses n name end.
Definition brief : list ExperimentCommand.t := [
  ExperimentCommand.DefineVariable (VariableSpec.new (Name.mk "unit_mass") "1 kg");
  ExperimentCommand.DefineVariable (VariableSpec.new (Name.mk "total") (uses 100 "unit_mass"))].
Definition verbose : list ExperimentCommand.t := [
  ExperimentCommand.RenameVariable (VariableId.from_raw 0) (Name.mk "mass_of_one_unit_of_the_ballast")].
Definition before : Experiment.t := accepted (commit Experiment.new brief).
Definition after : Experiment.t := accepted (commit before verbose).

(** The bound on the definitions is needed. A rename checks the sources it
    rewrites against the bound of the expression engine and not against the
    document's own: it is accepted, the document evaluates and saves, and what
    was saved is refused for a source that is too long. *)
Theorem grown_rename_does_not_reopen :
  (∃ candidate, commit Experiment.new brief = Some (Ok candidate) ∧ Candidate.experiment candidate = before)
  ∧ (∃ candidate, commit before verbose = Some (Ok candidate) ∧ Candidate.experiment candidate = after)
  ∧ opened before = Some (Ok (Experiment.mk
      (ExperimentState.set_revision ExperimentRevision.INITIAL (Experiment.state before)) (Experiment.counters before)))
  ∧ opened after = Some (Err (DocumentError.Invalid (Rejection.VariableExpressionTooLong "total" 3199 1024))).
Proof.
  split; [|split; [|split; vm_compute; reflexivity]].
  - destruct (commit_accepted Experiment.new brief) as (candidate & Hc & Ha); [vm_compute; reflexivity|].
    exists candidate. split; [exact Hc|symmetry; exact Ha].
  - destruct (commit_accepted before verbose) as (candidate & Hc & Ha); [vm_compute; reflexivity|].
    exists candidate. split; [exact Hc|symmetry; exact Ha].
Qed.
End Grown.
