(* ===== verification/Resaved.v ===== *)
(** * Opening a file and saving it again (kagami-session, document.rs)

    Whatever is installed, an experiment read from a file in the order a save
    writes is written back as the same experiment section. *)

From stdpp Require Import base gmap strings list sorting.
From S2P Require Import Prelude Identity VarLimits Action Binary64 Quantity Expression Grammar Namespace Evaluation System Resolution Variables Rewrite PluginIds Lock Schema Geometry Document Experiment Validate Edit Structure Hydrate Settled Reached Labels Saved Lasting Reopened.

(** ** Keys in ascending order *)
Definition ascending `{Ord K} (keys : list K) : Prop := StronglySorted (λ a b, a ≺ b) keys.

Lemma ascending_NoDup `{Ord K, !OrdLaws K} (keys : list K) : ascending keys → NoDup keys.
Proof.
  induction 1 as [|k keys _ IH Hall]; constructor; [|done]. intros Hin. rewrite Forall_forall in Hall.
  by apply (cmp_lt_irrefl k), Hall.
Qed.
Lemma collect_ascending `{Countable K, Ord K, !OrdLaws K} {V} (l : list (K * V)) :
  ascending l.*1 → btree_entries (collect_map l) = l.
Proof.
  intros Ha. pose proof (ascending_NoDup _ Ha) as Hnd. rewrite collect_map_distinct by done.
  apply btree_entries_list_to_map; [|done]. clear Hnd. induction l as [|e l IH]; [constructor|].
  inversion Ha as [|? ? Ha' Hall]; subst. constructor; [by apply IH|]. apply Forall_fmap in Hall.
  eapply Forall_impl; [exact Hall|]. intros e' Hlt. unfold entry_le. cbn in Hlt. by rewrite Hlt.
Qed.

Lemma mapM_ok {E A B} (f : A → result E B) l : ∀ l', mapM f l = Ok l' → Forall2 (λ x y, f x = Ok y) l l'.
Proof.
  induction l as [|x l IH]; intros l'; cbn; [by intros [= <-]|].
  intros (y & Hy & (l1 & Hl & [= <-])%result_bind_ok)%result_bind_ok. constructor; [done|by apply IH].
Qed.
Lemma Forall2_fmap_eq {A B C} (f : A → C) (g : B → C) l k : Forall2 (λ x y, g y = f x) l k → g <$> k = f <$> l.
Proof. induction 1; cbn; [done|]. by f_equal. Qed.

(** The entries of a map rewritten value by value. *)
Lemma try_values_entries {E K V W} `{Countable K, Ord K, !OrdLaws K} (f : K → V → outcome E W) (m : gmap K V) m' :
  try_values f m = Some (Ok m') →
  Forall2 (λ x y, y.1 = x.1 ∧ f x.1 x.2 = Some (Ok y.2)) (btree_entries m) (btree_entries m').
Proof.
  intros (l & Hl & [= <-])%outcome_bind_ok. apply try_entries_ok in Hl as Hall.
  assert (l.*1 = (btree_entries m).*1) as Hkeys by (apply Forall2_fmap_eq; eapply Forall2_impl; [exact Hall|]; by intros ? ? []).
  rewrite btree_entries_list_to_map; [done| |rewrite Hkeys; apply NoDup_btree_keys].
  pose proof (btree_entries_sorted m) as Hs. clear Hl. revert Hkeys Hs. generalize (btree_entries m). clear.
  induction l as [|e l IH]; intros [|e0 l0] Hkeys Hs; try done; [constructor|]. cbn in Hkeys. injection Hkeys as He Hkeys.
  inversion Hs as [|? ? Hs' Hle]; subst. constructor; [by eapply IH|]. apply Forall_forall.
  intros x Hx. assert (x.1 ∈ l0.*1) as Hin by (rewrite <- Hkeys; by apply list_elem_of_fmap_2).
  apply list_elem_of_fmap in Hin as (y & Hxy & Hy). apply (proj1 (Forall_forall _ _) Hle) in Hy.
  unfold entry_le in *. by rewrite He, Hxy.
Qed.

Section resaved.
Context `{ScientificValidation} `{DefaultView} `{Unicode} `{Libm}.

(** The order a save writes in, and labels as they are kept. *)
Record canonical (e : StoredExperiment.t) : Prop := {
  canonical_variables : ascending (StoredVariable.id <$> StoredExperiment.variables e);
  canonical_objects : ascending (StoredObject.id <$> StoredExperiment.objects e);
  canonical_components : ∀ o, o ∈ StoredExperiment.objects e →
    ascending (StoredComponent.component <$> StoredObject.components o)
    ∧ DisplayName.new (StoredObject.name o) = Ok (DisplayName.mk (StoredObject.name o))
}.

(** ** Values *)
Definition unit_listed (a : AuthoredValue.t) : Prop :=
  match a with AuthoredValue.Quantity _ (Some u) => lookup (Unit.symbol u) = Ok u | _ => True end.

Lemma authored_listed source unit :
  unit_listed (AuthoredValue.Quantity source unit) →
  PropertyValue.authored_quantity source (Unit.symbol <$> unit) = AuthoredValue.Quantity source unit.
Proof. unfold PropertyValue.authored_quantity. destruct unit as [u|]; cbn; [|done]. by intros ->. Qed.

(** What was authored is kept, whether or not it could be priced. *)
Lemma hydrated_authored path authored schemas sys limits v :
  hydrate_value path authored schemas sys limits = Some (Ok v) → unit_listed authored → PropertyValue.authored v = authored.
Proof.
  intros Hv Hu. unfold hydrate_value in Hv. destruct (declared schemas path) as [schema|].
  - apply outcome_bind_ok in Hv as (v' & Hv & Hcheck).
    assert (v' = v) as -> by (revert Hcheck; destruct (PropertyValue.schema_value v'); [destruct (PropertySchema.accepts _ _)|]; by intros [= ->]).
    destruct (PropertySchema.kind schema) as [dimension| |], authored as [source unit|b|t]; try done.
    + apply resolve_quantity_ok in Hv as (c & factor & display_unit & q & _ & _ & _ & Hdu & _ & Hv).
      apply declared_unit_ok in Hdu as ->. unfold priced in Hv. destruct (negb (Quantity.is_dimensionless q)).
      * case_bool_decide; [|done]. cbn in Hv. destruct unit; [done|]. by injection Hv as <-.
      * destruct (negb _); [done|]. injection Hv as <-. by apply authored_listed.
    + by injection Hv as <-.
    + destruct (_ <? _)%N; [done|]. by injection Hv as <-.
  - injection Hv as <-. destruct authored as [source unit|b|t]; [by apply authored_listed|done..].
Qed.
Lemma hydrated_stored schemas sys limits path stored authored v :
  StoredValue.into_authored stored = Ok authored → hydrate_value path authored schemas sys limits = Some (Ok v) →
  stored_value v = stored.
Proof.
  intros Hs Hv. assert (unit_listed authored ∧ match authored with
    | AuthoredValue.Quantity expression unit => StoredValue.Quantity expression (Unit.symbol <$> unit)
    | AuthoredValue.Boolean value => StoredValue.Boolean value
    | AuthoredValue.Text value => StoredValue.Text value end = stored) as [Hu <-].
  { destruct stored as [source [symbol|]|b|t]; cbn in Hs; [|by injection Hs as <-..].
    destruct (lookup symbol) as [u|] eqn:Hl; [|done]. injection Hs as <-. destruct (lookup_in _ _ Hl) as [_ Hsym].
    cbn. by rewrite Hsym. }
  unfold stored_value. by rewrite (hydrated_authored _ _ _ _ _ _ Hv Hu).
Qed.

(** ** Components and objects *)
Lemma into_properties (properties : gmap PropertyName.t StoredValue.t) (entries : list (PropertyName.t * AuthoredValue.t)) :
  mapM (λ '(property, value), authored ← StoredValue.into_authored value; Ok (property, authored))
    (btree_entries properties) = Ok entries →
  ∀ property, match properties !! property, collect_map entries !! property with
    | Some stored, Some authored => StoredValue.into_authored stored = Ok authored
    | None, None => True
    | _, _ => False
    end.
Proof.
  intros Hall%mapM_ok property.
  assert (Forall2 (λ x y, y.1 = x.1 ∧ StoredValue.into_authored x.2 = Ok y.2) (btree_entries properties) entries) as Hrel.
  { eapply Forall2_impl; [exact Hall|]. intros [k stored] [k' authored]. cbn. by intros (a & Ha & [= <- <-])%result_bind_ok. }
  assert (entries.*1 = (btree_entries properties).*1) as Hkeys by (apply Forall2_fmap_eq; eapply Forall2_impl; [exact Hrel|]; by intros ?? []).
  assert (NoDup entries.*1) as Hnd by (rewrite Hkeys; apply NoDup_btree_keys). rewrite collect_map_distinct by done.
  destruct (properties !! property) as [stored|] eqn:Hs.
  - apply elem_of_btree_entries, list_elem_of_lookup in Hs as [i Hi].
    destruct (Forall2_lookup_l _ _ _ _ _ Hrel Hi) as ([k authored] & Hj & Hk & Ha). cbn in Hk, Ha. subst k.
    by erewrite elem_of_list_to_map_1 by (done || by eapply list_elem_of_lookup_2).
  - rewrite not_elem_of_list_to_map_1; [done|]. rewrite Hkeys. change ((btree_entries properties).*1) with (btree_keys properties).
    rewrite elem_of_btree_keys, Hs. by intros [? ?].
Qed.

Lemma resaved_component id schemas sys limits stored type_id record component :
  ExperimentDocument.component_record stored = Ok (type_id, record) →
  hydrate_component id schemas sys limits type_id record = Some (Ok component) →
  ExperimentDocument.stored_component (type_id, component) = stored.
Proof.
  intros (entries & He & [= <- <-])%result_bind_ok (properties & Hp & [= <-])%outcome_bind_ok. cbn.
  destruct stored as [type_id version stored]. cbn in *. f_equal. apply map_eq. intros property. rewrite lookup_fmap.
  pose proof (into_properties _ _ He property) as Hat. pose proof (try_values_ok _ _ _ property Hp) as Hap.
  destruct (stored !! property) as [value|], (collect_map entries !! property) as [authored|], (properties !! property) as [v|]; try done.
  cbn. f_equal. by eapply hydrated_stored.
Qed.

Lemma resaved_object id schemas sys limits stored record components :
  ascending (StoredComponent.component <$> StoredObject.components stored) →
  ExperimentDocument.object_record stored = Ok record →
  try_values (hydrate_component id schemas sys limits) (ObjectRecord.components record) = Some (Ok components) →
  ExperimentDocument.stored_component <$> btree_entries components = StoredObject.components stored.
Proof.
  intros Hasc (name & _ & (entries & He & [= <-])%result_bind_ok)%result_bind_ok Hc%try_values_entries. cbn in Hc.
  apply mapM_ok in He.
  assert (entries.*1 = StoredComponent.component <$> StoredObject.components stored) as Hkeys.
  { apply Forall2_fmap_eq. eapply Forall2_impl; [exact He|]. intros x [type_id record].
    by intros (properties & _ & [= <- _])%result_bind_ok. }
  rewrite collect_ascending in Hc by (by rewrite Hkeys). clear Hasc Hkeys.
  revert Hc. generalize (btree_entries components). induction He as [|x [type_id record] l entries Hx _ IH]; intros l' Hc;
    inversion Hc as [|? [type_id' component] ? ? [Hk Hv] Hc']; subst; [done|]. cbn in Hk, Hv. subst type_id'. cbn.
  f_equal; [by eapply resaved_component|by apply IH].
Qed.

(** ** The whole file *)
Lemma hydrated_variables counters limits stored : ∀ records variables variables',
  Forall2 (λ x y, ExperimentDocument.variable_record x = Ok y) stored records →
  hydrate_definitions counters limits records variables = Ok variables' →
  ∃ entries, variables' = foldl (λ m e, <[e.1 := e.2]> m) variables entries
    ∧ Forall2 (λ x e, ExperimentDocument.stored_variable e = x) stored entries.
Proof.
  induction stored as [|x stored IH]; intros records variables variables' Hall; inversion Hall as [|? r ? rs Hx Hall']; subst; cbn [hydrate_definitions].
  { intros [= <-]. exists []. split; [done|constructor]. }
  intros (variables1 & Hone & Hrest)%result_bind_ok. destruct (IH _ _ _ Hall' Hrest) as (entries & -> & He).
  unfold hydrate_variable, Counters.restored_variable in Hone. destruct (_ <? _)%N; [|done]. destruct (contains_key _ variables); [done|].
  cbn zeta in Hone. apply result_bind_ok in Hone as (? & _ & Hone). apply result_bind_ok in Hone as (? & _ & [= <-]).
  eexists ((VariableId.from_raw (VariableRecord.id r), _) :: entries). split; [done|]. constructor; [|done].
  apply result_bind_ok in Hx as (name & Hname & [= <-]). destruct x as [id namespace text expression description]. cbn in *.
  destruct (name_new text) as [n|] eqn:Hn; [|done]. injection Hname as <-. by apply name_new_ok in Hn as [-> _].
Qed.

Lemma hydrated_objects counters schemas sys limits stored : ∀ records objects objects',
  Forall (λ o, ascending (StoredComponent.component <$> StoredObject.components o)
    ∧ DisplayName.new (StoredObject.name o) = Ok (DisplayName.mk (StoredObject.name o))) stored →
  Forall2 (λ x y, ExperimentDocument.object_record x = Ok y) stored records →
  hydrate_objects counters schemas sys limits records objects = Some (Ok objects') →
  ∃ entries, objects' = foldl (λ m e, <[e.1 := e.2]> m) objects entries
    ∧ Forall2 (λ x e, ExperimentDocument.stored_object e = x) stored entries.
Proof.
  induction stored as [|x stored IH]; intros records objects objects' Hcan Hall; inversion Hall as [|? r ? rs Hx Hall']; subst; cbn [hydrate_objects].
  { intros [= <-]. exists []. split; [done|constructor]. }
  inversion Hcan as [|? ? [Hasc Hname] Hcan']; subst.
  unfold Counters.restored_object. destruct (_ <? _)%N; [|done]. destruct (contains_key _ objects); [done|].
  intros (components & Hc & Hrest)%outcome_bind_ok. destruct (IH _ _ _ Hcan' Hall' Hrest) as (entries & -> & He).
  eexists ((ObjectId.from_raw (ObjectRecord.id r), _) :: entries). split; [done|]. constructor; [|done].
  unfold ExperimentDocument.stored_object. cbn. rewrite (resaved_object _ _ _ _ _ _ _ Hasc Hx Hc).
  apply result_bind_ok in Hx as (name & Hn & Hx). apply result_bind_ok in Hx as (? & _ & [= <-]).
  rewrite Hname in Hn. injection Hn as <-. by destruct x.
Qed.

Lemma stored_entries {K V S I} `{Countable K, Ord K, !OrdLaws K, Ord I} (store : K * V → S) (get : K → I) (id : S → I) stored entries :
  (∀ a b : K, cmp a b = cmp (get a) (get b)) → (∀ e, id (store e) = get e.1) →
  Forall2 (λ x e, store e = x) stored entries → ascending (id <$> stored) →
  store <$> btree_entries (foldl (λ m e, <[e.1 := e.2]> m) (∅ : gmap K V) entries) = stored.
Proof.
  intros Hcmp Hid Hall Hasc. assert (stored = store <$> entries) as ->.
  { induction Hall as [|x e stored entries <- _ IH]; [done|]. cbn. f_equal. apply IH. by inversion Hasc. }
  change (foldl _ ∅ entries) with (collect_map entries). rewrite collect_ascending; [done|].
  clear Hall. unfold ascending in *. induction entries as [|e entries IH]; [constructor|]. cbn in *.
  inversion Hasc as [|? ? Hasc' Hlt]; subst. constructor; [by apply IH|]. rewrite Hid in Hlt.
  apply Forall_fmap, Forall_forall. intros e' He'. cbn. rewrite Hcmp.
  apply (proj1 (Forall_forall _ _) Hlt). rewrite <- Hid. apply list_elem_of_fmap. exists (store e'). split; [done|].
  by apply list_elem_of_fmap_2.
Qed.

(** A file is not churned by opening it. An experiment opened from a file in
    the order a save writes in is saved as the same experiment section and
    provider lock, whichever plugins are installed: a component nothing installed
    declares keeps every value as it was authored. *)
Theorem reopening_saves_the_same document schemas limits experiment view metadata
    (Hopened : ExperimentDocument.into_experiment document schemas limits = Some (Ok experiment))
    (Hcanonical : canonical (ExperimentDocument.experiment document)) :
  let saved := ExperimentDocument.of_ experiment (Experiment.snapshot experiment) view metadata in
  ExperimentDocument.experiment saved = ExperimentDocument.experiment document
  ∧ ExperimentDocument.dependencies saved = ExperimentDocument.dependencies document.
Proof.
  destruct Hcanonical as [Hv Ho Hc]. unfold ExperimentDocument.into_experiment in Hopened.
  destruct (bool_decide _); [|done]. destruct (_ =? _)%N; [|done]. cbn [negb] in Hopened.
  apply outcome_bind_ok in Hopened as (record & [= Hrecord] & Hopened).
  apply result_bind_ok in Hrecord as (variables & Hvars%mapM_ok & Hrecord).
  apply result_bind_ok in Hrecord as (objects & Hobjs%mapM_ok & [= <-]).
  destruct (hydrate_with_dependencies _ _ _ _) as [[e|]|] eqn:Hrun; [|done|done]. injection Hopened as ->.
  unfold hydrate_with_dependencies in Hrun. apply outcome_bind_ok in Hrun as (? & _ & Hrun). cbn zeta in Hrun.
  apply outcome_bind_ok in Hrun as (vs & [= Hvs] & Hrun). apply outcome_bind_ok in Hrun as (sys & _ & Hrun).
  apply outcome_bind_ok in Hrun as (os & Hos & Hrun). apply outcome_bind_ok in Hrun as (? & _ & Hrun).
  apply outcome_bind_ok in Hrun as (? & _ & [= <-]). split; [|done].
  cbn [ExperimentDocument.of_ ExperimentDocument.experiment Experiment.snapshot Experiment.state Experiment.counters
    ExperimentState.set_objects ExperimentState.objects ExperimentState.variables ExperimentState.setup].
  unfold hydrate_variables in Hvs. destruct (_ <? _)%N; [done|].
  destruct (hydrated_variables _ _ _ _ _ _ Hvars Hvs) as (ventries & -> & Hve).
  destruct (hydrated_objects _ _ _ _ _ _ _ _ (proj2 (Forall_forall _ _) Hc) Hobjs Hos) as (oentries & -> & Hoe).
  pose proof (stored_entries ExperimentDocument.stored_variable VariableId.get StoredVariable.id _ _ (λ _ _, eq_refl) ltac:(by intros []) Hve Hv) as Hve'.
  pose proof (stored_entries ExperimentDocument.stored_object ObjectId.get StoredObject.id _ _ (λ _ _, eq_refl) ltac:(by intros []) Hoe Ho) as Hoe'.
  destruct (ExperimentDocument.experiment document) as [[] ? ? ?]. cbn in Hve', Hoe' |- *. by f_equal.
Qed.

(** ** What a save writes is in that order *)
Lemma keys_ascending {K V I} `{Countable K, Ord K, !OrdLaws K, Ord I} (get : K → I) (m : gmap K V) :
  (∀ a b : K, cmp a b = cmp (get a) (get b)) → ascending ((λ e, get e.1) <$> btree_entries m).
Proof.
  intros Hcmp. pose proof (btree_entries_sorted m) as Hs. pose proof (NoDup_btree_keys m) as Hnd. unfold btree_keys in Hnd.
  induction Hs as [|e l Hs IH Hall]; [constructor|]. rewrite fmap_cons, NoDup_cons in Hnd. destruct Hnd as [Hn Hnd].
  cbn. constructor; [by apply IH|]. apply Forall_fmap, Forall_forall. intros e' He'. cbn. rewrite <- Hcmp.
  apply (proj1 (Forall_forall _ _) Hall) in He' as Hle. apply cmp_le_lt_or_eq in Hle as [?|Heq]; [done|].
  destruct Hn. rewrite Heq. by apply list_elem_of_fmap_2.
Qed.
Lemma saved_canonical experiment view metadata :
  spelled (Experiment.state experiment) →
  canonical (ExperimentDocument.experiment (ExperimentDocument.of_ experiment (Experiment.snapshot experiment) view metadata)).
Proof.
  intros [_ Hlabels]. split; cbn [ExperimentDocument.of_ ExperimentDocument.experiment StoredExperiment.variables StoredExperiment.objects Experiment.snapshot].
  - rewrite <- list_fmap_compose. erewrite list_fmap_ext; [exact (keys_ascending VariableId.get _ (λ _ _, eq_refl))|]. by intros ? [] ?.
  - rewrite <- list_fmap_compose. erewrite list_fmap_ext; [exact (keys_ascending ObjectId.get _ (λ _ _, eq_refl))|]. by intros ? [] ?.
  - intros o ([id x] & -> & Hin)%list_elem_of_fmap. apply elem_of_btree_entries in Hin. cbn [ExperimentDocument.stored_object StoredObject.components StoredObject.name]. split.
    + rewrite <- list_fmap_compose. erewrite list_fmap_ext; [exact (keys_ascending (λ k, k) _ (λ _ _, eq_refl))|]. by intros ? [] ?.
    + destruct (Hlabels _ _ Hin) as (value & Hu & Hn). rewrite (label_again _ _ Hu Hn). by destruct (Object_.name x).
Qed.
End resaved.

(** ** The sample document, opened where nothing is installed *)
Module ResavedSample.
Import Sample Grown.
#[local] Existing Instance plain.
#[local] Existing Instance plain_validation.
#[local] Existing Instance latin1.
#[local] Existing Instance first_argument.
#[local] Existing Instance plain_view.

Lemma second_spelled : spelled (Experiment.state second).
Proof. apply spelled_check. vm_compute. reflexivity. Qed.
Lemma opened_bare :
  ∃ experiment, ExperimentDocument.into_experiment (saved second) SchemaRegistry.new Limits.DEFAULT = Some (Ok experiment).
Proof.
  assert (match ExperimentDocument.into_experiment (saved second) SchemaRegistry.new Limits.DEFAULT with Some (Ok _) => true | _ => false end = true)
    as Hok by (vm_compute; reflexivity).
  destruct (ExperimentDocument.into_experiment _ _ _) as [[experiment|]|]; [by exists experiment|done..].
Qed.
Lemma reopening_saves_the_same_witness :
  ∃ experiment, ExperimentDocument.into_experiment (saved second) SchemaRegistry.new Limits.DEFAULT = Some (Ok experiment)
    ∧ ExperimentDocument.experiment (saved experiment) = ExperimentDocument.experiment (saved second).
Proof.
  destruct opened_bare as [experiment Hopened]. exists experiment. split; [exact Hopened|].
  apply (reopening_saves_the_same (saved second) SchemaRegistry.new Limits.DEFAULT experiment view stamp Hopened).
  apply saved_canonical. exact second_spelled.
Defined.
End ResavedSample.
