(* ===== verification/Store.v ===== *)
(** * Writing a document durably (kagami-session: store.rs, persist.rs)

    A save and a load as programs over the operations of a [FileStore], each of
    which may fail; where a document is saved, and what an acknowledged write
    means to a session. *)

From Stdlib Require Import Ascii.
From stdpp Require Import base gmap strings list pretty.
From S2P Require Import Prelude Identity PluginIds Experiment Validate Saved.

(** 512 MiB; [MAX_JSON_DOCUMENT_BYTES] is in [Saved]. *)
Definition MAX_DOCUMENT_BYTES : N := 512 * 1024 * 1024.
Definition MAX_TEMP_CANDIDATES : nat := 8.

(** ** Where a document is saved (persist.rs)

    A path is its text. *)
Definition MAX_TARGET_BYTES : N := 4096.
Module TargetError.
Inductive t : Type := Empty | TooLong (found limit : N).
#[global] Instance TargetError_eq_dec : EqDecision t.
Proof. solve_decision. Defined.
End TargetError.
Module DocumentTarget.
Record t : Type := mk { path : string }.
#[global] Instance DocumentTarget_eq_dec : EqDecision t.
Proof. solve_decision. Defined.
Definition new (path : string) : result TargetError.t t :=
  if (str_len path =? 0)%N then Err TargetError.Empty
  else if (MAX_TARGET_BYTES <? str_len path)%N then Err (TargetError.TooLong (str_len path) MAX_TARGET_BYTES)
  else Ok (mk path).
End DocumentTarget.

Module SaveAcknowledgement.
Inductive t (R : Type) : Type := Clean | Superseded (current : R) | Stale (acknowledged : R).
Arguments Clean {R}.
Arguments Superseded {R} _.
Arguments Stale {R} _.
Definition is_clean {R} (a : t R) : bool := match a with Clean => true | _ => false end.
End SaveAcknowledgement.

(** ** The operations of a store *)
Module IoError.
Inductive t : Type := AlreadyExists | NotFound | InvalidData | Other.
#[global] Instance IoError_eq_dec : EqDecision t.
Proof. solve_decision. Defined.
End IoError.

Module FileStore.
Inductive op : Type → Type :=
  | WriteNew (path : string) (bs : bytes) : op (result IoError.t unit)
  | SyncFile (path : string) : op (result IoError.t unit)
  | SyncDir (path : string) : op (result IoError.t unit)
  | Rename (from to : string) : op (result IoError.t unit)
  | Remove (path : string) : op (result IoError.t unit)
  | Read (path : string) : op (result IoError.t bytes)
  | Exists (path : string) : op bool.
End FileStore.
Import FileStore.

(** A program that calls a store. *)
Inductive io (A : Type) : Type :=
  | Ret (a : A)
  | Call {B : Type} (o : op B) (k : B → io A).
Arguments Ret {A} a.
Arguments Call {A B} o k.
Fixpoint io_bind_ {A B} (m : io A) (f : A → io B) : io B :=
  match m with Ret a => f a | Call o k => Call o (λ b, io_bind_ (k b) f) end.
#[global] Instance io_ret : MRet io := @Ret.
#[global] Instance io_bind : MBind io := λ A B f m, io_bind_ m f.
Definition call {B} (o : op B) : io B := Call o Ret.
(** [?] in a function that calls a store. *)
Definition try_ {E A B} (m : io (result E A)) (f : A → io (result E B)) : io (result E B) :=
  r ← m; match r with Ok a => f a | Err e => mret (Err e) end.

(** ** Refusals *)
Module SaveError.
Inductive t : Type :=
  | Io (step : string) (source : IoError.t)
  | NotReadable (source : DocumentError.t)
  | NoTemporary (tried : nat).
#[global] Instance SaveError_eq_dec : EqDecision t.
Proof. solve_decision. Defined.
End SaveError.
Module LoadedFrom.
Inductive t : Type := Primary | Backup | Temporary.
#[global] Instance LoadedFrom_eq_dec : EqDecision t.
Proof. solve_decision. Defined.
Definition is_recovery (f : t) : bool := match f with Primary => false | _ => true end.
Definition to_string (f : t) : string :=
  match f with Primary => "the document" | Backup => "the backup" | Temporary => "an interrupted save" end.
End LoadedFrom.
Module LoadError.
Inductive t : Type := Unreadable (target : DocumentTarget.t) | Refused (target : DocumentTarget.t) (source : DocumentError.t).
Definition code (e : t) : string :=
  match e with Unreadable _ => "unreadable_document" | Refused _ source => DocumentError.code source end.
End LoadError.

Definition backup_of (target : string) : string := target +:+ ".bak".
Definition temporary_of (target : string) (index : nat) : string := target +:+ ".tmp" +:+ pretty index.

(** [Path::parent]: whether there is a directory entry to flush. *)
Class Paths : Type := parent : string → option string.

Module Loaded.
Section loaded.
Context `{Scientific} `{DefaultView}.
Record t : Type := mk { document : ExperimentDocument.t; from : LoadedFrom.t }.
End loaded.
End Loaded.

Section store.
Context `{Json} `{!ContainerCodec} `{Paths}.

(** ** Saving *)
Definition at_step {A} (step : string) (m : io (result IoError.t A)) : io (result SaveError.t A) :=
  r ← m; mret (result_map_err (SaveError.Io step) r).

(** The bytes of a document, in the container form when it needs one. *)
Definition encode_document (document : ExperimentDocument.t) : result SaveError.t bytes :=
  if bool_decide (is_Some (Setup.scientific (StoredExperiment.setup (ExperimentDocument.experiment document))))
     || bool_decide (is_Some (ExperimentDocument.dependencies document))
  then result_map_err SaveError.NotReadable (container_encode document)
  else result_map_err (λ _, SaveError.Io "encode the document" IoError.Other) (to_vec_pretty document).

Definition try_decode (path : string) : io (option (result DocumentError.t ExperimentDocument.t)) :=
  r ← call (Read path);
  mret (match r with
    | Ok bs => Some (decode_document bs)
    | Err IoError.InvalidData => Some (Err (DocumentError.Invalid (Rejection.Scientific ScientificError.Limit)))
    | Err _ => None
    end).

Definition worth_preserving (path : string) : io bool :=
  r ← try_decode path;
  mret (match r with
    | Some (Ok _) => true
    | Some (Err error) => negb (DocumentError.is_damage error)
    | None => false
    end).

Definition finish_save (path temporary : string) : io (result SaveError.t unit) :=
  try_ (at_step "flush the temporary file" (call (SyncFile temporary))) (λ _,
  there ← call (Exists path);
  worth ← (if there : bool then worth_preserving path else mret false);
  try_ (if worth : bool then at_step "move the previous document to the backup" (call (Rename path (backup_of path)))
        else mret (Ok ())) (λ _,
  try_ (at_step "replace the document" (call (Rename temporary path))) (λ _,
  match parent path with
  | Some directory => at_step "flush the directory" (call (SyncDir directory))
  | None => mret (Ok ())
  end))).

(** The first candidate that is not taken. *)
Fixpoint create_temporary (path : string) (bs : bytes) (candidates : list nat)
    : io (option (result SaveError.t string)) :=
  match candidates with
  | [] => mret None
  | index :: candidates =>
    let candidate := temporary_of path index in
    r ← call (WriteNew candidate bs);
    match r with
    | Ok _ => mret (Some (Ok candidate))
    | Err IoError.AlreadyExists => create_temporary path bs candidates
    | Err source => mret (Some (Err (SaveError.Io "create a temporary file" source)))
    end
  end.

Definition save (target : DocumentTarget.t) (document : ExperimentDocument.t) : io (result SaveError.t unit) :=
  match encode_document document with
  | Err e => mret (Err e)
  | Ok bs =>
    match decode_document bs with
    | Err source => mret (Err (SaveError.NotReadable source))
    | Ok _ =>
      let path := DocumentTarget.path target in
      created ← create_temporary path bs (seq 0 MAX_TEMP_CANDIDATES);
      match created with
      | None => mret (Err (SaveError.NoTemporary MAX_TEMP_CANDIDATES))
      | Some (Err e) => mret (Err e)
      | Some (Ok temporary) =>
        outcome ← finish_save path temporary;
        match outcome with
        | Err _ => _ ← call (Remove temporary); mret outcome
        | Ok _ => mret outcome
        end
      end
    end
  end.

(** ** Loading *)
Fixpoint load_temporary (path : string) (candidates : list nat) : io (option ExperimentDocument.t) :=
  match candidates with
  | [] => mret None
  | index :: candidates =>
    r ← try_decode (temporary_of path index);
    match r with Some (Ok document) => mret (Some document) | _ => load_temporary path candidates end
  end.
(** What is tried when the primary is damaged or absent. *)
Definition recover (target : DocumentTarget.t) (damage : option DocumentError.t) : io (result LoadError.t Loaded.t) :=
  let path := DocumentTarget.path target in
  backup ← try_decode (backup_of path);
  match backup with
  | Some (Ok document) => mret (Ok (Loaded.mk document LoadedFrom.Backup))
  | _ =>
    temporary ← load_temporary path (seq 0 MAX_TEMP_CANDIDATES);
    mret (match temporary with
      | Some document => Ok (Loaded.mk document LoadedFrom.Temporary)
      | None =>
        Err (match damage with
             | Some source => LoadError.Refused target source
             | None => LoadError.Unreadable target
             end)
      end)
  end.
Definition load (target : DocumentTarget.t) : io (result LoadError.t Loaded.t) :=
  primary ← try_decode (DocumentTarget.path target);
  match primary with
  | Some (Ok document) => mret (Ok (Loaded.mk document LoadedFrom.Primary))
  | Some (Err error) =>
    if DocumentError.is_damage error then recover target (Some error)
    else mret (Err (LoadError.Refused target error))
  | None => recover target None
  end.
End store.
