(* ===== verification/Storage.v ===== *)
(** * A save that is interrupted (kagami-session, store.rs)

    What a file system may answer, what an interruption may leave, and that at
    every point of a save what a load finds is the document that was there or the
    one being written. *)

From Stdlib Require Import Ascii.
From stdpp Require Import base gmap strings list pretty.
From S2P Require Import Prelude Identity PluginIds Experiment Validate Saved Store.
Import FileStore.

(** ** The file system

    The files with what was written to them, and whether it has been flushed.
    A rename is atomic and its effect is not lost. *)
Abbreviation disk := (gmap string (bytes * bool)).

(** What a read accepts. *)
Definition readable (bs : bytes) : Prop :=
  (lenN bs ≤ if bool_decide (take 2 bs = bytes_of "PK") then MAX_DOCUMENT_BYTES else MAX_JSON_DOCUMENT_BYTES)%N.
#[global] Instance readable_dec bs : Decision (readable bs).
Proof. unfold readable. apply _. Defined.

(** The replies the documentation of [FileStore] allows, with what they leave. *)
Definition performs {B} (o : op B) (d : disk) : B → disk → Prop :=
  match o in op B return B → disk → Prop with
  | WriteNew path bs => λ reply d',
    match reply with
    | Ok _ => d !! path = None ∧ d' = <[path := (bs, false)]> d
    | Err IoError.AlreadyExists => is_Some (d !! path) ∧ d' = d
    | Err _ => d' = d ∨ d !! path = None ∧ ∃ part, d' = <[path := (part, false)]> d
    end
  | SyncFile path => λ reply d',
    match reply with
    | Ok _ => ∃ bs flushed, d !! path = Some (bs, flushed) ∧ d' = <[path := (bs, true)]> d
    | Err _ => d' = d
    end
  | SyncDir _ => λ _ d', d' = d
  | Rename from to => λ reply d',
    match reply with
    | Ok _ => ∃ file, d !! from = Some file ∧ d' = <[to := file]> (delete from d)
    | Err _ => d' = d
    end
  | Remove path => λ reply d', match reply with Ok _ => d' = delete path d | Err _ => d' = d end
  | Read path => λ reply d', d' = d ∧
    match reply with
    | Ok bs => ∃ flushed, d !! path = Some (bs, flushed) ∧ readable bs
    | Err IoError.InvalidData => ∃ bs flushed, d !! path = Some (bs, flushed) ∧ ¬ readable bs
    | Err _ => True
    end
  | Exists path => λ reply d', d' = d ∧ (reply = true → is_Some (d !! path))
  end.

(** The points a run passes through. *)
Inductive steps {A} : io A → disk → io A → disk → Prop :=
  | here m d : steps m d m d
  | next {B} (o : op B) k d b d1 m' d' : performs o d b d1 → steps (k b) d1 m' d' → steps (Call o k) d m' d'.

(** An interruption keeps what was flushed; the rest may hold anything. *)
Definition crashed (d d' : disk) : Prop := ∀ path,
  match d !! path, d' !! path with
  | Some (bs, true), Some file => file = (bs, true)
  | Some (_, false), Some _ => True
  | None, None => True
  | _, _ => False
  end.

(** One reply, which is a refusal when a fault strikes, and a whole run. *)
Definition perform (fault : bool) {B} (o : op B) (d : disk) : B * disk :=
  match o in op B return B * disk with
  | WriteNew path bs =>
    if fault then (Err IoError.Other, d)
    else if bool_decide (is_Some (d !! path)) then (Err IoError.AlreadyExists, d)
    else (Ok (), <[path := (bs, false)]> d)
  | SyncFile path =>
    if fault then (Err IoError.Other, d)
    else match d !! path with
         | Some (bs, _) => (Ok (), <[path := (bs, true)]> d)
         | None => (Err IoError.NotFound, d)
         end
  | SyncDir _ => (if fault then Err IoError.Other else Ok (), d)
  | Rename from to =>
    if fault then (Err IoError.Other, d)
    else match d !! from with
         | Some file => (Ok (), <[to := file]> (delete from d))
         | None => (Err IoError.NotFound, d)
         end
  | Remove path => if fault then (Err IoError.Other, d) else (Ok (), delete path d)
  | Read path =>
    (if fault then Err IoError.Other
     else match d !! path with
          | Some (bs, _) => if decide (readable bs) then Ok bs else Err IoError.InvalidData
          | None => Err IoError.NotFound
          end, d)
  | Exists path => (if fault then false else bool_decide (is_Some (d !! path)), d)
  end.
Fixpoint exec {A} (faults : list bool) (m : io A) (d : disk) : A * disk :=
  match m with
  | Ret a => (a, d)
  | Call o k => let '(b, d') := perform (hd false faults) o d in exec (tl faults) (k b) d'
  end.

Lemma perform_performs fault {B} (o : op B) d : performs o d (perform fault o d).1 (perform fault o d).2.
Proof.
  destruct o; cbn; destruct fault; cbn; try done; try (by left).
  - case_bool_decide as Hp; cbn; [done|]. split; [by apply eq_None_not_Some|done].
  - destruct (d !! path) as [[bs flushed]|]; cbn; [by exists bs, flushed|done].
  - destruct (d !! from) as [file|]; cbn; [by exists file|done].
  - destruct (d !! path) as [[bs flushed]|] eqn:Hp; cbn; [|done]. split; [done|]. case_decide; [by exists flushed|by exists bs, flushed].
  - split; [done|]. by case_bool_decide.
Qed.
Lemma exec_steps {A} (m : io A) : ∀ faults d, steps m d (Ret (exec faults m d).1) (exec faults m d).2.
Proof.
  induction m as [a|B o k IH]; intros faults d; cbn [exec]; [constructor|].
  destruct (perform (hd false faults) o d) as [b d'] eqn:Hp. eapply next; [|apply IH].
  pose proof (perform_performs (hd false faults) o d) as Hr. by rewrite Hp in Hr.
Qed.

(** ** What holds at every point of a run *)
Section always.
Context (I : disk → Prop).

(** [I] wherever the run is interrupted, and [Q] if it answers. *)
Fixpoint always {A} (m : io A) (Q : A → disk → Prop) (d : disk) : Prop :=
  I d ∧ match m with
        | Ret a => Q a d
        | Call o k => ∀ b d', performs o d b d' → always (k b) Q d'
        end.

Lemma always_now {A} (m : io A) Q d : always m Q d → I d.
Proof. destruct m; by intros []. Qed.
Lemma always_steps {A} (m m' : io A) Q d d' : steps m d m' d' → always m Q d → always m' Q d'.
Proof. induction 1 as [|B o k d b d1 m' d' Hp _ IH]; [done|]. intros [_ Hall]. by apply IH, Hall. Qed.
Lemma always_ret {A} (a : A) (Q : A → disk → Prop) d : I d → Q a d → always (mret a) Q d.
Proof. by split. Qed.
Lemma always_bind {A B} (m : io A) (f : A → io B) Q d : always m (λ a, always (f a) Q) d → always (m ≫= f) Q d.
Proof.
  revert d. change (m ≫= f) with (io_bind_ m f). induction m as [a|C o k IH]; intros d; cbn; [by intros [_ ?]|].
  intros [Hi Hall]. split; [done|]. intros b d' Hp. by apply IH, Hall.
Qed.
Lemma always_mono {A} (m : io A) (Q Q' : A → disk → Prop) d : (∀ a d', I d' → Q a d' → Q' a d') → always m Q d → always m Q' d.
Proof.
  intros Hq. revert d. induction m as [a|C o k IH]; intros d; cbn; [intros [? ?]; split; [done|by apply Hq]|].
  intros [Hi Hall]. split; [done|]. intros b d' Hp. by apply IH, Hall.
Qed.
Lemma always_call {B} (o : op B) (Q : B → disk → Prop) d :
  I d → (∀ b d', performs o d b d' → I d' ∧ Q b d') → always (call o) Q d.
Proof. intros Hi Hall. split; [done|]. intros b d' Hp. by apply Hall. Qed.
Lemma always_try {E A B} (m : io (result E A)) (f : A → io (result E B)) Q d :
  always m (λ r d', match r with Ok a => always (f a) Q d' | Err e => Q (Err e) d' end) d → always (try_ m f) Q d.
Proof.
  intros Hm. apply always_bind. eapply always_mono; [|exact Hm]. intros [a|e] d' Hi Hq; [done|]. by apply always_ret.
Qed.
Lemma always_at_step {A} step (m : io (result IoError.t A)) Q d :
  always m (λ r, Q (result_map_err (SaveError.Io step) r)) d → always (at_step step m) Q d.
Proof.
  intros Hm. apply always_bind. eapply always_mono; [|exact Hm]. intros r d' Hi Hq. by apply always_ret.
Qed.
End always.

(** ** Names beside a document *)
Lemma append_nothing s : s +:+ "" = s.
Proof. induction s as [|c s IH]; [done|]. change (String.String c (s +:+ "") = String.String c s). by rewrite IH. Qed.
Lemma backup_apart path : backup_of path ≠ path.
Proof.
  unfold backup_of. intros Heq. assert (path +:+ ".bak" = path +:+ "") as Happ by (by rewrite append_nothing).
  by apply (inj (String.append path)) in Happ.
Qed.
Lemma temporary_apart path index : temporary_of path index ≠ path ∧ temporary_of path index ≠ backup_of path.
Proof.
  unfold temporary_of, backup_of. split; intros Heq.
  - assert (path +:+ ".tmp" +:+ pretty index = path +:+ "") as Happ by (by rewrite append_nothing).
    by apply (inj (String.append path)) in Happ.
  - by apply (inj (String.append path)) in Heq.
Qed.

Section interrupted.
Context `{Json} `{!ContainerCodec} `{Paths}.
(** The archive reader refuses more than its limit of bytes. *)
Context (Hbounded : ∀ bs document, container_decode bs = Ok document → (lenN bs ≤ MAX_DOCUMENT_BYTES)%N).

Lemma decoded_readable bs document : decode_document bs = Ok document → readable bs.
Proof.
  unfold decode_document, readable. destruct (bool_decide _); [apply Hbounded|].
  by destruct (N.ltb_spec MAX_JSON_DOCUMENT_BYTES (lenN bs)).
Qed.

(** The primary is missing or known to be damaged. *)
Definition lost (path : string) (d : disk) : Prop :=
  d !! path = None
  ∨ ∃ junk e, d !! path = Some (junk, true) ∧ readable junk ∧ decode_document junk = Err e ∧ DocumentError.is_damage e = true.
(** A document is there to be found, as the primary or as its backup. *)
Definition holds (path : string) (d : disk) (document : ExperimentDocument.t) : Prop :=
  ∃ bs, decode_document bs = Ok document
    ∧ (d !! path = Some (bs, true) ∨ lost path d ∧ d !! backup_of path = Some (bs, true)).

Lemma holds_same path d d' document :
  d' !! path = d !! path → d' !! backup_of path = d !! backup_of path → holds path d document → holds path d' document.
Proof. unfold holds, lost. intros -> ->. done. Qed.

Section saving.
Context (path : string) (old : ExperimentDocument.t) (bs : bytes).
Definition safe (d : disk) : Prop := holds path d old ∨ d !! path = Some (bs, true).

Lemma created candidates : ∀ d, holds path d old →
  always safe (create_temporary path bs candidates)
    (λ r d', holds path d' old ∧ ∀ t, r = Some (Ok t) →
       t ≠ path ∧ t ≠ backup_of path ∧ ∃ flushed, d' !! t = Some (bs, flushed)) d.
Proof.
  induction candidates as [|index candidates IH]; intros d Hd; cbn [create_temporary].
  { apply always_ret; [by left|]. split; [done|by intros t [=]]. }
  destruct (temporary_apart path index) as [Hp Hb].
  assert (∀ file, holds path (<[temporary_of path index := file]> d) old) as Hins
    by (intros file; eapply holds_same; [..|exact Hd]; by rewrite lookup_insert_ne).
  apply always_bind, always_call; [by left|]. intros [u|e] d'; cbn [performs].
  - intros [_ ->]. split; [left; apply Hins|]. apply always_ret; [left; apply Hins|]. split; [apply Hins|].
    intros t [= <-]. split_and!; [done|done|]. exists false. by rewrite lookup_insert_eq.
  - intros Hreply. assert (holds path d' old ∧ (e = IoError.AlreadyExists → d' = d)) as [Hd' Hsame].
    { destruct e; cbn in Hreply; [by destruct Hreply as [_ ->]|..];
        (split; [|done]); (destruct Hreply as [->|(_ & part & ->)]; [exact Hd|apply Hins]). }
    split; [by left|]. destruct e; [by apply IH|..]; (apply always_ret; [by left|]); (split; [done|by intros t [=]]).
Qed.

(** What a primary that is worth preserving holds. *)
Lemma preserved d : holds path d old →
  always safe (worth_preserving path) (λ worth d', d' = d ∧
    (worth = true → ∃ kept, decode_document kept = Ok old ∧ d !! path = Some (kept, true)
      ∨ d !! path = None)) d.
Proof.
  intros Hd. unfold worth_preserving. apply always_bind. unfold try_decode. apply always_bind, always_call; [by left|].
  intros reply d' [-> Hreply]. split; [by left|]. apply always_ret; [by left|]. apply always_ret; [by left|]. split; [done|].
  destruct Hd as (kept & Hk & [Hpath|[Hlost _]]); [intros _; exists kept; by left|].
  destruct Hlost as [Hnone|(junk & e & Hjunk & Hread & Hdec & Hdam)]; [intros _; exists []; by right|].
  destruct reply as [found|[]]; [|done|done| |done].
  2: { destruct Hreply as (found & flushed & Hf & Hn). rewrite Hjunk in Hf. by injection Hf as <- <-. }
  destruct Hreply as (flushed & Hf & _). rewrite Hjunk in Hf. injection Hf as <- <-. by rewrite Hdec, Hdam.
Qed.

Lemma finished t flushed d :
  holds path d old → t ≠ path → t ≠ backup_of path → d !! t = Some (bs, flushed) →
  always safe (finish_save path t) (λ r d', safe d' ∧ (r = Ok () → d' !! path = Some (bs, true))) d.
Proof.
  intros Hd Hp Hb Ht. unfold finish_save. apply always_try, always_at_step, always_call; [by left|].
  intros [u|e] d1; cbn [performs]; [|intros ->; split; [by left|]; split; [by left|done]].
  intros (bs0 & flushed0 & Ht0 & ->). rewrite Ht in Ht0. injection Ht0 as <- <-.
  set (d1 := <[t := (bs, true)]> d). assert (holds path d1 old) as Hd1
    by (eapply holds_same; [..|exact Hd]; by apply lookup_insert_ne).
  assert (d1 !! t = Some (bs, true)) as Ht1 by apply lookup_insert_eq. clearbody d1. clear d Hd Ht. rename d1 into d, Hd1 into Hd, Ht1 into Ht.
  split; [by left|]. apply always_bind, always_call; [by left|]. intros there d' [-> _]. split; [by left|].
  apply always_bind.
  apply (always_mono safe _ (λ worth d', d' = d ∧ (worth = true → ∃ kept, decode_document kept = Ok old ∧ d !! path = Some (kept, true)
      ∨ d !! path = None))).
  2: { destruct there; [by apply preserved|]. by apply always_ret; [left|]. }
  intros worth d' _ [-> Hworth]. apply always_try.
  apply (always_mono safe _ (λ (r : result SaveError.t unit) d', safe d' ∧ (r = Ok () → holds path d' old ∧ d' !! t = Some (bs, true)))).
  2: { destruct worth; [|apply always_ret; [by left|]; split; [by left|done]].
    apply always_at_step, always_call; [by left|]. intros [[]|e] d'; cbn [performs]; [|intros ->; split; [by left|]; split; [by left|done]].
    intros (file & Hfile & ->). destruct (Hworth eq_refl) as (kept & [[Hk Hpath]|Hnone]); [|congruence].
    rewrite Hpath in Hfile. injection Hfile as <-. pose proof (backup_apart path) as Hpb.
    assert (holds path (<[backup_of path := (kept, true)]> (delete path d)) old) as Hmoved.
    { exists kept. split; [done|]. right. split; [left|by rewrite lookup_insert_eq].
      rewrite lookup_insert_ne by done. apply lookup_delete_eq. }
    split; [by left|]. split; [by left|]. intros _. split; [done|].
    rewrite lookup_insert_ne by done. by rewrite lookup_delete_ne. }
  intros [[]|e] d1 _ [Hs Hd1]; [|by split]. destruct (Hd1 eq_refl) as [Hold Ht1]. clear Hd1.
  apply always_try, always_at_step, always_call; [done|]. intros [[]|e] d2; cbn [performs]; [|intros ->; split; [done|]; by split].
  intros (file & Hfile & ->). rewrite Ht1 in Hfile. injection Hfile as <-.
  assert (<[path := (bs, true)]> (delete t d1) !! path = Some (bs, true)) as Hnew by apply lookup_insert_eq.
  split; [by right|]. destruct (parent path) as [directory|].
  - apply always_at_step, always_call; [by right|]. intros r d3; cbn [performs]. intros ->. split; [by right|]. split; [by right|done].
  - apply always_ret; [by right|]. split; [by right|done].
Qed.

Lemma saved_always target document :
  DocumentTarget.path target = path → encode_document document = Ok bs →
  ∀ d, holds path d old →
  always safe (save target document) (λ r d', r = Ok () → d' !! path = Some (bs, true)) d.
Proof.
  intros Hpath Henc d Hd. unfold save. rewrite Henc, Hpath. destruct (decode_document bs) as [again|source]; [|by apply always_ret; [left|]].
  apply always_bind. eapply always_mono; [|by apply created]. intros [[t|e]|] d1 _ [Hd1 Ht].
  - destruct (Ht t eq_refl) as (Hp & Hb & flushed & Hfile). apply always_bind. eapply always_mono; [|by eapply finished].
    intros [[]|e] d2 _ [Hs Hok]; [by apply always_ret; [|]|]. apply always_bind, always_call; [done|].
    intros [[]|e'] d3; cbn [performs]; [|intros ->; split; [done|]; by apply always_ret].
    intros ->. assert (safe (delete t d2)) as Hs'.
    { destruct Hs as [Hs|Hs]; [left; eapply holds_same; [..|exact Hs]; by apply lookup_delete_ne|].
      right. by rewrite lookup_delete_ne. }
    split; [done|]. by apply always_ret.
  - by apply always_ret; [left|].
  - by apply always_ret; [left|].
Qed.
End saving.

(** ** What a load finds afterwards *)
Lemma crashed_flushed d d' path bs : crashed d d' → d !! path = Some (bs, true) → d' !! path = Some (bs, true).
Proof. intros Hc Hd. specialize (Hc path). rewrite Hd in Hc. destruct (d' !! path); [by subst|done]. Qed.
Lemma crashed_absent d d' path : crashed d d' → d !! path = None → d' !! path = None.
Proof. intros Hc Hd. specialize (Hc path). rewrite Hd in Hc. by destruct (d' !! path). Qed.

Lemma exec_decode path bs d : d !! path = Some (bs, true) → readable bs →
  exec [] (try_decode path) d = (Some (decode_document bs), d).
Proof. intros Hd Hr. cbn. rewrite Hd. by rewrite decide_True. Qed.
Lemma exec_bind {A B} (m : io A) (f : A → io B) d : exec [] (m ≫= f) d = exec [] (f (exec [] m d).1) (exec [] m d).2.
Proof.
  revert d. change (m ≫= f) with (io_bind_ m f). induction m as [a|C o k IH]; intros d; [done|]. cbn.
  destruct (perform false o d) as [b d']. apply IH.
Qed.

Lemma load_holds target d document : holds (DocumentTarget.path target) d document →
  ∃ from, exec [] (load target) d = (Ok (Loaded.mk document from), d).
Proof.
  intros (bs & Hdec & Hor). pose proof (decoded_readable _ _ Hdec) as Hread. unfold load. rewrite exec_bind.
  destruct Hor as [Hpath|[Hlost Hback]].
  { rewrite (exec_decode _ _ _ Hpath Hread). cbn [fst snd]. rewrite Hdec. by exists LoadedFrom.Primary. }
  exists LoadedFrom.Backup. assert (∀ damage, exec [] (recover target damage) d = (Ok (Loaded.mk document LoadedFrom.Backup), d)) as Hrec.
  { intros damage. unfold recover. rewrite exec_bind, (exec_decode _ _ _ Hback Hread). cbn [fst snd]. by rewrite Hdec. }
  destruct Hlost as [Hnone|(junk & e & Hjunk & Hj & He & Hdam)].
  - assert (exec [] (try_decode (DocumentTarget.path target)) d = (None, d)) as -> by (cbn; by rewrite Hnone). apply Hrec.
  - rewrite (exec_decode _ _ _ Hjunk Hj). cbn [fst snd]. rewrite He, Hdam. apply Hrec.
Qed.
Lemma crashed_holds path d d' document : crashed d d' → holds path d document → holds path d' document.
Proof.
  intros Hc (bs & Hdec & Hor). exists bs. split; [done|].
  destruct Hor as [Hpath|[Hlost Hback]]; [left; by eapply crashed_flushed|]. right. split; [|by eapply crashed_flushed].
  destruct Hlost as [Hnone|(junk & e & Hjunk & ?)]; [left; by eapply crashed_absent|].
  right. exists junk, e. split; [by eapply crashed_flushed|done].
Qed.

(** C11: An interrupted save loses no document. Where a load would find a document,
    as the primary or, the primary missing or damaged, as its backup, a save may
    be refused by the file system at any of its steps and interrupted at any
    point, with whatever was not flushed replaced by anything: a load then finds
    either that document or the one being saved. After a save that answered it
    finds the one saved, as the primary. *)
Theorem interrupted_save_loses_nothing target document bs old new d m d1 d2
    (Hheld : holds (DocumentTarget.path target) d old)
    (Hencoded : encode_document document = Ok bs) (Hdecodes : decode_document bs = Ok new)
    (Hrun : steps (save target document) d m d1) (Hcrash : crashed d1 d2) :
  ∃ found from, exec [] (load target) d2 = (Ok (Loaded.mk found from), d2)
    ∧ (found = old ∨ found = new) ∧ (m = Ret (Ok ()) → found = new ∧ from = LoadedFrom.Primary).
Proof.
  pose proof (always_steps _ _ _ _ _ _ Hrun (saved_always _ old bs target document eq_refl Hencoded d Hheld)) as Hnow.
  assert (∀ d, d !! DocumentTarget.path target = Some (bs, true) →
    exec [] (load target) d = (Ok (Loaded.mk new LoadedFrom.Primary), d)) as Hprimary.
  { intros d' Hd'. unfold load. rewrite exec_bind, (exec_decode _ _ _ Hd') by (by eapply decoded_readable). cbn [fst snd]. by rewrite Hdecodes. }
  destruct (always_now _ _ _ _ Hnow) as [Hold|Hnew].
  - assert (m = Ret (Ok ()) → d1 !! DocumentTarget.path target = Some (bs, true)) as Hdone
      by (intros ->; by apply Hnow).
    destruct (load_holds target d2 old) as [from Hload]; [by eapply crashed_holds|]. exists old, from. split; [done|].
    split; [by left|]. intros Hm. specialize (Hprimary d2 (crashed_flushed _ _ _ _ Hcrash (Hdone Hm))).
    rewrite Hload in Hprimary. by injection Hprimary as -> ->.
  - exists new, LoadedFrom.Primary. split; [apply Hprimary; by eapply crashed_flushed|]. split; [by right|done].
Qed.

(** ** A save nothing disturbs *)

(** Whether what is at the path is kept as the backup. *)
Definition kept (d : disk) (path : string) : bool :=
  match d !! path with
  | Some (bs, _) =>
    if decide (readable bs)
    then match decode_document bs with Ok _ => true | Err e => negb (DocumentError.is_damage e) end
    else true
  | None => false
  end.

Lemma exec_worth path d : exec [] (worth_preserving path) d = (kept d path, d).
Proof.
  unfold worth_preserving, kept. cbn. destruct (d !! path) as [[bs flushed]|]; [|done]. by destruct (decide (readable bs)).
Qed.
Lemma exec_created path bs d candidates :
  List.Exists (λ index, d !! temporary_of path index = None) candidates →
  ∃ index, exec [] (create_temporary path bs candidates) d
      = (Some (Ok (temporary_of path index)), <[temporary_of path index := (bs, false)]> d)
    ∧ d !! temporary_of path index = None.
Proof.
  induction 1 as [index candidates Hfree|index candidates _ IH]; cbn.
  - rewrite bool_decide_false by (rewrite Hfree; by intros [? ?]). by exists index.
  - case_bool_decide as Hp; [exact IH|]. exists index. split; [done|]. by apply eq_None_not_Some.
Qed.
Lemma exec_try {E A B} (m : io (result E A)) (f : A → io (result E B)) d a d' :
  exec [] m d = (Ok a, d') → exec [] (try_ m f) d = exec [] (f a) d'.
Proof. intros Hm. unfold try_. by rewrite exec_bind, Hm. Qed.

Lemma exec_finished path t bs flushed d :
  t ≠ path → t ≠ backup_of path → d !! t = Some (bs, flushed) →
  exec [] (finish_save path t) d
  = (Ok (), <[path := (bs, true)]> (delete t (if kept d path
      then match d !! path with Some file => <[backup_of path := file]> d | None => d end else d))).
Proof.
  intros Hp Hb Ht. unfold finish_save. pose proof (backup_apart path) as Hpb.
  rewrite (exec_try _ _ d () (<[t := (bs, true)]> d)) by (cbn; by rewrite Ht).
  set (d1 := <[t := (bs, true)]> d). assert (d1 !! path = d !! path) as Hpath by (by apply lookup_insert_ne).
  assert (kept d1 path = kept d path) as Hkept by (unfold kept; by rewrite Hpath).
  rewrite exec_bind. change (exec [] (call (Exists path)) d1) with (bool_decide (is_Some (d1 !! path)), d1). cbn [fst snd].
  rewrite exec_bind. assert (exec [] (if bool_decide (is_Some (d1 !! path)) then worth_preserving path else mret false) d1
    = (kept d path, d1)) as ->.
  { case_bool_decide as Hsome; [by rewrite exec_worth, Hkept|]. apply eq_None_not_Some in Hsome. cbn. rewrite <- Hkept.
    unfold kept. by rewrite Hsome. }
  cbn [fst snd]. set (d2 := if kept d path then match d !! path with Some file => <[backup_of path := file]> (delete path d1) | None => d1 end else d1).
  rewrite (exec_try _ _ d1 () d2).
  2: { unfold d2. destruct (kept d path) eqn:Hk; [|done]. cbn. rewrite Hpath. destruct (d !! path) eqn:Hd; [done|].
    unfold kept in Hk. by rewrite Hd in Hk. }
  assert (d2 !! t = Some (bs, true)) as Ht2.
  { unfold d2. destruct (kept d path); [destruct (d !! path)|]; rewrite ?lookup_insert_ne, ?lookup_delete_ne by done; apply lookup_insert_eq. }
  rewrite (exec_try _ _ d2 () (<[path := (bs, true)]> (delete t d2))) by (cbn; by rewrite Ht2).
  assert (<[path := (bs, true)]> (delete t d2) = <[path := (bs, true)]> (delete t (if kept d path
      then match d !! path with Some file => <[backup_of path := file]> d | None => d end else d))) as ->.
  { apply map_eq. intros q. destruct (decide (q = path)) as [->|Hq]; [by rewrite !lookup_insert_eq|].
    rewrite !lookup_insert_ne by done. destruct (decide (q = t)) as [->|Hqt]; [by rewrite !lookup_delete_eq|].
    rewrite !lookup_delete_ne by done. unfold d2, d1. destruct (kept d path); [destruct (d !! path) as [file|]|];
      [destruct (decide (q = backup_of path)) as [->|?]; [by rewrite !lookup_insert_eq|]|..];
      by rewrite ?lookup_insert_ne, ?lookup_delete_ne, ?lookup_insert_ne by done. }
  by destruct (parent path).
Qed.

(** What a save does when nothing fails. With a temporary name free, it
    answers, the primary is the encoded document flushed to the device, the
    previous primary is the backup unless it was damaged, and no other file is
    different. *)
Theorem quiet_save target document bs new d
    (Hencoded : encode_document document = Ok bs) (Hdecodes : decode_document bs = Ok new)
    (Hfree : List.Exists (λ index, d !! temporary_of (DocumentTarget.path target) index = None) (seq 0 MAX_TEMP_CANDIDATES)) :
  let path := DocumentTarget.path target in
  exec [] (save target document) d
  = (Ok (), <[path := (bs, true)]> (if kept d path
      then match d !! path with Some file => <[backup_of path := file]> d | None => d end else d)).
Proof.
  unfold save. rewrite Hencoded, Hdecodes, exec_bind. cbn zeta. set (path := DocumentTarget.path target) in *.
  destruct (exec_created path bs d _ Hfree) as (index & -> & Hindex). cbn [fst snd]. destruct (temporary_apart path index) as [Hp Hb].
  set (t := temporary_of path index) in *. set (d1 := <[t := (bs, false)]> d).
  assert (d1 !! path = d !! path) as Hpath by (by apply lookup_insert_ne).
  rewrite exec_bind, (exec_finished path t bs false d1 Hp Hb) by apply lookup_insert_eq. cbn [fst snd exec mret io_ret]. f_equal.
  assert (kept d1 path = kept d path) as -> by (unfold kept; by rewrite Hpath). rewrite Hpath.
  apply map_eq. intros q. destruct (decide (q = path)) as [->|Hq]; [by rewrite !lookup_insert_eq|].
  rewrite !(lookup_insert_ne _ path) by done. destruct (decide (q = t)) as [->|Hqt].
  - rewrite lookup_delete_eq. destruct (kept d path); [destruct (d !! path)|]; rewrite ?lookup_insert_ne by done; by symmetry.
  - rewrite lookup_delete_ne by done. unfold d1. destruct (kept d path); [destruct (d !! path) as [file|]|];
      [destruct (decide (q = backup_of path)) as [->|?]; [by rewrite !lookup_insert_eq|]|..];
      by rewrite ?lookup_insert_ne by done.
Qed.

(** ** What is left beside a document *)
Lemma blocked path bs candidates : ∀ d,
  Forall (λ index, is_Some (d !! temporary_of path index)) candidates →
  always (λ d', d' = d) (create_temporary path bs candidates) (λ r _, ∀ t, r ≠ Some (Ok t)) d.
Proof.
  induction candidates as [|index candidates IH]; intros d Hall; cbn [create_temporary]; [by apply always_ret|].
  inversion Hall as [|? ? [file Hfile] Hall']; subst. apply always_bind, always_call; [done|]. intros [u|e] d'; cbn [performs].
  - intros [Hnone _]. congruence.
  - intros Hreply. assert (d' = d) as -> by (destruct e; [by destruct Hreply|..]; by destruct Hreply as [?|[? _]]; [|congruence]).
    split; [done|]. destruct e; [by apply IH|..]; by apply always_ret.
Qed.

(** Interrupted saves can make a document impossible to save. A save removes
    the temporary file of no other save, and neither does a load: when every
    candidate name is taken, by files interrupted or failed writes left behind,
    every later save of that document is refused and changes nothing. *)
Theorem leftovers_block_saving target document d r d'
    (Htaken : Forall (λ index, is_Some (d !! temporary_of (DocumentTarget.path target) index)) (seq 0 MAX_TEMP_CANDIDATES))
    (Hrun : steps (save target document) d (Ret r) d') :
  r ≠ Ok () ∧ d' = d.
Proof.
  assert (always (λ d', d' = d) (save target document) (λ r _, r ≠ Ok ()) d) as Hall.
  { unfold save. destruct (encode_document document) as [bs|e]; [|by apply always_ret].
    destruct (decode_document bs); [|by apply always_ret]. apply always_bind. eapply always_mono; [|by apply blocked].
    intros [[t|e]|] d1 -> Hr; [by destruct (Hr t)|by apply always_ret..]. }
  pose proof (always_steps _ _ _ _ _ _ Hrun Hall) as [-> Hr]. done.
Qed.
End interrupted.

(** * Saves that fail (kagami-session, store.rs)

    Concrete runs on a disk of small documents: an interrupted save, a refused
    replacement, and leftovers in every temporary name. *)
Import FileStore.

#[local] Existing Instance plain.

(** A document is its generator; the empty file is damaged. *)
Definition unseen : DefaultView := {| AuthoringView := unit; StoredDefaultView := unit; stored_view := λ v, v |}.
#[local] Existing Instance unseen.
Definition note (text : string) : ExperimentDocument.t :=
  ExperimentDocument.mk None FORMAT FORMAT_VERSION (DocumentMetadata.mk text "" "" 0)
    (StoredExperiment.mk (StoredCounters.mk 0 0) Setup.default [] []) None.
Definition notes : Json := {|
  header_from_slice := λ bs,
    if bool_decide (bs = []) then Err "unexpected end of input" else Ok (DocumentHeader.mk FORMAT FORMAT_VERSION);
  v1_from_slice := λ _, Err "not a version 1 document";
  document_from_slice := λ bs, Ok (note (String.string_of_list_ascii bs));
  to_vec_pretty := λ document,
    Ok (bytes_of (DocumentMetadata.generator (ExperimentDocument.metadata document)))
|}.
#[local] Existing Instance notes.
Definition no_archive : ContainerCodec := {|
  container_decode := λ _, Err (DocumentError.Container (Error.malformed "archive" "not an archive"));
  container_encode := λ _, Err (DocumentError.Container (Error.malformed "archive" "not an archive"))
|}.
#[local] Existing Instance no_archive.
Definition one_directory : Paths := λ _, Some ".".
#[local] Existing Instance one_directory.

Definition orbit : DocumentTarget.t := DocumentTarget.mk "orbit".
Definition yesterday : disk := {["orbit" := (bytes_of "old", true)]}.

Lemma yesterday_holds : holds "orbit" yesterday (note "old").
Proof. exists (bytes_of "old"). split; [reflexivity|]. left. reflexivity. Qed.

Lemma archives_bounded bs document : container_decode bs = Ok document → (lenN bs ≤ MAX_DOCUMENT_BYTES)%N.
Proof. by intros [=]. Qed.

(** The device refuses the second rename of a save. *)
Definition refused_replacement : result SaveError.t unit * disk :=
  exec [false; false; false; false; false; true] (save orbit (note "new")) yesterday.

Lemma interrupted_save_loses_nothing_witness :
  ∃ found from, exec [] (load orbit) refused_replacement.2 = (Ok (Loaded.mk found from), refused_replacement.2)
    ∧ (found = note "old" ∨ found = note "new")
    ∧ (Ret refused_replacement.1 = Ret (Ok ()) → found = note "new" ∧ from = LoadedFrom.Primary).
Proof.
  apply (interrupted_save_loses_nothing archives_bounded orbit (note "new") (bytes_of "new") (note "old") (note "new") yesterday
    (Ret refused_replacement.1) refused_replacement.2 refused_replacement.2).
  - exact yesterday_holds.
  - reflexivity.
  - reflexivity.
  - apply exec_steps.
  - intros path. assert (map_Forall (λ _ file, file.2 = true) refused_replacement.2) as Hflushed
      by (apply (bool_decide_unpack (map_Forall (λ _ file, file.2 = true) refused_replacement.2)); vm_compute; exact I).
    destruct (refused_replacement.2 !! path) as [[bs flushed]|] eqn:Hp; [|exact I].
    specialize (Hflushed path _ Hp). cbn in Hflushed. subst. reflexivity.
Defined.

Lemma quiet_save_witness :
  exec [] (save orbit (note "new")) yesterday
  = (Ok (), {["orbit" := (bytes_of "new", true); "orbit.bak" := (bytes_of "old", true)]}).
Proof.
  rewrite (quiet_save orbit (note "new") (bytes_of "new") (note "new") yesterday).
  - vm_compute. reflexivity.
  - reflexivity.
  - reflexivity.
  - left. reflexivity.
Defined.

(** A failed save may change the primary. When the device refuses the last
    rename the previous document is already the backup and nothing is at the
    primary's path; when it refuses the flush of the directory the save is
    refused with the new document in place. *)
Theorem failed_save_changes_the_primary :
  yesterday !! "orbit" = Some (bytes_of "old", true)
  ∧ refused_replacement = (Err (SaveError.Io "replace the document" IoError.Other), {["orbit.bak" := (bytes_of "old", true)]})
  ∧ exec [false; false; false; false; false; false; true] (save orbit (note "new")) yesterday
    = (Err (SaveError.Io "flush the directory" IoError.Other),
       {["orbit" := (bytes_of "new", true); "orbit.bak" := (bytes_of "old", true)]}).
Proof. split; [reflexivity|]. split; vm_compute; reflexivity. Qed.

(** Eight saves interrupted right after writing. *)
Definition littered : disk :=
  <["orbit" := (bytes_of "old", true)]> (list_to_map ((λ index, (temporary_of "orbit" index, ([], false))) <$> seq 0 MAX_TEMP_CANDIDATES)).
Lemma leftovers_block_saving_witness :
  (exec [] (save orbit (note "new")) littered).1 ≠ Ok () ∧ (exec [] (save orbit (note "new")) littered).2 = littered.
Proof.
  apply (leftovers_block_saving orbit (note "new") littered).
  - apply (bool_decide_unpack (Forall (λ index, is_Some (littered !! temporary_of "orbit" index)) (seq 0 MAX_TEMP_CANDIDATES))).
    vm_compute. exact I.
  - apply exec_steps.
Defined.
(** Each of them was left by one: a save writes before it is interrupted. *)
Example interrupted_writing : ∃ m, steps (save orbit (note "new")) yesterday m (<["orbit.tmp0" := (bytes_of "new", false)]> yesterday).
Proof. eexists. eapply next with (b := Ok ()); [|apply here]. split; [reflexivity|]. vm_compute. reflexivity. Qed.
