(* ===== verification/Governed.v ===== *)
(** * What the installed schemas govern (kagami-document: capability.rs,
    validate.rs, update.rs)

    The gaps of a component, what a report lists, and that an accepted edit opens
    none. *)

From stdpp Require Import base gmap strings list.
From S2P Require Import Prelude Identity VarLimits Action Binary64 Quantity Expression Grammar Namespace Evaluation System Resolution Variables Rewrite PluginIds Lock Schema Geometry Document Experiment Validate Edit Compile Follow Structure Hydrate Settled Reached Lasting.

(** ** Gaps of a component *)
Lemma first_some_none {A B} (f : A → option B) l : first_some f l = None ↔ Forall (λ x, f x = None) l.
Proof.
  induction l as [|x l IH]; cbn; [split; [constructor|done]|]. rewrite Forall_cons, <- IH.
  destruct (f x); split; [done|by intros [? _]|done|by intros [_ ?]].
Qed.

(** Governed: declared, every value one its declaration admits, and nothing
    required missing. *)
Definition governed (type_id : ComponentTypeId.t) (component : ObjectComponent.t) (schemas : SchemaRegistry.t) : Prop :=
  ∃ schema, SchemaRegistry.get schemas type_id = Some schema
    ∧ (∀ name v, ObjectComponent.properties component !! name = Some v → property_gap schema (name, v) = None)
    ∧ ∀ name declared, ComponentSchema.properties schema !! name = Some declared → PropertySchema.required declared = true →
        is_Some (ObjectComponent.properties component !! name).

Lemma gap_of_none type_id component schemas : gap_of type_id component schemas = None ↔ governed type_id component schemas.
Proof.
  unfold gap_of, governed. destruct (SchemaRegistry.get schemas type_id) as [schema|]; [|split; [done|by intros (? & ? & _)]].
  assert (first_some (property_gap schema) (btree_entries (ObjectComponent.properties component)) = None ↔
    ∀ name v, ObjectComponent.properties component !! name = Some v → property_gap schema (name, v) = None) as Hprops.
  { rewrite first_some_none, Forall_forall. split.
    - intros Hall name v Hv. by apply Hall, elem_of_btree_entries.
    - intros Hall [name v] Hin%elem_of_btree_entries. by apply Hall. }
  set (missing := first_some _ (ComponentSchema.required_properties schema)).
  assert (missing = None ↔ ∀ name declared, ComponentSchema.properties schema !! name = Some declared →
    PropertySchema.required declared = true → is_Some (ObjectComponent.properties component !! name)) as Hreq.
  { unfold missing. rewrite first_some_none, Forall_forall. unfold ComponentSchema.required_properties. split.
    - intros Hall name declared Hd Hr. assert (name ∈ (filter (λ e, PropertySchema.required e.2 = true) (btree_entries (ComponentSchema.properties schema))).*1) as Hin.
      { apply list_elem_of_fmap. exists (name, declared). split; [done|]. apply list_elem_of_filter. by rewrite elem_of_btree_entries. }
      specialize (Hall name Hin). cbn in Hall. destruct (contains_key name _) eqn:Hc; [by apply contains_key_spec|done].
    - intros Hall name ([name' declared] & -> & Hin)%list_elem_of_fmap. apply list_elem_of_filter in Hin as [Hr Hd%elem_of_btree_entries].
      cbn. by rewrite (proj2 (contains_key_spec _ _) (Hall _ _ Hd Hr)). }
  destruct (first_some (property_gap schema) _) as [gap|].
  - split; [done|]. intros (s & [= <-] & Hp & _). by apply Hprops in Hp.
  - rewrite Hreq. split; [intros Hr; exists schema; split_and!; [done|by apply Hprops|done]|by intros (s & [= <-] & _ & ?)].
Qed.

(** ** Values and their declarations *)
Lemma fits_no_gap limits schema name declared v :
  ComponentSchema.properties schema !! name = Some declared → fits_declaration limits declared v →
  property_gap schema (name, v) = None.
Proof.
  intros Hd [Hk (r & Hr & Ha)]. unfold property_gap. rewrite Hd, Hr, Ha.
  destruct v; cbn [PropertyValue.is_priced negb]; [..|done]; (destruct (PropertySchema.kind declared); try done).
  by rewrite bool_decide_true.
Qed.
Lemma follows_same_gap schema name changed before after :
  value_follows changed before after → property_gap schema (name, before) = None → property_gap schema (name, after) = None.
Proof.
  destruct before as [source unit si dimension| | |], after as [source' unit' si' dimension'| | |]; cbn [value_follows];
    intros Hf; simplify_eq; try done. by destruct Hf as (_ & -> & -> & ->).
Qed.

Section report.
Context `{ScientificValidation} `{Unicode} `{Libm}.
Implicit Types (s : ExperimentState.t) (experiment : Experiment.t).

(** A report lists the gap of every component that has one, and nothing else. *)
Lemma report_exact s schemas d :
  d ∈ CapabilityReport.diagnostics (CapabilityReport.of_ s schemas) ↔
  ∃ c, component_at s (CapabilityDiagnostic.path d) = Some c
    ∧ gap_of (ComponentPath.component (CapabilityDiagnostic.path d)) c schemas = Some (CapabilityDiagnostic.gap d).
Proof.
  unfold CapabilityReport.of_. cbn [CapabilityReport.diagnostics]. rewrite list_elem_of_omap. split.
  - intros ([path c] & Hin & Hg). apply attached_component_at in Hin. destruct (gap_of _ _ _) as [gap|] eqn:Hgap; [|done].
    injection Hg as <-. by exists c.
  - intros (c & Hc & Hg). exists (CapabilityDiagnostic.path d, c). split; [by apply attached_component_at|]. rewrite Hg. by destruct d.
Qed.

(** ** Components through an evaluation *)
Lemma component_writes writes : ∀ s path c',
  component_at (foldl write_property s writes) path = Some c' →
  ∃ c, component_at s path = Some c
    ∧ ∀ name, is_Some (ObjectComponent.properties c !! name) → is_Some (ObjectComponent.properties c' !! name).
Proof.
  induction writes as [|[p v] writes IH]; intros s path c' Hc'; cbn [foldl] in Hc'; [by exists c'|].
  destruct (IH _ _ _ Hc') as (c1 & Hc1 & Hkeys). rewrite component_write in Hc1.
  destruct (component_at s path) as [c|]; [|done]. exists c. split; [done|]. intros name Hn. apply Hkeys. cbn in Hc1. injection Hc1 as <-.
  case_decide; [|done]. cbn. apply lookup_insert_is_Some'. by right.
Qed.
Lemma component_evaluated s batch schemas limits s' work path c' :
  evaluate s batch schemas limits = Some (Ok (s', work)) → component_at s' path = Some c' →
  ∃ c, component_at s path = Some c
    ∧ ∀ name, is_Some (ObjectComponent.properties c !! name) → is_Some (ObjectComponent.properties c' !! name).
Proof.
  unfold evaluate. cbn zeta. intros ([variables n] & _ & Hev)%outcome_bind_ok. apply outcome_bind_ok in Hev as (authored & _ & Hev).
  apply outcome_bind_ok in Hev as (repriced & _ & [= <- _]). apply component_writes.
Qed.

Lemma validate_governed_ok s touched schemas :
  validate_governed s touched schemas = Ok () →
  ∀ path c, path ∈ touched → component_at s path = Some c → gap_of (ComponentPath.component path) c schemas = None.
Proof.
  unfold validate_governed. rewrite try_for_each_ok, Forall_forall. intros Hall path c Hin Hc. specialize (Hall path Hin).
  rewrite Hc in Hall. destruct (negb _); [done|]. by destruct (gap_of _ _ _).
Qed.

(** The paths a report lists. *)
Definition reported (r : CapabilityReport.t) : list ComponentPath.t := CapabilityDiagnostic.path <$> CapabilityReport.diagnostics r.

Lemma no_gap_opened experiment commands schemas limits candidate :
  settled limits (Experiment.state experiment) → all_minted (Experiment.state experiment) (Experiment.counters experiment) →
  well_formed_batch experiment commands → update experiment commands schemas limits = Some (Ok candidate) →
  ∀ path, path ∈ reported (CapabilityReport.of_ (Experiment.state (Candidate.experiment candidate)) schemas) →
    path ∈ reported (CapabilityReport.of_ (Experiment.state experiment) schemas).
Proof.
  intros Hsettled Hminted (Hroom & _ & Hadm) Haccepted path (d & -> & Hd)%list_elem_of_fmap.
  apply update_ok in Haccepted as (e & s & work & _ & Happ & Hev & _ & Hgov & -> & _).
  destruct (settled_parses limits _ Hsettled) as [Hp1 Hp2].
  pose proof (apply_all_kept _ _ _ Hp1 Hp2 commands schemas limits (start experiment) e
    (proj2 (Forall_forall _ _) Hadm) Happ (start_kept limits experiment commands Hsettled Hminted Hroom)) as Hk.
  apply report_exact in Hd as (c' & Hc' & Hgap). set (path := CapabilityDiagnostic.path d) in *.
  change (component_at s path = Some c') in Hc'.
  destruct (component_evaluated _ _ _ _ _ _ _ _ Hev Hc') as (c & Hc & Hkeys).
  destruct (kept_components _ _ _ _ _ Hk _ _ Hc) as [_ [Htouched|(c0 & Hc0 & _ & Hfollows)]].
  { by rewrite (validate_governed_ok _ _ _ Hgov _ _ Htouched Hc') in Hgap. }
  destruct (gap_of (ComponentPath.component path) c0 schemas) as [gap|] eqn:Hgap0.
  { apply list_elem_of_fmap. exists (CapabilityDiagnostic.mk path gap). split; [done|]. apply report_exact. by exists c0. }
  exfalso. apply gap_of_none in Hgap0 as (schema & Hschema & Hprops & Hreq).
  assert (governed (ComponentPath.component path) c' schemas) as Hg; [|by apply gap_of_none in Hg; rewrite Hg in Hgap].
  assert (∀ name v, ObjectComponent.properties c !! name = Some v → property_gap schema (name, v) = None) as Hcprops.
  { intros name v Hv. specialize (Hfollows name). rewrite Hv in Hfollows.
    destruct (ObjectComponent.properties c0 !! name) as [v0|] eqn:Hv0; [|done]. by eapply follows_same_gap, Hprops. }
  exists schema. split; [done|]. split.
  - intros name v Hv. assert (stored s (PropertyPath.mk path name) = Some v) as Hst by (unfold stored; cbn; by rewrite Hc').
    apply evaluate_ok in Hev as (sys & n & _ & _ & Hvals).
    + destruct (Hvals _ _ Hst) as [_ [[_ Hfit]|(Hst' & _ & _)]].
      * destruct Hfit as (declared & Hdecl & Hfit). unfold Hydrate.declared in Hdecl.
        cbn [PropertyPath.component PropertyPath.property] in Hdecl. rewrite Hschema in Hdecl. by eapply fits_no_gap.
      * unfold stored in Hst'. cbn in Hst'. rewrite Hc in Hst'. by apply Hcprops.
    + by eapply kept_utf8.
    + apply (kept_pending _ _ _ _ _ Hk).
  - intros name declared Hd' Hr. apply Hkeys. destruct (Hreq _ _ Hd' Hr) as [v0 Hv0]. specialize (Hfollows name).
    rewrite Hv0 in Hfollows. destruct (ObjectComponent.properties c !! name); [by eexists|done].
Qed.

End report.

(** ** A sample *)
Module GovernedSample.
Import Sample.
#[local] Existing Instance plain.
#[local] Existing Instance plain_validation.
#[local] Existing Instance latin1.
#[local] Existing Instance first_argument.

(** Two bodies saved before their mass was required. *)
Definition body (id : N) (name : string) : ObjectRecord.t :=
  ObjectRecord.mk id (DisplayName.mk name) Transform.IDENTITY Velocity.ZERO None {[inertial_mass := ComponentRecord.mk 1 ∅]} None.
Definition incomplete : DocumentRecord.t :=
  DocumentRecord.mk 2 0 [body 0 "Earth"; body 1 "Moon"] [] Setup.default.
Definition loaded : Experiment.t :=
  match hydrate incomplete schemas Limits.DEFAULT with Some (Ok experiment) => experiment | _ => Experiment.new end.
Definition weigh : list ExperimentCommand.t := [
  ExperimentCommand.SetComponentProperty (ObjectId.from_raw 0) inertial_mass mass (AuthoredValue.si "6e24 kg")].
Definition weighed : Experiment.t := accepted (commit loaded weigh).
Definition weightless (id : N) : CapabilityDiagnostic.t :=
  CapabilityDiagnostic.mk (ComponentPath.mk (ObjectId.from_raw id) inertial_mass) (CapabilityGap.RequiredPropertyMissing mass).

Lemma loaded_reached : reached (eq schemas) Limits.DEFAULT [] loaded.
Proof.
  apply (reached_load _ _ incomplete None schemas); [reflexivity| |].
  - split; [intros d Hd; by apply elem_of_nil in Hd|]. intros o type_id c property v Ho Hc Hv. exfalso.
    repeat (apply elem_of_cons in Ho as [->|Ho]); [..|by apply elem_of_nil in Ho];
      (cbn in Hc; apply lookup_insert_Some in Hc as [[_ <-]|[_ Hc]]; [by destruct (lookup_empty_Some property v)|by destruct (lookup_empty_Some type_id c)]).
  - assert (match hydrate incomplete schemas Limits.DEFAULT with Some (Ok _) => true | _ => false end = true) as Hok by (vm_compute; reflexivity).
    unfold loaded. change (hydrate_with_dependencies incomplete None schemas Limits.DEFAULT) with (hydrate incomplete schemas Limits.DEFAULT).
    destruct (hydrate incomplete schemas Limits.DEFAULT) as [[experiment|]|]; [reflexivity|discriminate Hok..].
Qed.
Lemma weigh_well_formed : well_formed_batch loaded weigh.
Proof.
  split; [vm_compute; reflexivity|]. split; [vm_compute; reflexivity|]. intros command Hin.
  apply elem_of_cons in Hin as [->|Hin]; [|by apply elem_of_nil in Hin]. split; [vm_compute; reflexivity|exact I].
Qed.


(** A report kept through an edit may name a gap that is gone. An edit may
    repair a component, here by giving the mass a loaded body was missing: what is
    left by dropping the diagnostics of content no longer there still lists it,
    and a report made anew does not. *)
Theorem repaired_gap_stays_reported :
  hydrate incomplete schemas Limits.DEFAULT = Some (Ok loaded)
  ∧ (∃ candidate, commit loaded weigh = Some (Ok candidate) ∧ Candidate.experiment candidate = weighed)
  ∧ CapabilityReport.retain_present (Experiment.state weighed) (CapabilityReport.of_ (Experiment.state loaded) schemas)
    = CapabilityReport.mk [weightless 0; weightless 1]
  ∧ CapabilityReport.of_ (Experiment.state weighed) schemas = CapabilityReport.mk [weightless 1].
Proof.
  split; [|split; [|split; vm_compute; reflexivity]].
  - assert (match hydrate incomplete schemas Limits.DEFAULT with Some (Ok _) => true | _ => false end = true) as Hok by (vm_compute; reflexivity).
    unfold loaded. destruct (hydrate incomplete schemas Limits.DEFAULT) as [[experiment|]|]; [reflexivity|discriminate Hok..].
  - destruct (commit_accepted loaded weigh) as (candidate & Hc & Ha); [vm_compute; reflexivity|].
    exists candidate. split; [exact Hc|symmetry; exact Ha].
Qed.
End GovernedSample.
