(* ===== verification/Compose.v ===== *)
(** * Extracting and composing locks (orishu-plugin, authoring_lock/composition.rs)

    The closure of chosen roots of a lock, and the union of two locks that agree
    about the consumers they share. What either gives is a lock again: closed,
    acyclic, reached from its roots and within the depth bound. *)

From stdpp Require Import base gmap strings list relations sorting.
From S2P Require Import Prelude Identity PluginIds Lock LockGraph.

#[global] Instance RequirementKey_countable : Countable RequirementKey.t.
Proof.
  refine (inj_countable' (λ k, (RequirementKey.consumer k, RequirementKey.slot k)) (λ p, RequirementKey.mk p.1 p.2) _).
  by intros [].
Defined.

(** [codec::encode] of the projection of a selection: the length of the canonical
    bytes, or the refusal of the codec's bounds. *)
Class LockCodec : Type := encoded_length : Selection.t → LockLimits.t → result Error.t N.

Section compose.
Context `{LockCodec}.

(** [SelectionLock::new]: the cached length is zero while the graph is validated. *)
Definition lock_new (s : Selection.t) (limits : LockLimits.t) : outcome Error.t SelectionLock.t :=
  _ ← lock_validate (SelectionLock.mk s 0) limits;
  canonical_bytes ← answer (encoded_length s limits);
  answer (Ok (SelectionLock.mk s canonical_bytes)).

(** ** Extraction *)

(** [seen[i] = true; ready.push(i)] for every root. *)
Fixpoint seed_roots (members : list ContributionRef.t) (roots : list ContributionRef.t)
    (seen : list bool) (ready : list nat) : result Error.t (list bool * list nat) :=
  match roots with
  | [] => Ok (seen, ready)
  | root :: roots =>
    match binary_search members root with
    | None => Err (invalid "roots" "root is outside the locked closure")
    | Some i => seed_roots members roots (<[i := true]> seen) (ready ++ [i])
    end
  end.

Fixpoint drop_while {A} (f : A → bool) (l : list A) : list A :=
  match l with [] => [] | x :: l' => if f x then drop_while f l' else l end.
Fixpoint take_while {A} (f : A → bool) (l : list A) : list A :=
  match l with [] => [] | x :: l => if f x then x :: take_while f l else [] end.

(** The bindings of a consumer: from the first that is not below it, while they
    are its own. *)
Definition bindings_of (bindings : list ProviderBinding.t) (member : ContributionRef.t) : list ProviderBinding.t :=
  take_while (λ b, bool_decide (ProviderBinding.consumer b = member))
    (drop_while (λ b, cmp_ltb (ProviderBinding.consumer b) member) bindings).

(** One consumer's bindings followed; an endpoint outside the members panics. *)
Fixpoint follow_bindings (members : list ContributionRef.t) (bindings : list ProviderBinding.t)
    (seen : list bool) (ready : list nat) : option (list bool * list nat) :=
  match bindings with
  | [] => Some (seen, ready)
  | b :: bindings =>
    match binary_search members (ProviderBinding.provider b) with
    | None => None
    | Some i =>
      if default false (seen !! i) then follow_bindings members bindings seen ready
      else follow_bindings members bindings (<[i := true]> seen) (ready ++ [i])
    end
  end.

Fixpoint close_roots (fuel : nat) (s : Selection.t) (seen : list bool) (ready : list nat) (cursor : nat)
    : option (list bool) :=
  match ready !! cursor with
  | None => Some seen
  | Some i =>
    match fuel, Selection.contributions s !! i with
    | S fuel, Some member =>
      match follow_bindings (Selection.contributions s) (bindings_of (Selection.bindings s) member) seen ready with
      | Some (seen, ready) => close_roots fuel s seen ready (S cursor)
      | None => None
      end
    | _, _ => None
    end
  end.

(** The bindings of the consumers seen; a consumer outside the members panics. *)
Fixpoint keep_bindings (members : list ContributionRef.t) (seen : list bool) (bindings : list ProviderBinding.t)
    : option (list ProviderBinding.t) :=
  match bindings with
  | [] => Some []
  | b :: bindings =>
    match binary_search members (ProviderBinding.consumer b) with
    | None => None
    | Some i =>
      kept ← keep_bindings members seen bindings;
      Some (if default false (seen !! i) then b :: kept else kept)
    end
  end.

Definition for_roots (lock : SelectionLock.t) (roots : list ContributionRef.t) (limits : LockLimits.t)
    : outcome Error.t SelectionLock.t :=
  _ ← lock_validate lock limits;
  if (LockLimits.items limits <? lenN roots)%N then refuse (limit_error "roots")
  else if negb (sorted roots) then refuse (invalid "roots" "roots must be sorted and unique")
  else
    let s := SelectionLock.selection lock in
    let members := Selection.contributions s in
    '(seen, ready) ← answer (seed_roots members roots (replicate (length members) false) []);
    match close_roots (length members) s seen ready 0 with
    | None => None
    | Some seen =>
      match keep_bindings members seen (Selection.bindings s) with
      | None => None
      | Some bindings =>
        lock_new (Selection.mk roots ((filter (λ p, p.2 = true) (zip members seen)).*1) bindings) limits
      end
    end.

(** ** Composition *)

(** What the other graph has for the same requirement, when it has the consumer
    at all and does not say the same. *)
Definition conflict_of (other : Selection.t) (reverse : bool) (edge : ProviderBinding.t) : option BindingConflict.t :=
  match binary_search (Selection.contributions other) (ProviderBinding.consumer edge) with
  | None => None
  | Some _ =>
    let other_provider := ProviderBinding.provider ∘ snd <$>
      list_find (λ e, ProviderBinding.requirement e = ProviderBinding.requirement edge) (Selection.bindings other) in
    if bool_decide (other_provider = Some (ProviderBinding.provider edge)) then None
    else Some (if reverse
      then BindingConflict.mk (ProviderBinding.requirement edge) other_provider (Some (ProviderBinding.provider edge))
      else BindingConflict.mk (ProviderBinding.requirement edge) (Some (ProviderBinding.provider edge)) other_provider)
  end.
Definition check_conflicts (own other : Selection.t) (reverse : bool) : result CompositionError.t unit :=
  try_for_each (λ edge,
    match conflict_of other reverse edge with Some c => Err (CompositionError.Conflict c) | None => Ok () end)
    (Selection.bindings own).

(** The set of the items in key order, refused when it would pass [max]. *)
Fixpoint union_into (max : N) (items : list ContributionRef.t) (found : gmap ContributionRef.t unit)
    : result Error.t (list ContributionRef.t) :=
  match items with
  | [] => Ok (btree_keys found)
  | item :: items =>
    if (map_len found =? max)%N && negb (contains_key item found) then Err (limit_error "entries")
    else union_into max items (<[item := ()]> found)
  end.
Fixpoint merge_edges (max : N) (bindings : list ProviderBinding.t) (edges : gmap RequirementKey.t ContributionRef.t)
    : result Error.t (list ProviderBinding.t) :=
  match bindings with
  | [] => Ok ((λ '(requirement, provider), ProviderBinding.mk requirement provider) <$> btree_entries edges)
  | edge :: bindings =>
    if (map_len edges =? max)%N && negb (contains_key (ProviderBinding.requirement edge) edges)
    then Err (limit_error "entries")
    else merge_edges max bindings (<[ProviderBinding.requirement edge := ProviderBinding.provider edge]> edges)
  end.

Definition lock_merge (lock incoming : SelectionLock.t) (limits : LockLimits.t) : outcome CompositionError.t SelectionLock.t :=
  let invalid {A} (r : outcome Error.t A) : outcome CompositionError.t A := outcome_map_err CompositionError.Invalid r in
  _ ← invalid (lock_validate lock limits);
  _ ← invalid (lock_validate incoming limits);
  let a := SelectionLock.selection lock in
  let b := SelectionLock.selection incoming in
  let items := LockLimits.items limits in
  _ ← answer (check_conflicts a b false);
  _ ← answer (check_conflicts b a true);
  roots ← invalid (answer (union_into items (Selection.roots a ++ Selection.roots b) ∅));
  contributions ← invalid (answer (union_into items (Selection.contributions a ++ Selection.contributions b) ∅));
  bindings ← invalid (answer (merge_edges items (Selection.bindings a ++ Selection.bindings b) ∅));
  invalid (lock_new (Selection.mk roots contributions bindings) limits).
End compose.

(** ** Sets in key order *)
Lemma sorted_unique {A} `{OrdLaws A} (l k : list A) :
  sorted l = true → sorted k = true → (∀ x, x ∈ l ↔ x ∈ k) → l = k.
Proof.
  intros Hl Hk Hin. apply (StronglySorted_unique_strong (λ a b, a ≺ b)).
  - intros x y _ _ Hxy Hyx. pose proof (cmp_antisym x y) as Ha. by rewrite Hxy, Hyx in Ha.
  - by apply sorted_strongly.
  - by apply sorted_strongly.
  - by apply NoDup_Permutation; [apply sorted_NoDup..|].
Qed.
Lemma btree_keys_sorted `{Countable K, Ord K, !OrdLaws K} {V} (m : gmap K V) : sorted (btree_keys m) = true.
Proof.
  apply sorted_strongly. pose proof (NoDup_btree_keys m) as Hnd. unfold btree_keys in *.
  pose proof (btree_entries_sorted m) as Hs. induction Hs as [|e l Hs IH Hall]; [constructor|].
  rewrite fmap_cons, NoDup_cons in Hnd. destruct Hnd as [Hn Hnd]. cbn. constructor; [by apply IH|].
  apply Forall_fmap. rewrite Forall_forall in Hall |- *. intros x Hx. specialize (Hall x Hx). unfold entry_le in Hall. cbn.
  apply cmp_le_lt_or_eq in Hall as [?|Hk]; [done|]. destruct Hn. rewrite Hk. by apply list_elem_of_fmap_2.
Qed.

Section specification.
Context `{LockCodec}.

Lemma lock_new_ok s limits : ∃ r, lock_new s limits = Some r ∧
  ∀ lock, r = Ok lock ↔ lock_ok limits (SelectionLock.mk s 0) ∧ SelectionLock.selection lock = s
    ∧ encoded_length s limits = Ok (SelectionLock.canonical_bytes lock).
Proof.
  unfold lock_new. destruct (lock_validated limits (SelectionLock.mk s 0)) as (r & -> & Hr).
  destruct r as [[]|e]; cbn [mbind outcome_bind answer].
  - destruct (encoded_length s limits) as [n|e] eqn:Hn; cbn [mbind outcome_bind answer]; eexists; (split; [done|]); intros [s' n'].
    + cbn [SelectionLock.selection SelectionLock.canonical_bytes]. split.
      * intros [= <- <-]. split_and!; [by apply Hr|done|done].
      * by intros (_ & -> & [= ->]).
    + split; [done|]. by intros (_ & _ & ?).
  - eexists. split; [done|]. intros lock. split; [done|]. intros (Hok & _). by apply Hr in Hok.
Qed.

Lemma union_into_ok max items : ∀ found l, (map_len found ≤ max)%N →
  union_into max items found = Ok l ↔
  sorted l = true ∧ (lenN l ≤ max)%N ∧ ∀ x, x ∈ l ↔ is_Some (found !! x) ∨ x ∈ items.
Proof.
  induction items as [|item items IH]; intros found l Hle; cbn [union_into].
  - split.
    + intros [= <-]. split_and!; [apply btree_keys_sorted| |].
      * unfold lenN, btree_keys. by rewrite length_fmap, length_btree_entries.
      * intros x. rewrite elem_of_btree_keys, elem_of_nil. tauto.
    + intros (Hs & _ & Hin). f_equal. apply sorted_unique; [apply btree_keys_sorted|done|].
      intros x. rewrite Hin, elem_of_btree_keys, elem_of_nil. tauto.
  - destruct (contains_key item found) eqn:Hc.
    + rewrite andb_false_r. apply contains_key_spec in Hc. rewrite IH by by rewrite map_len_insert_present.
      apply and_iff_compat_l, and_iff_compat_l, forall_proper. intros x. rewrite elem_of_cons.
      rewrite lookup_insert_is_Some'. naive_solver.
    + rewrite andb_true_r. apply not_true_iff_false in Hc. rewrite contains_key_spec, <- eq_None_not_Some in Hc.
      destruct (N.eqb_spec (map_len found) max) as [Hfull|Hroom].
      * split; [done|]. intros (Hs & Hlen & Hin). exfalso.
        assert (lenN (item :: btree_keys found) ≤ lenN l)%N as Hl.
        { enough (length (item :: btree_keys found) ≤ length l) by (unfold lenN; lia).
          apply submseteq_length, NoDup_submseteq.
          - constructor; [|apply NoDup_btree_keys]. rewrite elem_of_btree_keys, Hc. by intros [].
          - intros x. rewrite Hin, !elem_of_cons, elem_of_btree_keys. naive_solver. }
        revert Hl. unfold lenN, btree_keys. cbn [length]. rewrite length_fmap, length_btree_entries. unfold map_len, lenN in *. lia.
      * rewrite IH by (rewrite map_len_insert_absent by done; lia).
        apply and_iff_compat_l, and_iff_compat_l, forall_proper. intros x. rewrite elem_of_cons.
        rewrite lookup_insert_is_Some'. naive_solver.
Qed.

(** The bindings as a map. *)
Definition edges_of (bindings : list ProviderBinding.t) (edges : gmap RequirementKey.t ContributionRef.t) :=
  foldl (λ m e, <[ProviderBinding.requirement e := ProviderBinding.provider e]> m) edges bindings.
Definition functional (bindings : list ProviderBinding.t) : Prop :=
  ∀ e e', e ∈ bindings → e' ∈ bindings → ProviderBinding.requirement e = ProviderBinding.requirement e' → e = e'.
Abbreviation binding_of := (λ '(requirement, provider), ProviderBinding.mk requirement provider).

Lemma edges_of_len bindings : ∀ edges, (map_len edges ≤ map_len (edges_of bindings edges))%N.
Proof.
  induction bindings as [|e bindings IH]; intros edges; [done|]. cbn. etrans; [|apply IH].
  destruct (edges !! ProviderBinding.requirement e) eqn:He;
    [rewrite map_len_insert_present by done|rewrite map_len_insert_absent by done]; lia.
Qed.
Lemma merge_edges_ok max bindings : ∀ edges l, (map_len edges ≤ max)%N →
  merge_edges max bindings edges = Ok l ↔
  (map_len (edges_of bindings edges) ≤ max)%N ∧ l = binding_of <$> btree_entries (edges_of bindings edges).
Proof.
  induction bindings as [|e bindings IH]; intros edges l Hle; cbn [merge_edges].
  { split; [by intros [= <-]|]. by intros [_ ->]. }
  change (edges_of (e :: bindings) edges) with
    (edges_of bindings (<[ProviderBinding.requirement e := ProviderBinding.provider e]> edges)).
  destruct (contains_key _ edges) eqn:Hc.
  - rewrite andb_false_r. apply contains_key_spec in Hc. apply IH. by rewrite map_len_insert_present.
  - rewrite andb_true_r. apply not_true_iff_false in Hc. rewrite contains_key_spec, <- eq_None_not_Some in Hc.
    pose proof (edges_of_len bindings (<[ProviderBinding.requirement e := ProviderBinding.provider e]> edges)) as Hmono.
    rewrite map_len_insert_absent in Hmono by done.
    destruct (N.eqb_spec (map_len edges) max); [split; [done|]; intros [? _]; lia|].
    apply IH. rewrite map_len_insert_absent by done. lia.
Qed.
Lemma edges_of_lookup bindings : ∀ edges r p, functional bindings →
  edges_of bindings edges !! r = Some p ↔
  ProviderBinding.mk r p ∈ bindings ∨ edges !! r = Some p ∧ ∀ e, e ∈ bindings → ProviderBinding.requirement e ≠ r.
Proof.
  induction bindings as [|[r' p'] bindings IH]; intros edges r p Hf.
  { cbn. setoid_rewrite elem_of_nil. naive_solver. }
  change (edges_of (ProviderBinding.mk r' p' :: bindings) edges) with (edges_of bindings (<[r' := p']> edges)).
  assert (functional bindings) as Hf' by (intros e e' He He'; apply Hf; by right).
  rewrite IH by done. destruct (decide (r' = r)) as [->|Hr].
  - rewrite lookup_insert_eq. split.
    + intros [?|[[= ->] _]]; left; set_solver.
    + intros [[[= ->]|Hin]%elem_of_cons|[_ Hn]]; [|by left|by destruct (Hn (ProviderBinding.mk r p')); [left|]].
      destruct (decide (ProviderBinding.mk r p' ∈ bindings)); [by left|]. right. split; [done|]. intros e He Hre.
      pose proof (Hf e (ProviderBinding.mk r p') ltac:(by right) ltac:(by left) Hre) as ->. done.
  - rewrite lookup_insert_ne by done. rewrite elem_of_cons. setoid_rewrite elem_of_cons. naive_solver.
Qed.
Lemma requirements_sorted edges : sorted (ProviderBinding.requirement <$> (binding_of <$> btree_entries edges)) = true.
Proof.
  rewrite <- list_fmap_compose. rewrite (list_fmap_ext _ fst) by by intros ? [] ?. apply btree_keys_sorted.
Qed.
Lemma sorted_functional bindings : sorted (ProviderBinding.requirement <$> bindings) = true → functional bindings.
Proof.
  intros Hs%sorted_NoDup e e' He He' Hr. apply list_elem_of_lookup in He as [i Hi], He' as [j Hj].
  assert (i = j) as <-; [|congruence]. eapply NoDup_lookup; [done| |].
  - rewrite list_lookup_fmap, Hi. done.
  - rewrite list_lookup_fmap, Hj, Hr. done.
Qed.

(** ** What a union is *)

(** Two graphs say the same of every consumer both of them hold. *)
Definition agree (a b : Selection.t) : Prop :=
  (∀ e, e ∈ Selection.bindings a → ProviderBinding.consumer e ∈ Selection.contributions b → e ∈ Selection.bindings b)
  ∧ ∀ e, e ∈ Selection.bindings b → ProviderBinding.consumer e ∈ Selection.contributions a → e ∈ Selection.bindings a.

Record union_of (a b s : Selection.t) : Prop := {
  union_roots : sorted (Selection.roots s) = true
    ∧ ∀ c, c ∈ Selection.roots s ↔ c ∈ Selection.roots a ∨ c ∈ Selection.roots b;
  union_members : sorted (Selection.contributions s) = true
    ∧ ∀ c, c ∈ Selection.contributions s ↔ c ∈ Selection.contributions a ∨ c ∈ Selection.contributions b;
  union_bindings : sorted (ProviderBinding.requirement <$> Selection.bindings s) = true
    ∧ ∀ e, e ∈ Selection.bindings s ↔ e ∈ Selection.bindings a ∨ e ∈ Selection.bindings b
}.

Lemma conflict_none other reverse e : sorted (ProviderBinding.requirement <$> Selection.bindings other) = true →
  conflict_of other reverse e = None ↔
  (ProviderBinding.consumer e ∈ Selection.contributions other → e ∈ Selection.bindings other).
Proof.
  intros Hs. unfold conflict_of. destruct (binary_search _ _) as [i|] eqn:Hi.
  2: { apply binary_search_none in Hi. tauto. }
  assert (ProviderBinding.consumer e ∈ Selection.contributions other) as Hc by (apply binary_search_elem; by eexists).
  cbn zeta. case_bool_decide as Hp.
  - split; [|done]. intros _ _. destruct (list_find _ _) as [[j e']|] eqn:Hf; [|done].
    apply list_find_Some in Hf as (Hj & Hr & _). injection Hp as Hp. destruct e, e'; cbn in *; subst. by eapply list_elem_of_lookup_2.
  - split; [by destruct reverse|]. intros Hin. destruct Hp. specialize (Hin Hc).
    destruct (list_find_elem_of (λ e', ProviderBinding.requirement e' = ProviderBinding.requirement e) _ _ Hin eq_refl) as [[j e'] Hf].
    rewrite Hf. cbn. f_equal. apply list_find_Some in Hf as (Hj & Hr & _).
    f_equal. eapply sorted_functional; [done|by eapply list_elem_of_lookup_2|done|done].
Qed.
Lemma check_conflicts_ok own other reverse : sorted (ProviderBinding.requirement <$> Selection.bindings other) = true →
  (check_conflicts own other reverse = Ok () ↔
   ∀ e, e ∈ Selection.bindings own → ProviderBinding.consumer e ∈ Selection.contributions other → e ∈ Selection.bindings other)
  ∧ (check_conflicts own other reverse ≠ Ok () → ∃ c, check_conflicts own other reverse = Err (CompositionError.Conflict c)).
Proof.
  intros Hs. unfold check_conflicts. induction (Selection.bindings own) as [|e l IH]; cbn [try_for_each].
  { split; [|done]. split; [by intros _ e ?%elem_of_nil|done]. }
  pose proof (conflict_none other reverse e Hs) as Hn. destruct (conflict_of other reverse e) as [c|]; cbn [mbind result_bind].
  - split; [|by exists c]. split; [done|]. intros Hall. enough (Some c = None) by done. apply Hn, Hall. by left.
  - destruct IH as [IH1 IH2]. split; [|done]. rewrite IH1. setoid_rewrite elem_of_cons. split; [|by eauto].
    intros Hall e' [->|?]; [by apply Hn|by apply Hall].
Qed.

Section union.
Context (a b s : Selection.t) (d : N) (Ha : well_locked a d) (Hb : well_locked b d) (Hagree : agree a b) (Hunion : union_of a b s).

(** What leaves a consumer of one graph in the union leaves it in that graph. *)
Lemma union_binds_left c e : c ∈ Selection.contributions a → binds s c e → binds a c e.
Proof.
  intros Hc (edge & Hin & <- & <-). destruct (union_bindings _ _ _ Hunion) as [_ Hu]. apply Hu in Hin as [Hin|Hin].
  - by exists edge.
  - exists edge. split; [|done]. by apply Hagree.
Qed.
Lemma union_binds_right c e : c ∈ Selection.contributions b → binds s c e → binds b c e.
Proof.
  intros Hc (edge & Hin & <- & <-). destruct (union_bindings _ _ _ Hunion) as [_ Hu]. apply Hu in Hin as [Hin|Hin].
  - exists edge. split; [|done]. by apply Hagree.
  - by exists edge.
Qed.
Lemma binds_union c e : binds a c e ∨ binds b c e → binds s c e.
Proof.
  destruct (union_bindings _ _ _ Hunion) as [_ Hu]. intros [(edge & Hin & ? & ?)|(edge & Hin & ? & ?)];
    exists edge; (split; [apply Hu|done]); [by left|by right].
Qed.
Lemma chain_union t k c : (∀ r, r ∈ Selection.roots t → r ∈ Selection.roots s) → (∀ c e, binds t c e → binds s c e) →
  provider_chain t k c → provider_chain s k c.
Proof. intros Hr Hb'. induction 1; [constructor; by apply Hr|econstructor; [done|by apply Hb']]. Qed.
Lemma union_chain k c : provider_chain s k c →
  c ∈ Selection.contributions a ∧ provider_chain a k c ∨ c ∈ Selection.contributions b ∧ provider_chain b k c.
Proof.
  destruct (locked_inside _ _ Ha) as [Hra Hca], (locked_inside _ _ Hb) as [Hrb Hcb].
  induction 1 as [r Hr|k c e _ IH Hce].
  - apply (union_roots _ _ _ Hunion) in Hr as [Hr|Hr]; [left|right]; (split; [auto|by constructor]).
  - destruct IH as [[Hc Hk]|[Hc Hk]].
    + left. pose proof (union_binds_left _ _ Hc Hce) as Hae. split; [by eapply Hca|by econstructor].
    + right. pose proof (union_binds_right _ _ Hc Hce) as Hbe. split; [by eapply Hcb|by econstructor].
Qed.
Lemma union_tc_left c e : tc (binds s) c e → c ∈ Selection.contributions a → tc (binds a) c e.
Proof.
  destruct (locked_inside _ _ Ha) as [_ Hca]. induction 1 as [c e Hce|c e f Hce _ IH]; intros Hc;
    pose proof (union_binds_left _ _ Hc Hce) as Hae; [by constructor|]. eapply tc_l; [done|]. apply IH. by eapply Hca.
Qed.
Lemma union_tc_right c e : tc (binds s) c e → c ∈ Selection.contributions b → tc (binds b) c e.
Proof.
  destruct (locked_inside _ _ Hb) as [_ Hcb]. induction 1 as [c e Hce|c e f Hce _ IH]; intros Hc;
    pose proof (union_binds_right _ _ Hc Hce) as Hbe; [by constructor|]. eapply tc_l; [done|]. apply IH. by eapply Hcb.
Qed.
Lemma binds_member c e : binds s c e → c ∈ Selection.contributions a ∨ c ∈ Selection.contributions b.
Proof.
  destruct (locked_inside _ _ Ha) as [_ Hca], (locked_inside _ _ Hb) as [_ Hcb]. intros (edge & Hin & <- & <-).
  apply (union_bindings _ _ _ Hunion) in Hin as [Hin|Hin]; [left|right].
  - destruct (Hca (ProviderBinding.consumer edge) (ProviderBinding.provider edge)); [by exists edge|done].
  - destruct (Hcb (ProviderBinding.consumer edge) (ProviderBinding.provider edge)); [by exists edge|done].
Qed.

Lemma union_well_locked : well_locked s d.
Proof.
  destruct (union_roots _ _ _ Hunion) as [Hsr Hr], (union_members _ _ _ Hunion) as [Hsm Hm], (union_bindings _ _ _ Hunion) as [Hsb Hbs].
  destruct (locked_inside _ _ Ha) as [Hra Hca], (locked_inside _ _ Hb) as [Hrb Hcb]. split; try done.
  - split.
    + intros r [?|?]%Hr; apply Hm; [left; by apply Hra|right; by apply Hrb].
    + intros c e (edge & [Hin|Hin]%Hbs & <- & <-); rewrite !Hm.
      * destruct (Hca (ProviderBinding.consumer edge) (ProviderBinding.provider edge)); [by exists edge|]. by split; left.
      * destruct (Hcb (ProviderBinding.consumer edge) (ProviderBinding.provider edge)); [by exists edge|]. by split; right.
  - intros c Hc. assert (c ∈ Selection.contributions a ∨ c ∈ Selection.contributions b) as [Hin|Hin].
    { inversion Hc as [? ? Hb'|? ? ? Hb']; subst; by eapply binds_member. }
    + by apply (locked_acyclic _ _ Ha c), union_tc_left.
    + by apply (locked_acyclic _ _ Hb c), union_tc_right.
  - intros c [Hc|Hc]%Hm.
    + destruct (locked_reached _ _ Ha c Hc) as [k Hk]. exists k. eapply chain_union; [| |exact Hk]; [intros; apply Hr; by left|].
      intros. apply binds_union. by left.
    + destruct (locked_reached _ _ Hb c Hc) as [k Hk]. exists k. eapply chain_union; [| |exact Hk]; [intros; apply Hr; by right|].
      intros. apply binds_union. by right.
  - intros k c [[_ Hk]|[_ Hk]]%union_chain; [by apply (locked_depth _ _ Ha k c)|by apply (locked_depth _ _ Hb k c)].
Qed.

Lemma union_functional : functional (Selection.bindings a ++ Selection.bindings b).
Proof.
  destruct (locked_inside _ _ Ha) as [_ Hca], (locked_inside _ _ Hb) as [_ Hcb].
  pose proof (sorted_functional _ (locked_bindings _ _ Ha)) as Hfa. pose proof (sorted_functional _ (locked_bindings _ _ Hb)) as Hfb.
  assert (∀ e e', e ∈ Selection.bindings a → e' ∈ Selection.bindings b → ProviderBinding.requirement e = ProviderBinding.requirement e' → e = e') as Hab.
  { intros e e' He He' Hr. apply Hfb; [|done|done]. apply Hagree; [done|]. unfold ProviderBinding.consumer. rewrite Hr.
    destruct (Hcb (ProviderBinding.consumer e') (ProviderBinding.provider e')); [by exists e'|done]. }
  intros e e' [He|He]%elem_of_app [He'|He']%elem_of_app Hr; [by apply Hfa|by apply Hab|symmetry; by apply Hab|by apply Hfb].
Qed.
End union.

(** The sizes a union is held to. *)
Definition fits_lock (limits : LockLimits.t) (s : Selection.t) : Prop :=
  (N.max (lenN (Selection.roots s)) (N.max (lenN (Selection.contributions s)) (lenN (Selection.bindings s)))
    ≤ LockLimits.items limits)%N
  ∧ (3 * (lenN (Selection.contributions s) + lenN (Selection.bindings s)) + lenN (Selection.roots s)
    ≤ N.min (LockLimits.work limits) usize_max)%N.

Lemma validated_ok limits lock : lock_validate lock limits = Some (Ok ()) → lock_ok limits lock.
Proof. intros Hv. destruct (lock_validated limits lock) as (r & Hr & Hok). rewrite Hv in Hr. injection Hr as <-. by apply Hok. Qed.

(** The bindings the merge makes are the union's. *)
Lemma merged_bindings a b d s : well_locked a d → well_locked b d → agree a b → union_of a b s →
  Selection.bindings s = binding_of <$> btree_entries (edges_of (Selection.bindings a ++ Selection.bindings b) ∅).
Proof.
  intros Ha Hb Hagree Hu. pose proof (union_functional a b d Ha Hb Hagree) as Hf.
  destruct (union_bindings _ _ _ Hu) as [Hs Hin].
  assert (∀ e, e ∈ Selection.bindings s ↔ e ∈ binding_of <$> btree_entries (edges_of (Selection.bindings a ++ Selection.bindings b) ∅)) as Heq.
  { intros [r p]. rewrite Hin, list_elem_of_fmap. transitivity (edges_of (Selection.bindings a ++ Selection.bindings b) ∅ !! r = Some p).
    - rewrite edges_of_lookup by done. rewrite lookup_empty, elem_of_app. naive_solver.
    - split; [intros Hp; exists (r, p); split; [done|by apply elem_of_btree_entries]|].
      by intros ([r' p'] & [= -> ->] & ?%elem_of_btree_entries). }
  assert (ProviderBinding.requirement <$> Selection.bindings s
    = ProviderBinding.requirement <$> (binding_of <$> btree_entries (edges_of (Selection.bindings a ++ Selection.bindings b) ∅))) as Hreq.
  { apply sorted_unique; [done|apply requirements_sorted|]. intros r. rewrite !(list_elem_of_fmap ProviderBinding.requirement).
    by setoid_rewrite Heq. }
  pose proof (sorted_functional _ Hs) as Hfs. apply list_eq. intros i. pose proof (f_equal (lookup i) Hreq) as Hi.
  rewrite !(list_lookup_fmap ProviderBinding.requirement) in Hi. set (l := binding_of <$> _) in *.
  destruct (Selection.bindings s !! i) as [e|] eqn:He, (l !! i) as [e'|] eqn:He'; try done.
  injection Hi as Hi. f_equal. apply Hfs; [by eapply list_elem_of_lookup_2| |done]. apply Heq. by eapply list_elem_of_lookup_2.
Qed.
Lemma edges_union a b d : well_locked a d → well_locked b d → agree a b →
  let l := binding_of <$> btree_entries (edges_of (Selection.bindings a ++ Selection.bindings b) ∅) in
  sorted (ProviderBinding.requirement <$> l) = true ∧ ∀ e, e ∈ l ↔ e ∈ Selection.bindings a ∨ e ∈ Selection.bindings b.
Proof.
  intros Ha Hb Hagree l. split; [apply requirements_sorted|]. pose proof (union_functional a b d Ha Hb Hagree) as Hf.
  intros [r p]. unfold l. rewrite list_elem_of_fmap. transitivity (edges_of (Selection.bindings a ++ Selection.bindings b) ∅ !! r = Some p).
  - split; [by intros ([r' p'] & [= -> ->] & ?%elem_of_btree_entries)|].
    intros Hp. exists (r, p). split; [done|by apply elem_of_btree_entries].
  - rewrite edges_of_lookup by done. rewrite lookup_empty, elem_of_app. naive_solver.
Qed.
Lemma edges_len edges : lenN (binding_of <$> btree_entries edges) = map_len edges.
Proof. unfold lenN, map_len. by rewrite length_fmap, length_btree_entries. Qed.

(** What is left of a merge once no conflict was found. *)
Lemma merge_union lock incoming limits d : well_locked (SelectionLock.selection lock) d →
  well_locked (SelectionLock.selection incoming) d → d = N.min (LockLimits.dependency_depth limits) 64 →
  agree (SelectionLock.selection lock) (SelectionLock.selection incoming) →
  let a := SelectionLock.selection lock in
  let b := SelectionLock.selection incoming in
  let items := LockLimits.items limits in
  ∃ r, (roots ← answer (union_into items (Selection.roots a ++ Selection.roots b) ∅);
        contributions ← answer (union_into items (Selection.contributions a ++ Selection.contributions b) ∅);
        bindings ← answer (merge_edges items (Selection.bindings a ++ Selection.bindings b) ∅);
        lock_new (Selection.mk roots contributions bindings) limits) = Some r
  ∧ ∀ merged, r = Ok merged ↔ union_of a b (SelectionLock.selection merged) ∧ fits_lock limits (SelectionLock.selection merged)
      ∧ encoded_length (SelectionLock.selection merged) limits = Ok (SelectionLock.canonical_bytes merged).
Proof.
  intros Ha Hb Hd Hagree a b items. fold a b in Ha, Hb, Hagree.
  assert (∀ l l', union_into items l ∅ = Ok l' ↔ sorted l' = true ∧ (lenN l' ≤ items)%N ∧ ∀ x, x ∈ l' ↔ x ∈ l) as Hinto.
  { intros l l'. rewrite union_into_ok by (unfold map_len; rewrite map_size_empty; lia).
    setoid_rewrite lookup_empty. pose proof (is_Some_None (A := unit)).
    split; (intros (? & ? & Hin); split_and!; [done..|]; intros x; rewrite Hin; tauto). }
  destruct (union_into items (Selection.roots a ++ _) ∅) as [roots|e] eqn:Hr.
  2: { eexists. split; [done|]. intros merged. split; [done|]. intros ([[Hs Hin] _ _] & [He _] & _). exfalso.
    enough (union_into items (Selection.roots a ++ Selection.roots b) ∅ = Ok (Selection.roots (SelectionLock.selection merged))) by congruence.
    apply Hinto. split_and!; [done|unfold items; lia|]. intros x. by rewrite Hin, elem_of_app. }
  cbn [mbind outcome_bind answer]. apply Hinto in Hr as (Hrs & Hrl & Hr).
  destruct (union_into items (Selection.contributions a ++ _) ∅) as [members|e] eqn:Hm.
  2: { eexists. split; [done|]. intros merged. split; [done|]. intros ([_ [Hs Hin] _] & [He _] & _). exfalso.
    enough (union_into items (Selection.contributions a ++ Selection.contributions b) ∅ = Ok (Selection.contributions (SelectionLock.selection merged))) by congruence.
    apply Hinto. split_and!; [done|unfold items; lia|]. intros x. by rewrite Hin, elem_of_app. }
  cbn [mbind outcome_bind answer]. apply Hinto in Hm as (Hms & Hml & Hm).
  assert (∀ l, merge_edges items (Selection.bindings a ++ Selection.bindings b) ∅ = Ok l ↔
    (map_len (edges_of (Selection.bindings a ++ Selection.bindings b) ∅) ≤ items)%N
    ∧ l = binding_of <$> btree_entries (edges_of (Selection.bindings a ++ Selection.bindings b) ∅)) as Hedges
    by (intros l; apply merge_edges_ok; unfold map_len; rewrite map_size_empty; lia).
  destruct (merge_edges items _ ∅) as [bindings|e] eqn:He.
  2: { eexists. split; [done|]. intros merged. split; [done|]. intros (Hu & [Hle _] & _). exfalso.
    enough (Err e = Ok (Selection.bindings (SelectionLock.selection merged)) :> result Error.t _) by done. apply Hedges.
    pose proof (merged_bindings a b d _ Ha Hb Hagree Hu) as Hbs. split; [|done]. rewrite <- edges_len, <- Hbs. unfold items. lia. }
  cbn [mbind outcome_bind answer]. destruct (proj1 (Hedges bindings) eq_refl) as [Hel Hbs].
  assert (union_of a b (Selection.mk roots members bindings)) as Hu.
  { destruct (edges_union a b d Ha Hb Hagree) as [Hes Hein]. rewrite Hbs. split; cbn [Selection.roots Selection.contributions Selection.bindings].
    - split; [done|]. intros c. by rewrite Hr, elem_of_app.
    - split; [done|]. intros c. by rewrite Hm, elem_of_app.
    - done. }
  destruct (lock_new_ok (Selection.mk roots members bindings) limits) as (r & Hnew & Hok). exists r. split; [done|].
  intros merged. rewrite Hok. split.
  - intros ([_ He1 Hw _] & Hs & Hn). cbn [SelectionLock.selection] in He1, Hw. rewrite Hs. by split_and!.
  - intros (Hu' & [He1 Hw] & Hn).
    assert (SelectionLock.selection merged = Selection.mk roots members bindings) as Hsel.
    { destruct (SelectionLock.selection merged) as [r' m' b'] eqn:Hsm. destruct Hu' as [[Hrs' Hr'] [Hms' Hm'] Hb'].
      cbn [Selection.roots Selection.contributions Selection.bindings] in *. f_equal.
      - apply sorted_unique; [done..|]. intros x. by rewrite Hr', Hr, elem_of_app.
      - apply sorted_unique; [done..|]. intros x. by rewrite Hm', Hm, elem_of_app.
      - rewrite Hbs. apply (merged_bindings a b d (Selection.mk r' m' b') Ha Hb Hagree). by split. }
    rewrite Hsel in He1, Hw, Hn. split_and!; [|done|done]. split; cbn [SelectionLock.selection SelectionLock.canonical_bytes]; [lia|done|done|].
    rewrite <- Hd. exact (union_well_locked a b _ d Ha Hb Hagree Hu).
Qed.

(** Locks compose exactly when they agree. For two locks that validate, a merge
    always answers. It reports a conflict if and only if the graphs say something
    different of a consumer both hold, absence included. It gives a lock if and only
    if they agree, the union is within the bounds on entries and work, and it
    encodes; the lock is the union of the roots, of the contributions and of the
    bindings, and no cycle, no unreachable contribution and no chain beyond the
    bound can arise from composing. *)
Theorem lock_merge_exact lock incoming limits
    (Hlock : lock_validate lock limits = Some (Ok ())) (Hincoming : lock_validate incoming limits = Some (Ok ())) :
  let a := SelectionLock.selection lock in
  let b := SelectionLock.selection incoming in
  ∃ r, lock_merge lock incoming limits = Some r
    ∧ ((∃ c, r = Err (CompositionError.Conflict c)) ↔ ¬ agree a b)
    ∧ ∀ merged, r = Ok merged ↔ agree a b ∧ union_of a b (SelectionLock.selection merged)
        ∧ fits_lock limits (SelectionLock.selection merged)
        ∧ encoded_length (SelectionLock.selection merged) limits = Ok (SelectionLock.canonical_bytes merged).
Proof.
  cbn zeta. pose proof (ok_graph _ _ (validated_ok _ _ Hlock)) as Ha. pose proof (ok_graph _ _ (validated_ok _ _ Hincoming)) as Hb.
  unfold lock_merge. rewrite Hlock, Hincoming. cbn [outcome_map_err result_map_err mbind outcome_bind answer].
  set (a := SelectionLock.selection lock) in *. set (b := SelectionLock.selection incoming) in *.
  destruct (check_conflicts_ok a b false (locked_bindings _ _ Hb)) as [Hab Hab'].
  destruct (check_conflicts_ok b a true (locked_bindings _ _ Ha)) as [Hba Hba'].
  destruct (check_conflicts a b false) as [[]|e]; cbn [mbind outcome_bind answer].
  2: { destruct Hab' as [c [= ->]]; [done|]. eexists. split; [done|]. split; [|by split; [done|]; intros ([Hag _] & _); apply Hab in Hag].
    split; [|by exists c]. intros _ [Hag _]. by apply Hab in Hag. }
  destruct (check_conflicts b a true) as [[]|e]; cbn [mbind outcome_bind answer].
  2: { destruct Hba' as [c [= ->]]; [done|]. eexists. split; [done|]. split; [|by split; [done|]; intros ([_ Hag] & _); apply Hba in Hag].
    split; [|by exists c]. intros _ [_ Hag]. by apply Hba in Hag. }
  assert (agree a b) as Hagree by (split; [by apply Hab|by apply Hba]).
  destruct (merge_union lock incoming limits _ Ha Hb eq_refl Hagree) as (r & Hr & Hok). fold a b in Hr, Hok.
  exists (result_map_err CompositionError.Invalid r). split; [|split].
  - transitivity (outcome_map_err CompositionError.Invalid (Some r)); [|done]. rewrite <- Hr. clear.
    destruct (union_into _ (Selection.roots a ++ _) _); [|done]. destruct (union_into _ (Selection.contributions a ++ _) _); [|done].
    by destruct (merge_edges _ _ _).
  - split; [by intros [c Hc]; destruct r|done].
  - intros merged. rewrite <- (Hok merged). destruct r as [x|x]; cbn [result_map_err]; naive_solver.
Qed.

(** ** What an extraction keeps *)
Lemma consumer_order (e e' : ProviderBinding.t) :
  ProviderBinding.requirement e ≺ ProviderBinding.requirement e' → ProviderBinding.consumer e ⪯ ProviderBinding.consumer e'.
Proof.
  unfold ProviderBinding.consumer. destruct (ProviderBinding.requirement e), (ProviderBinding.requirement e').
  unfold cmp at 1, RequirementKey.RequirementKey_ord. cbn. unfold cmp at 1, prod_ord. cbn.
  by destruct (cmp consumer consumer0).
Qed.
Lemma take_while_spec {A} (f : A → bool) l x : x ∈ take_while f l → x ∈ l ∧ f x = true.
Proof.
  induction l as [|y l IH]; cbn; [by intros ?%elem_of_nil|]. destruct (f y) eqn:Hf; [|by intros ?%elem_of_nil].
  intros [->|Hx]%elem_of_cons; [by split; [left|]|]. destruct (IH Hx). split; [by right|done].
Qed.
Lemma drop_while_sub {A} (f : A → bool) l x : x ∈ drop_while f l → x ∈ l.
Proof. induction l as [|y l IH]; cbn; [done|]. destruct (f y); [right; by apply IH|done]. Qed.
Lemma bindings_of_elem bindings member e : sorted (ProviderBinding.requirement <$> bindings) = true →
  e ∈ bindings_of bindings member ↔ e ∈ bindings ∧ ProviderBinding.consumer e = member.
Proof.
  intros Hs. split.
  { intros [Hd Hm]%take_while_spec. apply bool_decide_eq_true in Hm. split; [by eapply drop_while_sub|done]. }
  intros [He <-]. set (f := λ b, bool_decide (ProviderBinding.consumer b = ProviderBinding.consumer e)).
  assert (StronglySorted (λ x y, ProviderBinding.consumer x ⪯ ProviderBinding.consumer y) bindings) as Hle.
  { apply sorted_strongly in Hs. clear He. induction bindings as [|x l IH]; [constructor|]. cbn in Hs. inversion Hs as [|? ? Hs' Hall]; subst.
    constructor; [by apply IH|]. rewrite Forall_fmap in Hall. eapply Forall_impl; [exact Hall|]. intros y. apply consumer_order. }
  unfold bindings_of. induction Hle as [|x l Hle IH Hall]; [by apply elem_of_nil in He|]. cbn [drop_while].
  assert (sorted (ProviderBinding.requirement <$> l) = true) as Hs'.
  { apply sorted_strongly. apply sorted_strongly in Hs. cbn in Hs. by inversion Hs. }
  unfold cmp_ltb at 1. destruct (cmp (ProviderBinding.consumer x) (ProviderBinding.consumer e)) eqn:Hc.
  - apply cmp_eq in Hc. clear IH. assert (∀ k, e ∈ k → StronglySorted (λ x y, ProviderBinding.consumer x ⪯ ProviderBinding.consumer y) k →
      (∀ y, y ∈ k → ProviderBinding.consumer e ⪯ ProviderBinding.consumer y) → e ∈ take_while f k) as Htake.
    { intros k. induction k as [|y k IH]; [done|]. intros Hin Hk Hall'. cbn [take_while]. inversion Hk as [|? ? Hk' Hy]; subst.
      unfold f at 1. case_bool_decide as Heq.
      - apply elem_of_cons in Hin as [->|Hin]; [by left|]. right. apply IH; [done..|]. intros z Hz. apply Hall'. by right.
      - apply elem_of_cons in Hin as [->|Hin]; [done|]. exfalso. rewrite Forall_forall in Hy. specialize (Hy e Hin).
        specialize (Hall' y ltac:(by left)). apply cmp_le_lt_or_eq in Hy as [Hy|Hy]; [|done]. apply Hall'. by apply cmp_gt_lt. }
    apply Htake; [done|by constructor|]. rewrite <- Hc. intros y [->|Hy]%elem_of_cons; [by rewrite (proj2 (cmp_eq _ _))|].
    rewrite Forall_forall in Hall. by apply Hall.
  - apply IH; [done|]. apply elem_of_cons in He as [->|He]; [|done]. by rewrite (proj2 (cmp_eq _ _)) in Hc.
  - exfalso. apply elem_of_cons in He as [->|He]; [by rewrite (proj2 (cmp_eq _ _)) in Hc|].
    rewrite Forall_forall in Hall. by apply (Hall e He).
Qed.

Section closure.
Context (s : Selection.t) (max_chain : N) (Hs : well_locked s max_chain) (chosen : list ContributionRef.t).
Context (Hchosen : ∀ r, r ∈ chosen → r ∈ Selection.contributions s) (Hsorted : sorted chosen = true).
Abbreviation members := (Selection.contributions s).

(** Needed by one of the chosen roots. *)
Definition needed (c : ContributionRef.t) : Prop := ∃ r, r ∈ chosen ∧ rtc (binds s) r c.

Record closing (seen : list bool) (ready : list nat) : Prop := {
  closing_length : length seen = length members;
  closing_distinct : NoDup ready;
  closing_seen : ∀ i, seen !! i = Some true ↔ i ∈ ready;
  closing_needed : ∀ i, i ∈ ready → ∃ c, members !! i = Some c ∧ needed c
}.
Lemma members_distinct : NoDup members.
Proof. apply sorted_NoDup, (locked_members _ _ Hs). Qed.
Lemma found_member c : c ∈ members → ∃ i, binary_search members c = Some i ∧ members !! i = Some c.
Proof.
  intros [i Hi]%binary_search_elem. exists i. split; [done|]. by apply binary_search_some in Hi; [|apply members_distinct].
Qed.
Lemma closing_push seen ready i c : closing seen ready → members !! i = Some c → needed c → i ∉ ready →
  closing (<[i := true]> seen) (ready ++ [i]).
Proof.
  intros [Hl Hd Hi Hn] Hc Hneed Hni. split.
  - by rewrite length_insert.
  - apply NoDup_app. split_and!; [done|by intros j Hj ->%list_elem_of_singleton|apply NoDup_singleton].
  - intros j. rewrite elem_of_app, list_elem_of_singleton, <- Hi. destruct (decide (i = j)) as [->|Hij].
    + apply lookup_lt_Some in Hc. rewrite list_lookup_insert_eq by lia. tauto.
    + rewrite list_lookup_insert_ne by done. naive_solver.
  - intros j [Hj| ->%list_elem_of_singleton]%elem_of_app; [by apply Hn|by exists c].
Qed.
Lemma closing_short seen ready : closing seen ready → length ready ≤ length members.
Proof.
  intros [_ Hd _ Hn]. rewrite <- (length_seq (length members) 0). apply submseteq_length, NoDup_submseteq; [done|].
  intros i Hi. destruct (Hn i Hi) as (c & Hc%lookup_lt_Some & _). apply elem_of_seq. lia.
Qed.

Lemma seed_roots_ok roots : ∀ seen ready, (∀ r, r ∈ roots → r ∈ chosen) → NoDup roots → closing seen ready →
  (∀ i c, i ∈ ready → members !! i = Some c → c ∉ roots) →
  ∃ seen' ready', seed_roots members roots seen ready = Ok (seen', ready') ∧ closing seen' ready'
    ∧ ∀ i, i ∈ ready' ↔ i ∈ ready ∨ ∃ r, r ∈ roots ∧ members !! i = Some r.
Proof.
  induction roots as [|r roots IH]; intros seen ready Hin Hnd Hc Hfresh; cbn [seed_roots].
  { exists seen, ready. split_and!; [done..|]. intros i. split; [by left|]. by intros [?|(? & []%elem_of_nil & _)]. }
  apply NoDup_cons in Hnd as [Hr Hnd]. destruct (found_member r) as (i & -> & Hi); [apply Hchosen, Hin; by left|].
  destruct (IH (<[i := true]> seen) (ready ++ [i])) as (seen' & ready' & -> & Hc' & Hr').
  - intros r' ?. apply Hin. by right.
  - done.
  - apply (closing_push seen ready i r); [done|done| |].
    + exists r. split; [apply Hin; by left|done].
    + intros Hir. apply (Hfresh i r Hir Hi). by left.
  - intros j c [Hj| ->%list_elem_of_singleton]%elem_of_app Hjc.
    + intros Hcr. apply (Hfresh j c Hj Hjc). by right.
    + rewrite Hi in Hjc. by injection Hjc as <-.
  - exists seen', ready'. split_and!; [done..|]. intros j. rewrite Hr', elem_of_app, list_elem_of_singleton. setoid_rewrite elem_of_cons.
    split; [intros [[?| ->]|(r' & ? & ?)]; [by left|right; exists r; by split; [left|]|right; exists r'; by split; [right|]]|].
    intros [?|(r' & [->|?] & Hj)]; [by left; left| |right; by exists r'].
    left; right. eapply NoDup_lookup; [apply members_distinct|exact Hj|exact Hi].
Qed.

Lemma follow_ok l : ∀ seen ready, (∀ e, e ∈ l → e ∈ Selection.bindings s ∧ needed (ProviderBinding.consumer e)) → closing seen ready →
  ∃ seen' more, follow_bindings members l seen ready = Some (seen', ready ++ more) ∧ closing seen' (ready ++ more)
    ∧ ∀ e, e ∈ l → ∃ i, i ∈ ready ++ more ∧ members !! i = Some (ProviderBinding.provider e).
Proof.
  induction l as [|e l IH]; intros seen ready Hl Hc; cbn [follow_bindings].
  { exists seen, []. rewrite app_nil_r. split_and!; [done..|]. by intros e ?%elem_of_nil. }
  destruct (Hl e) as [He (r & Hr & Hre)]; [by left|]. destruct (locked_inside _ _ Hs) as [_ Hinside].
  destruct (Hinside (ProviderBinding.consumer e) (ProviderBinding.provider e)) as [_ Hp]; [by exists e|].
  destruct (found_member _ Hp) as (i & -> & Hi).
  assert (needed (ProviderBinding.provider e)) as Hneed by (exists r; split; [done|]; eapply rtc_r; [done|]; by exists e).
  assert (∀ e', e' ∈ l → e' ∈ Selection.bindings s ∧ needed (ProviderBinding.consumer e')) as Hl' by (intros; apply Hl; by right).
  destruct (seen !! i) as [[]|] eqn:Hseen; cbn [default id].
  1: { destruct (IH seen ready Hl' Hc) as (seen' & more & -> & Hc' & Hall). exists seen', more. split_and!; [done..|].
    intros e' [->|He']%elem_of_cons; [|by apply Hall]. exists i. split; [|done]. apply elem_of_app. left. by apply (closing_seen _ _ Hc). }
  all: assert (i ∉ ready) as Hni by (rewrite <- (closing_seen _ _ Hc), Hseen; done);
    destruct (IH (<[i := true]> seen) (ready ++ [i]) Hl') as (seen' & more & -> & Hc' & Hall); [by eapply closing_push|];
    exists seen', (i :: more); rewrite <- app_assoc in Hc', Hall |- *; split_and!; [done..|];
    intros e' [->|He']%elem_of_cons; [|by apply Hall]; exists i; (split; [|done]); apply elem_of_app; right; by left.
Qed.

(** Everything visited has been followed. *)
Definition followed (ready : list nat) (cursor : nat) : Prop := ∀ p i c d, p < cursor → ready !! p = Some i →
  members !! i = Some c → binds s c d → ∃ j, j ∈ ready ∧ members !! j = Some d.
Lemma close_roots_ok fuel : ∀ seen ready cursor, closing seen ready → followed ready cursor → length members ≤ fuel + cursor →
  ∃ seen' ready', close_roots fuel s seen ready cursor = Some seen' ∧ closing seen' ready' ∧ ready `prefix_of` ready'
    ∧ followed ready' (length ready').
Proof.
  induction fuel as [|fuel IH]; intros seen ready cursor Hc Hf Hfuel; cbn [close_roots];
    destruct (ready !! cursor) as [i|] eqn:Hi.
  2, 4: exists seen, ready; split_and!; [done..|]; apply lookup_ge_None in Hi; intros p j c d Hp; apply Hf; lia.
  { exfalso. apply lookup_lt_Some in Hi. pose proof (closing_short _ _ Hc). lia. }
  destruct (closing_needed _ _ Hc i) as (c & Hic & Hneed); [by eapply list_elem_of_lookup_2|]. rewrite Hic.
  destruct (follow_ok (bindings_of (Selection.bindings s) c) seen ready) as (seen' & more & -> & Hc' & Hall); [|done|].
  { intros e He. apply bindings_of_elem in He as [He <-]; [done|apply (locked_bindings _ _ Hs)]. }
  destruct (IH seen' (ready ++ more) (S cursor)) as (seen'' & ready' & Hrun & Hc'' & Hpre & Hf''); [done| |lia|].
  - intros p j c' d Hp Hj Hjc Hd. destruct (decide (p = cursor)) as [->|Hne].
    + rewrite (lookup_app_l_Some _ _ _ _ Hi) in Hj. injection Hj as <-. rewrite Hic in Hjc. injection Hjc as <-.
      destruct Hd as (e & He & Hec & <-). destruct (Hall e) as (k & Hk & Hkd); [|by exists k].
      apply bindings_of_elem; [apply (locked_bindings _ _ Hs)|done].
    + rewrite lookup_app_l in Hj by (apply lookup_lt_Some in Hi; lia).
      destruct (Hf p j c' d) as (k & Hk & Hkd); [lia|done..|]. exists k. split; [apply elem_of_app; by left|done].
  - exists seen'', ready'. split_and!; [done..| |done]. by eapply prefix_app_l.
Qed.

Lemma sorted_sublist {A} `{OrdLaws A} (l k : list A) : l `sublist_of` k → sorted k = true → sorted l = true.
Proof.
  rewrite !sorted_strongly. intros Hsub. induction Hsub as [|x l k Hsub IH|x l k Hsub IH]; intros Hk; [done|..];
    inversion Hk as [|? ? Hk' Hall]; subst; [|by apply IH]. constructor; [by apply IH|].
  rewrite Forall_forall in Hall |- *. intros y Hy. apply Hall. by eapply elem_of_submseteq; [|apply sublist_submseteq].
Qed.

Lemma keep_bindings_ok seen l : (∀ e, e ∈ l → ProviderBinding.consumer e ∈ members) →
  ∃ kept, keep_bindings members seen l = Some kept ∧ kept `sublist_of` l
    ∧ ∀ e, e ∈ kept ↔ e ∈ l ∧ ∃ i, members !! i = Some (ProviderBinding.consumer e) ∧ seen !! i = Some true.
Proof.
  induction l as [|e l IH]; intros Hl; cbn [keep_bindings].
  { exists []. split_and!; [done|constructor|]. intros e. split; [by intros ?%elem_of_nil|by intros [?%elem_of_nil _]]. }
  destruct IH as (kept & Hkept & Hsub & Hin); [intros; apply Hl; by right|].
  destruct (found_member (ProviderBinding.consumer e)) as (i & -> & Hi); [apply Hl; by left|]. rewrite Hkept. cbn [mbind option_bind].
  assert ((∃ j, members !! j = Some (ProviderBinding.consumer e) ∧ seen !! j = Some true) ↔ seen !! i = Some true) as He.
  { split; [|by exists i]. intros (j & Hj & Hseen). by rewrite (NoDup_lookup _ _ _ _ members_distinct Hi Hj). }
  destruct (seen !! i) as [[]|] eqn:Hseen; cbn [default id];
    (eexists; split; [done|]; split; [by constructor|]; intros e'; rewrite !elem_of_cons, ?Hin).
  - split; [intros [->|[? ?]]; (split; [|by try apply He]); [by left|by right]|].
    intros [[->|?] ?]; [by left|right; by split].
  - split; [intros [? ?]; split; [by right|done]|]. intros [[->|?] Hj]; [|by split]. by apply He in Hj.
  - split; [intros [? ?]; split; [by right|done]|]. intros [[->|?] Hj]; [|by split]. by apply He in Hj.
Qed.

Lemma kept_members seen : length seen = length members →
  (filter (λ p, p.2 = true) (zip members seen)).*1 `sublist_of` members
  ∧ ∀ c, c ∈ (filter (λ p, p.2 = true) (zip members seen)).*1 ↔ ∃ i, members !! i = Some c ∧ seen !! i = Some true.
Proof.
  intros Hlen. split.
  - rewrite <- (fst_zip members seen) at 2 by lia. apply fmap_sublist, sublist_filter.
  - intros c. rewrite list_elem_of_fmap. split.
    + intros ([c' b] & -> & [Hb Hin]%list_elem_of_filter). cbn in Hb. subst b.
      apply list_elem_of_lookup in Hin as [i Hi]. exists i. by apply lookup_zip_Some in Hi.
    + intros (i & Hi & Hseen). exists (c, true). split; [done|]. apply list_elem_of_filter. split; [done|].
      apply (list_elem_of_lookup_2 _ i), lookup_zip_Some. done.
Qed.

(** The part of the graph the chosen roots need. *)
Record closure_of (s' : Selection.t) : Prop := {
  closure_roots : Selection.roots s' = chosen;
  closure_members : Selection.contributions s' `sublist_of` members
    ∧ ∀ c, c ∈ Selection.contributions s' ↔ needed c;
  closure_bindings : Selection.bindings s' `sublist_of` Selection.bindings s
    ∧ ∀ e, e ∈ Selection.bindings s' ↔ e ∈ Selection.bindings s ∧ needed (ProviderBinding.consumer e)
}.
Lemma needed_binds c d : needed c → binds s c d → needed d.
Proof. intros (r & Hr & Hrc) Hcd. exists r. split; [done|]. by eapply rtc_r. Qed.

Lemma closure_well_locked s' : closure_of s' → well_locked s' max_chain.
Proof.
  intros [Hr [Hmsub Hm] [Hbsub Hb]].
  assert (∀ c d, binds s' c d ↔ binds s c d ∧ needed c) as Hbinds.
  { intros c d. split; [by intros (e & [He Hn]%Hb & <- & <-); split; [exists e|]|].
    intros [(e & He & <- & <-) Hn]. exists e. split; [by apply Hb|done]. }
  split.
  - by rewrite Hr.
  - eapply sorted_sublist; [done|apply (locked_members _ _ Hs)].
  - eapply sorted_sublist; [by apply fmap_sublist|apply (locked_bindings _ _ Hs)].
  - rewrite Hr. split; [intros r Hin; apply Hm; by exists r|]. intros c d [Hcd Hn]%Hbinds. rewrite !Hm. split; [done|by eapply needed_binds].
  - intros c Hc. apply (locked_acyclic _ _ Hs c). revert Hc. generalize c at 1 3. intros c'.
    induction 1 as [? ? [? _]%Hbinds|? ? ? [? _]%Hbinds _ IH]; [by constructor|by eapply tc_l].
  - intros c (r & Hin & Hrc)%Hm. assert (needed r) as Hn by (by exists r).
    assert (∀ k, provider_chain s' k r → ∃ k, provider_chain s' k c) as Hgo; [|apply (Hgo 1%N); constructor; by rewrite Hr].
    clear Hin. induction Hrc as [c|r d c Hrd _ IH]; intros k Hk; [by exists k|].
    apply (IH (needed_binds _ _ Hn Hrd) (k + 1)%N). econstructor; [done|]. by apply Hbinds.
  - intros k c Hk. assert (∃ k', (k ≤ k')%N ∧ provider_chain s k' c) as (k' & ? & Hk'); [|pose proof (locked_depth _ _ Hs k' c Hk'); lia].
    induction Hk as [r Hin|k c d _ (k' & Hle & Hk') [Hcd _]%Hbinds].
    + rewrite Hr in Hin. destruct (locked_reached _ _ Hs r) as [k Hk]; [by apply Hchosen|]. exists k. split; [|done].
      destruct Hk; lia.
    + exists (k' + 1)%N. split; [lia|by econstructor].
Qed.

Lemma followed_closed seen ready : closing seen ready → followed ready (length ready) →
  (∀ r, r ∈ chosen → ∃ i, i ∈ ready ∧ members !! i = Some r) →
  ∀ c, (∃ i, members !! i = Some c ∧ seen !! i = Some true) ↔ needed c.
Proof.
  intros Hc Hf Hroots c. split.
  - intros (i & Hi & Hin%(closing_seen _ _ Hc)). destruct (closing_needed _ _ Hc i Hin) as (c' & Hc' & Hn).
    rewrite Hi in Hc'. by injection Hc' as <-.
  - intros (r & Hr & Hrc). destruct (Hroots r Hr) as (i & Hi & Hir). clear Hr. revert i Hi Hir.
    induction Hrc as [c|r d c Hrd _ IH]; intros i Hi Hir; [exists i; split; [done|by apply (closing_seen _ _ Hc)]|].
    pose proof Hi as [p Hp]%list_elem_of_lookup. destruct (Hf p i r d) as (j & Hj & Hjd); [by apply lookup_lt_Some in Hp|done..|].
    by apply (IH j).
Qed.
Lemma extraction_ends : ∃ seen ready seen' kept,
  seed_roots members chosen (replicate (length members) false) [] = Ok (seen, ready)
  ∧ close_roots (length members) s seen ready 0 = Some seen' ∧ keep_bindings members seen' (Selection.bindings s) = Some kept
  ∧ closure_of (Selection.mk chosen (filter (λ p, p.2 = true) (zip members seen')).*1 kept).
Proof.
  destruct (seed_roots_ok chosen (replicate (length members) false) [])
    as (seen & ready & Hseed & Hc & Hready); [done|by apply sorted_NoDup| |by intros i c ?%elem_of_nil|].
  { split; [apply length_replicate|constructor| |by intros i ?%elem_of_nil]. intros i. rewrite elem_of_nil. split; [|done].
    by intros [? _]%lookup_replicate. }
  destruct (close_roots_ok (length members) seen ready 0)
    as (seen' & ready' & Hclose & Hc' & Hpre & Hf); [done|by intros ? ? ? ? ?%Nat.nlt_0_r|lia|].
  destruct (keep_bindings_ok seen' (Selection.bindings s)) as (kept & Hkeep & Hsub & Hkept).
  { intros e He. destruct (locked_inside _ _ Hs) as [_ Hin]. apply (Hin _ (ProviderBinding.provider e)). by exists e. }
  destruct (kept_members seen' (closing_length _ _ Hc')) as [Hmsub Hm].
  exists seen, ready, seen', kept. split_and!; [done..|].
  assert (∀ r, r ∈ chosen → ∃ i, i ∈ ready' ∧ members !! i = Some r) as Hr'.
  { intros r Hr. destruct (found_member r) as (i & _ & Hi); [by apply Hchosen|]. exists i. split; [|done].
    eapply elem_of_prefix; [|exact Hpre]. apply Hready. right. by exists r. }
  pose proof (followed_closed seen' ready' Hc' Hf Hr') as Hneeded. split; [done|split; [done|]..].
  - intros c. cbn [Selection.contributions]. rewrite Hm. by apply Hneeded.
  - intros e. cbn [Selection.bindings]. rewrite Hkept, Hneeded. done.
Qed.
End closure.

(** An extraction is the closure of its roots. For roots of a lock that
    validates, in order and within the bound, the search ends without a missing
    endpoint: what is encoded and answered is exactly the contributions the roots
    need through any chain of bindings, with the bindings that leave them, and it
    is a lock again. It can be refused only because its roots are too many for the
    bound on work, or by the codec. *)
Theorem for_roots_exact lock roots limits (Hlock : lock_validate lock limits = Some (Ok ()))
    (Hroots : ∀ r, r ∈ roots → r ∈ Selection.contributions (SelectionLock.selection lock))
    (Hsorted : sorted roots = true) (Hlen : (lenN roots ≤ LockLimits.items limits)%N) :
  ∃ s r, closure_of (SelectionLock.selection lock) roots s
    ∧ well_locked s (N.min (LockLimits.dependency_depth limits) 64)
    ∧ for_roots lock roots limits = Some r
    ∧ ∀ extracted, r = Ok extracted ↔
        (3 * (lenN (Selection.contributions s) + lenN (Selection.bindings s)) + lenN roots ≤ N.min (LockLimits.work limits) usize_max)%N
        ∧ SelectionLock.selection extracted = s ∧ encoded_length s limits = Ok (SelectionLock.canonical_bytes extracted).
Proof.
  pose proof (validated_ok _ _ Hlock) as [_ Hentries _ Hs]. unfold for_roots. rewrite Hlock. cbn [mbind outcome_bind].
  rewrite (proj2 (N.ltb_ge _ _)), Hsorted by done. cbn [negb]. set (s := SelectionLock.selection lock) in *.
  set (d := N.min (LockLimits.dependency_depth limits) 64) in *.
  destruct (extraction_ends s d Hs roots Hroots Hsorted) as (seen & ready & seen' & kept & -> & Hclose & Hkeep & Hclosure).
  cbn [mbind outcome_bind answer]. rewrite Hclose, Hkeep. pose proof Hclosure as [_ [Hmsub _] [Hsub _]].
  cbn [Selection.contributions Selection.bindings] in Hmsub, Hsub. set (kept_m := (filter _ (zip _ _)).*1) in *.
  pose proof (closure_well_locked s d Hs roots Hroots Hsorted _ Hclosure) as Hwell.
  destruct (lock_new_ok (Selection.mk roots kept_m kept) limits) as (r & Hr & Hok). exists (Selection.mk roots kept_m kept), r.
  split_and!; [done..|]. intros extracted. rewrite Hok. cbn [Selection.contributions Selection.bindings].
  apply sublist_length in Hsub, Hmsub. split; [intros ([_ _ Hwork _] & ? & ?); by split_and!|].
  intros (Hwork & ? & ?). split_and!; [|done..].
  split; cbn [SelectionLock.selection SelectionLock.canonical_bytes Selection.roots Selection.contributions Selection.bindings]; [lia| |done|done].
  unfold lenN in *. lia.
Qed.
End specification.

(** ** Two planets, one table of constants *)
Module ComposeSample.
(** A hundred bytes for every contribution and binding. *)
#[local] Instance roomy : LockCodec := λ s limits,
  let n := (100 * (lenN (Selection.contributions s) + lenN (Selection.bindings s)))%N in
  if (LockLimits.bytes limits <? n)%N then Err (limit_error "bytes") else Ok n.

Definition contribution (name : string) : ContributionRef.t :=
  ContributionRef.mk (PluginReleaseId.mk (bytes_of "r")) (ExtensionPointId.mk "model/v1") (LocalContributionId.mk name).
Definition uses (consumer provider : string) : ProviderBinding.t :=
  ProviderBinding.mk (RequirementKey.mk (contribution consumer) (LocalContributionId.mk "table")) (contribution provider).
Definition graph (roots members : list string) (bindings : list ProviderBinding.t) : SelectionLock.t :=
  SelectionLock.mk (Selection.mk (contribution <$> roots) (contribution <$> members) bindings) 300.
Definition earth : SelectionLock.t := graph ["earth"] ["constants"; "earth"] [uses "earth" "constants"].
Definition mars : SelectionLock.t := graph ["mars"] ["constants"; "mars"; "units"] [uses "constants" "units"; uses "mars" "constants"].
Definition venus : SelectionLock.t := graph ["venus"] ["constants"; "venus"] [uses "venus" "constants"].
Definition inner : SelectionLock.t := SelectionLock.mk (SelectionLock.selection (graph ["earth"; "venus"] ["constants"; "earth"; "venus"]
  [uses "earth" "constants"; uses "venus" "constants"])) 500.

Lemma lock_merge_exact_witness :
  lock_merge earth venus LockLimits.DEFAULT = Some (Ok inner)
  ∧ agree (SelectionLock.selection earth) (SelectionLock.selection venus)
  ∧ ¬ agree (SelectionLock.selection earth) (SelectionLock.selection mars).
Proof.
  assert (lock_merge earth venus LockLimits.DEFAULT = Some (Ok inner)) as Hmerge by (vm_compute; reflexivity).
  split; [exact Hmerge|]. split.
  - destruct (lock_merge_exact earth venus LockLimits.DEFAULT) as (r & Hr & _ & Hok); [vm_compute; reflexivity..|].
    rewrite Hmerge in Hr. injection Hr as <-. apply (Hok inner). reflexivity.
  - destruct (lock_merge_exact earth mars LockLimits.DEFAULT) as (r & Hr & Hconflict & _); [vm_compute; reflexivity..|].
    apply Hconflict. vm_compute in Hr. injection Hr as <-. eexists. reflexivity.
Defined.

Lemma for_roots_exact_witness : ∃ s,
  closure_of (SelectionLock.selection mars) [contribution "constants"] s
  ∧ for_roots mars [contribution "constants"] LockLimits.DEFAULT = Some (Ok (SelectionLock.mk s 300)).
Proof.
  destruct (for_roots_exact mars [contribution "constants"] LockLimits.DEFAULT) as (s & r & Hc & _ & Hr & Hok).
  - vm_compute. reflexivity.
  - intros r ->%list_elem_of_singleton. apply (bool_decide_unpack (contribution "constants" ∈ Selection.contributions (SelectionLock.selection mars))).
    vm_compute. exact I.
  - vm_compute. reflexivity.
  - vm_compute. discriminate.
  - exists s. split; [exact Hc|]. rewrite Hr. f_equal. vm_compute in Hr. injection Hr as <-.
    destruct (proj1 (Hok _) eq_refl) as (_ & Hs & _). cbn in Hs. rewrite <- Hs. reflexivity.
Defined.
End ComposeSample.
