(* ===== verification/Equality.v ===== *)
(** * Derived equality of what a request carries (kagami-document, kagami-catalog)

    [#[derive(PartialEq)]] compares field by field, and numbers with IEEE [==]:
    the two zeros are equal and a NaN differs from itself. Types without numbers
    compare as they are. *)

From stdpp Require Import base gmap strings list.
From S2P Require Import Prelude Identity Binary64 Quantity Namespace PluginIds Lock Schema Geometry Document Experiment.

Class PartialEq (A : Type) : Type := partial_eq : A → A → bool.
#[export] Hint Mode PartialEq ! : typeclass_instances.
Declare Scope partial_eq_scope.
Delimit Scope partial_eq_scope with partial_eq.
Infix "==" := partial_eq (at level 70, no associativity) : partial_eq_scope.
#[local] Open Scope partial_eq_scope.

(** [Eq]: equality of the values themselves. *)
Definition structural {A} `{EqDecision A} : PartialEq A := λ a b, bool_decide (a = b).

#[export] Instance f64_partial_eq : PartialEq f64 := F64.eqb.
#[export] Instance bool_partial_eq : PartialEq bool := structural.
#[export] Instance N_partial_eq : PartialEq N := structural.
#[export] Instance string_partial_eq : PartialEq string := structural.
#[export] Instance prod_partial_eq `{PartialEq A, PartialEq B} : PartialEq (A * B) := λ a b, (a.1 == b.1) && (a.2 == b.2).
#[export] Instance option_partial_eq `{PartialEq A} : PartialEq (option A) := λ a b,
  match a, b with Some a, Some b => a == b | None, None => true | _, _ => false end.
Fixpoint list_eq_by {A} (f : A → A → bool) (l k : list A) : bool :=
  match l, k with
  | [], [] => true
  | a :: l, b :: k => f a b && list_eq_by f l k
  | _, _ => false
  end.
#[export] Instance list_partial_eq `{PartialEq A} : PartialEq (list A) := list_eq_by partial_eq.
(** Maps compare as their entries in key order. *)
#[export] Instance map_partial_eq `{Countable K, Ord K} {V} `{PartialEq V} : PartialEq (gmap K V) := λ a b,
  list_eq_by (λ x y, bool_decide (x.1 = y.1) && (x.2 == y.2)) (btree_entries a) (btree_entries b).

(** ** Identifiers and other types without numbers *)
#[export] Instance ObjectId_partial_eq : PartialEq ObjectId.t := structural.
#[export] Instance VariableId_partial_eq : PartialEq VariableId.t := structural.
#[export] Instance ExperimentRevision_partial_eq : PartialEq ExperimentRevision.t := structural.
#[export] Instance Counters_partial_eq : PartialEq Counters.t := structural.
#[export] Instance DisplayName_partial_eq : PartialEq DisplayName.t := structural.
#[export] Instance Name_partial_eq : PartialEq Name.t := structural.
#[export] Instance PropertyName_partial_eq : PartialEq PropertyName.t := structural.
#[export] Instance PluginId_partial_eq : PartialEq PluginId.t := structural.
#[export] Instance ComponentTypeId_partial_eq : PartialEq ComponentTypeId.t := structural.
#[export] Instance Dimension_partial_eq : PartialEq Dimension.t := structural.
#[export] Instance TemplateProvenance_partial_eq : PartialEq TemplateProvenance.t := structural.
#[export] Instance Variable_partial_eq : PartialEq Variable_.t := structural.
#[export] Instance VariableSpec_partial_eq : PartialEq VariableSpec.t := structural.
#[export] Instance SelectionLock_partial_eq : PartialEq SelectionLock.t := structural.
#[export] Instance PluginComposition_partial_eq : PartialEq PluginComposition.t := structural.

(** ** Placement and values *)
#[export] Instance Vector3_partial_eq : PartialEq Vector3.t := λ a b,
  (Vector3.x a == Vector3.x b) && (Vector3.y a == Vector3.y b) && (Vector3.z a == Vector3.z b).
#[export] Instance Rotation_partial_eq : PartialEq Rotation.t := λ a b,
  (Rotation.x a == Rotation.x b) && (Rotation.y a == Rotation.y b) && (Rotation.z a == Rotation.z b)
  && (Rotation.w a == Rotation.w b).
#[export] Instance Transform_partial_eq : PartialEq Transform.t := λ a b,
  (Transform.translation a == Transform.translation b) && (Transform.rotation a == Transform.rotation b).
#[export] Instance Velocity_partial_eq : PartialEq Velocity.t := λ a b,
  (Velocity.linear a == Velocity.linear b) && (Velocity.angular a == Velocity.angular b).
#[export] Instance ObjectShape_partial_eq : PartialEq ObjectShape.t := λ a b,
  match a, b with
  | ObjectShape.Sphere r, ObjectShape.Sphere r' => r == r'
  | ObjectShape.Box h, ObjectShape.Box h' => h == h'
  | _, _ => false
  end.
#[export] Instance Unit_partial_eq : PartialEq Unit.t := λ a b,
  (Unit.symbol a == Unit.symbol b) && (Unit.dimension a == Unit.dimension b) && (Unit.si_factor a == Unit.si_factor b).
#[export] Instance AuthoredValue_partial_eq : PartialEq AuthoredValue.t := λ a b,
  match a, b with
  | AuthoredValue.Quantity e u, AuthoredValue.Quantity e' u' => (e == e') && (u == u')
  | AuthoredValue.Boolean v, AuthoredValue.Boolean v' => v == v'
  | AuthoredValue.Text v, AuthoredValue.Text v' => v == v'
  | _, _ => false
  end.
#[export] Instance PropertyValue_partial_eq : PartialEq PropertyValue.t := λ a b,
  match a, b with
  | PropertyValue.Quantity s u x d, PropertyValue.Quantity s' u' x' d' => (s == s') && (u == u') && (x == x') && (d == d')
  | PropertyValue.Boolean v, PropertyValue.Boolean v' => v == v'
  | PropertyValue.Text v, PropertyValue.Text v' => v == v'
  | PropertyValue.Unresolved s u, PropertyValue.Unresolved s' u' => (s == s') && (u == u')
  | _, _ => false
  end.
#[export] Instance ObjectComponent_partial_eq : PartialEq ObjectComponent.t := λ a b,
  (ObjectComponent.schema_version a == ObjectComponent.schema_version b)
  && (ObjectComponent.properties a == ObjectComponent.properties b).
#[export] Instance Object_partial_eq : PartialEq Object_.t := λ a b,
  (Object_.name a == Object_.name b) && (Object_.transform a == Object_.transform b) && (Object_.velocity a == Object_.velocity b)
  && (Object_.shape a == Object_.shape b) && (Object_.components a == Object_.components b)
  && (Object_.provenance a == Object_.provenance b).
#[export] Instance ObjectSpec_partial_eq : PartialEq ObjectSpec.t := λ a b,
  (ObjectSpec.name a == ObjectSpec.name b) && (ObjectSpec.transform a == ObjectSpec.transform b)
  && (ObjectSpec.velocity a == ObjectSpec.velocity b) && (ObjectSpec.shape a == ObjectSpec.shape b)
  && (ObjectSpec.components a == ObjectSpec.components b) && (ObjectSpec.provenance a == ObjectSpec.provenance b).

(** ** The setup, the contents and the commands *)
#[export] Instance Domain_partial_eq : PartialEq Domain.t := λ a b,
  (Domain.lower a == Domain.lower b) && (Domain.upper a == Domain.upper b)
  && bool_decide (Domain.cells a = Domain.cells b) && bool_decide (Domain.boundary a = Domain.boundary b).
#[export] Instance TimeStep_partial_eq : PartialEq TimeStep.t := λ a b, TimeStep.seconds a == TimeStep.seconds b.
#[export] Instance LegacySetup_partial_eq : PartialEq LegacySetup.t := λ a b,
  (LegacySetup.domain a == LegacySetup.domain b) && (LegacySetup.time_step a == LegacySetup.time_step b)
  && (LegacySetup.plugins a == LegacySetup.plugins b).

(** A captured setup compares as its own derived equality does. *)
Class ScientificEq `{Scientific} : Type := scientific_eq : ScientificSetup → ScientificSetup → bool.

Section scientific.
Context `{ScientificEq}.
#[export] Instance Setup_partial_eq : PartialEq Setup.t := λ a b,
  match a, b with
  | Setup.Legacy v, Setup.Legacy v' => v == v'
  | Setup.Captured v, Setup.Captured v' => scientific_eq v v'
  | _, _ => false
  end.
#[export] Instance ExperimentState_partial_eq : PartialEq ExperimentState.t := λ a b,
  (ExperimentState.revision a == ExperimentState.revision b) && (ExperimentState.objects a == ExperimentState.objects b)
  && (ExperimentState.variables a == ExperimentState.variables b) && (ExperimentState.setup a == ExperimentState.setup b)
  && (ExperimentState.dependencies a == ExperimentState.dependencies b).
#[export] Instance Experiment_partial_eq : PartialEq Experiment.t := λ a b,
  (Experiment.state a == Experiment.state b) && (Experiment.counters a == Experiment.counters b).

#[export] Instance ExperimentCommand_partial_eq : PartialEq ExperimentCommand.t := λ a b,
  match a, b with
  | ExperimentCommand.AdoptDependencies l, ExperimentCommand.AdoptDependencies l' => l == l'
  | ExperimentCommand.AdoptScientificSetup s, ExperimentCommand.AdoptScientificSetup s' => scientific_eq s s'
  | ExperimentCommand.CreateObject s, ExperimentCommand.CreateObject s' => s == s'
  | ExperimentCommand.RemoveObject o, ExperimentCommand.RemoveObject o' => o == o'
  | ExperimentCommand.RenameObject o n, ExperimentCommand.RenameObject o' n' => (o == o') && (n == n')
  | ExperimentCommand.SetTransform o x, ExperimentCommand.SetTransform o' x' => (o == o') && (x == x')
  | ExperimentCommand.SetVelocity o x, ExperimentCommand.SetVelocity o' x' => (o == o') && (x == x')
  | ExperimentCommand.SetShape o x, ExperimentCommand.SetShape o' x' => (o == o') && (x == x')
  | ExperimentCommand.AttachComponent o c p, ExperimentCommand.AttachComponent o' c' p' => (o == o') && (c == c') && (p == p')
  | ExperimentCommand.DetachComponent o c, ExperimentCommand.DetachComponent o' c' => (o == o') && (c == c')
  | ExperimentCommand.SetComponentProperty o c p v, ExperimentCommand.SetComponentProperty o' c' p' v' =>
    (o == o') && (c == c') && (p == p') && (v == v')
  | ExperimentCommand.DefineVariable s, ExperimentCommand.DefineVariable s' => s == s'
  | ExperimentCommand.SetVariableExpression x e, ExperimentCommand.SetVariableExpression x' e' => (x == x') && (e == e')
  | ExperimentCommand.RenameVariable x n, ExperimentCommand.RenameVariable x' n' => (x == x') && (n == n')
  | ExperimentCommand.RemoveVariable x, ExperimentCommand.RemoveVariable x' => x == x'
  | ExperimentCommand.SetVariableDescription x d, ExperimentCommand.SetVariableDescription x' d' => (x == x') && (d == d')
  | ExperimentCommand.SetDomain d, ExperimentCommand.SetDomain d' => d == d'
  | ExperimentCommand.SetTimeStep t, ExperimentCommand.SetTimeStep t' => t == t'
  | ExperimentCommand.SetPluginEnabled p e, ExperimentCommand.SetPluginEnabled p' e' => (p == p') && (e == e')
  | _, _ => false
  end.
End scientific.
