(* ===== verification/Session.v ===== *)
(** * What a document's clients say and hear (kagami-session: identity.rs,
    command.rs, outcome.rs, view.rs, workspace.rs, instantiation.rs)

    Bounded identities, commands with their guards, changes and events, refusals,
    the mode of a window, and the batch a catalog template becomes. *)

From stdpp Require Import base gmap strings list pretty.
From S2P Require Import Prelude Identity Action Binary64 Quantity Expression Namespace PluginIds Lock Schema Geometry Document Experiment Validate Edit History Compose Equality Store.
#[local] Open Scope partial_eq_scope.

(** ** Identities (identity.rs) *)
Definition MAX_IDENTITY_BYTES : N := 128.
Module SessionIdentityError.
Inductive t : Type := Empty | TooLong (found limit : N).
#[global] Instance SessionIdentityError_eq_dec : EqDecision t.
Proof. solve_decision. Defined.
End SessionIdentityError.
Definition bounded_identity (value : string) : result SessionIdentityError.t string :=
  if bool_decide (value = "") then Err SessionIdentityError.Empty
  else if (MAX_IDENTITY_BYTES <? str_len value)%N
  then Err (SessionIdentityError.TooLong (str_len value) MAX_IDENTITY_BYTES)
  else Ok value.
Module CommandId.
Record t : Type := mk { as_str : string }.
#[global] Instance CommandId_eq_dec : EqDecision t.
Proof. solve_decision. Defined.
Definition new (value : string) : result SessionIdentityError.t t := value ← bounded_identity value; Ok (mk value).
End CommandId.
Module ActorId.
Record t : Type := mk { as_str : string }.
#[global] Instance ActorId_eq_dec : EqDecision t.
Proof. solve_decision. Defined.
Definition new (value : string) : result SessionIdentityError.t t := value ← bounded_identity value; Ok (mk value).
End ActorId.
Module RunLabel.
Record t : Type := mk { as_str : string }.
#[global] Instance RunLabel_eq_dec : EqDecision t.
Proof. solve_decision. Defined.
Definition new (value : string) : result SessionIdentityError.t t := value ← bounded_identity value; Ok (mk value).
End RunLabel.
#[export] Instance CommandId_partial_eq : PartialEq CommandId.t := structural.
#[export] Instance ActorId_partial_eq : PartialEq ActorId.t := structural.
#[export] Instance GestureId_partial_eq : PartialEq GestureId.t := structural.
#[export] Instance DocumentTarget_partial_eq : PartialEq DocumentTarget.t := structural.

(** ** The catalog

    Templates are read from one immutable snapshot. [materialize] (kagami-catalog,
    materialize.rs) resolves one of them; it is a parameter. *)
Module TemplateIdentity.
Record t : Type := new { catalog : Name.t; template : Name.t }.
#[global] Instance TemplateIdentity_eq_dec : EqDecision t.
Proof. solve_decision. Defined.
End TemplateIdentity.
Module ParameterName.
Record t : Type := mk { as_name : Name.t }.
#[global] Instance ParameterName_eq_dec : EqDecision t.
Proof. solve_decision. Defined.
Definition as_str (p : t) : string := Name.as_str (as_name p).
Definition of_str (s : string) : t := mk (Name.mk s).
#[global] Instance ParameterName_countable : Countable t.
Proof. refine (inj_countable' as_str of_str _); by intros [[]]. Defined.
#[global] Instance ParameterName_ord : Ord t := λ a b, cmp (as_str a) (as_str b).
End ParameterName.
#[export] Instance TemplateIdentity_partial_eq : PartialEq TemplateIdentity.t := structural.
(** The digest of a template's canonical content. *)
Abbreviation ContentFingerprint := bytes.
#[export] Instance fingerprint_partial_eq : PartialEq bytes := structural.

#[export] Instance Name_countable : Countable Name.t.
Proof. refine (inj_countable' Name.as_str Name.mk _); by intros []. Defined.
#[export] Instance Name_ord : Ord Name.t := λ a b, cmp (Name.as_str a) (Name.as_str b).
#[export] Instance Name_ord_laws : OrdLaws Name.t.
Proof. eapply (ord_laws_inj Name.as_str); [intros [] []; cbn; by intros ->|done]. Qed.

Module InstantiationRequest.
Record t : Type := mk {
  identity : TemplateIdentity.t;
  expected_fingerprint : option ContentFingerprint;
  bindings : gmap ParameterName.t string;
  object_scope : Namespace.t;
  document_values : gmap string f64
}.
End InstantiationRequest.
Module ObjectPropertyValue.
Inductive t : Type :=
  | Quantity (source : string) (si_value : f64) (dimension : Dimension.t)
  | Boolean (value : bool)
  | Text (value : string).
End ObjectPropertyValue.
(** A materialised component, and an object ready to be committed. Where a copied
    definition came from is display only and left out. *)
Module CandidateComponent.
Record t : Type := mk {
  type_id : ComponentTypeId.t;
  local_name : ComponentName.t;
  schema_version : N;
  properties : gmap PropertyName.t ObjectPropertyValue.t
}.
End CandidateComponent.
Module ObjectDefinition.
Record t : Type := mk { source : string; si_value : f64 }.
End ObjectDefinition.
Module ObjectCandidate.
Record t : Type := mk {
  dependencies : option SelectionLock.t;
  provenance : TemplateProvenance.t;
  scope : Namespace.t;
  definitions : gmap Name.t ObjectDefinition.t;
  components : list CandidateComponent.t
}.
End ObjectCandidate.
Class Catalog : Type := {
  CatalogSet : Type;
  InstantiationError : Type;
  materialize : CatalogSet → SchemaRegistry.t → InstantiationRequest.t → result InstantiationError ObjectCandidate.t
}.

(** ** Commands (command.rs) *)
Module InstantiationSpec.
Record t : Type := mk {
  template : TemplateIdentity.t;
  expected_fingerprint : option ContentFingerprint;
  bindings : gmap ParameterName.t string;
  name : DisplayName.t;
  transform : Transform.t;
  velocity : Velocity.t
}.
Definition new (template : TemplateIdentity.t) (name : DisplayName.t) : t :=
  mk template None ∅ name Transform.IDENTITY Velocity.ZERO.
Definition expecting (fingerprint : ContentFingerprint) (s : t) : t :=
  mk (template s) (Some fingerprint) (bindings s) (name s) (transform s) (velocity s).
Definition binding (parameter : ParameterName.t) (expression : string) (s : t) : t :=
  mk (template s) (expected_fingerprint s) (<[parameter := expression]> (bindings s)) (name s) (transform s) (velocity s).
Definition at_ (transform : Transform.t) (s : t) : t :=
  mk (template s) (expected_fingerprint s) (bindings s) (name s) transform (velocity s).
Definition moving (velocity : Velocity.t) (s : t) : t :=
  mk (template s) (expected_fingerprint s) (bindings s) (name s) (transform s) velocity.
#[global] Instance InstantiationSpec_partial_eq : PartialEq t := λ a b,
  (template a == template b) && (expected_fingerprint a == expected_fingerprint b) && (bindings a == bindings b)
  && (name a == name b) && (transform a == transform b) && (velocity a == velocity b).
End InstantiationSpec.

Module SessionCommand.
Section command.
Context `{Scientific}.
Inductive t : Type :=
  | Edit (commands : list ExperimentCommand.t)
  | Undo
  | Redo
  | BeginInteractiveEdit
  | New (discard_unsaved : bool)
  | Open (experiment : Experiment.t) (target : option DocumentTarget.t) (discard_unsaved : bool)
  | InstantiateObjectTemplate (spec : InstantiationSpec.t)
  | EndInteractiveEdit.
Definition kind (c : t) : string :=
  match c with
  | Edit _ => "edit"
  | Undo => "undo"
  | Redo => "redo"
  | BeginInteractiveEdit => "begin_interactive_edit"
  | EndInteractiveEdit => "end_interactive_edit"
  | New _ => "new"
  | Open _ _ _ => "open"
  | InstantiateObjectTemplate _ => "instantiate_object_template"
  end.
Definition changes_contents (c : t) : bool :=
  match c with
  | Edit _ | Undo | Redo | New _ | Open _ _ _ | InstantiateObjectTemplate _ => true
  | BeginInteractiveEdit | EndInteractiveEdit => false
  end.
Definition replaces_document (c : t) : bool := match c with New _ | Open _ _ _ => true | _ => false end.
#[global] Instance SessionCommand_partial_eq `{!ScientificEq} : PartialEq t := λ a b,
  match a, b with
  | Edit l, Edit l' => l == l'
  | Undo, Undo | Redo, Redo | BeginInteractiveEdit, BeginInteractiveEdit | EndInteractiveEdit, EndInteractiveEdit => true
  | New d, New d' => d == d'
  | Open e t d, Open e' t' d' => (e == e') && (t == t') && (d == d')
  | InstantiateObjectTemplate s, InstantiateObjectTemplate s' => s == s'
  | _, _ => false
  end.
End command.
End SessionCommand.

Module ExperimentCommandEnvelope.
Section envelope.
Context `{Scientific}.
Record t : Type := mk {
  command_id : CommandId.t;
  actor : ActorId.t;
  expected_revision : option ExperimentRevision.t;
  gesture : option GestureId.t;
  command : SessionCommand.t
}.
Definition new (command_id : CommandId.t) (actor : ActorId.t) (command : SessionCommand.t) : t :=
  mk command_id actor None None command.
Definition guarded_by (revision : ExperimentRevision.t) (e : t) : t :=
  mk (command_id e) (actor e) (Some revision) (gesture e) (command e).
Definition within (gesture : GestureId.t) (e : t) : t :=
  mk (command_id e) (actor e) (expected_revision e) (Some gesture) (command e).
#[global] Instance Envelope_partial_eq `{!ScientificEq} : PartialEq t := λ a b,
  (command_id a == command_id b) && (actor a == actor b) && (expected_revision a == expected_revision b)
  && (gesture a == gesture b) && (command a == command b).
End envelope.
End ExperimentCommandEnvelope.

(** ** Outcomes (outcome.rs) *)
Module EventSeq.
Record t : Type := mk { get : N }.
#[global] Instance EventSeq_eq_dec : EqDecision t.
Proof. solve_decision. Defined.
Definition INITIAL : t := mk 0.
Definition next (s : t) : t := mk (next_u64 (get s)).
End EventSeq.
Module ExperimentChange.
Inductive t : Type :=
  | Edited (report : CommitReport.t)
  | Undone (label : string)
  | Redone (label : string)
  | GestureOpened (gesture : GestureId.t)
  | GestureClosed (gesture : GestureId.t) (implicit : bool)
  | Replaced (opened : bool)
  | CapabilityChanged (before after : CapabilitySummary.t).
Definition kind (c : t) : string :=
  match c with
  | Edited _ => "edited"
  | Undone _ => "undone"
  | Redone _ => "redone"
  | GestureOpened _ => "gesture_opened"
  | GestureClosed _ _ => "gesture_closed"
  | Replaced _ => "replaced"
  | CapabilityChanged _ _ => "capability_changed"
  end.
Definition label (c : t) : string :=
  match c with
  | Edited report => CommitReport.label report
  | Undone label | Redone label => label
  | GestureOpened _ => "Begin interactive edit"
  | GestureClosed _ _ => "End interactive edit"
  | Replaced true => "Open experiment"
  | Replaced false => "New experiment"
  | CapabilityChanged _ _ => "Installed physics changed"
  end.
End ExperimentChange.
Module Acceptance.
Record t : Type := mk {
  command_id : CommandId.t;
  revision : ExperimentRevision.t;
  change : ExperimentChange.t;
  event : EventSeq.t;
  replayed : bool
}.
Definition set_replayed (replayed : bool) (a : t) : t := mk (command_id a) (revision a) (change a) (event a) replayed.
End Acceptance.
Module ExperimentEvent.
Record t : Type := mk {
  seq : EventSeq.t;
  revision : ExperimentRevision.t;
  command_id : option CommandId.t;
  actor : ActorId.t;
  change : ExperimentChange.t
}.
End ExperimentEvent.

Module SessionRejection.
Section rejection.
Context `{Catalog}.
Inductive t : Type :=
  | RevisionConflict (expected current : ExperimentRevision.t)
  | CommandIdentityConflict (command_id : CommandId.t)
  | UnsavedChanges
  | NoCatalogLoaded
  | InstantiationLimit (resource : string) (found limit : N)
  | Instantiation (error : InstantiationError)
  | GestureNotOpen (gesture : GestureId.t)
  | NoGestureOpen
  | EmptyBatch
  | NotPreflightable (kind : string)
  | NothingToUndo
  | NothingToRedo
  | Document (rejection : Rejection.t).
Definition code (r : t) : string :=
  match r with
  | RevisionConflict _ _ => "revision_conflict"
  | CommandIdentityConflict _ => "command_identity_conflict"
  | UnsavedChanges => "unsaved_changes"
  | NoCatalogLoaded => "no_catalog_loaded"
  | InstantiationLimit _ _ _ => "instantiation_limit_exceeded"
  | Instantiation _ => "instantiation_refused"
  | GestureNotOpen _ => "gesture_not_open"
  | NoGestureOpen => "no_gesture_open"
  | EmptyBatch => "empty_batch"
  | NotPreflightable _ => "not_preflightable"
  | NothingToUndo => "nothing_to_undo"
  | NothingToRedo => "nothing_to_redo"
  | Document rejection => Rejection.code rejection
  end.
End rejection.
End SessionRejection.

(** ** Views (view.rs) *)
Module HistoryStatus.
Record t : Type := mk { undo : option string; redo : option string; depth : N; capacity : N }.
Definition can_undo (s : t) : bool := bool_decide (is_Some (undo s)).
Definition can_redo (s : t) : bool := bool_decide (is_Some (redo s)).
End HistoryStatus.
Module SessionView.
Section view.
Context `{Scientific}.
Record t : Type := mk {
  experiment : ExperimentState.t;
  capabilities : CapabilityReport.t;
  history : HistoryStatus.t;
  dirty : bool;
  target : option DocumentTarget.t;
  open_gesture : option GestureId.t;
  last_event : EventSeq.t
}.
End view.
End SessionView.

(** ** The mode of a window (workspace.rs) *)
Module RunOrigin.
Inductive t : Type := LocalPreview | Remote.
#[global] Instance RunOrigin_eq_dec : EqDecision t.
Proof. solve_decision. Defined.
End RunOrigin.
Module RunAttachment.
Record t : Type := mk { origin : RunOrigin.t; run : RunLabel.t }.
#[global] Instance RunAttachment_eq_dec : EqDecision t.
Proof. solve_decision. Defined.
Definition local_preview (run : RunLabel.t) : t := mk RunOrigin.LocalPreview run.
Definition remote (run : RunLabel.t) : t := mk RunOrigin.Remote run.
End RunAttachment.
Module LeaveConsequence.
Inductive t : Type := StopPreview (run : RunLabel.t) | Detach (run : RunLabel.t).
Definition code (c : t) : string := match c with StopPreview _ => "stop_preview" | Detach _ => "detach" end.
End LeaveConsequence.
Module WorkspaceMode.
Inductive t : Type := Authoring | Observing (attachment : RunAttachment.t).
End WorkspaceMode.
Module WorkspaceRejection.
Inductive t : Type :=
  | NotAuthoring (kind : string) (run : RunLabel.t)
  | AlreadyAuthoring
  | AlreadyObserving (run : RunLabel.t).
Definition code (r : t) : string :=
  match r with
  | NotAuthoring _ _ => "not_authoring"
  | AlreadyAuthoring => "already_authoring"
  | AlreadyObserving _ => "already_observing"
  end.
End WorkspaceRejection.
Module Workspace.
Record t : Type := mk { mode : WorkspaceMode.t }.
Definition authoring : t := mk WorkspaceMode.Authoring.
Definition is_authoring (w : t) : bool := match mode w with WorkspaceMode.Authoring => true | _ => false end.
Definition attachment (w : t) : option RunAttachment.t :=
  match mode w with WorkspaceMode.Authoring => None | WorkspaceMode.Observing attachment => Some attachment end.
Definition observe (attachment : RunAttachment.t) (w : t) : t * result WorkspaceRejection.t unit :=
  match mode w with
  | WorkspaceMode.Observing current => (w, Err (WorkspaceRejection.AlreadyObserving (RunAttachment.run current)))
  | WorkspaceMode.Authoring => (mk (WorkspaceMode.Observing attachment), Ok ())
  end.
Definition edit_initial_conditions (w : t) : t * result WorkspaceRejection.t LeaveConsequence.t :=
  match mode w with
  | WorkspaceMode.Authoring => (mk WorkspaceMode.Authoring, Err WorkspaceRejection.AlreadyAuthoring)
  | WorkspaceMode.Observing attachment =>
    (mk WorkspaceMode.Authoring,
     Ok (match RunAttachment.origin attachment with
         | RunOrigin.LocalPreview => LeaveConsequence.StopPreview (RunAttachment.run attachment)
         | RunOrigin.Remote => LeaveConsequence.Detach (RunAttachment.run attachment)
         end))
  end.
Definition admit_kind (kind : string) (w : t) : result WorkspaceRejection.t unit :=
  match mode w with
  | WorkspaceMode.Authoring => Ok ()
  | WorkspaceMode.Observing attachment => Err (WorkspaceRejection.NotAuthoring kind (RunAttachment.run attachment))
  end.
Definition admit_ `{Scientific} (command : SessionCommand.t) (w : t) : result WorkspaceRejection.t unit :=
  admit_kind (SessionCommand.kind command) w.
End Workspace.

(** ** Instantiation (instantiation.rs) *)
Section instantiation.
Context `{Scientific} `{Catalog} `{LockCodec} `{Unicode} `{Libm}.

Definition check_request (spec : InstantiationSpec.t) (limits : Limits.t) : result SessionRejection.t unit :=
  let bindings := InstantiationSpec.bindings spec in
  if (Limits.max_variables limits <? map_len bindings)%N
  then Err (SessionRejection.InstantiationLimit "parameter bindings" (map_len bindings) (Limits.max_variables limits))
  else
    match list_find (λ source, (Limits.max_expression_bytes limits <? str_len source)%N = true) (btree_values bindings) with
    | Some (_, source) =>
      Err (SessionRejection.InstantiationLimit "binding expression bytes" (str_len source) (Limits.max_expression_bytes limits))
    | None => Ok ()
    end.

Definition authored_property (value : ObjectPropertyValue.t) : AuthoredValue.t :=
  match value with
  | ObjectPropertyValue.Quantity source _ _ => AuthoredValue.si source
  | ObjectPropertyValue.Boolean value => AuthoredValue.Boolean value
  | ObjectPropertyValue.Text value => AuthoredValue.Text value
  end.
Definition candidate_commands (spec : InstantiationSpec.t) (scope : Namespace.t) (candidate : ObjectCandidate.t)
    : list ExperimentCommand.t :=
  ((λ '(name, definition),
      ExperimentCommand.DefineVariable
        (VariableSpec.in_namespace scope (VariableSpec.new name (ObjectDefinition.source definition))))
    <$> btree_entries (ObjectCandidate.definitions candidate))
  ++ [ExperimentCommand.CreateObject
        (foldl (λ object component,
           ObjectSpec.with_component (CandidateComponent.type_id component)
             (authored_property <$> CandidateComponent.properties component) object)
          (ObjectSpec.mk (InstantiationSpec.name spec) (InstantiationSpec.transform spec) (InstantiationSpec.velocity spec)
             None ∅ (Some (ObjectCandidate.provenance candidate)))
          (ObjectCandidate.components candidate))].

Definition document {A} (m : outcome Rejection.t A) : outcome SessionRejection.t A :=
  outcome_map_err SessionRejection.Document m.

Definition prepare (experiment : Experiment.t) (catalog : CatalogSet) (schemas : SchemaRegistry.t)
    (spec : InstantiationSpec.t) (limits : Limits.t) : outcome SessionRejection.t (list ExperimentCommand.t) :=
  _ ← answer (check_request spec limits);
  let scope := Namespace.new ("objects.object_" +:+ pretty (Counters.object (Experiment.counters experiment))) in
  let snapshot := Experiment.snapshot experiment in
  values ← document (resolve_variables snapshot limits);
  candidate ← answer (result_map_err SessionRejection.Instantiation
    (materialize catalog schemas (InstantiationRequest.mk (InstantiationSpec.template spec)
       (InstantiationSpec.expected_fingerprint spec) (InstantiationSpec.bindings spec) scope values)));
  let count := saturating_add usize_max (saturating_add usize_max (map_len (ObjectCandidate.definitions candidate)) 1)
                 (if ObjectCandidate.dependencies candidate then 1 else 0) in
  if (Limits.max_commands_per_batch limits <? count)%N
  then refuse (SessionRejection.Document (Rejection.BatchTooLarge count (Limits.max_commands_per_batch limits)))
  else
    let commands := candidate_commands spec scope candidate in
    match ObjectCandidate.dependencies candidate with
    | None => answer (Ok commands)
    | Some incoming =>
      lock ← (match ExperimentState.dependencies snapshot with
              | Some existing =>
                outcome_map_err (λ e, SessionRejection.Document (Rejection.Dependencies (DependencyError.Composition e)))
                  (lock_merge existing incoming (Limits.dependencies limits))
              | None => answer (Ok incoming)
              end : outcome SessionRejection.t SelectionLock.t);
      answer (Ok (commands ++ [ExperimentCommand.AdoptDependencies lock]))
    end.
End instantiation.
