(* ===== verification/Authority.v ===== *)
(** * The document authority (kagami-session, authority.rs)

    The one owner of the editable experiment: it decides submissions, replays the
    ones it has answered, keeps the undo history, the capability report and a
    bounded log of events, and knows which revision was saved where. *)

From stdpp Require Import base gmap strings list.
From S2P Require Import Prelude Identity Binary64 Quantity Expression Namespace PluginIds Lock Schema Geometry Document Experiment Validate Edit History Compose Equality Store Session.
#[local] Open Scope partial_eq_scope.

(** A method on [&mut self]: the object after it and what it returns. A refusal
    keeps what was changed before it; [None] is a panic or fuel running out. *)
Definition method (S E A : Type) : Type := S → option (S * result E A).
#[export] Instance method_ret S E : MRet (method S E) := λ A a s, Some (s, Ok a).
#[export] Instance method_bind S E : MBind (method S E) := λ A B f m s,
  match m s with
  | Some (s, Ok a) => f a s
  | Some (s, Err e) => Some (s, Err e)
  | None => None
  end.
(** What only reads the object, and what only changes it. *)
Definition reads {S E A} (f : S → outcome E A) : method S E A := λ s, r ← f s; Some (s, r).
Definition modify {S E} (f : S → S) : method S E unit := λ s, Some (f s, Ok ()).
Definition returns {S E A} (f : S → S * A) : method S E A := λ s, Some ((f s).1, Ok (f s).2).

(** [ScientificRetention] (kagami-document, scientific.rs): a tally of retained
    bytes. It charges an allocation once, so what an inclusion costs depends on
    which handles share one; the tally of a submission is an argument. *)
Module Retention.
Section retention.
Context `{Scientific}.
Record t : Type := mk {
  tally : Type;
  new : N → tally;
  include_ : ScientificSetup → tally → result ScientificError.t tally;
  include_dependencies : SelectionLock.t → tally → result ScientificError.t tally
}.
End retention.
End Retention.

(** [SchemaRegistry == SchemaRegistry]: also compares the plugin declarations the
    schemas retain, which their model leaves out. *)
Class SchemaEq : Type := schema_registry_eq : SchemaRegistry.t → SchemaRegistry.t → bool.

Definition MAX_COMMAND_HISTORY : N := 256.
Definition MAX_REPLAY_COMMANDS : N := 4096.
Definition MAX_EVENT_HISTORY : N := 256.

Module AcceptedRecord.
Section record.
Context `{Scientific}.
Record t : Type := mk { envelope : ExperimentCommandEnvelope.t; acceptance : Acceptance.t }.
Definition weight (r : t) : N :=
  match ExperimentCommandEnvelope.command (envelope r) with
  | SessionCommand.Edit commands => N.max (lenN commands) 1
  | _ => 1
  end.
End record.
End AcceptedRecord.

(** The deques of accepted records and of events are lists, front first. *)
Module DocumentAuthority.
Section authority.
Context `{Scientific} `{Catalog}.
Record t : Type := mk {
  experiment : Experiment.t;
  schemas : SchemaRegistry.t;
  catalog : option CatalogSet;
  capabilities : CapabilityReport.t;
  limits : Limits.t;
  history : EditHistory.t;
  accepted : list AcceptedRecord.t;
  retained_commands : N;
  events : list ExperimentEvent.t;
  next_event : EventSeq.t;
  open_gesture : option GestureId.t;
  next_gesture : N;
  clean_revision : ExperimentRevision.t;
  acknowledged_revision : option ExperimentRevision.t;
  target : option DocumentTarget.t
}.
Definition set_experiment (experiment : Experiment.t) (a : t) : t :=
  mk experiment (schemas a) (catalog a) (capabilities a) (limits a) (history a) (accepted a) (retained_commands a)
    (events a) (next_event a) (open_gesture a) (next_gesture a) (clean_revision a) (acknowledged_revision a) (target a).
Definition set_schemas (schemas : SchemaRegistry.t) (a : t) : t :=
  mk (experiment a) schemas (catalog a) (capabilities a) (limits a) (history a) (accepted a) (retained_commands a)
    (events a) (next_event a) (open_gesture a) (next_gesture a) (clean_revision a) (acknowledged_revision a) (target a).
Definition set_catalog (catalog : option CatalogSet) (a : t) : t :=
  mk (experiment a) (schemas a) catalog (capabilities a) (limits a) (history a) (accepted a) (retained_commands a)
    (events a) (next_event a) (open_gesture a) (next_gesture a) (clean_revision a) (acknowledged_revision a) (target a).
Definition set_capabilities (capabilities : CapabilityReport.t) (a : t) : t :=
  mk (experiment a) (schemas a) (catalog a) capabilities (limits a) (history a) (accepted a) (retained_commands a)
    (events a) (next_event a) (open_gesture a) (next_gesture a) (clean_revision a) (acknowledged_revision a) (target a).
Definition set_history (history : EditHistory.t) (a : t) : t :=
  mk (experiment a) (schemas a) (catalog a) (capabilities a) (limits a) history (accepted a) (retained_commands a)
    (events a) (next_event a) (open_gesture a) (next_gesture a) (clean_revision a) (acknowledged_revision a) (target a).
Definition set_accepted (accepted : list AcceptedRecord.t) (retained_commands : N) (a : t) : t :=
  mk (experiment a) (schemas a) (catalog a) (capabilities a) (limits a) (history a) accepted retained_commands
    (events a) (next_event a) (open_gesture a) (next_gesture a) (clean_revision a) (acknowledged_revision a) (target a).
Definition set_events (events : list ExperimentEvent.t) (next_event : EventSeq.t) (a : t) : t :=
  mk (experiment a) (schemas a) (catalog a) (capabilities a) (limits a) (history a) (accepted a) (retained_commands a)
    events next_event (open_gesture a) (next_gesture a) (clean_revision a) (acknowledged_revision a) (target a).
Definition set_gesture (open_gesture : option GestureId.t) (next_gesture : N) (a : t) : t :=
  mk (experiment a) (schemas a) (catalog a) (capabilities a) (limits a) (history a) (accepted a) (retained_commands a)
    (events a) (next_event a) open_gesture next_gesture (clean_revision a) (acknowledged_revision a) (target a).
Definition set_saved (clean_revision : ExperimentRevision.t) (acknowledged_revision : option ExperimentRevision.t)
    (target : option DocumentTarget.t) (a : t) : t :=
  mk (experiment a) (schemas a) (catalog a) (capabilities a) (limits a) (history a) (accepted a) (retained_commands a)
    (events a) (next_event a) (open_gesture a) (next_gesture a) clean_revision acknowledged_revision target.

Definition new (schemas : SchemaRegistry.t) (limits : Limits.t) : t :=
  mk Experiment.new schemas None (CapabilityReport.mk []) limits (EditHistory.new (Limits.max_undo_depth limits))
    [] 0 [] EventSeq.INITIAL None 0 (Experiment.revision Experiment.new) None None.

(** *** Reading *)
Definition revision (a : t) : ExperimentRevision.t := Experiment.revision (experiment a).
Definition is_dirty (a : t) : bool := negb (bool_decide (revision a = clean_revision a)).
Definition history_status (a : t) : HistoryStatus.t :=
  HistoryStatus.mk (EditHistory.undo_label (history a)) (EditHistory.redo_label (history a))
    (EditHistory.len (history a)) (EditHistory.depth (history a)).
Definition view (a : t) : SessionView.t :=
  SessionView.mk (Experiment.snapshot (experiment a)) (capabilities a) (history_status a) (is_dirty a) (target a)
    (open_gesture a) (next_event a).
Definition events_since (seq : EventSeq.t) (a : t) : list ExperimentEvent.t :=
  filter (λ event, (EventSeq.get seq < EventSeq.get (ExperimentEvent.seq event))%N) (events a).
Definition can_catch_up_from (seq : EventSeq.t) (a : t) : bool :=
  match events a with
  | [] => (EventSeq.get seq <=? EventSeq.get (next_event a))%N
  | oldest :: _ => (EventSeq.get (ExperimentEvent.seq oldest) <=? EventSeq.get (EventSeq.next seq))%N
  end.

(** *** Bookkeeping *)

(** [while len > max { pop_front }]. *)
Definition push_event (command_id : option CommandId.t) (actor : ActorId.t) (change : ExperimentChange.t) (a : t) : t :=
  let seq := EventSeq.next (next_event a) in
  let events := events a ++ [ExperimentEvent.mk seq (revision a) command_id actor change] in
  set_events (drop (length events - N.to_nat MAX_EVENT_HISTORY) events) seq a.
Definition rebuild_capabilities (a : t) : t :=
  set_capabilities (CapabilityReport.of_ (Experiment.snapshot (experiment a)) (schemas a)) a.
Definition prune_capabilities (a : t) : t :=
  if CapabilityReport.is_complete (capabilities a) then a
  else set_capabilities (CapabilityReport.retain_present (Experiment.snapshot (experiment a)) (capabilities a)) a.

(** Records leave from the front until both bounds hold. *)
Fixpoint evict (accepted : list AcceptedRecord.t) (retained : N) : list AcceptedRecord.t * N :=
  if (MAX_COMMAND_HISTORY <? lenN accepted)%N || (MAX_REPLAY_COMMANDS <? retained)%N then
    match accepted with
    | [] => (accepted, retained)
    | evicted :: accepted => evict accepted (retained - AcceptedRecord.weight evicted)
    end
  else (accepted, retained).
Definition record (envelope : ExperimentCommandEnvelope.t) (change : ExperimentChange.t) (a : t) : t * Acceptance.t :=
  let a := push_event (Some (ExperimentCommandEnvelope.command_id envelope)) (ExperimentCommandEnvelope.actor envelope) change a in
  let acceptance := Acceptance.mk (ExperimentCommandEnvelope.command_id envelope) (revision a) change (next_event a) false in
  let record := AcceptedRecord.mk envelope acceptance in
  let '(accepted, retained) := evict (accepted a ++ [record]) (retained_commands a + AcceptedRecord.weight record) in
  (set_accepted accepted retained a, acceptance).

(** *** Guards *)
Definition replay `{!ScientificEq} (envelope : ExperimentCommandEnvelope.t) (a : t)
    : result SessionRejection.t (option Acceptance.t) :=
  let command_id := ExperimentCommandEnvelope.command_id envelope in
  match list_find (λ record, ExperimentCommandEnvelope.command_id (AcceptedRecord.envelope record) = command_id) (accepted a) with
  | None => Ok None
  | Some (_, record) =>
    if negb (AcceptedRecord.envelope record == envelope) then Err (SessionRejection.CommandIdentityConflict command_id)
    else Ok (Some (Acceptance.set_replayed true (AcceptedRecord.acceptance record)))
  end.
Definition check_batch_size (envelope : ExperimentCommandEnvelope.t) (a : t) : result SessionRejection.t unit :=
  match ExperimentCommandEnvelope.command envelope with
  | SessionCommand.Edit commands =>
    if (Limits.max_commands_per_batch (limits a) <? lenN commands)%N
    then Err (SessionRejection.Document (Rejection.BatchTooLarge (lenN commands) (Limits.max_commands_per_batch (limits a))))
    else Ok ()
  | _ => Ok ()
  end.
Definition check_revision (envelope : ExperimentCommandEnvelope.t) (a : t) : result SessionRejection.t unit :=
  match ExperimentCommandEnvelope.expected_revision envelope with
  | Some expected =>
    if negb (bool_decide (expected = revision a)) then Err (SessionRejection.RevisionConflict expected (revision a)) else Ok ()
  | None => Ok ()
  end.

(** *** Interactive edits *)
Definition publish_implicit_gesture_close (envelope : ExperimentCommandEnvelope.t) (gesture : GestureId.t) (a : t) : t :=
  push_event (Some (ExperimentCommandEnvelope.command_id envelope)) (ExperimentCommandEnvelope.actor envelope)
    (ExperimentChange.GestureClosed gesture true) (set_gesture None (next_gesture a) a).
Definition resolve_gesture (envelope : ExperimentCommandEnvelope.t) : method t SessionRejection.t (option GestureId.t) := λ a,
  match ExperimentCommandEnvelope.gesture envelope, open_gesture a with
  | Some named, Some open =>
    if bool_decide (named = open) then Some (a, Ok (Some open)) else Some (a, Err (SessionRejection.GestureNotOpen named))
  | Some named, None => Some (a, Err (SessionRejection.GestureNotOpen named))
  | None, Some open =>
    match ExperimentCommandEnvelope.command envelope with
    | SessionCommand.EndInteractiveEdit => Some (a, Ok None)
    | _ => Some (publish_implicit_gesture_close envelope open a, Ok None)
    end
  | None, None => Some (a, Ok None)
  end.
Definition begin_gesture : method t SessionRejection.t ExperimentChange.t := λ a,
  let gesture := GestureId.new (next_gesture a) in
  Some (set_gesture (Some gesture) (next_u64 (next_gesture a)) a, Ok (ExperimentChange.GestureOpened gesture)).
Definition close_gesture : method t SessionRejection.t ExperimentChange.t := λ a,
  match open_gesture a with
  | Some gesture => Some (set_gesture None (next_gesture a) a, Ok (ExperimentChange.GestureClosed gesture false))
  | None => Some (a, Err SessionRejection.NoGestureOpen)
  end.

Section transitions.
Context `{!ScientificValidation} `{!ScientificEq} `{Unicode} `{Libm} `{LockCodec} `{SchemaEq}.

(** *** Edits, undo and redo *)
Definition apply_edit (commands : list ExperimentCommand.t) (gesture : option GestureId.t)
    : method t SessionRejection.t ExperimentChange.t :=
  if bool_decide (commands = []) then reads (λ _, refuse SessionRejection.EmptyBatch)
  else
    candidate ← reads (λ a, document (update (experiment a) commands (schemas a) (limits a)));
    let label := ExperimentCommand.batch_label commands in
    _ ← modify (λ a, set_history (EditHistory.record (Experiment.checkpoint (experiment a)) label gesture (history a)) a);
    _ ← modify (set_experiment (Candidate.experiment candidate));
    _ ← modify prune_capabilities;
    mret (ExperimentChange.Edited (Candidate.report candidate)).

(** Undo and redo, which differ in the side they take from. *)
Definition apply_restore (take : ExperimentState.t → EditHistory.t → option (Restoration.t * EditHistory.t))
    (nothing : SessionRejection.t) (change : string → ExperimentChange.t) : method t SessionRejection.t ExperimentChange.t :=
  taken ← reads (λ a, match take (Experiment.checkpoint (experiment a)) (history a) with
                       | Some taken => answer (Ok taken) | None => refuse nothing end);
  let '(restoration, history) := taken in
  candidate ← reads (λ a, document (restore (experiment a) (Restoration.checkpoint restoration) (schemas a) (limits a)));
  _ ← modify (set_history history);
  _ ← modify (set_experiment (Candidate.experiment candidate));
  _ ← modify rebuild_capabilities;
  mret (change (Restoration.label restoration)).
Definition apply_undo : method t SessionRejection.t ExperimentChange.t :=
  apply_restore EditHistory.undo SessionRejection.NothingToUndo ExperimentChange.Undone.
Definition apply_redo : method t SessionRejection.t ExperimentChange.t :=
  apply_restore EditHistory.redo SessionRejection.NothingToRedo ExperimentChange.Redone.

Definition instantiate (spec : InstantiationSpec.t) (gesture : option GestureId.t)
    : method t SessionRejection.t ExperimentChange.t :=
  commands ← reads (λ a,
    match catalog a with
    | None => refuse SessionRejection.NoCatalogLoaded
    | Some catalog => prepare (experiment a) catalog (schemas a) spec (limits a)
    end);
  apply_edit commands gesture.

(** *** Replacing the document *)
Definition check_incoming (experiment : Experiment.t) (a : t) : outcome Rejection.t unit :=
  let snapshot := Experiment.snapshot experiment in
  _ ← (match ExperimentState.dependencies snapshot with
       | Some lock =>
         outcome_map_err (λ e, Rejection.Dependencies (DependencyError.Lock e)) (lock_validate lock (Limits.dependencies (limits a)))
       | None => answer (Ok ())
       end : outcome Rejection.t unit);
  match Setup.scientific (ExperimentState.setup snapshot) with
  | Some setup => answer (result_map_err Rejection.Scientific (scientific_check_limits setup (Limits.scientific (limits a))))
  | None => answer (Ok ())
  end.
Definition replace (experiment_ : Experiment.t) (target_ : option DocumentTarget.t) (discard_unsaved opened : bool)
    : method t SessionRejection.t ExperimentChange.t :=
  _ ← reads (λ a, if is_dirty a && negb discard_unsaved then refuse SessionRejection.UnsavedChanges else answer (Ok ()));
  _ ← reads (λ a, document (check_incoming experiment_ a));
  _ ← modify (λ a, set_experiment (Experiment.adopted_after experiment_ (revision a)) a);
  _ ← modify (λ a, set_history (EditHistory.clear (history a)) a);
  _ ← modify (λ a, set_gesture None (next_gesture a) a);
  _ ← modify (λ a, set_saved (revision a) None target_ a);
  _ ← modify rebuild_capabilities;
  mret (ExperimentChange.Replaced opened).

(** *** Submission *)
Definition execute (command : SessionCommand.t) (gesture : option GestureId.t) : method t SessionRejection.t ExperimentChange.t :=
  match command with
  | SessionCommand.Edit commands => apply_edit commands gesture
  | SessionCommand.Undo => apply_undo
  | SessionCommand.Redo => apply_redo
  | SessionCommand.BeginInteractiveEdit => begin_gesture
  | SessionCommand.EndInteractiveEdit => close_gesture
  | SessionCommand.InstantiateObjectTemplate spec => instantiate spec gesture
  | SessionCommand.New discard_unsaved => replace Experiment.new None discard_unsaved false
  | SessionCommand.Open experiment target discard_unsaved => replace experiment target discard_unsaved true
  end.
Definition submit_inner (envelope : ExperimentCommandEnvelope.t) : method t SessionRejection.t Acceptance.t :=
  recorded ← reads (λ a, answer (replay envelope a));
  match recorded with
  | Some recorded => mret recorded
  | None =>
    _ ← reads (λ a, answer (check_revision envelope a));
    gesture ← resolve_gesture envelope;
    change ← execute (ExperimentCommandEnvelope.command envelope) gesture;
    returns (record envelope change)
  end.

(** *** Retention of scientific data *)
Definition receives_scientific_state (command : SessionCommand.t) : bool :=
  match command with
  | SessionCommand.InstantiateObjectTemplate _ => true
  | SessionCommand.Edit commands =>
    existsb (λ c, match c with
      | ExperimentCommand.AdoptScientificSetup _ | ExperimentCommand.AdoptDependencies _ => true | _ => false end) commands
  | SessionCommand.Open experiment _ _ =>
    let snapshot := Experiment.snapshot experiment in
    bool_decide (is_Some (Setup.scientific (ExperimentState.setup snapshot)))
    || bool_decide (is_Some (ExperimentState.dependencies snapshot))
  | _ => false
  end.

Section retention.
Context (retention : Retention.t).
Implicit Types tally : Retention.tally retention.

Fixpoint include_all {A} (f : A → Retention.tally retention → result ScientificError.t (Retention.tally retention))
    (l : list A) tally : result ScientificError.t (Retention.tally retention) :=
  match l with [] => Ok tally | x :: l => tally ← f x tally; include_all f l tally end.
Definition include_setup (setup : Setup.t) tally : result ScientificError.t (Retention.tally retention) :=
  match Setup.scientific setup with Some setup => Retention.include_ retention setup tally | None => Ok tally end.
Definition include_lock (lock : option SelectionLock.t) tally : result ScientificError.t (Retention.tally retention) :=
  match lock with Some lock => Retention.include_dependencies retention lock tally | None => Ok tally end.
Definition include_command (command : SessionCommand.t) tally : result ScientificError.t (Retention.tally retention) :=
  match command with
  | SessionCommand.Edit commands =>
    include_all (λ c tally, match c with
      | ExperimentCommand.AdoptScientificSetup setup => Retention.include_ retention setup tally
      | ExperimentCommand.AdoptDependencies lock => Retention.include_dependencies retention lock tally
      | _ => Ok tally
      end) commands tally
  | SessionCommand.Open experiment _ _ =>
    let snapshot := Experiment.snapshot experiment in
    tally ← include_lock (ExperimentState.dependencies snapshot) tally;
    include_setup (ExperimentState.setup snapshot) tally
  | _ => Ok tally
  end.
Definition scientific_baseline (limit : N) (a : t) : result ScientificError.t (Retention.tally retention) :=
  let snapshot := Experiment.snapshot (experiment a) in
  tally ← include_setup (ExperimentState.setup snapshot) (Retention.new retention limit);
  tally ← include_all (Retention.include_ retention) (EditHistory.scientific_setups (history a)) tally;
  tally ← include_lock (ExperimentState.dependencies snapshot) tally;
  include_all (λ s, include_lock (ExperimentState.dependencies s)) (EditHistory.snapshots (history a)) tally.

(** The receipts from the newest back, each charged until one does not fit: it and
    every older one go. The newest has to fit. *)
Fixpoint fitting (newest : bool) (receipts : list AcceptedRecord.t) tally : result ScientificError.t nat :=
  match receipts with
  | [] => Ok 0
  | receipt :: older =>
    match include_command (ExperimentCommandEnvelope.command (AcceptedRecord.envelope receipt)) tally with
    | Err _ => if newest then Err ScientificError.Retention else Ok (length receipts)
    | Ok tally => fitting false older tally
    end
  end.
Definition bound_scientific_retention (a : t) : result ScientificError.t t :=
  tally ← scientific_baseline (ScientificLimits.retained_bytes (Limits.scientific (limits a))) a;
  drop_count ← fitting true (reverse (accepted a)) tally;
  let dropped := take drop_count (accepted a) in
  Ok (set_accepted (drop drop_count (accepted a))
        (foldl (λ n r, (n - AcceptedRecord.weight r)%N) (retained_commands a) dropped) a).

(** A command run on a copy of the authority, which takes its place only when what
    it retains fits. *)
Definition admitted (m : method t SessionRejection.t Acceptance.t) (keep_replayed : bool) : method t SessionRejection.t Acceptance.t := λ a,
  match m a with
  | None => None
  | Some (_, Err e) => Some (a, Err e)
  | Some (next, Ok accepted) =>
    if keep_replayed && Acceptance.replayed accepted then Some (a, Ok accepted)
    else match bound_scientific_retention next with
         | Err e => Some (a, Err (SessionRejection.Document (Rejection.Scientific e)))
         | Ok next => Some (next, Ok accepted)
         end
  end.

Definition submit (envelope : ExperimentCommandEnvelope.t) : method t SessionRejection.t Acceptance.t :=
  recorded ← reads (λ a, answer (replay envelope a));
  match recorded with
  | Some recorded => mret recorded
  | None =>
    _ ← reads (λ a, answer (check_batch_size envelope a));
    if receives_scientific_state (ExperimentCommandEnvelope.command envelope) then
      _ ← reads (λ a, answer (check_revision envelope a));
      admitted (submit_inner envelope) true
    else submit_inner envelope
  end.

(** *** Installed schemas, catalog and history *)
Definition adopt_schemas (schemas_ : SchemaRegistry.t) (actor : ActorId.t) (a : t) : t * EventSeq.t :=
  let before := CapabilityReport.summary (capabilities a) in
  let a := rebuild_capabilities (set_schemas schemas_ a) in
  let after := CapabilityReport.summary (capabilities a) in
  let a := push_event None actor (ExperimentChange.CapabilityChanged before after) a in
  (a, next_event a).
Definition adopt_catalog (catalog : CatalogSet) (a : t) : t := set_catalog (Some catalog) a.
Definition clear_history (a : t) : t := set_history (EditHistory.clear (history a)) a.

Definition submit_with_schemas (envelope : ExperimentCommandEnvelope.t) (schemas_ : SchemaRegistry.t)
    : method t SessionRejection.t Acceptance.t :=
  recorded ← reads (λ a, answer (replay envelope a));
  match recorded with
  | Some recorded => mret recorded
  | None =>
    _ ← reads (λ a, answer (check_batch_size envelope a));
    _ ← reads (λ a, answer (check_revision envelope a));
    admitted
      (_ ← modify (λ a, if schema_registry_eq (schemas a) schemas_ then a
                        else (adopt_schemas schemas_ (ExperimentCommandEnvelope.actor envelope) a).1);
       submit_inner envelope) false
  end.

(** *** Checking without changing *)
Definition preflight_edit (command : SessionCommand.t) (a : t) : outcome SessionRejection.t CommitReport.t :=
  match command with
  | SessionCommand.Edit commands =>
    if bool_decide (commands = []) then refuse SessionRejection.EmptyBatch
    else
      candidate ← document (update (experiment a) commands (schemas a) (limits a));
      answer (Ok (Candidate.report candidate))
  | other => refuse (SessionRejection.NotPreflightable (SessionCommand.kind other))
  end.
Definition preflight (envelope : ExperimentCommandEnvelope.t) (a : t) : outcome SessionRejection.t CommitReport.t :=
  let command := ExperimentCommandEnvelope.command envelope in
  _ ← answer (check_batch_size envelope a);
  _ ← answer (check_revision envelope a);
  match command with
  | SessionCommand.Edit _ =>
    if receives_scientific_state command then
      match admitted (submit_inner envelope) true a with
      | None => None
      | Some (_, Err e) => refuse e
      | Some (_, Ok accepted) =>
        match Acceptance.change accepted with
        | ExperimentChange.Edited report => answer (Ok report)
        | _ => None
        end
      end
    else preflight_edit command a
  | _ => preflight_edit command a
  end.
End retention.

(** *** Saving *)
Definition acknowledge_save (revision_ : ExperimentRevision.t) (target_ : DocumentTarget.t) (a : t)
    : t * SaveAcknowledgement.t ExperimentRevision.t :=
  let acknowledge :=
    let a := set_saved (clean_revision a) (Some revision_) (Some target_) a in
    let current := revision a in
    if bool_decide (revision_ = current)
    then (set_saved revision_ (acknowledged_revision a) (target a) a, SaveAcknowledgement.Clean)
    else (a, SaveAcknowledgement.Superseded current) in
  match acknowledged_revision a with
  | Some acknowledged =>
    if (ExperimentRevision.get revision_ <? ExperimentRevision.get acknowledged)%N
    then (a, SaveAcknowledgement.Stale acknowledged) else acknowledge
  | None => acknowledge
  end.
End transitions.
End authority.
End DocumentAuthority.
