(* ===== verification/Submitted.v ===== *)
(** * One submission to the document authority (kagami-session, authority.rs)

    What each command leaves behind when it is accepted, and that a refusal leaves
    the authority as it was, the implicit end of a gesture apart. *)

From stdpp Require Import base gmap strings list.
From S2P Require Import Prelude Identity Action Binary64 Quantity Expression Namespace Evaluation Variables Reached PluginIds Lock Schema Geometry Document Experiment Validate Edit Settled History Compose Equality Store Session Authority.
Import DocumentAuthority.

(** ** Methods *)
Section methods.
Context {S E : Type}.
Lemma method_bind_ok {A B} (m : method S E A) (f : A → method S E B) s s' b :
  (x ← m; f x) s = Some (s', Ok b) ↔ ∃ x s1, m s = Some (s1, Ok x) ∧ f x s1 = Some (s', Ok b).
Proof.
  unfold mbind, method_bind. destruct (m s) as [[s1 [x|e]]|]; [|by split; [|intros (? & ? & ? & _)]..].
  split; [by exists x, s1|by intros (? & ? & [= -> ->] & ?)].
Qed.
Lemma method_bind_err {A B} (m : method S E A) (f : A → method S E B) s s' e :
  (x ← m; f x) s = Some (s', Err e) ↔
  m s = Some (s', Err e) ∨ ∃ x s1, m s = Some (s1, Ok x) ∧ f x s1 = Some (s', Err e).
Proof.
  unfold mbind, method_bind. destruct (m s) as [[s1 [x|e1]]|].
  - split; [by right; exists x, s1|]. by intros [|(? & ? & [= -> ->] & ?)].
  - split; [intros [= -> ->]; by left|]. by intros [[= -> ->]|(? & ? & ? & _)].
  - by split; [|intros [|(? & ? & ? & _)]].
Qed.
Lemma reads_is {A} (f : S → outcome E A) s s' r : reads f s = Some (s', r) ↔ s' = s ∧ f s = Some r.
Proof.
  unfold reads. destruct (f s) as [x|]; cbn; [|by split; [|intros [_ ?]]]. split; [by intros [= -> ->]|by intros [-> [= ->]]].
Qed.
Lemma modify_is (f : S → S) s s' r : modify (E:=E) f s = Some (s', r) ↔ s' = f s ∧ r = Ok ().
Proof. unfold modify. split; [by intros [= <- <-]|by intros [-> ->]]. Qed.
Lemma returns_is {A} (f : S → S * A) s s' r : returns (E:=E) f s = Some (s', r) ↔ s' = (f s).1 ∧ r = Ok (f s).2.
Proof. unfold returns. split; [by intros [= <- <-]|by intros [-> ->]]. Qed.
Lemma ret_is {A} (x : A) s s' r : mret (M:=method S E) x s = Some (s', r) ↔ s' = s ∧ r = Ok x.
Proof. unfold mret, method_ret. split; [by intros [= <- <-]|by intros [-> ->]]. Qed.

(** A method that never refuses, and one that refuses before it changes anything. *)
Definition never_refuses {A} (m : method S E A) : Prop := ∀ s s' e, m s ≠ Some (s', Err e).
Definition refuses_first {A} (m : method S E A) : Prop := ∀ s s' e, m s = Some (s', Err e) → s' = s.
Lemma never_refuses_modify f : never_refuses (modify f).
Proof. by intros s s' e [_ ?]%modify_is. Qed.
Lemma never_refuses_returns {A} (f : S → S * A) : never_refuses (returns f).
Proof. by intros s s' e [_ ?]%returns_is. Qed.
Lemma never_refuses_ret {A} (x : A) : never_refuses (mret (M:=method S E) x).
Proof. by intros s s' e [_ ?]%ret_is. Qed.
Lemma never_refuses_bind {A B} (m : method S E A) (f : A → method S E B) :
  never_refuses m → (∀ x, never_refuses (f x)) → never_refuses (x ← m; f x).
Proof. intros Hm Hf s s' e [Hs|(x & s1 & _ & Hs)]%method_bind_err; [by eapply Hm|by eapply Hf]. Qed.
Lemma refuses_first_reads {A} (f : S → outcome E A) : refuses_first (reads f).
Proof. by intros s s' e [-> _]%reads_is. Qed.
Lemma refuses_first_reads_bind {A B} (f : S → outcome E A) (g : A → method S E B) :
  (∀ x, refuses_first (g x)) → refuses_first (x ← reads f; g x).
Proof.
  intros Hg s s' e [[-> _]%reads_is|(x & s1 & [-> _]%reads_is & Hs)]%method_bind_err; [done|]. by eapply Hg.
Qed.
Lemma refuses_first_never {A} (m : method S E A) : never_refuses m → refuses_first m.
Proof. intros Hm s s' e Hs. by destruct (Hm s s' e). Qed.
End methods.

Create HintDb refusals.
#[export] Hint Resolve never_refuses_modify never_refuses_returns never_refuses_ret never_refuses_bind : refusals.
(** Guards that read, then changes that cannot fail. *)
Ltac reads_then_changes :=
  repeat match goal with
  | |- refuses_first (mbind _ (reads _)) => apply refuses_first_reads_bind; intros ?
  | |- refuses_first (reads _) => apply refuses_first_reads
  | |- refuses_first (match ?x with _ => _ end) => destruct x
  | |- refuses_first _ => apply refuses_first_never; auto 20 with refusals; done
  end.
(** Reduces an accepted run of a method to what its steps did. *)
Ltac accepted_method H :=
  lazymatch type of H with
  | mbind _ _ _ = Some (_, Ok _) =>
    let x := fresh "x" in let s := fresh "s" in let H' := fresh H in
    apply method_bind_ok in H as (x & s & H' & H); accepted_method H'; accepted_method H
  | reads _ _ = Some _ => apply reads_is in H as [? H]
  | modify _ _ = Some _ => apply modify_is in H as [? H]
  | returns _ _ = Some _ => apply returns_is in H as [? H]
  | mret _ _ = Some _ => apply ret_is in H as [? H]
  | _ => idtac
  end.

Section submitted.
Context `{Scientific} `{Catalog} `{!ScientificValidation} `{!ScientificEq} `{Unicode} `{Libm} `{LockCodec} `{SchemaEq} (retention : Retention.t).
Implicit Types a : DocumentAuthority.t.

(** ** What an accepted command did *)
Lemma document_ok {A} (m : outcome Rejection.t A) x : document m = Some (Ok x) ↔ m = Some (Ok x).
Proof. unfold document, outcome_map_err, result_map_err. destruct m as [[]|]; cbn; naive_solver. Qed.

Lemma apply_edit_ok commands gesture a a' change :
  apply_edit commands gesture a = Some (a', Ok change) →
  commands ≠ [] ∧ ∃ candidate, update (experiment a) commands (schemas a) (limits a) = Some (Ok candidate)
    ∧ change = ExperimentChange.Edited (Candidate.report candidate)
    ∧ a' = prune_capabilities (set_experiment (Candidate.experiment candidate)
             (set_history (EditHistory.record (Experiment.checkpoint (experiment a))
                (ExperimentCommand.batch_label commands) gesture (history a)) a)).
Proof.
  unfold apply_edit. case_bool_decide as Hc; [by intros [_ ?]%reads_is|]. intros Hrun. accepted_method Hrun. simplify_eq.
  split; [done|]. exists x. split_and!; [by apply document_ok|done..].
Qed.
Lemma apply_restore_ok take nothing named a a' change :
  apply_restore take nothing named a = Some (a', Ok change) →
  ∃ restoration undone candidate, take (Experiment.checkpoint (experiment a)) (history a) = Some (restoration, undone)
    ∧ restore (experiment a) (Restoration.checkpoint restoration) (schemas a) (limits a) = Some (Ok candidate)
    ∧ change = named (Restoration.label restoration)
    ∧ a' = rebuild_capabilities (set_experiment (Candidate.experiment candidate) (set_history undone a)).
Proof.
  unfold apply_restore. intros Hrun. accepted_method Hrun. subst. destruct (take _ _) as [[restoration undone]|]; [|done].
  injection Hrun0 as <-. accepted_method Hrun. simplify_eq. exists restoration, undone, x. split_and!; [done|by apply document_ok|done..].
Qed.
Lemma instantiate_ok spec gesture a a' change :
  instantiate spec gesture a = Some (a', Ok change) →
  ∃ catalog_ commands, catalog a = Some catalog_
    ∧ prepare (experiment a) catalog_ (schemas a) spec (limits a) = Some (Ok commands)
    ∧ apply_edit commands gesture a = Some (a', Ok change).
Proof.
  unfold instantiate. intros Hrun. accepted_method Hrun. subst. destruct (catalog a) as [c|]; [|done]. by exists c, x.
Qed.
Lemma replace_ok incoming target_ discard opened a a' change :
  replace incoming target_ discard opened a = Some (a', Ok change) →
  (is_dirty a = false ∨ discard = true) ∧ check_incoming incoming a = Some (Ok ())
  ∧ change = ExperimentChange.Replaced opened
  ∧ let opened := Experiment.adopted_after incoming (revision a) in
    a' = rebuild_capabilities (set_saved (Experiment.revision opened) None target_
           (set_gesture None (next_gesture a) (set_history (EditHistory.clear (history a)) (set_experiment opened a)))).
Proof.
  unfold replace. intros Hrun. accepted_method Hrun. simplify_eq. split_and!; [|by destruct x0; apply document_ok in Hrun1|done..].
  destruct (is_dirty a), discard; auto; done.
Qed.

(** ** Refusals *)
Lemma apply_edit_refuses_first commands gesture : refuses_first (apply_edit commands gesture).
Proof. unfold apply_edit. reads_then_changes. Qed.
Lemma execute_refuses_first command gesture : refuses_first (execute command gesture).
Proof.
  destruct command; cbn [execute]; unfold apply_undo, apply_redo, apply_restore, replace, instantiate; reads_then_changes;
    try apply apply_edit_refuses_first.
  intros a a' e Hc. unfold close_gesture in Hc. destruct (open_gesture a); [done|]. by injection Hc as <- _.
Qed.

(** *** The outcome of a command *)

(** What [execute] keeps of the bookkeeping around the document. *)
Record quiet a a' : Prop := {
  quiet_events : events a' = events a;
  quiet_next : next_event a' = next_event a;
  quiet_accepted : accepted a' = accepted a;
  quiet_retained : retained_commands a' = retained_commands a;
  quiet_limits : limits a' = limits a
}.
Definition moved a a' : Prop := experiment a' = experiment a ∨ revision a' = ExperimentRevision.next (revision a).

Lemma prune_capabilities_is a : ∃ c, prune_capabilities a = set_capabilities c a.
Proof.
  unfold prune_capabilities. destruct (CapabilityReport.is_complete _); [exists (capabilities a); by destruct a|by eexists].
Qed.
Lemma update_revision experiment_ commands schemas_ limits_ candidate :
  update experiment_ commands schemas_ limits_ = Some (Ok candidate) →
  Experiment.revision (Candidate.experiment candidate) = ExperimentRevision.next (Experiment.revision experiment_).
Proof. intros (e & s & work & _ & _ & _ & _ & _ & -> & _)%update_ok. reflexivity. Qed.
Lemma restore_revision experiment_ checkpoint schemas_ limits_ candidate :
  restore experiment_ checkpoint schemas_ limits_ = Some (Ok candidate) →
  Experiment.revision (Candidate.experiment candidate) = ExperimentRevision.next (Experiment.revision experiment_).
Proof. intros [-> _]%restore_ok. reflexivity. Qed.

Lemma apply_edit_quiet commands gesture a a' change :
  apply_edit commands gesture a = Some (a', Ok change) → quiet a a' ∧ moved a a'.
Proof.
  intros (_ & candidate & Hu & _ & ->)%apply_edit_ok. destruct (prune_capabilities_is (set_experiment (Candidate.experiment candidate)
    (set_history (EditHistory.record (Experiment.checkpoint (experiment a)) (ExperimentCommand.batch_label commands) gesture (history a)) a)))
    as [c ->]. split; [done|]. right. by eapply update_revision.
Qed.
Lemma apply_restore_quiet take nothing named a a' change :
  apply_restore take nothing named a = Some (a', Ok change) → quiet a a' ∧ moved a a'.
Proof.
  intros (restoration & undone & candidate & _ & Hr & _ & ->)%apply_restore_ok. split; [done|]. right. by eapply restore_revision.
Qed.
Lemma execute_quiet command gesture a a' change :
  execute command gesture a = Some (a', Ok change) → quiet a a' ∧ moved a a'.
Proof.
  destruct command; cbn [execute]; intros Hrun.
  - by eapply apply_edit_quiet.
  - by eapply apply_restore_quiet.
  - by eapply apply_restore_quiet.
  - injection Hrun as <- _. split; [done|by left].
  - apply replace_ok in Hrun as (_ & _ & _ & ->). split; [done|by right].
  - apply replace_ok in Hrun as (_ & _ & _ & ->). split; [done|by right].
  - apply instantiate_ok in Hrun as (? & ? & _ & _ & Hrun). by eapply apply_edit_quiet.
  - unfold close_gesture in Hrun. destruct (open_gesture a); [|done]. injection Hrun as <- _. split; [done|by left].
Qed.

(** *** The outcome of a submission

    A submission is answered from a receipt, or decided: run and recorded. What a
    scientific admission adds is that old receipts may leave. *)
Definition decided (envelope : ExperimentCommandEnvelope.t) (acceptance : Acceptance.t) a a' : Prop :=
  replay envelope a = Ok None ∧ check_revision envelope a = Ok () ∧
  ∃ gesture change a1 a2, resolve_gesture envelope a = Some (a1, Ok gesture)
    ∧ execute (ExperimentCommandEnvelope.command envelope) gesture a1 = Some (a2, Ok change)
    ∧ record envelope change a2 = (a', acceptance).
Definition receipts_bounded a a' : Prop :=
  ∃ n, (accepted a = [] ∨ n < length (accepted a)) ∧
    a' = set_accepted (drop n (accepted a))
           (foldl (λ n r, (n - AcceptedRecord.weight r)%N) (retained_commands a) (take n (accepted a))) a.

Lemma submit_inner_accepted envelope acceptance a a' :
  submit_inner envelope a = Some (a', Ok acceptance) →
  (a' = a ∧ replay envelope a = Ok (Some acceptance)) ∨ decided envelope acceptance a a'.
Proof.
  unfold submit_inner. intros (r & s & [-> Hr]%reads_is & Hrun)%method_bind_ok. injection Hr as Hr. destruct r as [recorded|].
  { apply ret_is in Hrun as [-> [= ->]]. by left. }
  right. apply method_bind_ok in Hrun as ([] & s & [-> [= Hc]]%reads_is & Hrun).
  apply method_bind_ok in Hrun as (gesture & a1 & Hg & Hrun). apply method_bind_ok in Hrun as (change & a2 & Hx & Hrun).
  apply returns_is in Hrun as [-> [= ->]]. split_and!; [done..|]. exists gesture, change, a1, a2. split_and!; [done..|].
  by destruct (record envelope change a2).
Qed.
Lemma fitting_bound newest receipts tally n :
  fitting retention newest receipts tally = Ok n → n ≤ length receipts ∧ (newest = true → receipts = [] ∨ n < length receipts).
Proof.
  revert newest tally n. induction receipts as [|r receipts IH]; intros newest tally n; cbn.
  { intros [= <-]. split; [lia|by left]. }
  destruct (include_command _ _ _) as [tally'|].
  - intros [Hn _]%IH. split; [lia|]. right. lia.
  - destruct newest; [done|]. intros [= <-]. split; [lia|done].
Qed.
Lemma bound_scientific_retention_ok a a' : bound_scientific_retention retention a = Ok a' → receipts_bounded a a'.
Proof.
  unfold bound_scientific_retention. intros (tally & _ & Hrun)%result_bind_ok. apply result_bind_ok in Hrun as (n & Hf & [= <-]).
  exists n. split; [|done]. apply fitting_bound in Hf as [_ Hf]. rewrite length_reverse in Hf.
  destruct (Hf eq_refl) as [Hnil|?]; [left|by right]. apply (f_equal reverse) in Hnil. by rewrite reverse_involutive in Hnil.
Qed.
Lemma submit_accepted envelope acceptance a a' :
  submit retention envelope a = Some (a', Ok acceptance) →
  (a' = a ∧ replay envelope a = Ok (Some acceptance)) ∨
  ∃ a1, decided envelope acceptance a a1 ∧
    if receives_scientific_state (ExperimentCommandEnvelope.command envelope) then receipts_bounded a1 a' else a' = a1.
Proof.
  unfold submit. intros (r & s & [-> Hr]%reads_is & Hrun)%method_bind_ok. injection Hr as Hr. destruct r as [recorded|].
  { apply ret_is in Hrun as [-> [= ->]]. by left. }
  right. apply method_bind_ok in Hrun as ([] & s & [-> _]%reads_is & Hrun). destruct (receives_scientific_state _).
  - apply method_bind_ok in Hrun as ([] & s & [-> _]%reads_is & Hrun). unfold admitted in Hrun.
    destruct (submit_inner envelope a) as [[next [accepted|]]|] eqn:Hs; [|done..].
    apply submit_inner_accepted in Hs as [[_ Hr']|Hd]; [by rewrite Hr in Hr'|].
    assert (Acceptance.replayed accepted = false) as Hnew.
    { destruct Hd as (_ & _ & ? & ? & ? & ? & _ & _ & Hrec). unfold record in Hrec. destruct (evict _ _). by injection Hrec as _ <-. }
    rewrite Hnew in Hrun. cbn in Hrun. destruct (bound_scientific_retention _ _) eqn:Hb; [|done]. injection Hrun as <- <-.
    exists next. split; [done|]. by apply bound_scientific_retention_ok.
  - apply submit_inner_accepted in Hrun as [[_ Hr']|Hd]; [by rewrite Hr in Hr'|]. by exists a'.
Qed.
Lemma submit_with_schemas_accepted envelope schemas_ acceptance a a' :
  submit_with_schemas retention envelope schemas_ a = Some (a', Ok acceptance) →
  (a' = a ∧ replay envelope a = Ok (Some acceptance)) ∨
  ∃ a0 a1, (a0 = a ∨ a0 = (adopt_schemas schemas_ (ExperimentCommandEnvelope.actor envelope) a).1)
    ∧ decided envelope acceptance a0 a1 ∧ receipts_bounded a1 a'.
Proof.
  unfold submit_with_schemas. intros (r & s & [-> Hr]%reads_is & Hrun)%method_bind_ok. injection Hr as Hr. destruct r as [recorded|].
  { apply ret_is in Hrun as [-> [= ->]]. by left. }
  right. apply method_bind_ok in Hrun as ([] & s & [-> _]%reads_is & Hrun).
  apply method_bind_ok in Hrun as ([] & s & [-> _]%reads_is & Hrun). unfold admitted in Hrun.
  match type of Hrun with match ?m with _ => _ end = _ => destruct m as [[next [accepted|]]|] eqn:Hs end; [|done..]. cbn in Hrun.
  destruct (bound_scientific_retention _ _) eqn:Hb; [|done]. injection Hrun as <- <-. apply bound_scientific_retention_ok in Hb.
  apply method_bind_ok in Hs as ([] & s1 & [-> _]%modify_is & Hs). eexists _, next. split; [|split; [|done]]; cycle 1.
  - apply submit_inner_accepted in Hs as [[_ Hr']|Hd]; [|done]. exfalso.
    destruct (schema_registry_eq _ _); (change (replay envelope a = Ok (Some accepted)) in Hr'; by rewrite Hr in Hr').
  - destruct (schema_registry_eq _ _); [by left|by right].
Qed.

(** What a submission may have published before it was refused. *)
Definition closed_by (envelope : ExperimentCommandEnvelope.t) a a' : Prop :=
  ∃ open, open_gesture a = Some open ∧ ExperimentCommandEnvelope.gesture envelope = None
    ∧ a' = publish_implicit_gesture_close envelope open a.
Lemma resolve_gesture_is envelope a a' r :
  resolve_gesture envelope a = Some (a', r) → a' = a ∨ (r = Ok None ∧ closed_by envelope a a').
Proof.
  unfold resolve_gesture, closed_by. destruct (ExperimentCommandEnvelope.gesture envelope) as [named|], (open_gesture a) as [open|].
  - case_bool_decide; intros [= <- <-]; by left.
  - intros [= <- <-]. by left.
  - destruct (ExperimentCommandEnvelope.command envelope); intros [= <- <-]; eauto 7.
  - intros [= <- <-]. by left.
Qed.
Lemma submit_inner_refused envelope a a' e :
  submit_inner envelope a = Some (a', Err e) → a' = a ∨ closed_by envelope a a'.
Proof.
  unfold submit_inner. intros Hrun. apply method_bind_err in Hrun as [[-> _]%reads_is|(r & s & [-> _]%reads_is & Hrun)]; [by left|].
  destruct r as [acceptance|]; [by apply ret_is in Hrun as [_ ?]|].
  apply method_bind_err in Hrun as [[-> _]%reads_is|([] & s1 & [-> _]%reads_is & Hrun)]; [by left|].
  apply method_bind_err in Hrun as [[->|[? _]]%resolve_gesture_is|(g & s2 & Hg & Hrun)]; [by left|done|].
  assert (a' = s2) as ->; [|apply resolve_gesture_is in Hg as [->|[_ ?]]; [by left|by right]].
  apply method_bind_err in Hrun as [Hrun%execute_refuses_first|(? & ? & _ & [_ ?]%returns_is)]; done.
Qed.
Lemma admitted_refuses_first m keep_replayed : refuses_first (admitted retention m keep_replayed).
Proof.
  unfold refuses_first, admitted. intros a a' e. destruct (m a) as [[next [accepted|e']]|]; [|by intros [= <- _]|done].
  destruct (_ && _); [done|]. destruct (bound_scientific_retention _ _); [done|]. by intros [= <- _].
Qed.

Lemma submit_refused envelope a a' e :
  submit retention envelope a = Some (a', Err e) →
  a' = a ∨ (receives_scientific_state (ExperimentCommandEnvelope.command envelope) = false ∧ closed_by envelope a a').
Proof.
  unfold submit. intros Hrun. apply method_bind_err in Hrun as [[-> _]%reads_is|(r & s & [-> _]%reads_is & Hrun)]; [by left|].
  destruct r as [acceptance|]; [by apply ret_is in Hrun as [_ ?]|].
  apply method_bind_err in Hrun as [[-> _]%reads_is|([] & s1 & [-> _]%reads_is & Hrun)]; [by left|].
  destruct (receives_scientific_state _); [|apply submit_inner_refused in Hrun as [->|?]; auto].
  apply method_bind_err in Hrun as [[-> _]%reads_is|([] & s2 & [-> _]%reads_is & Hrun)]; [by left|].
  left. by eapply admitted_refuses_first.
Qed.
Lemma submit_with_schemas_refused envelope schemas_ : refuses_first (submit_with_schemas retention envelope schemas_).
Proof.
  apply (refuses_first_reads_bind _ _). intros [acceptance|]; [apply refuses_first_never; auto with refusals|].
  do 2 (apply refuses_first_reads_bind; intros []). apply admitted_refuses_first.
Qed.

(** C32: A refused submission costs nothing: the authority keeps its contents,
    revision, history, receipts, target and installed schemas. The one trace a
    refusal may leave is the implicit close of the gesture that was open, with
    its event, when the request named no gesture and carried no scientific
    state. *)
Theorem refused_submission envelope schemas_ a a' e :
  (submit retention envelope a = Some (a', Err e) →
     a' = a ∨ (receives_scientific_state (ExperimentCommandEnvelope.command envelope) = false
               ∧ ∃ open, open_gesture a = Some open ∧ ExperimentCommandEnvelope.gesture envelope = None
                   ∧ a' = publish_implicit_gesture_close envelope open a))
  ∧ (submit_with_schemas retention envelope schemas_ a = Some (a', Err e) → a' = a).
Proof. split; [apply submit_refused|apply submit_with_schemas_refused]. Qed.
End submitted.
