(* ===== verification/Served.v ===== *)
(** * Sessions of the document authority (kagami-session, authority.rs)

    Everything a client hears of a session: what the log of events retains, what a
    receipt replays, and what a revision names. *)

From stdpp Require Import base gmap strings list.
From S2P Require Import Prelude Identity Action Binary64 Quantity Expression Namespace Evaluation Variables Reached PluginIds Lock Schema Geometry Document Experiment Validate Edit Settled History Compose Equality Store Session Authority Submitted.
Import DocumentAuthority.
#[local] Open Scope partial_eq_scope.
#[local] Arguments next_u64 : simpl never.

(** ** The retained window of the log *)
Definition window (log : list ExperimentEvent.t) : list ExperimentEvent.t :=
  drop (length log - N.to_nat MAX_EVENT_HISTORY) log.
Definition number (event : ExperimentEvent.t) : N := EventSeq.get (ExperimentEvent.seq event).
(** Numbered consecutively from the one after [from]. *)
Definition numbered (from : nat) (log : list ExperimentEvent.t) : Prop :=
  ∀ i event, log !! i = Some event → number event = N.of_nat (from + i + 1).

Lemma window_window log es : window (window log ++ es) = window (log ++ es).
Proof.
  unfold window. rewrite !length_app, length_drop. set (m := N.to_nat MAX_EVENT_HISTORY).
  destruct (le_lt_dec (length log) m).
  - by replace (length log - m) with 0 by lia; rewrite drop_0, Nat.sub_0_r.
  - replace (length log + length es - m) with ((length log - m) + (length log - (length log - m) + length es - m)) by lia.
    rewrite <- drop_drop. f_equal. by rewrite drop_app_le by lia.
Qed.
Lemma numbered_app from log es : numbered from (log ++ es) ↔ numbered from log ∧ numbered (from + length log) es.
Proof.
  unfold numbered. split.
  - intros Hn. split.
    + intros i e Hi. apply Hn. by apply lookup_app_l_Some.
    + intros i e Hi. rewrite (Hn (length log + i) e); [f_equal; lia|]. by rewrite lookup_app_r, Nat.add_sub' by lia.
  - intros [Hl He] i e [Hi|[Hlen Hi]]%lookup_app_Some; [by apply Hl|]. rewrite (He _ _ Hi). f_equal. lia.
Qed.
Lemma numbered_drop from log n : n ≤ length log → numbered from log → numbered (from + n) (drop n log).
Proof. intros Hn Hlog. rewrite <- (take_drop n log) in Hlog. apply numbered_app in Hlog as [_ Hd]. by rewrite length_take_le in Hd. Qed.
Lemma filter_numbered seq_ log : ∀ from, numbered from log →
  filter (λ event, (seq_ < number event)%N) log = drop (N.to_nat seq_ - from) log.
Proof.
  induction log as [|e log IH]; intros from Hn; [by rewrite drop_nil|].
  assert (number e = N.of_nat (from + 1)) as He by (rewrite (Hn 0 e eq_refl); f_equal; lia).
  assert (numbered (S from) log) as Hn'.
  { intros i e' Hi. rewrite (Hn (S i) e' Hi). f_equal. lia. }
  rewrite filter_cons, (IH _ Hn'). case_decide as Hd.
  - replace (N.to_nat seq_ - from) with 0 by lia. by replace (N.to_nat seq_ - S from) with 0 by lia.
  - by replace (N.to_nat seq_ - from) with (S (N.to_nat seq_ - S from)) by lia.
Qed.

(** ** Receipts *)
Section weights.
Context `{Scientific}.
Definition weights (l : list AcceptedRecord.t) : N := foldr (λ r n, (AcceptedRecord.weight r + n)%N) 0%N l.
Definition fits (l : list AcceptedRecord.t) : Prop :=
  (lenN l ≤ MAX_COMMAND_HISTORY)%N ∧ (weights l ≤ MAX_REPLAY_COMMANDS)%N.
(** The longest suffix that fits. *)
Definition newest_fitting (l kept : list AcceptedRecord.t) : Prop :=
  ∃ n, kept = drop n l ∧ fits kept ∧ ∀ m, m < n → ¬ fits (drop m l).

Lemma weights_app l k : weights (l ++ k) = (weights l + weights k)%N.
Proof. induction l as [|r l IH]; [done|]. cbn [weights foldr app]. fold (weights (l ++ k)) (weights l). rewrite IH. lia. Qed.
Lemma fits_drop n l : fits l → fits (drop n l).
Proof.
  intros [Hl Hw]. rewrite <- (take_drop n l) in Hl, Hw. rewrite weights_app in Hw. unfold fits, lenN in *. rewrite length_app in Hl. lia.
Qed.
Lemma evict_newest l : (evict l (weights l)).2 = weights (evict l (weights l)).1 ∧ newest_fitting l (evict l (weights l)).1.
Proof.
  induction l as [|r l IH].
  { cbn. split; [done|]. exists 0. split_and!; [done|by split|lia]. }
  cbn [evict weights foldr]. fold (weights l). destruct (_ || _) eqn:Hover.
  - replace (AcceptedRecord.weight r + weights l - AcceptedRecord.weight r)%N with (weights l) by lia.
    destruct IH as [Hw (n & Hk & Hfit & Hmost)]. split; [done|]. exists (S n). split_and!; [done|done|].
    intros [|m] Hm; [|cbn; apply Hmost; lia]. intros [Hl Hr]. cbn [drop] in Hl, Hr. cbn [weights foldr] in Hr. fold (weights l) in Hr.
    apply orb_true_iff in Hover as [?%N.ltb_lt|?%N.ltb_lt]; lia.
  - apply orb_false_iff in Hover as [?%N.ltb_ge ?%N.ltb_ge]. cbn [fst snd]. split; [done|]. exists 0. split_and!; [done|by split|lia].
Qed.
Lemma newest_fitting_last l r kept :
  (AcceptedRecord.weight r ≤ MAX_REPLAY_COMMANDS)%N → newest_fitting (l ++ [r]) kept → r ∈ kept.
Proof.
  intros Hr (n & -> & _ & Hmost). destruct (le_lt_dec n (length l)) as [?|Hn].
  - rewrite drop_app_le by done. apply elem_of_app. right. by left.
  - exfalso. apply (Hmost (length l) Hn). rewrite drop_app_length. unfold fits, lenN. cbn [length weights foldr]. split; [done|lia].
Qed.
End weights.

(** ** Sessions *)
Section served.
Context `{Scientific} `{Catalog} `{!ScientificValidation} `{!ScientificEq} `{Unicode} `{Libm} `{LockCodec} `{SchemaEq} (retention : Retention.t).
Implicit Types a : DocumentAuthority.t.

(** The methods that change an authority. *)
Inductive request : Type :=
  | Submit (envelope : ExperimentCommandEnvelope.t)
  | SubmitWithSchemas (envelope : ExperimentCommandEnvelope.t) (schemas_ : SchemaRegistry.t)
  | AdoptSchemas (schemas_ : SchemaRegistry.t) (actor : ActorId.t)
  | AdoptCatalog (catalog_ : CatalogSet)
  | AcknowledgeSave (revision_ : ExperimentRevision.t) (target_ : DocumentTarget.t)
  | ClearHistory.
Definition perform (r : request) a : option DocumentAuthority.t :=
  match r with
  | Submit envelope => fst <$> submit retention envelope a
  | SubmitWithSchemas envelope schemas => fst <$> submit_with_schemas retention envelope schemas a
  | AdoptSchemas schemas actor => Some (adopt_schemas schemas actor a).1
  | AdoptCatalog catalog => Some (adopt_catalog catalog a)
  | AcknowledgeSave revision target => Some (acknowledge_save revision target a).1
  | ClearHistory => Some (clear_history a)
  end.

(** The 64-bit counters of events and revisions have not run out. *)
Definition room a : Prop :=
  (EventSeq.get (next_event a) + 3 < 2 ^ 64 ∧ ExperimentRevision.get (revision a) + 1 < 2 ^ 64)%N.

(** What permitted requests made of [start], and all a client heard that asked for
    news after every request. *)
Inductive session (permitted : request → DocumentAuthority.t → Prop) (start : DocumentAuthority.t)
    : list ExperimentEvent.t → DocumentAuthority.t → Prop :=
  | session_start : session permitted start [] start
  | session_step log a r a' :
      session permitted start log a → permitted r a → room a → perform r a = Some a' →
      session permitted start (log ++ events_since (next_event a) a') a'.

(** A receipt names one event of the log, which says what its command did. *)
Definition receipt_of (log : list ExperimentEvent.t) (r : AcceptedRecord.t) : Prop :=
  let envelope := AcceptedRecord.envelope r in let acceptance := AcceptedRecord.acceptance r in
  Acceptance.command_id acceptance = ExperimentCommandEnvelope.command_id envelope
  ∧ Acceptance.replayed acceptance = false
  ∧ ExperimentEvent.mk (Acceptance.event acceptance) (Acceptance.revision acceptance)
      (Some (ExperimentCommandEnvelope.command_id envelope)) (ExperimentCommandEnvelope.actor envelope)
      (Acceptance.change acceptance) ∈ log.
Definition identity_of (r : AcceptedRecord.t) : CommandId.t := ExperimentCommandEnvelope.command_id (AcceptedRecord.envelope r).

Record served (log : list ExperimentEvent.t) a : Prop := {
  served_numbered : numbered 0 log;
  served_next : EventSeq.get (next_event a) = lenN log;
  served_events : events a = window log;
  served_receipts : Forall (receipt_of log) (accepted a);
  served_identities : NoDup (identity_of <$> accepted a);
  served_retained : retained_commands a = weights (accepted a);
  served_fits : fits (accepted a)
}.

Lemma served_quiet log a a' : served log a → quiet a a' → served log a'.
Proof. intros [] [He Hn Ha Hr _]. split; rewrite ?He, ?Hn, ?Ha, ?Hr; done. Qed.
Lemma served_new schemas_ limits_ : served [] (new schemas_ limits_).
Proof. split; try done. constructor. Qed.
Lemma receipt_app log es r : receipt_of log r → receipt_of (log ++ es) r.
Proof. intros (Hc & Hr & He). split_and!; [done..|]. apply elem_of_app. by left. Qed.
Lemma next_roomy n : (n + 1 < 2 ^ 64)%N → next_u64 n = (n + 1)%N.
Proof. intros. by apply N.mod_small. Qed.

Lemma served_push log a command_id actor change :
  served log a → (lenN log + 1 < 2 ^ 64)%N →
  served (log ++ [ExperimentEvent.mk (EventSeq.next (next_event a)) (revision a) command_id actor change])
    (push_event command_id actor change a).
Proof.
  intros [Hn Hnext Hev Hrec Hids Hret Hfit] Hroom. unfold push_event. set (e := ExperimentEvent.mk _ _ _ _ _).
  assert (EventSeq.get (EventSeq.next (next_event a)) = N.of_nat (length log + 1)) as Hseq.
  { cbn [EventSeq.next EventSeq.get]. rewrite Hnext, next_roomy by done. unfold lenN. lia. }
  split; try done.
  - apply numbered_app. split; [done|]. intros [|i] e' [= <-]. unfold number. cbn [ExperimentEvent.seq e]. rewrite Hseq. f_equal. lia.
  - change (EventSeq.get (EventSeq.next (next_event a)) = lenN (log ++ [e])). rewrite Hseq. unfold lenN. by rewrite length_app.
  - change (window (events a ++ [e]) = window (log ++ [e])). rewrite Hev. apply window_window.
  - change (accepted _) with (accepted a). eapply Forall_impl; [done|]. intros r. apply receipt_app.
Qed.
Lemma served_set_accepted log a l n :
  served log a → Forall (receipt_of log) l → NoDup (identity_of <$> l) → n = weights l → fits l → served log (set_accepted l n a).
Proof. intros [] ? ? ? ?. by split. Qed.

Lemma NoDup_drop_fmap (l : list AcceptedRecord.t) n : NoDup (identity_of <$> l) → NoDup (identity_of <$> drop n l).
Proof. rewrite <- (take_drop n l) at 1. rewrite fmap_app, NoDup_app. by intros (_ & _ & ?). Qed.
Lemma replay_none envelope a :
  replay envelope a = Ok None → ExperimentCommandEnvelope.command_id envelope ∉ identity_of <$> accepted a.
Proof.
  unfold replay. destruct (list_find _ _) as [[i r]|] eqn:Hf; [by destruct (negb _)|]. intros _ Hin.
  apply list_elem_of_fmap in Hin as (r & Heq & Hin). apply list_find_None in Hf. rewrite Forall_forall in Hf. by apply (Hf r Hin).
Qed.
Lemma replay_receipt envelope r a :
  NoDup (identity_of <$> accepted a) → r ∈ accepted a → ExperimentCommandEnvelope.command_id envelope = identity_of r →
  replay envelope a =
    if AcceptedRecord.envelope r == envelope then Ok (Some (Acceptance.set_replayed true (AcceptedRecord.acceptance r)))
    else Err (SessionRejection.CommandIdentityConflict (ExperimentCommandEnvelope.command_id envelope)).
Proof.
  intros Hnd Hr Hid. unfold replay. destruct (list_find _ _) as [[i r']|] eqn:Hf.
  - apply list_find_Some in Hf as (Hi & Hid' & _). assert (r' = r) as ->; [|by destruct (_ == _)].
    apply list_elem_of_lookup in Hr as [j Hj].
    assert (i = j) as ->; [|congruence]. eapply NoDup_lookup; [done|..]; rewrite list_lookup_fmap.
    + by rewrite Hi.
    + rewrite Hj. cbn. f_equal. unfold identity_of in *. congruence.
  - apply list_find_None in Hf. rewrite Forall_forall in Hf. by destruct (Hf r Hr).
Qed.
Lemma elem_of_newest_fitting l kept r : newest_fitting l kept → r ∈ kept → r ∈ l.
Proof. intros (n & -> & _). rewrite <- (take_drop n l) at 2. rewrite elem_of_app. by right. Qed.

Lemma served_record log envelope change a a' acceptance :
  served log a → (lenN log + 1 < 2 ^ 64)%N →
  ExperimentCommandEnvelope.command_id envelope ∉ identity_of <$> accepted a →
  record envelope change a = (a', acceptance) →
  ∃ e, served (log ++ [e]) a' ∧ newest_fitting (accepted a ++ [AcceptedRecord.mk envelope acceptance]) (accepted a')
    ∧ experiment a' = experiment a.
Proof.
  intros Hs Hroom Hfresh. unfold record.
  set (p := push_event _ _ change a). apply served_push with (command_id := Some (ExperimentCommandEnvelope.command_id envelope))
    (actor := ExperimentCommandEnvelope.actor envelope) (change := change) in Hs as Hp; [|done]. fold p in Hp.
  set (acc := Acceptance.mk _ _ _ _ _). set (r := AcceptedRecord.mk envelope acc).
  assert (retained_commands p + AcceptedRecord.weight r = weights (accepted p ++ [r]))%N as ->.
  { rewrite weights_app, (served_retained _ _ Hp). cbn [weights foldr]. lia. }
  destruct (evict_newest (accepted p ++ [r])) as [Hw Hkept]. destruct (evict _ _) as [kept retained]. cbn [fst snd] in *.
  intros [= <- <-]. eexists. split_and!; [|done|done]. destruct Hkept as (n & -> & Hfit & _).
  apply served_set_accepted; [done|..|done|done].
  - apply Forall_drop, Forall_app. split; [apply Hp|]. constructor; [|constructor]. split_and!; [done..|].
    apply elem_of_app. right. by left.
  - apply NoDup_drop_fmap. rewrite fmap_app, NoDup_app. split_and!; [apply Hp| |apply NoDup_singleton].
    intros id Hid ->%list_elem_of_singleton. by apply Hfresh.
Qed.

Lemma weights_dropped l n total :
  total = weights l → foldl (λ n r, (n - AcceptedRecord.weight r)%N) total (take n l) = weights (drop n l).
Proof.
  revert n total. induction l as [|r l IH]; intros n total ->; [by rewrite take_nil, drop_nil|]. destruct n as [|n]; [done|].
  cbn [take drop foldl]. apply IH. cbn [weights foldr]. fold (weights l). lia.
Qed.
Lemma served_bounded log a a' : served log a → receipts_bounded a a' → served log a' ∧ experiment a' = experiment a.
Proof.
  intros Hs (n & _ & ->). split; [|done]. destruct Hs as [? ? ? Hrec Hids Hret Hfit].
  apply served_set_accepted; [by split|by apply Forall_drop|by apply NoDup_drop_fmap|by apply weights_dropped|by apply fits_drop].
Qed.

Lemma served_decided log envelope acceptance a a' :
  served log a → (lenN log + 2 < 2 ^ 64)%N → decided envelope acceptance a a' →
  ∃ es, length es ≤ 2 ∧ served (log ++ es) a' ∧ moved a a'
    ∧ newest_fitting (accepted a ++ [AcceptedRecord.mk envelope acceptance]) (accepted a').
Proof.
  intros Hs Hroom (Hfresh%replay_none & _ & gesture & change & a1 & a2 & Hg & Hx & Hrec).
  assert (∃ es, length es ≤ 1 ∧ served (log ++ es) a1 ∧ accepted a1 = accepted a ∧ experiment a1 = experiment a)
    as (es & Hes & Hs1 & Hacc & Hexp).
  { apply resolve_gesture_is in Hg as [->|[_ (open & _ & _ & ->)]].
    - exists []. rewrite app_nil_r. split_and!; [cbn; lia|done..].
    - eexists [_]. split_and!; [cbn; lia| |done|done]. apply served_push; [|lia]. by apply (served_quiet log a). }
  apply execute_quiet in Hx as [Hq Hmoved]. pose proof (served_quiet _ _ _ Hs1 Hq) as Hs2.
  assert (accepted a2 = accepted a) as Hacc2 by (rewrite <- Hacc; apply Hq).
  assert (lenN (log ++ es) + 1 < 2 ^ 64)%N as Hroom2 by (unfold lenN in *; rewrite length_app; lia).
  rewrite <- Hacc2 in Hfresh. destruct (served_record _ _ _ _ _ _ Hs2 Hroom2 Hfresh Hrec) as (e & Hs' & Hnew & Hexp').
  exists (es ++ [e]). rewrite app_assoc. rewrite Hacc2 in Hnew. split_and!; [rewrite length_app; cbn; lia|done| |done].
  destruct Hmoved as [He|Hr]; [left; congruence|right]. unfold revision in *. by rewrite Hexp', Hr, Hexp.
Qed.

Lemma acknowledge_quiet revision_ target_ a :
  let a' := (acknowledge_save revision_ target_ a).1 in quiet a a' ∧ experiment a' = experiment a.
Proof. unfold acknowledge_save. destruct (acknowledged_revision a); repeat case_match; done. Qed.

(** One request: what it adds to the log, and that it moves the contents under a
    new revision or not at all. *)
Lemma served_perform log r a a' :
  served log a → room a → perform r a = Some a' → ∃ es, length es ≤ 3 ∧ served (log ++ es) a' ∧ moved a a'.
Proof.
  intros Hs [Hroom _] Hrun. rewrite (served_next _ _ Hs) in Hroom.
  assert (served log a → quiet a a' → moved a a' → ∃ es, length es ≤ 3 ∧ served (log ++ es) a' ∧ moved a a') as Hquiet.
  { intros _ Hq ?. exists []. rewrite app_nil_r. split_and!; [cbn; lia| |done]. by eapply served_quiet. }
  assert (∀ schemas_ actor, let a1 := (adopt_schemas schemas_ actor a).1 in
    ∃ e, served (log ++ [e]) a1 ∧ experiment a1 = experiment a) as Hadopt.
  { intros schemas_ actor. eexists. split; [apply served_push; [by apply (served_quiet log a)|lia]|done]. }
  destruct r; cbn [perform] in Hrun.
  - destruct (submit _ _ _) as [[a1 [acceptance|e]]|] eqn:Hsub; [..|done]; injection Hrun as <-.
    + apply submit_accepted in Hsub as [[-> _]|(a2 & Hd & Hb)]; [apply Hquiet; [done..|by left]|].
      apply served_decided with (log := log) in Hd as (es & Hes & Hs2 & Hm & _); [|done|lia].
      exists es. split; [lia|]. destruct (receives_scientific_state _); [|by subst].
      apply served_bounded with (log := log ++ es) in Hb as [? He]; [|done]. split; [done|].
      destruct Hm as [?|Hm]; [left; congruence|right]. unfold revision in *. by rewrite He.
    + assert (a1 = a ∨ closed_by envelope a a1) as [->|(open & _ & _ & ->)]; [|apply Hquiet; [done..|by left]|].
      { apply submit_refused in Hsub as [?|[_ ?]]; auto. }
      eexists [_]. split_and!; [cbn; lia| |by left]. apply served_push; [by apply (served_quiet log a)|lia].
  - destruct (submit_with_schemas _ _ _ _) as [[a1 [acceptance|e]]|] eqn:Hsub; [..|done]; injection Hrun as <-.
    + apply submit_with_schemas_accepted in Hsub as [[-> _]|(a0 & a2 & Ha0 & Hd & Hb)]; [apply Hquiet; [done..|by left]|].
      assert (∃ es, length es ≤ 1 ∧ served (log ++ es) a0 ∧ experiment a0 = experiment a) as (es0 & Hes0 & Hs0 & He0).
      { destruct Ha0 as [->| ->]; [exists []; rewrite app_nil_r; split_and!; [cbn; lia|done..]|]. destruct (Hadopt schemas_ (ExperimentCommandEnvelope.actor envelope)) as (e & ? & ?). exists [e]. split_and!; [cbn; lia|done..]. }
      apply served_decided with (log := log ++ es0) in Hd as (es & Hes & Hs2 & Hm & _); [|done|].
      * exists (es0 ++ es). rewrite app_assoc. apply served_bounded with (log := (log ++ es0) ++ es) in Hb as [? He]; [|done].
        split_and!; [rewrite length_app; lia|done|]. unfold moved, revision in *. rewrite He, <- He0. done.
      * unfold lenN in *. rewrite length_app. lia.
    + apply submit_with_schemas_refused in Hsub as ->. apply Hquiet; [done..|by left].
  - injection Hrun as <-. destruct (Hadopt schemas_ actor) as (e & ? & ?). exists [e]. split_and!; [cbn; lia|done|by left].
  - injection Hrun as <-. apply Hquiet; [done..|by left].
  - injection Hrun as <-. apply Hquiet; [done|by apply acknowledge_quiet|]. left. by apply acknowledge_quiet.
  - injection Hrun as <-. apply Hquiet; [done..|by left].
Qed.

(** ** What a client hears *)
Lemma events_since_window log a seq_ :
  served log a → events_since seq_ a = drop (N.to_nat (EventSeq.get seq_) `max` (length log - N.to_nat MAX_EVENT_HISTORY)) log.
Proof.
  intros [Hn _ Hev _ _ _ _]. unfold events_since. rewrite Hev. unfold window.
  set (m := length log - N.to_nat MAX_EVENT_HISTORY). assert (m ≤ length log) as Hm by lia.
  change (filter _ _) with (filter (λ event, (EventSeq.get seq_ < number event)%N) (drop m log)).
  rewrite (filter_numbered _ _ _ (numbered_drop _ _ _ Hm Hn)), drop_drop. f_equal. lia.
Qed.
Lemma served_heard log es a a' :
  served log a → length es ≤ N.to_nat MAX_EVENT_HISTORY → served (log ++ es) a' → events_since (next_event a) a' = es.
Proof.
  intros Hs Hes Hs'. rewrite (events_since_window _ _ _ Hs'), (served_next _ _ Hs). unfold lenN. rewrite Nat2N.id, length_app.
  rewrite Nat.max_l by lia. apply drop_app_length.
Qed.
Lemma session_served permitted past start log a : served past start → session permitted start log a → served (past ++ log) a.
Proof.
  intros Hstart Hs. induction Hs as [|log a r a' Hs IH _ Hroom Hrun]; [by rewrite app_nil_r|].
  destruct (served_perform _ _ _ _ IH Hroom Hrun) as (es & Hes & Hs' & _). rewrite app_assoc.
  rewrite (served_heard _ es _ _ IH); [done| |done]. change (N.to_nat MAX_EVENT_HISTORY) with 256. lia.
Qed.

(** The log of a session numbers its events one by one from the first, and the
    authority retains the last 256 of them. A client that has heard everything up
    to an event the session published is told it can catch up exactly when what it
    is then given is everything published since. *)
Theorem catch_up_exact permitted schemas_ limits_ log a (Hsession : session permitted (new schemas_ limits_) log a) :
  numbered 0 log ∧ EventSeq.get (next_event a) = lenN log ∧ events a = window log
  ∧ ∀ seq_, (EventSeq.get seq_ ≤ lenN log)%N → (EventSeq.get seq_ + 1 < 2 ^ 64)%N →
      (can_catch_up_from seq_ a = true ↔ events_since seq_ a = filter (λ event, (EventSeq.get seq_ < number event)%N) log).
Proof.
  pose proof (session_served _ [] _ _ _ (served_new _ _) Hsession : served log a) as Hs. pose proof Hs as [Hn Hnext Hev _ _ _ _].
  split_and!; [done..|]. intros seq_ Hseq Hroom. rewrite (filter_numbered _ _ _ Hn), (events_since_window _ _ _ Hs).
  set (m := length log - N.to_nat MAX_EVENT_HISTORY). set (k := N.to_nat (EventSeq.get seq_)).
  assert (k ≤ length log) as Hk by (unfold lenN in Hseq; lia).
  transitivity (m ≤ k).
  - unfold can_catch_up_from. destruct (events a) as [|oldest rest] eqn:Hevents.
    + symmetry in Hev. unfold window in Hev. apply (f_equal length) in Hev. rewrite length_drop in Hev. cbn in Hev.
      assert (N.to_nat MAX_EVENT_HISTORY = 256) as Hmax by done. rewrite N.leb_le, Hnext. unfold lenN in *. lia.
    + assert (number oldest = N.of_nat (0 + m + 1)) as Hold.
      { rewrite <- (Nat.add_0_r (0 + m)). apply (numbered_drop 0 log m ltac:(lia) Hn 0). change (drop m log) with (window log); by rewrite <- Hev. }
      unfold number in Hold. rewrite N.leb_le, Hold. cbn [EventSeq.next EventSeq.get]. rewrite next_roomy by done. lia.
  - replace (k - 0) with k by lia. split; [intros Hmk; by rewrite Nat.max_l|].
    intros Heq%(f_equal length). rewrite !length_drop in Heq. lia.
Qed.

(** ** What a revision names *)
Lemma moved_up a a' :
  room a → moved a a' →
  (ExperimentRevision.get (revision a) ≤ ExperimentRevision.get (revision a'))%N
  ∧ (revision a = revision a' → experiment a = experiment a').
Proof.
  intros [_ Hroom] [He|Hr]; [unfold revision in *; rewrite He; split; [lia|done]|]. rewrite Hr. cbn [ExperimentRevision.next ExperimentRevision.get].
  rewrite next_roomy by done. split; [lia|]. intros Heq%(f_equal ExperimentRevision.get). cbn in Heq.
  rewrite next_roomy in Heq by done. lia.
Qed.
Lemma session_moved permitted past start log a :
  served past start → session permitted start log a →
  (ExperimentRevision.get (revision start) ≤ ExperimentRevision.get (revision a))%N
  ∧ (revision start = revision a → experiment start = experiment a).
Proof.
  intros Hstart Hs. induction Hs as [|log a r a' Hs [IHle IHeq] _ Hroom Hrun]; [split; [lia|done]|].
  destruct (served_perform _ _ _ _ (session_served _ _ _ _ _ Hstart Hs) Hroom Hrun) as (es & _ & _ & Hm).
  destruct (moved_up _ _ Hroom Hm) as [Hle Heq]. split; [lia|]. intros Hr.
  assert (revision start = revision a) as Hsame.
  { destruct (revision start) as [n], (revision a) as [k], (revision a') as [j]. cbn in *. injection Hr as ->. f_equal. lia. }
  rewrite IHeq by done. apply Heq. congruence.
Qed.

(** C15: A revision names the contents a client saw: while a session runs its
    revision never goes back, and when it is what it was at some earlier moment the
    experiment is too. So a request guarded by the revision a client read is
    decided on the very contents it read, and a save that is acknowledged as clean
    wrote the contents in force. *)
Theorem revision_names_contents permitted schemas_ limits_ log past a later a'
    (Hbefore : session permitted (new schemas_ limits_) log past) (Hread : session permitted past later a) :
  (ExperimentRevision.get (revision past) ≤ ExperimentRevision.get (revision a))%N
  ∧ (revision past = revision a → experiment past = experiment a)
  ∧ (∀ envelope acceptance, ExperimentCommandEnvelope.expected_revision envelope = Some (revision past) →
       submit retention envelope a = Some (a', Ok acceptance) →
       experiment a = experiment past ∨ a' = a ∧ replay envelope a = Ok (Some acceptance))
  ∧ (∀ target_, (acknowledge_save (revision past) target_ a).2 = SaveAcknowledgement.Clean ↔
       revision past = revision a ∧
       ∀ acknowledged, acknowledged_revision a = Some acknowledged →
         (ExperimentRevision.get acknowledged ≤ ExperimentRevision.get (revision past))%N).
Proof.
  pose proof (session_moved _ _ _ _ _ (session_served _ [] _ _ _ (served_new _ _) Hbefore) Hread) as [Hle Heq].
  split_and!; [done|done| |].
  - intros envelope acceptance Hguard [[-> Hr]|(a1 & (_ & Hc & _) & _)]%submit_accepted; [by right|left].
    unfold check_revision in Hc. rewrite Hguard in Hc. case_bool_decide as Hsame; [|done]. symmetry. by apply Heq.
  - intros target_. unfold acknowledge_save. destruct (acknowledged_revision a) as [acknowledged|].
    + destruct (N.ltb_spec (ExperimentRevision.get (revision past)) (ExperimentRevision.get acknowledged)).
      * split; [done|]. intros [_ Hall]. specialize (Hall _ eq_refl). lia.
      * case_bool_decide; (split; [|by intros [? _]]); [|done]. intros _. split; [done|]. by intros ? [= <-].
    + case_bool_decide; (split; [|by intros [? _]]); [|done]. by intros _.
Qed.

(** ** What a receipt answers *)
Lemma submit_replayed envelope installed a (answer : result SessionRejection.t Acceptance.t) :
  replay envelope a = (acceptance ← answer; Ok (Some acceptance)) →
  submit retention envelope a = Some (a, answer) ∧ submit_with_schemas retention envelope installed a = Some (a, answer).
Proof.
  intros Hreplay. unfold submit, submit_with_schemas.
  assert (∀ f : option Acceptance.t → method DocumentAuthority.t SessionRejection.t Acceptance.t,
    (∀ x, f (Some x) = mret x) → (recorded ← reads (λ a, Prelude.answer (replay envelope a)); f recorded) a = Some (a, answer)) as Hf.
  { intros f Hx. unfold mbind, method_bind, reads. rewrite Hreplay. destruct answer as [x|]; [|done]. cbn. by rewrite Hx. }
  split; by apply Hf.
Qed.

(** C16: Sending a request again replays it. While the authority holds the receipt
    of an accepted request, the same request is answered with the recorded
    acceptance, marked as replayed, another request under its identity is refused,
    and neither changes anything. The receipt names the one event of the log that
    says what the request did, under whose name. *)
Theorem resubmission_replays permitted schemas_ limits_ log a r envelope installed
    (Hsession : session permitted (new schemas_ limits_) log a) (Hr : r ∈ accepted a)
    (Hid : ExperimentCommandEnvelope.command_id envelope = identity_of r) :
  let answer :=
    if AcceptedRecord.envelope r == envelope then Ok (Acceptance.set_replayed true (AcceptedRecord.acceptance r))
    else Err (SessionRejection.CommandIdentityConflict (ExperimentCommandEnvelope.command_id envelope)) in
  submit retention envelope a = Some (a, answer)
  ∧ submit_with_schemas retention envelope installed a = Some (a, answer)
  ∧ receipt_of log r ∧ ∀ r', r' ∈ accepted a → identity_of r' = identity_of r → r' = r.
Proof.
  cbn zeta. destruct (session_served _ [] _ _ _ (served_new _ _) Hsession) as [_ _ _ Hreceipts Hids _ _].
  pose proof (replay_receipt _ _ _ Hids Hr Hid) as Hreplay.
  destruct (submit_replayed envelope installed a
    (if AcceptedRecord.envelope r == envelope then Ok (Acceptance.set_replayed true (AcceptedRecord.acceptance r))
     else Err (SessionRejection.CommandIdentityConflict (ExperimentCommandEnvelope.command_id envelope)))) as [Hs Hss].
  { rewrite Hreplay. by destruct (_ == _). }
  split_and!; [done|done| |].
  - rewrite Forall_forall in Hreceipts. by apply Hreceipts.
  - intros r' Hr' Hid'. apply list_elem_of_lookup in Hr as [i Hi], Hr' as [j Hj].
    assert (i = j) as ->; [|congruence]. eapply NoDup_lookup; [done|..]; rewrite list_lookup_fmap; [by rewrite Hi|]. rewrite Hj. cbn. by rewrite Hid'.
Qed.

(** The replay window is bounded and recent: at most 256 receipts holding at
    most 4096 commands, the running total being what they hold. Accepting a request
    keeps its receipt and the newest older ones that fit with it; only the
    admission of scientific data may drop more, from the old end, and never the new
    receipt. *)
Theorem receipts_recent permitted schemas_ limits_ log a envelope acceptance a'
    (Hsession : session permitted (new schemas_ limits_) log a) (Hroom : room a)
    (Haccepted : submit retention envelope a = Some (a', Ok acceptance))
    (Hdecided : replay envelope a = Ok None) :
  fits (accepted a') ∧ retained_commands a' = weights (accepted a')
  ∧ let receipt := AcceptedRecord.mk envelope acceptance in
    ∃ kept, newest_fitting (accepted a ++ [receipt]) kept
    ∧ (receives_scientific_state (ExperimentCommandEnvelope.command envelope) = false → accepted a' = kept)
    ∧ (∃ n, accepted a' = drop n kept)
    ∧ ((AcceptedRecord.weight receipt ≤ MAX_REPLAY_COMMANDS)%N → receipt ∈ accepted a').
Proof.
  pose proof (session_served _ [] _ _ _ (served_new _ _) Hsession : served log a) as Hs. destruct Hroom as [Hroom _].
  rewrite (served_next _ _ Hs) in Hroom.
  apply submit_accepted in Haccepted as [[_ Hr]|(a1 & Hd & Hb)]; [by rewrite Hr in Hdecided|].
  destruct (served_decided _ _ _ _ _ Hs ltac:(lia) Hd) as (es & _ & Hs1 & _ & Hnew).
  destruct (receives_scientific_state _).
  - destruct (served_bounded _ _ _ Hs1 Hb) as [[_ _ _ _ _ Hret Hfit] _]. split_and!; [done..|]. exists (accepted a1).
    destruct Hb as (n & Hn & ->). split_and!; [done|done|by exists n|]. intros Hw. apply (newest_fitting_last _ _ _ Hw) in Hnew as Hin.
    destruct Hn as [Hnil|Hn]; [rewrite Hnil in Hin; by apply elem_of_nil in Hin|].
    destruct Hnew as (m & Hkept & _). cbn [accepted set_accepted]. rewrite Hkept, drop_drop. rewrite Hkept, length_drop, length_app in Hn.
    cbn [length] in Hn. rewrite drop_app_le by lia. apply elem_of_app. right. by left.
  - subst a1. destruct Hs1 as [_ _ _ _ _ Hret Hfit]. split_and!; [done..|]. exists (accepted a').
    split_and!; [done|done|by exists 0|]. intros Hw. by eapply newest_fitting_last.
Qed.

(** A late save follows the document it was not of. A save that was started
    before another document was opened, and is acknowledged after, is not stale:
    opening forgets which revision was last acknowledged. The session then takes
    the file of the old document for that of the new one, and calls itself
    clean. *)
Theorem late_acknowledgement_retargets incoming file discard opened a a' change captured old_file
    (Hroom : room a)
    (Hopened : replace incoming file discard opened a = Some (a', Ok change))
    (Hbefore : (ExperimentRevision.get captured ≤ ExperimentRevision.get (revision a))%N) :
  target a' = file ∧ is_dirty a' = false
  ∧ let '(late, answer) := acknowledge_save captured old_file a' in
    answer = SaveAcknowledgement.Superseded (revision a')
    ∧ experiment late = experiment a' ∧ target late = Some old_file ∧ is_dirty late = false.
Proof.
  apply replace_ok in Hopened as (_ & _ & _ & ->). set (a' := rebuild_capabilities _).
  assert (revision a' = ExperimentRevision.next (revision a)) as Hr by done.
  assert (is_dirty a' = false) as Hclean by (unfold is_dirty; by rewrite bool_decide_true).
  split_and!; [done|done|]. unfold acknowledge_save. cbn [acknowledged_revision a' rebuild_capabilities set_capabilities set_saved].
  rewrite bool_decide_false; [done|]. intros Heq. change (captured = revision a') in Heq. rewrite Hr in Heq. subst captured.
  destruct Hroom as [_ Hroom]. cbn [ExperimentRevision.get ExperimentRevision.next] in Hbefore. rewrite next_roomy in Hbefore by done. lia.
Qed.
End served.
