(* ===== verification/Authored.v ===== *)
(** * What a session authors (kagami-session, authority.rs over kagami-document)

    The documents a session holds, the present one and those its history keeps, are
    evaluated documents, and its capability report hides no gap. *)

From stdpp Require Import base gmap strings list.
From S2P Require Import Prelude Identity Action Binary64 Quantity Expression Namespace Evaluation System Variables PluginIds Lock Schema Geometry Document Experiment Validate Edit Hydrate Settled Reached Governed History Compose Equality Store Session Authority Submitted Served.
Import DocumentAuthority.

(** ** What a history holds *)
Section histories.
Context `{Scientific}.
Implicit Types h : EditHistory.t.
Definition held h (s : ExperimentState.t) : Prop :=
  ∃ e, e ∈ EditHistory.undo_entries h ++ EditHistory.redo_entries h ∧ Entry.checkpoint e = s.
Lemma held_snapshots h s : s ∈ EditHistory.snapshots h ↔ held h s.
Proof.
  unfold EditHistory.snapshots, held. rewrite list_elem_of_fmap. setoid_rewrite elem_of_app. setoid_rewrite elem_of_reverse. naive_solver.
Qed.
Lemma held_bounded h l entry :
  entry ∈ EditHistory.bounded h l → entry ∈ l.
Proof. apply elem_of_takeN. Qed.
Lemma held_record h checkpoint label gesture s :
  held (EditHistory.record checkpoint label gesture h) s → s = checkpoint ∨ held h s.
Proof.
  unfold EditHistory.record. cbn zeta. match goal with |- held (if ?b then _ else _) _ → _ => destruct b end; [by right|].
  intros (e & [[->|He]%held_bounded%elem_of_cons|[]%elem_of_nil]%elem_of_app & <-); [by left|right]. exists e. rewrite elem_of_app. eauto.
Qed.
(** Undo and redo. *)
Definition takes_from_history (take : ExperimentState.t → EditHistory.t → option (Restoration.t * EditHistory.t)) : Prop :=
  ∀ current h restoration h', take current h = Some (restoration, h') →
    held h (Restoration.checkpoint restoration) ∧ (∀ s, held h' s → s = current ∨ held h s) ∧ (made h → made h').
Lemma undo_takes : takes_from_history EditHistory.undo.
Proof.
  intros current [[|e undos] redos depth] r h'; [done|]. intros Htake. split_and!; [| |intros Hm; by eapply made_undo].
  { injection Htake as <- <-. exists e. split; [by left|done]. }
  injection Htake as <- <-. intros s (e' & [Hin|[->|Hin]%held_bounded%elem_of_cons]%elem_of_app & <-); [right|by left|right];
    exists e'; (split; [|done]); cbn; set_solver.
Qed.
Lemma redo_takes : takes_from_history EditHistory.redo.
Proof.
  intros current [undos [|e redos] depth] r h'; [done|]. intros Htake. split_and!; [| |intros Hm; by eapply made_redo].
  { injection Htake as <- <-. exists e. split; [|done]. cbn. apply elem_of_app. right. by left. }
  injection Htake as <- <-. intros s (e' & [[->|Hin]%held_bounded%elem_of_cons|Hin]%elem_of_app & <-); [by left|right..];
    exists e'; (split; [|done]); cbn; set_solver.
Qed.
End histories.

(** ** Reports *)
Section authored.
Context `{Scientific} `{Catalog} `{!ScientificValidation} `{!ScientificEq} `{Unicode} `{Libm} `{LockCodec} `{SchemaEq} (retention : Retention.t).
Implicit Types a : DocumentAuthority.t.

(** The report lists every gap there is. *)
Definition covers (report : CapabilityReport.t) (s : ExperimentState.t) (installed : SchemaRegistry.t) : Prop :=
  ∀ path, path ∈ reported (CapabilityReport.of_ s installed) → path ∈ reported report.
Lemma reported_present path s installed :
  path ∈ reported (CapabilityReport.of_ s installed) → is_Some (component_at s path).
Proof. intros (d & -> & (c & Hc & _)%report_exact)%list_elem_of_fmap. by exists c. Qed.
Lemma covers_pruned report s s' installed :
  covers report s installed →
  (∀ path, path ∈ reported (CapabilityReport.of_ s' installed) → path ∈ reported (CapabilityReport.of_ s installed)) →
  covers (CapabilityReport.retain_present s' report) s' installed.
Proof.
  intros Hcov Hless path Hp. pose proof (Hcov _ (Hless _ Hp)) as (d & -> & Hd)%list_elem_of_fmap.
  apply list_elem_of_fmap. exists d. split; [done|]. apply list_elem_of_filter. split; [|done]. by apply reported_present in Hp.
Qed.
Lemma covers_complete report s installed :
  covers report s installed → CapabilityReport.is_complete report = true →
  CapabilityReport.diagnostics (CapabilityReport.of_ s installed) = [].
Proof.
  intros Hcov Hnil%bool_decide_eq_true. destruct (CapabilityReport.diagnostics (CapabilityReport.of_ s installed)) as [|d l] eqn:Hd; [reflexivity|]. exfalso.
  assert (CapabilityDiagnostic.path d ∈ reported report) as Hin.
  { apply Hcov. unfold reported. rewrite Hd. by left. }
  unfold reported in Hin. rewrite Hnil in Hin. by apply elem_of_nil in Hin.
Qed.

(** ** Authored documents *)
Section sessions.
Context (available : SchemaRegistry.t → Prop) (limits_ : Limits.t).

Record authored (past : list ExperimentState.t) a : Prop := {
  authored_reached : reached available limits_ past (experiment a);
  authored_limits : limits a = limits_;
  authored_schemas : available (schemas a);
  authored_history : ∀ s, held (history a) s → s ∈ past;
  authored_made : made (history a);
  authored_covers : covers (capabilities a) (Experiment.state (experiment a)) (schemas a)
}.
(** What the types of a request hold: batches are well formed, an opened document
    is one the operations reached, and only known registries are installed. *)
Definition admissible_command (command : SessionCommand.t) a : Prop :=
  match command with
  | SessionCommand.Edit commands => well_formed_batch (experiment a) commands
  | SessionCommand.InstantiateObjectTemplate spec => ∀ catalog_ installed commands,
      catalog a = Some catalog_ → prepare (experiment a) catalog_ installed spec limits_ = Some (Ok commands) →
      well_formed_batch (experiment a) commands
  | SessionCommand.Open incoming _ _ => ∃ past, reached available limits_ past incoming
  | _ => True
  end.
Definition admissible_request (r : request) a : Prop :=
  match r with
  | Submit envelope => admissible_command (ExperimentCommandEnvelope.command envelope) a
  | SubmitWithSchemas envelope installed =>
    available installed ∧ admissible_command (ExperimentCommandEnvelope.command envelope) a
  | AdoptSchemas installed _ => available installed
  | _ => True
  end.

(** The document and what is installed for it, apart from the bookkeeping. *)
Record same_document a a' : Prop := {
  same_experiment : experiment a' = experiment a;
  same_schemas : schemas a' = schemas a;
  same_catalog : catalog a' = catalog a;
  same_limits : limits a' = limits a;
  same_history : history a' = history a;
  same_capabilities : capabilities a' = capabilities a
}.
Lemma authored_same past a a' : same_document a a' → authored past a → authored past a'.
Proof. intros [He Hs _ Hl Hh Hc] []. split; rewrite ?He, ?Hs, ?Hl, ?Hh, ?Hc; done. Qed.
Lemma admissible_same command a a' : same_document a a' → admissible_command command a → admissible_command command a'.
Proof. intros [He _ Hc _ _ _]. destruct command; cbn [admissible_command]; rewrite ?He, ?Hc; done. Qed.

Lemma authored_edit past commands gesture a a' change :
  authored past a → well_formed_batch (experiment a) commands →
  apply_edit commands gesture a = Some (a', Ok change) → ∃ past', authored past' a'.
Proof.
  intros [Hr Hl Hs Hh Hm Hc] Hwf (_ & candidate & Hu & _ & ->)%apply_edit_ok. rewrite Hl in Hu.
  exists (Experiment.checkpoint (experiment a) :: past).
  assert (∀ path, path ∈ reported (CapabilityReport.of_ (Experiment.state (Candidate.experiment candidate)) (schemas a)) →
    path ∈ reported (CapabilityReport.of_ (Experiment.state (experiment a)) (schemas a))) as Hless.
  { apply reached_settled in Hr. inversion Hr as [|? ? [Hsettled Hminted] _]; subst. by eapply no_gap_opened. }
  set (a1 := set_experiment _ _).
  assert (covers (capabilities (prune_capabilities a1)) (Experiment.state (Candidate.experiment candidate)) (schemas a)) as Hcov.
  { unfold prune_capabilities. destruct (CapabilityReport.is_complete _) eqn:Hcomplete.
    - intros path Hp. by apply Hc, Hless.
    - by eapply covers_pruned. }
  assert (reached available limits_ (Experiment.checkpoint (experiment a) :: past) (Candidate.experiment candidate)) as Hreach
    by (by eapply reached_update).
  assert (∀ s, held (history a1) s → s ∈ Experiment.checkpoint (experiment a) :: past) as Hheld.
  { intros s [->|Hin]%held_record; [by left|right; by apply Hh]. }
  assert (made (history a1)) as Hmade by (by apply made_record).
  destruct (prune_capabilities_is a1) as [c Hpruned]. rewrite Hpruned in *. by split.
Qed.
Lemma authored_restore past take nothing named a a' change :
  takes_from_history take → authored past a →
  apply_restore take nothing named a = Some (a', Ok change) → ∃ past', authored past' a'.
Proof.
  intros Htake [Hr Hl Hs Hh Hm Hc] (restoration & undone & candidate & Ht & Hrestore & _ & ->)%apply_restore_ok. rewrite Hl in Hrestore.
  destruct (Htake _ _ _ _ Ht) as (Hheld & Hnew & Hmade). exists (Experiment.checkpoint (experiment a) :: past). split; try done.
  - eapply reached_restore; [done|exact Hs|by apply Hh|done].
  - intros s [->|Hin]%Hnew; [by left|right; by apply Hh].
  - by apply Hmade.
  - by intros path.
Qed.
Lemma authored_replace past past' incoming target_ discard opened a a' change :
  authored past a → reached available limits_ past' incoming →
  replace incoming target_ discard opened a = Some (a', Ok change) → authored past' a'.
Proof.
  intros [Hr Hl Hs Hh Hm Hc] Hin (_ & _ & _ & ->)%replace_ok. split; try done.
  - by apply reached_adopted.
  - by intros s (e & []%elem_of_nil & _).
  - by apply made_clear.
  - by intros path.
Qed.
Lemma authored_execute past command gesture a a' change :
  authored past a → admissible_command command a →
  execute command gesture a = Some (a', Ok change) → ∃ past', authored past' a'.
Proof.
  intros Ha Hadm. destruct command; cbn [execute]; intros Hrun.
  - by eapply authored_edit.
  - by eapply authored_restore; [apply undo_takes| |].
  - by eapply authored_restore; [apply redo_takes| |].
  - injection Hrun as <- _. exists past. by destruct Ha.
  - eexists. eapply authored_replace; [done|apply reached_new|done].
  - destruct Hadm as [past' Hin]. eexists. by eapply authored_replace.
  - apply instantiate_ok in Hrun as (catalog_ & commands & Hcat & Hprep & Hrun). eapply authored_edit; [done| |done].
    eapply Hadm; [done|]. rewrite <- (authored_limits _ _ Ha). done.
  - unfold close_gesture in Hrun. destruct (open_gesture a); [|done]. injection Hrun as <- _. exists past. by destruct Ha.
Qed.
Lemma authored_decided past envelope acceptance a a' :
  authored past a → admissible_command (ExperimentCommandEnvelope.command envelope) a →
  decided envelope acceptance a a' → ∃ past', authored past' a'.
Proof.
  intros Ha Hadm (_ & _ & gesture & change & a1 & a2 & Hg & Hx & Hrec).
  assert (same_document a a1) as Hsame by (apply resolve_gesture_is in Hg as [->|[_ (open & _ & _ & ->)]]; done).
  destruct (authored_execute _ _ _ _ _ _ (authored_same _ _ _ Hsame Ha) (admissible_same _ _ _ Hsame Hadm) Hx) as [past' Ha2].
  exists past'. revert Hrec. unfold record. destruct (evict _ _). intros [= <- _]. by apply (authored_same _ a2).
Qed.
Lemma authored_adopted past installed actor a : authored past a → available installed → authored past (adopt_schemas installed actor a).1.
Proof. intros [Hr Hl Hs Hh Hm Hc] Hin. split; try done. by intros path. Qed.
Lemma receipts_bounded_same a a' : receipts_bounded a a' → same_document a a'.
Proof. by intros (n & _ & ->). Qed.
Lemma authored_perform past r a a' :
  authored past a → admissible_request r a → perform retention r a = Some a' → ∃ past', authored past' a'.
Proof.
  intros Ha Hadm Hrun. destruct r as [envelope|envelope installed|installed actor|catalog_|revision_ target_|]; cbn [perform] in Hrun.
  - destruct (submit _ _ _) as [[a1 [acceptance|e]]|] eqn:Hsub; [..|done]; injection Hrun as <-.
    + apply submit_accepted in Hsub as [[-> _]|(a2 & Hd & Hb)]; [by exists past|].
      apply (authored_decided past) in Hd as [past' Ha2]; [|done..]. exists past'.
      destruct (receives_scientific_state _); [|by subst]. by eapply authored_same; [apply receipts_bounded_same|].
    + exists past. apply submit_refused in Hsub as [->|[_ (open & _ & _ & ->)]]; [done|]. by apply (authored_same _ a).
  - destruct Hadm as [Hin Hadm]. destruct (submit_with_schemas _ _ _ _) as [[a1 [acceptance|e]]|] eqn:Hsub; [..|done]; injection Hrun as <-.
    + apply submit_with_schemas_accepted in Hsub as [[-> _]|(a0 & a2 & Ha0 & Hd & Hb)]; [by exists past|].
      assert (authored past a0 ∧ admissible_command (ExperimentCommandEnvelope.command envelope) a0) as [Hauth Hadm0].
      { destruct Ha0 as [->| ->]; [done|]. split; [by apply authored_adopted|].
        destruct (ExperimentCommandEnvelope.command envelope); done. }
      apply (authored_decided past) in Hd as [past' Ha2]; [|done..]. exists past'. by eapply authored_same; [apply receipts_bounded_same|].
    + exists past. by apply submit_with_schemas_refused in Hsub as ->.
  - injection Hrun as <-. exists past. by apply authored_adopted.
  - injection Hrun as <-. exists past. by destruct Ha.
  - injection Hrun as <-. exists past. apply (authored_same _ a); [|done]. unfold acknowledge_save.
    destruct (acknowledged_revision a); repeat case_match; done.
  - injection Hrun as <-. exists past. destruct Ha. split; try done; [|by apply made_clear]. by intros s (e & []%elem_of_nil & _).
Qed.
Lemma authored_new installed : available installed → authored [] (new installed limits_).
Proof. intros Hin. split; try done; [apply reached_new|by intros s (e & []%elem_of_nil & _)|apply made_new|]. intros path Hp. by apply elem_of_nil in Hp. Qed.
Lemma authored_session installed log a :
  available installed → session retention admissible_request (new installed limits_) log a → ∃ past, authored past a.
Proof.
  intros Hin Hs. induction Hs as [|log a r a' Hs [past IH] Hadm Hroom Hrun]; [exists []; by apply authored_new|].
  by eapply authored_perform.
Qed.
Lemma settled_evaluates s :
  settled limits_ s → ∃ sys, compile_document_variables s limits_ = Some (Ok sys)
    ∧ ∀ path v, stored s path = Some v → value_current path v sys limits_.
Proof. intros [_ (sys & Hc & Hv)]. exists sys. split; [done|]. intros path v Hp. by apply Hv. Qed.

End sessions.
End authored.
