(* ===== verification/Walkthrough.v ===== *)
(** * A walk through one session (kagami-session, authority.rs)

    The properties of the authority at a concrete session: two bodies are drawn, a
    drag is begun, a slip is refused, the drawing is undone. *)

From stdpp Require Import base gmap strings list.
From S2P Require Import Prelude Identity Action Binary64 Quantity Expression Namespace Evaluation System Variables PluginIds Lock Schema Geometry Document Experiment Validate Edit Hydrate Settled Reached Lasting Governed History Compose Equality Store Session Authority Submitted Served Authored.

(** * Undoing an edit (kagami-session, authority.rs over kagami-document)

    The edit, the entry it leaves, and the undo that brings the contents back. *)
Import DocumentAuthority.

Section undone.
Context `{Scientific} `{Catalog} `{!ScientificValidation} `{!ScientificEq} `{Unicode} `{Libm} `{LockCodec} `{SchemaEq} (retention : Retention.t).
Implicit Types a : DocumentAuthority.t.

(** ** Running a submission *)
Lemma reads_runs {S E A B} (f : S → outcome E A) (g : A → method S E B) s x :
  f s = Some (Ok x) → (y ← reads f; g y) s = g x s.
Proof. intros Hf. unfold mbind, method_bind, reads. by rewrite Hf. Qed.
Lemma method_runs {S E A B} (m : method S E A) (g : A → method S E B) s s' x :
  m s = Some (s', Ok x) → (y ← m; g y) s = g x s'.
Proof. intros Hm. unfold mbind, method_bind. by rewrite Hm. Qed.

(** Undo takes the entry an edit left, whatever the redo side held. *)
Lemma undo_recorded h checkpoint label current :
  (1 ≤ EditHistory.depth h)%N →
  ∃ h', EditHistory.undo current (EditHistory.record checkpoint label None h) = Some (Restoration.mk checkpoint label, h').
Proof.
  intros Hdepth. unfold EditHistory.record, EditHistory.undo, EditHistory.bounded. cbn [EditHistory.undo_entries].
  rewrite takeN_take. destruct (N.to_nat (EditHistory.depth h)) as [|n] eqn:Hn; [lia|]. cbn [take]. eexists. reflexivity.
Qed.

Lemma restore_runs experiment_ s installed limits_ :
  validate_structure s limits_ = Some (Ok ()) → validate_restorable s installed = Ok () → validate_scientific s limits_ = Some (Ok ()) →
  ∃ candidate, restore experiment_ s installed limits_ = Some (Ok candidate)
    ∧ Candidate.experiment candidate = Experiment.mk
        (ExperimentState.set_revision (ExperimentRevision.next (Experiment.revision experiment_)) s) (Experiment.counters experiment_).
Proof.
  intros Hs Hr Hv. unfold restore. rewrite Hs. cbn. rewrite Hr. cbn. rewrite Hv. cbn. eexists. by split.
Qed.

Lemma apply_undo_runs a label checkpoint undone candidate :
  EditHistory.undo (Experiment.checkpoint (experiment a)) (history a) = Some (Restoration.mk checkpoint label, undone) →
  restore (experiment a) checkpoint (schemas a) (limits a) = Some (Ok candidate) →
  apply_undo a = Some (rebuild_capabilities (set_experiment (Candidate.experiment candidate) (set_history undone a)),
                       Ok (ExperimentChange.Undone label)).
Proof.
  intros Htake Hrestore. unfold apply_undo, apply_restore.
  rewrite (reads_runs _ _ _ (Restoration.mk checkpoint label, undone)) by (by rewrite Htake).
  rewrite (reads_runs _ _ _ candidate) by (by apply document_ok). reflexivity.
Qed.

(** A submission under a fresh name, with no guard and outside any gesture, runs
    its command. *)
Lemma submit_runs envelope a change (Hfresh : replay envelope a = Ok None)
    (Hguard : ExperimentCommandEnvelope.expected_revision envelope = None)
    (Hgesture : ExperimentCommandEnvelope.gesture envelope = None)
    (Hundo : ExperimentCommandEnvelope.command envelope = SessionCommand.Undo) :
  (∀ a1, same_document a a1 → ∃ a2, execute SessionCommand.Undo None a1 = Some (a2, Ok change)) →
  ∃ a1 a2 a' acceptance, same_document a a1 ∧ execute SessionCommand.Undo None a1 = Some (a2, Ok change)
    ∧ submit retention envelope a = Some (a', Ok acceptance) ∧ Acceptance.change acceptance = change ∧ same_document a2 a'.
Proof.
  intros Hrun. assert (∃ a1, resolve_gesture envelope a = Some (a1, Ok None) ∧ same_document a a1) as (a1 & Hres & Hsame).
  { unfold resolve_gesture. rewrite Hgesture, Hundo. destruct (open_gesture a); by eexists. }
  destruct (Hrun a1 Hsame) as [a2 Hx]. destruct (record envelope change a2) as [a' acceptance] eqn:Hrec.
  exists a1, a2, a', acceptance. split_and!; [done|done| | |].
  - unfold submit. rewrite (reads_runs _ _ _ None) by (by rewrite Hfresh). rewrite (reads_runs _ _ _ ()) by (unfold check_batch_size; by rewrite Hundo).
    rewrite Hundo. cbn [receives_scientific_state]. unfold submit_inner. rewrite (reads_runs _ _ _ None) by (by rewrite Hfresh).
    rewrite (reads_runs _ _ _ ()) by (unfold check_revision; by rewrite Hguard). rewrite (method_runs _ _ _ _ _ Hres), Hundo.
    rewrite (method_runs _ _ _ _ _ Hx). unfold returns. by rewrite Hrec.
  - revert Hrec. unfold record. destruct (evict _ _). by intros [= _ <-].
  - revert Hrec. unfold record. destruct (evict _ _). by intros [= <- _].
Qed.

(** What an accepted batch outside any gesture leaves behind. *)
Lemma edit_leaves_entry commands edit a a1 acceptance :
  ExperimentCommandEnvelope.command edit = SessionCommand.Edit commands → ExperimentCommandEnvelope.gesture edit = None →
  replay edit a = Ok None → submit retention edit a = Some (a1, Ok acceptance) →
  history a1 = EditHistory.record (Experiment.checkpoint (experiment a)) (ExperimentCommand.batch_label commands) None (history a)
  ∧ schemas a1 = schemas a ∧ limits a1 = limits a.
Proof.
  intros Hedit Hungrouped Hfirst Hacc.
  apply submit_accepted in Hacc as [[_ Hr]|(b & (_ & _ & gesture & change & b1 & b2 & Hg & Hx & Hrec) & Hb)]; [by rewrite Hr in Hfirst|].
  assert (same_document b a1) as [_ Hs _ Hl Hh _] by (destruct (receives_scientific_state _); [by apply receipts_bounded_same|by subst]).
  rewrite Hs, Hl, Hh. clear Hs Hl Hh Hb.
  assert (same_document b2 b) as [_ Hs _ Hl Hh _] by (revert Hrec; unfold record; destruct (evict _ _); by intros [= <- _]).
  rewrite Hs, Hl, Hh. clear Hs Hl Hh Hrec. rewrite Hedit in Hx. apply apply_edit_ok in Hx as (_ & candidate & _ & _ & ->).
  destruct (prune_capabilities_is (set_experiment (Candidate.experiment candidate) (set_history
    (EditHistory.record (Experiment.checkpoint (experiment b1)) (ExperimentCommand.batch_label commands) gesture (history b1)) b1)))
    as [c ->].
  assert (gesture = None ∧ same_document a b1) as [-> [He Hs _ Hl Hh _]].
  { unfold resolve_gesture in Hg. rewrite Hungrouped, Hedit in Hg. destruct (open_gesture a); by injection Hg as <- <-. }
  cbn. by rewrite He, Hs, Hl, Hh.
Qed.

End undone.

(** * A session *)
Import DocumentAuthority.

Module Walkthrough.
Import Sample.
#[local] Existing Instance plain.
#[local] Existing Instance plain_validation.
#[local] Existing Instance latin1.
#[local] Existing Instance first_argument.
(** No template, locks of any size, and a setup compared by its time step. *)
#[local] Instance no_templates : Catalog := {| CatalogSet := unit; InstantiationError := unit; materialize := λ _ _ _, Err () |}.
#[local] Instance empty_codec : LockCodec := λ _ _, Ok 0%N.
#[local] Instance by_time_step : ScientificEq (H := plain) := partial_eq (A := TimeStep.t).
#[local] Instance always_new : SchemaEq := λ _ _, false.
Definition untallied : Retention.t := Retention.mk unit (λ _, ()) (λ _ _, Ok ()) (λ _ _, Ok ()).

Definition alice : ActorId.t := ActorId.mk "alice".
Definition say (name : string) (command : SessionCommand.t) : ExperimentCommandEnvelope.t :=
  ExperimentCommandEnvelope.new (CommandId.mk name) alice command.
Definition answered (envelope : ExperimentCommandEnvelope.t) (a : t) : Acceptance.t :=
  match submit untallied envelope a with
  | Some (_, Ok acceptance) => acceptance
  | _ => Acceptance.mk (CommandId.mk "") (revision a) (ExperimentChange.Replaced false) EventSeq.INITIAL false
  end.
Definition after (envelope : ExperimentCommandEnvelope.t) (a : t) : t := default a (perform untallied (Submit envelope) a).

Definition draw := say "draw" (SessionCommand.Edit bodies).
Definition hold := say "hold" SessionCommand.BeginInteractiveEdit.
Definition slip := say "slip" (SessionCommand.Edit []).
Definition back := say "back" SessionCommand.Undo.
Definition blank : t := new Sample.schemas Limits.DEFAULT.
Definition drawn : t := after draw blank.
Definition holding : t := after hold drawn.
Definition slipped : t := after slip holding.

Definition accepts (envelope : ExperimentCommandEnvelope.t) (a : t) : bool :=
  match submit untallied envelope a with Some (_, Ok _) => true | _ => false end.
Definition roomy (a : t) : bool :=
  (EventSeq.get (next_event a) + 3 <? 2 ^ 64)%N && (ExperimentRevision.get (revision a) + 1 <? 2 ^ 64)%N.
Lemma accepts_runs envelope a :
  accepts envelope a = true → submit untallied envelope a = Some (after envelope a, Ok (answered envelope a)).
Proof. unfold accepts, after, answered, perform. by destruct (submit _ _ _) as [[a' [acceptance|]]|]. Qed.
Lemma accepts_performs envelope a : accepts envelope a = true → perform untallied (Submit envelope) a = Some (after envelope a).
Proof. unfold accepts, after, perform. by destruct (submit _ _ _) as [[a' [acceptance|]]|]. Qed.
Lemma roomy_room a : roomy a = true → room a.
Proof. unfold roomy, room. rewrite andb_true_iff, !N.ltb_lt. done. Qed.
Definition anything (_ : request) (_ : t) : Prop := True.

Example draw_accepted : accepts draw blank = true. Proof. vm_compute. reflexivity. Qed.
Example hold_accepted : accepts hold drawn = true. Proof. vm_compute. reflexivity. Qed.
Example back_accepted : accepts back drawn = true. Proof. vm_compute. reflexivity. Qed.
Example slip_refused :
  match submit untallied slip holding with Some (_, Err SessionRejection.EmptyBatch) => true | _ => false end = true.
Proof. vm_compute. reflexivity. Qed.

Lemma drawn_session permitted :
  permitted (Submit draw) blank → ∃ log, session untallied permitted blank log drawn.
Proof.
  intros Hp. eexists. eapply session_step; [apply session_start|exact Hp|apply roomy_room; vm_compute; reflexivity|].
  apply accepts_performs. vm_compute. reflexivity.
Qed.

(** The drag alice held is closed by the slip, and nothing else changes. *)
Lemma refused_submission_witness :
  open_gesture holding = Some (GestureId.new 0)
  ∧ ∃ slipped, submit untallied slip holding = Some (slipped, Err SessionRejection.EmptyBatch)
    ∧ (slipped = holding ∨ ∃ open, open_gesture holding = Some open ∧ slipped = publish_implicit_gesture_close slip open holding)
    ∧ length (events slipped) = S (length (events holding)).
Proof.
  split; [vm_compute; reflexivity|]. exists slipped.
  assert (submit untallied slip holding = Some (slipped, Err SessionRejection.EmptyBatch)) as Hs.
  { pose proof slip_refused as Hr. unfold slipped, after, perform.
    destruct (submit untallied slip holding) as [[a' [|[]]]|]; try discriminate Hr. reflexivity. }
  split; [exact Hs|]. split; [|vm_compute; reflexivity].
  destruct (proj1 (refused_submission untallied slip schemas holding slipped _) Hs) as [Hsame|(_ & open & Ho & _ & Hc)];
    [left; exact Hsame|right; exists open; split; [exact Ho|exact Hc]].
Defined.
Lemma catch_up_exact_witness :
  ∃ log, EventSeq.get (next_event drawn) = lenN log
    ∧ (can_catch_up_from EventSeq.INITIAL drawn = true ↔
       events_since EventSeq.INITIAL drawn = filter (λ event, (0 < number event)%N) log).
Proof.
  destruct (drawn_session anything I) as [log Hs]. exists log.
  destruct (catch_up_exact untallied anything schemas Limits.DEFAULT log drawn Hs) as (_ & Hn & _ & Hc).
  split; [exact Hn|]. apply (Hc EventSeq.INITIAL); [apply N.le_0_l|reflexivity].
Defined.
Lemma reread_same a : revision (adopt_schemas schemas alice a).1 = revision a
  ∧ acknowledged_revision (adopt_schemas schemas alice a).1 = acknowledged_revision a.
Proof. split; reflexivity. Qed.
Lemma reread_runs a : perform untallied (AdoptSchemas schemas alice) a = Some (adopt_schemas schemas alice a).1.
Proof. reflexivity. Qed.
(** Drawn, saved, and the installed physics read again in between. *)
Lemma revision_names_contents_witness :
  let reread := (adopt_schemas schemas alice drawn).1 in
  experiment drawn = experiment reread
  ∧ ∀ file, (acknowledge_save (revision drawn) file reread).2 = SaveAcknowledgement.Clean.
Proof.
  cbn zeta. destruct (drawn_session anything I) as [log Hs].
  assert (session untallied anything drawn ([] ++ events_since (next_event drawn) (adopt_schemas schemas alice drawn).1)
    (adopt_schemas schemas alice drawn).1) as Hread.
  { eapply (session_step _ _ _ _ _ (AdoptSchemas schemas alice)); [apply session_start|exact I|apply roomy_room; vm_compute; reflexivity|apply reread_runs]. }
  destruct (revision_names_contents untallied anything schemas Limits.DEFAULT log drawn _ _ drawn Hs Hread) as (_ & He & _ & Hc).
  destruct (reread_same drawn) as [Hr Ha]. split; [apply He; symmetry; exact Hr|].
  intros file. apply Hc. split; [symmetry; exact Hr|]. intros acknowledged Hk. exfalso.
  assert (acknowledged_revision drawn = None) as Hnone by (vm_compute; reflexivity).
  rewrite Ha, Hnone in Hk. discriminate Hk.
Defined.
Lemma draw_remembered : AcceptedRecord.mk draw (answered draw blank) ∈ DocumentAuthority.accepted drawn.
Proof.
  assert (DocumentAuthority.accepted drawn = [AcceptedRecord.mk draw (answered draw blank)]) as ->; [|left].
  unfold answered, drawn, after, perform. vm_compute. reflexivity.
Qed.
Lemma resubmission_replays_witness :
  submit untallied draw drawn = Some (drawn, Ok (Acceptance.set_replayed true (answered draw blank))).
Proof.
  destruct (drawn_session anything I) as [log Hs].
  exact (proj1 (resubmission_replays untallied anything schemas Limits.DEFAULT log drawn
    (AcceptedRecord.mk draw (answered draw blank)) draw schemas Hs draw_remembered eq_refl)).
Defined.
Lemma receipts_recent_witness : fits (DocumentAuthority.accepted drawn) ∧ AcceptedRecord.mk draw (answered draw blank) ∈ DocumentAuthority.accepted drawn.
Proof.
  assert (session untallied anything blank [] blank) as Hs by (apply session_start).
  destruct (receipts_recent untallied anything schemas Limits.DEFAULT [] blank draw (answered draw blank) drawn Hs) as (Hf & _ & kept & _ & _ & _ & Hin).
  - apply roomy_room. vm_compute. reflexivity.
  - apply accepts_runs. vm_compute. reflexivity.
  - vm_compute. reflexivity.
  - split; [exact Hf|]. apply Hin. vm_compute. discriminate.
Defined.

(** A bracket begun inside a bracket replaces it, and no event closes the first. *)
Example bracket_in_a_bracket :
  let inner := ExperimentCommandEnvelope.within (GestureId.new 0) (say "inner" SessionCommand.BeginInteractiveEdit) in
  accepts inner holding = true ∧ open_gesture (after inner holding) = Some (GestureId.new 1)
  ∧ ExperimentEvent.change <$> events_since (next_event drawn) (after inner holding)
    = [ExperimentChange.GestureOpened (GestureId.new 0); ExperimentChange.GestureOpened (GestureId.new 1)].
Proof. vm_compute. split_and!; reflexivity. Qed.

Definition old_file : DocumentTarget.t := DocumentTarget.mk "old.json".
Definition new_file : DocumentTarget.t := DocumentTarget.mk "new.json".
Definition opened : t :=
  match replace Experiment.new (Some new_file) true true drawn with Some (a, _) => a | None => drawn end.
Lemma late_acknowledgement_retargets_witness :
  target opened = Some new_file ∧ is_dirty opened = false
  ∧ target (acknowledge_save (revision drawn) old_file opened).1 = Some old_file.
Proof.
  assert (replace Experiment.new (Some new_file) true true drawn = Some (opened, Ok (ExperimentChange.Replaced true))) as Ho.
  { assert (match replace Experiment.new (Some new_file) true true drawn with Some (_, Ok (ExperimentChange.Replaced true)) => true | _ => false end = true)
      as Hok by (vm_compute; reflexivity).
    unfold opened. destruct (replace _ _ _ _ drawn) as [[a [[| | | | |[]|]|]]|]; try discriminate Hok. reflexivity. }
  destruct (late_acknowledgement_retargets Experiment.new (Some new_file) true true drawn opened _ (revision drawn) old_file
    ltac:(apply roomy_room; vm_compute; reflexivity) Ho ltac:(apply N.le_refl)) as (Ht & Hd & Hlate).
  split; [exact Ht|]. split; [exact Hd|].
  destruct (acknowledge_save (revision drawn) old_file opened) as [late answer]. exact (proj1 (proj2 (proj2 Hlate))).
Defined.

(** ** A repair *)
Import GovernedSample.
Definition load := say "load" (SessionCommand.Open loaded (Some old_file) false).
Definition mend := say "mend" (SessionCommand.Edit weigh).
Definition mended : t := after mend (after load blank).

(** A repair cannot be undone. A document whose bodies lack a value the
    installed schema requires opens, and giving one of them its value is accepted
    and offered as the change to undo; undoing it is refused, because the contents
    it would bring back are ones the schema refuses. *)
Theorem repair_cannot_be_undone :
  accepts load blank = true ∧ accepts mend (after load blank) = true
  ∧ HistoryStatus.undo (history_status mended) = Some (ExperimentCommand.batch_label weigh)
  ∧ match submit untallied back mended with Some (_, Err (SessionRejection.Document rejection)) => Some rejection | _ => None end
    = Some (Rejection.RequiredPropertyMissing (PropertyPath.new (ObjectId.from_raw 0) inertial_mass mass)).
Proof. vm_compute. split_and!; reflexivity. Qed.
End Walkthrough.
