(* ===== verification/Workload.v ===== *)
(** * The workload manifest (crate [orishu-workload])

    The data of an immutable workload: the validated names (ids.rs), digests
    (digest.rs), artifact descriptors (artifact.rs), finite numbers and scalar
    values (value.rs), the bounds (limits.rs), the domain (domain.rs), the
    component graph with its step plan (graph.rs), and the manifest
    (manifest.rs, v3.rs) in its envelope (orishu-resource, resource.rs). *)

From Stdlib Require Import Ascii.
From stdpp Require Import base gmap strings list.
From S2P Require Import Prelude Identity Binary64.
From S2P Require Antientropy.

(** ** Names (ids.rs) *)
Definition MAX_SYMBOL_LEN : N := 128.
Definition MAX_LABEL_LEN : N := 253.
Definition MAX_MEDIA_TYPE_LEN : N := 255.
Module NameError.
Inductive t : Type :=
  | Empty (kind : string)
  | TooLong (kind : string) (len max : N)
  | ForbiddenCharacter (kind : string) (offset : N)
  | Untrimmed (kind : string)
  | NotAMediaType (kind found : string).
#[global] Instance workload_NameError_eq_dec : EqDecision t.
Proof. solve_decision. Defined.
End NameError.

Definition validate_symbol (kind value : string) : result NameError.t unit :=
  if bool_decide (value = "") then Err (NameError.Empty kind)
  else if (MAX_SYMBOL_LEN <? str_len value)%N then Err (NameError.TooLong kind (str_len value) MAX_SYMBOL_LEN)
  else match position (λ b, negb (is_ascii_graphic b)) (bytes_of value) with
       | Some offset => Err (NameError.ForbiddenCharacter kind offset)
       | None => Ok ()
       end.
Definition validate_label (kind value : string) : result NameError.t unit :=
  if bool_decide (value = "") then Err (NameError.Empty kind)
  else if (MAX_LABEL_LEN <? str_len value)%N then Err (NameError.TooLong kind (str_len value) MAX_LABEL_LEN)
  else match List.find (λ ic, is_control ic.2) (char_indices value) with
       | Some (offset, _) => Err (NameError.ForbiddenCharacter kind offset)
       | None =>
         let chars := (char_indices value).*2 in
         if bool_decide (trim chars = chars) then Ok () else Err (NameError.Untrimmed kind)
       end.
(** [u8::is_ascii_uppercase] and [str::split] at a byte. *)
Definition is_ascii_uppercase (b : ascii) : bool := let c := N_of_ascii b in (65 <=? c)%N && (c <=? 90)%N.
Fixpoint split_at (separator : ascii) (l : bytes) : list bytes :=
  match l with
  | [] => [[]]
  | b :: l =>
    if bool_decide (b = separator) then [] :: split_at separator l
    else match split_at separator l with [] => [[b]] | part :: parts => (b :: part) :: parts end
  end.
Definition validate_media_type (kind value : string) : result NameError.t unit :=
  if bool_decide (value = "") then Err (NameError.Empty kind)
  else if (MAX_MEDIA_TYPE_LEN <? str_len value)%N then Err (NameError.TooLong kind (str_len value) MAX_MEDIA_TYPE_LEN)
  else match position (λ b, negb (is_ascii_graphic b) || is_ascii_uppercase b) (bytes_of value) with
       | Some offset => Err (NameError.ForbiddenCharacter kind offset)
       | None =>
         match split_at "/" (bytes_of value) with
         | [type; subtype] =>
           if negb (bool_decide (type = [])) && negb (bool_decide (subtype = [])) then Ok ()
           else Err (NameError.NotAMediaType kind value)
         | _ => Err (NameError.NotAMediaType kind value)
         end
       end.

Module ComponentInstanceId.
Record t : Type := mk { as_str : string }.
Definition new (value : string) : result NameError.t t := _ ← validate_symbol "ComponentInstanceId" value; Ok (mk value).
#[global] Instance workload_ComponentInstanceId_eq_dec : EqDecision t.
Proof. solve_decision. Defined.
#[global] Instance workload_ComponentInstanceId_countable : Countable t.
Proof. refine (inj_countable' as_str mk _); by intros []. Defined.
#[global] Instance workload_ComponentInstanceId_ord : Ord t := λ a b, cmp (as_str a) (as_str b).
#[global] Instance workload_ComponentInstanceId_ord_laws : OrdLaws t.
Proof. eapply (ord_laws_inj as_str); [intros [] []; cbn; by intros ->|done]. Qed.
End ComponentInstanceId.
Module StateChannelId.
Record t : Type := mk { as_str : string }.
Definition new (value : string) : result NameError.t t := _ ← validate_symbol "StateChannelId" value; Ok (mk value).
#[global] Instance workload_StateChannelId_eq_dec : EqDecision t.
Proof. solve_decision. Defined.
#[global] Instance workload_StateChannelId_countable : Countable t.
Proof. refine (inj_countable' as_str mk _); by intros []. Defined.
#[global] Instance workload_StateChannelId_ord : Ord t := λ a b, cmp (as_str a) (as_str b).
#[global] Instance workload_StateChannelId_ord_laws : OrdLaws t.
Proof. eapply (ord_laws_inj as_str); [intros [] []; cbn; by intros ->|done]. Qed.
End StateChannelId.
Module StepInvocationId.
Record t : Type := mk { as_str : string }.
Definition new (value : string) : result NameError.t t := _ ← validate_symbol "StepInvocationId" value; Ok (mk value).
#[global] Instance workload_StepInvocationId_eq_dec : EqDecision t.
Proof. solve_decision. Defined.
#[global] Instance workload_StepInvocationId_countable : Countable t.
Proof. refine (inj_countable' as_str mk _); by intros []. Defined.
#[global] Instance workload_StepInvocationId_ord : Ord t := λ a b, cmp (as_str a) (as_str b).
#[global] Instance workload_StepInvocationId_ord_laws : OrdLaws t.
Proof. eapply (ord_laws_inj as_str); [intros [] []; cbn; by intros ->|done]. Qed.
End StepInvocationId.
Module PhaseId.
Record t : Type := mk { as_str : string }.
Definition new (value : string) : result NameError.t t := _ ← validate_symbol "PhaseId" value; Ok (mk value).
#[global] Instance workload_PhaseId_eq_dec : EqDecision t.
Proof. solve_decision. Defined.
End PhaseId.
Module PluginId.
Record t : Type := mk { as_str : string }.
Definition new (value : string) : result NameError.t t := _ ← validate_symbol "PluginId" value; Ok (mk value).
#[global] Instance workload_PluginId_eq_dec : EqDecision t.
Proof. solve_decision. Defined.
End PluginId.
Module ModelId.
Record t : Type := mk { as_str : string }.
Definition new (value : string) : result NameError.t t := _ ← validate_symbol "ModelId" value; Ok (mk value).
#[global] Instance workload_ModelId_eq_dec : EqDecision t.
Proof. solve_decision. Defined.
End ModelId.
Module SchemaId.
Record t : Type := mk { as_str : string }.
Definition new (value : string) : result NameError.t t := _ ← validate_symbol "SchemaId" value; Ok (mk value).
#[global] Instance workload_SchemaId_eq_dec : EqDecision t.
Proof. solve_decision. Defined.
End SchemaId.
Module ComponentRole.
Record t : Type := mk { as_str : string }.
Definition new (value : string) : result NameError.t t := _ ← validate_symbol "ComponentRole" value; Ok (mk value).
#[global] Instance workload_ComponentRole_eq_dec : EqDecision t.
Proof. solve_decision. Defined.
End ComponentRole.
Module Engine.
Record t : Type := mk { as_str : string }.
Definition new (value : string) : result NameError.t t := _ ← validate_symbol "Engine" value; Ok (mk value).
#[global] Instance workload_Engine_eq_dec : EqDecision t.
Proof. solve_decision. Defined.
End Engine.
Module LifecycleId.
Record t : Type := mk { as_str : string }.
Definition new (value : string) : result NameError.t t := _ ← validate_symbol "LifecycleId" value; Ok (mk value).
#[global] Instance workload_LifecycleId_eq_dec : EqDecision t.
Proof. solve_decision. Defined.
End LifecycleId.
Module GraphProfile.
Record t : Type := mk { as_str : string }.
Definition new (value : string) : result NameError.t t := _ ← validate_symbol "GraphProfile" value; Ok (mk value).
#[global] Instance workload_GraphProfile_eq_dec : EqDecision t.
Proof. solve_decision. Defined.
End GraphProfile.
Module ParameterName.
Record t : Type := mk { as_str : string }.
Definition new (value : string) : result NameError.t t := _ ← validate_symbol "ParameterName" value; Ok (mk value).
#[global] Instance workload_ParameterName_eq_dec : EqDecision t.
Proof. solve_decision. Defined.
#[global] Instance workload_ParameterName_countable : Countable t.
Proof. refine (inj_countable' as_str mk _); by intros []. Defined.
#[global] Instance workload_ParameterName_ord : Ord t := λ a b, cmp (as_str a) (as_str b).
#[global] Instance workload_ParameterName_ord_laws : OrdLaws t.
Proof. eapply (ord_laws_inj as_str); [intros [] []; cbn; by intros ->|done]. Qed.
End ParameterName.
Module LimitName.
Record t : Type := mk { as_str : string }.
Definition new (value : string) : result NameError.t t := _ ← validate_symbol "LimitName" value; Ok (mk value).
#[global] Instance workload_LimitName_eq_dec : EqDecision t.
Proof. solve_decision. Defined.
#[global] Instance workload_LimitName_countable : Countable t.
Proof. refine (inj_countable' as_str mk _); by intros []. Defined.
#[global] Instance workload_LimitName_ord : Ord t := λ a b, cmp (as_str a) (as_str b).
#[global] Instance workload_LimitName_ord_laws : OrdLaws t.
Proof. eapply (ord_laws_inj as_str); [intros [] []; cbn; by intros ->|done]. Qed.
End LimitName.
Module ConstraintName.
Record t : Type := mk { as_str : string }.
Definition new (value : string) : result NameError.t t := _ ← validate_symbol "ConstraintName" value; Ok (mk value).
#[global] Instance workload_ConstraintName_eq_dec : EqDecision t.
Proof. solve_decision. Defined.
End ConstraintName.
Module LabelKey.
Record t : Type := mk { as_str : string }.
Definition new (value : string) : result NameError.t t := _ ← validate_symbol "LabelKey" value; Ok (mk value).
#[global] Instance workload_LabelKey_eq_dec : EqDecision t.
Proof. solve_decision. Defined.
#[global] Instance workload_LabelKey_countable : Countable t.
Proof. refine (inj_countable' as_str mk _); by intros []. Defined.
#[global] Instance workload_LabelKey_ord : Ord t := λ a b, cmp (as_str a) (as_str b).
#[global] Instance workload_LabelKey_ord_laws : OrdLaws t.
Proof. eapply (ord_laws_inj as_str); [intros [] []; cbn; by intros ->|done]. Qed.
End LabelKey.
Module LabelValue.
Record t : Type := mk { as_str : string }.
Definition new (value : string) : result NameError.t t := _ ← validate_label "LabelValue" value; Ok (mk value).
#[global] Instance workload_LabelValue_eq_dec : EqDecision t.
Proof. solve_decision. Defined.
End LabelValue.
Module WorkloadName.
Record t : Type := mk { as_str : string }.
Definition new (value : string) : result NameError.t t := _ ← validate_label "WorkloadName" value; Ok (mk value).
#[global] Instance workload_WorkloadName_eq_dec : EqDecision t.
Proof. solve_decision. Defined.
End WorkloadName.
Module MediaType.
Record t : Type := mk { as_str : string }.
Definition new (value : string) : result NameError.t t := _ ← validate_media_type "MediaType" value; Ok (mk value).
#[global] Instance workload_MediaType_eq_dec : EqDecision t.
Proof. solve_decision. Defined.
End MediaType.

(** ** Digests (digest.rs)

    An artifact is named by the hash of its bytes, a workload by the hash of its
    canonical encoding. SHA-256 is the one algorithm. *)
Module DigestAlgorithm.
Inductive t : Type := Sha256.
Definition as_str (a : t) : string := match a with Sha256 => "sha256" end.
Definition byte_len (a : t) : N := match a with Sha256 => 32 end.
#[global] Instance workload_DigestAlgorithm_eq_dec : EqDecision t.
Proof. solve_decision. Defined.
End DigestAlgorithm.
Module DigestError.
Inductive t : Type :=
  | Malformed (found : string)
  | UnsupportedAlgorithm (algorithm : string)
  | WrongLength (algorithm : DigestAlgorithm.t) (expected found : N)
  | NotHex (offset : N).
#[global] Instance workload_DigestError_eq_dec : EqDecision t.
Proof. solve_decision. Defined.
End DigestError.
(** Lowercase only. *)
Definition hex_value (byte : ascii) : option N :=
  let c := N_of_ascii byte in
  if (48 <=? c)%N && (c <=? 57)%N then Some (c - 48)%N
  else if (97 <=? c)%N && (c <=? 102)%N then Some (c - 97 + 10)%N
  else None.
(** [str::split_once]. *)
Fixpoint split_once (separator : ascii) (l : bytes) : option (bytes * bytes) :=
  match l with
  | [] => None
  | b :: l => if bool_decide (b = separator) then Some ([], l) else prod_map (cons b) id <$> split_once separator l
  end.
(** The pairs of a payload of even length, with the offset of the first. *)
Fixpoint hex_pairs (offset : N) (payload : bytes) : result DigestError.t bytes :=
  match payload with
  | high :: low :: payload =>
    match hex_value high with
    | None => Err (DigestError.NotHex offset)
    | Some h =>
      match hex_value low with
      | None => Err (DigestError.NotHex (offset + 1))
      | Some l => rest ← hex_pairs (offset + 2) payload; Ok (ascii_of_N (N.lor (N.shiftl h 4) l) :: rest)
      end
    end
  | _ => Ok []
  end.
Module ArtifactDigest.
Record t : Type := mk { algorithm : DigestAlgorithm.t; as_bytes : bytes }.
#[global] Instance workload_ArtifactDigest_eq_dec : EqDecision t.
Proof. solve_decision. Defined.
#[global] Instance workload_ArtifactDigest_countable : Countable t.
Proof. refine (inj_countable' as_bytes (mk DigestAlgorithm.Sha256) _); by intros [[]]. Defined.
#[global] Instance workload_ArtifactDigest_ord : Ord t := λ a b, cmp (as_bytes a) (as_bytes b).
#[global] Instance workload_ArtifactDigest_ord_laws : OrdLaws t.
Proof. eapply (ord_laws_inj as_bytes); [intros [[]] [[]]; cbn; by intros ->|done]. Qed.
Definition from_sha256 (bs : bytes) : t := mk DigestAlgorithm.Sha256 bs.
Definition sha256_of `{Antientropy.Sha256} (content : bytes) : t := from_sha256 (Antientropy.sha256 content).
Definition matches `{Antientropy.Sha256} (d : t) (content : bytes) : bool := bool_decide (sha256_of content = d).
Definition to_string (d : t) : string :=
  DigestAlgorithm.as_str (algorithm d) +:+ ":" +:+ String.string_of_list_ascii (as_bytes d ≫= hex_byte).
Definition from_str (value : string) : result DigestError.t t :=
  match split_once ":" (bytes_of value) with
  | None => Err (DigestError.Malformed value)
  | Some (tag, payload) =>
    if bool_decide (tag = bytes_of "sha256") then
      let expected := (DigestAlgorithm.byte_len DigestAlgorithm.Sha256 * 2)%N in
      if negb (lenN payload =? expected)%N then Err (DigestError.WrongLength DigestAlgorithm.Sha256 expected (lenN payload))
      else bs ← hex_pairs 0 payload; Ok (mk DigestAlgorithm.Sha256 bs)
    else Err (DigestError.UnsupportedAlgorithm (String.string_of_list_ascii tag))
  end.
(** What the type keeps: exactly as many bytes as the algorithm produces. *)
Definition wf (d : t) : Prop := lenN (as_bytes d) = DigestAlgorithm.byte_len (algorithm d).
End ArtifactDigest.
Module WorkloadDigest.
Record t : Type := mk { digest : ArtifactDigest.t }.
#[global] Instance workload_WorkloadDigest_eq_dec : EqDecision t.
Proof. solve_decision. Defined.
Definition of_canonical_bytes `{Antientropy.Sha256} (canonical : bytes) : t := mk (ArtifactDigest.sha256_of canonical).
End WorkloadDigest.

(** ** Numbers and scalars (value.rs) *)
Module FloatError.
Inductive t : Type := NotANumber | Infinite (sign : string).
#[global] Instance workload_FloatError_eq_dec : EqDecision t.
Proof. solve_decision. Defined.
End FloatError.
Module FiniteF64.
Record t : Type := mk { get : f64 }.
#[global] Instance workload_FiniteF64_eq_dec : EqDecision t.
Proof. solve_decision. Defined.
Definition ZERO : t := mk F64.zero.
Definition new (value : f64) : result FloatError.t t :=
  match value with
  | SpecFloat.S754_nan => Err FloatError.NotANumber
  | SpecFloat.S754_infinity s => Err (FloatError.Infinite (if s then "-" else ""))
  | value => Ok (mk (F64.add value F64.zero))
  end.
Definition is_positive (x : t) : bool := F64.ltb F64.zero (get x).
End FiniteF64.
Module ScalarValue.
Inductive t : Type := Bool (value : bool) | Integer (value : Z) | Real (value : FiniteF64.t) | Text (value : string).
#[global] Instance workload_ScalarValue_eq_dec : EqDecision t.
Proof. solve_decision. Defined.
Definition real (value : f64) : result FloatError.t t := value ← FiniteF64.new value; Ok (Real value).
End ScalarValue.

(** ** Bounds (limits.rs) *)
Module Limits.
Record t : Type := mk {
  max_manifest_bytes : N;
  max_nesting_depth : N;
  max_components : N;
  max_channels : N;
  max_channel_shape_rank : N;
  max_step_invocations : N;
  max_inputs_per_invocation : N;
  max_outputs_per_invocation : N;
  max_dependencies_per_invocation : N;
  max_state_ownership_per_component : N;
  max_roles_per_component : N;
  max_config_entries : N;
  max_limit_entries : N;
  max_parameter_entries : N;
  max_artifacts : N;
  max_artifact_bytes : N;
  max_aggregate_declared_bytes : N;
  max_initial_conditions : N;
  max_placement_constraints : N;
  max_labels : N;
  max_text_bytes : N;
  max_domain_dimensions : N;
  max_reported_errors : N;
  max_canonical_values : N
}.
Definition DEFAULT : t := {|
  max_manifest_bytes := 4 * 1024 * 1024;
  max_nesting_depth := 32;
  max_components := 64;
  max_channels := 256;
  max_channel_shape_rank := 8;
  max_step_invocations := 256;
  max_inputs_per_invocation := 32;
  max_outputs_per_invocation := 32;
  max_dependencies_per_invocation := 32;
  max_state_ownership_per_component := 32;
  max_roles_per_component := 16;
  max_config_entries := 128;
  max_limit_entries := 32;
  max_parameter_entries := 64;
  max_artifacts := 512;
  max_artifact_bytes := 64 * 1024 * 1024 * 1024;
  max_aggregate_declared_bytes := 1024 * 1024 * 1024 * 1024;
  max_initial_conditions := 64;
  max_placement_constraints := 64;
  max_labels := 32;
  max_text_bytes := 4096;
  max_domain_dimensions := 4;
  max_reported_errors := 256;
  max_canonical_values := N.shiftl 1 20
|}.
End Limits.

(** ** Artifacts (artifact.rs) *)
Module ArtifactRole.
Record t : Type := mk { as_str : string }.
#[global] Instance workload_ArtifactRole_eq_dec : EqDecision t.
Proof. solve_decision. Defined.
#[global] Instance workload_ArtifactRole_countable : Countable t.
Proof. refine (inj_countable' as_str mk _); by intros []. Defined.
#[global] Instance workload_ArtifactRole_ord : Ord t := λ a b, cmp (as_str a) (as_str b).
#[global] Instance workload_ArtifactRole_ord_laws : OrdLaws t.
Proof. eapply (ord_laws_inj as_str); [intros [] []; cbn; by intros ->|done]. Qed.
Definition COMPONENT : string := "component".
Definition INITIAL_CONDITIONS : string := "initial-conditions".
Definition GEOMETRY : string := "geometry".
Definition new (value : string) : result NameError.t t := _ ← validate_symbol "ArtifactRole" value; Ok (mk value).
Definition component : t := mk COMPONENT.
Definition is_singular (r : t) : bool := bool_decide (as_str r = GEOMETRY).
End ArtifactRole.
Module SchemaCompat.
Record t : Type := mk { schema_id : SchemaId.t; version : N }.
#[global] Instance workload_SchemaCompat_eq_dec : EqDecision t.
Proof. solve_decision. Defined.
End SchemaCompat.
Module ArtifactDescriptor.
Record t : Type := mk {
  role : ArtifactRole.t;
  digest : ArtifactDigest.t;
  size_bytes : N;
  media_type : MediaType.t;
  schema : option SchemaCompat.t
}.
#[global] Instance workload_ArtifactDescriptor_eq_dec : EqDecision t.
Proof. solve_decision. Defined.
End ArtifactDescriptor.

(** ** The domain (domain.rs) *)
Module DomainBounds.
Inductive t : Type := Cube (side_metres : FiniteF64.t) | Box (side_metres : list FiniteF64.t).
End DomainBounds.
Module Integration.
Record t : Type := mk { scheme : ParameterName.t; parameters : gmap ParameterName.t ScalarValue.t }.
End Integration.
Module Discretization.
Record t : Type := mk { space_metres : FiniteF64.t; time_seconds : FiniteF64.t; integration : option Integration.t }.
End Discretization.
Module DomainError.
Inductive t : Type :=
  | Dimensions (found max : N)
  | BoundsRank (dimensions found : N)
  | NotPositive (field : string) (found : FiniteF64.t)
  | StepExceedsExtent (axis : string) (step extent : FiniteF64.t).
End DomainError.
Module DomainSpec.
Record t : Type := mk { dimensions : N; bounds : DomainBounds.t; discretization : Discretization.t }.
Definition check_extent (space extent : FiniteF64.t) : result DomainError.t unit :=
  if negb (FiniteF64.is_positive extent) then Err (DomainError.NotPositive "a domain side length" extent)
  else if F64.ltb (FiniteF64.get extent) (FiniteF64.get space) then Err (DomainError.StepExceedsExtent "spatial" space extent)
  else Ok ().
Definition validate (d : t) (limits : Limits.t) : result DomainError.t unit :=
  if (dimensions d =? 0)%N || (Limits.max_domain_dimensions limits <? dimensions d)%N
  then Err (DomainError.Dimensions (dimensions d) (Limits.max_domain_dimensions limits))
  else
    let space := Discretization.space_metres (discretization d) in
    let time := Discretization.time_seconds (discretization d) in
    if negb (FiniteF64.is_positive space) then Err (DomainError.NotPositive "the spatial step" space)
    else if negb (FiniteF64.is_positive time) then Err (DomainError.NotPositive "the time step" time)
    else
      extents ← (match bounds d with
        | DomainBounds.Cube side => Ok (replicate (N.to_nat (dimensions d)) side)
        | DomainBounds.Box sides =>
          if negb (lenN sides =? dimensions d)%N then Err (DomainError.BoundsRank (dimensions d) (lenN sides)) else Ok sides
        end : result DomainError.t (list FiniteF64.t));
      try_for_each (check_extent space) extents.
End DomainSpec.

(** ** The component graph (graph.rs) *)
Module ComponentInstance.
Record t : Type := mk {
  instance_id : ComponentInstanceId.t;
  artifact : ArtifactDescriptor.t;
  plugin_id : PluginId.t;
  model_id : ModelId.t;
  schema_id : SchemaId.t;
  engine : Engine.t;
  lifecycle : LifecycleId.t;
  roles : list ComponentRole.t;
  state_ownership : list StateChannelId.t;
  config : gmap ParameterName.t ScalarValue.t;
  limits : gmap LimitName.t N
}.
End ComponentInstance.
Module Reduction.
Inductive t : Type := Single | Sum | Min | Max.
#[global] Instance workload_Reduction_eq_dec : EqDecision t.
Proof. solve_decision. Defined.
End Reduction.
Module StateChannel.
Record t : Type := mk {
  channel_id : StateChannelId.t;
  schema : SchemaCompat.t;
  shape : list N;
  owner : option ComponentInstanceId.t;
  reduction : Reduction.t
}.
End StateChannel.
Module StepInvocation.
Record t : Type := mk {
  invocation_id : StepInvocationId.t;
  instance : ComponentInstanceId.t;
  phase_id : PhaseId.t;
  inputs : list StateChannelId.t;
  outputs : list StateChannelId.t;
  depends_on : list StepInvocationId.t
}.
End StepInvocation.
Module StepPlan.
Record t : Type := mk { profile : GraphProfile.t; invocations : list StepInvocation.t }.
End StepPlan.
Module PlacementConstraint.
Record t : Type := mk {
  constraint : ConstraintName.t;
  instances : list ComponentInstanceId.t;
  parameters : gmap ParameterName.t ScalarValue.t
}.
End PlacementConstraint.
Module ComputeSpec.
Record t : Type := mk {
  workload_graph_profile : GraphProfile.t;
  components : list ComponentInstance.t;
  channels : list StateChannel.t;
  step_plan : StepPlan.t;
  placement_constraints : list PlacementConstraint.t
}.
End ComputeSpec.

(** ** The manifest (manifest.rs, v3.rs; resource.rs of orishu-resource)

    The envelope has a slot for a status, whose type is empty for a workload. *)
Definition alphanumeric (b : ascii) : bool :=
  let c := N_of_ascii b in
  ((48 <=? c) && (c <=? 57) || (65 <=? c) && (c <=? 90) || (97 <=? c) && (c <=? 122))%N.
Definition letter (b : ascii) : bool :=
  let c := N_of_ascii b in ((65 <=? c) && (c <=? 90) || (97 <=? c) && (c <=? 122))%N.
Definition api_version_body (b : ascii) : bool :=
  alphanumeric b || bool_decide (b ∈ bytes_of ".-_/").
Module Discriminator.
Inductive t : Type := ApiVersion | Kind.
End Discriminator.
Module ResourceError.
Inductive t : Type :=
  | Empty (field : Discriminator.t)
  | TooLong (field : Discriminator.t) (found limit : N)
  | Syntax (field : Discriminator.t) (found : string).
End ResourceError.
Definition check_discriminator (field : Discriminator.t) (value : string) (limit : N) (first rest : ascii → bool)
    : result ResourceError.t unit :=
  match bytes_of value with
  | [] => Err (ResourceError.Empty field)
  | b :: bs =>
    if (limit <? str_len value)%N then Err (ResourceError.TooLong field (str_len value) limit)
    else if first b && forallb rest bs then Ok () else Err (ResourceError.Syntax field value)
  end.
Module ApiVersion.
Record t : Type := mk { as_str : string }.
#[global] Instance resource_ApiVersion_eq_dec : EqDecision t.
Proof. solve_decision. Defined.
Definition MAX_LEN : N := 253.
Definition new (value : string) : result ResourceError.t t :=
  _ ← check_discriminator Discriminator.ApiVersion value MAX_LEN alphanumeric api_version_body; Ok (mk value).
End ApiVersion.
Module Kind.
Record t : Type := mk { as_str : string }.
#[global] Instance resource_Kind_eq_dec : EqDecision t.
Proof. solve_decision. Defined.
Definition MAX_LEN : N := 63.
Definition new (value : string) : result ResourceError.t t :=
  _ ← check_discriminator Discriminator.Kind value MAX_LEN letter alphanumeric; Ok (mk value).
End Kind.
Module Resource.
Record t (M S : Type) : Type := mk { api_version : ApiVersion.t; kind : Kind.t; metadata : M; spec : S }.
#[global] Arguments mk {M S} _ _ _ _.
#[global] Arguments api_version {M S} _.
#[global] Arguments kind {M S} _.
#[global] Arguments metadata {M S} _.
#[global] Arguments spec {M S} _.
End Resource.
Module UnexpectedDiscriminator.
Record t : Type := mk {
  expected_api_version : ApiVersion.t;
  expected_kind : Kind.t;
  found_api_version : ApiVersion.t;
  found_kind : Kind.t
}.
End UnexpectedDiscriminator.
Definition expect {M S} (r : Resource.t M S) (api_version : ApiVersion.t) (kind : Kind.t)
    : result UnexpectedDiscriminator.t unit :=
  if bool_decide (Resource.api_version r = api_version) && bool_decide (Resource.kind r = kind) then Ok ()
  else Err (UnexpectedDiscriminator.mk api_version kind (Resource.api_version r) (Resource.kind r)).

Definition WORKLOAD_API_VERSION : string := "orishu.dev/v2".
Definition WORKLOAD_KIND : string := "Workload".
Definition api_version : ApiVersion.t := ApiVersion.mk WORKLOAD_API_VERSION.
Definition kind : Kind.t := Kind.mk WORKLOAD_KIND.
Module WorkloadMeta.
Record t : Type := mk { name : WorkloadName.t; labels : gmap LabelKey.t LabelValue.t }.
Definition new (name : WorkloadName.t) : t := mk name ∅.
End WorkloadMeta.
Module WorkloadInputs.
Record t : Type := mk {
  geometry : option ArtifactDescriptor.t;
  initial_conditions : list ArtifactDescriptor.t;
  additional : list ArtifactDescriptor.t
}.
Definition default : t := mk None [] [].
End WorkloadInputs.
Module WorkloadRequirements.
Record t : Type := mk {
  hardware : gmap ParameterName.t ScalarValue.t;
  execution_profile : gmap ParameterName.t ScalarValue.t
}.
Definition default : t := mk ∅ ∅.
End WorkloadRequirements.
Module WorkloadSpec.
Record t : Type := mk {
  compute : ComputeSpec.t;
  domain : DomainSpec.t;
  inputs : WorkloadInputs.t;
  requirements : WorkloadRequirements.t
}.
End WorkloadSpec.
Abbreviation WorkloadManifest := (Resource.t WorkloadMeta.t WorkloadSpec.t).
Definition manifest (metadata : WorkloadMeta.t) (spec : WorkloadSpec.t) : WorkloadManifest :=
  Resource.mk api_version kind metadata spec.

Module V3.
Definition API_VERSION : string := "orishu.dev/v3".
Definition SELECTION_ROLE : string := "plugin-selection".
Definition EXECUTION_ROLE : string := "scientific-execution".
Record WorkloadSpec : Type := mk {
  compute : ComputeSpec.t;
  selection : ArtifactDescriptor.t;
  execution : ArtifactDescriptor.t;
  artifacts : list ArtifactDescriptor.t;
  requirements : WorkloadRequirements.t
}.
Abbreviation WorkloadManifest := (Resource.t WorkloadMeta.t WorkloadSpec).
Definition manifest (metadata : WorkloadMeta.t) (spec : WorkloadSpec) : WorkloadManifest :=
  Resource.mk (ApiVersion.mk API_VERSION) kind metadata spec.
End V3.
