(* ===== verification/Cbor.v ===== *)
(** * The canonical encoding of values (crate [orishu-workload], canonical.rs)

    The deterministic CBOR a workload's identity is taken over: the values, the
    encoder with its byte budget, and the decoder with the profile it enforces.

    The text of an error that is the rendering of a value is the value here. *)

From Stdlib Require Import Ascii.
From Stdlib Require Import Floats.SpecFloat.
From stdpp Require Import base gmap strings list sorting.
From S2P Require Import Prelude Identity Binary64 Workload.
From S2P Require Antientropy.

(** ** Values *)
Module CanonicalValue.
Inductive t : Type :=
  | Bool (value : bool)
  | UInt (value : N)
  | NInt (value : Z)
  | F64 (value : FiniteF64.t)
  | Bytes (value : bytes)
  | Text (value : string)
  | Array (items : list t)
  | Map (entries : list (t * t)).
Definition text (value : string) : t := Text value.
Definition int (value : Z) : t := if (value <? 0)%Z then NInt value else UInt (Z.to_N value).

(** Induction through the arrays and the maps. *)
Section induction.
Variable P : t → Prop.
Hypothesis HBool : ∀ b, P (Bool b).
Hypothesis HUInt : ∀ n, P (UInt n).
Hypothesis HNInt : ∀ z, P (NInt z).
Hypothesis HF64 : ∀ x, P (F64 x).
Hypothesis HBytes : ∀ b, P (Bytes b).
Hypothesis HText : ∀ s, P (Text s).
Hypothesis HArray : ∀ items, Forall P items → P (Array items).
Hypothesis HMap : ∀ entries, Forall (λ e, P e.1 ∧ P e.2) entries → P (Map entries).
Fixpoint nested_ind (v : t) : P v :=
  match v with
  | Bool b => HBool b
  | UInt n => HUInt n
  | NInt z => HNInt z
  | F64 x => HF64 x
  | Bytes b => HBytes b
  | Text s => HText s
  | Array items => HArray items
      ((fix all l : Forall P l := match l with [] => Forall_nil_2 P | x :: l => Forall_cons_2 P x l (nested_ind x) (all l) end) items)
  | Map entries => HMap entries
      ((fix all l : Forall (λ e, P e.1 ∧ P e.2) l :=
        match l with
        | [] => Forall_nil_2 _
        | (k, x) :: l => Forall_cons_2 (λ e, P e.1 ∧ P e.2) (k, x) l (conj (nested_ind k) (nested_ind x)) (all l)
        end) entries)
  end.
End induction.
End CanonicalValue.

(** Why a value of the model was refused, as the error its constructor gives. *)
Module Refusal.
Inductive t : Type :=
  | Name (error : NameError.t)
  | Digest (error : DigestError.t)
  | Resource (error : ResourceError.t)
  | Message (reason : string).
End Refusal.
Module CanonicalError.
Inductive t : Type :=
  | DuplicateKey (key : CanonicalValue.t)
  | TooDeep (limit : N)
  | TooManyValues (limit : N)
  | Truncated (at_ : N)
  | TrailingBytes (extra : N)
  | NotCanonical (at_ : N) (reason : string)
  | UnexpectedShape (path expected found : string)
  | MissingField (path field : string)
  | UnknownField (path field : string)
  | InvalidValue (path : string) (reason : Refusal.t)
  | RedundantEmpty (path : string)
  | TooLarge (found limit : N)
  | EncodedTooLarge (limit : N)
  | NotItsOwnCanonicalForm.
End CanonicalError.

(** ** Binary64 as bits ([f64::to_bits], [f64::from_bits]) *)
Definition f64_to_bits (x : f64) : N :=
  let sign (s : bool) : N := (if s then 2 ^ 63 else 0)%N in
  (match x with
   | S754_zero s => sign s
   | S754_infinity s => sign s + 2047 * 2 ^ 52
   | S754_nan => 2047 * 2 ^ 52 + 2 ^ 51
   | S754_finite s m e =>
     if Npos m <? 2 ^ 52 then sign s + Npos m else sign s + Z.to_N (e + 1075) * 2 ^ 52 + (Npos m - 2 ^ 52)
   end)%N.
Definition f64_from_bits (n : N) : f64 :=
  let s := (2 ^ 63 <=? n)%N in
  let exponent := ((n / 2 ^ 52) mod 2 ^ 11)%N in
  let fraction := (n mod 2 ^ 52)%N in
  if (exponent =? 0)%N then
    match fraction with N0 => S754_zero s | Npos m => S754_finite s m (-1074) end
  else if (exponent =? 2047)%N then
    if (fraction =? 0)%N then S754_infinity s else S754_nan
  else
    match (2 ^ 52 + fraction)%N with N0 => S754_nan | Npos m => S754_finite s m (Z.of_N exponent - 1075) end.
Definition is_sign_negative (x : f64) : bool :=
  match x with S754_zero s | S754_infinity s | S754_finite s _ _ => s | S754_nan => false end.
(** [from_be_bytes] of an unsigned integer. *)
Definition from_be_bytes (l : bytes) : N := foldl (λ n b, n * 256 + N_of_ascii b)%N 0%N l.

(** ** Encoding *)
Definition MAJOR_UINT : N := 0.
Definition MAJOR_NINT : N := 1.
Definition MAJOR_BYTES : N := 2.
Definition MAJOR_TEXT : N := 3.
Definition MAJOR_ARRAY : N := 4.
Definition MAJOR_MAP : N := 5.
Definition MAJOR_SIMPLE : N := 7.

Module Output.
Record t : Type := mk { written : bytes; limit : N }.
Definition room_for (out : t) (extra : N) : result CanonicalError.t unit :=
  if (limit out <? saturating_add usize_max (lenN (written out)) extra)%N
  then Err (CanonicalError.EncodedTooLarge (limit out)) else Ok ().
Definition push (byte : N) (out : t) : result CanonicalError.t t :=
  _ ← room_for out 1; Ok (mk (written out ++ [ascii_of_N byte]) (limit out)).
Definition extend (l : bytes) (out : t) : result CanonicalError.t t :=
  _ ← room_for out (lenN l); Ok (mk (written out ++ l) (limit out)).
End Output.

Definition write_head (major argument : N) (out : Output.t) : result CanonicalError.t Output.t :=
  let major := N.shiftl major 5 in
  (if argument <=? 23 then Output.push (N.lor major argument) out
   else if argument <=? 0xFF then
     out ← Output.push (N.lor major 24) out; Output.push argument out
   else if argument <=? 0xFFFF then
     out ← Output.push (N.lor major 25) out; Output.extend (Antientropy.to_be_bytes 2 argument) out
   else if argument <=? 0xFFFFFFFF then
     out ← Output.push (N.lor major 26) out; Output.extend (Antientropy.to_be_bytes 4 argument) out
   else
     out ← Output.push (N.lor major 27) out; Output.extend (Antientropy.to_be_bytes 8 argument) out)%N.

(** [for item in items { write(item, out)?; }]. *)
Fixpoint write_each {A} (write : A → Output.t → result CanonicalError.t Output.t) (items : list A) (out : Output.t)
    : result CanonicalError.t Output.t :=
  match items with
  | [] => Ok out
  | item :: items => out ← write item out; write_each write items out
  end.
Fixpoint write_value (max_depth depth : N) (value : CanonicalValue.t) (out : Output.t) {struct value}
    : result CanonicalError.t Output.t :=
  if (max_depth <? depth)%N then Err (CanonicalError.TooDeep max_depth)
  else
    match value with
    | CanonicalValue.Bool false => Output.push (N.lor (N.shiftl MAJOR_SIMPLE 5) 20) out
    | CanonicalValue.Bool true => Output.push (N.lor (N.shiftl MAJOR_SIMPLE 5) 21) out
    | CanonicalValue.UInt value => write_head MAJOR_UINT value out
    | CanonicalValue.NInt value => write_head MAJOR_NINT (Z.to_N (Z.abs value) - 1) out
    | CanonicalValue.F64 value =>
      out ← Output.push (N.lor (N.shiftl MAJOR_SIMPLE 5) 27) out;
      Output.extend (Antientropy.to_be_bytes 8 (f64_to_bits (FiniteF64.get value))) out
    | CanonicalValue.Bytes content =>
      out ← write_head MAJOR_BYTES (lenN content) out; Output.extend content out
    | CanonicalValue.Text text =>
      out ← write_head MAJOR_TEXT (str_len text) out; Output.extend (bytes_of text) out
    | CanonicalValue.Array items =>
      out ← write_head MAJOR_ARRAY (lenN items) out;
      write_each (write_value max_depth (depth + 1)) items out
    | CanonicalValue.Map entries =>
      out ← write_head MAJOR_MAP (lenN entries) out;
      write_each (λ entry out,
        out ← write_value max_depth (depth + 1) entry.1 out;
        write_value max_depth (depth + 1) entry.2 out) entries out
    end.
Definition encode (value : CanonicalValue.t) (limits : Limits.t) : result CanonicalError.t bytes :=
  out ← write_value (Limits.max_nesting_depth limits) 0 value
    (Output.mk [] (N.min (Limits.max_manifest_bytes limits) usize_max));
  Ok (Output.written out).
(** The [expect] of the source does not fail on a key of fewer than [usize::MAX]
    levels. *)
Definition encode_key (key : CanonicalValue.t) : bytes :=
  match write_value usize_max 0 key (Output.mk [] usize_max) with
  | Ok out => Output.written out
  | Err _ => []
  end.

(** ** Maps *)
Module CanonicalMap.
Fixpoint repeated_key (keyed : list (bytes * (CanonicalValue.t * CanonicalValue.t))) : option CanonicalValue.t :=
  match keyed with
  | a :: ((b :: _) as rest) => if bool_decide (a.1 = b.1) then Some a.2.1 else repeated_key rest
  | _ => None
  end.
Definition new (entries : list (CanonicalValue.t * CanonicalValue.t)) : result CanonicalError.t (list (CanonicalValue.t * CanonicalValue.t)) :=
  let keyed := merge_sort entry_le ((λ entry, (encode_key entry.1, entry)) <$> entries) in
  match repeated_key keyed with
  | Some key => Err (CanonicalError.DuplicateKey key)
  | None => Ok keyed.*2
  end.
Definition fields (entries : list (string * option CanonicalValue.t)) : result CanonicalError.t (list (CanonicalValue.t * CanonicalValue.t)) :=
  new (omap (λ entry, (λ value, (CanonicalValue.text entry.1, value)) <$> entry.2) entries).
End CanonicalMap.

(** ** Decoding *)

(** [String::from_utf8]: the well-formed byte sequences of Unicode. [low] and
    [high] bound the next continuation byte, of which [need] are due. *)
Fixpoint well_formed_utf8 (need : nat) (low high : N) (l : bytes) : bool :=
  match l with
  | [] => bool_decide (need = 0)
  | b :: l =>
    let c := N_of_ascii b in
    (match need with
     | S need => (low <=? c) && (c <=? high) && well_formed_utf8 need 128 191 l
     | O =>
       if c <=? 127 then well_formed_utf8 0 128 191 l
       else if c <=? 193 then false
       else if c <=? 223 then well_formed_utf8 1 128 191 l
       else if c =? 224 then well_formed_utf8 2 160 191 l
       else if c =? 237 then well_formed_utf8 2 128 159 l
       else if c <=? 239 then well_formed_utf8 2 128 191 l
       else if c =? 240 then well_formed_utf8 3 144 191 l
       else if c <=? 243 then well_formed_utf8 3 128 191 l
       else if c =? 244 then well_formed_utf8 3 128 143 l
       else false
     end)%N
  end.
Definition is_utf8 (l : bytes) : bool := well_formed_utf8 0 128 191 l.

Module Decoder.
Record t : Type := mk { input : bytes; at_ : N; budget : N; max_depth : N }.
Definition moved_to (at_ : N) (d : t) : t := mk (input d) at_ (budget d) (max_depth d).
Definition byte (d : t) : result CanonicalError.t (N * t) :=
  match input d !! N.to_nat (at_ d) with
  | Some b => Ok (N_of_ascii b, moved_to (at_ d + 1) d)
  | None => Err (CanonicalError.Truncated (at_ d))
  end.
Definition take (len : N) (d : t) : result CanonicalError.t (bytes * t) :=
  match checked_add usize_max (at_ d) len with
  | None => Err (CanonicalError.Truncated (at_ d))
  | Some stop =>
    if (lenN (input d) <? stop)%N then Err (CanonicalError.Truncated (at_ d))
    else Ok (firstn (N.to_nat len) (drop (N.to_nat (at_ d)) (input d)), moved_to stop d)
  end.
Definition argument (additional at_ : N) (d : t) : result CanonicalError.t (N * t) :=
  let shortest (minimum : N) (r : N * t) : result CanonicalError.t (N * t) :=
    if (r.1 <? minimum)%N
    then Err (CanonicalError.NotCanonical at_ "an integer argument not written in its shortest form") else Ok r in
  let wide (len minimum : N) : result CanonicalError.t (N * t) :=
    raw ← take len d; shortest minimum (from_be_bytes raw.1, raw.2) in
  (if additional <=? 23 then Ok (additional, d)
   else if additional =? 24 then raw ← byte d; shortest 24 raw
   else if additional =? 25 then wide 2 0x100
   else if additional =? 26 then wide 4 0x10000
   else if additional =? 27 then wide 8 0x100000000
   else if additional =? 31 then
     Err (CanonicalError.NotCanonical at_ "an indefinite length, which has more than one spelling")
   else Err (CanonicalError.NotCanonical at_ "a reserved additional-information value"))%N.
Definition count (additional at_ per_item : N) (d : t) : result CanonicalError.t (N * t) :=
  claimed ← argument additional at_ d;
  let remaining := (lenN (input d) - Decoder.at_ claimed.2)%N in
  if (remaining <? saturating_mul u64_max claimed.1 per_item)%N then Err (CanonicalError.Truncated at_)
  else if (budget claimed.2 <? claimed.1)%N then Err (CanonicalError.TooManyValues (budget claimed.2))
  else Ok claimed.
Definition spend (d : t) : result CanonicalError.t t :=
  if (budget d =? 0)%N then Err (CanonicalError.TooManyValues 0)
  else Ok (mk (input d) (at_ d) (budget d - 1) (max_depth d)).

(** [for _ in 0..len { … }] *)
Fixpoint items (value : t → result CanonicalError.t (CanonicalValue.t * t)) (len : nat) (d : t)
    : result CanonicalError.t (list CanonicalValue.t * t) :=
  match len with
  | O => Ok ([], d)
  | S len => '(item, d) ← value d; '(rest, d) ← items value len d; Ok (item :: rest, d)
  end.
Definition check_order (previous : option bytes) (key_at : N) (key : CanonicalValue.t) : result CanonicalError.t unit :=
  match previous with
  | None => Ok ()
  | Some previous =>
    match cmp (encode_key key) previous with
    | Gt => Ok ()
    | Eq => Err (CanonicalError.DuplicateKey key)
    | Lt => Err (CanonicalError.NotCanonical key_at "map keys out of bytewise ascending order")
    end
  end.
Fixpoint entries (value : t → result CanonicalError.t (CanonicalValue.t * t)) (len : nat) (previous : option bytes) (d : t)
    : result CanonicalError.t (list (CanonicalValue.t * CanonicalValue.t) * t) :=
  match len with
  | O => Ok ([], d)
  | S len =>
    let key_at := at_ d in
    '(key, d) ← value d;
    _ ← check_order previous key_at key;
    '(item, d) ← value d;
    '(rest, d) ← entries value len (Some (encode_key key)) d;
    Ok ((key, item) :: rest, d)
  end.
Definition negative (at_ argument : N) : result CanonicalError.t CanonicalValue.t :=
  match checked_add u64_max argument 1 with
  | Some magnitude =>
    if (magnitude <=? N.shiftl 1 63)%N then Ok (CanonicalValue.NInt (- Z.of_N magnitude))
    else Err (CanonicalError.NotCanonical at_ "a negative integer outside the range this model carries")
  | None => Err (CanonicalError.NotCanonical at_ "a negative integer outside the range this model carries")
  end.
Definition float (at_ : N) (raw : bytes) : result CanonicalError.t CanonicalValue.t :=
  let value := f64_from_bits (from_be_bytes raw) in
  if is_sign_negative value && F64.eqb value F64.zero
  then Err (CanonicalError.NotCanonical at_ "negative zero, which must be normalised to positive zero")
  else
    match FiniteF64.new value with
    | Ok value => Ok (CanonicalValue.F64 value)
    | Err _ => Err (CanonicalError.NotCanonical at_ "a non-finite float")
    end.
(** What a head of major type [major] stands for; [value] reads one level deeper. *)
Definition body (value : t → result CanonicalError.t (CanonicalValue.t * t)) (major additional at_ : N) (d : t)
    : result CanonicalError.t (CanonicalValue.t * t) :=
  (if major =? MAJOR_UINT then
     '(argument, d) ← argument additional at_ d; Ok (CanonicalValue.UInt argument, d)
   else if major =? MAJOR_NINT then
     '(argument, d) ← argument additional at_ d; v ← negative at_ argument; Ok (v, d)
   else if major =? MAJOR_BYTES then
     '(len, d) ← count additional at_ 1 d; '(raw, d) ← take len d; Ok (CanonicalValue.Bytes raw, d)
   else if major =? MAJOR_TEXT then
     '(len, d) ← count additional at_ 1 d;
     '(raw, d) ← take len d;
     if is_utf8 raw then Ok (CanonicalValue.Text (String.string_of_list_ascii raw), d)
     else Err (CanonicalError.NotCanonical at_ "a text string that is not valid UTF-8")
   else if major =? MAJOR_ARRAY then
     '(len, d) ← count additional at_ 1 d;
     '(items, d) ← items value (N.to_nat len) d; Ok (CanonicalValue.Array items, d)
   else if major =? MAJOR_MAP then
     '(len, d) ← count additional at_ 2 d;
     '(entries, d) ← entries value (N.to_nat len) None d; Ok (CanonicalValue.Map entries, d)
   else if major =? MAJOR_SIMPLE then
     if additional =? 20 then Ok (CanonicalValue.Bool false, d)
     else if additional =? 21 then Ok (CanonicalValue.Bool true, d)
     else if additional =? 22 then
       Err (CanonicalError.NotCanonical at_ "null, where the profile omits an absent field instead")
     else if (additional =? 25) || (additional =? 26) then
       Err (CanonicalError.NotCanonical at_ "a float narrower than 64 bits")
     else if additional =? 27 then '(raw, d) ← take 8 d; v ← float at_ raw; Ok (v, d)
     else Err (CanonicalError.NotCanonical at_ "a simple value other than true or false")
   else Err (CanonicalError.NotCanonical at_ "a tag, which the profile never emits"))%N.
(** [levels] is one more than the levels the depth limit leaves, so it is zero
    exactly when [depth > max_depth]. *)
Fixpoint value (levels : nat) (d : t) : result CanonicalError.t (CanonicalValue.t * t) :=
  match levels with
  | O => Err (CanonicalError.TooDeep (max_depth d))
  | S deeper =>
    d ← spend d;
    let at_ := at_ d in
    '(head, d) ← byte d;
    body (value deeper) (N.shiftr head 5) (N.land head 0x1f) at_ d
  end.
End Decoder.
Definition decode (content : bytes) (limits : Limits.t) : result CanonicalError.t CanonicalValue.t :=
  let found := lenN content in
  if (Limits.max_manifest_bytes limits <? found)%N then Err (CanonicalError.TooLarge found (Limits.max_manifest_bytes limits))
  else
    let decoder := Decoder.mk content 0 (Limits.max_canonical_values limits) (Limits.max_nesting_depth limits) in
    '(value, decoder) ← Decoder.value (S (N.to_nat (Limits.max_nesting_depth limits))) decoder;
    if negb (Decoder.at_ decoder =? lenN content)%N
    then Err (CanonicalError.TrailingBytes (lenN content - Decoder.at_ decoder)) else Ok value.
