(* ===== verification/Canonical.v ===== *)
(** * The canonical form of a workload (crate [orishu-workload], canonical.rs and
    canonical/v3.rs)

    Which fields of the manifest a workload commits to, how they are read back,
    and the digest that identifies the workload. *)

From Stdlib Require Import Ascii.
From stdpp Require Import base gmap strings list pretty.
From S2P Require Import Prelude Identity Binary64 Workload Cbor.
From S2P Require Antientropy.

(** [Iterator::map] to results, collected up to the first error. *)
Fixpoint try_map {E A B} (f : A → result E B) (l : list A) : result E (list B) :=
  match l with
  | [] => Ok []
  | x :: l => y ← f x; ys ← try_map f l; Ok (y :: ys)
  end.

(** ** The traits

    [AsRef<str>] and [FromStr] of the validated names and the digests, and the two
    directions of the canonical form. *)
Class AsRef (A : Type) := as_ref : A → string.
Class FromStr (A : Type) := from_str : string → result Refusal.t A.
Class ToCanonical (A : Type) := to_canonical : A → result CanonicalError.t CanonicalValue.t.
Module Path.
Definition t : Type := string.
Definition root : t := "$".
Definition field (path : t) (name : string) : t := path +:+ "." +:+ name.
Definition index (path : t) (i : N) : t := path +:+ "[" +:+ pretty i +:+ "]".
Definition key (path : t) (key : string) : t := path +:+ "." +:+ key.
End Path.
Class FromCanonical (A : Type) := from_canonical : CanonicalValue.t → Path.t → result CanonicalError.t A.
#[export] Instance ArtifactRole_as_ref : AsRef ArtifactRole.t := ArtifactRole.as_str.
#[export] Instance ArtifactRole_from_str : FromStr ArtifactRole.t := λ s, result_map_err Refusal.Name (ArtifactRole.new s).
#[export] Instance ComponentInstanceId_as_ref : AsRef ComponentInstanceId.t := ComponentInstanceId.as_str.
#[export] Instance ComponentInstanceId_from_str : FromStr ComponentInstanceId.t := λ s, result_map_err Refusal.Name (ComponentInstanceId.new s).
#[export] Instance ComponentRole_as_ref : AsRef ComponentRole.t := ComponentRole.as_str.
#[export] Instance ComponentRole_from_str : FromStr ComponentRole.t := λ s, result_map_err Refusal.Name (ComponentRole.new s).
#[export] Instance ConstraintName_as_ref : AsRef ConstraintName.t := ConstraintName.as_str.
#[export] Instance ConstraintName_from_str : FromStr ConstraintName.t := λ s, result_map_err Refusal.Name (ConstraintName.new s).
#[export] Instance Engine_as_ref : AsRef Engine.t := Engine.as_str.
#[export] Instance Engine_from_str : FromStr Engine.t := λ s, result_map_err Refusal.Name (Engine.new s).
#[export] Instance GraphProfile_as_ref : AsRef GraphProfile.t := GraphProfile.as_str.
#[export] Instance GraphProfile_from_str : FromStr GraphProfile.t := λ s, result_map_err Refusal.Name (GraphProfile.new s).
#[export] Instance LifecycleId_as_ref : AsRef LifecycleId.t := LifecycleId.as_str.
#[export] Instance LifecycleId_from_str : FromStr LifecycleId.t := λ s, result_map_err Refusal.Name (LifecycleId.new s).
#[export] Instance MediaType_as_ref : AsRef MediaType.t := MediaType.as_str.
#[export] Instance MediaType_from_str : FromStr MediaType.t := λ s, result_map_err Refusal.Name (MediaType.new s).
#[export] Instance ModelId_as_ref : AsRef ModelId.t := ModelId.as_str.
#[export] Instance ModelId_from_str : FromStr ModelId.t := λ s, result_map_err Refusal.Name (ModelId.new s).
#[export] Instance ParameterName_as_ref : AsRef ParameterName.t := ParameterName.as_str.
#[export] Instance ParameterName_from_str : FromStr ParameterName.t := λ s, result_map_err Refusal.Name (ParameterName.new s).
#[export] Instance LimitName_as_ref : AsRef LimitName.t := LimitName.as_str.
#[export] Instance LimitName_from_str : FromStr LimitName.t := λ s, result_map_err Refusal.Name (LimitName.new s).
#[export] Instance LabelKey_as_ref : AsRef LabelKey.t := LabelKey.as_str.
#[export] Instance LabelKey_from_str : FromStr LabelKey.t := λ s, result_map_err Refusal.Name (LabelKey.new s).
#[export] Instance PhaseId_as_ref : AsRef PhaseId.t := PhaseId.as_str.
#[export] Instance PhaseId_from_str : FromStr PhaseId.t := λ s, result_map_err Refusal.Name (PhaseId.new s).
#[export] Instance PluginId_as_ref : AsRef PluginId.t := PluginId.as_str.
#[export] Instance PluginId_from_str : FromStr PluginId.t := λ s, result_map_err Refusal.Name (PluginId.new s).
#[export] Instance SchemaId_as_ref : AsRef SchemaId.t := SchemaId.as_str.
#[export] Instance SchemaId_from_str : FromStr SchemaId.t := λ s, result_map_err Refusal.Name (SchemaId.new s).
#[export] Instance StateChannelId_as_ref : AsRef StateChannelId.t := StateChannelId.as_str.
#[export] Instance StateChannelId_from_str : FromStr StateChannelId.t := λ s, result_map_err Refusal.Name (StateChannelId.new s).
#[export] Instance StepInvocationId_as_ref : AsRef StepInvocationId.t := StepInvocationId.as_str.
#[export] Instance StepInvocationId_from_str : FromStr StepInvocationId.t := λ s, result_map_err Refusal.Name (StepInvocationId.new s).
#[export] Instance WorkloadName_as_ref : AsRef WorkloadName.t := WorkloadName.as_str.
#[export] Instance WorkloadName_from_str : FromStr WorkloadName.t := λ s, result_map_err Refusal.Name (WorkloadName.new s).
#[export] Instance LabelValue_as_ref : AsRef LabelValue.t := LabelValue.as_str.
#[export] Instance LabelValue_from_str : FromStr LabelValue.t := λ s, result_map_err Refusal.Name (LabelValue.new s).
#[export] Instance ApiVersion_as_ref : AsRef ApiVersion.t := ApiVersion.as_str.
#[export] Instance ApiVersion_from_str : FromStr ApiVersion.t := λ s, result_map_err Refusal.Resource (ApiVersion.new s).
#[export] Instance Kind_as_ref : AsRef Kind.t := Kind.as_str.
#[export] Instance Kind_from_str : FromStr Kind.t := λ s, result_map_err Refusal.Resource (Kind.new s).
#[export] Instance ArtifactDigest_as_ref : AsRef ArtifactDigest.t := ArtifactDigest.to_string.
#[export] Instance ArtifactDigest_from_str : FromStr ArtifactDigest.t := λ s, result_map_err Refusal.Digest (ArtifactDigest.from_str s).

(** ** Writing *)
Definition some_text (value : string) : result CanonicalError.t (option CanonicalValue.t) := Ok (Some (CanonicalValue.text value)).
Definition some_value (value : CanonicalValue.t) : result CanonicalError.t (option CanonicalValue.t) := Ok (Some value).
Definition present `{ToCanonical A} (value : A) : result CanonicalError.t (option CanonicalValue.t) :=
  v ← to_canonical value; Ok (Some v).
Definition optional_value `{ToCanonical A} (value : option A) : result CanonicalError.t (option CanonicalValue.t) :=
  match value with Some value => present value | None => Ok None end.
Definition array `{ToCanonical A} (items : list A) : result CanonicalError.t CanonicalValue.t :=
  items ← try_map to_canonical items; Ok (CanonicalValue.Array items).
Definition present_array `{ToCanonical A} (items : list A) : result CanonicalError.t (option CanonicalValue.t) :=
  v ← array items; Ok (Some v).
Definition array_or_omitted `{ToCanonical A} (items : list A) : result CanonicalError.t (option CanonicalValue.t) :=
  if bool_decide (items = []) then Ok None else present_array items.
Definition map_or_omitted `{Countable K, Ord K, AsRef K, ToCanonical V} (entries : gmap K V)
    : result CanonicalError.t (option CanonicalValue.t) :=
  if bool_decide (entries = ∅) then Ok None
  else
    pairs ← try_map (λ entry : K * V, v ← to_canonical entry.2; Ok (CanonicalValue.text (as_ref entry.1), v)) (btree_entries entries);
    entries ← CanonicalMap.new pairs;
    Ok (Some (CanonicalValue.Map entries)).
Definition names_or_omitted `{AsRef A} (names : list A) : result CanonicalError.t (option CanonicalValue.t) :=
  Ok (if bool_decide (names = []) then None else Some (CanonicalValue.Array (CanonicalValue.text ∘ as_ref <$> names))).
(** [CanonicalMap::fields([…]).map(CanonicalValue::Map)], the elements of the array
    evaluated in order. *)
Definition map_of (fields : list (string * result CanonicalError.t (option CanonicalValue.t)))
    : result CanonicalError.t CanonicalValue.t :=
  fields ← try_map (λ field, v ← field.2; Ok (field.1, v)) fields;
  entries ← CanonicalMap.fields fields;
  Ok (CanonicalValue.Map entries).

#[export] Instance ScalarValue_to_canonical : ToCanonical ScalarValue.t := λ value, Ok
  match value with
  | ScalarValue.Bool value => CanonicalValue.Bool value
  | ScalarValue.Integer value => CanonicalValue.int value
  | ScalarValue.Real value => CanonicalValue.F64 value
  | ScalarValue.Text value => CanonicalValue.text value
  end.
#[export] Instance u64_to_canonical : ToCanonical N := λ value, Ok (CanonicalValue.UInt value).
#[export] Instance ArtifactDigest_to_canonical : ToCanonical ArtifactDigest.t := λ d,
  Ok (CanonicalValue.text (ArtifactDigest.to_string d)).
#[export] Instance ArtifactRole_to_canonical : ToCanonical ArtifactRole.t := λ r, Ok (CanonicalValue.text (ArtifactRole.as_str r)).
#[export] Instance SchemaCompat_to_canonical : ToCanonical SchemaCompat.t := λ c, map_of [
  ("schemaId", some_text (SchemaId.as_str (SchemaCompat.schema_id c)));
  ("version", some_value (CanonicalValue.UInt (SchemaCompat.version c)))].
#[export] Instance ArtifactDescriptor_to_canonical : ToCanonical ArtifactDescriptor.t := λ a, map_of [
  ("role", present (ArtifactDescriptor.role a));
  ("digest", present (ArtifactDescriptor.digest a));
  ("sizeBytes", some_value (CanonicalValue.UInt (ArtifactDescriptor.size_bytes a)));
  ("mediaType", some_text (MediaType.as_str (ArtifactDescriptor.media_type a)));
  ("schema", optional_value (ArtifactDescriptor.schema a))].
#[export] Instance ComponentInstance_to_canonical : ToCanonical ComponentInstance.t := λ c, map_of [
  ("instanceId", some_text (ComponentInstanceId.as_str (ComponentInstance.instance_id c)));
  ("artifact", present (ComponentInstance.artifact c));
  ("pluginId", some_text (PluginId.as_str (ComponentInstance.plugin_id c)));
  ("modelId", some_text (ModelId.as_str (ComponentInstance.model_id c)));
  ("schemaId", some_text (SchemaId.as_str (ComponentInstance.schema_id c)));
  ("engine", some_text (Engine.as_str (ComponentInstance.engine c)));
  ("lifecycle", some_text (LifecycleId.as_str (ComponentInstance.lifecycle c)));
  ("roles", names_or_omitted (ComponentInstance.roles c));
  ("stateOwnership", names_or_omitted (ComponentInstance.state_ownership c));
  ("config", map_or_omitted (ComponentInstance.config c));
  ("limits", map_or_omitted (ComponentInstance.limits c))].
#[export] Instance Reduction_to_canonical : ToCanonical Reduction.t := λ r, Ok (CanonicalValue.text
  match r with Reduction.Single => "single" | Reduction.Sum => "sum" | Reduction.Min => "min" | Reduction.Max => "max" end).
#[export] Instance StateChannel_to_canonical : ToCanonical StateChannel.t := λ c, map_of [
  ("channelId", some_text (StateChannelId.as_str (StateChannel.channel_id c)));
  ("schema", present (StateChannel.schema c));
  ("shape", array_or_omitted (StateChannel.shape c));
  ("owner", Ok ((λ id, CanonicalValue.text (ComponentInstanceId.as_str id)) <$> StateChannel.owner c));
  ("reduction", present (StateChannel.reduction c))].
#[export] Instance StepInvocation_to_canonical : ToCanonical StepInvocation.t := λ i, map_of [
  ("invocationId", some_text (StepInvocationId.as_str (StepInvocation.invocation_id i)));
  ("instance", some_text (ComponentInstanceId.as_str (StepInvocation.instance i)));
  ("phaseId", some_text (PhaseId.as_str (StepInvocation.phase_id i)));
  ("inputs", names_or_omitted (StepInvocation.inputs i));
  ("outputs", names_or_omitted (StepInvocation.outputs i));
  ("dependsOn", names_or_omitted (StepInvocation.depends_on i))].
#[export] Instance StepPlan_to_canonical : ToCanonical StepPlan.t := λ p, map_of [
  ("profile", some_text (GraphProfile.as_str (StepPlan.profile p)));
  ("invocations", present_array (StepPlan.invocations p))].
#[export] Instance PlacementConstraint_to_canonical : ToCanonical PlacementConstraint.t := λ p, map_of [
  ("constraint", some_text (ConstraintName.as_str (PlacementConstraint.constraint p)));
  ("instances", names_or_omitted (PlacementConstraint.instances p));
  ("parameters", map_or_omitted (PlacementConstraint.parameters p))].
#[export] Instance ComputeSpec_to_canonical : ToCanonical ComputeSpec.t := λ c, map_of [
  ("workloadGraphProfile", some_text (GraphProfile.as_str (ComputeSpec.workload_graph_profile c)));
  ("components", present_array (ComputeSpec.components c));
  ("channels", array_or_omitted (ComputeSpec.channels c));
  ("stepPlan", present (ComputeSpec.step_plan c));
  ("placementConstraints", array_or_omitted (ComputeSpec.placement_constraints c))].
#[export] Instance DomainBounds_to_canonical : ToCanonical DomainBounds.t := λ b,
  match b with
  | DomainBounds.Cube side => map_of [
      ("shape", some_text "cube");
      ("sideMetres", some_value (CanonicalValue.F64 side))]
  | DomainBounds.Box sides => map_of [
      ("shape", some_text "box");
      ("sideMetres", some_value (CanonicalValue.Array (CanonicalValue.F64 <$> sides)))]
  end.
#[export] Instance Integration_to_canonical : ToCanonical Integration.t := λ i, map_of [
  ("scheme", some_text (ParameterName.as_str (Integration.scheme i)));
  ("parameters", map_or_omitted (Integration.parameters i))].
#[export] Instance Discretization_to_canonical : ToCanonical Discretization.t := λ d, map_of [
  ("spaceMetres", some_value (CanonicalValue.F64 (Discretization.space_metres d)));
  ("timeSeconds", some_value (CanonicalValue.F64 (Discretization.time_seconds d)));
  ("integration", optional_value (Discretization.integration d))].
#[export] Instance DomainSpec_to_canonical : ToCanonical DomainSpec.t := λ d, map_of [
  ("dimensions", some_value (CanonicalValue.UInt (DomainSpec.dimensions d)));
  ("bounds", present (DomainSpec.bounds d));
  ("discretization", present (DomainSpec.discretization d))].
#[export] Instance WorkloadInputs_to_canonical : ToCanonical WorkloadInputs.t := λ i, map_of [
  ("geometry", optional_value (WorkloadInputs.geometry i));
  ("initialConditions", array_or_omitted (WorkloadInputs.initial_conditions i));
  ("additional", array_or_omitted (WorkloadInputs.additional i))].
#[export] Instance WorkloadRequirements_to_canonical : ToCanonical WorkloadRequirements.t := λ r, map_of [
  ("hardware", map_or_omitted (WorkloadRequirements.hardware r));
  ("executionProfile", map_or_omitted (WorkloadRequirements.execution_profile r))].
#[export] Instance WorkloadSpec_to_canonical : ToCanonical WorkloadSpec.t := λ s, map_of [
  ("compute", present (WorkloadSpec.compute s));
  ("domain", present (WorkloadSpec.domain s));
  ("inputs", present (WorkloadSpec.inputs s));
  ("requirements", present (WorkloadSpec.requirements s))].
Definition labels_or_omitted (labels : gmap LabelKey.t LabelValue.t) : result CanonicalError.t (option CanonicalValue.t) :=
  if bool_decide (labels = ∅) then Ok None
  else
    entries ← CanonicalMap.new ((λ entry, (CanonicalValue.text (LabelKey.as_str entry.1), CanonicalValue.text (LabelValue.as_str entry.2)))
                                <$> btree_entries labels);
    Ok (Some (CanonicalValue.Map entries)).
#[export] Instance WorkloadMeta_to_canonical : ToCanonical WorkloadMeta.t := λ m, map_of [
  ("name", some_text (WorkloadName.as_str (WorkloadMeta.name m)));
  ("labels", labels_or_omitted (WorkloadMeta.labels m))].
#[export] Instance WorkloadManifest_to_canonical : ToCanonical WorkloadManifest := λ m, map_of [
  ("apiVersion", some_text (ApiVersion.as_str (Resource.api_version m)));
  ("kind", some_text (Kind.as_str (Resource.kind m)));
  ("metadata", present (Resource.metadata m));
  ("spec", present (Resource.spec m))].

(** ** Reading *)
Definition shape_of (value : CanonicalValue.t) : string :=
  match value with
  | CanonicalValue.Bool _ => "a boolean"
  | CanonicalValue.UInt _ => "a non-negative integer"
  | CanonicalValue.NInt _ => "a negative integer"
  | CanonicalValue.F64 _ => "a number"
  | CanonicalValue.Bytes _ => "a byte string"
  | CanonicalValue.Text _ => "a text string"
  | CanonicalValue.Array _ => "a list"
  | CanonicalValue.Map _ => "a map"
  end.
Definition wrong_shape (path : Path.t) (expected : string) (found : CanonicalValue.t) : CanonicalError.t :=
  CanonicalError.UnexpectedShape path expected (shape_of found).
Definition invalid_value {A} (path : Path.t) (r : result Refusal.t A) : result CanonicalError.t A :=
  result_map_err (CanonicalError.InvalidValue path) r.
Definition refused {A} (path : Path.t) (reason : string) : result CanonicalError.t A :=
  Err (CanonicalError.InvalidValue path (Refusal.Message reason)).
Definition parsed `{FromStr A} (value : CanonicalValue.t) (path : Path.t) : result CanonicalError.t A :=
  match value with
  | CanonicalValue.Text text => invalid_value path (from_str text)
  | _ => Err (wrong_shape path "a text string" value)
  end.
#[export] Instance from_canonical_text `{FromStr A} : FromCanonical A | 100 := parsed.

(** The fields of a map not read yet. *)
Module Fields.
Record t : Type := mk { path : Path.t; entries : gmap string CanonicalValue.t }.
(** What takes [&mut self]. *)
Definition reader (A : Type) : Type := t → result CanonicalError.t (A * t).
#[export] Instance reader_ret : MRet reader := λ A a f, Ok (a, f).
#[export] Instance reader_bind : MBind reader := λ A B k r f, '(a, f) ← r f; k a f.
Definition at_ {A} (r : Path.t → result CanonicalError.t A) : reader A := λ f, a ← r (path f); Ok (a, f).
Definition remove (field : string) : reader (option CanonicalValue.t) := λ f,
  Ok (entries f !! field, mk (path f) (delete field (entries f))).
Fixpoint insert_entries (path : Path.t) (entries : list (CanonicalValue.t * CanonicalValue.t)) (m : gmap string CanonicalValue.t)
    : result CanonicalError.t (gmap string CanonicalValue.t) :=
  match entries with
  | [] => Ok m
  | (CanonicalValue.Text key, value) :: entries => insert_entries path entries (<[key := value]> m)
  | (key, _) :: _ => Err (wrong_shape path "a text map key" key)
  end.
Definition of_ (value : CanonicalValue.t) (path : Path.t) : result CanonicalError.t t :=
  match value with
  | CanonicalValue.Map map => entries ← insert_entries path map ∅; Ok (mk path entries)
  | _ => Err (wrong_shape path "a map" value)
  end.
Definition required_with {A} (from : CanonicalValue.t → Path.t → result CanonicalError.t A) (field : string) : reader A :=
  value ← remove field;
  at_ (λ path,
    match value with
    | Some value => from value (Path.field path field)
    | None => Err (CanonicalError.MissingField path field)
    end).
Definition required `{FromCanonical A} : string → reader A := required_with from_canonical.
Definition optional `{FromCanonical A} (field : string) : reader (option A) :=
  value ← remove field;
  at_ (λ path,
    match value with
    | Some value => a ← from_canonical value (Path.field path field); Ok (Some a)
    | None => Ok None
    end).
Fixpoint items_from {A} (from : CanonicalValue.t → Path.t → result CanonicalError.t A) (path : Path.t) (i : N)
    (items : list CanonicalValue.t) : result CanonicalError.t (list A) :=
  match items with
  | [] => Ok []
  | item :: items => a ← from item (Path.index path i); rest ← items_from from path (i + 1)%N items; Ok (a :: rest)
  end.
Definition list_with {A} (from : CanonicalValue.t → Path.t → result CanonicalError.t A) (field : string) : reader (list A) :=
  value ← remove field;
  at_ (λ path,
    let path := Path.field path field in
    match value with
    | None => Ok []
    | Some (CanonicalValue.Array []) => Err (CanonicalError.RedundantEmpty path)
    | Some (CanonicalValue.Array items) => items_from from path 0 items
    | Some value => Err (wrong_shape path "a list" value)
    end).
Definition list `{FromCanonical A} : string → reader (list A) := list_with from_canonical.
Fixpoint keyed_from `{Countable K, FromStr K, FromCanonical V} (path : Path.t)
    (entries : Datatypes.list (CanonicalValue.t * CanonicalValue.t)) (out : gmap K V) : result CanonicalError.t (gmap K V) :=
  match entries with
  | [] => Ok out
  | (CanonicalValue.Text text, value) :: entries =>
    let entry := Path.key path text in
    key ← invalid_value entry (from_str text);
    v ← from_canonical value entry;
    keyed_from path entries (<[key := v]> out)
  | (key, _) :: _ => Err (wrong_shape path "a text map key" key)
  end.
Definition keyed `{Countable K, FromStr K, FromCanonical V} (field : string) : reader (gmap K V) :=
  value ← remove field;
  at_ (λ path,
    let path := Path.field path field in
    match value with
    | None => Ok ∅
    | Some (CanonicalValue.Map []) => Err (CanonicalError.RedundantEmpty path)
    | Some (CanonicalValue.Map map) => keyed_from path map ∅
    | Some value => Err (wrong_shape path "a map" value)
    end).
Definition finish (f : t) : result CanonicalError.t unit :=
  match btree_keys (entries f) with
  | [] => Ok ()
  | unknown :: _ => Err (CanonicalError.UnknownField (path f) unknown)
  end.
(** Reading a whole value: its fields, and nothing else. *)
Definition all {A} (r : reader A) (value : CanonicalValue.t) (path : Path.t) : result CanonicalError.t A :=
  f ← of_ value path; '(a, f) ← r f; _ ← finish f; Ok a.
End Fields.
Import Fields.

Definition u64_from_canonical (value : CanonicalValue.t) (path : Path.t) : result CanonicalError.t N :=
  match value with
  | CanonicalValue.UInt value => Ok value
  | other => Err (wrong_shape path "a non-negative integer" other)
  end.
#[export] Instance N_from_canonical : FromCanonical N := u64_from_canonical.
Definition u32_from_canonical (value : CanonicalValue.t) (path : Path.t) : result CanonicalError.t N :=
  n ← u64_from_canonical value path;
  if (n <=? u32_max)%N then Ok n else refused path "the value does not fit in 32 bits".
Definition u8_from_canonical (value : CanonicalValue.t) (path : Path.t) : result CanonicalError.t N :=
  n ← u64_from_canonical value path;
  if (n <=? 255)%N then Ok n else refused path "the value does not fit in 8 bits".
#[export] Instance FiniteF64_from_canonical : FromCanonical FiniteF64.t := λ value path,
  match value with
  | CanonicalValue.F64 value => Ok value
  | other => Err (wrong_shape path "a number" other)
  end.
#[export] Instance ScalarValue_from_canonical : FromCanonical ScalarValue.t := λ value path,
  match value with
  | CanonicalValue.Bool value => Ok (ScalarValue.Bool value)
  | CanonicalValue.UInt value =>
    if (Z.of_N value <=? F64.i64_max)%Z then Ok (ScalarValue.Integer (Z.of_N value))
    else refused path "the integer does not fit in 64 signed bits"
  | CanonicalValue.NInt value => Ok (ScalarValue.Integer value)
  | CanonicalValue.F64 value => Ok (ScalarValue.Real value)
  | CanonicalValue.Text value => Ok (ScalarValue.Text value)
  | other => Err (wrong_shape path "a scalar" other)
  end.
#[export] Instance SchemaCompat_from_canonical : FromCanonical SchemaCompat.t := all (
  schema_id ← required "schemaId";
  version ← required_with u32_from_canonical "version";
  mret (SchemaCompat.mk schema_id version)).
#[export] Instance ArtifactDescriptor_from_canonical : FromCanonical ArtifactDescriptor.t := all (
  role ← required "role";
  digest ← required "digest";
  size_bytes ← required "sizeBytes";
  media_type ← required "mediaType";
  schema ← optional "schema";
  mret (ArtifactDescriptor.mk role digest size_bytes media_type schema)).
#[export] Instance ComponentInstance_from_canonical : FromCanonical ComponentInstance.t := all (
  instance_id ← required "instanceId";
  artifact ← required "artifact";
  plugin_id ← required "pluginId";
  model_id ← required "modelId";
  schema_id ← required "schemaId";
  engine ← required "engine";
  lifecycle ← required "lifecycle";
  roles ← list "roles";
  state_ownership ← list "stateOwnership";
  config ← keyed "config";
  limits ← keyed "limits";
  mret (ComponentInstance.mk instance_id artifact plugin_id model_id schema_id engine lifecycle roles state_ownership config limits)).
#[export] Instance Reduction_from_canonical : FromCanonical Reduction.t := λ value path,
  match value with
  | CanonicalValue.Text "single" => Ok Reduction.Single
  | CanonicalValue.Text "sum" => Ok Reduction.Sum
  | CanonicalValue.Text "min" => Ok Reduction.Min
  | CanonicalValue.Text "max" => Ok Reduction.Max
  | CanonicalValue.Text other => refused path ("`" +:+ other +:+ "` is not a reduction; expected single, sum, min, or max")
  | _ => Err (wrong_shape path "a text string" value)
  end.
#[export] Instance StateChannel_from_canonical : FromCanonical StateChannel.t := all (
  channel_id ← required "channelId";
  schema ← required "schema";
  shape ← list_with u32_from_canonical "shape";
  owner ← optional "owner";
  reduction ← required "reduction";
  mret (StateChannel.mk channel_id schema shape owner reduction)).
#[export] Instance StepInvocation_from_canonical : FromCanonical StepInvocation.t := all (
  invocation_id ← required "invocationId";
  instance ← required "instance";
  phase_id ← required "phaseId";
  inputs ← list "inputs";
  outputs ← list "outputs";
  depends_on ← list "dependsOn";
  mret (StepInvocation.mk invocation_id instance phase_id inputs outputs depends_on)).
#[export] Instance StepPlan_from_canonical : FromCanonical StepPlan.t := all (
  profile ← required "profile";
  invocations ← list "invocations";
  mret (StepPlan.mk profile invocations)).
#[export] Instance PlacementConstraint_from_canonical : FromCanonical PlacementConstraint.t := all (
  constraint ← required "constraint";
  instances ← list "instances";
  parameters ← keyed "parameters";
  mret (PlacementConstraint.mk constraint instances parameters)).
#[export] Instance ComputeSpec_from_canonical : FromCanonical ComputeSpec.t := all (
  workload_graph_profile ← required "workloadGraphProfile";
  components ← list "components";
  channels ← list "channels";
  step_plan ← required "stepPlan";
  placement_constraints ← list "placementConstraints";
  mret (ComputeSpec.mk workload_graph_profile components channels step_plan placement_constraints)).
Definition text_from_canonical (value : CanonicalValue.t) (path : Path.t) : result CanonicalError.t string :=
  match value with
  | CanonicalValue.Text text => Ok text
  | other => Err (wrong_shape path "a text string" other)
  end.
#[export] Instance DomainBounds_from_canonical : FromCanonical DomainBounds.t := all (
  shape ← required_with text_from_canonical "shape";
  match shape with
  | "cube" => side_metres ← required "sideMetres"; mret (DomainBounds.Cube side_metres)
  | "box" => side_metres ← list "sideMetres"; mret (DomainBounds.Box side_metres)
  | other => at_ (λ path, refused (Path.field path "shape") ("`" +:+ other +:+ "` is not a domain shape; expected cube or box"))
  end).
#[export] Instance Integration_from_canonical : FromCanonical Integration.t := all (
  scheme ← required "scheme";
  parameters ← keyed "parameters";
  mret (Integration.mk scheme parameters)).
#[export] Instance Discretization_from_canonical : FromCanonical Discretization.t := all (
  space_metres ← required "spaceMetres";
  time_seconds ← required "timeSeconds";
  integration ← optional "integration";
  mret (Discretization.mk space_metres time_seconds integration)).
#[export] Instance DomainSpec_from_canonical : FromCanonical DomainSpec.t := all (
  dimensions ← required_with u8_from_canonical "dimensions";
  bounds ← required "bounds";
  discretization ← required "discretization";
  mret (DomainSpec.mk dimensions bounds discretization)).
#[export] Instance WorkloadInputs_from_canonical : FromCanonical WorkloadInputs.t := all (
  geometry ← optional "geometry";
  initial_conditions ← list "initialConditions";
  additional ← list "additional";
  mret (WorkloadInputs.mk geometry initial_conditions additional)).
#[export] Instance WorkloadRequirements_from_canonical : FromCanonical WorkloadRequirements.t := all (
  hardware ← keyed "hardware";
  execution_profile ← keyed "executionProfile";
  mret (WorkloadRequirements.mk hardware execution_profile)).
#[export] Instance WorkloadSpec_from_canonical : FromCanonical WorkloadSpec.t := all (
  compute ← required "compute";
  domain ← required "domain";
  inputs ← required "inputs";
  requirements ← required "requirements";
  mret (WorkloadSpec.mk compute domain inputs requirements)).
#[export] Instance WorkloadMeta_from_canonical : FromCanonical WorkloadMeta.t := all (
  name ← required "name";
  labels ← keyed "labels";
  mret (WorkloadMeta.mk name labels)).
#[export] Instance WorkloadManifest_from_canonical : FromCanonical WorkloadManifest := all (
  api_version ← required "apiVersion";
  kind ← required "kind";
  metadata ← required "metadata";
  spec ← required "spec";
  mret (Resource.mk api_version kind metadata spec)).

(** ** A workload's bytes and its identity *)
Definition canonical_bytes (manifest : WorkloadManifest) (limits : Limits.t) : result CanonicalError.t bytes :=
  tree ← to_canonical manifest; encode tree limits.
Definition workload_digest `{Antientropy.Sha256} (manifest : WorkloadManifest) (limits : Limits.t)
    : result CanonicalError.t WorkloadDigest.t :=
  canonical ← canonical_bytes manifest limits; Ok (WorkloadDigest.of_canonical_bytes canonical).
Definition manifest_from_canonical_bytes (content : bytes) (limits : Limits.t) : result CanonicalError.t WorkloadManifest :=
  tree ← decode content limits;
  manifest ← from_canonical tree Path.root;
  again ← canonical_bytes manifest limits;
  if bool_decide (again = content) then Ok manifest else Err CanonicalError.NotItsOwnCanonicalForm.

(** ** The composed format (canonical/v3.rs) *)
Module Composed.
#[export] Instance WorkloadSpec_to_canonical : ToCanonical V3.WorkloadSpec := λ s, map_of [
  ("compute", present (V3.compute s));
  ("selection", present (V3.selection s));
  ("execution", present (V3.execution s));
  ("artifacts", array_or_omitted (V3.artifacts s));
  ("requirements", present (V3.requirements s))].
#[export] Instance WorkloadManifest_to_canonical : ToCanonical V3.WorkloadManifest := λ m, map_of [
  ("apiVersion", some_text (ApiVersion.as_str (Resource.api_version m)));
  ("kind", some_text (Kind.as_str (Resource.kind m)));
  ("metadata", present (Resource.metadata m));
  ("spec", present (Resource.spec m))].
#[export] Instance WorkloadSpec_from_canonical : FromCanonical V3.WorkloadSpec := all (
  compute ← required "compute";
  selection ← required "selection";
  execution ← required "execution";
  artifacts ← list "artifacts";
  requirements ← required "requirements";
  mret (V3.mk compute selection execution artifacts requirements)).
#[export] Instance WorkloadManifest_from_canonical : FromCanonical V3.WorkloadManifest := all (
  api_version ← required "apiVersion";
  kind ← required "kind";
  metadata ← required "metadata";
  spec ← required "spec";
  mret (Resource.mk api_version kind metadata spec)).

Definition check_discriminator (manifest : V3.WorkloadManifest) : result CanonicalError.t unit :=
  if negb (bool_decide (ApiVersion.as_str (Resource.api_version manifest) = V3.API_VERSION))
     || negb (bool_decide (Kind.as_str (Resource.kind manifest) = WORKLOAD_KIND))
  then Err CanonicalError.NotItsOwnCanonicalForm else Ok ().
Definition count (found limit : N) : result CanonicalError.t unit :=
  if (limit <? found)%N then Err (CanonicalError.TooManyValues limit) else Ok ().
Definition check_text (l : Limits.t) (v : ScalarValue.t) : result CanonicalError.t unit :=
  match v with
  | ScalarValue.Text s =>
    if (Limits.max_text_bytes l <? str_len s)%N then Err (CanonicalError.TooLarge (str_len s) (Limits.max_text_bytes l)) else Ok ()
  | _ => Ok ()
  end.
Definition scalars (l : Limits.t) (values : gmap ParameterName.t ScalarValue.t) (limit : N) : result CanonicalError.t unit :=
  _ ← count (map_len values) limit; try_for_each (check_text l) (btree_values values).
Definition artifact_count (m : V3.WorkloadManifest) : N :=
  default usize_max
    (n ← checked_add usize_max (lenN (ComputeSpec.components (V3.compute (Resource.spec m)))) (lenN (V3.artifacts (Resource.spec m)));
     checked_add usize_max n 2).
Definition raw_bounds (m : V3.WorkloadManifest) (l : Limits.t) : result CanonicalError.t unit :=
  let c := V3.compute (Resource.spec m) in
  let requirements := V3.requirements (Resource.spec m) in
  _ ← count (map_len (WorkloadMeta.labels (Resource.metadata m))) (Limits.max_labels l);
  _ ← count (lenN (ComputeSpec.components c)) (Limits.max_components l);
  _ ← count (lenN (ComputeSpec.channels c)) (Limits.max_channels l);
  _ ← count (lenN (StepPlan.invocations (ComputeSpec.step_plan c))) (Limits.max_step_invocations l);
  _ ← count (lenN (ComputeSpec.placement_constraints c)) (Limits.max_placement_constraints l);
  _ ← count (artifact_count m) (Limits.max_artifacts l);
  _ ← scalars l (WorkloadRequirements.hardware requirements) (Limits.max_parameter_entries l);
  _ ← scalars l (WorkloadRequirements.execution_profile requirements) (Limits.max_parameter_entries l);
  _ ← try_for_each (λ component,
    _ ← count (lenN (ComponentInstance.roles component)) (Limits.max_roles_per_component l);
    _ ← count (lenN (ComponentInstance.state_ownership component)) (Limits.max_state_ownership_per_component l);
    _ ← count (map_len (ComponentInstance.limits component)) (Limits.max_limit_entries l);
    scalars l (ComponentInstance.config component) (Limits.max_config_entries l)) (ComputeSpec.components c);
  _ ← try_for_each (λ channel, count (lenN (StateChannel.shape channel)) (Limits.max_channel_shape_rank l)) (ComputeSpec.channels c);
  _ ← try_for_each (λ invocation,
    _ ← count (lenN (StepInvocation.inputs invocation)) (Limits.max_inputs_per_invocation l);
    _ ← count (lenN (StepInvocation.outputs invocation)) (Limits.max_outputs_per_invocation l);
    count (lenN (StepInvocation.depends_on invocation)) (Limits.max_dependencies_per_invocation l))
    (StepPlan.invocations (ComputeSpec.step_plan c));
  try_for_each (λ placement,
    _ ← count (lenN (PlacementConstraint.instances placement)) (Limits.max_components l);
    scalars l (PlacementConstraint.parameters placement) (Limits.max_parameter_entries l)) (ComputeSpec.placement_constraints c).

Definition collection_limit (l : Limits.t) (key : string) : option N :=
  match key with
  | "components" | "instances" => Some (Limits.max_components l)
  | "channels" => Some (Limits.max_channels l)
  | "shape" => Some (Limits.max_channel_shape_rank l)
  | "invocations" => Some (Limits.max_step_invocations l)
  | "inputs" => Some (Limits.max_inputs_per_invocation l)
  | "outputs" => Some (Limits.max_outputs_per_invocation l)
  | "dependsOn" => Some (Limits.max_dependencies_per_invocation l)
  | "stateOwnership" => Some (Limits.max_state_ownership_per_component l)
  | "roles" => Some (Limits.max_roles_per_component l)
  | "config" => Some (Limits.max_config_entries l)
  | "limits" => Some (Limits.max_limit_entries l)
  | "parameters" | "hardware" | "executionProfile" => Some (Limits.max_parameter_entries l)
  | "artifacts" => Some (Limits.max_artifacts l)
  | "labels" => Some (Limits.max_labels l)
  | "placementConstraints" => Some (Limits.max_placement_constraints l)
  | _ => None
  end.
Definition check_count (limit : option N) (found : N) : result CanonicalError.t unit :=
  match limit with Some limit => count found limit | None => Ok () end.
Fixpoint check_collections (l : Limits.t) (key : string) (value : CanonicalValue.t) : result CanonicalError.t unit :=
  match value with
  | CanonicalValue.Array items =>
    _ ← check_count (collection_limit l key) (lenN items);
    try_for_each (check_collections l "") items
  | CanonicalValue.Map entries =>
    _ ← check_count (collection_limit l key) (lenN entries);
    try_for_each (λ entry,
      match entry.1 with CanonicalValue.Text k => check_collections l k entry.2 | _ => Ok () end) entries
  | CanonicalValue.Text v =>
    if (Limits.max_text_bytes l <? str_len v)%N then Err (CanonicalError.TooLarge (str_len v) (Limits.max_text_bytes l)) else Ok ()
  | _ => Ok ()
  end.

(** [Limits { max_nesting_depth: limits.max_nesting_depth.min(64), ..*limits }]. *)
Definition shallow (l : Limits.t) : Limits.t := {|
  Limits.max_manifest_bytes := Limits.max_manifest_bytes l;
  Limits.max_nesting_depth := N.min (Limits.max_nesting_depth l) 64;
  Limits.max_components := Limits.max_components l;
  Limits.max_channels := Limits.max_channels l;
  Limits.max_channel_shape_rank := Limits.max_channel_shape_rank l;
  Limits.max_step_invocations := Limits.max_step_invocations l;
  Limits.max_inputs_per_invocation := Limits.max_inputs_per_invocation l;
  Limits.max_outputs_per_invocation := Limits.max_outputs_per_invocation l;
  Limits.max_dependencies_per_invocation := Limits.max_dependencies_per_invocation l;
  Limits.max_state_ownership_per_component := Limits.max_state_ownership_per_component l;
  Limits.max_roles_per_component := Limits.max_roles_per_component l;
  Limits.max_config_entries := Limits.max_config_entries l;
  Limits.max_limit_entries := Limits.max_limit_entries l;
  Limits.max_parameter_entries := Limits.max_parameter_entries l;
  Limits.max_artifacts := Limits.max_artifacts l;
  Limits.max_artifact_bytes := Limits.max_artifact_bytes l;
  Limits.max_aggregate_declared_bytes := Limits.max_aggregate_declared_bytes l;
  Limits.max_initial_conditions := Limits.max_initial_conditions l;
  Limits.max_placement_constraints := Limits.max_placement_constraints l;
  Limits.max_labels := Limits.max_labels l;
  Limits.max_text_bytes := Limits.max_text_bytes l;
  Limits.max_domain_dimensions := Limits.max_domain_dimensions l;
  Limits.max_reported_errors := Limits.max_reported_errors l;
  Limits.max_canonical_values := Limits.max_canonical_values l
|}.
Definition canonical_bytes (manifest : V3.WorkloadManifest) (limits : Limits.t) : result CanonicalError.t bytes :=
  _ ← check_discriminator manifest;
  _ ← raw_bounds manifest limits;
  let limits := shallow limits in
  tree ← to_canonical manifest;
  _ ← check_collections limits "" tree;
  encode tree limits.
Definition from_canonical_bytes (content : bytes) (limits : Limits.t) : result CanonicalError.t V3.WorkloadManifest :=
  let limits := shallow limits in
  tree ← decode content limits;
  _ ← check_collections limits "" tree;
  manifest ← from_canonical tree Path.root;
  again ← canonical_bytes manifest limits;
  if bool_decide (again = content) then Ok manifest else Err CanonicalError.NotItsOwnCanonicalForm.
Definition workload_digest `{Antientropy.Sha256} (manifest : V3.WorkloadManifest) (limits : Limits.t)
    : result CanonicalError.t WorkloadDigest.t :=
  canonical ← canonical_bytes manifest limits; Ok (WorkloadDigest.of_canonical_bytes canonical).
End Composed.
