(* ===== verification/Closure.v ===== *)
(** * Admitting a workload (crate [orishu-workload], closure.rs)

    Whether a manifest and some candidate bytes are one complete, consistent
    workload: a structural pass over the manifest alone, and only then the bytes. *)

From Stdlib Require Import Ascii.
From stdpp Require Import base gmap strings list sorting.
From S2P Require Import Prelude Identity Binary64 Workload Cbor Canonical.
From S2P Require Antientropy.

(** ** What can be wrong *)
Module ClosureError.
Inductive t : Type :=
  | Discriminator (error : UnexpectedDiscriminator.t)
  | NotCanonical (error : CanonicalError.t)
  | Domain (error : DomainError.t)
  | MissingArtifact (role : ArtifactRole.t) (digest : ArtifactDigest.t)
  | DigestMismatch (declared actual : ArtifactDigest.t)
  | SizeMismatch (digest : ArtifactDigest.t) (declared actual : N)
  | SizeOverrun (digest : ArtifactDigest.t) (declared : N)
  | ArtifactTooLarge (digest : ArtifactDigest.t) (declared limit : N)
  | ClosureTooLarge (declared limit : N)
  | ConflictingDescriptor (digest : ArtifactDigest.t)
  | DuplicateRole (role : ArtifactRole.t) (count : N)
  | NotAComponentArtifact (instance : ComponentInstanceId.t) (role : ArtifactRole.t)
  | RequiredInputRole (slot : string) (role : ArtifactRole.t) (expected : string)
  | AggregateSizeOverflow
  | DuplicateInstance (instance : ComponentInstanceId.t)
  | DuplicateChannel (channel : StateChannelId.t)
  | DuplicateInvocation (invocation : StepInvocationId.t)
  | UnknownInstance (referrer : string) (instance : ComponentInstanceId.t)
  | UnknownChannel (referrer : string) (channel : StateChannelId.t)
  | UnknownDependency (invocation dependency : StepInvocationId.t)
  | GraphProfileMismatch (compute plan : GraphProfile.t)
  | OwnershipDisagreement (channel : StateChannelId.t) (claimants owner : string)
  | OwnedChannelNotSingle (channel : StateChannelId.t) (owner : ComponentInstanceId.t) (reduction : string)
  | OwnedStateWithoutWriter (channel : StateChannelId.t) (owner : ComponentInstanceId.t)
  | ChannelWithoutProducer (channel : StateChannelId.t) (consumer : StepInvocationId.t)
  | MultipleWriters (channel : StateChannelId.t) (count : N)
  | WriterIsNotOwner (invocation : StepInvocationId.t) (instance : ComponentInstanceId.t)
      (channel : StateChannelId.t) (owner : ComponentInstanceId.t)
  | CyclicStepPlan (count : N)
  | LimitExceeded (what : string) (found limit : N)
  | TextTooLong (at_ : string) (found limit : N).
End ClosureError.
Module ClosureReport.
Record t : Type := mk { errors : list ClosureError.t; withheld : N }.
Definition len (r : t) : N := lenN (errors r).
Definition is_empty (r : t) : bool := bool_decide (errors r = []).
End ClosureReport.
Module Errors.
Record t : Type := mk { found : list ClosureError.t; limit : N; withheld : N }.
Definition new (limits : Limits.t) : t := mk [] (Limits.max_reported_errors limits) 0.
Definition push (error : ClosureError.t) (e : t) : t :=
  if (lenN (found e) <? limit e)%N then mk (found e ++ [error]) (limit e) (withheld e)
  else mk (found e) (limit e) (withheld e + 1).
Definition is_empty (e : t) : bool := bool_decide (found e = []).
Definition into_report (e : t) : ClosureReport.t := ClosureReport.mk (found e) (withheld e).
End Errors.

(** ** Checks

    What takes [errors: &mut Errors]: a function on the problems collected. *)
Definition check : Type := Errors.t → Errors.t.
Definition skip : check := id.
Definition report : ClosureError.t → check := Errors.push.
Definition andthen (f g : check) : check := λ e, g (f e).
Notation "f ⨟ g" := (andthen f g) (at level 62, right associativity).
Definition when (b : bool) (f : check) : check := if b then f else skip.
Fixpoint for_each {A} (l : list A) (f : A → check) : check :=
  match l with [] => skip | x :: l => f x ⨟ for_each l f end.
(** A loop that inserts a key of each element into a set and reports those that
    were there. *)
Fixpoint for_each_unique `{Countable K} {A} (key : A → K) (duplicate : A → ClosureError.t) (before after : A → check)
    (seen : gset K) (l : list A) : check :=
  match l with
  | [] => skip
  | x :: l =>
    before x ⨟ when (bool_decide (key x ∈ seen)) (report (duplicate x)) ⨟ after x
    ⨟ for_each_unique key duplicate before after ({[key x]} ∪ seen) l
  end.

Definition check_limit (what : string) (found limit : N) : check :=
  when (limit <? found)%N (report (ClosureError.LimitExceeded what found limit)).

(** ** The bytes of one artifact *)
Module BlobVerifier.
Record t : Type := mk { expected : ArtifactDescriptor.t; hashed : bytes; seen : N; overrun : bool }.
Definition new (expected : ArtifactDescriptor.t) : t := mk expected [] 0 false.
Definition write (chunk : bytes) (v : t) : t * bool :=
  if overrun v then (v, false)
  else
    let seen := saturating_add u64_max (seen v) (lenN chunk) in
    if (ArtifactDescriptor.size_bytes (expected v) <? seen)%N
    then (mk (expected v) (hashed v) seen true, false)
    else (mk (expected v) (hashed v ++ chunk) seen false, true).
Definition accepted (v : t) : N := seen v.
Definition finish `{Antientropy.Sha256} (v : t) : result ClosureError.t unit :=
  let declared := ArtifactDescriptor.size_bytes (expected v) in
  let digest := ArtifactDescriptor.digest (expected v) in
  if overrun v then Err (ClosureError.SizeOverrun digest declared)
  else if negb (seen v =? declared)%N then Err (ClosureError.SizeMismatch digest declared (seen v))
  else
    let actual := ArtifactDigest.sha256_of (hashed v) in
    if negb (bool_decide (actual = digest)) then Err (ClosureError.DigestMismatch digest actual) else Ok ().
End BlobVerifier.

(** A source is asked by digest alone; it writes some chunks, or holds nothing. *)
Definition BlobSource : Type := ArtifactDigest.t → option (list bytes).
Definition read_blob (blobs : BlobSource) (digest : ArtifactDigest.t) (verifier : BlobVerifier.t) : BlobVerifier.t * bool :=
  match blobs digest with
  | Some chunks => (foldl (λ v chunk, (BlobVerifier.write chunk v).1) verifier chunks, true)
  | None => (verifier, false)
  end.
Module InMemoryBlobs.
Record t : Type := mk { blobs : gmap ArtifactDigest.t bytes }.
Definition new : t := mk ∅.
Definition insert `{Antientropy.Sha256} (content : bytes) (m : t) : t * ArtifactDigest.t :=
  let digest := ArtifactDigest.sha256_of content in (mk (<[digest := content]> (blobs m)), digest).
Definition source (m : t) : BlobSource := λ digest, (λ content, [content]) <$> blobs m !! digest.
End InMemoryBlobs.

(** ** The graph *)
Definition quoted (s : string) : string := "`" +:+ s +:+ "`".
Definition describe_claimants (claimants : list ComponentInstanceId.t) : string :=
  match claimants with
  | [] => "no instances"
  | many => String.concat " and " (quoted ∘ ComponentInstanceId.as_str <$> many)
  end.
Definition reduction_name (r : Reduction.t) : string :=
  match r with Reduction.Single => "single" | Reduction.Sum => "sum" | Reduction.Min => "min" | Reduction.Max => "max" end.

(** [map.entry(k).or_default().push(v)]. *)
Definition push_at `{Countable K} {V} (k : K) (v : V) (m : gmap K (list V)) : gmap K (list V) :=
  <[k := default [] (m !! k) ++ [v]]> m.
Definition claimants_of (components : list ComponentInstance.t) : gmap StateChannelId.t (list ComponentInstanceId.t) :=
  foldl (λ m c, foldl (λ m owned, push_at owned (ComponentInstance.instance_id c) m) m (ComponentInstance.state_ownership c)) ∅ components.
Definition producers_of (invocations : list StepInvocation.t) : gmap StateChannelId.t (list StepInvocation.t) :=
  foldl (λ m i, foldl (λ m output, push_at output i m) m (StepInvocation.outputs i)) ∅ invocations.
Definition channels_of (channels : list StateChannel.t) : gmap StateChannelId.t StateChannel.t :=
  foldl (λ m c, <[StateChannel.channel_id c := c]> m) ∅ channels.

Definition reconcile_channel (claimants : gmap StateChannelId.t (list ComponentInstanceId.t))
    (entry : StateChannelId.t * StateChannel.t) : check :=
  let '(channel_id, channel) := entry in
  let claimed := default [] (claimants !! channel_id) in
  let agrees := match StateChannel.owner channel, claimed with
    | None, [] => true
    | Some owner, [claimant] => bool_decide (owner = claimant)
    | _, _ => false
    end in
  if negb agrees then
    report (ClosureError.OwnershipDisagreement channel_id (describe_claimants claimed)
      (match StateChannel.owner channel with Some owner => quoted (ComponentInstanceId.as_str owner) | None => "no owner" end))
  else
    match StateChannel.owner channel with
    | Some owner =>
      when (negb (bool_decide (StateChannel.reduction channel = Reduction.Single)))
        (report (ClosureError.OwnedChannelNotSingle channel_id owner (reduction_name (StateChannel.reduction channel))))
    | None => skip
    end.
Definition reconcile_ownership (compute : ComputeSpec.t) (channels : gmap StateChannelId.t StateChannel.t) : check :=
  let claimants := claimants_of (ComputeSpec.components compute) in
  for_each (btree_entries channels) (reconcile_channel claimants).

Definition check_writers_of (producers : gmap StateChannelId.t (list StepInvocation.t))
    (entry : StateChannelId.t * StateChannel.t) : check :=
  let '(channel_id, channel) := entry in
  let writers := default [] (producers !! channel_id) in
  let single_writer := bool_decide (is_Some (StateChannel.owner channel))
                       || bool_decide (StateChannel.reduction channel = Reduction.Single) in
  let several := when (single_writer && (1 <? lenN writers)%N) (report (ClosureError.MultipleWriters channel_id (lenN writers))) in
  match StateChannel.owner channel with
  | Some owner =>
    if bool_decide (writers = []) then report (ClosureError.OwnedStateWithoutWriter channel_id owner)
    else several ⨟ for_each writers (λ i,
      when (negb (bool_decide (StepInvocation.instance i = owner)))
        (report (ClosureError.WriterIsNotOwner (StepInvocation.invocation_id i) (StepInvocation.instance i) channel_id owner)))
  | None => several
  end.
Definition check_writers (channels : gmap StateChannelId.t StateChannel.t)
    (producers : gmap StateChannelId.t (list StepInvocation.t)) : check :=
  for_each (btree_entries channels) (check_writers_of producers).

(** Kahn's algorithm. Every round retires what waits for nothing, so as many rounds
    as there are invocations are enough. *)
Definition retire (pending : gmap StepInvocationId.t (gset StepInvocationId.t)) (id : StepInvocationId.t)
    : gmap StepInvocationId.t (gset StepInvocationId.t) :=
  (λ dependencies, dependencies ∖ {[id]}) <$> delete id pending.
Definition ready_of (pending : gmap StepInvocationId.t (gset StepInvocationId.t)) : list StepInvocationId.t :=
  (filter (λ e, e.2 = ∅) (btree_entries pending)).*1.
Fixpoint retire_all (fuel : nat) (pending : gmap StepInvocationId.t (gset StepInvocationId.t))
    : gmap StepInvocationId.t (gset StepInvocationId.t) :=
  match fuel with
  | 0 => pending
  | S fuel =>
    match ready_of pending with
    | [] => pending
    | ready => retire_all fuel (foldl retire pending ready)
    end
  end.
Definition pending_of (invocations : list StepInvocation.t) : gmap StepInvocationId.t (gset StepInvocationId.t) :=
  let declared : gset StepInvocationId.t := list_to_set (StepInvocation.invocation_id <$> invocations) in
  foldl (λ m i, <[StepInvocation.invocation_id i :=
    list_to_set (filter (λ d, d ∈ declared) (StepInvocation.depends_on i))]> m) ∅ invocations.
Definition cyclic_invocation_count (compute : ComputeSpec.t) : option N :=
  let pending := pending_of (StepPlan.invocations (ComputeSpec.step_plan compute)) in
  let left := retire_all (size pending) pending in
  if bool_decide (left = ∅) then None else Some (map_len left).

Definition check_component (limits : Limits.t) (c : ComponentInstance.t) : check :=
  when (negb (bool_decide (ArtifactRole.as_str (ArtifactDescriptor.role (ComponentInstance.artifact c)) = ArtifactRole.COMPONENT)))
    (report (ClosureError.NotAComponentArtifact (ComponentInstance.instance_id c) (ArtifactDescriptor.role (ComponentInstance.artifact c))))
  ⨟ check_limit "a component's role count" (lenN (ComponentInstance.roles c)) (Limits.max_roles_per_component limits)
  ⨟ check_limit "a component's owned-channel count" (lenN (ComponentInstance.state_ownership c))
      (Limits.max_state_ownership_per_component limits)
  ⨟ check_limit "a component's configuration size" (map_len (ComponentInstance.config c)) (Limits.max_config_entries limits)
  ⨟ check_limit "a component's limit count" (map_len (ComponentInstance.limits c)) (Limits.max_limit_entries limits).
Definition check_owner (instances : gset ComponentInstanceId.t) (channel : StateChannel.t) : check :=
  match StateChannel.owner channel with
  | Some owner =>
    when (negb (bool_decide (owner ∈ instances)))
      (report (ClosureError.UnknownInstance ("channel " +:+ StateChannelId.as_str (StateChannel.channel_id channel)) owner))
  | None => skip
  end.
Definition check_owned (channels : gmap StateChannelId.t StateChannel.t) (c : ComponentInstance.t) : check :=
  for_each (ComponentInstance.state_ownership c) (λ owned,
    when (negb (contains_key owned channels))
      (report (ClosureError.UnknownChannel
        ("component instance " +:+ ComponentInstanceId.as_str (ComponentInstance.instance_id c)) owned))).
Definition check_constraint (limits : Limits.t) (instances : gset ComponentInstanceId.t) (p : PlacementConstraint.t) : check :=
  check_limit "a placement constraint's instance count" (lenN (PlacementConstraint.instances p)) (Limits.max_components limits)
  ⨟ check_limit "a placement constraint's parameter count" (map_len (PlacementConstraint.parameters p)) (Limits.max_parameter_entries limits)
  ⨟ for_each (PlacementConstraint.instances p) (λ instance,
      when (negb (bool_decide (instance ∈ instances)))
        (report (ClosureError.UnknownInstance
          ("placement constraint " +:+ ConstraintName.as_str (PlacementConstraint.constraint p)) instance))).
Definition check_invocation (limits : Limits.t) (instances : gset ComponentInstanceId.t)
    (channels : gmap StateChannelId.t StateChannel.t) (invocations : gset StepInvocationId.t) (i : StepInvocation.t) : check :=
  let referrer := "invocation " +:+ StepInvocationId.as_str (StepInvocation.invocation_id i) in
  check_limit "an invocation's input count" (lenN (StepInvocation.inputs i)) (Limits.max_inputs_per_invocation limits)
  ⨟ check_limit "an invocation's output count" (lenN (StepInvocation.outputs i)) (Limits.max_outputs_per_invocation limits)
  ⨟ check_limit "an invocation's dependency count" (lenN (StepInvocation.depends_on i)) (Limits.max_dependencies_per_invocation limits)
  ⨟ when (negb (bool_decide (StepInvocation.instance i ∈ instances)))
      (report (ClosureError.UnknownInstance referrer (StepInvocation.instance i)))
  ⨟ for_each (StepInvocation.inputs i ++ StepInvocation.outputs i) (λ channel,
      when (negb (contains_key channel channels)) (report (ClosureError.UnknownChannel referrer channel)))
  ⨟ for_each (StepInvocation.depends_on i) (λ dependency,
      when (negb (bool_decide (dependency ∈ invocations)))
        (report (ClosureError.UnknownDependency (StepInvocation.invocation_id i) dependency))).
Definition check_inputs (channels : gmap StateChannelId.t StateChannel.t)
    (producers : gmap StateChannelId.t (list StepInvocation.t)) (i : StepInvocation.t) : check :=
  for_each (StepInvocation.inputs i) (λ input,
    when (contains_key input channels && negb (contains_key input producers))
      (report (ClosureError.ChannelWithoutProducer input (StepInvocation.invocation_id i)))).

Definition validate_graph (compute : ComputeSpec.t) (limits : Limits.t) : check :=
  let components := ComputeSpec.components compute in
  let plan := ComputeSpec.step_plan compute in
  let steps := StepPlan.invocations plan in
  let instances : gset ComponentInstanceId.t := list_to_set (ComponentInstance.instance_id <$> components) in
  let channels := channels_of (ComputeSpec.channels compute) in
  let invocations : gset StepInvocationId.t := list_to_set (StepInvocation.invocation_id <$> steps) in
  let producers := producers_of steps in
  check_limit "the component count" (lenN components) (Limits.max_components limits)
  ⨟ check_limit "the channel count" (lenN (ComputeSpec.channels compute)) (Limits.max_channels limits)
  ⨟ check_limit "the step-invocation count" (lenN steps) (Limits.max_step_invocations limits)
  ⨟ check_limit "the placement-constraint count" (lenN (ComputeSpec.placement_constraints compute)) (Limits.max_placement_constraints limits)
  ⨟ when (negb (bool_decide (ComputeSpec.workload_graph_profile compute = StepPlan.profile plan)))
      (report (ClosureError.GraphProfileMismatch (ComputeSpec.workload_graph_profile compute) (StepPlan.profile plan)))
  ⨟ for_each_unique ComponentInstance.instance_id (λ c, ClosureError.DuplicateInstance (ComponentInstance.instance_id c))
      (λ _, skip) (check_component limits) ∅ components
  ⨟ for_each_unique StateChannel.channel_id (λ c, ClosureError.DuplicateChannel (StateChannel.channel_id c))
      (λ c, check_limit "a channel's shape rank" (lenN (StateChannel.shape c)) (Limits.max_channel_shape_rank limits))
      (check_owner instances) ∅ (ComputeSpec.channels compute)
  ⨟ for_each components (check_owned channels)
  ⨟ for_each (ComputeSpec.placement_constraints compute) (check_constraint limits instances)
  ⨟ reconcile_ownership compute channels
  ⨟ for_each_unique StepInvocation.invocation_id (λ i, ClosureError.DuplicateInvocation (StepInvocation.invocation_id i))
      (λ _, skip) (λ _, skip) ∅ steps
  ⨟ for_each steps (check_invocation limits instances channels invocations)
  ⨟ for_each steps (check_inputs channels producers)
  ⨟ check_writers channels producers
  ⨟ match cyclic_invocation_count compute with
    | Some unreachable => report (ClosureError.CyclicStepPlan unreachable)
    | None => skip
    end.

(** ** Scalars *)
Definition check_scalar (limits : Limits.t) (where_ : ParameterName.t → string) (entry : ParameterName.t * ScalarValue.t) : check :=
  match entry.2 with
  | ScalarValue.Text text =>
    when (Limits.max_text_bytes limits <? str_len text)%N
      (report (ClosureError.TextTooLong (where_ entry.1) (str_len text) (Limits.max_text_bytes limits)))
  | _ => skip
  end.
Definition check_scalars (limits : Limits.t) (before : string) (m : gmap ParameterName.t ScalarValue.t) : check :=
  for_each (btree_entries m) (check_scalar limits (λ name, before +:+ quoted (ParameterName.as_str name))).
Definition check_common_scalar_bounds (metadata : WorkloadMeta.t) (compute : ComputeSpec.t) (requirements : WorkloadRequirements.t)
    (integration : option Integration.t) (limits : Limits.t) : check :=
  let parameters := Integration.parameters <$> integration in
  let if_integrated (f : gmap ParameterName.t ScalarValue.t → check) : check :=
    match parameters with Some p => f p | None => skip end in
  check_limit "the label count" (map_len (WorkloadMeta.labels metadata)) (Limits.max_labels limits)
  ⨟ if_integrated (λ p, check_limit "the integration parameter count" (map_len p) (Limits.max_parameter_entries limits))
  ⨟ check_limit "the hardware-requirement count" (map_len (WorkloadRequirements.hardware requirements)) (Limits.max_parameter_entries limits)
  ⨟ check_limit "the execution-profile count" (map_len (WorkloadRequirements.execution_profile requirements)) (Limits.max_parameter_entries limits)
  ⨟ for_each (ComputeSpec.components compute) (λ c, check_scalars limits
      ("component " +:+ quoted (ComponentInstanceId.as_str (ComponentInstance.instance_id c)) +:+ " config ") (ComponentInstance.config c))
  ⨟ for_each (ComputeSpec.placement_constraints compute) (λ p, check_scalars limits
      ("placement constraint " +:+ quoted (ConstraintName.as_str (PlacementConstraint.constraint p)) +:+ " parameter ")
      (PlacementConstraint.parameters p))
  ⨟ if_integrated (check_scalars limits "integration parameter ")
  ⨟ check_scalars limits "hardware requirement " (WorkloadRequirements.hardware requirements)
  ⨟ check_scalars limits "execution profile " (WorkloadRequirements.execution_profile requirements).
Definition check_scalar_bounds (manifest : WorkloadManifest) (limits : Limits.t) : check :=
  let spec := Resource.spec manifest in
  check_common_scalar_bounds (Resource.metadata manifest) (WorkloadSpec.compute spec) (WorkloadSpec.requirements spec)
    (Discretization.integration (DomainSpec.discretization (WorkloadSpec.domain spec))) limits.

(** ** Artifacts *)
Module DeclaredArtifact.
Record t : Type := mk {
  digest : ArtifactDigest.t;
  size_bytes : N;
  media_type : MediaType.t;
  schema : option SchemaCompat.t;
  roles : gset ArtifactRole.t;
  descriptor : ArtifactDescriptor.t
}.
Definition of_descriptor (d : ArtifactDescriptor.t) : t :=
  mk (ArtifactDescriptor.digest d) (ArtifactDescriptor.size_bytes d) (ArtifactDescriptor.media_type d)
    (ArtifactDescriptor.schema d) {[ArtifactDescriptor.role d]} d.
Definition with_role (role : ArtifactRole.t) (a : t) : t :=
  mk (digest a) (size_bytes a) (media_type a) (schema a) ({[role]} ∪ roles a) (descriptor a).
(** [BTreeSet::first]. *)
Definition first_role (a : t) : option ArtifactRole.t := head (merge_sort (λ r s : ArtifactRole.t, r ⪯ s) (elements (roles a))).
End DeclaredArtifact.
Definition every_descriptor (manifest : WorkloadManifest) : list ArtifactDescriptor.t :=
  let spec := Resource.spec manifest in
  (ComponentInstance.artifact <$> ComputeSpec.components (WorkloadSpec.compute spec))
  ++ option_list (WorkloadInputs.geometry (WorkloadSpec.inputs spec))
  ++ WorkloadInputs.initial_conditions (WorkloadSpec.inputs spec)
  ++ WorkloadInputs.additional (WorkloadSpec.inputs spec).

Definition role_counts (descriptors : list ArtifactDescriptor.t) : gmap ArtifactRole.t N :=
  foldl (λ m d, <[ArtifactDescriptor.role d := (default 0 (m !! ArtifactDescriptor.role d) + 1)%N]> m) ∅ descriptors.
Definition check_roles (descriptors : list ArtifactDescriptor.t) : check :=
  for_each (btree_entries (role_counts descriptors)) (λ entry,
    when (ArtifactRole.is_singular entry.1 && (1 <? entry.2)%N) (report (ClosureError.DuplicateRole entry.1 entry.2))).

(** The loop that collapses the descriptors: the distinct blobs, the digests in
    conflict, and the problems. *)
Module Collapsed.
Record t : Type := mk {
  by_digest : gmap ArtifactDigest.t DeclaredArtifact.t;
  conflicted : gset ArtifactDigest.t;
  errors : Errors.t
}.
Definition same_bytes (a : DeclaredArtifact.t) (d : ArtifactDescriptor.t) : bool :=
  (DeclaredArtifact.size_bytes a =? ArtifactDescriptor.size_bytes d)%N
  && bool_decide (DeclaredArtifact.media_type a = ArtifactDescriptor.media_type d)
  && bool_decide (DeclaredArtifact.schema a = ArtifactDescriptor.schema d).
Definition add (s : t) (d : ArtifactDescriptor.t) : t :=
  let digest := ArtifactDescriptor.digest d in
  match by_digest s !! digest with
  | Some existing =>
    if same_bytes existing d then
      mk (<[digest := DeclaredArtifact.with_role (ArtifactDescriptor.role d) existing]> (by_digest s)) (conflicted s) (errors s)
    else if bool_decide (digest ∈ conflicted s) then s
    else mk (by_digest s) ({[digest]} ∪ conflicted s) (Errors.push (ClosureError.ConflictingDescriptor digest) (errors s))
  | None => mk (<[digest := DeclaredArtifact.of_descriptor d]> (by_digest s)) (conflicted s) (errors s)
  end.
End Collapsed.
(** The byte budgets; an overflow of the sum ends the loop. *)
Fixpoint check_budgets (limits : Limits.t) (aggregate : N) (artifacts : list DeclaredArtifact.t) : check :=
  match artifacts with
  | [] =>
    when (Limits.max_aggregate_declared_bytes limits <? aggregate)%N
      (report (ClosureError.ClosureTooLarge aggregate (Limits.max_aggregate_declared_bytes limits)))
  | a :: artifacts =>
    when (Limits.max_artifact_bytes limits <? DeclaredArtifact.size_bytes a)%N
      (report (ClosureError.ArtifactTooLarge (DeclaredArtifact.digest a) (DeclaredArtifact.size_bytes a) (Limits.max_artifact_bytes limits)))
    ⨟ match checked_add u64_max aggregate (DeclaredArtifact.size_bytes a) with
      | None => report ClosureError.AggregateSizeOverflow
      | Some next => check_budgets limits next artifacts
      end
  end.
Definition declared_descriptors (descriptors : list ArtifactDescriptor.t) (limits : Limits.t) (errors : Errors.t)
    : list DeclaredArtifact.t * Errors.t :=
  let errors := check_roles descriptors errors in
  let s := foldl Collapsed.add (Collapsed.mk ∅ ∅ errors) descriptors in
  let declared := btree_values (Collapsed.by_digest s) in
  (declared, check_budgets limits 0 declared (Collapsed.errors s)).
Definition declared_artifacts (manifest : WorkloadManifest) (limits : Limits.t) (errors : Errors.t)
    : list DeclaredArtifact.t * Errors.t :=
  let descriptors := every_descriptor manifest in
  let errors := check_limit "the artifact count" (lenN descriptors) (Limits.max_artifacts limits) errors in
  let errors := check_limit "the initial-condition count"
    (lenN (WorkloadInputs.initial_conditions (WorkloadSpec.inputs (Resource.spec manifest)))) (Limits.max_initial_conditions limits) errors in
  declared_descriptors descriptors limits errors.

(** ** The bytes *)
Module VerifiedArtifact.
Record t : Type := mk {
  digest : ArtifactDigest.t;
  size_bytes : N;
  media_type : MediaType.t;
  schema : option SchemaCompat.t;
  roles : gset ArtifactRole.t
}.
Definition of_declared (a : DeclaredArtifact.t) : t :=
  mk (DeclaredArtifact.digest a) (DeclaredArtifact.size_bytes a) (DeclaredArtifact.media_type a)
    (DeclaredArtifact.schema a) (DeclaredArtifact.roles a).
End VerifiedArtifact.
Module VerifiedClosure.
Record t : Type := mk { root : WorkloadDigest.t; artifacts : gmap ArtifactDigest.t VerifiedArtifact.t }.
End VerifiedClosure.
(** A declared artifact has a role: the [expect] of the source does not fail. *)
Definition verify_artifact `{Antientropy.Sha256} (blobs : BlobSource) (a : DeclaredArtifact.t) : result ClosureError.t VerifiedArtifact.t :=
  let '(verifier, found) := read_blob blobs (DeclaredArtifact.digest a) (BlobVerifier.new (DeclaredArtifact.descriptor a)) in
  if found then _ ← BlobVerifier.finish verifier; Ok (VerifiedArtifact.of_declared a)
  else
    Err (ClosureError.MissingArtifact
      (default (ArtifactDescriptor.role (DeclaredArtifact.descriptor a)) (DeclaredArtifact.first_role a)) (DeclaredArtifact.digest a)).
Fixpoint verify_artifacts `{Antientropy.Sha256} (declared : list DeclaredArtifact.t) (blobs : BlobSource)
    (verified : gmap ArtifactDigest.t VerifiedArtifact.t) (errors : Errors.t) : gmap ArtifactDigest.t VerifiedArtifact.t * Errors.t :=
  match declared with
  | [] => (verified, errors)
  | a :: declared =>
    match verify_artifact blobs a with
    | Ok v => verify_artifacts declared blobs (<[DeclaredArtifact.digest a := v]> verified) errors
    | Err error => verify_artifacts declared blobs verified (Errors.push error errors)
    end
  end.

(** ** Validation

    What both versions do once the manifest alone has been read: stop at a problem,
    else fetch the bytes. [None] is the panic of [root.expect]. *)
Definition gate `{Antientropy.Sha256} (declared : list DeclaredArtifact.t) (root : result CanonicalError.t WorkloadDigest.t)
    (blobs : BlobSource) (errors : Errors.t) : outcome ClosureReport.t VerifiedClosure.t :=
  let errors := match root with Ok _ => errors | Err error => Errors.push (ClosureError.NotCanonical error) errors end in
  if negb (Errors.is_empty errors) then refuse (Errors.into_report errors)
  else
    match root with
    | Err _ => None
    | Ok root =>
      let '(artifacts, errors) := verify_artifacts declared blobs ∅ errors in
      if Errors.is_empty errors then answer (Ok (VerifiedClosure.mk root artifacts)) else refuse (Errors.into_report errors)
    end.
Definition check_domain (manifest : WorkloadManifest) (limits : Limits.t) : check :=
  match DomainSpec.validate (WorkloadSpec.domain (Resource.spec manifest)) limits with
  | Ok _ => skip
  | Err error => report (ClosureError.Domain error)
  end.
Definition validate_closure `{Antientropy.Sha256} (manifest : WorkloadManifest) (blobs : BlobSource) (limits : Limits.t)
    : outcome ClosureReport.t VerifiedClosure.t :=
  let errors := Errors.new limits in
  match expect manifest api_version kind with
  | Err error => refuse (Errors.into_report (Errors.push (ClosureError.Discriminator error) errors))
  | Ok _ =>
    let errors := check_domain manifest limits errors in
    let errors := check_scalar_bounds manifest limits errors in
    let errors := validate_graph (WorkloadSpec.compute (Resource.spec manifest)) limits errors in
    let '(declared, errors) := declared_artifacts manifest limits errors in
    gate declared (workload_digest manifest limits) blobs errors
  end.

Definition v3_descriptors (manifest : V3.WorkloadManifest) : list ArtifactDescriptor.t :=
  let spec := Resource.spec manifest in
  (ComponentInstance.artifact <$> ComputeSpec.components (V3.compute spec))
  ++ [V3.selection spec; V3.execution spec] ++ V3.artifacts spec.
Definition count_role (role : string) (descriptors : list ArtifactDescriptor.t) : N :=
  lenN (filter (λ a, ArtifactRole.as_str (ArtifactDescriptor.role a) = role) descriptors).
Definition check_slot (slot : string * ArtifactDescriptor.t * string) : check :=
  let '(name, a, expected) := slot in
  when (negb (bool_decide (ArtifactRole.as_str (ArtifactDescriptor.role a) = expected)))
    (report (ClosureError.RequiredInputRole name (ArtifactDescriptor.role a) expected)).
Definition check_single_role (descriptors : list ArtifactDescriptor.t) (role : string) : check :=
  when (1 <? count_role role descriptors)%N
    (report (ClosureError.DuplicateRole (ArtifactRole.mk role) (count_role role descriptors))).
Definition v3_structure (manifest : V3.WorkloadManifest) (limits : Limits.t) : check :=
  let spec := Resource.spec manifest in
  let descriptors := v3_descriptors manifest in
  check_common_scalar_bounds (Resource.metadata manifest) (V3.compute spec) (V3.requirements spec) None limits
  ⨟ validate_graph (V3.compute spec) limits
  ⨟ for_each [("selection", V3.selection spec, V3.SELECTION_ROLE); ("execution", V3.execution spec, V3.EXECUTION_ROLE)] check_slot
  ⨟ check_limit "the initial-condition count" (count_role ArtifactRole.INITIAL_CONDITIONS descriptors) (Limits.max_initial_conditions limits)
  ⨟ for_each [V3.SELECTION_ROLE; V3.EXECUTION_ROLE] (check_single_role descriptors).
Definition validate_v3_closure `{Antientropy.Sha256} (manifest : V3.WorkloadManifest) (blobs : BlobSource) (limits : Limits.t)
    : outcome ClosureReport.t VerifiedClosure.t :=
  let errors := Errors.new limits in
  match expect manifest (ApiVersion.mk V3.API_VERSION) kind with
  | Err error => refuse (Errors.into_report (Errors.push (ClosureError.Discriminator error) errors))
  | Ok _ =>
    let errors := check_limit "the artifact count" (Composed.artifact_count manifest) (Limits.max_artifacts limits) errors in
    if negb (Errors.is_empty errors) then refuse (Errors.into_report errors)
    else
      match Composed.raw_bounds manifest limits with
      | Err e => refuse (Errors.into_report (Errors.push (ClosureError.NotCanonical e) errors))
      | Ok _ =>
        let errors := v3_structure manifest limits errors in
        let '(declared, errors) := declared_descriptors (v3_descriptors manifest) limits errors in
        gate declared (Composed.workload_digest manifest limits) blobs errors
      end
  end.
