(* ===== verification/Codec.v ===== *)
(** * The canonical encoding is a codec (crate [orishu-workload], canonical.rs)

    [encoding] is the byte string of a value without budgets. The encoder writes
    exactly it within its bounds, the decoder reads exactly it, and whatever the
    decoder accepts is the encoding of what it returns: a value has one spelling. *)

From Stdlib Require Import Ascii.
From Stdlib Require Import Floats.SpecFloat.
From stdpp Require Import base gmap strings list sorting.
From S2P Require Import Prelude Identity Binary64 Workload Cbor.
From S2P Require Antientropy Encoding.
Import Antientropy (to_be_bytes).

(** ** Bytes and integers *)
Ltac decide_leb := repeat match goal with
  | |- context [(?a <=? ?b)%N] => let H := fresh in destruct (a <=? b)%N eqn:H; [apply N.leb_le in H|apply N.leb_gt in H]; try lia
  end.
Lemma length_bytes_of s : lenN (bytes_of s) = str_len s.
Proof. done. Qed.
Lemma ascii_lt (b : ascii) : (N_of_ascii b < 256)%N.
Proof. apply N_ascii_bounded. Qed.

Lemma from_be_bytes_snoc l b : from_be_bytes (l ++ [b]) = (from_be_bytes l * 256 + N_of_ascii b)%N.
Proof. unfold from_be_bytes. by rewrite foldl_app. Qed.
Lemma from_be_bytes_lt l : (from_be_bytes l < 256 ^ lenN l)%N.
Proof.
  induction l as [|b l IH] using rev_ind; [cbn; lia|].
  rewrite from_be_bytes_snoc, lenN_app, N.pow_add_r. pose proof (ascii_lt b). change (lenN [b]) with 1%N. rewrite N.pow_1_r. lia.
Qed.
Lemma from_to_be_bytes n v : (v < 256 ^ N.of_nat n)%N → from_be_bytes (to_be_bytes n v) = v.
Proof.
  revert v. induction n as [|n IH]; intros v Hv; [cbn in *; lia|].
  rewrite Nat2N.inj_succ, N.pow_succ_r' in Hv. cbn [to_be_bytes]. rewrite from_be_bytes_snoc, IH.
  - unfold Antientropy.byte. rewrite N_ascii_embedding by (by apply N.mod_lt). pose proof (N.div_mod v 256). lia.
  - apply N.Div0.div_lt_upper_bound. lia.
Qed.
Lemma to_from_be_bytes l : to_be_bytes (length l) (from_be_bytes l) = l.
Proof.
  induction l as [|b l IH] using rev_ind; [done|].
  rewrite length_app, Nat.add_1_r. cbn [to_be_bytes]. rewrite from_be_bytes_snoc. pose proof (ascii_lt b) as Hb.
  rewrite N.div_add_l, (N.div_small _ _ Hb), N.add_0_r, IH by done.
  rewrite N.add_comm, N.Div0.mod_add, (N.mod_small _ _ Hb). unfold Antientropy.byte. by rewrite ascii_N_embedding.
Qed.

(** ** The first byte of a value *)
Definition initial (major additional : N) : N := N.lor (N.shiftl major 5) additional.
Definition byte_values : list N := N.of_nat <$> seq 0 256.
Lemma every_byte (P : N → bool) : forallb P byte_values = true → ∀ n, (n < 256)%N → P n = true.
Proof.
  intros Hall n Hn. rewrite forallb_forall in Hall. apply Hall. apply in_map_iff. exists (N.to_nat n).
  split; [lia|]. apply in_seq. lia.
Qed.
Lemma initial_fields m i : (m < 8)%N → (i < 32)%N →
  N.shiftr (initial m i) 5 = m ∧ N.land (initial m i) 0x1f = i ∧ (initial m i < 256)%N.
Proof.
  intros Hm Hi.
  assert ((let p := (m * 32 + i)%N in
    let m := (p / 32)%N in let i := (p mod 32)%N in
    (N.shiftr (initial m i) 5 =? m) && (N.land (initial m i) 0x1f =? i) && (initial m i <? 256))%N = true) as H.
  { refine (every_byte (λ p, let m := (p / 32)%N in let i := (p mod 32)%N in
      (N.shiftr (initial m i) 5 =? m) && (N.land (initial m i) 0x1f =? i) && (initial m i <? 256))%N _ _ _); [by vm_compute|lia]. }
  cbv zeta in H. rewrite N.div_add_l, (N.div_small i), N.add_0_r in H by done.
  rewrite (N.add_comm (m * 32)), N.Div0.mod_add, (N.mod_small i) in H by done.
  apply andb_true_iff in H as [[H1 H2]%andb_true_iff H3].
  split_and!; [by apply N.eqb_eq|by apply N.eqb_eq|by apply N.ltb_lt].
Qed.
Lemma initial_of_byte b : (b < 256)%N →
  b = initial (N.shiftr b 5) (N.land b 0x1f) ∧ (N.shiftr b 5 < 8)%N ∧ (N.land b 0x1f < 32)%N.
Proof.
  intros Hb.
  pose proof (every_byte (λ b, (b =? initial (N.shiftr b 5) (N.land b 0x1f)) && (N.shiftr b 5 <? 8) && (N.land b 0x1f <? 32))%N
    ltac:(by vm_compute) b Hb) as H.
  apply andb_true_iff in H as [[H1 H2]%andb_true_iff H3].
  split_and!; [by apply N.eqb_eq|by apply N.ltb_lt|by apply N.ltb_lt].
Qed.

(** ** The encoding *)

(** How an argument is announced, and the bytes that follow. *)
Definition info (a : N) : N :=
  (if a <=? 23 then a else if a <=? 0xFF then 24 else if a <=? 0xFFFF then 25 else if a <=? 0xFFFFFFFF then 26 else 27)%N.
Definition extra (a : N) : bytes :=
  if (a <=? 23)%N then []
  else if (a <=? 0xFF)%N then [ascii_of_N a]
  else if (a <=? 0xFFFF)%N then to_be_bytes 2 a
  else if (a <=? 0xFFFFFFFF)%N then to_be_bytes 4 a
  else to_be_bytes 8 a.
Definition head (major argument : N) : bytes := ascii_of_N (initial major (info argument)) :: extra argument.
Fixpoint encoding (v : CanonicalValue.t) : bytes :=
  match v with
  | CanonicalValue.Bool b => [ascii_of_N (initial MAJOR_SIMPLE (if b then 21 else 20))]
  | CanonicalValue.UInt n => head MAJOR_UINT n
  | CanonicalValue.NInt z => head MAJOR_NINT (Z.to_N (Z.abs z) - 1)
  | CanonicalValue.F64 x => ascii_of_N (initial MAJOR_SIMPLE 27) :: to_be_bytes 8 (f64_to_bits (FiniteF64.get x))
  | CanonicalValue.Bytes l => head MAJOR_BYTES (lenN l) ++ l
  | CanonicalValue.Text s => head MAJOR_TEXT (str_len s) ++ bytes_of s
  | CanonicalValue.Array items => head MAJOR_ARRAY (lenN items) ++ (items ≫= encoding)
  | CanonicalValue.Map entries => head MAJOR_MAP (lenN entries) ++ (entries ≫= λ e, encoding e.1 ++ encoding e.2)
  end.

(** A value of at most [levels] levels. *)
Fixpoint nests (levels : nat) (v : CanonicalValue.t) : bool :=
  match levels with
  | O => false
  | S deeper =>
    match v with
    | CanonicalValue.Array items => forallb (nests deeper) items
    | CanonicalValue.Map entries => forallb (λ e, nests deeper e.1 && nests deeper e.2) entries
    | _ => true
    end
  end.

(** ** The encoder writes the encoding *)
Section encoder.
Implicit Types out : Output.t.

Lemma push_extend b out : Output.push b out = Output.extend [ascii_of_N b] out.
Proof. done. Qed.
Definition has_room out : Prop := (N.min (lenN (Output.written out)) usize_max ≤ Output.limit out)%N.
Lemma extend_nil out : has_room out → Output.extend [] out = Ok out.
Proof.
  intros H. unfold has_room in H. unfold Output.extend, Output.room_for. change (lenN []) with 0%N.
  unfold saturating_add. rewrite N.add_0_r. destruct (_ <? _)%N eqn:E; [apply N.ltb_lt in E; lia|].
  cbn. rewrite app_nil_r. by destruct out.
Qed.
Lemma extend_extend l k out : (out ← Output.extend l out; Output.extend k out) = Output.extend (l ++ k) out.
Proof.
  unfold Output.extend, Output.room_for, saturating_add. rewrite lenN_app.
  destruct (_ <? _)%N eqn:E1; cbn [mbind result_bind].
  - apply N.ltb_lt in E1. destruct (_ <? N.min (_ + (_ + _)) _)%N eqn:E2; [done|apply N.ltb_ge in E2; lia].
  - cbn [Output.written Output.limit]. rewrite lenN_app. apply N.ltb_ge in E1.
    rewrite N.add_assoc. destruct (_ <? N.min (_ + _ + _) _)%N eqn:E2; cbn [mbind result_bind]; [done|].
    by rewrite app_assoc.
Qed.
Lemma extend_ok l out out' : Output.extend l out = Ok out' ↔
  out' = Output.mk (Output.written out ++ l) (Output.limit out) ∧ has_room out'.
Proof.
  unfold Output.extend, Output.room_for, has_room, saturating_add. destruct (_ <? _)%N eqn:H; cbn [mbind result_bind].
  - apply N.ltb_lt in H. split; [done|]. intros [-> Hr]. cbn in Hr. rewrite lenN_app in Hr. lia.
  - apply N.ltb_ge in H. split; [intros [= <-]; split; [done|]; cbn; by rewrite lenN_app|intros [-> _]; done].
Qed.

Lemma write_head_extend m a out : write_head m a out = Output.extend (head m a) out.
Proof.
  unfold write_head, head, info, extra.
  repeat destruct (_ <=? _)%N; first [done|exact (extend_extend [_] _ out)].
Qed.

(** Written within its bounds, a value is its encoding. *)
Lemma write_each_extend {A} (write : A → Output.t → result CanonicalError.t Output.t) (enc : A → bytes) l out :
  has_room out →
  Forall (λ x, ∀ out, has_room out → write x out = Output.extend (enc x) out) l →
  write_each write l out = Output.extend (l ≫= enc) out.
Proof.
  intros Hout Hl. revert out Hout. induction Hl as [|x l Hx _ IH]; intros out Hout; cbn [write_each mbind list_bind].
  - by rewrite extend_nil.
  - rewrite Hx, <-extend_extend by done. destruct (Output.extend (enc x) out) as [out'|] eqn:E; [|done].
    apply IH. by apply extend_ok in E as [_ ?].
Qed.
Lemma write_value_extend max v : ∀ depth out, nests (N.to_nat (max + 1 - depth)) v = true → has_room out →
  write_value max depth v out = Output.extend (encoding v) out.
Proof.
  induction v as [b|n|z|x|l|s|items IH|entries IH] using CanonicalValue.nested_ind; intros depth out Hn Hr.
  all: destruct (N.to_nat (max + 1 - depth)) as [|deeper] eqn:Hd; [done|].
  all: cbn [write_value]; destruct (max <? depth)%N eqn:Hlt; [apply N.ltb_lt in Hlt; lia|]; cbn [encoding].
  - by destruct b.
  - apply write_head_extend.
  - apply write_head_extend.
  - rewrite push_extend. apply (extend_extend [_]).
  - rewrite <-extend_extend. by rewrite write_head_extend.
  - rewrite <-extend_extend. by rewrite write_head_extend.
  - rewrite <-extend_extend, write_head_extend. destruct (Output.extend (head _ _) out) as [out'|] eqn:E; [|done].
    apply extend_ok in E as [_ Hr']. apply write_each_extend; [done|].
    cbn [nests] in Hn. rewrite Forall_forall in IH. apply Forall_forall. intros item Hin out0 Hr0.
    apply IH; [done| |done]. replace (N.to_nat (max + 1 - (depth + 1))) with deeper by lia.
    rewrite forallb_forall in Hn. by apply Hn, list_elem_of_In.
  - rewrite <-extend_extend, write_head_extend. destruct (Output.extend (head _ _) out) as [out'|] eqn:E; [|done].
    apply extend_ok in E as [_ Hr']. apply write_each_extend; [done|].
    cbn [nests] in Hn. rewrite Forall_forall in IH. apply Forall_forall. intros e Hin out0 Hr0.
    assert (N.to_nat (max + 1 - (depth + 1)) = deeper) as Hdeeper by lia.
    rewrite forallb_forall in Hn. apply list_elem_of_In in Hin as Hin'. apply Hn, andb_true_iff in Hin' as [Hk Hv].
    destruct (IH e Hin) as [IHk IHv]. rewrite <-extend_extend, IHk by (by rewrite ?Hdeeper).
    destruct (Output.extend (encoding e.1) out0) as [out1|] eqn:E; [|done]. apply extend_ok in E as [_ Hr1].
    apply IHv; by rewrite ?Hdeeper.
Qed.

(** What it writes does not nest past the limit. *)
Lemma write_each_ok {A} (write : A → Output.t → result CanonicalError.t Output.t) l : ∀ out out',
  write_each write l out = Ok out' → Forall (λ x, ∃ out out', write x out = Ok out') l.
Proof.
  induction l as [|x l IH]; intros out out' H; cbn [write_each] in H; [constructor|].
  apply result_bind_ok in H as (out1 & Hx & Hl). constructor; [by exists out, out1|]. by apply (IH out1 out').
Qed.
Lemma write_value_nests max v : ∀ depth out out', write_value max depth v out = Ok out' →
  nests (N.to_nat (max + 1 - depth)) v = true.
Proof.
  induction v as [b|n|z|x|l|s|items IH|entries IH] using CanonicalValue.nested_ind; intros depth out out' H.
  all: cbn [write_value] in H; destruct (max <? depth)%N eqn:Hlt; [done|]; apply N.ltb_ge in Hlt.
  all: destruct (N.to_nat (max + 1 - depth)) as [|deeper] eqn:Hd; [lia|]; cbn [nests]; try done.
  all: assert (N.to_nat (max + 1 - (depth + 1)) = deeper) as Hdeeper by lia.
  all: apply result_bind_ok in H as (out1 & _ & H); apply write_each_ok in H.
  all: apply forallb_forall; intros e Hin; apply list_elem_of_In in Hin; rewrite Forall_forall in H, IH.
  all: destruct (H e Hin) as (o & o' & Ho).
  - rewrite <-Hdeeper. by apply (IH e Hin _ o o').
  - apply result_bind_ok in Ho as (o1 & Hk & Hv). destruct (IH e Hin) as [IHk IHv].
    rewrite <-Hdeeper. apply andb_true_iff. split; [by apply (IHk _ o o1)|by apply (IHv _ o1 o')].
Qed.
End encoder.

Definition levels (limits : Limits.t) : nat := S (N.to_nat (Limits.max_nesting_depth limits)).
Lemma encode_ok v limits bs : encode v limits = Ok bs ↔
  bs = encoding v ∧ nests (levels limits) v = true ∧ (N.min (lenN bs) usize_max ≤ Limits.max_manifest_bytes limits)%N.
Proof.
  unfold encode. assert (N.to_nat (Limits.max_nesting_depth limits + 1 - 0) = levels limits) as Hl by (unfold levels; lia).
  assert (has_room (Output.mk [] (N.min (Limits.max_manifest_bytes limits) usize_max))) as Hr.
  { unfold has_room. cbn [Output.written Output.limit]. change (lenN []) with 0%N. lia. }
  split.
  - intros H. apply result_bind_ok in H as (out & Hw & [= <-]).
    pose proof (write_value_nests _ _ _ _ _ Hw) as Hn. rewrite write_value_extend in Hw by done.
    apply extend_ok in Hw as [-> Hroom]. unfold has_room in Hroom. cbn [Output.written Output.limit app] in *.
    rewrite Hl in Hn. split_and!; [done|done|lia].
  - intros (-> & Hn & Hb). rewrite write_value_extend by (by rewrite ?Hl).
    unfold Output.extend, Output.room_for, saturating_add. cbn [Output.written Output.limit].
    change (lenN []) with 0%N. rewrite N.add_0_l. destruct (_ <? _)%N eqn:E; [apply N.ltb_lt in E; lia|]. done.
Qed.
Lemma encode_key_encoding k : nests (S (N.to_nat usize_max)) k = true → encode_key k = encoding k.
Proof.
  intros Hn. unfold encode_key. rewrite write_value_extend.
  - unfold Output.extend, Output.room_for, saturating_add. cbn [Output.written Output.limit].
    destruct (_ <? _)%N eqn:E; [apply N.ltb_lt in E; lia|]. done.
  - replace (N.to_nat (usize_max + 1 - 0)) with (S (N.to_nat usize_max)) by lia. done.
  - unfold has_room. cbn [Output.written Output.limit]. change (lenN []) with 0%N. lia.
Qed.
Lemma nests_le n m v : n ≤ m → nests n v = true → nests m v = true.
Proof.
  revert m v. induction n as [|n IH]; intros m v Hm H; [done|]. destruct m as [|m]; [lia|].
  destruct v; cbn [nests] in *; try done.
  all: apply forallb_forall; intros e Hin; rewrite forallb_forall in H; specialize (H e Hin).
  - apply (IH m); [lia|done].
  - apply andb_true_iff in H as [? ?]. apply andb_true_iff. split; (apply (IH m); [lia|done]).
Qed.

(** ** Binary64 and its bits *)
Lemma digits2_pos_size m : digits2_pos m = Pos.size m.
Proof. induction m; cbn; congruence. Qed.
(** Finite, in its one representation, and not negative zero. *)
Definition canonical_float (x : FiniteF64.t) : bool :=
  match FiniteF64.get x with
  | S754_zero s => negb s
  | S754_finite _ m e => bounded F64.prec F64.emax m e
  | _ => false
  end.
Lemma bounded_cases m e : bounded F64.prec F64.emax m e = true ↔
  (Npos m < 2 ^ 53)%N ∧ (((Npos m < 2 ^ 52)%N ∧ e = -1074) ∨ ((2 ^ 52 ≤ Npos m)%N ∧ -1074 ≤ e ≤ 971))%Z.
Proof.
  unfold bounded, canonical_mantissa, fexp, emin. rewrite digits2_pos_size.
  change F64.prec with 53%Z. change F64.emax with 1024%Z. change (3 - 1024 - 53)%Z with (-1074)%Z.
  assert (∀ k, (Npos m < 2 ^ k)%N ↔ (Npos (Pos.size m) ≤ k)%N) as Hk.
  { intros k. rewrite (N.log2_lt_pow2 (Npos m) k) by done. change (Npos (Pos.size m)) with (N.size (Npos m)).
    rewrite N.size_log2 by done. lia. }
  pose proof (Hk 53%N). pose proof (Hk 52%N). rewrite andb_true_iff, <-Zeq_is_eq_bool, Z.leb_le. lia.
Qed.
(** A sign, a biased exponent and a fraction. *)
Definition packed (s : bool) (exponent fraction : N) : N := ((if s then 2 ^ 63 else 0) + exponent * 2 ^ 52 + fraction)%N.
Lemma packed_fields s x f : (x < 2 ^ 11)%N → (f < 2 ^ 52)%N →
  (2 ^ 63 <=? packed s x f)%N = s ∧ ((packed s x f / 2 ^ 52) mod 2 ^ 11)%N = x ∧ (packed s x f mod 2 ^ 52)%N = f ∧ (packed s x f < 2 ^ 64)%N.
Proof.
  intros Hx Hf. unfold packed.
  assert ((if s then 2 ^ 63 else 0) = (if s then 2 ^ 11 else 0) * 2 ^ 52)%N as -> by (by destruct s).
  rewrite <-N.mul_add_distr_r. split_and!.
  - destruct s; [apply N.leb_le; lia|apply N.leb_gt; lia].
  - rewrite N.div_add_l, (N.div_small f), N.add_0_r by done.
    destruct s; [|by rewrite N.add_0_l, N.mod_small].
    rewrite N.add_comm. rewrite <-(N.mul_1_l (2 ^ 11)) at 1. by rewrite N.Div0.mod_add, N.mod_small.
  - by rewrite N.add_comm, N.Div0.mod_add, N.mod_small.
  - destruct s; lia.
Qed.
Lemma packed_of n : (n < 2 ^ 64)%N →
  n = packed (2 ^ 63 <=? n)%N ((n / 2 ^ 52) mod 2 ^ 11) (n mod 2 ^ 52).
Proof.
  intros Hn. unfold packed.
  pose proof (N.div_mod n (2 ^ 52) ltac:(done)) as Hd.
  pose proof (N.mod_lt n (2 ^ 52) ltac:(done)) as Hm. revert Hd Hm.
  generalize (n mod 2 ^ 52)%N as m. generalize (n / 2 ^ 52)%N as q. intros q m Hd Hm.
  pose proof (N.div_mod q (2 ^ 11) ltac:(done)) as Hq.
  pose proof (N.mod_lt q (2 ^ 11) ltac:(done)) as Hr.
  revert Hq Hr. generalize (q mod 2 ^ 11)%N as r. generalize (q / 2 ^ 11)%N as t. intros t r Hq Hr.
  destruct (2 ^ 63 <=? n)%N eqn:H; [apply N.leb_le in H|apply N.leb_gt in H]; lia.
Qed.

Lemma f64_to_from_bits x : canonical_float x = true →
  f64_from_bits (f64_to_bits (FiniteF64.get x)) = FiniteF64.get x ∧ (f64_to_bits (FiniteF64.get x) < 2 ^ 64)%N.
Proof.
  unfold canonical_float. destruct (FiniteF64.get x) as [[]| | |s m e]; try done. intros H.
  apply bounded_cases in H as (Hm & [[Hlt ->]|[Hge He]]).
  - destruct (packed_fields s 0 (Npos m) ltac:(done) Hlt) as (H1 & H2 & H3 & H4).
    assert (f64_to_bits (S754_finite s m (-1074)) = packed s 0 (Npos m)) as ->.
    { unfold f64_to_bits, packed. destruct (_ <? _)%N eqn:E; [lia|]. by apply N.ltb_ge in E; lia. }
    split; [|done]. unfold f64_from_bits. by rewrite H1, H2, H3.
  - destruct (packed_fields s (Z.to_N (e + 1075)) (Npos m - 2 ^ 52) ltac:(lia) ltac:(lia)) as (H1 & H2 & H3 & H4).
    assert (f64_to_bits (S754_finite s m e) = packed s (Z.to_N (e + 1075)) (Npos m - 2 ^ 52)) as ->.
    { unfold f64_to_bits, packed. destruct (_ <? _)%N eqn:E; [apply N.ltb_lt in E; lia|]. done. }
    split; [|done]. unfold f64_from_bits. rewrite H1, H2, H3.
    destruct (_ =? 0)%N eqn:E0; [apply N.eqb_eq in E0; lia|].
    destruct (_ =? 2047)%N eqn:E1; [apply N.eqb_eq in E1; lia|].
    replace (2 ^ 52 + (Npos m - 2 ^ 52))%N with (Npos m) by lia. f_equal. lia.
Qed.
Lemma f64_from_to_bits n : (n < 2 ^ 64)%N → canonical_float (FiniteF64.mk (f64_from_bits n)) = true →
  f64_to_bits (f64_from_bits n) = n.
Proof.
  intros Hn Hc. rewrite (packed_of n Hn) at 2. revert Hc. unfold canonical_float, FiniteF64.get, f64_from_bits, packed.
  set (s := (2 ^ 63 <=? n)%N). set (x := ((n / 2 ^ 52) mod 2 ^ 11)%N).
  pose proof (N.mod_lt n (2 ^ 52) ltac:(done)) as Hf. revert Hf. generalize (n mod 2 ^ 52)%N. intros f Hf.
  destruct (x =? 0)%N eqn:E0.
  - apply N.eqb_eq in E0. rewrite E0. destruct f as [|m].
    + by destruct s.
    + intros _. unfold f64_to_bits. destruct (_ <? _)%N eqn:E; [lia|apply N.ltb_ge in E; lia].
  - destruct (x =? 2047)%N; [by destruct (f =? 0)%N|]. apply N.eqb_neq in E0.
    destruct (2 ^ 52 + f)%N as [|m] eqn:Em; [done|]. intros _. unfold f64_to_bits.
    destruct (_ <? _)%N eqn:E; [apply N.ltb_lt in E; lia|].
    replace (Z.to_N (Z.of_N x - 1075 + 1075)) with x by lia. rewrite <-Em. lia.
Qed.
(** What is read from eight bytes and is neither negative zero nor refused is
    canonical, and kept as it is. *)
Lemma f64_from_bits_bounded n : match f64_from_bits n with S754_finite _ m e => bounded F64.prec F64.emax m e = true | _ => True end.
Proof.
  unfold f64_from_bits. pose proof (N.mod_lt n (2 ^ 52) ltac:(done)) as Hf.
  pose proof (N.mod_lt (n / 2 ^ 52) (2 ^ 11) ltac:(done)) as Hx. revert Hf Hx.
  generalize (n mod 2 ^ 52)%N. generalize ((n / 2 ^ 52) mod 2 ^ 11)%N. intros x f Hf Hx.
  destruct (x =? 0)%N eqn:E0.
  - destruct f as [|m]; [done|]. apply bounded_cases. lia.
  - apply N.eqb_neq in E0. destruct (x =? 2047)%N eqn:E1; [by destruct (f =? 0)%N|]. apply N.eqb_neq in E1.
    destruct (2 ^ 52 + f)%N as [|m] eqn:Em; [done|]. apply bounded_cases. lia.
Qed.
Lemma finite_new x y : FiniteF64.new x = Ok y → F64.is_finite x = true ∧
  (is_sign_negative x && F64.eqb x F64.zero = false → y = FiniteF64.mk x).
Proof.
  destruct x as [s|s| |s m e]; cbn; try done; intros [= <-]; split; try done. by destruct s.
Qed.

(** ** Canonical values

    What the decoder can return: integers of their width, canonical floats, text
    that is UTF-8, and maps in strictly ascending order of their encoded keys. *)
Fixpoint ascending (previous : option bytes) (keys : list bytes) : bool :=
  match keys with
  | [] => true
  | key :: keys =>
    match previous with Some previous => cmp_gtb key previous | None => true end && ascending (Some key) keys
  end.
Fixpoint canonical (v : CanonicalValue.t) : bool :=
  match v with
  | CanonicalValue.Bool _ | CanonicalValue.Bytes _ => true
  | CanonicalValue.UInt n => (n <=? u64_max)%N
  | CanonicalValue.NInt z => (- 2 ^ 63 <=? z)%Z && (z <? 0)%Z
  | CanonicalValue.F64 x => canonical_float x
  | CanonicalValue.Text s => is_utf8 (bytes_of s)
  | CanonicalValue.Array items => forallb canonical items
  | CanonicalValue.Map entries =>
    forallb (λ e, canonical e.1 && canonical e.2) entries && ascending None (encoding ∘ fst <$> entries)
  end.

(** ** The decoder reads the encoding *)
Section decoder.
Implicit Types (d : Decoder.t) (r : bytes).

Definition rest d : bytes := drop (N.to_nat (Decoder.at_ d)) (Decoder.input d).
Definition advance (n : N) d : Decoder.t := Decoder.moved_to (Decoder.at_ d + n) d.
Record inside d : Prop := {
  inside_at : (Decoder.at_ d ≤ lenN (Decoder.input d))%N;
  inside_width : (lenN (Decoder.input d) ≤ u64_max)%N
}.
Lemma length_rest d : inside d → lenN (rest d) = (lenN (Decoder.input d) - Decoder.at_ d)%N.
Proof. intros [H _]. unfold rest, lenN in *. rewrite length_drop. lia. Qed.
Lemma decoder_rest_advance d l r : rest d = l ++ r → rest (advance (lenN l) d) = r.
Proof.
  unfold rest, advance, lenN. cbn [Decoder.at_ Decoder.input Decoder.moved_to]. intros H.
  replace (N.to_nat (Decoder.at_ d + N.of_nat (length l))) with (N.to_nat (Decoder.at_ d) + length l) by lia.
  rewrite <-drop_drop, H. apply drop_app_length.
Qed.
Lemma inside_advance d l r : inside d → rest d = l ++ r → inside (advance (lenN l) d).
Proof.
  intros Hi H. pose proof (length_rest d Hi) as Hl. rewrite H, lenN_app in Hl. destruct Hi.
  split; cbn [advance Decoder.at_ Decoder.input Decoder.moved_to]; lia.
Qed.

Lemma byte_ok d b d' : inside d → Decoder.byte d = Ok (b, d') ↔
  d' = advance 1 d ∧ rest d = [ascii_of_N b] ++ rest d' ∧ (b < 256)%N.
Proof.
  intros Hi. unfold Decoder.byte. destruct (Decoder.input d !! N.to_nat (Decoder.at_ d)) as [c|] eqn:E.
  - assert (rest d = [c] ++ rest (advance 1 d)) as Hr.
    { unfold rest, advance. cbn [Decoder.at_ Decoder.input Decoder.moved_to]. rewrite (drop_S _ c) by done.
      by replace (N.to_nat (Decoder.at_ d + 1)) with (S (N.to_nat (Decoder.at_ d))) by lia. }
    split.
    + intros [= <- <-]. rewrite ascii_N_embedding. split_and!; [done|done|apply ascii_lt].
    + intros (-> & H & Hb). rewrite Hr in H. injection H as ->. by rewrite N_ascii_embedding.
  - split; [done|]. intros (-> & H & _). exfalso. unfold rest in H.
    apply lookup_ge_None_1 in E. rewrite drop_ge in H by done. done.
Qed.
Lemma take_ok n d l d' : inside d → Decoder.take n d = Ok (l, d') ↔
  lenN l = n ∧ d' = advance n d ∧ rest d = l ++ rest d'.
Proof.
  intros Hi. pose proof (length_rest d Hi) as Hl. unfold Decoder.take, checked_add.
  assert (Decoder.input d = firstn (N.to_nat (Decoder.at_ d)) (Decoder.input d) ++ rest d) as Hsplit by (symmetry; apply take_drop).
  fold (rest d). change (firstn (N.to_nat n) (rest d)) with (take (N.to_nat n) (rest d)).
  assert (rest (advance n d) = drop (N.to_nat n) (rest d)) as Hd.
  { unfold rest, advance. cbn [Decoder.at_ Decoder.input Decoder.moved_to]. rewrite drop_drop. f_equal. lia. }
  split.
  - destruct (_ <=? _)%N eqn:E1; [|done]. destruct (_ <? _)%N eqn:E2; [done|]. apply N.ltb_ge in E2.
    intros [= <- <-]. fold (advance n d). destruct Hi. split_and!; [|done|by rewrite Hd, take_drop].
    unfold lenN in *. rewrite length_take. lia.
  - intros (<- & -> & H). rewrite H, lenN_app in Hl. destruct Hi as [Ha Hw].
    destruct (_ <=? _)%N eqn:E1; [|apply N.leb_gt in E1; change usize_max with u64_max in E1; lia].
    destruct (_ <? _)%N eqn:E2; [apply N.ltb_lt in E2; lia|].
    rewrite H. do 2 f_equal. unfold lenN. rewrite Nat2N.id. by rewrite take_app_length.
Qed.

Lemma advance_0 d : advance 0 d = d.
Proof. unfold advance, Decoder.moved_to. rewrite N.add_0_r. by destruct d. Qed.
Lemma info_lt a : (info a < 28)%N.
Proof. unfold info. destruct (a <=? 23)%N eqn:E; [apply N.leb_le in E; lia|]. by repeat destruct (_ <=? _)%N. Qed.
(** An argument is announced in its shortest form, and in no other. *)
Definition wide_head (len minimum i : N) : Prop :=
  (∀ l, lenN l = len → (minimum ≤ from_be_bytes l)%N →
    info (from_be_bytes l) = i ∧ extra (from_be_bytes l) = l ∧ (from_be_bytes l ≤ u64_max)%N)
  ∧ (∀ a, info a = i → (a ≤ u64_max)%N → lenN (extra a) = len ∧ from_be_bytes (extra a) = a ∧ (minimum ≤ a)%N).
Ltac wide_read := intros l Hl Hmin; pose proof (from_be_bytes_lt l) as Hlt; pose proof (to_from_be_bytes l) as Hto;
  assert (length l = N.to_nat (lenN l)) as Hlen by (unfold lenN; lia); rewrite Hl in Hlt, Hlen; cbn in Hlt, Hlen;
  rewrite Hlen in Hto; revert Hto Hlt Hmin; generalize (from_be_bytes l) as n; intros n Hto Hlt Hmin;
  unfold info, extra; change u64_max with 18446744073709551615%N; decide_leb; split_and!; [done|done|lia].
Ltac wide_written := intros a Hi Ha; change u64_max with 18446744073709551615%N in Ha; revert Hi; unfold info, extra;
  decide_leb; intros _; unfold lenN; rewrite Encoding.to_be_bytes_length, from_to_be_bytes by (cbn; lia); split_and!; [done|done|lia].
Lemma wide_heads : wide_head 2 0x100 25 ∧ wide_head 4 0x10000 26 ∧ wide_head 8 0x100000000 27.
Proof. split_and!; split; first [wide_read|wide_written]. Qed.
Definition reads_argument d (a : N) d' : Prop :=
  (a ≤ u64_max)%N ∧ d' = advance (lenN (extra a)) d ∧ rest d = extra a ++ rest d'.
Lemma wide_argument len minimum i at_ d a d' : wide_head len minimum i → inside d →
  (raw ← Decoder.take len d;
   if (from_be_bytes raw.1 <? minimum)%N
   then Err (CanonicalError.NotCanonical at_ "an integer argument not written in its shortest form")
   else Ok (from_be_bytes raw.1, raw.2)) = Ok (a, d') ↔ info a = i ∧ reads_argument d a d'.
Proof.
  intros [Hread Hwritten] Hi. rewrite result_bind_ok. split.
  - intros ([l d1] & Ht & H). apply take_ok in Ht as (Hl & -> & Hr); [|done]. cbn [fst snd] in H.
    destruct (_ <? _)%N eqn:E; [done|]. apply N.ltb_ge in E. injection H as <- <-.
    destruct (Hread l Hl E) as (Hinfo & Hextra & Hle). unfold reads_argument. rewrite Hextra, Hl. done.
  - intros (Hinfo & Hle & -> & Hr). destruct (Hwritten a Hinfo Hle) as (Hlen & Hfrom & Hmin).
    exists (extra a, advance (lenN (extra a)) d). split; [apply take_ok; [done|]; by rewrite <-Hlen|]. cbn [fst snd]. rewrite Hfrom.
    destruct (_ <? _)%N eqn:E; [apply N.ltb_lt in E; lia|done].
Qed.
Lemma argument_ok i at_ d a d' : inside d →
  Decoder.argument i at_ d = Ok (a, d') ↔ i = info a ∧ reads_argument d a d'.
Proof.
  intros Hi. destruct wide_heads as (H25 & H26 & H27). unfold Decoder.argument.
  destruct (i <=? 23)%N eqn:E23.
  { apply N.leb_le in E23. split.
    - intros [= <- <-]. unfold reads_argument, info, extra. change u64_max with 18446744073709551615%N.
      decide_leb. change (lenN []) with 0%N. rewrite advance_0. split_and!; [done|lia|done|done].
    - intros (-> & _ & -> & _). unfold info, extra in *. destruct (a <=? 23)%N eqn:E; [by rewrite advance_0|].
      revert E23 E. clear. decide_leb. }
  apply N.leb_gt in E23. destruct (i =? 24)%N eqn:E24.
  { apply N.eqb_eq in E24 as ->. rewrite result_bind_ok. split.
    - intros ([b d1] & Hb & H). apply byte_ok in Hb as (-> & Hr & Hb); [|done]. cbn [fst snd] in H.
      destruct (_ <? _)%N eqn:E; [done|]. apply N.ltb_ge in E. injection H as <- <-.
      unfold reads_argument, info, extra. change u64_max with 18446744073709551615%N.
      decide_leb. split_and!; [done|lia|done|done].
    - intros (Hinfo & Hle & -> & Hr). exists (a, advance (lenN (extra a)) d).
      assert (extra a = [ascii_of_N a] ∧ (24 ≤ a < 256)%N) as [Hx Ha].
      { revert Hinfo. unfold info, extra. decide_leb; intros ?; try lia. split; [done|lia]. }
      rewrite Hx in *. split; [apply (byte_ok d a _ Hi); split_and!; [done|done|lia]|]. cbn [fst].
      destruct (_ <? _)%N eqn:E; [apply N.ltb_lt in E; lia|done]. }
  apply N.eqb_neq in E24. destruct (i =? 25)%N eqn:E25.
  { apply N.eqb_eq in E25 as ->. rewrite (wide_argument _ _ _ at_ d a d' H25 Hi). naive_solver. }
  apply N.eqb_neq in E25. destruct (i =? 26)%N eqn:E26.
  { apply N.eqb_eq in E26 as ->. rewrite (wide_argument _ _ _ at_ d a d' H26 Hi). naive_solver. }
  apply N.eqb_neq in E26. destruct (i =? 27)%N eqn:E27.
  { apply N.eqb_eq in E27 as ->. rewrite (wide_argument _ _ _ at_ d a d' H27 Hi). naive_solver. }
  apply N.eqb_neq in E27. pose proof (info_lt a).
  assert (∀ x, info x = i → (x ≤ 23)%N ∨ i = 24%N ∨ i = 25%N ∨ i = 26%N ∨ i = 27%N) as Hinfo.
  { intros x <-. unfold info. decide_leb; auto. }
  destruct (i =? 31)%N; (split; [done|]; intros (-> & _); exfalso; destruct (Hinfo a eq_refl) as [Ha|?]; [|lia]);
    revert E23; unfold info; decide_leb.
Qed.

Lemma count_argument i at_ p d n d' : Decoder.count i at_ p d = Ok (n, d') → Decoder.argument i at_ d = Ok (n, d').
Proof.
  unfold Decoder.count. rewrite result_bind_ok. intros (a & Ha & H). rewrite Ha.
  destruct (_ <? _)%N; [done|]. destruct (_ <? _)%N; [done|]. exact H.
Qed.
Lemma count_ok i at_ p d n d' : Decoder.argument i at_ d = Ok (n, d') → inside d' → Decoder.input d' = Decoder.input d →
  (n * p ≤ lenN (rest d'))%N → (n ≤ Decoder.budget d')%N → Decoder.count i at_ p d = Ok (n, d').
Proof.
  intros Ha Hi Hin Hp Hb. unfold Decoder.count. rewrite Ha. cbn [mbind result_bind fst snd].
  rewrite length_rest in Hp by done.
  destruct (_ <? _)%N eqn:E1.
  { apply N.ltb_lt in E1. unfold saturating_mul in E1. rewrite Hin in Hp. lia. }
  destruct (_ <? n)%N eqn:E2; [apply N.ltb_lt in E2; lia|done].
Qed.

(** ** Whatever the decoder accepts is the encoding of what it returns *)
Definition reads d (l : bytes) d' : Prop :=
  inside d' ∧ Decoder.input d' = Decoder.input d ∧ rest d = l ++ rest d'.
Lemma reads_advance d l d' : inside d → d' = advance (lenN l) d → rest d = l ++ rest d' → reads d l d'.
Proof. intros Hi -> Hr. split_and!; [by eapply inside_advance|done|done]. Qed.
Lemma reads_trans d1 d2 d3 l k : reads d1 l d2 → reads d2 k d3 → reads d1 (l ++ k) d3.
Proof. intros (H1 & H2 & H3) (H4 & H5 & H6). split_and!; [done|congruence|by rewrite H3, H6, app_assoc]. Qed.
Lemma reads_nil d : inside d → reads d [] d.
Proof. done. Qed.

Definition sound_reader (value : Decoder.t → result CanonicalError.t (CanonicalValue.t * Decoder.t)) (deeper : nat) : Prop :=
  ∀ d v d', inside d → value d = Ok (v, d') → reads d (encoding v) d' ∧ nests deeper v = true ∧ canonical v = true.
Lemma items_sound value deeper : sound_reader value deeper → ∀ n d l d', inside d → Decoder.items value n d = Ok (l, d') →
  length l = n ∧ reads d (l ≫= encoding) d' ∧ forallb (nests deeper) l = true ∧ forallb canonical l = true.
Proof.
  intros Hv n. induction n as [|n IH]; intros d l d' Hi H; cbn [Decoder.items] in H.
  - injection H as <- <-. by split_and!.
  - apply result_bind_ok in H as ([item d1] & Hitem & H). apply result_bind_ok in H as ([l1 d2] & Hl & [= <- <-]).
    destruct (Hv _ _ _ Hi Hitem) as (Hr & Hn & Hc). destruct (IH d1 l1 d2 (proj1 Hr) Hl) as (<- & Hr' & Hn' & Hc').
    cbn [length mbind list_bind forallb]. rewrite Hn, Hc, Hn', Hc'. split_and!; try done. by eapply reads_trans.
Qed.
Lemma check_order_ok previous at_ key : Decoder.check_order previous at_ key = Ok () ↔
  match previous with Some previous => cmp_gtb (encode_key key) previous | None => true end = true.
Proof. unfold Decoder.check_order, cmp_gtb. destruct previous as [p|]; [|done]. by destruct (cmp (encode_key key) p). Qed.
Lemma entries_sound value deeper : (deeper ≤ S (N.to_nat usize_max)) → sound_reader value deeper → ∀ n previous d l d', inside d →
  Decoder.entries value n previous d = Ok (l, d') →
  length l = n ∧ reads d (l ≫= λ e, encoding e.1 ++ encoding e.2) d'
  ∧ forallb (λ e, nests deeper e.1 && nests deeper e.2) l = true
  ∧ forallb (λ e, canonical e.1 && canonical e.2) l = true ∧ ascending previous (encoding ∘ fst <$> l) = true.
Proof.
  intros Hdeep Hv n. induction n as [|n IH]; intros previous d l d' Hi H; cbn [Decoder.entries] in H.
  - injection H as <- <-. by split_and!.
  - apply result_bind_ok in H as ([key d1] & Hkey & H). apply result_bind_ok in H as ([] & Ho & H).
    apply result_bind_ok in H as ([item d2] & Hitem & H). apply result_bind_ok in H as ([l1 d3] & Hl & [= <- <-]).
    destruct (Hv _ _ _ Hi Hkey) as (Hr & Hn & Hc). destruct (Hv _ _ _ (proj1 Hr) Hitem) as (Hr' & Hn' & Hc').
    rewrite encode_key_encoding in Hl by (by eapply nests_le).
    destruct (IH _ d2 l1 d3 (proj1 Hr') Hl) as (<- & Hr2 & Hn2 & Hc2 & Ha).
    apply check_order_ok in Ho. rewrite encode_key_encoding in Ho by (by eapply nests_le).
    cbn [length mbind list_bind forallb fmap list_fmap ascending fst snd compose]. rewrite Hn, Hc, Hn', Hc', Hn2, Hc2.
    split_and!; try done; [|by rewrite Ho].
    rewrite <-app_assoc. eapply reads_trans; [done|]. by eapply reads_trans.
Qed.

Lemma argument_reads i at_ d a d' : inside d → Decoder.argument i at_ d = Ok (a, d') →
  i = info a ∧ (a ≤ u64_max)%N ∧ reads d (extra a) d'.
Proof.
  intros Hi H. apply argument_ok in H as (-> & Hle & Hd & Hr); [|done]. split_and!; [done|done|by apply reads_advance].
Qed.
Lemma take_reads n d l d' : inside d → Decoder.take n d = Ok (l, d') → lenN l = n ∧ reads d l d'.
Proof. intros Hi H. apply take_ok in H as (<- & Hd & Hr); [|done]. split; [done|by apply reads_advance]. Qed.
Lemma negative_ok at_ a v : Decoder.negative at_ a = Ok v →
  v = CanonicalValue.NInt (- Z.of_N (a + 1)) ∧ (a + 1 ≤ 2 ^ 63)%N.
Proof.
  unfold Decoder.negative, checked_add. change (N.shiftl 1 63) with (2 ^ 63)%N.
  destruct (_ <=? u64_max)%N; [|done]. destruct (_ <=? _)%N eqn:E; [|done]. apply N.leb_le in E. by intros [= <-].
Qed.
Lemma float_ok at_ l v : lenN l = 8%N → Decoder.float at_ l = Ok v →
  ∃ x, v = CanonicalValue.F64 x ∧ canonical_float x = true ∧ to_be_bytes 8 (f64_to_bits (FiniteF64.get x)) = l.
Proof.
  intros Hl. unfold Decoder.float. set (n := from_be_bytes l).
  destruct (is_sign_negative (f64_from_bits n) && F64.eqb (f64_from_bits n) F64.zero) eqn:Hz; [done|].
  destruct (FiniteF64.new (f64_from_bits n)) as [x|] eqn:Hx; [|done]. intros [= <-].
  apply finite_new in Hx as [Hf Hx]. specialize (Hx Hz) as ->. exists (FiniteF64.mk (f64_from_bits n)).
  assert (canonical_float (FiniteF64.mk (f64_from_bits n)) = true) as Hc.
  { unfold canonical_float, FiniteF64.get. pose proof (f64_from_bits_bounded n) as Hb.
    destruct (f64_from_bits n) as [[]| | |s m e]; try done. }
  split_and!; [done|done|]. cbn [FiniteF64.get]. rewrite f64_from_to_bits; [|subst n; pose proof (from_be_bytes_lt l) as H; by rewrite Hl in H|done].
  subst n. rewrite <-(to_from_be_bytes l) at 2. f_equal. unfold lenN in Hl. lia.
Qed.

Ltac major_is H := match type of H with context [if (?m =? ?c)%N then _ else _] =>
  let E := fresh "Hmajor" in destruct (m =? c)%N eqn:E; [apply N.eqb_eq in E; subst m|clear E] end.
Lemma body_sound value deeper m i at_ d v d' : deeper ≤ S (N.to_nat usize_max) → sound_reader value deeper → inside d →
  (i < 32)%N → Decoder.body value m i at_ d = Ok (v, d') →
  (∃ l, encoding v = ascii_of_N (initial m i) :: l ∧ reads d l d') ∧ nests (S deeper) v = true ∧ canonical v = true.
Proof.
  intros Hdeep Hv Hi Hlt H. unfold Decoder.body in H.
  major_is H.
  { apply result_bind_ok in H as ([a d1] & Ha & [= <- <-]). apply argument_reads in Ha as (-> & Hle & Hr); [|done].
    split_and!; [by exists (extra a)|done|]. cbn [canonical]. by apply N.leb_le. }
  major_is H.
  { apply result_bind_ok in H as ([a d1] & Ha & H). apply result_bind_ok in H as (v1 & Hn & [= <- <-]).
    apply argument_reads in Ha as (-> & _ & Hr); [|done]. apply negative_ok in Hn as [-> Hle].
    assert (Z.to_N (Z.abs (- Z.of_N (a + 1))) - 1 = a)%N as Hz by lia.
    split_and!; [exists (extra a); split; [cbn [encoding]; by rewrite Hz|done]|done|].
    cbn [canonical]. apply andb_true_iff. split; [apply Z.leb_le|apply Z.ltb_lt]; lia. }
  major_is H.
  { apply result_bind_ok in H as ([a d1] & Ha & H). apply result_bind_ok in H as ([l d2] & Hl & [= <- <-]).
    apply count_argument in Ha. apply argument_reads in Ha as (-> & _ & Hr); [|done].
    apply take_reads in Hl as [<- Hr']; [|apply Hr]. split_and!; [|done|done].
    exists (extra (lenN l) ++ l). split; [done|by eapply reads_trans]. }
  major_is H.
  { apply result_bind_ok in H as ([a d1] & Ha & H). apply result_bind_ok in H as ([l d2] & Hl & H).
    destruct (is_utf8 l) eqn:Hu; [|done]. injection H as <- <-.
    apply count_argument in Ha. apply argument_reads in Ha as (-> & _ & Hr); [|done].
    apply take_reads in Hl as [<- Hr']; [|apply Hr]. cbn [canonical encoding]. unfold str_len, bytes_of.
    rewrite String.list_ascii_of_string_of_list_ascii. split_and!; [|done|done].
    exists (extra (lenN l) ++ l). split; [done|by eapply reads_trans]. }
  major_is H.
  { apply result_bind_ok in H as ([a d1] & Ha & H). apply result_bind_ok in H as ([l d2] & Hl & [= <- <-]).
    apply count_argument in Ha. apply argument_reads in Ha as (-> & _ & Hr); [|done].
    apply (items_sound _ _ Hv) in Hl as (Hlen & Hr' & Hn & Hc); [|apply Hr].
    assert (lenN l = a) as <- by (unfold lenN; lia). split_and!; [|done|done].
    exists (extra (lenN l) ++ (l ≫= encoding)). split; [done|by eapply reads_trans]. }
  major_is H.
  { apply result_bind_ok in H as ([a d1] & Ha & H). apply result_bind_ok in H as ([l d2] & Hl & [= <- <-]).
    apply count_argument in Ha. apply argument_reads in Ha as (-> & _ & Hr); [|done].
    apply (entries_sound _ _ Hdeep Hv) in Hl as (Hlen & Hr' & Hn & Hc & Ho); [|apply Hr].
    assert (lenN l = a) as <- by (unfold lenN; lia). split_and!; [|done|].
    - exists (extra (lenN l) ++ (l ≫= λ e, encoding e.1 ++ encoding e.2)). split; [done|by eapply reads_trans].
    - cbn [canonical]. by rewrite Hc. }
  major_is H; [|done].
  major_is H; [injection H as <- <-; split_and!; [by exists []|done|done]|].
  major_is H; [injection H as <- <-; split_and!; [by exists []|done|done]|].
  major_is H; [done|]. destruct (_ || _); [done|]. major_is H; [|done].
  apply result_bind_ok in H as ([l d1] & Hl & H). apply result_bind_ok in H as (v1 & Hf & [= <- <-]).
  apply take_reads in Hl as [Hlen Hr]; [|done]. apply float_ok in Hf as (x & -> & Hc & Hb); [|done].
  split_and!; [|done|done]. exists l. split; [|done]. cbn [encoding]. by rewrite Hb.
Qed.
Lemma value_sound n : n ≤ S (S (N.to_nat usize_max)) → sound_reader (Decoder.value n) n.
Proof.
  induction n as [|n IH]; intros Hle d v d' Hi H; [done|]. cbn [Decoder.value] in H.
  apply result_bind_ok in H as (d1 & Hs & H).
  assert (Decoder.input d1 = Decoder.input d ∧ Decoder.at_ d1 = Decoder.at_ d) as [Hin Hat].
  { unfold Decoder.spend in Hs. destruct (_ =? _)%N; [done|]. by injection Hs as <-. }
  assert (inside d1) as Hi1 by (destruct Hi; split; by rewrite ?Hin, ?Hat).
  apply result_bind_ok in H as ([b d2] & Hb & H). apply byte_ok in Hb as (Hd2 & Hr & Hb); [|done].
  assert (reads d1 [ascii_of_N b] d2) as Hrd by (by apply reads_advance).
  destruct (initial_of_byte b Hb) as (Hinit & Hm & Hx).
  apply (body_sound _ n) in H as ((l & Hl & Hr') & Hn & Hc); [|lia|apply IH; lia|apply Hrd|done].
  rewrite <-Hinit in Hl. split_and!; [|done|done]. rewrite Hl. change (ascii_of_N b :: l) with ([ascii_of_N b] ++ l).
  destruct (reads_trans _ _ _ _ _ Hrd Hr') as (H1 & H2 & H3). split_and!; [done|congruence|].
  rewrite <-H3. unfold rest. by rewrite Hin, Hat.
Qed.

(** ** The decoder reads every encoding

    as long as its budget of values covers the bytes that are left. *)
Record ready (c : bytes) d r : Prop := {
  ready_inside : inside d;
  ready_input : Decoder.input d = c;
  ready_rest : rest d = r;
  ready_budget : (lenN r ≤ Decoder.budget d)%N
}.
Lemma ready_advance c d l r : ready c d (l ++ r) → ready c (advance (lenN l) d) r.
Proof.
  intros [Hi Hc Hr Hb]. rewrite lenN_app in Hb. split; [by eapply inside_advance|done|by apply decoder_rest_advance|].
  cbn [advance Decoder.moved_to Decoder.budget]. lia.
Qed.
Lemma ready_argument c at_ d a r : ready c d (extra a ++ r) → (a ≤ u64_max)%N →
  Decoder.argument (info a) at_ d = Ok (a, advance (lenN (extra a)) d) ∧ ready c (advance (lenN (extra a)) d) r.
Proof.
  intros H Ha. pose proof (ready_advance _ _ _ _ H) as H'. split; [|done]. destruct H as [Hi Hc Hr Hb], H' as [_ _ Hr' _].
  apply argument_ok; [done|]. split; [done|]. split_and!; [done|done|]. by rewrite Hr, Hr'.
Qed.
Lemma ready_count c at_ d a p r : ready c d (extra a ++ r) → (a * p ≤ lenN r)%N → (a ≤ lenN r)%N →
  Decoder.count (info a) at_ p d = Ok (a, advance (lenN (extra a)) d) ∧ ready c (advance (lenN (extra a)) d) r.
Proof.
  intros H Hp Ha.
  assert (lenN r ≤ u64_max)%N as Hw.
  { destruct H as [Hi Hc Hr Hb]. pose proof (length_rest d Hi) as Hl. rewrite Hr, lenN_app in Hl. destruct Hi. lia. }
  destruct (ready_argument _ at_ _ _ _ H ltac:(lia)) as [Harg H']. split; [|done].
  destruct H' as [Hi' Hc' Hr' Hb']. apply count_ok; [done|done|done|by rewrite Hr'|lia].
Qed.
Lemma ready_take c d l r : ready c d (l ++ r) → Decoder.take (lenN l) d = Ok (l, advance (lenN l) d) ∧ ready c (advance (lenN l) d) r.
Proof.
  intros H. pose proof (ready_advance _ _ _ _ H) as H'. split; [|done]. destruct H as [Hi Hc Hr Hb], H' as [_ _ Hr' _].
  apply take_ok; [done|]. split_and!; [done|done|]. by rewrite Hr, Hr'.
Qed.

Definition complete_reader (c : bytes) (value : Decoder.t → result CanonicalError.t (CanonicalValue.t * Decoder.t)) (v : CanonicalValue.t) : Prop :=
  ∀ d r, ready c d (encoding v ++ r) → ∃ d', value d = Ok (v, d') ∧ ready c d' r.
Lemma items_complete c value l : Forall (complete_reader c value) l → ∀ d r, ready c d ((l ≫= encoding) ++ r) →
  ∃ d', Decoder.items value (length l) d = Ok (l, d') ∧ ready c d' r.
Proof.
  induction 1 as [|v l Hv _ IH]; intros d r Hd; [by exists d|].
  cbn [mbind list_bind] in Hd. rewrite <-app_assoc in Hd. destruct (Hv _ _ Hd) as (d1 & Hd1 & Hr1).
  destruct (IH _ _ Hr1) as (d2 & Hd2 & Hr2). exists d2. split; [|done]. cbn [length Decoder.items].
  rewrite Hd1. cbn [mbind result_bind]. by rewrite Hd2.
Qed.
Lemma entries_complete c value l : Forall (λ e, complete_reader c value e.1 ∧ complete_reader c value e.2 ∧ encode_key e.1 = encoding e.1) l →
  ∀ previous d r, ascending previous (encoding ∘ fst <$> l) = true →
  ready c d ((l ≫= λ e, encoding e.1 ++ encoding e.2) ++ r) →
  ∃ d', Decoder.entries value (length l) previous d = Ok (l, d') ∧ ready c d' r.
Proof.
  induction 1 as [|[k v] l (Hk & Hv & He) _ IH]; intros previous d r Ha Hd; [by exists d|]. cbn [fst snd] in *.
  cbn [mbind list_bind fst snd] in Hd. rewrite <-!app_assoc in Hd. destruct (Hk _ _ Hd) as (d1 & Hd1 & Hr1).
  destruct (Hv _ _ Hr1) as (d2 & Hd2 & Hr2). cbn [fmap list_fmap ascending compose fst] in Ha.
  apply andb_true_iff in Ha as [Ho Ha]. destruct (IH _ _ _ Ha Hr2) as (d3 & Hd3 & Hr3). exists d3. split; [|done].
  cbn [length Decoder.entries]. rewrite Hd1. cbn [mbind result_bind].
  rewrite (proj2 (check_order_ok previous (Decoder.at_ d) k)) by (by rewrite He). cbn [mbind result_bind].
  rewrite Hd2. cbn [mbind result_bind]. rewrite He, Hd3. done.
Qed.
End decoder.

Lemma encoding_nonempty v : (1 ≤ lenN (encoding v))%N.
Proof. destruct v; cbn [encoding]; unfold head; rewrite ?lenN_app, ?lenN_cons; lia. Qed.
Lemma length_items (items : list CanonicalValue.t) : (lenN items ≤ lenN (items ≫= encoding))%N.
Proof.
  induction items as [|v items IH]; [done|]. rewrite bind_cons, lenN_app, lenN_cons.
  pose proof (encoding_nonempty v).  lia.
Qed.
Lemma length_entries (entries : list (CanonicalValue.t * CanonicalValue.t)) :
  (lenN entries * 2 ≤ lenN (entries ≫= λ e, encoding e.1 ++ encoding e.2))%N.
Proof.
  induction entries as [|e entries IH]; [done|]. rewrite bind_cons, !lenN_app, lenN_cons.
  pose proof (encoding_nonempty e.1). pose proof (encoding_nonempty e.2).  lia.
Qed.

Section complete.
Implicit Types (d : Decoder.t) (c r : bytes).

Lemma float_complete at_ x : canonical_float x = true →
  Decoder.float at_ (to_be_bytes 8 (f64_to_bits (FiniteF64.get x))) = Ok (CanonicalValue.F64 x).
Proof.
  intros Hc. destruct (f64_to_from_bits x Hc) as [Hf Hlt]. unfold Decoder.float.
  rewrite from_to_be_bytes by exact Hlt. rewrite Hf. destruct x as [x]. unfold canonical_float, FiniteF64.get in *.
  destruct x as [[]| | |[] m e]; try done.
Qed.
Lemma negative_complete at_ z : (- 2 ^ 63 <=? z)%Z && (z <? 0)%Z = true →
  Decoder.negative at_ (Z.to_N (Z.abs z) - 1) = Ok (CanonicalValue.NInt z).
Proof.
  intros [Hl Hu]%andb_true_iff. apply Z.leb_le in Hl. apply Z.ltb_lt in Hu.
  unfold Decoder.negative, checked_add. change (N.shiftl 1 63) with (2 ^ 63)%N. change u64_max with (2 ^ 64 - 1)%N.
  rewrite (proj2 (N.leb_le _ (2 ^ 64 - 1))) by lia. rewrite (proj2 (N.leb_le _ (2 ^ 63))) by lia.
  assert (- Z.of_N (Z.to_N (Z.abs z) - 1 + 1) = z)%Z as -> by lia. done.
Qed.
(** Read after its head byte. *)
Definition complete_body c value (v : CanonicalValue.t) : Prop :=
  ∀ at_ d r, ready c d (tail (encoding v) ++ r) →
  ∃ m i d', encoding v = ascii_of_N (initial m i) :: tail (encoding v) ∧ (m < 8)%N ∧ (i < 32)%N
    ∧ Decoder.body value m i at_ d = Ok (v, d') ∧ ready c d' r.
Lemma body_complete c value deeper v : deeper ≤ S (N.to_nat usize_max) →
  (∀ v, canonical v = true → nests deeper v = true → complete_reader c value v) →
  (lenN c ≤ u64_max)%N → canonical v = true → nests (S deeper) v = true → complete_body c value v.
Proof.
  intros Hdeep Hv Hw Hc Hn at_ d r Hd. pose proof (info_lt) as Hinfo.
  destruct v as [b|n|z|x|l|s|items|entries]; cbn [encoding canonical nests] in *; unfold head in Hd; cbn [app tail] in Hd;
    try rewrite <-app_assoc in Hd.
  - exists MAJOR_SIMPLE, (if b then 21 else 20)%N, d. split_and!; [done|done|by destruct b|by destruct b|done].
  - apply N.leb_le in Hc. destruct (ready_argument _ at_ _ _ _ Hd Hc) as [Ha Hr].
    eexists MAJOR_UINT, (info n), _. split_and!; [done|done|pose proof (Hinfo n); lia| |exact Hr]. cbn. by rewrite Ha.
  - destruct (ready_argument _ at_ _ _ _ Hd) as [Ha Hr].
    { apply andb_true_iff in Hc as [Hl Hu]. apply Z.leb_le in Hl. apply Z.ltb_lt in Hu. change u64_max with (2 ^ 64 - 1)%N. lia. }
    eexists MAJOR_NINT, (info _), _. split_and!; [done|done|pose proof (Hinfo (Z.to_N (Z.abs z) - 1)%N); lia| |exact Hr].
    cbn. rewrite Ha. cbn. by rewrite negative_complete.
  - assert (lenN (to_be_bytes 8 (f64_to_bits (FiniteF64.get x))) = 8%N) as Hlen.
    { unfold lenN. by rewrite Encoding.to_be_bytes_length. }
    destruct (ready_take _ _ _ _ Hd) as [Ht Hr]. rewrite Hlen in Ht.
    eexists MAJOR_SIMPLE, 27%N, _. split_and!; [done|done|done| |exact Hr].
    unfold Decoder.body. cbn [N.eqb Pos.eqb MAJOR_UINT MAJOR_NINT MAJOR_BYTES MAJOR_TEXT MAJOR_ARRAY MAJOR_MAP MAJOR_SIMPLE orb].
    rewrite Ht. cbn [mbind result_bind]. by rewrite float_complete, Hlen.
  - destruct (ready_count _ at_ _ _ 1 _ Hd) as [Ha Hr]; [rewrite lenN_app; lia|rewrite lenN_app; lia|].
    destruct (ready_take _ _ _ _ Hr) as [Ht Hr'].
    eexists MAJOR_BYTES, (info _), _. split_and!; [done|done|pose proof (Hinfo (lenN l)); lia| |exact Hr'].
    cbn. rewrite Ha. cbn. by rewrite Ht.
  - unfold str_len in *.
    destruct (ready_count _ at_ _ _ 1 _ Hd) as [Ha Hr]; [rewrite lenN_app; lia|rewrite lenN_app; lia|].
    destruct (ready_take _ _ _ _ Hr) as [Ht Hr'].
    eexists MAJOR_TEXT, (info _), _. split_and!; [done|done|pose proof (Hinfo (lenN (bytes_of s))); lia| |exact Hr'].
    cbn. rewrite Ha. cbn. rewrite Ht. cbn. rewrite Hc. unfold bytes_of. by rewrite String.string_of_list_ascii_of_string.
  - pose proof (length_items items).
    destruct (ready_count _ at_ _ _ 1 _ Hd) as [Ha Hr]; [rewrite lenN_app; lia|rewrite lenN_app; lia|].
    destruct (items_complete c value items) with (d := advance (lenN (extra (lenN items))) d) (r := r) as (d' & Hd' & Hr'); [|done|].
    { apply Forall_forall. intros v Hin. apply list_elem_of_In in Hin. rewrite forallb_forall in Hc, Hn. auto. }
    eexists MAJOR_ARRAY, (info _), d'. split_and!; [done|done|pose proof (Hinfo (lenN items)); lia| |exact Hr'].
    cbn. rewrite Ha. cbn. unfold lenN at 1. rewrite Nat2N.id. by rewrite Hd'.
  - pose proof (length_entries entries). apply andb_true_iff in Hc as [Hc Ho].
    destruct (ready_count _ at_ _ _ 2 _ Hd) as [Ha Hr]; [rewrite lenN_app; lia|rewrite lenN_app; lia|].
    destruct (entries_complete c value entries) with (previous := @None bytes) (d := advance (lenN (extra (lenN entries))) d) (r := r)
      as (d' & Hd' & Hr'); [|done|done|].
    { apply Forall_forall. intros e Hin. apply list_elem_of_In in Hin. rewrite forallb_forall in Hc, Hn.
      apply Hc in Hin as Hce. apply Hn in Hin as Hne. apply andb_true_iff in Hce as [? ?], Hne as [? ?].
      split_and!; [by apply Hv|by apply Hv|]. apply encode_key_encoding. by eapply nests_le. }
    eexists MAJOR_MAP, (info _), d'. split_and!; [done|done|pose proof (Hinfo (lenN entries)); lia| |exact Hr'].
    cbn. rewrite Ha. cbn. unfold lenN at 1. rewrite Nat2N.id. by rewrite Hd'.
Qed.
Lemma value_complete c n v : n ≤ S (S (N.to_nat usize_max)) → (lenN c ≤ u64_max)%N →
  canonical v = true → nests n v = true → complete_reader c (Decoder.value n) v.
Proof.
  intros Hle Hw. revert v. induction n as [|n IH]; intros v Hc Hn d r Hd; [done|].
  assert (∃ b l, encoding v = b :: l) as (b & l & Hbl).
  { pose proof (encoding_nonempty v). destruct (encoding v) as [|b l]; [done|eauto]. }
  set (d1 := Decoder.mk (Decoder.input d) (Decoder.at_ d) (Decoder.budget d - 1) (Decoder.max_depth d)).
  destruct Hd as [Hi Hin Hr Hb]. rewrite Hbl in Hb. cbn [app] in Hb. rewrite lenN_cons in Hb.
  assert (inside d1) as Hi1 by (by destruct Hi).
  assert (rest d1 = [b] ++ (l ++ r)) as Hr1 by (change (rest d1) with (rest d); by rewrite Hr, Hbl).
  assert (Decoder.byte d1 = Ok (N_of_ascii b, advance 1 d1)) as Hbyte.
  { apply byte_ok; [done|]. rewrite ascii_N_embedding. pose proof (decoder_rest_advance d1 [b] _ Hr1) as Ha.
    change (lenN [b]) with 1%N in Ha. rewrite Ha. split_and!; [done|done|apply ascii_lt]. }
  assert (ready c (advance 1 d1) (l ++ r)) as Hready.
  { split; [by apply (inside_advance d1 [b] (l ++ r))|done|by apply (decoder_rest_advance d1 [b])|]. cbn. lia. }
  destruct (body_complete c (Decoder.value n) n v ltac:(lia) ltac:(intros; apply IH; [lia|done|done]) Hw Hc Hn (Decoder.at_ d1) (advance 1 d1) r)
    as (m & i & d' & He & Hm & Hi' & Hbody & Hready'); [by rewrite Hbl|].
  exists d'. split; [|done]. cbn [Decoder.value]. unfold Decoder.spend.
  destruct (Decoder.budget d =? 0)%N eqn:E0; [apply N.eqb_eq in E0; lia|]. cbn [mbind result_bind]. fold d1.
  rewrite Hbyte. cbn [mbind result_bind]. rewrite Hbl in He. cbn [tail] in He. injection He as ->.
  destruct (initial_fields m i Hm Hi') as (H1 & H2 & H3). rewrite N_ascii_embedding by done. by rewrite H1, H2.
Qed.
End complete.

(** What the width of a [u64] and of a [usize] makes of the bounds. *)
Record machine_limits (limits : Limits.t) : Prop := {
  machine_bytes : (Limits.max_manifest_bytes limits < u64_max)%N;
  machine_depth : (Limits.max_nesting_depth limits ≤ usize_max)%N
}.
Lemma decode_encoded v limits bs : machine_limits limits → canonical v = true →
  encode v limits = Ok bs → (lenN bs ≤ Limits.max_canonical_values limits)%N → decode bs limits = Ok v.
Proof.
  intros [Hb Hd] Hc He Hv. apply encode_ok in He as (-> & Hn & Hlen). unfold decode.
  change usize_max with u64_max in Hlen.
  destruct (_ <? _)%N eqn:E; [apply N.ltb_lt in E; lia|].
  set (d := Decoder.mk _ _ _ _).
  destruct (value_complete (encoding v) (levels limits) v ltac:(unfold levels; lia) ltac:(lia) Hc Hn d []) as (d' & Hval & [Hi Hin Hr _]).
  { rewrite app_nil_r. split; [split; cbn; lia|done|done|done]. }
  fold (levels limits). rewrite Hval. cbn [mbind result_bind].
  pose proof (length_rest d' Hi) as Hl. rewrite Hr, Hin in Hl. change (lenN []) with 0%N in Hl. destruct Hi as [Ha _]. rewrite Hin in Ha.
  destruct (_ =? _)%N eqn:Eat; [done|apply N.eqb_neq in Eat; lia].
Qed.
Lemma decode_sound v limits bs : machine_limits limits → decode bs limits = Ok v →
  encode v limits = Ok bs ∧ canonical v = true.
Proof.
  intros [Hb Hd] H. unfold decode in H. destruct (_ <? _)%N eqn:E; [done|]. apply N.ltb_ge in E.
  apply result_bind_ok in H as ([v' d'] & Hval & H). destruct (_ =? _)%N eqn:Eat; [|done]. apply N.eqb_eq in Eat.
  injection H as <-. fold (levels limits) in Hval.
  apply value_sound in Hval as ((Hi & Hin & Hr) & Hn & Hc); [|unfold levels; lia|split; cbn; lia].
  cbn [Decoder.input] in Hin. pose proof (length_rest d' Hi) as Hl. rewrite Hin in Hl.
  assert (rest d' = []) as Hnil by (apply length_zero_iff_nil; unfold lenN in *; lia).
  rewrite Hnil, app_nil_r in Hr. change (bs = encoding v') in Hr. split; [|done]. apply encode_ok. split_and!; [done|done|lia].
Qed.
