(* ===== verification/Recovered.v ===== *)
(** * A workload and its canonical form (crate [orishu-workload], canonical.rs)

    What every type of the manifest writes is what it reads back, and what it reads
    is what it would write; so a workload has one canonical form, and its digest
    commits to everything the manifest holds. *)

From Stdlib Require Import Ascii.
From Stdlib Require Import Floats.SpecFloat.
From stdpp Require Import base gmap strings list sorting.
From S2P Require Import Prelude Identity Binary64 Workload Cbor Canonical Codec.
From S2P Require Antientropy Encoding.

(** ** Maps with text keys *)
Definition text_key (s : string) : bytes := encoding (CanonicalValue.Text s).
Lemma extra_length_info a b : info a = info b → length (extra a) = length (extra b).
Proof.
  unfold info, extra. decide_leb; intros; by rewrite ?Encoding.to_be_bytes_length.
Qed.
#[export] Instance text_key_inj : Inj (=) (=) text_key.
Proof.
  intros s t H. unfold text_key in H. cbn [encoding] in H. unfold head in H. cbn [app] in H. injection H as H1 H2.
  assert (info (str_len s) = info (str_len t)) as Hi.
  { assert (N_of_ascii (ascii_of_N (initial MAJOR_TEXT (info (str_len s)))) = N_of_ascii (ascii_of_N (initial MAJOR_TEXT (info (str_len t))))) as H.
    { by rewrite H1. }
    destruct (initial_fields MAJOR_TEXT (info (str_len s))) as (_ & Hs & Hs'); [done|pose proof (info_lt (str_len s)); lia|].
    destruct (initial_fields MAJOR_TEXT (info (str_len t))) as (_ & Ht & Ht'); [done|pose proof (info_lt (str_len t)); lia|].
    rewrite !N_ascii_embedding in H by done. congruence. }
  apply app_inj_1 in H2 as [_ H2]; [|by apply extra_length_info]. by apply (inj bytes_of).
Qed.
Lemma encode_text_key s : encode_key (CanonicalValue.Text s) = text_key s.
Proof. apply encode_key_encoding. reflexivity. Qed.

(** The entries of a map, and the tree the encoder makes of a map. *)
Definition text_entry (e : string * CanonicalValue.t) : CanonicalValue.t * CanonicalValue.t := (CanonicalValue.Text e.1, e.2).
Definition by_key (l : list (string * CanonicalValue.t)) : list (bytes * CanonicalValue.t) := prod_map text_key id <$> l.
Definition keyed_entry (e : string * CanonicalValue.t) : bytes * (CanonicalValue.t * CanonicalValue.t) := (text_key e.1, text_entry e).
Definition tree_entries (M : gmap string CanonicalValue.t) : list (CanonicalValue.t * CanonicalValue.t) :=
  (merge_sort entry_le (keyed_entry <$> map_to_list M)).*2.
Definition tree (M : gmap string CanonicalValue.t) : CanonicalValue.t := CanonicalValue.Map (tree_entries M).

Lemma sorted_perm (l k : list (string * CanonicalValue.t)) : NoDup l.*1 → l ≡ₚ k →
  merge_sort entry_le (keyed_entry <$> l) = merge_sort entry_le (keyed_entry <$> k).
Proof.
  intros Hnd Hp. apply sorted_entries_eq; [apply StronglySorted_merge_sort; apply _..| |].
  - rewrite merge_sort_Permutation, <-list_fmap_compose.
    rewrite (list_fmap_compose fst text_key l : (fst ∘ keyed_entry <$> l) = text_key <$> l.*1).
    apply NoDup_fmap_2; [apply _|done].
  - by rewrite !merge_sort_Permutation, Hp.
Qed.
Lemma repeated_key_None keyed : StronglySorted entry_le keyed →
  CanonicalMap.repeated_key keyed = None ↔ NoDup keyed.*1.
Proof.
  induction 1 as [|a keyed Hs IH Hall]; [by split; [constructor|]|]. destruct keyed as [|b keyed]; cbn [CanonicalMap.repeated_key fmap list_fmap].
  - split; [|done]. intros _. constructor; [by apply not_elem_of_nil|constructor].
  - cbn [fmap list_fmap] in IH. destruct (bool_decide (a.1 = b.1)) eqn:E.
    + apply bool_decide_eq_true in E. split; [done|]. intros [Hn _]%NoDup_cons. destruct Hn. rewrite E. apply elem_of_cons. by left.
    + apply bool_decide_eq_false in E. rewrite IH, (NoDup_cons a.1). split; [|by intros [_ ?]]. intros Hnd. split; [|done].
      intros Hin. apply StronglySorted_inv in Hs as [_ Hb]. apply Forall_cons in Hall as [Hab Hall]. unfold entry_le in *.
      apply cmp_le_lt_or_eq in Hab as [Hlt|?]; [|done]. apply elem_of_cons in Hin as [?|Hin]; [done|].
      apply list_elem_of_fmap in Hin as (c & Hc & Hin). rewrite Forall_forall in Hb. specialize (Hb c Hin).
      rewrite <-Hc in Hb. apply Hb. by apply cmp_gt_lt.
Qed.
(** Distinct text keys make a map, the one of the finite map they describe. *)
Lemma new_texts (l : list (string * CanonicalValue.t)) : NoDup l.*1 →
  CanonicalMap.new (text_entry <$> l) = Ok (tree_entries (list_to_map l)).
Proof.
  intros Hnd. unfold CanonicalMap.new.
  assert (((λ entry : CanonicalValue.t * CanonicalValue.t, (encode_key entry.1, entry)) <$> (text_entry <$> l)) = keyed_entry <$> l) as ->.
  { rewrite <-list_fmap_compose. apply list_fmap_ext. intros i e _. unfold compose, keyed_entry, text_entry. cbn [fst]. by rewrite encode_text_key. }
  rewrite (proj2 (repeated_key_None _ (StronglySorted_merge_sort _ _))).
  - unfold tree_entries. by rewrite (sorted_perm l (map_to_list (list_to_map l))) by (by rewrite ?map_to_list_to_map).
  - rewrite merge_sort_Permutation, <-list_fmap_compose.
    rewrite (list_fmap_compose fst text_key l : (fst ∘ keyed_entry <$> l) = text_key <$> l.*1).
    apply NoDup_fmap_2; [apply _|done].
Qed.

Lemma ascending_sorted keys : ∀ p, ascending (Some p) keys = true ↔ StronglySorted (λ a b : bytes, a ≺ b) (p :: keys).
Proof.
  induction keys as [|k keys IH]; intros p; cbn [ascending].
  - split; [|done]. intros _. by repeat constructor.
  - rewrite andb_true_iff, IH, cmp_gtb_spec. split.
    + intros [Hpk Hs]. constructor; [done|]. constructor; [done|]. apply StronglySorted_inv in Hs as [_ Hall].
      eapply Forall_impl; [exact Hall|]. intros x Hx. by eapply cmp_lt_trans.
    + intros [Hs Hall]%StronglySorted_inv. apply Forall_cons in Hall as [Hpk _]. done.
Qed.
Lemma ascending_None keys : ascending None keys = true ↔ StronglySorted (λ a b : bytes, a ≺ b) keys.
Proof.
  destruct keys as [|k keys]; cbn [ascending]; [split; [constructor|done]|]. cbn [andb]. apply ascending_sorted.
Qed.
Lemma strict_sorted {V} (l : list (bytes * V)) :
  StronglySorted (λ a b : bytes, a ≺ b) l.*1 ↔ StronglySorted entry_le l ∧ NoDup l.*1.
Proof.
  induction l as [|e l IH]; [split; [intros _; split; constructor|constructor]|]. cbn [fmap list_fmap]. split.
  - intros [Hs Hall]%StronglySorted_inv. apply IH in Hs as [Hs Hnd]. rewrite Forall_fmap in Hall. split.
    + constructor; [done|]. eapply Forall_impl; [exact Hall|]. intros x Hx. unfold compose, entry_le in *. by rewrite Hx.
    + apply NoDup_cons. split; [|done]. intros Hin. apply list_elem_of_fmap in Hin as (x & Hx & Hin).
      rewrite Forall_forall in Hall. apply Hall in Hin. unfold compose in Hin. rewrite <-Hx in Hin. by apply cmp_lt_irrefl in Hin.
  - intros [[Hs Hall]%StronglySorted_inv [Hn Hnd]%NoDup_cons]. constructor; [by apply IH|]. rewrite Forall_fmap.
    rewrite Forall_forall in *. intros x Hin. unfold compose. specialize (Hall x Hin). unfold entry_le in Hall.
    apply cmp_le_lt_or_eq in Hall as [?|Heq]; [done|]. destruct Hn. rewrite Heq. by apply list_elem_of_fmap_2.
Qed.

Lemma insert_entries_texts path l : ∀ m,
  Fields.insert_entries path (text_entry <$> l) m = Ok (foldl (λ m e, <[e.1 := e.2]> m) m l).
Proof. induction l as [|[k v] l IH]; intros m; [done|]. cbn. by rewrite IH. Qed.
Lemma insert_entries_ok path es : ∀ m m', Fields.insert_entries path es m = Ok m' → ∃ l, es = text_entry <$> l.
Proof.
  induction es as [|[k v] es IH]; intros m m' H; [by exists []|]. cbn in H. destruct k; try done.
  apply IH in H as (l & ->). by exists ((value, v) :: l).
Qed.
Lemma tree_texts M : ∃ l, tree_entries M = text_entry <$> l ∧ l ≡ₚ map_to_list M ∧ NoDup l.*1
  ∧ StronglySorted (λ a b : bytes, a ≺ b) (text_key <$> l.*1).
Proof.
  pose proof (merge_sort_Permutation entry_le (keyed_entry <$> map_to_list M)) as Hp.
  apply (Permutation_map_inv keyed_entry) in Hp as (l & Hl & Hp). exists l.
  assert (keyed_entry <$> l = merge_sort entry_le (keyed_entry <$> map_to_list M)) as Hk by done.
  assert (NoDup l.*1) as Hnd by (rewrite <-Hp; apply NoDup_fst_map_to_list).
  split_and!; [unfold tree_entries; rewrite <-Hk, <-list_fmap_compose; by apply list_fmap_ext|by symmetry|done|].
  assert (text_key <$> l.*1 = (keyed_entry <$> l).*1) as -> by (by rewrite <-!list_fmap_compose).
  apply strict_sorted. split; [rewrite Hk; apply StronglySorted_merge_sort; apply _|].
  rewrite <-list_fmap_compose. rewrite (list_fmap_compose fst text_key l : (fst ∘ keyed_entry <$> l) = text_key <$> l.*1).
  apply NoDup_fmap_2; [apply _|done].
Qed.
(** Reading a map gives the finite map whose tree it is. *)
Lemma of_tree M path : Fields.of_ (tree M) path = Ok (Fields.mk path M).
Proof.
  destruct (tree_texts M) as (l & Hl & Hp & Hnd & _). unfold tree, Fields.of_. rewrite Hl, insert_entries_texts.
  cbn [mbind result_bind]. do 2 f_equal. rewrite foldl_insert_distinct, map_union_empty by done.
  rewrite (list_to_map_proper l (map_to_list M)) by done. apply list_to_map_to_list.
Qed.
Lemma of_canonical v path f : canonical v = true → Fields.of_ v path = Ok f → Fields.path f = path ∧ v = tree (Fields.entries f).
Proof.
  destruct v as [| | | | | | |es]; try done. intros Hc H. cbn [Fields.of_] in H.
  apply result_bind_ok in H as (M & HM & [= <-]). destruct (insert_entries_ok _ _ _ _ HM) as (l & ->).
  rewrite insert_entries_texts in HM. injection HM as <-. split; [done|]. cbn [Fields.entries canonical] in *.
  apply andb_true_iff in Hc as [_ Ha]. apply ascending_None in Ha.
  assert ((encoding ∘ fst <$> (text_entry <$> l)) = (keyed_entry <$> l).*1) as Hk by (by rewrite <-!list_fmap_compose).
  rewrite Hk in Ha. apply strict_sorted in Ha as [Hs Hnd].
  assert (NoDup l.*1) as Hnd'.
  { rewrite <-list_fmap_compose in Hnd. change ((fst ∘ keyed_entry) <$> l) with ((text_key ∘ fst) <$> l) in Hnd.
    rewrite list_fmap_compose in Hnd. by eapply NoDup_fmap_1. }
  rewrite foldl_insert_distinct, map_union_empty by done.
  unfold tree, tree_entries. rewrite <-(sorted_perm l) by (by rewrite ?map_to_list_to_map).
  f_equal. assert (merge_sort entry_le (keyed_entry <$> l) = keyed_entry <$> l) as ->; [|by rewrite <-list_fmap_compose].
  symmetry. apply sorted_entries_eq; [done|apply StronglySorted_merge_sort; apply _|done|by rewrite merge_sort_Permutation].
Qed.
Lemma canonical_tree M : canonical (tree M) = true ↔ map_Forall (λ k v, is_utf8 (bytes_of k) = true ∧ canonical v = true) M.
Proof.
  destruct (tree_texts M) as (l & Hl & Hp & Hnd & Hs). unfold tree. cbn [canonical]. rewrite Hl, andb_true_iff, forallb_forall.
  assert (ascending None (encoding ∘ fst <$> (text_entry <$> l)) = true) as ->.
  { apply ascending_None. assert (encoding ∘ fst <$> (text_entry <$> l) = text_key <$> l.*1) as -> by (by rewrite <-!list_fmap_compose). done. }
  split.
  - intros [H _] k v Hk. apply elem_of_map_to_list in Hk. rewrite <-Hp in Hk.
    specialize (H (text_entry (k, v)) ltac:(apply list_elem_of_In; by apply list_elem_of_fmap_2)).
    apply andb_true_iff in H. done.
  - intros H. split; [|done]. intros e Hin. apply list_elem_of_In, list_elem_of_fmap in Hin as ([k v] & -> & Hin).
    rewrite Hp in Hin. apply elem_of_map_to_list in Hin. destruct (H k v Hin) as [Hk Hv]. cbn [text_entry fst snd canonical].
    by rewrite Hk, Hv.
Qed.

(** ** What a type writes and reads

    [good] is what the type keeps of its values, [whole] that the value holds no
    empty collection where the encoder writes one out. *)
Record ValueCodec {A} (from : CanonicalValue.t → Path.t → result CanonicalError.t A) (to : A → result CanonicalError.t CanonicalValue.t)
    (good whole : A → bool) : Prop := {
  vc_total a : ∃ v, to a = Ok v;
  vc_canonical a v : good a = true → to a = Ok v → canonical v = true;
  vc_back a v p : good a = true → whole a = true → to a = Ok v → from v p = Ok a;
  vc_forth a v p : canonical v = true → from v p = Ok a → good a = true ∧ (whole a = true → to a = Ok v);
  vc_inj a b v : good a = true → good b = true → to a = Ok v → to b = Ok v → a = b;
  vc_whole a b v p : to a = Ok v → from v p = Ok b → whole a = true
}.
Definition consumed (k : string) (f : Fields.t) : Fields.t := Fields.mk (Fields.path f) (delete k (Fields.entries f)).
Definition canonical_option (o : option CanonicalValue.t) : Prop := match o with Some v => canonical v = true | None => True end.
Record FieldCodec {A} (k : string) (r : Fields.reader A) (w : A → result CanonicalError.t (option CanonicalValue.t))
    (good whole : A → bool) : Prop := {
  fc_total a : ∃ o, w a = Ok o;
  fc_canonical a o : good a = true → w a = Ok o → canonical_option o;
  fc_back a o f : good a = true → whole a = true → w a = Ok o → Fields.entries f !! k = o → r f = Ok (a, consumed k f);
  fc_forth a f f' : r f = Ok (a, f') → f' = consumed k f
    ∧ (canonical_option (Fields.entries f !! k) → good a = true ∧ (whole a = true → w a = Ok (Fields.entries f !! k)));
  fc_inj a b o : good a = true → good b = true → w a = Ok o → w b = Ok o → a = b;
  fc_whole a b o f f' : w a = Ok o → Fields.entries f !! k = o → r f = Ok (b, f') → whole a = true
}.
Arguments vc_total {A from to good whole}. Arguments vc_canonical {A from to good whole}. Arguments vc_back {A from to good whole}.
Arguments vc_forth {A from to good whole}. Arguments vc_inj {A from to good whole}. Arguments vc_whole {A from to good whole}.
Arguments fc_total {A k r w good whole}. Arguments fc_canonical {A k r w good whole}. Arguments fc_back {A k r w good whole}.
Arguments fc_forth {A k r w good whole}. Arguments fc_inj {A k r w good whole}. Arguments fc_whole {A k r w good whole}.

Section fields.
Context {A : Type} {from : CanonicalValue.t → Path.t → result CanonicalError.t A} {to : A → result CanonicalError.t CanonicalValue.t}.
Context {good whole : A → bool} (law : ValueCodec from to good whole).

Lemma required_reads k f : Fields.required_with from k f =
  (a ← match Fields.entries f !! k with
       | Some v => from v (Path.field (Fields.path f) k)
       | None => Err (CanonicalError.MissingField (Fields.path f) k) end;
   Ok (a, consumed k f)).
Proof. unfold Fields.required_with, Fields.remove, Fields.at_, mbind, Fields.reader_bind, result_bind. cbn. by destruct (_ !! k). Qed.
Lemma required_field k : FieldCodec k (Fields.required_with from k) (λ a, v ← to a; Ok (Some v)) good whole.
Proof.
  split.
  - intros a. destruct (vc_total law a) as [v Hv]. exists (Some v). by rewrite Hv.
  - intros a o Hg Hw. apply result_bind_ok in Hw as (v & Hv & [= <-]). by apply (vc_canonical law a).
  - intros a o f Hg Hw Ho Hk. apply result_bind_ok in Ho as (v & Hv & [= <-]). rewrite required_reads, Hk.
    by rewrite (vc_back law a v).
  - intros a f f' H. rewrite required_reads in H. apply result_bind_ok in H as (a' & H & [= <- <-]). split; [done|].
    destruct (Fields.entries f !! k) as [v|]; [|done]. intros Hc. destruct (vc_forth law _ _ _ Hc H) as [Hg Hw].
    split; [done|]. intros Hwhole. by rewrite (Hw Hwhole).
  - intros a b o Ha Hb H1 H2. apply result_bind_ok in H1 as (v & Hv & [= <-]). apply result_bind_ok in H2 as (v' & Hv' & [= ->]).
    by apply (vc_inj law a b v).
  - intros a b o f f' Ho Hk H. apply result_bind_ok in Ho as (v & Hv & [= <-]). rewrite required_reads, Hk in H.
    apply result_bind_ok in H as (a' & H & _). by eapply (vc_whole law).
Qed.

(** Collections. *)
Lemma try_map_ok {E B C} (g : B → result E C) l k : try_map g l = Ok k ↔ Forall2 (λ x y, g x = Ok y) l k.
Proof.
  revert k. induction l as [|x l IH]; intros k; cbn [try_map]; split.
  - intros [= <-]. constructor.
  - intros H. by apply Forall2_nil_inv_l in H as ->.
  - intros H. apply result_bind_ok in H as (y & Hy & H). apply result_bind_ok in H as (ys & Hys & [= <-]).
    constructor; [done|by apply IH].
  - intros (y & ys & Hy & Hys & ->)%Forall2_cons_inv_l. rewrite Hy. cbn [mbind result_bind].
    apply IH in Hys. by rewrite Hys.
Qed.
Lemma try_map_total (l : list A) : ∃ vs, try_map to l = Ok vs.
Proof.
  induction l as [|a l [vs IH]]; [by exists []|]. destruct (vc_total law a) as [v Hv]. exists (v :: vs). cbn [try_map]. by rewrite Hv, IH.
Qed.
Lemma items_from_ok path vs : ∀ i l, Fields.items_from from path i vs = Ok l → Forall2 (λ v a, ∃ p, from v p = Ok a) vs l.
Proof.
  induction vs as [|v vs IH]; intros i l H; cbn in H; [injection H as <-; constructor|].
  apply result_bind_ok in H as (a & Ha & H). apply result_bind_ok in H as (l' & Hl & [= <-]). constructor; [eauto|by eapply IH].
Qed.
Lemma items_back path l vs : ∀ i, forallb good l = true → forallb whole l = true → try_map to l = Ok vs →
  Fields.items_from from path i vs = Ok l.
Proof.
  intros i Hg Hw H. apply try_map_ok in H. revert i Hg Hw. induction H as [|a v l vs Hv _ IH]; intros i Hg Hw; [done|].
  cbn [forallb] in *. apply andb_true_iff in Hg as [? ?], Hw as [? ?]. cbn [Fields.items_from].
  rewrite (vc_back law a v) by done. cbn [mbind result_bind]. by rewrite IH.
Qed.
Lemma items_canonical l vs : forallb good l = true → try_map to l = Ok vs → forallb canonical vs = true.
Proof.
  intros Hg H. apply try_map_ok in H. induction H as [|a v l vs Hv _ IH]; [done|]. cbn [forallb] in *.
  apply andb_true_iff in Hg as [? ?]. apply andb_true_iff. split; [by apply (vc_canonical law a)|by apply IH].
Qed.
Lemma items_forth l vs : forallb canonical vs = true → Forall2 (λ v a, ∃ p, from v p = Ok a) vs l →
  forallb good l = true ∧ (forallb whole l = true → try_map to l = Ok vs).
Proof.
  intros Hc H. induction H as [|v a vs l (p & Hp) _ IH]; [done|]. cbn [forallb] in *. apply andb_true_iff in Hc as [Hc Hcs].
  destruct (vc_forth law _ _ _ Hc Hp) as [Hg Hw], (IH Hcs) as [Hgs Hws]. rewrite Hg, Hgs. split; [done|].
  intros [H1 H2]%andb_true_iff. cbn [try_map]. by rewrite (Hw H1), (Hws H2).
Qed.
Lemma items_inj l k vs : forallb good l = true → forallb good k = true → try_map to l = Ok vs → try_map to k = Ok vs → l = k.
Proof.
  rewrite !try_map_ok. intros Hl Hk H. revert k Hk. induction H as [|a v l vs Hv _ IH]; intros k Hk H'.
  - by apply Forall2_nil_inv_r in H' as ->.
  - apply Forall2_cons_inv_r in H' as (b & k' & Hb & H' & ->). cbn [forallb] in *. apply andb_true_iff in Hl as [? ?], Hk as [? ?].
    f_equal; [by apply (vc_inj law a b v)|by apply IH].
Qed.
Lemma items_whole l k vs : try_map to l = Ok vs → Forall2 (λ v a, ∃ p, from v p = Ok a) vs k → forallb whole l = true.
Proof.
  rewrite try_map_ok. intros H. revert k. induction H as [|a v l vs Hv _ IH]; intros k H'; [done|].
  apply Forall2_cons_inv_l in H' as (b & k' & (p & Hp) & H' & ->). cbn [forallb]. apply andb_true_iff.
  split; [by eapply (vc_whole law)|by eapply IH].
Qed.
End fields.

Lemma list_reads {A} (from : CanonicalValue.t → Path.t → result CanonicalError.t A) k f : Fields.list_with from k f =
  (a ← match Fields.entries f !! k with
       | None => Ok []
       | Some (CanonicalValue.Array []) => Err (CanonicalError.RedundantEmpty (Path.field (Fields.path f) k))
       | Some (CanonicalValue.Array items) => Fields.items_from from (Path.field (Fields.path f) k) 0 items
       | Some value => Err (wrong_shape (Path.field (Fields.path f) k) "a list" value)
       end; Ok (a, consumed k f)).
Proof.
  unfold Fields.list_with, Fields.remove, Fields.at_, mbind, Fields.reader_bind, result_bind. cbn.
  destruct (_ !! k) as [[]|]; done.
Qed.
Section lists.
Context `{ToCanonical A} {from : CanonicalValue.t → Path.t → result CanonicalError.t A}.
Context {good whole : A → bool} (law : ValueCodec from to_canonical good whole).

Definition present_whole (l : list A) : bool := match l with [] => false | _ => forallb whole l end.
Lemma list_forth k (l : list A) f f' : Fields.list_with from k f = Ok (l, f') → f' = consumed k f
  ∧ (Fields.entries f !! k = None ∧ l = []
     ∨ ∃ vs, Fields.entries f !! k = Some (CanonicalValue.Array vs) ∧ vs ≠ [] ∧ l ≠ [] ∧ Forall2 (λ v a, ∃ p, from v p = Ok a) vs l).
Proof.
  rewrite list_reads. intros Hr. apply result_bind_ok in Hr as (l' & Hl & [= <- <-]). split; [done|].
  destruct (Fields.entries f !! k) as [[| | | | | |vs|]|]; try done; [|injection Hl as <-; by left].
  right. exists vs. destruct vs as [|v vs]; [done|]. apply items_from_ok in Hl.
  split_and!; [done|done| |done]. inversion Hl. done.
Qed.
Lemma list_back k l vs f : forallb good l = true → forallb whole l = true → l ≠ [] → try_map to_canonical l = Ok vs →
  Fields.entries f !! k = Some (CanonicalValue.Array vs) → Fields.list_with from k f = Ok (l, consumed k f).
Proof.
  intros Hg Hw Hne Hvs Hk. rewrite list_reads, Hk. rewrite (items_back law _ l vs) by done.
  destruct vs as [|v vs]; [|done]. apply try_map_ok, Forall2_nil_inv_r in Hvs. done.
Qed.
Lemma omitted_list_field k : FieldCodec k (Fields.list_with from k) array_or_omitted (forallb good) (forallb whole).
Proof.
  split.
  - intros l. unfold array_or_omitted, present_array, array. destruct (bool_decide _); [eauto|].
    destruct (try_map_total law l) as [vs ->]. cbn. eauto.
  - intros l o Hg Ho. unfold array_or_omitted, present_array, array in Ho. destruct (bool_decide _); [by injection Ho as <-|].
    destruct (try_map to_canonical l) as [vs|] eqn:Hvs; [|done]. injection Ho as <-. cbn [canonical_option canonical].
    by eapply items_canonical.
  - intros l o f Hg Hw Ho Hk. unfold array_or_omitted, present_array, array in Ho. destruct (bool_decide _) eqn:Hl.
    + apply bool_decide_eq_true in Hl as ->. injection Ho as <-. by rewrite list_reads, Hk.
    + apply bool_decide_eq_false in Hl. destruct (try_map to_canonical l) as [vs|] eqn:Hvs; [|done]. injection Ho as <-.
      by apply (list_back k l vs).
  - intros l f f' Hr. apply list_forth in Hr as [-> [[Hk ->]|(vs & Hk & Hvs & Hl & Hf)]]; (split; [done|]); rewrite Hk; intros Hc.
    + done.
    + destruct (items_forth law l vs Hc Hf) as [Hg Hw]. split; [done|]. intros Hwl. unfold array_or_omitted, present_array, array.
      rewrite bool_decide_eq_false_2 by done. by rewrite (Hw Hwl).
  - intros a b o Ha Hb H1 H2. unfold array_or_omitted, present_array, array in *.
    destruct (bool_decide (a = [])) eqn:Ea; [apply bool_decide_eq_true in Ea as ->; injection H1 as <-|].
    + destruct (bool_decide (b = [])) eqn:Eb; [by apply bool_decide_eq_true in Eb as ->|].
      by destruct (try_map to_canonical b).
    + destruct (try_map to_canonical a) as [vs|] eqn:Hvs; [|done]. injection H1 as <-.
      destruct (bool_decide (b = [])); [done|]. destruct (try_map to_canonical b) as [ws|] eqn:Hws; [|done]. injection H2 as ->.
      by apply (items_inj law a b vs).
  - intros a b o f f' Ho Hk Hr. unfold array_or_omitted, present_array, array in Ho.
    destruct (bool_decide (a = [])) eqn:Ea; [by apply bool_decide_eq_true in Ea as ->|].
    destruct (try_map to_canonical a) as [vs|] eqn:Hvs; [|done]. injection Ho as <-.
    apply list_forth in Hr as [_ [[Hk' _]|(ws & Hk' & _ & _ & Hf)]]; [congruence|].
    rewrite Hk in Hk'. injection Hk' as <-. by eapply (items_whole law).
Qed.
Lemma present_list_field k : FieldCodec k (Fields.list_with from k) present_array (forallb good) present_whole.
Proof.
  split.
  - intros l. unfold present_array, array. destruct (try_map_total law l) as [vs ->]. cbn. eauto.
  - intros l o Hg Ho. unfold present_array, array in Ho.
    destruct (try_map to_canonical l) as [vs|] eqn:Hvs; [|done]. injection Ho as <-. cbn [canonical_option canonical].
    by eapply items_canonical.
  - intros l o f Hg Hw Ho Hk. unfold present_array, array in Ho. destruct (try_map to_canonical l) as [vs|] eqn:Hvs; [|done].
    injection Ho as <-. destruct l as [|a l]; [done|]. by apply (list_back k (a :: l) vs).
  - intros l f f' Hr. apply list_forth in Hr as [-> [[Hk ->]|(vs & Hk & Hvs & Hl & Hf)]]; (split; [done|]); rewrite Hk; intros Hc.
    + done.
    + destruct (items_forth law l vs Hc Hf) as [Hg Hw]. split; [done|]. intros Hwl. unfold present_array, array.
      rewrite Hw; [done|]. by destruct l.
  - intros a b o Ha Hb H1 H2. unfold present_array, array in *.
    destruct (try_map to_canonical a) as [vs|] eqn:Hvs; [|done]. injection H1 as <-.
    destruct (try_map to_canonical b) as [ws|] eqn:Hws; [|done]. injection H2 as ->. by apply (items_inj law a b vs).
  - intros a b o f f' Ho Hk Hr. unfold present_array, array in Ho.
    destruct (try_map to_canonical a) as [vs|] eqn:Hvs; [|done]. injection Ho as <-.
    apply list_forth in Hr as [_ [[Hk' _]|(ws & Hk' & Hne & _ & Hf)]]; [congruence|].
    rewrite Hk in Hk'. injection Hk' as <-. pose proof (items_whole law _ _ _ Hvs Hf) as Hw. destruct a; [|done].
    apply try_map_ok, Forall2_nil_inv_l in Hvs as ->. done.
Qed.
End lists.

Section optional.
Context `{FromCanonical A} {to : A → result CanonicalError.t CanonicalValue.t}.
Context {good whole : A → bool} (law : ValueCodec from_canonical to good whole).
Definition all_of (p : A → bool) (o : option A) : bool := match o with Some a => p a | None => true end.
Lemma optional_reads k f : Fields.optional k f =
  (a ← match Fields.entries f !! k with
       | Some v => a ← from_canonical v (Path.field (Fields.path f) k); Ok (Some a)
       | None => Ok None end;
   Ok (a, consumed k f)).
Proof. unfold Fields.optional, Fields.remove, Fields.at_, mbind, Fields.reader_bind, result_bind. cbn. by destruct (_ !! k). Qed.
Lemma optional_field k : FieldCodec k (Fields.optional k)
  (λ o, match o with Some a => v ← to a; Ok (Some v) | None => Ok None end) (all_of good) (all_of whole).
Proof.
  split.
  - intros [a|]; [|by exists None]. destruct (vc_total law a) as [v ->]. by exists (Some v).
  - intros [a|] o Hg Hw; [|by injection Hw as <-]. apply result_bind_ok in Hw as (v & Hv & [= <-]). by apply (vc_canonical law a).
  - intros [a|] o f Hg Hw Ho Hk.
    + apply result_bind_ok in Ho as (v & Hv & [= <-]). rewrite optional_reads, Hk. by rewrite (vc_back law a v).
    + injection Ho as <-. by rewrite optional_reads, Hk.
  - intros o f f' Hr. rewrite optional_reads in Hr. apply result_bind_ok in Hr as (o' & Hr & [= <- <-]). split; [done|].
    destruct (Fields.entries f !! k) as [v|]; [|by injection Hr as <-].
    apply result_bind_ok in Hr as (a & Ha & [= <-]). intros Hc. destruct (vc_forth law _ _ _ Hc Ha) as [Hg Hw]. split; [done|].
    intros Hwhole. by rewrite (Hw Hwhole).
  - intros [a|] [b|] o Ha Hb H1 H2.
    + apply result_bind_ok in H1 as (v & Hv & [= <-]). apply result_bind_ok in H2 as (v' & Hv' & [= ->]).
      f_equal. by apply (vc_inj law a b v).
    + apply result_bind_ok in H1 as (v & Hv & [= <-]). done.
    + apply result_bind_ok in H2 as (v & Hv & [= <-]). done.
    + done.
  - intros [a|] b o f f' Ho Hk Hr; [|done]. apply result_bind_ok in Ho as (v & Hv & [= <-]).
    rewrite optional_reads, Hk in Hr. apply result_bind_ok in Hr as (b' & Hr & _).
    apply result_bind_ok in Hr as (b'' & Hr & _). by eapply (vc_whole law).
Qed.
End optional.

(** *** Names *)
Class Named (A : Type) `{AsRef A, FromStr A} : Prop := {
  from_str_exact s (a : A) : from_str s = Ok a → as_ref a = s;
  as_ref_inj (a b : A) : as_ref a = as_ref b → a = b
}.
Section names.
Context `{Named A}.
Definition name_good (a : A) : bool := is_ok (from_str (A := A) (as_ref a)) && is_utf8 (bytes_of (as_ref a)).
Definition any {B} (b : B) : bool := true.
Lemma from_str_as_ref (a : A) : is_ok (from_str (A := A) (as_ref a)) = true → from_str (as_ref a) = Ok a.
Proof.
  destruct (from_str (as_ref a)) as [b|] eqn:E; [|done]. intros _. apply from_str_exact in E as Hb. apply as_ref_inj in Hb. by rewrite Hb in *.
Qed.
Lemma name_codec : ValueCodec parsed (λ a : A, Ok (CanonicalValue.Text (as_ref a))) name_good any.
Proof.
  split.
  - eauto.
  - intros a v [_ Hu]%andb_true_iff [= <-]. exact Hu.
  - intros a v p [Hp _]%andb_true_iff _ [= <-]. cbn [parsed]. by rewrite from_str_as_ref.
  - intros a v p Hc Hp. destruct v; try done. cbn [parsed canonical] in *.
    destruct (from_str value) as [b|] eqn:E; [|done]. cbn in Hp. injection Hp as ->. apply from_str_exact in E as Hs.
    split; [|by rewrite Hs]. unfold name_good. by rewrite Hs, E, Hc.
  - intros a b v _ _ [= <-] [= Heq]. symmetry. by apply as_ref_inj.
  - done.
Qed.
Lemma try_map_names (l : list A) : try_map (λ a : A, Ok (E := CanonicalError.t) (CanonicalValue.Text (as_ref a))) l = Ok (CanonicalValue.text ∘ as_ref <$> l).
Proof. induction l as [|a l IH]; [done|]. cbn [try_map]. by rewrite IH. Qed.
End names.
#[export] Instance name_to_canonical `{AsRef A} : ToCanonical A | 1000 := λ a, Ok (CanonicalValue.Text (as_ref a)).
Lemma names_omitted `{Named A} (l : list A) : names_or_omitted l = array_or_omitted (H := name_to_canonical) l.
Proof.
  unfold names_or_omitted, array_or_omitted, present_array, array. destruct (bool_decide (l = [])); [done|].
  unfold to_canonical, name_to_canonical. by rewrite try_map_names.
Qed.
Lemma field_ext {A} k (r r' : Fields.reader A) w w' good whole :
  (∀ f, r f = r' f) → (∀ a, w a = w' a) → FieldCodec k r w good whole → FieldCodec k r' w' good whole.
Proof.
  intros Hr Hw [H1 H2 H3 H4 H5 H6]. split.
  - intros a. by rewrite <-Hw.
  - intros a o. rewrite <-Hw. apply H2.
  - intros a o f. rewrite <-Hw, <-Hr. apply H3.
  - intros a f f'. rewrite <-Hr, <-Hw. apply H4.
  - intros a b o. rewrite <-!Hw. apply H5.
  - intros a b o f f'. rewrite <-Hw, <-Hr. apply H6.
Qed.
Lemma name_field `{Named A} k : FieldCodec k (Fields.required_with parsed k) (λ a : A, some_text (as_ref a)) name_good any.
Proof. exact (required_field name_codec k). Qed.
Lemma optional_name_field `{Named A} k : FieldCodec k (Fields.optional k) (λ o : option A, Ok ((λ a, CanonicalValue.text (as_ref a)) <$> o))
  (all_of name_good) (all_of any).
Proof. eapply field_ext; [done| |exact (optional_field name_codec k)]. by intros [a|]. Qed.
Lemma names_field `{Named A} k : FieldCodec k (Fields.list k) (λ l : list A, names_or_omitted l) (forallb name_good) (forallb any).
Proof.
  eapply field_ext; [done| |exact (omitted_list_field (H := name_to_canonical) name_codec k)].
  intros l. symmetry. apply names_omitted.
Qed.

(** *** Maps of names *)
Section keyed.
Context `{Countable K, !Ord K, !OrdLaws K, !AsRef K, !FromStr K, !Named K} {V : Type} `{FromCanonical V} {to : V → result CanonicalError.t CanonicalValue.t}.
Context {good whole : V → bool} (law : ValueCodec from_canonical to good whole).
Implicit Types (M : gmap K V) (T : gmap string CanonicalValue.t).

Definition renders M T : Prop := ∀ s cv, T !! s = Some cv ↔ ∃ k v, M !! k = Some v ∧ as_ref k = s ∧ to v = Ok cv.
Definition write_entry (entry : K * V) : result CanonicalError.t (CanonicalValue.t * CanonicalValue.t) :=
  v ← to entry.2; Ok (CanonicalValue.text (as_ref entry.1), v).
Definition write_map M : result CanonicalError.t (option CanonicalValue.t) :=
  if bool_decide (M = ∅) then Ok None
  else pairs ← try_map write_entry (btree_entries M); entries ← CanonicalMap.new pairs; Ok (Some (CanonicalValue.Map entries)).
Lemma rendered M : ∃ T, renders M T
  ∧ (pairs ← try_map write_entry (btree_entries M); entries ← CanonicalMap.new pairs; Ok (Some (CanonicalValue.Map entries))) = Ok (Some (tree T)).
Proof.
  assert (∃ l, Forall2 (λ (e : K * V) (s : string * CanonicalValue.t), s.1 = as_ref e.1 ∧ to e.2 = Ok s.2) (btree_entries M) l) as [l Hl].
  { induction (btree_entries M) as [|[k v] es [l IH]]; [exists []; constructor|]. destruct (vc_total law v) as [cv Hv].
    exists ((as_ref k, cv) :: l). by constructor. }
  assert (try_map write_entry (btree_entries M) = Ok (text_entry <$> l)) as ->.
  { apply try_map_ok. clear -Hl. induction Hl as [|[k v] [s cv] es l [Hs Hv] _ IH]; [constructor|]. constructor; [|done].
    unfold write_entry. cbn in *. by rewrite Hv, Hs. }
  assert (l.*1 = as_ref <$> btree_keys M) as Hkeys.
  { unfold btree_keys. clear -Hl. induction Hl as [|e s es l [Hs Hv] _ IH]; [done|]. cbn. by rewrite Hs, IH. }
  assert (NoDup l.*1) as Hnd.
  { rewrite Hkeys. apply NoDup_fmap_2; [intros x y; apply as_ref_inj|apply NoDup_btree_keys]. }
  exists (list_to_map l). cbn [mbind result_bind]. rewrite new_texts by done. split; [|done].
  intros s cv. rewrite <-elem_of_list_to_map by done. split.
  - intros Hin. apply list_elem_of_lookup in Hin as (i & Hi). destruct (Forall2_lookup_r _ _ _ _ _ Hl Hi) as ([k v] & Hkv & Hs & Hv).
    exists k, v. cbn in *. split_and!; [|done|done]. apply elem_of_btree_entries. by eapply list_elem_of_lookup_2.
  - intros (k & v & Hkv & <- & Hv). apply elem_of_btree_entries, list_elem_of_lookup in Hkv as (i & Hi).
    destruct (Forall2_lookup_l _ _ _ _ _ Hl Hi) as ([s cv'] & Hs & Hk & Hv'). cbn in *. rewrite Hv in Hv'. injection Hv' as ->.
    subst s. by eapply list_elem_of_lookup_2.
Qed.
Lemma write_map_ok M o : write_map M = Ok o → (M = ∅ ∧ o = None) ∨ (M ≠ ∅ ∧ ∃ T, o = Some (tree T) ∧ renders M T).
Proof.
  unfold write_map. destruct (bool_decide (M = ∅)) eqn:E.
  - apply bool_decide_eq_true in E. intros [= <-]. by left.
  - apply bool_decide_eq_false in E. destruct (rendered M) as (T & HT & ->). intros [= <-]. right. eauto.
Qed.
Lemma renders_unique M T T' : renders M T → renders M T' → T = T'.
Proof. intros H1 H2. apply map_eq. intros s. apply option_eq. intros cv. by rewrite (H1 s cv), (H2 s cv). Qed.
Lemma write_map_intro M T : M ≠ ∅ → renders M T → write_map M = Ok (Some (tree T)).
Proof.
  intros Hne HT. unfold write_map. rewrite bool_decide_eq_false_2 by done. destruct (rendered M) as (T' & HT' & ->).
  by rewrite (renders_unique M T T').
Qed.

Definition reads_entry (path : Path.t) (e : string * CanonicalValue.t) (kv : K * V) : Prop :=
  from_str e.1 = Ok kv.1 ∧ from_canonical e.2 (Path.key path e.1) = Ok kv.2.
Lemma keyed_from_ok path l : ∀ out M, Fields.keyed_from path (text_entry <$> l) out = Ok M ↔
  ∃ kvs, Forall2 (reads_entry path) l kvs ∧ M = foldl (λ m e, <[e.1 := e.2]> m) out kvs.
Proof.
  induction l as [|[s cv] l IH]; intros out M; split.
  - intros [= <-]. by exists [].
  - intros (kvs & Hkvs%Forall2_nil_inv_l & ->). by subst.
  - intros Hr. cbn in Hr. apply result_bind_ok in Hr as (k & Hk & Hr). apply result_bind_ok in Hr as (v & Hv & Hr).
    apply IH in Hr as (kvs & Hkvs & ->). exists ((k, v) :: kvs). split; [|done]. constructor; [|done]. split; [|done].
    cbn. unfold invalid_value in Hk. destruct (from_str s); [by injection Hk as ->|done].
  - intros (kvs & Hkvs & ->). apply Forall2_cons_inv_l in Hkvs as ([k v] & kvs' & [Hk Hv] & Hkvs & ->). cbn in *.
    unfold invalid_value. rewrite Hk. cbn. rewrite Hv. cbn. apply IH. eauto.
Qed.
Lemma reads_entry_key path l kvs : Forall2 (reads_entry path) l kvs → l.*1 = as_ref <$> kvs.*1.
Proof.
  induction 1 as [|e kv l kvs [Hk Hv] _ IH]; [done|]. cbn [fmap list_fmap]. by rewrite <-IH, (from_str_exact _ _ Hk).
Qed.
Lemma keyed_from_lookup path l M : NoDup l.*1 → Fields.keyed_from path (text_entry <$> l) ∅ = Ok M →
  (∀ k v, M !! k = Some v ↔ ∃ e, e ∈ l ∧ reads_entry path e (k, v)) ∧ (∀ e, e ∈ l → ∃ k v, M !! k = Some v ∧ reads_entry path e (k, v)).
Proof.
  intros Hnd Hr. apply keyed_from_ok in Hr as (kvs & Hkvs & ->). pose proof (reads_entry_key _ _ _ Hkvs) as Hk.
  assert (NoDup kvs.*1) as Hnd' by (rewrite Hk in Hnd; by eapply NoDup_fmap_1).
  rewrite foldl_insert_distinct, map_union_empty by done. split.
  - intros k v. rewrite <-elem_of_list_to_map by done. split.
    + intros Hin. apply list_elem_of_lookup in Hin as (i & Hi). destruct (Forall2_lookup_r _ _ _ _ _ Hkvs Hi) as (e & He & Hr).
      exists e. split; [by eapply list_elem_of_lookup_2|done].
    + intros (e & He & Hr). apply list_elem_of_lookup in He as (i & Hi). destruct (Forall2_lookup_l _ _ _ _ _ Hkvs Hi) as ([k' v'] & He & Hr').
      destruct Hr as [R1 R2], Hr' as [R3 R4]. cbn in *. rewrite R1 in R3. rewrite R2 in R4. injection R3 as <-. injection R4 as <-.
      by eapply list_elem_of_lookup_2.
  - intros e He. apply list_elem_of_lookup in He as (i & Hi). destruct (Forall2_lookup_l _ _ _ _ _ Hkvs Hi) as ([k v] & He & Hr).
    exists k, v. split; [|done]. apply elem_of_list_to_map; [done|]. by eapply list_elem_of_lookup_2.
Qed.

Definition map_good M : bool := forallb (λ e, name_good e.1 && good e.2) (map_to_list M).
Definition map_whole M : bool := forallb (λ e, whole e.2) (map_to_list M).
Lemma map_good_spec M : map_good M = true ↔ ∀ k v, M !! k = Some v → name_good k = true ∧ good v = true.
Proof.
  unfold map_good. rewrite forallb_forall. split.
  - intros Hg k v Hk. specialize (Hg (k, v) ltac:(by apply list_elem_of_In, elem_of_map_to_list)). by apply andb_true_iff in Hg.
  - intros Hg [k v] Hin. apply list_elem_of_In, elem_of_map_to_list in Hin. apply andb_true_iff. by apply Hg.
Qed.
Lemma map_whole_spec M : map_whole M = true ↔ ∀ k v, M !! k = Some v → whole v = true.
Proof.
  unfold map_whole. rewrite forallb_forall. split.
  - intros Hg k v Hk. exact (Hg (k, v) ltac:(by apply list_elem_of_In, elem_of_map_to_list)).
  - intros Hg [k v] Hin. apply list_elem_of_In, elem_of_map_to_list in Hin. by eapply Hg.
Qed.
Lemma keyed_reads k f : Fields.keyed (K := K) (V := V) k f =
  (a ← match Fields.entries f !! k with
       | None => Ok ∅
       | Some (CanonicalValue.Map []) => Err (CanonicalError.RedundantEmpty (Path.field (Fields.path f) k))
       | Some (CanonicalValue.Map map) => Fields.keyed_from (Path.field (Fields.path f) k) map ∅
       | Some value => Err (wrong_shape (Path.field (Fields.path f) k) "a map" value)
       end; Ok (a, consumed k f)).
Proof.
  unfold Fields.keyed, Fields.remove, Fields.at_, mbind, Fields.reader_bind, result_bind. cbn.
  destruct (_ !! k) as [[]|]; done.
Qed.
Lemma tree_nonempty T : T ≠ ∅ → tree_entries T ≠ [].
Proof.
  destruct (tree_texts T) as (l & -> & Hp & _ & _). intros Hne Hl. apply fmap_nil_inv in Hl as ->.
  apply Permutation_nil_l, eq_sym, map_to_list_empty_iff in Hp. done.
Qed.

Lemma keyed_back path M T : map_good M = true → map_whole M = true → renders M T → Fields.keyed_from path (tree_entries T) ∅ = Ok M.
Proof.
  intros Hg Hw HT. destruct (tree_texts T) as (l & -> & Hp & Hnd & _).
  rewrite map_good_spec in Hg. rewrite map_whole_spec in Hw.
  assert (∀ e, e ∈ l → ∃ kv, M !! kv.1 = Some kv.2 ∧ reads_entry path e kv) as Hall.
  { intros [s cv] Hin. rewrite Hp in Hin. apply elem_of_map_to_list, HT in Hin as (k & v & Hk & <- & Hv).
    exists (k, v). split; [done|]. destruct (Hg k v Hk) as [Hn Hgv]. apply andb_true_iff in Hn as [Hn _].
    split; cbn; [by apply from_str_as_ref|]. apply (vc_back law); [done|by eapply Hw|done]. }
  assert (∃ kvs, Forall2 (reads_entry path) l kvs) as [kvs Hkvs].
  { clear -Hall. induction l as [|e l IH]; [exists []; constructor|].
    destruct (Hall e ltac:(apply elem_of_cons; by left)) as (kv & _ & He).
    destruct IH as [kvs Hkvs]; [intros e' He'; apply Hall, elem_of_cons; by right|]. exists (kv :: kvs). by constructor. }
  assert (Fields.keyed_from path (text_entry <$> l) ∅ = Ok (foldl (λ m e, <[e.1 := e.2]> m) ∅ kvs)) as Hr.
  { apply keyed_from_ok. eauto. }
  rewrite Hr. f_equal. apply (keyed_from_lookup _ _ _ Hnd) in Hr as [H1 H2]. apply map_eq. intros k. apply option_eq. intros v.
  rewrite H1. split.
  - intros (e & He & Hr). destruct (Hall e He) as ([k' v'] & Hk & Hr'). destruct Hr as [R1 R2], Hr' as [R3 R4]. cbn in *.
    rewrite R1 in R3. rewrite R2 in R4. injection R3 as <-. by injection R4 as <-.
  - intros Hk. destruct (vc_total law v) as [cv Hv]. exists (as_ref k, cv). destruct (Hg k v Hk) as [Hn Hgv]. split.
    + rewrite Hp. apply elem_of_map_to_list, HT. eauto.
    + apply andb_true_iff in Hn as [Hn _]. split; cbn; [by apply from_str_as_ref|]. apply (vc_back law); [done|by eapply Hw|done].
Qed.
Lemma keyed_forth path T M : canonical (tree T) = true → Fields.keyed_from path (tree_entries T) ∅ = Ok M →
  map_good M = true ∧ (map_whole M = true → renders M T).
Proof.
  intros Hc Hr. apply canonical_tree in Hc. destruct (tree_texts T) as (l & Hl & Hp & Hnd & _). rewrite Hl in Hr.
  apply (keyed_from_lookup _ _ _ Hnd) in Hr as [H1 H2].
  assert (∀ e, e ∈ l ↔ T !! e.1 = Some e.2) as Hin by (intros [s cv]; rewrite Hp; apply elem_of_map_to_list).
  split.
  - apply map_good_spec. intros k v Hk. apply H1 in Hk as ([s cv] & He & R1 & R2). apply Hin in He. cbn in *.
    destruct (Hc s cv He) as [Hs Hcv]. destruct (vc_forth law _ _ _ Hcv R2) as [Hg _]. split; [|done].
    apply from_str_exact in R1 as Hk. unfold name_good. by rewrite Hk, R1, Hs.
  - intros Hw. rewrite map_whole_spec in Hw. intros s cv. split.
    + intros Hs. destruct (H2 (s, cv)) as (k & v & Hk & R1 & R2); [by apply Hin|]. cbn in *. destruct (Hc s cv Hs) as [_ Hcv].
      destruct (vc_forth law _ _ _ Hcv R2) as [_ Hto]. exists k, v. split_and!; [done|by apply from_str_exact|]. apply Hto. by eapply Hw.
    + intros (k & v & Hk & <- & Hv). pose proof Hk as Hk'. apply H1 in Hk' as ([s cv'] & He & R1 & R2). apply Hin in He. cbn in *.
      destruct (Hc s cv' He) as [_ Hcv]. destruct (vc_forth law _ _ _ Hcv R2) as [_ Hto]. rewrite Hto in Hv by (by eapply Hw).
      injection Hv as <-. by rewrite (from_str_exact _ _ R1).
Qed.
Lemma renders_nonempty M T : renders M T → M = ∅ ↔ T = ∅.
Proof.
  intros HT. split; intros ->; apply map_empty.
  - intros s. destruct (T !! s) as [cv|] eqn:E; [|done]. apply HT in E as (k & v & Hk & _). by rewrite lookup_empty in Hk.
  - intros k. destruct (M !! k) as [v|] eqn:E; [|done]. destruct (vc_total law v) as [cv Hv].
    assert ((∅ : gmap string CanonicalValue.t) !! as_ref k = Some cv) as Hs by (apply HT; eauto). by rewrite lookup_empty in Hs.
Qed.
Lemma tree_inj T T' : tree T = tree T' → T = T'.
Proof. intros Ht. pose proof (of_tree T Path.root) as H1. rewrite Ht, of_tree in H1. by injection H1. Qed.
Lemma renders_sub M M' T : map_good M = true → map_good M' = true → renders M T → renders M' T → M ⊆ M'.
Proof.
  rewrite !map_good_spec. intros HM HM' R R'. apply map_subseteq_spec. intros x v Hx. destruct (vc_total law v) as [cv Hv].
  assert (T !! as_ref x = Some cv) as Hs by (apply R; eauto). apply R' in Hs as (y & w & Hy & Hxy & Hw).
  apply as_ref_inj in Hxy as ->. destruct (HM x v Hx) as [_ Hgv], (HM' x w Hy) as [_ Hgw]. by rewrite (vc_inj law v w cv).
Qed.
Lemma renders_inj M M' T : map_good M = true → map_good M' = true → renders M T → renders M' T → M = M'.
Proof. intros. apply (anti_symm (⊆)); by apply (renders_sub _ _ T). Qed.
(** A list of entries that reads back has text keys. *)
Lemma keyed_from_texts path es : ∀ out M, Fields.keyed_from (K := K) (V := V) path es out = Ok M → ∃ l, es = text_entry <$> l.
Proof.
  induction es as [|[x y] es IH]; intros out M Hr; [by exists []|]. cbn in Hr. destruct x; try done.
  apply result_bind_ok in Hr as (? & _ & Hr). apply result_bind_ok in Hr as (? & _ & Hr).
  apply IH in Hr as [l ->]. by exists ((value, y) :: l).
Qed.
Lemma keyed_from_tree path es out M : canonical (CanonicalValue.Map es) = true →
  Fields.keyed_from (K := K) (V := V) path es out = Ok M → ∃ T, es = tree_entries T.
Proof.
  intros Hc Hr. apply keyed_from_texts in Hr as [l ->].
  assert (Fields.of_ (CanonicalValue.Map (text_entry <$> l)) Path.root = Ok (Fields.mk Path.root (foldl (λ m e, <[e.1 := e.2]> m) ∅ l))) as Hof.
  { unfold Fields.of_. by rewrite insert_entries_texts. }
  apply of_canonical in Hof as [_ Hof]; [|done]. injection Hof as Hof. eauto.
Qed.
Lemma keyed_reads_all path T M : Fields.keyed_from (K := K) (V := V) path (tree_entries T) ∅ = Ok M →
  ∀ s cv, T !! s = Some cv → ∃ (w : V) p, from_canonical cv p = Ok w.
Proof.
  intros Hr s cv Hs. destruct (tree_texts T) as (l & Hl & Hp & Hnd & _). rewrite Hl in Hr.
  apply (keyed_from_lookup _ _ _ Hnd) in Hr as [_ H2]. destruct (H2 (s, cv)) as (y & w & _ & _ & R2); [|by eauto].
  rewrite Hp. by apply elem_of_map_to_list.
Qed.
Lemma keyed_field_law k : FieldCodec k (Fields.keyed k) write_map map_good map_whole.
Proof.
  split.
  - intros M. destruct (decide (M = ∅)) as [->|Hne]; [by exists None|]. destruct (rendered M) as (T & HT & _).
    exists (Some (tree T)). by apply write_map_intro.
  - intros M o Hg Ho. apply write_map_ok in Ho as [[-> ->]|(Hne & T & -> & HT)]; [done|]. cbn [canonical_option].
    apply canonical_tree. intros s cv Hs. apply HT in Hs as (k' & v & Hk & <- & Hv). rewrite map_good_spec in Hg.
    destruct (Hg k' v Hk) as [Hn Hgv]. apply andb_true_iff in Hn as [_ Hu]. split; [done|]. by apply (vc_canonical law v).
  - intros M o f Hg Hw Ho Hk. rewrite keyed_reads, Hk. apply write_map_ok in Ho as [[-> ->]|(Hne & T & -> & HT)]; [done|].
    assert (T ≠ ∅) as HTne by (by rewrite <-(renders_nonempty M)). apply tree_nonempty in HTne. unfold tree.
    destruct (tree_entries T) as [|e es] eqn:HE; [done|]. rewrite <-HE. by rewrite (keyed_back _ M).
  - intros M f f' Hr. rewrite keyed_reads in Hr. apply result_bind_ok in Hr as (M' & Hr & [= <- <-]). split; [done|].
    destruct (Fields.entries f !! k) as [v|] eqn:Hk; [|by injection Hr as <-]. intros Hc. cbn [canonical_option] in Hc.
    destruct v as [| | | | | | |es]; try done.
    assert (es ≠ [] ∧ Fields.keyed_from (Path.field (Fields.path f) k) es ∅ = Ok M') as [Hne Hr'] by (by destruct es).
    destruct (keyed_from_tree _ _ _ _ Hc Hr') as [T ->].
    apply keyed_forth in Hr' as [Hg Hw]; [|done]. split; [done|].
    intros Hwhole. apply write_map_intro; [|by apply Hw]. intros ->. specialize (Hw Hwhole). apply renders_nonempty in Hw.
    assert (T = ∅) as -> by (by apply Hw). done.
  - intros M M' o Hg Hg' Ho Ho'. apply write_map_ok in Ho as [[-> ->]|(Hne & T & -> & HT)].
    { by apply write_map_ok in Ho' as [[-> _]|(_ & T & [=] & _)]. }
    apply write_map_ok in Ho' as [[_ [=]]|(Hne' & T' & Heq & HT')].
    assert (T = T') as <- by (apply tree_inj; unfold tree; by injection Heq as ->).
    by apply (renders_inj M M' T).
  - intros M M' o f f' Ho Hk Hr. apply write_map_ok in Ho as [[-> ->]|(Hne & T & -> & HT)]; [done|].
    rewrite keyed_reads, Hk in Hr. apply result_bind_ok in Hr as (M2 & Hr & [= -> _]). apply map_whole_spec. intros x v Hx.
    destruct (vc_total law v) as [cv Hv]. assert (T !! as_ref x = Some cv) as Hs by (apply HT; eauto).
    assert (Fields.keyed_from (Path.field (Fields.path f) k) (tree_entries T) ∅ = Ok M') as Hr' by (unfold tree in Hr; by destruct (tree_entries T)).
    destruct (keyed_reads_all _ _ _ Hr' _ _ Hs) as (w & p & Hw). by eapply (vc_whole law).
Qed.
End keyed.
Arguments map_good {K _ _ _ _ V} good M. Arguments map_whole {K _ _ V} whole M.

(** * Values made of fields (crate [orishu-workload], canonical.rs)

    What a value written as a map of its fields, and read field by field until
    nothing is left, keeps of the laws of its fields. *)

#[export] Existing Instances Fields.reader_ret Fields.reader_bind.
Implicit Types (f : Fields.t) (os : list (option CanonicalValue.t)).
Definition lookups (keys : list string) f : list (option CanonicalValue.t) := (λ k, Fields.entries f !! k) <$> keys.
Fixpoint consumed_all (keys : list string) f : Fields.t :=
  match keys with [] => f | k :: keys => consumed_all keys (consumed k f) end.
Fixpoint fields_map (keys : list string) os : gmap string CanonicalValue.t :=
  match keys, os with
  | k :: keys, o :: os => partial_alter (λ _, o) k (fields_map keys os)
  | _, _ => ∅
  end.

Lemma lookups_consumed k keys f : k ∉ keys → lookups keys (consumed k f) = lookups keys f.
Proof.
  intros Hk. apply list_fmap_ext. intros i x Hx. apply lookup_delete_ne. intros ->. apply list_elem_of_lookup_2 in Hx. done.
Qed.
Lemma consumed_all_lookup keys : ∀ f i, Fields.entries (consumed_all keys f) !! i = if decide (i ∈ keys) then None else Fields.entries f !! i.
Proof.
  induction keys as [|k keys IH]; intros f i; cbn [consumed_all].
  - rewrite decide_False; [done|apply not_elem_of_nil].
  - rewrite IH. unfold consumed. cbn [Fields.entries]. destruct (decide (i ∈ keys)) as [Hi|Hi].
    + rewrite decide_True; [done|]. apply elem_of_cons. by right.
    + destruct (decide (i = k)) as [->|Hne].
      * rewrite decide_True; [apply lookup_delete_eq|]. apply elem_of_cons. by left.
      * rewrite decide_False; [by apply lookup_delete_ne|]. rewrite elem_of_cons. by intros [?|?].
Qed.
Lemma fields_map_other keys os i : i ∉ keys → fields_map keys os !! i = None.
Proof.
  revert os. induction keys as [|k keys IH]; intros [|o os] Hi; try apply lookup_empty. cbn [fields_map].
  apply not_elem_of_cons in Hi as [Hne Hi]. rewrite lookup_partial_alter_ne by done. by apply IH.
Qed.
Lemma lookups_fields_map keys os path : NoDup keys → length keys = length os → lookups keys (Fields.mk path (fields_map keys os)) = os.
Proof.
  revert os. induction keys as [|k keys IH]; intros [|o os] Hnd Hlen; try done. injection Hlen as Hlen. apply NoDup_cons in Hnd as [Hk Hnd].
  unfold lookups in *. cbn [fmap list_fmap Fields.entries fields_map] in *. rewrite lookup_partial_alter_eq. f_equal.
  etrans; [|by apply (IH os)]. apply list_fmap_ext. intros i x Hx. apply lookup_partial_alter_ne. intros ->.
  apply list_elem_of_lookup_2 in Hx. done.
Qed.
(** What reading the fields leaves is empty when there is nothing but the fields. *)
Lemma consumed_fields keys os path : Fields.entries (consumed_all keys (Fields.mk path (fields_map keys os))) = ∅.
Proof.
  apply map_empty. intros i. rewrite consumed_all_lookup. destruct (decide (i ∈ keys)); [done|]. by apply fields_map_other.
Qed.
Lemma consumed_empty keys f : NoDup keys → Fields.entries (consumed_all keys f) = ∅ → Fields.entries f = fields_map keys (lookups keys f).
Proof.
  intros Hnd He. apply map_eq. intros i. pose proof (consumed_all_lookup keys f i) as Hi. rewrite He, lookup_empty in Hi.
  destruct (decide (i ∈ keys)) as [Hin|Hn].
  2: { rewrite <-Hi. symmetry. by apply fields_map_other. }
  clear Hi He.
  apply list_elem_of_lookup in Hin as [n Hn].
  pose proof (lookups_fields_map keys (lookups keys f) Path.root Hnd ltac:(symmetry; apply length_fmap)) as Hl.
  apply (f_equal (λ l, l !! n)) in Hl. unfold lookups in *. rewrite !list_lookup_fmap, Hn in Hl. injection Hl as Hl. by symmetry.
Qed.
Lemma finish_ok f : Fields.finish f = Ok () ↔ Fields.entries f = ∅.
Proof.
  unfold Fields.finish, btree_keys. split.
  - destruct ((btree_entries (Fields.entries f)).*1) as [|k ks] eqn:E; [intros _|done]. apply fmap_nil_inv in E.
    apply map_empty. intros i. destruct (_ !! i) as [v|] eqn:Hi; [|done]. apply elem_of_btree_entries in Hi. rewrite E in Hi.
    by apply not_elem_of_nil in Hi.
  - intros ->. done.
Qed.

(** The map an encoder makes of its fields. *)
Lemma fields_map_list keys os : NoDup keys → length keys = length os →
  NoDup (omap (λ e : string * option CanonicalValue.t, pair e.1 <$> e.2) (zip keys os)).*1
  ∧ list_to_map (omap (λ e : string * option CanonicalValue.t, pair e.1 <$> e.2) (zip keys os)) = fields_map keys os.
Proof.
  intros Hnd Hlen. assert (∀ ks os', (omap (λ e : string * option CanonicalValue.t, pair e.1 <$> e.2) (zip ks os')).*1 ⊆ ks) as Hsub.
  { induction ks as [|k ks IH]; intros [|o os'] x Hx; try by apply not_elem_of_nil in Hx. apply elem_of_cons. cbn in Hx.
    destruct o as [v|]; cbn in Hx; [apply elem_of_cons in Hx as [->|Hx]; [by left|]|]; right; by eapply IH. }
  revert os Hlen. induction Hnd as [|k keys Hk Hnd IH]; intros [|o os] Hlen; try done; [split; [constructor|done]|].
  injection Hlen as Hlen. destruct (IH os Hlen) as [H1 H2].
  assert (k ∉ (omap (λ e : string * option CanonicalValue.t, pair e.1 <$> e.2) (zip keys os)).*1) as Hn by (intros Hin; by apply Hsub in Hin).
  cbn. destruct o as [v|]; cbn.
  - split; [by constructor|]. by rewrite <-H2.
  - split; [done|]. rewrite <-H2. symmetry. apply not_elem_of_list_to_map_1 in Hn.
    exact (delete_id _ _ Hn).
Qed.
Lemma try_map_fields (keys : list string) (ws : list (result CanonicalError.t (option CanonicalValue.t))) os : ws = Ok <$> os →
  try_map (λ field : string * result CanonicalError.t (option CanonicalValue.t), v ← field.2; Ok (field.1, v)) (zip keys ws) = Ok (zip keys os).
Proof.
  intros ->. revert os. induction keys as [|k keys IH]; intros [|o os]; try done. cbn. by rewrite IH.
Qed.
Lemma map_of_fields keys ws os : NoDup keys → length keys = length os → ws = Ok <$> os →
  map_of (zip keys ws) = Ok (tree (fields_map keys os)).
Proof.
  intros Hnd Hlen Hws. destruct (fields_map_list keys os Hnd Hlen) as [H1 H2]. unfold map_of. rewrite (try_map_fields _ _ os Hws).
  cbn [mbind result_bind]. unfold CanonicalMap.fields.
  assert (omap (λ entry : string * option CanonicalValue.t, (λ value, (CanonicalValue.text entry.1, value)) <$> entry.2) (zip keys os)
    = text_entry <$> omap (λ e : string * option CanonicalValue.t, pair e.1 <$> e.2) (zip keys os)) as ->.
  { clear. revert os. induction keys as [|k keys IH]; intros [|o os]; try done. cbn. destruct o as [v|]; cbn; by rewrite IH. }
  rewrite new_texts by done. cbn [mbind result_bind]. unfold tree. by rewrite H2.
Qed.

(** ** The laws of a sequence of fields

    [P] is what is already known of the value, the fields before. *)
Record StructCodec {A} (P : A → Prop) (r : Fields.reader A) (keys : list string)
    (w : A → list (result CanonicalError.t (option CanonicalValue.t))) (good whole : A → bool) : Prop := {
  sc_total a : ∃ os, w a = Ok <$> os ∧ length keys = length os;
  sc_canonical a os : good a = true → w a = Ok <$> os → Forall canonical_option os;
  sc_back a f : NoDup keys → P a → good a = true → whole a = true → w a = Ok <$> lookups keys f → r f = Ok (a, consumed_all keys f);
  sc_forth a f f' : NoDup keys → r f = Ok (a, f') → P a ∧ f' = consumed_all keys f
    ∧ (Forall canonical_option (lookups keys f) → good a = true ∧ (whole a = true → w a = Ok <$> lookups keys f));
  sc_inj a b os : P a → P b → good a = true → good b = true → w a = Ok <$> os → w b = Ok <$> os → a = b;
  sc_whole a b f f' : NoDup keys → w a = Ok <$> lookups keys f → r f = Ok (b, f') → whole a = true
}.
Arguments sc_total {A P r keys w good whole}. Arguments sc_canonical {A P r keys w good whole}. Arguments sc_back {A P r keys w good whole}.
Arguments sc_forth {A P r keys w good whole}. Arguments sc_inj {A P r keys w good whole}. Arguments sc_whole {A P r keys w good whole}.

Lemma struct_nil {A} (P : A → Prop) a : (∀ b, P b ↔ b = a) → StructCodec P (mret a) [] (λ _, []) (λ _, true) (λ _, true).
Proof.
  intros HP. split.
  - intros _. by exists [].
  - intros _ [|] _ H; [constructor|done].
  - intros b f _ ->%HP _ _ _. done.
  - intros b f f' _ [= <- <-]. split_and!; [by apply HP|done|done].
  - intros b c os ->%HP ->%HP. done.
  - done.
Qed.
Section cons.
Context {A X : Type} (p : A → X) {k : string} {r : Fields.reader X} {w : X → result CanonicalError.t (option CanonicalValue.t)} {g h : X → bool}.
Context (law : FieldCodec k r w g h).
Lemma struct_cons (P : A → Prop) K keys ws good whole :
  (∀ x, StructCodec (λ a, P a ∧ p a = x) (K x) keys ws good whole) →
  StructCodec P (x ← r; K x) (k :: keys) (λ a, w (p a) :: ws a) (λ a, g (p a) && good a) (λ a, h (p a) && whole a).
Proof.
  intros tail. split.
  - intros a. destruct (sc_total (tail (p a)) a) as (os & Hos & Hlen), (fc_total law (p a)) as [o Ho].
    exists (o :: os). rewrite Hos, Ho. split; [done|]. cbn [length]. by rewrite Hlen.
  - intros a [|o os] [Hg Hgs]%andb_true_iff Hw; [done|]. cbn in Hw. injection Hw as Hw Hws. constructor.
    + by apply (fc_canonical law (p a)).
    + by apply (sc_canonical (tail (p a)) a).
  - intros a f [Hk Hnd]%NoDup_cons HP [Hg Hgs]%andb_true_iff [Hh Hhs]%andb_true_iff Hw.
    unfold lookups in Hw. cbn in Hw. injection Hw as Hw Hws. unfold mbind, Fields.reader_bind.
    rewrite (fc_back law (p a) _ f Hg Hh Hw eq_refl). cbn [result_bind mbind consumed_all].
    apply (sc_back (tail (p a))); [done|done|done|done|]. by rewrite lookups_consumed.
  - intros a f f' [Hk Hnd]%NoDup_cons Hr. unfold mbind, Fields.reader_bind in Hr. apply result_bind_ok in Hr as ([x f1] & Hx & Hr).
    apply (fc_forth law) in Hx as [-> Hx]. apply (sc_forth (tail x)) in Hr as ([HP Hp] & -> & Hr); [|done].
    split_and!; [done|done|]. unfold lookups at 1. cbn. intros [Hc Hcs]%Forall_cons. destruct (Hx Hc) as [Hg Hw].
    rewrite lookups_consumed in Hr by done. destruct (Hr Hcs) as [Hgs Hws]. rewrite Hp, Hg. split; [done|].
    intros [Hh Hhs]%andb_true_iff. by rewrite (Hw Hh), (Hws Hhs).
  - intros a b [|o os] HPa HPb [Ha Hga]%andb_true_iff [Hb Hgb]%andb_true_iff H1 H2; [done|].
    cbn in H1, H2. injection H1 as H1 H1s. injection H2 as H2 H2s.
    assert (p a = p b) as Hp by (by apply (fc_inj law _ _ o)). by apply (sc_inj (tail (p b)) a b os).
  - intros a b f f' [Hk Hnd]%NoDup_cons Hw Hr. unfold lookups in Hw. cbn in Hw. injection Hw as Hw Hws.
    unfold mbind, Fields.reader_bind in Hr. apply result_bind_ok in Hr as ([x f1] & Hx & Hr).
    pose proof (fc_whole law (p a) x _ f f1 Hw eq_refl Hx) as Hh. rewrite Hh.
    apply (fc_forth law) in Hx as [-> _]. eapply (sc_whole (tail x)); [done| |exact Hr]. by rewrite lookups_consumed.
Qed.
End cons.

(** A value read whole. *)
Section whole.
Context {A : Type} {r : Fields.reader A} {keys : list string} {ws : A → list (result CanonicalError.t (option CanonicalValue.t))} {g h : A → bool}.
Context (law : StructCodec (λ _, True) r keys ws g h) (Hnd : NoDup keys) (Hutf : forallb (is_utf8 ∘ bytes_of) keys = true).

Lemma written a v : map_of (zip keys (ws a)) = Ok v → ∃ os, ws a = Ok <$> os ∧ length keys = length os ∧ v = tree (fields_map keys os).
Proof.
  destruct (sc_total law a) as (os & Hos & Hlen). rewrite (map_of_fields keys _ os) by done. intros [= <-]. eauto.
Qed.
Lemma all_ok v p a : Fields.all r v p = Ok a ↔ ∃ f f', Fields.of_ v p = Ok f ∧ r f = Ok (a, f') ∧ Fields.entries f' = ∅.
Proof.
  unfold Fields.all. split.
  - intros H. apply result_bind_ok in H as (f & Hf & H). apply result_bind_ok in H as ([a' f'] & Hr & H).
    apply result_bind_ok in H as ([] & Hfin & [= <-]). apply finish_ok in Hfin. eauto.
  - intros (f & f' & Hf & Hr & Hfin%finish_ok). rewrite Hf. cbn [mbind result_bind]. rewrite Hr. cbn [mbind result_bind]. by rewrite Hfin.
Qed.
Lemma map_codec : ValueCodec (Fields.all r) (λ a, map_of (zip keys (ws a))) g h.
Proof.
  split.
  - intros a. destruct (sc_total law a) as (os & Hos & Hlen). rewrite (map_of_fields keys _ os) by done. eauto.
  - intros a v Hg (os & Hos & Hlen & ->)%written. apply canonical_tree. intros k v Hk.
    destruct (decide (k ∈ keys)) as [Hin|Hn]; [|by rewrite fields_map_other in Hk].
    split; [apply (proj1 (forallb_forall _ _) Hutf), list_elem_of_In, Hin|].
    pose proof (lookups_fields_map keys os Path.root Hnd Hlen) as Hl. pose proof (sc_canonical law a os Hg Hos) as Hc.
    rewrite <-Hl in Hc. unfold lookups in Hc. rewrite Forall_fmap, Forall_forall in Hc. specialize (Hc k Hin).
    unfold compose in Hc. cbn [Fields.entries] in Hc. by rewrite Hk in Hc.
  - intros a v p Hg Hh (os & Hos & Hlen & ->)%written. apply all_ok. do 2 eexists. rewrite of_tree. split_and!; [done| |].
    + apply (sc_back law); [done|done|done|done|]. by rewrite lookups_fields_map.
    + apply consumed_fields.
  - intros a v p Hc (f & f' & Hf & Hr & He)%all_ok. apply of_canonical in Hf as [_ ->]; [|done].
    apply (sc_forth law) in Hr as (_ & -> & Hr); [|done]. apply consumed_empty in He; [|done]. rewrite canonical_tree in Hc.
    destruct Hr as [Hg Hw].
    { unfold lookups. apply Forall_fmap, Forall_true. intros k. unfold compose. destruct (Fields.entries f !! k) eqn:E; [|done].
      by apply (Hc k). }
    split; [done|]. intros Hh. rewrite He. apply map_of_fields; [done|symmetry; apply length_fmap|by apply Hw].
  - intros a b v Ha Hb (os & Hos & Hlen & ->)%written (os' & Hos' & Hlen' & Ht)%written. apply tree_inj in Ht.
    assert (os = os') as <-; [|by apply (sc_inj law a b os)].
    by rewrite <-(lookups_fields_map keys os Path.root), Ht, lookups_fields_map.
  - intros a b v p (os & Hos & Hlen & ->)%written (f & f' & Hf & Hr & _)%all_ok. rewrite of_tree in Hf. injection Hf as <-.
    eapply (sc_whole law); [done| |exact Hr]. by rewrite lookups_fields_map.
Qed.
End whole.
Lemma codec_ext {A} {from to} {to' : A → result CanonicalError.t CanonicalValue.t} {g h good whole : A → bool} :
  ValueCodec from to g h → (∀ a, to a = to' a) → (∀ a, g a = good a) → (∀ a, h a = whole a) → ValueCodec from to' good whole.
Proof.
  intros [H1 H2 H3 H4 H5 H6] Ht Hg Hh. split.
  - intros a. by rewrite <-Ht.
  - intros a v. rewrite <-Ht, <-Hg. apply H2.
  - intros a v p. rewrite <-Ht, <-Hg, <-Hh. apply H3.
  - intros a v p. rewrite <-Ht, <-Hg, <-Hh. apply H4.
  - intros a b v. rewrite <-!Ht, <-!Hg. apply H5.
  - intros a b v p. rewrite <-Ht, <-Hh. apply H6.
Qed.
