(* ===== verification/Committed.v ===== *)
(** * What a workload's digest commits to (crate [orishu-workload], canonical.rs)

    The laws of the two directions of every type of the manifest, and so of the
    manifest: its canonical bytes read back to it, what is read back is what was
    written, and two manifests of the same bytes are the same. *)

From Stdlib Require Import Ascii.
From stdpp Require Import base gmap strings list.
From S2P Require Import Prelude Identity Binary64 Workload Cbor Canonical Codec Recovered.
From S2P Require Antientropy Encoding.

(** ** Names *)
Lemma new_exact {E B} (check : string → result E unit) (wrap : string → B) (err : E → Refusal.t) (get : B → string) s b :
  (∀ s, get (wrap s) = s) → result_map_err err (_ ← check s; Ok (wrap s)) = Ok b → get b = s.
Proof. intros Hget. destruct (check s) as [[]|e]; [|done]. cbn. intros [= <-]. apply Hget. Qed.
Ltac name check wrap err get := split; [intros s a H; by eapply (new_exact check wrap err get) in H|by intros [a] [b]; cbn; intros ->].
#[export] Instance ArtifactRole_named : Named ArtifactRole.t.
Proof. name (validate_symbol "ArtifactRole") ArtifactRole.mk Refusal.Name ArtifactRole.as_str. Qed.
#[export] Instance ComponentInstanceId_named : Named ComponentInstanceId.t.
Proof. name (validate_symbol "ComponentInstanceId") ComponentInstanceId.mk Refusal.Name ComponentInstanceId.as_str. Qed.
#[export] Instance ComponentRole_named : Named ComponentRole.t.
Proof. name (validate_symbol "ComponentRole") ComponentRole.mk Refusal.Name ComponentRole.as_str. Qed.
#[export] Instance ConstraintName_named : Named ConstraintName.t.
Proof. name (validate_symbol "ConstraintName") ConstraintName.mk Refusal.Name ConstraintName.as_str. Qed.
#[export] Instance Engine_named : Named Engine.t.
Proof. name (validate_symbol "Engine") Engine.mk Refusal.Name Engine.as_str. Qed.
#[export] Instance GraphProfile_named : Named GraphProfile.t.
Proof. name (validate_symbol "GraphProfile") GraphProfile.mk Refusal.Name GraphProfile.as_str. Qed.
#[export] Instance LifecycleId_named : Named LifecycleId.t.
Proof. name (validate_symbol "LifecycleId") LifecycleId.mk Refusal.Name LifecycleId.as_str. Qed.
#[export] Instance MediaType_named : Named MediaType.t.
Proof. name (validate_media_type "MediaType") MediaType.mk Refusal.Name MediaType.as_str. Qed.
#[export] Instance ModelId_named : Named ModelId.t.
Proof. name (validate_symbol "ModelId") ModelId.mk Refusal.Name ModelId.as_str. Qed.
#[export] Instance ParameterName_named : Named ParameterName.t.
Proof. name (validate_symbol "ParameterName") ParameterName.mk Refusal.Name ParameterName.as_str. Qed.
#[export] Instance LimitName_named : Named LimitName.t.
Proof. name (validate_symbol "LimitName") LimitName.mk Refusal.Name LimitName.as_str. Qed.
#[export] Instance LabelKey_named : Named LabelKey.t.
Proof. name (validate_symbol "LabelKey") LabelKey.mk Refusal.Name LabelKey.as_str. Qed.
#[export] Instance PhaseId_named : Named PhaseId.t.
Proof. name (validate_symbol "PhaseId") PhaseId.mk Refusal.Name PhaseId.as_str. Qed.
#[export] Instance PluginId_named : Named PluginId.t.
Proof. name (validate_symbol "PluginId") PluginId.mk Refusal.Name PluginId.as_str. Qed.
#[export] Instance SchemaId_named : Named SchemaId.t.
Proof. name (validate_symbol "SchemaId") SchemaId.mk Refusal.Name SchemaId.as_str. Qed.
#[export] Instance StateChannelId_named : Named StateChannelId.t.
Proof. name (validate_symbol "StateChannelId") StateChannelId.mk Refusal.Name StateChannelId.as_str. Qed.
#[export] Instance StepInvocationId_named : Named StepInvocationId.t.
Proof. name (validate_symbol "StepInvocationId") StepInvocationId.mk Refusal.Name StepInvocationId.as_str. Qed.
#[export] Instance WorkloadName_named : Named WorkloadName.t.
Proof. name (validate_label "WorkloadName") WorkloadName.mk Refusal.Name WorkloadName.as_str. Qed.
#[export] Instance LabelValue_named : Named LabelValue.t.
Proof. name (validate_label "LabelValue") LabelValue.mk Refusal.Name LabelValue.as_str. Qed.
#[export] Instance ApiVersion_named : Named ApiVersion.t.
Proof. name (λ s, check_discriminator Discriminator.ApiVersion s ApiVersion.MAX_LEN alphanumeric api_version_body) ApiVersion.mk Refusal.Resource ApiVersion.as_str. Qed.
#[export] Instance Kind_named : Named Kind.t.
Proof. name (λ s, check_discriminator Discriminator.Kind s Kind.MAX_LEN letter alphanumeric) Kind.mk Refusal.Resource Kind.as_str. Qed.

(** *** Digests *)
Lemma hex_value_digit c n : hex_value c = Some n → (n < 16)%N ∧ c = hex_digit n.
Proof. destruct c as [[] [] [] [] [] [] [] []]; vm_compute; try discriminate; intros [= <-]; split; done. Qed.
Lemma hex_digits_byte h l : (h < 16)%N → (l < 16)%N → hex_byte (ascii_of_N (N.lor (N.shiftl h 4) l)) = [hex_digit h; hex_digit l].
Proof.
  intros Hh Hl.
  assert (forallb (λ b, bool_decide (hex_byte (ascii_of_N (N.lor (N.shiftl (b / 16) 4) (b mod 16))) = [hex_digit (b / 16); hex_digit (b mod 16)])) byte_values = true)
    as Hall by (vm_compute; reflexivity).
  pose proof (every_byte _ Hall (h * 16 + l)%N ltac:(lia)) as Hb. cbv beta in Hb.
  apply bool_decide_eq_true in Hb. rewrite N.div_add_l, (N.div_small _ _ Hl), N.add_0_r in Hb by done.
  by rewrite N.add_comm, N.Div0.mod_add, (N.mod_small _ _ Hl) in Hb.
Qed.
Lemma hex_pairs_exact n : ∀ payload offset bs, length payload = n * 2 → hex_pairs offset payload = Ok bs → (bs ≫= hex_byte) = payload.
Proof.
  induction n as [|n IH]; intros [|a [|b payload]] offset bs Hlen H; try done; [by injection H as <-|]. cbn [hex_pairs] in H.
  destruct (hex_value a) as [h|] eqn:Ha; [|done]. destruct (hex_value b) as [l|] eqn:Hb; [|done].
  apply result_bind_ok in H as (bs' & H & [= <-]). apply hex_value_digit in Ha as [Hh ->], Hb as [Hl ->].
  rewrite bind_cons, hex_digits_byte by done. cbn [app]. do 2 f_equal. eapply IH; [|exact H]. cbn in Hlen. lia.
Qed.
Lemma split_once_exact c l a b : split_once c l = Some (a, b) → l = a ++ c :: b.
Proof.
  revert a b. induction l as [|x l IH]; intros a b H; [done|]. cbn in H. destruct (bool_decide (x = c)) eqn:E.
  - apply bool_decide_eq_true in E as ->. by injection H as <- <-.
  - destruct (split_once c l) as [[a' b']|]; [|done]. cbn in H. injection H as <- <-. cbn. by rewrite <-(IH a' b').
Qed.
Lemma hex_bind_inj (l k : bytes) : (l ≫= hex_byte) = (k ≫= hex_byte) → l = k.
Proof.
  revert k. induction l as [|a l IH]; intros [|b k]; rewrite ?bind_cons; cbn [mbind list_bind]; try done.
  intros [Hab Hlk]%app_inj_1; [|done]. f_equal; [|by apply IH].
  pose proof (from_str_radix16_hex_byte a) as Ha. rewrite Hab, from_str_radix16_hex_byte in Ha. by injection Ha.
Qed.
#[export] Instance ArtifactDigest_named : Named ArtifactDigest.t.
Proof.
  split.
  - intros s d H. unfold from_str, ArtifactDigest_from_str, ArtifactDigest.from_str in H.
    destruct (split_once ":" (bytes_of s)) as [[tag payload]|] eqn:Hs; [|done]. apply split_once_exact in Hs.
    destruct (bool_decide (tag = bytes_of "sha256")) eqn:Ht; [|done]. apply bool_decide_eq_true in Ht as ->.
    destruct (negb (lenN payload =? _)%N) eqn:Hl; [done|]. apply negb_false_iff, N.eqb_eq in Hl.
    destruct (hex_pairs 0 payload) as [bs|] eqn:Hp; [|done]. injection H as <-.
    apply (hex_pairs_exact 32) in Hp; [|unfold lenN in Hl; vm_compute (N.mul _ _) in Hl; lia].
    apply (inj bytes_of). unfold as_ref, ArtifactDigest_as_ref, ArtifactDigest.to_string. cbn [ArtifactDigest.algorithm ArtifactDigest.as_bytes].
    rewrite Hp, Hs. rewrite !bytes_of_app. unfold bytes_of at 3. by rewrite String.list_ascii_of_string_of_list_ascii.
  - intros [[] a] [[] b] H. f_equal. apply hex_bind_inj.
    apply (f_equal bytes_of) in H. unfold as_ref, ArtifactDigest_as_ref, ArtifactDigest.to_string in H.
    cbn [ArtifactDigest.algorithm ArtifactDigest.as_bytes] in H. rewrite !bytes_of_app in H. do 2 apply app_inv_head in H.
    unfold bytes_of in H. by rewrite !String.list_ascii_of_string_of_list_ascii in H.
Qed.

(** ** Numbers and scalars *)
Definition u64 (n : N) : bool := (n <=? u64_max)%N.
Definition u32 (n : N) : bool := (n <=? u32_max)%N.
Definition u8 (n : N) : bool := (n <=? 255)%N.
Lemma u64_codec : ValueCodec u64_from_canonical to_canonical u64 any.
Proof.
  split; [eauto| | | | |done].
  - by intros n v Hn [= <-].
  - by intros n v p _ _ [= <-].
  - intros n v p Hc H. destruct v; try done. by injection H as ->.
  - by intros n m v _ _ [= <-] [= ->].
Qed.
Lemma bounded_codec (bound : N) (message : string) : (bound ≤ u64_max)%N →
  ValueCodec (λ v p, n ← u64_from_canonical v p; if (n <=? bound)%N then Ok n else refused p message) to_canonical (λ n, (n <=? bound)%N) any.
Proof.
  intros Hb. split; [eauto| | | | |done].
  - intros n v Hn [= <-]. cbn. apply N.leb_le in Hn. apply N.leb_le. lia.
  - intros n v p Hn _ [= <-]. cbn. by rewrite Hn.
  - intros n v p Hc H. destruct v; try done. cbn in H. destruct (_ <=? bound)%N eqn:E; [|done]. by injection H as <-.
  - by intros n m v _ _ [= <-] [= ->].
Qed.
Definition u32_codec : ValueCodec u32_from_canonical to_canonical u32 any := bounded_codec u32_max _ ltac:(done).
Definition u8_codec : ValueCodec u8_from_canonical to_canonical u8 any := bounded_codec 255 _ ltac:(done).
#[export] Instance FiniteF64_to_canonical : ToCanonical FiniteF64.t := λ x, Ok (CanonicalValue.F64 x).
Lemma f64_codec : ValueCodec (A := FiniteF64.t) from_canonical to_canonical canonical_float any.
Proof.
  split; [eauto| | | | |done].
  - by intros x v Hx [= <-].
  - by intros x v p _ _ [= <-].
  - intros x v p Hc H. destruct v; try done. by injection H as ->.
  - by intros x y v _ _ [= <-] [= ->].
Qed.
Definition good_scalar (s : ScalarValue.t) : bool :=
  match s with
  | ScalarValue.Bool _ => true
  | ScalarValue.Integer z => (- 2 ^ 63 <=? z)%Z && (z <=? F64.i64_max)%Z
  | ScalarValue.Real x => canonical_float x
  | ScalarValue.Text s => is_utf8 (bytes_of s)
  end.
Lemma scalar_codec : ValueCodec from_canonical to_canonical good_scalar any.
Proof.
  split; [eauto| | | | |done].
  - intros [b|z|x|s] v Hg [= <-]; try done. cbn in Hg. unfold CanonicalValue.int. apply andb_true_iff in Hg as [H1 H2].
    apply Z.leb_le in H2. destruct (Z.ltb_spec z 0).
    + cbn [canonical]. rewrite H1. by apply Z.ltb_lt.
    + cbn [canonical]. apply N.leb_le. change F64.i64_max with 9223372036854775807%Z in H2. change u64_max with 18446744073709551615%N. lia.
  - intros [b|z|x|s] v p Hg _ [= <-]; try done. cbn in Hg. unfold CanonicalValue.int. apply andb_true_iff in Hg as [H1 H2].
    destruct (Z.ltb_spec z 0); [done|]. cbn. rewrite Z2N.id by done. by rewrite H2.
  - intros a v p Hc H. destruct v as [b|n|z|x|l|s|l|l]; try done.
    + by injection H as <-.
    + cbn in H. destruct (Z.leb_spec (Z.of_N n) F64.i64_max) as [Hn|]; [|done]. injection H as <-. cbn [good_scalar].
      split; [apply andb_true_iff; split; [apply Z.leb_le; lia|by apply Z.leb_le]|]. intros _. unfold to_canonical, ScalarValue_to_canonical, CanonicalValue.int.
      destruct (Z.ltb_spec (Z.of_N n) 0); [lia|]. by rewrite N2Z.id.
    + injection H as <-. cbn [canonical] in Hc. apply andb_true_iff in Hc as [H1 H2]. apply Z.ltb_lt in H2. cbn [good_scalar]. split.
      * rewrite H1. apply Z.leb_le. change F64.i64_max with 9223372036854775807%Z. lia.
      * intros _. unfold to_canonical, ScalarValue_to_canonical, CanonicalValue.int. by rewrite (proj2 (Z.ltb_lt _ _) H2).
    + by injection H as <-.
    + by injection H as <-.
  - intros a b v _ _ H1 H2. destruct a as [|z| |], b as [|z'| |]; injection H1 as <-; injection H2 as H2; unfold CanonicalValue.int, CanonicalValue.text in *;
      repeat match goal with _ : context [(?x <? 0)%Z] |- _ => destruct (Z.ltb_spec x 0) end; try congruence.
    all: f_equal; first [lia | injection H2 as H2; lia].
Qed.
Lemma reduction_codec : ValueCodec (A := Reduction.t) from_canonical to_canonical any any.
Proof.
  split; [eauto| | | | |done].
  - by intros [] v _ [= <-].
  - by intros [] v p _ _ [= <-].
  - intros a v p Hc H. split; [done|]. intros _. destruct v; try done. unfold from_canonical, Reduction_from_canonical in H.
    destruct (decide (value = "single")) as [->|H1]; [by injection H as <-|].
    destruct (decide (value = "sum")) as [->|H2]; [by injection H as <-|].
    destruct (decide (value = "min")) as [->|H3]; [by injection H as <-|].
    destruct (decide (value = "max")) as [->|H4]; [by injection H as <-|]. exfalso.
    repeat (case_match; try done).
  - by intros [] [] v _ _ [= <-].
Qed.

(** ** Fields of the manifest *)
Lemma field_conv {A k} {r : Fields.reader A} {w w' g g' h h'} :
  FieldCodec k r w g h → (∀ a, w a = w' a) → (∀ a, g a = g' a) → (∀ a, h a = h' a) → FieldCodec k r w' g' h'.
Proof.
  intros [H1 H2 H3 H4 H5 H6] Hw Hg Hh. split.
  - intros a. by rewrite <-Hw.
  - intros a o. rewrite <-Hw, <-Hg. apply H2.
  - intros a o f. rewrite <-Hw, <-Hg, <-Hh. apply H3.
  - intros a f f'. rewrite <-Hw, <-Hg, <-Hh. apply H4.
  - intros a b o. rewrite <-!Hw, <-!Hg. apply H5.
  - intros a b o f f'. rewrite <-Hw, <-Hh. apply H6.
Qed.
Lemma forallb_any {A} (l : list A) : forallb any l = true.
Proof. by induction l. Qed.
Definition good_names `{AsRef A, FromStr A} (l : list A) : bool := forallb name_good l.
Definition good_option {A} (good : A → bool) (o : option A) : bool := match o with Some a => good a | None => true end.
Definition good_values `{Countable K, AsRef K, FromStr K} {V} (good : V → bool) (M : gmap K V) : bool :=
  forallb (λ e, name_good e.1 && good e.2) (map_to_list M).
Lemma names `{Named A} k : FieldCodec k (Fields.list k) (λ l : list A, names_or_omitted l) good_names any.
Proof. eapply field_conv; [apply names_field|done|done|apply forallb_any]. Qed.
Lemma optional_name `{Named A} k :
  FieldCodec k (Fields.optional k) (λ o : option A, Ok ((λ a, CanonicalValue.text (as_ref a)) <$> o)) (good_option name_good) any.
Proof. eapply field_conv; [apply optional_name_field|done|by intros [a|]|by intros [a|]]. Qed.
Lemma optional `{FromCanonical A, ToCanonical A} {good : A → bool} (law : ValueCodec from_canonical to_canonical good any) k :
  FieldCodec k (Fields.optional k) optional_value (good_option good) any.
Proof. eapply field_conv; [exact (optional_field law k)|by intros [a|]|by intros [a|]|by intros [a|]]. Qed.
Lemma items `{ToCanonical A} {from} {good : A → bool} (law : ValueCodec from to_canonical good any) k :
  FieldCodec k (Fields.list_with from k) array_or_omitted (forallb good) any.
Proof. eapply field_conv; [exact (omitted_list_field law k)|done|done|apply forallb_any]. Qed.
(** A list written out even when it is empty. *)
Definition nonempty {A} (l : list A) : bool := match l with [] => false | _ => true end.
Lemma present_items `{ToCanonical A} {from} {good : A → bool} (law : ValueCodec from to_canonical good any) k :
  FieldCodec k (Fields.list_with from k) present_array (forallb good) nonempty.
Proof. eapply field_conv; [exact (present_list_field law k)|done|done|]. intros [|a l]; [done|]. apply forallb_any. Qed.
Section values.
Context `{Countable K, !Ord K, !OrdLaws K, !AsRef K, !FromStr K, !Named K}.
Lemma map_whole_any {V} (M : gmap K V) : map_whole any M = true.
Proof. unfold map_whole. by induction (map_to_list M). Qed.
Lemma values `{FromCanonical V, ToCanonical V} {good : V → bool} (law : ValueCodec from_canonical to_canonical good any) k :
  FieldCodec k (Fields.keyed (K := K) k) map_or_omitted (good_values good) any.
Proof. eapply field_conv; [exact (keyed_field_law law k)|done|done|apply map_whole_any]. Qed.
Lemma named_values `{Named V} k :
  FieldCodec k (Fields.keyed (K := K) (V := V) k) (write_map (to := λ v, Ok (CanonicalValue.Text (as_ref v)))) (good_values name_good) any.
Proof. eapply field_conv; [exact (keyed_field_law name_codec k)|done|done|apply map_whole_any]. Qed.
End values.
Lemma labels_field k : FieldCodec k (Fields.keyed k) labels_or_omitted (good_values name_good) any.
Proof.
  eapply field_conv; [exact (named_values k)| |done|done]. intros M. unfold write_map, labels_or_omitted.
  destruct (decide (M = ∅)); [by rewrite !bool_decide_eq_true_2|]. rewrite !bool_decide_eq_false_2 by done.
  assert (∀ l : list (LabelKey.t * LabelValue.t), try_map (write_entry (to := λ v : LabelValue.t, Ok (CanonicalValue.Text (as_ref v)))) l
    = Ok ((λ entry, (CanonicalValue.text (LabelKey.as_str entry.1), CanonicalValue.text (LabelValue.as_str entry.2))) <$> l)) as ->; [|done].
  induction l as [|e l IH]; [done|]. cbn [try_map]. by rewrite IH.
Qed.

(** ** The types of the manifest

    [good_*] is what the Rust type keeps of its values. *)
Ltac kept := intros []; cbn; unfold any; rewrite ?andb_true_r; try reflexivity; by rewrite ?andb_assoc.
Ltac distinct := repeat (apply NoDup_cons; split; [set_solver|]); apply NoDup_nil_2.
Ltac record := eapply codec_ext; [eapply map_codec|..].
Tactic Notation "field" uconstr(p) uconstr(law) := eapply (struct_cons p law); intros ?.
Ltac no_more := apply struct_nil; let a := fresh in intros a; destruct a; cbn; split; [intuition congruence|by intros [= -> ->]].
Ltac recorded := [> distinct|vm_compute; reflexivity|intros []; reflexivity|kept|kept].
Definition good_schema (a : SchemaCompat.t) : bool :=
  name_good (SchemaCompat.schema_id a)
  && u32 (SchemaCompat.version a).
Lemma schema_codec : ValueCodec (A := SchemaCompat.t) from_canonical to_canonical good_schema any.
Proof.
  record.
  field SchemaCompat.schema_id (name_field "schemaId").
  field SchemaCompat.version (required_field u32_codec "version").
  no_more.
  all: recorded.
Qed.
Definition good_descriptor (a : ArtifactDescriptor.t) : bool :=
  name_good (ArtifactDescriptor.role a)
  && name_good (ArtifactDescriptor.digest a)
  && u64 (ArtifactDescriptor.size_bytes a)
  && name_good (ArtifactDescriptor.media_type a)
  && good_option good_schema (ArtifactDescriptor.schema a).
Lemma descriptor_codec : ValueCodec (A := ArtifactDescriptor.t) from_canonical to_canonical good_descriptor any.
Proof.
  record.
  field ArtifactDescriptor.role (name_field "role").
  field ArtifactDescriptor.digest (name_field "digest").
  field ArtifactDescriptor.size_bytes (required_field u64_codec "sizeBytes").
  field ArtifactDescriptor.media_type (name_field "mediaType").
  field ArtifactDescriptor.schema (optional schema_codec "schema").
  no_more.
  all: recorded.
Qed.
Definition good_component (a : ComponentInstance.t) : bool :=
  name_good (ComponentInstance.instance_id a)
  && good_descriptor (ComponentInstance.artifact a)
  && name_good (ComponentInstance.plugin_id a)
  && name_good (ComponentInstance.model_id a)
  && name_good (ComponentInstance.schema_id a)
  && name_good (ComponentInstance.engine a)
  && name_good (ComponentInstance.lifecycle a)
  && good_names (ComponentInstance.roles a)
  && good_names (ComponentInstance.state_ownership a)
  && good_values good_scalar (ComponentInstance.config a)
  && good_values u64 (ComponentInstance.limits a).
Lemma component_codec : ValueCodec (A := ComponentInstance.t) from_canonical to_canonical good_component any.
Proof.
  record.
  field ComponentInstance.instance_id (name_field "instanceId").
  field ComponentInstance.artifact (required_field descriptor_codec "artifact").
  field ComponentInstance.plugin_id (name_field "pluginId").
  field ComponentInstance.model_id (name_field "modelId").
  field ComponentInstance.schema_id (name_field "schemaId").
  field ComponentInstance.engine (name_field "engine").
  field ComponentInstance.lifecycle (name_field "lifecycle").
  field ComponentInstance.roles (names "roles").
  field ComponentInstance.state_ownership (names "stateOwnership").
  field ComponentInstance.config (values scalar_codec "config").
  field ComponentInstance.limits (values u64_codec "limits").
  no_more.
  all: recorded.
Qed.
Definition good_channel (a : StateChannel.t) : bool :=
  name_good (StateChannel.channel_id a)
  && good_schema (StateChannel.schema a)
  && forallb u32 (StateChannel.shape a)
  && good_option name_good (StateChannel.owner a).
Lemma channel_codec : ValueCodec (A := StateChannel.t) from_canonical to_canonical good_channel any.
Proof.
  record.
  field StateChannel.channel_id (name_field "channelId").
  field StateChannel.schema (required_field schema_codec "schema").
  field StateChannel.shape (items u32_codec "shape").
  field StateChannel.owner (optional_name "owner").
  field StateChannel.reduction (required_field reduction_codec "reduction").
  no_more.
  all: recorded.
Qed.
Definition good_invocation (a : StepInvocation.t) : bool :=
  name_good (StepInvocation.invocation_id a)
  && name_good (StepInvocation.instance a)
  && name_good (StepInvocation.phase_id a)
  && good_names (StepInvocation.inputs a)
  && good_names (StepInvocation.outputs a)
  && good_names (StepInvocation.depends_on a).
Lemma invocation_codec : ValueCodec (A := StepInvocation.t) from_canonical to_canonical good_invocation any.
Proof.
  record.
  field StepInvocation.invocation_id (name_field "invocationId").
  field StepInvocation.instance (name_field "instance").
  field StepInvocation.phase_id (name_field "phaseId").
  field StepInvocation.inputs (names "inputs").
  field StepInvocation.outputs (names "outputs").
  field StepInvocation.depends_on (names "dependsOn").
  no_more.
  all: recorded.
Qed.
Definition good_plan (a : StepPlan.t) : bool :=
  name_good (StepPlan.profile a)
  && forallb good_invocation (StepPlan.invocations a).
Definition whole_plan (a : StepPlan.t) : bool := nonempty (StepPlan.invocations a).
Lemma plan_codec : ValueCodec (A := StepPlan.t) from_canonical to_canonical good_plan whole_plan.
Proof.
  record.
  field StepPlan.profile (name_field "profile").
  field StepPlan.invocations (present_items invocation_codec "invocations").
  no_more.
  all: recorded.
Qed.
Definition good_constraint (a : PlacementConstraint.t) : bool :=
  name_good (PlacementConstraint.constraint a)
  && good_names (PlacementConstraint.instances a)
  && good_values good_scalar (PlacementConstraint.parameters a).
Lemma constraint_codec : ValueCodec (A := PlacementConstraint.t) from_canonical to_canonical good_constraint any.
Proof.
  record.
  field PlacementConstraint.constraint (name_field "constraint").
  field PlacementConstraint.instances (names "instances").
  field PlacementConstraint.parameters (values scalar_codec "parameters").
  no_more.
  all: recorded.
Qed.
Definition good_compute (a : ComputeSpec.t) : bool :=
  name_good (ComputeSpec.workload_graph_profile a)
  && forallb good_component (ComputeSpec.components a)
  && forallb good_channel (ComputeSpec.channels a)
  && good_plan (ComputeSpec.step_plan a)
  && forallb good_constraint (ComputeSpec.placement_constraints a).
Definition whole_compute (a : ComputeSpec.t) : bool := nonempty (ComputeSpec.components a) && whole_plan (ComputeSpec.step_plan a).
Lemma compute_codec : ValueCodec (A := ComputeSpec.t) from_canonical to_canonical good_compute whole_compute.
Proof.
  record.
  field ComputeSpec.workload_graph_profile (name_field "workloadGraphProfile").
  field ComputeSpec.components (present_items component_codec "components").
  field ComputeSpec.channels (items channel_codec "channels").
  field ComputeSpec.step_plan (required_field plan_codec "stepPlan").
  field ComputeSpec.placement_constraints (items constraint_codec "placementConstraints").
  no_more.
  all: recorded.
Qed.
Definition good_integration (a : Integration.t) : bool :=
  name_good (Integration.scheme a)
  && good_values good_scalar (Integration.parameters a).
Lemma integration_codec : ValueCodec (A := Integration.t) from_canonical to_canonical good_integration any.
Proof.
  record.
  field Integration.scheme (name_field "scheme").
  field Integration.parameters (values scalar_codec "parameters").
  no_more.
  all: recorded.
Qed.
Definition good_discretization (a : Discretization.t) : bool :=
  canonical_float (Discretization.space_metres a)
  && canonical_float (Discretization.time_seconds a)
  && good_option good_integration (Discretization.integration a).
Lemma discretization_codec : ValueCodec (A := Discretization.t) from_canonical to_canonical good_discretization any.
Proof.
  record.
  field Discretization.space_metres (required_field f64_codec "spaceMetres").
  field Discretization.time_seconds (required_field f64_codec "timeSeconds").
  field Discretization.integration (optional integration_codec "integration").
  no_more.
  all: recorded.
Qed.
Definition good_bounds (a : DomainBounds.t) : bool :=
  match a with DomainBounds.Cube side => canonical_float side | DomainBounds.Box sides => forallb canonical_float sides end.
Definition whole_bounds (a : DomainBounds.t) : bool :=
  match a with DomainBounds.Cube _ => true | DomainBounds.Box sides => nonempty sides end.
Definition shape_text (a : DomainBounds.t) : string :=
  match a with DomainBounds.Cube _ => "cube" | DomainBounds.Box _ => "box" end.
Definition write_sides (a : DomainBounds.t) : result CanonicalError.t (option CanonicalValue.t) :=
  match a with
  | DomainBounds.Cube side => some_value (CanonicalValue.F64 side)
  | DomainBounds.Box sides => some_value (CanonicalValue.Array (CanonicalValue.F64 <$> sides))
  end.
Definition read_sides (shape : string) : Fields.reader DomainBounds.t :=
  match shape with
  | "cube" => side_metres ← Fields.required "sideMetres"; mret (DomainBounds.Cube side_metres)
  | "box" => side_metres ← Fields.list "sideMetres"; mret (DomainBounds.Box side_metres)
  | other => Fields.at_ (λ path, refused (Path.field path "shape") ("`" +:+ other +:+ "` is not a domain shape; expected cube or box"))
  end.
Lemma text_codec : ValueCodec text_from_canonical (λ s, Ok (CanonicalValue.Text s)) (is_utf8 ∘ bytes_of) any.
Proof.
  split; [eauto| | | | |done].
  - by intros s v Hs [= <-].
  - by intros s v p _ _ [= <-].
  - intros s v p Hc H. destruct v; try done. by injection H as ->.
  - by intros s t v _ _ [= <-] [= ->].
Qed.
Lemma box_field : FieldCodec "sideMetres" (Fields.list "sideMetres")
  (λ sides : list FiniteF64.t, some_value (CanonicalValue.Array (CanonicalValue.F64 <$> sides))) (forallb canonical_float) nonempty.
Proof.
  eapply field_conv; [exact (present_items f64_codec "sideMetres")| |done|done]. intros l. unfold present_array, array.
  assert (try_map to_canonical l = Ok (E := CanonicalError.t) (CanonicalValue.F64 <$> l)) as ->; [|done].
  induction l as [|x l IH]; [done|]. cbn [try_map]. by rewrite IH.
Qed.
Lemma cube_struct : StructCodec (λ a, shape_text a = "cube") (read_sides "cube") ["sideMetres"]
  (λ a, [write_sides a]) good_bounds whole_bounds.
Proof.
  pose proof (required_field f64_codec "sideMetres") as law. split.
  - intros [s|l]; by eexists [_].
  - intros [s|l] os Hg H; destruct os as [|o [|]]; try done; injection H as <-; constructor; try done.
    apply (fc_canonical box_field l); done.
  - intros [s|l] f _ HP Hg _ H; [|done]. injection H as H. cbn [read_sides consumed_all]. unfold mbind, Fields.reader_bind, Fields.required.
    rewrite (fc_back law s _ f Hg eq_refl eq_refl); [done|]. by rewrite <-H.
  - intros a f f' _ H. cbn [read_sides] in H. unfold mbind, Fields.reader_bind in H. apply result_bind_ok in H as ([s f1] & Hs & [= <- <-]).
    apply (fc_forth law) in Hs as [-> Hs]. split_and!; [done|done|]. intros [Hc _]%Forall_cons.
    destruct (Hs Hc) as [Hg Hw]. split; [done|]. intros _. specialize (Hw eq_refl). cbn in Hw. injection Hw as Hw. cbn. by rewrite <-Hw.
  - intros [s|l] [s'|l'] os HPa HPb Ha Hb H1 H2; try done. rewrite <-H2 in H1. injection H1 as ->. done.
  - intros [s|l] b f f' _ H Hr; [done|]. injection H as H. cbn [read_sides] in Hr. unfold mbind, Fields.reader_bind in Hr.
    apply result_bind_ok in Hr as ([s f1] & Hs & _). unfold Fields.required in Hs. rewrite required_reads, <-H in Hs. done.
Qed.
Lemma box_struct : StructCodec (λ a, shape_text a = "box") (read_sides "box") ["sideMetres"]
  (λ a, [write_sides a]) good_bounds whole_bounds.
Proof.
  pose proof box_field as law. split.
  - intros [s|l]; by eexists [_].
  - intros [s|l] os Hg H; destruct os as [|o [|]]; try done; injection H as <-; constructor; try done.
    apply (fc_canonical box_field l); done.
  - intros [s|l] f _ HP Hg Hh H; [done|]. injection H as H. cbn [read_sides consumed_all]. unfold mbind, Fields.reader_bind.
    rewrite (fc_back law l _ f Hg Hh eq_refl); [done|]. by rewrite <-H.
  - intros a f f' _ H. cbn [read_sides] in H. unfold mbind, Fields.reader_bind in H. apply result_bind_ok in H as ([s f1] & Hs & [= <- <-]).
    apply (fc_forth law) in Hs as [-> Hs]. split_and!; [done|done|]. intros [Hc _]%Forall_cons.
    destruct (Hs Hc) as [Hg Hw]. split; [done|]. intros Hh. specialize (Hw Hh). injection Hw as Hw. cbn. by rewrite <-Hw.
  - intros [s|l] [s'|l'] os HPa HPb Ha Hb H1 H2; try done. f_equal. destruct os as [|o [|]]; try done.
    injection H1 as H1. injection H2 as H2. apply (fc_inj law l l' o Ha Hb); unfold some_value; congruence.
  - intros [s|l] b f f' _ H Hr; [done|]. injection H as H. cbn [read_sides] in Hr. unfold mbind, Fields.reader_bind in Hr.
    apply result_bind_ok in Hr as ([s f1] & Hs & _). eapply (fc_whole law l s _ f f1 eq_refl); [by rewrite <-H|exact Hs].
Qed.
Lemma read_sides_ok x f r : read_sides x f = Ok r → x = "cube" ∨ x = "box".
Proof.
  destruct (decide (x = "cube")) as [->|H1]; [by left|]. destruct (decide (x = "box")) as [->|H2]; [by right|].
  unfold read_sides. intros H. exfalso. repeat (case_match; try done).
Qed.
Lemma sides_struct x : StructCodec (λ a, True ∧ shape_text a = x) (read_sides x) ["sideMetres"]
  (λ a, [write_sides a]) good_bounds whole_bounds.
Proof.
  split.
  - apply (sc_total cube_struct).
  - apply (sc_canonical cube_struct).
  - intros [s|l] f Hnd [_ <-]; [by apply (sc_back cube_struct)|by apply (sc_back box_struct)].
  - intros a f f' Hnd H. destruct (read_sides_ok _ _ _ H) as [-> | ->];
      [apply (sc_forth cube_struct) in H as (? & ? & ?)|apply (sc_forth box_struct) in H as (? & ? & ?)]; done.
  - intros a b os [_ <-] [_ Hb] Hga Hgb H1 H2. destruct a; [by apply (sc_inj cube_struct _ _ os)|by apply (sc_inj box_struct _ _ os)].
  - intros a b f f' Hnd H Hr. destruct (read_sides_ok _ _ _ Hr) as [-> | ->]; [by apply (sc_whole cube_struct a b f f')|by apply (sc_whole box_struct a b f f')].
Qed.
Lemma bounds_codec : ValueCodec (A := DomainBounds.t) from_canonical to_canonical good_bounds whole_bounds.
Proof.
  record.
  eapply (struct_cons shape_text (required_field text_codec "shape")); intros x.
  apply sides_struct.
  all: recorded.
Qed.
Definition good_domain (a : DomainSpec.t) : bool :=
  u8 (DomainSpec.dimensions a)
  && good_bounds (DomainSpec.bounds a)
  && good_discretization (DomainSpec.discretization a).
Definition whole_domain (a : DomainSpec.t) : bool := whole_bounds (DomainSpec.bounds a).
Lemma domain_codec : ValueCodec (A := DomainSpec.t) from_canonical to_canonical good_domain whole_domain.
Proof.
  record.
  field DomainSpec.dimensions (required_field u8_codec "dimensions").
  field DomainSpec.bounds (required_field bounds_codec "bounds").
  field DomainSpec.discretization (required_field discretization_codec "discretization").
  no_more.
  all: recorded.
Qed.
Definition good_inputs (a : WorkloadInputs.t) : bool :=
  good_option good_descriptor (WorkloadInputs.geometry a)
  && forallb good_descriptor (WorkloadInputs.initial_conditions a)
  && forallb good_descriptor (WorkloadInputs.additional a).
Lemma inputs_codec : ValueCodec (A := WorkloadInputs.t) from_canonical to_canonical good_inputs any.
Proof.
  record.
  field WorkloadInputs.geometry (optional descriptor_codec "geometry").
  field WorkloadInputs.initial_conditions (items descriptor_codec "initialConditions").
  field WorkloadInputs.additional (items descriptor_codec "additional").
  no_more.
  all: recorded.
Qed.
Definition good_requirements (a : WorkloadRequirements.t) : bool :=
  good_values good_scalar (WorkloadRequirements.hardware a)
  && good_values good_scalar (WorkloadRequirements.execution_profile a).
Lemma requirements_codec : ValueCodec (A := WorkloadRequirements.t) from_canonical to_canonical good_requirements any.
Proof.
  record.
  field WorkloadRequirements.hardware (values scalar_codec "hardware").
  field WorkloadRequirements.execution_profile (values scalar_codec "executionProfile").
  no_more.
  all: recorded.
Qed.
Definition good_spec (a : WorkloadSpec.t) : bool :=
  good_compute (WorkloadSpec.compute a)
  && good_domain (WorkloadSpec.domain a)
  && good_inputs (WorkloadSpec.inputs a)
  && good_requirements (WorkloadSpec.requirements a).
Definition whole_spec (a : WorkloadSpec.t) : bool := whole_compute (WorkloadSpec.compute a) && whole_domain (WorkloadSpec.domain a).
Lemma spec_codec : ValueCodec (A := WorkloadSpec.t) from_canonical to_canonical good_spec whole_spec.
Proof.
  record.
  field WorkloadSpec.compute (required_field compute_codec "compute").
  field WorkloadSpec.domain (required_field domain_codec "domain").
  field WorkloadSpec.inputs (required_field inputs_codec "inputs").
  field WorkloadSpec.requirements (required_field requirements_codec "requirements").
  no_more.
  all: recorded.
Qed.
Definition good_meta (a : WorkloadMeta.t) : bool :=
  name_good (WorkloadMeta.name a)
  && good_values name_good (WorkloadMeta.labels a).
Lemma meta_codec : ValueCodec (A := WorkloadMeta.t) from_canonical to_canonical good_meta any.
Proof.
  record.
  field WorkloadMeta.name (name_field "name").
  field WorkloadMeta.labels (labels_field "labels").
  no_more.
  all: recorded.
Qed.
Definition good_manifest (a : WorkloadManifest) : bool :=
  name_good (Resource.api_version a)
  && name_good (Resource.kind a)
  && good_meta (Resource.metadata a)
  && good_spec (Resource.spec a).
Definition whole_manifest (a : WorkloadManifest) : bool := whole_spec (Resource.spec a).
Lemma manifest_codec : ValueCodec (A := WorkloadManifest) from_canonical to_canonical good_manifest whole_manifest.
Proof.
  record.
  field Resource.api_version (name_field "apiVersion").
  field Resource.kind (name_field "kind").
  field Resource.metadata (required_field meta_codec "metadata").
  field Resource.spec (required_field spec_codec "spec").
  no_more.
  all: recorded.
Qed.
Definition good_composed_spec (a : V3.WorkloadSpec) : bool :=
  good_compute (V3.compute a)
  && good_descriptor (V3.selection a)
  && good_descriptor (V3.execution a)
  && forallb good_descriptor (V3.artifacts a)
  && good_requirements (V3.requirements a).
Definition whole_composed_spec (a : V3.WorkloadSpec) : bool := whole_compute (V3.compute a).
Lemma composed_spec_codec : ValueCodec (A := V3.WorkloadSpec) Composed.WorkloadSpec_from_canonical Composed.WorkloadSpec_to_canonical good_composed_spec whole_composed_spec.
Proof.
  record.
  field V3.compute (required_field compute_codec "compute").
  field V3.selection (required_field descriptor_codec "selection").
  field V3.execution (required_field descriptor_codec "execution").
  field V3.artifacts (items descriptor_codec "artifacts").
  field V3.requirements (required_field requirements_codec "requirements").
  no_more.
  all: recorded.
Qed.
Definition good_composed (a : V3.WorkloadManifest) : bool :=
  name_good (Resource.api_version a)
  && name_good (Resource.kind a)
  && good_meta (Resource.metadata a)
  && good_composed_spec (Resource.spec a).
Definition whole_composed (a : V3.WorkloadManifest) : bool := whole_composed_spec (Resource.spec a).
Lemma composed_codec : ValueCodec (A := V3.WorkloadManifest) Composed.WorkloadManifest_from_canonical Composed.WorkloadManifest_to_canonical good_composed whole_composed.
Proof.
  record.
  field Resource.api_version (name_field "apiVersion").
  field Resource.kind (name_field "kind").
  field Resource.metadata (required_field meta_codec "metadata").
  field Resource.spec (required_field composed_spec_codec "spec").
  no_more.
  all: recorded.
Qed.
