(* ===== verification/Digested.v ===== *)
(** * The identity of a workload (crate [orishu-workload], canonical.rs and
    canonical/v3.rs)

    The bytes a manifest is hashed as are read back to it and to nothing else, in
    both formats; so a digest names one workload. *)

From Stdlib Require Import Ascii.
From stdpp Require Import base gmap strings list.
From S2P Require Import Prelude Identity Binary64 Workload Cbor Canonical Codec Recovered Committed.
From S2P Require Antientropy.

Lemma encoding_inj n v w : n ≤ S (S (N.to_nat usize_max)) → (lenN (encoding v) ≤ u64_max)%N → canonical v = true → canonical w = true →
  nests n v = true → nests n w = true → encoding v = encoding w → v = w.
Proof.
  intros Hn Hl Hv Hw Nv Nw He. set (d := Decoder.mk (encoding v) 0 (lenN (encoding v)) (lenN (encoding v))).
  assert (ready (encoding v) d (encoding v ++ [])) as Hr.
  { rewrite app_nil_r. split; [split; cbn; lia|done|done|done]. }
  destruct (value_complete (encoding v) n v Hn Hl Hv Nv d [] Hr) as (d1 & H1 & _).
  rewrite He in Hr at 2. destruct (value_complete (encoding v) n w Hn Hl Hw Nw d [] Hr) as (d2 & H2 & _).
  rewrite H1 in H2. by injection H2.
Qed.

Section identity.
Context {A : Type} {from : CanonicalValue.t → Path.t → result CanonicalError.t A} {to : A → result CanonicalError.t CanonicalValue.t}.
Context {good whole : A → bool} (law : ValueCodec from to good whole) (limits : Limits.t) (Hlimits : machine_limits limits).
Implicit Types (a b : A) (bs : bytes).
Definition to_bytes a : result CanonicalError.t bytes := tree ← to a; encode tree limits.

Lemma to_bytes_ok a bs : to_bytes a = Ok bs ↔ ∃ v, to a = Ok v ∧ encode v limits = Ok bs.
Proof.
  unfold to_bytes. split; [intros (v & Hv & H)%result_bind_ok; eauto|]. by intros (v & -> & H).
Qed.
Lemma encode_inj v w bs : canonical v = true → canonical w = true → encode v limits = Ok bs → encode w limits = Ok bs → v = w.
Proof.
  intros Hv Hw (Ev & Nv & Lv)%encode_ok (Ew & Nw & _)%encode_ok. destruct Hlimits as [Hb Hd]. change usize_max with u64_max in *.
  apply (encoding_inj (levels limits)); [unfold levels; change usize_max with u64_max; lia|rewrite <-Ev; lia|done|done|done|done|congruence].
Qed.
(** What is decoded and read is what would be written. *)
Lemma read_back a t bs : decode bs limits = Ok t → from t Path.root = Ok a → to_bytes a = Ok bs ↔ whole a = true.
Proof.
  intros Hd Hf. apply decode_sound in Hd as [He Hc]; [|done]. destruct (vc_forth law _ _ _ Hc Hf) as [Hg Hw]. split.
  - intros (v & Hv & Hev)%to_bytes_ok. assert (v = t) as -> by (apply (encode_inj v t bs); [by apply (vc_canonical law a)|done..]).
    by apply (vc_whole law a a t Path.root).
  - intros Hwh. apply to_bytes_ok. eauto.
Qed.
Lemma read_good a t bs : decode bs limits = Ok t → from t Path.root = Ok a → good a = true.
Proof. intros Hd Hf. apply decode_sound in Hd as [_ Hc]; [|done]. by apply (vc_forth law _ _ _ Hc) in Hf as [Hg _]. Qed.
(** What was written is decoded and read. *)
Lemma written_back a bs : good a = true → whole a = true → to_bytes a = Ok bs → (lenN bs ≤ Limits.max_canonical_values limits)%N →
  ∃ t, to a = Ok t ∧ decode bs limits = Ok t ∧ from t Path.root = Ok a.
Proof.
  intros Hg Hw (t & Ht & He)%to_bytes_ok Hl. exists t. split_and!; [done| |by apply (vc_back law)].
  apply decode_encoded; [done|by apply (vc_canonical law a)|done|done].
Qed.
Lemma bytes_inj a b bs : good a = true → good b = true → to_bytes a = Ok bs → to_bytes b = Ok bs → a = b.
Proof.
  intros Ha Hb (t & Ht & He)%to_bytes_ok (t' & Ht' & He')%to_bytes_ok.
  assert (t = t') as <- by (apply (encode_inj t t' bs); [by apply (vc_canonical law a)|by apply (vc_canonical law b)|done..]).
  by apply (vc_inj law a b t).
Qed.
End identity.
Arguments to_bytes {A} to limits a.

(** ** The canonical form is the encoding *)
(** C26: For every content and value, the decoder accepts the content as the value exactly when the value is one the
    form can hold and the content is its encoding: nothing else decodes, no value has a second encoding, and the
    encoder's output is always read back. (The budget of values is taken to cover the content.) *)
Theorem decode_exact limits bs v : machine_limits limits → (lenN bs ≤ Limits.max_canonical_values limits)%N →
  decode bs limits = Ok v ↔ canonical v = true ∧ encode v limits = Ok bs.
Proof.
  intros Hl Hb. split; [by intros [He Hc]%decode_sound|]. intros [Hc He]. by apply decode_encoded.
Qed.


(** ** Digests *)
Definition collide `{Antientropy.Sha256} (form form' : result CanonicalError.t bytes) : Prop :=
  ∃ a b, form = Ok a ∧ form' = Ok b ∧ a ≠ b ∧ Antientropy.sha256 a = Antientropy.sha256 b.
Lemma digest_of_bytes `{Antientropy.Sha256} (form form' : result CanonicalError.t bytes) d :
  (canonical ← form; Ok (WorkloadDigest.of_canonical_bytes canonical)) = Ok (E := CanonicalError.t) d →
  (canonical ← form'; Ok (WorkloadDigest.of_canonical_bytes canonical)) = Ok (E := CanonicalError.t) d →
  (∃ bs, form = Ok bs ∧ form' = Ok bs) ∨ collide form form'.
Proof.
  intros Hd Hd'. apply result_bind_ok in Hd as (a & Ha & [= <-]). apply result_bind_ok in Hd' as (b & Hb & Hd').
  injection Hd' as Hd'. destruct (decide (a = b)) as [->|Hne]; [left; eauto|]. right. exists a, b. by split_and!.
Qed.
(** C8: Two workloads of the same digest are the same manifest, field for field, unless their canonical forms are two
    different contents of the same hash: a digest commits to everything the manifest says. *)
Theorem workload_digest_commits `{Antientropy.Sha256} limits (m m' : WorkloadManifest) d : machine_limits limits →
  good_manifest m = true → good_manifest m' = true →
  workload_digest m limits = Ok d → workload_digest m' limits = Ok d → m = m' ∨ collide (canonical_bytes m limits) (canonical_bytes m' limits).
Proof.
  intros Hl Hg Hg' Hd Hd'. destruct (digest_of_bytes _ _ _ Hd Hd') as [(bs & Hb & Hb')|?]; [|by right].
  left. by apply (bytes_inj manifest_codec limits Hl m m' bs).
Qed.

(** ** The composed format *)
Lemma shallow_machine limits : machine_limits limits → machine_limits (Composed.shallow limits).
Proof. intros [Hb Hd]. split; cbn; lia. Qed.
Lemma shallow_idemp limits : Composed.shallow (Composed.shallow limits) = Composed.shallow limits.
Proof. unfold Composed.shallow. cbn. f_equal. lia. Qed.
Lemma composed_bytes_ok (m : V3.WorkloadManifest) limits bs : Composed.canonical_bytes m limits = Ok bs ↔
  Composed.check_discriminator m = Ok () ∧ Composed.raw_bounds m limits = Ok ()
  ∧ ∃ t, Composed.WorkloadManifest_to_canonical m = Ok t ∧ Composed.check_collections (Composed.shallow limits) "" t = Ok ()
    ∧ encode t (Composed.shallow limits) = Ok bs.
Proof.
  unfold Composed.canonical_bytes. split.
  - intros H. apply result_bind_ok in H as ([] & H1 & H). apply result_bind_ok in H as ([] & H2 & H).
    apply result_bind_ok in H as (t & H3 & H). apply result_bind_ok in H as ([] & H4 & H). eauto 10.
  - intros (-> & -> & t & H3 & H4 & H5). cbn [mbind result_bind]. unfold to_canonical. rewrite H3. cbn [mbind result_bind]. by rewrite H4.
Qed.
Lemma composed_bytes_shallow m limits : Composed.canonical_bytes m (Composed.shallow limits) = Composed.canonical_bytes m limits.
Proof. unfold Composed.canonical_bytes. rewrite shallow_idemp. reflexivity. Qed.

(** The same of the composed format, whose bytes are bounded field by field before they are encoded and after
    they are decoded: a content is read as a manifest exactly when it is that manifest's bytes, and the manifest names
    valid values and has no empty graph, plan or box. *)
Theorem composed_read_exact limits bs (m : V3.WorkloadManifest) : machine_limits limits → (lenN bs ≤ Limits.max_canonical_values limits)%N →
  Composed.from_canonical_bytes bs limits = Ok m ↔ good_composed m = true ∧ whole_composed m = true ∧ Composed.canonical_bytes m limits = Ok bs.
Proof.
  intros Hl Hb. pose proof (shallow_machine _ Hl) as Hs. unfold Composed.from_canonical_bytes. split.
  - intros H. apply result_bind_ok in H as (t & Ht & H). apply result_bind_ok in H as ([] & _ & H).
    apply result_bind_ok in H as (m' & Hm & H). rewrite composed_bytes_shallow in H. apply result_bind_ok in H as (again & Ha & H).
    destruct (bool_decide (again = bs)) eqn:E; [|done]. apply bool_decide_eq_true in E as ->. injection H as ->.
    split_and!; [by apply (read_good composed_codec _ Hs m t bs)| |done].
    apply (read_back composed_codec _ Hs m t bs); [done|done|]. apply composed_bytes_ok in Ha as (_ & _ & t' & H1 & _ & H2).
    apply to_bytes_ok. eauto.
  - intros (Hg & Hw & Hc). pose proof Hc as Hc'. apply composed_bytes_ok in Hc as (_ & _ & t & H1 & H2 & H3).
    destruct (written_back composed_codec _ Hs m bs Hg Hw) as (t' & Ht & Hd & Hf); [apply to_bytes_ok; eauto|done|].
    rewrite H1 in Ht. injection Ht as <-. rewrite Hd. cbn [mbind result_bind]. rewrite H2. cbn [mbind result_bind].
    unfold from_canonical. rewrite Hf. cbn [mbind result_bind]. rewrite composed_bytes_shallow, Hc'. cbn [mbind result_bind].
    by rewrite bool_decide_eq_true_2.
Qed.
(** Two composed workloads of the same digest are the same manifest, unless their bytes are two different
    contents of the same hash. *)
Theorem composed_digest_commits `{Antientropy.Sha256} limits (m m' : V3.WorkloadManifest) d : machine_limits limits →
  good_composed m = true → good_composed m' = true →
  Composed.workload_digest m limits = Ok d → Composed.workload_digest m' limits = Ok d →
  m = m' ∨ collide (Composed.canonical_bytes m limits) (Composed.canonical_bytes m' limits).
Proof.
  intros Hl Hg Hg' Hd Hd'. destruct (digest_of_bytes _ _ _ Hd Hd') as [(bs & Hb & Hb')|?]; [|by right]. left.
  apply composed_bytes_ok in Hb as (_ & _ & t & H1 & _ & H3), Hb' as (_ & _ & t' & H1' & _ & H3').
  apply (bytes_inj composed_codec _ (shallow_machine _ Hl) m m' bs Hg Hg'); apply to_bytes_ok; eauto.
Qed.

(** ** Two workloads *)
Definition example_descriptor (role : string) (b : ascii) : ArtifactDescriptor.t :=
  ArtifactDescriptor.mk (ArtifactRole.mk role) (ArtifactDigest.from_sha256 (replicate 32 b)) 1024 (MediaType.mk "application/wasm")
    (Some (SchemaCompat.mk (SchemaId.mk "dev.orishu.gas") 2)).
Definition example_number (n : N) : FiniteF64.t := FiniteF64.mk (f64_from_bits n).
Definition example_scalars : gmap ParameterName.t ScalarValue.t :=
  <[ParameterName.mk "gamma" := ScalarValue.Real (example_number 4609434218613702656)]>
  (<[ParameterName.mk "order" := ScalarValue.Integer (-3)]> (<[ParameterName.mk "solver" := ScalarValue.Text "roe"]> ∅)).
Definition example_compute : ComputeSpec.t :=
  ComputeSpec.mk (GraphProfile.mk "staged/1")
    [ComponentInstance.mk (ComponentInstanceId.mk "gas") (example_descriptor "component" "a") (PluginId.mk "dev.orishu.gas") (ModelId.mk "euler")
       (SchemaId.mk "dev.orishu.gas") (Engine.mk "wasm") (LifecycleId.mk "static") [ComponentRole.mk "solver"] [StateChannelId.mk "density"]
       example_scalars (<[LimitName.mk "memory" := 65536%N]> ∅)]
    [StateChannel.mk (StateChannelId.mk "density") (SchemaCompat.mk (SchemaId.mk "dev.orishu.field") 1) [64%N; 64%N]
       (Some (ComponentInstanceId.mk "gas")) Reduction.Single]
    (StepPlan.mk (GraphProfile.mk "staged/1")
       [StepInvocation.mk (StepInvocationId.mk "step") (ComponentInstanceId.mk "gas") (PhaseId.mk "advance") [StateChannelId.mk "density"]
          [StateChannelId.mk "density"] []])
    [PlacementConstraint.mk (ConstraintName.mk "colocate") [ComponentInstanceId.mk "gas"] example_scalars].
Definition example_requirements : WorkloadRequirements.t := WorkloadRequirements.mk example_scalars ∅.
Definition example_meta (name : string) : WorkloadMeta.t :=
  WorkloadMeta.mk (WorkloadName.mk name) (<[LabelKey.mk "team" := LabelValue.mk "fluids"]> ∅).
Definition example_manifest (name : string) : WorkloadManifest :=
  manifest (example_meta name)
    (WorkloadSpec.mk example_compute
       (DomainSpec.mk 2 (DomainBounds.Box [example_number 4607182418800017408; example_number 4607182418800017408])
          (Discretization.mk (example_number 4576918229304087675) (example_number 4562254508917369340)
             (Some (Integration.mk (ParameterName.mk "rk4") example_scalars))))
       (WorkloadInputs.mk None [example_descriptor "initial-conditions" "b"] []) example_requirements).
Definition example_composed (name : string) : V3.WorkloadManifest :=
  V3.manifest (example_meta name)
    (V3.mk example_compute (example_descriptor "plugin-selection" "c") (example_descriptor "scientific-execution" "d")
       [example_descriptor "geometry" "e"] example_requirements).
Definition written_bytes (form : result CanonicalError.t bytes) : bytes := match form with Ok bs => bs | Err _ => [] end.
Lemma written_ok form : is_ok form = true → form = Ok (written_bytes form).
Proof. by destruct form. Qed.
Lemma default_limits : machine_limits Limits.DEFAULT.
Proof. split; vm_compute; done. Qed.
Lemma example_good : good_manifest (example_manifest "tunnel") = true ∧ whole_manifest (example_manifest "tunnel") = true.
Proof. vm_compute. done. Qed.
Lemma composed_good : good_composed (example_composed "tunnel") = true ∧ whole_composed (example_composed "tunnel") = true.
Proof. vm_compute. done. Qed.
Definition example_value : CanonicalValue.t :=
  CanonicalValue.Array
    [CanonicalValue.UInt 300; CanonicalValue.NInt (-5); CanonicalValue.F64 (example_number 4607182418800017408); CanonicalValue.Bytes ["000"%char];
     CanonicalValue.Map [(CanonicalValue.Text "b", CanonicalValue.Bool true); (CanonicalValue.Text "aa", CanonicalValue.Array [])]].
Ltac within_budget := apply N.leb_le; vm_compute; reflexivity.

Lemma decode_exact_witness :
  decode (written_bytes (encode example_value Limits.DEFAULT)) Limits.DEFAULT = Ok example_value.
Proof.
  apply (decode_exact Limits.DEFAULT (written_bytes (encode example_value Limits.DEFAULT)) example_value default_limits); [within_budget|].
  split; [vm_compute; reflexivity|]. apply written_ok. vm_compute. reflexivity.
Defined.
Lemma composed_read_exact_witness :
  Composed.from_canonical_bytes (written_bytes (Composed.canonical_bytes (example_composed "tunnel") Limits.DEFAULT)) Limits.DEFAULT = Ok (example_composed "tunnel").
Proof.
  apply (composed_read_exact Limits.DEFAULT (written_bytes (Composed.canonical_bytes (example_composed "tunnel") Limits.DEFAULT)) (example_composed "tunnel") default_limits);
    [within_budget|].
  split; [apply composed_good|]. split; [apply composed_good|]. apply written_ok. vm_compute. reflexivity.
Defined.
(** Two workloads whose forms differ, under a hash of the last bytes only. *)
Definition example_digest : result CanonicalError.t WorkloadDigest.t :=
  @workload_digest Antientropy.toy_sha256 (example_manifest "tunnel") Limits.DEFAULT.
Definition the_digest (r : result CanonicalError.t WorkloadDigest.t) : WorkloadDigest.t :=
  match r with Ok d => d | Err _ => WorkloadDigest.mk (ArtifactDigest.from_sha256 []) end.
Lemma workload_digest_commits_witness :
  example_manifest "tunnel" = example_manifest "nozzle"
  ∨ @collide Antientropy.toy_sha256 (canonical_bytes (example_manifest "tunnel") Limits.DEFAULT) (canonical_bytes (example_manifest "nozzle") Limits.DEFAULT).
Proof.
  apply (@workload_digest_commits Antientropy.toy_sha256 Limits.DEFAULT (example_manifest "tunnel") (example_manifest "nozzle")
           (the_digest example_digest) default_limits); vm_compute; reflexivity.
Defined.
Lemma composed_digest_commits_witness :
  example_composed "tunnel" = example_composed "nozzle"
  ∨ @collide Antientropy.toy_sha256 (Composed.canonical_bytes (example_composed "tunnel") Limits.DEFAULT) (Composed.canonical_bytes (example_composed "nozzle") Limits.DEFAULT).
Proof.
  apply (@composed_digest_commits Antientropy.toy_sha256 Limits.DEFAULT (example_composed "tunnel") (example_composed "nozzle")
           (the_digest (@Composed.workload_digest Antientropy.toy_sha256 (example_composed "tunnel") Limits.DEFAULT)) default_limits); vm_compute; reflexivity.
Defined.
(** A graph of no components has a canonical form, which is not read back. *)
Definition empty_graph (m : WorkloadManifest) : WorkloadManifest :=
  manifest (Resource.metadata m)
    (WorkloadSpec.mk (ComputeSpec.mk (GraphProfile.mk "staged/1") [] [] (StepPlan.mk (GraphProfile.mk "staged/1") []) [])
       (WorkloadSpec.domain (Resource.spec m)) (WorkloadInputs.mk None [] []) (WorkloadSpec.requirements (Resource.spec m))).
Example empty_graph_unreadable :
  let form := canonical_bytes (empty_graph (example_manifest "tunnel")) Limits.DEFAULT in
  is_ok form = true
  ∧ match manifest_from_canonical_bytes (written_bytes form) Limits.DEFAULT with
    | Err (CanonicalError.RedundantEmpty path) => path = "$.spec.compute.components"
    | _ => False
    end.
Proof. vm_compute. split; reflexivity. Qed.

(** The encoder has no budget of values: what it writes may be more than the
    decoder reads under the same limits. *)
Definition limits_with (reported values : N) : Limits.t := {|
  Limits.max_manifest_bytes := 4 * 1024 * 1024; Limits.max_nesting_depth := 32; Limits.max_components := 64; Limits.max_channels := 256;
  Limits.max_channel_shape_rank := 8; Limits.max_step_invocations := 256; Limits.max_inputs_per_invocation := 32;
  Limits.max_outputs_per_invocation := 32; Limits.max_dependencies_per_invocation := 32; Limits.max_state_ownership_per_component := 32;
  Limits.max_roles_per_component := 16; Limits.max_config_entries := 128; Limits.max_limit_entries := 32; Limits.max_parameter_entries := 64;
  Limits.max_artifacts := 512; Limits.max_artifact_bytes := 64 * 1024 * 1024 * 1024; Limits.max_aggregate_declared_bytes := 1024 * 1024 * 1024 * 1024;
  Limits.max_initial_conditions := 64; Limits.max_placement_constraints := 64; Limits.max_labels := 32; Limits.max_text_bytes := 4096;
  Limits.max_domain_dimensions := 4; Limits.max_reported_errors := reported; Limits.max_canonical_values := values |}.
Example encoded_beyond_the_budget :
  let form := encode example_value (limits_with 256 8) in
  is_ok form = true ∧ match decode (written_bytes form) (limits_with 256 8) with Err (CanonicalError.TooManyValues _) => True | _ => False end.
Proof. vm_compute. done. Qed.
