(* ===== verification/Sound.v ===== *)
(** * The workloads that are admitted (crate [orishu-workload], closure.rs)

    What a check enforces, what the checks of a graph, of the scalars and of the
    artifacts enforce together, in terms of the manifest alone; and so which
    manifests, with which bytes, [validate_closure] admits. *)

From Stdlib Require Import Ascii.
From stdpp Require Import base gmap strings list sorting.
From S2P Require Import Prelude Identity Binary64 Workload Cbor Canonical Closure.
From S2P Require Antientropy.

(** * Step plans without a cycle (crate [orishu-workload], closure.rs)

    Retiring what waits for nothing ends with nothing left exactly when the
    invocations can be put in an order their dependencies respect. *)

Implicit Types (pending : gmap StepInvocationId.t (gset StepInvocationId.t)) (rank : StepInvocationId.t → nat).

(** What each invocation still waits for has a smaller rank. *)
Definition ranked rank pending : Prop := ∀ id deps d, pending !! id = Some deps → d ∈ deps → rank d < rank id.
(** What is waited for is waiting. *)
Definition closed pending : Prop := ∀ id deps d, pending !! id = Some deps → d ∈ deps → is_Some (pending !! d).

Lemma retire_lookup pending id i : retire pending id !! i = if decide (i = id) then None else (λ deps, deps ∖ {[id]}) <$> pending !! i.
Proof.
  unfold retire. rewrite lookup_fmap. destruct (decide (i = id)) as [->|Hne]; [by rewrite lookup_delete_eq|by rewrite lookup_delete_ne].
Qed.
Lemma retire_many_lookup l : ∀ pending i,
  foldl retire pending l !! i = if decide (i ∈ l) then None else (λ deps, deps ∖ list_to_set l) <$> pending !! i.
Proof.
  induction l as [|id l IH]; intros pending i; cbn [foldl].
  - rewrite decide_False by apply not_elem_of_nil. destruct (pending !! i); cbn; [f_equal; set_solver|done].
  - rewrite IH, retire_lookup. destruct (decide (i ∈ l)) as [Hi|Hi].
    + rewrite decide_True; [done|]. apply elem_of_cons. by right.
    + destruct (decide (i = id)) as [->|Hne].
      * rewrite decide_True; [done|]. apply elem_of_cons. by left.
      * rewrite decide_False by (rewrite elem_of_cons; by intros [?|?]). rewrite <-option_fmap_compose.
        destruct (pending !! i); cbn; [f_equal; set_solver|done].
Qed.
Lemma ready_spec pending id : id ∈ ready_of pending ↔ pending !! id = Some ∅.
Proof.
  unfold ready_of. rewrite list_elem_of_fmap. split.
  - intros ([i deps] & -> & Hin). apply list_elem_of_filter in Hin as [He Hin]. cbn in *. subst. by apply elem_of_btree_entries.
  - intros H. exists (id, ∅). split; [done|]. apply list_elem_of_filter. split; [done|]. by apply elem_of_btree_entries.
Qed.
(** A round keeps only what it must. *)
Lemma round_closed pending : closed pending → closed (foldl retire pending (ready_of pending)).
Proof.
  intros Hc id deps d Hid Hd. rewrite retire_many_lookup in Hid. destruct (decide (id ∈ _)); [done|].
  destruct (pending !! id) as [deps'|] eqn:E; [|done]. injection Hid as <-. apply elem_of_difference in Hd as [Hd Hn].
  destruct (Hc _ _ _ E Hd) as [deps'' Hd']. rewrite retire_many_lookup. rewrite decide_False by (intros Hin; apply Hn; by apply elem_of_list_to_set).
  rewrite Hd'. by eexists.
Qed.
Lemma round_ranked rank pending : ranked rank pending → ranked rank (foldl retire pending (ready_of pending)).
Proof.
  intros Hr id deps d Hid Hd. rewrite retire_many_lookup in Hid. destruct (decide (id ∈ _)); [done|].
  destruct (pending !! id) as [deps'|] eqn:E; [|done]. injection Hid as <-. apply elem_of_difference in Hd as [Hd _]. by eapply Hr.
Qed.
Lemma round_unranked rank pending : ranked rank (foldl retire pending (ready_of pending)) →
  ranked (λ id, if decide (id ∈ ready_of pending) then 0 else S (rank id)) pending.
Proof.
  intros Hr id deps d Hid Hd. destruct (decide (id ∈ ready_of pending)) as [Hin|Hn].
  - apply ready_spec in Hin. rewrite Hin in Hid. injection Hid as <-. by apply not_elem_of_empty in Hd.
  - destruct (decide (d ∈ ready_of pending)) as [_|Hnd]; [lia|]. apply le_n_S.
    apply (Hr id (deps ∖ list_to_set (ready_of pending)) d).
    + rewrite retire_many_lookup, decide_False by done. by rewrite Hid.
    + apply elem_of_difference. split; [done|]. by rewrite elem_of_list_to_set.
Qed.
(** What can be ranked has something ready. *)
Lemma ranked_ready rank pending : closed pending → ranked rank pending → pending ≠ ∅ → ready_of pending ≠ [].
Proof.
  intros Hc Hr Hne Hready.
  assert (∀ n id, rank id < n → ¬ is_Some (pending !! id)) as Hnone.
  { induction n as [|n IH]; intros id Hlt [deps Hid]; [lia|]. destruct (decide (deps = ∅)) as [->|Hd].
    - apply ready_spec in Hid. rewrite Hready in Hid. by apply not_elem_of_nil in Hid.
    - apply set_choose_L in Hd as [d Hd]. pose proof (Hr _ _ _ Hid Hd) as Hlt'. eapply (IH d); [lia|by eapply Hc]. }
  apply Hne, map_empty. intros id. destruct (pending !! id) as [deps|] eqn:E; [|done]. exfalso.
  by apply (Hnone (S (rank id)) id); [lia|].
Qed.
Lemma retire_many_size l : ∀ pending, size (foldl retire pending l) ≤ size pending.
Proof.
  induction l as [|id l IH]; intros pending; cbn [foldl]; [done|]. etrans; [apply IH|]. unfold retire. rewrite map_size_fmap, map_size_delete.
  case_match; unfold Datatypes.id; lia.
Qed.
Lemma round_smaller pending : ready_of pending ≠ [] → size (foldl retire pending (ready_of pending)) < size pending.
Proof.
  destruct (ready_of pending) as [|id l] eqn:E; [done|]. intros _. cbn [foldl].
  assert (pending !! id = Some ∅) as Hid by (apply ready_spec; rewrite E; apply elem_of_cons; by left).
  eapply Nat.le_lt_trans; [apply retire_many_size|]. unfold retire. rewrite map_size_fmap, map_size_delete, Hid.
  assert (size pending ≠ 0) as Hs; [|lia]. intros Hs. apply map_size_empty_inv in Hs. by rewrite Hs in Hid.
Qed.
Lemma retire_all_ranked fuel : ∀ pending, closed pending → size pending ≤ fuel →
  retire_all fuel pending = ∅ ↔ ∃ rank, ranked rank pending.
Proof.
  induction fuel as [|fuel IH]; intros pending Hc Hs.
  - assert (pending = ∅) as -> by (apply map_size_empty_inv; lia). split; [|done]. intros _. exists (λ _, 0). intros id deps d Hid. done.
  - cbn [retire_all]. destruct (decide (ready_of pending = [])) as [Hready|Hready].
    + rewrite Hready. split.
      * intros ->. exists (λ _, 0). intros id deps d Hid. done.
      * intros [rank Hr]. destruct (decide (pending = ∅)) as [|Hne]; [done|]. by apply (ranked_ready rank) in Hready.
    + assert (retire_all (S fuel) pending = retire_all fuel (foldl retire pending (ready_of pending))) as Hround.
      { cbn [retire_all]. by destruct (ready_of pending). }
      cbn [retire_all] in Hround. rewrite Hround.
      pose proof (round_smaller _ Hready) as Hlt. rewrite IH; [|by apply round_closed|lia]. split.
      * intros [rank Hr]. eexists. by apply round_unranked.
      * intros [rank Hr]. exists rank. by apply round_ranked.
Qed.
Lemma retire_all_subset fuel : ∀ pending, size (retire_all fuel pending) ≤ size pending.
Proof.
  induction fuel as [|fuel IH]; intros pending; cbn [retire_all]; [done|]. destruct (ready_of pending) as [|id l]; [done|].
  etrans; [apply IH|]. apply (retire_many_size (id :: l)).
Qed.

(** ** The dependencies of a plan *)
Implicit Types (steps : list StepInvocation.t).
Definition declares steps (id : StepInvocationId.t) : Prop := ∃ i, i ∈ steps ∧ StepInvocation.invocation_id i = id.
(** An order in which every declared dependency comes first. *)
Definition acyclic steps : Prop := ∃ rank, ∀ i d, i ∈ steps → d ∈ StepInvocation.depends_on i → declares steps d →
  rank d < rank (StepInvocation.invocation_id i).

Definition waits steps (i : StepInvocation.t) : gset StepInvocationId.t :=
  list_to_set (filter (λ d, d ∈ (list_to_set (StepInvocation.invocation_id <$> steps) : gset StepInvocationId.t)) (StepInvocation.depends_on i)).
Lemma declares_spec steps id : id ∈ (list_to_set (StepInvocation.invocation_id <$> steps) : gset StepInvocationId.t) ↔ declares steps id.
Proof.
  rewrite elem_of_list_to_set, list_elem_of_fmap. unfold declares. split; intros (i & H1 & H2); exists i; [by split|by subst].
Qed.
Lemma elem_of_waits steps i d : d ∈ waits steps i ↔ d ∈ StepInvocation.depends_on i ∧ declares steps d.
Proof. unfold waits. rewrite elem_of_list_to_set, list_elem_of_filter, declares_spec. by rewrite (comm (∧)). Qed.
Lemma pending_of_map steps : NoDup (StepInvocation.invocation_id <$> steps) →
  pending_of steps = list_to_map ((λ i, (StepInvocation.invocation_id i, waits steps i)) <$> steps).
Proof.
  intros Hnd. unfold pending_of. fold (waits steps).
  assert (∀ l (m : gmap StepInvocationId.t (gset StepInvocationId.t)), foldl (λ m i, <[StepInvocation.invocation_id i := waits steps i]> m) m l
    = foldl (λ m (e : StepInvocationId.t * gset StepInvocationId.t), <[e.1 := e.2]> m) m ((λ i, (StepInvocation.invocation_id i, waits steps i)) <$> l)) as Hfold.
  { induction l as [|i l IH]; intros m; [done|]. cbn. apply IH. }
  etrans; [apply Hfold|]. rewrite foldl_insert_distinct; [by rewrite map_union_empty|]. by rewrite <-list_fmap_compose.
Qed.
Lemma pending_of_lookup steps id deps : NoDup (StepInvocation.invocation_id <$> steps) →
  pending_of steps !! id = Some deps ↔ ∃ i, i ∈ steps ∧ StepInvocation.invocation_id i = id ∧ deps = waits steps i.
Proof.
  intros Hnd. rewrite pending_of_map by done. rewrite <-elem_of_list_to_map by (by rewrite <-list_fmap_compose).
  rewrite list_elem_of_fmap. split.
  - intros (i & [= -> ->] & Hi). eauto.
  - intros (i & Hi & <- & ->). eauto.
Qed.
Lemma pending_of_closed steps : NoDup (StepInvocation.invocation_id <$> steps) → closed (pending_of steps).
Proof.
  intros Hnd id deps d Hid Hd. apply pending_of_lookup in Hid as (i & Hi & <- & ->); [|done].
  apply elem_of_waits in Hd as [_ (j & Hj & Hjd)]. exists (waits steps j). apply pending_of_lookup; eauto.
Qed.
Lemma ranked_acyclic steps : NoDup (StepInvocation.invocation_id <$> steps) → (∃ rank, ranked rank (pending_of steps)) ↔ acyclic steps.
Proof.
  intros Hnd. split; intros [rank Hr]; exists rank.
  - intros i d Hi Hd Hdec. apply (Hr _ (waits steps i)); [apply pending_of_lookup; eauto|by apply elem_of_waits].
  - intros id deps d Hid Hd. apply pending_of_lookup in Hid as (i & Hi & <- & ->); [|done].
    apply elem_of_waits in Hd as [Hd Hdec]. by apply Hr.
Qed.
Lemma cyclic_count_acyclic compute : NoDup (StepInvocation.invocation_id <$> StepPlan.invocations (ComputeSpec.step_plan compute)) →
  cyclic_invocation_count compute = None ↔ acyclic (StepPlan.invocations (ComputeSpec.step_plan compute)).
Proof.
  intros Hnd. unfold cyclic_invocation_count.
  rewrite <-(ranked_acyclic _ Hnd), <-(retire_all_ranked (size (pending_of _)) _ (pending_of_closed _ Hnd)) by done.
  destruct (decide (retire_all (size (pending_of (StepPlan.invocations (ComputeSpec.step_plan compute))))
    (pending_of (StepPlan.invocations (ComputeSpec.step_plan compute))) = ∅)) as [He|Hne].
  - by rewrite He, bool_decide_eq_true_2.
  - by rewrite bool_decide_eq_false_2.
Qed.

(** * Checks and what they enforce *)

(** ** What a check enforces

    As long as one problem can be reported, a check that finds none leaves none. *)
Definition enforces (f : check) (P : Prop) : Prop := ∀ e, (0 < Errors.limit e)%N →
  Errors.limit (f e) = Errors.limit e ∧ (Errors.found (f e) = [] ↔ Errors.found e = [] ∧ P).

Lemma enforces_iff f P Q : enforces f P → (P ↔ Q) → enforces f Q.
Proof. intros H HPQ e He. destruct (H e He) as [H1 H2]. split; [done|]. by rewrite H2, HPQ. Qed.
Lemma enforces_skip : enforces skip True.
Proof. intros e He. split; [done|]. unfold skip, id. by split; [|intros [? _]]. Qed.
Lemma push_found error e : (0 < Errors.limit e)%N → Errors.found (Errors.push error e) ≠ [].
Proof.
  intros He. unfold Errors.push. destruct (N.ltb_spec (lenN (Errors.found e)) (Errors.limit e)) as [|Hle]; cbn.
  - by destruct (Errors.found e).
  - intros Hf. rewrite Hf in Hle. change (lenN []) with 0%N in Hle. lia.
Qed.
Lemma push_limit error e : Errors.limit (Errors.push error e) = Errors.limit e.
Proof. unfold Errors.push. by destruct (_ <? _)%N. Qed.
Lemma enforces_report error : enforces (report error) False.
Proof. intros e He. split; [apply push_limit|]. split; [by intros H%push_found|by intros [_ []]]. Qed.
Lemma enforces_then f g P Q : enforces f P → enforces g Q → enforces (f ⨟ g) (P ∧ Q).
Proof.
  intros Hf Hg e He. destruct (Hf e He) as [Hl HP]. unfold andthen. destruct (Hg (f e)) as [Hl' HQ]; [by rewrite Hl|].
  split; [congruence|]. by rewrite HQ, HP, (assoc (∧)).
Qed.
Lemma enforces_when b f P : enforces f P → enforces (when b f) (b = true → P).
Proof.
  intros Hf. destruct b; cbn; [eapply enforces_iff; [exact Hf|]; split; [by intros|intros H; by apply H]|].
  eapply enforces_iff; [apply enforces_skip|]. split; [by intros|done].
Qed.
Lemma enforces_when_report b error : enforces (when b (report error)) (b = false).
Proof. eapply enforces_iff; [apply enforces_when, enforces_report|]. destruct b; split; try done. Qed.
Lemma enforces_for_each {A} (l : list A) f (P : A → Prop) : (∀ x, enforces (f x) (P x)) → enforces (for_each l f) (Forall P l).
Proof.
  intros Hf. induction l as [|x l IH]; cbn [for_each].
  - eapply enforces_iff; [apply enforces_skip|]. by split; [constructor|].
  - eapply enforces_iff; [apply enforces_then; [apply Hf|exact IH]|]. by rewrite Forall_cons.
Qed.
Lemma enforces_unique `{Countable K} {A} (key : A → K) duplicate before after (B C : A → Prop) l : ∀ seen,
  (∀ x, enforces (before x) (B x)) → (∀ x, enforces (after x) (C x)) →
  enforces (for_each_unique key duplicate before after seen l)
    (NoDup (key <$> l) ∧ Forall (λ x, B x ∧ C x) l ∧ Forall (λ x, key x ∉ seen) l).
Proof.
  intros seen HB HC. revert seen. induction l as [|x l IH]; intros seen; cbn [for_each_unique].
  - eapply enforces_iff; [apply enforces_skip|]. split; [intros _; repeat constructor|done].
  - eapply enforces_iff; [apply enforces_then; [apply HB|]; apply enforces_then; [apply enforces_when_report|]; apply enforces_then; [apply HC|apply IH]|].
    cbn [fmap list_fmap]. rewrite bool_decide_eq_false, NoDup_cons, !Forall_cons.
    assert (Forall (λ y, key y ∉ ({[key x]} ∪ seen : gset K)) l ↔ key x ∉ key <$> l ∧ Forall (λ y, key y ∉ seen) l) as ->; [|tauto].
    rewrite list_elem_of_fmap, !Forall_forall. split.
    + intros Hall. split; [intros (y & Hxy & Hy); apply (Hall y Hy); rewrite Hxy; set_solver|]. intros y Hy. specialize (Hall y Hy). set_solver.
    + intros [Hx Hall] y Hy. specialize (Hall y Hy). intros [Hk%elem_of_singleton|?]%elem_of_union; [|done]. apply Hx. by exists y.
Qed.
Lemma enforces_limit what found limit : enforces (check_limit what found limit) (found ≤ limit)%N.
Proof. eapply enforces_iff; [apply enforces_when_report|]. apply N.ltb_ge. Qed.
(** Composition, one check after another. *)
Ltac enforce := repeat match goal with
  | |- enforces (_ ⨟ _) _ => apply enforces_then
  | |- enforces (check_limit _ _ _) _ => apply enforces_limit
  | |- enforces (when _ (report _)) _ => apply enforces_when_report
  | |- enforces (report _) _ => apply enforces_report
  | |- enforces skip _ => apply enforces_skip
  end.
Lemma negb_decided P `{!Decision P} : negb (bool_decide P) = false ↔ P.
Proof. by rewrite negb_false_iff, bool_decide_eq_true. Qed.

Lemma implied a b : a && negb b = false ↔ (a = true → b = true).
Proof. destruct a, b; cbn; split; try reflexivity; try discriminate; intros H; try reflexivity; discriminate (H eq_refl). Qed.

(** ** The indexes of a graph *)
Section pushed.
Context `{Countable K} {A V : Type} (value : A → V) (keys : A → list K).
Definition values_at (l : list A) (k : K) : list V := l ≫= λ x, (λ _, value x) <$> filter (λ k', k' = k) (keys x).
Definition pushed (m : gmap K (list V)) (l : list A) : gmap K (list V) :=
  foldl (λ m x, foldl (λ m k, push_at k (value x) m) m (keys x)) m l.
Lemma push_keys_lookup v (ks : list K) : ∀ (m : gmap K (list V)) k, default [] (foldl (λ m k, push_at k v m) m ks !! k)
  = default [] (m !! k) ++ ((λ _, v) <$> filter (λ k', k' = k) ks).
Proof.
  induction ks as [|k' ks IH]; intros m k; cbn [foldl]; [cbn; by rewrite app_nil_r|]. rewrite IH. unfold push_at. rewrite filter_cons.
  destruct (decide (k' = k)) as [->|Hne].
  - rewrite lookup_insert_eq. cbn. by rewrite <-(assoc_L (++)).
  - by rewrite lookup_insert_ne.
Qed.
Lemma push_keys_is_Some v (ks : list K) : ∀ (m : gmap K (list V)) k, is_Some (foldl (λ m k, push_at k v m) m ks !! k) ↔ is_Some (m !! k) ∨ k ∈ ks.
Proof.
  induction ks as [|k' ks IH]; intros m k; cbn [foldl].
  - split; [by left|]. intros [?|Hn]; [done|by apply not_elem_of_nil in Hn].
  - rewrite IH. unfold push_at. rewrite lookup_insert_is_Some, elem_of_cons. destruct (decide (k' = k)) as [->|Hne]; [split; intros; auto|].
    split; [intros [[?|[_ ?]]|?]; auto; congruence|]. intros [?|[?|?]]; auto; congruence.
Qed.
Lemma pushed_lookup l : ∀ m k, default [] (pushed m l !! k) = default [] (m !! k) ++ values_at l k.
Proof.
  unfold pushed, values_at. induction l as [|x l IH]; intros m k; cbn [foldl]; [by rewrite app_nil_r|].
  rewrite IH, push_keys_lookup, bind_cons. by rewrite <-(assoc_L (++)).
Qed.
Lemma pushed_is_Some l : ∀ m k, is_Some (pushed m l !! k) ↔ is_Some (m !! k) ∨ ∃ x, x ∈ l ∧ k ∈ keys x.
Proof.
  unfold pushed. induction l as [|x l IH]; intros m k; cbn [foldl].
  - split; [by left|]. intros [?|(x & Hx & _)]; [done|by apply not_elem_of_nil in Hx].
  - rewrite IH, push_keys_is_Some. setoid_rewrite elem_of_cons. split.
    + intros [[?|?]|(y & ? & ?)]; [by left|right; eauto|right; eauto].
    + intros [?|(y & [->|?] & ?)]; [auto|auto|right; eauto].
Qed.
End pushed.
(** The instances that claim a channel, and the invocations that write it, with
    the times they do. *)
Definition claims (components : list ComponentInstance.t) (channel : StateChannelId.t) : list ComponentInstanceId.t :=
  values_at ComponentInstance.instance_id ComponentInstance.state_ownership components channel.
Definition writers (steps : list StepInvocation.t) (channel : StateChannelId.t) : list StepInvocation.t :=
  values_at id StepInvocation.outputs steps channel.
Definition produced (steps : list StepInvocation.t) (channel : StateChannelId.t) : Prop := ∃ i, i ∈ steps ∧ channel ∈ StepInvocation.outputs i.
Lemma claimants_lookup components channel : default [] (claimants_of components !! channel) = claims components channel.
Proof. etrans; [apply (pushed_lookup ComponentInstance.instance_id ComponentInstance.state_ownership components ∅)|]. by rewrite lookup_empty. Qed.
Lemma producers_lookup steps channel : default [] (producers_of steps !! channel) = writers steps channel.
Proof. etrans; [apply (pushed_lookup id StepInvocation.outputs steps ∅)|]. by rewrite lookup_empty. Qed.
Lemma producers_spec steps channel : contains_key channel (producers_of steps) = true ↔ produced steps channel.
Proof.
  rewrite contains_key_spec. etrans; [apply (pushed_is_Some id StepInvocation.outputs steps ∅)|]. rewrite lookup_empty.
  split; [intros [[? [=]]|?]; done|by right].
Qed.
Lemma channels_of_map channels : NoDup (StateChannel.channel_id <$> channels) →
  channels_of channels = list_to_map ((λ c, (StateChannel.channel_id c, c)) <$> channels).
Proof.
  intros Hnd. unfold channels_of.
  assert (∀ l (m : gmap StateChannelId.t StateChannel.t), foldl (λ m c, <[StateChannel.channel_id c := c]> m) m l
    = foldl (λ m (e : StateChannelId.t * StateChannel.t), <[e.1 := e.2]> m) m ((λ c, (StateChannel.channel_id c, c)) <$> l)) as ->.
  { induction l as [|c l IH]; intros m; [done|]. cbn. apply IH. }
  rewrite foldl_insert_distinct; [by rewrite map_union_empty|]. by rewrite <-list_fmap_compose.
Qed.
Lemma channels_of_lookup channels id c : NoDup (StateChannel.channel_id <$> channels) →
  channels_of channels !! id = Some c ↔ c ∈ channels ∧ StateChannel.channel_id c = id.
Proof.
  intros Hnd. rewrite channels_of_map by done. rewrite <-elem_of_list_to_map by (by rewrite <-list_fmap_compose). rewrite list_elem_of_fmap. split.
  - intros (c' & [= -> ->] & Hc). done.
  - intros [Hc <-]. eauto.
Qed.
Lemma channels_of_spec channels id : NoDup (StateChannel.channel_id <$> channels) →
  contains_key id (channels_of channels) = true ↔ id ∈ StateChannel.channel_id <$> channels.
Proof.
  intros Hnd. rewrite contains_key_spec, list_elem_of_fmap. split.
  - intros [c Hc]. apply channels_of_lookup in Hc as [Hc <-]; [|done]. eauto.
  - intros (c & -> & Hc). exists c. by apply channels_of_lookup.
Qed.

(** ** A sound graph *)
Section graph.
Context (limits : Limits.t).
Implicit Types (c : ComponentInstance.t) (ch : StateChannel.t) (i : StepInvocation.t) (p : PlacementConstraint.t).
Definition component_ok c : Prop :=
  ArtifactRole.as_str (ArtifactDescriptor.role (ComponentInstance.artifact c)) = ArtifactRole.COMPONENT
  ∧ (lenN (ComponentInstance.roles c) ≤ Limits.max_roles_per_component limits)%N
  ∧ (lenN (ComponentInstance.state_ownership c) ≤ Limits.max_state_ownership_per_component limits)%N
  ∧ (map_len (ComponentInstance.config c) ≤ Limits.max_config_entries limits)%N
  ∧ (map_len (ComponentInstance.limits c) ≤ Limits.max_limit_entries limits)%N.
Definition owner_known (instances : list ComponentInstanceId.t) ch : Prop :=
  match StateChannel.owner ch with Some owner => owner ∈ instances | None => True end.
Definition channel_ok (instances : list ComponentInstanceId.t) ch : Prop :=
  (lenN (StateChannel.shape ch) ≤ Limits.max_channel_shape_rank limits)%N ∧ owner_known instances ch.
Definition placement_ok (instances : list ComponentInstanceId.t) p : Prop :=
  (lenN (PlacementConstraint.instances p) ≤ Limits.max_components limits)%N
  ∧ (map_len (PlacementConstraint.parameters p) ≤ Limits.max_parameter_entries limits)%N
  ∧ Forall (λ id, id ∈ instances) (PlacementConstraint.instances p).
Definition invocation_ok (instances : list ComponentInstanceId.t) (channels : list StateChannelId.t) (steps : list StepInvocationId.t) i : Prop :=
  (lenN (StepInvocation.inputs i) ≤ Limits.max_inputs_per_invocation limits)%N
  ∧ (lenN (StepInvocation.outputs i) ≤ Limits.max_outputs_per_invocation limits)%N
  ∧ (lenN (StepInvocation.depends_on i) ≤ Limits.max_dependencies_per_invocation limits)%N
  ∧ StepInvocation.instance i ∈ instances
  ∧ Forall (λ id, id ∈ channels) (StepInvocation.inputs i ++ StepInvocation.outputs i)
  ∧ Forall (λ id, id ∈ steps) (StepInvocation.depends_on i).
(** A channel that has an owner is claimed by it, once, and is not reduced; one
    that has none is claimed by nobody. *)
Definition owned_by_claim (components : list ComponentInstance.t) (id : StateChannelId.t) ch : Prop :=
  claims components id = option_list (StateChannel.owner ch)
  ∧ (is_Some (StateChannel.owner ch) → StateChannel.reduction ch = Reduction.Single).
(** A channel that has an owner is written by one invocation, of the owner; one
    that is not reduced, by at most one. *)
Definition written_once (steps : list StepInvocation.t) (id : StateChannelId.t) ch : Prop :=
  match StateChannel.owner ch with
  | Some owner => ∃ i, writers steps id = [i] ∧ StepInvocation.instance i = owner
  | None => StateChannel.reduction ch = Reduction.Single → (lenN (writers steps id) ≤ 1)%N
  end.

Record sound_graph (compute : ComputeSpec.t) : Prop := {
  sg_component_count : (lenN (ComputeSpec.components compute) ≤ Limits.max_components limits)%N;
  sg_channel_count : (lenN (ComputeSpec.channels compute) ≤ Limits.max_channels limits)%N;
  sg_step_count : (lenN (StepPlan.invocations (ComputeSpec.step_plan compute)) ≤ Limits.max_step_invocations limits)%N;
  sg_placement_count : (lenN (ComputeSpec.placement_constraints compute) ≤ Limits.max_placement_constraints limits)%N;
  sg_profile : ComputeSpec.workload_graph_profile compute = StepPlan.profile (ComputeSpec.step_plan compute);
  sg_instances : NoDup (ComponentInstance.instance_id <$> ComputeSpec.components compute);
  sg_components : Forall component_ok (ComputeSpec.components compute);
  sg_channel_ids : NoDup (StateChannel.channel_id <$> ComputeSpec.channels compute);
  sg_channels : Forall (channel_ok (ComponentInstance.instance_id <$> ComputeSpec.components compute)) (ComputeSpec.channels compute);
  sg_owned : Forall (λ c, Forall (λ id, id ∈ StateChannel.channel_id <$> ComputeSpec.channels compute) (ComponentInstance.state_ownership c))
    (ComputeSpec.components compute);
  sg_placements : Forall (placement_ok (ComponentInstance.instance_id <$> ComputeSpec.components compute)) (ComputeSpec.placement_constraints compute);
  sg_ownership : Forall (λ ch, owned_by_claim (ComputeSpec.components compute) (StateChannel.channel_id ch) ch) (ComputeSpec.channels compute);
  sg_step_ids : NoDup (StepInvocation.invocation_id <$> StepPlan.invocations (ComputeSpec.step_plan compute));
  sg_steps : Forall (invocation_ok (ComponentInstance.instance_id <$> ComputeSpec.components compute)
      (StateChannel.channel_id <$> ComputeSpec.channels compute)
      (StepInvocation.invocation_id <$> StepPlan.invocations (ComputeSpec.step_plan compute)))
    (StepPlan.invocations (ComputeSpec.step_plan compute));
  sg_produced : Forall (λ i, Forall (produced (StepPlan.invocations (ComputeSpec.step_plan compute))) (StepInvocation.inputs i))
    (StepPlan.invocations (ComputeSpec.step_plan compute));
  sg_written : Forall (λ ch, written_once (StepPlan.invocations (ComputeSpec.step_plan compute)) (StateChannel.channel_id ch) ch) (ComputeSpec.channels compute);
  sg_acyclic : acyclic (StepPlan.invocations (ComputeSpec.step_plan compute))
}.

Lemma enforces_component c : enforces (check_component limits c) (component_ok c).
Proof. eapply enforces_iff; [unfold check_component; enforce|]. by rewrite negb_decided. Qed.
Lemma enforces_owner instances ch : enforces (check_owner (list_to_set instances) ch) (owner_known instances ch).
Proof.
  unfold check_owner, owner_known. destruct (StateChannel.owner ch); [|apply enforces_skip].
  eapply enforces_iff; [apply enforces_when_report|]. by rewrite negb_decided, elem_of_list_to_set.
Qed.
Lemma enforces_owned channels c : enforces (check_owned channels c) (Forall (λ id, contains_key id channels = true) (ComponentInstance.state_ownership c)).
Proof. apply enforces_for_each. intros id. eapply enforces_iff; [apply enforces_when_report|]. apply negb_false_iff. Qed.
Lemma enforces_placement instances p : enforces (check_constraint limits (list_to_set instances) p) (placement_ok instances p).
Proof.
  unfold check_constraint, placement_ok. enforce. apply enforces_for_each. intros id.
  eapply enforces_iff; [apply enforces_when_report|]. by rewrite negb_decided, elem_of_list_to_set.
Qed.
Lemma enforces_invocation instances channels (steps : list StepInvocationId.t) i :
  enforces (check_invocation limits (list_to_set instances) (channels_of channels) (list_to_set steps) i)
    ((lenN (StepInvocation.inputs i) ≤ Limits.max_inputs_per_invocation limits)%N
     ∧ (lenN (StepInvocation.outputs i) ≤ Limits.max_outputs_per_invocation limits)%N
     ∧ (lenN (StepInvocation.depends_on i) ≤ Limits.max_dependencies_per_invocation limits)%N
     ∧ StepInvocation.instance i ∈ instances
     ∧ Forall (λ id, contains_key id (channels_of channels) = true) (StepInvocation.inputs i ++ StepInvocation.outputs i)
     ∧ Forall (λ id, id ∈ steps) (StepInvocation.depends_on i)).
Proof.
  unfold check_invocation. do 3 (apply enforces_then; [apply enforces_limit|]).
  apply enforces_then; [|apply enforces_then].
  - eapply enforces_iff; [apply enforces_when_report|]. by rewrite negb_decided, elem_of_list_to_set.
  - apply enforces_for_each. intros id. eapply enforces_iff; [apply enforces_when_report|]. apply negb_false_iff.
  - apply enforces_for_each. intros id. eapply enforces_iff; [apply enforces_when_report|]. by rewrite negb_decided, elem_of_list_to_set.
Qed.
Lemma enforces_inputs channels steps i : enforces (check_inputs channels (producers_of steps) i)
  (Forall (λ id, contains_key id channels = true → produced steps id) (StepInvocation.inputs i)).
Proof.
  apply enforces_for_each. intros id. eapply enforces_iff; [apply enforces_when_report|]. rewrite <-producers_spec. apply implied.
Qed.
Lemma enforces_reconcile components entry : enforces (reconcile_channel (claimants_of components) entry)
  (owned_by_claim components entry.1 entry.2).
Proof.
  destruct entry as [id ch]. cbn [fst snd]. unfold owned_by_claim. unfold reconcile_channel. rewrite claimants_lookup.
  destruct (claims components id) as [|claimant [|second rest]], (StateChannel.owner ch) as [owner|] eqn:Ho; cbn [negb option_list].
  all: try (eapply enforces_iff; [apply enforces_report|]; split; [done|]; by intros [? _]).
  - eapply enforces_iff; [apply enforces_skip|]. split; [|done]. intros _. split; [done|]. by intros [? ?].
  - destruct (decide (owner = claimant)) as [->|Hne].
    + rewrite bool_decide_eq_true_2 by done. cbn [negb]. eapply enforces_iff; [apply enforces_when_report|]. rewrite negb_decided.
      split; [done|]. intros [_ H]. by apply H.
    + rewrite bool_decide_eq_false_2 by done. cbn [negb]. eapply enforces_iff; [apply enforces_report|]. split; [done|]. intros [H _]. cbn in H. congruence.
Qed.
Lemma enforces_writers steps id ch : enforces (check_writers_of (producers_of steps) (id, ch)) (written_once steps id ch).
Proof.
  unfold check_writers_of, written_once. rewrite producers_lookup. destruct (StateChannel.owner ch) as [owner|].
  - rewrite (bool_decide_eq_true_2 (is_Some (Some owner))) by (by eexists). cbn [orb andb]. destruct (writers steps id) as [|w ws].
    + rewrite bool_decide_eq_true_2 by done. eapply enforces_iff; [apply enforces_report|]. split; [done|]. by intros (i & ? & _).
    + rewrite bool_decide_eq_false_2 by done. eapply enforces_iff.
      { apply enforces_then; [apply enforces_when_report|]. apply enforces_for_each. intros i.
        eapply enforces_iff; [apply enforces_when_report|apply negb_decided]. }
      rewrite N.ltb_ge, Forall_cons. split.
      * intros (Hlen & Hw & _). exists w. split; [|done]. destruct ws; [done|]. unfold lenN in Hlen. cbn in Hlen. lia.
      * intros (i & [= -> ->] & Hi). split_and!; [done|done|constructor].
  - rewrite (bool_decide_eq_false_2 (is_Some None)) by (by intros [? ?]). cbn [orb]. eapply enforces_iff; [apply enforces_when_report|].
    destruct (decide (StateChannel.reduction ch = Reduction.Single)) as [Hs|Hs].
    + rewrite bool_decide_eq_true_2 by done. cbn [andb]. rewrite N.ltb_ge. split; [by intros|]. intros H. by apply H.
    + rewrite bool_decide_eq_false_2 by done. cbn [andb]. split; [|done]. intros _ ?. congruence.
Qed.

(** The checks of a graph, as they are made. *)
Definition graph_checks (compute : ComputeSpec.t) : Prop :=
  let components := ComputeSpec.components compute in
  let channels := ComputeSpec.channels compute in
  let steps := StepPlan.invocations (ComputeSpec.step_plan compute) in
  let index := channels_of channels in
  (lenN components ≤ Limits.max_components limits)%N
  ∧ (lenN channels ≤ Limits.max_channels limits)%N
  ∧ (lenN steps ≤ Limits.max_step_invocations limits)%N
  ∧ (lenN (ComputeSpec.placement_constraints compute) ≤ Limits.max_placement_constraints limits)%N
  ∧ ComputeSpec.workload_graph_profile compute = StepPlan.profile (ComputeSpec.step_plan compute)
  ∧ (NoDup (ComponentInstance.instance_id <$> components) ∧ Forall (λ c, True ∧ component_ok c) components ∧ Forall (λ c, ComponentInstance.instance_id c ∉ (∅ : gset _)) components)
  ∧ (NoDup (StateChannel.channel_id <$> channels)
     ∧ Forall (λ ch, (lenN (StateChannel.shape ch) ≤ Limits.max_channel_shape_rank limits)%N ∧ owner_known (ComponentInstance.instance_id <$> components) ch) channels
     ∧ Forall (λ ch, StateChannel.channel_id ch ∉ (∅ : gset _)) channels)
  ∧ Forall (λ c, Forall (λ id, contains_key id index = true) (ComponentInstance.state_ownership c)) components
  ∧ Forall (placement_ok (ComponentInstance.instance_id <$> components)) (ComputeSpec.placement_constraints compute)
  ∧ Forall (λ entry, owned_by_claim components entry.1 entry.2) (btree_entries index)
  ∧ (NoDup (StepInvocation.invocation_id <$> steps) ∧ Forall (λ _, True ∧ True) steps ∧ Forall (λ i, StepInvocation.invocation_id i ∉ (∅ : gset _)) steps)
  ∧ Forall (λ i, (lenN (StepInvocation.inputs i) ≤ Limits.max_inputs_per_invocation limits)%N
      ∧ (lenN (StepInvocation.outputs i) ≤ Limits.max_outputs_per_invocation limits)%N
      ∧ (lenN (StepInvocation.depends_on i) ≤ Limits.max_dependencies_per_invocation limits)%N
      ∧ StepInvocation.instance i ∈ ComponentInstance.instance_id <$> components
      ∧ Forall (λ id, contains_key id index = true) (StepInvocation.inputs i ++ StepInvocation.outputs i)
      ∧ Forall (λ id, id ∈ StepInvocation.invocation_id <$> steps) (StepInvocation.depends_on i)) steps
  ∧ Forall (λ i, Forall (λ id, contains_key id index = true → produced steps id) (StepInvocation.inputs i)) steps
  ∧ Forall (λ entry, written_once steps entry.1 entry.2) (btree_entries index)
  ∧ cyclic_invocation_count compute = None.
Lemma enforces_graph_checks compute : enforces (validate_graph compute limits) (graph_checks compute).
Proof.
  unfold validate_graph, graph_checks. cbv zeta. do 4 (apply enforces_then; [apply enforces_limit|]).
  apply enforces_then; [eapply enforces_iff; [apply enforces_when_report|apply negb_decided]|].
  apply enforces_then; [apply enforces_unique; intros x; [apply enforces_skip|apply enforces_component]|].
  apply enforces_then; [apply enforces_unique; intros x; [apply enforces_limit|apply enforces_owner]|].
  apply enforces_then; [apply enforces_for_each; intros x; apply enforces_owned|].
  apply enforces_then; [apply enforces_for_each; intros x; apply enforces_placement|].
  apply enforces_then; [apply enforces_for_each; intros x; apply enforces_reconcile|].
  apply enforces_then; [apply enforces_unique; intros x; apply enforces_skip|].
  apply enforces_then; [apply enforces_for_each; intros x; apply enforces_invocation|].
  apply enforces_then; [apply enforces_for_each; intros x; apply enforces_inputs|].
  apply enforces_then; [apply enforces_for_each; intros [id ch]; apply enforces_writers|].
  destruct (cyclic_invocation_count compute); [eapply enforces_iff; [apply enforces_report|]|eapply enforces_iff; [apply enforces_skip|]]; done.
Qed.
(** What holds of every entry of the index holds of every channel. *)
Lemma index_Forall channels (P : StateChannelId.t → StateChannel.t → Prop) : NoDup (StateChannel.channel_id <$> channels) →
  Forall (λ entry, P entry.1 entry.2) (btree_entries (channels_of channels)) ↔ Forall (λ ch, P (StateChannel.channel_id ch) ch) channels.
Proof.
  intros Hnd. rewrite !Forall_forall. split.
  - intros H ch Hch. apply (H (StateChannel.channel_id ch, ch)). by apply elem_of_btree_entries, channels_of_lookup.
  - intros H [id ch] Hin. apply elem_of_btree_entries, channels_of_lookup in Hin as [Hch <-]; [|done]. by apply H.
Qed.
Lemma index_known channels (l : list StateChannelId.t) : NoDup (StateChannel.channel_id <$> channels) →
  Forall (λ id, contains_key id (channels_of channels) = true) l ↔ Forall (λ id, id ∈ StateChannel.channel_id <$> channels) l.
Proof. intros Hnd. split; intros H; (eapply Forall_impl; [exact H|]); intros id; by apply channels_of_spec. Qed.
Lemma Forall_true_and {A} (P : A → Prop) l : Forall (λ x, True ∧ P x) l ↔ Forall P l.
Proof. split; intros H; (eapply Forall_impl; [exact H|]); intros x; cbn; tauto. Qed.
Lemma sound_graph_checks compute : graph_checks compute → sound_graph compute.
Proof.
  intros (H1 & H2 & H3 & H4 & H5 & (H6 & H7 & _) & (H8 & H9 & _) & H10 & H11 & H12 & (H13 & _) & H14 & H15 & H16 & H17).
  apply (proj1 (Forall_true_and component_ok _)) in H7. apply (index_Forall _ (owned_by_claim _)) in H12; [|done].
  apply (index_Forall _ (written_once _)) in H16; [|done].
  split; try done.
  - eapply Forall_impl; [exact H10|]. intros c. by apply index_known.
  - eapply Forall_impl; [exact H14|]. intros i (? & ? & ? & ? & Hch & ?). unfold invocation_ok. rewrite index_known in Hch by done. by split_and!.
  - rewrite Forall_forall in *. intros i Hi. rewrite Forall_forall. intros id Hid. specialize (H15 i Hi). rewrite Forall_forall in H15.
    apply H15; [done|]. destruct (H14 i Hi) as (_ & _ & _ & _ & Hch & _). rewrite Forall_forall in Hch. apply Hch, elem_of_app. by left.
  - by apply cyclic_count_acyclic.
Qed.
Lemma graph_checks_sound compute : sound_graph compute → graph_checks compute.
Proof.
  intros [H1 H2 H3 H4 H5 H6 H7 H8 H9 H10 H11 H12 H13 H14 H15 H16 H17].
  assert (∀ `{Countable K} {A} (key : A → K) l, Forall (λ x, key x ∉ (∅ : gset K)) l) as Hempty by (intros; apply Forall_true; intros; apply not_elem_of_empty).
  unfold graph_checks. split_and!; try done.
  - by apply (proj2 (Forall_true_and component_ok _)).
  - eapply Forall_impl; [exact H10|]. intros c. by apply index_known.
  - by apply (index_Forall _ (owned_by_claim _)).
  - by apply Forall_true.
  - eapply Forall_impl; [exact H14|]. intros i (? & ? & ? & ? & Hch & ?). rewrite <-index_known in Hch by done. by split_and!.
  - eapply Forall_impl; [exact H15|]. intros i Hi. eapply Forall_impl; [exact Hi|]. by intros.
  - by apply (index_Forall _ (written_once _)).
  - by apply cyclic_count_acyclic.
Qed.
Lemma enforces_graph compute : enforces (validate_graph compute limits) (sound_graph compute).
Proof. eapply enforces_iff; [apply enforces_graph_checks|]. split; [apply sound_graph_checks|apply graph_checks_sound]. Qed.
End graph.

(** ** Sound scalars and a sound domain *)
Section scalars.
Context (limits : Limits.t).
Definition text_fits (v : ScalarValue.t) : Prop :=
  match v with ScalarValue.Text text => (str_len text ≤ Limits.max_text_bytes limits)%N | _ => True end.
Definition scalars_fit (m : gmap ParameterName.t ScalarValue.t) : Prop := map_Forall (λ _, text_fits) m.
Record sound_scalars (metadata : WorkloadMeta.t) (compute : ComputeSpec.t) (requirements : WorkloadRequirements.t)
    (parameters : gmap ParameterName.t ScalarValue.t) : Prop := {
  ss_labels : (map_len (WorkloadMeta.labels metadata) ≤ Limits.max_labels limits)%N;
  ss_parameters : (map_len parameters ≤ Limits.max_parameter_entries limits)%N;
  ss_hardware : (map_len (WorkloadRequirements.hardware requirements) ≤ Limits.max_parameter_entries limits)%N;
  ss_profile : (map_len (WorkloadRequirements.execution_profile requirements) ≤ Limits.max_parameter_entries limits)%N;
  ss_configs : Forall (λ c, scalars_fit (ComponentInstance.config c)) (ComputeSpec.components compute);
  ss_placements : Forall (λ p, scalars_fit (PlacementConstraint.parameters p)) (ComputeSpec.placement_constraints compute);
  ss_parameters_fit : scalars_fit parameters;
  ss_hardware_fit : scalars_fit (WorkloadRequirements.hardware requirements);
  ss_profile_fit : scalars_fit (WorkloadRequirements.execution_profile requirements)
}.
Lemma enforces_scalars before m : enforces (check_scalars limits before m) (scalars_fit m).
Proof.
  eapply enforces_iff.
  - apply (enforces_for_each _ _ (λ e, text_fits e.2)). intros [name v]. unfold check_scalar. cbn [snd fst].
    destruct v; try apply enforces_skip. eapply enforces_iff; [apply enforces_when_report|]. apply N.ltb_ge.
  - unfold scalars_fit, map_Forall. rewrite Forall_forall. split.
    + intros H name v Hv. apply (H (name, v)). by apply elem_of_btree_entries.
    + intros H [name v] Hin. apply elem_of_btree_entries in Hin. by eapply H.
Qed.
Lemma enforces_common_scalars metadata compute requirements integration :
  enforces (check_common_scalar_bounds metadata compute requirements integration limits)
    (sound_scalars metadata compute requirements (default ∅ (Integration.parameters <$> integration))).
Proof.
  eapply enforces_iff.
  - unfold check_common_scalar_bounds. cbv zeta. apply enforces_then; [apply enforces_limit|].
    apply enforces_then; [instantiate (1 := (map_len (default ∅ (Integration.parameters <$> integration)) ≤ Limits.max_parameter_entries limits)%N)|].
    { destruct integration; cbn; [apply enforces_limit|]. eapply enforces_iff; [apply enforces_skip|]. split; [intros _; apply N.le_0_l|done]. }
    do 2 (apply enforces_then; [apply enforces_limit|]).
    do 2 (apply enforces_then; [apply enforces_for_each; intros x; apply enforces_scalars|]).
    apply enforces_then; [instantiate (1 := scalars_fit (default ∅ (Integration.parameters <$> integration)))|].
    { destruct integration; cbn; [apply enforces_scalars|]. eapply enforces_iff; [apply enforces_skip|]. split; [|done]. intros _. apply map_Forall_empty. }
    apply enforces_then; apply enforces_scalars.
  - split; [intros (? & ? & ? & ? & ? & ? & ? & ? & ?); by split|]. intros []. by split_and!.
Qed.

Definition extent_ok (space extent : FiniteF64.t) : Prop :=
  FiniteF64.is_positive extent = true ∧ F64.ltb (FiniteF64.get extent) (FiniteF64.get space) = false.
(** Some dimensions, positive steps, and a positive side of at least one step in
    each. *)
Record sound_domain (d : DomainSpec.t) : Prop := {
  sd_dimensions : (0 < DomainSpec.dimensions d ≤ Limits.max_domain_dimensions limits)%N;
  sd_space : FiniteF64.is_positive (Discretization.space_metres (DomainSpec.discretization d)) = true;
  sd_time : FiniteF64.is_positive (Discretization.time_seconds (DomainSpec.discretization d)) = true;
  sd_bounds : match DomainSpec.bounds d with
    | DomainBounds.Cube side => extent_ok (Discretization.space_metres (DomainSpec.discretization d)) side
    | DomainBounds.Box sides => lenN sides = DomainSpec.dimensions d
      ∧ Forall (extent_ok (Discretization.space_metres (DomainSpec.discretization d))) sides
    end
}.
Lemma check_extent_ok space extent : DomainSpec.check_extent space extent = Ok () ↔ extent_ok space extent.
Proof.
  unfold DomainSpec.check_extent, extent_ok. destruct (FiniteF64.is_positive extent); cbn [negb]; [|by split; [|intros [? _]]].
  destruct (F64.ltb _ _); [by split; [|intros [_ ?]]|done].
Qed.
Lemma extents_ok space l : try_for_each (DomainSpec.check_extent space) l = Ok () ↔ Forall (extent_ok space) l.
Proof. rewrite try_for_each_ok. split; intros H; (eapply Forall_impl; [exact H|]); intros x; apply check_extent_ok. Qed.
Lemma validate_domain d : DomainSpec.validate d limits = Ok () ↔ sound_domain d.
Proof.
  unfold DomainSpec.validate.
  destruct ((DomainSpec.dimensions d =? 0)%N || (Limits.max_domain_dimensions limits <? DomainSpec.dimensions d)%N) eqn:Ed.
  { split; [done|]. intros [[H1 H2] _ _ _]. apply orb_true_iff in Ed as [Ed|Ed]; [apply N.eqb_eq in Ed|apply N.ltb_lt in Ed]; lia. }
  apply orb_false_iff in Ed as [E1%N.eqb_neq E2%N.ltb_ge].
  destruct (FiniteF64.is_positive (Discretization.space_metres _)) eqn:Es; cbn [negb]; [|by split; [|intros [_ ? _ _]; congruence]].
  destruct (FiniteF64.is_positive (Discretization.time_seconds _)) eqn:Et; cbn [negb]; [|by split; [|intros [_ _ ? _]; congruence]].
  destruct (DomainSpec.bounds d) as [side|sides] eqn:Eb; cbn [mbind result_bind].
  - rewrite extents_ok. split.
    + intros Hall. split; [lia|done|done|]. rewrite Eb. destruct (N.to_nat (DomainSpec.dimensions d)) as [|n] eqn:En; [lia|].
      cbn in Hall. by apply Forall_cons in Hall as [? _].
    + intros [_ _ _ Hside]. rewrite Eb in Hside. apply Forall_replicate. done.
  - destruct (N.eqb_spec (lenN sides) (DomainSpec.dimensions d)) as [El|El]; cbn [negb mbind result_bind].
    + rewrite extents_ok. split.
      * intros Hall. split; [lia|done|done|]. by rewrite Eb.
      * intros [_ _ _ Hside]. rewrite Eb in Hside. by destruct Hside.
    + split; [done|]. intros [_ _ _ Hside]. rewrite Eb in Hside. by destruct Hside.
Qed.
Lemma enforces_domain manifest : enforces (check_domain manifest limits) (sound_domain (WorkloadSpec.domain (Resource.spec manifest))).
Proof.
  unfold check_domain. eapply enforces_iff; [|apply validate_domain].
  destruct (DomainSpec.validate _ _) as [[]|]; [eapply enforces_iff; [apply enforces_skip|]|eapply enforces_iff; [apply enforces_report|]]; done.
Qed.
End scalars.
