(* ===== verification/Accepted.v ===== *)
(** * Admission of a workload, whole (crate [orishu-workload], closure.rs)

    What is declared of the artifacts, what is verified of their bytes, and the
    manifests and bytes for which there is a verified closure. *)

From Stdlib Require Import Ascii.
From stdpp Require Import base gmap strings list sorting.
From S2P Require Import Prelude Identity Binary64 Workload Cbor Canonical Closure Sound Digested.
From S2P Require Antientropy.

Implicit Types (d : ArtifactDescriptor.t) (ds : list ArtifactDescriptor.t) (g : ArtifactDigest.t) (a : DeclaredArtifact.t).

(** ** What the descriptors declare *)
Definition at_digest ds g : list ArtifactDescriptor.t := filter (λ d, ArtifactDescriptor.digest d = g) ds.
(** The same bytes, whatever their role. *)
Definition same_blob d d' : Prop :=
  ArtifactDescriptor.size_bytes d = ArtifactDescriptor.size_bytes d'
  ∧ ArtifactDescriptor.media_type d = ArtifactDescriptor.media_type d'
  ∧ ArtifactDescriptor.schema d = ArtifactDescriptor.schema d'.
#[export] Instance same_blob_dec d d' : Decision (same_blob d d').
Proof. apply _. Defined.
#[export] Instance same_blob_equivalence : Equivalence same_blob.
Proof.
  split; [done|by intros d d' (? & ? & ?)|]. intros d1 d2 d3 (? & ? & ?) (? & ? & ?). unfold same_blob. split_and!; congruence.
Qed.
Definition agree ds : Prop := ∀ d d', d ∈ ds → d' ∈ ds → ArtifactDescriptor.digest d = ArtifactDescriptor.digest d' → same_blob d d'.

(** What the collapsing loop has of a digest: the first descriptor of it, with the
    roles of those that agree with the first. *)
Definition collapsed ds g : option DeclaredArtifact.t :=
  match at_digest ds g with
  | [] => None
  | d :: rest => Some (DeclaredArtifact.mk g (ArtifactDescriptor.size_bytes d) (ArtifactDescriptor.media_type d) (ArtifactDescriptor.schema d)
      (list_to_set (ArtifactDescriptor.role <$> d :: filter (same_blob d) rest)) d)
  end.
Lemma same_bytes_spec d g roles d' :
  Collapsed.same_bytes (DeclaredArtifact.mk g (ArtifactDescriptor.size_bytes d) (ArtifactDescriptor.media_type d) (ArtifactDescriptor.schema d) roles d) d'
  = bool_decide (same_blob d d').
Proof.
  unfold Collapsed.same_bytes. cbn. apply eq_true_iff_eq. rewrite !andb_true_iff, N.eqb_eq, !bool_decide_eq_true. unfold same_blob. tauto.
Qed.
Lemma at_digest_snoc ds d g : at_digest (ds ++ [d]) g = at_digest ds g ++ (if decide (ArtifactDescriptor.digest d = g) then [d] else []).
Proof. unfold at_digest. rewrite filter_app, filter_cons, filter_nil. by destruct (decide _). Qed.
Lemma at_digest_nil ds g : at_digest ds g = [] ↔ ∀ d, d ∈ ds → ArtifactDescriptor.digest d ≠ g.
Proof.
  unfold at_digest. split.
  - intros H d Hd Hg. assert (d ∈ filter (λ d, ArtifactDescriptor.digest d = g) ds) as Hin by (by apply list_elem_of_filter).
    rewrite H in Hin. by apply not_elem_of_nil in Hin.
  - intros H. destruct (filter _ ds) as [|d l] eqn:E; [done|]. assert (d ∈ filter (λ d, ArtifactDescriptor.digest d = g) ds) as Hin.
    { rewrite E. apply elem_of_cons. by left. }
    apply list_elem_of_filter in Hin as [Hg Hd]. by apply H in Hd.
Qed.
Lemma elem_of_at_digest ds g d : d ∈ at_digest ds g ↔ ArtifactDescriptor.digest d = g ∧ d ∈ ds.
Proof. unfold at_digest. by rewrite list_elem_of_filter. Qed.

Section collapse.
Context (e : Errors.t).
Definition collapse ds : Collapsed.t := foldl Collapsed.add (Collapsed.mk ∅ ∅ e) ds.
Lemma collapse_snoc ds d : collapse (ds ++ [d]) = Collapsed.add (collapse ds) d.
Proof. unfold collapse. by rewrite foldl_app. Qed.
Lemma collapse_lookup ds g : Collapsed.by_digest (collapse ds) !! g = collapsed ds g.
Proof.
  revert g. induction ds as [|d ds IH] using rev_ind; intros g; [apply lookup_empty|].
  rewrite collapse_snoc. unfold Collapsed.add. rewrite IH. unfold collapsed at 1.
  destruct (at_digest ds (ArtifactDescriptor.digest d)) as [|f rest] eqn:Ef.
  - cbn [Collapsed.by_digest]. destruct (decide (ArtifactDescriptor.digest d = g)) as [<-|Hne].
    + rewrite lookup_insert_eq. unfold collapsed. rewrite at_digest_snoc, decide_True, Ef by done. cbn. unfold DeclaredArtifact.of_descriptor.
      do 2 f_equal. by rewrite (right_id_L ∅ (∪)).
    + rewrite lookup_insert_ne, IH by done. unfold collapsed. by rewrite at_digest_snoc, decide_False, app_nil_r.
  - rewrite same_bytes_spec. destruct (decide (ArtifactDescriptor.digest d = g)) as [<-|Hne].
    + unfold collapsed. rewrite at_digest_snoc, decide_True, Ef by done. cbn [app]. rewrite filter_app, filter_cons, filter_nil.
      destruct (decide (same_blob f d)) as [Hs|Hs].
      * rewrite bool_decide_eq_true_2 by done. cbn [Collapsed.by_digest]. rewrite lookup_insert_eq. unfold DeclaredArtifact.with_role. cbn.
        do 2 f_equal. rewrite fmap_app, list_to_set_app_L. cbn. set_solver.
      * rewrite bool_decide_eq_false_2, app_nil_r by done. case_bool_decide; cbn [Collapsed.by_digest]; rewrite IH; unfold collapsed; by rewrite Ef.
    + assert (collapsed (ds ++ [d]) g = collapsed ds g) as -> by (unfold collapsed; by rewrite at_digest_snoc, decide_False, app_nil_r).
      destruct (bool_decide (same_blob f d)); cbn [Collapsed.by_digest]; [by rewrite lookup_insert_ne|]. by case_bool_decide.
Qed.
Lemma agree_snoc ds d : agree (ds ++ [d]) ↔ agree ds ∧ Forall (λ f, same_blob f d) (at_digest ds (ArtifactDescriptor.digest d)).
Proof.
  rewrite Forall_forall. setoid_rewrite elem_of_at_digest. unfold agree. setoid_rewrite elem_of_app. setoid_rewrite elem_of_cons. split.
  - intros H. split; [intros; apply H; auto|]. intros f [Hf Hin]. apply H; auto.
  - intros [H1 H2] x y [Hx|[->|Hx%not_elem_of_nil]] [Hy|[->|Hy%not_elem_of_nil]] Hxy; try done.
    + by apply H1.
    + by apply H2.
    + symmetry. by apply H2.
Qed.
Lemma agree_first ds g f rest d : agree ds → at_digest ds g = f :: rest → same_blob f d → Forall (λ f, same_blob f d) (at_digest ds g).
Proof.
  intros Ha Hat Hs. apply Forall_forall. intros x Hx.
  assert (f ∈ at_digest ds g) as Hf by (rewrite Hat; apply elem_of_cons; by left).
  apply elem_of_at_digest in Hx as [Hgx Hx], Hf as [Hgf Hf]. etrans; [|exact Hs]. apply Ha; [done|done|congruence].
Qed.
Lemma collapse_errors ds : (0 < Errors.limit e)%N → Errors.limit (Collapsed.errors (collapse ds)) = Errors.limit e
  ∧ (Errors.found (Collapsed.errors (collapse ds)) = [] ↔ Errors.found e = [] ∧ agree ds)
  ∧ (Collapsed.conflicted (collapse ds) ≠ ∅ → Errors.found (Collapsed.errors (collapse ds)) ≠ []).
Proof.
  intros He. induction ds as [|d ds (IHl & IHf & IHc)] using rev_ind.
  { cbn. split_and!; [done| |done]. split; [intros ->|by intros [? _]]. split; [done|]. intros x y Hx. by apply not_elem_of_nil in Hx. }
  rewrite collapse_snoc, agree_snoc. unfold Collapsed.add. rewrite collapse_lookup. unfold collapsed.
  destruct (at_digest ds (ArtifactDescriptor.digest d)) as [|f rest] eqn:Ef.
  { cbn [Collapsed.errors Collapsed.conflicted]. split_and!; [done| |done]. rewrite IHf. split; [intros [? ?]; split_and!; [done|done|constructor]|tauto]. }
  rewrite same_bytes_spec. destruct (decide (same_blob f d)) as [Hs|Hs].
  - rewrite bool_decide_eq_true_2 by done. cbn [Collapsed.errors Collapsed.conflicted]. split_and!; [done| |done]. rewrite IHf. rewrite <-Ef.
    split; [|tauto]. intros [? Ha]. split_and!; [done|done|]. by apply (agree_first ds _ f rest).
  - rewrite bool_decide_eq_false_2 by done.
    assert (¬ (Errors.found e = [] ∧ agree ds ∧ Forall (λ f, same_blob f d) (f :: rest))) as Hno by (intros (_ & _ & [? _]%Forall_cons); done).
    destruct (bool_decide (ArtifactDescriptor.digest d ∈ Collapsed.conflicted (collapse ds))) eqn:Ec.
    + apply bool_decide_eq_true in Ec. assert (Errors.found (Collapsed.errors (collapse ds)) ≠ []) as Hne by (apply IHc; set_solver).
      split_and!; [done| |done]. tauto.
    + cbn [Collapsed.errors Collapsed.conflicted]. rewrite push_limit. split_and!; [done| |].
      * split; [|done]. intros H. exfalso. revert H. apply push_found. by rewrite IHl.
      * intros _. apply push_found. by rewrite IHl.
Qed.
End collapse.

(** ** Counting and summing *)
Fixpoint firsts (seen : gset ArtifactDigest.t) ds : list ArtifactDescriptor.t :=
  match ds with
  | [] => []
  | d :: ds =>
    if decide (ArtifactDescriptor.digest d ∈ seen) then firsts seen ds
    else d :: firsts ({[ArtifactDescriptor.digest d]} ∪ seen) ds
  end.
Definition sum (l : list N) : N := foldr N.add 0%N l.
(** The bytes declared, each blob counted once. *)
Definition declared_bytes ds : N := sum (ArtifactDescriptor.size_bytes <$> firsts ∅ ds).

Lemma elem_of_firsts ds : ∀ seen d, d ∈ firsts seen ds ↔ ArtifactDescriptor.digest d ∉ seen ∧ head (at_digest ds (ArtifactDescriptor.digest d)) = Some d.
Proof.
  induction ds as [|x ds IH]; intros seen d; cbn [firsts].
  - split; [by intros ?%not_elem_of_nil|by intros [_ [=]]].
  - unfold at_digest. rewrite filter_cons. fold (at_digest ds (ArtifactDescriptor.digest d)).
    destruct (decide (ArtifactDescriptor.digest x ∈ seen)) as [Hx|Hx].
    + rewrite IH. destruct (decide (ArtifactDescriptor.digest x = ArtifactDescriptor.digest d)) as [Heq|Hne]; [|done].
      cbn [head]. rewrite <-Heq. split; intros [? _]; done.
    + rewrite elem_of_cons, IH. destruct (decide (ArtifactDescriptor.digest x = ArtifactDescriptor.digest d)) as [Heq|Hne]; cbn [head].
      * split.
        -- intros [->|[Hn _]]; [done|]. destruct Hn. apply elem_of_union. left. apply elem_of_singleton. done.
        -- intros [_ [= ->]]. by left.
      * split.
        -- intros [->|[Hn Hh]]; [done|]. split; [|done]. intros Hin. apply Hn, elem_of_union. by right.
        -- intros [Hn Hh]. right. split; [|done]. intros [Hs%elem_of_singleton|?]%elem_of_union; [congruence|done].
Qed.
Lemma NoDup_firsts ds : ∀ seen, NoDup (ArtifactDescriptor.digest <$> firsts seen ds).
Proof.
  induction ds as [|x ds IH]; intros seen; cbn [firsts]; [constructor|]. destruct (decide _) as [Hx|Hx]; [apply IH|].
  cbn. constructor; [|apply IH]. rewrite list_elem_of_fmap. intros (d & Hd & Hin). apply elem_of_firsts in Hin as [Hn _]. apply Hn, elem_of_union.
  left. by apply elem_of_singleton.
Qed.
Lemma firsts_elem ds seen d : d ∈ firsts seen ds → d ∈ ds.
Proof.
  intros [_ Hh]%elem_of_firsts. apply (elem_of_at_digest ds (ArtifactDescriptor.digest d)). destruct (at_digest ds _) as [|x l]; [done|].
  injection Hh as ->. apply elem_of_cons. by left.
Qed.
Lemma firsts_cover ds d : d ∈ ds → ∃ f, f ∈ firsts ∅ ds ∧ ArtifactDescriptor.digest f = ArtifactDescriptor.digest d.
Proof.
  intros Hd. destruct (at_digest ds (ArtifactDescriptor.digest d)) as [|f rest] eqn:E.
  - rewrite at_digest_nil in E. by apply E in Hd.
  - assert (f ∈ at_digest ds (ArtifactDescriptor.digest d)) as Hf by (rewrite E; apply elem_of_cons; by left).
    apply elem_of_at_digest in Hf as [Hf _]. exists f. split; [|done]. apply elem_of_firsts. rewrite Hf, E. split; [apply not_elem_of_empty|done].
Qed.
Lemma sum_perm l k : l ≡ₚ k → sum l = sum k.
Proof. induction 1; unfold sum in *; cbn; lia. Qed.
(** The blobs the loop ends with are the first descriptors of each digest. *)
Lemma entries_firsts e ds : (∀ d, d ∈ firsts ∅ ds → is_Some (collapsed ds (ArtifactDescriptor.digest d)))
  ∧ DeclaredArtifact.descriptor <$> btree_values (Collapsed.by_digest (collapse e ds)) ≡ₚ firsts ∅ ds
  ∧ Forall (λ a, collapsed ds (DeclaredArtifact.digest a) = Some a) (btree_values (Collapsed.by_digest (collapse e ds))).
Proof.
  assert (∀ g a, collapsed ds g = Some a → DeclaredArtifact.digest a = g ∧ head (at_digest ds g) = Some (DeclaredArtifact.descriptor a)
    ∧ ArtifactDescriptor.digest (DeclaredArtifact.descriptor a) = g) as Hc.
  { intros g a. unfold collapsed. destruct (at_digest ds g) as [|f rest] eqn:E; [done|]. intros [= <-]. cbn. split_and!; [done|done|].
    apply (elem_of_at_digest ds g f). rewrite E. apply elem_of_cons. by left. }
  assert (Forall (λ a, collapsed ds (DeclaredArtifact.digest a) = Some a) (btree_values (Collapsed.by_digest (collapse e ds)))) as Hall.
  { apply Forall_forall. intros a Ha. apply elem_of_btree_values in Ha as [g Hg]. rewrite collapse_lookup in Hg. by destruct (Hc _ _ Hg) as [-> _]. }
  split_and!; [| |done].
  - intros d [_ Hh]%elem_of_firsts. unfold collapsed. destruct (at_digest _ _); [done|by eexists].
  - apply NoDup_Permutation.
    + apply (NoDup_fmap_1 ArtifactDescriptor.digest). rewrite <-list_fmap_compose.
      assert (ArtifactDescriptor.digest ∘ DeclaredArtifact.descriptor <$> btree_values (Collapsed.by_digest (collapse e ds))
        = btree_keys (Collapsed.by_digest (collapse e ds))) as ->; [|apply NoDup_btree_keys].
      unfold btree_values, btree_keys. rewrite <-list_fmap_compose. apply list_fmap_ext. intros i [g a] Hi. cbn.
      apply list_elem_of_lookup_2, elem_of_btree_entries in Hi. rewrite collapse_lookup in Hi. by apply Hc.
    + apply (NoDup_fmap_1 ArtifactDescriptor.digest). apply NoDup_firsts.
    + intros d. rewrite elem_of_firsts, list_elem_of_fmap. split.
      * intros (a & -> & Ha). apply elem_of_btree_values in Ha as [g Hg]. rewrite collapse_lookup in Hg. destruct (Hc _ _ Hg) as (_ & Hh & ->).
        split; [apply not_elem_of_empty|done].
      * intros [_ Hh]. destruct (collapsed ds (ArtifactDescriptor.digest d)) as [a|] eqn:E; [|unfold collapsed in E; by destruct (at_digest _ _)].
        exists a. destruct (Hc _ _ E) as (_ & Hh' & _). split; [congruence|]. apply elem_of_btree_values. exists (ArtifactDescriptor.digest d).
        by rewrite collapse_lookup.
Qed.

Definition role_count ds (role : ArtifactRole.t) : N := lenN (filter (λ d, ArtifactDescriptor.role d = role) ds).
Lemma role_counts_lookup ds r : default 0%N (role_counts ds !! r) = role_count ds r.
Proof.
  unfold role_counts, role_count.
  assert (∀ (m : gmap ArtifactRole.t N), default 0%N (foldl (λ m d, <[ArtifactDescriptor.role d := (default 0 (m !! ArtifactDescriptor.role d) + 1)%N]> m) m ds !! r)
    = (default 0 (m !! r) + lenN (filter (λ d, ArtifactDescriptor.role d = r) ds))%N) as Hgen.
  { induction ds as [|d ds IH]; intros m; cbn [foldl]; [rewrite filter_nil; unfold lenN; cbn; lia|]. rewrite IH, filter_cons.
    destruct (decide (ArtifactDescriptor.role d = r)) as [<-|Hne].
    - rewrite lookup_insert_eq. unfold lenN. cbn. lia.
    - by rewrite lookup_insert_ne. }
  rewrite Hgen, lookup_empty. cbn. lia.
Qed.
Lemma enforces_roles ds : enforces (check_roles ds) (∀ r, ArtifactRole.is_singular r = true → (role_count ds r ≤ 1)%N).
Proof.
  eapply enforces_iff.
  - apply (enforces_for_each _ _ (λ e, ArtifactRole.is_singular e.1 = true → (e.2 ≤ 1)%N)). intros [r n]. eapply enforces_iff; [apply enforces_when_report|].
    cbn. destruct (ArtifactRole.is_singular r); cbn; [rewrite N.ltb_ge; split; [by intros|intros H; by apply H]|by split].
  - rewrite Forall_forall. split.
    + intros H r Hr. rewrite <-role_counts_lookup. destruct (role_counts ds !! r) as [n|] eqn:E; cbn; [|lia].
      apply (H (r, n)); [by apply elem_of_btree_entries|done].
    + intros H [r n] Hin Hr. apply elem_of_btree_entries in Hin. specialize (H r Hr). rewrite <-role_counts_lookup, Hin in H. done.
Qed.
Lemma enforces_budgets limits l : ∀ aggregate, (aggregate ≤ u64_max)%N → enforces (check_budgets limits aggregate l)
  (Forall (λ a, (DeclaredArtifact.size_bytes a ≤ Limits.max_artifact_bytes limits)%N) l
   ∧ (aggregate + sum (DeclaredArtifact.size_bytes <$> l) ≤ N.min u64_max (Limits.max_aggregate_declared_bytes limits))%N).
Proof.
  induction l as [|a l IH]; intros aggregate Hagg; cbn [check_budgets].
  - eapply enforces_iff; [apply enforces_when_report|]. rewrite N.ltb_ge. cbn. split; [intros ?; split; [constructor|lia]|intros [_ ?]; lia].
  - destruct (checked_add u64_max aggregate (DeclaredArtifact.size_bytes a)) as [next|] eqn:E; unfold checked_add in E;
      destruct (N.leb_spec (aggregate + DeclaredArtifact.size_bytes a) u64_max) as [Hle|Hgt]; try done.
    + injection E as <-. eapply enforces_iff; [apply enforces_then; [apply enforces_when_report|by apply IH]|].
      rewrite N.ltb_ge, Forall_cons. cbn. rewrite N.add_assoc. tauto.
    + eapply enforces_iff; [apply enforces_then; [apply enforces_when_report|apply enforces_report]|]. split; [by intros [_ ?]|].
      intros [_ Hs]. cbn in Hs. lia.
Qed.

Definition declared ds : list DeclaredArtifact.t := btree_values (Collapsed.by_digest (collapse (Errors.mk [] 0 0) ds)).
Lemma collapse_declared e ds : btree_values (Collapsed.by_digest (collapse e ds)) = declared ds.
Proof.
  unfold declared. f_equal. apply map_eq. intros g. by rewrite !collapse_lookup.
Qed.
Lemma declared_spec ds a : a ∈ declared ds ↔ collapsed ds (DeclaredArtifact.digest a) = Some a.
Proof.
  destruct (entries_firsts (Errors.mk [] 0 0) ds) as (_ & _ & Hall). fold (declared ds) in Hall. rewrite Forall_forall in Hall. split; [apply Hall|].
  intros Ha. apply elem_of_btree_values. exists (DeclaredArtifact.digest a). by rewrite collapse_lookup.
Qed.
Lemma declared_fields ds a : a ∈ declared ds →
  DeclaredArtifact.size_bytes a = ArtifactDescriptor.size_bytes (DeclaredArtifact.descriptor a)
  ∧ DeclaredArtifact.digest a = ArtifactDescriptor.digest (DeclaredArtifact.descriptor a) ∧ DeclaredArtifact.descriptor a ∈ ds.
Proof.
  intros Ha%declared_spec. unfold collapsed in Ha. destruct (at_digest ds (DeclaredArtifact.digest a)) as [|f rest] eqn:E; [done|].
  assert (f ∈ at_digest ds (DeclaredArtifact.digest a)) as Hf by (rewrite E; apply elem_of_cons; by left).
  apply elem_of_at_digest in Hf as [Hf Hin]. remember (DeclaredArtifact.digest a) as g eqn:Hg. injection Ha as <-. cbn in *. by split_and!.
Qed.
Lemma declared_cover ds d : d ∈ ds → ∃ a, a ∈ declared ds ∧ DeclaredArtifact.digest a = ArtifactDescriptor.digest d.
Proof.
  intros Hd. destruct (collapsed ds (ArtifactDescriptor.digest d)) as [a|] eqn:E.
  - assert (DeclaredArtifact.digest a = ArtifactDescriptor.digest d) as Hg.
    { unfold collapsed in E. destruct (at_digest _ _); [done|]. by injection E as <-. }
    exists a. split; [|done]. apply declared_spec. by rewrite Hg.
  - unfold collapsed in E. destruct (at_digest ds _) eqn:Hat; [|done]. rewrite at_digest_nil in Hat. by apply Hat in Hd.
Qed.
Lemma declared_sizes ds : sum (DeclaredArtifact.size_bytes <$> declared ds) = declared_bytes ds.
Proof.
  destruct (entries_firsts (Errors.mk [] 0 0) ds) as (_ & Hp & _). fold (declared ds) in Hp. unfold declared_bytes. apply sum_perm.
  rewrite <-Hp, <-list_fmap_compose. apply Permutation_refl'. apply list_fmap_ext. intros i a Ha. apply list_elem_of_lookup_2 in Ha.
  by destruct (declared_fields ds a Ha) as [-> _].
Qed.
(** ** Sound artifacts *)
Record sound_artifacts (limits : Limits.t) ds : Prop := {
  sa_roles : ∀ r, ArtifactRole.is_singular r = true → (role_count ds r ≤ 1)%N;
  sa_agree : agree ds;
  sa_sizes : Forall (λ d, (ArtifactDescriptor.size_bytes d ≤ Limits.max_artifact_bytes limits)%N) ds;
  sa_total : (declared_bytes ds ≤ N.min u64_max (Limits.max_aggregate_declared_bytes limits))%N
}.
Lemma declared_all ds (P : ArtifactDescriptor.t → Prop) : agree ds →
  (∀ d d', same_blob d d' → ArtifactDescriptor.digest d = ArtifactDescriptor.digest d' → P d → P d') →
  Forall (λ a, P (DeclaredArtifact.descriptor a)) (declared ds) ↔ Forall P ds.
Proof.
  intros Ha HP. rewrite !Forall_forall. split.
  - intros H d Hd. destruct (declared_cover ds d Hd) as (a & Hin & Hg). destruct (declared_fields ds a Hin) as (_ & Hga & Hda).
    apply (HP (DeclaredArtifact.descriptor a)); [apply Ha; [done|done|congruence]|congruence|by apply H].
  - intros H a Hin. destruct (declared_fields ds a Hin) as (_ & _ & Hda). by apply H.
Qed.
Lemma declared_descriptors_fst ds limits e : (declared_descriptors ds limits e).1 = declared ds.
Proof. apply collapse_declared. Qed.
Lemma enforces_descriptors limits ds : enforces (λ e, (declared_descriptors ds limits e).2) (sound_artifacts limits ds).
Proof.
  intros e He. unfold declared_descriptors. cbn [snd]. destruct (enforces_roles ds e He) as [Hl Hr].
  fold (collapse (check_roles ds e) ds). rewrite collapse_declared.
  destruct (collapse_errors (check_roles ds e) ds) as (Hl' & Hf & _); [by rewrite Hl|].
  destruct (enforces_budgets limits (declared ds) 0 ltac:(done) (Collapsed.errors (collapse (check_roles ds e) ds))) as [Hl'' Hb]; [by rewrite Hl', Hl|].
  split; [congruence|]. rewrite Hb, Hf, Hr, N.add_0_l, declared_sizes.
  assert (agree ds → Forall (λ a, (DeclaredArtifact.size_bytes a ≤ Limits.max_artifact_bytes limits)%N) (declared ds)
    ↔ Forall (λ d, (ArtifactDescriptor.size_bytes d ≤ Limits.max_artifact_bytes limits)%N) ds) as Hs.
  { intros Ha. rewrite <-(declared_all ds _ Ha); [|by intros d d' (<- & _)]. rewrite !Forall_forall.
    split; intros H a Hin; specialize (H a Hin); by destruct (declared_fields ds a Hin) as [Heq _]; rewrite Heq in *. }
  split.
  - intros (((H1 & H2) & H3) & H4 & H5). split; [done|]. split; [done|done|by apply Hs|done].
  - intros (H1 & [H2 H3 H4 H5]). split_and!; try done. by apply Hs.
Qed.

(** ** The bytes of an artifact *)
Section bytes.
Context `{Antientropy.Sha256}.
Definition fed d (chunks : list bytes) : BlobVerifier.t := foldl (λ v chunk, (BlobVerifier.write chunk v).1) (BlobVerifier.new d) chunks.
Lemma fed_snoc d chunks chunk : fed d (chunks ++ [chunk]) = (BlobVerifier.write chunk (fed d chunks)).1.
Proof. unfold fed. by rewrite foldl_app. Qed.
Lemma fed_state d chunks : (lenN (concat chunks) ≤ u64_max)%N →
  BlobVerifier.expected (fed d chunks) = d
  ∧ BlobVerifier.overrun (fed d chunks) = (ArtifactDescriptor.size_bytes d <? lenN (concat chunks))%N
  ∧ ((lenN (concat chunks) ≤ ArtifactDescriptor.size_bytes d)%N →
     BlobVerifier.seen (fed d chunks) = lenN (concat chunks) ∧ BlobVerifier.hashed (fed d chunks) = concat chunks).
Proof.
  induction chunks as [|chunk chunks IH] using rev_ind; intros Hlen.
  { split_and!; [done| |done]. cbn. symmetry. apply N.ltb_ge. unfold lenN. cbn. lia. }
  rewrite concat_app in *. cbn [concat] in *. rewrite app_nil_r in *. unfold lenN in Hlen. rewrite length_app in Hlen.
  destruct IH as (IHe & IHo & IHs); [unfold lenN; lia|]. rewrite fed_snoc. unfold BlobVerifier.write. rewrite IHo, IHe.
  assert (lenN (concat chunks ++ chunk) = lenN (concat chunks) + lenN chunk)%N as Happ by (unfold lenN; rewrite length_app; lia).
  destruct (N.ltb_spec (ArtifactDescriptor.size_bytes d) (lenN (concat chunks))) as [Hover|Hin].
  - cbn [fst]. split_and!; [done| |rewrite Happ; lia]. rewrite IHo, Happ. symmetry. apply N.ltb_lt. lia.
  - destruct (IHs Hin) as [-> ->]. unfold saturating_add. rewrite N.min_l by (unfold lenN; lia). rewrite Happ.
    destruct (N.ltb_spec (ArtifactDescriptor.size_bytes d) (lenN (concat chunks) + lenN chunk)) as [Hover|Hin']; cbn; split_and!; try done. lia.
Qed.
Lemma finish_fed d chunks : (lenN (concat chunks) ≤ u64_max)%N →
  BlobVerifier.finish (fed d chunks) =
    let content := concat chunks in
    let declared := ArtifactDescriptor.size_bytes d in
    if (declared <? lenN content)%N then Err (ClosureError.SizeOverrun (ArtifactDescriptor.digest d) declared)
    else if negb (lenN content =? declared)%N then Err (ClosureError.SizeMismatch (ArtifactDescriptor.digest d) declared (lenN content))
    else if negb (bool_decide (ArtifactDigest.sha256_of content = ArtifactDescriptor.digest d))
    then Err (ClosureError.DigestMismatch (ArtifactDescriptor.digest d) (ArtifactDigest.sha256_of content)) else Ok ().
Proof.
  intros Hlen. destruct (fed_state d chunks Hlen) as (He & Ho & Hs). unfold BlobVerifier.finish. rewrite He, Ho. cbv zeta.
  destruct (N.ltb_spec (ArtifactDescriptor.size_bytes d) (lenN (concat chunks))) as [|Hle]; [done|]. by destruct (Hs Hle) as [-> ->].
Qed.
(** A source has an artifact's bytes. *)
Definition served (blobs : BlobSource) d : Prop := ∃ chunks, blobs (ArtifactDescriptor.digest d) = Some chunks
  ∧ lenN (concat chunks) = ArtifactDescriptor.size_bytes d ∧ ArtifactDigest.sha256_of (concat chunks) = ArtifactDescriptor.digest d.
(** No more of them than a [u64] counts. *)
Definition countable_source (blobs : BlobSource) : Prop := ∀ g chunks, blobs g = Some chunks → (lenN (concat chunks) ≤ u64_max)%N.
Lemma verify_artifact_ok blobs ds a : countable_source blobs → a ∈ declared ds →
  (∃ v, verify_artifact blobs a = Ok v) ↔ served blobs (DeclaredArtifact.descriptor a).
Proof.
  intros Hb Ha. destruct (declared_fields ds a Ha) as (_ & Hg & _). unfold verify_artifact, read_blob, served. rewrite Hg.
  destruct (blobs (ArtifactDescriptor.digest (DeclaredArtifact.descriptor a))) as [chunks|] eqn:E; cbn beta iota.
  - fold (fed (DeclaredArtifact.descriptor a) chunks). rewrite finish_fed by (by eapply Hb). cbv zeta. split.
    + intros (v & Hv%result_bind_ok). destruct Hv as ([] & Hv & _). exists chunks. split; [done|].
      destruct (_ <? _)%N; [done|]. destruct (N.eqb_spec (lenN (concat chunks)) (ArtifactDescriptor.size_bytes (DeclaredArtifact.descriptor a))); [|done].
      cbn [negb] in Hv. destruct (bool_decide _) eqn:Ed; [|done]. by apply bool_decide_eq_true in Ed.
    + intros (chunks' & [= <-] & Hl & Hd). rewrite Hl, N.ltb_irrefl, N.eqb_refl. cbn [negb]. rewrite bool_decide_eq_true_2 by done.
      cbn. by eexists.
  - split; [by intros [v Hv]|by intros (chunks & [=] & _)].
Qed.
Lemma verify_artifact_value blobs a v : verify_artifact blobs a = Ok v → v = VerifiedArtifact.of_declared a.
Proof.
  unfold verify_artifact. destruct (read_blob _ _ _) as [verifier []]; [|done]. intros (u & _ & [= <-])%result_bind_ok. done.
Qed.
Lemma verify_artifacts_state blobs l : ∀ m e, (0 < Errors.limit e)%N → let '(m', e') := verify_artifacts l blobs m e in
  Errors.limit e' = Errors.limit e
  ∧ (Errors.found e' = [] ↔ Errors.found e = [] ∧ Forall (λ a, ∃ v, verify_artifact blobs a = Ok v) l)
  ∧ (Errors.found e' = [] → m' = foldl (λ m a, <[DeclaredArtifact.digest a := VerifiedArtifact.of_declared a]> m) m l).
Proof.
  induction l as [|a l IH]; intros m e He; cbn [verify_artifacts].
  - split_and!; [done| |done]. split; [intros ?; split; [done|constructor]|by intros [? _]].
  - destruct (verify_artifact blobs a) as [v|error] eqn:E.
    + apply verify_artifact_value in E as Hv. subst v. specialize (IH (<[DeclaredArtifact.digest a := VerifiedArtifact.of_declared a]> m) e He).
      destruct (verify_artifacts l blobs _ e) as [m' e']. destruct IH as (H1 & H2 & H3). split_and!; [done| |done].
      rewrite H2, Forall_cons. split; [intros [H4 H5]; split; [done|split; [by eexists|done]]|intros (H4 & _ & H5); by split].
    + specialize (IH m (Errors.push error e)). rewrite push_limit in IH. specialize (IH He).
      destruct (verify_artifacts l blobs m (Errors.push error e)) as [m' e']. destruct IH as (H1 & H2 & H3). split_and!; [done| |].
      * rewrite H2, Forall_cons, E. split; [by intros [?%push_found _]|]. by intros (_ & [v Hv] & _).
      * intros Hf. apply H2 in Hf as [Hf _]. by apply push_found in Hf.
Qed.
End bytes.

(** ** The gate *)
Lemma filter_all {A} (P : A → Prop) `{∀ x, Decision (P x)} l : Forall P l → filter P l = l.
Proof. induction 1 as [|x l Hx _ IH]; [done|]. by rewrite filter_cons_True, IH. Qed.
Section admission.
Context `{Antientropy.Sha256}.
Definition verified_map (l : list DeclaredArtifact.t) : gmap ArtifactDigest.t VerifiedArtifact.t :=
  foldl (λ m a, <[DeclaredArtifact.digest a := VerifiedArtifact.of_declared a]> m) ∅ l.
Lemma gate_accepts l root blobs e c : (0 < Errors.limit e)%N → gate l root blobs e = answer (Ok c) ↔
  Errors.found e = [] ∧ root = Ok (VerifiedClosure.root c) ∧ Forall (λ a, ∃ v, verify_artifact blobs a = Ok v) l
  ∧ VerifiedClosure.artifacts c = verified_map l.
Proof.
  intros He. unfold gate. destruct root as [r|error]; cbv zeta.
  - unfold Errors.is_empty at 1. destruct (decide (Errors.found e = [])) as [Hf|Hf].
    + rewrite bool_decide_eq_true_2 by done. cbn [negb]. pose proof (verify_artifacts_state blobs l ∅ e He) as Hs. fold (verified_map l) in Hs.
      destruct (verify_artifacts l blobs ∅ e) as [m' e']. destruct Hs as (_ & H2 & H3). unfold Errors.is_empty.
      destruct (decide (Errors.found e' = [])) as [Hf'|Hf'].
      * rewrite bool_decide_eq_true_2 by done. split.
        -- intros [= <-]. apply H2 in Hf' as [_ Hall]. cbn. split_and!; [done|done|done|]. apply H3, H2. by split.
        -- intros (_ & [= ->] & _ & Hm). rewrite H3 by done. rewrite <-Hm. by destruct c.
      * rewrite bool_decide_eq_false_2 by done. split; [done|]. intros (_ & _ & Hall & _). destruct Hf'. apply H2. by split.
    + rewrite bool_decide_eq_false_2 by done. cbn [negb]. split; [done|]. by intros [? _].
  - unfold Errors.is_empty at 1. rewrite bool_decide_eq_false_2 by (by apply push_found). cbn [negb]. split; [done|]. by intros (_ & ? & _).
Qed.
Lemma gate_answers l root blobs e : (0 < Errors.limit e)%N → ∃ r, gate l root blobs e = answer r
  ∧ ∀ report, r = Err report → ClosureReport.errors report ≠ [].
Proof.
  intros He. unfold gate. cbv zeta. unfold Errors.is_empty at 1.
  set (e1 := match root with Ok _ => e | Err error => Errors.push (ClosureError.NotCanonical error) e end).
  destruct (decide (Errors.found e1 = [])) as [Hf|Hf].
  - rewrite bool_decide_eq_true_2 by done. cbn [negb]. destruct root as [r|error]; [|by apply push_found in Hf].
    destruct (verify_artifacts l blobs ∅ e1) as [m' e']. unfold Errors.is_empty.
    destruct (decide (Errors.found e' = [])) as [Hf'|Hf'].
    + rewrite bool_decide_eq_true_2 by done. eexists. split; [done|]. done.
    + rewrite bool_decide_eq_false_2 by done. eexists. split; [done|]. by intros report [= <-].
  - rewrite bool_decide_eq_false_2 by done. cbn [negb]. eexists. split; [done|]. by intros report [= <-].
Qed.

(** What is recorded of a digest once its bytes have been verified: every role it
    was declared under. *)
Definition verified_at ds g : option VerifiedArtifact.t :=
  match at_digest ds g with
  | [] => None
  | d :: rest => Some (VerifiedArtifact.mk g (ArtifactDescriptor.size_bytes d) (ArtifactDescriptor.media_type d) (ArtifactDescriptor.schema d)
      (list_to_set (ArtifactDescriptor.role <$> d :: rest)))
  end.
Lemma collapsed_verified ds g : agree ds → VerifiedArtifact.of_declared <$> collapsed ds g = verified_at ds g.
Proof.
  intros Ha. unfold collapsed, verified_at. destruct (at_digest ds g) as [|d rest] eqn:E; [done|]. cbn. unfold VerifiedArtifact.of_declared. cbn.
  assert (filter (same_blob d) rest = rest) as ->; [|done]. apply filter_all. apply Forall_forall. intros x Hx.
  assert (d ∈ at_digest ds g) as Hd by (rewrite E; apply elem_of_cons; by left).
  assert (x ∈ at_digest ds g) as Hx' by (rewrite E; apply elem_of_cons; by right).
  apply elem_of_at_digest in Hd as [? ?], Hx' as [? ?]. apply Ha; [done|done|congruence].
Qed.
Lemma insert_all_lookup l : ∀ (m : gmap ArtifactDigest.t VerifiedArtifact.t) g,
  foldl (λ m a, <[DeclaredArtifact.digest a := VerifiedArtifact.of_declared a]> m) m l !! g =
  match head (reverse (filter (λ a, DeclaredArtifact.digest a = g) l)) with Some a => Some (VerifiedArtifact.of_declared a) | None => m !! g end.
Proof.
  induction l as [|a l IH] using rev_ind; intros m g; [done|]. rewrite foldl_app, filter_app, filter_cons, filter_nil. cbn [foldl].
  destruct (decide (DeclaredArtifact.digest a = g)) as [<-|Hne].
  - by rewrite lookup_insert_eq, reverse_snoc.
  - by rewrite lookup_insert_ne, app_nil_r, IH.
Qed.
Lemma verified_map_lookup ds g : agree ds → verified_map (declared ds) !! g = verified_at ds g.
Proof.
  intros Ha. unfold verified_map. rewrite insert_all_lookup, lookup_empty, <-collapsed_verified by done.
  destruct (head (reverse (filter (λ a, DeclaredArtifact.digest a = g) (declared ds)))) as [a|] eqn:E.
  - assert (a ∈ filter (λ a, DeclaredArtifact.digest a = g) (declared ds)) as Hin.
    { apply elem_of_reverse. destruct (reverse _); [done|]. injection E as ->. apply elem_of_cons. by left. }
    apply list_elem_of_filter in Hin as [<- Hin]. apply declared_spec in Hin. by rewrite Hin.
  - destruct (collapsed ds g) as [a|] eqn:Ec; [|done]. exfalso.
    assert (DeclaredArtifact.digest a = g) as Hg by (unfold collapsed in Ec; destruct (at_digest ds g); [done|]; by injection Ec as <-).
    assert (a ∈ reverse (filter (λ a, DeclaredArtifact.digest a = g) (declared ds))) as Hin.
    { apply elem_of_reverse, list_elem_of_filter. split; [done|]. apply declared_spec. by rewrite Hg. }
    destruct (reverse _); [by apply not_elem_of_nil in Hin|done].
Qed.

Lemma verified_served ds blobs : countable_source blobs → agree ds →
  Forall (λ a, ∃ v, verify_artifact blobs a = Ok v) (declared ds) ↔ Forall (served blobs) ds.
Proof.
  intros Hb Ha. rewrite <-(declared_all ds (served blobs) Ha).
  - rewrite !Forall_forall. split; intros Hall a Hin; specialize (Hall a Hin); by apply (verify_artifact_ok blobs ds a Hb Hin).
  - intros d d' (Hs & _) Hg (chunks & H1 & H2 & H3). exists chunks. rewrite <-Hg, <-Hs. by split_and!.
Qed.
Lemma gate_exact ds root blobs e closure : (0 < Errors.limit e)%N → countable_source blobs → (Errors.found e = [] → agree ds) →
  gate (declared ds) root blobs e = answer (Ok closure) ↔
    Errors.found e = [] ∧ Forall (served blobs) ds ∧ root = Ok (VerifiedClosure.root closure)
    ∧ ∀ g, VerifiedClosure.artifacts closure !! g = verified_at ds g.
Proof.
  intros He Hb Ha. rewrite gate_accepts by done. split.
  - intros (Hf & Hr & Hv & Hm). specialize (Ha Hf). apply verified_served in Hv; [|done|done]. split_and!; [done|done|done|].
    intros g. rewrite Hm. by apply verified_map_lookup.
  - intros (Hf & Hs & Hr & Hm). specialize (Ha Hf). split_and!; [done|done|by apply verified_served|].
    apply map_eq. intros g. rewrite Hm. symmetry. by apply verified_map_lookup.
Qed.

(** ** Version 2 *)
Definition structure (manifest : WorkloadManifest) (limits : Limits.t) : check :=
  check_domain manifest limits ⨟ check_scalar_bounds manifest limits
  ⨟ validate_graph (WorkloadSpec.compute (Resource.spec manifest)) limits
  ⨟ check_limit "the artifact count" (lenN (every_descriptor manifest)) (Limits.max_artifacts limits)
  ⨟ check_limit "the initial-condition count"
      (lenN (WorkloadInputs.initial_conditions (WorkloadSpec.inputs (Resource.spec manifest)))) (Limits.max_initial_conditions limits)
  ⨟ (λ e, (declared_descriptors (every_descriptor manifest) limits e).2).
(** A manifest of this version whose every part is sound. *)
Record sound_manifest (manifest : WorkloadManifest) (limits : Limits.t) : Prop := {
  sm_version : Resource.api_version manifest = api_version;
  sm_kind : Resource.kind manifest = kind;
  sm_domain : sound_domain limits (WorkloadSpec.domain (Resource.spec manifest));
  sm_scalars : sound_scalars limits (Resource.metadata manifest) (WorkloadSpec.compute (Resource.spec manifest))
    (WorkloadSpec.requirements (Resource.spec manifest))
    (default ∅ (Integration.parameters <$> Discretization.integration (DomainSpec.discretization (WorkloadSpec.domain (Resource.spec manifest)))));
  sm_graph : sound_graph limits (WorkloadSpec.compute (Resource.spec manifest));
  sm_artifact_count : (lenN (every_descriptor manifest) ≤ Limits.max_artifacts limits)%N;
  sm_initial_count : (lenN (WorkloadInputs.initial_conditions (WorkloadSpec.inputs (Resource.spec manifest))) ≤ Limits.max_initial_conditions limits)%N;
  sm_artifacts : sound_artifacts limits (every_descriptor manifest)
}.
Lemma sound_version manifest limits e : (0 < Errors.limit e)%N → Errors.found e = [] →
  Errors.limit (structure manifest limits e) = Errors.limit e
  ∧ (expect manifest api_version kind = Ok () ∧ Errors.found (structure manifest limits e) = [] ↔ sound_manifest manifest limits).
Proof.
  intros He Hf. eassert (enforces (structure manifest limits) _) as Hs.
  { unfold structure. apply enforces_then; [apply enforces_domain|]. apply enforces_then; [apply enforces_common_scalars|].
    apply enforces_then; [apply enforces_graph|]. do 2 (apply enforces_then; [apply enforces_limit|]). apply enforces_descriptors. }
  destruct (Hs e He) as [Hl HP]. split; [done|]. rewrite HP. unfold expect. split.
  - intros (Hx & _ & H1 & H2 & H3 & H4 & H5 & H6). case_bool_decide as Ha; [|done]. case_bool_decide as Hk; [|done]. by split.
  - intros [Ha Hk H1 H2 H3 H4 H5 H6]. rewrite !bool_decide_eq_true_2 by done. by split_and!.
Qed.
Lemma validate_structure manifest blobs limits : validate_closure manifest blobs limits =
  match expect manifest api_version kind with
  | Err error => refuse (Errors.into_report (Errors.push (ClosureError.Discriminator error) (Errors.new limits)))
  | Ok _ => gate (declared (every_descriptor manifest)) (workload_digest manifest limits) blobs (structure manifest limits (Errors.new limits))
  end.
Proof.
  unfold validate_closure. destruct (expect manifest api_version kind) as [u|]; [|done]. cbv zeta.
  unfold declared_artifacts, structure, andthen. cbv zeta.
  match goal with |- context [declared_descriptors ?ds ?l ?e] => pose proof (declared_descriptors_fst ds l e) as Hd; destruct (declared_descriptors ds l e) as [l' e'] end.
  cbn [fst] in Hd. by rewrite Hd.
Qed.

(** C6: For any manifest, any source of bytes and any limits that report at least one problem, there is a verified
    closure exactly when the manifest is sound, part by part, the source has the bytes of every artifact it declares,
    of the declared size and hash, and the manifest has a canonical form; the closure is then rooted at the digest of
    that form, and holds each declared blob once with all the roles it was declared under. *)
Theorem validate_closure_exact manifest blobs limits closure : (0 < Limits.max_reported_errors limits)%N → countable_source blobs →
  validate_closure manifest blobs limits = answer (Ok closure) ↔
    sound_manifest manifest limits ∧ Forall (served blobs) (every_descriptor manifest)
    ∧ workload_digest manifest limits = Ok (VerifiedClosure.root closure)
    ∧ ∀ g, VerifiedClosure.artifacts closure !! g = verified_at (every_descriptor manifest) g.
Proof.
  intros Hl Hb. destruct (sound_version manifest limits (Errors.new limits) Hl eq_refl) as [Hl' Hs]. rewrite validate_structure.
  destruct (expect manifest api_version kind) as [[]|error].
  - rewrite gate_exact; [|by rewrite Hl'|done|].
    + rewrite <-Hs. tauto.
    + intros Hf. destruct (proj1 Hs (conj eq_refl Hf)) as [_ _ _ _ _ _ _ []]. done.
  - split; [done|]. intros (Hm & _). by apply Hs in Hm as [? _].
Qed.
(** C28: As long as one problem can be reported, validation ends in a verdict, never in a panic, and a refusal names a
    problem. *)
Theorem validate_closure_answers manifest blobs limits : (0 < Limits.max_reported_errors limits)%N →
  ∃ r, validate_closure manifest blobs limits = answer r ∧ ∀ report, r = Err report → ClosureReport.errors report ≠ [].
Proof.
  intros Hl. destruct (sound_version manifest limits (Errors.new limits) Hl eq_refl) as [Hl' _]. rewrite validate_structure.
  destruct (expect manifest api_version kind) as [[]|error]; [apply gate_answers; by rewrite Hl'|].
  eexists. split; [done|]. intros report [= <-]. by apply (push_found _ (Errors.new limits)).
Qed.

(** ** The composed format *)
Record sound_composition (manifest : V3.WorkloadManifest) (limits : Limits.t) : Prop := {
  sc_version : Resource.api_version manifest = ApiVersion.mk V3.API_VERSION;
  sc_kind : Resource.kind manifest = kind;
  sc_artifact_count : (Composed.artifact_count manifest ≤ Limits.max_artifacts limits)%N;
  sc_raw_bounds : Composed.raw_bounds manifest limits = Ok ();
  sc_scalars : sound_scalars limits (Resource.metadata manifest) (V3.compute (Resource.spec manifest)) (V3.requirements (Resource.spec manifest)) ∅;
  sc_graph : sound_graph limits (V3.compute (Resource.spec manifest));
  sc_selection : ArtifactRole.as_str (ArtifactDescriptor.role (V3.selection (Resource.spec manifest))) = V3.SELECTION_ROLE;
  sc_execution : ArtifactRole.as_str (ArtifactDescriptor.role (V3.execution (Resource.spec manifest))) = V3.EXECUTION_ROLE;
  sc_initial_count : (count_role ArtifactRole.INITIAL_CONDITIONS (v3_descriptors manifest) ≤ Limits.max_initial_conditions limits)%N;
  sc_one_selection : (count_role V3.SELECTION_ROLE (v3_descriptors manifest) ≤ 1)%N;
  sc_one_execution : (count_role V3.EXECUTION_ROLE (v3_descriptors manifest) ≤ 1)%N;
  sc_artifacts : sound_artifacts limits (v3_descriptors manifest)
}.
Definition composed_structure (manifest : V3.WorkloadManifest) (limits : Limits.t) : check :=
  v3_structure manifest limits ⨟ (λ e, (declared_descriptors (v3_descriptors manifest) limits e).2).
Lemma composed_sound manifest limits e : (0 < Errors.limit e)%N → Errors.found e = [] →
  Errors.limit (composed_structure manifest limits e) = Errors.limit e
  ∧ (expect manifest (ApiVersion.mk V3.API_VERSION) kind = Ok () ∧ (Composed.artifact_count manifest ≤ Limits.max_artifacts limits)%N
     ∧ Composed.raw_bounds manifest limits = Ok () ∧ Errors.found (composed_structure manifest limits e) = [] ↔ sound_composition manifest limits).
Proof.
  intros He Hf. eassert (enforces (composed_structure manifest limits) _) as Hs.
  { unfold composed_structure, v3_structure. cbv zeta. apply enforces_then; [|apply enforces_descriptors].
    apply enforces_then; [apply enforces_common_scalars|]. apply enforces_then; [apply enforces_graph|].
    apply enforces_then; [|apply enforces_then; [apply enforces_limit|]].
    - cbn [for_each]. apply enforces_then; [apply enforces_when_report|]. apply enforces_then; [apply enforces_when_report|apply enforces_skip].
    - cbn [for_each]. apply enforces_then; [apply enforces_when_report|]. apply enforces_then; [apply enforces_when_report|apply enforces_skip]. }
  destruct (Hs e He) as [Hl HP]. split; [done|]. rewrite HP, !negb_decided, !N.ltb_ge. unfold expect. split.
  - intros (Hx & Hc & Hr & _ & (H1 & H2 & (H3 & H4 & _) & H5 & (H6 & H7 & _)) & H8).
    case_bool_decide as Ha; [|done]. case_bool_decide as Hk; [|done]. by split.
  - intros [Ha Hk H1 H2 H3 H4 H5 H6 H7 H8 H9 H10]. rewrite !bool_decide_eq_true_2 by done. by split_and!.
Qed.
Lemma validate_v3_structure manifest blobs limits : (0 < Limits.max_reported_errors limits)%N → validate_v3_closure manifest blobs limits =
  match expect manifest (ApiVersion.mk V3.API_VERSION) kind with
  | Err error => refuse (Errors.into_report (Errors.push (ClosureError.Discriminator error) (Errors.new limits)))
  | Ok _ =>
    if (Limits.max_artifacts limits <? Composed.artifact_count manifest)%N
    then refuse (Errors.into_report (Errors.push (ClosureError.LimitExceeded "the artifact count" (Composed.artifact_count manifest) (Limits.max_artifacts limits)) (Errors.new limits)))
    else match Composed.raw_bounds manifest limits with
         | Err error => refuse (Errors.into_report (Errors.push (ClosureError.NotCanonical error) (Errors.new limits)))
         | Ok _ => gate (declared (v3_descriptors manifest)) (Composed.workload_digest manifest limits) blobs (composed_structure manifest limits (Errors.new limits))
         end
  end.
Proof.
  intros Hl. unfold validate_v3_closure. destruct (expect manifest _ kind) as [u|]; [|done]. cbv zeta. unfold check_limit.
  destruct (Limits.max_artifacts limits <? Composed.artifact_count manifest)%N; cbn [when].
  - unfold Errors.is_empty. rewrite bool_decide_eq_false_2 by (by apply (push_found _ (Errors.new limits))). done.
  - unfold skip. cbn [id]. change (Errors.is_empty (Errors.new limits)) with true. cbn [negb].
    destruct (Composed.raw_bounds manifest limits) as [u'|]; [|done]. unfold composed_structure, andthen. cbv zeta.
    match goal with |- context [declared_descriptors ?ds ?l ?e] => pose proof (declared_descriptors_fst ds l e) as Hd; destruct (declared_descriptors ds l e) as [l' e'] end.
    cbn [fst] in Hd. by rewrite Hd.
Qed.
(** The same of the composed format: there is a verified closure exactly when the manifest is sound, its selection
    and its execution among the artifacts once each under their own roles, the source has every artifact's bytes, and
    the manifest has a canonical form, whose digest is the closure's root. *)
Theorem validate_v3_closure_exact manifest blobs limits closure : (0 < Limits.max_reported_errors limits)%N → countable_source blobs →
  validate_v3_closure manifest blobs limits = answer (Ok closure) ↔
    sound_composition manifest limits ∧ Forall (served blobs) (v3_descriptors manifest)
    ∧ Composed.workload_digest manifest limits = Ok (VerifiedClosure.root closure)
    ∧ ∀ g, VerifiedClosure.artifacts closure !! g = verified_at (v3_descriptors manifest) g.
Proof.
  intros Hl Hb. destruct (composed_sound manifest limits (Errors.new limits) Hl eq_refl) as [Hl' Hs]. rewrite validate_v3_structure by done.
  destruct (expect manifest _ kind) as [[]|error]; [|split; [done|intros (Hm & _); by apply Hs in Hm as [? _]]].
  destruct (N.ltb_spec (Limits.max_artifacts limits) (Composed.artifact_count manifest)) as [Hc|Hc].
  { split; [done|]. intros (Hm & _). apply Hs in Hm as (_ & Hc' & _). lia. }
  destruct (Composed.raw_bounds manifest limits) as [[]|error]; [|split; [done|intros (Hm & _); by apply Hs in Hm as (_ & _ & ? & _)]].
  rewrite gate_exact; [|by rewrite Hl'|done|].
  - rewrite <-Hs. tauto.
  - intros Hf. by destruct (sc_artifacts _ _ (proj1 Hs (conj eq_refl (conj Hc (conj eq_refl Hf))))).
Qed.
End admission.

(** ** One artifact, one plan *)
(** However its bytes are cut into chunks, a blob is judged by their concatenation alone: too many bytes, too few,
    another hash, or the artifact that was declared. *)
Theorem artifact_verdict `{Antientropy.Sha256} d chunks : (lenN (concat chunks) ≤ u64_max)%N →
  BlobVerifier.finish (foldl (λ v chunk, (BlobVerifier.write chunk v).1) (BlobVerifier.new d) chunks) =
    let content := concat chunks in
    let declared := ArtifactDescriptor.size_bytes d in
    if (declared <? lenN content)%N then Err (ClosureError.SizeOverrun (ArtifactDescriptor.digest d) declared)
    else if negb (lenN content =? declared)%N then Err (ClosureError.SizeMismatch (ArtifactDescriptor.digest d) declared (lenN content))
    else if negb (bool_decide (ArtifactDigest.sha256_of content = ArtifactDescriptor.digest d))
    then Err (ClosureError.DigestMismatch (ArtifactDescriptor.digest d) (ArtifactDigest.sha256_of content)) else Ok ().
Proof. apply finish_fed. Qed.
(** C27: Where the invocations have distinct identities, no cycle is reported exactly when they can be ordered so that
    every declared dependency of an invocation comes before it; the rounds made are always enough. *)
Theorem cyclic_plan_exact compute : NoDup (StepInvocation.invocation_id <$> StepPlan.invocations (ComputeSpec.step_plan compute)) →
  cyclic_invocation_count compute = None ↔ acyclic (StepPlan.invocations (ComputeSpec.step_plan compute)).
Proof. apply cyclic_count_acyclic. Qed.

(** ** Workloads that are admitted *)
Definition example_source : BlobSource := λ g,
  match ArtifactDigest.as_bytes g with b :: _ => Some [replicate 512 b; replicate 512 b] | [] => None end.
Lemma example_countable : countable_source example_source.
Proof. intros [alg [|b l]] chunks; [done|]. intros [= <-]. vm_compute. discriminate. Qed.
Definition closure_of (o : outcome ClosureReport.t VerifiedClosure.t) : VerifiedClosure.t :=
  match o with Some (Ok c) => c | _ => VerifiedClosure.mk (WorkloadDigest.mk (ArtifactDigest.from_sha256 [])) ∅ end.
Definition admits (o : outcome ClosureReport.t VerifiedClosure.t) : bool := match o with Some (Ok _) => true | _ => false end.
Lemma admits_ok o : admits o = true → o = answer (Ok (closure_of o)).
Proof. by destruct o as [[]|]. Qed.
Definition example_closure : VerifiedClosure.t :=
  closure_of (@validate_closure Antientropy.toy_sha256 (example_manifest "tunnel") example_source Limits.DEFAULT).
Lemma validate_closure_exact_witness :
  sound_manifest (example_manifest "tunnel") Limits.DEFAULT
  ∧ Forall (@served Antientropy.toy_sha256 example_source) (every_descriptor (example_manifest "tunnel"))
  ∧ @workload_digest Antientropy.toy_sha256 (example_manifest "tunnel") Limits.DEFAULT = Ok (VerifiedClosure.root example_closure)
  ∧ ∀ g, VerifiedClosure.artifacts example_closure !! g = verified_at (every_descriptor (example_manifest "tunnel")) g.
Proof.
  apply (@validate_closure_exact Antientropy.toy_sha256 (example_manifest "tunnel") example_source Limits.DEFAULT example_closure); [done|exact example_countable|].
  apply admits_ok. vm_compute. reflexivity.
Defined.
Definition composed_closure : VerifiedClosure.t :=
  closure_of (@validate_v3_closure Antientropy.toy_sha256 (example_composed "tunnel") example_source Limits.DEFAULT).
Lemma validate_v3_closure_exact_witness :
  sound_composition (example_composed "tunnel") Limits.DEFAULT
  ∧ Forall (@served Antientropy.toy_sha256 example_source) (v3_descriptors (example_composed "tunnel"))
  ∧ @Composed.workload_digest Antientropy.toy_sha256 (example_composed "tunnel") Limits.DEFAULT = Ok (VerifiedClosure.root composed_closure)
  ∧ ∀ g, VerifiedClosure.artifacts composed_closure !! g = verified_at (v3_descriptors (example_composed "tunnel")) g.
Proof.
  apply (@validate_v3_closure_exact Antientropy.toy_sha256 (example_composed "tunnel") example_source Limits.DEFAULT composed_closure); [done|exact example_countable|].
  apply admits_ok. vm_compute. reflexivity.
Defined.
Lemma validate_closure_answers_witness :
  ∃ r, @validate_closure Antientropy.toy_sha256 (example_manifest "tunnel") (λ _, None) Limits.DEFAULT = answer r
  ∧ ∀ report, r = Err report → ClosureReport.errors report ≠ [].
Proof. apply (@validate_closure_answers Antientropy.toy_sha256). done. Defined.
Lemma artifact_verdict_witness :
  @BlobVerifier.finish Antientropy.toy_sha256
    (foldl (λ v chunk, (BlobVerifier.write chunk v).1) (BlobVerifier.new (example_descriptor "component" "a")) [replicate 1024 "a"%char; ["b"%char]])
  = Err (ClosureError.SizeOverrun (ArtifactDigest.from_sha256 (replicate 32 "a"%char)) 1024).
Proof.
  rewrite (@artifact_verdict Antientropy.toy_sha256 (example_descriptor "component" "a") [replicate 1024 "a"%char; ["b"%char]]); vm_compute; [reflexivity|discriminate].
Defined.
Lemma cyclic_plan_exact_witness : acyclic (StepPlan.invocations (ComputeSpec.step_plan example_compute)).
Proof.
  apply (cyclic_plan_exact example_compute); [|vm_compute; reflexivity].
  apply (bool_decide_unpack (NoDup (StepInvocation.invocation_id <$> StepPlan.invocations (ComputeSpec.step_plan example_compute)))). vm_compute. exact I.
Defined.

(** ** Limits that report nothing

    With no room for a problem, a manifest is admitted whatever is wrong with it. *)
Definition unreported : Limits.t := limits_with 0 (N.shiftl 1 20).
Definition without_bytes : BlobSource := λ _, None.
Example unreported_admits :
  admits (@validate_closure Antientropy.toy_sha256 (example_manifest "tunnel") without_bytes unreported) = true
  ∧ admits (@validate_closure Antientropy.toy_sha256 (example_manifest "tunnel") without_bytes Limits.DEFAULT) = false.
Proof. vm_compute. done. Qed.
(** A graph of no components is admitted, though its form is not read back. *)
Example empty_graph_admitted :
  admits (@validate_closure Antientropy.toy_sha256 (empty_graph (example_manifest "tunnel")) without_bytes Limits.DEFAULT) = true.
Proof. vm_compute. reflexivity. Qed.
