(* ===== verification/Packet.v ===== *)
(** * The packets of a run (crate [orishu-plugin], execution.rs)

    The numerical state of a simulation travels between the owner of a run and
    its kernels as packets of fixed-size records in the order of their keys. The
    records with their byte layouts, the writer of a packet and its reader, which
    is proved to accept exactly what the writer can write.

    Storage is asked of a [Host], which may refuse. *)

From Stdlib Require Import Ascii.
From Stdlib Require Import Floats.SpecFloat.
From stdpp Require Import base gmap strings list sorting.
From S2P Require Import Prelude Identity Binary64 Workload Cbor Codec.
From S2P Require Antientropy Encoding.
Import Antientropy (to_be_bytes).

(** ** Effects

    A computation of the host: it passes on a world, may refuse, and may panic
    ([None]). *)
Definition io (W E A : Type) : Type := W → option (result E A * W).
#[export] Instance io_ret W E : MRet (io W E) := λ A a w, Some (Ok a, w).
#[export] Instance io_bind W E : MBind (io W E) := λ A B f m w,
  match m w with
  | Some (Ok a, w) => f a w
  | Some (Err e, w) => Some (Err e, w)
  | None => None
  end.
(** What needs no world. *)
Definition pure {W E A} (m : outcome E A) : io W E A := λ w, match m with Some r => Some (r, w) | None => None end.
Definition io_map_err {W E F A} (f : E → F) (m : io W E A) : io W F A := λ w,
  match m w with Some (r, w) => Some (result_map_err f r, w) | None => None end.

(** Whether the room a vector asks for is found ([Vec::try_reserve]): how much it
    asks is not told, the world may answer as it likes. *)
Class Allocator (W : Type) : Type := try_reserve : W → bool * W.
Definition reserve `{Allocator W} {E} (refusal : E) : io W E unit := λ w,
  match try_reserve w with
  | (true, w) => Some (Ok (), w)
  | (false, w) => Some (Err refusal, w)
  end.

(** ** Records *)
Module EntityId.
Record t : Type := mk { raw : N }.
#[global] Instance packet_EntityId_eq_dec : EqDecision t.
Proof. solve_decision. Defined.
#[global] Instance packet_EntityId_ord : Ord t := λ a b, cmp (raw a) (raw b).
#[global] Instance packet_EntityId_ord_laws : OrdLaws t.
Proof. eapply (ord_laws_inj raw); [by intros [] []; cbn; intros ->|done]. Qed.
End EntityId.
Module CouplingSlot.
Record t : Type := mk { raw : N }.
End CouplingSlot.
(** [[FiniteF64; 3]]. *)
Module Vec3.
Record t : Type := mk { x : FiniteF64.t; y : FiniteF64.t; z : FiniteF64.t }.
Definition ZERO : t := mk FiniteF64.ZERO FiniteF64.ZERO FiniteF64.ZERO.
End Vec3.
Module Kinematics.
Record t : Type := mk { position_metres : Vec3.t; velocity_metres_per_second : Vec3.t }.
End Kinematics.
Module DynamicEntity.
Record t : Type := mk { id : EntityId.t; kinematics : Kinematics.t; inertial_mass_kilograms : FiniteF64.t }.
End DynamicEntity.
Module ObjectState.
Record t : Type := mk { id : EntityId.t; kinematics : Kinematics.t; inertial_mass_kilograms : option FiniteF64.t }.
Definition dynamic (o : t) : option DynamicEntity.t := DynamicEntity.mk (id o) (kinematics o) <$> inertial_mass_kilograms o.
End ObjectState.
Module CoupledEntity.
Record t : Type := mk {
  id : EntityId.t;
  slot : CouplingSlot.t;
  kinematics : Kinematics.t;
  has_dynamics : bool;
  source_si : option FiniteF64.t;
  response_si : option FiniteF64.t
}.
Definition is_some {A} (o : option A) : bool := match o with Some _ => true | None => false end.
Definition responds_dynamically (c : t) : bool := has_dynamics c && is_some (response_si c).
End CoupledEntity.
Notation is_some := CoupledEntity.is_some.
Module Force.
Record t : Type := mk { id : EntityId.t; newtons : Vec3.t }.
End Force.

(** Derived equality: numbers by IEEE equality. *)
Definition same_scalar (a b : FiniteF64.t) : bool := F64.eqb (FiniteF64.get a) (FiniteF64.get b).
Definition same_vector (a b : Vec3.t) : bool :=
  same_scalar (Vec3.x a) (Vec3.x b) && same_scalar (Vec3.y a) (Vec3.y b) && same_scalar (Vec3.z a) (Vec3.z b).
Definition same_kinematics (a b : Kinematics.t) : bool :=
  same_vector (Kinematics.position_metres a) (Kinematics.position_metres b)
  && same_vector (Kinematics.velocity_metres_per_second a) (Kinematics.velocity_metres_per_second b).

(** ** Limits and errors *)
Module BulkLimits.
Record t : Type := mk { bytes : N; records : N }.
Definition default : t := mk (128 * 1024 * 1024) 1000000.
End BulkLimits.
Module BulkError.
Inductive t : Type := LimitExceeded | Framing | EntityOrder | InvalidRecord.
#[global] Instance packet_BulkError_eq_dec : EqDecision t.
Proof. solve_decision. Defined.
End BulkError.

(** ** Layout *)
Definition to_le_bytes (n : nat) (v : N) : bytes := reverse (to_be_bytes n v).
Definition from_le_bytes (l : bytes) : N := from_be_bytes (reverse l).
(** [&l[a..b]], of a list that is long enough. *)
Definition slice (a b : nat) (l : bytes) : bytes := take (b - a) (drop a l).
Definition zeros (n : nat) : bytes := replicate n (ascii_of_N 0).
Definition byte_at (i : nat) (l : bytes) : N := from_le_bytes (slice i (S i) l).

Definition read_id (l : bytes) : result BulkError.t EntityId.t :=
  if length l <? 8 then Err BulkError.Framing else Ok (EntityId.mk (from_le_bytes (take 8 l))).
Definition read_scalar (l : bytes) : result BulkError.t FiniteF64.t :=
  if negb (length l =? 8) then Err BulkError.Framing
  else
    let bits := from_le_bytes l in
    (* Negative zero has a second byte representation. *)
    if (bits =? N.shiftl 1 63)%N then Err BulkError.InvalidRecord
    else result_map_err (λ _, BulkError.InvalidRecord) (FiniteF64.new (f64_from_bits bits)).
Definition read_vector (l : bytes) : result BulkError.t Vec3.t :=
  if negb (length l =? 24) then Err BulkError.Framing
  else
    x ← read_scalar (slice 0 8 l);
    y ← read_scalar (slice 8 16 l);
    z ← read_scalar (slice 16 24 l);
    Ok (Vec3.mk x y z).
Definition read_kinematics (l : bytes) : result BulkError.t Kinematics.t :=
  if negb (length l =? 48) then Err BulkError.Framing
  else
    position ← read_vector (slice 0 24 l);
    velocity ← read_vector (slice 24 48 l);
    Ok (Kinematics.mk position velocity).
Definition put_scalar (output : bytes) (value : FiniteF64.t) : bytes :=
  output ++ to_le_bytes 8 (f64_to_bits (FiniteF64.get value)).
Definition put_vector (output : bytes) (v : Vec3.t) : bytes :=
  put_scalar (put_scalar (put_scalar output (Vec3.x v)) (Vec3.y v)) (Vec3.z v).
Definition put_kinematics (output : bytes) (value : Kinematics.t) : bytes :=
  put_vector (put_vector output (Kinematics.position_metres value)) (Kinematics.velocity_metres_per_second value).
Definition put_id (output : bytes) (id : EntityId.t) : bytes := output ++ to_le_bytes 8 (EntityId.raw id).

(** [BulkRecord]: one schema of records. *)
Class BulkRecord (R : Type) : Type := {
  SCHEMA : string;
  KIND : N;
  BYTES : nat;
  entity_id : R → EntityId.t;
  ordering_key : R → EntityId.t * N;
  consistent_entity : R → R → bool;
  validate : R → result BulkError.t unit;
  decode : bytes → result BulkError.t R;
  encode : R → bytes → bytes
}.
Arguments SCHEMA R {_}.
Arguments KIND R {_}.
Arguments BYTES R {_}.

Definition object_validate (o : ObjectState.t) : result BulkError.t unit :=
  if match ObjectState.inertial_mass_kilograms o with
     | Some mass => F64.leb (FiniteF64.get mass) F64.zero
     | None => false
     end
  then Err BulkError.InvalidRecord else Ok ().
Definition object_decode (l : bytes) : result BulkError.t ObjectState.t :=
  if negb (length l =? 72) || (1 <? byte_at 56 l)%N || negb (bool_decide (slice 57 64 l = zeros 7))
  then Err BulkError.InvalidRecord
  else
    mass ← read_scalar (slice 64 72 l);
    if (byte_at 56 l =? 0)%N && negb (same_scalar mass FiniteF64.ZERO) then Err BulkError.InvalidRecord
    else
      id ← read_id l;
      kinematics ← read_kinematics (slice 8 56 l);
      let value := ObjectState.mk id kinematics (if (byte_at 56 l =? 1)%N then Some mass else None) in
      _ ← object_validate value;
      Ok value.
Definition object_encode (o : ObjectState.t) (output : bytes) : bytes :=
  let output := put_kinematics (put_id output (ObjectState.id o)) (ObjectState.kinematics o) in
  put_scalar (output ++ to_le_bytes 1 (if is_some (ObjectState.inertial_mass_kilograms o) then 1 else 0) ++ zeros 7)
    (default FiniteF64.ZERO (ObjectState.inertial_mass_kilograms o)).
#[export] Instance object_record : BulkRecord ObjectState.t := {
  SCHEMA := "orishu.simulation.objects/v1"; KIND := 5; BYTES := 72;
  entity_id := ObjectState.id;
  ordering_key := λ o, (ObjectState.id o, 0%N);
  consistent_entity := λ _ _, true;
  validate := object_validate; decode := object_decode; encode := object_encode
}.

Definition dynamic_validate (e : DynamicEntity.t) : result BulkError.t unit :=
  if negb (FiniteF64.is_positive (DynamicEntity.inertial_mass_kilograms e)) then Err BulkError.InvalidRecord else Ok ().
Definition dynamic_decode (l : bytes) : result BulkError.t DynamicEntity.t :=
  if negb (length l =? 64) then Err BulkError.Framing
  else
    id ← read_id l;
    kinematics ← read_kinematics (slice 8 56 l);
    mass ← read_scalar (slice 56 64 l);
    Ok (DynamicEntity.mk id kinematics mass).
Definition dynamic_encode (e : DynamicEntity.t) (output : bytes) : bytes :=
  put_scalar (put_kinematics (put_id output (DynamicEntity.id e)) (DynamicEntity.kinematics e))
    (DynamicEntity.inertial_mass_kilograms e).
#[export] Instance dynamic_record : BulkRecord DynamicEntity.t := {
  SCHEMA := "orishu.dynamic-entities/v1"; KIND := 1; BYTES := 64;
  entity_id := DynamicEntity.id;
  ordering_key := λ e, (DynamicEntity.id e, 0%N);
  consistent_entity := λ _ _, true;
  validate := dynamic_validate; decode := dynamic_decode; encode := dynamic_encode
}.

Definition coupled_consistent (self previous : CoupledEntity.t) : bool :=
  same_kinematics (CoupledEntity.kinematics self) (CoupledEntity.kinematics previous)
  && eqb (CoupledEntity.has_dynamics self) (CoupledEntity.has_dynamics previous).
Definition coupled_validate (c : CoupledEntity.t) : result BulkError.t unit :=
  if negb (is_some (CoupledEntity.source_si c)) && negb (is_some (CoupledEntity.response_si c))
  then Err BulkError.InvalidRecord else Ok ().
Definition bit (b : bool) : N := if b then 1 else 0.
Definition coupled_decode (l : bytes) : result BulkError.t CoupledEntity.t :=
  if negb (length l =? 80) then Err BulkError.Framing
  else
    let flags := byte_at 56 l in
    let has mask := negb (N.land flags mask =? 0)%N in
    if has 248%N || negb (bool_decide (slice 57 60 l = zeros 3)) then Err BulkError.InvalidRecord
    else
      source ← read_scalar (slice 64 72 l);
      response ← read_scalar (slice 72 80 l);
      if (negb (has 2%N) && negb (same_scalar source FiniteF64.ZERO))
         || (negb (has 4%N) && negb (same_scalar response FiniteF64.ZERO))
      then Err BulkError.InvalidRecord
      else
        id ← read_id l;
        kinematics ← read_kinematics (slice 8 56 l);
        Ok (CoupledEntity.mk id (CouplingSlot.mk (from_le_bytes (slice 60 64 l))) kinematics (has 1%N)
              (if has 2%N then Some source else None) (if has 4%N then Some response else None)).
Definition coupled_flags (c : CoupledEntity.t) : N :=
  N.lor (N.lor (bit (CoupledEntity.has_dynamics c)) (N.shiftl (bit (is_some (CoupledEntity.source_si c))) 1))
    (N.shiftl (bit (is_some (CoupledEntity.response_si c))) 2).
Definition coupled_encode (c : CoupledEntity.t) (output : bytes) : bytes :=
  let output := put_kinematics (put_id output (CoupledEntity.id c)) (CoupledEntity.kinematics c) in
  let output := output ++ to_le_bytes 1 (coupled_flags c) ++ zeros 3 in
  let output := output ++ to_le_bytes 4 (CouplingSlot.raw (CoupledEntity.slot c)) in
  put_scalar (put_scalar output (default FiniteF64.ZERO (CoupledEntity.source_si c)))
    (default FiniteF64.ZERO (CoupledEntity.response_si c)).
#[export] Instance coupled_record : BulkRecord CoupledEntity.t := {
  SCHEMA := "orishu.coupled-entities/v1"; KIND := 2; BYTES := 80;
  entity_id := CoupledEntity.id;
  ordering_key := λ c, (CoupledEntity.id c, CouplingSlot.raw (CoupledEntity.slot c));
  consistent_entity := coupled_consistent;
  validate := coupled_validate; decode := coupled_decode; encode := coupled_encode
}.

Definition force_decode (l : bytes) : result BulkError.t Force.t :=
  if negb (length l =? 32) then Err BulkError.Framing
  else id ← read_id l; newtons ← read_vector (slice 8 32 l); Ok (Force.mk id newtons).
Definition force_encode (f : Force.t) (output : bytes) : bytes := put_vector (put_id output (Force.id f)) (Force.newtons f).
#[export] Instance force_record : BulkRecord Force.t := {
  SCHEMA := "orishu.forces/v1"; KIND := 3; BYTES := 32;
  entity_id := Force.id;
  ordering_key := λ f, (Force.id f, 0%N);
  consistent_entity := λ _ _, true;
  validate := λ _, Ok (); decode := force_decode; encode := force_encode
}.

Definition id_decode (l : bytes) : result BulkError.t EntityId.t :=
  if negb (length l =? 8) then Err BulkError.Framing else read_id l.
Definition id_encode (i : EntityId.t) (output : bytes) : bytes := output ++ to_le_bytes 8 (EntityId.raw i).
#[export] Instance id_record : BulkRecord EntityId.t := {
  SCHEMA := "orishu.entity-ids/v1"; KIND := 4; BYTES := 8;
  entity_id := λ i, i;
  ordering_key := λ i, (i, 0%N);
  consistent_entity := λ _ _, true;
  validate := λ _, Ok (); decode := id_decode; encode := id_encode
}.

(** ** Packets *)
Definition HEADER_BYTES : nat := 12.
Definition MAGIC : bytes := bytes_of "OSB1".

(** The exact size of a packet, by checked arithmetic. *)
Definition packet_bytes (R : Type) `{BulkRecord R} (records : N) (limits : BulkLimits.t) : result BulkError.t N :=
  if ((BulkLimits.records limits <? records) || (u32_max <? records))%N then Err BulkError.LimitExceeded
  else
    let n := (records * N.of_nat (BYTES R))%N in
    if (usize_max <? n)%N then Err BulkError.LimitExceeded
    else
      match checked_add usize_max n (N.of_nat HEADER_BYTES) with
      | Some n => if (n <=? BulkLimits.bytes limits)%N then Ok n else Err BulkError.LimitExceeded
      | None => Err BulkError.LimitExceeded
      end.

Definition ordered `{BulkRecord R} (previous : option R) (record : R) : result BulkError.t (option R) :=
  if match previous with Some prior => cmp_geb (ordering_key prior) (ordering_key record) | None => false end
  then Err BulkError.EntityOrder
  else if match previous with
          | Some prior => bool_decide (entity_id prior = entity_id record) && negb (consistent_entity record prior)
          | None => false
          end
  then Err BulkError.InvalidRecord
  else Ok (Some record).

(** The records of a packet about to be written, one after the other. *)
Fixpoint check_records `{BulkRecord R} (previous : option R) (records : list R) : result BulkError.t unit :=
  match records with
  | [] => Ok ()
  | record :: records =>
    _ ← validate record;
    previous ← ordered previous record;
    check_records previous records
  end.
(** The records of a packet that is read. *)
Fixpoint check_chunks (R : Type) `{BulkRecord R} (previous : option R) (chunks : list bytes) : result BulkError.t unit :=
  match chunks with
  | [] => Ok ()
  | chunk :: chunks =>
    record ← decode chunk;
    _ ← validate record;
    previous ← ordered previous record;
    check_chunks R previous chunks
  end.

(** [chunks_exact]: what is left over is not shown. *)
Definition chunks_exact (n : nat) (l : bytes) : list bytes :=
  (λ i, take n (drop (i * n) l)) <$> seq 0 (length l / n).

Definition header (R : Type) `{BulkRecord R} (records : N) : bytes :=
  MAGIC ++ to_le_bytes 2 (KIND R) ++ zeros 2 ++ to_le_bytes 4 records.

Module Batch.
Record t (R : Type) : Type := mk { bytes : Prelude.bytes; records : N }.
Arguments mk {R} _ _.
Arguments bytes {R} _.
Arguments records {R} _.
Definition read (R : Type) `{BulkRecord R} (bytes : Prelude.bytes) (limits : BulkLimits.t) : result BulkError.t (t R) :=
  if (BulkLimits.bytes limits <? lenN bytes)%N then Err BulkError.LimitExceeded
  else if (length bytes <? HEADER_BYTES) || negb (bool_decide (slice 0 4 bytes = MAGIC))
       || negb (from_le_bytes (slice 4 6 bytes) =? KIND R)%N || negb (bool_decide (slice 6 8 bytes = zeros 2))
  then Err BulkError.Framing
  else
    let records := from_le_bytes (slice 8 12 bytes) in
    length ← packet_bytes R records limits;
    if negb (lenN bytes =? length)%N then Err BulkError.Framing
    else
      _ ← check_chunks R None (chunks_exact (BYTES R) (drop HEADER_BYTES bytes));
      Ok (mk bytes records).
Definition len {R} (b : t R) : N := records b.
Definition is_empty {R} (b : t R) : bool := (records b =? 0)%N.
(** [expect]: [None] is the panic. *)
Definition expect {E A} (r : result E A) : option A := match r with Ok a => Some a | Err _ => None end.
(** The inner option is the answer. *)
Definition get `{BulkRecord R} (b : t R) (index : N) : option (option R) :=
  if (records b <=? index)%N then Some None
  else
    let start := HEADER_BYTES + N.to_nat index * BYTES R in
    Some <$> expect (decode (slice start (start + BYTES R) (bytes b))).
Definition iter `{BulkRecord R} (b : t R) : option (list R) :=
  mapM (λ chunk, expect (decode chunk)) (chunks_exact (BYTES R) (drop HEADER_BYTES (bytes b))).
End Batch.

(** The answer is what the caller's output holds afterwards, whatever it held; a
    refusal comes before anything of it is touched. *)
Definition encode_batch `{Allocator W, BulkRecord R} (records : list R) (limits : BulkLimits.t)
    : io W BulkError.t bytes :=
  _ ← pure (answer (packet_bytes R (lenN records) limits));
  _ ← pure (answer (check_records None records));
  _ ← reserve BulkError.LimitExceeded;
  mret (foldl (λ output record, encode record output) (header R (lenN records mod 2 ^ 32)) records).

(** * The reader and the writer agree *)

(** ** Bytes *)
Lemma to_le_bytes_length n v : length (to_le_bytes n v) = n.
Proof. unfold to_le_bytes. by rewrite length_reverse, Encoding.to_be_bytes_length. Qed.
Lemma from_to_le_bytes n v : (v < 256 ^ N.of_nat n)%N → from_le_bytes (to_le_bytes n v) = v.
Proof. intros Hv. unfold from_le_bytes, to_le_bytes. rewrite reverse_involutive. by apply from_to_be_bytes. Qed.
Lemma to_from_le_bytes n l : length l = n → to_le_bytes n (from_le_bytes l) = l.
Proof.
  intros <-. unfold from_le_bytes, to_le_bytes. rewrite <-(length_reverse l), to_from_be_bytes. apply reverse_involutive.
Qed.
Lemma from_le_bytes_lt l : (from_le_bytes l < 256 ^ lenN l)%N.
Proof. unfold from_le_bytes. pose proof (from_be_bytes_lt (reverse l)) as H. unfold lenN in *. by rewrite length_reverse in H. Qed.

Lemma slice_length a b l : b ≤ length l → length (slice a b l) = b - a.
Proof. intros H. unfold slice. rewrite length_take, length_drop. lia. Qed.
Lemma slice_join a b c l : a ≤ b → b ≤ c → slice a b l ++ slice b c l = slice a c l.
Proof.
  intros Hab Hbc. unfold slice. replace (drop b l) with (drop (b - a) (drop a l)) by (rewrite drop_drop; f_equal; lia).
  rewrite take_take_drop. f_equal. lia.
Qed.
Lemma slice_slice a b c d l : a + d ≤ b → slice c d (slice a b l) = slice (a + c) (a + d) l.
Proof.
  intros H. unfold slice. rewrite skipn_firstn_comm, drop_drop, take_take. f_equal. lia.
Qed.
Lemma slice_all n l : length l = n → slice 0 n l = l.
Proof. intros <-. unfold slice. rewrite drop_0, Nat.sub_0_r. apply firstn_all. Qed.
Lemma slice_skip a b l r : length l ≤ a → slice a b (l ++ r) = slice (a - length l) (b - length l) r.
Proof. intros H. unfold slice. rewrite drop_app_ge by done. f_equal. lia. Qed.
Lemma slice_here a b l r : b ≤ length l → slice a b (l ++ r) = slice a b l.
Proof.
  intros H. unfold slice. destruct (decide (a ≤ length l)).
  - rewrite drop_app_le, take_app_le by (rewrite ?length_drop; lia). done.
  - replace (b - a) with 0 by lia. done.
Qed.
Lemma slice_span n l r : length l ≤ n → slice 0 n (l ++ r) = l ++ slice 0 (n - length l) r.
Proof. intros H. unfold slice. rewrite !drop_0, !Nat.sub_0_r. by apply take_app_ge. Qed.

(** ** Numbers *)
Lemma same_scalar_spec a b : canonical_float a = true → canonical_float b = true → same_scalar a b = true ↔ a = b.
Proof.
  destruct a as [a], b as [b]. unfold canonical_float, same_scalar, F64.eqb, SFeqb, FiniteF64.get.
  destruct a as [[]| | |sa ma ea], b as [[]| | |sb mb eb]; try done; intros _ _; cbn [SFcompare].
  1: by destruct sb. 1: by destruct sa.
  split; [|intros [= -> -> ->]; destruct sb; by rewrite Z.compare_refl, Pos.compare_cont_refl].
  destruct sa, sb; try done.
  - destruct (ea ?= eb)%Z eqn:He; cbn; try done. apply Z.compare_eq in He as ->.
    destruct (Pos.compare_cont Eq ma mb) eqn:Hm; cbn; try done. by apply Pos.compare_eq in Hm as ->.
  - destruct (ea ?= eb)%Z eqn:He; cbn; try done. apply Z.compare_eq in He as ->.
    destruct (Pos.compare_cont Eq ma mb) eqn:Hm; cbn; try done. by apply Pos.compare_eq in Hm as ->.
Qed.
Lemma negative_zero_bits n : (n < 2 ^ 64)%N → f64_from_bits n = S754_zero true → n = N.shiftl 1 63.
Proof.
  intros Hn. rewrite (packed_of n Hn) at 2. unfold f64_from_bits, packed.
  generalize (2 ^ 63 <=? n)%N, ((n / 2 ^ 52) mod 2 ^ 11)%N, (n mod 2 ^ 52)%N. intros s x f.
  destruct (x =? 0)%N eqn:Ex.
  - apply N.eqb_eq in Ex as ->. destruct f; [|done]. by intros [= ->].
  - destruct (x =? 2047)%N; [by destruct (f =? 0)%N|]. by destruct (2 ^ 52 + f)%N.
Qed.
Lemma read_scalar_ok l x : read_scalar l = Ok x ↔
  canonical_float x = true ∧ l = to_le_bytes 8 (f64_to_bits (FiniteF64.get x)).
Proof.
  unfold read_scalar. split.
  - destruct (length l =? 8) eqn:Hl; cbn [negb]; [|done]. apply Nat.eqb_eq in Hl.
    pose proof (from_le_bytes_lt l) as Hlt. unfold lenN in Hlt. rewrite Hl in Hlt. change (256 ^ N.of_nat 8)%N with (2 ^ 64)%N in Hlt.
    destruct (_ =? _)%N eqn:Hz; [done|]. apply N.eqb_neq in Hz. set (n := from_le_bytes l) in *.
    destruct (FiniteF64.new (f64_from_bits n)) as [y|] eqn:Hx; [|done]. intros [= <-].
    apply finite_new in Hx as [Hf Hx].
    assert (y = FiniteF64.mk (f64_from_bits n)) as ->.
    { apply Hx. pose proof (negative_zero_bits n Hlt) as Hneg. destruct (f64_from_bits n) as [[]| | |[] ? ?]; try done.
      by destruct (Hz (Hneg eq_refl)). }
    assert (canonical_float (FiniteF64.mk (f64_from_bits n)) = true) as Hc.
    { unfold canonical_float, FiniteF64.get. pose proof (f64_from_bits_bounded n) as Hb.
      pose proof (negative_zero_bits n Hlt) as Hneg. destruct (f64_from_bits n) as [[]| | |s m e]; try done. by destruct (Hz (Hneg eq_refl)). }
    split; [done|]. cbn [FiniteF64.get]. rewrite f64_from_to_bits by done. symmetry. by apply to_from_le_bytes.
  - intros [Hc ->]. destruct (f64_to_from_bits x Hc) as [Hf Hlt]. rewrite to_le_bytes_length. cbn [Nat.eqb negb].
    rewrite from_to_le_bytes by exact Hlt.
    destruct (_ =? _)%N eqn:Hz.
    { apply N.eqb_eq in Hz. rewrite Hz in Hf. replace (f64_from_bits (N.shiftl 1 63)) with (S754_zero true) in Hf by done.
      unfold canonical_float in Hc. by rewrite <-Hf in Hc. }
    rewrite Hf. destruct x as [x]. unfold canonical_float, FiniteF64.get in *. by destruct x as [[]| | |[] m e].
Qed.

Definition canonical_vector (v : Vec3.t) : Prop :=
  canonical_float (Vec3.x v) = true ∧ canonical_float (Vec3.y v) = true ∧ canonical_float (Vec3.z v) = true.
Definition canonical_kinematics (k : Kinematics.t) : Prop :=
  canonical_vector (Kinematics.position_metres k) ∧ canonical_vector (Kinematics.velocity_metres_per_second k).
Definition scalar_bytes (x : FiniteF64.t) : bytes := to_le_bytes 8 (f64_to_bits (FiniteF64.get x)).
Definition vector_bytes (v : Vec3.t) : bytes := scalar_bytes (Vec3.x v) ++ scalar_bytes (Vec3.y v) ++ scalar_bytes (Vec3.z v).
Definition kinematics_bytes (k : Kinematics.t) : bytes :=
  vector_bytes (Kinematics.position_metres k) ++ vector_bytes (Kinematics.velocity_metres_per_second k).
Lemma scalar_bytes_length x : length (scalar_bytes x) = 8.
Proof. apply to_le_bytes_length. Qed.
Lemma vector_bytes_length v : length (vector_bytes v) = 24.
Proof. unfold vector_bytes. by rewrite !length_app, !scalar_bytes_length. Qed.
Lemma kinematics_bytes_length k : length (kinematics_bytes k) = 48.
Proof. unfold kinematics_bytes. by rewrite !length_app, !vector_bytes_length. Qed.

Lemma zeros_length n : length (zeros n) = n.
Proof. apply length_replicate. Qed.
(** Slices of what was put together, computed from the lengths of the parts. *)
Create HintDb widths.
#[export] Hint Rewrite to_le_bytes_length scalar_bytes_length vector_bytes_length kinematics_bytes_length zeros_length @length_app : widths.
Ltac width := autorewrite with widths; cbn; lia.
Ltac slices := repeat first
  [ rewrite slice_skip by width; autorewrite with widths; cbn [Nat.sub]
  | rewrite slice_here by width
  | rewrite slice_all by width ].

Lemma read_scalar_back x : canonical_float x = true → read_scalar (scalar_bytes x) = Ok x.
Proof. intros H. by apply read_scalar_ok. Qed.

Lemma read_vector_ok l v : read_vector l = Ok v ↔ canonical_vector v ∧ l = vector_bytes v.
Proof.
  unfold read_vector. split.
  - destruct (length l =? 24) eqn:Hl; cbn [negb]; [|done]. apply Nat.eqb_eq in Hl. intros H.
    apply result_bind_ok in H as (x & [Hx Ex]%read_scalar_ok & H). apply result_bind_ok in H as (y & [Hy Ey]%read_scalar_ok & H).
    apply result_bind_ok in H as (z & [Hz Ez]%read_scalar_ok & [= <-]).
    split; [done|]. unfold vector_bytes, scalar_bytes. cbn [Vec3.x Vec3.y Vec3.z]. rewrite <-Ex, <-Ey, <-Ez.
    rewrite !slice_join by lia. symmetry. by apply slice_all.
  - intros [(Hx & Hy & Hz) ->]. rewrite vector_bytes_length. cbn [Nat.eqb negb].
    unfold vector_bytes. slices. rewrite (read_scalar_back _ Hx). cbn [mbind result_bind]. rewrite (read_scalar_back _ Hy).
    cbn [mbind result_bind]. rewrite (read_scalar_back _ Hz). by destruct v.
Qed.
Lemma read_vector_back v : canonical_vector v → read_vector (vector_bytes v) = Ok v.
Proof. intros H. by apply read_vector_ok. Qed.
Lemma read_kinematics_ok l k : read_kinematics l = Ok k ↔ canonical_kinematics k ∧ l = kinematics_bytes k.
Proof.
  unfold read_kinematics. split.
  - destruct (length l =? 48) eqn:Hl; cbn [negb]; [|done]. apply Nat.eqb_eq in Hl. intros H.
    apply result_bind_ok in H as (p & [Hp Ep]%read_vector_ok & H). apply result_bind_ok in H as (v & [Hv Ev]%read_vector_ok & [= <-]).
    split; [done|]. unfold kinematics_bytes. cbn [Kinematics.position_metres Kinematics.velocity_metres_per_second].
    rewrite <-Ep, <-Ev, slice_join by lia. symmetry. by apply slice_all.
  - intros [[Hp Hv] ->]. rewrite kinematics_bytes_length. cbn [Nat.eqb negb]. unfold kinematics_bytes. slices.
    rewrite (read_vector_back _ Hp). cbn [mbind result_bind]. rewrite (read_vector_back _ Hv). by destruct k.
Qed.
Lemma read_kinematics_back k : canonical_kinematics k → read_kinematics (kinematics_bytes k) = Ok k.
Proof. intros H. by apply read_kinematics_ok. Qed.

(** ** Records *)

(** What the two directions of a record promise: [machine] holds of what the
    types of the code can hold, finite numbers and integers of their width. *)
Class RecordLaws (R : Type) `{BulkRecord R} : Type := {
  machine : R → Prop;
  encode_app : ∀ (r : R) out, encode r out = out ++ encode r [];
  encode_length : ∀ r : R, length (encode r []) = BYTES R;
  decode_encode : ∀ r : R, machine r → validate r = Ok () → decode (encode r []) = Ok r;
  decode_ok : ∀ (r : R) l, decode l = Ok r → machine r ∧ encode r [] = l;
  record_width : 0 < BYTES R ∧ (N.of_nat (BYTES R) < 128)%N ∧ (KIND R < 256)%N
}.

Definition id_bytes (i : EntityId.t) : bytes := to_le_bytes 8 (EntityId.raw i).
Definition wide_id (i : EntityId.t) : Prop := (EntityId.raw i < 2 ^ 64)%N.
Lemma id_bytes_length i : length (id_bytes i) = 8.
Proof. apply to_le_bytes_length. Qed.
#[export] Hint Rewrite id_bytes_length : widths.
Lemma read_id_ok l i : read_id l = Ok i → wide_id i ∧ id_bytes i = slice 0 8 l ∧ 8 ≤ length l.
Proof.
  unfold read_id. destruct (length l <? 8) eqn:Hl; [done|]. apply Nat.ltb_ge in Hl. intros [= <-].
  assert (length (take 8 l) = 8) as Ht by (rewrite length_take; lia).
  split_and!; [|by apply to_from_le_bytes|done].
  pose proof (from_le_bytes_lt (take 8 l)) as H. unfold lenN in H. by rewrite Ht in H.
Qed.
Lemma read_id_back i r : wide_id i → read_id (id_bytes i ++ r) = Ok i.
Proof.
  intros Hi. unfold read_id. rewrite length_app, id_bytes_length. cbn [Nat.add Nat.ltb Nat.leb].
  rewrite take_app_length' by (by rewrite id_bytes_length). unfold id_bytes. rewrite from_to_le_bytes by done. by destruct i.
Qed.
Lemma put_vector_app out v : put_vector out v = out ++ vector_bytes v.
Proof. unfold put_vector, vector_bytes, put_scalar, scalar_bytes. by rewrite <-!app_assoc. Qed.
Lemma put_kinematics_app out k : put_kinematics out k = out ++ kinematics_bytes k.
Proof. unfold put_kinematics, kinematics_bytes. by rewrite !put_vector_app, <-app_assoc. Qed.

#[export] Program Instance force_laws : RecordLaws Force.t := {
  machine := λ f, wide_id (Force.id f) ∧ canonical_vector (Force.newtons f) }.
Next Obligation. intros f out. cbn [encode decode BYTES force_record]. unfold force_encode, put_id. rewrite !put_vector_app. by rewrite <-!app_assoc. Qed.
Next Obligation. intros f. cbn [encode decode BYTES force_record]. unfold force_encode, put_id. rewrite put_vector_app. by rewrite !length_app, to_le_bytes_length, vector_bytes_length. Qed.
Next Obligation.
  intros f [Hi Hv] _. cbn [encode decode BYTES force_record]. unfold force_encode, put_id. rewrite put_vector_app. cbn [app]. fold (id_bytes (Force.id f)).
  unfold force_decode. rewrite length_app, id_bytes_length, vector_bytes_length. cbn [Nat.add Nat.eqb negb].
  rewrite read_id_back by done. cbn [mbind result_bind]. slices. rewrite read_vector_back by done. by destruct f.
Qed.
Next Obligation.
  intros f l. cbn [encode decode BYTES force_record]. unfold force_decode. destruct (length l =? 32) eqn:Hl; cbn [negb]; [|done]. apply Nat.eqb_eq in Hl. intros H.
  apply result_bind_ok in H as (i & (Hi & Ei & _)%read_id_ok & H). apply result_bind_ok in H as (v & [Hv Ev]%read_vector_ok & [= <-]).
  split; [done|]. unfold force_encode, put_id. rewrite put_vector_app. cbn [Force.id Force.newtons app].
  fold (id_bytes i). rewrite Ei, <-Ev, slice_join by lia. by apply slice_all.
Qed.
Next Obligation. cbn. lia. Qed.

#[export] Program Instance id_laws : RecordLaws EntityId.t := { machine := wide_id }.
Next Obligation. done. Qed.
Next Obligation. intros i. apply id_bytes_length. Qed.
Next Obligation.
  intros i Hi _. cbn [encode decode BYTES id_record]. unfold id_decode, id_encode. cbn [app]. fold (id_bytes i). rewrite id_bytes_length. cbn [Nat.eqb negb].
  rewrite <-(app_nil_r (id_bytes i)). by apply read_id_back.
Qed.
Next Obligation.
  intros i l. cbn [encode decode BYTES id_record]. unfold id_decode. destruct (length l =? 8) eqn:Hl; cbn [negb]; [|done]. apply Nat.eqb_eq in Hl.
  intros (Hi & Ei & _)%read_id_ok. split; [done|]. unfold id_encode. cbn [app]. fold (id_bytes i). rewrite Ei. by apply slice_all.
Qed.
Next Obligation. cbn. lia. Qed.

#[export] Program Instance dynamic_laws : RecordLaws DynamicEntity.t := {
  machine := λ e, wide_id (DynamicEntity.id e) ∧ canonical_kinematics (DynamicEntity.kinematics e)
    ∧ canonical_float (DynamicEntity.inertial_mass_kilograms e) = true }.
Next Obligation. intros e out. cbn [encode decode BYTES dynamic_record]. unfold dynamic_encode, put_id, put_scalar. rewrite !put_kinematics_app. by rewrite <-!app_assoc. Qed.
Next Obligation.
  intros e. cbn [encode decode BYTES dynamic_record]. unfold dynamic_encode, put_id, put_scalar. rewrite put_kinematics_app.
  by rewrite !length_app, !to_le_bytes_length, kinematics_bytes_length.
Qed.
Next Obligation.
  intros e (Hi & Hk & Hm) _. cbn [encode decode BYTES dynamic_record]. unfold dynamic_encode, put_id, put_scalar. rewrite put_kinematics_app. cbn [app].
  fold (id_bytes (DynamicEntity.id e)) (scalar_bytes (DynamicEntity.inertial_mass_kilograms e)). rewrite <-app_assoc.
  unfold dynamic_decode. rewrite !length_app, id_bytes_length, kinematics_bytes_length, scalar_bytes_length. cbn [Nat.add Nat.eqb negb].
  rewrite read_id_back by done. cbn [mbind result_bind]. slices. rewrite read_kinematics_back by done. cbn [mbind result_bind].
  rewrite read_scalar_back by done. by destruct e.
Qed.
Next Obligation.
  intros e l. cbn [encode decode BYTES dynamic_record]. unfold dynamic_decode. destruct (length l =? 64) eqn:Hl; cbn [negb]; [|done]. apply Nat.eqb_eq in Hl. intros H.
  apply result_bind_ok in H as (i & (Hi & Ei & _)%read_id_ok & H). apply result_bind_ok in H as (k & [Hk Ek]%read_kinematics_ok & H).
  apply result_bind_ok in H as (m & [Hm Em]%read_scalar_ok & [= <-]).
  split; [done|]. unfold dynamic_encode, put_id, put_scalar. rewrite put_kinematics_app.
  cbn [DynamicEntity.id DynamicEntity.kinematics DynamicEntity.inertial_mass_kilograms app].
  fold (id_bytes i). rewrite Ei, <-Ek, <-Em, !slice_join by lia. by apply slice_all.
Qed.
Next Obligation. cbn. lia. Qed.

Lemma zero_canonical : canonical_float FiniteF64.ZERO = true.
Proof. done. Qed.
Lemma same_zero x : canonical_float x = true → negb (same_scalar x FiniteF64.ZERO) = false → x = FiniteF64.ZERO.
Proof. intros Hc H%negb_false_iff. by apply same_scalar_spec in H. Qed.
(** A scalar that may be absent is zero where it is. *)
Definition canonical_option (o : option FiniteF64.t) : Prop := canonical_float (default FiniteF64.ZERO o) = true.
Lemma byte_at_back i n l r : length l = i → (n < 256)%N → byte_at i (l ++ to_le_bytes 1 n ++ r) = n.
Proof.
  intros <- Hn. unfold byte_at. rewrite slice_skip, Nat.sub_diag, Nat.sub_succ_l, Nat.sub_diag by lia.
  rewrite slice_here, slice_all by (by rewrite ?to_le_bytes_length). by apply from_to_le_bytes.
Qed.
Lemma byte_at_bytes i l : S i ≤ length l → to_le_bytes 1 (byte_at i l) = slice i (S i) l.
Proof. intros H. apply to_from_le_bytes. rewrite slice_length by done. lia. Qed.

Definition object_bytes (o : ObjectState.t) : bytes :=
  (id_bytes (ObjectState.id o) ++ kinematics_bytes (ObjectState.kinematics o))
  ++ to_le_bytes 1 (if is_some (ObjectState.inertial_mass_kilograms o) then 1 else 0)
  ++ zeros 7 ++ scalar_bytes (default FiniteF64.ZERO (ObjectState.inertial_mass_kilograms o)).
Lemma object_encode_app o out : object_encode o out = out ++ object_bytes o.
Proof.
  unfold object_encode, object_bytes, put_scalar, put_id. rewrite put_kinematics_app.
  fold (id_bytes (ObjectState.id o)) (scalar_bytes (default FiniteF64.ZERO (ObjectState.inertial_mass_kilograms o))).
  by rewrite <-!app_assoc.
Qed.
Lemma object_bytes_length o : length (object_bytes o) = 72.
Proof. unfold object_bytes. by autorewrite with widths. Qed.
Lemma object_decode_back o : wide_id (ObjectState.id o) → canonical_kinematics (ObjectState.kinematics o) →
  canonical_option (ObjectState.inertial_mass_kilograms o) → object_validate o = Ok () → object_decode (object_bytes o) = Ok o.
Proof.
  intros Hi Hk Hm Hv. unfold object_decode. rewrite object_bytes_length.
  assert (byte_at 56 (object_bytes o) = if is_some (ObjectState.inertial_mass_kilograms o) then 1 else 0)%N as Hb.
  { unfold object_bytes. apply byte_at_back; [by rewrite length_app, id_bytes_length, kinematics_bytes_length|by destruct (is_some _)]. }
  rewrite Hb. unfold object_bytes. rewrite <-!app_assoc. slices. rewrite bool_decide_true by done.
  rewrite read_scalar_back by done. rewrite read_id_back by done.
  rewrite read_kinematics_back by done.
  destruct o as [i k [m|]]; cbn [is_some ObjectState.inertial_mass_kilograms default] in *; cbn -[object_validate same_scalar].
  - by rewrite Hv.
  - assert (same_scalar FiniteF64.ZERO FiniteF64.ZERO = true) as -> by done. cbn [negb andb]. by rewrite Hv.
Qed.
Lemma object_decode_ok o l : object_decode l = Ok o →
  (wide_id (ObjectState.id o) ∧ canonical_kinematics (ObjectState.kinematics o)
   ∧ canonical_option (ObjectState.inertial_mass_kilograms o)) ∧ object_bytes o = l.
Proof.
  unfold object_decode. destruct (length l =? 72) eqn:Hl; cbn [negb orb]; [|done]. apply Nat.eqb_eq in Hl.
  destruct (1 <? byte_at 56 l)%N eqn:Hb; cbn [orb]; [done|]. apply N.ltb_ge in Hb.
  destruct (bool_decide (slice 57 64 l = zeros 7)) eqn:Hz; cbn [negb]; [|done]. apply bool_decide_eq_true in Hz. intros H.
  apply result_bind_ok in H as (m & [Hm Em]%read_scalar_ok & H).
  destruct (_ && _) eqn:Hf; [done|]. apply result_bind_ok in H as (i & (Hi & Ei & _)%read_id_ok & H).
  apply result_bind_ok in H as (k & [Hk Ek]%read_kinematics_ok & H). apply result_bind_ok in H as ([] & _ & [= <-]).
  cbn [ObjectState.id ObjectState.kinematics ObjectState.inertial_mass_kilograms]. unfold object_bytes.
  cbn [ObjectState.id ObjectState.kinematics ObjectState.inertial_mass_kilograms].
  assert (default FiniteF64.ZERO (if (byte_at 56 l =? 1)%N then Some m else None) = m) as Hd.
  { destruct (byte_at 56 l =? 1)%N eqn:E1; [done|]. apply N.eqb_neq in E1.
    rewrite (proj2 (N.eqb_eq _ 0)) in Hf by lia. symmetry. by apply same_zero. }
  split; [split_and!; [done|done|unfold canonical_option; by rewrite Hd]|].
  assert ((if is_some (if (byte_at 56 l =? 1)%N then Some m else None) then 1 else 0) = byte_at 56 l)%N as ->.
  { destruct (byte_at 56 l =? 1)%N eqn:E1; [by apply N.eqb_eq in E1|]. apply N.eqb_neq in E1. cbn [is_some]. lia. }
  rewrite Hd, byte_at_bytes, <-Hz by lia. unfold scalar_bytes. rewrite Ei, <-Ek, <-Em, !slice_join by lia. by apply slice_all.
Qed.
#[export] Program Instance object_laws : RecordLaws ObjectState.t := {
  machine := λ o, wide_id (ObjectState.id o) ∧ canonical_kinematics (ObjectState.kinematics o)
    ∧ canonical_option (ObjectState.inertial_mass_kilograms o) }.
Next Obligation. intros o out. cbn [encode object_record]. by rewrite !object_encode_app. Qed.
Next Obligation. intros o. cbn [encode BYTES object_record]. rewrite object_encode_app. apply object_bytes_length. Qed.
Next Obligation.
  intros o (Hi & Hk & Hm) Hv. cbn [encode decode validate object_record] in *. rewrite object_encode_app. by apply object_decode_back.
Qed.
Next Obligation. intros o l H. cbn [encode decode object_record] in *. rewrite object_encode_app. by apply object_decode_ok. Qed.
Next Obligation. cbn. lia. Qed.

Definition coupled_bytes (c : CoupledEntity.t) : bytes :=
  (id_bytes (CoupledEntity.id c) ++ kinematics_bytes (CoupledEntity.kinematics c))
  ++ to_le_bytes 1 (coupled_flags c) ++ zeros 3 ++ to_le_bytes 4 (CouplingSlot.raw (CoupledEntity.slot c))
  ++ scalar_bytes (default FiniteF64.ZERO (CoupledEntity.source_si c)) ++ scalar_bytes (default FiniteF64.ZERO (CoupledEntity.response_si c)).
Lemma coupled_encode_app c out : coupled_encode c out = out ++ coupled_bytes c.
Proof.
  unfold coupled_encode, coupled_bytes, put_scalar, put_id. rewrite put_kinematics_app.
  fold (id_bytes (CoupledEntity.id c)) (scalar_bytes (default FiniteF64.ZERO (CoupledEntity.source_si c)))
    (scalar_bytes (default FiniteF64.ZERO (CoupledEntity.response_si c))). by rewrite <-!app_assoc.
Qed.
Lemma coupled_bytes_length c : length (coupled_bytes c) = 80.
Proof. unfold coupled_bytes. by autorewrite with widths. Qed.
(** A mask of the flags, as the bit it selects. *)
Definition flags_of (d s r : bool) : N := N.lor (N.lor (bit d) (N.shiftl (bit s) 1)) (N.shiftl (bit r) 2).
Lemma flags_byte n : (n < 256)%N → N.land n 248 = 0%N →
  flags_of (negb (N.land n 1 =? 0)%N) (negb (N.land n 2 =? 0)%N) (negb (N.land n 4 =? 0)%N) = n.
Proof.
  intros Hn Hm.
  pose proof (every_byte (λ n, implb (N.land n 248 =? 0)
    (flags_of (negb (N.land n 1 =? 0)) (negb (N.land n 2 =? 0)) (negb (N.land n 4 =? 0)) =? n))%N ltac:(by vm_compute) n Hn) as H.
  cbn beta in H. rewrite Hm in H. by apply N.eqb_eq.
Qed.
Lemma coupled_decode_back c : wide_id (CoupledEntity.id c) → canonical_kinematics (CoupledEntity.kinematics c) →
  canonical_option (CoupledEntity.source_si c) → canonical_option (CoupledEntity.response_si c) →
  (CouplingSlot.raw (CoupledEntity.slot c) < 2 ^ 32)%N → coupled_decode (coupled_bytes c) = Ok c.
Proof.
  intros Hi Hk Hs Hr Hl. unfold coupled_decode. rewrite coupled_bytes_length. cbn [Nat.eqb negb].
  assert (byte_at 56 (coupled_bytes c) = coupled_flags c) as ->.
  { unfold coupled_bytes. apply byte_at_back; [by rewrite length_app, id_bytes_length, kinematics_bytes_length|].
    unfold coupled_flags. by destruct (CoupledEntity.has_dynamics c), (is_some _), (is_some _). }
  unfold coupled_bytes. rewrite <-!app_assoc. slices. rewrite bool_decide_true by done.
  rewrite !read_scalar_back, read_id_back, read_kinematics_back, from_to_le_bytes by done.
  destruct c as [i [s] k d [m|] [n|]], d;
    cbn -[FiniteF64.ZERO same_scalar]; unfold default, id, same_scalar; cbn; done.
Qed.
Lemma coupled_decode_ok c l : coupled_decode l = Ok c →
  (wide_id (CoupledEntity.id c) ∧ canonical_kinematics (CoupledEntity.kinematics c) ∧ canonical_option (CoupledEntity.source_si c)
   ∧ canonical_option (CoupledEntity.response_si c) ∧ (CouplingSlot.raw (CoupledEntity.slot c) < 2 ^ 32)%N) ∧ coupled_bytes c = l.
Proof.
  unfold coupled_decode. destruct (length l =? 80) eqn:Hl; cbn [negb]; [|done]. apply Nat.eqb_eq in Hl.
  destruct (N.land (byte_at 56 l) 248 =? 0)%N eqn:H8; cbn [negb orb]; [|done]. apply N.eqb_eq in H8.
  destruct (bool_decide (slice 57 60 l = zeros 3)) eqn:Hz; cbn [negb]; [|done]. apply bool_decide_eq_true in Hz. intros H.
  apply result_bind_ok in H as (s & [Hs Es]%read_scalar_ok & H). apply result_bind_ok in H as (r & [Hr Er]%read_scalar_ok & H).
  destruct (_ || _) eqn:Hf; [done|]. apply orb_false_iff in Hf as [Hfs Hfr].
  apply result_bind_ok in H as (i & (Hi & Ei & _)%read_id_ok & H). apply result_bind_ok in H as (k & [Hk Ek]%read_kinematics_ok & [= <-]).
  assert (byte_at 56 l < 256)%N as Hb.
  { unfold byte_at. pose proof (from_le_bytes_lt (slice 56 57 l)) as H. unfold lenN in H. by rewrite slice_length in H by lia. }
  pose proof (flags_byte _ Hb H8) as Hflags. unfold coupled_bytes, coupled_flags.
  cbn [CoupledEntity.id CoupledEntity.kinematics CoupledEntity.source_si CoupledEntity.response_si CoupledEntity.slot
    CoupledEntity.has_dynamics CouplingSlot.raw].
  assert (∀ (b : bool) x, canonical_float x = true → negb b && negb (same_scalar x FiniteF64.ZERO) = false →
    default FiniteF64.ZERO (if b then Some x else None) = x) as Hd.
  { intros [] x Hx H; [done|]. symmetry. by apply same_zero. }
  assert (∀ (b : bool) (x : FiniteF64.t), is_some (if b then Some x else None) = b) as His by (by intros []).
  unfold canonical_option. rewrite !Hd, !His by done. fold (flags_of (negb (N.land (byte_at 56 l) 1 =? 0)%N)
    (negb (N.land (byte_at 56 l) 2 =? 0)%N) (negb (N.land (byte_at 56 l) 4 =? 0)%N)). rewrite Hflags.
  split.
  { split_and!; [done|done|done|done|]. pose proof (from_le_bytes_lt (slice 60 64 l)) as H. unfold lenN in H.
    by rewrite slice_length in H by lia. }
  rewrite byte_at_bytes, <-Hz by lia. unfold scalar_bytes.
  rewrite Ei, <-Ek, <-Es, <-Er, (to_from_le_bytes 4), !slice_join by (rewrite ?slice_length; lia). by apply slice_all.
Qed.
#[export] Program Instance coupled_laws : RecordLaws CoupledEntity.t := {
  machine := λ c, wide_id (CoupledEntity.id c) ∧ canonical_kinematics (CoupledEntity.kinematics c) ∧ canonical_option (CoupledEntity.source_si c)
   ∧ canonical_option (CoupledEntity.response_si c) ∧ (CouplingSlot.raw (CoupledEntity.slot c) < 2 ^ 32)%N }.
Next Obligation. intros o out. cbn [encode coupled_record]. by rewrite !coupled_encode_app. Qed.
Next Obligation. intros o. cbn [encode BYTES coupled_record]. rewrite coupled_encode_app. apply coupled_bytes_length. Qed.
Next Obligation.
  intros o (Hi & Hk & Hm & Hr & Hs) Hv. cbn [encode decode validate coupled_record] in *. rewrite coupled_encode_app. by apply coupled_decode_back.
Qed.
Next Obligation. intros o l H. cbn [encode decode coupled_record] in *. rewrite coupled_encode_app. by apply coupled_decode_ok. Qed.
Next Obligation. cbn. lia. Qed.

(** ** Packets *)
Section packets.
Context `{RecordLaws R}.
Implicit Types (records : list R) (limits : BulkLimits.t).

Definition record_bytes (r : R) : bytes := encode r [].
Definition packet_of records : bytes := header R (lenN records) ++ concat (record_bytes <$> records).

Lemma packet_bytes_ok n limits s : packet_bytes R n limits = Ok s ↔
  (n ≤ BulkLimits.records limits ∧ n ≤ u32_max ∧ s = n * N.of_nat (BYTES R) + 12 ∧ s ≤ BulkLimits.bytes limits)%N.
Proof.
  destruct record_width as (_ & Hw & _). unfold packet_bytes, checked_add. change (N.of_nat HEADER_BYTES) with 12%N.
  change usize_max with (2 ^ 64 - 1)%N. unfold u32_max in *.
  destruct (_ || _) eqn:E1.
  { apply orb_true_iff in E1 as [E1%N.ltb_lt|E1%N.ltb_lt]; split; [done|lia|done|lia]. }
  apply orb_false_iff in E1 as [E1%N.ltb_ge E2%N.ltb_ge].
  assert (n * N.of_nat (BYTES R) ≤ 4294967295 * 128)%N as Hle by (apply N.mul_le_mono; lia).
  rewrite (proj2 (N.ltb_ge _ _)) by lia. rewrite (proj2 (N.leb_le _ _)) by lia.
  destruct (_ <=? _)%N eqn:E3; [apply N.leb_le in E3|apply N.leb_gt in E3].
  - split; [intros [= <-]; done|]. by intros (_ & _ & -> & _).
  - split; [done|lia].
Qed.

Lemma check_chunks_ok chunks : ∀ previous, check_chunks R previous chunks = Ok () ↔
  ∃ records, Forall machine records ∧ check_records previous records = Ok () ∧ chunks = record_bytes <$> records.
Proof.
  induction chunks as [|chunk chunks IH]; intros previous; cbn [check_chunks].
  { split; [by exists []|done]. }
  split.
  - intros Hc. apply result_bind_ok in Hc as (r & Hr & Hc). apply result_bind_ok in Hc as ([] & Hv & Hc).
    apply result_bind_ok in Hc as (p & Hp & Hc). apply IH in Hc as (records & Hm & Hc & ->).
    apply decode_ok in Hr as [Hmr Hr]. exists (r :: records). split_and!; [by constructor| |by rewrite <-Hr].
    cbn [check_records]. rewrite Hv. cbn [mbind result_bind]. by rewrite Hp.
  - intros (records & Hm & Hc & Heq). destruct records as [|r records]; [done|]. injection Heq as -> ->.
    inversion Hm as [|? ? Hmr Hm']; subst. cbn [check_records] in Hc.
    apply result_bind_ok in Hc as ([] & Hv & Hc). apply result_bind_ok in Hc as (p & Hp & Hc).
    rewrite (decode_encode r Hmr Hv : decode (record_bytes r) = Ok r). cbn [mbind result_bind]. rewrite Hv. cbn [mbind result_bind].
    rewrite Hp. cbn [mbind result_bind]. apply IH. by exists records.
Qed.
Lemma check_records_valid records : ∀ previous, check_records previous records = Ok () → Forall (λ r, validate r = Ok ()) records.
Proof.
  induction records as [|r records IH]; intros previous; cbn [check_records]; [constructor|]. intros Hc.
  apply result_bind_ok in Hc as ([] & Hv & Hc). apply result_bind_ok in Hc as (p & _ & Hc). constructor; [done|by eapply IH].
Qed.

(** Cutting what was put together from pieces of one width. *)
Lemma piece_at (n : nat) (pieces : list bytes) (i : nat) : Forall (λ p, length p = n) pieces →
  take n (drop (i * n) (concat pieces)) = default [] (pieces !! i).
Proof.
  intros Hn. revert i. induction Hn as [|p pieces Hp Hn IH]; intros i; cbn [concat].
  { by rewrite drop_nil, take_nil. }
  destruct i as [|i]; cbn [Nat.mul lookup list_lookup default id].
  - rewrite drop_0. by apply take_app_length'.
  - rewrite drop_app_ge by lia. replace (n + i * n - length p) with (i * n) by lia. apply IH.
Qed.
Lemma concat_length (n : nat) (pieces : list bytes) : Forall (λ p, length p = n) pieces → length (concat pieces) = length pieces * n.
Proof. induction 1 as [|p pieces Hp _ IH]; [done|]. cbn [concat length Nat.mul]. by rewrite length_app, IH, Hp. Qed.
Lemma chunks_exact_concat (n : nat) (pieces : list bytes) : 0 < n → Forall (λ p, length p = n) pieces → chunks_exact n (concat pieces) = pieces.
Proof.
  intros Hpos Hn. unfold chunks_exact. rewrite (concat_length n) by done. rewrite Nat.div_mul by lia.
  apply list_eq. intros i. rewrite list_lookup_fmap. destruct (pieces !! i) as [p|] eqn:Hi.
  - rewrite lookup_seq_lt by (by eapply lookup_lt_Some). cbn [fmap option_fmap option_map Nat.add].
    by rewrite piece_at, Hi by done.
  - rewrite lookup_seq_ge by (by apply lookup_ge_None). done.
Qed.
Lemma concat_chunks (n k : nat) (l : bytes) : 0 < n → length l = k * n → concat (chunks_exact n l) = l.
Proof.
  intros Hpos. unfold chunks_exact. revert l. induction k as [|k IH]; intros l Hl.
  { destruct l; [|done]. cbn [length]. by rewrite Nat.Div0.div_0_l. }
  rewrite Hl, Nat.div_mul by lia. cbn [seq]. rewrite fmap_cons. cbn [concat Nat.mul]. rewrite drop_0.
  rewrite <-fmap_S_seq, <-list_fmap_compose.
  etrans; [|exact (take_drop n l)]. f_equal. specialize (IH (drop n l)). rewrite length_drop, Hl in IH.
  replace (S k * n - n) with (k * n) in IH by lia. rewrite Nat.div_mul in IH by lia. etrans; [|exact (IH eq_refl)]. f_equal.
  apply list_fmap_ext. intros _ i _. cbn [compose]. f_equal. by rewrite drop_drop.
Qed.
Lemma chunks_width (n k : nat) (l : bytes) : 0 < n → length l = k * n → Forall (λ p, length p = n) (chunks_exact n l).
Proof.
  intros Hpos Hl. unfold chunks_exact. rewrite Hl, Nat.div_mul by lia. apply Forall_fmap, Forall_forall.
  intros i [_ Hi]%elem_of_seq. cbn [compose]. rewrite length_take, length_drop, Hl. nia.
Qed.
Lemma records_width records : Forall (λ p, length p = BYTES R) (record_bytes <$> records).
Proof. apply Forall_fmap, Forall_forall. intros r _. apply encode_length. Qed.

Lemma header_length n : length (header R n) = 12.
Proof. unfold header. rewrite !length_app, !to_le_bytes_length, zeros_length. done. Qed.
Lemma packet_of_length records : lenN (packet_of records) = (lenN records * N.of_nat (BYTES R) + 12)%N.
Proof.
  unfold packet_of. rewrite lenN_app. unfold lenN. rewrite header_length, (concat_length (BYTES R)) by apply records_width.
  rewrite length_fmap. lia.
Qed.
Lemma header_fields n r : (n ≤ u32_max)%N →
  slice 0 4 (header R n ++ r) = MAGIC ∧ from_le_bytes (slice 4 6 (header R n ++ r)) = KIND R
  ∧ slice 6 8 (header R n ++ r) = zeros 2 ∧ from_le_bytes (slice 8 12 (header R n ++ r)) = n ∧ drop 12 (header R n ++ r) = r.
Proof.
  intros Hn. destruct record_width as (_ & _ & Hk). assert (length MAGIC = 4) as Hm by done.
  unfold u32_max in Hn. split_and!; [..|apply drop_app_length'; by rewrite header_length].
  all: unfold header; rewrite <-!app_assoc.
  - rewrite slice_here by lia. by apply slice_all.
  - rewrite slice_skip by lia. rewrite Hm. cbn [Nat.sub]. slices. apply from_to_le_bytes. change (256 ^ N.of_nat 2)%N with 65536%N. lia.
  - rewrite slice_skip by lia. rewrite Hm. cbn [Nat.sub]. slices. done.
  - rewrite slice_skip by lia. rewrite Hm. cbn [Nat.sub]. slices. apply from_to_le_bytes. change (256 ^ N.of_nat 4)%N with (2 ^ 32)%N. lia.
Qed.
Lemma header_of (l : bytes) : 12 ≤ length l → slice 0 4 l = MAGIC → from_le_bytes (slice 4 6 l) = KIND R → slice 6 8 l = zeros 2 →
  l = header R (from_le_bytes (slice 8 12 l)) ++ drop 12 l.
Proof.
  intros Hl E0 E4 E6. unfold header. rewrite <-E0, <-E4, <-E6.
  rewrite (to_from_le_bytes 2), (to_from_le_bytes 4) by (rewrite slice_length; lia).
  rewrite !slice_join by lia. unfold slice. rewrite drop_0, Nat.sub_0_r. symmetry. apply take_drop.
Qed.

(** What may be written within the limits. *)
Definition writes limits records : Prop :=
  packet_bytes R (lenN records) limits = Ok (lenN (packet_of records)) ∧ check_records None records = Ok ().

Lemma read_ok (l : bytes) limits b : Batch.read R l limits = Ok b ↔
  ∃ records, Forall machine records ∧ writes limits records ∧ l = packet_of records ∧ b = Batch.mk l (lenN records).
Proof.
  destruct record_width as (Hpos & _ & _). unfold Batch.read. change HEADER_BYTES with 12. split.
  - destruct (_ <? lenN l)%N eqn:E1; [done|]. destruct (length l <? 12) eqn:E2; [done|]. apply Nat.ltb_ge in E2.
    destruct (bool_decide (slice 0 4 l = MAGIC)) eqn:E3; [|done]. apply bool_decide_eq_true in E3.
    destruct (_ =? _)%N eqn:E4; [|done]. apply N.eqb_eq in E4.
    destruct (bool_decide (slice 6 8 l = zeros 2)) eqn:E5; [|done]. apply bool_decide_eq_true in E5. cbn [negb orb].
    set (n := from_le_bytes (slice 8 12 l)). intros Hr. apply result_bind_ok in Hr as (size & Hsize & Hr).
    destruct (_ =? size)%N eqn:E6; cbn [negb] in Hr; [|done]. apply N.eqb_eq in E6. subst size.
    apply result_bind_ok in Hr as ([] & (records & Hm & Hc & Hchunks)%check_chunks_ok & [= <-]).
    pose proof Hsize as (_ & _ & Hlen & _)%packet_bytes_ok.
    assert (length (drop 12 l) = N.to_nat n * BYTES R) as Hd by (rewrite length_drop; unfold lenN in Hlen; lia).
    assert (l = packet_of records ∧ n = lenN records) as [-> Hn].
    { assert (n = lenN records) as Hn.
      { unfold lenN. rewrite <-(length_fmap record_bytes records), <-Hchunks. unfold chunks_exact.
        rewrite length_fmap, length_seq, Hd, Nat.div_mul by lia. lia. }
      split; [|done]. unfold packet_of. rewrite <-Hn, <-Hchunks, (concat_chunks _ (N.to_nat n)) by done. by apply header_of. }
    exists records. rewrite Hn in *. done.
  - intros (records & Hm & [Hsize Hc] & -> & ->). pose proof Hsize as (_ & Hn & _ & Hle)%packet_bytes_ok.
    rewrite (proj2 (N.ltb_ge _ _)) by done.
    assert (12 ≤ length (packet_of records)) as Hlen by (unfold packet_of; rewrite length_app, header_length; lia).
    rewrite (proj2 (Nat.ltb_ge _ _)) by done.
    destruct (header_fields (lenN records) (concat (record_bytes <$> records)) Hn) as (E0 & E4 & E6 & E8 & Hd).
    fold (packet_of records) in E0, E4, E6, E8, Hd.
    rewrite (bool_decide_true _ E0), E4, (bool_decide_true _ E6), E8, N.eqb_refl. cbn [orb negb].
    rewrite Hsize. cbn [mbind result_bind]. rewrite N.eqb_refl. cbn [negb].
    rewrite Hd, chunks_exact_concat by (done || apply records_width).
    rewrite (proj2 (check_chunks_ok _ None)) by (by exists records). done.
Qed.
Lemma decode_each records : Forall machine records → Forall (λ r, validate r = Ok ()) records →
  mapM (λ chunk, Batch.expect (decode chunk)) (record_bytes <$> records) = Some records.
Proof.
  intros Hm Hv. apply mapM_Some, Forall2_fmap_l, Forall_Forall2_diag, Forall_forall. intros r Hr.
  rewrite Forall_forall in Hm, Hv. unfold compose. by rewrite (decode_encode r (Hm r Hr) (Hv r Hr) : decode (record_bytes r) = Ok r).
Qed.
Lemma iter_packet records n : (lenN records ≤ u32_max)%N → Forall machine records → check_records None records = Ok () →
  Batch.iter (Batch.mk (packet_of records) n) = Some records.
Proof.
  intros Hn Hm Hc. destruct record_width as (Hpos & _ & _). unfold Batch.iter. cbn [Batch.bytes]. change HEADER_BYTES with 12. unfold packet_of.
  destruct (header_fields (lenN records) (concat (record_bytes <$> records)) Hn) as (_ & _ & _ & _ & ->).
  rewrite chunks_exact_concat by (done || apply records_width). apply decode_each; [done|by eapply check_records_valid].
Qed.
Lemma get_packet records i : Forall machine records → check_records None records = Ok () →
  Batch.get (Batch.mk (packet_of records) (lenN records)) i = Some (records !! N.to_nat i).
Proof.
  intros Hm Hc. apply check_records_valid in Hc. unfold Batch.get. cbn [Batch.bytes Batch.records]. change HEADER_BYTES with 12.
  destruct (_ <=? i)%N eqn:E; [apply N.leb_le in E|apply N.leb_gt in E].
  { rewrite lookup_ge_None_2; [done|]. unfold lenN in E. lia. }
  destruct (lookup_lt_is_Some_2 records (N.to_nat i)) as [r Hr]; [unfold lenN in E; lia|].
  unfold slice. replace (12 + N.to_nat i * BYTES R + BYTES R - (12 + N.to_nat i * BYTES R)) with (BYTES R) by lia.
  unfold packet_of. rewrite drop_app_ge by (rewrite header_length; lia). rewrite header_length.
  replace (12 + N.to_nat i * BYTES R - 12) with (N.to_nat i * BYTES R) by lia. rewrite piece_at by apply records_width.
  rewrite list_lookup_fmap, Hr. cbn [fmap option_fmap option_map default id].
  apply list_elem_of_lookup_2 in Hr as Hin. rewrite Forall_forall in Hm, Hc.
  rewrite (decode_encode r (Hm r Hin) (Hc r Hin) : decode (record_bytes r) = Ok r). done.
Qed.
Lemma encode_fold records out : foldl (λ output record, encode record output) out records = out ++ concat (record_bytes <$> records).
Proof.
  revert out. induction records as [|r records IH]; intros out; cbn [foldl]; [by rewrite app_nil_r|].
  rewrite IH, (encode_app r out), fmap_cons. cbn [concat]. by rewrite app_assoc.
Qed.
Lemma encode_batch_ok `{Allocator W} records limits (l : bytes) (w w' : W) :
  encode_batch records limits w = Some (Ok l, w') ↔
  writes limits records ∧ l = packet_of records ∧ try_reserve w = (true, w').
Proof.
  unfold encode_batch, writes, reserve, pure, answer, mbind, io_bind. split.
  - destruct (packet_bytes R _ limits) as [size|] eqn:Hsize; [|done]. destruct (check_records None records) as [[]|] eqn:Hc; [|done].
    destruct (try_reserve w) as [[] w1] eqn:Hr; [|done]. intros [= <- <-].
    pose proof Hsize as (_ & Hn & -> & _)%packet_bytes_ok. rewrite encode_fold, N.mod_small by (unfold u32_max in Hn; lia).
    fold (packet_of records). by rewrite packet_of_length.
  - intros ([Hsize Hc] & -> & Hr). rewrite Hsize, Hc, Hr. pose proof Hsize as (_ & Hn & _ & _)%packet_bytes_ok.
    unfold mret, io_ret. rewrite encode_fold, N.mod_small by (unfold u32_max in Hn; lia). done.
Qed.
End packets.

(** ** The order of the records *)
Definition key_lt `{BulkRecord R} (a b : R) : Prop := ordering_key a ≺ ordering_key b.
Section order.
Context `{BulkRecord R}.
Implicit Types (r : R) (records : list R).

Lemma ordered_ok previous r next : ordered previous r = Ok next ↔
  next = Some r ∧ ∀ p, previous = Some p → key_lt p r ∧ (entity_id p = entity_id r → consistent_entity r p = true).
Proof.
  unfold ordered, key_lt. destruct previous as [p|].
  - destruct (cmp_geb _ _) eqn:E.
    { split; [done|]. intros [_ Hp]. destruct (Hp p eq_refl) as [Hlt _]. unfold cmp_geb, cmp_ltb in E. by rewrite Hlt in E. }
    assert (ordering_key p ≺ ordering_key r) as Hlt.
    { unfold cmp_geb, cmp_ltb in E. by destruct (cmp (ordering_key p) (ordering_key r)). }
    destruct (bool_decide _) eqn:Ei; [apply bool_decide_eq_true in Ei|apply bool_decide_eq_false in Ei]; cbn [andb].
    + destruct (consistent_entity r p) eqn:Ec; cbn [negb].
      * split; [intros [= <-]; split; [done|]; by intros ? [= <-]|by intros [-> _]].
      * split; [done|]. intros [_ Hp]. destruct (Hp p eq_refl) as [_ Hcons]. by rewrite Hcons in Ec.
    + split; [intros [= <-]; split; [done|]; by intros ? [= <-]|by intros [-> _]].
  - split; [intros [= <-]; done|by intros [-> _]].
Qed.
Lemma check_records_ok records : ∀ previous, check_records previous records = Ok () ↔
  match records with
  | [] => True
  | r :: records => validate r = Ok () ∧ (∀ p, previous = Some p → key_lt p r ∧ (entity_id p = entity_id r → consistent_entity r p = true))
      ∧ check_records (Some r) records = Ok ()
  end.
Proof.
  destruct records as [|r records]; intros previous; [done|]. cbn [check_records]. split.
  - intros Hc. apply result_bind_ok in Hc as ([] & Hv & Hc). by apply result_bind_ok in Hc as (p & [-> Hp]%ordered_ok & Hc).
  - intros (Hv & Hp & Hc). rewrite Hv. cbn [mbind result_bind].
    rewrite (proj2 (ordered_ok previous r (Some r))) by done. done.
Qed.
End order.
#[export] Instance key_lt_trans `{BulkRecord R} : Transitive (key_lt (R:=R)).
Proof. intros a b c. unfold key_lt. apply cmp_lt_trans. Qed.
Lemma check_records_sorted `{BulkRecord R} (records : list R) previous : check_records previous records = Ok () →
  StronglySorted key_lt records ∧ ∀ p, previous = Some p → Forall (key_lt p) records.
Proof.
  revert previous. induction records as [|r records IH]; intros previous; [by repeat constructor|].
  intros (_ & Hp & [Hs Hr]%IH)%check_records_ok. specialize (Hr r eq_refl). split; [by constructor|].
  intros p ->. destruct (Hp p eq_refl) as [Hlt _]. constructor; [done|].
  eapply Forall_impl; [exact Hr|]. intros x Hx. cbn beta in *. by etrans.
Qed.
(** Where records of one entity never disagree, order and validity are all. *)
Lemma check_records_intro `{BulkRecord R} (records : list R) previous : (∀ a b : R, consistent_entity a b = true) →
  Forall (λ r, validate r = Ok ()) records → StronglySorted key_lt records → (∀ p, previous = Some p → Forall (key_lt p) records) →
  check_records previous records = Ok ().
Proof.
  intros Hcons Hv Hs. revert previous. induction Hs as [|r records Hs IH Hr]; intros previous Hp; [done|].
  inversion Hv; subst. apply check_records_ok. split_and!; [done| |].
  - intros p Heq. split; [|done]. specialize (Hp p Heq). by inversion Hp.
  - apply IH; [done|]. by intros ? [= <-].
Qed.

(** ** What a batch holds *)
Definition holds `{RecordLaws R} (b : Batch.t R) (records : list R) : Prop :=
  Forall machine records ∧ check_records None records = Ok () ∧ (lenN records ≤ u32_max)%N
  ∧ b = Batch.mk (packet_of records) (lenN records).
Section holds.
Context `{RecordLaws R}.
Implicit Types (b : Batch.t R) (records : list R).

Lemma read_holds (l : bytes) limits b : Batch.read R l limits = Ok b →
  ∃ records, holds b records ∧ l = packet_of records ∧ (lenN records ≤ BulkLimits.records limits)%N.
Proof.
  intros (records & Hm & [(Hr & Hn & _)%packet_bytes_ok Hc] & -> & ->)%read_ok. by exists records.
Qed.
Lemma holds_iter b records : holds b records → Batch.iter b = Some records.
Proof. intros (Hm & Hc & Hn & ->). by apply iter_packet. Qed.
Lemma holds_get b records i : holds b records → Batch.get b i = Some (records !! N.to_nat i).
Proof. intros (Hm & Hc & Hn & ->). by apply get_packet. Qed.
Lemma holds_len b records : holds b records → Batch.len b = lenN records.
Proof. by intros (_ & _ & _ & ->). Qed.
Lemma holds_machine b records r : holds b records → r ∈ records → machine r.
Proof. intros (Hm & _) Hr. rewrite Forall_forall in Hm. by apply Hm. Qed.
Lemma holds_valid b records r : holds b records → r ∈ records → validate r = Ok ().
Proof. intros (_ & Hv%check_records_valid & _) Hr. rewrite Forall_forall in Hv. by apply Hv. Qed.
Lemma holds_sorted b records : holds b records → StronglySorted key_lt records.
Proof. by intros (_ & [Hs _]%check_records_sorted & _). Qed.
End holds.
(** One record for an entity, in ascending order. *)
Class OnePerEntity (R : Type) `{BulkRecord R} : Prop := one_per_entity : ∀ r : R, ordering_key r = (entity_id r, 0%N).
#[export] Instance object_one : OnePerEntity ObjectState.t.
Proof. done. Qed.
#[export] Instance dynamic_one : OnePerEntity DynamicEntity.t.
Proof. done. Qed.
#[export] Instance force_one : OnePerEntity Force.t.
Proof. done. Qed.
Definition id_lt (a b : EntityId.t) : Prop := a ≺ b.
#[export] Instance id_lt_trans : Transitive id_lt.
Proof. intros a b c. unfold id_lt. apply cmp_lt_trans. Qed.
Lemma key_lt_id `{OnePerEntity R} (a b : R) : key_lt a b ↔ id_lt (entity_id a) (entity_id b).
Proof.
  unfold key_lt, id_lt. rewrite !one_per_entity. unfold cmp at 1, prod_ord. cbn [fst snd].
  destruct (cmp (entity_id a) (entity_id b)); cbn; [|done|done]. split; [by vm_compute|done].
Qed.
Lemma StronglySorted_fmap {A B} (f : A → B) (P : relation A) (Q : relation B) l :
  (∀ a b, P a b → Q (f a) (f b)) → StronglySorted P l → StronglySorted Q (f <$> l).
Proof.
  intros Hf. induction 1 as [|a l _ IH Ha]; [constructor|]. rewrite fmap_cons. constructor; [done|].
  apply Forall_fmap. eapply Forall_impl; [exact Ha|]. intros b. apply Hf.
Qed.
Lemma holds_ascending `{RecordLaws R, !OnePerEntity R} (b : Batch.t R) records : holds b records →
  StronglySorted id_lt (entity_id <$> records).
Proof. intros Hs%holds_sorted. eapply StronglySorted_fmap; [|exact Hs]. intros x y. by apply key_lt_id. Qed.
Lemma id_lt_irrefl x : ¬ id_lt x x.
Proof. unfold id_lt. apply cmp_lt_irrefl. Qed.
Lemma id_ascending_NoDup (l : list EntityId.t) : StronglySorted id_lt l → NoDup l.
Proof.
  induction 1 as [|x l _ IH Hx]; constructor; [|done]. intros Hin. rewrite Forall_forall in Hx. by apply (id_lt_irrefl x), Hx.
Qed.
(** Two ascending lists of the same members are one list. *)
Lemma ascending_unique (l k : list EntityId.t) : StronglySorted id_lt l → StronglySorted id_lt k →
  (∀ x, x ∈ l ↔ x ∈ k) → l = k.
Proof.
  intros Hl. revert k. induction Hl as [|x l Hl IH Hx]; intros k Hk Heq.
  { destruct k as [|y k]; [done|]. exfalso. apply (not_elem_of_nil y), Heq. constructor. }
  destruct Hk as [|y k Hk Hy]; [exfalso; apply (not_elem_of_nil x), Heq; constructor|].
  rewrite Forall_forall in Hx, Hy.
  assert (x ∈ y :: k) as Hxk by (apply Heq; constructor). assert (y ∈ x :: l) as Hyl by (apply Heq; constructor).
  assert (x = y) as <-.
  { apply elem_of_cons in Hxk as [|Hxk]; [done|]. apply elem_of_cons in Hyl as [|Hyl]; [done|].
    exfalso. apply (id_lt_irrefl x). etrans; [apply Hx|apply Hy]; done. }
  f_equal. apply IH; [done|]. intros z. split; intros Hz.
  - assert (z ∈ x :: k) as [->|]%elem_of_cons by (apply Heq; by constructor); [|done]. by destruct (id_lt_irrefl x (Hx x Hz)).
  - assert (z ∈ x :: l) as [->|]%elem_of_cons by (apply Heq; by constructor); [|done]. by destruct (id_lt_irrefl x (Hy x Hz)).
Qed.

(** ** A packet has one spelling, and one meaning *)

(** C23: the reader accepts exactly what the writer writes of records a machine
    holds, and gives back those records, all of them and one at a time: nothing
    else is accepted and no record has two spellings. *)
Theorem packet_read_exact `{RecordLaws R} (l : bytes) (limits : BulkLimits.t) (records : list R) :
  (∃ b, Batch.read R l limits = Ok b ∧ Batch.len b = lenN records ∧ Batch.iter b = Some records
        ∧ ∀ i, Batch.get b i = Some (records !! N.to_nat i)) ↔
  Forall machine records ∧
  ∀ W (host : Allocator W) (w w' : W), try_reserve w = (true, w') →
    encode_batch records limits w = Some (Ok l, w').
Proof.
  split.
  - intros (b & (records' & Hm & Hw & -> & ->)%read_ok & _ & Hi & _). pose proof Hw as [(_ & Hn & _)%packet_bytes_ok Hc].
    rewrite iter_packet in Hi by done. injection Hi as ->. split; [done|]. intros W host w w' Hr. by apply encode_batch_ok.
  - intros [Hm He]. specialize (He unit (λ w, (true, w)) () () eq_refl). apply encode_batch_ok in He as (Hw & -> & _).
    pose proof Hw as [(_ & Hn & _)%packet_bytes_ok Hc]. exists (Batch.mk (packet_of records) (lenN records)).
    split_and!; [apply read_ok; by exists records|done|by apply iter_packet|]. intros i. by apply get_packet.
Qed.
Definition example_one : FiniteF64.t := FiniteF64.mk F64.one.
Definition example_kinematics : Kinematics.t := Kinematics.mk (Vec3.mk FiniteF64.ZERO example_one FiniteF64.ZERO) (Vec3.mk example_one FiniteF64.ZERO FiniteF64.ZERO).
Definition example_force : Force.t := Force.mk (EntityId.mk 7) (Vec3.mk example_one FiniteF64.ZERO FiniteF64.ZERO).
Lemma packet_read_exact_witness :
  ∃ b, Batch.read Force.t (packet_of [example_force]) BulkLimits.default = Ok b ∧ Batch.len b = 1%N ∧ Batch.iter b = Some [example_force]
    ∧ ∀ i, Batch.get b i = Some ([example_force] !! N.to_nat i).
Proof.
  apply (packet_read_exact (packet_of [example_force]) BulkLimits.default [example_force]). split.
  - repeat constructor; vm_compute; reflexivity.
  - intros W host w w' Hr. unfold encode_batch, mbind, io_bind, pure, reserve. replace (packet_bytes Force.t (lenN [example_force]) BulkLimits.default) with (Ok (A:=N) (E:=BulkError.t) 44%N) by (vm_compute; reflexivity).
    cbn [answer]. replace (check_records None [example_force]) with (Ok (A:=unit) (E:=BulkError.t) ()) by (vm_compute; reflexivity). cbn [answer]. rewrite Hr. vm_compute. reflexivity.
Defined.
