(* ===== verification/Reduction.v ===== *)
(** * The reduction of forces (crate [orishu-runtime], forces.rs)

    Every selected field computes forces on its own; the owner of the run adds
    them up before a plugin integrates motion. What is added, that exactly what
    was owed is added, and that the order in which fields finish does not show.

    The reducer's scratch vectors are cleared before they are used and are not
    part of the model. *)

From Stdlib Require Import Ascii.
From stdpp Require Import base gmap strings list sorting.
From S2P Require Import Prelude Identity Binary64 Workload Cbor Codec Packet.

(** ** Inputs *)
Module FieldForces.
Record t : Type := mk {
  instance : ComponentInstanceId.t;
  coupling_slots : N;
  coupled : Batch.t CoupledEntity.t;
  forces : Batch.t Force.t
}.
End FieldForces.
Module ReductionLimits.
Record t : Type := mk { fields : N; entities : N; field_records : N }.
Definition default : t := mk 256 1000000 4000000.
End ReductionLimits.
Module ReductionError.
Inductive t : Type := LimitExceeded | FieldCoverage | EntityProjection | CouplingSlot | ResponseCoverage | NonFiniteSum.
#[global] Instance reduction_ReductionError_eq_dec : EqDecision t.
Proof. solve_decision. Defined.
End ReductionError.

(** [windows(2).all(|ids| ids[0] < ids[1])]. *)
Fixpoint ascending `{Ord A} (l : list A) : bool :=
  match l with
  | a :: ((b :: _) as l) => cmp_ltb a b && ascending l
  | _ => true
  end.

(** ** Lookup by bisection *)

(** The outer option is a panic. *)
Fixpoint bisect `{BulkRecord R} (fuel : nat) (entities : Batch.t R) (id : EntityId.t) (low high : N) : option (option (N * R)) :=
  match fuel with
  | O => None
  | S fuel =>
    if (low <? high)%N then
      let mid := (low + (high - low) / 2)%N in
      match Batch.get entities mid with
      | None => None
      | Some None => Some None
      | Some (Some entity) =>
        match cmp (entity_id entity) id with
        | Lt => bisect fuel entities id (mid + 1) high
        | Gt => bisect fuel entities id low mid
        | Eq => Some (Some (mid, entity))
        end
      end
    else Some None
  end.
Definition find_entity (entities : Batch.t DynamicEntity.t) (id : EntityId.t) : option (option (N * DynamicEntity.t)) :=
  bisect (S (N.to_nat (Batch.len entities))) entities id 0 (Batch.len entities).

(** ** Sums *)
Definition add_axis (a b : FiniteF64.t) : result ReductionError.t FiniteF64.t :=
  result_map_err (λ _, ReductionError.NonFiniteSum) (FiniteF64.new (F64.add (FiniteF64.get a) (FiniteF64.get b))).
Definition add_vector (a b : Vec3.t) : result ReductionError.t Vec3.t :=
  x ← add_axis (Vec3.x a) (Vec3.x b);
  y ← add_axis (Vec3.y a) (Vec3.y b);
  z ← add_axis (Vec3.z a) (Vec3.z b);
  Ok (Vec3.mk x y z).
(** [reduced[at].newtons[axis] += …] for every axis. *)
Definition add_force (reduced : list Force.t) (at_ : N) (force : Force.t) : outcome ReductionError.t (list Force.t) :=
  match reduced !! N.to_nat at_ with
  | None => None
  | Some target =>
    newtons ← answer (add_vector (Force.newtons target) (Force.newtons force));
    mret (<[N.to_nat at_ := Force.mk (Force.id target) newtons]> reduced)
  end.

(** ** One field *)
Module Field.
(** The sums so far, the rows of the field not yet taken, who responded last. *)
Record t : Type := mk { reduced : list Force.t; forces : list Force.t; responded : option EntityId.t }.

Definition step (entities : Batch.t DynamicEntity.t) (coupling_slots : N) (s : t) (coupled : CoupledEntity.t)
    : outcome ReductionError.t t :=
  if (coupling_slots <=? CouplingSlot.raw (CoupledEntity.slot coupled))%N then refuse ReductionError.CouplingSlot
  else
    match find_entity entities (CoupledEntity.id coupled) with
    | None => None
    | Some dynamic =>
      if negb (eqb (CoupledEntity.has_dynamics coupled) (is_some dynamic)) then refuse ReductionError.EntityProjection
      else if match dynamic with
              | Some (_, entity) => negb (same_kinematics (DynamicEntity.kinematics entity) (CoupledEntity.kinematics coupled))
              | None => false
              end
      then refuse ReductionError.EntityProjection
      else if CoupledEntity.responds_dynamically coupled && negb (bool_decide (responded s = Some (CoupledEntity.id coupled))) then
        match forces s with
        | [] => refuse ReductionError.ResponseCoverage
        | force :: rest =>
          if negb (bool_decide (Force.id force = CoupledEntity.id coupled)) then refuse ReductionError.ResponseCoverage
          else
            match dynamic with
            | None => refuse ReductionError.EntityProjection
            | Some (at_, _) =>
              reduced ← add_force (reduced s) at_ force;
              mret (mk reduced rest (Some (CoupledEntity.id coupled)))
            end
        end
      else mret s
    end.
Fixpoint steps (entities : Batch.t DynamicEntity.t) (coupling_slots : N) (s : t) (coupled : list CoupledEntity.t)
    : outcome ReductionError.t t :=
  match coupled with
  | [] => mret s
  | c :: coupled => s ← step entities coupling_slots s c; steps entities coupling_slots s coupled
  end.
Definition add (entities : Batch.t DynamicEntity.t) (reduced : list Force.t) (field : FieldForces.t)
    : outcome ReductionError.t (list Force.t) :=
  match Batch.iter (FieldForces.forces field), Batch.iter (FieldForces.coupled field) with
  | Some forces, Some coupled =>
    s ← steps entities (FieldForces.coupling_slots field) (mk reduced forces None) coupled;
    match Field.forces s with
    | [] => mret (Field.reduced s)
    | _ :: _ => refuse ReductionError.ResponseCoverage
    end
  | _, _ => None
  end.
Fixpoint add_all (entities : Batch.t DynamicEntity.t) (reduced : list Force.t) (fields : list FieldForces.t)
    : outcome ReductionError.t (list Force.t) :=
  match fields with
  | [] => mret reduced
  | field :: fields => reduced ← add entities reduced field; add_all entities reduced fields
  end.
End Field.

(** ** The reduction *)
Fixpoint count_records (limit records : N) (fields : list FieldForces.t) : result ReductionError.t unit :=
  match fields with
  | [] => Ok ()
  | field :: fields =>
    match checked_add usize_max records (Batch.len (FieldForces.coupled field)) with
    | None => Err ReductionError.LimitExceeded
    | Some records =>
      match checked_add usize_max records (Batch.len (FieldForces.forces field)) with
      | None => Err ReductionError.LimitExceeded
      | Some records =>
        if (records <=? limit)%N then count_records limit records fields else Err ReductionError.LimitExceeded
      end
    end
  end.
Definition instance_le (a b : FieldForces.t) : Prop := FieldForces.instance a ⪯ FieldForces.instance b.
#[export] Instance instance_le_dec a b : Decision (instance_le a b).
Proof. unfold instance_le. solve_decision. Defined.

Definition reduce `{Allocator W} (entities : Batch.t DynamicEntity.t) (selected_fields : list ComponentInstanceId.t)
    (fields : list FieldForces.t) (limits : ReductionLimits.t) : io W ReductionError.t (list Force.t) :=
  if ((ReductionLimits.fields limits <? lenN selected_fields) || (ReductionLimits.fields limits <? lenN fields)
      || (ReductionLimits.entities limits <? Batch.len entities))%N
  then pure (refuse ReductionError.LimitExceeded)
  else if negb (lenN fields =? lenN selected_fields)%N || negb (ascending selected_fields)
  then pure (refuse ReductionError.FieldCoverage)
  else
    _ ← pure (answer (count_records (ReductionLimits.field_records limits) 0 fields));
    _ ← reserve ReductionError.LimitExceeded;
    let order := merge_sort instance_le fields in
    if negb (bool_decide (FieldForces.instance <$> order = selected_fields)) then pure (refuse ReductionError.FieldCoverage)
    else
      _ ← reserve ReductionError.LimitExceeded;
      pure (match Batch.iter entities with
            | None => None
            | Some entries => Field.add_all entities ((λ e, Force.mk (DynamicEntity.id e) Vec3.ZERO) <$> entries) order
            end).

(** * What is added *)

(** ** Bisection finds what is there *)
Lemma sorted_lookup `{BulkRecord R} (l : list R) i j a b : StronglySorted id_lt (entity_id <$> l) →
  l !! i = Some a → l !! j = Some b → i < j → id_lt (entity_id a) (entity_id b).
Proof.
  intros Hs Ha Hb Hij. revert i j Ha Hb Hij. induction l as [|x l IH]; intros i j Ha Hb Hij; [done|].
  rewrite fmap_cons in Hs. inversion Hs as [|? ? Hs' Hx]; subst. destruct j as [|j]; [lia|]. destruct i as [|i].
  - injection Ha as ->. rewrite Forall_fmap, Forall_forall in Hx. apply (Hx b). by eapply list_elem_of_lookup_2.
  - apply (IH Hs' i j); [done|done|lia].
Qed.
(** What a search may answer. *)
Definition found `{BulkRecord R} (records : list R) (id : EntityId.t) (o : option (N * R)) : Prop :=
  match o with
  | Some (i, r) => records !! N.to_nat i = Some r ∧ entity_id r = id
  | None => id ∉ entity_id <$> records
  end.
Lemma bisect_found `{RecordLaws R, !OnePerEntity R} (b : Batch.t R) (records : list R) id : holds b records →
  ∀ fuel low high, (high ≤ lenN records)%N → N.to_nat (high - low) < fuel →
  (∀ i r, records !! i = Some r → entity_id r = id → N.to_nat low ≤ i < N.to_nat high) →
  ∃ o, bisect fuel b id low high = Some o ∧ found records id o.
Proof.
  intros Hb. pose proof (holds_ascending b records Hb) as Hs.
  induction fuel as [|fuel IH]; intros low high Hhigh Hfuel Hin; [lia|]. cbn [bisect].
  destruct (low <? high)%N eqn:Hlt; [apply N.ltb_lt in Hlt|apply N.ltb_ge in Hlt].
  2: { exists None. split; [done|]. intros (r & Hr & [i Hi]%list_elem_of_lookup_1)%list_elem_of_fmap. specialize (Hin i r Hi (eq_sym Hr)). lia. }
  set (mid := (low + (high - low) / 2)%N).
  assert (low ≤ mid < high)%N as Hmid.
  { unfold mid. pose proof (N.div_lt (high - low) 2 ltac:(lia) ltac:(lia)) as Hdiv. revert Hdiv. generalize ((high - low) `div` 2)%N. lia. }
  rewrite (holds_get b records) by done.
  destruct (lookup_lt_is_Some_2 records (N.to_nat mid)) as [r Hr]; [unfold lenN in Hhigh; lia|]. rewrite Hr.
  destruct (cmp (entity_id r) id) eqn:Hc.
  - apply cmp_eq in Hc. exists (Some (mid, r)). done.
  - apply IH; [done|lia|]. intros i r' Hi Hid. specialize (Hin i r' Hi Hid). split; [|lia].
    destruct (decide (i ≤ N.to_nat mid)) as [Hle|]; [|lia]. exfalso.
    apply (id_lt_irrefl id). rewrite <-Hid at 1. destruct (decide (i = N.to_nat mid)) as [->|Hne].
    + rewrite Hi in Hr. injection Hr as <-. done.
    + etrans; [|exact Hc]. eapply (sorted_lookup records i (N.to_nat mid)); [done|done|done|lia].
  - apply IH; [lia|lia|]. intros i r' Hi Hid. specialize (Hin i r' Hi Hid). split; [lia|].
    destruct (decide (N.to_nat mid ≤ i)) as [Hle|]; [|lia]. exfalso. apply cmp_gt_lt in Hc.
    apply (id_lt_irrefl id). rewrite <-Hid at 2. destruct (decide (i = N.to_nat mid)) as [->|Hne].
    + rewrite Hi in Hr. injection Hr as <-. done.
    + etrans; [exact Hc|]. eapply (sorted_lookup records (N.to_nat mid) i); [done|done|done|lia].
Qed.
Lemma bisect_whole `{RecordLaws R, !OnePerEntity R} (b : Batch.t R) (records : list R) id : holds b records →
  ∃ o, bisect (S (N.to_nat (Batch.len b))) b id 0 (Batch.len b) = Some o ∧ found records id o.
Proof.
  intros Hb. rewrite (holds_len b records) by done. apply (bisect_found b records id Hb); [done|lia|].
  intros i r Hi _. apply lookup_lt_Some in Hi. unfold lenN. lia.
Qed.
Lemma found_unique `{RecordLaws R, !OnePerEntity R} (b : Batch.t R) (records : list R) id o i r : holds b records →
  found records id o → records !! i = Some r → entity_id r = id → o = Some (N.of_nat i, r).
Proof.
  intros Hb Ho Hi Hid. pose proof (id_ascending_NoDup _ (holds_ascending b records Hb)) as Hnd. destruct o as [[j r']|]; cbn in Ho.
  - destruct Ho as [Hj Hid']. assert (i = N.to_nat j) as ->.
    { apply (NoDup_lookup _ i (N.to_nat j) id Hnd); rewrite list_lookup_fmap; [rewrite Hi|rewrite Hj]; cbn; by rewrite ?Hid, ?Hid'. }
    rewrite Hi in Hj. injection Hj as ->. by rewrite N2Nat.id.
  - destruct Ho. rewrite <-Hid. apply list_elem_of_fmap_2. by eapply list_elem_of_lookup_2.
Qed.

(** ** What a field owes *)

(** A batch some packet was read to. *)
Definition whole `{RecordLaws R} (b : Batch.t R) : Prop := ∃ records, holds b records.
Definition rows `{BulkRecord R} (b : Batch.t R) : list R := default [] (Batch.iter b).
Lemma whole_rows `{RecordLaws R} (b : Batch.t R) : whole b → holds b (rows b).
Proof. intros [records Hb]. unfold rows. by rewrite (holds_iter b records Hb). Qed.
Lemma whole_iter `{RecordLaws R} (b : Batch.t R) : whole b → Batch.iter b = Some (rows b).
Proof. intros Hb%whole_rows. by apply holds_iter. Qed.

(** A coupling that agrees with the dynamic entities of the boundary. *)
Definition admissible (es : list DynamicEntity.t) (slots : N) (c : CoupledEntity.t) : Prop :=
  (CouplingSlot.raw (CoupledEntity.slot c) < slots)%N
  ∧ (CoupledEntity.has_dynamics c = true ↔ CoupledEntity.id c ∈ DynamicEntity.id <$> es)
  ∧ ∀ e, e ∈ es → DynamicEntity.id e = CoupledEntity.id c → DynamicEntity.kinematics e = CoupledEntity.kinematics c.
(** A force for every entity that responds, and no other. *)
Definition covered (cs : list CoupledEntity.t) (fs : list Force.t) : Prop :=
  ∀ x, x ∈ Force.id <$> fs ↔ ∃ c, c ∈ cs ∧ CoupledEntity.id c = x ∧ CoupledEntity.responds_dynamically c = true.

Definition force_for (fs : list Force.t) (id : EntityId.t) : option Vec3.t :=
  Force.newtons <$> find (λ f, bool_decide (Force.id f = id)) fs.
Fixpoint sum_vectors (v : Vec3.t) (vs : list Vec3.t) : result ReductionError.t Vec3.t :=
  match vs with [] => Ok v | x :: vs => v ← add_vector v x; sum_vectors v vs end.
(** What the fields, in this order, give one entity. *)
Definition contributions (fields : list FieldForces.t) (id : EntityId.t) : list Vec3.t :=
  omap (λ f, force_for (rows (FieldForces.forces f)) id) fields.

(** ** One coupling *)
Definition owed (responded : option EntityId.t) (c : CoupledEntity.t) : bool :=
  CoupledEntity.responds_dynamically c && negb (bool_decide (responded = Some (CoupledEntity.id c))).
Definition added (fs : list Force.t) (t t' : Force.t) : Prop :=
  Force.id t' = Force.id t ∧
  match force_for fs (Force.id t) with
  | Some v => add_vector (Force.newtons t) v = Ok (Force.newtons t')
  | None => t' = t
  end.

Lemma same_vector_spec a b : canonical_vector a → canonical_vector b → same_vector a b = true ↔ a = b.
Proof.
  intros (?&?&?) (?&?&?). unfold same_vector. rewrite !andb_true_iff, !same_scalar_spec by done.
  destruct a, b; cbn. split; [by intros [[-> ->] ->]|by intros [= -> -> ->]].
Qed.
Lemma same_kinematics_spec a b : canonical_kinematics a → canonical_kinematics b → same_kinematics a b = true ↔ a = b.
Proof.
  intros [] []. unfold same_kinematics. rewrite !andb_true_iff, !same_vector_spec by done.
  destruct a, b; cbn. split; [by intros [-> ->]|by intros [= -> ->]].
Qed.

Section one_field.
Context (entities : Batch.t DynamicEntity.t) (es : list DynamicEntity.t) (Hes : holds entities es) (slots : N).
Implicit Types (c : CoupledEntity.t) (reduced : list Force.t).

Lemma found_at c o : found es (CoupledEntity.id c) o → is_some o = bool_decide (CoupledEntity.id c ∈ DynamicEntity.id <$> es).
Proof.
  destruct o as [[i e]|]; cbn [found is_some].
  - intros [Hi <-]. symmetry. apply bool_decide_eq_true, list_elem_of_fmap_2. by eapply list_elem_of_lookup_2.
  - intros H. symmetry. by apply bool_decide_eq_false.
Qed.
Lemma found_kinematics c o : machine c → found es (CoupledEntity.id c) o →
  match o with Some (_, e) => negb (same_kinematics (DynamicEntity.kinematics e) (CoupledEntity.kinematics c)) | None => false end = false ↔
  ∀ e, e ∈ es → DynamicEntity.id e = CoupledEntity.id c → DynamicEntity.kinematics e = CoupledEntity.kinematics c.
Proof.
  intros (_ & Hk & _) Ho. destruct o as [[i e]|]; cbn [found] in Ho.
  - pose proof Ho as [Hi Hid]. apply list_elem_of_lookup_2 in Hi as Hin.
    destruct (holds_machine _ _ _ Hes Hin) as (_ & Hke & _).
    rewrite negb_false_iff, same_kinematics_spec by done. split; [|by intros H; apply H].
    intros Heq e' [j Hj]%list_elem_of_lookup_1 Hid'. pose proof (found_unique entities es (CoupledEntity.id c) (Some (i, e)) j e' Hes Ho Hj Hid') as [= _ <-]. done.
  - split; [|done]. intros _ e He Hid. destruct Ho. rewrite <-Hid. by apply list_elem_of_fmap_2.
Qed.
Lemma added_one reduced reduced' i t f : reduced !! i = Some t → Force.id t = Force.id f → NoDup (Force.id <$> reduced) →
  Forall2 (added [f]) reduced reduced' ↔
  ∃ v, add_vector (Force.newtons t) (Force.newtons f) = Ok v ∧ reduced' = <[i := Force.mk (Force.id t) v]> reduced.
Proof.
  intros Hi Hid Hnd.
  assert (∀ j u, reduced !! j = Some u → force_for [f] (Force.id u) = if decide (i = j) then Some (Force.newtons f) else None) as Hfor.
  { intros j u Hj. unfold force_for. cbn [find]. destruct (decide (i = j)) as [<-|Hne].
    - rewrite Hi in Hj. injection Hj as <-. by rewrite bool_decide_true.
    - rewrite bool_decide_false; [done|]. intros Heq. apply Hne, (NoDup_lookup _ i j (Force.id f) Hnd);
        rewrite list_lookup_fmap; [rewrite Hi|rewrite Hj]; cbn; congruence. }
  split.
  - intros Hall. pose proof (Forall2_lookup_l _ _ _ _ _ Hall Hi) as (t' & Hi' & Hidt & Ht).
    rewrite (Hfor i t Hi), decide_True in Ht by done. exists (Force.newtons t'). split; [done|].
    apply list_eq. intros j. destruct (decide (i = j)) as [<-|Hne].
    + rewrite list_lookup_insert_eq by (by eapply lookup_lt_Some). rewrite Hi', <-Hidt. by destruct t'.
    + rewrite list_lookup_insert_ne by done. destruct (reduced !! j) as [u|] eqn:Hj.
      * pose proof (Forall2_lookup_l _ _ _ _ _ Hall Hj) as (u' & -> & _ & Hu). rewrite (Hfor j u Hj), decide_False in Hu by done. by rewrite Hu.
      * apply lookup_ge_None. rewrite <-(Forall2_length _ _ _ Hall). by apply lookup_ge_None.
  - intros (v & Hv & ->). apply Forall2_same_length_lookup_2; [by rewrite length_insert|]. intros j u u' Hj Hj'.
    unfold added. rewrite (Hfor j u Hj). destruct (decide (i = j)) as [<-|Hne].
    + rewrite list_lookup_insert_eq in Hj' by (by eapply lookup_lt_Some). injection Hj' as <-. rewrite Hi in Hj. injection Hj as <-. done.
    + rewrite list_lookup_insert_ne in Hj' by done. rewrite Hj in Hj'. injection Hj' as <-. done.
Qed.
Lemma step_ok c s s' : machine c → Force.id <$> Field.reduced s = DynamicEntity.id <$> es →
  Field.step entities slots s c = Some (Ok s') ↔
  admissible es slots c ∧
  if owed (Field.responded s) c then
    ∃ f, Field.forces s = f :: Field.forces s' ∧ Force.id f = CoupledEntity.id c ∧ Field.responded s' = Some (CoupledEntity.id c)
      ∧ Forall2 (added [f]) (Field.reduced s) (Field.reduced s')
  else s' = s.
Proof.
  intros Hm Hids. unfold Field.step, admissible.
  destruct (bisect_whole entities es (CoupledEntity.id c) Hes) as (o & Ho & Hfound).
  destruct (slots <=? _)%N eqn:Hs; [apply N.leb_le in Hs; split; [done|intros [[] _]; lia]|apply N.leb_gt in Hs].
  unfold find_entity. rewrite Ho, (found_at c o Hfound).
  destruct (eqb _ _) eqn:Hd; cbn [negb].
  2: { split; [done|]. intros [(_ & Hiff & _) _]. exfalso. apply eqb_false_iff in Hd. apply Hd.
       case_bool_decide as Hin; [by apply Hiff|].
       destruct (CoupledEntity.has_dynamics c); [|done]. by destruct Hin; apply Hiff. }
  apply eqb_prop in Hd. pose proof (found_kinematics c o Hm Hfound) as Hkin.
  destruct (match o with Some _ => _ | None => _ end) eqn:Hk.
  { split; [done|]. intros [(_ & _ & Hall) _]. by apply Hkin in Hall. }
  assert (admissible es slots c) as Hadm.
  { split_and!; [done| |by apply Hkin]. rewrite Hd. apply bool_decide_eq_true. }
  fold (owed (Field.responded s) c). destruct (owed (Field.responded s) c) eqn:How.
  2: { split; [by intros [= <-]|by intros [_ ->]]. }
  assert (∃ i e, o = Some (i, e)) as (i & e & ->).
  { apply andb_true_iff in How as [[Hh _]%andb_true_iff _]. rewrite Hh in Hd. rewrite <-(found_at c o Hfound) in Hd. destruct o as [[i e]|]; [eauto|done]. }
  destruct Hfound as [Hi Hid]. pose proof (id_ascending_NoDup _ (holds_ascending entities es Hes)) as Hnd.
  assert (∃ t, Field.reduced s !! N.to_nat i = Some t ∧ Force.id t = CoupledEntity.id c) as (t & Ht & Hidt).
  { assert ((Force.id <$> Field.reduced s) !! N.to_nat i = Some (DynamicEntity.id e)) as H by (by rewrite Hids, list_lookup_fmap, Hi).
    rewrite list_lookup_fmap in H. destruct (Field.reduced s !! N.to_nat i) as [t|]; [|done]. injection H as H. exists t. split; [done|]. by rewrite H. }
  destruct (Field.forces s) as [|f fs]; [split; [done|by intros (_ & f & ? & _)]|].
  destruct (bool_decide (Force.id f = CoupledEntity.id c)) eqn:Hf; cbn [negb].
  2: { apply bool_decide_eq_false in Hf. split; [done|]. intros (_ & f' & [= <- _] & Hf' & _). done. }
  apply bool_decide_eq_true in Hf. unfold add_force. rewrite Ht.
  assert (∀ r', Forall2 (added [f]) (Field.reduced s) r' ↔ ∃ v, add_vector (Force.newtons t) (Force.newtons f) = Ok v
    ∧ r' = <[N.to_nat i := Force.mk (Force.id t) v]> (Field.reduced s)) as Hone.
  { intros r'. apply added_one; [done|congruence|]. rewrite Hids. exact Hnd. }
  destruct (add_vector _ _) as [v|]; cbn.
  - split.
    + intros [= <-]. split; [done|]. exists f. split_and!; [done..|]. apply Hone. by exists v.
    + intros (_ & f' & [= <- ->] & _ & Hr & (v' & [= <-] & Hred)%Hone). destruct s' as [r' ? ?]. cbn in *. by subst.
  - split; [done|]. by intros (_ & f' & [= <- _] & _ & _ & (v' & ? & _)%Hone).
Qed.

(** ** All couplings of a field *)
(** The entities a force is owed for, in order. *)
Fixpoint responders (responded : option EntityId.t) (cs : list CoupledEntity.t) : list EntityId.t :=
  match cs with
  | [] => []
  | c :: cs =>
    if owed responded c then CoupledEntity.id c :: responders (Some (CoupledEntity.id c)) cs else responders responded cs
  end.
Lemma force_for_app f fs id : force_for (f :: fs) id = match force_for [f] id with Some v => Some v | None => force_for fs id end.
Proof. unfold force_for. cbn [find]. by destruct (bool_decide _). Qed.
Lemma force_for_None fs id : id ∉ Force.id <$> fs → force_for fs id = None.
Proof.
  unfold force_for. induction fs as [|f fs IH]; [done|]. rewrite fmap_cons, not_elem_of_cons. intros [Hne Hin]. cbn [find].
  rewrite bool_decide_false by done. by apply IH.
Qed.
Lemma added_cons f fs r r' : Force.id f ∉ Force.id <$> fs →
  Forall2 (added (f :: fs)) r r' ↔ ∃ r1, Forall2 (added [f]) r r1 ∧ Forall2 (added fs) r1 r'.
Proof.
  intros Hf.
  assert (∀ t t', added (f :: fs) t t' ↔ ∃ t1, added [f] t t1 ∧ added fs t1 t') as Hone.
  { intros t t'. unfold added. rewrite force_for_app. split.
    - intros [Hid Ht]. destruct (force_for [f] (Force.id t)) as [v|] eqn:Hv.
      + assert (force_for fs (Force.id t) = None) as Hn.
        { apply force_for_None. unfold force_for in Hv. cbn in Hv. destruct (bool_decide (Force.id f = Force.id t)) eqn:E; [|done].
          apply bool_decide_eq_true in E. by rewrite <-E. }
        exists t'. rewrite Hid, Hn. done.
      + exists t. done.
    - intros (t1 & [Hid1 Ht1] & Hid & Ht). rewrite Hid1 in *. split; [done|].
      destruct (force_for [f] (Force.id t)) as [v|] eqn:Hv.
      + assert (force_for fs (Force.id t) = None) as Hn.
        { apply force_for_None. unfold force_for in Hv. cbn in Hv. destruct (bool_decide (Force.id f = Force.id t)) eqn:E; [|done].
          apply bool_decide_eq_true in E. by rewrite <-E. }
        rewrite Hn in Ht. by rewrite Ht.
      + subst t1. done. }
  split.
  - induction 1 as [|t t' r r' Ht _ (r1 & H1 & H2)]; [by exists []|]. apply Hone in Ht as (t1 & Ht1 & Ht2).
    exists (t1 :: r1). split; by constructor.
  - intros (r1 & H1 & H2). revert r' H2. induction H1 as [|t t1 r r1 Ht _ IH]; intros r' H2; inversion H2; subst; constructor; [|by apply IH].
    apply Hone. by exists t1.
Qed.
Lemma added_nil r r' : Forall2 (added []) r r' ↔ r = r'.
Proof.
  split; [|intros <-; apply Forall_Forall2_diag, Forall_forall; done].
  induction 1 as [|t t' r r' [_ Ht] _ IH]; [done|]. by rewrite Ht, IH.
Qed.
Lemma added_ids fs r r' : Forall2 (added fs) r r' → Force.id <$> r' = Force.id <$> r.
Proof. induction 1 as [|t t' r r' [Hid _] _ IH]; [done|]. by rewrite !fmap_cons, Hid, IH. Qed.

Lemma steps_ok cs : ∀ s s', Forall machine cs → Force.id <$> Field.reduced s = DynamicEntity.id <$> es →
  NoDup (responders (Field.responded s) cs) →
  Field.steps entities slots s cs = Some (Ok s') →
  Forall (admissible es slots) cs ∧ ∃ fs, Field.forces s = fs ++ Field.forces s'
    ∧ Force.id <$> fs = responders (Field.responded s) cs ∧ Forall2 (added fs) (Field.reduced s) (Field.reduced s').
Proof.
  induction cs as [|c cs IH]; intros s s' Hm Hids Hnd; cbn [Field.steps].
  { intros [= <-]. split; [constructor|]. exists []. split_and!; [done|done|by apply added_nil]. }
  inversion Hm as [|? ? Hmc Hm']; subst. intros (s1 & [Hadm Hs1]%step_ok & Hrun)%outcome_bind_ok; [|done|done].
  cbn [responders] in *. destruct (owed (Field.responded s) c).
  - destruct Hs1 as (f & Hf & Hfid & Hresp & Hadd). inversion Hnd as [|? ? Hnotin Hnd']; subst. rewrite <-Hresp in *.
    apply IH in Hrun as (Hadms & fs & Hfs & Hfids & Hadds); [|done|by rewrite (added_ids _ _ _ Hadd)|done].
    split; [by constructor|]. exists (f :: fs). split_and!; [by rewrite Hf, Hfs|by rewrite fmap_cons, Hfid, Hfids|].
    apply added_cons; [by rewrite Hfids, Hfid|]. by exists (Field.reduced s1).
  - subst s1. apply IH in Hrun as (Hadms & fs & Hfs & Hfids & Hadds); [|done|done|done].
    split; [by constructor|]. by exists fs.
Qed.
Lemma steps_complete cs : ∀ s fs rest r', Forall machine cs → Force.id <$> Field.reduced s = DynamicEntity.id <$> es →
  NoDup (responders (Field.responded s) cs) → Forall (admissible es slots) cs → Field.forces s = fs ++ rest →
  Force.id <$> fs = responders (Field.responded s) cs → Forall2 (added fs) (Field.reduced s) r' →
  ∃ s', Field.steps entities slots s cs = Some (Ok s') ∧ Field.forces s' = rest ∧ Field.reduced s' = r'.
Proof.
  induction cs as [|c cs IH]; intros s fs rest r' Hm Hids Hnd Hadm Hfs Hfids Hadd; cbn [Field.steps responders] in *.
  { destruct fs; [|done]. apply added_nil in Hadd. by exists s. }
  inversion Hm as [|? ? Hmc Hm']; subst. inversion Hadm as [|? ? Hac Hadm']; subst.
  destruct (owed (Field.responded s) c) eqn:How.
  - destruct fs as [|f fs]; [done|]. rewrite fmap_cons in Hfids. apply (inj2 cons) in Hfids as [Hfid Hfids]. inversion Hnd as [|? ? Hnotin Hnd']; subst.
    apply added_cons in Hadd as (r1 & H1 & H2); [|by rewrite Hfids, Hfid].
    assert (Field.step entities slots s c = Some (Ok (Field.mk r1 (fs ++ rest) (Some (CoupledEntity.id c))))) as Hstep.
    { apply step_ok; [done|done|]. rewrite How. split; [done|]. exists f. done. }
    rewrite Hstep. apply (IH _ fs); cbn [Field.reduced Field.forces Field.responded]; [done|by rewrite (added_ids _ _ _ H1)|done..].
  - assert (Field.step entities slots s c = Some (Ok s)) as Hstep by (apply step_ok; [done|done|by rewrite How]).
    rewrite Hstep. by apply (IH _ fs).
Qed.
Lemma responders_spec cs : ∀ responded, StronglySorted (λ a b, CoupledEntity.id a ⪯ CoupledEntity.id b) cs →
  (∀ x, responded = Some x → Forall (λ c, x ⪯ CoupledEntity.id c) cs) →
  StronglySorted id_lt (responders responded cs) ∧
  ∀ y, y ∈ responders responded cs ↔
    responded ≠ Some y ∧ ∃ c, c ∈ cs ∧ CoupledEntity.id c = y ∧ CoupledEntity.responds_dynamically c = true.
Proof.
  induction cs as [|c cs IH]; intros responded Hs Hr; cbn [responders].
  { split; [constructor|]. intros y. rewrite elem_of_nil. split; [done|]. intros (_ & c & Hc & _). by apply elem_of_nil in Hc. }
  inversion Hs as [|? ? Hs' Hc]; subst. unfold owed.
  destruct (CoupledEntity.responds_dynamically c) eqn:Hd; cbn [andb]; [destruct (bool_decide (responded = Some (CoupledEntity.id c))) eqn:Hb|]; cbn [negb].
  - apply bool_decide_eq_true in Hb. destruct (IH responded Hs') as [IHs IHm].
    { intros x Hx. specialize (Hr x Hx). by inversion Hr. }
    split; [done|]. intros y. rewrite IHm. split; intros (Hne & c' & Hc' & Hid & Hresp); split; [done| |done|].
    + exists c'. split; [by constructor|done].
    + apply elem_of_cons in Hc' as [->|Hc']; [congruence|by exists c'].
  - apply bool_decide_eq_false in Hb. destruct (IH (Some (CoupledEntity.id c)) Hs') as [IHs IHm]; [by intros ? [= <-]|].
    rewrite Forall_forall in Hc. split.
    + constructor; [done|]. apply Forall_forall. intros y (Hne & c' & Hc' & <- & _)%IHm.
      specialize (Hc c' Hc'). apply cmp_le_lt_or_eq in Hc as [?|Heq]; [done|]. congruence.
    + intros y. rewrite elem_of_cons, IHm. split.
      * intros [->|(Hne & c' & Hc' & <- & Hresp)]; [split; [done|]; exists c; split_and!; [constructor|done|done]|].
        split; [|exists c'; split_and!; [by constructor|done|done]]. intros Heq. specialize (Hr _ Heq). rewrite Forall_forall in Hr.
        pose proof (Hr c ltac:(constructor)) as H1. pose proof (Hc c' Hc') as H2. apply Hne. f_equal. by apply cmp_le_antisym.
      * intros (Hne & c' & [->|Hc']%elem_of_cons & <- & Hresp); [by left|].
        destruct (decide (CoupledEntity.id c' = CoupledEntity.id c)) as [->|Hne']; [by left|right]. split; [congruence|]. by exists c'.
  - destruct (IH responded Hs') as [IHs IHm].
    { intros x Hx. specialize (Hr x Hx). by inversion Hr. }
    split; [done|]. intros y. rewrite IHm. split; intros (Hne & c' & Hc' & Hid & Hresp); split; [done| |done|].
    + exists c'. split; [by constructor|done].
    + apply elem_of_cons in Hc' as [->|Hc']; [congruence|by exists c'].
Qed.
Lemma coupled_ascending (b : Batch.t CoupledEntity.t) cs : holds b cs →
  StronglySorted (λ a b, CoupledEntity.id a ⪯ CoupledEntity.id b) cs.
Proof.
  intros Hs%holds_sorted. rewrite <-(list_fmap_id cs). eapply StronglySorted_fmap; [|exact Hs]. intros x y. unfold key_lt. cbn [id ordering_key coupled_record].
  unfold cmp at 1, prod_ord. cbn [fst snd]. by destruct (cmp (CoupledEntity.id x) (CoupledEntity.id y)).
Qed.
Lemma batch_responders (b : Batch.t CoupledEntity.t) cs : holds b cs →
  StronglySorted id_lt (responders None cs) ∧
  ∀ y, y ∈ responders None cs ↔ ∃ c, c ∈ cs ∧ CoupledEntity.id c = y ∧ CoupledEntity.responds_dynamically c = true.
Proof.
  intros Hb. destruct (responders_spec cs None (coupled_ascending b cs Hb) ltac:(done)) as [Hs Hm]. split; [done|].
  intros y. rewrite Hm. naive_solver.
Qed.
(** Ascending rows cover what is owed when they are the responders in order. *)
Lemma covered_responders (b : Batch.t CoupledEntity.t) cs (f : Batch.t Force.t) fs : holds b cs → holds f fs →
  covered cs fs ↔ Force.id <$> fs = responders None cs.
Proof.
  intros Hb Hf. destruct (batch_responders b cs Hb) as [Hs Hm]. unfold covered. split.
  - intros Hcov. apply ascending_unique; [exact (holds_ascending f fs Hf)|done|]. intros y. by rewrite Hcov, Hm.
  - intros -> y. apply Hm.
Qed.

(** ** A field *)
Lemma add_ok (field : FieldForces.t) reduced reduced' : whole (FieldForces.coupled field) → whole (FieldForces.forces field) →
  FieldForces.coupling_slots field = slots → Force.id <$> reduced = DynamicEntity.id <$> es →
  Field.add entities reduced field = Some (Ok reduced') ↔
  Forall (admissible es slots) (rows (FieldForces.coupled field))
  ∧ covered (rows (FieldForces.coupled field)) (rows (FieldForces.forces field))
  ∧ Forall2 (added (rows (FieldForces.forces field))) reduced reduced'.
Proof.
  intros Hc Hf Hslots Hids. unfold Field.add. rewrite Hslots, (whole_iter _ Hc), (whole_iter _ Hf).
  apply whole_rows in Hc, Hf. rewrite (covered_responders _ _ _ _ Hc Hf).
  assert (Forall machine (rows (FieldForces.coupled field))) as Hm by (by apply Forall_forall; intros c; eapply holds_machine).
  destruct (batch_responders _ _ Hc) as [Hs%id_ascending_NoDup _]. split.
  - intros ([r rest resp] & (Hadm & fs & Hfs & Hfids & Hadd)%steps_ok & Hend)%outcome_bind_ok; [|done..].
    cbn [Field.reduced Field.forces] in *. destruct rest; [|done]. injection Hend as <-. rewrite app_nil_r in Hfs. subst fs. done.
  - intros (Hadm & Hcov & Hadd).
    destruct (steps_complete (rows (FieldForces.coupled field)) (Field.mk reduced (rows (FieldForces.forces field)) None)
      (rows (FieldForces.forces field)) [] reduced') as (s' & -> & Hrest & <-); try done; [by rewrite app_nil_r|].
    cbn [mbind outcome_bind]. by rewrite Hrest.
Qed.
End one_field.

(** ** All fields *)
Definition field_read (f : FieldForces.t) : Prop := whole (FieldForces.coupled f) ∧ whole (FieldForces.forces f).
(** A field agrees with the boundary and gives exactly the forces it owes. *)
Definition answers (es : list DynamicEntity.t) (f : FieldForces.t) : Prop :=
  Forall (admissible es (FieldForces.coupling_slots f)) (rows (FieldForces.coupled f))
  ∧ covered (rows (FieldForces.coupled f)) (rows (FieldForces.forces f)).
Definition summed (fields : list FieldForces.t) (t t' : Force.t) : Prop :=
  Force.id t' = Force.id t ∧ sum_vectors (Force.newtons t) (contributions fields (Force.id t)) = Ok (Force.newtons t').

Lemma contributions_cons f fields id : contributions (f :: fields) id =
  match force_for (rows (FieldForces.forces f)) id with Some v => [v] | None => [] end ++ contributions fields id.
Proof. unfold contributions. cbn [omap list_omap]. by destruct (force_for _ _). Qed.
Lemma summed_cons f fields r r' : Forall2 (summed (f :: fields)) r r' ↔
  ∃ r1, Forall2 (added (rows (FieldForces.forces f))) r r1 ∧ Forall2 (summed fields) r1 r'.
Proof.
  assert (∀ t t', summed (f :: fields) t t' ↔ ∃ t1, added (rows (FieldForces.forces f)) t t1 ∧ summed fields t1 t') as Hone.
  { intros t t'. unfold summed, added. rewrite contributions_cons. destruct (force_for _ (Force.id t)) as [v|]; cbn [app sum_vectors].
    - split.
      + intros [Hid (v1 & Hv1 & Hs)%result_bind_ok]. exists (Force.mk (Force.id t) v1). cbn. done.
      + intros (t1 & [Hid1 H1] & Hid & Hs). rewrite Hid1 in *. split; [done|]. rewrite H1. done.
    - split; [intros [Hid Hs]; by exists t|]. by intros (t1 & [_ ->] & H1). }
  split.
  - induction 1 as [|t t' r r' Ht _ (r1 & H1 & H2)]; [by exists []|]. apply Hone in Ht as (t1 & Ht1 & Ht2).
    exists (t1 :: r1). split; by constructor.
  - intros (r1 & H1 & H2). revert r' H2. induction H1 as [|t t1 r r1 Ht _ IH]; intros r' H2; inversion H2; subst; constructor; [|by apply IH].
    apply Hone. by exists t1.
Qed.
Lemma summed_nil r r' : Forall2 (summed []) r r' ↔ r = r'.
Proof.
  split; [|intros <-; apply Forall_Forall2_diag, Forall_forall; done].
  induction 1 as [|[i v] [i' v'] r r' [Hid [= Hv]] _ IH]; [done|]. cbn in *. by subst.
Qed.
Lemma add_all_ok entities es fields : holds entities es → Forall field_read fields → ∀ reduced reduced',
  Force.id <$> reduced = DynamicEntity.id <$> es →
  Field.add_all entities reduced fields = Some (Ok reduced') ↔
  Forall (answers es) fields ∧ Forall2 (summed fields) reduced reduced'.
Proof.
  intros Hes. induction 1 as [|f fields [Hc Hf] _ IH]; intros reduced reduced' Hids; cbn [Field.add_all].
  { rewrite summed_nil. split; [by intros [= <-]|by intros [_ <-]]. }
  rewrite outcome_bind_ok, Forall_cons, summed_cons. split.
  - intros (r1 & (Hadm & Hcov & Hadd)%(add_ok entities es Hes (FieldForces.coupling_slots f)) & Hrun); [|done..].
    apply IH in Hrun as [Hall Hsum]; [|by rewrite (added_ids _ _ _ Hadd)]. split; [done|]. by exists r1.
  - intros ([[Hadm Hcov] Hall] & r1 & Hadd & Hsum). exists r1.
    split; [by apply (add_ok entities es Hes (FieldForces.coupling_slots f))|]. apply IH; [by rewrite (added_ids _ _ _ Hadd)|done].
Qed.

(** ** The order of the fields *)
Definition instance_lt (a b : ComponentInstanceId.t) : Prop := a ≺ b.
Lemma ascending_spec (l : list ComponentInstanceId.t) : ascending l = true ↔ StronglySorted instance_lt l.
Proof.
  split.
  - intros H. apply Sorted_StronglySorted; [intros a b c; unfold instance_lt; apply cmp_lt_trans|].
    induction l as [|a l IH]; [constructor|]. destruct l as [|b l]; [by repeat constructor|].
    cbn [ascending] in H. apply andb_true_iff in H as [Hab Hl]. constructor; [by apply IH|]. constructor.
    unfold cmp_ltb, instance_lt in *. by destruct (cmp a b).
  - induction 1 as [|a l Hs IH Ha]; [done|]. destruct l as [|b l]; [done|]. cbn [ascending]. apply andb_true_iff. split; [|done].
    inversion Ha as [|? ? Hab _]; subst. unfold cmp_ltb. by rewrite Hab.
Qed.
#[export] Instance instance_le_total : Total instance_le.
Proof. intros a b. apply cmp_le_total. Qed.
#[export] Instance instance_le_trans : Transitive instance_le.
Proof. intros a b c. apply cmp_le_trans. Qed.
Lemma sorted_instances (order fields : list FieldForces.t) : order ≡ₚ fields →
  StronglySorted instance_lt (FieldForces.instance <$> order) → merge_sort instance_le fields = order.
Proof.
  intros Hp Hs.
  assert (NoDup (FieldForces.instance <$> order)) as Hnd.
  { clear Hp. induction Hs as [|a l _ IH Ha]; constructor; [|done]. intros Hin. rewrite Forall_forall in Ha.
    by apply (cmp_lt_irrefl a), Ha. }
  apply (StronglySorted_unique_strong instance_le).
  - intros x y Hx Hy Hxy Hyx. assert (FieldForces.instance x = FieldForces.instance y) as Heq by (by apply cmp_le_antisym).
    rewrite merge_sort_Permutation, <-Hp in Hx. apply list_elem_of_lookup_1 in Hx as [i Hi], Hy as [j Hj].
    assert (i = j) as ->.
    { apply (NoDup_lookup _ i j (FieldForces.instance x) Hnd); rewrite list_lookup_fmap; [by rewrite Hi|rewrite Hj; cbn; by rewrite Heq]. }
    congruence.
  - apply Sorted_StronglySorted; [apply _|]. apply Sorted_merge_sort, _.
  - clear Hp Hnd. induction order as [|f order IH]; [constructor|]. rewrite fmap_cons in Hs. inversion Hs as [|? ? Hs' Hf]; subst.
    constructor; [by apply IH|]. rewrite Forall_fmap in Hf. eapply Forall_impl; [exact Hf|]. intros g Hg.
    unfold instance_le. apply cmp_le_lt_or_eq. by left.
  - by rewrite merge_sort_Permutation.
Qed.

(** ** How much is read *)
Definition field_records (f : FieldForces.t) : N := (Batch.len (FieldForces.coupled f) + Batch.len (FieldForces.forces f))%N.
Definition records_of (fields : list FieldForces.t) : N := foldr (λ f n, (field_records f + n)%N) 0%N fields.
Lemma records_of_perm fields fields' : fields ≡ₚ fields' → records_of fields = records_of fields'.
Proof. unfold records_of. induction 1; cbn; [done|congruence|lia|congruence]. Qed.
Lemma count_records_ok limit fields : ∀ n, count_records limit n fields =
  if bool_decide (fields = [] ∨ (n + records_of fields ≤ limit ∧ n + records_of fields ≤ usize_max)%N) then Ok () else Err ReductionError.LimitExceeded.
Proof.
  induction fields as [|f fields IH]; intros n; cbn [count_records]; [by rewrite bool_decide_true by (by left)|].
  cbn [records_of foldr]. fold (records_of fields). unfold checked_add, field_records.
  set (c := Batch.len (FieldForces.coupled f)). set (k := Batch.len (FieldForces.forces f)).
  destruct (n + c <=? usize_max)%N eqn:E1; [apply N.leb_le in E1|apply N.leb_gt in E1].
  2: { rewrite bool_decide_false; [done|]. intros [?|[? ?]]; [done|lia]. }
  destruct (n + c + k <=? usize_max)%N eqn:E2; [apply N.leb_le in E2|apply N.leb_gt in E2].
  2: { rewrite bool_decide_false; [done|]. intros [?|[? ?]]; [done|lia]. }
  destruct (n + c + k <=? limit)%N eqn:E3; [apply N.leb_le in E3|apply N.leb_gt in E3].
  2: { rewrite bool_decide_false; [done|]. intros [?|[? ?]]; [done|lia]. }
  rewrite IH. replace (n + (c + k + records_of fields))%N with (n + c + k + records_of fields)%N by lia.
  case_bool_decide as H1; case_bool_decide as H2; [done| | |done]; exfalso.
  - apply H2. right. destruct H1 as [->|?]; [cbn; lia|done].
  - apply H1. right. destruct H2 as [?|?]; [done|done].
Qed.

(** * The reduction *)

(** C22: the order in which the fields finish does not show: with the results in
    any other order a reduction gives the same forces, bit for bit, or refuses for
    the same reason. *)
Theorem reduction_order_free `{Allocator W} (entities : Batch.t DynamicEntity.t) (selected : list ComponentInstanceId.t)
    (fields fields' : list FieldForces.t) (limits : ReductionLimits.t) (w : W) :
  fields ≡ₚ fields' → reduce entities selected fields limits w = reduce entities selected fields' limits w.
Proof.
  intros Hp. unfold reduce. assert (lenN fields = lenN fields') as -> by (unfold lenN; by rewrite Hp).
  destruct (_ || _); [done|]. destruct (ascending selected) eqn:Ha; [|by rewrite orb_true_r]. apply ascending_spec in Ha.
  destruct (_ =? _)%N; [|done]. cbn [negb orb].
  assert (count_records (ReductionLimits.field_records limits) 0 fields = count_records (ReductionLimits.field_records limits) 0 fields') as ->.
  { rewrite !count_records_ok, (records_of_perm _ _ Hp). erewrite bool_decide_ext; [done|].
    assert (fields = [] ↔ fields' = []) as ->; [|done]. split; intros ->; apply Permutation_nil_r; [by symmetry|done]. }
  assert (merge_sort instance_le fields = merge_sort instance_le fields'
    ∨ (FieldForces.instance <$> merge_sort instance_le fields ≠ selected ∧ FieldForces.instance <$> merge_sort instance_le fields' ≠ selected)) as [->|[H1 H2]].
  { destruct (decide (FieldForces.instance <$> merge_sort instance_le fields = selected)) as [<-|H1].
    - left. symmetry. apply sorted_instances; [|done]. by rewrite merge_sort_Permutation.
    - destruct (decide (FieldForces.instance <$> merge_sort instance_le fields' = selected)) as [<-|H2]; [|by right].
      left. apply sorted_instances; [|done]. by rewrite merge_sort_Permutation. }
  - done.
  - by rewrite (bool_decide_false _ H1), (bool_decide_false _ H2).
Qed.

(** C21: a reduction succeeds exactly when the results fit the limits, are one of
    every selected field, agree with the committed entities and give a force for
    exactly what responds; and then every dynamic entity has one net force, the
    sum of what the fields give it, added from zero in the order of their
    identities. *)
Theorem reduction_exact `{Allocator W} (entities : Batch.t DynamicEntity.t) (selected : list ComponentInstanceId.t)
    (fields : list FieldForces.t) (limits : ReductionLimits.t) (w w' : W) (reduced : list Force.t) :
  whole entities → Forall field_read fields →
  reduce entities selected fields limits w = Some (Ok reduced, w') ↔
  (lenN selected ≤ ReductionLimits.fields limits ∧ Batch.len entities ≤ ReductionLimits.entities limits
   ∧ records_of fields ≤ ReductionLimits.field_records limits ∧ records_of fields ≤ usize_max)%N
  ∧ (∃ w1, try_reserve w = (true, w1) ∧ try_reserve w1 = (true, w'))
  ∧ Forall (answers (rows entities)) fields
  ∧ ∃ order, order ≡ₚ fields ∧ FieldForces.instance <$> order = selected ∧ StronglySorted instance_lt selected
    ∧ Forall2 (λ e f, Force.id f = DynamicEntity.id e
        ∧ sum_vectors Vec3.ZERO (contributions order (DynamicEntity.id e)) = Ok (Force.newtons f)) (rows entities) reduced.
Proof.
  intros Hes%whole_rows Hread. unfold reduce.
  rewrite (holds_len entities _ Hes). set (es := rows entities) in *.
  set (init := (λ e, Force.mk (DynamicEntity.id e) Vec3.ZERO) <$> es).
  assert (Force.id <$> init = DynamicEntity.id <$> es) as Hids by (unfold init; by rewrite <-list_fmap_compose).
  assert (∀ order, Forall2 (summed order) init reduced ↔ Forall2 (λ e f, Force.id f = DynamicEntity.id e
    ∧ sum_vectors Vec3.ZERO (contributions order (DynamicEntity.id e)) = Ok (Force.newtons f)) es reduced) as Hsum.
  { intros order. unfold init. by rewrite Forall2_fmap_l. }
  assert (∀ order, order ≡ₚ fields → Field.add_all entities init order = Some (Ok reduced) ↔
    Forall (answers es) fields ∧ Forall2 (summed order) init reduced) as Hadd.
  { intros order Hp. rewrite (add_all_ok entities es order Hes) by (done || by rewrite Hp).
    assert (Forall (answers es) order ↔ Forall (answers es) fields) as -> by (by rewrite Hp). done. }
  rewrite count_records_ok, N.add_0_l, (holds_iter entities _ Hes). fold init.
  unfold reserve, pure, answer, mbind, io_bind, refuse. split.
  - intros Hrun. destruct (_ || _) eqn:E1; [done|]. apply orb_false_iff in E1 as [[E1%N.ltb_ge _]%orb_false_iff E3%N.ltb_ge].
    destruct (lenN fields =? lenN selected)%N eqn:E4; [|done]. destruct (ascending selected) eqn:Ha; [|done]. apply ascending_spec in Ha.
    cbn [negb orb] in Hrun. case_bool_decide as Hc; [|done]. destruct (try_reserve w) as [[] w1] eqn:H1; [|done].
    case_bool_decide as Ho; [|done]. cbn [negb] in Hrun. destruct (try_reserve w1) as [[] w2] eqn:H2; [|done].
    destruct (Field.add_all entities init (merge_sort instance_le fields)) as [r|] eqn:Hr; [|done]. injection Hrun as -> ->.
    apply Hadd in Hr as [Hans Hs]; [|apply merge_sort_Permutation].
    split; [destruct Hc as [->|]; [split_and!; [done|done|cbn; lia|cbn; lia]|split_and!; lia]|]. split; [by exists w1|]. split; [done|].
    exists (merge_sort instance_le fields). split_and!; [apply merge_sort_Permutation|done|done|by apply Hsum].
  - intros ((E1 & E3 & E5 & E6) & (w1 & H1 & H2) & Hans & order & Hp & Ho & Ha & Hs).
    assert (merge_sort instance_le fields = order) as Hsort by (apply sorted_instances; [done|by rewrite Ho]).
    assert (lenN fields = lenN selected) as Hlen by (unfold lenN; by rewrite <-Hp, <-Ho, length_fmap).
    rewrite Hlen, N.eqb_refl, (proj2 (ascending_spec selected) Ha), !(proj2 (N.ltb_ge _ _)) by done. cbn [negb orb].
    rewrite bool_decide_true by (by right). rewrite H1, Hsort, bool_decide_true by done. cbn [negb]. rewrite H2.
    by rewrite (proj2 (Hadd order Hp)) by (split; [done|by apply Hsum]).
Qed.

(** ** One body under two fields *)
Definition example_entity : DynamicEntity.t := DynamicEntity.mk (EntityId.mk 7) example_kinematics example_one.
Definition example_coupling : CoupledEntity.t :=
  CoupledEntity.mk (EntityId.mk 7) (CouplingSlot.mk 0) example_kinematics true None (Some example_one).
Definition example_batch {R} `{BulkRecord R} (records : list R) : Batch.t R := Batch.mk (packet_of records) (lenN records).
Definition example_field (name : string) : FieldForces.t :=
  FieldForces.mk (ComponentInstanceId.mk name) 1 (example_batch [example_coupling]) (example_batch [example_force]).
Definition example_selected : list ComponentInstanceId.t := [ComponentInstanceId.mk "electric"; ComponentInstanceId.mk "gravity"].
Definition unit_allocator : Allocator unit := λ w, (true, w).
Definition example_net : list Force.t :=
  [Force.mk (EntityId.mk 7) (Vec3.mk (FiniteF64.mk (F64.of_decimal 2 0)) FiniteF64.ZERO FiniteF64.ZERO)].
Lemma example_holds : holds (example_batch [example_entity]) [example_entity] ∧ holds (example_batch [example_coupling]) [example_coupling]
  ∧ holds (example_batch [example_force]) [example_force].
Proof. split_and!; (split; [repeat constructor; vm_compute; reflexivity|]); (split; [vm_compute; reflexivity|]); (split; [vm_compute; discriminate|reflexivity]). Qed.
Lemma example_field_read name : field_read (example_field name).
Proof. destruct example_holds as (_ & Hc & Hf). split; by eexists. Qed.
Lemma reduction_order_free_witness :
  @reduce unit unit_allocator (example_batch [example_entity]) example_selected [example_field "gravity"; example_field "electric"] ReductionLimits.default ()
  = Some (Ok example_net, ()).
Proof.
  rewrite (@reduction_order_free unit unit_allocator (example_batch [example_entity]) example_selected
    [example_field "gravity"; example_field "electric"] [example_field "electric"; example_field "gravity"] ReductionLimits.default ()) by apply perm_swap.
  vm_compute. reflexivity.
Defined.
Lemma reduction_exact_witness : ∃ order, order ≡ₚ [example_field "gravity"; example_field "electric"]
  ∧ FieldForces.instance <$> order = example_selected ∧ Forall2 (λ e f, Force.id f = DynamicEntity.id e
      ∧ sum_vectors Vec3.ZERO (contributions order (DynamicEntity.id e)) = Ok (Force.newtons f)) (rows (example_batch [example_entity])) example_net.
Proof.
  destruct (proj1 (@reduction_exact unit unit_allocator (example_batch [example_entity]) example_selected
    [example_field "gravity"; example_field "electric"] ReductionLimits.default () () example_net
    (ex_intro _ _ (proj1 example_holds)) (Forall_cons_2 _ _ _ (example_field_read _) (Forall_cons_2 _ _ _ (example_field_read _) (Forall_nil_2 _)))))
    as (_ & _ & _ & order & Hp & Ho & _ & Hs).
  - vm_compute. reflexivity.
  - exists order. split; [exact Hp|]. split; [exact Ho|exact Hs].
Defined.
