(* ===== verification/Run.v ===== *)
(** * The owner of a run (crate [orishu-runtime], run.rs, control.rs, grants.rs, sandbox/; [orishu-plugin], execution/context.rs)

    A run advances a committed scientific state in whole steps: the fields are
    asked for forces at the committed boundary, the forces are reduced, one
    integrator moves the dynamic objects, everything is validated, and only then
    a candidate is offered for publication. Kernels are third-party programs in a
    sandbox: what one answers is left to the world, and so are clocks, cancellation
    and storage; what a call is checked against before it starts is modelled. *)

From Stdlib Require Import Ascii.
From stdpp Require Import base gmap strings list sorting pretty.
From S2P Require Import Prelude Identity Binary64 Quantity Workload Cbor Codec Packet Reduction.
From S2P Require Antientropy PluginIds.

(** ** Buffers (grants.rs) *)
Module Buffer.
Record t : Type := mk { schema : string; value_count : N; bytes : Prelude.bytes }.
End Buffer.
Module ScientificBufferError.
Inductive t : Type := Schema | Count | Packet (error : BulkError.t).
End ScientificBufferError.
Definition scientific_batch (R : Type) `{BulkRecord R} (b : Buffer.t) (limits : BulkLimits.t)
    : result ScientificBufferError.t (Batch.t R) :=
  if negb (bool_decide (Buffer.schema b = SCHEMA R)) then Err ScientificBufferError.Schema
  else
    batch ← result_map_err ScientificBufferError.Packet (Batch.read R (Buffer.bytes b) limits);
    if negb (Buffer.value_count b =? Batch.len batch)%N then Err ScientificBufferError.Count else Ok batch.

(** ** The context of a kernel (context.rs, ids.rs, model.rs) *)
Module PluginName.
Record t : Type := mk { as_str : string }.
#[global] Instance run_PluginName_eq_dec : EqDecision t.
Proof. solve_decision. Defined.
End PluginName.
Module ScientificContractRef.
Record t : Type := mk { name : PluginName.t; version : N; digest : ArtifactDigest.t }.
#[global] Instance run_ScientificContractRef_eq_dec : EqDecision t.
Proof. solve_decision. Defined.
End ScientificContractRef.
Module ExecutionContractId.
Inductive t : Type := Field | Dynamics.
#[global] Instance run_ExecutionContractId_eq_dec : EqDecision t.
Proof. solve_decision. Defined.
End ExecutionContractId.
Module StateFormat.
Record t : Type := mk { id : PluginName.t; version : N }.
#[global] Instance run_StateFormat_eq_dec : EqDecision t.
Proof. solve_decision. Defined.
End StateFormat.
Module ExecutionProfile.
Inductive t : Type := ForceThenIntegrate.
#[global] Instance run_ExecutionProfile_eq_dec : EqDecision t.
Proof. solve_decision. Defined.
End ExecutionProfile.
Module ComputePrecision.
Inductive t : Type := Binary32 | Binary64.
#[global] Instance run_ComputePrecision_eq_dec : EqDecision t.
Proof. solve_decision. Defined.
End ComputePrecision.
Module InputIdentity.
Record t : Type := mk { schema : SchemaId.t; value_count : N; byte_length : N; digest : ArtifactDigest.t }.
#[global] Instance run_InputIdentity_eq_dec : EqDecision t.
Proof. solve_decision. Defined.
Definition of_ `{Antientropy.Sha256} (schema : SchemaId.t) (value_count : N) (bytes : Prelude.bytes) : t :=
  mk schema value_count (lenN bytes) (ArtifactDigest.sha256_of bytes).
Definition matches `{Antientropy.Sha256} (i : t) (schema' : string) (value_count' : N) (bytes : Prelude.bytes) : bool :=
  bool_decide (SchemaId.as_str (schema i) = schema') && (value_count i =? value_count')%N
  && (byte_length i =? lenN bytes)%N && ArtifactDigest.matches (digest i) bytes.
End InputIdentity.
Module ExecutionBounds.
Record t : Type := mk { projection_records : N; state_bytes : N; sample_points : N; sample_channels : N }.
#[global] Instance run_ExecutionBounds_eq_dec : EqDecision t.
Proof. solve_decision. Defined.
End ExecutionBounds.
Module CouplingProperty.
Record t : Type := mk { property : PluginIds.LocalContributionId.t; dimension : Dimension.t }.
#[global] Instance run_CouplingProperty_eq_dec : EqDecision t.
Proof. solve_decision. Defined.
End CouplingProperty.
Module CouplingDescriptor.
Record t : Type := mk {
  slot : PluginIds.LocalContributionId.t;
  component : ScientificContractRef.t;
  source : option CouplingProperty.t;
  response : option CouplingProperty.t
}.
#[global] Instance run_CouplingDescriptor_eq_dec : EqDecision t.
Proof. solve_decision. Defined.
End CouplingDescriptor.

(** The observables a model supplies are not read by the owner of a run. *)
Class Observables : Type := {
  ObservableBinding : Type;
  ObservableBinding_eq_dec :: EqDecision ObservableBinding
}.
Module InstanceContext.
Record t `{Observables} : Type := mk {
  api_version : ApiVersion.t;
  instance : ComponentInstanceId.t;
  kernel : ArtifactDigest.t;
  contribution : PluginIds.ContributionRef.t;
  scientific : ScientificContractRef.t;
  execution_contract : ExecutionContractId.t;
  state_format : StateFormat.t;
  profile : ExecutionProfile.t;
  configuration : InputIdentity.t;
  domain : InputIdentity.t;
  couplings : list CouplingDescriptor.t;
  observables : list ObservableBinding;
  compute_precision : ComputePrecision.t;
  bounds : ExecutionBounds.t
}.
#[global] Arguments mk {_}.
#[global] Instance run_InstanceContext_eq_dec `{Observables} : EqDecision t.
Proof. solve_decision. Defined.
End InstanceContext.

(** The portable bytes of a context, through serde and the shared codec. *)
Class ContextCodec `{Observables} : Type := {
  to_cbor : InstanceContext.t → result PluginIds.Error.t bytes;
  from_cbor : bytes → result PluginIds.Error.t InstanceContext.t
}.
Definition MAX_CONTEXT_BYTES : N := 65536.
Definition VALIDATION_SCHEMA : string := "orishu.simulation.validation/v1".
Definition VALIDATION_HEADER_BYTES : N := 28.

(** A coupling uses only the roles its slot declares. *)
Definition declares `{Observables} (context : InstanceContext.t) (c : CoupledEntity.t) : option bool :=
  slot ← InstanceContext.couplings context !! N.to_nat (CouplingSlot.raw (CoupledEntity.slot c));
  Some (negb ((is_some (CoupledEntity.source_si c) && negb (is_some (CouplingDescriptor.source slot)))
              || (is_some (CoupledEntity.response_si c) && negb (is_some (CouplingDescriptor.response slot))))).

Module ValidationInputs.
Record t : Type := mk { timestep_seconds : FiniteF64.t; context : bytes; domain : bytes; configuration : bytes; entities : bytes }.
Definition parts (i : t) : list bytes := [context i; domain i; configuration i; entities i].
Fixpoint total (limit size : N) (parts : list bytes) : result BulkError.t N :=
  match parts with
  | [] => Ok size
  | part :: parts =>
    if (u32_max <? lenN part)%N then Err BulkError.LimitExceeded
    else
      match checked_add usize_max size (lenN part) with
      | Some size => if (size <=? limit)%N then total limit size parts else Err BulkError.LimitExceeded
      | None => Err BulkError.LimitExceeded
      end
  end.
Definition encoded_bytes (i : t) (limits : BulkLimits.t) : result BulkError.t N :=
  if negb (FiniteF64.is_positive (timestep_seconds i)) then Err BulkError.InvalidRecord
  else total (BulkLimits.bytes limits) VALIDATION_HEADER_BYTES (parts i).
(** Every coupling of the packet is declared. *)
Fixpoint check_roles `{Observables} (context : InstanceContext.t) (l : list CoupledEntity.t) : result BulkError.t unit :=
  match l with
  | [] => Ok ()
  | c :: l => match declares context c with Some true => check_roles context l | _ => Err BulkError.InvalidRecord end
  end.
Definition check `{ContextCodec, Antientropy.Sha256} (i : t) (ctx : InstanceContext.t) (limits : BulkLimits.t)
    : outcome BulkError.t unit :=
  if (MAX_CONTEXT_BYTES <? lenN (context i))%N then refuse BulkError.LimitExceeded
  else
    match from_cbor (context i) with
    | Err _ => refuse BulkError.InvalidRecord
    | Ok decoded =>
      let pinned (identity : InputIdentity.t) bytes :=
        InputIdentity.matches identity (SchemaId.as_str (InputIdentity.schema identity)) (InputIdentity.value_count identity) bytes in
      if negb (bool_decide (decoded = ctx)) || negb (pinned (InstanceContext.domain ctx) (domain i))
         || negb (pinned (InstanceContext.configuration ctx) (configuration i))
      then refuse BulkError.InvalidRecord
      else
        let limits := BulkLimits.mk (BulkLimits.bytes limits)
          (N.min (BulkLimits.records limits) (ExecutionBounds.projection_records (InstanceContext.bounds ctx))) in
        match InstanceContext.execution_contract ctx with
        | ExecutionContractId.Dynamics => _ ← answer (Batch.read DynamicEntity.t (entities i) limits); mret ()
        | ExecutionContractId.Field =>
          batch ← answer (Batch.read CoupledEntity.t (entities i) limits);
          match Batch.iter batch with
          | None => None
          | Some l => answer (check_roles ctx l)
          end
        end
    end.
(** The answer is what the output holds afterwards. *)
Definition encode `{ContextCodec, Antientropy.Sha256, Allocator W} (i : t) (ctx : InstanceContext.t) (limits : BulkLimits.t)
    : io W BulkError.t bytes :=
  _ ← pure (answer (encoded_bytes i limits));
  _ ← pure (check i ctx limits);
  _ ← reserve BulkError.LimitExceeded;
  mret (bytes_of "OSV1" ++ to_le_bytes 8 (f64_to_bits (FiniteF64.get (timestep_seconds i)))
        ++ (parts i ≫= λ part, to_le_bytes 4 (lenN part mod 2 ^ 32)) ++ concat (parts i)).
(** The parts of an envelope, cut off one after the other; the offsets are those
    of their lengths. *)
Fixpoint cut (l : bytes) (offsets : list nat) (cursor : N) : result BulkError.t (list bytes * N) :=
  match offsets with
  | [] => Ok ([], cursor)
  | offset :: offsets =>
    match checked_add usize_max cursor (from_le_bytes (slice offset (offset + 4) l)) with
    | None => Err BulkError.LimitExceeded
    | Some stop =>
      if (lenN l <? stop)%N then Err BulkError.Framing
      else
        '(parts, stop') ← cut l offsets stop;
        Ok (slice (N.to_nat cursor) (N.to_nat stop) l :: parts, stop')
    end
  end.
Definition framed (l : bytes) (limits : BulkLimits.t) : result BulkError.t t :=
  if (BulkLimits.bytes limits <? lenN l)%N then Err BulkError.LimitExceeded
  else if (lenN l <? VALIDATION_HEADER_BYTES)%N || negb (bool_decide (slice 0 4 l = bytes_of "OSV1")) then Err BulkError.Framing
  else
    timestep_seconds ← result_map_err (λ _, BulkError.InvalidRecord) (FiniteF64.new (f64_from_bits (from_le_bytes (slice 4 12 l))));
    if negb (FiniteF64.is_positive timestep_seconds) then Err BulkError.InvalidRecord
    else
      '(parts, cursor) ← cut l [12; 16; 20; 24] VALIDATION_HEADER_BYTES;
      if negb (cursor =? lenN l)%N then Err BulkError.Framing
      else
        match parts with
        | [context; domain; configuration; entities] => Ok (mk timestep_seconds context domain configuration entities)
        | _ => Err BulkError.Framing
        end.
Definition read `{ContextCodec, Antientropy.Sha256} (l : bytes) (ctx : InstanceContext.t) (limits : BulkLimits.t)
    : outcome BulkError.t t :=
  input ← answer (framed l limits);
  _ ← check input ctx limits;
  mret input.
End ValidationInputs.

(** ** Cancellation and deadlines (control.rs) *)
Module Cancellation.
(** The handle of one shared lifetime. *)
Record t : Type := mk { handle : N }.
End Cancellation.
Module OperationControl.
Record t : Type := mk { cancelled : Cancellation.t; parent : option Cancellation.t; deadline : N }.
End OperationControl.
Module Interruption.
Inductive t : Type := Cancelled | DeadlineExceeded.
End Interruption.

(** ** The sandbox (sandbox/*.rs): what is asked of a kernel *)
Module OutputExtent.
Record t : Type := mk { schema : string; bytes : N; values : N }.
End OutputExtent.
Module OutputCapacity.
Record t : Type := mk { schema : string; bytes : N; values : N }.
End OutputCapacity.
Module StepContext.
Record t : Type := mk {
  workload : string;
  run : string;
  epoch : N;
  boundary : N;
  invocation : N;
  partition : string;
  coverage : string;
  time_seconds : f64;
  dt_seconds : f64
}.
End StepContext.
Module NumericalAdvice.
Record t : Type := mk { upper_bound_seconds : option f64; recommended_seconds : option f64 }.
End NumericalAdvice.
Module FieldOperation.
Inductive t : Type :=
  | InitializeBounded (domain : Buffer.t) (output : OutputCapacity.t)
  | Initialize (domain : Buffer.t) (output : OutputExtent.t)
  | Validate (state inputs : Buffer.t)
  | Advance (step : StepContext.t) (prior entities validation : Buffer.t) (field forces : OutputExtent.t)
  | Sample (snapshot query : Buffer.t) (output : OutputExtent.t)
  | Checkpoint (state : Buffer.t) (output : OutputExtent.t)
  | Restore (checkpoint validation : Buffer.t) (output : OutputExtent.t).
End FieldOperation.
Module FieldResult.
Inductive t : Type :=
  | State (state : Buffer.t)
  | Admissible (advice : option NumericalAdvice.t)
  | Advanced (field forces : Buffer.t)
  | Samples (samples : Buffer.t).
End FieldResult.
Module DynamicsOperation.
Inductive t : Type :=
  | InitializeHistoryBounded (entities : Buffer.t) (history : OutputCapacity.t)
  | InitializeHistory (entities : Buffer.t) (history : OutputExtent.t)
  | Validate (history inputs : Buffer.t)
  | Integrate (step : StepContext.t) (entities forces prior_history validation : Buffer.t) (next_entities history : OutputExtent.t)
  | TransitionEntities (step : StepContext.t) (births deaths prior_history validation : Buffer.t) (history : OutputExtent.t)
  | Checkpoint (history : Buffer.t) (output : OutputExtent.t)
  | Restore (checkpoint validation : Buffer.t) (output : OutputExtent.t).
End DynamicsOperation.
Module DynamicsResult.
Inductive t : Type :=
  | History (history : Buffer.t)
  | Admissible (advice : option NumericalAdvice.t)
  | Integrated (entities history : Buffer.t).
End DynamicsResult.

(** A compiled kernel, and what a refusal of a call or of a publication carries. *)
Class Components : Type := {
  CompiledKernel : Type;
  kernel_contract : CompiledKernel → ExecutionContractId.t;
  kernel_artifact : CompiledKernel → ArtifactDigest.t;
  Fault : Type
}.

(** ** Rejections and their attribution (run.rs) *)
Module RunPhase.
Inductive t : Type := Admission | Field | Reduction | Dynamics | Validation | Publication | Checkpoint | Restore.
End RunPhase.
Module RunRejection.
Inductive t : Type := Limit | Definition_ | Objects | Stopped | Time | Checkpoint.
End RunRejection.
Module RunScope.
Record t : Type := mk { workload : WorkloadDigest.t; run : ArtifactDigest.t; epoch : N }.
#[global] Instance run_RunScope_eq_dec : EqDecision t.
Proof. solve_decision. Defined.
End RunScope.
Module RunFailure.
Record t : Type := mk {
  workload : WorkloadDigest.t;
  run : ArtifactDigest.t;
  epoch : N;
  boundary : N;
  phase : RunPhase.t;
  instance : option ComponentInstanceId.t
}.
End RunFailure.
(** Why a call of a kernel is refused before it starts (sandbox/bound_execution.rs). *)
Module ContextRejection.
Inductive t : Type := Metadata | Kernel | Input | Validation | State | Projection | Sampling.
End ContextRejection.
(** [wasmtime::Error]: a root cause under the attributions it was given. *)
Module RunError.
Inductive t `{Components} : Type :=
  | Rejected (reason : RunRejection.t)
  | Interrupted (reason : Interruption.t)
  | BulkRefused (error : BulkError.t)
  | BufferRefused (error : ScientificBufferError.t)
  | ReductionRefused (error : ReductionError.t)
  | NameRefused (error : NameError.t)
  | FloatRefused (error : FloatError.t)
  | ContextRefused (error : PluginIds.Error.t)
  | ContextRejected (reason : ContextRejection.t)
  | Message (text : string)
  | Foreign (fault : Fault)
  | Attributed (failure : RunFailure.t) (error : t).
End RunError.

(** ** The world of a run *)
Class Clock (W : Type) : Type := {
  is_cancelled : Cancellation.t → W → bool * W;
  now : W → N * W
}.
Class Host `{Components, Observables} (W : Type) : Type := {
  host_allocator :: Allocator W;
  host_clock :: Clock W;
  invoke_field_bound : CompiledKernel → InstanceContext.t → Buffer.t → FieldOperation.t → OperationControl.t →
    io W RunError.t FieldResult.t;
  invoke_dynamics_bound : CompiledKernel → InstanceContext.t → Buffer.t → DynamicsOperation.t → OperationControl.t →
    io W RunError.t DynamicsResult.t
}.
Definition check `{Components, Clock W} (control : OperationControl.t) : io W RunError.t unit := λ w,
  let '(cancelled, w) := is_cancelled (OperationControl.cancelled control) w in
  let '(cancelled, w) :=
    match cancelled, OperationControl.parent control with
    | false, Some parent => is_cancelled parent w
    | _, _ => (cancelled, w)
    end in
  if cancelled then Some (Err (RunError.Interrupted Interruption.Cancelled), w)
  else
    let '(instant, w) := now w in
    if (OperationControl.deadline control <=? instant)%N then Some (Err (RunError.Interrupted Interruption.DeadlineExceeded), w)
    else Some (Ok (), w).

(** ** Calls of kernels with their inputs checked (sandbox/bound_execution.rs)

    The sandbox below is what runs a component: it instantiates the guest, hands
    it grants and takes its outputs. Its own work on guests, and the two portable
    documents and the queries whose codecs are read through serde, are left to
    this class; everything a call is checked against before it starts is here. *)
Class Sandbox `{Components, Observables} (W : Type) : Type := {
  sandbox_allocator :: Allocator W;
  sandbox_clock :: Clock W;
  (** [Instant::checked_add]: how far a clock goes is the platform's. *)
  instant_checked_add : N → N → option N;
  operation_timeout : N;
  grant_bytes : N;
  DomainDescriptor_from_cbor : bytes → bool;
  ResolvedConfiguration_from_cbor : bytes → bool;
  SampleRequest : Type;
  SampleRequest_read : bytes → InstanceContext.t → option SampleRequest;
  request_checks_context : SampleRequest → InstanceContext.t → bool;
  request_state : SampleRequest → InputIdentity.t;
  request_layout : SampleRequest → InstanceContext.t → option N;
  request_len : SampleRequest → N;
  SampleResponse_read : bytes → SampleRequest → InstanceContext.t → bool;
  invoke_field : CompiledKernel → Buffer.t → Buffer.t → FieldOperation.t → OperationControl.t → io W RunError.t FieldResult.t;
  invoke_dynamics : CompiledKernel → Buffer.t → Buffer.t → DynamicsOperation.t → OperationControl.t →
    io W RunError.t DynamicsResult.t
}.
Definition INSTANCE_SCHEMA : string := "orishu.simulation.instance/v1".
Definition CONFIGURATION_SCHEMA : string := "orishu.simulation.configuration/v1".
Definition DOMAIN_SCHEMA : string := "orishu.simulation.domain/v1".
Definition SAMPLE_REQUEST_SCHEMA : string := "orishu.simulation.sample-request/v1".
Definition SAMPLE_RESPONSE_SCHEMA : string := "orishu.simulation.sample-response/v1".

Definition check_step `{Components} (step : StepContext.t) : result RunError.t unit :=
  let time := StepContext.time_seconds step in
  let dt := StepContext.dt_seconds step in
  if existsb (λ s, (str_len s =? 0)%N || (256 <? str_len s)%N)
       [StepContext.workload step; StepContext.run step; StepContext.partition step; StepContext.coverage step]
     || negb (F64.is_finite time) || F64.ltb time F64.zero || negb (F64.is_finite dt) || F64.leb dt F64.zero
     || negb (F64.is_finite (F64.add time dt)) || F64.leb (F64.add time dt) time || (StepContext.boundary step =? u64_max)%N
  then Err (RunError.Message "invalid or excessive step context") else Ok ().

Module Bound.
Record t `{Observables} : Type := mk { context : InstanceContext.t; limits : BulkLimits.t; state_schema : string }.
#[global] Arguments mk {_}.
Section bound.
Context `{Sandbox W, !ContextCodec, !Antientropy.Sha256}.
Definition rejected {A} (reason : ContextRejection.t) : outcome RunError.t A := refuse (RunError.ContextRejected reason).
Definition new (context : InstanceContext.t) (max_bytes : N) : t :=
  mk context (BulkLimits.mk max_bytes (ExecutionBounds.projection_records (InstanceContext.bounds context)))
    (PluginName.as_str (StateFormat.id (InstanceContext.state_format context)) +:+ "/v"
     +:+ pretty (StateFormat.version (InstanceContext.state_format context))).
Definition input (b : t) (identity : InputIdentity.t) (i : Buffer.t) : outcome RunError.t unit :=
  if (BulkLimits.bytes (limits b) <? lenN (Buffer.bytes i))%N
     || negb (InputIdentity.matches identity (Buffer.schema i) (Buffer.value_count i) (Buffer.bytes i))
  then rejected ContextRejection.Input else mret ().
Definition extent (b : t) (state : OutputExtent.t) : outcome RunError.t unit :=
  if negb (bool_decide (OutputExtent.schema state = state_schema b)) || (BulkLimits.bytes (limits b) <? OutputExtent.bytes state)%N
     || (ExecutionBounds.state_bytes (InstanceContext.bounds (context b)) <? OutputExtent.bytes state)%N
  then rejected ContextRejection.State else mret ().
Definition state (b : t) (s : Buffer.t) : outcome RunError.t unit :=
  extent b (OutputExtent.mk (Buffer.schema s) (lenN (Buffer.bytes s)) (Buffer.value_count s)).
Definition capacity (b : t) (c : OutputCapacity.t) : outcome RunError.t unit :=
  extent b (OutputExtent.mk (OutputCapacity.schema c) (OutputCapacity.bytes c) (OutputCapacity.values c)).
(** A packet of records, whatever is wrong with it. *)
Definition packet_of_kind (b : t) (R : Type) `{BulkRecord R} (entities : Buffer.t) : outcome RunError.t unit :=
  match scientific_batch R entities (limits b) with Ok _ => mret () | Err _ => rejected ContextRejection.Projection end.
Definition projection (b : t) (entities : Buffer.t) : outcome RunError.t unit :=
  match InstanceContext.execution_contract (context b) with
  | ExecutionContractId.Field => packet_of_kind b CoupledEntity.t entities
  | ExecutionContractId.Dynamics => packet_of_kind b DynamicEntity.t entities
  end.
Definition projection_extent (b : t) (R : Type) `{BulkRecord R} (e : OutputExtent.t) (count : N) : outcome RunError.t unit :=
  match packet_bytes R count (limits b) with
  | Err _ => rejected ContextRejection.Projection
  | Ok bytes =>
    if negb (bool_decide (OutputExtent.schema e = SCHEMA R)) || negb (OutputExtent.values e =? count)%N || negb (OutputExtent.bytes e =? bytes)%N
    then rejected ContextRejection.Projection else mret ()
  end.
Definition validation (b : t) (i : Buffer.t) (step : option StepContext.t) (entities : option Buffer.t) : outcome RunError.t unit :=
  if negb (bool_decide (Buffer.schema i = VALIDATION_SCHEMA)) || negb (Buffer.value_count i =? 1)%N then rejected ContextRejection.Validation
  else
    match ValidationInputs.read (Buffer.bytes i) (context b) (limits b) with
    | None => None
    | Some (Err _) => rejected ContextRejection.Validation
    | Some (Ok i) =>
      if negb (DomainDescriptor_from_cbor (ValidationInputs.domain i)) then rejected ContextRejection.Input
      else
        _ ← match step with
            | None => mret ()
            | Some step =>
              _ ← answer (check_step step);
              if negb (F64.eqb (FiniteF64.get (ValidationInputs.timestep_seconds i)) (StepContext.dt_seconds step))
              then rejected ContextRejection.Validation else mret ()
            end;
        match entities with
        | None => mret ()
        | Some entities =>
          _ ← projection b entities;
          if negb (bool_decide (ValidationInputs.entities i = Buffer.bytes entities)) then rejected ContextRejection.Validation else mret ()
        end
    end.
End bound.
End Bound.

Section sandboxed.
Context `{Sandbox W, !ContextCodec, !Antientropy.Sha256}.
Notation run_io := (io W RunError.t).

(** [OperationControl::bounded]. *)
Definition bounded (control : OperationControl.t) : run_io OperationControl.t := λ w,
  let '(instant, w) := now w in
  match instant_checked_add instant operation_timeout with
  | None => Some (Err (RunError.Message "operation deadline overflow"), w)
  | Some policy =>
    Some (Ok (OperationControl.mk (OperationControl.cancelled control) (OperationControl.parent control)
                (N.min (OperationControl.deadline control) policy)), w)
  end.
Definition bound_context (kernel : CompiledKernel) (context : InstanceContext.t) (config : Buffer.t) : outcome RunError.t Buffer.t :=
  match to_cbor context with
  | Err _ => Bound.rejected ContextRejection.Metadata
  | Ok bytes =>
    if negb (bool_decide (InstanceContext.kernel context = kernel_artifact kernel))
       || negb (bool_decide (InstanceContext.execution_contract context = kernel_contract kernel))
    then Bound.rejected ContextRejection.Kernel
    else
      _ ← Bound.input (Bound.new context grant_bytes) (InstanceContext.configuration context) config;
      if negb (bool_decide (SchemaId.as_str (InputIdentity.schema (InstanceContext.configuration context)) = CONFIGURATION_SCHEMA))
         || negb (InputIdentity.value_count (InstanceContext.configuration context) =? 1)%N
         || negb (bool_decide (SchemaId.as_str (InputIdentity.schema (InstanceContext.domain context)) = DOMAIN_SCHEMA))
         || negb (InputIdentity.value_count (InstanceContext.domain context) =? 1)%N
      then Bound.rejected ContextRejection.Input
      else if negb (ResolvedConfiguration_from_cbor (Buffer.bytes config)) then Bound.rejected ContextRejection.Input
      else mret (Buffer.mk INSTANCE_SCHEMA 1 bytes)
  end.
(** How many forces a projection owes. *)
Fixpoint owed_forces (previous : option EntityId.t) (l : list CoupledEntity.t) : N :=
  match l with
  | [] => 0
  | e :: l =>
    if negb (CoupledEntity.responds_dynamically e) then owed_forces previous l
    else if bool_decide (previous = Some (CoupledEntity.id e)) then owed_forces previous l
    else (owed_forces (Some (CoupledEntity.id e)) l + 1)%N
  end.
Definition field_domain (b : Bound.t) (context : InstanceContext.t) (domain : Buffer.t) : outcome RunError.t unit :=
  _ ← Bound.input b (InstanceContext.domain context) domain;
  if DomainDescriptor_from_cbor (Buffer.bytes domain) then mret () else Bound.rejected ContextRejection.Input.
Definition field_preflight (b : Bound.t) (context : InstanceContext.t) (request : option SampleRequest) (operation : FieldOperation.t)
    : outcome RunError.t unit :=
  match operation with
  | FieldOperation.InitializeBounded domain output => _ ← field_domain b context domain; Bound.capacity b output
  | FieldOperation.Initialize domain output => _ ← field_domain b context domain; Bound.extent b output
  | FieldOperation.Validate state inputs => _ ← Bound.state b state; Bound.validation b inputs None None
  | FieldOperation.Advance step prior entities validation field forces =>
    _ ← Bound.state b prior;
    _ ← Bound.extent b field;
    _ ← Bound.validation b validation (Some step) (Some entities);
    coupled ← answer (result_map_err RunError.BufferRefused (scientific_batch CoupledEntity.t entities (Bound.limits b)));
    match Batch.iter coupled with
    | None => None
    | Some l => Bound.projection_extent b Force.t forces (owed_forces None l)
    end
  | FieldOperation.Sample snapshot query output =>
    _ ← Bound.state b snapshot;
    match request with
    | None => Bound.rejected ContextRejection.Sampling
    | Some request =>
      if negb (request_checks_context request context) then Bound.rejected ContextRejection.Sampling
      else
        _ ← Bound.input b (request_state request) snapshot;
        match request_layout request context with
        | None => Bound.rejected ContextRejection.Sampling
        | Some bytes =>
          if negb (bool_decide (Buffer.schema query = SAMPLE_REQUEST_SCHEMA)) || negb (Buffer.value_count query =? request_len request)%N
             || negb (bool_decide (OutputExtent.schema output = SAMPLE_RESPONSE_SCHEMA))
             || negb (OutputExtent.values output =? Buffer.value_count query)%N || negb (OutputExtent.bytes output =? bytes)%N
          then Bound.rejected ContextRejection.Sampling else mret ()
        end
    end
  | FieldOperation.Checkpoint state output => _ ← Bound.state b state; Bound.extent b output
  | FieldOperation.Restore checkpoint validation output =>
    _ ← Bound.state b checkpoint;
    _ ← Bound.extent b output;
    Bound.validation b validation None None
  end.
(** The query of a sampling operation, read before anything else of it. *)
Definition sample_request (context : InstanceContext.t) (operation : FieldOperation.t) : outcome RunError.t (option SampleRequest) :=
  match operation with
  | FieldOperation.Sample _ query _ =>
    match SampleRequest_read (Buffer.bytes query) context with
    | Some request => mret (Some request)
    | None => Bound.rejected ContextRejection.Sampling
    end
  | _ => mret None
  end.
Definition call_field_bound (kernel : CompiledKernel) (context : InstanceContext.t) (config : Buffer.t) (operation : FieldOperation.t)
    (control : OperationControl.t) : run_io FieldResult.t :=
  control ← bounded control;
  _ ← check control;
  setup ← pure (bound_context kernel context config);
  request ← pure (sample_request context operation);
  _ ← pure (field_preflight (Bound.new context grant_bytes) context request operation);
  _ ← check control;
  result ← invoke_field kernel setup config operation control;
  _ ← match request, result with
      | Some request, FieldResult.Samples samples =>
        if SampleResponse_read (Buffer.bytes samples) request context then mret () else pure (Bound.rejected ContextRejection.Sampling)
      | _, _ => mret ()
      end;
  _ ← check control;
  mret result.

Definition dynamics_preflight (b : Bound.t) (operation : DynamicsOperation.t) : outcome RunError.t unit :=
  match operation with
  | DynamicsOperation.InitializeHistoryBounded entities history => _ ← Bound.projection b entities; Bound.capacity b history
  | DynamicsOperation.InitializeHistory entities history => _ ← Bound.projection b entities; Bound.extent b history
  | DynamicsOperation.Validate history inputs => _ ← Bound.state b history; Bound.validation b inputs None None
  | DynamicsOperation.Integrate step entities forces prior_history validation next_entities history =>
    _ ← Bound.state b prior_history;
    _ ← Bound.extent b history;
    _ ← Bound.packet_of_kind b Force.t forces;
    _ ← Bound.validation b validation (Some step) (Some entities);
    Bound.projection_extent b DynamicEntity.t next_entities (Buffer.value_count entities)
  | DynamicsOperation.TransitionEntities step births deaths prior_history validation history =>
    _ ← Bound.state b prior_history;
    _ ← Bound.extent b history;
    _ ← Bound.projection b births;
    _ ← Bound.packet_of_kind b EntityId.t deaths;
    Bound.validation b validation (Some step) None
  | DynamicsOperation.Checkpoint history output => _ ← Bound.state b history; Bound.extent b output
  | DynamicsOperation.Restore checkpoint validation output =>
    _ ← Bound.state b checkpoint;
    _ ← Bound.extent b output;
    Bound.validation b validation None None
  end.
Definition call_dynamics_bound (kernel : CompiledKernel) (context : InstanceContext.t) (config : Buffer.t) (operation : DynamicsOperation.t)
    (control : OperationControl.t) : run_io DynamicsResult.t :=
  control ← bounded control;
  _ ← check control;
  setup ← pure (bound_context kernel context config);
  _ ← pure (dynamics_preflight (Bound.new context grant_bytes) operation);
  _ ← check control;
  invoke_dynamics kernel setup config operation control.

(** The host of a run: every call of a kernel goes through the checks. *)
Definition sandboxed : Host W := {|
  invoke_field_bound := call_field_bound;
  invoke_dynamics_bound := call_dynamics_bound
|}.
End sandboxed.

(** ** The program and the state of a run *)
Module StateExtent.
Record t : Type := mk { schema : SchemaId.t; bytes : N; values : N }.
#[global] Instance run_StateExtent_eq_dec : EqDecision t.
Proof. solve_decision. Defined.
Definition borrowed (e : t) : OutputExtent.t := OutputExtent.mk (SchemaId.as_str (schema e)) (bytes e) (values e).
Definition matches (e : t) (b : Buffer.t) : bool :=
  bool_decide (SchemaId.as_str (schema e) = Buffer.schema b) && (bytes e =? lenN (Buffer.bytes b))%N
  && (values e =? Buffer.value_count b)%N.
End StateExtent.
Module RunKernel.
Record t `{Components, Observables} : Type := mk {
  kernel : CompiledKernel;
  context : InstanceContext.t;
  configuration : Buffer.t;
  domain : Buffer.t;
  state_extent : StateExtent.t
}.
#[global] Arguments mk {_ _}.
End RunKernel.
Module RunField.
Record t `{Components, Observables} : Type := mk { binding : RunKernel.t; coupled : Buffer.t }.
#[global] Arguments mk {_ _}.
End RunField.
Module RunProgram.
Record t `{Components, Observables} : Type := mk { fields : list RunField.t; dynamics : RunKernel.t; timestep_seconds : FiniteF64.t }.
#[global] Arguments mk {_ _}.
End RunProgram.
Module CapturedRunState.
Record t : Type := mk { objects : Buffer.t; fields : list Buffer.t; history : Buffer.t }.
End CapturedRunState.
Module RunLimits.
Record t : Type := mk {
  fields : N;
  objects : N;
  couplings : N;
  scientific_bytes : N;
  input_bytes : N;
  snapshots : N;
  snapshot_bytes : N
}.
Definition default : t := mk 64 1000000 4000000 (512 * 1024 * 1024) (64 * 1024 * 1024) 8 (128 * 1024 * 1024).
End RunLimits.
Module CommittedState.
Record t : Type := mk {
  boundary : N;
  time : FiniteF64.t;
  objects : Buffer.t;
  fields : list Buffer.t;
  field_identities : list InputIdentity.t;
  history : Buffer.t;
  forces : option Buffer.t
}.
End CommittedState.
Module Definition_.
Record t `{Observables} : Type := mk {
  contexts : list InstanceContext.t;
  couplings : list InputIdentity.t;
  extents : list StateExtent.t;
  dt : FiniteF64.t
}.
#[global] Arguments mk {_}.
(** Derived equality: the timestep by IEEE equality. *)
Definition same `{Observables} (a b : t) : bool :=
  bool_decide (contexts a = contexts b) && bool_decide (couplings a = couplings b) && bool_decide (extents a = extents b)
  && same_scalar (dt a) (dt b).
End Definition_.
Module RunCheckpoint.
Record t `{Observables} : Type := mk {
  scope : RunScope.t;
  definition : Definition_.t;
  state : CommittedState.t;
  next_invocation : N
}.
#[global] Arguments mk {_}.
End RunCheckpoint.

(** ** Leases of observers (run/observation.rs) *)
Module SnapshotBudget.
(** How many leases are held, and their bytes. *)
Record t : Type := mk { held : N * N; count : N; bytes : N }.
Definition new (count bytes : N) : t := mk (0, 0)%N count bytes.
(** [contended]: another observer holds the lock just then. *)
Definition reserve (contended : bool) (size : N) (b : t) : result RunRejection.t t :=
  if contended then Err RunRejection.Limit
  else
    match checked_add usize_max (held b).1 1 with
    | None => Err RunRejection.Limit
    | Some count' =>
      if negb (count' <=? count b)%N then Err RunRejection.Limit
      else
        match checked_add usize_max (held b).2 size with
        | None => Err RunRejection.Limit
        | Some total =>
          if negb (total <=? bytes b)%N then Err RunRejection.Limit else Ok (mk (count', total) (count b) (bytes b))
        end
    end.
(** Dropping a lease; [None] is the underflow the subtraction may run into. *)
Definition release (size : N) (b : t) : option t :=
  if ((held b).1 <? 1)%N || ((held b).2 <? size)%N then None
  else Some (mk ((held b).1 - 1, (held b).2 - size)%N (count b) (bytes b)).
End SnapshotBudget.

Module SnapshotSource.
Inductive t : Type :=
  | Authored (revision : ArtifactDigest.t)
  | Committed (workload : WorkloadDigest.t) (run : ArtifactDigest.t) (epoch boundary : N) (time_seconds : FiniteF64.t).
End SnapshotSource.
Module ObjectSnapshot.
(** The lease is the bytes it holds of the budget. *)
Record t : Type := mk { source : SnapshotSource.t; objects : Buffer.t; forces : option Buffer.t; lease : N }.
End ObjectSnapshot.
Module SampleSnapshot.
Record t : Type := mk { source : SnapshotSource.t; state : InputIdentity.t }.
End SampleSnapshot.
Module FieldSnapshot.
Record t `{Components, Observables} : Type := mk {
  kernel : CompiledKernel;
  context : InstanceContext.t;
  context_digest : ArtifactDigest.t;
  configuration : Buffer.t;
  state : Buffer.t;
  snapshot : SampleSnapshot.t;
  lease : N
}.
#[global] Arguments mk {_ _}.
End FieldSnapshot.

(** ** Projections (run.rs) *)
Definition bulk (limits : RunLimits.t) : BulkLimits.t := BulkLimits.mk (RunLimits.scientific_bytes limits) (RunLimits.objects limits).
Definition bulk_couplings (limits : RunLimits.t) : BulkLimits.t :=
  BulkLimits.mk (RunLimits.scientific_bytes limits) (RunLimits.couplings limits).
Definition schema_of (s : string) : result NameError.t SchemaId.t := SchemaId.new s.
Definition of_option {E A} (o : option A) : outcome E A := match o with Some a => Some (Ok a) | None => None end.

(** What the check of a program adds up. *)
Module Totals.
Record t `{Observables} : Type := mk {
  inputs : N;
  scientific : N;
  couplings : N;
  contexts : list InstanceContext.t;
  extents : list StateExtent.t;
  pins : list InputIdentity.t
}.
#[global] Arguments mk {_}.
End Totals.

(** The owner of a run. *)
Module FixedRun.
Record t `{Components, Observables} : Type := mk {
  scope : RunScope.t;
  program : RunProgram.t;
  definition : Definition_.t;
  limits : RunLimits.t;
  committed : CommittedState.t;
  next_invocation : N;
  stopped : bool;
  selected : list ComponentInstanceId.t;
  snapshots : SnapshotBudget.t
}.
#[global] Arguments mk {_ _}.
Section fixed_run.
Context `{Components, Observables}.
Definition set_committed (r : t) (c : CommittedState.t) : t :=
  mk (scope r) (program r) (definition r) (limits r) c (next_invocation r) (stopped r) (selected r) (snapshots r).
Definition set_next_invocation (r : t) (n : N) : t :=
  mk (scope r) (program r) (definition r) (limits r) (committed r) n (stopped r) (selected r) (snapshots r).
Definition set_snapshots (r : t) (b : SnapshotBudget.t) : t :=
  mk (scope r) (program r) (definition r) (limits r) (committed r) (next_invocation r) (stopped r) (selected r) b.
Definition stop (r : t) : t :=
  mk (scope r) (program r) (definition r) (limits r) (committed r) (next_invocation r) true (selected r) (snapshots r).
Definition is_stopped (r : t) : bool := stopped r.
Definition state (r : t) : CommittedState.t := committed r.
End fixed_run.
End FixedRun.

Section run.
Context `{Host W, !ContextCodec, !Antientropy.Sha256}.
Notation run_io := (io W RunError.t).

Definition reject {A} (reason : RunRejection.t) : outcome RunError.t A := refuse (RunError.Rejected reason).
Definition bulk_ok {A} (r : result BulkError.t A) : outcome RunError.t A := answer (result_map_err RunError.BulkRefused r).
Definition batch_in (R : Type) `{BulkRecord R} (b : Buffer.t) (limits : BulkLimits.t) : outcome RunError.t (Batch.t R) :=
  answer (result_map_err RunError.BufferRefused (scientific_batch R b limits)).
(** Everything a batch holds, read to the end. *)
Definition each {R : Type} `{BulkRecord R} (b : Batch.t R) : outcome RunError.t (list R) := of_option (Batch.iter b).

Fixpoint identities (fields : list Buffer.t) : result NameError.t (list InputIdentity.t) :=
  match fields with
  | [] => Ok []
  | field :: fields =>
    schema ← schema_of (Buffer.schema field);
    rest ← identities fields;
    Ok (InputIdentity.of_ schema (Buffer.value_count field) (Buffer.bytes field) :: rest)
  end.
Definition field_identities (fields : list Buffer.t) : run_io (list InputIdentity.t) :=
  _ ← reserve (RunError.Rejected RunRejection.Limit);
  pure (answer (result_map_err RunError.NameRefused (identities fields))).
Definition packet_extent (R : Type) `{BulkRecord R} (count : N) (limits : RunLimits.t) : outcome RunError.t OutputExtent.t :=
  bytes ← bulk_ok (packet_bytes R count (bulk limits));
  mret (OutputExtent.mk (SCHEMA R) bytes count).
Definition packet {R : Type} `{BulkRecord R} (records : list R) (limits : RunLimits.t) : run_io Buffer.t :=
  let bounds := if (KIND R =? KIND CoupledEntity.t)%N then bulk_couplings limits else bulk limits in
  bytes ← io_map_err RunError.BulkRefused (encode_batch records bounds);
  mret (Buffer.mk (SCHEMA R) (lenN records) bytes).
Definition dynamic_projection (objects : Batch.t ObjectState.t) (limits : RunLimits.t) : run_io Buffer.t :=
  _ ← reserve (RunError.Rejected RunRejection.Limit);
  objects ← pure (each objects);
  packet (omap ObjectState.dynamic objects) limits.

Definition find (objects : Batch.t ObjectState.t) (id : EntityId.t) : option (option ObjectState.t) :=
  match bisect (S (N.to_nat (Batch.len objects))) objects id 0 (Batch.len objects) with
  | Some found => Some (snd <$> found)
  | None => None
  end.
(** The object of a coupling, where it and the roles used exist. *)
Definition coupled_object (context : InstanceContext.t) (objects : Batch.t ObjectState.t) (c : CoupledEntity.t)
    : outcome RunError.t (ObjectState.t * bool) :=
  match find objects (CoupledEntity.id c) with
  | None => None
  | Some None => reject RunRejection.Objects
  | Some (Some object) =>
    match declares context c with
    | None => reject RunRejection.Objects
    | Some declared => mret (object, declared)
    end
  end.
Fixpoint project_couplings (context : InstanceContext.t) (objects : Batch.t ObjectState.t) (l : list CoupledEntity.t)
    : outcome RunError.t (list CoupledEntity.t) :=
  match l with
  | [] => mret []
  | c :: l =>
    '(object, declared) ← coupled_object context objects c;
    if negb (eqb (CoupledEntity.has_dynamics c) (is_some (ObjectState.inertial_mass_kilograms object))) || negb declared
    then reject RunRejection.Objects
    else
      rest ← project_couplings context objects l;
      mret (CoupledEntity.mk (CoupledEntity.id c) (CoupledEntity.slot c) (ObjectState.kinematics object) (CoupledEntity.has_dynamics c)
              (CoupledEntity.source_si c) (CoupledEntity.response_si c) :: rest)
  end.
Definition coupling_projection (field : RunField.t) (objects : Batch.t ObjectState.t) (limits : RunLimits.t) : run_io Buffer.t :=
  batch ← pure (batch_in CoupledEntity.t (RunField.coupled field) (bulk_couplings limits));
  _ ← reserve (RunError.Rejected RunRejection.Limit);
  l ← pure (each batch);
  records ← pure (project_couplings (RunKernel.context (RunField.binding field)) objects l);
  packet records limits.

Fixpoint count_responses (last : option EntityId.t) (l : list CoupledEntity.t) : N :=
  match l with
  | [] => 0
  | c :: l =>
    if CoupledEntity.responds_dynamically c && negb (bool_decide (last = Some (CoupledEntity.id c)))
    then (count_responses (Some (CoupledEntity.id c)) l + 1)%N
    else count_responses last l
  end.
Definition response_count (b : Buffer.t) (limits : RunLimits.t) : outcome RunError.t N :=
  batch ← batch_in CoupledEntity.t b (bulk_couplings limits);
  l ← each batch;
  mret (count_responses None l).

Definition validation (kernel : RunKernel.t) (entities : Buffer.t) (dt : FiniteF64.t) (limits : RunLimits.t) : run_io Buffer.t :=
  context ← pure (answer (result_map_err RunError.ContextRefused (to_cbor (RunKernel.context kernel))));
  let bounds := if bool_decide (InstanceContext.execution_contract (RunKernel.context kernel) = ExecutionContractId.Field)
    then bulk_couplings limits else bulk limits in
  bytes ← io_map_err RunError.BulkRefused (ValidationInputs.encode
    (ValidationInputs.mk dt context (Buffer.bytes (RunKernel.domain kernel)) (Buffer.bytes (RunKernel.configuration kernel)) (Buffer.bytes entities))
    (RunKernel.context kernel) bounds);
  mret (Buffer.mk VALIDATION_SCHEMA 1 bytes).

(** The moved entities, one by one, against the objects they come from. *)
Fixpoint merge (objects : list ObjectState.t) (dynamic : list DynamicEntity.t) : result RunError.t (list ObjectState.t) :=
  match objects with
  | [] => match dynamic with [] => Ok [] | _ :: _ => Err (RunError.Rejected RunRejection.Objects) end
  | object :: objects =>
    match ObjectState.dynamic object with
    | None => rest ← merge objects dynamic; Ok (object :: rest)
    | Some prior =>
      match dynamic with
      | [] => Err (RunError.Rejected RunRejection.Objects)
      | next :: dynamic =>
        if negb (bool_decide (DynamicEntity.id prior = DynamicEntity.id next))
           || negb (same_scalar (DynamicEntity.inertial_mass_kilograms prior) (DynamicEntity.inertial_mass_kilograms next))
        then Err (RunError.Rejected RunRejection.Objects)
        else
          rest ← merge objects dynamic;
          Ok (ObjectState.mk (ObjectState.id object) (DynamicEntity.kinematics next) (ObjectState.inertial_mass_kilograms object) :: rest)
      end
    end
  end.
Definition merge_dynamics (objects : Batch.t ObjectState.t) (next : Buffer.t) (limits : RunLimits.t) : run_io Buffer.t :=
  dynamics ← pure (batch_in DynamicEntity.t next (bulk limits));
  dynamic ← pure (each dynamics);
  _ ← reserve (RunError.Rejected RunRejection.Limit);
  objects ← pure (each objects);
  records ← pure (answer (merge objects dynamic));
  packet records limits.

(** ** The program is checked (run.rs, [check_program]) *)
Definition charge (total bytes limit : N) : outcome RunError.t N :=
  match checked_add usize_max total bytes with
  | Some n => if (n <=? limit)%N then mret n else reject RunRejection.Limit
  | None => reject RunRejection.Limit
  end.
Definition times (bytes factor : N) : outcome RunError.t N :=
  if (usize_max <? bytes * factor)%N then reject RunRejection.Limit else mret (bytes * factor)%N.

(** The selected contract, the exact inputs and the declared state of a kernel. *)
Definition bound_exactly (binding : RunKernel.t) (expected : ExecutionContractId.t) (state : Buffer.t) : bool :=
  let context := RunKernel.context binding in
  let extent := RunKernel.state_extent binding in
  bool_decide (InstanceContext.execution_contract context = expected)
  && bool_decide (kernel_contract (RunKernel.kernel binding) = expected)
  && bool_decide (kernel_artifact (RunKernel.kernel binding) = InstanceContext.kernel context)
  && InputIdentity.matches (InstanceContext.configuration context) (Buffer.schema (RunKernel.configuration binding))
       (Buffer.value_count (RunKernel.configuration binding)) (Buffer.bytes (RunKernel.configuration binding))
  && InputIdentity.matches (InstanceContext.domain context) (Buffer.schema (RunKernel.domain binding))
       (Buffer.value_count (RunKernel.domain binding)) (Buffer.bytes (RunKernel.domain binding))
  && StateExtent.matches extent state
  && (StateExtent.bytes extent <=? ExecutionBounds.state_bytes (InstanceContext.bounds context))%N
  && bool_decide (SchemaId.as_str (StateExtent.schema extent)
       = PluginName.as_str (StateFormat.id (InstanceContext.state_format context)) +:+ "/v"
         +:+ pretty (StateFormat.version (InstanceContext.state_format context))).
(** What is charged before anything of the binding is hashed or read. *)
Definition charge_inputs (binding : RunKernel.t) (limits : RunLimits.t) (inputs : N) : outcome RunError.t N :=
  inputs ← charge inputs (lenN (Buffer.bytes (RunKernel.configuration binding))) (RunLimits.input_bytes limits);
  charge inputs (lenN (Buffer.bytes (RunKernel.domain binding))) (RunLimits.input_bytes limits).
(** The state of a kernel is kept three times. *)
Definition charge_context (binding : RunKernel.t) (limits : RunLimits.t) (t : Totals.t) (inputs : N) : outcome RunError.t Totals.t :=
  context ← answer (result_map_err RunError.ContextRefused (to_cbor (RunKernel.context binding)));
  inputs ← charge inputs (lenN context) (RunLimits.input_bytes limits);
  bytes ← times (StateExtent.bytes (RunKernel.state_extent binding)) 3;
  scientific ← charge (Totals.scientific t) bytes (RunLimits.scientific_bytes limits);
  mret (Totals.mk inputs scientific (Totals.couplings t) (Totals.contexts t) (Totals.extents t) (Totals.pins t)).
Definition listed (binding : RunKernel.t) (t : Totals.t) : Totals.t :=
  Totals.mk (Totals.inputs t) (Totals.scientific t) (Totals.couplings t)
    (Totals.contexts t ++ [RunKernel.context binding]) (Totals.extents t ++ [RunKernel.state_extent binding]) (Totals.pins t).

(** Every coupling is of a known object, in a declared slot. *)
Fixpoint check_couplings (context : InstanceContext.t) (objects : Batch.t ObjectState.t) (initial : bool) (l : list CoupledEntity.t)
    : outcome RunError.t unit :=
  match l with
  | [] => mret ()
  | c :: l =>
    match find objects (CoupledEntity.id c) with
    | None => None
    | Some None => reject RunRejection.Objects
    | Some (Some object) =>
      if (initial && negb (same_kinematics (CoupledEntity.kinematics c) (ObjectState.kinematics object)))
         || negb (eqb (CoupledEntity.has_dynamics c) (is_some (ObjectState.inertial_mass_kilograms object)))
      then reject RunRejection.Objects
      else
        match declares context c with
        | Some true => check_couplings context objects initial l
        | _ => reject RunRejection.Objects
        end
    end
  end.
Definition check_field (field : RunField.t) (integrator : RunKernel.t) (state : Buffer.t) (objects : Batch.t ObjectState.t)
    (limits : RunLimits.t) (initial : bool) (t : Totals.t) : outcome RunError.t Totals.t :=
  let binding := RunField.binding field in
  let context := RunKernel.context binding in
  inputs ← charge_inputs binding limits (Totals.inputs t);
  if negb (bound_exactly binding ExecutionContractId.Field state)
     || bool_decide (InstanceContext.instance context = InstanceContext.instance (RunKernel.context integrator))
  then reject RunRejection.Definition_
  else
    t ← charge_context binding limits t inputs;
    batch ← batch_in CoupledEntity.t (RunField.coupled field) (bulk_couplings limits);
    couplings ← charge (Totals.couplings t) (Batch.len batch) (RunLimits.couplings limits);
    if (ExecutionBounds.projection_records (InstanceContext.bounds context) <? Batch.len batch)%N then reject RunRejection.Limit
    else
      l ← each batch;
      _ ← check_couplings context objects initial l;
      bytes ← times (lenN (Buffer.bytes (RunField.coupled field))) 3;
      scientific ← charge (Totals.scientific t) bytes (RunLimits.scientific_bytes limits);
      responses ← response_count (RunField.coupled field) limits;
      bytes ← bulk_ok (packet_bytes Force.t responses (bulk limits));
      scientific ← charge scientific bytes (RunLimits.scientific_bytes limits);
      schema ← answer (result_map_err RunError.NameRefused (schema_of (Buffer.schema (RunField.coupled field))));
      let pin := InputIdentity.of_ schema (Buffer.value_count (RunField.coupled field)) (Buffer.bytes (RunField.coupled field)) in
      mret (listed binding (Totals.mk (Totals.inputs t) scientific couplings (Totals.contexts t) (Totals.extents t) (Totals.pins t ++ [pin]))).
Fixpoint check_fields (fields : list RunField.t) (integrator : RunKernel.t) (states : list Buffer.t) (objects : Batch.t ObjectState.t)
    (limits : RunLimits.t) (initial : bool) (t : Totals.t) : outcome RunError.t Totals.t :=
  match fields, states with
  | [], _ => mret t
  | field :: fields, state :: states =>
    t ← check_field field integrator state objects limits initial t;
    check_fields fields integrator states objects limits initial t
  | _ :: _, [] => None
  end.
Definition check_integrator (integrator : RunKernel.t) (history : Buffer.t) (limits : RunLimits.t) (dynamics_count : N) (t : Totals.t)
    : outcome RunError.t Totals.t :=
  inputs ← charge_inputs integrator limits (Totals.inputs t);
  if negb (bound_exactly integrator ExecutionContractId.Dynamics history) then reject RunRejection.Definition_
  else
    t ← charge_context integrator limits t inputs;
    if (ExecutionBounds.projection_records (InstanceContext.bounds (RunKernel.context integrator)) <? dynamics_count)%N
    then reject RunRejection.Limit
    else mret (listed integrator t).
Definition instances (program : RunProgram.t) : list ComponentInstanceId.t :=
  (λ f, InstanceContext.instance (RunKernel.context (RunField.binding f))) <$> RunProgram.fields program.
Definition check_program (program : RunProgram.t) (captured : CapturedRunState.t) (limits : RunLimits.t) (initial : bool)
    : outcome RunError.t Definition_.t :=
  if (RunLimits.fields limits <? lenN (RunProgram.fields program))%N then reject RunRejection.Limit
  else if negb (lenN (RunProgram.fields program) =? lenN (CapturedRunState.fields captured))%N
       || negb (FiniteF64.is_positive (RunProgram.timestep_seconds program)) || negb (ascending (instances program))
  then reject RunRejection.Definition_
  else
    objects ← batch_in ObjectState.t (CapturedRunState.objects captured) (bulk limits);
    bytes ← times (lenN (Buffer.bytes (CapturedRunState.objects captured))) 3;
    scientific ← charge 0 bytes (RunLimits.scientific_bytes limits);
    l ← each objects;
    let dynamics_count := lenN (filter (λ o, is_some (ObjectState.inertial_mass_kilograms o) = true) l) in
    bytes ← bulk_ok (packet_bytes DynamicEntity.t dynamics_count (bulk limits));
    bytes ← times bytes 3;
    scientific ← charge scientific bytes (RunLimits.scientific_bytes limits);
    bytes ← bulk_ok (packet_bytes Force.t dynamics_count (bulk limits));
    bytes ← times bytes 2;
    scientific ← charge scientific bytes (RunLimits.scientific_bytes limits);
    t ← check_fields (RunProgram.fields program) (RunProgram.dynamics program) (CapturedRunState.fields captured) objects limits initial
          (Totals.mk 0 scientific 0 [] [] []);
    t ← check_integrator (RunProgram.dynamics program) (CapturedRunState.history captured) limits dynamics_count t;
    mret (Definition_.mk (Totals.contexts t) (Totals.pins t) (Totals.extents t) (RunProgram.timestep_seconds program)).

(** ** The owner (run.rs, [FixedRun]) *)
Definition failure (r : FixedRun.t) (phase : RunPhase.t) (instance : option ComponentInstanceId.t) : RunFailure.t :=
  RunFailure.mk (RunScope.workload (FixedRun.scope r)) (RunScope.run (FixedRun.scope r)) (RunScope.epoch (FixedRun.scope r))
    (CommittedState.boundary (FixedRun.committed r)) phase instance.
(** [e.context(self.failure(phase, Some(&kernel.context.instance)))]. *)
Definition attributed {A} (r : FixedRun.t) (phase : RunPhase.t) (kernel : RunKernel.t) (m : run_io A) : run_io A :=
  io_map_err (RunError.Attributed (failure r phase (Some (InstanceContext.instance (RunKernel.context kernel))))) m.
(** One call of a field's kernel, of the integrator. *)
Definition call_field (kernel : RunKernel.t) (operation : FieldOperation.t) (control : OperationControl.t) : run_io FieldResult.t :=
  invoke_field_bound (RunKernel.kernel kernel) (RunKernel.context kernel) (RunKernel.configuration kernel) operation control.
Definition call_dynamics (kernel : RunKernel.t) (operation : DynamicsOperation.t) (control : OperationControl.t) : run_io DynamicsResult.t :=
  invoke_dynamics_bound (RunKernel.kernel kernel) (RunKernel.context kernel) (RunKernel.configuration kernel) operation control.

Fixpoint validate_fields (r : FixedRun.t) (phase : RunPhase.t) (control : OperationControl.t) (objects : Batch.t ObjectState.t)
    (fields : list RunField.t) (states : list Buffer.t) : run_io unit :=
  match fields, states with
  | [], _ => mret ()
  | _ :: _, [] => _ ← check control; pure None
  | field :: fields, state :: states =>
    _ ← check control;
    if negb (StateExtent.matches (RunKernel.state_extent (RunField.binding field)) state) then pure (reject RunRejection.Definition_)
    else
      coupled ← coupling_projection field objects (FixedRun.limits r);
      inputs ← validation (RunField.binding field) coupled (RunProgram.timestep_seconds (FixedRun.program r)) (FixedRun.limits r);
      _ ← attributed r phase (RunField.binding field) (call_field (RunField.binding field) (FieldOperation.Validate state inputs) control);
      validate_fields r phase control objects fields states
  end.
Definition validate_state (r : FixedRun.t) (state : CommittedState.t) (phase : RunPhase.t) (control : OperationControl.t) : run_io unit :=
  objects ← pure (batch_in ObjectState.t (CommittedState.objects state) (bulk (FixedRun.limits r)));
  _ ← validate_fields r phase control objects (RunProgram.fields (FixedRun.program r)) (CommittedState.fields state);
  let integrator := RunProgram.dynamics (FixedRun.program r) in
  if negb (StateExtent.matches (RunKernel.state_extent integrator) (CommittedState.history state)) then pure (reject RunRejection.Definition_)
  else
    dynamics ← dynamic_projection objects (FixedRun.limits r);
    inputs ← validation integrator dynamics (RunProgram.timestep_seconds (FixedRun.program r)) (FixedRun.limits r);
    _ ← attributed r phase integrator (call_dynamics integrator (DynamicsOperation.Validate (CommittedState.history state) inputs) control);
    mret ().

Definition from_captured (scope : RunScope.t) (program : RunProgram.t) (captured : CapturedRunState.t) (limits : RunLimits.t)
    (control : OperationControl.t) : run_io FixedRun.t :=
  definition ← pure (check_program program captured limits true);
  field_identities ← field_identities (CapturedRunState.fields captured);
  let run := FixedRun.mk scope program definition limits
    (CommittedState.mk 0 FiniteF64.ZERO (CapturedRunState.objects captured) (CapturedRunState.fields captured) field_identities
      (CapturedRunState.history captured) None)
    1 false (instances program) (SnapshotBudget.new (RunLimits.snapshots limits) (RunLimits.snapshot_bytes limits)) in
  _ ← validate_state run (FixedRun.committed run) RunPhase.Admission control;
  _ ← check control;
  mret run.

(** ** One step *)
Definition step_context (r : FixedRun.t) (invocation : N) : result RunError.t StepContext.t :=
  let time := FiniteF64.get (CommittedState.time (FixedRun.committed r)) in
  let dt := FiniteF64.get (RunProgram.timestep_seconds (FixedRun.program r)) in
  let next := F64.add time dt in
  if (CommittedState.boundary (FixedRun.committed r) =? u64_max)%N || negb (F64.is_finite next) || F64.leb next time
  then Err (RunError.Rejected RunRejection.Time)
  else Ok (StepContext.mk (ArtifactDigest.to_string (WorkloadDigest.digest (RunScope.workload (FixedRun.scope r))))
             (ArtifactDigest.to_string (RunScope.run (FixedRun.scope r))) (RunScope.epoch (FixedRun.scope r))
             (CommittedState.boundary (FixedRun.committed r)) invocation "whole" "whole" time dt).

(** What the fields return: the projections they were given, the forces, the
    states. *)
Fixpoint compute_fields (r : FixedRun.t) (step : StepContext.t) (control : OperationControl.t) (objects : Batch.t ObjectState.t)
    (fields : list RunField.t) (states : list Buffer.t) : run_io (list (Buffer.t * Buffer.t * Buffer.t)) :=
  match fields with
  | [] => mret []
  | field :: fields =>
    let kernel := RunField.binding field in
    _ ← check control;
    projection ← coupling_projection field objects (FixedRun.limits r);
    count ← pure (response_count projection (FixedRun.limits r));
    inputs ← validation kernel projection (RunProgram.timestep_seconds (FixedRun.program r)) (FixedRun.limits r);
    match states with
    | [] => pure None
    | prior :: states =>
      extent ← pure (packet_extent Force.t count (FixedRun.limits r));
      result ← attributed r RunPhase.Field kernel (call_field kernel
        (FieldOperation.Advance step prior projection inputs (StateExtent.borrowed (RunKernel.state_extent kernel)) extent) control);
      match result with
      | FieldResult.Advanced field force =>
        rest ← compute_fields r step control objects fields states;
        mret ((projection, force, field) :: rest)
      | _ => pure (reject RunRejection.Definition_)
      end
    end
  end.
(** [couplings.len() as u32]. *)
Fixpoint views (r : FixedRun.t) (fields : list RunField.t) (computed : list (Buffer.t * Buffer.t * Buffer.t))
    : outcome RunError.t (list FieldForces.t) :=
  match fields, computed with
  | [], _ => mret []
  | _ :: _, [] => None
  | field :: fields, (projection, force, _) :: computed =>
    let context := RunKernel.context (RunField.binding field) in
    coupled ← batch_in CoupledEntity.t projection (bulk_couplings (FixedRun.limits r));
    forces ← batch_in Force.t force (bulk (FixedRun.limits r));
    rest ← views r fields computed;
    mret (FieldForces.mk (InstanceContext.instance context) (lenN (InstanceContext.couplings context) mod 2 ^ 32) coupled forces :: rest)
  end.
Definition candidate (r : FixedRun.t) (step : StepContext.t) (control : OperationControl.t) : run_io CommittedState.t :=
  let committed := FixedRun.committed r in
  let limits := FixedRun.limits r in
  let integrator := RunProgram.dynamics (FixedRun.program r) in
  objects ← pure (batch_in ObjectState.t (CommittedState.objects committed) (bulk limits));
  dynamics ← dynamic_projection objects limits;
  _ ← reserve (RunError.Rejected RunRejection.Limit);
  _ ← reserve (RunError.Rejected RunRejection.Limit);
  _ ← reserve (RunError.Rejected RunRejection.Limit);
  computed ← compute_fields r step control objects (RunProgram.fields (FixedRun.program r)) (CommittedState.fields committed);
  dynamic_batch ← pure (batch_in DynamicEntity.t dynamics (bulk limits));
  views ← pure (views r (RunProgram.fields (FixedRun.program r)) computed);
  field_records ← pure (times (RunLimits.couplings limits) 2);
  reduced ← io_map_err (λ e, RunError.Attributed (failure r RunPhase.Reduction None) (RunError.ReductionRefused e))
    (reduce dynamic_batch (FixedRun.selected r) views
      (ReductionLimits.mk (RunLimits.fields limits) (RunLimits.objects limits) field_records));
  net ← packet reduced limits;
  inputs ← validation integrator dynamics (RunProgram.timestep_seconds (FixedRun.program r)) limits;
  extent ← pure (packet_extent DynamicEntity.t (Batch.len dynamic_batch) limits);
  result ← attributed r RunPhase.Dynamics integrator (call_dynamics integrator
    (DynamicsOperation.Integrate step dynamics net (CommittedState.history committed) inputs extent
      (StateExtent.borrowed (RunKernel.state_extent integrator))) control);
  match result with
  | DynamicsResult.Integrated entities history =>
    next_objects ← attributed r RunPhase.Validation integrator (merge_dynamics objects entities limits);
    identities ← field_identities (snd <$> computed);
    time ← pure (answer (result_map_err RunError.FloatRefused (FiniteF64.new (F64.add (StepContext.time_seconds step) (StepContext.dt_seconds step)))));
    let next := CommittedState.mk (StepContext.boundary step + 1) time next_objects (snd <$> computed) identities history (Some net) in
    _ ← validate_state r next RunPhase.Validation control;
    mret next
  | _ => pure (reject RunRejection.Definition_)
  end.

(** Everything of a step that can be refused; the gate is asked last. *)
Definition attempt (r : FixedRun.t) (invocation : N) (control : OperationControl.t)
    (commit : RunScope.t → CommittedState.t → run_io unit) : run_io CommittedState.t :=
  step ← pure (answer (step_context r invocation));
  next ← candidate r step control;
  _ ← check control;
  _ ← io_map_err (RunError.Attributed (failure r RunPhase.Publication None)) (commit (FixedRun.scope r) next);
  mret next.
(** [&mut self]: what the owner is afterwards, with the answer. *)
Definition advance_with_commit (r : FixedRun.t) (control : OperationControl.t) (commit : RunScope.t → CommittedState.t → run_io unit)
    (w : W) : option (result RunError.t unit * FixedRun.t * W) :=
  if FixedRun.stopped r then Some (Err (RunError.Rejected RunRejection.Stopped), r, w)
  else
    match check control w with
    | None => None
    | Some (Err e, w) => Some (Err e, r, w)
    | Some (Ok (), w) =>
      match checked_add u64_max (FixedRun.next_invocation r) 1 with
      | None => Some (Err (RunError.Rejected RunRejection.Time), r, w)
      | Some next_invocation =>
        let invocation := FixedRun.next_invocation r in
        let r := FixedRun.set_next_invocation r next_invocation in
        match attempt r invocation control commit w with
        | None => None
        | Some (Err e, w) => Some (Err e, r, w)
        | Some (Ok next, w) => Some (Ok (), FixedRun.set_committed r next, w)
        end
      end
    end.
Definition advance (r : FixedRun.t) (control : OperationControl.t) : W → option (result RunError.t unit * FixedRun.t * W) :=
  advance_with_commit r control (λ _ _, mret ()).

(** ** Checkpoints *)
Fixpoint checkpoint_fields (r : FixedRun.t) (control : OperationControl.t) (fields : list RunField.t) (states : list Buffer.t)
    : run_io (list Buffer.t) :=
  match fields, states with
  | [], states => mret states
  | _ :: _, [] => pure None
  | field :: fields, state :: states =>
    let kernel := RunField.binding field in
    output ← attributed r RunPhase.Checkpoint kernel (call_field kernel
      (FieldOperation.Checkpoint state (StateExtent.borrowed (RunKernel.state_extent kernel))) control);
    match output with
    | FieldResult.State buffer => rest ← checkpoint_fields r control fields states; mret (buffer :: rest)
    | _ => pure (reject RunRejection.Definition_)
    end
  end.
Definition checkpoint (r : FixedRun.t) (control : OperationControl.t) : run_io RunCheckpoint.t :=
  let committed := FixedRun.committed r in
  let integrator := RunProgram.dynamics (FixedRun.program r) in
  fields ← checkpoint_fields r control (RunProgram.fields (FixedRun.program r)) (CommittedState.fields committed);
  output ← attributed r RunPhase.Checkpoint integrator (call_dynamics integrator
    (DynamicsOperation.Checkpoint (CommittedState.history committed) (StateExtent.borrowed (RunKernel.state_extent integrator))) control);
  match output with
  | DynamicsResult.History history =>
    identities ← field_identities fields;
    let state := CommittedState.mk (CommittedState.boundary committed) (CommittedState.time committed) (CommittedState.objects committed)
      fields identities history (CommittedState.forces committed) in
    _ ← validate_state r state RunPhase.Checkpoint control;
    _ ← check control;
    mret (RunCheckpoint.mk (FixedRun.scope r) (FixedRun.definition r) state (FixedRun.next_invocation r))
  | _ => pure (reject RunRejection.Definition_)
  end.

Fixpoint restore_fields (r : FixedRun.t) (control : OperationControl.t) (objects : Batch.t ObjectState.t)
    (fields : list RunField.t) (states : list Buffer.t) : run_io (list Buffer.t) :=
  match fields with
  | [] => mret []
  | field :: fields =>
    let kernel := RunField.binding field in
    coupled ← coupling_projection field objects (FixedRun.limits r);
    match states with
    | [] => pure None
    | state :: states =>
      inputs ← validation kernel coupled (RunProgram.timestep_seconds (FixedRun.program r)) (FixedRun.limits r);
      output ← attributed r RunPhase.Restore kernel (call_field kernel
        (FieldOperation.Restore state inputs (StateExtent.borrowed (RunKernel.state_extent kernel))) control);
      match output with
      | FieldResult.State buffer => rest ← restore_fields r control objects fields states; mret (buffer :: rest)
      | _ => pure (reject RunRejection.Definition_)
      end
    end
  end.
Definition restore (scope : RunScope.t) (program : RunProgram.t) (c : RunCheckpoint.t) (limits : RunLimits.t)
    (control : OperationControl.t) : run_io FixedRun.t :=
  let kept := RunCheckpoint.state c in
  definition ← pure (check_program program
    (CapturedRunState.mk (CommittedState.objects kept) (CommittedState.fields kept) (CommittedState.history kept)) limits false);
  if negb (bool_decide (RunCheckpoint.scope c = scope)) || negb (Definition_.same (RunCheckpoint.definition c) definition)
  then pure (reject RunRejection.Checkpoint)
  else
    let run := FixedRun.mk scope program (RunCheckpoint.definition c) limits kept (RunCheckpoint.next_invocation c) false (instances program)
      (SnapshotBudget.new (RunLimits.snapshots limits) (RunLimits.snapshot_bytes limits)) in
    objects ← pure (batch_in ObjectState.t (CommittedState.objects kept) (bulk limits));
    _ ← reserve (RunError.Rejected RunRejection.Limit);
    fields ← restore_fields run control objects (RunProgram.fields program) (CommittedState.fields kept);
    let integrator := RunProgram.dynamics program in
    dynamics ← dynamic_projection objects limits;
    inputs ← validation integrator dynamics (RunProgram.timestep_seconds program) limits;
    output ← attributed run RunPhase.Restore integrator (call_dynamics integrator
      (DynamicsOperation.Restore (CommittedState.history kept) inputs (StateExtent.borrowed (RunKernel.state_extent integrator))) control);
    match output with
    | DynamicsResult.History history =>
      identities ← field_identities fields;
      let run := FixedRun.set_committed run (CommittedState.mk (CommittedState.boundary kept) (CommittedState.time kept)
        (CommittedState.objects kept) fields identities history (CommittedState.forces kept)) in
      _ ← validate_state run (FixedRun.committed run) RunPhase.Restore control;
      _ ← check control;
      mret run
    | _ => pure (reject RunRejection.Definition_)
    end.

(** ** Observers *)
Definition observation_source (r : FixedRun.t) : SnapshotSource.t :=
  SnapshotSource.Committed (RunScope.workload (FixedRun.scope r)) (RunScope.run (FixedRun.scope r)) (RunScope.epoch (FixedRun.scope r))
    (CommittedState.boundary (FixedRun.committed r)) (CommittedState.time (FixedRun.committed r)).
Definition acquire_objects (r : FixedRun.t) (contended : bool) : result RunError.t (ObjectSnapshot.t * FixedRun.t) :=
  let state := FixedRun.committed r in
  let forces := match CommittedState.forces state with Some forces => lenN (Buffer.bytes forces) | None => 0%N end in
  match checked_add usize_max (lenN (Buffer.bytes (CommittedState.objects state))) forces with
  | None => Err (RunError.Rejected RunRejection.Limit)
  | Some bytes =>
    budget ← result_map_err RunError.Rejected (SnapshotBudget.reserve contended bytes (FixedRun.snapshots r));
    Ok (ObjectSnapshot.mk (observation_source r) (CommittedState.objects state) (CommittedState.forces state) bytes,
        FixedRun.set_snapshots r budget)
  end.
(** [selected] ascends, where a binary search finds the one position. A context
    that cannot be written gives its lease back. *)
Definition acquire_field (r : FixedRun.t) (contended : bool) (instance : ComponentInstanceId.t)
    : outcome RunError.t (FieldSnapshot.t * FixedRun.t) :=
  match fst <$> list_find (λ i, i = instance) (FixedRun.selected r) with
  | None => reject RunRejection.Definition_
  | Some index =>
    match RunProgram.fields (FixedRun.program r) !! index, CommittedState.fields (FixedRun.committed r) !! index,
          CommittedState.field_identities (FixedRun.committed r) !! index with
    | Some field, Some state, Some identity =>
      let binding := RunField.binding field in
      budget ← answer (result_map_err RunError.Rejected
        (SnapshotBudget.reserve contended (lenN (Buffer.bytes state)) (FixedRun.snapshots r)));
      context ← answer (result_map_err RunError.ContextRefused (to_cbor (RunKernel.context binding)));
      mret (FieldSnapshot.mk (RunKernel.kernel binding) (RunKernel.context binding) (ArtifactDigest.sha256_of context)
              (RunKernel.configuration binding) state (SampleSnapshot.mk (observation_source r) identity) (lenN (Buffer.bytes state)),
            FixedRun.set_snapshots r budget)
    | _, _, _ => None
    end
  end.
(** A snapshot is dropped. *)
Definition drop_lease (lease : N) (r : FixedRun.t) : option FixedRun.t :=
  FixedRun.set_snapshots r <$> SnapshotBudget.release lease (FixedRun.snapshots r).
End run.
