(* ===== verification/Stepping.v ===== *)
(** * What a run keeps (crate [orishu-runtime], run.rs)

    Whatever kernels, clocks and observers do, a run is replaced only by a whole
    validated step: what a step leaves of the objects, what an integrator was
    given, what a refused step changes, what a checkpoint resumes, and what
    observers may hold. *)

From Stdlib Require Import Ascii Floats.SpecFloat.
From stdpp Require Import base gmap strings list sorting relations.
From S2P Require Import Prelude Identity Binary64 Quantity Workload Cbor Codec Packet Reduction Run.
From S2P Require Antientropy PluginIds.

(** ** Computations that return *)
Section io.
Context {W E : Type}.
Lemma io_bind_ok {A B} (m : io W E A) (f : A → io W E B) w b w' :
  (m ≫= f) w = Some (Ok b, w') ↔ ∃ a w1, m w = Some (Ok a, w1) ∧ f a w1 = Some (Ok b, w').
Proof.
  unfold mbind, io_bind. destruct (m w) as [[[a|e] w1]|].
  - split; [intros H; by exists a, w1|by intros (? & ? & [= <- <-] & H)].
  - split; [done|by intros (? & ? & ? & _)].
  - split; [done|by intros (? & ? & ? & _)].
Qed.
Lemma io_ret_ok {A} (a b : A) (w w' : W) : (mret a : io W E A) w = Some (Ok b, w') ↔ b = a ∧ w' = w.
Proof. unfold mret, io_ret. split; [by intros [= <- <-]|by intros [-> ->]]. Qed.
Lemma pure_ok {A} (m : outcome E A) (a : A) (w w' : W) : pure m w = Some (Ok a, w') ↔ m = Some (Ok a) ∧ w' = w.
Proof. unfold pure. destruct m as [r|]; split; [by intros [= -> <-]|by intros [[= ->] ->]|done|by intros []]. Qed.
Lemma io_map_err_ok {A F} (f : E → F) (m : io W E A) a w w' : io_map_err f m w = Some (Ok a, w') ↔ m w = Some (Ok a, w').
Proof. unfold io_map_err. destruct (m w) as [[[x|e] w1]|]; cbn; split; try done; by intros [= <- <-]. Qed.
Lemma reserve_ok `{Allocator W} (refusal : E) a (w w' : W) : reserve refusal w = Some (Ok a, w') → try_reserve w = (true, w').
Proof. unfold reserve. destruct (try_reserve w) as [[] w1]; [by intros [= _ <-]|done]. Qed.
End io.
Lemma answer_ok {E A} (r : result E A) a : answer r = Some (Ok a) ↔ r = Ok a.
Proof. unfold answer. split; [by intros [=]|by intros ->]. Qed.
Lemma map_err_ok {E F A} (f : E → F) (r : result E A) a : result_map_err f r = Ok a ↔ r = Ok a.
Proof. destruct r; cbn; split; try done; by intros [= ->]. Qed.

(** One bind of a hypothesis, and all of what it says when it is simple. *)
Ltac bind_as H a w1 Ha := apply io_bind_ok in H as (a & w1 & Ha & H).
Ltac pure_in H := apply pure_ok in H as [H ->].

(** ** Envelopes *)
Section envelopes.
Implicit Types (l : bytes) (i : ValidationInputs.t).
Definition envelope (i : ValidationInputs.t) : bytes :=
  bytes_of "OSV1" ++ to_le_bytes 8 (f64_to_bits (FiniteF64.get (ValidationInputs.timestep_seconds i)))
  ++ (ValidationInputs.parts i ≫= λ part, to_le_bytes 4 (lenN part mod 2 ^ 32)) ++ concat (ValidationInputs.parts i).
Lemma total_ok limit parts : ∀ size n, ValidationInputs.total limit size parts = Ok n ↔
  Forall (λ part, (lenN part ≤ u32_max)%N) parts ∧ n = (size + lenN (concat parts))%N ∧ (parts = [] ∨ (n ≤ limit ∧ n ≤ usize_max)%N).
Proof.
  induction parts as [|p parts IH]; intros size n; cbn [ValidationInputs.total concat].
  { split; [intros [= ->]; split; [apply Forall_nil; exact I|split; [by rewrite N.add_0_r|by left]]|]. intros (_ & -> & _). cbn. by rewrite N.add_0_r. }
  rewrite lenN_app. unfold checked_add. split.
  - destruct (_ <? _)%N eqn:E1; [done|]. apply N.ltb_ge in E1. destruct (_ <=? usize_max)%N eqn:E2; [|done]. apply N.leb_le in E2.
    destruct (_ <=? limit)%N eqn:E3; [|done]. apply N.leb_le in E3. intros (Hf & -> & Hb)%IH. split; [by constructor|].
    split; [lia|]. right. destruct Hb as [->|Hb]; [change (lenN (concat [])) with 0%N; lia|lia].
  - intros (Hf & -> & [|Hb]); [done|]. inversion Hf as [|? ? Hp Hf']; subst.
    rewrite (proj2 (N.ltb_ge _ _)) by done. rewrite !(proj2 (N.leb_le _ _)) by lia. apply IH. split; [done|]. split; [lia|]. right. lia.
Qed.
Lemma encoded_bytes_ok i limits n : ValidationInputs.encoded_bytes i limits = Ok n ↔
  FiniteF64.is_positive (ValidationInputs.timestep_seconds i) = true ∧ Forall (λ part, (lenN part ≤ u32_max)%N) (ValidationInputs.parts i)
  ∧ n = (28 + lenN (concat (ValidationInputs.parts i)))%N ∧ (n ≤ BulkLimits.bytes limits)%N ∧ (n ≤ usize_max)%N.
Proof.
  unfold ValidationInputs.encoded_bytes. destruct (FiniteF64.is_positive _); cbn [negb]; [|by split; [|intros []]].
  rewrite total_ok. unfold VALIDATION_HEADER_BYTES. split; [intros (? & ? & [|[]])|intros (_ & ? & ? & ? & ?)]; [done|done|]. split_and!; [done|done|by right].
Qed.
Lemma cut_ok l offsets : ∀ cursor parts stop, (cursor ≤ lenN l)%N → ValidationInputs.cut l offsets cursor = Ok (parts, stop) →
  Forall2 (λ o part, from_le_bytes (slice o (o + 4) l) = lenN part) offsets parts
  ∧ slice (N.to_nat cursor) (N.to_nat stop) l = concat parts ∧ stop = (cursor + lenN (concat parts))%N ∧ (stop ≤ lenN l)%N
  ∧ (offsets = [] ∨ (stop ≤ usize_max)%N).
Proof.
  induction offsets as [|o offsets IH]; intros cursor parts stop Hc; cbn [ValidationInputs.cut].
  { intros [= <- <-]. split_and!; [constructor| |by rewrite N.add_0_r|done|by left]. unfold slice. by rewrite Nat.sub_diag. }
  unfold checked_add. set (n := from_le_bytes _). destruct (_ <=? usize_max)%N eqn:E1; [apply N.leb_le in E1|done].
  destruct (_ <? _)%N eqn:E2; [done|apply N.ltb_ge in E2].
  intros ([parts' stop'] & Hcut & [= <- <-])%result_bind_ok. apply IH in Hcut as (Hall & Hslice & -> & Hle & Hmax); [|done].
  assert (lenN (slice (N.to_nat cursor) (N.to_nat (cursor + n)) l) = n) as Hlen.
  { unfold lenN in *. rewrite slice_length by lia. lia. }
  cbn [concat]. rewrite lenN_app, Hlen. split_and!; [by constructor| |lia|done|].
  - rewrite <-(slice_join _ (N.to_nat (cursor + n)) _ l) by lia. f_equal. exact Hslice.
  - right. destruct Hmax as [->|]; [|done]. inversion Hall; subst. change (lenN (concat [])) with 0%N. lia.
Qed.
Lemma cut_back l offsets : ∀ cursor parts, (cursor + lenN (concat parts) ≤ lenN l)%N → (lenN l ≤ usize_max)%N →
  Forall2 (λ o part, from_le_bytes (slice o (o + 4) l) = lenN part) offsets parts →
  slice (N.to_nat cursor) (N.to_nat (cursor + lenN (concat parts))) l = concat parts →
  ValidationInputs.cut l offsets cursor = Ok (parts, (cursor + lenN (concat parts))%N).
Proof.
  induction offsets as [|o offsets IH]; intros cursor parts Hle Hmax Hall Hslice; inversion Hall as [|? part ? parts' Hlen Hall']; subst; cbn [ValidationInputs.cut].
  { cbn. by rewrite N.add_0_r. }
  cbn [concat] in *. rewrite lenN_app in *. rewrite Hlen. unfold checked_add. rewrite (proj2 (N.leb_le _ _)) by lia.
  rewrite (proj2 (N.ltb_ge _ _)) by lia. rewrite <-(slice_join _ (N.to_nat (cursor + lenN part))) in Hslice by lia.
  apply app_inj_1 in Hslice as [Hfst Hsnd]; [|rewrite slice_length by (unfold lenN in *; lia); unfold lenN; lia].
  rewrite N.add_assoc in Hsnd. rewrite (IH (cursor + lenN part)%N parts') by (done || lia).
  unfold mbind, result_bind. rewrite Hfst. do 2 f_equal. lia.
Qed.
Lemma positive_scalar l dt : length l = 8 →
  FiniteF64.is_positive dt = true → FiniteF64.new (f64_from_bits (from_le_bytes l)) = Ok dt ↔ canonical_float dt = true ∧ l = to_le_bytes 8 (f64_to_bits (FiniteF64.get dt)).
Proof.
  intros Hlen Hpos. rewrite <-read_scalar_ok. unfold read_scalar. rewrite Hlen. cbn [negb Nat.eqb].
  destruct (_ =? _)%N eqn:Hz; [apply N.eqb_eq in Hz as ->; split; [|done]|].
  - assert (f64_from_bits (N.shiftl 1 63) = S754_zero true) as -> by (vm_compute; reflexivity). intros [= <-]. by vm_compute in Hpos.
  - by rewrite map_err_ok.
Qed.
Lemma lengths_length (f : bytes → N) (parts : list bytes) : length (parts ≫= λ part, to_le_bytes 4 (f part)) = 4 * length parts.
Proof.
  induction parts as [|p parts IH]; [done|]. change ((p :: parts) ≫= ?g) with (g p ++ (parts ≫= g)). cbv beta.
  rewrite length_app, IH, to_le_bytes_length. cbn [length]. lia.
Qed.
Lemma envelope_length i : length (envelope i) = 28 + length (concat (ValidationInputs.parts i)).
Proof. unfold envelope. rewrite !length_app, lengths_length, to_le_bytes_length. reflexivity. Qed.
Lemma slice_at (x y z : bytes) n m : length x = n → m = n + length y → slice n m (x ++ y ++ z) = y.
Proof.
  intros <- ->. rewrite slice_skip by done. replace (length x + length y - length x) with (length y) by lia. rewrite Nat.sub_diag.
  rewrite slice_here by done. by apply slice_all.
Qed.
(** The fixed places of an envelope. *)
Lemma frame_parts (a b c d e f p : bytes) :
  length a = 4 → length b = 8 → length c = 4 → length d = 4 → length e = 4 → length f = 4 →
  let l := a ++ b ++ c ++ d ++ e ++ f ++ p in
  slice 0 4 l = a ∧ slice 4 12 l = b ∧ slice 12 16 l = c ∧ slice 16 20 l = d ∧ slice 20 24 l = e ∧ slice 24 28 l = f
  ∧ slice 28 (28 + length p) l = p ∧ length l = 28 + length p.
Proof.
  intros Ha Hb Hc Hd He Hf l. unfold l. split_and!.
  - apply (slice_at [] a); [done|by rewrite Ha].
  - apply (slice_at a b); [done|by rewrite Hb].
  - rewrite (app_assoc a). apply (slice_at (a ++ b) c); [by rewrite length_app, Ha, Hb|by rewrite Hc].
  - rewrite (app_assoc a), (app_assoc _ c). apply (slice_at _ d); [by rewrite !length_app, Ha, Hb, Hc|by rewrite Hd].
  - rewrite (app_assoc a), (app_assoc _ c), (app_assoc _ d). apply (slice_at _ e); [by rewrite !length_app, Ha, Hb, Hc, Hd|by rewrite He].
  - rewrite (app_assoc a), (app_assoc _ c), (app_assoc _ d), (app_assoc _ e).
    apply (slice_at _ f); [by rewrite !length_app, Ha, Hb, Hc, Hd, He|by rewrite Hf].
  - replace (a ++ b ++ c ++ d ++ e ++ f ++ p) with ((a ++ b ++ c ++ d ++ e ++ f) ++ p ++ []) by (by rewrite app_nil_r, <-!app_assoc).
    apply slice_at; [rewrite !length_app; lia|done].
  - rewrite !length_app. lia.
Qed.
Lemma frame_whole l : 28 ≤ length l →
  l = slice 0 4 l ++ slice 4 12 l ++ slice 12 16 l ++ slice 16 20 l ++ slice 20 24 l ++ slice 24 28 l ++ slice 28 (length l) l.
Proof. intros Hl. rewrite !slice_join by lia. symmetry. by apply slice_all. Qed.
Lemma length_bytes_ok (l : bytes) (n : N) : length l = 4 → from_le_bytes l = n ↔ (n < 2 ^ 32)%N ∧ l = to_le_bytes 4 (n mod 2 ^ 32).
Proof.
  intros Hl. split.
  - intros <-. pose proof (from_le_bytes_lt l) as Hlt. unfold lenN in Hlt. rewrite Hl in Hlt. change (256 ^ N.of_nat 4)%N with (2 ^ 32)%N in Hlt.
    split; [done|]. rewrite N.mod_small by done. by rewrite to_from_le_bytes.
  - intros [Hn ->]. rewrite N.mod_small by done. by apply from_to_le_bytes.
Qed.
Lemma framed_read l limits i : ValidationInputs.framed l limits = Ok i →
  canonical_float (ValidationInputs.timestep_seconds i) = true ∧ ValidationInputs.encoded_bytes i limits = Ok (lenN l) ∧ l = envelope i.
Proof.
  rewrite encoded_bytes_ok. unfold ValidationInputs.framed, VALIDATION_HEADER_BYTES.
  destruct (_ <? lenN l)%N eqn:E1; [done|apply N.ltb_ge in E1]. destruct (_ <? 28)%N eqn:E2; [done|apply N.ltb_ge in E2].
  destruct (bool_decide _) eqn:E3; [apply bool_decide_eq_true in E3|done]. cbn [negb orb].
  intros (dt & Hdt%map_err_ok & Hr)%result_bind_ok. destruct (FiniteF64.is_positive dt) eqn:Hpos; [cbn [negb] in Hr|done].
  apply result_bind_ok in Hr as ([parts cursor] & Hcut & Hr). destruct (cursor =? lenN l)%N eqn:Hc; [apply N.eqb_eq in Hc as ->|done].
  assert (28 ≤ length l) as Hlen by (unfold lenN in E2; lia).
  apply positive_scalar in Hdt as [Hcan Hbytes]; [|by rewrite slice_length by lia|done].
  apply cut_ok in Hcut as (Hall & Hconcat & Hsum & _ & Hmax); [|done]. destruct Hmax as [|Hmax]; [done|].
  destruct parts as [|p0 [|p1 [|p2 [|p3 [|]]]]]; try done. apply Forall2_cons in Hall as [H12 Hall]. apply Forall2_cons in Hall as [H16 Hall].
  apply Forall2_cons in Hall as [H20 Hall]. apply Forall2_cons in Hall as [H24 _]. cbn [Nat.add] in *. injection Hr as <-.
  apply length_bytes_ok in H12 as [Hn0 H12], H16 as [Hn1 H16], H20 as [Hn2 H20], H24 as [Hn3 H24]; [|by rewrite slice_length by lia..].
  split; [done|]. split; [split_and!; [done| |done|done|done]|].
  - unfold ValidationInputs.parts, u32_max. repeat constructor; cbn -[N.pow]; lia.
  - unfold envelope, ValidationInputs.parts. cbn [mbind list_bind ValidationInputs.timestep_seconds ValidationInputs.context
      ValidationInputs.domain ValidationInputs.configuration ValidationInputs.entities].
    rewrite app_nil_r, <-!app_assoc, <-E3, <-Hbytes, <-H12, <-H16, <-H20, <-H24, <-Hconcat.
    replace (N.to_nat (lenN l)) with (length l) by (unfold lenN; lia). by apply frame_whole.
Qed.
Lemma framed_back l limits i : canonical_float (ValidationInputs.timestep_seconds i) = true →
  ValidationInputs.encoded_bytes i limits = Ok (lenN l) → l = envelope i → ValidationInputs.framed l limits = Ok i.
Proof.
  rewrite encoded_bytes_ok. unfold ValidationInputs.framed, VALIDATION_HEADER_BYTES.
  intros Hcan (Hpos & Hshort & Hsize & Hlim & Hmax) ->. destruct i as [dt p0 p1 p2 p3].
  unfold ValidationInputs.parts in *. cbn [ValidationInputs.timestep_seconds ValidationInputs.context
    ValidationInputs.domain ValidationInputs.configuration ValidationInputs.entities] in *.
  apply Forall_cons in Hshort as [Hp0 Hshort]. apply Forall_cons in Hshort as [Hp1 Hshort]. apply Forall_cons in Hshort as [Hp2 Hshort].
  apply Forall_cons in Hshort as [Hp3 _].
  set (len (p : bytes) := to_le_bytes 4 (lenN p mod 2 ^ 32)).
  assert (envelope (ValidationInputs.mk dt p0 p1 p2 p3) = bytes_of "OSV1" ++ to_le_bytes 8 (f64_to_bits (FiniteF64.get dt)) ++ len p0 ++ len p1
    ++ len p2 ++ len p3 ++ concat [p0; p1; p2; p3]) as Henv.
  { unfold envelope, ValidationInputs.parts, len. cbn [mbind list_bind]. by rewrite app_nil_r, <-!app_assoc. }
  assert (∀ p : bytes, length (len p) = 4) as Hlen by (intros p; apply to_le_bytes_length).
  destruct (frame_parts (bytes_of "OSV1") (to_le_bytes 8 (f64_to_bits (FiniteF64.get dt))) (len p0) (len p1) (len p2) (len p3)
    (concat [p0; p1; p2; p3])) as (H0 & H4 & H12 & H16 & H20 & H24 & H28 & Hall); [done|apply to_le_bytes_length|done..|].
  rewrite <-Henv in H0, H4, H12, H16, H20, H24, H28, Hall. set (l := envelope _) in *. clearbody l.
  assert (∀ p : bytes, (lenN p ≤ u32_max)%N → from_le_bytes (len p) = lenN p) as Hback.
  { intros p Hp. apply length_bytes_ok; [done|]. split; [|done]. unfold u32_max in Hp. lia. }
  rewrite (proj2 (N.ltb_ge _ _)) by done. rewrite (proj2 (N.ltb_ge _ _)) by (unfold lenN; lia). rewrite H0, bool_decide_true by done. cbn [negb orb].
  rewrite (proj2 (map_err_ok _ _ dt)) by (apply positive_scalar; [by rewrite H4, to_le_bytes_length|done|by rewrite H4]).
  unfold mbind at 1, result_bind at 1. rewrite Hpos. cbn [negb].
  rewrite (cut_back l _ 28 [p0; p1; p2; p3]); [|lia|lia| |].
  - unfold mbind at 1, result_bind at 1. rewrite <-Hsize, N.eqb_refl. done.
  - repeat constructor; cbn [Nat.add]; rewrite ?H12, ?H16, ?H20, ?H24; by apply Hback.
  - rewrite <-Hsize. replace (N.to_nat (lenN l)) with (28 + length (concat [p0; p1; p2; p3])) by (unfold lenN; lia). exact H28.
Qed.
(** What is read as an envelope is what is written as one. *)
Lemma framed_ok l limits i : ValidationInputs.framed l limits = Ok i ↔
  canonical_float (ValidationInputs.timestep_seconds i) = true ∧ ValidationInputs.encoded_bytes i limits = Ok (lenN l) ∧ l = envelope i.
Proof. split; [apply framed_read|]. intros (? & ? & ?). by apply framed_back. Qed.
End envelopes.

(** ** What a buffer carries *)
Section carries.
Context `{RecordLaws R}.
Definition carries (b : Buffer.t) (records : list R) : Prop :=
  Buffer.schema b = SCHEMA R ∧ Buffer.value_count b = lenN records ∧ Buffer.bytes b = packet_of records
  ∧ Forall machine records ∧ check_records None records = Ok () ∧ (lenN records ≤ u32_max)%N.
(** Written as a packet, whatever its numbers are. *)
Definition spells (b : Buffer.t) (records : list R) : Prop :=
  Buffer.schema b = SCHEMA R ∧ Buffer.value_count b = lenN records ∧ Buffer.bytes b = packet_of records ∧ check_records None records = Ok ().
Lemma carries_holds b records : carries b records → holds (Batch.mk (packet_of records) (lenN records)) records.
Proof. by intros (_ & _ & _ & Hm & Hc & Hn). Qed.
Lemma carries_read b records batch limits : carries b records → scientific_batch R b limits = Ok batch → holds batch records.
Proof.
  intros (Hs & Hv & Hb & Hm & Hc & Hn) Hr. unfold scientific_batch in Hr. rewrite Hs, bool_decide_true in Hr by done. cbn [negb] in Hr.
  apply result_bind_ok in Hr as (batch' & Hread%map_err_ok & Hr). destruct (_ =? _)%N; [|done]. injection Hr as ->.
  rewrite Hb in Hread. pose proof (read_holds _ _ _ Hread) as (records' & Hh & Heq & _).
  pose proof (holds_iter _ _ Hh) as Hi. destruct Hh as (Hm' & Hc' & Hn' & ->).
  assert (records' = records) as ->; [|done].
  rewrite <-Heq, (iter_packet records) in Hi by done. congruence.
Qed.
Lemma scientific_batch_ok b batch limits : scientific_batch R b limits = Ok batch → ∃ records, carries b records ∧ holds batch records.
Proof.
  unfold scientific_batch. destruct (bool_decide _) eqn:Hs; [apply bool_decide_eq_true in Hs|done]. cbn [negb]. intros Hr.
  apply result_bind_ok in Hr as (batch' & Hread%map_err_ok & Heq). destruct (_ =? _)%N eqn:Hv; [|done]. apply N.eqb_eq in Hv. injection Heq as ->.
  apply read_holds in Hread as (records & Hh & Hb & _). exists records. split; [|done]. destruct Hh as (Hm & Hc & Hn & ->). done.
Qed.
End carries.
Lemma batch_in_ok `{Components} `{RecordLaws R} b batch limits : batch_in R b limits = Some (Ok batch) →
  ∃ records, carries b records ∧ holds batch records.
Proof. unfold batch_in. intros Hr%answer_ok%map_err_ok. by apply scientific_batch_ok in Hr. Qed.
Lemma batch_in_carries `{Components} `{RecordLaws R} b batch limits records : carries b records → batch_in R b limits = Some (Ok batch) →
  holds batch records.
Proof. unfold batch_in. intros Hc Hr%answer_ok%map_err_ok. by eapply carries_read. Qed.
Lemma each_ok `{Components} `{RecordLaws R} (batch : Batch.t R) records l : holds batch records → each batch = Some (Ok l) → l = records.
Proof. intros Hh. unfold each, of_option. rewrite (holds_iter _ _ Hh). by intros [= ->]. Qed.

(** ** Projections *)
Section projections.
Context `{Host W, !ContextCodec, !Antientropy.Sha256}.

Lemma packet_spells `{RecordLaws R} (records : list R) limits b (w w' : W) : packet records limits w = Some (Ok b, w') → spells b records.
Proof.
  intros Hp. unfold packet in Hp. bind_as Hp l w1 Hb. apply io_ret_ok in Hp as [-> ->].
  by apply io_map_err_ok, encode_batch_ok in Hb as ([_ Hc] & -> & _).
Qed.
Lemma packet_ok `{RecordLaws R} (records : list R) limits b (w w' : W) : Forall machine records →
  packet records limits w = Some (Ok b, w') → carries b records.
Proof.
  intros Hm Hp. unfold packet in Hp. bind_as Hp l w1 Hb. apply io_ret_ok in Hp as [-> ->].
  apply io_map_err_ok, encode_batch_ok in Hb as ([Hsize Hc] & -> & _). apply packet_bytes_ok in Hsize as (_ & Hn & _). done.
Qed.

Lemma dynamic_machine o e : machine o → ObjectState.dynamic o = Some e → machine e.
Proof.
  intros (Hi & Hk & Hmass). unfold ObjectState.dynamic. destruct (ObjectState.inertial_mass_kilograms o) as [m|] eqn:Hm; [|done].
  intros [= <-]. unfold canonical_option in Hmass. done.
Qed.
Lemma omap_machine os : Forall machine os → Forall machine (omap ObjectState.dynamic os).
Proof.
  intros Hm. apply Forall_forall. intros e (o & Ho & He)%list_elem_of_omap. rewrite Forall_forall in Hm. by eapply dynamic_machine; [apply Hm|].
Qed.
Lemma dynamic_projection_ok objects os limits b (w w' : W) : holds objects os →
  dynamic_projection objects limits w = Some (Ok b, w') → carries b (omap ObjectState.dynamic os).
Proof.
  intros Hh Hp. unfold dynamic_projection in Hp. bind_as Hp u w1 Hr. bind_as Hp l w2 Hl. pure_in Hl.
  apply (each_ok _ os) in Hl as ->; [|done]. eapply packet_ok; [|exact Hp]. apply omap_machine. by destruct Hh.
Qed.

Lemma find_ok objects os id : holds objects os → ∃ o, find objects id = Some o ∧
  match o with Some object => object ∈ os ∧ ObjectState.id object = id | None => id ∉ ObjectState.id <$> os end.
Proof.
  intros Hh. destruct (bisect_whole objects os id Hh) as (o & Ho & Hfound). unfold find. rewrite Ho. exists (snd <$> o). split; [done|].
  destruct o as [[i object]|]; cbn in *; [|done]. destruct Hfound as [Hi Hid]. split; [by eapply list_elem_of_lookup_2|done].
Qed.
Lemma objects_unique objects os a b : holds objects os → a ∈ os → b ∈ os → ObjectState.id a = ObjectState.id b → a = b.
Proof.
  intros Hh [i Hi]%list_elem_of_lookup_1 [j Hj]%list_elem_of_lookup_1 Hid.
  pose proof (id_ascending_NoDup _ (holds_ascending objects os Hh)) as Hnd.
  assert (i = j) as ->; [|congruence].
  apply (NoDup_lookup _ i j (ObjectState.id a) Hnd); rewrite list_lookup_fmap; [by rewrite Hi|by rewrite Hj, Hid].
Qed.

(** A coupling of a known object, with or without motion as the object, that
    uses the roles its slot declares. *)
Definition coupled_to (context : InstanceContext.t) (os : list ObjectState.t) (c : CoupledEntity.t) : Prop :=
  declares context c = Some true ∧ ∃ o, o ∈ os ∧ ObjectState.id o = CoupledEntity.id c
    ∧ CoupledEntity.has_dynamics c = is_some (ObjectState.inertial_mass_kilograms o).
(** The coupling with the kinematics of its object. *)
Definition refreshed (os : list ObjectState.t) (c c' : CoupledEntity.t) : Prop :=
  ∃ o, o ∈ os ∧ ObjectState.id o = CoupledEntity.id c
  ∧ c' = CoupledEntity.mk (CoupledEntity.id c) (CoupledEntity.slot c) (ObjectState.kinematics o) (CoupledEntity.has_dynamics c)
           (CoupledEntity.source_si c) (CoupledEntity.response_si c).
Lemma project_couplings_ok context objects os l l' : holds objects os →
  project_couplings context objects l = Some (Ok l') → Forall (coupled_to context os) l ∧ Forall2 (refreshed os) l l'.
Proof.
  intros Hh. revert l'. induction l as [|c l IH]; intros l'; cbn [project_couplings].
  { intros [= <-]. by split; constructor. }
  intros ([o declared] & Ho & Hp)%outcome_bind_ok. unfold coupled_object in Ho.
  destruct (find_ok objects os (CoupledEntity.id c) Hh) as (found & Hf & Hfound). rewrite Hf in Ho.
  destruct found as [o'|]; [|done]. destruct (declares context c) as [d|] eqn:Hd; [|done]. injection Ho as -> ->.
  destruct Hfound as [Hin Hid]. destruct (eqb _ _) eqn:Hdyn; [|done]. apply eqb_prop in Hdyn. destruct declared; [|done]. cbn [negb orb] in Hp.
  apply outcome_bind_ok in Hp as (rest & Hrest & Hp). injection Hp as <-. apply IH in Hrest as [Hfst Hsnd].
  split; constructor; [split; [done|by exists o]|done|by exists o|done].
Qed.
Lemma refreshed_machine os l l' : Forall machine os → Forall machine l → Forall2 (refreshed os) l l' → Forall machine l'.
Proof.
  intros Hos Hl Hsnd. induction Hsnd as [|c c' l l' (o & Ho & Hid & ->) _ IH]; [constructor|]. inversion Hl as [|? ? (Hi & _ & Hs & Hr & Hslot) Hl']; subst.
  constructor; [|by apply IH]. rewrite Forall_forall in Hos. destruct (Hos o Ho) as (_ & Hk & _). done.
Qed.
Lemma coupling_projection_ok field objects os limits b (w w' : W) : holds objects os →
  coupling_projection field objects limits w = Some (Ok b, w') →
  ∃ cs cs', carries (RunField.coupled field) cs ∧ carries b cs' ∧ Forall2 (refreshed os) cs cs'
    ∧ Forall (coupled_to (RunKernel.context (RunField.binding field)) os) cs.
Proof.
  intros Hh Hp. unfold coupling_projection in Hp. bind_as Hp batch w1 Hb. pure_in Hb. bind_as Hp u w2 Hr. bind_as Hp l w3 Hl. pure_in Hl.
  bind_as Hp records w4 Hrec. pure_in Hrec. apply batch_in_ok in Hb as (cs & Hc & Hhc). apply (each_ok _ cs) in Hl as ->; [|done].
  apply (project_couplings_ok _ _ os) in Hrec as [Hto Href]; [|done]. exists cs, records. split_and!; [done| |done|done].
  eapply packet_ok; [|exact Hp]. eapply refreshed_machine; [|by destruct Hhc|done]. by destruct Hh.
Qed.
Lemma count_responses_ok last l : count_responses last l = lenN (responders last l).
Proof.
  revert last. induction l as [|c l IH]; intros last; cbn [count_responses responders]; [done|]. unfold owed.
  destruct (_ && _); [|apply IH]. by rewrite IH, lenN_cons.
Qed.

(** ** Moving the objects *)
(** What a step may change of an object: where it is and how it moves, where it has dynamics. *)
Definition conserved (o o' : ObjectState.t) : Prop :=
  ObjectState.id o' = ObjectState.id o ∧ ObjectState.inertial_mass_kilograms o' = ObjectState.inertial_mass_kilograms o
  ∧ (ObjectState.inertial_mass_kilograms o = None → o' = o).
Lemma merge_ok os : ∀ ds os', Forall machine os → Forall machine ds → merge os ds = Ok os' →
  Forall2 conserved os os' ∧ omap ObjectState.dynamic os' = ds.
Proof.
  induction os as [|o os IH]; intros ds os' Hos Hds; cbn [merge].
  { destruct ds; [|done]. intros [= <-]. by split; [constructor|]. }
  inversion Hos as [|? ? Ho Hos']; subst. destruct (ObjectState.dynamic o) as [prior|] eqn:Hd.
  - destruct ds as [|d ds]; [done|]. inversion Hds as [|? ? Hmd Hds']; subst.
    destruct (bool_decide _) eqn:Hid; [apply bool_decide_eq_true in Hid|done]. destruct (same_scalar _ _) eqn:Hm; [|done]. cbn [negb orb].
    intros (rest & [Hfst Hsnd]%IH & [= <-])%result_bind_ok; [|done..].
    pose proof (dynamic_machine o prior Ho Hd) as (_ & _ & Hcp). destruct Hmd as (_ & Hkd & Hcd).
    apply same_scalar_spec in Hm; [|done|done].
    destruct o as [i k [m|]]; [|done]. unfold ObjectState.dynamic in Hd. cbn in Hd. injection Hd as <-. cbn in Hid, Hm. subst.
    split; [by constructor|]. cbn. by destruct d.
  - intros (rest & [Hfst Hsnd]%IH & [= <-])%result_bind_ok; [|done..]. split; [by constructor|]. cbn. by rewrite Hd, Hsnd.
Qed.
Lemma conserved_machine os ds os' : Forall machine os → Forall machine ds → merge os ds = Ok os' → Forall machine os'.
Proof.
  revert ds os'. induction os as [|o os IH]; intros ds os' Hos Hds; cbn [merge].
  { destruct ds; [|done]. intros [= <-]. constructor. }
  inversion Hos as [|? ? Ho Hos']; subst. destruct (ObjectState.dynamic o) as [prior|].
  - destruct ds as [|d ds]; [done|]. inversion Hds as [|? ? Hmd Hds']; subst. destruct (_ || _); [done|].
    intros (rest & Hr%IH & [= <-])%result_bind_ok; [|done..]. constructor; [|done]. destruct Ho as (Hi & _ & Hm), Hmd as (_ & Hk & _). done.
  - intros (rest & Hr%IH & [= <-])%result_bind_ok; [|done..]. by constructor.
Qed.
Lemma merge_dynamics_ok objects os next limits b (w w' : W) : holds objects os →
  merge_dynamics objects next limits w = Some (Ok b, w') →
  ∃ ds os', carries next ds ∧ carries b os' ∧ Forall2 conserved os os' ∧ omap ObjectState.dynamic os' = ds.
Proof.
  intros Hh Hp. unfold merge_dynamics in Hp. bind_as Hp batch w1 Hb. pure_in Hb. bind_as Hp ds w2 Hds. pure_in Hds.
  bind_as Hp u w3 Hr. bind_as Hp l w4 Hl. pure_in Hl. bind_as Hp records w5 Hrec. pure_in Hrec. apply answer_ok in Hrec.
  apply batch_in_ok in Hb as (ds' & Hc & Hhd). apply (each_ok _ ds') in Hds as ->; [|done]. apply (each_ok _ os) in Hl as ->; [|done].
  pose proof Hh as (Hmos & _). pose proof Hhd as (Hmds & _). destruct (merge_ok _ _ _ Hmos Hmds Hrec) as [Hfst Hsnd].
  exists ds', records. split_and!; [done| |done|done]. eapply packet_ok; [|exact Hp]. by eapply conserved_machine.
Qed.
End projections.

(** ** What validation establishes *)
Section validated.
Context `{Host W, !ContextCodec, !Antientropy.Sha256}.
Implicit Types (r : FixedRun.t) (os : list ObjectState.t).

(** The couplings a field was captured with are of these objects. *)
Definition field_sound os (field : RunField.t) : Prop :=
  ∃ cs, carries (RunField.coupled field) cs ∧ Forall (coupled_to (RunKernel.context (RunField.binding field)) os) cs.
Definition fits (field : RunField.t) (state : Buffer.t) : Prop :=
  StateExtent.matches (RunKernel.state_extent (RunField.binding field)) state = true.

Lemma validate_fields_ok r phase control objects os fields : holds objects os → ∀ states u (w w' : W),
  length fields = length states → validate_fields r phase control objects fields states w = Some (Ok u, w') →
  Forall2 fits fields states ∧ Forall (field_sound os) fields.
Proof.
  intros Hh. induction fields as [|field fields IH]; intros states u w w' Hlen Hrun; destruct states as [|state states]; try done.
  cbn [validate_fields] in Hrun. bind_as Hrun x w1 Hc. destruct (StateExtent.matches _ state) eqn:Hm; cbn [negb] in Hrun; [|by pure_in Hrun].
  bind_as Hrun b w2 Hp. bind_as Hrun inputs w3 Hi. bind_as Hrun y w4 Hcall.
  apply (coupling_projection_ok field objects os) in Hp as (cs & cs' & Hcs & _ & _ & Hto); [|done].
  apply IH in Hrun as [Hfit Hsound]; [|by injection Hlen]. split; constructor; [done|done|by exists cs|done].
Qed.
Lemma validate_state_ok r state phase control u (w w' : W) : length (RunProgram.fields (FixedRun.program r)) = length (CommittedState.fields state) →
  validate_state r state phase control w = Some (Ok u, w') →
  ∃ os, carries (CommittedState.objects state) os ∧ Forall (field_sound os) (RunProgram.fields (FixedRun.program r))
    ∧ Forall2 fits (RunProgram.fields (FixedRun.program r)) (CommittedState.fields state)
    ∧ StateExtent.matches (RunKernel.state_extent (RunProgram.dynamics (FixedRun.program r))) (CommittedState.history state) = true.
Proof.
  intros Hlen Hrun. unfold validate_state in Hrun. bind_as Hrun objects w1 Ho. pure_in Ho. bind_as Hrun x w2 Hf.
  apply batch_in_ok in Ho as (os & Hc & Hh). apply (validate_fields_ok _ _ _ _ os) in Hf as [Hfit Hsound]; [|done|done].
  destruct (StateExtent.matches _ _) eqn:Hm; cbn [negb] in Hrun; [|by pure_in Hrun]. by exists os.
Qed.

(** What holds of a run between any two calls. *)
Definition forces_sound os (state : CommittedState.t) : Prop :=
  match CommittedState.forces state with
  | None => CommittedState.boundary state = 0%N
  | Some net => (0 < CommittedState.boundary state)%N
      ∧ ∃ fs, spells net fs ∧ Force.id <$> fs = DynamicEntity.id <$> omap ObjectState.dynamic os
  end.
Definition contexts_of (program : RunProgram.t) : list InstanceContext.t :=
  ((λ f, RunKernel.context (RunField.binding f)) <$> RunProgram.fields program) ++ [RunKernel.context (RunProgram.dynamics program)].
Record sound r : Prop := {
  sound_definition : Definition_.contexts (FixedRun.definition r) = contexts_of (FixedRun.program r)
    ∧ Definition_.dt (FixedRun.definition r) = RunProgram.timestep_seconds (FixedRun.program r);
  sound_objects : ∃ os, carries (CommittedState.objects (FixedRun.committed r)) os
    ∧ Forall (field_sound os) (RunProgram.fields (FixedRun.program r)) ∧ forces_sound os (FixedRun.committed r);
  sound_fields : Forall2 fits (RunProgram.fields (FixedRun.program r)) (CommittedState.fields (FixedRun.committed r));
  sound_history : StateExtent.matches (RunKernel.state_extent (RunProgram.dynamics (FixedRun.program r)))
    (CommittedState.history (FixedRun.committed r)) = true;
  sound_identities : identities (CommittedState.fields (FixedRun.committed r)) = Ok (CommittedState.field_identities (FixedRun.committed r));
  sound_selected : FixedRun.selected r = instances (FixedRun.program r) ∧ ascending (FixedRun.selected r) = true;
  sound_counters : (CommittedState.boundary (FixedRun.committed r) < FixedRun.next_invocation r ≤ u64_max)%N
}.
Lemma field_identities_ok (fields : list Buffer.t) l (w w' : W) : field_identities fields w = Some (Ok l, w') → identities fields = Ok l.
Proof. intros Hr. unfold field_identities in Hr. bind_as Hr u w1 Hres. pure_in Hr. by apply answer_ok, map_err_ok in Hr. Qed.
Lemma charge_context_ok binding limits t inputs t' : charge_context binding limits t inputs = Some (Ok t') → Totals.contexts t' = Totals.contexts t.
Proof.
  unfold charge_context. intros (context & _ & (n & _ & (k & _ & (m & _ & [= <-])%outcome_bind_ok)%outcome_bind_ok)%outcome_bind_ok)%outcome_bind_ok. done.
Qed.
Lemma check_field_ok field integrator state objects limits initial t t' :
  check_field field integrator state objects limits initial t = Some (Ok t') →
  Totals.contexts t' = Totals.contexts t ++ [RunKernel.context (RunField.binding field)].
Proof.
  unfold check_field. intros (inputs & _ & Hr)%outcome_bind_ok. destruct (_ || _); [done|].
  apply outcome_bind_ok in Hr as (t1 & <-%charge_context_ok & Hr). apply outcome_bind_ok in Hr as (batch & _ & Hr).
  apply outcome_bind_ok in Hr as (couplings & _ & Hr). destruct (_ <? _)%N; [done|].
  do 8 (apply outcome_bind_ok in Hr as (? & _ & Hr)). by injection Hr as <-.
Qed.
Lemma check_fields_ok fields integrator states objects limits initial : ∀ t t',
  check_fields fields integrator states objects limits initial t = Some (Ok t') →
  Totals.contexts t' = Totals.contexts t ++ ((λ f, RunKernel.context (RunField.binding f)) <$> fields).
Proof.
  revert states. induction fields as [|field fields IH]; intros states t t'; cbn [check_fields].
  { intros [= <-]. by rewrite app_nil_r. }
  destruct states as [|state states]; [done|]. intros (t1 & Ht%check_field_ok & Hr%IH)%outcome_bind_ok. by rewrite Hr, Ht, <-app_assoc.
Qed.
Lemma check_program_contexts program captured limits initial d : check_program program captured limits initial = Some (Ok d) →
  Definition_.contexts d = contexts_of program ∧ Definition_.dt d = RunProgram.timestep_seconds program.
Proof.
  unfold check_program. destruct (_ <? _)%N; [done|]. destruct (_ || _); [done|]. intros Hr.
  do 10 (apply outcome_bind_ok in Hr as (? & _ & Hr)). apply outcome_bind_ok in Hr as (t & Ht%check_fields_ok & Hr).
  apply outcome_bind_ok in Hr as (t' & Ht' & [= <-]). cbn. unfold check_integrator in Ht'.
  apply outcome_bind_ok in Ht' as (? & _ & Ht'). destruct (negb _); [done|]. apply outcome_bind_ok in Ht' as (? & Hc%charge_context_ok & Ht').
  destruct (_ <? _)%N; [done|]. injection Ht' as <-. cbn. by rewrite Hc, Ht.
Qed.
Lemma check_program_ok program captured limits initial d : check_program program captured limits initial = Some (Ok d) →
  length (RunProgram.fields program) = length (CapturedRunState.fields captured) ∧ ascending (instances program) = true
  ∧ FiniteF64.is_positive (RunProgram.timestep_seconds program) = true.
Proof.
  unfold check_program. destruct (_ <? _)%N; [done|]. destruct (_ =? _)%N eqn:Hl; [|done]. apply N.eqb_eq in Hl.
  destruct (FiniteF64.is_positive _); [|done]. destruct (ascending _); [|done]. intros _. unfold lenN in Hl. split_and!; [lia|done|done].
Qed.
Lemma from_captured_sound scope program captured limits control r (w w' : W) :
  from_captured scope program captured limits control w = Some (Ok r, w') →
  sound r ∧ FixedRun.scope r = scope ∧ FixedRun.program r = program ∧ CommittedState.objects (FixedRun.committed r) = CapturedRunState.objects captured
  ∧ FixedRun.snapshots r = SnapshotBudget.new (RunLimits.snapshots limits) (RunLimits.snapshot_bytes limits).
Proof.
  intros Hr. unfold from_captured in Hr. bind_as Hr d w1 Hd. pure_in Hd. bind_as Hr ids w2 Hids. bind_as Hr u w3 Hv. bind_as Hr y w4 Hc.
  apply io_ret_ok in Hr as [-> ->]. pose proof (check_program_contexts _ _ _ _ _ Hd) as Hctx. apply check_program_ok in Hd as (Hlen & Hasc & _). apply field_identities_ok in Hids.
  apply validate_state_ok in Hv as (os & Hos & Hsound & Hfits & Hhist); [|done].
  split; [|done]. split; cbn; [done|exists os; by split_and!|done|done|done|done|by split].
Qed.

(** ** One call of a field *)
Definition asked r (step : StepContext.t) (control : OperationControl.t) os (field : RunField.t) (prior : Buffer.t)
    (c : Buffer.t * Buffer.t * Buffer.t) : Prop :=
  ∃ cs cs', carries (RunField.coupled field) cs ∧ carries c.1.1 cs' ∧ Forall2 (refreshed os) cs cs'
  ∧ ∃ inputs extent w1 w2, call_field (RunField.binding field)
      (FieldOperation.Advance step prior c.1.1 inputs (StateExtent.borrowed (RunKernel.state_extent (RunField.binding field))) extent)
      control w1 = Some (Ok (FieldResult.Advanced c.2 c.1.2), w2).
Lemma compute_fields_ok r step control objects os fields : holds objects os → ∀ states computed (w w' : W),
  length fields = length states → compute_fields r step control objects fields states w = Some (Ok computed, w') →
  Forall3 (asked r step control os) fields states computed.
Proof.
  intros Hh. induction fields as [|field fields IH]; intros states computed w w' Hlen Hrun; destruct states as [|prior states]; try done.
  { apply io_ret_ok in Hrun as [-> _]. constructor. }
  cbn [compute_fields] in Hrun. bind_as Hrun x w1 Hc. bind_as Hrun projection w2 Hp. bind_as Hrun count w3 Hn. bind_as Hrun inputs w4 Hi.
  bind_as Hrun extent w5 He. bind_as Hrun out w6 Hcall.
  destruct out as [| |state force|]; [by pure_in Hrun|by pure_in Hrun| |by pure_in Hrun].
  bind_as Hrun others w7 Hrest. apply io_ret_ok in Hrun as [-> ->].
  apply (coupling_projection_ok field objects os) in Hp as (cs & cs' & Hcs & Hcs' & Href & _); [|done].
  constructor; [|eapply IH; [by injection Hlen|exact Hrest]]. exists cs, cs'. split_and!; [done|done|done|].
  unfold attributed in Hcall. apply io_map_err_ok in Hcall. by exists inputs, extent, w5, w6.
Qed.
(** The rows of a buffer of forces. *)
Definition force_rows (b : Buffer.t) : list Force.t := rows (Batch.mk (Buffer.bytes b) (Buffer.value_count b)).
Lemma views_ok r fields : ∀ computed vs, length fields = length computed → views r fields computed = Some (Ok vs) →
  Forall field_read vs
  ∧ FieldForces.instance <$> vs = (λ f, InstanceContext.instance (RunKernel.context (RunField.binding f))) <$> fields
  ∧ ∀ id, contributions vs id = omap (λ c, force_for (force_rows c.1.2) id) computed.
Proof.
  induction fields as [|field fields IH]; intros computed vs Hlen; destruct computed as [|[[projection force] state] computed]; try done.
  { intros [= <-]. by repeat split. }
  cbn [views]. intros (coupled & Hcoupled & (forces & Hforces & (rest & Hrest & [= <-])%outcome_bind_ok)%outcome_bind_ok)%outcome_bind_ok.
  apply batch_in_ok in Hcoupled as (cs & _ & Hcs). apply batch_in_ok in Hforces as (fs & Hbfs & Hfs).
  apply IH in Hrest as (Hread & Hinst & Hcon); [|by injection Hlen].
  split_and!; [constructor; [|done]; split; [by exists cs|by exists fs]|by rewrite !fmap_cons, Hinst|].
  intros id. rewrite contributions_cons, Hcon. cbn [omap list_omap FieldForces.forces fst snd].
  assert (forces = Batch.mk (Buffer.bytes force) (Buffer.value_count force)) as ->.
  { destruct Hbfs as (_ & Hv & Hb & _). destruct Hfs as (_ & _ & _ & ->). by rewrite Hb, Hv. }
  fold (force_rows force). by destruct (force_for _ id).
Qed.

(** ** A whole step *)
(** What a step is: every field asked once, at the committed boundary, with its
    own state and the couplings as the committed objects have them; the net force
    of every dynamic object, the sum of what the fields answered; the integrator
    asked once, with exactly these forces; and objects that are moved as it
    answered and in nothing else changed. *)
Definition whole_step r (step : StepContext.t) (control : OperationControl.t) (next : CommittedState.t) : Prop :=
  ∃ computed os os' dynamics net fs entities,
    carries (CommittedState.objects (FixedRun.committed r)) os
    ∧ Forall3 (asked r step control os) (RunProgram.fields (FixedRun.program r)) (CommittedState.fields (FixedRun.committed r)) computed
    ∧ CommittedState.fields next = snd <$> computed
    ∧ CommittedState.forces next = Some net ∧ spells net fs
    ∧ Forall2 (λ e f, Force.id f = DynamicEntity.id e
        ∧ sum_vectors Vec3.ZERO (omap (λ c, force_for (force_rows c.1.2) (DynamicEntity.id e)) computed) = Ok (Force.newtons f))
        (omap ObjectState.dynamic os) fs
    ∧ carries dynamics (omap ObjectState.dynamic os)
    ∧ (∃ inputs extent w1 w2, call_dynamics (RunProgram.dynamics (FixedRun.program r))
        (DynamicsOperation.Integrate step dynamics net (CommittedState.history (FixedRun.committed r)) inputs extent
          (StateExtent.borrowed (RunKernel.state_extent (RunProgram.dynamics (FixedRun.program r)))))
        control w1 = Some (Ok (DynamicsResult.Integrated entities (CommittedState.history next)), w2))
    ∧ carries entities (omap ObjectState.dynamic os')
    ∧ carries (CommittedState.objects next) os' ∧ Forall2 conserved os os'.

Lemma reduce_views r (batch : Batch.t DynamicEntity.t) es vs selected limits reduced (w w' : W) :
  holds batch es → Forall field_read vs → FieldForces.instance <$> vs = selected → reduce batch selected vs limits w = Some (Ok reduced, w') →
  Forall2 (λ e f, Force.id f = DynamicEntity.id e ∧ sum_vectors Vec3.ZERO (contributions vs (DynamicEntity.id e)) = Ok (Force.newtons f)) es reduced.
Proof.
  intros Hh Hread Hinst Hr. unfold reduce in Hr. destruct (_ || _); [by pure_in Hr|]. destruct (_ || _) eqn:Ha; [by pure_in Hr|].
  bind_as Hr x w1 Hcount. bind_as Hr y w2 Hres. destruct (bool_decide _) eqn:Ho; cbn [negb] in Hr; [|by pure_in Hr].
  bind_as Hr z w3 Hres'. pure_in Hr. rewrite (holds_iter _ _ Hh) in Hr. clear Ho.
  apply orb_false_iff in Ha as [_ Ha%negb_false_iff%ascending_spec].
  rewrite (sorted_instances vs vs) in Hr; [|done|by rewrite Hinst].
  apply (add_all_ok _ es) in Hr as [_ Hr]; [|done|done|by rewrite <-list_fmap_compose]. by rewrite Forall2_fmap_l in Hr.
Qed.
Lemma Forall3_length_lr {A B C} (P : A → B → C → Prop) l k m : Forall3 P l k m → length l = length m.
Proof. induction 1; cbn; congruence. Qed.

Lemma candidate_ok r step control next (w w' : W) : sound r → candidate r step control w = Some (Ok next, w') →
  whole_step r step control next
  ∧ CommittedState.boundary next = (StepContext.boundary step + 1)%N
  ∧ FiniteF64.new (F64.add (StepContext.time_seconds step) (StepContext.dt_seconds step)) = Ok (CommittedState.time next)
  ∧ identities (CommittedState.fields next) = Ok (CommittedState.field_identities next)
  ∧ Forall2 fits (RunProgram.fields (FixedRun.program r)) (CommittedState.fields next)
  ∧ StateExtent.matches (RunKernel.state_extent (RunProgram.dynamics (FixedRun.program r))) (CommittedState.history next) = true
  ∧ ∃ os', carries (CommittedState.objects next) os' ∧ Forall (field_sound os') (RunProgram.fields (FixedRun.program r)).
Proof.
  intros [_ (os & Hos & _) Hfits _ _ [Hsel Hasc] _] Hrun. unfold candidate in Hrun.
  bind_as Hrun objects w1 Ho. pure_in Ho. apply (batch_in_carries _ _ _ _ Hos) in Ho as Hh.
  bind_as Hrun dynamics w2 Hd. apply (dynamic_projection_ok objects os) in Hd; [|done].
  bind_as Hrun x w3 Hr1. bind_as Hrun y w4 Hr2. bind_as Hrun z w5 Hr3. bind_as Hrun computed w6 Hcomp.
  bind_as Hrun dbatch w7 Hb. pure_in Hb. apply (batch_in_carries _ _ _ _ Hd) in Hb as Hhd.
  bind_as Hrun vs w8 Hv. pure_in Hv. bind_as Hrun records w9 Hrec. pure_in Hrec. bind_as Hrun reduced w10 Hred.
  bind_as Hrun net w11 Hnet. bind_as Hrun inputs w12 Hin. bind_as Hrun extent w13 Hext. bind_as Hrun out w14 Hcall.
  pose proof (Forall2_length _ _ _ Hfits) as Hlen.
  apply (compute_fields_ok r step control objects os) in Hcomp; [|done|done].
  pose proof (Forall3_length_lr _ _ _ _ Hcomp) as Hlen'.
  apply views_ok in Hv as (Hread & Hinst & Hcon); [|done].
  apply io_map_err_ok, (reduce_views r _ _ _ _ _ _ _ _ Hhd Hread) in Hred; [|by rewrite Hinst].
  apply packet_spells in Hnet. unfold attributed in Hcall. apply io_map_err_ok in Hcall.
  destruct out as [| |entities history]; [by pure_in Hrun|by pure_in Hrun|].
  bind_as Hrun nobjects w15 Hmerge. unfold attributed in Hmerge. apply io_map_err_ok, (merge_dynamics_ok objects os) in Hmerge; [|done].
  destruct Hmerge as (ds & os' & Hent & Hos' & Hcons & <-).
  bind_as Hrun ids w16 Hids. apply field_identities_ok in Hids. bind_as Hrun time w17 Ht. pure_in Ht. apply answer_ok, map_err_ok in Ht.
  bind_as Hrun u w18 Hval. apply io_ret_ok in Hrun as [-> ->].
  apply validate_state_ok in Hval as (os2 & Hos2 & Hsound & Hfits' & Hhist); [|cbn; by rewrite length_fmap].
  split_and!; [|done|done|done|done|done|by exists os2].
  exists computed, os, os', dynamics, net, reduced, entities. split_and!; try done.
  - eapply Forall2_impl; [exact Hred|]. intros e f [Hid Hsum]. by rewrite Hcon in Hsum.
  - by exists inputs, extent, w13, w14.
Qed.

(** ** A step replaces the whole state, or nothing *)
Lemma carries_unique `{RecordLaws R} (b : Buffer.t) (l k : list R) : carries b l → carries b k → l = k.
Proof.
  intros (_ & _ & Hb & Hm & Hc & Hn) (_ & _ & Hb' & Hm' & Hc' & Hn'). rewrite Hb in Hb'.
  pose proof (iter_packet l 0 Hn Hm Hc) as Hi. rewrite Hb', (iter_packet k 0 Hn' Hm' Hc') in Hi. congruence.
Qed.
Lemma advance_cases r control commit answer r' (w w' : W) : advance_with_commit r control commit w = Some (answer, r', w') →
  match answer with
  | Err _ => r' = r ∨ (FixedRun.stopped r = false ∧ (FixedRun.next_invocation r < u64_max)%N
      ∧ r' = FixedRun.set_next_invocation r (FixedRun.next_invocation r + 1))
  | Ok _ => FixedRun.stopped r = false ∧ (FixedRun.next_invocation r < u64_max)%N
      ∧ ∃ step next w1 w2 w3,
        step_context r (FixedRun.next_invocation r) = Ok step
        ∧ candidate (FixedRun.set_next_invocation r (FixedRun.next_invocation r + 1)) step control w1 = Some (Ok next, w2)
        ∧ commit (FixedRun.scope r) next w3 = Some (Ok (), w')
        ∧ r' = FixedRun.set_committed (FixedRun.set_next_invocation r (FixedRun.next_invocation r + 1)) next
  end.
Proof.
  unfold advance_with_commit. destruct (FixedRun.stopped r) eqn:Hs; [intros [= <- <- _]; by left|].
  destruct (check control w) as [[[[]|e] w1]|]; [|by intros [= <- <- _]; left|done].
  unfold checked_add. destruct (_ <=? _)%N eqn:Hn; [apply N.leb_le in Hn|intros [= <- <- _]; by left].
  assert (FixedRun.next_invocation r < u64_max)%N as Hlt by lia.
  destruct (attempt _ _ control commit w1) as [[[next|e] w2]|] eqn:Ha; [|intros [= <- <- _]; by right|done].
  intros [= <- <- <-]. split; [done|]. split; [done|]. unfold attempt in Ha. bind_as Ha step w3 Hstep. pure_in Hstep. apply answer_ok in Hstep.
  bind_as Ha c w4 Hc. bind_as Ha x w5 Hx. bind_as Ha y w6 Hy. apply io_ret_ok in Ha as [-> ->]. apply io_map_err_ok in Hy.
  destruct y. by exists step, c, w1, w4, w5.
Qed.
Lemma sound_next r n : sound r → (FixedRun.next_invocation r ≤ n ≤ u64_max)%N → sound (FixedRun.set_next_invocation r n).
Proof. intros [Hd Ho Hf Hh Hi Hs Hc] Hn. split; cbn; [done..|lia]. Qed.
Lemma conserved_dynamic os os' : Forall2 conserved os os' →
  DynamicEntity.id <$> omap ObjectState.dynamic os' = DynamicEntity.id <$> omap ObjectState.dynamic os.
Proof.
  induction 1 as [|[i k m] [i' k' m'] os os' (Hid & Hm & _) _ IH]; [done|]. cbn in Hid, Hm. subst. destruct m; [|exact IH].
  cbn. f_equal. exact IH.
Qed.
Lemma step_boundary r n step : step_context r n = Ok step → StepContext.boundary step = CommittedState.boundary (FixedRun.committed r)
  ∧ (CommittedState.boundary (FixedRun.committed r) ≠ u64_max)%N ∧ StepContext.invocation step = n
  ∧ StepContext.time_seconds step = FiniteF64.get (CommittedState.time (FixedRun.committed r))
  ∧ StepContext.dt_seconds step = FiniteF64.get (RunProgram.timestep_seconds (FixedRun.program r))
  ∧ F64.leb (F64.add (StepContext.time_seconds step) (StepContext.dt_seconds step)) (StepContext.time_seconds step) = false.
Proof.
  unfold step_context. destruct (_ =? _)%N eqn:Hb; [done|]. apply N.eqb_neq in Hb. destruct (negb _); [done|]. destruct (F64.leb _ _) eqn:Hl; [done|].
  cbn [orb]. intros [= <-]. done.
Qed.
Lemma sound_advance r control commit answer r' (w w' : W) : sound r → advance_with_commit r control commit w = Some (answer, r', w') → sound r'.
Proof.
  intros Hr Ha%advance_cases. pose proof Hr as [Hd _ _ _ _ Hs Hc].
  assert ((FixedRun.next_invocation r < u64_max)%N → sound (FixedRun.set_next_invocation r (FixedRun.next_invocation r + 1))) as Hnext.
  { intros Hlt. apply sound_next; [done|lia]. }
  destruct answer as [[]|e]; [|destruct Ha as [->|(_ & Hlt & ->)]; [done|by apply Hnext]].
  destruct Ha as (_ & Hlt & step & next & w1 & w2 & w3 & Hstep & Hcand & _ & ->). apply step_boundary in Hstep as (Hb & Hmax & _).
  apply candidate_ok in Hcand as (Hwhole & Hbn & _ & Hids & Hfits & Hhist & os2 & Hos2 & Hsound); [|by apply Hnext].
  destruct Hwhole as (computed & os & os' & dynamics & net & fs & entities & _ & _ & _ & Hnet & Hspells & Hsum & _ & _ & _ & Hos' & Hcons).
  pose proof (carries_unique _ _ _ Hos' Hos2) as <-.
  split; cbn; [done| |done|done|done|done|lia]. exists os'. split_and!; [done|done|]. unfold forces_sound. rewrite Hnet. split; [lia|].
  exists fs. split; [done|]. rewrite (conserved_dynamic _ _ Hcons). clear -Hsum.
  induction Hsum as [|e f es fs [Hid _] _ IH]; [done|]. by rewrite !fmap_cons, Hid, IH.
Qed.

(** ** Runs with their observers *)
(** A run and the bytes of every lease its observers hold. *)
Inductive run_step : FixedRun.t * list N → FixedRun.t * list N → Prop :=
  | step_advance r leases control commit answer r' w w' :
      advance_with_commit r control commit w = Some (answer, r', w') → run_step (r, leases) (r', leases)
  | step_stop r leases : run_step (r, leases) (FixedRun.stop r, leases)
  | step_objects r leases contended s r' :
      acquire_objects r contended = Ok (s, r') → run_step (r, leases) (r', ObjectSnapshot.lease s :: leases)
  | step_field r leases contended instance s r' :
      acquire_field r contended instance = Some (Ok (s, r')) → run_step (r, leases) (r', FieldSnapshot.lease s :: leases)
  | step_drop r before lease after r' :
      drop_lease lease r = Some r' → run_step (r, before ++ lease :: after) (r', before ++ after).

(** What an observer changes is the budget. *)
Definition same_but_budget r r' : Prop := r' = FixedRun.set_snapshots r (FixedRun.snapshots r').
Lemma acquire_objects_ok r contended s r' : acquire_objects r contended = Ok (s, r') →
  same_but_budget r r' ∧ SnapshotBudget.reserve contended (ObjectSnapshot.lease s) (FixedRun.snapshots r) = Ok (FixedRun.snapshots r').
Proof.
  unfold acquire_objects. destruct (checked_add _ _ _) as [n|]; [|done].
  intros (budget & Hb%map_err_ok & [= <- <-])%result_bind_ok. done.
Qed.
Lemma acquire_field_ok r contended instance s r' : acquire_field r contended instance = Some (Ok (s, r')) →
  same_but_budget r r' ∧ SnapshotBudget.reserve contended (FieldSnapshot.lease s) (FixedRun.snapshots r) = Ok (FixedRun.snapshots r').
Proof.
  unfold acquire_field. destruct (fst <$> _) as [i|]; [|done].
  destruct (RunProgram.fields _ !! i); [|done]. destruct (CommittedState.fields _ !! i); [|done].
  destruct (CommittedState.field_identities _ !! i); [|done].
  intros (budget & Hb%answer_ok%map_err_ok & (context & _ & [= <- <-])%outcome_bind_ok)%outcome_bind_ok. done.
Qed.
Lemma drop_lease_ok lease r r' : drop_lease lease r = Some r' →
  same_but_budget r r' ∧ SnapshotBudget.release lease (FixedRun.snapshots r) = Some (FixedRun.snapshots r').
Proof. unfold drop_lease. destruct (SnapshotBudget.release _ _) as [b|]; [|done]. by intros [= <-]. Qed.
Lemma sound_budget r r' : sound r → same_but_budget r r' → sound r'.
Proof. intros [Hd Ho Hf Hh Hi Hs Hc] ->. by split. Qed.
Lemma sound_stop r : sound r → sound (FixedRun.stop r).
Proof. intros [Hd Ho Hf Hh Hi Hs Hc]. by split. Qed.
Lemma sound_step s s' : run_step s s' → sound s.1 → sound s'.1.
Proof.
  destruct 1 as [r leases control commit answer r' w w' Ha|r leases|r leases contended s r' Ha|r leases contended i s r' Ha|r before lease after r' Ha];
    cbn [fst]; intros Hr.
  - by eapply sound_advance.
  - by apply sound_stop.
  - eapply sound_budget; [exact Hr|]. by eapply acquire_objects_ok.
  - eapply sound_budget; [exact Hr|]. by eapply acquire_field_ok.
  - eapply sound_budget; [exact Hr|]. by eapply drop_lease_ok.
Qed.

(** ** What no step changes *)
Lemma conserved_refl o : conserved o o.
Proof. done. Qed.
Lemma conserved_trans a b c : conserved a b → conserved b c → conserved a c.
Proof.
  intros (Hi & Hm & Hk) (Hi' & Hm' & Hk'). split_and!; [by rewrite Hi'|by rewrite Hm'|]. intros Hn.
  rewrite Hk' by (by rewrite Hm). by apply Hk.
Qed.
(** The program and the objects, as a later state of the run has them. *)
Record kept r r' : Prop := {
  kept_scope : FixedRun.scope r' = FixedRun.scope r;
  kept_program : FixedRun.program r' = FixedRun.program r;
  kept_definition : FixedRun.definition r' = FixedRun.definition r;
  kept_limits : FixedRun.limits r' = FixedRun.limits r;
  kept_stop : FixedRun.stopped r = true → FixedRun.stopped r' = true ∧ FixedRun.committed r' = FixedRun.committed r;
  kept_boundary : (CommittedState.boundary (FixedRun.committed r) ≤ CommittedState.boundary (FixedRun.committed r'))%N;
  kept_invocation : (FixedRun.next_invocation r ≤ FixedRun.next_invocation r')%N;
  kept_objects : ∀ os, carries (CommittedState.objects (FixedRun.committed r)) os →
    ∃ os', carries (CommittedState.objects (FixedRun.committed r')) os' ∧ Forall2 conserved os os'
}.
#[export] Instance kept_refl : Reflexive kept.
Proof.
  intros r. split; try done. intros os Hos. exists os. split; [done|]. apply Forall_Forall2_diag, Forall_forall. intros o _. apply conserved_refl.
Qed.
#[export] Instance kept_trans : Transitive kept.
Proof.
  intros a b c [Hs Hp Hd Hl Ht Hb Hi Ho] [Hs' Hp' Hd' Hl' Ht' Hb' Hi' Ho']. split; try (by etrans); try lia.
  - intros Hstop. destruct (Ht Hstop) as [Htb Hcb]. destruct (Ht' Htb) as [Htc Hcc]. split; [done|congruence].
  - intros os Hos. destruct (Ho os Hos) as (os1 & Hos1 & Hc1). destruct (Ho' os1 Hos1) as (os2 & Hos2 & Hc2). exists os2. split; [done|].
    eapply Forall2_trans; [|exact Hc1|exact Hc2]. intros x y z. apply conserved_trans.
Qed.
Lemma kept_budget r r' : same_but_budget r r' → kept r r'.
Proof.
  intros ->. split; try done. intros os Hos. exists os. split; [done|]. apply Forall_Forall2_diag, Forall_forall. intros o _. apply conserved_refl.
Qed.
Lemma kept_advance r control commit answer r' (w w' : W) : sound r → advance_with_commit r control commit w = Some (answer, r', w') → kept r r'.
Proof.
  intros Hr Ha%advance_cases.
  assert (∀ n, (FixedRun.next_invocation r ≤ n)%N → FixedRun.stopped r = false → kept r (FixedRun.set_next_invocation r n)) as Hnext.
  { intros n Hn Hs. pose proof (kept_refl r) as [? ? ? ? ? ? ? ?]. split; try done; cbn; congruence. }
  destruct answer as [[]|e]; [|destruct Ha as [->|(Hs & _ & ->)]; [done|apply Hnext; [lia|done]]].
  destruct Ha as (Hstop & Hlt & step & next & w1 & w2 & w3 & Hstep & Hcand & _ & ->). apply step_boundary in Hstep as (Hb & _).
  apply candidate_ok in Hcand as (Hwhole & Hbn & _); [|apply sound_next; [done|lia]].
  split; cbn; try done; [congruence|lia|lia|].
  destruct Hwhole as (computed & os & os' & dynamics & net & fs & entities & Hos & _ & _ & _ & _ & _ & _ & _ & _ & Hos' & Hcons).
  intros os0 Hos0. pose proof (carries_unique _ _ _ Hos Hos0) as <-. by exists os'.
Qed.
Lemma kept_step s s' : run_step s s' → sound s.1 → kept s.1 s'.1.
Proof.
  destruct 1 as [r leases control commit answer r' w w' Ha|r leases|r leases contended s r' Ha|r leases contended i s r' Ha|r before lease after r' Ha];
    cbn [fst]; intros Hr.
  - by eapply kept_advance.
  - pose proof (kept_refl r) as [? ? ? ? ? ? ? ?]. by split.
  - apply kept_budget. by eapply acquire_objects_ok.
  - apply kept_budget. by eapply acquire_field_ok.
  - apply kept_budget. by eapply drop_lease_ok.
Qed.
Lemma kept_steps s s' : rtc run_step s s' → sound s.1 → sound s'.1 ∧ kept s.1 s'.1.
Proof.
  induction 1 as [s|s1 s2 s3 Hstep _ IH]; intros Hs; [by split|].
  destruct IH as [Hs3 Hk]; [by eapply sound_step|]. split; [done|]. etrans; [by eapply kept_step|exact Hk].
Qed.

(** ** Leases *)
Definition total (leases : list N) : N := foldr N.add 0%N leases.
Record accounted (limits : RunLimits.t) (s : FixedRun.t * list N) : Prop := {
  accounted_held : SnapshotBudget.held (FixedRun.snapshots s.1) = (lenN s.2, total s.2);
  accounted_limits : SnapshotBudget.count (FixedRun.snapshots s.1) = RunLimits.snapshots limits
    ∧ SnapshotBudget.bytes (FixedRun.snapshots s.1) = RunLimits.snapshot_bytes limits;
  accounted_bounds : (lenN s.2 ≤ RunLimits.snapshots limits ∧ total s.2 ≤ RunLimits.snapshot_bytes limits)%N
}.
Lemma total_app l k : total (l ++ k) = (total l + total k)%N.
Proof. induction l as [|n l IH]; cbn; [done|]. fold (total (l ++ k)) (total l). rewrite IH. lia. Qed.
Lemma reserve_accounted limits r leases contended size r' : accounted limits (r, leases) →
  SnapshotBudget.reserve contended size (FixedRun.snapshots r) = Ok (FixedRun.snapshots r') → accounted limits (r', size :: leases).
Proof.
  intros [Hh [Hc Hb] Hbounds]. cbn [fst snd] in *. unfold SnapshotBudget.reserve, checked_add. rewrite Hh, Hc, Hb. cbn [fst snd].
  destruct contended; [done|]. destruct (_ <=? usize_max)%N; [|done]. destruct (_ <=? _)%N eqn:E1; [apply N.leb_le in E1|done]. cbn [negb].
  destruct (_ <=? usize_max)%N; [|done]. destruct (_ <=? _)%N eqn:E2; [apply N.leb_le in E2|done]. cbn [negb]. intros Heq. injection Heq as Heq.
  split; cbn [fst snd]; rewrite <-?Heq; cbn [SnapshotBudget.held SnapshotBudget.count SnapshotBudget.bytes total foldr];
    fold (total leases); rewrite ?lenN_cons; [f_equal; lia|done|lia].
Qed.
Lemma release_accounted limits r before size after r' : accounted limits (r, before ++ size :: after) →
  SnapshotBudget.release size (FixedRun.snapshots r) = Some (FixedRun.snapshots r') → accounted limits (r', before ++ after).
Proof.
  intros [Hh [Hc Hb] Hbounds]. cbn [fst snd] in *. rewrite lenN_app, lenN_cons, total_app in *. cbn [total foldr] in *. fold (total after) in *.
  unfold SnapshotBudget.release. destruct (_ || _); [done|]. rewrite Hh, Hc, Hb. cbn [fst snd]. intros Heq. injection Heq as Heq.
  split; cbn [fst snd]; rewrite <-?Heq; cbn [SnapshotBudget.held SnapshotBudget.count SnapshotBudget.bytes];
    rewrite ?lenN_app, ?total_app; [f_equal; lia|done|lia].
Qed.
Lemma accounted_step limits s s' : run_step s s' → accounted limits s → accounted limits s'.
Proof.
  destruct 1 as [r leases control commit answer r' w w' Ha|r leases|r leases contended s r' Ha|r leases contended i s r' Ha|r before lease after r' Ha];
    intros Hs.
  - assert (FixedRun.snapshots r' = FixedRun.snapshots r) as Heq.
    { apply advance_cases in Ha. destruct answer as [[]|e]; [|destruct Ha as [->|(_ & _ & ->)]; done].
      by destruct Ha as (_ & _ & step & next & w1 & w2 & w3 & _ & _ & _ & ->). }
    destruct Hs. split; cbn in *; by rewrite ?Heq.
  - by destruct Hs.
  - apply acquire_objects_ok in Ha as [_ Ha]. by eapply reserve_accounted.
  - apply acquire_field_ok in Ha as [_ Ha]. by eapply reserve_accounted.
  - apply drop_lease_ok in Ha as [_ Ha]. by eapply release_accounted.
Qed.
Lemma accounted_steps limits s s' : rtc run_step s s' → accounted limits s → accounted limits s'.
Proof. induction 1; [done|]. intros. by eauto using accounted_step. Qed.

(** ** A checkpoint and what is restored from it *)
Lemma restore_fields_length r control objects fields : ∀ states l (w w' : W),
  restore_fields r control objects fields states w = Some (Ok l, w') → length fields = length l.
Proof.
  induction fields as [|field fields IH]; intros states l w w' Hrun; cbn [restore_fields] in Hrun; [by apply io_ret_ok in Hrun as [-> _]|].
  bind_as Hrun coupled w1 Hc. destruct states as [|state states]; [by pure_in Hrun|].
  bind_as Hrun inputs w2 Hi. bind_as Hrun out w3 Hout. destruct out; try by pure_in Hrun.
  bind_as Hrun others w4 Hrest. apply io_ret_ok in Hrun as [-> _]. cbn. f_equal. by eapply IH.
Qed.
Lemma checkpoint_ok r control c (w w' : W) : checkpoint r control w = Some (Ok c, w') →
  RunCheckpoint.scope c = FixedRun.scope r ∧ RunCheckpoint.definition c = FixedRun.definition r
  ∧ RunCheckpoint.next_invocation c = FixedRun.next_invocation r
  ∧ CommittedState.boundary (RunCheckpoint.state c) = CommittedState.boundary (FixedRun.committed r)
  ∧ CommittedState.time (RunCheckpoint.state c) = CommittedState.time (FixedRun.committed r)
  ∧ CommittedState.objects (RunCheckpoint.state c) = CommittedState.objects (FixedRun.committed r)
  ∧ CommittedState.forces (RunCheckpoint.state c) = CommittedState.forces (FixedRun.committed r).
Proof.
  intros Hrun. unfold checkpoint in Hrun. bind_as Hrun fields w1 Hf. bind_as Hrun out w2 Hout. destruct out; try by pure_in Hrun.
  bind_as Hrun ids w3 Hids. bind_as Hrun x w4 Hv. bind_as Hrun y w5 Hc. apply io_ret_ok in Hrun as [-> _]. done.
Qed.
(** What a restored run has of a checkpoint, and of the program it is given. *)
Lemma restored_run_ok scope program c limits control r' (w w' : W) : restore scope program c limits control w = Some (Ok r', w') →
  RunCheckpoint.scope c = scope ∧ ∃ definition fields ids history,
    Definition_.same (RunCheckpoint.definition c) definition = true
    ∧ Definition_.contexts definition = contexts_of program ∧ Definition_.dt definition = RunProgram.timestep_seconds program
    ∧ ascending (instances program) = true ∧ FiniteF64.is_positive (RunProgram.timestep_seconds program) = true
    ∧ identities fields = Ok ids
    ∧ r' = FixedRun.mk scope program (RunCheckpoint.definition c) limits
        (CommittedState.mk (CommittedState.boundary (RunCheckpoint.state c)) (CommittedState.time (RunCheckpoint.state c))
          (CommittedState.objects (RunCheckpoint.state c)) fields ids history (CommittedState.forces (RunCheckpoint.state c)))
        (RunCheckpoint.next_invocation c) false (instances program)
        (SnapshotBudget.new (RunLimits.snapshots limits) (RunLimits.snapshot_bytes limits))
    ∧ ∃ os, carries (CommittedState.objects (RunCheckpoint.state c)) os ∧ Forall (field_sound os) (RunProgram.fields program)
      ∧ Forall2 fits (RunProgram.fields program) fields
      ∧ StateExtent.matches (RunKernel.state_extent (RunProgram.dynamics program)) history = true.
Proof.
  intros Hrun. unfold restore in Hrun. bind_as Hrun d w1 Hd. pure_in Hd.
  pose proof (check_program_contexts _ _ _ _ _ Hd) as [Hctx Hdt]. apply check_program_ok in Hd as (_ & Hasc & Hpos).
  destruct (bool_decide _) eqn:Hscope; [apply bool_decide_eq_true in Hscope|by pure_in Hrun].
  destruct (Definition_.same _ _) eqn:Hsame; [|by pure_in Hrun]. cbn [negb orb] in Hrun.
  bind_as Hrun objects w2 Ho. bind_as Hrun x w3 Hr. bind_as Hrun fields w4 Hf. bind_as Hrun dynamics w5 Hdyn. bind_as Hrun inputs w6 Hi.
  bind_as Hrun out w7 Hout. destruct out as [history| |]; [|by pure_in Hrun..].
  bind_as Hrun ids w8 Hids. apply field_identities_ok in Hids. bind_as Hrun y w9 Hv. bind_as Hrun z w10 Hz. apply io_ret_ok in Hrun as [-> _].
  apply restore_fields_length in Hf. apply validate_state_ok in Hv as (os & Hos & Hsound & Hfits & Hhist); [|done].
  split; [done|]. exists d, fields, ids, history. split_and!; [done..|]. by exists os.
Qed.
Lemma same_positive a b : FiniteF64.is_positive b = true → same_scalar a b = true → a = b.
Proof.
  destruct a as [a], b as [b]. unfold FiniteF64.is_positive, same_scalar, F64.eqb, F64.ltb, SFeqb, SFltb, FiniteF64.get.
  destruct b as [[]|[]| |[] mb eb]; try done; destruct a as [[]|[]| |[] ma ea]; try done. intros _. cbn [SFcompare].
  destruct (ea ?= eb)%Z eqn:He; cbn; try done. apply Z.compare_eq in He as ->.
  destruct (Pos.compare_cont Eq ma mb) eqn:Hm; cbn; try done. by apply Pos.compare_eq in Hm as ->.
Qed.
Lemma same_contexts a b : Definition_.same a b = true → Definition_.contexts a = Definition_.contexts b ∧ same_scalar (Definition_.dt a) (Definition_.dt b) = true.
Proof. unfold Definition_.same. by intros [[[Hctx%bool_decide_eq_true _]%andb_true_iff _]%andb_true_iff Hdt]%andb_true_iff. Qed.


(** C18: Through any sequence of steps (accepted or refused, with any gate), stops
    and observations after a capture, the run stays sound: the committed objects
    are the captured ones with their identities, masses and static placement,
    moved only where they have dynamics; couplings, field states and history fit
    the program; there is a net force for exactly the dynamic objects; and scope,
    program and definition never change. *)
Theorem run_keeps_its_objects scope program captured limits control r0 (w w' : W) r leases :
  from_captured scope program captured limits control w = Some (Ok r0, w') → rtc run_step (r0, []) (r, leases) →
  sound r ∧ FixedRun.scope r = scope ∧ FixedRun.program r = program ∧ FixedRun.definition r = FixedRun.definition r0
  ∧ ∃ os os', carries (CapturedRunState.objects captured) os ∧ carries (CommittedState.objects (FixedRun.committed r)) os'
    ∧ Forall2 conserved os os'.
Proof.
  intros (Hs & Hscope & Hprogram & Hobjects & _)%from_captured_sound Hsteps.
  destruct (kept_steps _ _ Hsteps Hs) as [Hr Hk]. cbn in Hr, Hk. destruct Hk. split_and!; [done|congruence..|].
  destruct Hs as [_ (os & Hos & _) _ _ _ _ _]. destruct (kept_objects0 os Hos) as (os' & Hos' & Hcons). rewrite Hobjects in Hos. by exists os, os'.
Qed.

(** C25: Whatever observers acquire and drop, between steps and refusals, the
    leases they hold never exceed the count and the bytes the run was captured
    with, and every lease held can be dropped: its release never underflows. *)
Theorem leases_within_budget scope program captured limits control r0 (w w' : W) r leases :
  from_captured scope program captured limits control w = Some (Ok r0, w') → rtc run_step (r0, []) (r, leases) →
  (lenN leases ≤ RunLimits.snapshots limits)%N ∧ (total leases ≤ RunLimits.snapshot_bytes limits)%N
  ∧ ∀ lease, lease ∈ leases → is_Some (drop_lease lease r).
Proof.
  intros (_ & _ & _ & _ & Hbudget)%from_captured_sound Hsteps.
  assert (accounted limits (r0, [])) as Ha. { split; cbn [fst snd]; rewrite ?Hbudget; [done|done|split; apply N.le_0_l]. }
  apply (accounted_steps _ _ _ Hsteps) in Ha as [Hheld _ [Hn Ht]]. cbn [fst snd] in *. split_and!; [done|done|].
  intros lease (before & after & ->)%list_elem_of_split. unfold drop_lease, SnapshotBudget.release. rewrite Hheld. cbn [fst snd].
  rewrite lenN_app, lenN_cons, total_app. cbn [total foldr]. fold (total after).
  destruct (_ <? 1)%N eqn:E1; [apply N.ltb_lt in E1; lia|]. destruct (_ <? lease)%N eqn:E2; [apply N.ltb_lt in E2; lia|]. by eexists.
Qed.

(** C20: A run restored from a checkpoint resumes the run the checkpoint was taken
    of: it is sound and not stopped, of the same scope and contexts, at the same
    boundary and time, with the same objects and net forces and no invocation
    number given out twice, whatever the kernels made of their states; and its
    next step is the step the other run would take next. *)
Theorem checkpoint_resumes r control c (w w1 : W) program limits control' scope r' (w2 w3 : W) : sound r →
  checkpoint r control w = Some (Ok c, w1) → restore scope program c limits control' w2 = Some (Ok r', w3) →
  sound r' ∧ scope = FixedRun.scope r ∧ FixedRun.scope r' = scope ∧ FixedRun.program r' = program
  ∧ contexts_of program = contexts_of (FixedRun.program r) ∧ FixedRun.stopped r' = false
  ∧ CommittedState.boundary (FixedRun.committed r') = CommittedState.boundary (FixedRun.committed r)
  ∧ CommittedState.time (FixedRun.committed r') = CommittedState.time (FixedRun.committed r)
  ∧ CommittedState.objects (FixedRun.committed r') = CommittedState.objects (FixedRun.committed r)
  ∧ CommittedState.forces (FixedRun.committed r') = CommittedState.forces (FixedRun.committed r)
  ∧ FixedRun.next_invocation r' = FixedRun.next_invocation r
  ∧ step_context r' (FixedRun.next_invocation r') = step_context r (FixedRun.next_invocation r).
Proof.
  intros Hr (Hcs & Hcd & Hci & Hcb & Hct & Hco & Hcf)%checkpoint_ok
    (Hscope & d & fields & ids & history & Hsame & Hctx & Hdt & Hasc & Hpos & Hids & -> & os & Hos & Hsound & Hfits & Hhist)%restored_run_ok.
  destruct Hr as [[Hrctx Hrdt] (os1 & Hos1 & _ & Hforces) _ _ _ _ Hcounters].
  apply same_contexts in Hsame as [Hsctx Hsdt%same_positive]; [|by rewrite Hdt]. rewrite Hcd in Hsctx, Hsdt. rewrite Hdt in Hsdt.
  rewrite Hci, Hcb, Hct, Hco, Hcf in *. pose proof (carries_unique _ _ _ Hos1 Hos) as ->.
  assert (contexts_of program = contexts_of (FixedRun.program r)) as Hsame by congruence. split; [|split; [congruence|split_and!; try done]].
  - rewrite Hcd. split; cbn [FixedRun.definition FixedRun.program FixedRun.committed FixedRun.selected FixedRun.next_invocation
      CommittedState.objects CommittedState.fields CommittedState.field_identities CommittedState.history CommittedState.boundary];
      [|by exists os|done|done|done|done|done].
    split; congruence.
  - unfold step_context. cbn [FixedRun.scope FixedRun.program FixedRun.committed FixedRun.next_invocation CommittedState.time CommittedState.boundary].
    rewrite <-Hscope, Hcs. by replace (RunProgram.timestep_seconds program) with (RunProgram.timestep_seconds (FixedRun.program r)) by congruence.
Qed.
End validated.

(** ** Calls through the sandbox *)
(** C24: A validation envelope has one spelling: reading accepts exactly the bytes
    that writing the same inputs against the same context and limits produces,
    where storage is found, and gives those inputs back. *)
Theorem envelope_exact `{ContextCodec, !Antientropy.Sha256} (l : bytes) (ctx : InstanceContext.t) (limits : BulkLimits.t) (i : ValidationInputs.t) :
  ValidationInputs.read l ctx limits = Some (Ok i) ↔
  canonical_float (ValidationInputs.timestep_seconds i) = true
  ∧ ∀ W (host : Allocator W) (w w' : W), try_reserve w = (true, w') → ValidationInputs.encode i ctx limits w = Some (Ok l, w').
Proof.
  unfold ValidationInputs.read, ValidationInputs.encode. split.
  - intros (i' & Hf%answer_ok%framed_ok & ([] & Hc & [= ->])%outcome_bind_ok)%outcome_bind_ok. destruct Hf as (Hcan & Hn & ->).
    split; [done|]. intros W host w w' Hr. apply io_bind_ok. exists (lenN (envelope i)), w. split; [by apply pure_ok; rewrite answer_ok|].
    apply io_bind_ok. exists (), w. split; [by apply pure_ok|]. unfold mbind, io_bind, reserve. by rewrite Hr.
  - intros [Hcan He]. specialize (He unit (λ w, (true, w)) () () eq_refl).
    bind_as He n w1 Hn. pure_in Hn. apply answer_ok in Hn. bind_as He u w2 Hc. pure_in Hc. bind_as He x w3 Hr. apply io_ret_ok in He as [-> _].
    destruct u. apply outcome_bind_ok. exists i. split; [|apply outcome_bind_ok; by exists ()].
    apply answer_ok, framed_ok. split; [done|]. split; [|done].
    pose proof (proj1 (encoded_bytes_ok i limits n) Hn) as (_ & _ & Hsize & _). rewrite Hn. f_equal. rewrite Hsize.
    transitivity (lenN (envelope i)); [|reflexivity]. unfold lenN. rewrite envelope_length. lia.
Qed.

Section pinned.
Context `{Sandbox W, !ContextCodec, !Antientropy.Sha256}.
#[local] Existing Instance sandboxed.
Lemma owed_forces_ok last l : owed_forces last l = lenN (responders last l).
Proof.
  revert last. induction l as [|c l IH]; intros last; cbn [owed_forces responders]; [done|]. unfold owed.
  destruct (CoupledEntity.responds_dynamically c); cbn [negb andb]; [|apply IH].
  destruct (bool_decide _); cbn [negb]; [apply IH|]. by rewrite IH, lenN_cons.
Qed.
(** The kernel that is called is the one the context names, set up with the
    written context and the pinned configuration, under a deadline no later. *)
Definition pinned_setup (kernel : CompiledKernel) (context : InstanceContext.t) (config setup : Buffer.t) (control control' : OperationControl.t) : Prop :=
  InstanceContext.kernel context = kernel_artifact kernel ∧ InstanceContext.execution_contract context = kernel_contract kernel
  ∧ InputIdentity.matches (InstanceContext.configuration context) (Buffer.schema config) (Buffer.value_count config) (Buffer.bytes config) = true
  ∧ (∃ bytes, to_cbor context = Ok bytes ∧ setup = Buffer.mk INSTANCE_SCHEMA 1 bytes)
  ∧ OperationControl.cancelled control' = OperationControl.cancelled control ∧ OperationControl.parent control' = OperationControl.parent control
  ∧ (OperationControl.deadline control' ≤ OperationControl.deadline control)%N.
(** The envelope is of this context, of these entities and of the timestep of the step. *)
Definition pinned_inputs (context : InstanceContext.t) (step : StepContext.t) (entities validation : Buffer.t) : Prop :=
  ∃ i limits, ValidationInputs.read (Buffer.bytes validation) context limits = Some (Ok i)
    ∧ ValidationInputs.entities i = Buffer.bytes entities
    ∧ F64.eqb (FiniteF64.get (ValidationInputs.timestep_seconds i)) (StepContext.dt_seconds step) = true.

Lemma bounded_ok control control' (w w' : W) : bounded control w = Some (Ok control', w') →
  OperationControl.cancelled control' = OperationControl.cancelled control ∧ OperationControl.parent control' = OperationControl.parent control
  ∧ (OperationControl.deadline control' ≤ OperationControl.deadline control)%N.
Proof.
  unfold bounded. destruct (now w) as [instant w1]. destruct (instant_checked_add _ _) as [policy|]; [|done]. intros [= <- <-].
  cbn. split_and!; [done|done|lia].
Qed.
Lemma bound_input_ok b identity i u : Bound.input b identity i = Some (Ok u) →
  InputIdentity.matches identity (Buffer.schema i) (Buffer.value_count i) (Buffer.bytes i) = true.
Proof. unfold Bound.input. destruct (_ <? _)%N; [done|]. by destruct (InputIdentity.matches _ _ _ _). Qed.
Lemma bound_context_ok kernel context config setup control control' : bound_context kernel context config = Some (Ok setup) →
  OperationControl.cancelled control' = OperationControl.cancelled control ∧ OperationControl.parent control' = OperationControl.parent control
  ∧ (OperationControl.deadline control' ≤ OperationControl.deadline control)%N →
  pinned_setup kernel context config setup control control'.
Proof.
  unfold bound_context. intros Hb Hcontrol. destruct (to_cbor context) as [bytes|] eqn:Hbytes; [|done].
  destruct (bool_decide (_ = kernel_artifact _)) eqn:E1; [apply bool_decide_eq_true in E1|done].
  destruct (bool_decide (_ = kernel_contract _)) eqn:E2; [apply bool_decide_eq_true in E2|done]. cbn [negb orb] in Hb.
  apply outcome_bind_ok in Hb as (u & Hi%bound_input_ok & Hb). destruct (_ || _); [done|]. destruct (ResolvedConfiguration_from_cbor _); [|done].
  cbn [negb] in Hb. injection Hb as <-. split_and!; [done|done|done|by exists bytes|apply Hcontrol..].
Qed.
Lemma bound_validation_ok context limits schema i step entities u :
  Bound.validation (Bound.mk context limits schema) i (Some step) (Some entities) = Some (Ok u) → pinned_inputs context step entities i.
Proof.
  unfold Bound.validation. destruct (_ || _); [done|]. cbn [Bound.context Bound.limits].
  destruct (ValidationInputs.read _ _ _) as [[inputs|]|] eqn:Hread; [|done..]. destruct (DomainDescriptor_from_cbor _); [|done]. cbn [negb].
  intros (x & Hs & Hr)%outcome_bind_ok. apply outcome_bind_ok in Hs as (y & _ & Hs). destruct (F64.eqb _ _) eqn:Hdt; [|done].
  apply outcome_bind_ok in Hr as (z & _ & Hr). destruct (bool_decide _) eqn:He; [apply bool_decide_eq_true in He|done].
  by exists inputs, limits.
Qed.
Lemma call_field_bound_ok kernel context config step prior entities validation field forces control result (w w' : W) cs :
  carries entities cs →
  call_field_bound kernel context config (FieldOperation.Advance step prior entities validation field forces) control w = Some (Ok result, w') →
  ∃ setup control' w1 w2, pinned_setup kernel context config setup control control' ∧ pinned_inputs context step entities validation
    ∧ OutputExtent.schema forces = SCHEMA Force.t ∧ OutputExtent.values forces = lenN (responders None cs)
    ∧ invoke_field kernel setup config (FieldOperation.Advance step prior entities validation field forces) control' w1 = Some (Ok result, w2).
Proof.
  intros Hcs Hrun. unfold call_field_bound in Hrun. bind_as Hrun control' w1 Hcontrol. apply bounded_ok in Hcontrol. bind_as Hrun x w2 Hx.
  bind_as Hrun setup w3 Hsetup. pure_in Hsetup. apply (bound_context_ok _ _ _ _ control control') in Hsetup; [|done].
  bind_as Hrun request w4 Hreq. pure_in Hreq. injection Hreq as <-. bind_as Hrun y w5 Hpre. pure_in Hpre. bind_as Hrun z w6 Hz.
  bind_as Hrun res w7 Hcall. bind_as Hrun a w8 Ha. bind_as Hrun b w9 Hb. apply io_ret_ok in Hrun as [-> _].
  cbn [field_preflight] in Hpre. apply outcome_bind_ok in Hpre as (? & _ & Hpre). apply outcome_bind_ok in Hpre as (? & _ & Hpre).
  apply outcome_bind_ok in Hpre as (? & Hval%bound_validation_ok & Hpre).
  apply outcome_bind_ok in Hpre as (batch & Hbatch%answer_ok%map_err_ok & Hpre). apply (carries_read _ cs) in Hbatch; [|done].
  rewrite (holds_iter _ _ Hbatch) in Hpre. unfold Bound.projection_extent in Hpre. destruct (packet_bytes _ _ _); [|done].
  destruct (bool_decide _) eqn:E1; [apply bool_decide_eq_true in E1|done]. destruct (_ =? _)%N eqn:E2; [apply N.eqb_eq in E2|done].
  rewrite owed_forces_ok in E2. by exists setup, control', w6, w7.
Qed.

End pinned.

(** ** A run of two bodies under one field *)
(** The field pushes one body, the integrator moves it along; the other has no
    dynamics. The sandbox never refuses. *)
#[local] Existing Instance Antientropy.toy_sha256.
#[local] Instance pushed_components : Components := {|
  CompiledKernel := ExecutionContractId.t;
  kernel_contract := λ k, k;
  kernel_artifact := λ _, ArtifactDigest.sha256_of [];
  Fault := Empty_set
|}.
#[local] Instance pushed_observables : Observables := {| ObservableBinding := unit |}.
Definition pushed_buffer {R} `{BulkRecord R} (records : list R) : Buffer.t := Buffer.mk (SCHEMA R) (lenN records) (packet_of records).
Definition pushed_state : Buffer.t := Buffer.mk "push/v1" 1 [Antientropy.byte 3].
Definition pushed_input (schema : string) : Buffer.t := Buffer.mk schema 1 [].
Definition pushed_objects : list ObjectState.t :=
  [ObjectState.mk (EntityId.mk 7) example_kinematics (Some example_one); ObjectState.mk (EntityId.mk 8) example_kinematics None].
Definition pushed_coupling : CoupledEntity.t :=
  CoupledEntity.mk (EntityId.mk 7) (CouplingSlot.mk 0) example_kinematics true None (Some example_one).
Definition pushed_moved : DynamicEntity.t :=
  DynamicEntity.mk (EntityId.mk 7) (Kinematics.mk (Vec3.mk example_one example_one FiniteF64.ZERO) (Vec3.mk example_one FiniteF64.ZERO FiniteF64.ZERO)) example_one.
Definition pushed_pin (schema : string) : InputIdentity.t := InputIdentity.of_ (SchemaId.mk schema) 1 [].
Definition pushed_context (contract : ExecutionContractId.t) : InstanceContext.t :=
  InstanceContext.mk (ApiVersion.mk "orishu/v1") (ComponentInstanceId.mk (if decide (contract = ExecutionContractId.Field) then "push" else "walk"))
    (ArtifactDigest.sha256_of []) (PluginIds.ContributionRef.mk (PluginIds.PluginReleaseId.mk []) (PluginIds.ExtensionPointId.mk "kernel") (PluginIds.LocalContributionId.mk "push"))
    (ScientificContractRef.mk (PluginName.mk "push") 1 (ArtifactDigest.sha256_of [])) contract (StateFormat.mk (PluginName.mk "push") 1)
    ExecutionProfile.ForceThenIntegrate (pushed_pin CONFIGURATION_SCHEMA) (pushed_pin DOMAIN_SCHEMA)
    [CouplingDescriptor.mk (PluginIds.LocalContributionId.mk "charge") (ScientificContractRef.mk (PluginName.mk "push") 1 (ArtifactDigest.sha256_of [])) None
      (Some (CouplingProperty.mk (PluginIds.LocalContributionId.mk "charge") Dimension.DIMENSIONLESS))]
    [] ComputePrecision.Binary64 (ExecutionBounds.mk 10 10 10 10).
#[local] Instance pushed_codec : ContextCodec := {|
  to_cbor := λ c, Ok [Antientropy.byte (if decide (InstanceContext.execution_contract c = ExecutionContractId.Field) then 0 else 1)];
  from_cbor := λ l, Ok (pushed_context (if decide (l = [Antientropy.byte 0]) then ExecutionContractId.Field else ExecutionContractId.Dynamics))
|}.
#[local] Instance pushed_sandbox : Sandbox unit := {|
  sandbox_allocator := λ w, (true, w);
  sandbox_clock := {| is_cancelled := λ _ w, (false, w); now := λ w, (0%N, w) |};
  instant_checked_add := λ instant timeout, Some (instant + timeout)%N;
  operation_timeout := 5;
  grant_bytes := 1000000;
  DomainDescriptor_from_cbor := λ _, true;
  ResolvedConfiguration_from_cbor := λ _, true;
  SampleRequest := Empty_set;
  SampleRequest_read := λ _ _, None;
  request_checks_context := λ _ _, false;
  request_state := Empty_set_rect _;
  request_layout := λ _ _, None;
  request_len := λ _, 0%N;
  SampleResponse_read := λ _ _ _, false;
  invoke_field := λ _ _ _ operation _ w,
    Some (match operation with
          | FieldOperation.Advance _ prior _ _ _ _ => Ok (FieldResult.Advanced prior (pushed_buffer [example_force]))
          | FieldOperation.Validate _ _ => Ok (FieldResult.Admissible None)
          | FieldOperation.Checkpoint state _ | FieldOperation.Restore state _ _ => Ok (FieldResult.State state)
          | _ => Ok (FieldResult.State pushed_state)
          end, w);
  invoke_dynamics := λ _ _ _ operation _ w,
    Some (match operation with
          | DynamicsOperation.Integrate _ _ _ prior _ _ _ => Ok (DynamicsResult.Integrated (pushed_buffer [pushed_moved]) prior)
          | DynamicsOperation.Validate _ _ => Ok (DynamicsResult.Admissible None)
          | DynamicsOperation.Checkpoint history _ | DynamicsOperation.Restore history _ _ => Ok (DynamicsResult.History history)
          | _ => Ok (DynamicsResult.History pushed_state)
          end, w)
|}.
#[local] Instance pushed_host : Host unit := sandboxed (W := unit).
Definition pushed_kernel (contract : ExecutionContractId.t) : RunKernel.t :=
  RunKernel.mk contract (pushed_context contract) (pushed_input CONFIGURATION_SCHEMA) (pushed_input DOMAIN_SCHEMA) (StateExtent.mk (SchemaId.mk "push/v1") 1 1).
Definition pushed_program : RunProgram.t :=
  RunProgram.mk [RunField.mk (pushed_kernel ExecutionContractId.Field) (pushed_buffer [pushed_coupling])] (pushed_kernel ExecutionContractId.Dynamics) example_one.
Definition pushed_captured : CapturedRunState.t := CapturedRunState.mk (pushed_buffer pushed_objects) [pushed_state] pushed_state.
Definition pushed_scope : RunScope.t := RunScope.mk (WorkloadDigest.mk (ArtifactDigest.sha256_of [])) (ArtifactDigest.sha256_of []) 1.
Definition pushed_control : OperationControl.t := OperationControl.mk (Cancellation.mk 0) None 1.
Definition pushed_gate : RunScope.t → CommittedState.t → io unit RunError.t unit := λ _ _, mret ().
Notation pushed_run := (from_captured pushed_scope pushed_program pushed_captured RunLimits.default pushed_control ()).
Notation pushed_advance r := (advance_with_commit r pushed_control pushed_gate ()).
Definition pushed_restored (r : FixedRun.t) : bool :=
  match checkpoint r pushed_control () with
  | Some (Ok c, _) =>
    match restore pushed_scope pushed_program c RunLimits.default pushed_control () with Some (Ok r', _) => true | _ => false end
  | _ => false
  end.
(** A step is taken, an observer holds the objects it left, and a checkpoint is restored. *)
Definition pushed_through : bool :=
  match pushed_run with
  | Some (Ok r, _) =>
    match pushed_advance r with
    | Some (Ok _, r', _) =>
      bool_decide (CommittedState.boundary (FixedRun.committed r') = 1%N) && pushed_restored r'
      && match acquire_objects r' false with Ok (s, r2) => bool_decide (ObjectSnapshot.lease s = 200%N) | Err _ => false end
    | _ => false
    end
  | _ => false
  end.
Lemma pushed_through_ok : ∃ r r' s r2, pushed_run = Some (Ok r, ()) ∧ pushed_advance r = Some (Ok (), r', ())
  ∧ CommittedState.boundary (FixedRun.committed r') = 1%N ∧ pushed_restored r' = true
  ∧ acquire_objects r' false = Ok (s, r2) ∧ ObjectSnapshot.lease s = 200%N.
Proof.
  assert (pushed_through = true) as Hok by (vm_compute; reflexivity). unfold pushed_through in Hok.
  destruct pushed_run as [[[r|e] []]|]; [|discriminate Hok..]. destruct (pushed_advance r) as [[[[[]|e] r'] []]|] eqn:Ha; [|discriminate Hok..].
  apply andb_true_iff in Hok as [Hok Hobs]. apply andb_true_iff in Hok as [Hb Hres]. apply bool_decide_eq_true in Hb.
  destruct (acquire_objects r' false) as [[s r2]|e] eqn:Ho; [|discriminate Hobs]. apply bool_decide_eq_true in Hobs.
  exists r, r', s, r2. split_and!; [reflexivity|exact Ha|exact Hb|exact Hres|exact Ho|exact Hobs].
Qed.
Lemma pushed_steps r r' s r2 : pushed_advance r = Some (Ok (), r', ()) → acquire_objects r' false = Ok (s, r2) →
  rtc run_step (r, []) (r2, [ObjectSnapshot.lease s]).
Proof.
  intros Ha Ho. apply (rtc_l _ _ (r', [])); [exact (step_advance _ _ _ _ _ _ _ _ Ha)|].
  apply rtc_once. exact (step_objects _ _ _ _ _ Ho).
Qed.

Lemma run_keeps_its_objects_witness : ∃ r r', pushed_run = Some (Ok r, ()) ∧ CommittedState.boundary (FixedRun.committed r') = 1%N
  ∧ ∃ os os', carries (CapturedRunState.objects pushed_captured) os ∧ carries (CommittedState.objects (FixedRun.committed r')) os' ∧ Forall2 conserved os os'.
Proof.
  destruct pushed_through_ok as (r & r' & s & r2 & Hr & Ha & Hb & _ & Ho & _). exists r, r'. split; [exact Hr|]. split; [exact Hb|].
  exact (proj2 (proj2 (proj2 (proj2 (run_keeps_its_objects pushed_scope pushed_program pushed_captured RunLimits.default pushed_control r () () r' []
    Hr (rtc_once _ _ (step_advance r [] pushed_control pushed_gate (Ok ()) r' () () Ha))))))).
Defined.
Lemma leases_within_budget_witness : ∃ r, is_Some (drop_lease 200 r).
Proof.
  destruct pushed_through_ok as (r & r' & s & r2 & Hr & Ha & _ & _ & Ho & Hl). exists r2. rewrite <-Hl.
  apply (leases_within_budget pushed_scope pushed_program pushed_captured RunLimits.default pushed_control r () () r2 _ Hr (pushed_steps r r' s r2 Ha Ho)).
  constructor.
Defined.
Lemma checkpoint_resumes_witness : ∃ r r', sound r' ∧ CommittedState.boundary (FixedRun.committed r') = 1%N
  ∧ step_context r' (FixedRun.next_invocation r') = step_context r (FixedRun.next_invocation r).
Proof.
  destruct pushed_through_ok as (r0 & r & s & r2 & Hr0 & Ha & Hb & Hres & _). pose proof (from_captured_sound _ _ _ _ _ _ _ _ Hr0) as [Hs0 _].
  pose proof (sound_advance _ _ _ _ _ _ _ Hs0 Ha) as Hs. unfold pushed_restored in Hres.
  destruct (checkpoint r pushed_control ()) as [[[c|e] w1]|] eqn:Hc; [|discriminate..].
  destruct (restore pushed_scope pushed_program c RunLimits.default pushed_control ()) as [[[r'|e] w3]|] eqn:Hrest; [|discriminate..].
  destruct (checkpoint_resumes r pushed_control c () w1 pushed_program RunLimits.default pushed_control pushed_scope r' () w3 Hs Hc Hrest)
    as (Hsound & _ & _ & _ & _ & _ & Hbound & _ & _ & _ & _ & Hnext).
  exists r, r'. split; [exact Hsound|]. split; [rewrite Hbound; exact Hb|exact Hnext].
Defined.
